(* ===== verification/_CoqProject ===== *)
-Q . S2P
Prelude.v
Ids.v
Lifecycle.v
Run.v
Merge.v
Review.v
ResourceAccess.v
Instance.v
Handoff.v
BoundaryLifecycle.v
Plan.v
Settlement.v
SettlementLane.v
Egress.v
Federation.v
GaugeVault.v
ModelData.v
ModelAccess.v
ModelSpend.v
ModelConnection.v
Scenarios.v
Store.v
StoreSystem.v
Desk.v
AccessControl.v
Delivery.v
MachineExecution.v
Recovery.v
RemoteCall.v
RemoteSession.v
RuntimeSession.v
Enrollment.v
MachineController.v
MobileWake.v
Entitlement.v
AgentVersion.v
Distribution.v
Records.v
Texts.v
KeyRelease.v
Keeper.v
Erasure.v
Workstream.v
Export.v
Pricing.v
Supply.v
Wire.v
SignedText.v
ProtectedProfile.v
ProjectHost.v
AgentRelease.v
Directory.v
Scopes.v
Tables.v
Commands.v
Remember.v
RecordAdmission.v
Archive.v
Dispatch.v
RequestAdmission.v
CommandSystem.v
CommandSample.v
Staging.v
Pairs.v
Prefixes.v
Frames.v
ResourceStore.v
Advancement.v
Quarantine.v
AuditTimeline.v
Organization.v
MembershipFence.v
Tenancy.v
ManagedInference.v
ManagedFunding.v
ManagedEntitlement.v
WorkChatFunding.v
