(* ===== verification/Prelude.v ===== *)
(** * GaugeDesk: a verification development of the pure core and its event store

    ** The program

    GaugeDesk keeps every durable fact as an event in a per-scope, append-only
    log. The pure core ([crates/core/src]) is a collection of lifecycles: a state
    type with [decide], which admits or refuses a command and names the events it
    causes, and [evolve], which folds one event. The store ([crates/store/src])
    admits commands inside one SQLite transaction: it folds the scope's log (from
    a checkpoint when one is valid), asks [decide], appends the events at the next
    positions and checkpoints. Shells (HTTP routes, relay, desktop) are outside:
    they observe the world and submit commands that carry what they observed.

    ** Files

    - [Prelude.v]: results and [?], record update, machine integers, ordered maps,
      folds that may panic, list lemmas, the tactics and hint databases. [Texts.v]: the
      string operations of the standard library the source uses ([split], [lines],
      [trim], prefixes, slugs, ordered sets of strings).
    - [Ids.v]: [ids.rs] (identities, [parse]) and [determine_scope_authority] of
      [lib.rs].
    - [Lifecycle.v]: the [Lifecycle] trait and [SnapshotCodec] of [lib.rs],
      [host_action_admission.rs]; the class [LifecycleSafe] (what a reducer
      promises its clients: an invariant every admitted command keeps, and a fold
      that never panics); [trace], the histories of a lifecycle by rules; [session]
      and [drive], which run a list of requests.
    - [Run.v], [Merge.v], [Review.v], [ResourceAccess.v], [Instance.v],
      [Handoff.v]: the reducers of the files of the same names.
    - [BoundaryLifecycle.v]: [boundary_lifecycle.rs] with the values of
      [attestation.rs] it consumes.
    - [Plan.v]: [plan.rs], with Kahn's algorithm over a proposal's steps.
    - [Settlement.v], [SettlementLane.v]: [target_settlement.rs], the coordinator and
      the ordered lane of one target. [Scenarios.v] runs both, and other reducers, on
      concrete histories.
    - [Egress.v]: [boundary.rs], [taint.rs], [resource.rs], [revocation.rs].
    - [Federation.v]: [signature.rs] (verification), [delegation.rs],
      [bridge_grant.rs], [federation.rs].
    - [Delivery.v]: [federated_delivery.rs], [federated_envelope.rs].
    - [GaugeVault.v]: [gaugevault.rs], credential custody. [decide]'s one match is
      split by groups of operations ([intake_change], [candidate_change],
      [standing_change], [dispatch_change]) and [evolve]'s likewise.
    - [ModelData.v], [ModelAccess.v], [ModelSpend.v], [ModelConnection.v]:
      [model_connection.rs] with [access.rs] and [spend.rs]: organizations' model
      connections, credential versions, grants, budgets and metered attempts.
    - [Store.v]: [store/src/lib.rs] and [snapshot.rs]: the tables [events],
      [command_receipts] and [scope_snapshots], the record appends, [fold],
      [load], [checkpoint], [admit] and [admit_with_key].
    - [StoreSystem.v]: a store that hosts several lifecycles and serves requests.
    - [Desk.v]: that store with seven of the lifecycles above.
    - [AccessControl.v]: [abac.rs], [rbac.rs]. [MachineExecution.v]:
      [managed_machine_execution.rs]. [Recovery.v]: [recovery.rs].
    - [RemoteCall.v], [RemoteSession.v], [RuntimeSession.v], [Enrollment.v]
      ([device_enrollment.rs]), [MachineController.v] ([mobile_machine_session.rs]),
      [MobileWake.v]: devices and the calls between them.
    - [Entitlement.v] ([deployment_entitlement.rs]), [AgentVersion.v],
      [Distribution.v] ([package_distribution.rs]): the lifecycles of a package.
      [Records.v]: [app/src/package_store.rs], manifests as latest-wins records.
      [KeyRelease.v]: [key_release.rs], the loopback quote verifier and the two key
      services of [app/src/boundary_keeper.rs] behind one interface. [Keeper.v]:
      [app/src/package_flow.rs], the attested acceptance of [boundary_keeper.rs] and
      [library_state.rs], and the release and metering of [resource_store.rs], over a
      store that hosts these lifecycles.
    - [Erasure.v] ([content_erasure.rs]), [Workstream.v], [Export.v]
      ([resource_export.rs]), [Supply.v] ([envelope_supply.rs]), [Pricing.v]
      ([whip_pricing.rs], [billing.rs]).
    - [Wire.v]: [relay-transport/src/wire.rs].
    - [SignedText.v]: the line-based texts that are signed, as an interface of
      digests and signatures; over it [ProtectedProfile.v] ([protected_profile.rs]),
      [ProjectHost.v] ([project_home_handoff.rs], [project_host_export.rs],
      [project_host_registration.rs], [app/src/possession_exchange.rs]),
      [AgentRelease.v] ([agent_release.rs]) and [Directory.v] (the
      [directory-protocol] crate).
    - The rest of the store, over the log of [Store.v]: [Scopes.v], discovery of scopes
      and the reads within and across them; [Remember.v], the memory of folds;
      [Tables.v], record revisions, content metadata, projections, observations, scope
      descriptors and the schema ledger; [Commands.v], the command table with its
      claims, [admit_materialized] and the basis of an authorization ([lib.rs],
      [command_dispatch.rs]); [RecordAdmission.v] ([record_admission.rs]);
      [Staging.v], what its writes leave, [Pairs.v] ([record_admission_pair.rs]) and
      [Prefixes.v] ([record_admission_prefix.rs]), results and phases with markers; [Dispatch.v] ([command_dispatch.rs], the held
      writer and dispatch); [RequestAdmission.v] ([request_admission.rs]);
      [Archive.v] ([command_scope_archive.rs]). [CommandSystem.v] serves all these
      commands over one database; [CommandSample.v] runs it on concrete histories.
      [Frames.v]: what an append or an admission leaves as it was, for the clients below.
    - The application over that store: [AuditTimeline.v] ([app/src/audit.rs], the chained
      timeline of each tenant, its checkpoints and exporters); [Organization.v]
      ([app/src/org.rs], the directory of an organization as a fold of records);
      [ManagedInference.v] ([managed_inference.rs], the credit ledger and the usage,
      reservation and settlement records), [ManagedFunding.v] ([managed_funding.rs]),
      [ManagedEntitlement.v] ([managed_entitlement.rs]) and [WorkChatFunding.v]
      ([work_chat_funding.rs], the margins of [deployment_pricing.rs]), the funding of
      managed turns. The serializers these share are classes ([AuditJson], [OrgJson],
      [InferenceJson], [TenancyJson]).
    - What an engagement works with: [ResourceStore.v] ([app/src/resource_store.rs],
      resources as records, their access and erasure, reads, stakes and derived outputs);
      [Advancement.v] ([app/src/advancement.rs] and [auto_advance_turn] of
      [app/src/engine.rs], when a turn may move the main line by itself);
      [Quarantine.v] ([app/src/quarantine.rs], [app/src/gate.rs], the custody of what
      arrives from outside and the verdict that lets it in).
    - Who belongs where: [MembershipFence.v] ([app/src/membership_fence.rs], which
      standing a command changes and the receipts it carries), [Tenancy.v]
      ([app/src/tenancy.rs], [app/src/facility.rs], the switcher, invitations,
      provisioning and deletion of organizations).

    State of the source is a [Record] with the source's fields, enums are
    [Inductive] types with the source's constructors (prefixed where Rust's paths
    keep them apart), [decide] and [evolve] are functions of the same name.
    [Result] is [result], [?] is [let?] or [try!], a panic of a fold ([expect],
    [assert!], [unreachable!], indexing) is [None], and of a store operation
    [Unwound], which rolls its transaction back as an error does. Several store
    operations in a row, with [?] between them, are a [Prog] of [Records.v].

    ** What is shown

    - Lifecycles: for every list of requests, refused ones among them, the session
      runs to its end without a panic in a state that satisfies the reducer's
      invariant and is the replay of the log ([*_session_*]); then the safety
      properties of each: release only with everyone's standing consent, one
      standing advance per merge cycle, home moves only with log and content,
      starts only after admission, evidence and custody never lost, closed
      credentials and connections never reopened, exactly-once dispatch against
      what is active at that moment, enrollment of the presented subkey alone,
      receipts admitted once, and exactly of envelopes that pass every check.
    - Plans and settlements: a proposal passes exactly when its steps can be ordered,
      and the check ends; an active plan never deadlocks; steps settle on evidence
      under a policy; per member, starts and receipts refine an abstract effect that
      runs once unless an authenticated failure allows a retry; a lane serializes.
    - Machines: the worker events of a managed execution are a run of a fence with
      consecutive epochs; it is settled once, within its reservation.
    - Spending: the bucketed checked sums are the plain sums; they do not overflow;
      no reservation passes a cap; charges are not raised but by usage evidence
      beyond the bound; a failed enforcement is quarantined; accounting months are
      the Gregorian months; prices are exact sums rounded up once, or name every gap.
    - Federation and egress: admission of a crossing exactly when it is routed,
      authentic under the pinned root and the grant valid; the signed texts are
      unambiguous; egress exactly with the stakeholders' consent, revocation
      for the future only.
    - Store, against [LifecycleSafe] and the laws of third-party code alone: every
      reachable database is gap-free and append-only and holds, per scope and
      lifecycle, the log of a history; [admit] refines the lifecycle and frames
      everything else; keyed admission happens at most once; folding from a
      checkpoint equals full replay; records read back.
    - Attested runs, over that store: readiness is installation and a standing
      entitlement; keys are released only on a vouched-for measurement under a
      standing, unexpired entitlement, and every batch is metered once.
    - Wire: the handshake determines what it presents; frames and credit reports lose
      and invent nothing.
    - Signed statements: a text determines what was signed, or a finding shows two
      values with one text; a release, an artifact, a registration, a restore or a root
      transition is accepted exactly on a signature over exactly that value by the key
      it names, and on each check the code makes.
    - The command plane, for every list of requests to a store with any hosted
      lifecycles: command ids and keys are unique and originals never change; a claim
      is won at most once; a dispatch, a materialized command, a protected request and a
      set of record facts take effect once, are read back whole ever after, and their
      keys refuse anything else; nothing is published once a check of the held writer
      was refused or its deadline or a guard failed.
    - Recorded pairs and phases: what was committed verifies ever after to the same events,
      facts and positions, is not written twice, and its name refuses any other meaning.
    - Readers, memory, tables: the range scan finds exactly the scopes with a prefix and
      paging finds each scope once; an authority's read is whole or an error; memory
      returns only what a fold would; the tables keep what was written, and a newer
      schema is refused untouched.
    - Audit: a tenant's timeline is what was recorded for it, verifies, and cannot be
      rewritten under a head or a checkpoint but by a collision among its own entries;
      the exporter accounts for every entry.
    - Directory: the latest record of an id stands; who was offboarded has no role,
      reaches nothing and gets nothing joined; seats are bounded.
    - Managed inference: credits are conserved in every history; usage is billed once,
      outcomes recorded once; funding is granted exactly by current evidence and a
      reference authorizes nothing by itself; entitlements bind every claim; a call is
      held once, within the credit, and holds cover what the card says a turn costs.
    - Resources: a tombstone withholds for good; the stakes of an engagement are those of
      everything it ever read; a certificate cannot under-report its reads. A turn moves
      the main line by itself only under every guard, and settles the merge it made.
    - Quarantine: every byte of a folder that came from outside was held for a pending
      item and was let in by a verdict, once; payloads do not mix.
    - Membership: whoever gains or loses standing, while ids keep their persons, is listed,
      with one receipt each; an
      invitation is accepted whole and once; provisioning is idempotent; an organization
      is deleted only by its last owner and is gone for everyone.
    - Archives: an exported plane is imported exactly, or not at all, by a store with
      another codec, and exported again as it was.

    ** Integers, fuel, third-party code

    Unsigned integers are [N] at their width: [+] wraps ([u64_add], [u32_add]),
    [checked_add] is partial, u128 accumulators are checked. Row positions are [Z].
    Some loops have no structural measure: the year loop of [Month::at] runs on fuel
    [YEAR_FUEL] = 401, enough because fewer than 146097 days (400 years) remain when
    it starts; Kahn's loop of [valid_steps] on one more than the number of steps,
    enough because every round but the last removes one; the runs of
    [records_across_scopes] on the number of rows, as every run takes one; and the
    pages of a discovery on more than the number of scopes. The theorems about them
    prove that this is enough. P-256 verification, [serde_json], CBOR, hex, base64, seed keys, the
    content codec and SHA-256 are arguments with their documented laws as classes
    ([P256], [JsonLaws], [SnapshotLaws], [CodecLaws], [AnchorLaws], [SeedKeyLaws],
    [HexLaws], [SignedTextLaws], [SigningLaws]); concrete instances show the laws can hold. A database is its tables;
    SQLite's isolation is that transactions run one at a time. A hosted service has
    one lifecycle per kind, and plain records use other kinds. The transactions of one
    [admit_materialized] run without another's between them. The clock and the process
    guards are a process state given to each check; the memory of folds reads a history
    in which events are only appended and the codec's epoch moves with its answers.

    ** Not modelled, and why

    Most of [crates/app], [crates/workspace], [crates/harness], [whip-runtime], [ee] and
    the desktop and mobile shells are HTTP routes, process and file I/O around the parts
    above: their behaviour is that of code outside the repository (axum, tokio, git,
    the model providers) under calls to what is modelled. The carriers of
    [relay-transport] and pinned TLS are likewise I/O. Key generation and signing need
    randomness. Of [resource_store.rs] the exports to disk, of [gate.rs] the shipped
    gate programs, of [tenancy.rs] the choice of a host, of [engine.rs] all but
    automatic advancement are left. Of the store, the handle's methods for
    task inputs, the product and reference files of a Home, the migration inventory and
    the retention of project keys are left: task inputs would come next, then the
    product file of a Home and vault namespaces. *)

From stdpp Require Export base tactics numbers option list sorting gmap strings.
From Stdlib Require Export NArith Lia.

(** ** Results: Rust's [Result<T, E>] and the [?] operator *)

Inductive result (E T : Type) : Type :=
| Ok (t : T)
| Err (e : E).
Arguments Ok {E T} t.
Arguments Err {E T} e.

#[global] Instance result_eq_dec `{EqDecision E, EqDecision T} : EqDecision (result E T).
Proof. solve_decision. Defined.

(** A refused command: [Rejection { reason: &'static str }] of [lib.rs]. *)
Record Rejection := mkRejection { reason : string }.

#[global] Instance Rejection_eq_dec : EqDecision Rejection.
Proof. solve_decision. Defined.

Definition reject {T : Type} (why : string) : result Rejection T :=
  Err (mkRejection why).

(** [require(condition, reason)?] *)
Definition require (condition : bool) (why : string) : result Rejection unit :=
  if condition then Ok () else reject why.

Definition ok_or {E T : Type} (o : option T) (e : E) : result E T :=
  match o with Some t => Ok t | None => Err e end.

(** Loops whose body may return early with [?]. *)
Fixpoint try_each {E A : Type} (f : A → result E unit) (l : list A) : result E unit :=
  match l with
  | [] => Ok ()
  | x :: l => match f x with Ok _ => try_each f l | Err e => Err e end
  end.

Fixpoint try_fold {E A B : Type} (f : B → A → result E B) (b : B) (l : list A) : result E B :=
  match l with
  | [] => Ok b
  | x :: l => match f b x with Ok b' => try_fold f b' l | Err e => Err e end
  end.

Lemma try_each_ok {E A} (f : A → result E unit) l :
  try_each f l = Ok () ↔ ∀ x, x ∈ l → f x = Ok ().
Proof.
  induction l as [|x l IH]; simpl.
  - split; [|done]. intros _ x Hx. by apply elem_of_nil in Hx.
  - destruct (f x) as [[]|e] eqn:Hf.
    + rewrite IH. setoid_rewrite elem_of_cons. naive_solver.
    + split; [done|]. intros H. specialize (H x). rewrite Hf in H. apply H. by left.
Qed.

Lemma try_fold_err {E A B} (P : E → Prop) (f : B → A → result E B) b l e :
  (∀ b x e, f b x = Err e → P e) → try_fold f b l = Err e → P e.
Proof.
  intros Hf. revert b. induction l as [|x l IH]; intros b; simpl; [done|].
  destruct (f b x) eqn:Hx; [apply IH|]. intros [= <-]. by eapply Hf.
Qed.

Declare Scope core_scope.
Delimit Scope core_scope with core.
Open Scope core_scope.

Notation "'let?' x := m 'in' k" :=
  (match m with Ok x => k | Err e => Err e end)
  (at level 10, x pattern, m at level 100, k at level 200,
   format "'[v' 'let?'  x  :=  m  'in' '/' k ']'") : core_scope.
Notation "'try!' m ; k" :=
  (match m with Ok _ => k | Err e => Err e end)
  (at level 10, m at level 100, k at level 200,
   format "'[v' 'try!'  m ; '/' k ']'") : core_scope.

(** ** Records: functional update [s <| field := v |>]

    [Eta R] gives the expansion of a record into its projections; the setter
    of a projection is found from it by replacing that projection's
    occurrence. *)

Class Eta (R : Type) := mkEta { eta : R → R }.
Class Setter {R T : Type} (proj : R → T) := mkSetter { set : (T → T) → R → R }.
Arguments mkEta {R} eta.
Arguments mkSetter {R T proj} set.
Arguments set {R T} proj {_} _ _ /.

Ltac solve_setter :=
  lazymatch goal with
  | |- @Setter ?R ?T ?proj =>
      let inst := constr:(_ : Eta R) in
      let body := eval hnf in inst in
      lazymatch body with
      | mkEta ?expand =>
          let f := fresh "f" in let r := fresh "r" in
          refine (mkSetter (λ (f : T → T) (r : R), _));
          let expanded := eval cbv beta in (expand r) in
          let abstracted := eval pattern (proj r) in expanded in
          lazymatch abstracted with
          | ?ctx _ =>
              let res := eval cbv beta in (ctx (f (proj r))) in exact res
          end
      end
  end.

#[global] Hint Extern 1 (Setter _) => solve_setter : typeclass_instances.

Notation "s <| field := v |>" := (set field (λ _, v) s)
  (at level 1, left associativity, field at level 99, v at level 200,
   format "s  <| field  :=  v |>") : core_scope.
Notation "s <| field ::= f |>" := (set field f s)
  (at level 1, left associativity, field at level 99, f at level 200,
   format "s  <| field  ::=  f |>") : core_scope.

(** ** Machine integers

    The crates are built without [overflow-checks], so [+] on [uN] wraps in the
    shipped (release) build; [checked_add] is explicit in the source. *)

Definition u32_modulus : N := 2 ^ 32.
Definition u64_modulus : N := 2 ^ 64.
Definition u128_modulus : N := 2 ^ 128.
Definition u64_max : N := 18446744073709551615.

Definition u32_add (a b : N) : N := ((a + b) mod u32_modulus)%N.
Definition u64_add (a b : N) : N := ((a + b) mod u64_modulus)%N.

Definition checked_add (modulus a b : N) : option N :=
  if bool_decide (a + b < modulus)%N then Some (a + b)%N else None.
Definition u32_max : N := 4294967295.

(** [n.saturating_add(1)] *)
Definition saturating_succ (max n : N) : N := N.min (n + 1) max.
(** [a.saturating_add(b)], [a.saturating_mul(b)] *)
Definition u64_saturating_add (a b : N) : N := N.min (a + b) u64_max.
Definition u64_saturating_mul (a b : N) : N := N.min (a * b) u64_max.
Definition u64_checked_add : N → N → option N := checked_add u64_modulus.
Definition u128_checked_add : N → N → option N := checked_add u128_modulus.

Lemma checked_add_Some m a b c :
  checked_add m a b = Some c ↔ c = (a + b)%N ∧ (a + b < m)%N.
Proof.
  unfold checked_add. case_bool_decide; split; [|intros [??]|done|intros [??]].
  - by intros [= <-].
  - by subst.
  - done.
Qed.

Lemma u64_add_exact a b : (a + b < u64_modulus)%N → u64_add a b = (a + b)%N.
Proof. apply N.mod_small. Qed.

Lemma u32_add_exact a b : (a + b < u32_modulus)%N → u32_add a b = (a + b)%N.
Proof. apply N.mod_small. Qed.

Lemma u64_checked_succ a :
  is_Some (u64_checked_add a 1) → u64_add a 1 = (a + 1)%N.
Proof. intros [c [_ ?]%checked_add_Some]. by apply u64_add_exact. Qed.

(** Wrapping or not, a counter that moves differs from where it was. *)
Lemma u64_succ_neq a : u64_add a 1 ≠ a.
Proof.
  unfold u64_add, u64_modulus. intros Heq.
  destruct (N.lt_ge_cases a (2 ^ 64)) as [Hlt|Hge].
  - destruct (N.eq_dec a (2 ^ 64 - 1)) as [->|Hne]; [by vm_compute in Heq|].
    rewrite N.mod_small in Heq; lia.
  - pose proof (N.mod_lt (a + 1) (2 ^ 64)). lia.
Qed.

(** ** Ordered maps

    A [BTreeMap<K, V>] is a [gmap K V]; where the source iterates, the entries
    come in key order. *)

Class KeyOrd (K : Type) := key_leb : K → K → bool.

Definition key_le {K} `{KeyOrd K} {V} (x y : K * V) : Prop :=
  Is_true (key_leb x.1 y.1).

#[global] Instance key_le_dec {K} `{KeyOrd K} {V} : RelDecision (key_le (K:=K) (V:=V)).
Proof. intros x y. unfold key_le. apply _. Defined.

Definition btree_iter {K V} `{Countable K, KeyOrd K} (m : gmap K V) : list (K * V) :=
  merge_sort key_le (map_to_list m).

Definition btree_values {K V} `{Countable K, KeyOrd K} (m : gmap K V) : list V :=
  (btree_iter m).*2.

Section btree.
Context {K V : Type} `{Countable K, KeyOrd K}.
Implicit Types m : gmap K V.

Lemma btree_iter_perm m : btree_iter m ≡ₚ map_to_list m.
Proof. apply merge_sort_Permutation. Qed.

Lemma elem_of_btree_iter m k v : (k, v) ∈ btree_iter m ↔ m !! k = Some v.
Proof. by rewrite btree_iter_perm, elem_of_map_to_list. Qed.

Lemma elem_of_btree_values m v : v ∈ btree_values m ↔ ∃ k, m !! k = Some v.
Proof.
  unfold btree_values. rewrite list_elem_of_fmap. split.
  - intros [[k w] [-> Hin]]. exists k. by apply elem_of_btree_iter.
  - intros [k Hk]. exists (k, v). by rewrite elem_of_btree_iter.
Qed.

Lemma btree_values_perm m : btree_values m ≡ₚ (map_to_list m).*2.
Proof. unfold btree_values. by rewrite btree_iter_perm. Qed.

Lemma btree_values_insert m k v :
  m !! k = None → btree_values (<[k:=v]> m) ≡ₚ v :: btree_values m.
Proof. intros. by rewrite !btree_values_perm, map_to_list_insert. Qed.

Lemma btree_values_delete m k v :
  m !! k = Some v → btree_values m ≡ₚ v :: btree_values (delete k m).
Proof.
  intros Hk. rewrite <- (insert_delete_id m k v Hk) at 1.
  apply btree_values_insert, lookup_delete_eq.
Qed.
End btree.

(** Sorting looks at keys alone, so it commutes with a map of the values. *)
Section sort_fmap.
Context {A B : Type} (R : relation A) (S : relation B) `{!RelDecision R, !RelDecision S} (g : A → B).
Hypothesis compares : ∀ x y, R x y ↔ S (g x) (g y).

Lemma merge_list_fmap l1 l2 : list_merge S (List.map g l1) (List.map g l2) = List.map g (list_merge R l1 l2).
Proof.
  revert l2. induction l1 as [|x l1 IH1]; intros l2; [by destruct l2|]. induction l2 as [|y l2 IH2]; [done|].
  cbn [List.map list_merge]. pose proof (compares x y) as Hc. destruct (decide (R x y)), (decide (S (g x) (g y))); try tauto.
  - cbn [List.map]. f_equal. apply (IH1 (y :: l2)).
  - cbn [List.map]. f_equal. apply IH2.
Qed.

Lemma merge_list_to_stack_fmap st l : merge_list_to_stack S (List.map (option_map (List.map g)) st) (List.map g l) = List.map (option_map (List.map g)) (merge_list_to_stack R st l).
Proof. revert l. induction st as [|[l'|] st IH]; intros l; cbn; [done| |done]. by rewrite <-IH, merge_list_fmap. Qed.

Lemma merge_stack_fmap st : merge_stack S (List.map (option_map (List.map g)) st) = List.map g (merge_stack R st).
Proof. induction st as [|[l|] st IH]; cbn; [done| |done]. by rewrite IH, merge_list_fmap. Qed.

Lemma merge_sort_fmap l : merge_sort S (g <$> l) = g <$> merge_sort R l.
Proof.
  unfold merge_sort. change (@nil (option (list B))) with (List.map (option_map (List.map g)) []). generalize (@nil (option (list A))).
  induction l as [|x l IH]; intros st; cbn [fmap list_fmap merge_sort_aux]; [apply merge_stack_fmap|].
  change [g x] with (List.map g [x]). by rewrite merge_list_to_stack_fmap, IH.
Qed.
End sort_fmap.

Lemma btree_values_fmap {K V W} `{Countable K, KeyOrd K} (f : V → W) (m : gmap K V) : btree_values (f <$> m) = f <$> btree_values m.
Proof.
  unfold btree_values, btree_iter. rewrite map_to_list_fmap, (merge_sort_fmap key_le key_le (prod_map id f)) by done.
  rewrite <-!list_fmap_compose. by apply list_fmap_ext.
Qed.

Lemma find_fmap {A B} (f : A → B) (p : B → bool) (l : list A) : List.find p (f <$> l) = f <$> List.find (λ x, p (f x)) l.
Proof. induction l as [|x l IH]; cbn; [done|]. by destruct (p (f x)). Qed.

(** ** Folds that may panic

    A Rust panic ([expect], [unreachable!], indexing, [assert!]) is [None]. *)

Fixpoint foldM {S A : Type} (f : S → A → option S) (s : S) (l : list A) : option S :=
  match l with
  | [] => Some s
  | x :: l => match f s x with Some s' => foldM f s' l | None => None end
  end.

Lemma foldM_app {S A} (f : S → A → option S) s l1 l2 :
  foldM f s (l1 ++ l2) = foldM f s l1 ≫= λ s', foldM f s' l2.
Proof.
  revert s. induction l1 as [|x l1 IH]; intros s; simpl; [done|].
  destruct (f s x); [apply IH|done].
Qed.

Lemma foldM_total {S A} (f : S → A → S) s l :
  foldM (λ s x, Some (f s x)) s l = Some (fold_left f l s).
Proof. revert s. induction l; intros; simpl; auto. Qed.

(** ** Lists *)

Lemma elem_of_snoc_l {A} (x y : A) l : x ∈ l → x ∈ l ++ [y].
Proof. intros. apply elem_of_app. by left. Qed.

Lemma elem_of_snoc_r {A} (x : A) l : x ∈ l ++ [x].
Proof. apply elem_of_app. right. by left. Qed.

Lemma filter_keeps_all {A} (P : A → Prop) `{∀ x, Decision (P x)} (l : list A) :
  (∀ x, x ∈ l → P x) → filter P l = l.
Proof.
  induction l as [|x l IH]; intros Hl; [done|]. rewrite filter_cons, decide_True by (apply Hl; by left).
  f_equal. apply IH. intros y Hy. apply Hl. by right.
Qed.

Lemma filter_keeps_none {A} (P : A → Prop) `{∀ x, Decision (P x)} (l : list A) :
  (∀ x, x ∈ l → ¬ P x) → filter P l = [].
Proof.
  induction l as [|x l IH]; intros Hl; [done|]. rewrite filter_cons, decide_False by (apply Hl; by left).
  apply IH. intros y Hy. apply Hl. by right.
Qed.

(** A loop that leaves some elements alone is the loop over the others. *)
Lemma try_fold_filter {E A B} (P : A → Prop) `{∀ x, Decision (P x)} (f g : B → A → result E B) b (l : list A) :
  (∀ b x, x ∈ l → P x → f b x = g b x) → (∀ b x, x ∈ l → ¬ P x → f b x = Ok b) →
  try_fold f b l = try_fold g b (filter P l).
Proof.
  revert b. induction l as [|x l IH]; intros b Hfg Hskip; [done|]. rewrite filter_cons. simpl.
  assert (∀ b, try_fold f b l = try_fold g b (filter P l)) as IH'.
  { intros b'. apply IH; intros; [apply Hfg|apply Hskip]; (done || by right). }
  case_decide; simpl.
  - rewrite Hfg by (done || by left). destruct (g b x); [apply IH'|done].
  - rewrite Hskip by (done || by left). apply IH'.
Qed.

Create HintDb members.
Lemma NoDup_omap_inj {A B} (f : A → option B) (l : list A) :
  (∀ x y b, f x = Some b → f y = Some b → x = y) → NoDup l → NoDup (omap f l).
Proof.
  intros Hinj. induction 1 as [|x l Hx _ IH]; simpl; [constructor|]. destruct (f x) as [b|] eqn:Hf; [|done].
  constructor; [|done]. intros (y & Hy & Hfy)%list_elem_of_omap. destruct Hx. by rewrite (Hinj x y b).
Qed.

#[export] Hint Resolve elem_of_snoc_l elem_of_snoc_r : members.

(** ** Automation *)

Create Rewrite HintDb guards.
#[export] Hint Rewrite bool_decide_eq_true bool_decide_eq_false
  andb_true_iff andb_false_iff orb_true_iff orb_false_iff
  negb_true_iff negb_false_iff : guards.

(** Turn boolean guards among the hypotheses into propositions. *)
Ltac guards := autorewrite with guards in *; destruct_and?.

Ltac innermost t :=
  lazymatch t with
  | match ?m with _ => _ end => innermost m
  | _ => t
  end.

(** Split the guard that the left-hand side of [H] evaluates next, discarding
    the branches that contradict [H]. *)
Ltac split_next H :=
  lazymatch type of H with
  | ?lhs = _ =>
      lazymatch lhs with
      | match _ with _ => _ end =>
          let m := innermost lhs in
          destruct m eqn:?; try discriminate H
      end
  end.

(** Split on the outermost scrutinee, keeping it whole. *)
Ltac split_outer H :=
  lazymatch type of H with
  | (match ?m with _ => _ end) = _ => destruct m eqn:?; try discriminate H
  end.

(** [require] as a proposition. *)
Lemma ok_pair_inj {E A B} (a a' : A) (b b' : B) : @Ok E _ (a, b) = Ok (a', b') → a' = a ∧ b' = b.
Proof. by intros [= -> ->]. Qed.

Lemma require_ok b why u : require b why = Ok u → b = true.
Proof. by destruct b. Qed.

(** Invert a computation that returned a known value. *)
Ltac ok_inv H :=
  unfold require, reject, ok_or in H; cbv beta iota in H;
  repeat split_next H; simplify_eq H; try clear H; intros; subst.

(** Case analysis on every match of the goal, simplifying as it goes. *)
Ltac crush_cases := repeat (case_match; simplify_eq/=); try done.

(** ** Integers as bytes *)

(** [to_be_bytes] and [from_be_bytes] of a [k]-byte integer. *)
Fixpoint to_be_bytes (k : nat) (n : N) : list N :=
  match k with
  | 0 => []
  | S k => to_be_bytes k (n / 256) ++ [(n mod 256)%N]
  end.

Definition from_be_bytes (bs : list N) : N := fold_left (λ n b, (256 * n + b)%N) bs 0%N.

Lemma to_be_bytes_length k n : length (to_be_bytes k n) = k.
Proof. revert n. induction k as [|k IH]; intros n; simpl; [done|]. rewrite length_app, IH. simpl. lia. Qed.

Lemma from_to_be_bytes k n : (n < 256 ^ N.of_nat k)%N → from_be_bytes (to_be_bytes k n) = n.
Proof.
  unfold from_be_bytes. revert n. induction k as [|k IH]; intros n Hn; simpl.
  - change (256 ^ N.of_nat 0)%N with 1%N in Hn. lia.
  - rewrite fold_left_app. simpl. rewrite IH.
    + pose proof (N.div_mod n 256 ltac:(lia)). lia.
    + apply N.Div0.div_lt_upper_bound. rewrite Nat2N.inj_succ, N.pow_succ_r' in Hn. done.
Qed.

Lemma to_be_bytes_inj k n n' :
  (n < 256 ^ N.of_nat k)%N → (n' < 256 ^ N.of_nat k)%N → to_be_bytes k n = to_be_bytes k n' → n = n'.
Proof. intros Hn Hn' Heq. rewrite <- (from_to_be_bytes k n Hn), Heq. by apply from_to_be_bytes. Qed.
