(* ===== verification/Ids.v ===== *)
(** * Domain identities and scope names

    [crates/core/src/ids.rs]: every identity is a newtype over a string, one
    per sort, so that one identity cannot be passed for another. The sort is a
    phantom index here. [determine_scope_authority] is the naming helper of
    [crates/core/src/lib.rs]. *)

From stdpp Require Import pretty.
From S2P Require Import Prelude.
From Stdlib Require Import Ascii String.

(** The identities [id_newtype!] declares, in source order. *)
Inductive id_sort :=
| AuthoritySort | HomeSort | ScopeSort | RunSort | EngagementSort
| PublicKeySort | KeySort | DeviceSort | BridgeGrantSort | ClientRequestSort
| NonceSort | ModelConnectionSort | CredentialVersionSort | SecretHandleSort
| ObservationSort | ProjectSort | ModelGrantSort | ModelAttemptSort
| VaultCredentialSort | VaultCandidateSort | VaultTenantPrefixSort
| VaultStorageNameSort | VaultIntakeMarkerSort | VaultBackingVersionSort
| VaultDispatchSort | VaultSubjectSort | VaultOperationSort | VaultTargetSort
| ResourceSort.

Record Id (σ : id_sort) := mkId { as_str : string }.
Arguments mkId {σ} as_str.
Arguments as_str {σ} i : rename.

#[global] Instance Id_eq_dec σ : EqDecision (Id σ).
Proof. solve_decision. Defined.

#[global] Instance Id_countable σ : Countable (Id σ).
Proof. by refine (inj_countable' as_str mkId _); intros []. Defined.

(** [derive(Ord)] on a newtype of [String]: byte-wise lexicographic order. *)
#[global] Instance Id_ord σ : KeyOrd (Id σ) := λ a b, String.leb (as_str a) (as_str b).

#[global] Instance string_ord : KeyOrd string := String.leb.

Abbreviation AuthorityId := (Id AuthoritySort).
Abbreviation HomeId := (Id HomeSort).
Abbreviation ScopeId := (Id ScopeSort).
Abbreviation PublicKey := (Id PublicKeySort).
Abbreviation KeyId := (Id KeySort).
Abbreviation DeviceId := (Id DeviceSort).
Abbreviation BridgeGrantId := (Id BridgeGrantSort).
Abbreviation Nonce := (Id NonceSort).
Abbreviation ClientRequestId := (Id ClientRequestSort).
Abbreviation ModelConnectionId := (Id ModelConnectionSort).
Abbreviation CredentialVersionId := (Id CredentialVersionSort).
Abbreviation SecretHandleId := (Id SecretHandleSort).
Abbreviation ObservationId := (Id ObservationSort).
Abbreviation ProjectId := (Id ProjectSort).
Abbreviation ModelGrantId := (Id ModelGrantSort).
Abbreviation ModelAttemptId := (Id ModelAttemptSort).
Abbreviation VaultCredentialId := (Id VaultCredentialSort).
Abbreviation VaultCandidateId := (Id VaultCandidateSort).
Abbreviation VaultTenantPrefixId := (Id VaultTenantPrefixSort).
Abbreviation VaultStorageNameId := (Id VaultStorageNameSort).
Abbreviation VaultIntakeMarkerId := (Id VaultIntakeMarkerSort).
Abbreviation VaultBackingVersionId := (Id VaultBackingVersionSort).
Abbreviation VaultDispatchId := (Id VaultDispatchSort).
Abbreviation VaultSubjectId := (Id VaultSubjectSort).
Abbreviation VaultOperationId := (Id VaultOperationSort).
Abbreviation VaultTargetId := (Id VaultTargetSort).
Abbreviation ResourceId := (Id ResourceSort).

(** ** Parsing untrusted input

    [str::trim] removes Unicode White_Space; on the UTF-8 bytes of a string
    these are the one-, two- and three-byte sequences below. *)

Fixpoint bytes_of (s : string) : list N :=
  match s with
  | EmptyString => []
  | String c s => N_of_ascii c :: bytes_of s
  end.

Fixpoint trim_is_empty (bs : list N) : bool :=
  match bs with
  | [] => true
  | b :: rest =>
      if (bool_decide (9 ≤ b ≤ 13) || (b =? 32))%N then trim_is_empty rest
      else
        match b, rest with
        | 194%N, b2 :: rest2 =>
            if ((b2 =? 133) || (b2 =? 160))%N then trim_is_empty rest2 else false
        | 225%N, b2 :: b3 :: rest3 =>
            if ((b2 =? 154) && (b3 =? 128))%N then trim_is_empty rest3 else false
        | 226%N, b2 :: b3 :: rest3 =>
            if ((b2 =? 128) && (bool_decide (128 ≤ b3 ≤ 138) || (b3 =? 168)
                                || (b3 =? 169) || (b3 =? 175))
                || (b2 =? 129) && (b3 =? 159))%N
            then trim_is_empty rest3 else false
        | 227%N, b2 :: b3 :: rest3 =>
            if ((b2 =? 128) && (b3 =? 128))%N then trim_is_empty rest3 else false
        | _, _ => false
        end
  end.

(** [value.trim().is_empty()] *)
Definition blank (s : string) : bool := trim_is_empty (bytes_of s).

(** [value.chars().any(char::is_control)]: U+0000..1F, U+7F and U+80..9F, on the
    UTF-8 bytes of the string. *)
Fixpoint has_control (bs : list N) : bool :=
  match bs with
  | [] => false
  | b :: rest =>
      bool_decide (b < 32)%N || (b =? 127)%N
      || match rest with
         | b2 :: _ => (b =? 194)%N && bool_decide (128 ≤ b2 ≤ 159)%N
         | [] => false
         end
      || has_control rest
  end.

Inductive EmptyId := mkEmptyId.

Definition parse {σ} (s : string) : result EmptyId (Id σ) :=
  if trim_is_empty (bytes_of s) then Err mkEmptyId else Ok (mkId s).

(** ** The authority of a scope *)

(** [str::split] on a one-byte separator: always at least one segment. *)
Fixpoint split_on (sep : ascii) (s : string) : list string :=
  match s with
  | EmptyString => [EmptyString]
  | String c s =>
      if Ascii.eqb c sep then EmptyString :: split_on sep s
      else match split_on sep s with
           | seg :: segs => String c seg :: segs
           | [] => [String c EmptyString]
           end
  end.

Definition determine_scope_authority (scope : string) : AuthorityId :=
  match split_on ":"%char scope !! 1 with
  | Some authority => if String.eqb authority "" then mkId scope else mkId authority
  | None => mkId scope
  end.

Fixpoint contains_char (sep : ascii) (s : string) : bool :=
  match s with
  | EmptyString => false
  | String c s => Ascii.eqb c sep || contains_char sep s
  end.

Lemma split_on_segment sep seg rest :
  contains_char sep seg = false →
  split_on sep (seg +:+ String sep "" +:+ rest) = seg :: split_on sep rest.
Proof.
  induction seg as [|c seg IH]; simpl.
  - by rewrite Ascii.eqb_refl.
  - intros [Hc Hseg]%orb_false_iff. by rewrite Hc, IH.
Qed.

(** A well-formed scope [scope:<authority>:<rest>] names its second segment. *)
Lemma scope_authority_well_formed head authority rest :
  contains_char ":"%char head = false →
  contains_char ":"%char authority = false →
  authority ≠ ""%string →
  determine_scope_authority (head +:+ ":" +:+ authority +:+ ":" +:+ rest) = mkId authority.
Proof.
  intros Hh Ha Hne. unfold determine_scope_authority.
  rewrite (split_on_segment _ head), (split_on_segment _ authority) by done. simpl.
  by rewrite (proj2 (String.eqb_neq _ _) Hne).
Qed.

(** ** Text built with separators *)

Lemma append_cons a s t : String a s +:+ t = String a (s +:+ t).
Proof. reflexivity. Qed.

Lemma append_nil t : "" +:+ t = t.
Proof. reflexivity. Qed.

Lemma append_assoc s t u : (s +:+ t) +:+ u = s +:+ t +:+ u.
Proof. induction s as [|a s IH]; [done|]. rewrite !append_cons. by rewrite IH. Qed.

Lemma append_sep_inj sep a1 a2 r1 r2 :
  contains_char sep a1 = false → contains_char sep a2 = false →
  a1 +:+ String sep r1 = a2 +:+ String sep r2 → a1 = a2 ∧ r1 = r2.
Proof.
  revert a2. induction a1 as [|c1 a1 IH]; intros [|c2 a2]; simpl; intros H1 H2 Heq.
  - by injection Heq.
  - injection Heq as -> _. by rewrite Ascii.eqb_refl in H2.
  - injection Heq as -> _. by rewrite Ascii.eqb_refl in H1.
  - injection Heq as -> Heq. apply orb_false_iff in H1 as [_ H1], H2 as [_ H2].
    destruct (IH a2 H1 H2 Heq) as [-> ->]; done.
Qed.

(** A number in decimal holds no other character than digits. *)
Lemma pretty_without sep (n : N) :
  (∀ k, Ascii.eqb (pretty_N_char k) sep = false) → contains_char sep (pretty n) = false.
Proof.
  intros Hsep. unfold pretty, pretty_N. case_decide as Hz; [pose proof (Hsep 0%N) as Hd; simpl in *; by rewrite Hd|]. clear Hz.
  assert (∀ s, contains_char sep s = false → contains_char sep (pretty_N_go n s) = false) as Hgo; [|by apply Hgo].
  induction (N.lt_wf_0 n) as [n _ IH]; intros s Hs.
  destruct (decide (n = 0%N)) as [->|Hn]; [by rewrite pretty_N_go_0|].
  rewrite pretty_N_go_step by lia. apply IH; [apply N.div_lt; lia|]. simpl. by rewrite Hsep.
Qed.

(** Texts of equal length are told apart in what follows them too. *)
Lemma append_length_inj a1 a2 r1 r2 :
  String.length a1 = String.length a2 → a1 +:+ r1 = a2 +:+ r2 → a1 = a2 ∧ r1 = r2.
Proof.
  revert a2. induction a1 as [|c1 a1 IH]; intros [|c2 a2] Hl Heq; [done|done|done|].
  injection Hl as Hl. injection Heq as -> Heq. by destruct (IH a2 Hl Heq) as [-> ->].
Qed.

#[global] Instance bytes_of_inj : Inj (=) (=) bytes_of.
Proof.
  intros s1. induction s1 as [|c1 s1 IH]; intros [|c2 s2]; simpl; try done.
  intros [= Hc Hs]. f_equal; [|by apply IH].
  by rewrite <- (ascii_N_embedding c1), Hc, ascii_N_embedding.
Qed.

(** A text for every positive number, and so for every value of a countable type; the
    examples of [serde_json] use it. *)
Fixpoint write_bits (p : positive) : string :=
  match p with
  | xH => ""
  | xO p => String "0" (write_bits p)
  | xI p => String "1" (write_bits p)
  end.

Fixpoint read_bits (s : string) : positive :=
  match s with
  | EmptyString => xH
  | String c s => if Ascii.eqb c "0" then xO (read_bits s) else xI (read_bits s)
  end.

Lemma bits_roundtrip p : read_bits (write_bits p) = p.
Proof. induction p as [p IH|p IH|]; cbn; by rewrite ?IH. Qed.
