(* ===== verification/Lifecycle.v ===== *)
(** * The lifecycle interface

    [crates/core/src/lib.rs]: the [Lifecycle] trait, the seam between the pure
    reducers and the event store. A lifecycle is a record of operations; the
    class [LifecycleSafe] states what a reducer promises to its clients: an
    invariant of its folded states that every admitted command preserves, and
    that folding admitted events never panics. Clients (the store) are proved
    against that class alone. *)

From S2P Require Import Prelude.

(** ** Checkpoint codecs *)

Record SnapshotCodec (S : Type) := mkSnapshotCodec {
  codec_lifecycle : string;
  codec_version : N;
  codec_every : N;
  codec_encode : S → option string;
  codec_decode : string → option S;
}.
Arguments mkSnapshotCodec {S}.
Arguments codec_lifecycle {S}.
Arguments codec_version {S}.
Arguments codec_every {S}.
Arguments codec_encode {S}.
Arguments codec_decode {S}.

#[export] Instance SnapshotCodec_eta S : Eta (SnapshotCodec S) :=
  mkEta (λ c, mkSnapshotCodec (codec_lifecycle c) (codec_version c) (codec_every c)
         (codec_encode c) (codec_decode c)).

Definition DEFAULT_SNAPSHOT_INTERVAL : N := 64.

(** [SnapshotCodec::serde]: the CBOR-then-hex functions are third-party code
    and are arguments. *)
Definition serde_codec {S} (encode : S → option string) (decode : string → option S)
    (lifecycle : string) (version : N) : SnapshotCodec S :=
  mkSnapshotCodec lifecycle version DEFAULT_SNAPSHOT_INTERVAL encode decode.

Definition codec_with_every {S} (c : SnapshotCodec S) (every : N) : SnapshotCodec S :=
  c <| codec_every := N.max every 1 |>.

(** ** Lifecycles *)

Record Lifecycle := mkLifecycle {
  lc_state : Type;
  lc_command : Type;
  lc_event : Type;
  lc_default : lc_state;
  KIND : string;
  lc_decide : lc_state → lc_command → result Rejection (list lc_event);
  (** [None] is a panic of the fold. *)
  lc_evolve : lc_state → lc_event → option lc_state;
  lc_snapshot_codec : option (SnapshotCodec lc_state);
}.

(** Folding a batch of events, in order. *)
Definition evolve_all (L : Lifecycle) (s : lc_state L) (es : list (lc_event L))
    : option (lc_state L) := foldM (lc_evolve L) s es.
Arguments evolve_all L s es /.

(** The state a whole history denotes: state is the fold of its events. *)
Definition replay (L : Lifecycle) (history : list (lc_event L)) : option (lc_state L) :=
  evolve_all L (lc_default L) history.

(** One command against a state: refused, admitted, or the fold panicked. *)
Inductive outcome (S E : Type) :=
| Refused (r : Rejection)
| Applied (events : list E) (s : S)
| Panicked.
Arguments Refused {S E}.
Arguments Applied {S E}.
Arguments Panicked {S E}.

Definition apply (L : Lifecycle) (s : lc_state L) (c : lc_command L)
    : outcome (lc_state L) (lc_event L) :=
  match lc_decide L s c with
  | Err r => Refused r
  | Ok es => match evolve_all L s es with
             | Some s' => Applied es s'
             | None => Panicked
             end
  end.

(** The histories a lifecycle can have: the events of the commands admitted so
    far, and the state they lead to. *)
Inductive trace (L : Lifecycle) : list (lc_event L) → lc_state L → Prop :=
| trace_start : trace L [] (lc_default L)
| trace_admit log s c es s' :
    trace L log s → apply L s c = Applied es s' → trace L (log ++ es) s'.

Definition reachable (L : Lifecycle) (s : lc_state L) : Prop := ∃ log, trace L log s.

(** ** What a reducer promises *)

Class LifecycleSafe (L : Lifecycle) := {
  lc_inv : lc_state L → Prop;
  lc_inv_default : lc_inv (lc_default L);
  lc_inv_step : ∀ s c es, lc_inv s → lc_decide L s c = Ok es →
    ∃ s', evolve_all L s es = Some s' ∧ lc_inv s';
}.

(** A reducer whose fold is total keeps the promise once its invariant is
    inductive. *)
Lemma total_lifecycle_safe (L : Lifecycle) (evolve : lc_state L → lc_event L → lc_state L)
    (inv : lc_state L → Prop) :
  (∀ s e, lc_evolve L s e = Some (evolve s e)) →
  (∀ s c es, inv s → lc_decide L s c = Ok es → inv (fold_left evolve es s)) →
  ∀ s c es, inv s → lc_decide L s c = Ok es →
    ∃ s', evolve_all L s es = Some s' ∧ inv s'.
Proof.
  intros Heq Hstep s c es Hinv Hd.
  exists (fold_left evolve es s). split; [|by eapply Hstep].
  unfold evolve_all. clear Hd Hinv. revert s.
  induction es as [|e es IH]; intros s; simpl; [done|]. by rewrite Heq.
Qed.

Lemma apply_admitted (L : Lifecycle) s c es s' :
  apply L s c = Applied es s' ↔ lc_decide L s c = Ok es ∧ evolve_all L s es = Some s'.
Proof.
  unfold apply. split.
  - intros H. repeat case_match; naive_solver.
  - intros [-> ->]. done.
Qed.

(** State is the fold of its events. *)
Lemma trace_replay (L : Lifecycle) log s : trace L log s → replay L log = Some s.
Proof.
  induction 1 as [|log s c es s' _ IH Ha]; [done|].
  apply apply_admitted in Ha as [_ He]. unfold replay, evolve_all in *.
  by rewrite foldM_app, IH.
Qed.

Section safe.
Context (L : Lifecycle) `{!LifecycleSafe L}.
Implicit Types s : lc_state L.

Lemma apply_no_panic s c : lc_inv s → apply L s c ≠ Panicked.
Proof.
  intros Hinv. unfold apply. destruct (lc_decide L s c) as [es|] eqn:Hd; [|done].
  destruct (lc_inv_step s c es Hinv Hd) as (s' & -> & _). done.
Qed.

Lemma apply_inv s c es s' : lc_inv s → apply L s c = Applied es s' → lc_inv s'.
Proof.
  intros Hinv [Hd He]%apply_admitted.
  destruct (lc_inv_step s c es Hinv Hd) as (s2 & He2 & ?). by simplify_eq.
Qed.

Lemma trace_inv log s : trace L log s → lc_inv s.
Proof.
  induction 1; [apply lc_inv_default|]. by eapply apply_inv.
Qed.
End safe.

(** What the log says and the state retains: a relation between an event and
    the states after it that each admission establishes and keeps holds of every
    logged event. *)
Lemma trace_events (L : Lifecycle) `{!LifecycleSafe L} (P : lc_event L → lc_state L → Prop) :
  (∀ s c es s', lc_inv s → lc_decide L s c = Ok es → evolve_all L s es = Some s' →
     (∀ e, e ∈ es → P e s') ∧ (∀ e, P e s → P e s')) →
  ∀ log s, trace L log s → ∀ e, e ∈ log → P e s.
Proof.
  intros Hstep log s Ht. induction Ht as [|log s c es s' Ht IH Ha]; intros e He.
  - by apply elem_of_nil in He.
  - apply apply_admitted in Ha as [Hd Hev].
    destruct (Hstep s c es s' (trace_inv L log s Ht) Hd Hev) as [Hnew Hold].
    apply elem_of_app in He as [He|He]; auto.
Qed.

(** Each logged event belongs to a batch that was decided in the state the
    earlier batches fold to. *)
Lemma trace_event_batch (L : Lifecycle) log s before e after :
  trace L log s → log = before ++ e :: after →
  ∃ earlier pre post s0 c, before = earlier ++ pre ∧ trace L earlier s0
    ∧ lc_decide L s0 c = Ok (pre ++ e :: post).
Proof.
  intros Ht. revert after.
  induction Ht as [|log s c es s' Ht IH Ha]; intros after Heq; [by destruct before|].
  apply apply_admitted in Ha as [Hd _].
  apply app_eq_inv in Heq as [(k & -> & Hk)|(k & -> & ->)].
  - destruct k as [|e' k]; simpl in Hk.
    + exists (before ++ []), [], after, s, c. rewrite !app_nil_r in *. rewrite Hk. done.
    + injection Hk as <- ->. by eapply IH.
  - exists log, k, after, s, c. done.
Qed.

(** When commands write at most one event, the batch is the event. *)
Lemma trace_event (L : Lifecycle) log s before e after :
  (∀ s c es, lc_decide L s c = Ok es → length es ≤ 1) →
  trace L log s → log = before ++ e :: after →
  ∃ s0 c, trace L before s0 ∧ lc_decide L s0 c = Ok [e].
Proof.
  intros Hone Ht Heq.
  destruct (trace_event_batch L log s before e after Ht Heq)
    as (earlier & pre & post & s0 & c & -> & Ht0 & Hd).
  pose proof (Hone _ _ _ Hd) as Hlen. rewrite length_app in Hlen. simpl in Hlen.
  destruct pre; simpl in Hlen; [|lia]. destruct post; simpl in Hlen; [|lia].
  rewrite app_nil_r. eauto.
Qed.

(** Induction over the histories of a reducer whose fold is total and whose
    commands write one event each. *)
Lemma trace_one_ind (L : Lifecycle) (evolve : lc_state L → lc_event L → lc_state L)
    (R : list (lc_event L) → lc_state L → Prop) :
  (∀ s e, lc_evolve L s e = Some (evolve s e)) →
  (∀ s c es, lc_decide L s c = Ok es → ∃ e, es = [e]) →
  R [] (lc_default L) →
  (∀ log s c e, trace L log s → R log s → lc_decide L s c = Ok [e] → R (log ++ [e]) (evolve s e)) →
  ∀ log s, trace L log s → R log s.
Proof.
  intros Hev Hone H0 Hstep log s Ht. induction Ht as [|log s c es s' Ht IH Ha]; [done|].
  apply apply_admitted in Ha as [Hd He]. destruct (Hone s c es Hd) as [e ->].
  unfold evolve_all in He. simpl in He. rewrite Hev in He. injection He as <-. by eapply Hstep.
Qed.

(** The last event of a log that satisfies [P]. *)
Definition last_such {E} (P : E → bool) (log : list E) : option E :=
  last (filter (λ e, Is_true (P e)) log).

Lemma last_such_snoc {E} (P : E → bool) log e :
  last_such P (log ++ [e]) = if P e then Some e else last_such P log.
Proof.
  unfold last_such. rewrite filter_app, filter_cons, filter_nil.
  destruct (P e); simpl; [by rewrite last_snoc|by rewrite app_nil_r].
Qed.

(** ** Driving a lifecycle through a sequence of requests

    Requests that are refused change nothing; the log collects the events of
    the admitted ones. *)

Fixpoint drive (L : Lifecycle) (log : list (lc_event L)) (s : lc_state L)
    (cs : list (lc_command L)) : option (list (lc_event L) * lc_state L) :=
  match cs with
  | [] => Some (log, s)
  | c :: cs =>
      match apply L s c with
      | Refused _ => drive L log s cs
      | Applied es s' => drive L (log ++ es) s' cs
      | Panicked => None
      end
  end.

Definition session (L : Lifecycle) (cs : list (lc_command L)) :=
  drive L [] (lc_default L) cs.

Section drive.
Context (L : Lifecycle) `{!LifecycleSafe L}.

Lemma drive_trace log s cs :
  trace L log s → ∃ log' s', drive L log s cs = Some (log', s') ∧ trace L log' s'.
Proof.
  revert log s. induction cs as [|c cs IH]; intros log s Ht; simpl; [by eauto|].
  destruct (apply L s c) as [r|es s1|] eqn:Ha.
  - by apply IH.
  - apply IH. by eapply trace_admit.
  - exfalso. eapply apply_no_panic; [|exact Ha]. by eapply trace_inv.
Qed.

(** Every session runs to its end without a panic, in a state that satisfies
    the invariant and is the replay of the session's log. *)
Lemma session_total cs :
  ∃ log s, session L cs = Some (log, s) ∧ trace L log s ∧ lc_inv s
           ∧ replay L log = Some s.
Proof.
  destruct (drive_trace [] (lc_default L) cs (trace_start L)) as (log & s & ? & ?).
  exists log, s. repeat split; [done|done|by eapply trace_inv|by apply trace_replay].
Qed.
End drive.

(** A property that every admitted command preserves survives the rest of the
    session. *)
Lemma drive_preserves (L : Lifecycle) `{!LifecycleSafe L} (P : lc_state L → Prop) :
  (∀ s c es s', lc_inv s → P s → apply L s c = Applied es s' → P s') →
  ∀ cs log s log' s', lc_inv s → P s → drive L log s cs = Some (log', s') → P s'.
Proof.
  intros HP cs. induction cs as [|c cs IH]; simpl; intros log s log' s' Hinv Hs Hd;
    [by simplify_eq|].
  destruct (apply L s c) as [r|es s1|] eqn:Ha; [by eauto| |done].
  eapply IH; [| |exact Hd]; [by eapply apply_inv|by eauto].
Qed.

(** A state that refuses everything is where the session stays. *)
Lemma drive_stuck (L : Lifecycle) s cs log :
  (∀ c, ∃ r, lc_decide L s c = Err r) → drive L log s cs = Some (log, s).
Proof.
  intros Hstuck. induction cs as [|c cs IH]; simpl; [done|].
  unfold apply. by destruct (Hstuck c) as [r ->].
Qed.

Lemma drive_app (L : Lifecycle) log s cs1 cs2 :
  drive L log s (cs1 ++ cs2)
  = drive L log s cs1 ≫= λ p, drive L p.1 p.2 cs2.
Proof.
  revert log s. induction cs1 as [|c cs1 IH]; intros log s; simpl; [done|].
  destruct (apply L s c); [apply IH|apply IH|done].
Qed.

(** A session and one more request. *)
Lemma session_snoc (L : Lifecycle) `{!LifecycleSafe L} cs c log s :
  session L cs = Some (log, s) →
  session L (cs ++ [c]) =
    match lc_decide L s c with
    | Err _ => Some (log, s)
    | Ok es => (λ s', (log ++ es, s')) <$> evolve_all L s es
    end.
Proof.
  intros Hs. destruct (session_total L cs) as (log' & s' & Hs' & _ & Hinv & _). rewrite Hs in Hs'. simplify_eq.
  pose proof (apply_no_panic L s' c Hinv) as Hno. unfold session in *. rewrite drive_app, Hs. simpl. unfold apply in *.
  destruct (lc_decide L s' c) as [es|r]; [|done]. unfold evolve_all in *.
  destruct (foldM (lc_evolve L) s' es); [done|congruence].
Qed.

(** Each logged event was decided on a command of the session, in the state of the session
    so far, whose log is what precedes the event. *)
Lemma session_split (L : Lifecycle) `{!LifecycleSafe L} cs log s before e after :
  (∀ s c es, lc_decide L s c = Ok es → length es ≤ 1) →
  session L cs = Some (log, s) → log = before ++ e :: after →
  ∃ cs1 c cs2 s0, cs = cs1 ++ c :: cs2 ∧ session L cs1 = Some (before, s0) ∧ lc_decide L s0 c = Ok [e].
Proof.
  intros Hone. revert log s after. induction cs as [|c cs IH] using rev_ind; intros log s after Hs Hlog.
  { unfold session in Hs. simpl in Hs. simplify_eq. by destruct before. }
  destruct (session_total L cs) as (log1 & s1 & Hs1 & _). rewrite (session_snoc L cs c log1 s1 Hs1) in Hs.
  assert (∀ after, log1 = before ++ e :: after →
    ∃ cs1 c' cs2 s0, cs ++ [c] = cs1 ++ c' :: cs2 ∧ session L cs1 = Some (before, s0) ∧ lc_decide L s0 c' = Ok [e]) as Hearlier.
  { intros after' Heq. destruct (IH _ _ _ Hs1 Heq) as (cs1 & c' & cs2 & s0 & -> & ?). exists cs1, c', (cs2 ++ [c]), s0.
    split; [by rewrite <-app_assoc|done]. }
  destruct (lc_decide L s1 c) as [es|r] eqn:Hd; [|simplify_eq; by eapply Hearlier]. pose proof (Hone _ _ _ Hd) as Hlen.
  destruct (evolve_all L s1 es) as [s2|]; [|done]. simpl in Hs. injection Hs as <- <-.
  destruct es as [|x [|]]; simpl in Hlen; [| |lia].
  - rewrite app_nil_r in Hlog. by eapply Hearlier.
  - destruct after as [|y after _] using rev_ind.
    + apply app_inj_tail in Hlog as [<- <-]. by exists cs, c, [], s1.
    + rewrite app_comm_cons, app_assoc in Hlog. apply app_inj_tail in Hlog as [Hlog _]. by eapply Hearlier.
Qed.

Lemma session_command (L : Lifecycle) `{!LifecycleSafe L} cs log s before e after :
  (∀ s c es, lc_decide L s c = Ok es → length es ≤ 1) →
  session L cs = Some (log, s) → log = before ++ e :: after →
  ∃ s0 c, c ∈ cs ∧ trace L before s0 ∧ lc_decide L s0 c = Ok [e].
Proof.
  intros Hone Hs Hlog. destruct (session_split L cs log s before e after Hone Hs Hlog) as (cs1 & c & cs2 & s0 & -> & Hs0 & Hd).
  destruct (session_total L cs1) as (? & ? & Hs1 & Ht & _). rewrite Hs0 in Hs1. injection Hs1 as <- <-.
  exists s0, c. split; [|done]. apply elem_of_app. right. by left.
Qed.

(** ** Host action admission

    [crates/core/src/host_action_admission.rs]: admission of one command whose
    wire type belongs to the runtime, hence a parameter. *)

Record HostActionAdmission (Command : Type) := mkHostActionAdmission {
  admitted_command : option Command;
}.
Arguments mkHostActionAdmission {Command}.
Arguments admitted_command {Command}.

Definition host_action_decide {Command} (state : HostActionAdmission Command)
    (command : Command) : result Rejection (list Command) :=
  match admitted_command state with
  | Some _ => reject "host action is already admitted"
  | None => Ok [command]
  end.

Definition host_action_evolve {Command} (state : HostActionAdmission Command)
    (event : Command) : HostActionAdmission Command :=
  mkHostActionAdmission
    (match admitted_command state with Some c => Some c | None => Some event end).

Definition host_action_lifecycle (Command : Type) : Lifecycle := {|
  lc_state := HostActionAdmission Command;
  lc_command := Command;
  lc_event := Command;
  lc_default := mkHostActionAdmission None;
  KIND := "host_action_admission_v1";
  lc_decide := host_action_decide;
  lc_evolve := λ s e, Some (host_action_evolve s e);
  lc_snapshot_codec := None;
|}.

#[export] Instance host_action_safe Command : LifecycleSafe (host_action_lifecycle Command).
Proof.
  refine {| lc_inv := λ _ : lc_state (host_action_lifecycle Command), True |}; [done|].
  by apply total_lifecycle_safe with host_action_evolve.
Defined.

(** Once a command is admitted no later event of any history replaces it. *)
Lemma host_action_first_wins {Command} (c : Command) (history : list Command) :
  replay (host_action_lifecycle Command) (c :: history) = Some (mkHostActionAdmission (Some c)).
Proof.
  unfold replay, evolve_all. simpl. rewrite foldM_total. f_equal.
  induction history; [done|]. simpl. done.
Qed.
