(* ===== verification/Run.v ===== *)
(** * Agent runs

    [crates/core/src/run.rs]: the reducer of one episode of agent work. A run
    reaches [Running] only after admission, a retried run must be admitted
    again, and optimistic client commands live only in the running attempt. *)

From S2P Require Import Prelude Ids Lifecycle.

Inductive RunPhase :=
| P_Init | P_Requested | P_Admitted | P_Running | P_Completed | P_Failed | P_Canceled.

#[export] Instance RunPhase_eq_dec : EqDecision RunPhase.
Proof. solve_decision. Defined.

Record RunState := mkRunState {
  phase : RunPhase;
  admitted_once : bool;
  observations : N; (* u32 *)
  pending_commands : list ClientRequestId;
}.

#[export] Instance RunState_eta : Eta RunState :=
  mkEta (λ s, mkRunState (phase s) (admitted_once s) (observations s) (pending_commands s)).

#[export] Instance RunState_eq_dec : EqDecision RunState.
Proof. solve_decision. Defined.

Definition run_default : RunState := mkRunState P_Init false 0 [].

Inductive RunCommand :=
| C_RequestRun | C_AdmitRun | C_StartRun | C_RecordObservation
| C_RecordPending (rid : ClientRequestId)
| C_Reconcile (rid : ClientRequestId)
| C_CompleteRun | C_FailRun | C_CancelRun | C_RetryRun.

Inductive RunEvent :=
| E_RunRequested | E_RunAdmitted | E_RunStarted | E_ObservationRecorded
| E_PendingRecorded (rid : ClientRequestId)
| E_Reconciled (rid : ClientRequestId)
| E_RunCompleted | E_RunFailed | E_RunCanceled | E_RunRetried.

Definition decide (state : RunState) (command : RunCommand)
    : result Rejection (list RunEvent) :=
  match command with
  | C_RequestRun =>
      match phase state with
      | P_Init => Ok [E_RunRequested]
      | _ => reject "requestRun: not in init"
      end
  | C_AdmitRun =>
      match phase state with
      | P_Requested => Ok [E_RunAdmitted]
      | _ => reject "admitRun: not requested"
      end
  | C_StartRun =>
      match phase state with
      | P_Admitted => Ok [E_RunStarted]
      | _ => reject "startRun: not admitted (INV-11)"
      end
  | C_RecordObservation =>
      match phase state with
      | P_Running => Ok [E_ObservationRecorded]
      | _ => reject "recordObservation: run is not running (INV-4)"
      end
  | C_RecordPending rid =>
      match phase state with
      | P_Running =>
          if negb (bool_decide (rid ∈ pending_commands state))
          then Ok [E_PendingRecorded rid]
          else reject "recordPending: clientRequestId already pending"
      | _ => reject "recordPending: run is not running (MOB-003)"
      end
  | C_Reconcile rid =>
      if bool_decide (rid ∈ pending_commands state)
      then Ok [E_Reconciled rid]
      else reject "reconcile: clientRequestId is not pending"
  | C_CompleteRun =>
      match phase state with
      | P_Running => Ok [E_RunCompleted]
      | _ => reject "completeRun: not running"
      end
  | C_FailRun =>
      match phase state with
      | P_Running => Ok [E_RunFailed]
      | _ => reject "failRun: not running"
      end
  | C_CancelRun =>
      match phase state with
      | P_Requested | P_Admitted | P_Running => Ok [E_RunCanceled]
      | _ => reject "cancelRun: already terminal"
      end
  | C_RetryRun =>
      match phase state with
      | P_Completed | P_Failed | P_Canceled => Ok [E_RunRetried]
      | _ => reject "retryRun: run is not terminal"
      end
  end.

Definition evolve (state : RunState) (event : RunEvent) : RunState :=
  let terminal p admitted :=
    mkRunState p admitted (observations state) [] in
  match event with
  | E_RunRequested => state <| phase := P_Requested |>
  | E_RunAdmitted => state <| phase := P_Admitted |> <| admitted_once := true |>
  | E_RunStarted => state <| phase := P_Running |>
  | E_ObservationRecorded => state <| observations := u32_add (observations state) 1 |>
  | E_PendingRecorded rid =>
      state <| pending_commands := pending_commands state ++ [rid] |>
  | E_Reconciled rid =>
      state <| pending_commands := filter (λ p, p ≠ rid) (pending_commands state) |>
  | E_RunCompleted => terminal P_Completed (admitted_once state)
  | E_RunFailed => terminal P_Failed (admitted_once state)
  | E_RunCanceled => terminal P_Canceled (admitted_once state)
  | E_RunRetried => mkRunState P_Requested false 0 []
  end.

(** The reducer as a lifecycle; the checkpoint codec's CBOR functions are
    arguments. *)
Definition run_lifecycle (encode : RunState → option string)
    (decode : string → option RunState) : Lifecycle := {|
  lc_state := RunState;
  lc_command := RunCommand;
  lc_event := RunEvent;
  lc_default := run_default;
  KIND := "run";
  lc_decide := decide;
  lc_evolve := λ s e, Some (evolve s e);
  lc_snapshot_codec := Some (serde_codec encode decode "run" 1);
|}.

(** ** Invariant *)

Definition is_running (p : RunPhase) : bool :=
  match p with P_Running => true | _ => false end.

Record run_inv (s : RunState) : Prop := {
  (** INV-11: admitted work is what runs, completes and fails. *)
  inv_admitted : phase s ∈ [P_Admitted; P_Running; P_Completed; P_Failed] →
                 admitted_once s = true;
  (** An attempt that awaits admission carries no earlier admission. *)
  inv_fresh : phase s ∈ [P_Init; P_Requested] → admitted_once s = false;
  (** MOB-003: PENDING_ONLY_WHILE_RUNNING. *)
  inv_pending : is_running (phase s) = false → pending_commands s = [];
  inv_pending_nodup : NoDup (pending_commands s);
  (** INV-4: no evidence before an attempt has run. *)
  inv_evidence : phase s ∈ [P_Init; P_Requested; P_Admitted] → observations s = 0%N;
}.

Create HintDb run_phases.

(** Membership in a list of phases. *)
Ltac run_cases :=
  repeat match goal with
  | H : _ ∈ [] |- _ => by apply elem_of_nil in H
  | H : _ ∈ _ :: _ |- _ => apply elem_of_cons in H as [H|H]; try discriminate H
  end.

#[local] Hint Extern 1 (_ ∈ _) => (repeat constructor) : run_phases.
#[local] Hint Extern 1 (_ = _) => match goal with
  H : _ ∈ _ → _ |- _ => apply H; repeat constructor end : run_phases.

Lemma run_inv_default : run_inv run_default.
Proof. split; simpl; intros; try done; [run_cases|constructor]. Qed.

(** Every admitted command emits one event, and folding it keeps the invariant. *)
Lemma run_inv_step s c es :
  run_inv s → decide s c = Ok es → run_inv (fold_left evolve es s).
Proof.
  intros [Ha Hf Hp Hn Ho] Hd. destruct s as [p a o l]; simpl in *.
  destruct p; simpl in *; try (specialize (Hp eq_refl); subst l);
    destruct c; simpl in Hd; ok_inv Hd; guards; run_cases;
    split; simpl in *; intros; try done; run_cases;
    auto using NoDup_nil_2, NoDup_filter with run_phases.
  apply NoDup_app; repeat split; [done| |apply NoDup_singleton].
  intros x Hx ->%list_elem_of_singleton. done.
Qed.

#[export] Instance run_safe encode decode : LifecycleSafe (run_lifecycle encode decode).
Proof.
  refine {| lc_inv := (run_inv : lc_state (run_lifecycle encode decode) → Prop) |};
    [apply run_inv_default|].
  apply total_lifecycle_safe with evolve; [done|apply run_inv_step].
Defined.

(** ** Properties *)

Section properties.
Context (encode : RunState → option string) (decode : string → option RunState).
Notation L := (run_lifecycle encode decode).

(** Whatever requests a run receives, the session ends in a state where
    running, completed and failed work was admitted, an attempt that awaits
    admission carries none, pending commands are distinct and exist only
    while running, and no evidence precedes the attempt's start. *)
Theorem run_session_invariant (cs : list RunCommand) :
  ∃ log s, session L cs = Some (log, s) ∧ replay L log = Some s ∧ run_inv s.
Proof.
  destruct (session_total L cs) as (log & s & ? & _ & ? & ?). by exists log, s.
Qed.

Lemma trace_admitted_last log s :
  trace L log s → phase s = P_Admitted → ∃ log', log = log' ++ [E_RunAdmitted].
Proof.
  destruct 1 as [|log s c es s' Ht [Hd He]%apply_admitted]; [done|]. intros Hp.
  pose proof (inv_pending s (trace_inv L log s Ht)) as Hpend.
  destruct s as [p a o l]; simpl in *.
  destruct c; simpl in Hd; ok_inv Hd; simplify_eq/=; try (by eexists);
    exfalso; guards; specialize (Hpend eq_refl); subst; run_cases.
Qed.

(** INV-11 on histories. In the log of any session each start of the run
    directly follows an admission, so no attempt runs on an earlier one. *)
Theorem run_start_follows_admission (cs : list RunCommand) log s before after :
  session L cs = Some (log, s) → log = before ++ E_RunStarted :: after →
  ∃ earlier, before = earlier ++ [E_RunAdmitted].
Proof.
  intros Hs Hlog. destruct (session_total L cs) as (log' & s' & Hs' & Ht & _ & _).
  rewrite Hs in Hs'. injection Hs' as <- <-. clear Hs. revert before after Hlog.
  induction Ht as [|log s c es s' Ht IH [Hd He]%apply_admitted]; intros before after Hlog.
  - by destruct before.
  - assert (es = [] ∨ ∃ e, es = [e] ∧ (e = E_RunStarted → phase s = P_Admitted))
      as [->|(e & -> & Hstart)].
    { right. destruct c; simpl in Hd; ok_inv Hd; eexists; (split; [done|]); done. }
    { rewrite app_nil_r in Hlog. by eapply IH. }
    destruct after as [|x after _] using rev_ind.
    + apply app_inj_tail in Hlog as [-> ->]. eapply trace_admitted_last; eauto.
    + rewrite app_comm_cons, app_assoc in Hlog.
      apply app_inj_tail in Hlog as [-> _]. by eapply IH.
Qed.
End properties.

Definition no_codec_encode (s : RunState) : option string := None.
Definition no_codec_decode (s : string) : option RunState := None.

Lemma run_start_follows_admission_witness :
  ∃ earlier, [E_RunRequested; E_RunAdmitted] = earlier ++ [E_RunAdmitted].
Proof.
  apply (run_start_follows_admission no_codec_encode no_codec_decode
    [C_RequestRun; C_StartRun; C_AdmitRun; C_StartRun; C_CompleteRun]
    [E_RunRequested; E_RunAdmitted; E_RunStarted; E_RunCompleted]
    (mkRunState P_Completed true 0 []) [E_RunRequested; E_RunAdmitted] [E_RunCompleted]).
  - vm_compute. reflexivity.
  - reflexivity.
Defined.
