(* ===== verification/Merge.v ===== *)
(** * Engagement-to-main merges

    [crates/core/src/merge.rs]: the policy-gated, conflict-repairable merge of
    an engagement into the standing line. *)

From S2P Require Import Prelude Lifecycle.

Inductive MergePhase :=
| P_Idle | P_Merging | P_Clean | P_Rejected | P_Repairing | P_Advanced | P_Integrated.

Inductive WorkspaceOutcome := W_Unknown | W_Success | W_Conflict.

Inductive PolicyOutcome := O_Unknown | O_Admitted | O_Rejected.

Inductive ThreadState := T_Current | T_MergePending | T_Isolated | T_Repairing.

#[export] Instance MergePhase_eq_dec : EqDecision MergePhase.
Proof. solve_decision. Defined.
#[export] Instance WorkspaceOutcome_eq_dec : EqDecision WorkspaceOutcome.
Proof. solve_decision. Defined.
#[export] Instance PolicyOutcome_eq_dec : EqDecision PolicyOutcome.
Proof. solve_decision. Defined.
#[export] Instance ThreadState_eq_dec : EqDecision ThreadState.
Proof. solve_decision. Defined.

Record MergeState := mkMergeState {
  phase : MergePhase;
  workspace_outcome : WorkspaceOutcome;
  policy_outcome : PolicyOutcome;
  candidate_preserved : bool;
  repair_context_created : bool;
  thread_state : ThreadState;
  partial_merge_exposed : bool;
  standing_advanced : bool;
  standing_advance_count : N; (* u32 *)
  retry_keys_used : gset string;
  boundary_command_admitted : bool;
}.

#[export] Instance MergeState_eta : Eta MergeState := mkEta (λ s,
  mkMergeState (phase s) (workspace_outcome s) (policy_outcome s) (candidate_preserved s)
    (repair_context_created s) (thread_state s) (partial_merge_exposed s)
    (standing_advanced s) (standing_advance_count s) (retry_keys_used s)
    (boundary_command_admitted s)).

Definition merge_default : MergeState :=
  mkMergeState P_Idle W_Unknown O_Unknown false false T_Current false false 0 ∅ false.

Inductive MergeCommand :=
| C_StartMerge | C_WorkspaceClean | C_WorkspaceConflict | C_PolicyAdmit | C_PolicyReject
| C_AdvanceStandingRef | C_SubmitRepair | C_RetryRepair (key : string)
| C_AdmitBoundaryIntegration | C_IntegrateToMainline.

Inductive MergeEvent :=
| E_MergeStarted | E_WorkspaceCleaned | E_WorkspaceConflicted | E_ReviewRequested
| E_PolicyAdmitted | E_PolicyRejected | E_StandingRefAdvanced | E_RepairSubmitted
| E_RepairRetried (key : string)
| E_BoundaryIntegrationAdmitted | E_IntegratedToMainline.

#[export] Instance MergeEvent_eq_dec : EqDecision MergeEvent.
Proof. solve_decision. Defined.

Definition decide (state : MergeState) (command : MergeCommand)
    : result Rejection (list MergeEvent) :=
  match command with
  | C_StartMerge =>
      match phase state with
      | P_Merging => reject "startMerge: a merge is already running"
      | _ => Ok [E_MergeStarted]
      end
  | C_WorkspaceClean =>
      match phase state with
      | P_Merging => Ok [E_WorkspaceCleaned]
      | _ => reject "workspaceClean: not merging"
      end
  | C_WorkspaceConflict =>
      match phase state with
      | P_Merging => Ok [E_WorkspaceConflicted]
      | _ => reject "workspaceConflict: not merging"
      end
  | C_PolicyAdmit =>
      if bool_decide (phase state = P_Clean)
         && bool_decide (workspace_outcome state = W_Success)
      then Ok [E_PolicyAdmitted]
      else reject "policyAdmit: not a clean merge"
  | C_PolicyReject =>
      match phase state with
      | P_Clean => Ok [E_PolicyRejected]
      | _ => reject "policyReject: not a clean merge"
      end
  | C_AdvanceStandingRef =>
      let gated := bool_decide (phase state = P_Clean)
                   && bool_decide (workspace_outcome state = W_Success)
                   && bool_decide (policy_outcome state = O_Admitted) in
      if gated && bool_decide (standing_advance_count state = 0%N)
      then Ok [E_StandingRefAdvanced]
      else reject "advanceStandingRef: needs clean workspace + admitted policy, once"
  | C_SubmitRepair =>
      if bool_decide (phase state = P_Rejected) && repair_context_created state
      then Ok [E_RepairSubmitted]
      else reject "submitRepair: no repair context"
  | C_RetryRepair key =>
      if bool_decide (phase state = P_Repairing)
         && negb (bool_decide (key ∈ retry_keys_used state))
         && bool_decide (standing_advance_count state = 0%N)
      then Ok [E_RepairRetried key]
      else reject "retryRepair: not repairing, key used, or already advanced"
  | C_AdmitBoundaryIntegration =>
      match phase state with
      | P_Advanced => Ok [E_BoundaryIntegrationAdmitted]
      | _ => reject "admitBoundaryIntegration: not advanced"
      end
  | C_IntegrateToMainline =>
      if bool_decide (phase state = P_Advanced) && boundary_command_admitted state
      then Ok [E_IntegratedToMainline]
      else reject "integrateToMainline: needs an admitted boundary command"
  end.

Definition evolve (state : MergeState) (event : MergeEvent) : MergeState :=
  match event with
  | E_MergeStarted =>
      merge_default <| phase := P_Merging |> <| thread_state := T_MergePending |>
  | E_WorkspaceCleaned =>
      state <| phase := P_Clean |> <| workspace_outcome := W_Success |>
  | E_WorkspaceConflicted =>
      state <| phase := P_Rejected |> <| workspace_outcome := W_Conflict |>
            <| candidate_preserved := true |> <| repair_context_created := true |>
            <| thread_state := T_Isolated |>
  | E_ReviewRequested => state
  | E_PolicyAdmitted => state <| policy_outcome := O_Admitted |>
  | E_PolicyRejected =>
      state <| phase := P_Rejected |> <| policy_outcome := O_Rejected |>
            <| candidate_preserved := true |> <| repair_context_created := true |>
            <| thread_state := T_Isolated |>
  | E_StandingRefAdvanced =>
      state <| phase := P_Advanced |> <| standing_advanced := true |>
            <| standing_advance_count := u32_add (standing_advance_count state) 1 |>
            <| thread_state := T_Current |>
  | E_RepairSubmitted =>
      state <| phase := P_Repairing |> <| thread_state := T_Repairing |>
  | E_RepairRetried key =>
      state <| retry_keys_used := {[key]} ∪ retry_keys_used state |>
            <| workspace_outcome := W_Success |> <| policy_outcome := O_Admitted |>
            <| standing_advanced := true |>
            <| standing_advance_count := u32_add (standing_advance_count state) 1 |>
            <| phase := P_Advanced |> <| thread_state := T_Current |>
  | E_BoundaryIntegrationAdmitted => state <| boundary_command_admitted := true |>
  | E_IntegratedToMainline => state <| phase := P_Integrated |>
  end.

Definition merge_lifecycle : Lifecycle := {|
  lc_state := MergeState;
  lc_command := MergeCommand;
  lc_event := MergeEvent;
  lc_default := merge_default;
  KIND := "merge";
  lc_decide := decide;
  lc_evolve := λ s e, Some (evolve s e);
  lc_snapshot_codec := None;
|}.

(** ** Invariant: the six merge invariants, made inductive *)

Record merge_inv (s : MergeState) : Prop := {
  (** STANDING_ADVANCE_REQUIRES_GIT_AND_POLICY *)
  inv_gate : standing_advanced s = true →
             workspace_outcome s = W_Success ∧ policy_outcome s = O_Admitted;
  (** REJECTED_MERGE_PRESERVES_REPAIR_BASIS, ISOLATED_THREAD_NOT_CURRENT_WITHOUT_REPAIR *)
  inv_rejected : phase s = P_Rejected →
                 candidate_preserved s = true ∧ repair_context_created s = true
                 ∧ thread_state s = T_Isolated;
  (** PARTIAL_MERGE_NOT_STANDING *)
  inv_partial : partial_merge_exposed s = false;
  (** REPAIR_RETRY_IDEMPOTENT: the line advanced exactly when the count is one. *)
  inv_count : standing_advance_count s = (if standing_advanced s then 1 else 0)%N;
  inv_advanced : standing_advanced s =
                 bool_decide (phase s = P_Advanced ∨ phase s = P_Integrated);
  (** A running merge starts from no verdict. *)
  inv_merging : phase s = P_Merging →
                workspace_outcome s = W_Unknown ∧ policy_outcome s = O_Unknown;
  (** MAINLINE_INTEGRATION_REQUIRES_BOUNDARY *)
  inv_mainline : phase s = P_Integrated → boundary_command_admitted s = true;
}.

Lemma merge_inv_default : merge_inv merge_default.
Proof. by split. Qed.

Lemma merge_inv_step s c es :
  merge_inv s → decide s c = Ok es → merge_inv (fold_left evolve es s).
Proof.
  intros [Hg Hr Hp Hc Ha Hs Hm] Hd. destruct s as [p w o cp rc t pm sa n ks b]; simpl in *.
  destruct p; cbv in Ha; subst sa pm n;
    destruct c; simpl in Hd; ok_inv Hd; guards; simplify_eq/=;
    try destruct (Hg eq_refl) as [-> ->];
    split; simpl; intros; simplify_eq; repeat split; auto.
Qed.

#[export] Instance merge_safe : LifecycleSafe merge_lifecycle.
Proof.
  refine {| lc_inv := (merge_inv : lc_state merge_lifecycle → Prop) |};
    [apply merge_inv_default|].
  apply total_lifecycle_safe with evolve; [done|apply merge_inv_step].
Defined.

(** ** Histories: what an advance of the standing line rests on *)

(** The events since the last [MergeStarted]. *)
Definition cycle_step (acc : list MergeEvent) (e : MergeEvent) : list MergeEvent :=
  if bool_decide (e = E_MergeStarted) then [] else acc ++ [e].

Definition cycle (log : list MergeEvent) : list MergeEvent := fold_left cycle_step log [].

Definition is_advance (e : MergeEvent) : Prop :=
  match e with E_StandingRefAdvanced | E_RepairRetried _ => True | _ => False end.

#[export] Instance is_advance_dec e : Decision (is_advance e).
Proof. destruct e; simpl; apply _. Defined.

Definition advances (evs : list MergeEvent) : nat := length (filter is_advance evs).

Lemma cycle_snoc log e : cycle (log ++ [e]) = cycle_step (cycle log) e.
Proof. unfold cycle. by rewrite fold_left_app. Qed.

(** What the current cycle of the log records for a state. *)
Record cycle_basis (evs : list MergeEvent) (s : MergeState) : Prop := {
  basis_clean : phase s = P_Clean → E_WorkspaceCleaned ∈ evs;
  basis_policy : phase s = P_Clean → policy_outcome s = O_Admitted → E_PolicyAdmitted ∈ evs;
  basis_repair : phase s = P_Repairing → E_RepairSubmitted ∈ evs;
  basis_advance : standing_advanced s = true →
    (E_StandingRefAdvanced ∈ evs ∧ E_WorkspaceCleaned ∈ evs ∧ E_PolicyAdmitted ∈ evs)
    ∨ ((∃ key, E_RepairRetried key ∈ evs) ∧ E_RepairSubmitted ∈ evs);
  basis_count : N.of_nat (advances evs) = standing_advance_count s;
}.

Lemma advances_snoc evs e :
  advances (evs ++ [e]) = (advances evs + if base.decide (is_advance e) then 1 else 0)%nat.
Proof.
  unfold advances. rewrite filter_app, length_app. by destruct e.
Qed.

Lemma cycle_basis_step evs s c es :
  merge_inv s → cycle_basis evs s → decide s c = Ok es →
  cycle_basis (fold_left cycle_step es evs) (fold_left evolve es s).
Proof.
  intros Hinv [Hc Hp Hr Ha Hn] Hd. destruct s as [p w o cp rc t pm sa n ks b]; simpl in *.
  destruct p; pose proof (inv_advanced _ Hinv) as Hsa; cbv in Hsa; subst sa;
    pose proof (inv_count _ Hinv) as Hcount; simpl in Hcount; subst n;
    destruct c; simpl in Hd; ok_inv Hd; guards; simplify_eq/=;
    unfold cycle_step; simpl; split; simpl; intros; simplify_eq;
    try rewrite advances_snoc; simpl; try lia; auto with members;
    try destruct (Ha eq_refl) as [(?&?&?)|[[k ?] ?]]; eauto 7 with members;
    try (left; repeat split; auto with members; fail).
  { destruct (inv_merging _ Hinv eq_refl) as [_ ?]. done. }
  all: rewrite Nat2N.inj_add, Hcount; done.
Qed.

Lemma trace_cycle_basis log s : trace merge_lifecycle log s → cycle_basis (cycle log) s.
Proof.
  induction 1 as [|log s c es s' Ht IH [Hd He]%apply_admitted].
  - split; simpl; intros; simplify_eq; done.
  - unfold cycle. rewrite fold_left_app. simpl in He. rewrite foldM_total in He.
    injection He as <-. exact (cycle_basis_step _ s c es (trace_inv merge_lifecycle log s Ht) IH Hd).
Qed.

(** ** Properties *)

(** Whatever requests the merge receives, its folded state satisfies the six
    merge invariants, and the current cycle of the log holds at most one advance
    of the standing line; an advance rests on a clean workspace verdict and an
    admitted policy of the same cycle, or on a repair submitted in it. *)
Theorem merge_session_invariant (cs : list MergeCommand) :
  ∃ log s, session merge_lifecycle cs = Some (log, s) ∧ merge_inv s
    ∧ (advances (cycle log) ≤ 1)%nat ∧ cycle_basis (cycle log) s.
Proof.
  destruct (session_total merge_lifecycle cs) as (log & s & Hs & Ht & Hinv & _).
  pose proof (trace_cycle_basis _ _ Ht) as Hb.
  exists log, s. split_and!; [done|done| |done].
  pose proof (basis_count _ _ Hb) as Hn. rewrite (inv_count _ Hinv) in Hn.
  destruct (standing_advanced s); lia.
Qed.
