(* ===== verification/Review.v ===== *)
(** * Output review and release

    [crates/core/src/review.rs]: an output is released only after every required
    stakeholder consented (conjunctive consent). *)

From S2P Require Import Prelude Ids Lifecycle.

Inductive ReviewPhase := P_Init | P_Proposed | P_Cleared | P_Released | P_Withheld.

#[export] Instance ReviewPhase_eq_dec : EqDecision ReviewPhase.
Proof. solve_decision. Defined.

Record ReviewState := mkReviewState {
  phase : ReviewPhase;
  required : gset AuthorityId;
  consented : gset AuthorityId;
}.

#[export] Instance ReviewState_eta : Eta ReviewState :=
  mkEta (λ s, mkReviewState (phase s) (required s) (consented s)).

Definition review_default : ReviewState := mkReviewState P_Init ∅ ∅.

Inductive ReviewCommand :=
| C_Propose (required : gset AuthorityId)
| C_Consent (s : AuthorityId)
| C_Reject (s : AuthorityId)
| C_Revoke (s : AuthorityId)
| C_Release
| C_Cancel.

Inductive ReviewEvent :=
| E_Proposed (required : gset AuthorityId)
| E_Consented (a : AuthorityId)
| E_Cleared
| E_Rejected (a : AuthorityId)
| E_ConsentRevoked (a : AuthorityId)
| E_Released
| E_Withheld (why : string).

Definition reviewable (p : ReviewPhase) : bool :=
  match p with P_Proposed | P_Cleared => true | _ => false end.

Definition decide (state : ReviewState) (command : ReviewCommand)
    : result Rejection (list ReviewEvent) :=
  match command with
  | C_Propose required =>
      match phase state with
      | P_Init => Ok [E_Proposed required]
      | _ => reject "propose: an instance already exists"
      end
  | C_Consent s =>
      let ok := bool_decide (phase state = P_Proposed)
                && bool_decide (s ∈ required state)
                && negb (bool_decide (s ∈ consented state)) in
      if negb ok then reject "consent: not a pending required stakeholder"
      else
        let after := {[s]} ∪ consented state in
        Ok (E_Consented s :: (if bool_decide (after = required state) then [E_Cleared] else []))
  | C_Reject s =>
      if reviewable (phase state) && bool_decide (s ∈ required state)
      then Ok [E_Rejected s]
      else reject "reject: not a required stakeholder in a reviewable phase"
  | C_Revoke s =>
      if reviewable (phase state) && bool_decide (s ∈ consented state)
      then Ok [E_ConsentRevoked s]
      else reject "revoke: nothing to revoke (or already released — INV-18)"
  | C_Release =>
      match phase state with
      | P_Cleared => Ok [E_Released]
      | _ => reject "release: not cleared"
      end
  | C_Cancel =>
      match phase state with
      | P_Proposed | P_Cleared => Ok [E_Withheld "canceled"]
      | _ => reject "cancel: no pending proposal"
      end
  end.

Definition evolve (state : ReviewState) (event : ReviewEvent) : ReviewState :=
  match event with
  | E_Proposed required =>
      state <| phase := P_Proposed |> <| Review.required := required |> <| consented := ∅ |>
  | E_Consented a => state <| consented := {[a]} ∪ consented state |>
  | E_Cleared => state <| phase := P_Cleared |>
  | E_Rejected _ => state <| phase := P_Withheld |>
  | E_ConsentRevoked a =>
      state <| consented := consented state ∖ {[a]} |> <| phase := P_Proposed |>
  | E_Released => state <| phase := P_Released |>
  | E_Withheld _ => state <| phase := P_Withheld |>
  end.

Definition review_lifecycle : Lifecycle := {|
  lc_state := ReviewState;
  lc_command := ReviewCommand;
  lc_event := ReviewEvent;
  lc_default := review_default;
  KIND := "review";
  lc_decide := decide;
  lc_evolve := λ s e, Some (evolve s e);
  lc_snapshot_codec := None;
|}.

(** ** Invariant *)

Record review_inv (s : ReviewState) : Prop := {
  inv_consented : consented s ⊆ required s;
  (** SAFE_RELEASE: cleared and released outputs carry everyone's consent. *)
  inv_release : phase s = P_Cleared ∨ phase s = P_Released →
                consented s = required s ∧ required s ≠ ∅;
}.

Lemma review_inv_step s c es :
  review_inv s → decide s c = Ok es → review_inv (fold_left evolve es s).
Proof.
  intros [Hc Hr] Hd. destruct s as [p req con]; simpl in *.
  destruct c; simpl in Hd; ok_inv Hd; guards; simplify_eq/=;
    split; simpl; try case_bool_decide; simpl; set_solver.
Qed.

#[export] Instance review_safe : LifecycleSafe review_lifecycle.
Proof.
  refine {| lc_inv := (review_inv : lc_state review_lifecycle → Prop) |};
    [by split; simpl; [set_solver|intros []]|].
  apply total_lifecycle_safe with evolve; [done|apply review_inv_step].
Defined.

Lemma review_terminal s c :
  phase s = P_Released ∨ phase s = P_Withheld → ∃ r, decide s c = Err r.
Proof.
  intros Hp. destruct s as [p req con]; simpl in *.
  destruct Hp as [-> | ->]; destruct c; simpl; eexists; reflexivity.
Qed.

(** ** Histories: whose consent stands *)

(** The consents of a log that no later revocation withdrew. *)
Definition standing_step (acc : gset AuthorityId) (e : ReviewEvent) : gset AuthorityId :=
  match e with
  | E_Proposed _ => ∅
  | E_Consented a => {[a]} ∪ acc
  | E_ConsentRevoked a => acc ∖ {[a]}
  | _ => acc
  end.

Definition standing_consents (log : list ReviewEvent) : gset AuthorityId :=
  fold_left standing_step log ∅.

Lemma evolve_consents es s :
  consented (fold_left evolve es s) = fold_left standing_step es (consented s).
Proof.
  revert s. induction es as [|e es IH]; intros s; simpl; [done|].
  rewrite IH. by destruct e.
Qed.

Lemma replay_consents log s : replay review_lifecycle log = Some s → consented s = standing_consents log.
Proof.
  unfold replay. simpl. rewrite foldM_total. intros [= <-]. by rewrite evolve_consents.
Qed.

(** ** Properties *)

(** SAFE_RELEASE (INV-16). In any session, a released output has a non-empty
    set of required stakeholders and the log holds a standing consent of each
    of them; the release is final: no further request changes the state. *)
Theorem review_safe_release (cs later : list ReviewCommand) :
  ∃ log s, session review_lifecycle cs = Some (log, s)
    ∧ consented s = standing_consents log
    ∧ (phase s = P_Released →
         required s ≠ ∅ ∧ standing_consents log = required s
         ∧ drive review_lifecycle log s later = Some (log, s)).
Proof.
  destruct (session_total review_lifecycle cs) as (log & s & Hs & _ & Hinv & Hr).
  exists log, s. pose proof (replay_consents _ _ Hr) as Hc.
  split_and!; [done|done|]. intros Hp. rewrite <- Hc.
  destruct (inv_release _ Hinv (or_intror Hp)) as [? ?].
  split_and!; [done|done|]. apply drive_stuck. intros c.
  apply review_terminal. by left.
Qed.
