(* ===== verification/ResourceAccess.v ===== *)
(** * Resource access

    [crates/core/src/resource_access.rs]: a bounded read/use basis for a
    resource; a payload is usable only while the access is granted. *)

From S2P Require Import Prelude Ids Lifecycle.

Inductive AccessPhase := P_Init | P_Requested | P_Granted | P_Revoked | P_Denied.

#[export] Instance AccessPhase_eq_dec : EqDecision AccessPhase.
Proof. solve_decision. Defined.

Record AccessState := mkAccessState {
  phase : AccessPhase;
  required : gset AuthorityId;
  approvals : gset AuthorityId;
}.

#[export] Instance AccessState_eta : Eta AccessState :=
  mkEta (λ s, mkAccessState (phase s) (required s) (approvals s)).

Definition access_default : AccessState := mkAccessState P_Init ∅ ∅.

Definition name_visible (s : AccessState) : bool := true.
Definition payload_accessible (s : AccessState) : bool := bool_decide (phase s = P_Granted).

Inductive AccessCommand :=
| C_RequestAccess (required : gset AuthorityId)
| C_Approve (a : AuthorityId)
| C_Reject (a : AuthorityId)
| C_Revoke | C_Expire | C_Cancel | C_Use.

Inductive AccessEvent :=
| E_AccessRequested (required : gset AuthorityId)
| E_Approved (a : AuthorityId)
| E_Granted | E_Revoked
| E_Rejected (a : AuthorityId)
| E_Expired | E_Canceled | E_Used.

Definition decide (state : AccessState) (command : AccessCommand)
    : result Rejection (list AccessEvent) :=
  match command with
  | C_RequestAccess required =>
      match phase state with
      | P_Init => Ok [E_AccessRequested required]
      | _ => reject "requestAccess: already exists"
      end
  | C_Approve a =>
      let ok := bool_decide (phase state = P_Requested)
                && bool_decide (a ∈ required state)
                && negb (bool_decide (a ∈ approvals state)) in
      if negb ok then reject "approve: not a pending required approver"
      else
        let after := {[a]} ∪ approvals state in
        Ok (E_Approved a :: (if bool_decide (after = required state) then [E_Granted] else []))
  | C_Reject a =>
      if match phase state with P_Requested | P_Granted => true | _ => false end
         && bool_decide (a ∈ required state)
      then Ok [E_Rejected a]
      else reject "rejectAccess: not a required approver in a reviewable phase"
  | C_Revoke =>
      match phase state with
      | P_Granted => Ok [E_Revoked]
      | _ => reject "revoke: not granted"
      end
  | C_Expire =>
      match phase state with
      | P_Requested | P_Granted => Ok [E_Expired]
      | _ => reject "expire: terminal"
      end
  | C_Cancel =>
      match phase state with
      | P_Requested => Ok [E_Canceled]
      | _ => reject "cancel: no pending request"
      end
  | C_Use =>
      match phase state with
      | P_Granted => Ok [E_Used]
      | _ => reject "use: access not granted (ACCESS_REQUIRES_GRANT)"
      end
  end.

Definition evolve (state : AccessState) (event : AccessEvent) : AccessState :=
  match event with
  | E_AccessRequested required =>
      state <| phase := P_Requested |> <| ResourceAccess.required := required |>
            <| approvals := ∅ |>
  | E_Approved a => state <| approvals := {[a]} ∪ approvals state |>
  | E_Granted => state <| phase := P_Granted |>
  | E_Revoked => state <| phase := P_Revoked |>
  | E_Rejected _ | E_Expired | E_Canceled => state <| phase := P_Denied |>
  | E_Used => state
  end.

Definition access_lifecycle : Lifecycle := {|
  lc_state := AccessState;
  lc_command := AccessCommand;
  lc_event := AccessEvent;
  lc_default := access_default;
  KIND := "resource_access";
  lc_decide := decide;
  lc_evolve := λ s e, Some (evolve s e);
  lc_snapshot_codec := None;
|}.

(** ** Invariant *)

Record access_inv (s : AccessState) : Prop := {
  inv_approvals : approvals s ⊆ required s;
  (** A granted or revoked access was approved by every required approver. *)
  inv_granted : phase s = P_Granted ∨ phase s = P_Revoked → approvals s = required s;
}.

Lemma access_inv_step s c es :
  access_inv s → decide s c = Ok es → access_inv (fold_left evolve es s).
Proof.
  intros [Ha Hg] Hd. destruct s as [p req app]; simpl in *.
  destruct c; simpl in Hd; ok_inv Hd; guards; simplify_eq/=;
    split; simpl; try case_bool_decide; simpl; set_solver.
Qed.

#[export] Instance access_safe : LifecycleSafe access_lifecycle.
Proof.
  refine {| lc_inv := (access_inv : lc_state access_lifecycle → Prop) |};
    [by split; simpl; [set_solver|intros []]|].
  apply total_lifecycle_safe with evolve; [done|apply access_inv_step].
Defined.

(** ** Properties *)

(** The payload is withheld for good once the access was revoked or denied. *)
Definition closed (s : AccessState) : Prop := phase s = P_Revoked ∨ phase s = P_Denied.

Lemma closed_refuses s c : closed s → ∃ r, decide s c = Err r.
Proof.
  intros Hp. destruct s as [p req app]; unfold closed in Hp; simpl in *.
  destruct Hp as [-> | ->]; destruct c; simpl; eexists; reflexivity.
Qed.

(** ACCESS_REQUIRES_GRANT (INV-10, INV-12, INV-18). In any session a use is
    admitted exactly while the payload is accessible, and then every required
    approver has approved; a revoked, rejected, expired or canceled access never
    admits another use. *)
Theorem access_requires_grant (cs later : list AccessCommand) :
  ∃ log s, session access_lifecycle cs = Some (log, s)
    ∧ (payload_accessible s = true ↔ decide s C_Use = Ok [E_Used])
    ∧ (payload_accessible s = true → approvals s = required s)
    ∧ (closed s → drive access_lifecycle log s later = Some (log, s)
                  ∧ payload_accessible s = false).
Proof.
  destruct (session_total access_lifecycle cs) as (log & s & Hs & _ & Hinv & _).
  exists log, s. unfold payload_accessible. split_and!; [done| | |].
  - rewrite bool_decide_eq_true. destruct s as [[] ? ?]; by split.
  - intros ?%bool_decide_eq_true. apply (inv_granted _ Hinv). by left.
  - intros Hc. split; [apply drive_stuck; intros c; by apply closed_refuses|].
    apply bool_decide_eq_false. intros Hp. by destruct Hc as [Hc|Hc]; rewrite Hc in Hp.
Qed.
