(* ===== verification/Instance.v ===== *)
(** * Instances (deployments)

    [crates/core/src/instance.rs]: a bound agent and its workspace, pinned to
    one agent version, suspended, resumed, torn down and entered for support. *)

From S2P Require Import Prelude Lifecycle.

Inductive InstancePhase := P_Created | P_Active | P_Suspended | P_TornDown.

#[export] Instance InstancePhase_eq_dec : EqDecision InstancePhase.
Proof. solve_decision. Defined.

Record InstanceState := mkInstanceState {
  phase : InstancePhase;
  pinned_version : option string;
  support_entry : option string;
  runnable : bool;
  local_config : option string;
  notes : option string;
}.

#[export] Instance InstanceState_eta : Eta InstanceState := mkEta (λ s,
  mkInstanceState (phase s) (pinned_version s) (support_entry s) (runnable s)
    (local_config s) (notes s)).

Definition instance_default : InstanceState :=
  mkInstanceState P_Created None None false None None.

Inductive InstanceCommand :=
| C_PinVersion (v : string)
| C_Suspend | C_Resume | C_TearDown
| C_EnterSupport (by_ : string)
| C_SetLocalConfig (config notes : string).

Inductive InstanceEvent :=
| E_VersionPinned (v : string)
| E_Suspended | E_Resumed | E_TornDown
| E_SupportEntered (by_ : string)
| E_LocalConfigSet (config notes : string).

Definition is_none {A} (o : option A) : bool :=
  match o with None => true | Some _ => false end.

Definition decide (state : InstanceState) (command : InstanceCommand)
    : result Rejection (list InstanceEvent) :=
  match command with
  | C_PinVersion v =>
      if bool_decide (phase state = P_Created) && is_none (pinned_version state)
      then Ok [E_VersionPinned v]
      else reject "pinVersion: already pinned (a version is pinned at most once)"
  | C_Suspend =>
      match phase state with
      | P_Active => Ok [E_Suspended]
      | _ => reject "suspend: instance is not active"
      end
  | C_Resume =>
      match phase state with
      | P_Suspended => Ok [E_Resumed]
      | _ => reject "resume: instance is not suspended"
      end
  | C_TearDown =>
      match phase state with
      | P_Active | P_Suspended => Ok [E_TornDown]
      | _ => reject "tearDown: instance is not active or suspended"
      end
  | C_EnterSupport by_ =>
      let live := match phase state with P_Active | P_Suspended => true | _ => false end in
      if live && is_none (support_entry state)
      then Ok [E_SupportEntered by_]
      else reject "enterSupport: already entered, or instance not live"
  | C_SetLocalConfig config notes =>
      if bool_decide (phase state = P_TornDown)
      then reject "setLocalConfig: instance is torn down"
      else Ok [E_LocalConfigSet config notes]
  end.

Definition evolve (state : InstanceState) (event : InstanceEvent) : InstanceState :=
  match event with
  | E_VersionPinned v =>
      state <| phase := P_Active |> <| pinned_version := Some v |> <| runnable := true |>
  | E_Suspended => state <| phase := P_Suspended |> <| runnable := false |>
  | E_Resumed => state <| phase := P_Active |> <| runnable := true |>
  | E_TornDown => state <| phase := P_TornDown |> <| runnable := false |>
  | E_SupportEntered by_ => state <| support_entry := Some by_ |>
  | E_LocalConfigSet config notes =>
      state <| local_config := Some config |> <| Instance.notes := Some notes |>
  end.

Definition instance_lifecycle : Lifecycle := {|
  lc_state := InstanceState;
  lc_command := InstanceCommand;
  lc_event := InstanceEvent;
  lc_default := instance_default;
  KIND := "instance";
  lc_decide := decide;
  lc_evolve := λ s e, Some (evolve s e);
  lc_snapshot_codec := None;
|}.

(** ** Invariant *)

Record instance_inv (s : InstanceState) : Prop := {
  (** RUNNABLE_REQUIRES_ACTIVE, SUSPEND_BLOCKS_RUN *)
  inv_runnable : runnable s = bool_decide (phase s = P_Active);
  inv_pinned : is_none (pinned_version s) = bool_decide (phase s = P_Created);
}.

Lemma instance_inv_step s c es :
  instance_inv s → decide s c = Ok es → instance_inv (fold_left evolve es s).
Proof.
  intros [Hr Hp] Hd. destruct s as [p v e r lc n]; simpl in *.
  destruct p; cbv in Hr, Hp; subst r; destruct v; try discriminate Hp;
    destruct c; simpl in Hd; ok_inv Hd; by split.
Qed.

#[export] Instance instance_safe : LifecycleSafe instance_lifecycle.
Proof.
  refine {| lc_inv := (instance_inv : lc_state instance_lifecycle → Prop) |}; [done|].
  apply total_lifecycle_safe with evolve; [done|apply instance_inv_step].
Defined.

(** ** Properties *)

(** What must survive the rest of an instance's life: the pin, the support
    entry, and a teardown. *)
Definition instance_keeps (s s' : InstanceState) : Prop :=
  (∀ v, pinned_version s = Some v → pinned_version s' = Some v)
  ∧ (∀ a, support_entry s = Some a → support_entry s' = Some a)
  ∧ (phase s = P_TornDown → s' = s).

Lemma instance_keeps_step s c es s' :
  instance_inv s → apply instance_lifecycle s c = Applied es s' → instance_keeps s s'.
Proof.
  intros [_ Hp] [Hd He]%apply_admitted. destruct s as [p v e r lc n]; simpl in *.
  destruct p; cbv in Hp; destruct v; try discriminate Hp;
    destruct c; simpl in Hd; ok_inv Hd; simplify_eq/=; repeat split; simpl;
    intros; try done; by guards; destruct e.
Qed.

Lemma instance_keeps_trans s1 s2 s3 : instance_keeps s1 s2 → instance_keeps s2 s3 → instance_keeps s1 s3.
Proof.
  intros (Hp1 & He1 & Ht1) (Hp2 & He2 & Ht2). repeat split; auto.
  intros Ht. rewrite Ht2; [by apply Ht1|]. by rewrite (Ht1 Ht).
Qed.

(** PIN_IMMUTABLE, SUPPORT_ENTRY_IMMUTABLE, TORNDOWN_TERMINAL and
    RUNNABLE_REQUIRES_ACTIVE. However a session continues, a pinned version and
    a recorded support entry never change, a torn-down instance never changes
    at all (its evidence is preserved), and an instance accepts runs exactly
    while it is active. *)
Theorem instance_evidence_preserved (cs later : list InstanceCommand) :
  ∃ log s log' s', session instance_lifecycle cs = Some (log, s)
    ∧ drive instance_lifecycle log s later = Some (log', s')
    ∧ instance_keeps s s' ∧ runnable s' = bool_decide (phase s' = P_Active).
Proof.
  destruct (session_total instance_lifecycle cs) as (log & s & Hs & Ht & Hinv & _).
  destruct (drive_trace instance_lifecycle log s later Ht) as (log' & s' & Hd & Ht').
  exists log, s, log', s'. split_and!; [done|done| |].
  - eapply (drive_preserves instance_lifecycle (instance_keeps s)); [|exact Hinv| |exact Hd].
    + intros s1 c es s2 Hi Hk Ha. eapply instance_keeps_trans; [exact Hk|].
      by eapply instance_keeps_step.
    + by repeat split.
  - exact (inv_runnable s' (trace_inv instance_lifecycle log' s' Ht')).
Qed.
