(* ===== verification/Handoff.v ===== *)
(** * Project handoff

    [crates/core/src/handoff.rs]: relocation of a project's single home
    authority from an origin to a target, as a two-phase commit. *)

From S2P Require Import Prelude Lifecycle.

Inductive HandoffPhase := P_Draft | P_Offered | P_LogSynced | P_Committed | P_Aborted.

#[export] Instance HandoffPhase_eq_dec : EqDecision HandoffPhase.
Proof. solve_decision. Defined.

Inductive Home := Origin | Target.

#[export] Instance Home_eq_dec : EqDecision Home.
Proof. solve_decision. Defined.

Record HandoffState := mkHandoffState {
  phase : HandoffPhase;
  home : Home;
  target_has_log : bool;
  target_has_content : bool;
  sealed : bool;
}.

#[export] Instance HandoffState_eta : Eta HandoffState := mkEta (λ s,
  mkHandoffState (phase s) (home s) (target_has_log s) (target_has_content s) (sealed s)).

Definition handoff_default : HandoffState := mkHandoffState P_Draft Origin false false false.

Inductive HandoffCommand := C_OfferHandoff | C_SyncLog | C_CommitHandoff | C_AbortHandoff.

Inductive HandoffEvent :=
| E_HandoffOffered | E_LogSynced | E_HandoffCommitted | E_HandoffAborted.

Definition decide (state : HandoffState) (command : HandoffCommand)
    : result Rejection (list HandoffEvent) :=
  match command with
  | C_OfferHandoff =>
      match phase state with
      | P_Draft => Ok [E_HandoffOffered]
      | _ => reject "offerHandoff: a handoff is already in flight or terminal"
      end
  | C_SyncLog =>
      match phase state with
      | P_Offered => Ok [E_LogSynced]
      | _ => reject "syncLog: no offered handoff to sync against"
      end
  | C_CommitHandoff =>
      if bool_decide (phase state = P_LogSynced)
         && target_has_log state && target_has_content state
      then Ok [E_HandoffCommitted]
      else reject "commitHandoff: target must hold the full state — log and content — first (STATE_BEFORE_HOME)"
  | C_AbortHandoff =>
      match phase state with
      | P_Offered | P_LogSynced => Ok [E_HandoffAborted]
      | _ => reject "abortHandoff: not in flight"
      end
  end.

Definition evolve (state : HandoffState) (event : HandoffEvent) : HandoffState :=
  match event with
  | E_HandoffOffered => state <| phase := P_Offered |>
  | E_LogSynced =>
      state <| phase := P_LogSynced |> <| target_has_log := true |>
            <| target_has_content := true |>
  | E_HandoffCommitted =>
      state <| phase := P_Committed |> <| home := Target |> <| sealed := true |>
  | E_HandoffAborted => state <| phase := P_Aborted |> <| home := Origin |>
  end.

Definition handoff_lifecycle : Lifecycle := {|
  lc_state := HandoffState;
  lc_command := HandoffCommand;
  lc_event := HandoffEvent;
  lc_default := handoff_default;
  KIND := "handoff";
  lc_decide := decide;
  lc_evolve := λ s e, Some (evolve s e);
  lc_snapshot_codec := None;
|}.

(** ** Invariant *)

Record handoff_inv (s : HandoffState) : Prop := {
  (** The target is home exactly in the committed phase. *)
  inv_home : bool_decide (home s = Target) = bool_decide (phase s = P_Committed);
  inv_sealed : sealed s = bool_decide (phase s = P_Committed);
  (** STATE_BEFORE_HOME *)
  inv_state : phase s = P_LogSynced ∨ phase s = P_Committed →
              target_has_log s = true ∧ target_has_content s = true;
}.

Lemma handoff_inv_step s c es :
  handoff_inv s → decide s c = Ok es → handoff_inv (fold_left evolve es s).
Proof.
  intros [Hh Hs Ht] Hd. destruct s as [p h l co se]; simpl in *.
  destruct p, h; try discriminate Hh; destruct c; simpl in Hd; ok_inv Hd;
    guards; split; simpl; try done; naive_solver.
Qed.

#[export] Instance handoff_safe : LifecycleSafe handoff_lifecycle.
Proof.
  refine {| lc_inv := (handoff_inv : lc_state handoff_lifecycle → Prop) |};
    [by split; simpl; [..|intros []]|].
  apply total_lifecycle_safe with evolve; [done|apply handoff_inv_step].
Defined.

(** ** Properties *)

Lemma handoff_terminal s c :
  phase s = P_Committed ∨ phase s = P_Aborted → ∃ r, decide s c = Err r.
Proof.
  intros Hp. destruct s as [p h l co se]; simpl in *.
  destruct Hp as [-> | ->]; destruct c; simpl; eexists; reflexivity.
Qed.

(** An in-flight handoff can always be abandoned, and abandoning it leaves the
    origin at home. *)
Lemma handoff_abort_available s :
  phase s = P_Offered ∨ phase s = P_LogSynced →
  ∃ s', apply handoff_lifecycle s C_AbortHandoff = Applied [E_HandoffAborted] s'
        ∧ home s' = Origin ∧ phase s' = P_Aborted.
Proof.
  intros Hp. destruct s as [p h l co se]; simpl in *.
  destruct Hp as [-> | ->]; unfold apply; simpl; eexists; (split; [done|]); done.
Qed.

(** EXACTLY_ONE_HOME, STATE_BEFORE_HOME, COMMIT_TERMINAL and
    ABORT_KEEPS_ORIGIN_HOME. In any session the target is home exactly after the
    commit, and then holds the log and the content; a committed or aborted
    handoff never changes again, and a handoff in flight can always be aborted
    back to the origin. *)
Theorem handoff_session_safe (cs later : list HandoffCommand) :
  ∃ log s, session handoff_lifecycle cs = Some (log, s)
    ∧ (home s = Target ↔ phase s = P_Committed)
    ∧ (home s = Target → target_has_log s = true ∧ target_has_content s = true)
    ∧ (phase s = P_Committed ∨ phase s = P_Aborted →
         drive handoff_lifecycle log s later = Some (log, s))
    ∧ (phase s = P_Offered ∨ phase s = P_LogSynced →
         ∃ s', apply handoff_lifecycle s C_AbortHandoff = Applied [E_HandoffAborted] s'
               ∧ home s' = Origin ∧ phase s' = P_Aborted).
Proof.
  destruct (session_total handoff_lifecycle cs) as (log & s & Hs & _ & Hinv & _).
  assert (home s = Target ↔ phase s = P_Committed) as Hhome.
  { rewrite <- (bool_decide_eq_true (home s = Target)), (inv_home _ Hinv).
    apply bool_decide_eq_true. }
  exists log, s. split_and!; [done|done| | |apply handoff_abort_available].
  - intros Hh. apply (inv_state _ Hinv). right. by apply Hhome.
  - intros Hp. apply drive_stuck. intros c. by apply handoff_terminal.
Qed.
