(* ===== verification/BoundaryLifecycle.v ===== *)
(** * Boundary pairing

    [crates/core/src/boundary_lifecycle.rs] with the attestation evidence types
    of [attestation.rs]: a boundary is proposed to its participants, declares a
    placement ceiling, collects every acceptance, and only then admits resources
    and sessions. *)

From S2P Require Import Prelude Ids Lifecycle.

(** ** Attestation evidence *)

Record CodeMeasurement := mkCodeMeasurement { digest_hex : string }.

#[export] Instance CodeMeasurement_eq_dec : EqDecision CodeMeasurement.
Proof. solve_decision. Defined.

Record AttestationQuote := mkAttestationQuote {
  measurement : CodeMeasurement;
  nonce : string;
  quote_bytes : list N;
}.

Inductive QuoteRejection :=
| UntrustedSignature | StaleNonce | UnknownMeasurement | MalformedQuote.

Inductive QuoteVerificationResult :=
| Verified (measurement : CodeMeasurement)
| QuoteRejected (reason : QuoteRejection).

Definition verified_measurement (r : QuoteVerificationResult) : option CodeMeasurement :=
  match r with Verified m => Some m | QuoteRejected _ => None end.

Record AttestationEvidence := mkAttestationEvidence {
  quote : AttestationQuote;
  verdict : QuoteVerificationResult;
}.

Definition is_trustworthy (e : AttestationEvidence) : bool :=
  bool_decide (verified_measurement (verdict e) = Some (measurement (quote e))).

(** ** Placement *)

Inductive Operator := Local_ | Counterparty | Neutral.

#[export] Instance Operator_eq_dec : EqDecision Operator.
Proof. solve_decision. Defined.
#[export] Instance Operator_countable : Countable Operator.
Proof.
  refine (inj_countable'
    (λ o, match o with Local_ => 0 | Counterparty => 1 | Neutral => 2 end)
    (λ n, match n with 0 => Local_ | 1 => Counterparty | _ => Neutral end) _).
  by intros [].
Defined.

Record Placement := mkPlacement { operator : Operator; attested : bool }.

Definition local_placement : Placement := mkPlacement Local_ false.

Definition method_secret (p : Placement) : bool := attested p.

(** ** State, commands and events *)

Inductive BoundaryPhase :=
| P_Init | P_Proposed | P_Declared | P_DeviceBinding | P_Active | P_Draining
| P_TornDown | P_Denied.

#[export] Instance BoundaryPhase_eq_dec : EqDecision BoundaryPhase.
Proof. solve_decision. Defined.

Record BoundaryState := mkBoundaryState {
  phase : BoundaryPhase;
  placement : option Placement;
  required : gset string;
  accepted : gset string;
  attestation_evidence : gmap string AttestationEvidence;
  device_binding : option (DeviceId * BridgeGrantId);
  resources_admitted : bool;
  session_started : bool;
  torn_down : bool;
  evidence : bool;
}.

#[export] Instance BoundaryState_eta : Eta BoundaryState := mkEta (λ s,
  mkBoundaryState (phase s) (placement s) (required s) (accepted s)
    (attestation_evidence s) (device_binding s) (resources_admitted s)
    (session_started s) (torn_down s) (evidence s)).

Definition boundary_default : BoundaryState :=
  mkBoundaryState P_Init None ∅ ∅ ∅ None false false false false.

Definition active (s : BoundaryState) : bool :=
  bool_decide (phase s = P_Active) && bool_decide (is_Some (placement s))
  && bool_decide (required s ⊆ accepted s) && negb (torn_down s).

Inductive BoundaryCommand :=
| C_Propose (participants : gset string)
| C_DeclareCeiling (p : Placement)
| C_Accept (participant : string) (evidence : option AttestationEvidence)
| C_BindDevice (device : DeviceId) (bridge_grant : BridgeGrantId)
| C_Reject (a : string)
| C_AdmitResource | C_StartSession | C_EndSession | C_BeginTeardown | C_FinishTeardown.

Inductive BoundaryEvent :=
| E_Proposed (participants : gset string)
| E_CeilingDeclared (p : Placement)
| E_Accepted (participant : string) (evidence : option AttestationEvidence)
| E_DeviceBound (device : DeviceId) (bridge_grant : BridgeGrantId)
| E_Rejected (a : string)
| E_ResourceAdmitted | E_SessionStarted | E_SessionEnded | E_TeardownBegun
| E_TeardownFinished.

Definition declared (p : BoundaryPhase) : bool :=
  match p with P_Declared | P_DeviceBinding => true | _ => false end.

Definition decide (state : BoundaryState) (command : BoundaryCommand)
    : result Rejection (list BoundaryEvent) :=
  match command with
  | C_Propose participants =>
      match phase state with
      | P_Init => Ok [E_Proposed participants]
      | _ => reject "propose: boundary already proposed"
      end
  | C_DeclareCeiling p =>
      match phase state with
      | P_Proposed => Ok [E_CeilingDeclared p]
      | _ => reject "declareCeiling: not in proposed (ceiling is immutable once set)"
      end
  | C_Accept participant ev =>
      if negb (declared (phase state)) || negb (bool_decide (participant ∈ required state))
      then reject "accept: not a declared boundary, or not a participant"
      else
        let attested := match placement state with Some p => attested p | None => false end in
        match attested, ev with
        | true, None => reject "accept: attested placement requires attestation evidence"
        | false, Some _ =>
            reject "accept: unattested placement carries no attestation evidence"
        | _, _ => Ok [E_Accepted participant ev]
        end
  | C_BindDevice device bridge_grant =>
      if negb (declared (phase state))
      then reject "bindDevice: boundary has not declared a ceiling"
      else
        match device_binding state with
        | Some _ => reject "bindDevice: a device is already bound (no silent swap)"
        | None => Ok [E_DeviceBound device bridge_grant]
        end
  | C_Reject a =>
      if match phase state with
         | P_Proposed | P_Declared | P_DeviceBinding => true | _ => false end
         && bool_decide (a ∈ required state)
      then Ok [E_Rejected a]
      else reject "reject: not a pending participant"
  | C_AdmitResource =>
      if active state then Ok [E_ResourceAdmitted]
      else reject "admitResource: boundary not active"
  | C_StartSession =>
      if active state then Ok [E_SessionStarted]
      else reject "startSession: boundary not active"
  | C_EndSession =>
      if session_started state then Ok [E_SessionEnded]
      else reject "endSession: no session running"
  | C_BeginTeardown =>
      match phase state with
      | P_Active | P_Draining => Ok [E_TeardownBegun]
      | _ => reject "beginTeardown: boundary not active"
      end
  | C_FinishTeardown =>
      match phase state with
      | P_Draining => Ok [E_TeardownFinished]
      | _ => reject "finishTeardown: not draining"
      end
  end.

(** An acceptance records the evidence, and activates a declared boundary once
    every participant has accepted. *)
Definition evolve_accepted (s : BoundaryState) (participant : string)
    (ev : option AttestationEvidence) : BoundaryState :=
  let s := match ev with
           | Some e => s <| attestation_evidence := <[participant := e]> (attestation_evidence s) |>
           | None => s
           end in
  let s := s <| accepted := {[participant]} ∪ accepted s |> <| evidence := true |> in
  if declared (phase s) && bool_decide (required s ⊆ accepted s)
  then s <| phase := P_Active |> else s.

Definition evolve (s : BoundaryState) (event : BoundaryEvent) : BoundaryState :=
  match event with
  | E_Proposed participants => s <| phase := P_Proposed |> <| required := participants |>
  | E_CeilingDeclared p =>
      s <| phase := P_Declared |> <| placement := Some p |> <| evidence := true |>
  | E_Accepted participant ev => evolve_accepted s participant ev
  | E_DeviceBound device bridge_grant =>
      let s := s <| device_binding := Some (device, bridge_grant) |> in
      let s := if bool_decide (phase s = P_Declared)
               then s <| phase := P_DeviceBinding |> else s in
      s <| evidence := true |>
  | E_Rejected _ => s <| phase := P_Denied |>
  | E_ResourceAdmitted => s <| resources_admitted := true |> <| evidence := true |>
  | E_SessionStarted => s <| session_started := true |> <| evidence := true |>
  | E_SessionEnded => s <| session_started := false |>
  | E_TeardownBegun =>
      s <| phase := P_Draining |> <| torn_down := true |> <| session_started := false |>
  | E_TeardownFinished =>
      s <| phase := P_TornDown |> <| torn_down := true |> <| session_started := false |>
  end.

Definition boundary_lifecycle : Lifecycle := {|
  lc_state := BoundaryState;
  lc_command := BoundaryCommand;
  lc_event := BoundaryEvent;
  lc_default := boundary_default;
  KIND := "boundary_lifecycle";
  lc_decide := decide;
  lc_evolve := λ s e, Some (evolve s e);
  lc_snapshot_codec := None;
|}.

(** ** Placement policy *)

Record PlacementPolicy := mkPlacementPolicy {
  require_attested : bool;
  allowed_operators : gset Operator;
}.

Definition open_policy : PlacementPolicy := mkPlacementPolicy false ∅.

Definition admits (policy : PlacementPolicy) (p : Placement) : bool :=
  if require_attested policy && negb (attested p) then false
  else if negb (bool_decide (allowed_operators policy = ∅))
          && negb (bool_decide (operator p ∈ allowed_operators policy)) then false
  else true.

Definition pairing_admitted (policy : PlacementPolicy) (declared : Placement)
    (measurement_verified : bool) : bool :=
  admits policy declared && (negb (attested declared) || measurement_verified).

(** A policy that narrows another admits no placement the other refuses. *)
Definition narrows (p q : PlacementPolicy) : Prop :=
  (require_attested q = true → require_attested p = true)
  ∧ (allowed_operators q ≠ ∅ →
       allowed_operators p ≠ ∅ ∧ allowed_operators p ⊆ allowed_operators q).

Lemma pairing_admitted_spec policy pl verified :
  pairing_admitted policy pl verified = true ↔
    (require_attested policy = true → attested pl = true)
    ∧ (allowed_operators policy = ∅ ∨ operator pl ∈ allowed_operators policy)
    ∧ (attested pl = true → verified = true).
Proof.
  unfold pairing_admitted, admits. destruct policy as [ra ops], pl as [op []]; simpl;
    repeat case_bool_decide; destruct ra, verified; simpl; naive_solver.
Qed.

(** Placement policies only narrow (ABAC_MONOTONE) and fail closed: whatever
    pairing a narrower policy admits the wider one admits too, the open policy
    refuses nothing but an unverified attestation, and no policy admits an
    attested placement whose measurement did not verify. *)
Theorem pairing_policy_monotone p q pl verified :
  narrows p q →
  (pairing_admitted p pl verified = true → pairing_admitted q pl verified = true)
  ∧ pairing_admitted open_policy pl verified = negb (attested pl) || verified
  ∧ (attested pl = true → pairing_admitted p pl false = false).
Proof.
  intros [Hr Ho]. split_and!.
  - rewrite !pairing_admitted_spec. intros (Ha & Hop & Hv). split_and!; [auto| |done].
    destruct (base.decide (allowed_operators q = ∅)) as [|Hne]; [by left|right].
    destruct (Ho Hne) as [? Hsub]. destruct Hop; [done|by apply Hsub].
  - done.
  - intros Hat. unfold pairing_admitted. rewrite Hat. simpl. by rewrite andb_false_r.
Qed.

Lemma pairing_policy_monotone_witness :
  pairing_admitted (mkPlacementPolicy false {[Local_; Neutral]}) (mkPlacement Neutral true) true = true
  ∧ pairing_admitted (mkPlacementPolicy true {[Neutral]}) (mkPlacement Neutral true) false = false.
Proof.
  destruct (pairing_policy_monotone (mkPlacementPolicy true {[Neutral]})
              (mkPlacementPolicy false {[Local_; Neutral]}) (mkPlacement Neutral true) true)
    as (H1 & _ & H2).
  - split; simpl; [discriminate|intros _]. split; set_solver.
  - split; [apply H1|apply H2]; vm_compute; reflexivity.
Defined.

(** ** Invariant *)

Definition placed (p : BoundaryPhase) : bool :=
  match p with
  | P_Declared | P_DeviceBinding | P_Active | P_Draining | P_TornDown => true
  | _ => false
  end.

Definition was_active (p : BoundaryPhase) : bool :=
  match p with P_Active | P_Draining | P_TornDown => true | _ => false end.

Definition tearing (p : BoundaryPhase) : bool :=
  match p with P_Draining | P_TornDown => true | _ => false end.

Definition ceiling_attested (s : BoundaryState) : bool :=
  match placement s with Some p => attested p | None => false end.

Record boundary_inv (s : BoundaryState) : Prop := {
  (** NO_GHOST_ACCEPT *)
  inv_ghost : accepted s ⊆ required s;
  inv_placed : placed (phase s) = true → is_Some (placement s) ∧ evidence s = true;
  inv_unplaced : phase s = P_Init ∨ phase s = P_Proposed →
                 placement s = None ∧ accepted s = ∅ ∧ attestation_evidence s = ∅;
  (** Every participant accepted before the boundary went active. *)
  inv_all : was_active (phase s) = true → required s ⊆ accepted s;
  inv_torn : torn_down s = tearing (phase s);
  (** SESSION_REQUIRES_ACTIVE_BOUNDARY, RESOURCE_REQUIRES_ACTIVE_BOUNDARY *)
  inv_session : session_started s = true → phase s = P_Active;
  inv_resources : resources_admitted s = true → was_active (phase s) = true;
  (** ATTESTED_ACCEPT_REQUIRES_EVIDENCE: evidence for exactly the acceptances of
      an attested ceiling. *)
  inv_attested : dom (attestation_evidence s) =
                 (if ceiling_attested s then accepted s else ∅);
}.

Lemma evolve_accepted_inv s p ev :
  boundary_inv s → declared (phase s) = true → p ∈ required s →
  match ceiling_attested s, ev with true, None | false, Some _ => False | _, _ => True end →
  boundary_inv (evolve_accepted s p ev).
Proof.
  intros [Hg Hp Hu Ha Ht Hs Hr He] Hd Hin Hev.
  destruct s as [ph pl req acc ae db ra ss td evi]; unfold ceiling_attested in *; simpl in *.
  assert (placed ph = true ∧ was_active ph = false ∧ tearing ph = false) as (Hpl & Hw & Htr)
    by (by destruct ph).
  destruct (Hp Hpl) as [[pl0 ->] ->]. rewrite Htr in Ht. subst td.
  destruct ss; [by rewrite (Hs eq_refl) in Hd|].
  destruct ra; [by rewrite (Hr eq_refl) in Hw|].
  unfold evolve_accepted.
  destruct (attested pl0) eqn:Hat, ev as [e|]; try done; simpl; rewrite Hd; simpl;
    case_bool_decide; split; unfold ceiling_attested; simpl; rewrite ?Hat; intros;
    try done; try (by split; eauto); try set_solver;
    rewrite ?dom_insert_L, ?He; try done; by destruct ph; destruct_or?.
Qed.

Lemma boundary_inv_step s c es :
  boundary_inv s → decide s c = Ok es → boundary_inv (fold_left evolve es s).
Proof.
  intros Hinv Hd. destruct c as [ps|p|p ev|d g|a| | | | |]; simpl in Hd.
  3: { assert (es = [E_Accepted p ev]) as -> by (ok_inv Hd; done).
       destruct (declared (phase s)) eqn:Hph; [|discriminate Hd]. simpl in Hd.
       case_bool_decide; [|discriminate Hd]. simpl in *. apply evolve_accepted_inv; try done.
       unfold ceiling_attested. destruct (placement s) as [[? []]|]; simpl in *; by destruct ev. }
  all: destruct Hinv as [Hg Hp Hu Ha Ht Hs Hr He];
    destruct s as [ph pl req acc ae db ra ss td evi]; unfold ceiling_attested, active in *;
    simpl in *; destruct ph; simpl in *; ok_inv Hd; guards; simplify_eq/=.
  all: try (destruct (Hu ltac:(auto)) as (? & ? & ?); simplify_eq/=).
  all: try (destruct (Hp eq_refl) as [[pl0 ?] ?]; simplify_eq/=).
  all: split; unfold ceiling_attested; simpl; intros; destruct_or?; try done; auto; eauto.
  all: try (by specialize (Hs ltac:(assumption))).
  by destruct (attested p).
Qed.

#[export] Instance boundary_safe : LifecycleSafe boundary_lifecycle.
Proof.
  refine {| lc_inv := (boundary_inv : lc_state boundary_lifecycle → Prop) |};
    [by split; unfold ceiling_attested; simpl; intros; [set_solver|..]|].
  apply total_lifecycle_safe with evolve; [done|apply boundary_inv_step].
Defined.

(** ** Properties *)

(** What survives the rest of a boundary's life. *)
Definition boundary_keeps (s s' : BoundaryState) : Prop :=
  (∀ p, placement s = Some p → placement s' = Some p)
  ∧ (∀ d, device_binding s = Some d → device_binding s' = Some d)
  ∧ (evidence s = true → evidence s' = true)
  ∧ accepted s ⊆ accepted s'
  ∧ (torn_down s = true → torn_down s' = true ∧ resources_admitted s' = resources_admitted s).

Lemma boundary_keeps_accepted s p ev :
  torn_down s = false → boundary_keeps s (evolve_accepted s p ev).
Proof.
  intros Ht. unfold evolve_accepted.
  destruct ev; case_match; split_and!; simpl; try done; try apply union_subseteq_r;
    by rewrite Ht.
Qed.

Lemma boundary_keeps_step s c es s' :
  boundary_inv s → apply boundary_lifecycle s c = Applied es s' → boundary_keeps s s'.
Proof.
  intros Hinv [Hd He]%apply_admitted. simpl in He. rewrite foldM_total in He.
  injection He as <-.
  pose proof (inv_unplaced s Hinv) as Hu. pose proof (inv_torn s Hinv) as Ht.
  destruct c as [ps|p|p ev|d g|a| | | | |]; simpl in Hd.
  3: { assert (es = [E_Accepted p ev]) as -> by (ok_inv Hd; done).
       apply boundary_keeps_accepted. rewrite Ht. by destruct (phase s). }
  all: destruct s as [ph pl req acc ae db ra ss td evi]; unfold active in Hd; simpl in *;
    destruct ph; simpl in Hd; ok_inv Hd; simpl in *; subst; split_and!; simpl; try done;
    intros; by destruct (Hu ltac:(auto)) as (? & _); simplify_eq.
Qed.

Lemma boundary_keeps_trans s1 s2 s3 : boundary_keeps s1 s2 → boundary_keeps s2 s3 → boundary_keeps s1 s3.
Proof.
  intros (Hp1 & Hd1 & He1 & Ha1 & Ht1) (Hp2 & Hd2 & He2 & Ha2 & Ht2).
  split_and!; auto; [set_solver|]. intros Ht. destruct (Ht1 Ht) as [Ht' <-]. by apply Ht2.
Qed.

(** RESOURCE_REQUIRES_ACTIVE_BOUNDARY, SESSION_REQUIRES_ACTIVE_BOUNDARY,
    NO_GHOST_ACCEPT, CEILING_IMMUTABLE and EVIDENCE_PRESERVED_ON_TEARDOWN. In any
    session resources and sessions exist only under a declared ceiling that every
    participant accepted, with attestation evidence for exactly the acceptances
    of an attested ceiling; however the session continues, the ceiling, the bound
    device and the evidence never change, and a boundary in teardown admits no
    further resource. *)
Theorem boundary_session_safe (cs later : list BoundaryCommand) :
  ∃ log s log' s', session boundary_lifecycle cs = Some (log, s)
    ∧ drive boundary_lifecycle log s later = Some (log', s')
    ∧ boundary_inv s
    ∧ (decide s C_AdmitResource = Ok [E_ResourceAdmitted] ↔ phase s = P_Active)
    ∧ (phase s = P_Active → is_Some (placement s) ∧ accepted s = required s)
    ∧ boundary_keeps s s'.
Proof.
  destruct (session_total boundary_lifecycle cs) as (log & s & Hs & Ht & Hinv & _).
  destruct (drive_trace boundary_lifecycle log s later Ht) as (log' & s' & Hd & Ht').
  assert (phase s = P_Active → is_Some (placement s) ∧ accepted s = required s) as Hact.
  { intros Hp. split; [apply (inv_placed s Hinv); by rewrite Hp|].
    apply set_eq. intros x. split; [apply (inv_ghost s Hinv)|].
    apply (inv_all s Hinv). by rewrite Hp. }
  exists log, s, log', s'. split_and!; [done|done|done| |done|].
  - split; [|intros Hp].
    + simpl. unfold active. intros H. repeat split_next H; guards; done.
    + destruct (Hact Hp) as [? Hall]. pose proof (inv_torn s Hinv) as Htorn.
      simpl. unfold active. rewrite Hp, Hall, Htorn, Hp.
      by rewrite !bool_decide_eq_true_2.
  - eapply (drive_preserves boundary_lifecycle (boundary_keeps s)); [|exact Hinv| |exact Hd].
    + intros s1 c es s2 Hi Hk Ha. eapply boundary_keeps_trans; [exact Hk|]. by eapply boundary_keeps_step.
    + by repeat split.
Qed.
