(* ===== verification/Plan.v ===== *)
(** * Plans: standing of governed work

    [crates/core/src/plan.rs]: a plan's steps are linked by [blocked_by];
    readiness is computed from the links and the claims. The reducer admits
    proposals (acyclic step graphs, by Kahn's algorithm), claims with leases,
    evidence, settlements under the current policy epoch, reopenings and
    supersession. *)

From stdpp Require Import pretty.
From S2P Require Import Prelude Ids Lifecycle.

Inductive EvidenceKind := Attestation | WorkRecord.

#[export] Instance EvidenceKind_eq_dec : EqDecision EvidenceKind.
Proof. solve_decision. Defined.
#[export] Instance EvidenceKind_countable : Countable EvidenceKind.
Proof.
  by refine (inj_countable' (λ k, match k with Attestation => true | WorkRecord => false end)
    (λ b : bool, if b then Attestation else WorkRecord) _); intros [].
Defined.

Record SettlementPolicy := mkSettlementPolicy {
  accepts : gset EvidenceKind;
  claimant_may_settle : bool;
}.

#[export] Instance SettlementPolicy_eq_dec : EqDecision SettlementPolicy.
Proof. solve_decision. Defined.

Definition independent_attestation : SettlementPolicy := mkSettlementPolicy {[Attestation]} false.

Record StepSpec := mkStepSpec {
  spec_id : string;
  spec_title : string;
  spec_blocked_by : gset string;
}.

Record StepClaim := mkStepClaim {
  holder : AuthorityId;
  claimed_at_ms : N;
  lease_until_ms : N;
}.

#[export] Instance StepClaim_eta : Eta StepClaim := mkEta (λ c,
  mkStepClaim (holder c) (claimed_at_ms c) (lease_until_ms c)).

Definition is_live (c : StepClaim) (now_ms : N) : bool := bool_decide (now_ms < lease_until_ms c)%N.

Record Evidence := mkEvidence {
  ev_id : string;
  ev_step : string;
  ev_kind : EvidenceKind;
  ev_author : AuthorityId;
  ev_reference : string;
  ev_cycle : N; (* u32 *)
  recorded_at_ms : N;
}.

Record ReopenCause := mkReopenCause {
  cause_reference : string;
  cause_reason : string;
}.

Record StepSettlement := mkStepSettlement {
  settled_evidence : string;
  settled_epoch : N; (* u32 *)
  settled_by : AuthorityId;
  settled_at_ms : N;
}.

Record StepState := mkStepState {
  step_title : string;
  blocked_by : gset string;
  cycle : N; (* u32 *)
  claim : option StepClaim;
  settlement : option StepSettlement;
  reopened : list ReopenCause;
}.

#[export] Instance StepState_eta : Eta StepState := mkEta (λ s,
  mkStepState (step_title s) (blocked_by s) (cycle s) (claim s) (settlement s) (reopened s)).

Inductive PlanPhase := P_Init | P_Active | P_Superseded.

#[export] Instance PlanPhase_eq_dec : EqDecision PlanPhase.
Proof. solve_decision. Defined.

Record PlanState := mkPlanState {
  phase : PlanPhase;
  plan_id : string;
  title : string;
  proposer : option AuthorityId;
  policies : list SettlementPolicy;
  steps : gmap string StepState;
  evidence : gmap string Evidence;
  superseded_by : option string;
}.

#[export] Instance PlanState_eta : Eta PlanState := mkEta (λ s,
  mkPlanState (phase s) (plan_id s) (title s) (proposer s) (policies s) (steps s) (evidence s)
    (superseded_by s)).

Definition plan_default : PlanState := mkPlanState P_Init "" "" None [] ∅ ∅ None.

(** ** Computed standing *)

Inductive Readiness :=
| Blocked (by_ : gset string)
| Ready
| Claimed (holder : AuthorityId) (lease_until_ms : N)
| Settled.

(** [policies.len().checked_sub(1).map(|e| e as u32)] *)
Definition epoch (s : PlanState) : option N :=
  match length (policies s) with
  | O => None
  | S e => Some (N.of_nat e mod u32_modulus)%N
  end.

Definition unsettled (s : PlanState) (b : string) : bool :=
  match steps s !! b with
  | None => true
  | Some st => match settlement st with None => true | Some _ => false end
  end.

Definition unsettled_blockers (s : PlanState) (step : StepState) : gset string :=
  filter (λ b, unsettled s b = true) (blocked_by step).

Definition live_claim (st : StepState) (now_ms : N) : option StepClaim :=
  match claim st with
  | Some c => if is_live c now_ms then Some c else None
  | None => None
  end.

Definition readiness (s : PlanState) (step : string) (now_ms : N) : option Readiness :=
  match steps s !! step with
  | None => None
  | Some state =>
      match settlement state with
      | Some _ => Some Settled
      | None =>
          match live_claim state now_ms with
          | Some c => Some (Claimed (holder c) (lease_until_ms c))
          | None =>
              let by_ := unsettled_blockers s state in
              Some (if bool_decide (by_ = ∅) then Ready else Blocked by_)
          end
      end
  end.

(** ** Commands and events *)

Inductive PlanCommand :=
| C_Propose (plan_id title : string) (proposer : AuthorityId) (steps : list StepSpec)
    (policy : SettlementPolicy) (at_ms : N)
| C_ClaimStep (step : string) (holder : AuthorityId) (at_ms lease_until_ms : N)
| C_ReleaseStep (step : string) (holder : AuthorityId) (at_ms : N)
| C_RecordEvidence (step : string) (kind : EvidenceKind) (author : AuthorityId) (reference : string)
    (at_ms : N)
| C_SettleStep (step evidence : string) (by_ : AuthorityId) (at_ms : N)
| C_ReopenStep (step : string) (cause : ReopenCause) (by_ : AuthorityId) (at_ms : N)
| C_ReviseSettlementPolicy (policy : SettlementPolicy) (by_ : AuthorityId) (at_ms : N)
| C_Supersede (successor reason : string) (by_ : AuthorityId) (at_ms : N).

Inductive PlanEvent :=
| E_PlanProposed (plan_id title : string) (proposer : AuthorityId) (steps : list StepSpec)
    (policy : SettlementPolicy) (at_ms : N)
| E_StepClaimed (step : string) (holder : AuthorityId) (at_ms lease_until_ms : N)
| E_StepReleased (step : string) (holder : AuthorityId) (at_ms : N)
| E_EvidenceRecorded (evidence : Evidence)
| E_StepSettled (step evidence : string) (epoch : N) (by_ : AuthorityId) (at_ms : N)
| E_StepReopened (step : string) (cause : ReopenCause) (by_ : AuthorityId) (at_ms : N)
| E_SettlementPolicyRevised (epoch : N) (policy : SettlementPolicy) (by_ : AuthorityId) (at_ms : N)
| E_PlanSuperseded (successor reason : string) (by_ : AuthorityId) (at_ms : N).

(** ** Validation of a proposal *)

Definition valid_policy (policy : SettlementPolicy) : bool := negb (bool_decide (accepts policy = ∅)).

(** The first loop of [valid_steps]. *)
Fixpoint valid_names (ids : gset string) (steps : list StepSpec) : result string unit :=
  match steps with
  | [] => Ok ()
  | step :: steps =>
      if blank (spec_id step) || blank (spec_title step)
      then Err "propose: every step needs an id and a title"
      else if bool_decide (spec_id step ∈ ids)
      then Err "propose: step ids must be unique"
      else valid_names ({[spec_id step]} ∪ ids) steps
  end%string.

(** [collect] into a map: a later entry replaces an earlier one. *)
Definition collect {V} (f : StepSpec → V) (steps : list StepSpec) : gmap string V :=
  fold_left (λ m s, <[spec_id s := f s]> m) steps ∅.

Definition graph_of (steps : list StepSpec) : gmap string (gset string) := collect spec_blocked_by steps.

Definition outside (graph : gmap string (gset string)) : bool :=
  existsb (λ blockers : gset string,
    existsb (λ b, negb (bool_decide (is_Some (graph !! b)))) (elements blockers))
    (map_to_list graph).*2.

(** One round of Kahn's algorithm: the steps whose blockers are all done. *)
Definition kahn_next (graph : gmap string (gset string)) (done_ : gset string) : gset string :=
  dom (filter (λ p : string * gset string, p.1 ∉ done_ ∧ p.2 ⊆ done_) graph).

Fixpoint kahn (fuel : nat) (graph : gmap string (gset string)) (done_ : gset string)
    : option (gset string) :=
  match fuel with
  | O => None
  | S fuel =>
      let next := kahn_next graph done_ in
      if bool_decide (next = ∅) then Some done_ else kahn fuel graph (done_ ∪ next)
  end.

(** Each round but the last adds a step. *)
Definition kahn_fuel (graph : gmap string (gset string)) : nat := S (size graph).

Definition valid_steps (steps : list StepSpec) : result string unit :=
  match steps with
  | [] => Err "propose: a plan needs at least one step"
  | _ =>
      let? _ := valid_names ∅ steps in
      let graph := graph_of steps in
      if outside graph then Err "propose: a step is blocked by a step outside the plan"
      else
        match kahn (kahn_fuel graph) graph ∅ with
        | Some done_ =>
            if bool_decide (size done_ = size graph) then Ok ()
            else Err "propose: the steps' blocks relations form a cycle"
        | None => Err "out of fuel"
        end
  end%string.

(** ** The decision *)

Definition evidence_name (n : N) : string := "evidence-" +:+ pretty n.

Definition decide_propose (state : PlanState) (plan_id title : string) (proposer : AuthorityId)
    (steps : list StepSpec) (policy : SettlementPolicy) (at_ms : N) : result Rejection (list PlanEvent) :=
  if negb (bool_decide (phase state = P_Init)) then reject "propose: the plan already exists"
  else if blank plan_id || blank title then reject "propose: a plan needs an id and a title"
  else if negb (valid_policy policy)
  then reject "propose: the settlement policy accepts no evidence"
  else match valid_steps steps with
       | Err why => reject why
       | Ok _ => Ok [E_PlanProposed plan_id title proposer steps policy at_ms]
       end.

Definition is_settled (st : StepState) : bool :=
  match settlement st with Some _ => true | None => false end.

Definition decide_settle (state : PlanState) (step ev : string) (by_ : AuthorityId) (at_ms : N)
    : result Rejection (list PlanEvent) :=
  match steps state !! step with
  | None => reject "settle: no such step"
  | Some current =>
      if is_settled current then reject "settle: the step is already settled"
      else
        match claim current with
        | None => reject "settle: nobody has claimed the step"
        | Some claim =>
            match (record ← evidence state !! ev;
                   if bool_decide (ev_step record = step) then Some record else None) with
            | None => reject "settle: no such evidence for this step"
            | Some record =>
                if negb (bool_decide (ev_cycle record = cycle current))
                then reject "settle: the evidence predates the step's reopening"
                else
                  match epoch state, last (policies state) with
                  | Some epoch, Some policy =>
                      if negb (bool_decide (ev_kind record ∈ accepts policy))
                      then reject "settle: the policy epoch does not accept this kind of evidence"
                      else if bool_decide (ev_author record = holder claim)
                              && negb (claimant_may_settle policy)
                      then reject "settle: the policy epoch does not accept the claimant's own record"
                      else Ok [E_StepSettled step ev epoch by_ at_ms]
                  | _, _ => reject "settle: the plan has no settlement policy"
                  end
            end
        end
  end.

Definition decide_active (state : PlanState) (command : PlanCommand)
    : result Rejection (list PlanEvent) :=
  match command with
  | C_Propose _ _ _ _ _ _ => reject "unreachable"
  | C_ClaimStep step holder at_ms lease_until_ms =>
      match steps state !! step with
      | None => reject "claim: no such step"
      | Some current =>
          if is_settled current then reject "claim: the step is settled"
          else if bool_decide (is_Some (live_claim current at_ms))
          then reject "claim: the step already has a live claim"
          else if negb (bool_decide (unsettled_blockers state current = ∅))
          then reject "claim: a step blocking this one is not settled"
          else if bool_decide (lease_until_ms ≤ at_ms)%N
          then reject "claim: the lease must end after it begins"
          else Ok [E_StepClaimed step holder at_ms lease_until_ms]
      end
  | C_ReleaseStep step holder_ at_ms =>
      match steps state !! step with
      | None => reject "release: no such step"
      | Some current =>
          match claim current with
          | Some claim =>
              if bool_decide (holder claim = holder_) && is_live claim at_ms
                 && negb (is_settled current)
              then Ok [E_StepReleased step holder_ at_ms]
              else reject "release: the step has no live claim of yours"
          | None => reject "release: the step has no live claim of yours"
          end
      end
  | C_RecordEvidence step kind author reference at_ms =>
      match steps state !! step with
      | None => reject "evidence: no such step"
      | Some current =>
          if is_settled current then reject "evidence: the step is settled"
          else if blank reference then reject "evidence: it must name what it vouches for"
          else Ok [E_EvidenceRecorded
                     (mkEvidence (evidence_name (N.of_nat (size (evidence state)) + 1)) step kind author
                        reference (cycle current) at_ms)]
      end
  | C_SettleStep step ev by_ at_ms => decide_settle state step ev by_ at_ms
  | C_ReopenStep step cause by_ at_ms =>
      match steps state !! step with
      | None => reject "reopen: no such step"
      | Some current =>
          if negb (is_settled current) then reject "reopen: the step is not settled"
          else if blank (cause_reference cause) || blank (cause_reason cause)
          then reject "reopen: it must cite a cause"
          else Ok [E_StepReopened step cause by_ at_ms]
      end
  | C_ReviseSettlementPolicy policy by_ at_ms =>
      if negb (valid_policy policy) then reject "revise: the settlement policy accepts no evidence"
      else if bool_decide (last (policies state) = Some policy)
      then reject "revise: the policy is unchanged"
      else Ok [E_SettlementPolicyRevised (N.of_nat (length (policies state)) mod u32_modulus)%N
                 policy by_ at_ms]
  | C_Supersede successor reason by_ at_ms =>
      if blank successor || bool_decide (successor = plan_id state)
      then reject "supersede: it must name a different successor plan"
      else if blank reason then reject "supersede: it must give a reason"
      else Ok [E_PlanSuperseded successor reason by_ at_ms]
  end.

Definition decide (state : PlanState) (command : PlanCommand) : result Rejection (list PlanEvent) :=
  match command with
  | C_Propose plan_id title proposer steps policy at_ms =>
      decide_propose state plan_id title proposer steps policy at_ms
  | _ =>
      match phase state with
      | P_Init => reject "the plan has not been proposed"
      | P_Superseded => reject "the plan is superseded"
      | P_Active => decide_active state command
      end
  end.

(** ** The fold *)

Definition initial_step (spec : StepSpec) : StepState :=
  mkStepState (spec_title spec) (spec_blocked_by spec) 0 None None [].

(** [if let Some(st) = s.steps.get_mut(&step) { .. }] *)
Definition update_step (s : PlanState) (step : string) (f : StepState → StepState) : PlanState :=
  s <| steps := alter f step (steps s) |>.

Definition settle_step (x : StepSettlement) (st : StepState) : StepState :=
  st <| claim := (λ c, c <| lease_until_ms := N.min (lease_until_ms c) (settled_at_ms x) |>) <$> claim st |>
     <| settlement := Some x |>.

Definition reopen_step (cause : ReopenCause) (st : StepState) : StepState :=
  mkStepState (step_title st) (blocked_by st) (u32_add (cycle st) 1) None None (reopened st ++ [cause]).

Definition evolve (s : PlanState) (event : PlanEvent) : PlanState :=
  match event with
  | E_PlanProposed plan_id title proposer steps policy _ =>
      mkPlanState P_Active plan_id title (Some proposer) [policy] (collect initial_step steps)
        (evidence s) (superseded_by s)
  | E_StepClaimed step holder at_ms lease_until_ms =>
      update_step s step (λ st, st <| claim := Some (mkStepClaim holder at_ms lease_until_ms) |>)
  | E_StepReleased step _ _ => update_step s step (λ st, st <| claim := None |>)
  | E_EvidenceRecorded ev => s <| evidence := <[ev_id ev := ev]> (evidence s) |>
  | E_StepSettled step ev epoch by_ at_ms =>
      update_step s step (settle_step (mkStepSettlement ev epoch by_ at_ms))
  | E_StepReopened step cause _ _ => update_step s step (reopen_step cause)
  | E_SettlementPolicyRevised _ policy _ _ => s <| policies := policies s ++ [policy] |>
  | E_PlanSuperseded successor _ _ _ =>
      s <| phase := P_Superseded |> <| superseded_by := Some successor |>
  end.

Definition PLAN_KIND : string := "work_plan".

Definition plan_lifecycle : Lifecycle := {|
  lc_state := PlanState;
  lc_command := PlanCommand;
  lc_event := PlanEvent;
  lc_default := plan_default;
  KIND := PLAN_KIND;
  lc_decide := decide;
  lc_evolve := λ s e, Some (evolve s e);
  lc_snapshot_codec := None;
|}.

(** ** Step graphs

    A graph is acyclic when its steps can be numbered so that blockers come
    first. *)

Definition ranked (graph : gmap string (gset string)) (rank : string → nat) : Prop :=
  ∀ id blockers b, graph !! id = Some blockers → b ∈ blockers → rank b < rank id.

Definition acyclic (graph : gmap string (gset string)) : Prop := ∃ rank, ranked graph rank.

Lemma elem_of_kahn_next graph done_ id :
  id ∈ kahn_next graph done_ ↔ ∃ blockers, graph !! id = Some blockers ∧ id ∉ done_ ∧ blockers ⊆ done_.
Proof.
  unfold kahn_next. rewrite elem_of_dom. split.
  - intros [bs Hbs]. apply map_lookup_filter_Some in Hbs as [? [? ?]]. eauto.
  - intros (bs & ? & ? & ?). exists bs. by apply map_lookup_filter_Some.
Qed.

(** The loop ends within its fuel, in a set that no further step can join. *)
Lemma kahn_total graph fuel done_ :
  done_ ⊆ dom graph → size graph - size done_ < fuel →
  ∃ all, kahn fuel graph done_ = Some all ∧ done_ ⊆ all ⊆ dom graph ∧ kahn_next graph all = ∅.
Proof.
  revert done_. induction fuel as [|fuel IH]; intros done_ Hsub Hfuel; [lia|]. simpl.
  case_bool_decide as Hn; [by exists done_|].
  assert (kahn_next graph done_ ⊆ dom graph) as Hnext.
  { intros x (bs & Hx & _)%elem_of_kahn_next. by apply elem_of_dom_2 in Hx. }
  assert (done_ ## kahn_next graph done_) as Hdisj.
  { intros x Hx (bs & _ & Hnx & _)%elem_of_kahn_next. done. }
  assert (size (done_ ∪ kahn_next graph done_) ≤ size graph) as Hle.
  { rewrite <- size_dom. apply subseteq_size. set_solver. }
  rewrite size_union in Hle by done.
  assert (size (kahn_next graph done_) ≠ 0) as Hpos by (rewrite size_empty_iff; set_solver).
  destruct (IH (done_ ∪ kahn_next graph done_)) as (all & -> & [Hlo Hhi] & Hdone);
    [set_solver|rewrite size_union by done; lia|].
  exists all. split_and!; [done|set_solver|done|done].
Qed.

(** Numbering the done steps by the round that added them. *)
Lemma kahn_ranks fuel graph done_ all rank n :
  (∀ id, id ∈ done_ → rank id < n) →
  (∀ id bs b, id ∈ done_ → graph !! id = Some bs → b ∈ bs → b ∈ done_ ∧ rank b < rank id) →
  kahn fuel graph done_ = Some all →
  ∃ rank' : string → nat, ∀ id bs b, id ∈ all → graph !! id = Some bs → b ∈ bs → rank' b < rank' id.
Proof.
  revert done_ rank n. induction fuel as [|fuel IH]; intros done_ rank n Hn Hrank Hk; [done|].
  simpl in Hk. case_bool_decide; [simplify_eq; exists rank; naive_solver|].
  set (rank' := λ x : string, if bool_decide (x ∈ done_) then rank x else n).
  assert (∀ x, x ∈ done_ → rank' x = rank x) as Hold.
  { intros x Hx. unfold rank'. by rewrite bool_decide_eq_true_2. }
  eapply (IH _ rank' (S n)); [| |exact Hk].
  - intros id _. unfold rank'. case_bool_decide as Hid; [specialize (Hn id Hid); lia|lia].
  - intros id bs b [Hid|Hid]%elem_of_union Hbs Hb.
    + destruct (Hrank id bs b Hid Hbs Hb) as [Hbd Hlt]. rewrite !Hold by done. set_solver.
    + apply elem_of_kahn_next in Hid as (bs' & Hbs' & Hnot & Hsub). simplify_eq.
      assert (b ∈ done_) as Hbd by set_solver. split; [set_solver|].
      rewrite (Hold b) by done. unfold rank'. rewrite bool_decide_eq_false_2 by done. by apply Hn.
Qed.

(** Kahn's loop covers the graph exactly when the graph is acyclic. *)
Lemma kahn_covers graph :
  (∀ id bs, graph !! id = Some bs → bs ⊆ dom graph) →
  ∃ all, kahn (kahn_fuel graph) graph ∅ = Some all ∧ (size all = size graph ↔ acyclic graph).
Proof.
  intros Hin. destruct (kahn_total graph (kahn_fuel graph) ∅) as (all & Hk & [_ Hsub] & Hnext);
    [set_solver|unfold kahn_fuel; rewrite size_empty; lia|].
  exists all. split; [done|].
  assert (size all = size graph ↔ all = dom graph) as ->.
  { rewrite <- size_dom. split; [|by intros ->]. intros Hsize.
    apply leibniz_equiv, set_subseteq_size_equiv; [done|lia]. }
  split.
  - intros ->. destruct (kahn_ranks _ graph ∅ _ (λ _, 0) 0 ltac:(set_solver) ltac:(set_solver) Hk)
      as [rank Hrank]. exists rank. intros id bs b Hid Hb. eapply Hrank; [|done|done].
    by apply elem_of_dom_2 in Hid.
  - intros [rank Hrank]. apply leibniz_equiv, set_equiv_subseteq. split; [done|].
    intros id. remember (rank id) as n eqn:Hn. revert id Hn.
    induction (lt_wf n) as [n _ IH]. intros id Hn Hid.
    destruct (base.decide (id ∈ all)) as [|Hno]; [done|]. exfalso.
    apply elem_of_dom in Hid as [bs Hbs]. assert (id ∈ kahn_next graph all) as Hnew; [|set_solver].
    apply elem_of_kahn_next. exists bs. split_and!; [done|done|]. intros b Hb.
    eapply (IH (rank b)); [|done|].
    + subst n. by eapply Hrank.
    + by apply (Hin id bs Hbs).
Qed.

Lemma collect_snoc {V} (f : StepSpec → V) l s :
  collect f (l ++ [s]) = <[spec_id s := f s]> (collect f l).
Proof. unfold collect. by rewrite fold_left_app. Qed.

Lemma lookup_collect {V} (f : StepSpec → V) l id v :
  NoDup (spec_id <$> l) →
  collect f l !! id = Some v ↔ ∃ s, s ∈ l ∧ spec_id s = id ∧ f s = v.
Proof.
  induction l as [|s l IH] using rev_ind; intros Hnd.
  - unfold collect. simpl. rewrite lookup_empty. split; [done|]. by intros (s & ?%elem_of_nil & _).
  - rewrite fmap_app in Hnd. apply NoDup_app in Hnd as (Hl & Hdisj & _).
    rewrite collect_snoc. setoid_rewrite elem_of_app. setoid_rewrite list_elem_of_singleton.
    destruct (base.decide (spec_id s = id)) as [<-|Hne].
    + rewrite lookup_insert_eq. split; [intros [= <-]; eauto|].
      intros (x & [Hx| ->] & Hid & <-); [|done]. exfalso.
      apply (Hdisj (spec_id x)); [by apply list_elem_of_fmap_2|]. rewrite Hid. simpl. by left.
    + rewrite lookup_insert_ne by done. rewrite IH by done. split; [naive_solver|].
      intros (x & [Hx| ->] & Hid & Hv); [eauto|done].
Qed.

Lemma valid_names_ok ids l :
  valid_names ids l = Ok () ↔
  (∀ s, s ∈ l → blank (spec_id s) = false ∧ blank (spec_title s) = false ∧ spec_id s ∉ ids)
  ∧ NoDup (spec_id <$> l).
Proof.
  revert ids. induction l as [|s l IH]; intros ids; simpl.
  { split; [intros _; split; [by intros s ?%elem_of_nil|constructor]|done]. }
  rewrite NoDup_cons.
  assert (s ∈ s :: l) as Hs by (by left).
  destruct (blank (spec_id s)) eqn:Hb1.
  { split; [done|]. intros [Hall _]. destruct (Hall s Hs). congruence. }
  destruct (blank (spec_title s)) eqn:Hb2.
  { split; [done|]. intros [Hall _]. destruct (Hall s Hs) as (_ & ? & _). congruence. }
  simpl. case_bool_decide as Hin.
  { split; [done|]. intros [Hall _]. destruct (Hall s Hs) as (_ & _ & ?). done. }
  rewrite IH. split.
  - intros [Hall Hnd]. split_and!; [| |done].
    + intros x [->|Hx]%elem_of_cons; [done|]. destruct (Hall x Hx) as (? & ? & ?). set_solver.
    + intros (x & Heq & Hx)%list_elem_of_fmap. destruct (Hall x Hx) as (_ & _ & ?). set_solver.
  - intros (Hall & Hnot & Hnd). split; [|done]. intros x Hx.
    destruct (Hall x) as (? & ? & ?); [by right|]. split_and!; [done|done|].
    intros [Heq%elem_of_singleton|?]%elem_of_union; [|done]. apply Hnot. rewrite <- Heq.
    by apply list_elem_of_fmap_2.
Qed.

Lemma outside_false graph :
  outside graph = false ↔ ∀ id bs, graph !! id = Some bs → bs ⊆ dom graph.
Proof.
  unfold outside. rewrite <- not_true_iff_false, existsb_exists. split.
  - intros Hno id bs Hid b Hb. apply elem_of_dom. apply dec_stable. intros Hnone. apply Hno.
    exists bs. split.
    + apply list_elem_of_In, list_elem_of_fmap. exists (id, bs). split; [done|by apply elem_of_map_to_list].
    + apply existsb_exists. exists b. split; [by apply list_elem_of_In, elem_of_elements|].
      by rewrite bool_decide_eq_false_2.
  - intros Hall (bs & Hbs & Hex). apply list_elem_of_In, list_elem_of_fmap in Hbs as ([id bs'] & -> & Hid).
    apply elem_of_map_to_list in Hid. apply existsb_exists in Hex as (b & Hb & Hneg).
    apply list_elem_of_In, elem_of_elements in Hb. apply negb_true_iff, bool_decide_eq_false in Hneg.
    apply Hneg, elem_of_dom. by eapply Hall.
Qed.

(** What a valid step list is. *)
Record steps_ok (l : list StepSpec) : Prop := {
  ok_nonempty : l ≠ [];
  ok_named : ∀ s, s ∈ l → blank (spec_id s) = false ∧ blank (spec_title s) = false;
  ok_unique : NoDup (spec_id <$> l);
  ok_inside : ∀ s b, s ∈ l → b ∈ spec_blocked_by s → ∃ s', s' ∈ l ∧ spec_id s' = b;
  ok_acyclic : ∃ rank : string → nat, ∀ s b, s ∈ l → b ∈ spec_blocked_by s → rank b < rank (spec_id s);
}.

Lemma graph_inside l :
  NoDup (spec_id <$> l) →
  (∀ id bs, graph_of l !! id = Some bs → bs ⊆ dom (graph_of l))
  ↔ ∀ s b, s ∈ l → b ∈ spec_blocked_by s → ∃ s', s' ∈ l ∧ spec_id s' = b.
Proof.
  intros Hnd. unfold graph_of. split.
  - intros Hall s b Hs Hb. assert (b ∈ dom (collect spec_blocked_by l)) as Hd.
    { apply (Hall (spec_id s) (spec_blocked_by s)); [|done]. apply lookup_collect; eauto. }
    apply elem_of_dom in Hd as [bs Hbs]. apply lookup_collect in Hbs as (s' & ? & ? & _); eauto.
  - intros Hall id bs (s & Hs & <- & <-)%lookup_collect b Hb; [|done].
    destruct (Hall s b Hs Hb) as (s' & ? & ?). apply elem_of_dom. exists (spec_blocked_by s').
    apply lookup_collect; eauto.
Qed.

Lemma graph_acyclic l :
  NoDup (spec_id <$> l) →
  acyclic (graph_of l)
  ↔ ∃ rank : string → nat, ∀ s b, s ∈ l → b ∈ spec_blocked_by s → rank b < rank (spec_id s).
Proof.
  intros Hnd. unfold acyclic, ranked, graph_of. setoid_rewrite lookup_collect; [|done..].
  split; intros [rank Hr]; exists rank; [eauto|]. intros id bs b (s & ? & <- & <-). eauto.
Qed.

Lemma valid_steps_spec l : valid_steps l = Ok () ↔ steps_ok l.
Proof.
  destruct l as [|s0 l0]; [split; [done|by intros [[]]]|].
  unfold valid_steps. set (l := s0 :: l0). destruct (valid_names ∅ l) as [[]|e] eqn:Hv.
  - apply valid_names_ok in Hv as [Hnames Hnd].
    pose proof (graph_inside l Hnd) as Hin. pose proof (graph_acyclic l Hnd) as Hac.
    destruct (outside (graph_of l)) eqn:Ho.
    + split; [done|]. intros [_ _ _ Hi _]. exfalso. apply not_false_iff_true in Ho.
      by apply Ho, outside_false, Hin.
    + pose proof (proj1 (outside_false _) Ho) as Hsub. destruct (kahn_covers _ Hsub) as (all & -> & Hk).
      case_bool_decide as Hs.
      * split; [|done]. intros _. split; [done|naive_solver|done|by apply Hin|by apply Hac, Hk].
      * split; [done|]. intros [_ _ _ _ Ha]. exfalso. by apply Hs, Hk, Hac.
  - split; [done|]. intros [_ Hn Hu _ _]. assert (valid_names ∅ l = Ok ()) as Hv2; [|congruence].
    apply valid_names_ok. split; [|done]. intros s Hs. destruct (Hn s Hs). set_solver.
Qed.

(** ** Invariant *)

(** The settlement [x] of a step cites evidence of its current cycle that the
    policy of the epoch it names accepts, the holder's own only where that policy
    lets it. *)
Definition settled_ok (s : PlanState) (id : string) (st : StepState) (x : StepSettlement) : Prop :=
  ∃ c ev n pol, claim st = Some c ∧ (lease_until_ms c ≤ settled_at_ms x)%N
    ∧ evidence s !! settled_evidence x = Some ev ∧ ev_step ev = id ∧ ev_cycle ev = cycle st
    ∧ policies s !! n = Some pol ∧ settled_epoch x = (N.of_nat n mod u32_modulus)%N
    ∧ ev_kind ev ∈ accepts pol ∧ (ev_author ev = holder c → claimant_may_settle pol = true).

Record plan_inv (s : PlanState) : Prop := {
  inv_init : phase s = P_Init → policies s = [] ∧ steps s = ∅ ∧ evidence s = ∅;
  inv_policies : phase s ≠ P_Init → policies s ≠ [];
  inv_inside : ∀ id st b, steps s !! id = Some st → b ∈ blocked_by st → is_Some (steps s !! b);
  inv_ranked : ∃ rank : string → nat, ∀ id st b,
    steps s !! id = Some st → b ∈ blocked_by st → rank b < rank id;
  inv_evidence : ∀ id ev, evidence s !! id = Some ev →
    ev_id ev = id ∧ ∃ n, id = evidence_name n ∧ (n ≤ N.of_nat (size (evidence s)))%N;
  inv_settled : ∀ id st x, steps s !! id = Some st → settlement st = Some x → settled_ok s id st x;
}.

Lemma settled_ok_mono s s' id st x :
  evidence s ⊆ evidence s' → policies s `prefix_of` policies s' →
  settled_ok s id st x → settled_ok s' id st x.
Proof.
  intros Hev [more Hp] (c & ev & n & pol & ? & ? & He & ? & ? & Hn & ? & ? & ?).
  exists c, ev, n, pol. split_and!; try done; [by eapply lookup_weaken|].
  rewrite Hp. by apply lookup_app_l_Some.
Qed.

Lemma evidence_name_inj n m : evidence_name n = evidence_name m → n = m.
Proof. intros H. by apply (inj (String.append "evidence-")), (inj pretty) in H. Qed.

(** The name of the next piece of evidence is free. *)
Lemma evidence_fresh s :
  plan_inv s → evidence s !! evidence_name (N.of_nat (size (evidence s)) + 1) = None.
Proof.
  intros Hinv. destruct (evidence s !! _) as [ev|] eqn:He; [|done]. exfalso.
  destruct (inv_evidence s Hinv _ _ He) as (_ & n & Hn%evidence_name_inj & Hle). lia.
Qed.

(** Changing one step's claim, settlement or cycle. *)
Lemma update_step_inv s id st f :
  plan_inv s → phase s = P_Active → steps s !! id = Some st → blocked_by (f st) = blocked_by st →
  (∀ x, settlement (f st) = Some x → settled_ok s id (f st) x) → plan_inv (update_step s id f).
Proof.
  intros [Hi Hp Hin [rank Hr] He Hs] Hph Hst Hb Hx.
  assert (∀ j st', alter f id (steps s) !! j = Some st' →
    ∃ st0, steps s !! j = Some st0 ∧ blocked_by st' = blocked_by st0) as Hback.
  { intros j st' Hj. destruct (base.decide (j = id)) as [->|Hne].
    - rewrite lookup_alter_eq, Hst in Hj. simplify_eq/=. eauto.
    - rewrite lookup_alter_ne in Hj by done. eauto. }
  split; simpl.
  - congruence.
  - done.
  - intros j st' b Hj Hbl. destruct (Hback j st' Hj) as (st0 & Hj0 & Heq). rewrite Heq in Hbl.
    destruct (Hin j st0 b Hj0 Hbl) as [stb Hstb].
    destruct (base.decide (b = id)) as [->|Hne].
    + rewrite lookup_alter_eq, Hstb. by eexists.
    + rewrite lookup_alter_ne by done. by eexists.
  - exists rank. intros j st' b Hj Hbl. destruct (Hback j st' Hj) as (st0 & Hj0 & Heq).
    rewrite Heq in Hbl. by eapply Hr.
  - done.
  - intros j st' x Hj Hset. destruct (base.decide (j = id)) as [->|Hne].
    + rewrite lookup_alter_eq, Hst in Hj. simplify_eq/=. by apply Hx.
    + rewrite lookup_alter_ne in Hj by done. by eapply Hs.
Qed.

Lemma propose_inv s id t by_ l pol :
  plan_inv s → phase s = P_Init → steps_ok l →
  plan_inv (mkPlanState P_Active id t (Some by_) [pol] (collect initial_step l) (evidence s)
              (superseded_by s)).
Proof.
  intros Hinv Hph [Hne Hnm Hnd Hin [rank Hr]]. destruct (inv_init s Hinv Hph) as (_ & _ & Hev).
  split; simpl; [done|done| | | |].
  - intros j st b (sp & Hsp & <- & <-)%lookup_collect Hb; [|done].
    destruct (Hin sp b Hsp Hb) as (sp' & ? & <-). exists (initial_step sp').
    apply lookup_collect; eauto.
  - exists rank. intros j st b (sp & Hsp & <- & <-)%lookup_collect Hb; [|done]. by apply Hr.
  - rewrite Hev. intros j ev Hj. by rewrite lookup_empty in Hj.
  - intros j st x (sp & Hsp & <- & <-)%lookup_collect Hx; done.
Qed.

Lemma record_inv s ev :
  plan_inv s → phase s = P_Active → ev_id ev = evidence_name (N.of_nat (size (evidence s)) + 1) →
  plan_inv (s <| evidence := <[ev_id ev := ev]> (evidence s) |>).
Proof.
  intros Hinv Hph Hid. pose proof (evidence_fresh s Hinv) as Hfresh. rewrite <- Hid in Hfresh.
  pose proof Hinv as [Hi Hp Hin Hr He Hs].
  split; simpl; [congruence|done|done|done| |].
  - rewrite map_size_insert_None by done. intros j ev' Hj.
    apply lookup_insert_Some in Hj as [[<- <-]|[Hne Hj]].
    + split; [done|]. eexists. split; [done|]. lia.
    + destruct (He j ev' Hj) as (? & n & ? & ?). split; [done|]. exists n. split; [done|]. lia.
  - intros j st x Hj Hx. eapply settled_ok_mono; [| |by eapply Hs]; simpl.
    + by apply insert_subseteq.
    + done.
Qed.

Lemma epoch_last s e pol :
  epoch s = Some e → last (policies s) = Some pol →
  ∃ n, policies s !! n = Some pol ∧ e = (N.of_nat n mod u32_modulus)%N.
Proof.
  unfold epoch. rewrite last_lookup. destruct (length (policies s)) as [|n] eqn:Hl; [done|].
  intros [= <-] Hp. exists n. done.
Qed.

Lemma is_settled_false st : is_settled st = false → settlement st = None.
Proof. unfold is_settled. by destruct (settlement st). Qed.

Lemma settle_inv s id ev by_ t es :
  plan_inv s → phase s = P_Active → decide_settle s id ev by_ t = Ok es → plan_inv (fold_left evolve es s).
Proof.
  intros Hinv Hph Hd. unfold decide_settle in Hd.
  destruct (steps s !! id) as [st|] eqn:Hst; [|done].
  destruct (is_settled st) eqn:Hset; [done|]. destruct (claim st) as [c|] eqn:Hc; [|done].
  destruct (evidence s !! ev) as [r|] eqn:Hev; [|done]. simpl in Hd.
  case_bool_decide as Hstep; [|done]. case_bool_decide as Hcy; [|done]. simpl in Hd.
  destruct (epoch s) as [e|] eqn:He; [|done].
  destruct (last (policies s)) as [pol|] eqn:Hl; [|done].
  case_bool_decide as Hk; [|done]. simpl in Hd.
  destruct (bool_decide (ev_author r = holder c) && negb (claimant_may_settle pol)) eqn:Ha; [done|].
  simplify_eq. simpl. eapply update_step_inv; [done|done|exact Hst|done|].
  intros x Hx. simpl in Hx. simplify_eq.
  destruct (epoch_last s e pol He Hl) as (n & Hn & ->).
  exists (c <| lease_until_ms := N.min (lease_until_ms c) t |>), r, n, pol. simpl.
  rewrite Hc. split_and!; try done; [lia|].
  intros Heq. apply andb_false_iff in Ha as [Ha%bool_decide_eq_false|Ha]; [done|].
  by apply negb_false_iff in Ha.
Qed.

Lemma plan_inv_step s c es :
  plan_inv s → decide s c = Ok es → plan_inv (fold_left evolve es s).
Proof.
  intros Hinv Hd. destruct c; simpl in Hd;
    [|destruct (phase s) eqn:Hph; try discriminate Hd; simpl in Hd ..].
  - unfold decide_propose in Hd. destruct (bool_decide (phase s = P_Init)) eqn:Hph; [|done].
    apply bool_decide_eq_true in Hph. simpl in Hd. repeat (case_match; try done).
    simplify_eq. simpl. apply propose_inv; [done|done|]. apply valid_steps_spec. by destruct t.
  - destruct (steps s !! step) as [st|] eqn:Hst; [|done]. ok_inv Hd. simpl.
    eapply update_step_inv; [done|done|exact Hst|done|]. simpl. intros x Hx.
    by rewrite (is_settled_false st) in Hx.
  - destruct (steps s !! step) as [st|] eqn:Hst; [|done]. ok_inv Hd. simpl.
    eapply update_step_inv; [done|done|exact Hst|done|]. simpl. intros x Hx. guards.
    by rewrite (is_settled_false st) in Hx.
  - destruct (steps s !! step) as [st|] eqn:Hst; [|done]. ok_inv Hd. simpl.
    by apply (record_inv s (mkEvidence _ step kind author reference (cycle st) at_ms)).
  - by eapply settle_inv.
  - destruct (steps s !! step) as [st|] eqn:Hst; [|done]. ok_inv Hd. simpl.
    eapply update_step_inv; [done|done|exact Hst|done|]. done.
  - ok_inv Hd. simpl. destruct Hinv as [Hi Hp Hin Hr He Hs].
    split; simpl; [congruence|by destruct (policies s)|done|done|done|].
    intros j st x Hj Hx. apply (settled_ok_mono s); [done| |by eapply Hs]. simpl. by apply prefix_app_r.
  - ok_inv Hd. simpl. destruct Hinv as [Hi Hp Hin Hr He Hs].
    split; simpl; [done|intros _; apply Hp; congruence|done|done|done|done].
Qed.

#[export] Instance plan_safe : LifecycleSafe plan_lifecycle.
Proof.
  refine {| lc_inv := (plan_inv : lc_state plan_lifecycle → Prop) |}.
  - split; simpl; try done. by exists (λ _, 0).
  - apply total_lifecycle_safe with evolve; [done|apply plan_inv_step].
Defined.

(** ** Properties *)

(** C25: a proposal's step list passes exactly when it has steps, all of them named and
    titled, with distinct ids, blocked only by steps of the plan, and without a
    cycle: the steps can be numbered so that every blocker comes before what it
    blocks. The loop of Kahn's algorithm always ends (within as many rounds as
    there are steps, and one). *)
Theorem valid_steps_iff_acyclic (l : list StepSpec) :
  (valid_steps l = Ok () ↔
     l ≠ [] ∧ (∀ s, s ∈ l → blank (spec_id s) = false ∧ blank (spec_title s) = false)
     ∧ NoDup (spec_id <$> l)
     ∧ (∀ s b, s ∈ l → b ∈ spec_blocked_by s → ∃ s', s' ∈ l ∧ spec_id s' = b)
     ∧ ∃ rank : string → nat, ∀ s b, s ∈ l → b ∈ spec_blocked_by s → rank b < rank (spec_id s))
  ∧ ∃ all, kahn (kahn_fuel (graph_of l)) (graph_of l) ∅ = Some all.
Proof.
  split.
  - rewrite valid_steps_spec. split; [by intros []|]. intros (? & ? & ? & ? & ?). by split.
  - destruct (kahn_total (graph_of l) (kahn_fuel (graph_of l)) ∅) as (all & Hk & _);
      [set_solver|unfold kahn_fuel; rewrite size_empty; lia|]. by exists all.
Qed.

(** A plan with work left has a step that can move. *)
Lemma open_step_ready s id0 st0 :
  plan_inv s → steps s !! id0 = Some st0 → settlement st0 = None →
  ∃ id st, steps s !! id = Some st ∧ settlement st = None ∧ unsettled_blockers s st = ∅.
Proof.
  intros Hinv. destruct (inv_ranked s Hinv) as [rank Hr]. remember (rank id0) as n eqn:Hn.
  revert id0 st0 Hn. induction (lt_wf n) as [n _ IH]. intros id st Hn Hst Hset.
  destruct (base.decide (unsettled_blockers s st = ∅)) as [|Hne]; [eauto|].
  apply set_choose_L in Hne as [b Hb]. unfold unsettled_blockers in Hb.
  apply elem_of_filter in Hb as [Hu Hb]. destruct (inv_inside s Hinv id st b Hst Hb) as [stb Hstb].
  unfold unsettled in Hu. rewrite Hstb in Hu. destruct (settlement stb) eqn:Hsb; [done|].
  eapply (IH (rank b)); [|done|exact Hstb|done]. subst n. by eapply Hr.
Qed.

(** C26: a plan never deadlocks. Whatever happened in a session, at any time, as long as
    a step of an active plan is unsettled some step is ready or held by a live
    claim; and a ready step can be claimed by anyone, with any lease that ends
    later. *)
Theorem plan_never_deadlocks (cs : list PlanCommand) (now : N) :
  ∃ log s, session plan_lifecycle cs = Some (log, s)
    ∧ (phase s = P_Active → (∃ id st, steps s !! id = Some st ∧ settlement st = None) →
        ∃ id, readiness s id now = Some Ready
              ∨ ∃ h until, readiness s id now = Some (Claimed h until) ∧ (now < until)%N)
    ∧ ∀ id h until, phase s = P_Active → readiness s id now = Some Ready → (now < until)%N →
        ∃ s', apply plan_lifecycle s (C_ClaimStep id h now until)
              = Applied [E_StepClaimed id h now until] s'
              ∧ readiness s' id now = Some (Claimed h until).
Proof.
  destruct (session_total plan_lifecycle cs) as (log & s & Hs & _ & Hinv & _).
  exists log, s. split_and!; [done| |].
  - intros _ (id0 & st0 & Hst0 & Hset0).
    destruct (open_step_ready s id0 st0 Hinv Hst0 Hset0) as (id & st & Hst & Hset & Hb).
    exists id. unfold readiness. rewrite Hst, Hset. unfold live_claim.
    rewrite bool_decide_eq_true_2 by done.
    destruct (claim st) as [c|]; [|by left]. destruct (is_live c now) eqn:Hl; [right|by left].
    eexists _, _. split; [done|]. by apply bool_decide_eq_true in Hl.
  - intros id h until Hph Hready Hlt. unfold readiness in Hready.
    destruct (steps s !! id) as [st|] eqn:Hst; [|done].
    destruct (settlement st) eqn:Hset; [done|].
    destruct (live_claim st now) eqn:Hlive; [done|]. case_bool_decide as Hb; [|done].
    eexists. split.
    + apply apply_admitted. split; [|done]. simpl. rewrite Hph. simpl. rewrite Hst.
      unfold is_settled. rewrite Hset, Hlive. simpl.
      rewrite (bool_decide_eq_true_2 (unsettled_blockers s st = ∅)) by done. simpl.
      by rewrite bool_decide_eq_false_2 by lia.
    + unfold readiness. simpl. rewrite lookup_alter_eq, Hst. simpl. rewrite Hset.
      unfold live_claim, is_live. simpl. by rewrite bool_decide_eq_true_2.
Qed.

(** Settlement only on evidence. In every state a session reaches, a settled step
    was claimed, its claim is over, and it cites recorded evidence about that very
    step, of its current cycle (none from before a reopening), of a kind that the
    policy of the cited epoch accepts, and by someone other than the holder unless
    that policy says otherwise. *)
Theorem plan_settled_on_evidence (cs : list PlanCommand) :
  ∃ log s, session plan_lifecycle cs = Some (log, s)
    ∧ ∀ id st x, steps s !! id = Some st → settlement st = Some x →
        ∃ c ev n pol, claim st = Some c ∧ is_live c (settled_at_ms x) = false
          ∧ evidence s !! settled_evidence x = Some ev ∧ ev_step ev = id ∧ ev_cycle ev = cycle st
          ∧ policies s !! n = Some pol ∧ settled_epoch x = (N.of_nat n mod u32_modulus)%N
          ∧ ev_kind ev ∈ accepts pol ∧ (ev_author ev = holder c → claimant_may_settle pol = true).
Proof.
  destruct (session_total plan_lifecycle cs) as (log & s & Hs & _ & Hinv & _).
  exists log, s. split; [done|]. intros id st x Hst Hx.
  destruct (inv_settled s Hinv id st x Hst Hx) as (c & ev & n & pol & ? & ? & ? & ? & ? & ? & ? & ? & ?).
  exists c, ev, n, pol. split_and!; try done. unfold is_live. apply bool_decide_eq_false. lia.
Qed.

(** Commands write one event. *)
Lemma plan_single s c es : decide s c = Ok es → length es ≤ 1.
Proof.
  unfold decide. intros Hd. destruct c; simpl in Hd;
    unfold decide_propose, decide_settle in Hd; ok_inv Hd; simpl; lia.
Qed.

(** Whether an event may change a step's claim. *)
Definition touches_claim (id : string) (e : PlanEvent) : Prop :=
  match e with
  | E_PlanProposed _ _ _ _ _ _ => True
  | E_StepClaimed step _ _ _ | E_StepReleased step _ _ | E_StepSettled step _ _ _ _
  | E_StepReopened step _ _ _ => step = id
  | _ => False
  end.

Lemma untouched_claim s e id :
  ¬ touches_claim id e → claim <$> steps (evolve s e) !! id = claim <$> steps s !! id.
Proof.
  intros Hne. destruct e; simpl in *; try done; by rewrite lookup_alter_ne.
Qed.

Lemma untouched_claims id log s s' :
  (∀ e, e ∈ log → ¬ touches_claim id e) → evolve_all plan_lifecycle s log = Some s' →
  claim <$> steps s' !! id = claim <$> steps s !! id.
Proof.
  unfold evolve_all. revert s. induction log as [|e log IH]; intros s Hno Hf; simpl in *; [by simplify_eq|].
  rewrite (IH (evolve s e)); [|set_solver|done]. apply untouched_claim. set_solver.
Qed.

(** One live claim per step. In any session, when a step is claimed a second time
    with nothing in between about that step's claim (no release, settlement or
    reopening), the first lease had ended by the time of the second claim. *)
Theorem plan_one_live_claim (cs : list PlanCommand) :
  ∃ log s, session plan_lifecycle cs = Some (log, s)
    ∧ ∀ l1 l2 l3 id h1 t1 u1 h2 t2 u2,
        log = l1 ++ E_StepClaimed id h1 t1 u1 :: l2 ++ E_StepClaimed id h2 t2 u2 :: l3 →
        (∀ e, e ∈ l2 → ¬ touches_claim id e) → (t1 < u1)%N ∧ (u1 ≤ t2)%N ∧ (t2 < u2)%N.
Proof.
  destruct (session_total plan_lifecycle cs) as (log & s & Hs & Ht & _ & _).
  exists log, s. split; [done|]. intros l1 l2 l3 id h1 t1 u1 h2 t2 u2 Hlog Hl2.
  assert (∀ s c e, decide s c = Ok [e] → ∀ h t u, e = E_StepClaimed id h t u →
    (t < u)%N ∧ ∃ st, steps s !! id = Some st ∧ live_claim st t = None) as Hclaim.
  { clear. intros s c e Hd h t u ->. destruct c; simpl in Hd;
      unfold decide_propose, decide_settle in Hd; ok_inv Hd; guards.
    split; [lia|]. eexists. split; [done|]. by apply eq_None_not_Some. }
  destruct (trace_event plan_lifecycle log s l1 _ _ plan_single Ht Hlog) as (s1 & c1 & Ht1 & Hd1).
  rewrite app_comm_cons, app_assoc in Hlog.
  destruct (trace_event plan_lifecycle log s _ _ _ plan_single Ht Hlog) as (s2 & c2 & Ht2 & Hd2).
  destruct (Hclaim s1 c1 _ Hd1 _ _ _ eq_refl) as (Hlt1 & st1 & Hst1 & _).
  destruct (Hclaim s2 c2 _ Hd2 _ _ _ eq_refl) as (Hlt2 & st2 & Hst2 & Hlive).
  split_and!; [done| |done].
  apply trace_replay in Ht1, Ht2. unfold replay, evolve_all in Ht1, Ht2.
  rewrite foldM_app, Ht1 in Ht2. simpl in Ht2.
  pose proof (untouched_claims id l2 _ s2 Hl2 Ht2) as Hsame. simpl in Hsame.
  rewrite lookup_alter_eq, Hst1, Hst2 in Hsame. simpl in Hsame. injection Hsame as Hc2.
  unfold live_claim, is_live in Hlive. rewrite Hc2 in Hlive. simpl in Hlive.
  case_bool_decide; [done|lia].
Qed.

(** A diamond passes, two steps that block each other do not. *)
Example diamond_valid :
  valid_steps [mkStepSpec "d" "D" {["b"; "c"]}; mkStepSpec "b" "B" {["a"]};
               mkStepSpec "c" "C" {["a"]}; mkStepSpec "a" "A" ∅] = Ok ().
Proof. vm_compute. reflexivity. Qed.

Example cycle_refused :
  valid_steps [mkStepSpec "a" "A" {["b"]}; mkStepSpec "b" "B" {["a"]}; mkStepSpec "c" "C" ∅]
  = Err "propose: the steps' blocks relations form a cycle"%string.
Proof. vm_compute. reflexivity. Qed.
