(* ===== verification/Settlement.v ===== *)
(** * Target settlement: the coordinator

    [crates/core/src/target_settlement.rs] up to its lanes: the receipt-driven
    coordination of a declaration's effects on several targets. Adapters perform
    an effect only after a member's start is admitted, and answer with
    authenticated receipts or an unknown outcome that an authoritative query must
    resolve. *)

From S2P Require Import Prelude Ids Lifecycle.

(** ** Identities in declarations *)

Definition valid_identity (value : string) : bool :=
  negb (trim_is_empty (bytes_of value)) && negb (has_control (bytes_of value)).

Definition valid_some (value : option string) : bool :=
  match value with Some v => valid_identity v | None => false end.

(** ** Declarations and evidence *)

Inductive SettlementAct := Propose | Apply | Publish | Release | ManagedAdvance.

Record SettlementMemberDeclaration := mkMember {
  member_id : string;
  target_id : string;
  operation_id : string;
  expected_basis : string;
  candidate_digest : string;
  expected_result_digest : string;
  policy_decision_handle : string;
  adapter : string;
  act : SettlementAct;
  retry_safe_after_failure : bool;
  authoritative_query : bool;
}.

Definition member_valid (m : SettlementMemberDeclaration) : bool :=
  forallb valid_identity
    [member_id m; target_id m; operation_id m; expected_basis m; candidate_digest m;
     expected_result_digest m; policy_decision_handle m; adapter m]
  && authoritative_query m.

Record TargetSettlementDeclaration := mkDeclaration {
  declaration_id : string;
  project_id : string;
  chat_id : string;
  source_change_set_ref : string;
  promotion_manifest_ref : option string;
  decl_members : list SettlementMemberDeclaration;
}.

(** The [all] over the members, with its two growing sets. *)
Fixpoint members_valid (member_ids operation_ids : gset string)
    (l : list SettlementMemberDeclaration) : bool :=
  match l with
  | [] => true
  | m :: l =>
      member_valid m && negb (bool_decide (member_id m ∈ member_ids))
      && negb (bool_decide (operation_id m ∈ operation_ids))
      && members_valid ({[member_id m]} ∪ member_ids) ({[operation_id m]} ∪ operation_ids) l
  end.

Definition declaration_valid (d : TargetSettlementDeclaration) : bool :=
  if negb (valid_identity (declaration_id d)) || negb (valid_identity (project_id d))
     || negb (valid_identity (chat_id d)) || negb (valid_identity (source_change_set_ref d))
     || match decl_members d with [] => true | _ => false end
     || match promotion_manifest_ref d with Some value => negb (valid_identity value) | None => false end
  then false
  else members_valid ∅ ∅ (decl_members d).

Record MemberPreflightEvidence := mkPreflight {
  pre_member_id : string;
  observed_basis : string;
  observed_candidate_digest : string;
  adapter_contract_ref : string;
  governance_decision_ref : string;
  admitted : bool;
  refusal_reason : option string;
}.

Definition preflight_exact (e : MemberPreflightEvidence) (m : SettlementMemberDeclaration) : bool :=
  bool_decide (pre_member_id e = member_id m)
  && bool_decide (governance_decision_ref e = policy_decision_handle m)
  && valid_identity (adapter_contract_ref e)
  && if admitted e
     then bool_decide (observed_basis e = expected_basis m)
          && bool_decide (observed_candidate_digest e = candidate_digest m)
          && bool_decide (refusal_reason e = None)
     else valid_identity (observed_basis e) && valid_identity (observed_candidate_digest e)
          && valid_some (refusal_reason e).

Record TargetLanePermit := mkPermit {
  lane_id : string;
  permit_target_id : string;
  permit_member_id : string;
  permit_operation_id : string;
  sequence : N; (* u64 *)
  authority_position : string;
}.

Definition permit_exact (p : TargetLanePermit) (m : SettlementMemberDeclaration) : bool :=
  bool_decide (permit_target_id p = target_id m) && bool_decide (permit_member_id p = member_id m)
  && bool_decide (permit_operation_id p = operation_id m) && bool_decide (0 < sequence p)%N
  && valid_identity (lane_id p) && valid_identity (authority_position p).

Inductive ReceiptOutcome := O_Succeeded | O_Failed.

#[export] Instance ReceiptOutcome_eq_dec : EqDecision ReceiptOutcome.
Proof. solve_decision. Defined.

Record AuthenticatedTargetReceipt := mkReceipt {
  receipt_ref : string;
  rec_member_id : string;
  rec_target_id : string;
  rec_operation_id : string;
  rec_expected_basis : string;
  resulting_basis : option string;
  resulting_digest : option string;
  outcome : ReceiptOutcome;
  authority_ref : string;
  authentication_ref : string;
  failure_reason : option string;
}.

Definition receipt_exact (r : AuthenticatedTargetReceipt) (m : SettlementMemberDeclaration) : bool :=
  if negb (bool_decide (rec_member_id r = member_id m))
     || negb (bool_decide (rec_target_id r = target_id m))
     || negb (bool_decide (rec_operation_id r = operation_id m))
     || negb (bool_decide (rec_expected_basis r = expected_basis m))
     || negb (valid_identity (receipt_ref r)) || negb (valid_identity (authority_ref r))
     || negb (valid_identity (authentication_ref r))
  then false
  else
    match outcome r with
    | O_Succeeded =>
        valid_some (resulting_basis r)
        && bool_decide (resulting_digest r = Some (expected_result_digest m))
        && bool_decide (failure_reason r = None)
    | O_Failed => bool_decide (resulting_digest r = None) && valid_some (failure_reason r)
    end.

Record CompensationReceiptLink := mkLink {
  original_receipt_ref : string;
  compensation_declaration_id : string;
  compensation_member_id : string;
  compensation_receipt_ref : string;
}.

Definition link_valid (l : CompensationReceiptLink) : bool :=
  valid_identity (original_receipt_ref l) && valid_identity (compensation_declaration_id l)
  && valid_identity (compensation_member_id l) && valid_identity (compensation_receipt_ref l)
  && negb (bool_decide (original_receipt_ref l = compensation_receipt_ref l)).

(** ** State *)

Inductive SettlementPhase :=
| P_Undeclared | P_Declared | P_Preflighting | P_Ready | P_Applying | P_Completed
| P_PartiallyApplied | P_ReconciliationRequired | P_Refused | P_Cancelled | P_Expired
| P_Compensated | P_AbandonedPartial.

#[export] Instance SettlementPhase_eq_dec : EqDecision SettlementPhase.
Proof. solve_decision. Defined.

Definition terminal (p : SettlementPhase) : bool :=
  match p with
  | P_Completed | P_Refused | P_Cancelled | P_Expired | P_Compensated | P_AbandonedPartial => true
  | _ => false
  end.

Inductive SettlementMemberPhase :=
| M_Pending | M_PreflightPassed | M_Started | M_Succeeded | M_Failed | M_Unknown
| M_CancelledBeforeStart | M_SupersededBeforeStart.

#[export] Instance SettlementMemberPhase_eq_dec : EqDecision SettlementMemberPhase.
Proof. solve_decision. Defined.

Record SettlementMemberState := mkMemberState {
  m_phase : SettlementMemberPhase;
  preflight_evidence : option MemberPreflightEvidence;
  lane_permit : option TargetLanePermit;
  attempts : N; (* u32 *)
  receipt : option AuthenticatedTargetReceipt;
  unknown_evidence_ref : option string;
  query_refs : list string;
  superseded_by : option string;
}.

#[export] Instance SettlementMemberState_eta : Eta SettlementMemberState := mkEta (λ s,
  mkMemberState (m_phase s) (preflight_evidence s) (lane_permit s) (attempts s) (receipt s)
    (unknown_evidence_ref s) (query_refs s) (superseded_by s)).

Definition member_default : SettlementMemberState := mkMemberState M_Pending None None 0 None None [] None.

Record TargetSettlementState := mkSettlement {
  phase : SettlementPhase;
  declaration : option TargetSettlementDeclaration;
  members : gmap string SettlementMemberState;
  started_effects : N; (* u32 *)
  terminal_reason : option string;
  compensation_receipt_refs : list string;
  compensation_receipt_links : list CompensationReceiptLink;
  history_events : N; (* u64 *)
}.

#[export] Instance TargetSettlementState_eta : Eta TargetSettlementState := mkEta (λ s,
  mkSettlement (phase s) (declaration s) (members s) (started_effects s) (terminal_reason s)
    (compensation_receipt_refs s) (compensation_receipt_links s) (history_events s)).

Definition settlement_default : TargetSettlementState :=
  mkSettlement P_Undeclared None ∅ 0 None [] [] 0.

(** ** Commands and events *)

Inductive TargetSettlementCommand :=
| C_Declare (declaration : TargetSettlementDeclaration)
| C_BeginPreflight
| C_RecordPreflight (evidence : MemberPreflightEvidence)
| C_CancelBeforeEffects (reason : string)
| C_ExpireBeforeEffects (reason : string)
| C_StartMember (member_id : string) (lane_permit : TargetLanePermit)
| C_RecordReceipt (receipt : AuthenticatedTargetReceipt)
| C_RecordUnknown (member_id evidence_ref : string)
| C_RequestAuthoritativeQuery (member_id query_ref : string)
| C_RecordQueryReceipt (receipt : AuthenticatedTargetReceipt)
| C_RetryKnownFailure (member_id : string) (lane_permit : TargetLanePermit)
| C_CancelUnstarted (reason : string)
| C_SupersedeNotStarted (member_id later_member_ref : string)
| C_MarkCompensated (receipt_links : list CompensationReceiptLink)
| C_AbandonPartial (reason : string).

Inductive TargetSettlementEvent :=
| E_DeclarationRecorded (declaration : TargetSettlementDeclaration)
| E_PreflightStarted
| E_MemberPreflightPassed (evidence : MemberPreflightEvidence)
| E_MemberPreflightRefused (evidence : MemberPreflightEvidence)
| E_CoordinatorReady
| E_CoordinatorRefused (reason : string)
| E_CoordinatorCancelled (reason : string)
| E_CoordinatorExpired (reason : string)
| E_MemberStarted (member_id : string) (lane_permit : TargetLanePermit)
| E_MemberReceiptRecorded (receipt : AuthenticatedTargetReceipt)
| E_MemberOutcomeUnknown (member_id evidence_ref : string)
| E_AuthoritativeQueryRequested (member_id query_ref : string)
| E_MemberRetryStarted (member_id : string) (lane_permit : TargetLanePermit)
| E_MemberCancelledBeforeStart (member_id reason : string)
| E_MemberSupersededBeforeStart (member_id later_member_ref : string)
| E_CoordinatorPhaseChanged (phase : SettlementPhase)
| E_CoordinatorCompensated (receipt_refs : list string)
| E_CoordinatorCompensatedV2 (receipt_links : list CompensationReceiptLink)
| E_CoordinatorAbandonedPartial (reason : string).

(** ** Projections *)

Definition declared_member (d : TargetSettlementDeclaration) (id : string)
    : option SettlementMemberDeclaration :=
  List.find (λ m, bool_decide (member_id m = id)) (decl_members d).

Definition member (state : TargetSettlementState) (id : string)
    : result Rejection (SettlementMemberDeclaration * SettlementMemberState) :=
  let? d := ok_or (declaration state) (mkRejection "target settlement declaration is absent") in
  let? declared := ok_or (declared_member d id)
                     (mkRejection "target settlement member is not declared") in
  let? current := ok_or (members state !! id)
                    (mkRejection "target settlement member state is absent") in
  Ok (declared, current).

Definition counts (p : SettlementMemberPhase → bool) (ms : gmap string SettlementMemberState) : nat :=
  length (filter (λ m, p (m_phase m) = true) (btree_values ms)).

Definition is_succeeded (p : SettlementMemberPhase) : bool :=
  match p with M_Succeeded => true | _ => false end.
Definition is_resolved_not_success (p : SettlementMemberPhase) : bool :=
  match p with M_Failed | M_CancelledBeforeStart | M_SupersededBeforeStart => true | _ => false end.
Definition is_unknown (p : SettlementMemberPhase) : bool :=
  match p with M_Unknown => true | _ => false end.
Definition is_active (p : SettlementMemberPhase) : bool :=
  match p with M_Pending | M_PreflightPassed | M_Started => true | _ => false end.

Definition projected_phase (ms : gmap string SettlementMemberState) : SettlementPhase :=
  let succeeded := counts is_succeeded ms in
  let resolved_not_success := counts is_resolved_not_success ms in
  let unknown := existsb (λ m, is_unknown (m_phase m)) (btree_values ms) in
  let active := existsb (λ m, is_active (m_phase m)) (btree_values ms) in
  if unknown then P_ReconciliationRequired
  else if negb active && bool_decide (resolved_not_success = 0) && bool_decide (succeeded = size ms)
  then P_Completed
  else if negb active && bool_decide (0 < succeeded) && bool_decide (0 < resolved_not_success)
  then P_PartiallyApplied
  else P_Applying.

Definition set_phase (p : SettlementMemberPhase) (m : SettlementMemberState) : SettlementMemberState :=
  m <| m_phase := p |>.

(** [get_mut(..).expect("declared member")]: the callers have just looked the
    member up. *)
Definition phase_after_member_change (state : TargetSettlementState) (changed_id : string)
    (changed_phase : SettlementMemberPhase) : SettlementPhase :=
  projected_phase (alter (set_phase changed_phase) changed_id (members state)).

Definition unstarted (p : SettlementMemberPhase) : bool :=
  match p with M_Pending | M_PreflightPassed => true | _ => false end.

Definition before_effects (p : SettlementPhase) : bool :=
  match p with P_Declared | P_Preflighting | P_Ready => true | _ => false end.

(** ** The decision *)

Definition receipt_phase (o : ReceiptOutcome) : SettlementMemberPhase :=
  match o with O_Succeeded => M_Succeeded | O_Failed => M_Failed end.

Definition record_receipt (state : TargetSettlementState) (r : AuthenticatedTargetReceipt)
    (from_query : bool) : result Rejection (list TargetSettlementEvent) :=
  let? p := member state (rec_member_id r) in
  let expected_phase := if from_query then M_Unknown else M_Started in
  if negb (bool_decide (m_phase p.2 = expected_phase)) || bool_decide (is_Some (receipt p.2))
  then reject "recordReceipt: member is not awaiting this receipt"
  else if from_query && match query_refs p.2 with [] => true | _ => false end
  then reject "recordReceipt: unknown member was not authoritatively queried"
  else if negb (receipt_exact r p.1)
  then reject "recordReceipt: authenticated receipt does not match declaration"
  else Ok [E_MemberReceiptRecorded r;
           E_CoordinatorPhaseChanged
             (phase_after_member_change state (rec_member_id r) (receipt_phase (outcome r)))].

Definition decide_preflight (state : TargetSettlementState) (e : MemberPreflightEvidence)
    : result Rejection (list TargetSettlementEvent) :=
  if negb (bool_decide (phase state = P_Preflighting))
  then reject "recordPreflight: coordinator is not preflighting"
  else
    let? p := member state (pre_member_id e) in
    if negb (bool_decide (m_phase p.2 = M_Pending)) || bool_decide (is_Some (preflight_evidence p.2))
    then reject "recordPreflight: member was already preflighted"
    else if negb (preflight_exact e p.1)
    then reject "recordPreflight: evidence does not match the declaration"
    else if negb (admitted e)
    then match refusal_reason e with
         | Some reason => Ok [E_MemberPreflightRefused e; E_CoordinatorRefused reason]
         | None => reject "unreachable: validated reason"
         end
    else
      let all_others_passed :=
        forallb (λ q : string * SettlementMemberState,
          bool_decide (q.1 = member_id p.1) || bool_decide (m_phase q.2 = M_PreflightPassed))
          (btree_iter (members state)) in
      Ok (E_MemberPreflightPassed e :: if all_others_passed then [E_CoordinatorReady] else []).

Definition start_member (state : TargetSettlementState) (id : string) (permit : TargetLanePermit)
    : result Rejection (list TargetSettlementEvent) :=
  if negb (bool_decide (phase state = P_Ready) || bool_decide (phase state = P_Applying))
  then reject "startMember: all-member preflight is not ready"
  else
    let? p := member state id in
    if negb (bool_decide (m_phase p.2 = M_PreflightPassed)) || bool_decide (is_Some (receipt p.2))
    then reject "startMember: member is not startable"
    else if negb (permit_exact permit p.1)
    then reject "startMember: ordered target-lane permit is not exact"
    else Ok [E_MemberStarted id permit; E_CoordinatorPhaseChanged P_Applying].

Definition retry_known_failure (state : TargetSettlementState) (id : string) (permit : TargetLanePermit)
    : result Rejection (list TargetSettlementEvent) :=
  let? p := member state id in
  if negb (bool_decide (m_phase p.2 = M_Failed)) || negb (retry_safe_after_failure p.1)
  then reject "retryKnownFailure: member is not safely retryable"
  else if negb (permit_exact permit p.1)
          || match lane_permit p.2 with
             | Some old => bool_decide (sequence permit ≤ sequence old)%N
             | None => false
             end
  then reject "retryKnownFailure: a newer exact lane permit is required"
  else Ok [E_MemberRetryStarted id permit; E_CoordinatorPhaseChanged P_Applying].

Definition cancel_unstarted (state : TargetSettlementState) (reason : string)
    : result Rejection (list TargetSettlementEvent) :=
  if terminal (phase state) || bool_decide (started_effects state = 0%N) || negb (valid_identity reason)
  then reject "cancelUnstarted: effects have not started or state is terminal"
  else
    let ids := (filter (λ q : string * SettlementMemberState, unstarted (m_phase q.2) = true)
                  (btree_iter (members state))).*1 in
    match ids with
    | [] => reject "cancelUnstarted: no unstarted member remains"
    | _ =>
        let projected := fold_left (λ ms id, alter (set_phase M_CancelledBeforeStart) id ms) ids
                           (members state) in
        Ok (map (λ id, E_MemberCancelledBeforeStart id reason) ids
            ++ [E_CoordinatorPhaseChanged (projected_phase projected)])
    end.

Definition successful_receipts (ms : gmap string SettlementMemberState) : gset string :=
  list_to_set (omap (λ m : SettlementMemberState,
    match receipt m with
    | Some r => if bool_decide (outcome r = O_Succeeded) then Some (receipt_ref r) else None
    | None => None
    end) (btree_values ms)).

Definition mark_compensated (state : TargetSettlementState) (links : list CompensationReceiptLink)
    : result Rejection (list TargetSettlementEvent) :=
  let successful := successful_receipts (members state) in
  let linked_originals : gset string := list_to_set (original_receipt_ref <$> links) in
  let linked_compensations : gset string := list_to_set (compensation_receipt_ref <$> links) in
  let linked_members : gset (string * string) :=
    list_to_set ((λ l, (compensation_declaration_id l, compensation_member_id l)) <$> links) in
  if negb (bool_decide (phase state = P_PartiallyApplied)) || bool_decide (successful = ∅)
     || negb (bool_decide (length links = size successful))
     || existsb (λ l, negb (link_valid l)) links
     || negb (bool_decide (linked_originals = successful))
     || negb (bool_decide (size linked_compensations = length links))
     || negb (bool_decide (size linked_members = length links))
  then reject "markCompensated: exact one-to-one forward-repair evidence is required"
  else Ok [E_CoordinatorCompensatedV2 links].

Definition decide (state : TargetSettlementState) (command : TargetSettlementCommand)
    : result Rejection (list TargetSettlementEvent) :=
  match command with
  | C_Declare d =>
      if negb (bool_decide (phase state = P_Undeclared)) || bool_decide (is_Some (declaration state))
      then reject "declare: coordinator is already declared"
      else if negb (declaration_valid d)
      then reject "declare: exact unique declaration members are required"
      else Ok [E_DeclarationRecorded d]
  | C_BeginPreflight =>
      if negb (bool_decide (phase state = P_Declared))
      then reject "beginPreflight: coordinator is not declared"
      else Ok [E_PreflightStarted]
  | C_RecordPreflight e => decide_preflight state e
  | C_CancelBeforeEffects reason =>
      if negb (before_effects (phase state)) || negb (bool_decide (started_effects state = 0%N))
         || negb (valid_identity reason)
      then reject "cancelBeforeEffects: cancellation is invalid or effects started"
      else Ok [E_CoordinatorCancelled reason]
  | C_ExpireBeforeEffects reason =>
      if negb (before_effects (phase state)) || negb (bool_decide (started_effects state = 0%N))
         || negb (valid_identity reason)
      then reject "expireBeforeEffects: expiry is invalid or effects started"
      else Ok [E_CoordinatorExpired reason]
  | C_StartMember id permit => start_member state id permit
  | C_RecordReceipt r => record_receipt state r false
  | C_RecordUnknown id evidence_ref =>
      let? p := member state id in
      if negb (bool_decide (m_phase p.2 = M_Started)) || negb (valid_identity evidence_ref)
      then reject "recordUnknown: only a started member may become unknown"
      else Ok [E_MemberOutcomeUnknown id evidence_ref; E_CoordinatorPhaseChanged P_ReconciliationRequired]
  | C_RequestAuthoritativeQuery id query_ref =>
      let? p := member state id in
      if negb (bool_decide (m_phase p.2 = M_Unknown)) || negb (authoritative_query p.1)
         || negb (valid_identity query_ref) || bool_decide (query_ref ∈ query_refs p.2)
      then reject "requestAuthoritativeQuery: member is not queryable"
      else Ok [E_AuthoritativeQueryRequested id query_ref]
  | C_RecordQueryReceipt r => record_receipt state r true
  | C_RetryKnownFailure id permit => retry_known_failure state id permit
  | C_CancelUnstarted reason => cancel_unstarted state reason
  | C_SupersedeNotStarted id later_member_ref =>
      let? p := member state id in
      if negb (unstarted (m_phase p.2)) || negb (valid_identity later_member_ref)
      then reject "supersedeNotStarted: only an exact not-started member may supersede"
      else Ok [E_MemberSupersededBeforeStart id later_member_ref;
               E_CoordinatorPhaseChanged (phase_after_member_change state id M_SupersededBeforeStart)]
  | C_MarkCompensated links => mark_compensated state links
  | C_AbandonPartial reason =>
      if negb match phase state with
              | P_Applying | P_PartiallyApplied | P_ReconciliationRequired => true
              | _ => false
              end
         || bool_decide (started_effects state = 0%N) || negb (valid_identity reason)
      then reject "abandonPartial: an explicit nonterminal partial state is required"
      else Ok [E_CoordinatorAbandonedPartial reason]
  end.

(** ** The fold *)


(** [next.members.get_mut(&id).expect("declared member")] *)
Definition update_member (next : TargetSettlementState) (id : string)
    (f : SettlementMemberState → SettlementMemberState) : option TargetSettlementState :=
  match members next !! id with
  | Some m => Some (next <| members := <[id := f m]> (members next) |>)
  | None => None
  end.

Definition fresh_members (l : list SettlementMemberDeclaration) : gmap string SettlementMemberState :=
  fold_left (λ ms m, <[member_id m := member_default]> ms) l ∅.

Definition start_attempt (permit : TargetLanePermit) (m : SettlementMemberState) : SettlementMemberState :=
  mkMemberState M_Started (preflight_evidence m) (Some permit) (saturating_succ u32_max (attempts m))
    None None (query_refs m) (superseded_by m).

Definition take_receipt (r : AuthenticatedTargetReceipt) (m : SettlementMemberState) : SettlementMemberState :=
  m <| m_phase := receipt_phase (outcome r) |> <| receipt := Some r |> <| unknown_evidence_ref := None |>.

Definition evolve_event (next : TargetSettlementState) (event : TargetSettlementEvent)
    : option TargetSettlementState :=
  match event with
  | E_DeclarationRecorded d =>
      Some (next <| phase := P_Declared |> <| members := fresh_members (decl_members d) |>
                 <| declaration := Some d |>)
  | E_PreflightStarted => Some (next <| phase := P_Preflighting |>)
  | E_MemberPreflightPassed e =>
      update_member next (pre_member_id e) (λ m,
        m <| m_phase := M_PreflightPassed |> <| preflight_evidence := Some e |>)
  | E_MemberPreflightRefused e =>
      update_member next (pre_member_id e) (λ m, m <| preflight_evidence := Some e |>)
  | E_CoordinatorReady => Some (next <| phase := P_Ready |>)
  | E_CoordinatorRefused reason =>
      Some (next <| phase := P_Refused |> <| terminal_reason := Some reason |>)
  | E_CoordinatorCancelled reason =>
      Some (next <| phase := P_Cancelled |> <| terminal_reason := Some reason |>)
  | E_CoordinatorExpired reason =>
      Some (next <| phase := P_Expired |> <| terminal_reason := Some reason |>)
  | E_MemberStarted id permit | E_MemberRetryStarted id permit =>
      next ← update_member next id (start_attempt permit);
      Some (next <| started_effects := saturating_succ u32_max (started_effects next) |>)
  | E_MemberReceiptRecorded r => update_member next (rec_member_id r) (take_receipt r)
  | E_MemberOutcomeUnknown id evidence_ref =>
      update_member next id (λ m, m <| m_phase := M_Unknown |> <| unknown_evidence_ref := Some evidence_ref |>)
  | E_AuthoritativeQueryRequested id query_ref =>
      update_member next id (λ m, m <| query_refs := query_refs m ++ [query_ref] |>)
  | E_MemberCancelledBeforeStart id _ => update_member next id (set_phase M_CancelledBeforeStart)
  | E_MemberSupersededBeforeStart id later_member_ref =>
      update_member next id (λ m,
        m <| m_phase := M_SupersededBeforeStart |> <| superseded_by := Some later_member_ref |>)
  | E_CoordinatorPhaseChanged p => Some (next <| phase := p |>)
  | E_CoordinatorCompensated refs =>
      Some (next <| phase := P_Compensated |> <| compensation_receipt_refs := refs |>)
  | E_CoordinatorCompensatedV2 links =>
      Some (next <| phase := P_Compensated |>
                 <| compensation_receipt_refs := compensation_receipt_ref <$> links |>
                 <| compensation_receipt_links := links |>)
  | E_CoordinatorAbandonedPartial reason =>
      Some (next <| phase := P_AbandonedPartial |> <| terminal_reason := Some reason |>)
  end.

Definition evolve (state : TargetSettlementState) (event : TargetSettlementEvent)
    : option TargetSettlementState :=
  evolve_event (state <| history_events := saturating_succ u64_max (history_events state) |>) event.

Definition settlement_lifecycle (encode : TargetSettlementState → option string)
    (decode : string → option TargetSettlementState) : Lifecycle := {|
  lc_state := TargetSettlementState;
  lc_command := TargetSettlementCommand;
  lc_event := TargetSettlementEvent;
  lc_default := settlement_default;
  KIND := "target_settlement";
  lc_decide := decide;
  lc_evolve := evolve;
  lc_snapshot_codec := Some (serde_codec encode decode "target_settlement" 1);
|}.

(** ** Invariant *)

Definition passed (p : SettlementMemberPhase) : bool :=
  match p with M_PreflightPassed | M_Started | M_Succeeded | M_Failed | M_Unknown => true | _ => false end.

Definition has_receipt (dm : SettlementMemberDeclaration) (m : SettlementMemberState)
    (o : ReceiptOutcome) : Prop :=
  ∃ r, receipt m = Some r ∧ outcome r = o ∧ receipt_exact r dm = true.

Definition has_permit (dm : SettlementMemberDeclaration) (m : SettlementMemberState) : Prop :=
  ∃ p, lane_permit m = Some p ∧ permit_exact p dm = true.

(** What a member's phase says about its evidence, permit and receipt. *)
Definition member_ok (dm : SettlementMemberDeclaration) (m : SettlementMemberState) : Prop :=
  (passed (m_phase m) = true →
     ∃ e, preflight_evidence m = Some e ∧ admitted e = true ∧ preflight_exact e dm = true)
  ∧ match m_phase m with
    | M_Pending | M_PreflightPassed | M_CancelledBeforeStart | M_SupersededBeforeStart =>
        lane_permit m = None ∧ receipt m = None
    | M_Started | M_Unknown => has_permit dm m ∧ receipt m = None
    | M_Succeeded => has_permit dm m ∧ has_receipt dm m O_Succeeded
    | M_Failed => has_permit dm m ∧ has_receipt dm m O_Failed
    end.

Record settlement_inv (s : TargetSettlementState) : Prop := {
  si_undeclared : declaration s = None → phase s = P_Undeclared ∧ members s = ∅;
  si_declared : ∀ d, declaration s = Some d → phase s ≠ P_Undeclared ∧ declaration_valid d = true
    ∧ ∀ id, is_Some (members s !! id) ↔ is_Some (declared_member d id);
  si_member : ∀ d id m dm, declaration s = Some d → members s !! id = Some m →
    declared_member d id = Some dm → member_ok dm m;
  si_completed : phase s = P_Completed → ∀ id m, members s !! id = Some m → m_phase m = M_Succeeded;
}.

Lemma member_lookup s id dm m :
  member s id = Ok (dm, m) ↔
  ∃ d, declaration s = Some d ∧ declared_member d id = Some dm ∧ members s !! id = Some m.
Proof.
  unfold member, ok_or. split.
  - intros H. repeat case_match; simplify_eq. eauto.
  - intros (d & -> & -> & ->). done.
Qed.

Lemma declared_member_id d id dm : declared_member d id = Some dm → member_id dm = id ∧ dm ∈ decl_members d.
Proof.
  intros [Hin Hid]%List.find_some. apply bool_decide_eq_true in Hid. by apply list_elem_of_In in Hin.
Qed.

Lemma projected_phase_completed ms :
  projected_phase ms = P_Completed → ∀ id m, ms !! id = Some m → m_phase m = M_Succeeded.
Proof.
  unfold projected_phase, counts. intros Hp id m Hm.
  assert (m ∈ btree_values ms) as Hin by (apply elem_of_btree_values; eauto).
  destruct (existsb (λ m, is_unknown (m_phase m)) (btree_values ms)) eqn:Hu; [done|].
  destruct (existsb (λ m, is_active (m_phase m)) (btree_values ms)) eqn:Ha;
    [simpl in Hp; by repeat case_match|]. simpl in Hp.
  case_bool_decide as Hr; [|simpl in Hp; by repeat case_match]. simpl in Hp.
  apply nil_length_inv in Hr.
  assert (∀ f, existsb f (btree_values ms) = false → f m = false) as Hno.
  { intros f Hf. destruct (f m) eqn:Hfm; [|done]. rewrite <- Hf. symmetry. apply existsb_exists.
    exists m. split; [by apply list_elem_of_In|done]. }
  apply Hno in Hu, Ha.
  assert (is_resolved_not_success (m_phase m) = false) as Hr'.
  { destruct (is_resolved_not_success (m_phase m)) eqn:Hf; [|done]. exfalso.
    apply (not_elem_of_nil m). rewrite <- Hr. by apply list_elem_of_filter. }
  by destruct (m_phase m).
Qed.

Lemma projected_phase_declared ms : projected_phase ms ≠ P_Undeclared.
Proof. unfold projected_phase. by repeat case_match. Qed.

(** Changing one member that has not succeeded. *)
Lemma update_member_inv s d id m dm f :
  settlement_inv s → declaration s = Some d → members s !! id = Some m →
  declared_member d id = Some dm → m_phase m ≠ M_Succeeded → member_ok dm (f m) →
  ∃ s', update_member s id f = Some s' ∧ settlement_inv s' ∧ declaration s' = Some d
    ∧ phase s' = phase s ∧ members s' = <[id := f m]> (members s)
    ∧ started_effects s' = started_effects s.
Proof.
  intros [Hu Hd Hm Hc] Hdec Hid Hdm Hns Hf. unfold update_member. rewrite Hid.
  eexists. split; [done|]. split_and!; [|done..]. split; simpl.
  - congruence.
  - intros d' Hd'. destruct (Hd d' Hd') as (? & ? & Hdom). split_and!; [done|done|].
    intros j. rewrite <- Hdom. destruct (base.decide (j = id)) as [->|Hne].
    + rewrite lookup_insert_eq, Hid. split; by eexists.
    + by rewrite lookup_insert_ne.
  - intros d' j mj dmj Hd' Hj Hdj. simplify_eq. apply lookup_insert_Some in Hj as [[<- <-]|[Hne Hj]].
    + by simplify_eq.
    + by eapply Hm.
  - intros Hp. exfalso. apply Hns. by eapply Hc.
Qed.

Lemma set_phase_inv s p :
  settlement_inv s → is_Some (declaration s) → p ≠ P_Undeclared →
  (p = P_Completed → ∀ id m, members s !! id = Some m → m_phase m = M_Succeeded) →
  settlement_inv (s <| phase := p |>).
Proof.
  intros [Hu Hd Hm Hc] [d Hdec] Hp Hall. split; simpl; [congruence| |done|done].
  intros d' Hd'. destruct (Hd d' Hd') as (_ & ? & ?). done.
Qed.

(** The fields the invariant does not read. *)
Lemma settlement_inv_eq s s' :
  settlement_inv s → phase s' = phase s → declaration s' = declaration s → members s' = members s →
  settlement_inv s'.
Proof. intros [? ? ? ?] Hp Hd Hm. split; rewrite ?Hp, ?Hd, ?Hm; done. Qed.

(** A member event, then the coordinator's new phase. *)
Lemma member_then_phase s d id m dm f p e :
  settlement_inv s → declaration s = Some d → members s !! id = Some m →
  declared_member d id = Some dm → m_phase m ≠ M_Succeeded → member_ok dm (f m) →
  (∀ t, members t = members s → ∃ t', evolve_event t e = Some t' ∧ phase t' = phase t
      ∧ declaration t' = declaration t ∧ members t' = <[id := f m]> (members t)) →
  (p = P_Completed → projected_phase (alter (set_phase (m_phase (f m))) id (members s)) = P_Completed) →
  p ≠ P_Undeclared →
  ∃ s', foldM evolve s [e; E_CoordinatorPhaseChanged p] = Some s' ∧ settlement_inv s'
    ∧ declaration s' = declaration s ∧ members s' = <[id := f m]> (members s).
Proof.
  intros Hinv Hd Hid Hdm Hns Hf He Hp Hpu.
  destruct (update_member_inv s d id m dm f Hinv Hd Hid Hdm Hns Hf)
    as (s1 & _ & Hinv1 & Hd1 & Hph1 & Hm1 & _).
  simpl. unfold evolve at 1. edestruct He as (t & -> & Htp & Htd & Htm); [done|]. simpl.
  eexists. split; [done|]. split_and!; [|by rewrite Htd|by rewrite Htm].
  apply (settlement_inv_eq (s1 <| phase := p |>)); [|done|by simpl; rewrite Htd, Hd1|by simpl; rewrite Htm, Hm1].
  apply set_phase_inv; [done|by rewrite Hd1|done|]. intros ->. rewrite Hm1.
  intros j mj Hj. specialize (Hp eq_refl). pose proof (projected_phase_completed _ Hp) as Hall.
  apply lookup_insert_Some in Hj as [[<- <-]|[Hne Hj]].
  - apply (Hall id (set_phase (m_phase (f m)) m)). by rewrite lookup_alter_eq, Hid.
  - apply (Hall j mj). by rewrite lookup_alter_ne.
Qed.

(** ** The abstract course of one member's effect

    An effect is started once; while its outcome is open nothing is started; after
    an authenticated failure it may be started again, if the declaration says a
    refusal had no effect, under a newer permit; after success it is over. *)

Inductive effect := Start (permit : TargetLanePermit) | Receipt (o : ReceiptOutcome).

Inductive effect_state :=
| Idle
| Running (permit : TargetLanePermit)
| FailedUnder (permit : TargetLanePermit)
| Succeeded.

Definition effect_step (retry_safe : bool) (st : effect_state) (e : effect) : option effect_state :=
  match st, e with
  | Idle, Start p => Some (Running p)
  | Running p, Receipt O_Failed => Some (FailedUnder p)
  | Running _, Receipt O_Succeeded => Some Succeeded
  | FailedUnder old, Start p =>
      if retry_safe && bool_decide (sequence old < sequence p)%N then Some (Running p) else None
  | _, _ => None
  end.

(** The effects of a member that a log records. *)
Definition effect_of (id : string) (e : TargetSettlementEvent) : option effect :=
  match e with
  | E_MemberStarted j p | E_MemberRetryStarted j p => if bool_decide (j = id) then Some (Start p) else None
  | E_MemberReceiptRecorded r =>
      if bool_decide (rec_member_id r = id) then Some (Receipt (outcome r)) else None
  | _ => None
  end.

Definition effects (id : string) (log : list TargetSettlementEvent) : list effect :=
  omap (effect_of id) log.

Definition member_effect (m : SettlementMemberState) : effect_state :=
  match m_phase m, lane_permit m with
  | (M_Started | M_Unknown), Some p => Running p
  | M_Failed, Some p => FailedUnder p
  | M_Succeeded, _ => Succeeded
  | _, _ => Idle
  end.

Definition effect_state_of (s : TargetSettlementState) (id : string) : effect_state :=
  match members s !! id with Some m => member_effect m | None => Idle end.

Definition retry_safe (s : TargetSettlementState) (id : string) : bool :=
  match declaration s ≫= λ d, declared_member d id with
  | Some dm => retry_safe_after_failure dm
  | None => false
  end.

(** What an admitted batch does: the fold succeeds, keeps the invariant and the
    declaration, and moves each member along the abstract course. *)
Record good_step (s : TargetSettlementState) (es : list TargetSettlementEvent)
    (s' : TargetSettlementState) : Prop := {
  gs_fold : foldM evolve s es = Some s';
  gs_inv : settlement_inv s';
  gs_declared : is_Some (declaration s');
  gs_keeps : is_Some (declaration s) → declaration s' = declaration s;
  gs_effects : ∀ id, foldM (effect_step (retry_safe s' id)) (effect_state_of s id) (effects id es)
                     = Some (effect_state_of s' id);
}.

Definition good_batch (s : TargetSettlementState) (es : list TargetSettlementEvent) : Prop :=
  ∃ s', good_step s es s'.

Lemma good_step_app s es1 s1 es2 s2 :
  is_Some (declaration s) → good_step s es1 s1 → good_step s1 es2 s2 → good_step s (es1 ++ es2) s2.
Proof.
  intros Hd [Hf1 _ Hd1 Hk1 He1] [Hf2 Hi2 Hd2 Hk2 He2].
  assert (declaration s2 = declaration s1) as Heq by auto.
  split; [by rewrite foldM_app, Hf1|done|done|intros _; rewrite Heq; auto|].
  intros id. unfold effects. rewrite omap_app, foldM_app. fold (effects id es1) (effects id es2).
  assert (retry_safe s2 id = retry_safe s1 id) as Hr by (unfold retry_safe; by rewrite Heq).
  rewrite Hr, He1. simpl. rewrite <- Hr. apply He2.
Qed.

(** Batches that fold alike are alike. *)
Lemma good_batch_ext s es es' :
  foldM evolve s es = foldM evolve s es' → (∀ id, effects id es = effects id es') →
  good_batch s es → good_batch s es'.
Proof.
  intros Hf He [s' [H1 H2 H3 H4 H5]]. exists s'. split; [by rewrite <- Hf|done|done|done|].
  intros id. by rewrite <- He.
Qed.

Lemma good_member_batch s d id m dm f p e :
  settlement_inv s → declaration s = Some d → members s !! id = Some m →
  declared_member d id = Some dm → m_phase m ≠ M_Succeeded → member_ok dm (f m) →
  (∀ t, members t = members s → ∃ t', evolve_event t e = Some t' ∧ phase t' = phase t
      ∧ declaration t' = declaration t ∧ members t' = <[id := f m]> (members t)) →
  (p = P_Completed → projected_phase (alter (set_phase (m_phase (f m))) id (members s)) = P_Completed) →
  p ≠ P_Undeclared →
  (∀ j, j ≠ id → effect_of j e = None) →
  foldM (effect_step (retry_safe_after_failure dm)) (member_effect m) (effects id [e])
    = Some (member_effect (f m)) →
  good_batch s [e; E_CoordinatorPhaseChanged p].
Proof.
  intros Hinv Hd Hid Hdm Hns Hf He Hp Hpu Hother Hself.
  destruct (member_then_phase s d id m dm f p e) as (s' & Hfold & Hinv' & Hd' & Hm'); [done..|].
  exists s'. split; [done|done|by rewrite Hd', Hd|done|].
  intros j. unfold effect_state_of. rewrite Hm'. destruct (base.decide (j = id)) as [->|Hne].
  - rewrite lookup_insert_eq, Hid. unfold retry_safe. rewrite Hd', Hd. simpl. rewrite Hdm.
    unfold effects in *. simpl in *. destruct (effect_of id e); done.
  - rewrite lookup_insert_ne by done. unfold effects. simpl. by rewrite (Hother j Hne).
Qed.

(** Events that touch no member. *)
Lemma good_quiet_step s s' es :
  foldM evolve s es = Some s' → settlement_inv s' → is_Some (declaration s) →
  declaration s' = declaration s → members s' = members s → (∀ id, effects id es = []) →
  good_step s es s'.
Proof.
  intros Hf Hinv Hd Hd' Hm He. split; [done|done|by rewrite Hd'|done|].
  intros id. rewrite He. simpl. unfold effect_state_of. by rewrite Hm.
Qed.

(** A member event that leaves the coordinator's phase. *)
Lemma good_single_step s d id m dm f e :
  settlement_inv s → declaration s = Some d → members s !! id = Some m →
  declared_member d id = Some dm → m_phase m ≠ M_Succeeded → member_ok dm (f m) →
  (∀ t, evolve_event t e = update_member t id f) → (∀ j, effect_of j e = None) →
  member_effect (f m) = member_effect m →
  ∃ s', good_step s [e] s' ∧ members s' = <[id := f m]> (members s) ∧ phase s' = phase s
    ∧ declaration s' = Some d.
Proof.
  intros Hinv Hd Hid Hdm Hns Hf He Heff Hsame.
  destruct (update_member_inv s d id m dm f Hinv Hd Hid Hdm Hns Hf)
    as (s1 & Hs1 & Hinv1 & Hd1 & Hph1 & Hm1 & _).
  assert (∃ s', foldM evolve s [e] = Some s' ∧ phase s' = phase s ∧ declaration s' = Some d
    ∧ members s' = <[id := f m]> (members s)) as (s' & Hfold & Hph & Hd' & Hm').
  { eexists. simpl. unfold evolve. rewrite He. unfold update_member. simpl. by rewrite Hid. }
  exists s'. split_and!; [|done|done|done]. split; [done| |by rewrite Hd'|by rewrite Hd, Hd'|].
  - apply (settlement_inv_eq s1); congruence.
  - intros j. unfold effects. simpl. rewrite Heff. simpl. f_equal. unfold effect_state_of.
    rewrite Hm'. destruct (base.decide (j = id)) as [->|Hne];
      [by rewrite lookup_insert_eq, Hid|by rewrite lookup_insert_ne].
Qed.

(** ** The batches, command by command *)

Lemma update_member_fields t id m f :
  members t !! id = Some m →
  ∃ t', update_member t id f = Some t' ∧ phase t' = phase t ∧ declaration t' = declaration t
    ∧ members t' = <[id := f m]> (members t).
Proof. intros Hm. unfold update_member. rewrite Hm. by eexists. Qed.

Lemma fresh_members_spec l id :
  (is_Some (fresh_members l !! id) ↔ id ∈ member_id <$> l)
  ∧ ∀ m, fresh_members l !! id = Some m → m = member_default.
Proof.
  unfold fresh_members. induction l as [|x l [IH1 IH2]] using rev_ind; simpl.
  - rewrite lookup_empty. split; [|done]. split; [by intros [? ?]|by intros ?%elem_of_nil].
  - rewrite fold_left_app, fmap_app. simpl. rewrite elem_of_app, list_elem_of_singleton.
    destruct (base.decide (member_id x = id)) as [<-|Hne].
    + rewrite lookup_insert_eq. split; [split; [by right|by eexists]|by intros m [= <-]].
    + rewrite lookup_insert_ne by done. split; [|done]. rewrite IH1. naive_solver.
Qed.

Lemma declared_member_Some d id : is_Some (declared_member d id) ↔ id ∈ member_id <$> decl_members d.
Proof.
  rewrite list_elem_of_fmap. split.
  - intros [dm Hdm]. apply declared_member_id in Hdm as [<- ?]. eauto.
  - intros (dm & -> & Hin). unfold declared_member. destruct (List.find _ _) as [x|] eqn:Hf; [by eexists|].
    apply list_elem_of_In in Hin. pose proof (List.find_none _ _ Hf dm Hin) as Hno. simpl in Hno.
    by rewrite bool_decide_eq_true_2 in Hno.
Qed.

Lemma declare_batch s d :
  settlement_inv s → declaration s = None → declaration_valid d = true →
  good_batch s [E_DeclarationRecorded d].
Proof.
  intros [Hu _ _ _] Hnone Hv. destruct (Hu Hnone) as [_ Hm0]. eexists.
  assert (∀ id m, fresh_members (decl_members d) !! id = Some m → m = member_default) as Hdef
    by (intros id; apply fresh_members_spec).
  split; [done| |by eexists|by rewrite Hnone; intros [? ?]|].
  - split; simpl; [done| | |done].
    + intros d' [= <-]. split_and!; [done|done|]. intros id.
      rewrite declared_member_Some. apply fresh_members_spec.
    + intros d' id m dm _ Hm _. rewrite (Hdef id m Hm). by split.
  - intros id. simpl. unfold effect_state_of. simpl. rewrite Hm0, lookup_empty.
    destruct (fresh_members (decl_members d) !! id) as [m|] eqn:Hm; [|done].
    by rewrite (Hdef id m Hm).
Qed.

(** Commands that only move the coordinator. *)
Lemma phase_batch s p e :
  settlement_inv s → is_Some (declaration s) → p ≠ P_Undeclared → p ≠ P_Completed →
  (∀ t, ∃ t', evolve_event t e = Some t' ∧ phase t' = p ∧ declaration t' = declaration t
        ∧ members t' = members t) →
  (∀ id, effect_of id e = None) → ∃ s', good_step s [e] s'.
Proof.
  intros Hinv Hd Hp Hc He Heff.
  destruct (He (s <| history_events := saturating_succ u64_max (history_events s) |>))
    as (t & Ht & Htp & Htd & Htm).
  exists t. apply good_quiet_step; [|  |done|done|done|].
  - simpl. unfold evolve. by rewrite Ht.
  - apply (settlement_inv_eq (s <| phase := p |>)); [|done..]. by apply set_phase_inv.
  - intros id. unfold effects. simpl. by rewrite Heff.
Qed.

Ltac quiet_event := intros t; eexists; split_and!; reflexivity.

Lemma preflight_batch s e es :
  settlement_inv s → decide_preflight s e = Ok es → good_batch s es.
Proof.
  intros Hinv Hd. unfold decide_preflight in Hd. case_bool_decide as Hph; [|done]. simpl in Hd.
  destruct (member s (pre_member_id e)) as [[dm m]|] eqn:Hm; [|done]. simpl in Hd.
  apply member_lookup in Hm as (d & Hdec & Hdm & Hmem).
  case_bool_decide as Hpend; [|done]. destruct (preflight_evidence m) eqn:Hpe; [done|]. simpl in Hd.
  destruct (preflight_exact e dm) eqn:Hex; [|done]. simpl in Hd.
  pose proof (si_member s Hinv d _ m dm Hdec Hmem Hdm) as [_ Hmok]. rewrite Hpend in Hmok.
  destruct (admitted e) eqn:Hadm; simpl in Hd.
  - assert (member_ok dm (m <| m_phase := M_PreflightPassed |> <| preflight_evidence := Some e |>)) as Hok.
    { split; [intros _; by exists e|]. done. }
    assert (member_effect (m <| m_phase := M_PreflightPassed |> <| preflight_evidence := Some e |>)
            = member_effect m) as Heff by (unfold member_effect; simpl; by rewrite Hpend).
    destruct (forallb _ _); simplify_eq.
    + apply (good_batch_ext s [E_MemberPreflightPassed e; E_CoordinatorPhaseChanged P_Ready]); [done|done|].
      eapply (good_member_batch s d (pre_member_id e) m dm
        (λ m, m <| m_phase := M_PreflightPassed |> <| preflight_evidence := Some e |>)); try done.
      * by rewrite Hpend.
      * intros t Ht. by apply (update_member_fields t _ m); rewrite ?Ht.
      * exact (f_equal Some (eq_sym Heff)).
    + destruct (good_single_step s d (pre_member_id e) m dm
        (λ m, m <| m_phase := M_PreflightPassed |> <| preflight_evidence := Some e |>)
        (E_MemberPreflightPassed e)) as (s' & Hs' & _);
        [done|done|done|done|by rewrite Hpend|done|done|done|exact Heff|]. by exists s'.
  - destruct (refusal_reason e) as [why|]; simplify_eq.
    destruct (good_single_step s d (pre_member_id e) m dm (λ m, m <| preflight_evidence := Some e |>)
      (E_MemberPreflightRefused e)) as (s1 & Hs1 & _ & _ & Hd1);
      [done|done|done|done|by rewrite Hpend|split; simpl; by rewrite Hpend|done|done|done|].
    destruct (phase_batch s1 P_Refused (E_CoordinatorRefused why)) as [s2 Hs2];
      [apply Hs1|by rewrite Hd1|done|done|quiet_event|done|].
    exists s2. eapply (good_step_app s [E_MemberPreflightRefused e]); [by rewrite Hdec|done|done].
Qed.

(** The member a command names, with what is known of it. *)
Lemma member_facts s id dm m :
  settlement_inv s → member s id = Ok (dm, m) →
  ∃ d, declaration s = Some d ∧ declared_member d id = Some dm ∧ members s !! id = Some m ∧ member_ok dm m.
Proof.
  intros Hinv (d & Hd & Hdm & Hm)%member_lookup. exists d. split_and!; try done. by eapply si_member.
Qed.

Lemma start_ok dm m permit :
  member_ok dm m → passed (m_phase m) = true → permit_exact permit dm = true →
  member_ok dm (start_attempt permit m).
Proof. intros [Hp _] Hpass Hex. split; [intros _; by apply Hp|]. split; [by exists permit|done]. Qed.

(** [MemberStarted] and [MemberRetryStarted] fold alike. *)
Lemma start_batch s id permit dm m e :
  settlement_inv s → member s id = Ok (dm, m) → m_phase m ≠ M_Succeeded → passed (m_phase m) = true →
  permit_exact permit dm = true →
  (∀ t, evolve_event t e = evolve_event t (E_MemberStarted id permit)) →
  (∀ j, effect_of j e = effect_of j (E_MemberStarted id permit)) →
  effect_step (retry_safe_after_failure dm) (member_effect m) (Start permit) = Some (Running permit) →
  good_batch s [e; E_CoordinatorPhaseChanged P_Applying].
Proof.
  intros Hinv Hm Hns Hpass Hex He Heff Hstep.
  destruct (member_facts s id dm m Hinv Hm) as (d & Hd & Hdm & Hmem & Hok).
  eapply (good_member_batch s d id m dm (start_attempt permit)); try done.
  - by apply start_ok.
  - intros t Ht. rewrite He. simpl.
    destruct (update_member_fields t id m (start_attempt permit)) as (t' & -> & ? & ? & ?); [by rewrite Ht|].
    simpl. by eexists.
  - intros j Hj. rewrite Heff. simpl. by rewrite bool_decide_eq_false_2.
  - unfold effects. simpl. rewrite Heff. simpl. rewrite bool_decide_eq_true_2 by done. simpl.
    by rewrite Hstep.
Qed.

Lemma receipt_batch s r q es :
  settlement_inv s → record_receipt s r q = Ok es → good_batch s es.
Proof.
  intros Hinv Hd. unfold record_receipt in Hd.
  destruct (member s (rec_member_id r)) as [[dm m]|] eqn:Hm; [|done]. simpl in Hd.
  destruct (member_facts s _ dm m Hinv Hm) as (d & Hdec & Hdm & Hmem & [Hpre Hok]).
  destruct (bool_decide (m_phase m = if q then M_Unknown else M_Started)) eqn:Hph; [|done].
  apply bool_decide_eq_true in Hph. simpl in Hd. destruct (bool_decide (is_Some (receipt m))); [done|].
  destruct (q && _); [done|]. destruct (receipt_exact r dm) eqn:Hex; [|done]. simpl in Hd. simplify_eq.
  assert (m_phase m = M_Started ∨ m_phase m = M_Unknown) as Hopen by (destruct q; tauto).
  assert (has_permit dm m) as (p & Hp & Hpex) by (destruct Hopen as [Ho|Ho]; rewrite Ho in Hok; apply Hok).
  eapply (good_member_batch s d (rec_member_id r) m dm (take_receipt r)); try done.
  - by destruct Hopen as [-> | ->].
  - split.
    + intros _. apply Hpre. by destruct Hopen as [-> | ->].
    + unfold take_receipt. simpl. destruct (outcome r) eqn:Ho; simpl; split; try (by exists p);
        by exists r.
  - intros t Ht. by apply (update_member_fields t _ m); rewrite ?Ht.
  - apply projected_phase_declared.
  - intros j Hj. simpl. by rewrite bool_decide_eq_false_2.
  - unfold effects. simpl. rewrite bool_decide_eq_true_2 by done. simpl.
    unfold member_effect. simpl. rewrite Hp.
    destruct Hopen as [-> | ->]; by destruct (outcome r).
Qed.

Lemma unstarted_facts dm m :
  member_ok dm m → unstarted (m_phase m) = true ∨ m_phase m = M_CancelledBeforeStart →
  lane_permit m = None ∧ receipt m = None ∧ m_phase m ≠ M_Succeeded ∧ member_effect m = Idle.
Proof.
  intros [_ Hok] Hu. unfold member_effect. destruct (m_phase m); destruct Hu as [Hu|Hu]; try done;
    destruct Hok as [-> ->]; done.
Qed.

(** The batch of [CancelUnstarted] before its last event. *)
Lemma cancel_steps ids s d reason :
  settlement_inv s → declaration s = Some d →
  (∀ id, id ∈ ids → ∃ m, members s !! id = Some m
      ∧ (unstarted (m_phase m) = true ∨ m_phase m = M_CancelledBeforeStart)) →
  ∃ s', good_step s (map (λ id, E_MemberCancelledBeforeStart id reason) ids) s'
    ∧ members s' = fold_left (λ ms id, alter (set_phase M_CancelledBeforeStart) id ms) ids (members s).
Proof.
  revert s. induction ids as [|id ids IH]; intros s Hinv Hd Hids; simpl.
  { exists s. split; [|done]. apply good_quiet_step; (done || by rewrite Hd). }
  destruct (Hids id) as (m & Hm & Hu); [by left|].
  destruct (proj2 (proj2 (si_declared s Hinv d Hd)) id) as [Hsome _].
  destruct (Hsome ltac:(by eexists)) as [dm Hdm].
  pose proof (si_member s Hinv d id m dm Hd Hm Hdm) as Hok.
  destruct (unstarted_facts dm m Hok Hu) as (Hlp & Hr & Hns & Heff).
  destruct (good_single_step s d id m dm (set_phase M_CancelledBeforeStart)
    (E_MemberCancelledBeforeStart id reason)) as (s1 & Hs1 & Hm1 & _ & Hd1);
    [done|done|done|done|done|by split|done|done|by rewrite Heff|].
  destruct (IH s1) as (s2 & Hs2 & Hm2); [apply Hs1|done| |].
  { intros j Hj. rewrite Hm1. destruct (base.decide (j = id)) as [->|Hne].
    - rewrite lookup_insert_eq. eexists. split; [done|by right].
    - rewrite lookup_insert_ne by done. apply Hids. by right. }
  exists s2. split.
  - eapply (good_step_app s [_]); [by rewrite Hd|done|done].
  - rewrite Hm2, Hm1. f_equal. apply map_eq. intros j.
    destruct (base.decide (j = id)) as [->|Hne].
    + by rewrite lookup_insert_eq, lookup_alter_eq, Hm.
    + by rewrite lookup_insert_ne, lookup_alter_ne.
Qed.

(** The coordinator's projected phase after member events. *)
Lemma projected_step s :
  settlement_inv s → is_Some (declaration s) →
  ∃ s', good_step s [E_CoordinatorPhaseChanged (projected_phase (members s))] s'.
Proof.
  intros Hinv Hd. eexists. apply good_quiet_step; [done| |done|done|done|done].
  apply (settlement_inv_eq (s <| phase := projected_phase (members s) |>)); [|done..].
  apply set_phase_inv; [done|done|apply projected_phase_declared|].
  intros Hc. by apply projected_phase_completed.
Qed.

Lemma cancel_batch s reason es :
  settlement_inv s → cancel_unstarted s reason = Ok es → good_batch s es.
Proof.
  intros Hinv Hd. unfold cancel_unstarted in Hd. destruct (terminal (phase s)) eqn:Hterm; [done|].
  destruct (bool_decide (started_effects s = 0%N)); [done|]. destruct (valid_identity reason); [|done].
  simpl in Hd. set (ids := (filter _ (btree_iter (members s))).*1) in *.
  assert (∀ id, id ∈ ids → ∃ m, members s !! id = Some m ∧ unstarted (m_phase m) = true) as Hids.
  { intros id ([j m] & -> & Hin)%list_elem_of_fmap.
    apply list_elem_of_filter in Hin as [Hu Hin%elem_of_btree_iter]. eauto. }
  destruct (declaration s) as [d|] eqn:Hdec.
  - destruct (cancel_steps ids s d reason Hinv Hdec) as (s1 & Hs1 & Hm1); [naive_solver|].
    destruct (projected_step s1) as [s2 Hs2]; [apply Hs1|apply Hs1|].
    rewrite Hm1 in Hs2. destruct ids; [done|]. injection Hd as <-.
    exists s2. exact (good_step_app s _ s1 _ s2 ltac:(by rewrite Hdec) Hs1 Hs2).
  - exfalso. destruct (si_undeclared s Hinv Hdec) as [_ Hempty].
    destruct ids as [|id ids']; [done|]. destruct (Hids id) as (m & Hm & _); [by left|].
    by rewrite Hempty, lookup_empty in Hm.
Qed.

(** A batch of the form member event, new phase, for a member that stays idle. *)
Lemma supersede_batch s id later es :
  settlement_inv s → decide s (C_SupersedeNotStarted id later) = Ok es → good_batch s es.
Proof.
  intros Hinv Hd. simpl in Hd. destruct (member s id) as [[dm m]|] eqn:Hm; [|done]. simpl in Hd.
  destruct (member_facts s id dm m Hinv Hm) as (d & Hdec & Hdm & Hmem & Hok).
  destruct (unstarted (m_phase m)) eqn:Hu; [|done]. destruct (valid_identity later); [|done].
  simpl in Hd. simplify_eq. destruct (unstarted_facts dm m Hok (or_introl Hu)) as (Hlp & Hr & Hns & Heff).
  eapply (good_member_batch s d id m dm
    (λ m, m <| m_phase := M_SupersededBeforeStart |> <| superseded_by := Some later |>)); try done.
  - intros t Ht. by apply (update_member_fields t _ m); rewrite ?Ht.
  - apply projected_phase_declared.
  - unfold effects. simpl. by rewrite Heff.
Qed.

Lemma unknown_batch s id ev es :
  settlement_inv s → decide s (C_RecordUnknown id ev) = Ok es → good_batch s es.
Proof.
  intros Hinv Hd. simpl in Hd. destruct (member s id) as [[dm m]|] eqn:Hm; [|done]. simpl in Hd.
  destruct (member_facts s id dm m Hinv Hm) as (d & Hdec & Hdm & Hmem & [Hpre Hok]).
  case_bool_decide as Hph; [|done]. destruct (valid_identity ev); [|done]. simpl in Hd. simplify_eq.
  rewrite Hph in Hok, Hpre.
  eapply (good_member_batch s d id m dm
    (λ m, m <| m_phase := M_Unknown |> <| unknown_evidence_ref := Some ev |>)); try done.
  - by rewrite Hph.
  - intros t Ht. by apply (update_member_fields t _ m); rewrite ?Ht.
  - unfold effects, member_effect. simpl. by rewrite Hph.
Qed.

Lemma query_batch s id q es :
  settlement_inv s → decide s (C_RequestAuthoritativeQuery id q) = Ok es → good_batch s es.
Proof.
  intros Hinv Hd. simpl in Hd. destruct (member s id) as [[dm m]|] eqn:Hm; [|done]. simpl in Hd.
  destruct (member_facts s id dm m Hinv Hm) as (d & Hdec & Hdm & Hmem & Hok).
  destruct (bool_decide (m_phase m = M_Unknown)) eqn:Hph; [|done].
  apply bool_decide_eq_true in Hph. destruct (_ || _ || _) in Hd; [done|]. simplify_eq.
  destruct (good_single_step s d id m dm (λ m, m <| query_refs := query_refs m ++ [q] |>)
    (E_AuthoritativeQueryRequested id q)) as (s' & Hs' & _);
    [done|done|done|done|by rewrite Hph|done|done|done|done|]. by exists s'.
Qed.

Lemma settlement_step s c es :
  settlement_inv s → decide s c = Ok es → good_batch s es.
Proof.
  intros Hinv Hd. assert (∀ p, phase s = p → p ≠ P_Undeclared → is_Some (declaration s)) as Hdecl.
  { intros p Hp Hne. destruct (declaration s) eqn:Hn; [by eexists|].
    destruct (si_undeclared s Hinv Hn). congruence. }
  destruct c; simpl in Hd.
  - case_bool_decide as Hu; [|done]. destruct (declaration s) eqn:Hn; [done|]. simpl in Hd.
    destruct (declaration_valid declaration0) eqn:Hv; [|done]. simplify_eq/=. by apply declare_batch.
  - case_bool_decide as Hp; [|done]. simplify_eq/=.
    apply (phase_batch s P_Preflighting); [done|by eapply Hdecl|done|done|quiet_event|done].
  - by eapply preflight_batch.
  - destruct (before_effects (phase s)) eqn:Hb; [|done]. destruct (_ || _) in Hd; [done|]. simplify_eq/=.
    apply (phase_batch s P_Cancelled); [done|eapply Hdecl; [done|by intros H; rewrite H in Hb]|done|done|quiet_event|done].
  - destruct (before_effects (phase s)) eqn:Hb; [|done]. destruct (_ || _) in Hd; [done|]. simplify_eq/=.
    apply (phase_batch s P_Expired); [done|eapply Hdecl; [done|by intros H; rewrite H in Hb]|done|done|quiet_event|done].
  - unfold start_member in Hd. destruct (negb _) in Hd; [done|].
    destruct (member s member_id0) as [[dm m]|] eqn:Hm; [|done]. simpl in Hd.
    case_bool_decide as Hph; [|done]. destruct (bool_decide (is_Some (receipt m))); [done|]. simpl in Hd.
    destruct (permit_exact lane_permit0 dm) eqn:Hex; [|done]. simpl in Hd. simplify_eq.
    eapply start_batch; try done; [by rewrite Hph|by rewrite Hph|].
    unfold member_effect. by rewrite Hph.
  - by eapply receipt_batch.
  - by eapply unknown_batch.
  - by eapply query_batch.
  - by eapply receipt_batch.
  - unfold retry_known_failure in Hd.
    destruct (member s member_id0) as [[dm m]|] eqn:Hm; [|done]. simpl in Hd.
    destruct (member_facts s _ dm m Hinv Hm) as (d & _ & _ & _ & [_ Hok]).
    case_bool_decide as Hph; [|done]. destruct (retry_safe_after_failure dm) eqn:Hrs; [|done]. simpl in Hd.
    rewrite Hph in Hok. destruct Hok as [(old & Hold & _) _]. rewrite Hold in Hd.
    destruct (permit_exact lane_permit0 dm) eqn:Hex; [|done]. simpl in Hd.
    case_bool_decide as Hseq; [done|]. simplify_eq/=.
    eapply start_batch; try done; [by rewrite Hph|by rewrite Hph|].
    unfold member_effect. rewrite Hph, Hold, Hrs. simpl. rewrite bool_decide_eq_true_2 by lia. done.
  - by eapply cancel_batch.
  - by eapply supersede_batch.
  - unfold mark_compensated in Hd. destruct (bool_decide (phase s = P_PartiallyApplied)) eqn:Hp; [|done].
    apply bool_decide_eq_true in Hp. destruct (_ || _) in Hd; [done|]. simplify_eq/=.
    apply (phase_batch s P_Compensated); [done|by eapply Hdecl|done|done|quiet_event|done].
  - destruct (match phase s with P_Applying | P_PartiallyApplied | P_ReconciliationRequired => true | _ => false end)
      eqn:Hb; [|done]. destruct (_ || _) in Hd; [done|]. simplify_eq/=.
    apply (phase_batch s P_AbandonedPartial); [done|eapply Hdecl; [done|by intros H; rewrite H in Hb]|done|done|quiet_event|done].
Qed.

Section safe.
Context (encode : TargetSettlementState → option string)
        (decode : string → option TargetSettlementState).
Notation L := (settlement_lifecycle encode decode).

#[export] Instance settlement_safe : LifecycleSafe L.
Proof.
  refine {| lc_inv := (settlement_inv : lc_state L → Prop) |}.
  - by split.
  - intros s c es Hinv Hd. destruct (settlement_step s c es Hinv Hd) as [s' [Hf Hi _ _ _]]. eauto.
Defined.

(** Nothing is logged before the declaration. *)
Lemma undeclared_log log s : trace L log s → declaration s = None → log = [].
Proof.
  destruct 1 as [|log s c es s' Ht Ha]; [done|]. intros Hn. exfalso.
  apply apply_admitted in Ha as [Hd Hev]. pose proof (trace_inv L log s Ht) as Hinv.
  destruct (settlement_step s c es Hinv Hd) as [s2 [Hf _ [d Hd2] _ _]].
  assert (s2 = s') as -> by (unfold evolve_all in Hev; simpl in Hev; congruence). congruence.
Qed.

Lemma trace_effects log s id :
  trace L log s →
  foldM (effect_step (retry_safe s id)) Idle (effects id log) = Some (effect_state_of s id).
Proof.
  induction 1 as [|log s c es s' Ht IH Ha]; [done|].
  apply apply_admitted in Ha as [Hd Hev]. pose proof (trace_inv L log s Ht) as Hinv.
  destruct (settlement_step s c es Hinv Hd) as [s2 [Hf _ _ Hkeep Heff]].
  assert (s2 = s') as -> by (unfold evolve_all in Hev; simpl in Hev; congruence).
  unfold effects in *. rewrite omap_app, foldM_app. destruct (declaration s) as [d|] eqn:Hdec.
  - assert (retry_safe s' id = retry_safe s id) as Hr
      by (unfold retry_safe; rewrite Hkeep by (by eexists); by rewrite Hdec).
    rewrite Hr, IH. simpl. rewrite <- Hr. apply Heff.
  - rewrite (undeclared_log log s Ht Hdec). simpl. rewrite <- (Heff id). f_equal.
    destruct (si_undeclared s Hinv Hdec) as [_ Hm]. unfold effect_state_of.
    by rewrite Hm, lookup_empty.
Qed.
End safe.

(** A completed settlement admits nothing more. *)
Lemma completed_refuses s c :
  settlement_inv s → phase s = P_Completed → ∃ r, decide s c = Err r.
Proof.
  intros Hinv Hp. destruct (decide s c) as [es|r] eqn:Hd; [exfalso|by exists r].
  pose proof (si_completed s Hinv Hp) as Hall.
  assert (∀ id dm m, member s id = Ok (dm, m) → m_phase m = M_Succeeded) as Hm.
  { intros id dm m (d & _ & _ & Hm)%member_lookup. by eapply Hall. }
  destruct c; simpl in Hd; unfold decide_preflight, start_member, record_receipt, retry_known_failure,
    cancel_unstarted, mark_compensated in Hd; rewrite ?Hp in Hd; try discriminate Hd; simpl in Hd;
    destruct (member s _) as [[dm m]|] eqn:He; try discriminate Hd; simpl in Hd;
    rewrite (Hm _ _ _ He) in Hd; try discriminate Hd; by destruct from_query.
Qed.

Section properties.
Context (encode : TargetSettlementState → option string)
        (decode : string → option TargetSettlementState).
Notation L := (settlement_lifecycle encode decode).

(** Settlements are receipt-driven. After any commands, folding has not panicked;
    a member that passed its preflight has exact admitted evidence, a started one
    an exact lane permit; a member counts as succeeded only on an authenticated
    receipt that matches its declaration and its expected digest. A settlement is
    completed only when that holds of every declared member, and then it stays as
    it is. *)
Theorem settlement_session_safe (cs later : list TargetSettlementCommand) :
  ∃ log s, session L cs = Some (log, s) ∧ replay L log = Some s ∧ settlement_inv s
    ∧ (phase s = P_Completed →
         drive L log s later = Some (log, s)
         ∧ ∃ d, declaration s = Some d ∧ ∀ dm, dm ∈ decl_members d → ∃ dm' m r,
             declared_member d (member_id dm) = Some dm' ∧ members s !! member_id dm = Some m
             ∧ receipt m = Some r ∧ outcome r = O_Succeeded ∧ receipt_exact r dm' = true).
Proof.
  destruct (session_total L cs) as (log & s & Hs & Ht & Hinv & Hr).
  exists log, s. split_and!; [done|done|done|]. intros Hp. split.
  - apply drive_stuck. intros c. by apply completed_refuses.
  - destruct (declaration s) as [d|] eqn:Hd; [|destruct (si_undeclared s Hinv Hd); congruence].
    exists d. split; [done|]. intros dm Hdm.
    assert (is_Some (declared_member d (member_id dm))) as [dm' Hdm'].
    { apply declared_member_Some. by apply list_elem_of_fmap_2. }
    destruct (proj2 (proj2 (si_declared s Hinv d Hd)) (member_id dm)) as [_ Hsome].
    destruct (Hsome ltac:(by eexists)) as [m Hm].
    pose proof (si_member s Hinv d _ m dm' Hd Hm Hdm') as [_ Hok].
    rewrite (si_completed s Hinv Hp _ m Hm) in Hok. destruct Hok as [_ (r & ? & ? & ?)].
    by exists dm', m, r.
Qed.

(** C23: effects happen at most once. Whatever commands arrive, what the log records of a
    member's effect is a run of the abstract course: started once, not started
    again while its outcome is open or unknown, restarted only after an
    authenticated failure that the declaration marks as retry-safe and under a
    newer lane permit, and never after success; and the member's folded state is
    where that run ended. *)
Theorem settlement_effects_refine (cs : list TargetSettlementCommand) (id : string) :
  ∃ log s, session L cs = Some (log, s)
    ∧ foldM (effect_step (retry_safe s id)) Idle (effects id log) = Some (effect_state_of s id).
Proof.
  destruct (session_total L cs) as (log & s & Hs & Ht & _ & _).
  exists log, s. split; [done|]. by eapply trace_effects.
Qed.
End properties.

(** ** A concrete settlement *)

Module TwoTargets.
Definition target (id : string) : SettlementMemberDeclaration :=
  mkMember id ("t" +:+ id) ("op" +:+ id) "basis" "candidate" "digest" "policy" "adapter" Apply true true.
Definition decl : TargetSettlementDeclaration :=
  mkDeclaration "d" "p" "c" "change" None [target "a"; target "b"].
Definition preflight (id : string) (ok : bool) : MemberPreflightEvidence :=
  mkPreflight id "basis" "candidate" "contract" "policy" ok (if ok then None else Some "stale"%string).
Definition permit (id : string) (n : N) : TargetLanePermit :=
  mkPermit "lane" ("t" +:+ id) id ("op" +:+ id) n "pos".
Definition success (id : string) : AuthenticatedTargetReceipt :=
  mkReceipt ("r" +:+ id) id ("t" +:+ id) ("op" +:+ id) "basis" (Some "basis2"%string) (Some "digest"%string)
    O_Succeeded "auth" "sig" None.

Definition run (cs : list TargetSettlementCommand) :=
  '(_, s) ← session (settlement_lifecycle (λ _, None) (λ _, None)) cs;
  Some (phase s, m_phase <$> members s !! "a"%string, started_effects s).

Example completes :
  run [C_Declare decl; C_BeginPreflight; C_RecordPreflight (preflight "a" true);
       C_RecordPreflight (preflight "b" true); C_StartMember "a" (permit "a" 1);
       C_StartMember "a" (permit "a" 2); C_StartMember "b" (permit "b" 1);
       C_RecordUnknown "a" "timeout"; C_RecordReceipt (success "a");
       C_RequestAuthoritativeQuery "a" "q"; C_RecordQueryReceipt (success "a");
       C_RecordReceipt (success "b")]
  = Some (P_Completed, Some M_Succeeded, 2%N).
Proof. vm_compute. reflexivity. Qed.

Definition refused : list TargetSettlementCommand :=
  [C_Declare decl; C_BeginPreflight; C_RecordPreflight (preflight "a" true);
   C_RecordPreflight (preflight "b" false)].

(** A refused settlement is in a terminal phase, and yet superseding the refused
    member takes the coordinator back to [Applying], where the other member's
    effect starts: [SupersedeNotStarted] does not look at the coordinator's phase.
    The same holds after a cancellation. *)
Lemma refused_settlement_starts :
  run refused = Some (P_Refused, Some M_PreflightPassed, 0%N)
  ∧ run (refused ++ [C_SupersedeNotStarted "b" "later"; C_StartMember "a" (permit "a" 1)])
    = Some (P_Applying, Some M_Started, 1%N).
Proof. split; vm_compute; reflexivity. Qed.

(** An abandoned settlement leaves its terminal phase when a late receipt is
    recorded. *)
Lemma abandoned_settlement_completes :
  run [C_Declare (mkDeclaration "d" "p" "c" "change" None [target "a"]); C_BeginPreflight;
       C_RecordPreflight (preflight "a" true); C_StartMember "a" (permit "a" 1);
       C_AbandonPartial "gone"] = Some (P_AbandonedPartial, Some M_Started, 1%N)
  ∧ run [C_Declare (mkDeclaration "d" "p" "c" "change" None [target "a"]); C_BeginPreflight;
       C_RecordPreflight (preflight "a" true); C_StartMember "a" (permit "a" 1);
       C_AbandonPartial "gone"; C_RecordReceipt (success "a")]
    = Some (P_Completed, Some M_Succeeded, 1%N).
Proof. split; vm_compute; reflexivity. Qed.
End TwoTargets.
