(* ===== verification/SettlementLane.v ===== *)
(** * Target settlement: the ordered lane of one target

    [crates/core/src/target_settlement.rs] from [TargetLaneMember] on: the queue
    that grants one member at a time the permit to act on a target, and blocks the
    members behind it until the outcome is known. *)

From stdpp Require Import pretty.
From S2P Require Import Prelude Ids Lifecycle Settlement.

Record TargetLaneMember := mkLaneMember {
  settlement_scope : string;
  lm_declaration_id : string;
  lm_member_id : string;
  lm_target_id : string;
  lm_operation_id : string;
  lm_expected_basis : string;
  lm_expected_result_digest : string;
  attempt : N; (* u32 *)
}.

#[export] Instance TargetLaneMember_eq_dec : EqDecision TargetLaneMember.
Proof. solve_decision. Defined.
#[export] Instance TargetLanePermit_eq_dec : EqDecision TargetLanePermit.
Proof. solve_decision. Defined.

Definition member_ref (m : TargetLaneMember) : string :=
  settlement_scope m +:+ "#" +:+ lm_member_id m +:+ "#attempt:" +:+ pretty (attempt m).

Definition lane_member_valid (m : TargetLaneMember) : bool :=
  forallb valid_identity
    [settlement_scope m; lm_declaration_id m; lm_member_id m; lm_target_id m; lm_operation_id m;
     lm_expected_basis m; lm_expected_result_digest m]
  && bool_decide (0 < attempt m)%N.

Inductive TargetLaneEntryPhase := L_Queued | L_Granted | L_OutcomeUnknown.

#[export] Instance TargetLaneEntryPhase_eq_dec : EqDecision TargetLaneEntryPhase.
Proof. solve_decision. Defined.

Record TargetLaneEntry := mkEntry {
  entry_member : TargetLaneMember;
  entry_phase : TargetLaneEntryPhase;
  entry_permit : option TargetLanePermit;
}.

#[export] Instance TargetLaneEntry_eta : Eta TargetLaneEntry := mkEta (λ e,
  mkEntry (entry_member e) (entry_phase e) (entry_permit e)).
#[export] Instance TargetLaneEntry_eq_dec : EqDecision TargetLaneEntry.
Proof. solve_decision. Defined.

Record TargetLaneResolution := mkResolution {
  res_member_ref : string;
  res_operation_id : string;
  outcome_ref : string;
  superseded : bool;
}.

Record TargetSettlementLaneState := mkLane {
  lane_target_id : option string;
  queue : list TargetLaneEntry;
  resolved : list TargetLaneResolution;
  last_sequence : N; (* u64 *)
  lane_history_events : N; (* u64 *)
}.

#[export] Instance TargetSettlementLaneState_eta : Eta TargetSettlementLaneState := mkEta (λ s,
  mkLane (lane_target_id s) (queue s) (resolved s) (last_sequence s) (lane_history_events s)).

Definition lane_default : TargetSettlementLaneState := mkLane None [] [] 0 0.

Inductive TargetSettlementLaneCommand :=
| LC_Enqueue (member : TargetLaneMember)
| LC_Grant (member_ref : string)
| LC_RecordKnownOutcome (member_ref receipt_ref : string)
| LC_RecordUnknownOutcome (member_ref evidence_ref : string)
| LC_ReconcileUnknown (member_ref receipt_ref : string)
| LC_CancelQueued (member_ref cancellation_ref : string)
| LC_SupersedeQueued (earlier_member_ref later_member_ref preflight_ref : string).

Inductive TargetSettlementLaneEvent :=
| LE_MemberEnqueued (member : TargetLaneMember)
| LE_MemberGranted (member_ref : string) (permit : TargetLanePermit)
| LE_KnownOutcomeRecorded (member_ref operation_id receipt_ref : string)
| LE_UnknownOutcomeRecorded (member_ref evidence_ref : string)
| LE_UnknownOutcomeReconciled (member_ref operation_id receipt_ref : string)
| LE_QueuedMemberCancelled (member_ref operation_id cancellation_ref : string)
| LE_QueuedMemberSuperseded (earlier_member_ref operation_id later_member_ref preflight_ref : string).

(** ** The decision *)

Definition entry_ref (e : TargetLaneEntry) : string := member_ref (entry_member e).

Definition names (ref : string) (e : TargetLaneEntry) : bool := bool_decide (entry_ref e = ref).

Definition lane_entry (state : TargetSettlementLaneState) (ref : string)
    : result Rejection TargetLaneEntry :=
  ok_or (List.find (names ref) (queue state)) (mkRejection "target lane member is not queued").

Definition lane_permit_for (m : TargetLaneMember) (n : N) : TargetLanePermit :=
  mkPermit ("target-lane:" +:+ lm_target_id m) (lm_target_id m) (lm_member_id m) (lm_operation_id m) n
    ("target-lane:" +:+ lm_target_id m +:+ ":" +:+ pretty n).

(** The guard the outcome commands share: the entry is first, in the given phase,
    and the reference is usable. *)
Definition first_in_phase (state : TargetSettlementLaneState) (e : TargetLaneEntry)
    (p : TargetLaneEntryPhase) (ref : string) : bool :=
  bool_decide (head (queue state) = Some e) && bool_decide (entry_phase e = p) && valid_identity ref.

Definition decide_target_lane (state : TargetSettlementLaneState) (command : TargetSettlementLaneCommand)
    : result Rejection (list TargetSettlementLaneEvent) :=
  match command with
  | LC_Enqueue m =>
      if negb (lane_member_valid m)
         || match lane_target_id state with
            | Some target => negb (bool_decide (target = lm_target_id m))
            | None => false
            end
         || existsb (names (member_ref m)) (queue state)
         || existsb (λ r, bool_decide (res_member_ref r = member_ref m)) (resolved state)
      then reject "enqueue: exact unique member for this target is required"
      else Ok [LE_MemberEnqueued m]
  | LC_Grant ref =>
      match queue state with
      | [] => reject "grant: target lane is empty"
      | first :: _ =>
          if negb (names ref first) || negb (bool_decide (entry_phase first = L_Queued))
          then reject "grant: an earlier or unresolved target member blocks"
          else
            let? sequence := ok_or (u64_checked_add (last_sequence state) 1)
                               (mkRejection "grant: target lane sequence overflowed") in
            Ok [LE_MemberGranted ref (lane_permit_for (entry_member first) sequence)]
      end
  | LC_RecordKnownOutcome ref receipt_ref =>
      let? entry := lane_entry state ref in
      if negb (first_in_phase state entry L_Granted receipt_ref)
      then reject "recordKnownOutcome: active granted member receipt required"
      else Ok [LE_KnownOutcomeRecorded ref (lm_operation_id (entry_member entry)) receipt_ref]
  | LC_RecordUnknownOutcome ref evidence_ref =>
      let? entry := lane_entry state ref in
      if negb (first_in_phase state entry L_Granted evidence_ref)
      then reject "recordUnknownOutcome: active granted member required"
      else Ok [LE_UnknownOutcomeRecorded ref evidence_ref]
  | LC_ReconcileUnknown ref receipt_ref =>
      let? entry := lane_entry state ref in
      if negb (first_in_phase state entry L_OutcomeUnknown receipt_ref)
      then reject "reconcileUnknown: authoritative receipt is required"
      else Ok [LE_UnknownOutcomeReconciled ref (lm_operation_id (entry_member entry)) receipt_ref]
  | LC_CancelQueued ref cancellation_ref =>
      let? entry := lane_entry state ref in
      if negb (bool_decide (entry_phase entry = L_Queued)) || negb (valid_identity cancellation_ref)
      then reject "cancelQueued: cancellation may remove only an unstarted member"
      else Ok [LE_QueuedMemberCancelled ref (lm_operation_id (entry_member entry)) cancellation_ref]
  | LC_SupersedeQueued earlier_ref later_ref preflight_ref =>
      let? earlier := lane_entry state earlier_ref in
      let? later := lane_entry state later_ref in
      if negb (bool_decide (entry_phase earlier = L_Queued)) || bool_decide (earlier_ref = later_ref)
         || negb (valid_identity preflight_ref)
         || negb (bool_decide (lm_target_id (entry_member earlier) = lm_target_id (entry_member later)))
      then reject "supersedeQueued: later exact preflight may replace only an unstarted member"
      else Ok [LE_QueuedMemberSuperseded earlier_ref (lm_operation_id (entry_member earlier)) later_ref
                 preflight_ref]
  end.

(** ** The fold *)

(** [iter_mut().find(..).expect("queued member")] and then a write. *)
Fixpoint update_first (ref : string) (f : TargetLaneEntry → TargetLaneEntry) (q : list TargetLaneEntry)
    : option (list TargetLaneEntry) :=
  match q with
  | [] => None
  | e :: q => if names ref e then Some (f e :: q) else (λ q, e :: q) <$> update_first ref f q
  end.

(** [position(..).expect("queued member")] and then [remove]. *)
Fixpoint remove_first (ref : string) (q : list TargetLaneEntry) : option (list TargetLaneEntry) :=
  match q with
  | [] => None
  | e :: q => if names ref e then Some q else (λ q, e :: q) <$> remove_first ref q
  end.

(** [queue.remove(0)] panics on an empty queue. *)
Definition remove_head (q : list TargetLaneEntry) : option (list TargetLaneEntry) :=
  match q with [] => None | _ :: q => Some q end.

Definition resolve (next : TargetSettlementLaneState) (q : list TargetLaneEntry) (r : TargetLaneResolution)
    : TargetSettlementLaneState := next <| queue := q |> <| resolved := resolved next ++ [r] |>.

Definition evolve_lane_event (next : TargetSettlementLaneState) (event : TargetSettlementLaneEvent)
    : option TargetSettlementLaneState :=
  match event with
  | LE_MemberEnqueued m =>
      Some (next <| lane_target_id := Some (default (lm_target_id m) (lane_target_id next)) |>
                 <| queue := queue next ++ [mkEntry m L_Queued None] |>)
  | LE_MemberGranted ref permit =>
      q ← update_first ref (λ e, e <| entry_phase := L_Granted |> <| entry_permit := Some permit |>)
            (queue next);
      Some (next <| queue := q |> <| last_sequence := sequence permit |>)
  | LE_KnownOutcomeRecorded ref op receipt_ref | LE_UnknownOutcomeReconciled ref op receipt_ref =>
      q ← remove_head (queue next);
      Some (resolve next q (mkResolution ref op receipt_ref false))
  | LE_UnknownOutcomeRecorded ref _ =>
      q ← update_first ref (λ e, e <| entry_phase := L_OutcomeUnknown |>) (queue next);
      Some (next <| queue := q |>)
  | LE_QueuedMemberCancelled ref op cancellation_ref =>
      q ← remove_first ref (queue next);
      Some (resolve next q (mkResolution ref op cancellation_ref true))
  | LE_QueuedMemberSuperseded ref op later_ref preflight_ref =>
      q ← remove_first ref (queue next);
      Some (resolve next q (mkResolution ref op
              ("superseded-by:" +:+ later_ref +:+ ":" +:+ preflight_ref) true))
  end.

Definition evolve_target_lane (state : TargetSettlementLaneState) (event : TargetSettlementLaneEvent)
    : option TargetSettlementLaneState :=
  evolve_lane_event
    (state <| lane_history_events := saturating_succ u64_max (lane_history_events state) |>) event.

Definition lane_lifecycle (encode : TargetSettlementLaneState → option string)
    (decode : string → option TargetSettlementLaneState) : Lifecycle := {|
  lc_state := TargetSettlementLaneState;
  lc_command := TargetSettlementLaneCommand;
  lc_event := TargetSettlementLaneEvent;
  lc_default := lane_default;
  KIND := "target_settlement_lane";
  lc_decide := decide_target_lane;
  lc_evolve := evolve_target_lane;
  lc_snapshot_codec := Some (serde_codec encode decode "target_settlement_lane" 1);
|}.

(** ** Finding an entry *)

Lemma find_split ref q e :
  List.find (names ref) q = Some e →
  ∃ a b, q = a ++ e :: b ∧ entry_ref e = ref
    ∧ (∀ f, update_first ref f q = Some (a ++ f e :: b)) ∧ remove_first ref q = Some (a ++ b).
Proof.
  induction q as [|x q IH]; simpl; [done|]. destruct (names ref x) eqn:Hx.
  - intros [= <-]. exists [], q. split_and!; try done. by apply bool_decide_eq_true in Hx.
  - intros (a & b & -> & Href & Hu & Hr)%IH. exists (x :: a), b. split_and!; [done|done| |].
    + intros f. by rewrite Hu.
    + by rewrite Hr.
Qed.

Lemma lane_entry_split s ref e :
  lane_entry s ref = Ok e →
  ∃ a b, queue s = a ++ e :: b ∧ entry_ref e = ref
    ∧ (∀ f, update_first ref f (queue s) = Some (a ++ f e :: b))
    ∧ remove_first ref (queue s) = Some (a ++ b).
Proof.
  unfold lane_entry, ok_or. destruct (List.find _ _) eqn:Hf; [|done]. intros [= <-]. by apply find_split.
Qed.

(** ** Invariant *)

Abbreviation refs q := (entry_ref <$> q).

Record lane_inv (s : TargetSettlementLaneState) : Prop := {
  li_refs : NoDup (refs (queue s));
  li_open : ∀ r, r ∈ refs (queue s) → r ∉ res_member_ref <$> resolved s;
  (** Only the first entry may hold a permit. *)
  li_tail : ∀ e, e ∈ tail (queue s) → entry_phase e = L_Queued;
  li_target : ∀ e, e ∈ queue s → lane_target_id s = Some (lm_target_id (entry_member e));
  li_permit : ∀ e, e ∈ queue s → entry_phase e ≠ L_Queued →
    entry_permit e = Some (lane_permit_for (entry_member e) (last_sequence s));
}.

(** ** The abstract lane

    A target is free or held by one member; each grant takes the next number. *)

Inductive lane_state := Free (last : N) | Held (number : N) (ref : string).

Inductive lane_effect := Granted (ref : string) (number : N) | Settled (ref : string).

Definition lane_step (st : lane_state) (e : lane_effect) : option lane_state :=
  match st, e with
  | Free last, Granted ref n => if bool_decide (n = last + 1)%N then Some (Held n ref) else None
  | Held n ref, Settled ref' => if bool_decide (ref = ref') then Some (Free n) else None
  | _, _ => None
  end.

Definition lane_effect_of (e : TargetSettlementLaneEvent) : option lane_effect :=
  match e with
  | LE_MemberGranted ref permit => Some (Granted ref (sequence permit))
  | LE_KnownOutcomeRecorded ref _ _ | LE_UnknownOutcomeReconciled ref _ _ => Some (Settled ref)
  | _ => None
  end.

Definition lane_abs (s : TargetSettlementLaneState) : lane_state :=
  match queue s with
  | e :: _ => if bool_decide (entry_phase e = L_Queued) then Free (last_sequence s)
              else Held (last_sequence s) (entry_ref e)
  | [] => Free (last_sequence s)
  end.

(** The members in the order they joined the lane. *)
Definition enqueued (log : list TargetSettlementLaneEvent) : list string :=
  omap (λ e, match e with LE_MemberEnqueued m => Some (member_ref m) | _ => None end) log.

(** The queue keeps that order, and who left it was resolved. *)
Record fifo (joined : list string) (s : TargetSettlementLaneState) : Prop := {
  ff_nodup : NoDup joined;
  ff_order : refs (queue s) `sublist_of` joined;
  ff_left : ∀ r, r ∈ joined → r ∈ refs (queue s) ∨ r ∈ res_member_ref <$> resolved s;
}.

Record good_event (s : TargetSettlementLaneState) (e : TargetSettlementLaneEvent)
    (s' : TargetSettlementLaneState) : Prop := {
  ge_fold : evolve_target_lane s e = Some s';
  ge_inv : lane_inv s';
  ge_lane : foldM lane_step (lane_abs s) (omap lane_effect_of [e]) = Some (lane_abs s');
  ge_fifo : ∀ joined, fifo joined s → fifo (joined ++ enqueued [e]) s';
}.

(** An entry leaves the queue, resolved under its own reference. *)
Lemma leave_inv s a e b r :
  lane_inv s → queue s = a ++ e :: b → res_member_ref r = entry_ref e →
  (∀ x, x ∈ tail (a ++ b) → entry_phase x = L_Queued) →
  lane_inv (resolve s (a ++ b) r)
  ∧ ∀ joined, fifo joined s → fifo joined (resolve s (a ++ b) r).
Proof.
  intros [Hn Ho Ht Htg Hp] Hq Hr Htail. rewrite Hq in *. rewrite fmap_app in Hn, Ho. simpl in *.
  assert (∀ x, x ∈ a ++ b → x ∈ a ++ e :: b) as Hsub by (intros x; rewrite !elem_of_app, elem_of_cons; tauto).
  apply NoDup_app in Hn as (Hna & Hab & Hnb). apply NoDup_cons in Hnb as [Heb Hnb].
  split.
  - split; simpl; [| |done|auto|auto].
    + rewrite fmap_app. apply NoDup_app. split_and!; [done| |done]. intros x Hx Hb. apply (Hab x Hx). by right.
    + intros x Hx. change (x ∈ refs (a ++ b)) in Hx. rewrite fmap_app in Hx. rewrite fmap_app. simpl. rewrite Hr.
      rewrite elem_of_app, list_elem_of_singleton. intros [Hres| ->].
      * eapply Ho; [|exact Hres]. apply elem_of_app in Hx. rewrite elem_of_app, elem_of_cons. tauto.
      * apply elem_of_app in Hx as [Hx|Hx]; [|done]. apply (Hab _ Hx). by left.
  - intros joined [Hj Hord Hleft]. split; simpl; [done| |].
    + etrans; [|exact Hord]. rewrite Hq, !fmap_app. simpl. by apply sublist_app, sublist_cons.
    + intros x Hx. destruct (Hleft x Hx) as [Hin|Hin].
      * rewrite Hq, fmap_app in Hin. simpl in Hin. rewrite elem_of_app, elem_of_cons in Hin.
        rewrite !fmap_app, !elem_of_app. simpl. rewrite list_elem_of_singleton, Hr. tauto.
      * right. rewrite fmap_app, elem_of_app. by left.
Qed.

(** The first entry's phase and permit change. *)
Lemma head_inv s e q f n :
  lane_inv s → queue s = e :: q → entry_member (f e) = entry_member e →
  entry_permit (f e) = Some (lane_permit_for (entry_member e) n) →
  lane_inv (s <| queue := f e :: q |> <| last_sequence := n |>)
  ∧ ∀ joined, fifo joined s → fifo joined (s <| queue := f e :: q |> <| last_sequence := n |>).
Proof.
  intros [Hn Ho Ht Htg Hp] Hq Hm Hperm. rewrite Hq in *. simpl in *.
  assert (entry_ref (f e) = entry_ref e) as Href by (unfold entry_ref; by rewrite Hm).
  split.
  - split; simpl; [by rewrite Href|by rewrite Href|done| |].
    + intros x [->|Hx]%elem_of_cons; [rewrite Hm|]; apply Htg; [by left|by right].
    + intros x [->|Hx]%elem_of_cons Hne; [by rewrite Hm|]. by rewrite (Ht x Hx) in Hne.
  - intros joined [Hj Hord Hleft]. rewrite Hq in *. split; simpl; by rewrite ?Href.
Qed.

(** ** Every admitted command *)

Definition bump (s : TargetSettlementLaneState) : TargetSettlementLaneState :=
  s <| lane_history_events := saturating_succ u64_max (lane_history_events s) |>.

Lemma bump_inv s : lane_inv s → lane_inv (bump s).
Proof. by destruct 1. Qed.

Lemma bump_fifo joined s : fifo joined s → fifo joined (bump s).
Proof. by destruct 1. Qed.

Lemma bump_abs s : lane_abs (bump s) = lane_abs s.
Proof. done. Qed.

Lemma first_in_phase_spec s e p ref :
  first_in_phase s e p ref = true → ∃ q, queue s = e :: q ∧ entry_phase e = p.
Proof.
  unfold first_in_phase. rewrite !andb_true_iff, !bool_decide_eq_true. intros [[Hh Hp] _].
  destruct (queue s) as [|e' q]; [done|]. injection Hh as <-. eauto.
Qed.

Lemma queued_abs s e q : queue s = e :: q → entry_phase e = L_Queued → lane_abs s = Free (last_sequence s).
Proof. intros Hq Hp. unfold lane_abs. by rewrite Hq, bool_decide_eq_true_2. Qed.

Lemma held_abs s e q :
  queue s = e :: q → entry_phase e ≠ L_Queued → lane_abs s = Held (last_sequence s) (entry_ref e).
Proof. intros Hq Hp. unfold lane_abs. by rewrite Hq, bool_decide_eq_false_2. Qed.

Lemma waiting_abs s :
  (∀ e, e ∈ queue s → entry_phase e = L_Queued) → lane_abs s = Free (last_sequence s).
Proof.
  intros Hall. destruct (queue s) as [|e q] eqn:Hq; [unfold lane_abs; by rewrite Hq|].
  eapply queued_abs; [done|]. apply Hall. by left.
Qed.

Lemma names_in ref q : existsb (names ref) q = false → ref ∉ refs q.
Proof.
  intros Hf (e & -> & He)%list_elem_of_fmap. apply not_true_iff_false in Hf. apply Hf.
  apply existsb_exists. exists e. split; [by apply list_elem_of_In|]. by apply bool_decide_eq_true_2.
Qed.

Lemma resolved_in ref (l : list TargetLaneResolution) :
  existsb (λ r, bool_decide (res_member_ref r = ref)) l = false → ref ∉ res_member_ref <$> l.
Proof.
  intros Hf (r & -> & Hr)%list_elem_of_fmap. apply not_true_iff_false in Hf. apply Hf.
  apply existsb_exists. exists r. split; [by apply list_elem_of_In|]. by apply bool_decide_eq_true_2.
Qed.

Lemma enqueue_good s m es :
  lane_inv s → decide_target_lane s (LC_Enqueue m) = Ok es →
  ∃ s', es = [LE_MemberEnqueued m] ∧ good_event s (LE_MemberEnqueued m) s'.
Proof.
  intros [Hn Ho Ht Htg Hp]. simpl. case_match eqn:Hc; [done|]. intros [= <-].
  apply orb_false_iff in Hc as [[[_ Htm]%orb_false_iff Hq%names_in]%orb_false_iff Hr%resolved_in].
  eexists. split; [done|]. split; [done| | |].
  - split; simpl.
    + rewrite fmap_app. apply NoDup_app. split_and!; [done| |apply NoDup_singleton].
      intros x Hx ->%list_elem_of_singleton. done.
    + intros x. rewrite fmap_app, elem_of_app. simpl. rewrite list_elem_of_singleton. intros [Hx| ->]; auto.
    + intros e He. destruct (queue s) as [|e0 q]; simpl in He; [by apply elem_of_nil in He|].
      apply elem_of_app in He as [He| ->%list_elem_of_singleton]; [by apply Ht|done].
    + intros e [He| ->%list_elem_of_singleton]%elem_of_app; [by rewrite (Htg e He)|]. simpl.
      destruct (lane_target_id s); simpl in *; [|done].
      apply negb_false_iff, bool_decide_eq_true in Htm. by subst.
    + intros e [He| ->%list_elem_of_singleton]%elem_of_app; [by apply Hp|done].
  - unfold lane_abs. simpl. by destruct (queue s).
  - intros joined [Hj Hord Hleft]. simpl. split; simpl.
    + apply NoDup_app. split_and!; [done| |apply NoDup_singleton].
      intros x Hx ->%list_elem_of_singleton. by destruct (Hleft _ Hx).
    + rewrite fmap_app. by apply sublist_app.
    + intros x. rewrite fmap_app, !elem_of_app. intros [Hx|Hx]; [|by auto].
      destruct (Hleft x Hx); auto.
Qed.

Lemma grant_good s ref es :
  lane_inv s → decide_target_lane s (LC_Grant ref) = Ok es →
  ∃ e q s', queue s = e :: q ∧ ref = entry_ref e
    ∧ es = [LE_MemberGranted ref (lane_permit_for (entry_member e) (last_sequence s + 1))]
    ∧ good_event s (LE_MemberGranted ref (lane_permit_for (entry_member e) (last_sequence s + 1))) s'.
Proof.
  intros Hinv. simpl. destruct (queue s) as [|e q] eqn:Hq; [done|].
  case_match eqn:Hc; [done|]. apply orb_false_iff in Hc as [Hnm Hph].
  apply negb_false_iff, bool_decide_eq_true in Hnm. apply negb_false_iff, bool_decide_eq_true in Hph.
  destruct (u64_checked_add _ _) as [n|] eqn:Hn; simpl; [|done]. intros [= <-].
  apply checked_add_Some in Hn as [-> _].
  set (p := lane_permit_for (entry_member e) (last_sequence s + 1)).
  set (f := λ e, e <| entry_phase := L_Granted |> <| entry_permit := Some p |>).
  destruct (head_inv (bump s) e q f (last_sequence s + 1) (bump_inv _ Hinv) Hq) as [Hi Hf]; [done..|].
  exists e, q, (bump s <| queue := f e :: q |> <| last_sequence := (last_sequence s + 1)%N |>).
  split_and!; [done|done|done|]. split; [|done| |].
  - unfold evolve_target_lane. simpl. rewrite Hq. simpl. unfold names. by rewrite bool_decide_eq_true_2.
  - rewrite (queued_abs s e q Hq Hph). simpl. rewrite bool_decide_eq_true_2 by done. simpl.
    erewrite held_abs by done. simpl. by rewrite <- Hnm.
  - intros joined Hj. simpl. rewrite app_nil_r. by apply Hf, bump_fifo.
Qed.

(** The outcome of the member that holds the permit frees the lane. *)
Lemma outcome_good s e q ev receipt_ref :
  lane_inv s → queue s = e :: q → entry_phase e ≠ L_Queued →
  ev = LE_KnownOutcomeRecorded (entry_ref e) (lm_operation_id (entry_member e)) receipt_ref
  ∨ ev = LE_UnknownOutcomeReconciled (entry_ref e) (lm_operation_id (entry_member e)) receipt_ref →
  ∃ s', good_event s ev s'.
Proof.
  intros Hinv Hq Hph Hev.
  set (r := mkResolution (entry_ref e) (lm_operation_id (entry_member e)) receipt_ref false).
  assert (∀ x, x ∈ q → entry_phase x = L_Queued) as Hw.
  { intros x Hx. apply (li_tail s Hinv). by rewrite Hq. }
  destruct (leave_inv (bump s) [] e q r (bump_inv _ Hinv) Hq) as [Hi Hf]; [done| |].
  { intros x Hx. apply Hw. simpl in Hx. destruct q; [done|]. by right. }
  exists (resolve (bump s) q r). split; [|done| |].
  - destruct Hev as [-> | ->]; unfold evolve_target_lane; simpl; rewrite Hq; done.
  - rewrite (held_abs s e q Hq Hph), (waiting_abs (resolve (bump s) q r)) by done.
    destruct Hev as [-> | ->]; simpl; by rewrite bool_decide_eq_true_2.
  - intros joined Hj. destruct Hev as [-> | ->]; simpl; rewrite app_nil_r; by apply Hf, bump_fifo.
Qed.

Lemma unknown_good s e q evidence_ref :
  lane_inv s → queue s = e :: q → entry_phase e = L_Granted →
  ∃ s', good_event s (LE_UnknownOutcomeRecorded (entry_ref e) evidence_ref) s'.
Proof.
  intros Hinv Hq Hph. set (f := λ e, e <| entry_phase := L_OutcomeUnknown |>).
  destruct (head_inv (bump s) e q f (last_sequence s) (bump_inv _ Hinv) Hq) as [Hi Hf]; [done| |].
  { exact (li_permit s Hinv e ltac:(rewrite Hq; by left) ltac:(by rewrite Hph)). }
  exists (bump s <| queue := f e :: q |> <| last_sequence := last_sequence s |>). split; [|done| |].
  - unfold evolve_target_lane. simpl. rewrite Hq. simpl. unfold names. by rewrite bool_decide_eq_true_2.
  - erewrite (held_abs s e q Hq), held_abs by (done || by rewrite Hph). done.
  - intros joined Hj. simpl. rewrite app_nil_r. by apply Hf, bump_fifo.
Qed.

(** A member that still waits leaves the queue; whoever holds the permit keeps it. *)
Lemma withdrawn_good s e ev out :
  lane_inv s → lane_entry s (entry_ref e) = Ok e → entry_phase e = L_Queued →
  lane_effect_of ev = None → enqueued [ev] = [] →
  (∀ n, evolve_lane_event n ev = q ← remove_first (entry_ref e) (queue n);
        Some (resolve n q (mkResolution (entry_ref e) (lm_operation_id (entry_member e)) out true))) →
  ∃ s', good_event s ev s'.
Proof.
  intros Hinv (a & b & Hq & _ & _ & Hrm)%lane_entry_split Hph Heff Hjoin Hev.
  set (r := mkResolution (entry_ref e) (lm_operation_id (entry_member e)) out true).
  pose proof (li_tail s Hinv) as Ht. rewrite Hq in Ht.
  destruct (leave_inv (bump s) a e b r (bump_inv _ Hinv) Hq) as [Hi Hf]; [done| |].
  { intros x Hx. apply Ht. destruct a; simpl in *; [destruct b; [done|by right]|].
    apply elem_of_app in Hx as [Hx|Hx]; apply elem_of_app; [by left|right; by right]. }
  exists (resolve (bump s) (a ++ b) r). split; [|done| |].
  - unfold evolve_target_lane. rewrite Hev. simpl. by rewrite Hrm.
  - simpl. rewrite Heff. simpl. f_equal. destruct a as [|x a]; simpl in *.
    + rewrite (queued_abs s e b Hq Hph), (waiting_abs (resolve _ _ _)); done.
    + unfold lane_abs. by rewrite Hq.
  - intros joined Hj. rewrite Hjoin, app_nil_r. by apply Hf, bump_fifo.
Qed.

Lemma lane_entry_ref s ref e : lane_entry s ref = Ok e → ref = entry_ref e.
Proof. by intros (? & ? & _ & <- & _)%lane_entry_split. Qed.

Lemma lane_decide_good s c es :
  lane_inv s → decide_target_lane s c = Ok es → ∃ e s', es = [e] ∧ good_event s e s'.
Proof.
  intros Hinv Hd. destruct c as [m|ref|ref rr|ref rr|ref rr|ref rr|ref later rr].
  1: destruct (enqueue_good s m es Hinv Hd) as (s' & -> & ?); eauto.
  1: destruct (grant_good s ref es Hinv Hd) as (? & ? & s' & _ & _ & -> & ?); eauto.
  all: simpl in Hd; destruct (lane_entry s ref) as [e|] eqn:He; simpl in Hd; [|done];
    pose proof (lane_entry_ref _ _ _ He) as ->.
  1-3: case_match eqn:Hc; [done|]; injection Hd as <-;
    apply negb_false_iff, first_in_phase_spec in Hc as (q & Hq & Hph).
  - destruct (outcome_good s e q _ rr Hinv Hq ltac:(by rewrite Hph) (or_introl eq_refl)). eauto.
  - destruct (unknown_good s e q rr Hinv Hq Hph). eauto.
  - destruct (outcome_good s e q _ rr Hinv Hq ltac:(by rewrite Hph) (or_intror eq_refl)). eauto.
  - case_match eqn:Hc; [done|]. injection Hd as <-.
    apply orb_false_iff in Hc as [Hph%negb_false_iff%bool_decide_eq_true _].
    eexists _. edestruct (withdrawn_good s e) as [s' ?]; cycle -1; [by eauto|done..].
  - destruct (lane_entry s later) as [l|]; simpl in Hd; [|done].
    case_match eqn:Hc; [done|]. injection Hd as <-.
    apply orb_false_iff in Hc as [[[Hph%negb_false_iff%bool_decide_eq_true _]%orb_false_iff _]%orb_false_iff _].
    eexists _. edestruct (withdrawn_good s e) as [s' ?]; cycle -1; [by eauto|done..].
Qed.

Section lane.
Context (encode : TargetSettlementLaneState → option string)
        (decode : string → option TargetSettlementLaneState).
Abbreviation L := (lane_lifecycle encode decode).

#[global] Instance lane_safe : LifecycleSafe L.
Proof.
  refine {| lc_inv := (lane_inv : lc_state L → Prop) |}.
  - split; simpl; [constructor|set_solver..].
  - intros s c es Hinv Hd. destruct (lane_decide_good s c es Hinv Hd) as (e & s' & -> & [Hf Hi _ _]).
    exists s'. split; [|done]. simpl. change (lc_evolve L s e) with (evolve_target_lane s e). by rewrite Hf.
Defined.

Lemma lane_admitted log s c es s' :
  trace L log s → apply L s c = Applied es s' → ∃ e, es = [e] ∧ good_event s e s'.
Proof.
  intros Ht [Hd He]%apply_admitted. pose proof (trace_inv L log s Ht) as Hinv.
  destruct (lane_decide_good s c es Hinv Hd) as (e & s2 & -> & Hg).
  exists e. split; [done|]. simpl in He. rewrite (ge_fold _ _ _ Hg) in He. by injection He as ->.
Qed.

Lemma trace_lane log s :
  trace L log s → foldM lane_step (Free 0) (omap lane_effect_of log) = Some (lane_abs s).
Proof.
  induction 1 as [|log s c es s' Ht IH Ha]; [done|].
  destruct (lane_admitted _ _ _ _ _ Ht Ha) as (e & -> & Hg).
  rewrite omap_app, foldM_app, IH. simpl. apply (ge_lane _ _ _ Hg).
Qed.

Lemma trace_fifo log s : trace L log s → fifo (enqueued log) s.
Proof.
  induction 1 as [|log s c es s' Ht IH Ha]; [split; [constructor|done|set_solver]|].
  destruct (lane_admitted _ _ _ _ _ Ht Ha) as (e & -> & Hg).
  unfold enqueued. rewrite omap_app. by apply (ge_fifo _ _ _ Hg).
Qed.

Lemma sublist_head {A} (x : A) q a b : (x :: q) `sublist_of` (a ++ x :: b) → x ∉ a → q `sublist_of` b.
Proof.
  induction a as [|y a IH]; simpl; intros Hs Hx.
  - apply sublist_cons_l in Hs as (k1 & k2 & Heq & Hq). destruct k1 as [|z k1]; simpl in Heq.
    + by injection Heq as ->.
    + injection Heq as -> ->. etrans; [exact Hq|]. by apply sublist_inserts_l, sublist_cons.
  - apply not_elem_of_cons in Hx as [Hne Hx]. apply IH; [|done].
    apply sublist_cons_r in Hs as [Hs|(l' & Heq & _)]; [done|congruence].
Qed.

(** Whoever is first in the queue has no unresolved predecessor. *)
Lemma fifo_first joined s e q a b :
  fifo joined s → queue s = e :: q → joined = a ++ entry_ref e :: b →
  ∀ r, r ∈ a → r ∈ res_member_ref <$> resolved s.
Proof.
  intros [Hn Hord Hleft] Hq -> r Hr. apply NoDup_app in Hn as (_ & Hab & _).
  destruct (Hleft r) as [Hin|]; [by apply elem_of_app; left| |done]. exfalso. rewrite Hq in Hord, Hin.
  simpl in Hord, Hin. apply (Hab r Hr). apply elem_of_cons in Hin as [->|Hin]; [by left|].
  right. apply sublist_head in Hord; [apply sublist_subseteq in Hord; by apply Hord|].
  intros Ha. apply (Hab _ Ha). by left.
Qed.

(** C24: a target's lane serializes its members. The grants and outcomes of every
    history are a run of the abstract lane, which is free or held by one member
    and numbers its grants 1, 2, 3, ... ; a member whose outcome is unknown keeps
    the lane until it is reconciled. No session panics. When a member is granted, every member that
    joined before it has been resolved, and the permit names that member, its
    target, its operation and the next number. *)
Theorem lane_serializes cs :
  ∃ log s, session L cs = Some (log, s)
  ∧ foldM lane_step (Free 0) (omap lane_effect_of log) = Some (lane_abs s)
  ∧ ∀ ref es, decide_target_lane s (LC_Grant ref) = Ok es →
      ∃ m, es = [LE_MemberGranted ref (lane_permit_for m (last_sequence s + 1))]
        ∧ ref = member_ref m ∧ lane_target_id s = Some (lm_target_id m)
        ∧ lane_abs s = Free (last_sequence s)
        ∧ ∀ a b, enqueued log = a ++ ref :: b → ∀ r, r ∈ a → r ∈ res_member_ref <$> resolved s.
Proof.
  destruct (session_total L cs) as (log & s & Hs & Ht & Hinv & _). exists log, s.
  split; [done|]. split; [by apply trace_lane|]. intros ref es Hd.
  destruct (grant_good s ref es Hinv Hd) as (e & q & s' & Hq & -> & -> & Hg).
  exists (entry_member e). split_and!; [done|done| | |].
  - apply (li_target s Hinv). rewrite Hq. by left.
  - pose proof (ge_lane _ _ _ Hg) as Hl. simpl in Hl. unfold lane_abs in *. rewrite Hq in *.
    case_bool_decide; [done|]. done.
  - intros a b. eapply fifo_first; [by apply trace_fifo|done].
Qed.

End lane.

(** ** A session

    Two settlements meet at one target: the second waits while the first one's
    outcome is unknown. *)

Module OneTarget.

Definition lane_of := lane_lifecycle (λ _, None) (λ _, None).
Definition member_of (scope : string) : TargetLaneMember :=
  mkLaneMember scope "declaration" "member" "target" "operation" "basis" "digest" 1.
Definition first := member_ref (member_of "one").
Definition second := member_ref (member_of "two").

Definition blocked : list (lc_command lane_of) :=
  [LC_Enqueue (member_of "one"); LC_Enqueue (member_of "two"); LC_Grant second; LC_Grant first;
   LC_RecordUnknownOutcome first "lost"; LC_CancelQueued first "stop"; LC_Grant second].

Definition outcome_of (cs : list (lc_command lane_of)) :=
  (λ p : list (lc_event lane_of) * lc_state lane_of,
     (omap lane_effect_of p.1, lane_abs p.2)) <$> session lane_of cs.

Example blocked_on_unknown : outcome_of blocked = Some ([Granted first 1], Held 1 first).
Proof. vm_compute. reflexivity. Qed.

Example reconciled_lets_next :
  outcome_of (blocked ++ [LC_ReconcileUnknown first "receipt"; LC_Grant second])
  = Some ([Granted first 1; Settled first; Granted second 2], Held 2 second).
Proof. vm_compute. reflexivity. Qed.

End OneTarget.
