(* ===== verification/Egress.v ===== *)
(** * Egress of protected resources

    The protection core: [crates/core/src/boundary.rs] (the egress gate),
    [taint.rs] (engagement-scoped taint), [resource.rs] (stakeholders of a
    resource) and [revocation.rs] (consent, egress and revocation over time). *)

From S2P Require Import Prelude Ids.

(** ** The gate ([boundary.rs]) *)

Definition taint (engagement_read_owners : gset AuthorityId) : gset AuthorityId :=
  engagement_read_owners.

Definition allowed_egress (stakeholders : gset AuthorityId) (recipient : AuthorityId)
    (tcb : gset AuthorityId) (bases : gset (AuthorityId * AuthorityId)) : bool :=
  if bool_decide (recipient ∈ tcb) then true
  else forallb (λ s, bool_decide ((s, recipient) ∈ bases))
         (filter (λ s, s ≠ recipient) (elements stakeholders)).

(** ** Engagement-scoped taint ([taint.rs]) *)

Record EngagementReads := mkEngagementReads { reads : gset string }.

Definition engagement_new : EngagementReads := mkEngagementReads ∅.

Definition engagement_read (e : EngagementReads) (item : string) : EngagementReads :=
  mkEngagementReads ({[item]} ∪ reads e).

Definition engagement_taint (e : EngagementReads) (owner_of : string → string) : gset string :=
  list_to_set (owner_of <$> elements (reads e)).

Definition engagement_items (e : EngagementReads) : gset string := reads e.

Definition can_egress (taint : gset string) (dst : string) (tcb : gset string)
    (bases : gset (string * string)) : bool :=
  bool_decide (dst ∈ tcb)
  || forallb (λ a, bool_decide ((a, dst) ∈ bases)) (filter (λ a, a ≠ dst) (elements taint)).

(** ** Resources ([resource.rs]) *)

Record ResourceKind := mkResourceKind { kind_name : string }.
Definition method_kind : ResourceKind := mkResourceKind "method".
Definition context_kind : ResourceKind := mkResourceKind "context".
Definition output_kind : ResourceKind := mkResourceKind "output".

Record Resource := mkResource {
  resource_id : ResourceId;
  resource_kind : ResourceKind;
  owner : AuthorityId;
  provenance : gset ResourceId;
}.

Definition resource_input (id : ResourceId) (kind : ResourceKind) (owner : AuthorityId) : Resource :=
  mkResource id kind owner ∅.

Definition resource_derived (id : ResourceId) (owner : AuthorityId)
    (provenance : gset ResourceId) : Resource :=
  mkResource id output_kind owner provenance.

Definition stakeholders (res : Resource) (owner_of : ResourceId → AuthorityId)
    : gset AuthorityId :=
  fold_left (λ s p, {[owner_of p]} ∪ s) (elements (provenance res)) {[owner res]}.

(** ** Consent, egress and revocation over time ([revocation.rs]) *)

Record Basis := mkBasis { basis_res : ResourceId; basis_to : AuthorityId; basis_by : AuthorityId }.

#[export] Instance Basis_eq_dec : EqDecision Basis.
Proof. solve_decision. Defined.
#[export] Instance Basis_countable : Countable Basis.
Proof.
  refine (inj_countable' (λ b, (basis_res b, basis_to b, basis_by b))
            (λ '(r, t, a), mkBasis r t a) _). by intros [].
Defined.

Record EgressState := mkEgressState {
  obtained : gmap AuthorityId (gset ResourceId);
  bases : gset Basis;
  ever_released : gset (ResourceId * AuthorityId);
}.

#[export] Instance EgressState_eta : Eta EgressState :=
  mkEta (λ s, mkEgressState (obtained s) (bases s) (ever_released s)).

Definition egress_default : EgressState := mkEgressState ∅ ∅ ∅.

Inductive EgressCommand :=
| C_Consent (res : ResourceId) (to by_ : AuthorityId)
| C_Egress (res : ResourceId) (to : AuthorityId)
| C_Revoke (res : ResourceId) (to by_ : AuthorityId).

Inductive EgressEvent :=
| E_Consented (b : Basis)
| E_Released (res : ResourceId) (to : AuthorityId)
| E_Revoked (b : Basis).

Definition revocation_allowed_egress (state : EgressState) (stakeholders tcb : gset AuthorityId)
    (res : ResourceId) (to : AuthorityId) : bool :=
  if bool_decide (to ∈ tcb) then true
  else forallb (λ a, bool_decide (mkBasis res to a ∈ bases state))
         (filter (λ a, a ≠ to) (elements stakeholders)).

Definition decide (state : EgressState) (stakeholders tcb : gset AuthorityId)
    (command : EgressCommand) : result Rejection (list EgressEvent) :=
  match command with
  | C_Consent res to by_ => Ok [E_Consented (mkBasis res to by_)]
  | C_Egress res to =>
      if revocation_allowed_egress state stakeholders tcb res to
      then Ok [E_Released res to]
      else reject "egress: not all stakeholders consent (SOUND)"
  | C_Revoke res to by_ => Ok [E_Revoked (mkBasis res to by_)]
  end.

Definition evolve (s : EgressState) (event : EgressEvent) : EgressState :=
  match event with
  | E_Consented b => s <| bases := {[b]} ∪ bases s |>
  | E_Released res to =>
      s <| obtained := <[to := {[res]} ∪ default ∅ (obtained s !! to)]> (obtained s) |>
        <| ever_released := {[(res, to)]} ∪ ever_released s |>
  | E_Revoked b => s <| bases := bases s ∖ {[b]} |>
  end.

(** One step under the protection context the shell materializes for the
    command; a refused command changes nothing. *)
Definition egress_step (ctx : ResourceId → gset AuthorityId * gset AuthorityId)
    (s : EgressState) (c : EgressCommand) : EgressState :=
  let res := match c with C_Consent r _ _ | C_Egress r _ | C_Revoke r _ _ => r end in
  match decide s (ctx res).1 (ctx res).2 c with
  | Ok es => fold_left evolve es s
  | Err _ => s
  end.

Definition egress_run ctx (s : EgressState) (cs : list EgressCommand) : EgressState :=
  fold_left (egress_step ctx) cs s.

(** ** Lemmas *)

Lemma forallb_elements {A} `{Countable A} (X : gset A) (P : A → Prop) (f : A → bool)
    `{∀ x, Decision (P x)} :
  forallb f (filter P (elements X)) = true ↔ ∀ x, x ∈ X → P x → f x = true.
Proof.
  rewrite forallb_forall. setoid_rewrite <- list_elem_of_In.
  setoid_rewrite list_elem_of_filter. setoid_rewrite elem_of_elements. naive_solver.
Qed.

Lemma allowed_egress_spec st to tcb bs :
  allowed_egress st to tcb bs = true ↔
    to ∈ tcb ∨ ∀ a, a ∈ st → a ≠ to → (a, to) ∈ bs.
Proof.
  unfold allowed_egress. case_bool_decide; [naive_solver|].
  rewrite forallb_elements. setoid_rewrite bool_decide_eq_true. naive_solver.
Qed.

Lemma can_egress_spec t dst tcb bs :
  can_egress t dst tcb bs = true ↔ dst ∈ tcb ∨ ∀ a, a ∈ t → a ≠ dst → (a, dst) ∈ bs.
Proof.
  unfold can_egress. rewrite orb_true_iff, bool_decide_eq_true, forallb_elements.
  by setoid_rewrite bool_decide_eq_true.
Qed.

Lemma revocation_allowed_spec s st tcb res to :
  revocation_allowed_egress s st tcb res to = true ↔
    to ∈ tcb ∨ ∀ a, a ∈ st → a ≠ to → mkBasis res to a ∈ bases s.
Proof.
  unfold revocation_allowed_egress. case_bool_decide; [naive_solver|].
  rewrite forallb_elements. setoid_rewrite bool_decide_eq_true. naive_solver.
Qed.

Lemma elem_of_engagement_taint e owner_of a :
  a ∈ engagement_taint e owner_of ↔ ∃ r, r ∈ reads e ∧ owner_of r = a.
Proof.
  unfold engagement_taint. rewrite elem_of_list_to_set, list_elem_of_fmap.
  setoid_rewrite elem_of_elements. naive_solver.
Qed.

Lemma elem_of_stakeholders res owner_of a :
  a ∈ stakeholders res owner_of ↔
    a = owner res ∨ ∃ p, p ∈ provenance res ∧ owner_of p = a.
Proof.
  unfold stakeholders. setoid_rewrite <- (elem_of_elements (provenance res)).
  assert (∀ l (X : gset AuthorityId), a ∈ fold_left (λ s p, {[owner_of p]} ∪ s) l X ↔
            a ∈ X ∨ ∃ p, p ∈ l ∧ owner_of p = a) as Hfold.
  { induction l as [|p l IH]; intros X; simpl; [set_solver|]. rewrite IH. set_solver. }
  rewrite Hfold. set_solver.
Qed.

(** The basis of one resource seen by the gate of [boundary.rs]. *)
Definition bases_of (s : EgressState) (res : ResourceId) : gset (AuthorityId * AuthorityId) :=
  set_map (λ b, (basis_by b, basis_to b)) (filter (λ b, basis_res b = res) (bases s)).

(** ** Properties *)

(** The time-indexed gate of [revocation.rs] is the gate of [boundary.rs] on
    the bases standing for that resource. *)
Theorem egress_gates_agree s st tcb res to :
  revocation_allowed_egress s st tcb res to = allowed_egress st to tcb (bases_of s res).
Proof.
  apply eq_true_iff_eq. rewrite revocation_allowed_spec, allowed_egress_spec.
  enough (∀ a, (a, to) ∈ bases_of s res ↔ mkBasis res to a ∈ bases s) as H
    by (setoid_rewrite H; done).
  intros a. unfold bases_of. rewrite elem_of_map. setoid_rewrite elem_of_filter. split.
  - intros ([r t b] & [= -> ->] & Hr & Hin). simpl in *. by subst.
  - intros Hin. exists (mkBasis res to a). by simpl.
Qed.

(** SOUND, engagement-scoped (ADR 0026). If an output of an engagement may
    cross to an untrusted recipient then the owner of every item the engagement
    ever read consented (or is the recipient); reading more never opens the gate,
    and the gate stays shut as long as one owner withholds consent. *)
Theorem engagement_egress_sound e item owner_of dst tcb bs :
  dst ∉ tcb →
  (can_egress (engagement_taint e owner_of) dst tcb bs = true ↔
     ∀ r, r ∈ reads e → owner_of r ≠ dst → (owner_of r, dst) ∈ bs)
  ∧ (can_egress (engagement_taint (engagement_read e item) owner_of) dst tcb bs = true →
     can_egress (engagement_taint e owner_of) dst tcb bs = true)
  ∧ (owner_of item ≠ dst → (owner_of item, dst) ∉ bs →
     can_egress (engagement_taint (engagement_read e item) owner_of) dst tcb bs = false).
Proof.
  intros Hd.
  assert (∀ e, can_egress (engagement_taint e owner_of) dst tcb bs = true ↔
     ∀ r, r ∈ reads e → owner_of r ≠ dst → (owner_of r, dst) ∈ bs) as Hspec.
  { intros e'. rewrite can_egress_spec. setoid_rewrite elem_of_engagement_taint. naive_solver. }
  split_and!; [apply Hspec| |].
  - rewrite !Hspec. simpl. set_solver.
  - intros Hne Hout. apply not_true_is_false. rewrite Hspec. simpl. intros Hall.
    apply Hout, Hall; [set_solver|done].
Qed.

Lemma engagement_egress_sound_witness :
  can_egress (engagement_taint (engagement_read engagement_new "notes") (λ _, "alice"))
    "bob" {["vault"]} ∅ = false.
Proof.
  apply (engagement_egress_sound engagement_new "notes" (λ _, "alice") "bob" {["vault"]} ∅).
  - set_solver.
  - discriminate.
  - set_solver.
Defined.

(** The stakeholders law and LAUNDER. A resource's stakeholders are exactly its
    owner and the owners of its provenance, and an oracle that over-approximates
    never lets through an egress that the true owners' gate refuses. *)
Theorem stakeholders_conservative res owner_of prov' to tcb bs :
  provenance res ⊆ prov' →
  (∀ a, a ∈ stakeholders res owner_of ↔
        a = owner res ∨ ∃ p, p ∈ provenance res ∧ owner_of p = a)
  ∧ (allowed_egress (stakeholders (resource_derived (resource_id res) (owner res) prov') owner_of)
       to tcb bs = true →
     allowed_egress (stakeholders res owner_of) to tcb bs = true).
Proof.
  intros Hsub. split; [intros a; apply elem_of_stakeholders|].
  rewrite !allowed_egress_spec. setoid_rewrite elem_of_stakeholders. simpl.
  intros [?|Hall]; [by left|right]. intros a Ha Hne. apply Hall; [|done].
  destruct Ha as [?|(p & Hp & ?)]; [by left|right]. exists p. set_solver.
Qed.

Lemma stakeholders_conservative_witness :
  mkId "dana" ∈ stakeholders
    (resource_derived (mkId "out") (mkId "carol") {[mkId "brief"]}) (λ _, mkId "dana").
Proof.
  apply (stakeholders_conservative
    (resource_derived (mkId "out") (mkId "carol") {[mkId "brief"]}) (λ _, mkId "dana")
    {[mkId "brief"; mkId "notes"]} (mkId "eve") ∅ ∅).
  - simpl. set_solver.
  - right. exists (mkId "brief"). simpl. split; [set_solver|done].
Defined.

(** ** Histories of consent and revocation *)

(** Whether a basis stands after a history of requests: its last consent or
    revocation was a consent. *)
Definition standing_step (b : Basis) (acc : bool) (c : EgressCommand) : bool :=
  match c with
  | C_Consent res to by_ => if bool_decide (b = mkBasis res to by_) then true else acc
  | C_Revoke res to by_ => if bool_decide (b = mkBasis res to by_) then false else acc
  | C_Egress _ _ => acc
  end.

Definition standing (b : Basis) (cs : list EgressCommand) : bool :=
  fold_left (standing_step b) cs false.

Section histories.
Context (ctx : ResourceId → gset AuthorityId * gset AuthorityId).
Implicit Types (s : EgressState) (cs : list EgressCommand).

Lemma egress_run_snoc s cs c : egress_run ctx s (cs ++ [c]) = egress_step ctx (egress_run ctx s cs) c.
Proof. unfold egress_run. by rewrite fold_left_app. Qed.

Lemma egress_step_egress s res to :
  egress_step ctx s (C_Egress res to) =
  if revocation_allowed_egress s (ctx res).1 (ctx res).2 res to
  then evolve s (E_Released res to) else s.
Proof. unfold egress_step. simpl. by destruct (revocation_allowed_egress _ _ _ _ _). Qed.

Lemma standing_bases cs b : b ∈ bases (egress_run ctx egress_default cs) ↔ standing b cs = true.
Proof.
  induction cs as [|c cs IH] using rev_ind; [done|].
  rewrite egress_run_snoc. unfold standing in *. rewrite fold_left_app. simpl.
  destruct c as [r t a|r t|r t a]; rewrite ?egress_step_egress; unfold egress_step; simpl.
  - case_bool_decide; set_solver.
  - case_match; simpl; exact IH.
  - case_bool_decide; set_solver.
Qed.

Lemma obtained_released cs res to :
  res ∈ default ∅ (obtained (egress_run ctx egress_default cs) !! to) ↔
  (res, to) ∈ ever_released (egress_run ctx egress_default cs).
Proof.
  induction cs as [|c cs IH] using rev_ind; [done|].
  rewrite egress_run_snoc. destruct c as [r t a|r t|r t a]; rewrite ?egress_step_egress; simpl; try done.
  case_match; simpl; [|done]. destruct (base.decide (t = to)) as [->|Hne].
  - rewrite lookup_insert_eq. simpl. set_solver.
  - rewrite lookup_insert_ne by done. set_solver.
Qed.

Lemma released_mono s cs : ever_released s ⊆ ever_released (egress_run ctx s cs).
Proof.
  induction cs as [|c cs IH] using rev_ind; [done|].
  rewrite egress_run_snoc. destruct c as [r t a|r t|r t a]; rewrite ?egress_step_egress; simpl; try done.
  case_match; simpl; set_solver.
Qed.

(** SOUND over time (INV-13, INV-22). Whatever was ever released was released by
    an egress request at whose time every stakeholder other than the recipient
    had a consent standing that no revocation had withdrawn, unless the recipient
    is trusted. *)
Theorem released_only_with_consent cs res to :
  (res, to) ∈ ever_released (egress_run ctx egress_default cs) →
  ∃ before after, cs = before ++ C_Egress res to :: after
    ∧ (to ∈ (ctx res).2 ∨
       ∀ a, a ∈ (ctx res).1 → a ≠ to → standing (mkBasis res to a) before = true).
Proof.
  induction cs as [|c cs IH] using rev_ind; [set_solver|].
  rewrite egress_run_snoc. intros Hin.
  assert ((res, to) ∈ ever_released (egress_run ctx egress_default cs) →
    ∃ before after, cs ++ [c] = before ++ C_Egress res to :: after
      ∧ (to ∈ (ctx res).2 ∨
         ∀ a, a ∈ (ctx res).1 → a ≠ to → standing (mkBasis res to a) before = true)) as Hold.
  { intros Hin'. destruct (IH Hin') as (before & after & -> & ?).
    exists before, (after ++ [c]). by rewrite <- app_assoc. }
  destruct c as [r t a|r t|r t a]; unfold egress_step in Hin; simpl in Hin; auto.
  destruct (revocation_allowed_egress _ _ _ r t) eqn:Hallow; simpl in Hin; [|by auto].
  apply elem_of_union in Hin as [[= -> ->]%elem_of_singleton|]; [|by auto].
  exists cs, []. split; [done|]. apply revocation_allowed_spec in Hallow as [?|Hall]; [by left|].
  right. intros a Ha Hne. rewrite <- standing_bases. by apply Hall.
Qed.

(** PAST_PRESERVED and future-only revocation (INV-18). What a recipient holds is
    exactly what was released to it and never shrinks, whatever is requested
    later; and while one stakeholder's consent does not stand, no release to an
    untrusted recipient is admitted. *)
Theorem revocation_future_only cs later res to a :
  let s := egress_run ctx egress_default cs in
  ever_released s ⊆ ever_released (egress_run ctx s later)
  ∧ (res ∈ default ∅ (obtained s !! to) ↔ (res, to) ∈ ever_released s)
  ∧ (a ∈ (ctx res).1 → a ≠ to → to ∉ (ctx res).2 → standing (mkBasis res to a) cs = false →
     decide s (ctx res).1 (ctx res).2 (C_Egress res to)
     = reject "egress: not all stakeholders consent (SOUND)").
Proof.
  intros s. split_and!; [apply released_mono|apply obtained_released|].
  intros Ha Hne Htcb Hst. simpl.
  destruct (revocation_allowed_egress s _ _ res to) eqn:Hallow; [exfalso|done].
  apply revocation_allowed_spec in Hallow as [?|Hall]; [done|].
  specialize (Hall a Ha Hne). apply standing_bases in Hall. by rewrite Hst in Hall.
Qed.
End histories.

Definition demo_ctx (_ : ResourceId) : gset AuthorityId * gset AuthorityId :=
  ({[mkId "alice"; mkId "bob"]}, ∅).

Lemma released_only_with_consent_witness :
  ∃ before after,
    [C_Consent (mkId "plan") (mkId "bob") (mkId "alice"); C_Egress (mkId "plan") (mkId "bob")]
      = before ++ C_Egress (mkId "plan") (mkId "bob") :: after
    ∧ ((mkId "bob" : AuthorityId) ∈ (demo_ctx (mkId "plan")).2 ∨
       ∀ a, a ∈ (demo_ctx (mkId "plan")).1 → a ≠ mkId "bob" →
            standing (mkBasis (mkId "plan") (mkId "bob") a) before = true).
Proof.
  apply (released_only_with_consent demo_ctx).
  apply (bool_decide_eq_true_1 _). vm_compute. reflexivity.
Defined.

Lemma revocation_future_only_witness :
  decide (egress_run demo_ctx egress_default
            [C_Consent (mkId "plan") (mkId "bob") (mkId "alice");
             C_Egress (mkId "plan") (mkId "bob");
             C_Revoke (mkId "plan") (mkId "bob") (mkId "alice")])
    (demo_ctx (mkId "plan")).1 (demo_ctx (mkId "plan")).2
    (C_Egress (mkId "plan") (mkId "bob"))
  = reject "egress: not all stakeholders consent (SOUND)".
Proof.
  apply (revocation_future_only demo_ctx
    [C_Consent (mkId "plan") (mkId "bob") (mkId "alice");
     C_Egress (mkId "plan") (mkId "bob");
     C_Revoke (mkId "plan") (mkId "bob") (mkId "alice")] []
    (mkId "plan") (mkId "bob") (mkId "alice")).
  - set_solver.
  - discriminate.
  - set_solver.
  - vm_compute. reflexivity.
Defined.
