(* ===== verification/Federation.v ===== *)
(** * Federation crossings

    [crates/core/src/signature.rs] (signature verification), [delegation.rs]
    (device subkeys), [bridge_grant.rs] and [federation.rs] (the crossing rule):
    the source authorizes, a relay routes, the target verifies and admits. *)

From Stdlib Require Import Ascii.
From stdpp Require Import pretty.
From S2P Require Import Prelude Ids Lifecycle.

(** ** Cryptography

    The [p256] and [hex] crates are third-party code: their operations are the
    fields of a class. *)

Class P256 := {
  VerifyingKey : Type;
  P256Sig : Type;
  hex_decode : string → option (list N);
  from_sec1_bytes : list N → option VerifyingKey;
  sig_from_slice : list N → option P256Sig;
  p256_verify : VerifyingKey → list N → P256Sig → bool;
}.

Record Signature := mkSignature { sig_bytes : list N }.

Record SignatureError := mkSignatureError { sig_reason : string }.

Definition P256_SIG_LEN : nat := 64.

Definition verify_signature `{P256} (msg : list N) (sig : Signature) (pubkey : PublicKey)
    : result SignatureError bool :=
  let? key_bytes := ok_or (hex_decode (as_str pubkey))
                      (mkSignatureError "public key is not valid hex") in
  let? verifying := ok_or (from_sec1_bytes key_bytes)
                      (mkSignatureError "public key is not a valid P-256 point") in
  if negb (bool_decide (length (sig_bytes sig) = P256_SIG_LEN)) then Ok false
  else match sig_from_slice (sig_bytes sig) with
       | Some parsed => Ok (p256_verify verifying msg parsed)
       | None => Ok false
       end.

(** ** Device delegations ([delegation.rs]) *)

Record DeviceDelegation := mkDeviceDelegation {
  subkey : PublicKey;
  authority_root : PublicKey;
  expiry : N; (* u64 *)
  delegation_signature : Signature;
}.

Definition delegation_text (subkey authority_root : PublicKey) (expiry : N) : string :=
  "gaugewright-device-delegation::v1::root=" +:+ as_str authority_root
  +:+ "::sub=" +:+ as_str subkey +:+ "::exp=" +:+ pretty expiry.

Definition delegation_bytes (subkey authority_root : PublicKey) (expiry : N) : list N :=
  bytes_of (delegation_text subkey authority_root expiry).

Inductive DelegationRejection := BadSignature | Expired.

Definition delegation_verify `{P256} (d : DeviceDelegation) (now : N)
    : result DelegationRejection unit :=
  if bool_decide (expiry d ≤ now)%N then Err Expired
  else
    let bytes := delegation_bytes (subkey d) (authority_root d) (expiry d) in
    match verify_signature bytes (delegation_signature d) (authority_root d) with
    | Ok true => Ok ()
    | _ => Err BadSignature
    end.

Record SubkeyRevocation := mkSubkeyRevocation {
  revoked_subkey : PublicKey;
  revocation_root : PublicKey;
  issued_at : N;
  revocation_signature : Signature;
}.

Definition revocation_text (subkey authority_root : PublicKey) (issued_at : N) : string :=
  "gaugewright-subkey-revocation::v1::root=" +:+ as_str authority_root
  +:+ "::sub=" +:+ as_str subkey +:+ "::at=" +:+ pretty issued_at.

Definition revocation_bytes (subkey authority_root : PublicKey) (issued_at : N) : list N :=
  bytes_of (revocation_text subkey authority_root issued_at).

Definition revocation_verify `{P256} (r : SubkeyRevocation) : result DelegationRejection unit :=
  let bytes := revocation_bytes (revoked_subkey r) (revocation_root r) (issued_at r) in
  match verify_signature bytes (revocation_signature r) (revocation_root r) with
  | Ok true => Ok ()
  | _ => Err BadSignature
  end.

(** ** Bridge grants ([bridge_grant.rs]) *)

Record BridgeGrant := mkBridgeGrant {
  grant_id : BridgeGrantId;
  source_authority_root_pubkey : PublicKey;
  source_authority_key_id : KeyId;
  target_environment : string;
  target_route : string;
  device_key : PublicKey;
  governance_scope : string;
  grant_expiry : N;
  grant_active : bool;
}.

Definition is_valid (g : BridgeGrant) (now : N) : bool :=
  grant_active g && bool_decide (now < grant_expiry g)%N.

(** ** The crossing ([federation.rs]) *)

Inductive CrossingPhase := P_Init | P_SourcePermitted | P_Routed | P_Admitted.

#[export] Instance CrossingPhase_eq_dec : EqDecision CrossingPhase.
Proof. solve_decision. Defined.

Record CrossingState := mkCrossingState { phase : CrossingPhase }.

Definition crossing_default : CrossingState := mkCrossingState P_Init.

Definition source_permitted (s : CrossingState) : bool :=
  match phase s with P_Init => false | _ => true end.

Definition routed (s : CrossingState) : bool :=
  match phase s with P_Routed | P_Admitted => true | _ => false end.

Definition target_admitted (s : CrossingState) : bool :=
  match phase s with P_Admitted => true | _ => false end.

(** [federated_delivery::Authority] *)
Inductive FedAuthority := A_None | A_Source | A_Relay | A_Target.

Definition target_fact_written (s : CrossingState) : bool := target_admitted s.
Definition signature_verified (s : CrossingState) : bool := target_admitted s.
Definition grant_validated (s : CrossingState) : bool := target_admitted s.
Definition target_fact_admitted_by (s : CrossingState) : FedAuthority :=
  if target_admitted s then A_Target else A_None.
Definition payload_authority (s : CrossingState) : FedAuthority := A_Source.
Definition relay_has_payload_access (s : CrossingState) : bool := false.

Record CrossingEnvelope := mkCrossingEnvelope {
  signed_bytes : list N;
  envelope_signature : Signature;
  source_pubkey : PublicKey;
  delegation : option DeviceDelegation;
}.

Inductive CrossingCommand :=
| C_SourceAuthorize
| C_RelayRoute
| C_TargetAdmit (envelope : CrossingEnvelope) (grant : BridgeGrant) (now : N).

Inductive CrossingEvent := E_SourcePermitted | E_Routed | E_TargetFactWritten.

(** The key the envelope must verify under; it always chains to the grant's
    pinned root. *)
Definition verify_key_of `{P256} (envelope : CrossingEnvelope) (grant : BridgeGrant) (now : N)
    : result Rejection PublicKey :=
  match delegation envelope with
  | None =>
      if negb (bool_decide (source_pubkey envelope = source_authority_root_pubkey grant))
      then reject "targetAdmit: envelope source key does not match the grant's pinned source-authority key (INV-21, C-1)"
      else Ok (source_authority_root_pubkey grant)
  | Some d =>
      if negb (bool_decide (authority_root d = source_authority_root_pubkey grant))
      then reject "targetAdmit: device delegation is not issued by the grant's pinned source-authority root (INV-21, C-1)"
      else
        match delegation_verify d now with
        | Err _ => reject "targetAdmit: device delegation is invalid or expired (INV-21)"
        | Ok _ =>
            if negb (bool_decide (source_pubkey envelope = subkey d))
            then reject "targetAdmit: envelope source key is not the delegated device subkey (INV-21)"
            else Ok (subkey d)
        end
  end.

Definition decide `{P256} (state : CrossingState) (command : CrossingCommand)
    : result Rejection (list CrossingEvent) :=
  match command with
  | C_SourceAuthorize => Ok [E_SourcePermitted]
  | C_RelayRoute =>
      if source_permitted state then Ok [E_Routed]
      else reject "relayRoute: crossing not source-permitted (no BYPASS_SOURCE)"
  | C_TargetAdmit envelope grant now =>
      if negb (routed state && source_permitted state)
      then reject "targetAdmit: needs a routed, source-permitted crossing (INV-13)"
      else
        let? verify_key := verify_key_of envelope grant now in
        match verify_signature (signed_bytes envelope) (envelope_signature envelope) verify_key with
        | Ok false => reject "targetAdmit: source signature did not verify (INV-21)"
        | Err _ => reject "targetAdmit: source signature could not be verified (INV-21)"
        | Ok true =>
            if negb (is_valid grant now)
            then reject "targetAdmit: bridge grant is revoked or expired (INV-21)"
            else Ok [E_TargetFactWritten]
        end
  end.

Definition evolve (s : CrossingState) (event : CrossingEvent) : CrossingState :=
  match event with
  | E_SourcePermitted =>
      match phase s with P_Init => mkCrossingState P_SourcePermitted | _ => s end
  | E_Routed =>
      match phase s with P_SourcePermitted => mkCrossingState P_Routed | _ => s end
  | E_TargetFactWritten => mkCrossingState P_Admitted
  end.

Definition crossing_lifecycle `{P256} : Lifecycle := {|
  lc_state := CrossingState;
  lc_command := CrossingCommand;
  lc_event := CrossingEvent;
  lc_default := crossing_default;
  KIND := "federation";
  lc_decide := decide;
  lc_evolve := λ s e, Some (evolve s e);
  lc_snapshot_codec := None;
|}.

#[export] Instance crossing_safe `{P256} : LifecycleSafe crossing_lifecycle.
Proof.
  refine {| lc_inv := λ _ : lc_state crossing_lifecycle, True |}; [done|].
  by apply total_lifecycle_safe with evolve.
Defined.

(** ** Chain of trust *)

(** An envelope authenticates an authority root at a time: signed by the root
    itself, or by a device subkey that a root-signed, unexpired delegation binds
    to that root. *)
Inductive authentic `{P256} (root : PublicKey) (now : N) (env : CrossingEnvelope) : Prop :=
| authentic_root :
    delegation env = None →
    source_pubkey env = root →
    verify_signature (signed_bytes env) (envelope_signature env) root = Ok true →
    authentic root now env
| authentic_device d :
    delegation env = Some d →
    authority_root d = root →
    (now < expiry d)%N →
    verify_signature (delegation_bytes (subkey d) root (expiry d))
      (delegation_signature d) root = Ok true →
    source_pubkey env = subkey d →
    verify_signature (signed_bytes env) (envelope_signature env) (subkey d) = Ok true →
    authentic root now env.

Lemma delegation_verify_ok `{P256} d now :
  delegation_verify d now = Ok () ↔
    (now < expiry d)%N
    ∧ verify_signature (delegation_bytes (subkey d) (authority_root d) (expiry d))
        (delegation_signature d) (authority_root d) = Ok true.
Proof.
  unfold delegation_verify. case_bool_decide; [split; [done|lia]|].
  split; [intros Hv|intros [_ ->]; done]. split; [lia|]. by repeat case_match.
Qed.

Lemma verify_key_authentic `{P256} env grant now :
  (∃ key, verify_key_of env grant now = Ok key
     ∧ verify_signature (signed_bytes env) (envelope_signature env) key = Ok true)
  ↔ authentic (source_authority_root_pubkey grant) now env.
Proof.
  unfold verify_key_of. split.
  - intros (key & Hk & Hv). destruct (delegation env) as [d|] eqn:Hdel.
    + case_bool_decide as Hroot; [|done]. simpl in Hk.
      destruct (delegation_verify d now) as [[]|] eqn:Hd; [|done].
      case_bool_decide as Hsub; [|done]. simplify_eq/=.
      apply delegation_verify_ok in Hd as [Hexp Hsig].
      eapply authentic_device; eauto; by rewrite <- Hroot.
    + case_bool_decide; [|done]. simplify_eq/=. by apply authentic_root.
  - intros [Hdel Hsrc Hv|d Hdel Hroot Hexp Hsig Hsrc Hv]; rewrite Hdel.
    + exists (source_authority_root_pubkey grant). by rewrite Hsrc, bool_decide_eq_true_2.
    + exists (subkey d). rewrite Hroot, bool_decide_eq_true_2 by done. simpl.
      rewrite (proj2 (delegation_verify_ok d now)) by (by rewrite Hroot).
      by rewrite Hsrc, bool_decide_eq_true_2.
Qed.

(** The target's decision, in terms of the authenticity of the envelope. *)
Lemma crossing_decide_admit `{P256} s env grant now :
  (decide s (C_TargetAdmit env grant now) = Ok [E_TargetFactWritten] ↔
     routed s = true ∧ authentic (source_authority_root_pubkey grant) now env
     ∧ grant_active grant = true ∧ (now < grant_expiry grant)%N)
  ∧ (decide s (C_TargetAdmit env grant now) = Ok [E_TargetFactWritten]
     ∨ ∃ r, decide s (C_TargetAdmit env grant now) = Err r).
Proof.
  assert (routed s = true → source_permitted s = true) as Hperm
    by (by destruct s as [[]]).
  rewrite <- verify_key_authentic. simpl. split.
  - split.
    + intros Hd. repeat split_next Hd. simplify_eq.
      destruct (routed s); [|done]. unfold is_valid in *. guards. naive_solver.
    + intros (Hr & (key & Hk & Hv) & Ha & Hexp). rewrite Hr, (Hperm Hr), Hk, Hv. simpl.
      unfold is_valid. by rewrite Ha, bool_decide_eq_true_2.
  - unfold reject. repeat case_match; eauto.
Qed.

(** The events a session admits move the phase forward one at a time. *)
Lemma crossing_progress `{P256} s c es s' :
  apply crossing_lifecycle s c = Applied es s' →
  phase s' = phase s
  ∨ (phase s = P_Init ∧ c = C_SourceAuthorize)
  ∨ (phase s = P_SourcePermitted ∧ c = C_RelayRoute)
  ∨ (routed s = true ∧ ∃ env grant now, c = C_TargetAdmit env grant now
       ∧ decide s c = Ok [E_TargetFactWritten]).
Proof.
  intros [Hd He]%apply_admitted. simpl in Hd, He. rewrite foldM_total in He. injection He as <-.
  destruct c as [| |env grant now].
  - simpl in Hd. simplify_eq/=. destruct s as [[]]; simpl; auto.
  - simpl in Hd. destruct s as [[]]; simpl in Hd; simplify_eq/=; auto.
  - destruct (crossing_decide_admit s env grant now) as [Hiff [Hok|[r Hr]]]; [|congruence].
    pose proof (proj1 Hiff Hok) as [? _]. eauto 10.
Qed.

(** ** Properties *)

(** C8: SIGNATURE_VERIFIED_BEFORE_ADMISSION, SOURCE_KEY_PINNED and
    GRANT_NOT_EXPIRED_BEFORE_ADMISSION (INV-21). The target writes its fact
    exactly when the crossing was routed, the envelope authenticates the grant's
    pinned source root (directly or through an unexpired root-signed device
    delegation), and the grant is active and unexpired; otherwise it refuses. *)
Theorem crossing_admission_iff `{P256} s env grant now :
  (decide s (C_TargetAdmit env grant now) = Ok [E_TargetFactWritten] ↔
     routed s = true ∧ authentic (source_authority_root_pubkey grant) now env
     ∧ grant_active grant = true ∧ (now < grant_expiry grant)%N)
  ∧ (decide s (C_TargetAdmit env grant now) = Ok [E_TargetFactWritten]
     ∨ ∃ r, decide s (C_TargetAdmit env grant now) = Err r).
Proof. apply crossing_decide_admit. Qed.

(** CROSSING_REQUIRES_BOTH (INV-13). In any session of requests to a crossing,
    a written target fact was preceded by the source's authorization and the
    relay's routing, and was admitted on an envelope that authenticates the
    source root pinned in an active, unexpired grant; the fact's authority is the
    target, never the relay. *)
Theorem crossing_requires_both `{P256} (cs : list CrossingCommand) :
  ∃ log s, session crossing_lifecycle cs = Some (log, s)
    ∧ (target_fact_written s = true →
        target_fact_admitted_by s = A_Target
        ∧ ∃ before env grant now after, cs = before ++ C_TargetAdmit env grant now :: after
          ∧ C_SourceAuthorize ∈ before ∧ C_RelayRoute ∈ before
          ∧ authentic (source_authority_root_pubkey grant) now env
          ∧ grant_active grant = true ∧ (now < grant_expiry grant)%N)
    ∧ (source_permitted s = true → C_SourceAuthorize ∈ cs)
    ∧ (routed s = true → C_RelayRoute ∈ cs).
Proof.
  induction cs as [|c cs IH] using rev_ind; [by exists [], crossing_default|].
  destruct IH as (log & s & Hs & Hfact & Hperm & Hrt). unfold session in *.
  rewrite drive_app, Hs. simpl.
  destruct (apply crossing_lifecycle s c) as [r|es s'|] eqn:Ha.
  3: { by destruct (apply_no_panic crossing_lifecycle s c). }
  { exists log, s. split_and!; [done| |eauto with members..]. intros Hw.
    destruct (Hfact Hw) as (? & before & env & grant & now & after & -> & ?).
    split; [done|]. exists before, env, grant, now, (after ++ [c]).
    by rewrite <- app_assoc. }
  exists (log ++ es), s'. split; [done|].
  destruct (crossing_progress s c es s' Ha)
    as [Hp|[[Hp ->]|[[Hp ->]|(Hr & env & grant & now & -> & Hd)]]].
  - assert (s' = s) as -> by (destruct s, s'; simpl in *; congruence).
    split_and!; [|eauto with members..]. intros Hw.
    destruct (Hfact Hw) as (? & before & env & grant & now & after & -> & ?).
    split; [done|]. exists before, env, grant, now, (after ++ [c]). by rewrite <- app_assoc.
  - destruct s as [p]; simpl in Hp; subst p. apply apply_admitted in Ha as [Hd He].
    simpl in Hd. simplify_eq/=. split_and!; try done. eauto with members.
  - destruct s as [p]; simpl in Hp; subst p. apply apply_admitted in Ha as [Hd He].
    simpl in Hd. simplify_eq/=. split_and!; try done; eauto with members.
  - apply apply_admitted in Ha as [Hd' He].
    pose proof (proj1 (proj1 (crossing_decide_admit s env grant now)) Hd) as (_ & ? & ? & ?).
    assert (es = [E_TargetFactWritten]) as ->
      by (change (decide s (C_TargetAdmit env grant now) = Ok es) in Hd'; congruence).
    assert (source_permitted s = true) by (by destruct s as [[]]).
    simpl in He. simplify_eq/=. split_and!; [|eauto with members..]. intros _.
    split; [done|]. exists cs, env, grant, now, []. split_and!; auto.
Qed.

(** Two texts [head root ::sub= subkey label number] with the same head and
    label agree on the three fields, because the keys hold no colon. *)
Lemma keyed_text_inj head label (k1 k2 r1 r2 : PublicKey) (n1 n2 : N) :
  contains_char ":"%char (as_str k1) = false → contains_char ":"%char (as_str k2) = false →
  contains_char ":"%char (as_str r1) = false → contains_char ":"%char (as_str r2) = false →
  head +:+ as_str r1 +:+ "::sub=" +:+ as_str k1 +:+ String ":"%char label +:+ pretty n1
  = head +:+ as_str r2 +:+ "::sub=" +:+ as_str k2 +:+ String ":"%char label +:+ pretty n2 →
  k1 = k2 ∧ r1 = r2 ∧ n1 = n2.
Proof.
  intros Hk1 Hk2 Hr1 Hr2 Heq. apply (inj (String.append _)) in Heq.
  apply (append_sep_inj ":"%char) in Heq as [Hr Heq]; [|done..].
  injection Heq as Heq. apply (append_sep_inj ":"%char) in Heq as [Hk Heq]; [|done..].
  apply (inj (String.append _)), (inj pretty) in Heq.
  destruct k1, k2, r1, r2; simpl in *; by subst.
Qed.

(** The canonical delegation text binds the root, the subkey and the expiry
    unambiguously (keys are hex, so they hold no colon), and no delegation can be
    replayed as a revocation. *)
Theorem delegation_bytes_binding (k1 k2 r1 r2 : PublicKey) (e1 e2 : N) :
  contains_char ":"%char (as_str k1) = false → contains_char ":"%char (as_str k2) = false →
  contains_char ":"%char (as_str r1) = false → contains_char ":"%char (as_str r2) = false →
  (delegation_bytes k1 r1 e1 = delegation_bytes k2 r2 e2 → k1 = k2 ∧ r1 = r2 ∧ e1 = e2)
  ∧ (revocation_bytes k1 r1 e1 = revocation_bytes k2 r2 e2 → k1 = k2 ∧ r1 = r2 ∧ e1 = e2)
  ∧ delegation_bytes k1 r1 e1 ≠ revocation_bytes k2 r2 e2.
Proof.
  intros Hk1 Hk2 Hr1 Hr2. split_and!.
  - intros Heq%(inj bytes_of). by eapply keyed_text_inj.
  - intros Heq%(inj bytes_of). by eapply keyed_text_inj.
  - by intros Heq%(inj bytes_of).
Qed.

Lemma delegation_bytes_binding_witness :
  delegation_bytes (mkId "02ab") (mkId "03cd") 7 ≠ delegation_bytes (mkId "02ab") (mkId "03cd") 8.
Proof.
  intros Heq.
  by destruct (proj1 (delegation_bytes_binding (mkId "02ab") (mkId "02ab") (mkId "03cd")
    (mkId "03cd") 7 8 eq_refl eq_refl eq_refl eq_refl) Heq) as (_ & _ & ?).
Defined.
