(* ===== verification/GaugeVault.v ===== *)
(** * GaugeVault credential standing

    [crates/core/src/gaugevault.rs]: the order of candidates, activation,
    rotation, revocation and erasure of one credential, and the ledger of its
    one-use final effects. *)

From stdpp Require Import fin_maps.
From S2P Require Import Prelude Ids Lifecycle.

Record Binding := mkBinding {
  authority : AuthorityId;
  owner_scope : ScopeId;
  credential_scope : ScopeId;
  credential : VaultCredentialId;
}.

#[export] Instance Binding_eq_dec : EqDecision Binding.
Proof. solve_decision. Defined.

Inductive Status := Absent | Pending | Active | Revoked | ErasureFenced | Erased.

#[export] Instance Status_eq_dec : EqDecision Status.
Proof. solve_decision. Defined.

Inductive Candidate :=
| AwaitingStore (deadline : N)
| Stored (reference : VaultBackingVersionId) (deadline : N)
| Cand_Active (reference : VaultBackingVersionId)
| Retired (reference : VaultBackingVersionId)
| CleanupRequired (reference : option VaultBackingVersionId)
| Cleaned (evidence : ObservationId) (reference : option VaultBackingVersionId).

Definition reference (c : Candidate) : option VaultBackingVersionId :=
  match c with
  | Stored reference _ | Cand_Active reference | Retired reference => Some reference
  | CleanupRequired (Some reference) | Cleaned _ (Some reference) => Some reference
  | _ => None
  end.

Inductive UseMode := AuthenticateEffect | DeliverMaterial.

Inductive CredentialKind :=
| Bearer | Basic | Raw | HmacSha256 | Ed25519 | AwsSigv4 | JwtRs256 | MtlsClient.

Record Effect := mkEffect {
  subject : VaultSubjectId;
  operation_id : VaultOperationId;
  target : VaultTargetId;
  mode : UseMode;
  request_evidence : ObservationId;
}.

Inductive DispatchPhase := D_Dispatched | D_Unknown | D_Settled.

#[export] Instance DispatchPhase_eq_dec : EqDecision DispatchPhase.
Proof. solve_decision. Defined.

Inductive Outcome := EffectObserved | NoEffectObserved.

Record DispatchRecord := mkDispatchRecord {
  effect : Effect;
  dispatch_reference : VaultBackingVersionId;
  grant_evidence : ObservationId;
  fence_evidence : ObservationId;
  phase : DispatchPhase;
  outcome : option Outcome;
  outcome_evidence : option ObservationId;
}.

#[export] Instance DispatchRecord_eta : Eta DispatchRecord := mkEta (λ d,
  mkDispatchRecord (effect d) (dispatch_reference d) (grant_evidence d) (fence_evidence d)
    (phase d) (outcome d) (outcome_evidence d)).

Record State := mkState {
  binding : option Binding;
  revision : N; (* u64 *)
  last_at : N; (* u64 *)
  status : Status;
  tenant_prefix : option VaultTenantPrefixId;
  candidate_storage_names : gmap VaultCandidateId VaultStorageNameId;
  candidate_kinds : gmap VaultCandidateId CredentialKind;
  candidates : gmap VaultCandidateId Candidate;
  intake_markers : gmap VaultCandidateId VaultIntakeMarkerId;
  current : option VaultCandidateId;
  used_references : gset VaultBackingVersionId;
  dispatches : gmap VaultDispatchId DispatchRecord;
}.

#[export] Instance State_eta : Eta State := mkEta (λ s,
  mkState (binding s) (revision s) (last_at s) (status s) (tenant_prefix s)
    (candidate_storage_names s) (candidate_kinds s) (candidates s) (intake_markers s)
    (current s) (used_references s) (dispatches s)).

Definition state_default : State :=
  mkState None 0 0 Absent None ∅ ∅ ∅ ∅ None ∅ ∅.

(** ** Projections *)

Definition active_kind (s : State) : option CredentialKind :=
  if negb (bool_decide (status s = Active)) then None
  else
    current ← current s;
    candidate ← candidates s !! current;
    match candidate with
    | Cand_Active _ => candidate_kinds s !! current
    | _ => None
    end.

Definition active_reference (s : State) : option VaultBackingVersionId :=
  if negb (bool_decide (status s = Active)) then None
  else
    _ ← active_kind s;
    current ← current s;
    candidate ← candidates s !! current;
    match candidate with
    | Cand_Active reference => Some reference
    | _ => None
    end.

Record AdministrationStatus := mkAdministrationStatus {
  admin_status : Status;
  admin_revision : N;
  admin_last_at : N;
  pending_intakes : nat;
  cleanup_required : nat;
  unsettled_uses : nat;
  unknown_outcomes : nat;
}.

Definition count {A} (p : A → bool) (l : list A) : nat := length (filter (λ x, p x = true) l).

Definition administration_status (s : State) : AdministrationStatus :=
  mkAdministrationStatus (status s) (revision s) (last_at s)
    (count (λ candidate, match candidate with AwaitingStore _ | Stored _ _ => true | _ => false end)
       (btree_values (candidates s)))
    (count (λ candidate, match candidate with CleanupRequired _ => true | _ => false end)
       (btree_values (candidates s)))
    (count (λ dispatch, negb (bool_decide (phase dispatch = D_Settled)))
       (btree_values (dispatches s)))
    (count (λ dispatch, bool_decide (phase dispatch = D_Unknown))
       (btree_values (dispatches s))).

(** ** Commands and events *)

Inductive Capability :=
| Manage | IntakeReceipt | ConfirmCleanup | OwnerClosure | ObserveDeadline
| AdmitFinalUse | ConfirmFinalUse.

#[export] Instance Capability_eq_dec : EqDecision Capability.
Proof. solve_decision. Defined.

Inductive Operation :=
| Create (tenant_prefix : VaultTenantPrefixId)
| BeginCandidate (id : VaultCandidateId) (kind : CredentialKind) (marker : VaultIntakeMarkerId)
    (storage_name : VaultStorageNameId) (deadline : N)
| RecordStored (id : VaultCandidateId) (reference : VaultBackingVersionId)
| Activate (id : VaultCandidateId)
| CancelCandidate (id : VaultCandidateId)
| ExpireCandidate (id : VaultCandidateId)
| RecordCleaned (id : VaultCandidateId) (evidence : ObservationId)
| Revoke
| FenceErasure
| ConfirmErasure (evidence : ObservationId)
| Dispatch (id : VaultDispatchId) (effect : Effect) (expected_reference : VaultBackingVersionId)
    (grant_evidence fence_evidence : ObservationId)
| OutcomeUnknown (id : VaultDispatchId) (evidence : ObservationId)
| SettleDispatch (id : VaultDispatchId) (outcome : Outcome) (evidence : ObservationId).

Record Command := mkCommand {
  cmd_binding : Binding;
  capability : Capability;
  expected_revision : N;
  now : N;
  operation : Operation;
}.

Inductive Change :=
| Created (tenant_prefix : VaultTenantPrefixId)
| CandidateBegun (id : VaultCandidateId) (kind : CredentialKind) (marker : VaultIntakeMarkerId)
    (storage_name : VaultStorageNameId) (deadline : N)
| CandidateStored (id : VaultCandidateId) (reference : VaultBackingVersionId)
| CandidateCleanupRequired (id : VaultCandidateId) (reference : option VaultBackingVersionId)
| CandidateActivated (id : VaultCandidateId)
| CandidateCleaned (id : VaultCandidateId) (evidence : ObservationId)
| Ch_Revoked
| Ch_ErasureFenced
| Ch_Erased (evidence : ObservationId)
| Dispatched (id : VaultDispatchId) (effect : Effect) (reference : VaultBackingVersionId)
    (grant_evidence fence_evidence : ObservationId)
| DispatchOutcomeUnknown (id : VaultDispatchId) (evidence : ObservationId)
| DispatchSettled (id : VaultDispatchId) (outcome : Outcome) (evidence : ObservationId).

Record Event := mkEvent {
  ev_binding : Binding;
  at_ : N;
  change : Change;
}.

(** ** Canonical names *)

(** [byte.is_ascii_digit() || (b'a'..=b'f').contains(byte)] *)
Definition lower_hex_byte (byte : N) : bool :=
  bool_decide (48 ≤ byte ≤ 57)%N || bool_decide (97 ≤ byte ≤ 102)%N.

(** The value is given by its bytes. *)
Definition canonical_hex_128 (value : list N) : bool :=
  bool_decide (length value = 32) && forallb lower_hex_byte value.

Definition canonical_intake_marker (marker : VaultIntakeMarkerId) : bool :=
  let bytes := bytes_of (as_str marker) in
  bool_decide (length bytes = 32) && forallb lower_hex_byte bytes.

(** [str::strip_prefix] on the bytes of the strings. *)
Fixpoint strip_prefix (prefix bytes : list N) : option (list N) :=
  match prefix, bytes with
  | [], _ => Some bytes
  | p :: prefix, b :: bytes => if (p =? b)%N then strip_prefix prefix bytes else None
  | _ :: _, [] => None
  end.

Definition candidate_name_matches_prefix (name : VaultStorageNameId)
    (prefix : VaultTenantPrefixId) : bool :=
  match
    rest ← strip_prefix (bytes_of "gv-") (bytes_of (as_str name));
    rest ← strip_prefix (bytes_of (as_str prefix)) rest;
    strip_prefix (bytes_of "-") rest
  with
  | Some rest => canonical_hex_128 rest
  | None => false
  end.

(** ** The decision

    A guard that fails falls through to the last arm of the source's [match],
    which refuses; here the guarded arms yield [None]. *)

Definition guarded {A} (guard : bool) (a : A) : option A := if guard then Some a else None.

Definition open_ (s : Status) : bool :=
  match s with Pending | Active => true | _ => false end.

Definition contains_key {K V} `{Countable K} (m : gmap K V) (k : K) : bool :=
  bool_decide (is_Some (m !! k)).

(** [map.values().any(|used| used == &v)] *)
Definition any_value {K V} `{Countable K, KeyOrd K, EqDecision V} (m : gmap K V) (v : V) : bool :=
  existsb (λ used, bool_decide (used = v)) (btree_values m).

Definition intake_change (state : State) (cap : Capability) (now : N) (op : Operation)
    : option Change :=
  match op with
  | Create tenant_prefix =>
      guarded (bool_decide (cap = Manage) && bool_decide (status state = Absent)
               && canonical_hex_128 (bytes_of (as_str tenant_prefix)))
        (Created tenant_prefix)
  | BeginCandidate id kind marker storage_name deadline =>
      guarded (bool_decide (cap = Manage) && open_ (status state)
               && bool_decide (now < deadline)%N
               && negb (contains_key (candidates state) id)
               && canonical_intake_marker marker
               && negb (any_value (intake_markers state) marker)
               && match tenant_prefix state with
                  | Some prefix => candidate_name_matches_prefix storage_name prefix
                  | None => false
                  end
               && negb (any_value (candidate_storage_names state) storage_name))
        (CandidateBegun id kind marker storage_name deadline)
  | RecordStored id reference =>
      guarded (bool_decide (cap = IntakeReceipt) && contains_key (candidate_kinds state) id
               && match candidates state !! id with
                  | Some (AwaitingStore _ | CleanupRequired None) => true
                  | _ => false
                  end
               && negb (bool_decide (status state = Erased))
               && negb (bool_decide (reference ∈ used_references state)))
        (match candidates state !! id with
         | Some (AwaitingStore deadline) =>
             if bool_decide (now < deadline)%N && open_ (status state)
             then CandidateStored id reference
             else CandidateCleanupRequired id (Some reference)
         | _ => CandidateCleanupRequired id (Some reference)
         end)
  | _ => None
  end.

Definition candidate_change (state : State) (cap : Capability) (now : N) (op : Operation)
    : option Change :=
  match op with
  | Activate id =>
      guarded (bool_decide (cap = Manage) && contains_key (candidate_kinds state) id
               && open_ (status state)
               && match candidates state !! id with
                  | Some (Stored _ deadline) => bool_decide (now < deadline)%N
                  | _ => false
                  end)
        (CandidateActivated id)
  | CancelCandidate id =>
      guarded (bool_decide (cap = Manage)
               && match candidates state !! id with
                  | Some (AwaitingStore _ | Stored _ _) => true
                  | _ => false
                  end)
        (CandidateCleanupRequired id (candidates state !! id ≫= reference))
  | ExpireCandidate id =>
      guarded (bool_decide (cap = ObserveDeadline)
               && match candidates state !! id with
                  | Some (AwaitingStore deadline | Stored _ deadline) =>
                      bool_decide (deadline ≤ now)%N
                  | _ => false
                  end)
        (CandidateCleanupRequired id (candidates state !! id ≫= reference))
  | RecordCleaned id evidence =>
      guarded (bool_decide (cap = ConfirmCleanup)
               && match candidates state !! id with
                  | Some (CleanupRequired _ | Retired _) => true
                  | _ => false
                  end)
        (CandidateCleaned id evidence)
  | _ => None
  end.

Definition is_cleaned (c : Candidate) : bool :=
  match c with Cleaned _ _ => true | _ => false end.

Definition standing_change (state : State) (cap : Capability) (op : Operation) : option Change :=
  match op with
  | Revoke => guarded (bool_decide (cap = Manage) && open_ (status state)) Ch_Revoked
  | FenceErasure =>
      guarded (match cap with Manage | OwnerClosure => true | _ => false end
               && match status state with Pending | Active | Revoked => true | _ => false end)
        Ch_ErasureFenced
  | ConfirmErasure evidence =>
      guarded (bool_decide (cap = ConfirmCleanup) && bool_decide (status state = ErasureFenced)
               && forallb is_cleaned (btree_values (candidates state)))
        (Ch_Erased evidence)
  | _ => None
  end.

Definition dispatch_change (state : State) (cap : Capability) (op : Operation) : option Change :=
  match op with
  | Dispatch id effect expected_reference grant_evidence fence_evidence =>
      guarded (bool_decide (cap = AdmitFinalUse) && bool_decide (status state = Active)
               && negb (contains_key (dispatches state) id)
               && bool_decide (active_reference state = Some expected_reference))
        (Dispatched id effect expected_reference grant_evidence fence_evidence)
  | OutcomeUnknown id evidence =>
      guarded (bool_decide (cap = ConfirmFinalUse)
               && match phase <$> dispatches state !! id with
                  | Some D_Dispatched => true
                  | _ => false
                  end)
        (DispatchOutcomeUnknown id evidence)
  | SettleDispatch id outcome evidence =>
      guarded (bool_decide (cap = ConfirmFinalUse)
               && match phase <$> dispatches state !! id with
                  | Some (D_Dispatched | D_Unknown) => true
                  | _ => false
                  end)
        (DispatchSettled id outcome evidence)
  | _ => None
  end.

Definition operation_change (state : State) (cap : Capability) (now : N) (op : Operation)
    : option Change :=
  match op with
  | Create _ | BeginCandidate _ _ _ _ _ | RecordStored _ _ => intake_change state cap now op
  | Activate _ | CancelCandidate _ | ExpireCandidate _ | RecordCleaned _ _ =>
      candidate_change state cap now op
  | Revoke | FenceErasure | ConfirmErasure _ => standing_change state cap op
  | Dispatch _ _ _ _ _ | OutcomeUnknown _ _ | SettleDispatch _ _ _ =>
      dispatch_change state cap op
  end.

Definition decide (state : State) (command : Command) : result Rejection (list Event) :=
  if negb (bool_decide (revision state = expected_revision command))
  then reject "GaugeVault: stale revision"
  else if bool_decide (now command = 0%N) || bool_decide (now command < last_at state)%N
  then reject "GaugeVault: invalid or stale observation time"
  else if match binding state with
          | Some binding => negb (bool_decide (binding = cmd_binding command))
          | None => false
          end
  then reject "GaugeVault: wrong authority, owner or credential"
  else match operation_change state (capability command) (now command) (operation command) with
       | Some change => Ok [mkEvent (cmd_binding command) (now command) change]
       | None => reject "GaugeVault: operation lacks standing or capability"
       end.

(** ** The fold *)

(** [next.candidates[&id].reference().expect(..)] *)
Definition expect_reference (candidates : gmap VaultCandidateId Candidate) (id : VaultCandidateId)
    : option VaultBackingVersionId := candidates !! id ≫= reference.

(** [if let Some(old) = next.current.take() { .. Retired .. }] *)
Definition retire_current (next : State) : option State :=
  match current next with
  | Some old =>
      reference ← expect_reference (candidates next) old;
      Some (next <| current := None |>
                 <| candidates := <[old := Retired reference]> (candidates next) |>)
  | None => Some next
  end.

Definition evolve_candidate (next : State) (c : Change) : option State :=
  match c with
  | CandidateBegun id kind marker storage_name deadline =>
      Some (next <| intake_markers := <[id := marker]> (intake_markers next) |>
                 <| candidate_storage_names :=
                      <[id := storage_name]> (candidate_storage_names next) |>
                 <| candidate_kinds := <[id := kind]> (candidate_kinds next) |>
                 <| candidates := <[id := AwaitingStore deadline]> (candidates next) |>)
  | CandidateStored id reference =>
      match candidates next !! id with
      | Some (AwaitingStore deadline) =>
          Some (next <| used_references := {[reference]} ∪ used_references next |>
                     <| candidates := <[id := Stored reference deadline]> (candidates next) |>)
      | _ => None
      end
  | CandidateCleanupRequired id reference =>
      let used := match reference with
                  | Some reference => {[reference]} ∪ used_references next
                  | None => used_references next
                  end in
      Some (next <| used_references := used |>
                 <| candidates := <[id := CleanupRequired reference]> (candidates next) |>)
  | CandidateActivated id =>
      next ← retire_current next;
      reference ← expect_reference (candidates next) id;
      Some (next <| candidates := <[id := Cand_Active reference]> (candidates next) |>
                 <| current := Some id |> <| status := Active |>)
  | CandidateCleaned id evidence =>
      let reference := candidates next !! id ≫= reference in
      Some (next <| candidate_kinds := delete id (candidate_kinds next) |>
                 <| candidates := <[id := Cleaned evidence reference]> (candidates next) |>)
  | _ => Some next
  end.

Definition fence_candidate (candidate : Candidate) : Candidate :=
  if is_cleaned candidate then candidate else CleanupRequired (reference candidate).

Definition evolve_standing (next : State) (c : Change) : option State :=
  match c with
  | Created tenant_prefix =>
      Some (next <| GaugeVault.tenant_prefix := Some tenant_prefix |> <| status := Pending |>)
  | Ch_Revoked => retire_current (next <| status := Revoked |>)
  | Ch_ErasureFenced =>
      Some (next <| status := ErasureFenced |> <| current := None |>
                 <| candidates := fence_candidate <$> candidates next |>)
  | Ch_Erased _ => Some (next <| status := Erased |>)
  | _ => Some next
  end.

Definition evolve_dispatch (next : State) (c : Change) : option State :=
  match c with
  | Dispatched id effect reference grant_evidence fence_evidence =>
      Some (next <| dispatches :=
              <[id := mkDispatchRecord effect reference grant_evidence fence_evidence
                        D_Dispatched None None]> (dispatches next) |>)
  | DispatchOutcomeUnknown id evidence =>
      dispatch ← dispatches next !! id;
      Some (next <| dispatches :=
              <[id := dispatch <| phase := D_Unknown |> <| outcome_evidence := Some evidence |>]>
                (dispatches next) |>)
  | DispatchSettled id outcome evidence =>
      dispatch ← dispatches next !! id;
      Some (next <| dispatches :=
              <[id := dispatch <| phase := D_Settled |> <| GaugeVault.outcome := Some outcome |>
                               <| outcome_evidence := Some evidence |>]> (dispatches next) |>)
  | _ => Some next
  end.

Definition evolve_change (next : State) (c : Change) : option State :=
  match c with
  | CandidateBegun _ _ _ _ _ | CandidateStored _ _ | CandidateCleanupRequired _ _
  | CandidateActivated _ | CandidateCleaned _ _ => evolve_candidate next c
  | Created _ | Ch_Revoked | Ch_ErasureFenced | Ch_Erased _ => evolve_standing next c
  | Dispatched _ _ _ _ _ | DispatchOutcomeUnknown _ _ | DispatchSettled _ _ _ =>
      evolve_dispatch next c
  end.

Definition evolve (state : State) (event : Event) : option State :=
  if match binding state with
     | Some binding => bool_decide (binding = ev_binding event)
     | None => true
     end
  then evolve_change (state <| binding := Some (ev_binding event) |>
                            <| revision := u64_add (revision state) 1 |>
                            <| last_at := at_ event |>) (change event)
  else None.

(** The checkpoint codec's CBOR functions belong to the [serde] crates. *)
Definition vault_lifecycle (encode : State → option string) (decode : string → option State)
    : Lifecycle := {|
  lc_state := State;
  lc_command := Command;
  lc_event := Event;
  lc_default := state_default;
  KIND := "gaugevault_credential";
  lc_decide := decide;
  lc_evolve := evolve;
  lc_snapshot_codec := Some (serde_codec encode decode "gaugevault_credential" 2);
|}.

(** ** Invariant *)

(** The exact backing reference a candidate is bound to. *)
Definition cand_ref (m : gmap VaultCandidateId Candidate) (id : VaultCandidateId)
    : option VaultBackingVersionId := m !! id ≫= reference.

(** The used references are exactly those the candidates are bound to, and no
    reference belongs to two candidates. *)
Definition refs_ok (m : gmap VaultCandidateId Candidate) (used : gset VaultBackingVersionId) : Prop :=
  (∀ r, r ∈ used ↔ ∃ id, cand_ref m id = Some r)
  ∧ ∀ i j r, cand_ref m i = Some r → cand_ref m j = Some r → i = j.

(** [cur] is the one active candidate, if there is one. *)
Definition active_ok (m : gmap VaultCandidateId Candidate) (cur : option VaultCandidateId) : Prop :=
  ∀ id, cur = Some id ↔ ∃ r, m !! id = Some (Cand_Active r).

Definition map_inj {K V} `{Countable K} (m : gmap K V) : Prop :=
  ∀ i j v, m !! i = Some v → m !! j = Some v → i = j.

Definition is_fenced (c : Candidate) : bool :=
  match c with CleanupRequired _ | Cleaned _ _ => true | _ => false end.

(** What each phase of a dispatch records. *)
Definition dispatch_ok (d : DispatchRecord) : Prop :=
  match phase d with
  | D_Dispatched => outcome d = None ∧ outcome_evidence d = None
  | D_Unknown => outcome d = None ∧ is_Some (outcome_evidence d)
  | D_Settled => is_Some (outcome d) ∧ is_Some (outcome_evidence d)
  end.

Record vault_inv (s : State) : Prop := {
  inv_current : active_ok (candidates s) (current s);
  inv_active : is_Some (current s) ↔ status s = Active;
  inv_absent : status s = Absent → candidates s = ∅;
  inv_prefix : status s ≠ Absent → ∃ p, tenant_prefix s = Some p
    ∧ ∀ id n, candidate_storage_names s !! id = Some n → candidate_name_matches_prefix n p = true;
  inv_kinds : ∀ id, is_Some (candidate_kinds s !! id)
                    ↔ ∃ c, candidates s !! id = Some c ∧ is_cleaned c = false;
  inv_markers : dom (intake_markers s) = dom (candidates s) ∧ map_inj (intake_markers s);
  inv_names : dom (candidate_storage_names s) = dom (candidates s)
              ∧ map_inj (candidate_storage_names s);
  inv_refs : refs_ok (candidates s) (used_references s);
  inv_fenced : status s = ErasureFenced → ∀ id c, candidates s !! id = Some c → is_fenced c = true;
  inv_erased : status s = Erased → ∀ id c, candidates s !! id = Some c → is_cleaned c = true;
  inv_dispatches : ∀ id d, dispatches s !! id = Some d →
    dispatch_reference d ∈ used_references s ∧ dispatch_ok d;
}.

Lemma cand_ref_insert m id c j :
  cand_ref (<[id:=c]> m) j = if bool_decide (id = j) then reference c else cand_ref m j.
Proof.
  unfold cand_ref. case_bool_decide; subst; [by rewrite lookup_insert_eq|].
  by rewrite lookup_insert_ne.
Qed.

Lemma refs_ok_ext m m' used :
  (∀ id, cand_ref m' id = cand_ref m id) → refs_ok m used → refs_ok m' used.
Proof. intros He [Hu Hi]. split; setoid_rewrite He; done. Qed.

Lemma refs_ok_same m used id c :
  cand_ref m id = reference c → refs_ok m used → refs_ok (<[id:=c]> m) used.
Proof.
  intros Hc. apply refs_ok_ext. intros j. rewrite cand_ref_insert.
  case_bool_decide; by subst.
Qed.

Lemma refs_ok_fresh m used id c r :
  cand_ref m id = None → reference c = Some r → r ∉ used → refs_ok m used →
  refs_ok (<[id:=c]> m) ({[r]} ∪ used).
Proof.
  intros Hn Hc Hr [Hu Hi]. split.
  - intros r'. rewrite elem_of_union, elem_of_singleton, Hu. split.
    + intros [->|[j Hj]].
      * exists id. by rewrite cand_ref_insert, bool_decide_eq_true_2.
      * exists j. rewrite cand_ref_insert. by case_bool_decide; subst; [congruence|].
    + intros [j Hj]. rewrite cand_ref_insert in Hj. case_bool_decide; simplify_eq; eauto.
  - intros i j r'. rewrite !cand_ref_insert. repeat case_bool_decide; subst; [done| | |by eauto].
    + intros ? Hj. destruct Hr. apply Hu. exists j. congruence.
    + intros Hj ?. destruct Hr. apply Hu. exists i. congruence.
Qed.

Lemma active_ok_insert m cur id c :
  (∀ r, m !! id ≠ Some (Cand_Active r)) → (∀ r, c ≠ Cand_Active r) →
  active_ok m cur → active_ok (<[id:=c]> m) cur.
Proof.
  intros Hm Hc Ha j. rewrite (Ha j).
  destruct (base.decide (id = j)) as [<-|]; [rewrite lookup_insert_eq|by rewrite lookup_insert_ne].
  naive_solver.
Qed.

Lemma map_inj_insert {K V} `{Countable K, KeyOrd K, EqDecision V} (m : gmap K V) k v :
  any_value m v = false → map_inj m → map_inj (<[k:=v]> m).
Proof.
  intros Hany Hinj i j w.
  assert (∀ x, m !! x ≠ Some v) as Hfresh.
  { intros x Hx. apply not_true_iff_false in Hany. destruct Hany.
    apply existsb_exists. exists v. rewrite bool_decide_eq_true. split; [|done].
    apply list_elem_of_In, elem_of_btree_values. eauto. }
  rewrite !lookup_insert_Some. naive_solver.
Qed.

Lemma guarded_Some {A} g (a b : A) : guarded g a = Some b ↔ g = true ∧ a = b.
Proof. unfold guarded. destruct g; naive_solver. Qed.

Ltac lookup_cases :=
  repeat match goal with
  | H : <[?i:=_]> _ !! ?j = Some _ |- _ =>
      apply lookup_insert_Some in H as [[? ?]|[? H]]; simplify_eq/=
  end.

Lemma dom_insert_known {V W} (m : gmap VaultCandidateId V) (k : gmap VaultCandidateId W) id v :
  dom k = dom m → is_Some (m !! id) → dom k = dom (<[id:=v]> m).
Proof. intros Hd Hid%elem_of_dom. rewrite dom_insert_L, Hd. set_solver. Qed.

(** A candidate moves from one non-active standing to another. *)
Lemma vault_inv_update s id c c' used' :
  vault_inv s → candidates s !! id = Some c →
  (∀ r, c ≠ Cand_Active r) → (∀ r, c' ≠ Cand_Active r) →
  is_cleaned c = false → is_cleaned c' = false →
  (status s = ErasureFenced → is_fenced c' = true) →
  refs_ok (<[id:=c']> (candidates s)) used' → used_references s ⊆ used' →
  vault_inv (s <| used_references := used' |> <| candidates := <[id := c']> (candidates s) |>).
Proof.
  intros [] Hc Hna Hna' Hcl Hcl' Hf Hrefs Hsub.
  assert (is_Some (candidates s !! id)) as Hsome by eauto.
  split; simpl; try done.
  - apply active_ok_insert; naive_solver.
  - intros Hs. rewrite inv_absent0 in Hc by done. by rewrite lookup_empty in Hc.
  - intros j. rewrite inv_kinds0. destruct (base.decide (id = j)) as [<-|].
    + rewrite lookup_insert_eq. naive_solver.
    + by rewrite lookup_insert_ne.
  - destruct inv_markers0. split; [|done]. by apply dom_insert_known.
  - destruct inv_names0. split; [|done]. by apply dom_insert_known.
  - intros Hs j d Hj. lookup_cases; eauto.
  - intros Hs. specialize (inv_erased0 Hs id c Hc). congruence.
  - intros j d Hd. destruct (inv_dispatches0 j d Hd). set_solver.
Qed.

Lemma vault_inv_cleaned s id c e :
  vault_inv s → candidates s !! id = Some c → (∀ r, c ≠ Cand_Active r) → 
  vault_inv (s <| candidate_kinds := delete id (candidate_kinds s) |>
               <| candidates := <[id := Cleaned e (reference c)]> (candidates s) |>).
Proof.
  intros [] Hc Hna.
  assert (is_Some (candidates s !! id)) as Hsome by eauto.
  split; simpl; try done.
  - apply active_ok_insert; naive_solver.
  - intros Hs. rewrite inv_absent0 in Hc by done. by rewrite lookup_empty in Hc.
  - intros j. destruct (base.decide (id = j)) as [<-|].
    + rewrite lookup_delete_eq, lookup_insert_eq. split; [intros []; done|naive_solver].
    + by rewrite lookup_insert_ne, lookup_delete_ne.
  - destruct inv_markers0. split; [|done]. by apply dom_insert_known.
  - destruct inv_names0. split; [|done]. by apply dom_insert_known.
  - apply refs_ok_same; [|done]. unfold cand_ref. rewrite Hc. simpl. by destruct (reference c).
  - intros Hs j d Hj. lookup_cases; eauto.
  - intros Hs j d Hj. lookup_cases; eauto.
Qed.

Lemma vault_inv_begin s id kind marker name deadline p :
  vault_inv s → open_ (status s) = true → candidates s !! id = None →
  any_value (intake_markers s) marker = false →
  any_value (candidate_storage_names s) name = false →
  tenant_prefix s = Some p → candidate_name_matches_prefix name p = true →
  vault_inv (s <| intake_markers := <[id := marker]> (intake_markers s) |>
               <| candidate_storage_names := <[id := name]> (candidate_storage_names s) |>
               <| candidate_kinds := <[id := kind]> (candidate_kinds s) |>
               <| candidates := <[id := AwaitingStore deadline]> (candidates s) |>).
Proof.
  intros [] Hopen Hid Hm Hn Hp Hmatch. split; simpl; try done.
  - apply active_ok_insert; naive_solver.
  - intros Hs. by rewrite Hs in Hopen.
  - intros Hs. destruct (inv_prefix0 Hs) as (p' & Hp' & Hall). exists p'. split; [done|].
    intros j n Hj. lookup_cases; eauto.
  - intros j. destruct (base.decide (id = j)) as [<-|].
    + rewrite !lookup_insert_eq. naive_solver.
    + by rewrite !lookup_insert_ne.
  - destruct inv_markers0 as [Hd Hi]. split; [by rewrite !dom_insert_L, Hd|].
    by apply map_inj_insert.
  - destruct inv_names0 as [Hd Hi]. split; [by rewrite !dom_insert_L, Hd|].
    by apply map_inj_insert.
  - apply refs_ok_same; [|done]. unfold cand_ref. by rewrite Hid.
  - intros Hs. by rewrite Hs in Hopen.
  - intros Hs. by rewrite Hs in Hopen.
Qed.

(** A change of standing: candidates may move between standings as long as they
    keep their references and their cleanup. *)
Definition same_custody (m m' : gmap VaultCandidateId Candidate) : Prop :=
  dom m' = dom m ∧ (∀ id, cand_ref m' id = cand_ref m id)
  ∧ ∀ id, is_cleaned <$> m' !! id = is_cleaned <$> m !! id.

Lemma same_custody_insert m id c c' :
  m !! id = Some c → reference c' = reference c → is_cleaned c' = is_cleaned c →
  same_custody m (<[id:=c']> m).
Proof.
  intros Hc Hr Hcl. split_and!.
  - symmetry. apply dom_insert_known; eauto.
  - intros j. rewrite cand_ref_insert. case_bool_decide; [subst|done].
    unfold cand_ref. by rewrite Hc.
  - intros j. destruct (base.decide (id = j)) as [<-|]; [|by rewrite lookup_insert_ne].
    rewrite lookup_insert_eq, Hc. simpl. congruence.
Qed.

Lemma same_custody_trans m1 m2 m3 :
  same_custody m1 m2 → same_custody m2 m3 → same_custody m1 m3.
Proof.
  intros (H1 & H2 & H3) (H4 & H5 & H6). split_and!; [congruence|..]; intros id.
  - by rewrite H5.
  - by rewrite H6.
Qed.

Lemma vault_inv_standing s m cur st :
  vault_inv s → status s ≠ Absent → st ≠ Absent → st ≠ Erased →
  same_custody (candidates s) m → active_ok m cur → (is_Some cur ↔ st = Active) →
  (st = ErasureFenced → ∀ id c, m !! id = Some c → is_fenced c = true) →
  vault_inv (s <| candidates := m |> <| current := cur |> <| status := st |>).
Proof.
  intros [] Hs Hst Hne (Hd & Hr & Hcl) Ha Hact Hf. split; simpl; try done.
  - intros _. by apply inv_prefix0.
  - intros id. rewrite inv_kinds0. specialize (Hcl id).
    destruct (m !! id), (candidates s !! id); naive_solver.
  - by rewrite Hd.
  - by rewrite Hd.
  - by apply (refs_ok_ext (candidates s)).
Qed.

Lemma vault_inv_eq s s' : vault_inv s → s' = s → vault_inv s'.
Proof. by intros ? ->. Qed.

(** Taking the current candidate out of use. *)
Lemma retire_current_inv s :
  active_ok (candidates s) (current s) →
  ∃ m, retire_current s = Some (s <| candidates := m |> <| current := None |>)
    ∧ same_custody (candidates s) m ∧ active_ok m None
    ∧ ∀ id c, candidates s !! id = Some c → (∀ r, c ≠ Cand_Active r) → m !! id = Some c.
Proof.
  intros Ha. unfold retire_current. destruct (current s) as [old|] eqn:Hcur.
  - destruct (proj1 (Ha old) eq_refl) as [r Hold].
    unfold expect_reference. rewrite Hold. simpl. eexists. split; [done|]. split_and!.
    + by eapply same_custody_insert.
    + intros j. split; [done|]. intros [r' Hj].
      destruct (base.decide (old = j)) as [<-|Hne].
      * by rewrite lookup_insert_eq in Hj.
      * rewrite lookup_insert_ne in Hj by done.
        assert (Some old = Some j) by (apply Ha; eauto). congruence.
    + intros id c Hid Hna. destruct (base.decide (old = id)) as [<-|]; [naive_solver|].
      by rewrite lookup_insert_ne.
  - exists (candidates s). split_and!; try done. destruct s; simpl in *; by subst.
Qed.

Lemma vault_inv_activate s id r deadline :
  vault_inv s → open_ (status s) = true → candidates s !! id = Some (Stored r deadline) →
  ∃ s', evolve_change s (CandidateActivated id) = Some s' ∧ vault_inv s'.
Proof.
  intros Hinv Hopen Hid. simpl.
  destruct (retire_current_inv s (inv_current s Hinv)) as (m & -> & Hcust & Hnone & Hkeep). simpl.
  assert (m !! id = Some (Stored r deadline)) as Hm by (by apply Hkeep).
  unfold expect_reference. simpl. rewrite Hm. simpl. eexists. split; [done|].
  eapply vault_inv_eq;
    [apply (vault_inv_standing s (<[id:=Cand_Active r]> m) (Some id) Active)|reflexivity]; try done.
  - intros Hs. by rewrite Hs in Hopen.
  - eapply same_custody_trans; [done|]. by eapply same_custody_insert.
  - intros j. destruct (base.decide (id = j)) as [<-|Hne].
    + rewrite lookup_insert_eq. split; eauto.
    + rewrite lookup_insert_ne by done. rewrite <- (Hnone j). split; congruence.
Qed.

Lemma vault_inv_revoke s :
  vault_inv s → open_ (status s) = true →
  ∃ s', evolve_change s Ch_Revoked = Some s' ∧ vault_inv s'.
Proof.
  intros Hinv Hopen.
  pose proof (retire_current_inv (s <| status := Revoked |>)) as Hretire.
  destruct (Hretire (inv_current s Hinv))
    as (m & Hret & Hcust & Hnone & Hkeep).
  eexists. split; [exact Hret|]. eapply vault_inv_eq;
    [apply (vault_inv_standing s m None Revoked)|reflexivity]; try done.
  intros Hs. by rewrite Hs in Hopen.
Qed.

Lemma fence_candidate_custody m : same_custody m (fence_candidate <$> m).
Proof.
  split_and!.
  - apply dom_fmap_L.
  - intros id. unfold cand_ref. rewrite lookup_fmap.
    destruct (m !! id) as [[]|]; simpl; try done; by repeat case_match.
  - intros id. rewrite lookup_fmap. by destruct (m !! id) as [[]|].
Qed.

Lemma vault_inv_fence s :
  vault_inv s → status s ≠ Absent →
  ∃ s', evolve_change s Ch_ErasureFenced = Some s' ∧ vault_inv s'.
Proof.
  intros Hinv Hs. eexists. split; [done|].
  eapply vault_inv_eq;
    [apply (vault_inv_standing s (fence_candidate <$> candidates s) None ErasureFenced)|reflexivity];
    try done.
  - apply fence_candidate_custody.
  - intros id. split; [done|]. intros [r Hid]. rewrite lookup_fmap in Hid.
    by destruct (candidates s !! id) as [[]|].
  - intros _ id c. rewrite lookup_fmap. by destruct (candidates s !! id) as [[]|]; intros; simplify_eq/=.
Qed.

Lemma contains_key_false {K V} `{Countable K} (m : gmap K V) k :
  contains_key m k = false ↔ m !! k = None.
Proof. unfold contains_key. rewrite bool_decide_eq_false. by rewrite eq_None_not_Some. Qed.

(** Each group of operations leads from the invariant to the invariant. *)
Lemma intake_step s cap now op ch :
  vault_inv s → intake_change s cap now op = Some ch →
  ∃ s', evolve_change s ch = Some s' ∧ vault_inv s'.
Proof.
  intros Hinv Hch. destruct op; simpl in Hch; try done;
    apply guarded_Some in Hch as [Hg Hch]; guards.
  - subst. eexists. split; [done|]. destruct Hinv. 
    assert (candidates s = ∅) as Hc by auto.
    split; simpl; try done.
    + rewrite inv_active0. split; congruence.
    + intros _. eexists. split; [done|]. intros id n Hn.
      apply elem_of_dom_2 in Hn. rewrite (proj1 inv_names0), Hc in Hn. set_solver.
  - subst. destruct (tenant_prefix s) as [p|] eqn:Hp; [|done]. eexists. split; [done|].
    eapply vault_inv_eq; [eapply (vault_inv_begin s)|reflexivity]; try done.
    by apply contains_key_false.
  - destruct (candidates s !! id) as [c|] eqn:Hid; [|done].
    assert (is_cleaned c = false ∧ reference c = None ∧ ∀ r, c ≠ Cand_Active r) as (? & ? & ?).
    { by destruct c as [| | | |[]|]. }
    assert (∀ c', reference c' = Some reference0 → is_cleaned c' = false →
      (∀ r, c' ≠ Cand_Active r) → (status s = ErasureFenced → is_fenced c' = true) →
      vault_inv (s <| used_references := {[reference0]} ∪ used_references s |>
                   <| candidates := <[id := c']> (candidates s) |>)) as Hupd.
    { intros c' Hr Hcl Hna Hf. eapply vault_inv_update; try done; [|set_solver].
      apply refs_ok_fresh; [|done|done|apply Hinv]. unfold cand_ref. by rewrite Hid. }
    destruct c as [deadline| | | |[]|]; try done; [|by subst; eexists; split; [done|apply Hupd]].
    case_match; subst; simpl; [rewrite Hid|]; eexists; (split; [done|]); apply Hupd; try done.
    guards. intros Hs. by rewrite Hs in *.
Qed.

Lemma cand_ref_used s id r :
  vault_inv s → cand_ref (candidates s) id = Some r → r ∈ used_references s.
Proof. intros Hinv Hr. apply (proj1 (inv_refs s Hinv)). eauto. Qed.

(** Giving up a pending candidate keeps the reference it is bound to. *)
Lemma cleanup_step s id c :
  vault_inv s → candidates s !! id = Some c →
  match c with AwaitingStore _ | Stored _ _ => true | _ => false end = true →
  ∃ s', evolve_change s (CandidateCleanupRequired id (reference c)) = Some s' ∧ vault_inv s'.
Proof.
  intros Hinv Hid Hc. simpl. eexists. split; [done|].
  assert (cand_ref (candidates s) id = reference c) as Href
    by (unfold cand_ref; by rewrite Hid).
  assert (match reference c with
          | Some r => {[r]} ∪ used_references s
          | None => used_references s
          end = used_references s) as Hused.
  { destruct (reference c) as [r|] eqn:Hr; [|done]. pose proof (cand_ref_used s id r Hinv Href).
    set_solver. }
  eapply vault_inv_eq; [eapply (vault_inv_update s id c)|rewrite Hused; reflexivity]; try done.
  - by destruct c.
  - by destruct c.
  - apply refs_ok_same; [|apply Hinv]. rewrite Href. by destruct c.
Qed.

Lemma candidate_step s cap now op ch :
  vault_inv s → candidate_change s cap now op = Some ch →
  ∃ s', evolve_change s ch = Some s' ∧ vault_inv s'.
Proof.
  intros Hinv Hch. destruct op; simpl in Hch; try done;
    apply guarded_Some in Hch as [Hg Hch]; guards; subst;
    destruct (candidates s !! id) as [c|] eqn:Hid; try done.
  - destruct c; try done. by eapply vault_inv_activate.
  - apply (cleanup_step s id c); [done|done|by destruct c].
  - apply (cleanup_step s id c); [done|done|by destruct c].
  - simpl. rewrite Hid. eexists. split; [done|].
    eapply vault_inv_eq; [eapply (vault_inv_cleaned s id c)|reflexivity]; try done. by destruct c.
Qed.

Lemma standing_step s cap op ch :
  vault_inv s → standing_change s cap op = Some ch →
  ∃ s', evolve_change s ch = Some s' ∧ vault_inv s'.
Proof.
  intros Hinv Hch. destruct op; simpl in Hch; try done;
    apply guarded_Some in Hch as [Hg Hch]; guards; subst.
  - by apply vault_inv_revoke.
  - apply vault_inv_fence; [done|]. intros Hs. by rewrite Hs in *.
  - eexists. split; [done|]. destruct Hinv.
    assert (∀ id c, candidates s !! id = Some c → is_cleaned c = true) as Hall.
    { intros id c Hid. rewrite forallb_forall in *.
      match goal with H : ∀ x, _ |- _ => apply H end.
      apply list_elem_of_In, elem_of_btree_values. eauto. }
    split; simpl; try done.
    + rewrite inv_active0. split; congruence.
    + intros _. apply inv_prefix0. congruence.
Qed.

Lemma active_reference_Some s r :
  active_reference s = Some r →
  status s = Active ∧ ∃ id, current s = Some id ∧ candidates s !! id = Some (Cand_Active r).
Proof.
  unfold active_reference. case_bool_decide as Hs; simpl; [|done].
  destruct (active_kind s); simpl; [|done].
  destruct (current s) as [id|]; simpl; [|done].
  destruct (candidates s !! id) as [[]|] eqn:Hid; simpl; naive_solver.
Qed.

Lemma dispatch_step s cap op ch :
  vault_inv s → dispatch_change s cap op = Some ch →
  ∃ s', evolve_change s ch = Some s' ∧ vault_inv s'.
Proof.
  intros Hinv Hch.
  assert (∀ id d, dispatch_reference d ∈ used_references s → dispatch_ok d →
    vault_inv (s <| dispatches := <[id := d]> (dispatches s) |>)) as Hupd.
  { intros id d Hr Hok. destruct Hinv. split; simpl; try done.
    intros j e Hj. lookup_cases; eauto. }
  destruct op; simpl in Hch; try done; apply guarded_Some in Hch as [Hg Hch]; guards; subst; simpl.
  - eexists. split; [done|]. apply Hupd; [|done]. simpl.
    destruct (active_reference_Some s expected_reference) as (_ & id' & _ & Hid'); [done|].
    apply (cand_ref_used s id'); [done|]. unfold cand_ref. by rewrite Hid'.
  - destruct (dispatches s !! id) as [d|] eqn:Hd; [|done].
    destruct (inv_dispatches s Hinv id d Hd) as [Hr Hok].
    eexists. split; [done|]. apply Hupd; [done|]. unfold dispatch_ok in *; simpl in *.
    destruct (phase d); try done. naive_solver.
  - destruct (dispatches s !! id) as [d|] eqn:Hd; [|done].
    destruct (inv_dispatches s Hinv id d Hd) as [Hr Hok].
    eexists. split; [done|]. apply Hupd; [done|]. unfold dispatch_ok in *; simpl in *. eauto.
Qed.

Lemma operation_step s cap now op ch :
  vault_inv s → operation_change s cap now op = Some ch →
  ∃ s', evolve_change s ch = Some s' ∧ vault_inv s'.
Proof.
  intros Hinv Hch. unfold operation_change in Hch.
  destruct op; first [exact (intake_step _ _ _ _ _ Hinv Hch)|exact (candidate_step _ _ _ _ _ Hinv Hch)
    |exact (standing_step _ _ _ _ Hinv Hch)|exact (dispatch_step _ _ _ _ Hinv Hch)].
Qed.

(** The header fields of an event do not bear on the invariant. *)
Definition stamp (s : State) (b : Binding) (at_ : N) : State :=
  s <| binding := Some b |> <| revision := u64_add (revision s) 1 |> <| last_at := at_ |>.

Lemma vault_inv_stamp s b t : vault_inv s → vault_inv (stamp s b t).
Proof. intros []. by split. Qed.

Lemma decide_event s c es :
  decide s c = Ok es →
  ∃ ch, es = [mkEvent (cmd_binding c) (now c) ch]
    ∧ operation_change s (capability c) (now c) (operation c) = Some ch
    ∧ revision s = expected_revision c
    ∧ ∀ e, cmd_binding c = ev_binding e →
        evolve s e = evolve_change (stamp s (ev_binding e) (at_ e)) (change e).
Proof.
  unfold decide. intros Hd. ok_inv Hd; guards; eexists; (split_and!; [done..|]);
    intros e He; unfold evolve;
    match goal with H : binding s = _ |- _ => rewrite H end; [|done].
  by rewrite bool_decide_eq_true_2 by congruence.
Qed.

Lemma vault_inv_step s c es :
  vault_inv s → decide s c = Ok es → ∃ s', foldM evolve s es = Some s' ∧ vault_inv s'.
Proof.
  intros Hinv (ch & -> & Hop & _ & Hev)%decide_event. simpl.
  rewrite Hev by done. simpl.
  destruct (operation_step (stamp s (cmd_binding c) (now c)) (capability c) (now c)
              (operation c) ch) as (s' & -> & ?); [by apply vault_inv_stamp|done|].
  eauto.
Qed.

Lemma vault_inv_default : vault_inv state_default.
Proof.
  split; simpl; try done.
  - intros id. rewrite lookup_empty. split; [done|by intros []].
  - intros id. rewrite !lookup_empty. split; [by intros []|by intros (? & ? & ?)].
  - split; [|intros ???; unfold cand_ref; by rewrite lookup_empty].
    intros r. split; [set_solver|]. intros [id Hid]. unfold cand_ref in Hid.
    by rewrite lookup_empty in Hid.
Qed.

Section vault.
Context (encode : State → option string) (decode : string → option State).
Abbreviation V := (vault_lifecycle encode decode).

#[export] Instance vault_safe : LifecycleSafe V.
Proof.
  refine {| lc_inv := (vault_inv : lc_state V → Prop) |}; [|exact vault_inv_step].
  apply vault_inv_default.
Defined.
End vault.

(** ** What the history keeps *)

(** Later states keep each candidate's reference, marker and storage name and
    each dispatch's identity. *)
Definition custody_le (s s' : State) : Prop :=
  (∀ id r, cand_ref (candidates s) id = Some r → cand_ref (candidates s') id = Some r)
  ∧ intake_markers s ⊆ intake_markers s'
  ∧ candidate_storage_names s ⊆ candidate_storage_names s'
  ∧ (∀ id d, dispatches s !! id = Some d → ∃ d', dispatches s' !! id = Some d'
       ∧ effect d' = effect d ∧ dispatch_reference d' = dispatch_reference d).

Definition status_rank (st : Status) : nat :=
  match st with
  | Absent => 0 | Pending => 1 | Active => 2 | GaugeVault.Revoked => 3
  | ErasureFenced => 4 | Erased => 5
  end.

(** What the state retains of one event. *)
Definition retained (e : Event) (s : State) : Prop :=
  match change e with
  | CandidateBegun id _ marker name _ =>
      intake_markers s !! id = Some marker ∧ candidate_storage_names s !! id = Some name
  | CandidateStored id r | CandidateCleanupRequired id (Some r) =>
      cand_ref (candidates s) id = Some r
  | Dispatched id effect r _ _ =>
      ∃ d, dispatches s !! id = Some d ∧ GaugeVault.effect d = effect ∧ dispatch_reference d = r
  | _ => True
  end.

Lemma cand_ref_insert_le m id c :
  (∀ r, cand_ref m id = Some r → reference c = Some r) →
  ∀ j r, cand_ref m j = Some r → cand_ref (<[id:=c]> m) j = Some r.
Proof. intros Hc j r. rewrite cand_ref_insert. case_bool_decide; subst; auto. Qed.

(** A change that touches only candidates, their standing and the used set. *)
Lemma custody_le_intro s s' :
  (∀ id r, cand_ref (candidates s) id = Some r → cand_ref (candidates s') id = Some r) →
  intake_markers s' = intake_markers s →
  candidate_storage_names s' = candidate_storage_names s →
  dispatches s' = dispatches s → custody_le s s'.
Proof. intros Hr Hm Hn Hd. unfold custody_le. rewrite Hm, Hn, Hd. split_and!; eauto. Qed.

Lemma retire_current_le s s' :
  vault_inv s → retire_current s = Some s' →
  custody_le s s' ∧ status s' = status s
  ∧ ∀ id, cand_ref (candidates s') id = cand_ref (candidates s) id.
Proof.
  intros Hinv Hr. destruct (retire_current_inv s (inv_current s Hinv)) as (m & Hm & (_ & Hc & _) & _).
  rewrite Hm in Hr. simplify_eq/=. split_and!; [|done|done].
  apply custody_le_intro; try done. simpl. intros. by rewrite Hc.
Qed.

Lemma intake_history s cap now op ch s' :
  vault_inv s → intake_change s cap now op = Some ch → evolve_change s ch = Some s' →
  custody_le s s' ∧ status_rank (status s) ≤ status_rank (status s')
  ∧ ∀ b t, retained (mkEvent b t ch) s'.
Proof.
  intros Hinv Hop Hev. destruct op; simpl in Hop; try done;
    apply guarded_Some in Hop as [Hg Hop]; guards; subst.
  - simplify_eq/=. split_and!; [by apply custody_le_intro| |done].
    match goal with H : status s = _ |- _ => rewrite H end. simpl. lia.
  - assert (candidates s !! id = None) as Hid by (by apply contains_key_false).
    apply not_elem_of_dom in Hid as Hdom. simplify_eq/=. split_and!; [split_and!| |].
    + simpl. apply cand_ref_insert_le. intros r. unfold cand_ref. by rewrite Hid.
    + apply insert_subseteq, not_elem_of_dom. by rewrite (proj1 (inv_markers s Hinv)).
    + apply insert_subseteq, not_elem_of_dom. by rewrite (proj1 (inv_names s Hinv)).
    + simpl. eauto.
    + simpl. lia.
    + intros b t. unfold retained. simpl. by rewrite !lookup_insert_eq.
  - assert (∀ r, cand_ref (candidates s) id ≠ Some r).
    { unfold cand_ref. by destruct (candidates s !! id) as [[| | | |[]|]|]. }
    assert (∀ c, reference c = Some reference0 →
      (∀ j r, cand_ref (candidates s) j = Some r → cand_ref (<[id:=c]> (candidates s)) j = Some r)
      ∧ cand_ref (<[id:=c]> (candidates s)) id = Some reference0) as Hc.
    { intros c Hr. split; [apply cand_ref_insert_le; naive_solver|].
      by rewrite cand_ref_insert, bool_decide_eq_true_2. }
    destruct (candidates s !! id) as [[]|] eqn:Hid; try case_match; simpl in Hev;
      rewrite ?Hid in Hev; simplify_eq/=;
      (split_and!; [apply custody_le_intro; [apply Hc|..]; done|lia|intros b t; by apply Hc]).
Qed.

Lemma candidate_history s cap now op ch s' :
  vault_inv s → candidate_change s cap now op = Some ch → evolve_change s ch = Some s' →
  custody_le s s' ∧ status_rank (status s) ≤ status_rank (status s')
  ∧ ∀ b t, retained (mkEvent b t ch) s'.
Proof.
  intros Hinv Hop Hev. destruct op; simpl in Hop; try done;
    apply guarded_Some in Hop as [Hg Hop]; guards; subst.
  - simpl in Hev. destruct (retire_current s) as [s1|] eqn:Hr; [|done].
    destruct (retire_current_le s s1 Hinv Hr) as ((Hle & Hm & Hn & Hd) & Hst & Hsame).
    simpl in Hev. destruct (expect_reference (candidates s1) id) as [r|] eqn:He; [|done].
    simplify_eq/=. split_and!; [split_and!; try done| |done].
    + simpl. intros j r' Hj. apply cand_ref_insert_le; [|by auto]. intros r''.
      unfold cand_ref. unfold expect_reference in He. by rewrite He.
    + destruct (status s); simpl in *; try done; lia.
  - simplify_eq/=. split_and!; [apply custody_le_intro; try done; simpl|lia|].
    + apply cand_ref_insert_le. unfold cand_ref. intros r Hr. simpl. by rewrite Hr.
    + intros b t. unfold retained. simpl.
      destruct (candidates s !! id ≫= reference); [|done].
      by rewrite cand_ref_insert, bool_decide_eq_true_2.
  - simplify_eq/=. split_and!; [apply custody_le_intro; try done; simpl|lia|].
    + apply cand_ref_insert_le. unfold cand_ref. intros r Hr. simpl. by rewrite Hr.
    + intros b t. unfold retained. simpl.
      destruct (candidates s !! id ≫= reference); [|done].
      by rewrite cand_ref_insert, bool_decide_eq_true_2.
  - simplify_eq/=. split_and!; [apply custody_le_intro; try done; simpl|lia|done].
    apply cand_ref_insert_le. unfold cand_ref. intros r Hr. simpl. by rewrite Hr.
Qed.

Lemma standing_history s cap op ch s' :
  vault_inv s → standing_change s cap op = Some ch → evolve_change s ch = Some s' →
  custody_le s s' ∧ status_rank (status s) ≤ status_rank (status s')
  ∧ ∀ b t, retained (mkEvent b t ch) s'.
Proof.
  intros Hinv Hop Hev. destruct op; simpl in Hop; try done;
    apply guarded_Some in Hop as [Hg Hop]; guards; subst.
  - destruct (retire_current_inv (s <| status := Revoked |>)) as (m & Hm & (_ & Hc & _) & _);
      [exact (inv_current s Hinv)|].
    assert (retire_current (s <| status := Revoked |>) = Some s') as Hr by exact Hev.
    rewrite Hm in Hr. simplify_eq/=. split_and!; [|by destruct (status s); simpl in *; try done; lia|done].
    apply custody_le_intro; try done. simpl. intros. by rewrite Hc.
  - simplify_eq/=. split_and!; [|by destruct (status s); simpl in *; try done; lia|done].
    apply custody_le_intro; try done. simpl. intros id r.
    by rewrite (proj1 (proj2 (fence_candidate_custody (candidates s)))).
  - simplify_eq/=. split_and!; [by apply custody_le_intro| |done].
    match goal with H : status s = _ |- _ => rewrite H end. simpl. lia.
Qed.

Lemma dispatch_history s cap op ch s' :
  vault_inv s → dispatch_change s cap op = Some ch → evolve_change s ch = Some s' →
  custody_le s s' ∧ status_rank (status s) ≤ status_rank (status s')
  ∧ ∀ b t, retained (mkEvent b t ch) s'.
Proof.
  intros Hinv Hop Hev.
  assert (∀ id d, (∀ d0, dispatches s !! id = Some d0 →
      effect d = effect d0 ∧ dispatch_reference d = dispatch_reference d0) →
    custody_le s (s <| dispatches := <[id:=d]> (dispatches s) |>)) as Hle.
  { intros id d Hd. split_and!; try done. simpl. intros j e Hj.
    destruct (base.decide (id = j)) as [<-|]; [rewrite lookup_insert_eq; naive_solver|].
    rewrite lookup_insert_ne by done. eauto. }
  destruct op; simpl in Hop; try done; apply guarded_Some in Hop as [Hg Hop]; guards; subst;
    simpl in Hev.
  - simplify_eq/=. split_and!; [apply Hle|lia|].
    + intros d0 Hd0. assert (dispatches s !! id = None) by (by apply contains_key_false). congruence.
    + intros b t. unfold retained. simpl. rewrite lookup_insert_eq. eauto.
  - destruct (dispatches s !! id) as [d|] eqn:Hd; [|done]. simplify_eq/=.
    split_and!; [apply Hle; naive_solver|lia|done].
  - destruct (dispatches s !! id) as [d|] eqn:Hd; [|done]. simplify_eq/=.
    split_and!; [apply Hle; naive_solver|lia|done].
Qed.

Lemma operation_history s cap now op ch s' :
  vault_inv s → operation_change s cap now op = Some ch → evolve_change s ch = Some s' →
  custody_le s s' ∧ status_rank (status s) ≤ status_rank (status s')
  ∧ ∀ b t, retained (mkEvent b t ch) s'.
Proof.
  intros Hinv Hop Hev. unfold operation_change in Hop.
  destruct op; first
    [exact (intake_history _ _ _ _ _ _ Hinv Hop Hev)|exact (candidate_history _ _ _ _ _ _ Hinv Hop Hev)
    |exact (standing_history _ _ _ _ _ Hinv Hop Hev)|exact (dispatch_history _ _ _ _ _ Hinv Hop Hev)].
Qed.

Lemma retire_current_revision s s' : retire_current s = Some s' → revision s' = revision s.
Proof.
  unfold retire_current. destruct (current s) as [id|]; [|by intros [= ->]].
  destruct (expect_reference _ id); simpl; [|done]. by intros [= <-].
Qed.

Lemma evolve_change_revision s ch s' : evolve_change s ch = Some s' → revision s' = revision s.
Proof.
  destruct ch; try (simpl; intros; repeat case_match; by simplify_eq/=).
  - simpl. destruct (retire_current s) as [s1|] eqn:Hr; simpl; [|done].
    destruct (expect_reference _ id); simpl; [|done]. intros [= <-].
    by apply retire_current_revision in Hr.
  - intros H. exact (retire_current_revision (s <| status := Revoked |>) s' H).
  - simpl. destruct (dispatches s !! id); simpl; [|done]. by intros [= <-].
  - simpl. destruct (dispatches s !! id); simpl; [|done]. by intros [= <-].
Qed.

(** One admitted command, seen from the state before it. *)
Lemma vault_admitted s c es s' :
  vault_inv s → decide s c = Ok es → foldM evolve s es = Some s' →
  ∃ ch, es = [mkEvent (cmd_binding c) (now c) ch]
    ∧ operation_change s (capability c) (now c) (operation c) = Some ch
    ∧ custody_le s s' ∧ status_rank (status s) ≤ status_rank (status s')
    ∧ retained (mkEvent (cmd_binding c) (now c) ch) s'
    ∧ revision s' = u64_add (revision s) 1.
Proof.
  intros Hinv (ch & -> & Hop & _ & Hev)%decide_event. simpl. rewrite Hev by done. simpl.
  destruct (evolve_change _ ch) as [s1|] eqn:Hch; [|done]. intros [= ->].
  destruct (operation_history (stamp s (cmd_binding c) (now c)) (capability c) (now c)
    (operation c) ch s') as (Hle & Hrank & Hret); [by apply vault_inv_stamp|done|done|].
  exists ch. split_and!; try done; try apply Hle.
  by rewrite (evolve_change_revision _ ch s' Hch).
Qed.

Definition is_dispatch (e : Event) : bool :=
  match change e with Dispatched _ _ _ _ _ => true | _ => false end.

Lemma dispatched_inv s cap now op id eff r g f :
  operation_change s cap now op = Some (Dispatched id eff r g f) →
  active_reference s = Some r ∧ dispatches s !! id = None ∧ status s = Active.
Proof.
  intros Hop. destruct op; simpl in Hop; apply guarded_Some in Hop as [Hg Hop]; simplify_eq; guards;
    try by repeat case_match; simplify_eq.
  split_and!; [done|by apply contains_key_false|done].
Qed.

Section properties.
Context (encode : State → option string) (decode : string → option State).
Abbreviation V := (vault_lifecycle encode decode).

Lemma vault_single s c es : lc_decide V s c = Ok es → length es ≤ 1.
Proof. intros (ch & -> & _)%decide_event. done. Qed.

Lemma vault_trace_inv log s : trace V log s → vault_inv s.
Proof. exact (trace_inv V log s). Qed.

Lemma vault_retained log s : trace V log s → ∀ e, e ∈ log → retained e s.
Proof.
  apply (trace_events V). simpl. intros s0 c es s1 Hinv Hd Hev.
  destruct (vault_admitted s0 c es s1 Hinv Hd Hev)
    as (ch & -> & _ & (Hr & Hm & Hn & Hds) & _ & Hret & _).
  split; [by intros e ->%list_elem_of_singleton|].
  intros [b t ch'] H. unfold retained in *. simpl in *. destruct ch'; try done.
  - destruct H. split; by eapply lookup_weaken.
  - auto.
  - destruct reference0; auto.
  - destruct H as (d & Hd' & <- & <-). destruct (Hds _ _ Hd') as (d' & ? & ? & ?). eauto.
Qed.

(** C5: whatever commands arrive, folding the admitted events never panics; the
    current candidate is the one active candidate and exists exactly while the
    credential is active; intake markers, storage names and backing references
    each belong to one candidate; a fenced credential holds only candidates
    awaiting or past cleanup and an erased one only cleaned ones; the revision
    counts the events (modulo 2^64). *)
Theorem vault_session_safe (cs : list Command) :
  ∃ log s, session V cs = Some (log, s) ∧ replay V log = Some s ∧ vault_inv s
    ∧ revision s = (N.of_nat (length log) mod u64_modulus)%N.
Proof.
  destruct (session_total V cs) as (log & s & Hs & Ht & Hinv & Hr).
  exists log, s. split_and!; [done|done|done|]. clear Hs Hr Hinv.
  induction Ht as [|log s c es s' Ht IH Ha]; [done|].
  apply apply_admitted in Ha as [Hd Hev].
  destruct (vault_admitted s c es s' (vault_trace_inv log s Ht) Hd Hev)
    as (ch & -> & _ & _ & _ & _ & ->).
  rewrite IH, length_app. unfold u64_add. simpl.
  rewrite N.Div0.add_mod_idemp_l. f_equal. lia.
Qed.

(** C6: a final effect is dispatched at most once per dispatch id, and only with
    the exact reference that was active at that point of the history, in a
    credential that was active then (no use of a pending, retired, revoked,
    fenced or erased version). *)
Theorem vault_dispatch_exact (cs : list Command) :
  ∃ log s, session V cs = Some (log, s)
    ∧ ∀ before e after id eff r g f, log = before ++ e :: after →
        change e = Dispatched id eff r g f →
        (∃ s0, replay V before = Some s0 ∧ status s0 = Active ∧ active_reference s0 = Some r)
        ∧ ∀ e' eff' r' g' f', e' ∈ before ∨ e' ∈ after → change e' ≠ Dispatched id eff' r' g' f'.
Proof.
  destruct (session_total V cs) as (log & s & Hs & Ht & _ & _).
  exists log, s. split; [done|]. clear Hs.
  assert (∀ before e after id eff r g f, log = before ++ e :: after →
    change e = Dispatched id eff r g f → ∃ s0, trace V before s0 ∧ status s0 = Active
      ∧ active_reference s0 = Some r ∧ dispatches s0 !! id = None) as Hat.
  { intros before e after id eff r g f Heq He.
    destruct (trace_event V log s before e after vault_single Ht Heq) as (s0 & c & Ht0 & Hd).
    apply decide_event in Hd as (ch & [= ->] & Hop & _). simpl in He. subst ch.
    apply dispatched_inv in Hop as (? & ? & ?). eauto 10. }
  assert (∀ before e after id eff r g f e' eff' r' g' f', log = before ++ e :: after →
    change e = Dispatched id eff r g f → e' ∈ before →
    change e' ≠ Dispatched id eff' r' g' f') as Hbefore.
  { intros before e after id eff r g f e' eff' r' g' f' Heq He Hin He'.
    destruct (Hat _ _ _ _ _ _ _ _ Heq He) as (s0 & Ht0 & _ & _ & Hnone).
    pose proof (vault_retained before s0 Ht0 e' Hin) as Hret. unfold retained in Hret.
    rewrite He' in Hret. destruct Hret as (d & ? & _). congruence. }
  intros before e after id eff r g f Heq He. split.
  - destruct (Hat _ _ _ _ _ _ _ _ Heq He) as (s0 & Ht0 & ? & ? & _).
    exists s0. split; [by apply trace_replay|done].
  - intros e' eff' r' g' f' [Hin|Hin] He'; [by eapply Hbefore|].
    apply list_elem_of_split in Hin as (l1 & l2 & ->).
    refine (Hbefore (before ++ e :: l1) e' l2 id eff' r' g' f' e eff r g f _ He' _ He).
    + by rewrite Heq, <- app_assoc.
    + apply elem_of_app. right. by left.
Qed.

(** Revocation, the erasure fence and erasure are terminal: however the session
    continues, a closed credential never becomes usable again, nothing more is
    dispatched from it, and its standing only advances towards erasure. *)
Theorem vault_closed_is_terminal (cs later : list Command) :
  ∃ log s more s', session V cs = Some (log, s) ∧ drive V log s later = Some (log ++ more, s')
    ∧ status_rank (status s) ≤ status_rank (status s')
    ∧ (3 ≤ status_rank (status s) →
        active_reference s' = None ∧ ∀ e, e ∈ more → is_dispatch e = false).
Proof.
  destruct (session_total V cs) as (log & s & Hs & Ht & _ & _).
  assert (∃ more s', drive V log s later = Some (log ++ more, s')
    ∧ status_rank (status s) ≤ status_rank (status s')
    ∧ (3 ≤ status_rank (status s) → ∀ e, e ∈ more → is_dispatch e = false))
    as (more & s' & Hd & Hrank & Hno).
  { clear Hs. revert log s Ht. induction later as [|c later IH]; intros log s Ht; simpl.
    { exists [], s. rewrite app_nil_r. split_and!; [done|done|]. intros _ e He. by apply elem_of_nil in He. }
    destruct (apply V s c) as [r|es s1|] eqn:Ha; [by apply IH| |].
    - destruct (IH (log ++ es) s1) as (more & s' & Hdr & Hrank & Hno); [by eapply trace_admit|].
      apply apply_admitted in Ha as [Hd Hev].
      destruct (vault_admitted s c es s1 (vault_trace_inv log s Ht) Hd Hev)
        as (ch & -> & Hop & _ & Hrank1 & _).
      eexists (_ :: more), s'. rewrite <- app_assoc in Hdr. split_and!; [exact Hdr|lia|].
      intros Hclosed e [->|He]%elem_of_cons; [|apply Hno; [lia|done]].
      unfold is_dispatch. simpl. destruct ch; try done.
      apply dispatched_inv in Hop as (_ & _ & Hst). rewrite Hst in Hclosed. simpl in Hclosed. lia.
    - by destruct (apply_no_panic V s c (trace_inv V log s Ht)). }
  exists log, s, more, s'. split_and!; [done..|]. intros Hclosed. split; [|by auto].
  destruct (active_reference s') eqn:Hact; [|done].
  apply active_reference_Some in Hact as [Hst _]. rewrite Hst in Hrank. simpl in Hrank. lia.
Qed.

(** Custody is never lost or rebound. Every backing reference the log bound to
    a candidate is still that candidate's and nobody else's, every candidate
    keeps the marker and storage name it began with, and once the credential is
    erased every candidate that was ever begun is cleaned. *)
Theorem vault_custody_retained (cs : list Command) :
  ∃ log s, session V cs = Some (log, s)
    ∧ (∀ e, e ∈ log → retained e s)
    ∧ (∀ i j r, cand_ref (candidates s) i = Some r → cand_ref (candidates s) j = Some r → i = j)
    ∧ (status s = Erased → ∀ e id kind marker name deadline, e ∈ log →
         change e = CandidateBegun id kind marker name deadline →
         ∃ evidence r, candidates s !! id = Some (Cleaned evidence r)).
Proof.
  destruct (session_total V cs) as (log & s & Hs & Ht & _ & _).
  pose proof (vault_trace_inv log s Ht) as Hinv.
  exists log, s. split_and!; [done|by apply vault_retained|apply (inv_refs s Hinv)|].
  intros Hst e id kind marker name deadline Hin He.
  pose proof (vault_retained log s Ht e Hin) as Hret. unfold retained in Hret.
  rewrite He in Hret. destruct Hret as [Hm%elem_of_dom_2 _].
  rewrite (proj1 (inv_markers s Hinv)) in Hm. apply elem_of_dom in Hm as [c Hc].
  pose proof (inv_erased s Hinv Hst id c Hc). destruct c; try done. eauto.
Qed.

(** A command is admitted at most once: re-sending the same command to the state
    it produced is refused, whatever it asks for, because the revision it was
    based on is gone (also when the counter wraps). *)
Theorem vault_command_once (cs : list Command) (c : Command) :
  ∃ log s, session V cs = Some (log, s)
    ∧ match apply V s c with
      | Refused _ => True
      | Applied _ s' => apply V s' c = Refused (mkRejection "GaugeVault: stale revision")
      | Panicked => False
      end.
Proof.
  destruct (session_total V cs) as (log & s & Hs & Ht & Hinv & _).
  exists log, s. split; [done|]. destruct (apply V s c) as [r|es s'|] eqn:Ha; [done| |].
  - apply apply_admitted in Ha as [Hd Hev].
    destruct (vault_admitted s c es s' (vault_trace_inv log s Ht) Hd Hev)
      as (ch & _ & _ & _ & _ & _ & Hrev).
    apply decide_event in Hd as (_ & _ & _ & Hexp & _).
    unfold apply. simpl. unfold GaugeVault.decide.
    rewrite bool_decide_eq_false_2; [done|]. rewrite Hrev, <- Hexp. apply u64_succ_neq.
  - by destruct (apply_no_panic V s c Hinv).
Qed.
End properties.
