(* ===== verification/ModelData.v ===== *)
(** * Organization model connections: data

    The types of [crates/core/src/model_connection.rs] and of its submodules
    [model_connection/access.rs] (subject grants) and [model_connection/spend.rs]
    (the attempt ledger). The three share one state. Constructors that several
    of the source's enums share carry a prefix: [CS_] connection status, [VP_]
    version phase, [M_] material, [GS_] grant status, [S_] subject, [I_]
    initiator, [PC_] principal class, [Ph_] attempt phase. *)

From S2P Require Import Prelude Ids Lifecycle.

(** ** Connections ([model_connection.rs]) *)

Record AuthorityBinding := mkAuthorityBinding {
  authority : AuthorityId;
  organization : ScopeId;
  environment : string;
}.

Inductive AuthenticationKind := ApiKey | OrganizationOauth.

Inductive ExecutionClass := PrivateBroker | PublicDirect.

Record ProviderBinding := mkProviderBinding {
  provider : string;
  endpoint : string;
  authentication : AuthenticationKind;
}.

#[export] Instance AuthorityBinding_eq_dec : EqDecision AuthorityBinding.
Proof. solve_decision. Defined.
#[export] Instance AuthenticationKind_eq_dec : EqDecision AuthenticationKind.
Proof. solve_decision. Defined.
#[export] Instance ExecutionClass_eq_dec : EqDecision ExecutionClass.
Proof. solve_decision. Defined.
#[export] Instance ProviderBinding_eq_dec : EqDecision ProviderBinding.
Proof. solve_decision. Defined.

#[export] Instance ExecutionClass_countable : Countable ExecutionClass.
Proof.
  by refine (inj_countable' (λ c, match c with PrivateBroker => false | PublicDirect => true end)
    (λ b : bool, if b then PublicDirect else PrivateBroker) _); intros [].
Defined.

Record ModelPolicy := mkModelPolicy {
  models : gset string;
  execution_classes : gset ExecutionClass;
}.

Record ConnectionDefinition := mkConnectionDefinition {
  name : string;
  conn_provider : ProviderBinding;
  conn_policy : ModelPolicy;
}.

Inductive ConnectionStatus := CS_Pending | CS_Active | CS_Suspended | CS_Revoked | CS_Erased.

#[export] Instance ConnectionStatus_eq_dec : EqDecision ConnectionStatus.
Proof. solve_decision. Defined.

Inductive VerificationCheck := ModelCatalogRead.

Record Verification := mkVerification {
  check : VerificationCheck;
  observed_at : N;
}.

Inductive VersionPhase :=
| VP_AwaitingSecret
| VP_Sealed
| VP_Verified (evidence : ObservationId)
| VP_Activated (evidence : ObservationId)
| VP_Failed (evidence : ObservationId)
| VP_Cancelled
| VP_Expired.

#[export] Instance VersionPhase_eq_dec : EqDecision VersionPhase.
Proof. solve_decision. Defined.

Definition phase_open (p : VersionPhase) : bool :=
  match p with VP_AwaitingSecret | VP_Sealed | VP_Verified _ => true | _ => false end.

Inductive Material :=
| M_Unobserved
| M_Held (handle : SecretHandleId)
| M_ErasureRequired (handle : option SecretHandleId)
| M_Erased (evidence : ObservationId).

#[export] Instance Material_eq_dec : EqDecision Material.
Proof. solve_decision. Defined.

Definition require_erasure (m : Material) : Material :=
  match m with
  | M_Unobserved => M_ErasureRequired None
  | M_Held handle => M_ErasureRequired (Some handle)
  | M_ErasureRequired _ | M_Erased _ => m
  end.

Definition gone (m : Material) : bool :=
  match m with M_Erased _ => true | _ => false end.

Record Version := mkVersion {
  expires_at : N;
  version_phase : VersionPhase;
  material : Material;
  verification : option Verification;
}.

#[export] Instance Version_eta : Eta Version := mkEta (λ v,
  mkVersion (expires_at v) (version_phase v) (material v) (verification v)).

Record Connection := mkConnection {
  conn_definition : ConnectionDefinition;
  budget_family : ModelConnectionId;
  conn_status : ConnectionStatus;
  versions : gmap CredentialVersionId Version;
  current_version : option CredentialVersionId;
  erasure_requested : bool;
}.

#[export] Instance ConnectionDefinition_eta : Eta ConnectionDefinition := mkEta (λ d,
  mkConnectionDefinition (name d) (conn_provider d) (conn_policy d)).
#[export] Instance Connection_eta : Eta Connection := mkEta (λ c,
  mkConnection (conn_definition c) (budget_family c) (conn_status c) (versions c)
    (current_version c) (erasure_requested c)).

Definition is_activated (p : VersionPhase) : bool :=
  match p with VP_Activated _ => true | _ => false end.
Definition is_held (m : Material) : bool :=
  match m with M_Held _ => true | _ => false end.

Definition active_version (c : Connection) : option CredentialVersionId :=
  if negb (bool_decide (conn_status c = CS_Active)) || erasure_requested c then None
  else
    id ← current_version c;
    version ← versions c !! id;
    if is_activated (version_phase version) && is_held (material version)
    then Some id else None.

Definition mutable (c : Connection) : bool :=
  match conn_status c with CS_Revoked | CS_Erased => false | _ => true end.

Definition material_gone (c : Connection) : bool :=
  forallb (λ version, gone (material version)) (btree_values (versions c)).

(** [Connection::revoke]: every open candidate is cancelled. *)
Definition revoke_version (v : Version) : Version :=
  if phase_open (version_phase v)
  then v <| version_phase := VP_Cancelled |> <| material := require_erasure (material v) |>
  else v.

Definition revoke (c : Connection) : Connection :=
  c <| conn_status := CS_Revoked |> <| versions := revoke_version <$> versions c |>.

Record ModelSelection := mkModelSelection {
  sel_connection : ModelConnectionId;
  sel_model : string;
}.

(** ** Subject grants ([access.rs]) *)

Record Project := mkProject {
  project_authority : AuthorityId;
  project_id : ProjectId;
}.

Inductive Subject := S_Member (member : AuthorityId) | S_Project (project : Project).

Record BudgetKey := mkBudgetKey {
  connection_family : ModelConnectionId;
  budget_subject : Subject;
}.

#[export] Instance Project_eq_dec : EqDecision Project.
Proof. solve_decision. Defined.
#[export] Instance Subject_eq_dec : EqDecision Subject.
Proof. solve_decision. Defined.
#[export] Instance BudgetKey_eq_dec : EqDecision BudgetKey.
Proof. solve_decision. Defined.

#[export] Instance Project_countable : Countable Project.
Proof.
  by refine (inj_countable' (λ p, (project_authority p, project_id p))
    (λ '(a, i), mkProject a i) _); intros [].
Defined.
#[export] Instance Subject_countable : Countable Subject.
Proof.
  by refine (inj_countable' (λ s, match s with S_Member m => inl m | S_Project p => inr p end)
    (λ s, match s with inl m => S_Member m | inr p => S_Project p end) _); intros [].
Defined.
#[export] Instance BudgetKey_countable : Countable BudgetKey.
Proof.
  by refine (inj_countable' (λ b, (connection_family b, budget_subject b))
    (λ '(f, s), mkBudgetKey f s) _); intros [].
Defined.

(** [derive(Ord)]: lexicographic in declaration order, variants in order. *)
Definition lex_leb {A B} `{EqDecision A, KeyOrd A, KeyOrd B} (x y : A * B) : bool :=
  if bool_decide (x.1 = y.1) then key_leb x.2 y.2 else key_leb x.1 y.1.

#[export] Instance Project_ord : KeyOrd Project := λ p q,
  lex_leb (project_authority p, project_id p) (project_authority q, project_id q).
#[export] Instance Subject_ord : KeyOrd Subject := λ s t,
  match s, t with
  | S_Member a, S_Member b => key_leb a b
  | S_Member _, S_Project _ => true
  | S_Project _, S_Member _ => false
  | S_Project p, S_Project q => key_leb p q
  end.
#[export] Instance BudgetKey_ord : KeyOrd BudgetKey := λ b c,
  lex_leb (connection_family b, budget_subject b) (connection_family c, budget_subject c).

Inductive PrincipalClass := PC_Member | PC_ExternalParticipant | PC_Service | PC_PublicSession.

#[export] Instance PrincipalClass_eq_dec : EqDecision PrincipalClass.
Proof. solve_decision. Defined.
#[export] Instance PrincipalClass_countable : Countable PrincipalClass.
Proof.
  by refine (inj_countable'
    (λ c, match c with
          | PC_Member => (false, false) | PC_ExternalParticipant => (false, true)
          | PC_Service => (true, false) | PC_PublicSession => (true, true)
          end)
    (λ p, match p with
          | (false, false) => PC_Member | (false, true) => PC_ExternalParticipant
          | (true, false) => PC_Service | (true, true) => PC_PublicSession
          end) _); intros [].
Defined.

Inductive Initiator :=
| I_Member (member : AuthorityId)
| I_ExternalParticipant (participant : AuthorityId)
| I_Service (service : AuthorityId)
| I_PublicSession (deployment session : string).

#[export] Instance Initiator_eq_dec : EqDecision Initiator.
Proof. solve_decision. Defined.

Definition initiator_class (i : Initiator) : PrincipalClass :=
  match i with
  | I_Member _ => PC_Member
  | I_ExternalParticipant _ => PC_ExternalParticipant
  | I_Service _ => PC_Service
  | I_PublicSession _ _ => PC_PublicSession
  end.

Record Currency := mkCurrency { code : string }.

#[export] Instance Currency_eq_dec : EqDecision Currency.
Proof. solve_decision. Defined.
#[export] Instance Currency_countable : Countable Currency.
Proof. by refine (inj_countable' code mkCurrency _); intros []. Defined.
#[export] Instance Currency_ord : KeyOrd Currency := λ a b,
  key_leb (mkId (code a) : AuthorityId) (mkId (code b)).

(** [TryFrom<String> for Currency] *)
Definition currency_try_from (value : string) : result string Currency :=
  if bool_decide (length (bytes_of value) = 3)
     && forallb (λ byte, bool_decide (65 ≤ byte ≤ 90)%N) (bytes_of value)
  then Ok (mkCurrency value)
  else Err "currency must be a three-letter uppercase code"%string.

Record Money := mkMoney {
  currency : Currency;
  micros : N; (* u64 *)
}.

#[export] Instance Money_eq_dec : EqDecision Money.
Proof. solve_decision. Defined.

Record Caps := mkCaps {
  cap_tokens : option N; (* u64 *)
  cap_money : option Money;
}.

#[export] Instance Caps_eq_dec : EqDecision Caps.
Proof. solve_decision. Defined.

Inductive GrantStatus := GS_Active | GS_Suspended | GS_Revoked.

#[export] Instance GrantStatus_eq_dec : EqDecision GrantStatus.
Proof. solve_decision. Defined.

Record GrantDefinition := mkGrantDefinition {
  grant_connection : ModelConnectionId;
  grant_subject : Subject;
  grant_policy : ModelPolicy;
  audiences : gset PrincipalClass;
  caps : Caps;
}.

#[export] Instance GrantDefinition_eta : Eta GrantDefinition := mkEta (λ d,
  mkGrantDefinition (grant_connection d) (grant_subject d) (grant_policy d) (audiences d) (caps d)).

Record Grant := mkGrant {
  definition : GrantDefinition;
  budget : BudgetKey;
  grant_revision : N; (* u64 *)
  grant_status : GrantStatus;
}.

#[export] Instance Grant_eta : Eta Grant := mkEta (λ g,
  mkGrant (definition g) (budget g) (grant_revision g) (grant_status g)).

Record Invocation := mkInvocation {
  inv_connection : ModelConnectionId;
  inv_version : CredentialVersionId;
  inv_provider : ProviderBinding;
  inv_model : string;
  class : ExecutionClass;
  initiator : Initiator;
  project : option Project;
  home : option HomeId;
  work : ObservationId;
  final_fetch : AuthorityId;
  request_digest : list N; (* [u8; 32] *)
}.

#[export] Instance Invocation_eq_dec : EqDecision Invocation.
Proof. solve_decision. Defined.

Record ExecutionEvidence := mkExecutionEvidence {
  observed : Invocation;
  current_identity_and_work : bool;
  funding_admitted : bool;
  private_plaintext_admitted : bool;
  public_deployment_and_budget_admitted : bool;
  observation : ObservationId;
}.

Record ApplicableGrant := mkApplicableGrant {
  app_id : ModelGrantId;
  app_revision : N;
  app_budget : BudgetKey;
  app_caps : Caps;
}.

#[export] Instance ApplicableGrant_eq_dec : EqDecision ApplicableGrant.
Proof. solve_decision. Defined.

Record PrivateSelectionOption := mkPrivateSelectionOption {
  pso_connection : ModelConnectionId;
  pso_models : gset string;
}.

(** ** The attempt ledger ([spend.rs]) *)

Record Month := mkMonth { year : N; month : N }.

#[export] Instance Month_eq_dec : EqDecision Month.
Proof. solve_decision. Defined.

Record Bound := mkBound {
  bound_tokens : N; (* u64 *)
  bound_money : option Money;
  bound_rate : option ObservationId;
  enforcement : ObservationId;
}.

Record Usage := mkUsage {
  usage_tokens : N; (* u64 *)
  usage_money : option Money;
  usage_rate : option ObservationId;
  runtime : ObservationId;
}.

#[export] Instance Bound_eq_dec : EqDecision Bound.
Proof. solve_decision. Defined.
#[export] Instance Usage_eq_dec : EqDecision Usage.
Proof. solve_decision. Defined.

Inductive Phase :=
| Ph_Reserved | Ph_Dispatched | Ph_Unknown | Ph_Settled | Ph_AccountedAtBound | Ph_Released.

#[export] Instance Phase_eq_dec : EqDecision Phase.
Proof. solve_decision. Defined.

Record Attempt := mkAttempt {
  invocation : Invocation;
  attempt_grants : list ApplicableGrant;
  attempt_month : Month;
  bound : Bound;
  reserved_until : N;
  reconcile_by : N;
  attempt_revision : N; (* u64 *)
  phase : Phase;
  usage : option Usage;
  measurements : gmap ObservationId Usage;
  unknown_evidence : option ObservationId;
  overrun : bool;
  reconciled_with : option ObservationId;
}.

#[export] Instance Attempt_eta : Eta Attempt := mkEta (λ a,
  mkAttempt (invocation a) (attempt_grants a) (attempt_month a) (bound a) (reserved_until a)
    (reconcile_by a) (attempt_revision a) (phase a) (usage a) (measurements a)
    (unknown_evidence a) (overrun a) (reconciled_with a)).

(** ** The state *)

Record State := mkState {
  binding : option AuthorityBinding;
  revision : N; (* u64 *)
  last_at : N; (* u64 *)
  connections : gmap ModelConnectionId Connection;
  default_selection : option ModelSelection;
  used_handles : gset SecretHandleId;
  grants : gmap ModelGrantId Grant;
  attempts : gmap ModelAttemptId Attempt;
  failed_enforcements : gset ObservationId;
}.

#[export] Instance State_eta : Eta State := mkEta (λ s,
  mkState (binding s) (revision s) (last_at s) (connections s) (default_selection s) (used_handles s)
    (grants s) (attempts s) (failed_enforcements s)).

Definition state_default : State := mkState None 0 0 ∅ None ∅ ∅ ∅ ∅.

Definition available_default (s : State) : option ModelSelection :=
  selection ← default_selection s;
  connection ← connections s !! sel_connection selection;
  _ ← active_version connection;
  if bool_decide (sel_model selection ∈ models (conn_policy (conn_definition connection)))
     && negb (bool_decide (execution_classes (conn_policy (conn_definition connection)) = ∅))
  then Some selection else None.

(** ** Commands *)

Inductive Capability :=
| ManageConnections | ManageGrants | InvokeProvider | ObserveUsage | ReconcileBounds
| SealCandidate | VerifyCandidate | ObserveDeadline | ConfirmErasure | OrganizationClosure.

#[export] Instance Capability_eq_dec : EqDecision Capability.
Proof. solve_decision. Defined.

Inductive Basis :=
| B_Metadata (revision : N)
| B_Dispatch (metadata : N) (attempt : ModelAttemptId) (revision : N)
| B_Attempt (id : ModelAttemptId) (revision : N).

#[export] Instance Basis_eq_dec : EqDecision Basis.
Proof. solve_decision. Defined.

(** [fn connection(state, id)] and [fn candidate(connection, id)] *)
Definition connection (state : State) (id : ModelConnectionId) : result Rejection Connection :=
  ok_or (connections state !! id) (mkRejection "unknown connection").

Definition candidate (c : Connection) (id : CredentialVersionId) : result Rejection Version :=
  ok_or (versions c !! id) (mkRejection "unknown credential version").
