(* ===== verification/ModelAccess.v ===== *)
(** * Organization model connections: subject grants

    [crates/core/src/model_connection/access.rs]: the grant lifecycle and the
    exact, current admission of one provider request ([applicable]). *)

From S2P Require Import Prelude Ids Lifecycle ModelData.

(** [access::Operation] and [access::Change] *)
Inductive GrantOperation :=
| GO_SetCaps (id : ModelGrantId) (caps : Caps)
| GO_Create (id : ModelGrantId) (definition : GrantDefinition) (subject_admission : ObservationId)
| GO_Edit (id : ModelGrantId) (policy : ModelPolicy) (audiences : gset PrincipalClass) (caps : Caps)
| GO_Suspend (id : ModelGrantId)
| GO_Resume (id : ModelGrantId) (subject_admission : ObservationId)
| GO_Revoke (id : ModelGrantId).

Inductive GrantChange :=
| GC_CapsChanged (id : ModelGrantId) (caps : Caps)
| GC_Created (id : ModelGrantId) (grant : Grant) (subject_admission : ObservationId)
| GC_Edited (id : ModelGrantId) (policy : ModelPolicy) (audiences : gset PrincipalClass) (caps : Caps)
| GC_Suspended (id : ModelGrantId)
| GC_Resumed (id : ModelGrantId) (subject_admission : ObservationId)
| GC_Revoked (id : ModelGrantId).

Definition valid_definition (state : State) (definition : GrantDefinition)
    : result Rejection unit :=
  let? current := connection state (grant_connection definition) in
  try! require (mutable current) "cannot grant a terminal connection";
  let policy := conn_policy (conn_definition current) in
  try! require (negb (bool_decide (models (grant_policy definition) = ∅))
                && bool_decide (models (grant_policy definition) ⊆ models policy)
                && negb (bool_decide (execution_classes (grant_policy definition) = ∅))
                && bool_decide (execution_classes (grant_policy definition) ⊆ execution_classes policy))
         "grant models or execution classes are not approved";
  try! require (negb (bool_decide (audiences definition = ∅)))
         "grant requires an admitted audience";
  match grant_subject definition with
  | S_Member _ =>
      require (bool_decide (audiences definition = {[PC_Member]})
               && negb (bool_decide (PublicDirect ∈ execution_classes (grant_policy definition))))
        "a member grant cannot fund another principal or public deployment"
  | S_Project _ => Ok ()
  end.

Definition grant (state : State) (id : ModelGrantId) : result Rejection Grant :=
  ok_or (grants state !! id) (mkRejection "unknown model grant").

(** [require(grant.revision.checked_add(1).is_some(), ..)] *)
Definition revision_left (revision : N) : bool :=
  bool_decide (is_Some (u64_checked_add revision 1)).

Definition grant_decide (state : State) (operation : GrantOperation)
    : result Rejection GrantChange :=
  match operation with
  | GO_SetCaps id caps =>
      let? g := grant state id in
      try! require (negb (bool_decide (grant_status g = GS_Revoked))) "grant is terminal";
      let? c := connection state (grant_connection (definition g)) in
      try! require (mutable c) "connection is terminal";
      try! require (revision_left (grant_revision g)) "grant revision exhausted";
      Ok (GC_CapsChanged id caps)
  | GO_Create id definition subject_admission =>
      try! require (negb (bool_decide (is_Some (grants state !! id)))) "grant identity already exists";
      try! valid_definition state definition;
      let? c := connection state (grant_connection definition) in
      let budget := mkBudgetKey (budget_family c) (grant_subject definition) in
      Ok (GC_Created id (mkGrant definition budget 1 GS_Active) subject_admission)
  | GO_Edit id policy audiences caps =>
      let? g := grant state id in
      try! require (negb (bool_decide (grant_status g = GS_Revoked))) "grant is terminal";
      try! require (revision_left (grant_revision g)) "grant revision exhausted";
      let candidate := (definition g) <| grant_policy := policy |>
                         <| ModelData.audiences := audiences |> <| ModelData.caps := caps |> in
      try! valid_definition state candidate;
      Ok (GC_Edited id policy audiences caps)
  | GO_Suspend id =>
      let? g := grant state id in
      try! require (bool_decide (grant_status g = GS_Active)) "grant is not active";
      try! require (revision_left (grant_revision g)) "grant revision exhausted";
      Ok (GC_Suspended id)
  | GO_Resume id subject_admission =>
      let? g := grant state id in
      try! require (bool_decide (grant_status g = GS_Suspended)) "grant is not suspended";
      try! require (revision_left (grant_revision g)) "grant revision exhausted";
      try! valid_definition state (definition g);
      Ok (GC_Resumed id subject_admission)
  | GO_Revoke id =>
      let? g := grant state id in
      try! require (negb (bool_decide (grant_status g = GS_Revoked))) "grant is already revoked";
      try! require (revision_left (grant_revision g)) "grant revision exhausted";
      Ok (GC_Revoked id)
  end.

(** [state.grants.get_mut(&id).expect("admitted grant")], updated by [f]. *)
Definition update_grant (state : State) (id : ModelGrantId) (f : Grant → Grant) : option State :=
  g ← grants state !! id;
  Some (state <| grants := <[id := f g]> (grants state) |>).

Definition bump_grant (g : Grant) : Grant :=
  g <| grant_revision := u64_add (grant_revision g) 1 |>.

Definition grant_evolve (state : State) (change : GrantChange) : option State :=
  match change with
  | GC_CapsChanged id caps =>
      update_grant state id (λ g,
        bump_grant (g <| definition := (definition g) <| ModelData.caps := caps |> |>))
  | GC_Created id grant _ => Some (state <| grants := <[id := grant]> (grants state) |>)
  | GC_Edited id policy audiences caps =>
      update_grant state id (λ g,
        bump_grant (g <| definition := (definition g) <| grant_policy := policy |>
                           <| ModelData.audiences := audiences |> <| ModelData.caps := caps |> |>))
  | GC_Suspended id => update_grant state id (λ g, bump_grant (g <| grant_status := GS_Suspended |>))
  | GC_Resumed id _ => update_grant state id (λ g, bump_grant (g <| grant_status := GS_Active |>))
  | GC_Revoked id => update_grant state id (λ g, bump_grant (g <| grant_status := GS_Revoked |>))
  end.

(** ** Discovery *)

Definition private_grant (connection_id : ModelConnectionId) (actor : AuthorityId)
    (project : option Project) (g : Grant) : bool :=
  bool_decide (grant_status g = GS_Active)
  && bool_decide (grant_connection (definition g) = connection_id)
  && bool_decide (PrivateBroker ∈ execution_classes (grant_policy (definition g)))
  && bool_decide (PC_Member ∈ audiences (definition g))
  && match grant_subject (definition g) with
     | S_Member member => bool_decide (member = actor)
     | S_Project subject => bool_decide (project = Some subject)
     end.

Definition private_selection_options (state : State) (actor : AuthorityId)
    (project : option Project) : list PrivateSelectionOption :=
  omap (λ '(connection_id, connection),
    _ ← active_version connection;
    if bool_decide (PrivateBroker ∈ execution_classes (conn_policy (conn_definition connection)))
    then
      let offered := filter (λ g, private_grant connection_id actor project g = true)
                       (btree_values (grants state)) in
      let models := filter (λ m, m ∈ models (conn_policy (conn_definition connection)))
                      (⋃ ((λ g, models (grant_policy (definition g))) <$> offered)) in
      if bool_decide (models = ∅) then None
      else Some (mkPrivateSelectionOption connection_id models)
    else None) (btree_iter (connections state)).

(** ** Admission of one request *)

Definition is_public_session (i : Initiator) : bool :=
  match i with I_PublicSession _ _ => true | _ => false end.
Definition is_project (s : Subject) : bool :=
  match s with S_Project _ => true | S_Member _ => false end.

(** The subject rule shared by [applicable] and [Attempt::charges]. *)
Definition subject_matches (subject : Subject) (i : Invocation) : bool :=
  match subject with
  | S_Member member =>
      match initiator i with I_Member actual => bool_decide (actual = member) | _ => false end
  | S_Project p => bool_decide (project i = Some p)
  end.

Definition grant_matches (i : Invocation) (g : Grant) : bool :=
  bool_decide (grant_status g = GS_Active)
  && bool_decide (grant_connection (definition g) = inv_connection i)
  && subject_matches (grant_subject (definition g)) i.

Definition grant_authorizes (i : Invocation) (g : Grant) : bool :=
  bool_decide (inv_model i ∈ models (grant_policy (definition g)))
  && bool_decide (class i ∈ execution_classes (grant_policy (definition g)))
  && bool_decide (initiator_class (initiator i) ∈ audiences (definition g))
  && (negb (bool_decide (class i = PublicDirect)) || is_project (grant_subject (definition g))).

(** The class rule: who may receive plaintext, and where. *)
Definition class_admitted (i : Invocation) (evidence : ExecutionEvidence) : result Rejection unit :=
  match class i with
  | PrivateBroker =>
      require (private_plaintext_admitted evidence && negb (is_public_session (initiator i))
               && (bool_decide (project i = None) || bool_decide (is_Some (home i))))
        "private broker is not an admitted plaintext recipient"
  | PublicDirect =>
      require (public_deployment_and_budget_admitted evidence && bool_decide (is_Some (project i))
               && bool_decide (home i = None) && is_public_session (initiator i))
        "public use requires owner-admitted project deployment and budget"
  end.

Definition connection_current (c : Connection) (i : Invocation) : bool :=
  bool_decide (active_version c = Some (inv_version i))
  && bool_decide (conn_provider (conn_definition c) = inv_provider i)
  && bool_decide (inv_model i ∈ models (conn_policy (conn_definition c)))
  && bool_decide (class i ∈ execution_classes (conn_policy (conn_definition c))).

Definition applicable (state : State) (i : Invocation) (evidence : ExecutionEvidence)
    (actor : AuthorityId) : result Rejection (list ApplicableGrant) :=
  try! require (bool_decide (final_fetch i = actor)) "wrong final-fetch actor";
  try! require (bool_decide (observed evidence = i) && current_identity_and_work evidence
                && funding_admitted evidence)
         "current identity, work or funding admission is missing or mismatched";
  try! class_admitted i evidence;
  let? current := connection state (inv_connection i) in
  try! require (connection_current current i)
         "connection, version, provider, model or execution class is not current";
  let matching := filter (λ p, grant_matches i p.2 = true) (btree_iter (grants state)) in
  try! require (existsb (λ p, grant_authorizes i p.2) matching)
         "no current grant authorizes this invocation";
  Ok ((λ '(id, g), mkApplicableGrant id (grant_revision g) (budget g) (caps (definition g)))
        <$> matching).

(** [access::budgets]: the caps of each stable budget, in grant order. *)
Definition push_caps (result : gmap BudgetKey (list Caps)) (g : ApplicableGrant)
    : gmap BudgetKey (list Caps) :=
  <[app_budget g := default [] (result !! app_budget g) ++ [app_caps g]]> result.

Definition budgets (applied : list ApplicableGrant) : gmap BudgetKey (list Caps) :=
  fold_left push_caps applied ∅.

(** ** Lemmas *)

Lemma budgets_lookup applied b :
  default [] (budgets applied !! b) = app_caps <$> filter (λ g, app_budget g = b) applied.
Proof.
  unfold budgets. induction applied as [|g applied IH] using rev_ind; [done|].
  rewrite fold_left_app, filter_app, fmap_app, <- IH. simpl.
  rewrite filter_cons, filter_nil. unfold push_caps at 1. case_decide as Hb.
  - rewrite <- Hb. by rewrite lookup_insert_eq.
  - rewrite lookup_insert_ne by done. by rewrite app_nil_r.
Qed.

(** The caps of every applied grant are in its budget's entry. *)
Lemma budgets_complete applied g :
  g ∈ applied → ∃ cs, budgets applied !! app_budget g = Some cs ∧ app_caps g ∈ cs.
Proof.
  intros Hg. pose proof (budgets_lookup applied (app_budget g)) as Hb.
  assert (app_caps g ∈ default [] (budgets applied !! app_budget g)) as Hin.
  { rewrite Hb. apply list_elem_of_fmap. exists g. split; [done|]. by apply list_elem_of_filter. }
  destruct (budgets applied !! app_budget g) as [cs|]; [eauto|]. by apply elem_of_nil in Hin.
Qed.

(** What an admitted request establishes. *)
Record admitted (state : State) (i : Invocation) (evidence : ExecutionEvidence)
    (actor : AuthorityId) (applied : list ApplicableGrant) : Prop := {
  adm_actor : final_fetch i = actor;
  adm_observed : observed evidence = i;
  adm_identity : current_identity_and_work evidence = true;
  adm_funding : funding_admitted evidence = true;
  adm_class : class_admitted i evidence = Ok ();
  adm_connection : ∃ c, connections state !! inv_connection i = Some c
                        ∧ connection_current c i = true;
  adm_authorized : ∃ id g, grants state !! id = Some g ∧ grant_matches i g = true
                           ∧ grant_authorizes i g = true;
  (** every active grant of the matching subjects restricts the request *)
  adm_applied : ∀ a, a ∈ applied ↔ ∃ g, grants state !! app_id a = Some g
    ∧ grant_matches i g = true
    ∧ a = mkApplicableGrant (app_id a) (grant_revision g) (budget g) (caps (definition g));
}.

Lemma elem_of_matching state i (id : ModelGrantId) g :
  (id, g) ∈ filter (λ p, grant_matches i p.2 = true) (btree_iter (grants state))
  ↔ grants state !! id = Some g ∧ grant_matches i g = true.
Proof. rewrite list_elem_of_filter, elem_of_btree_iter. simpl. tauto. Qed.

Lemma existsb_matching state i :
  existsb (λ p, grant_authorizes i p.2)
    (filter (λ p, grant_matches i p.2 = true) (btree_iter (grants state))) = true
  ↔ ∃ id g, grants state !! id = Some g ∧ grant_matches i g = true ∧ grant_authorizes i g = true.
Proof.
  rewrite existsb_exists. setoid_rewrite <- list_elem_of_In. split.
  - intros ([id g] & Hin%elem_of_matching & Ha). naive_solver.
  - intros (id & g & Hg & Hm & Ha). exists (id, g). by rewrite elem_of_matching.
Qed.

Lemma applicable_ok state i evidence actor applied :
  applicable state i evidence actor = Ok applied → admitted state i evidence actor applied.
Proof.
  unfold applicable, connection. intros H. ok_inv H. guards.
  repeat match goal with u : unit |- _ => destruct u end.
  split; try done; [by eauto|by apply existsb_matching|].
  intros a. rewrite list_elem_of_fmap. split.
  - intros ([id g] & -> & [Hg Hm]%elem_of_matching). simpl. eauto.
  - intros (g & Hg & Hm & Ha). exists (app_id a, g). by rewrite elem_of_matching.
Qed.

Lemma applicable_complete state i evidence actor c :
  final_fetch i = actor → observed evidence = i → current_identity_and_work evidence = true →
  funding_admitted evidence = true → class_admitted i evidence = Ok () →
  connections state !! inv_connection i = Some c → connection_current c i = true →
  (∃ id g, grants state !! id = Some g ∧ grant_matches i g = true ∧ grant_authorizes i g = true) →
  ∃ applied, applicable state i evidence actor = Ok applied.
Proof.
  intros <- Ho Hi Hf Hcl Hc Hcur Ha%existsb_matching. unfold applicable, connection.
  rewrite bool_decide_eq_true_2 by done. simpl. rewrite Ho, bool_decide_eq_true_2, Hi, Hf by done.
  simpl. rewrite Hcl, Hc. simpl. rewrite Hcur. simpl. rewrite Ha. simpl. eauto.
Qed.

Lemma admitted_nonempty state i evidence actor applied :
  admitted state i evidence actor applied → applied ≠ [].
Proof.
  intros Hadm ->. destruct (adm_authorized _ _ _ _ _ Hadm) as (id & g & Hg & Hm & _).
  apply (elem_of_nil (mkApplicableGrant id (grant_revision g) (budget g) (caps (definition g)))).
  apply (adm_applied _ _ _ _ _ Hadm). eauto.
Qed.

(** ** Invariant of the grants

    A grant's budget key is its connection's family and its subject, for the
    whole life of the grant, and its revision never wraps. *)

Definition grant_ok (conns : gmap ModelConnectionId Connection) (g : Grant) : Prop :=
  (∃ c, conns !! grant_connection (definition g) = Some c
        ∧ budget g = mkBudgetKey (budget_family c) (grant_subject (definition g)))
  ∧ (grant_revision g < u64_modulus)%N.

Definition grants_ok (s : State) : Prop :=
  ∀ id g, grants s !! id = Some g → grant_ok (connections s) g.

Lemma valid_definition_connection s d :
  valid_definition s d = Ok () → is_Some (connections s !! grant_connection d).
Proof. unfold valid_definition, connection. intros H. ok_inv H; eauto. Qed.

Lemma revision_left_spec r : revision_left r = true ↔ (r + 1 < u64_modulus)%N.
Proof.
  unfold revision_left. rewrite bool_decide_eq_true. split.
  - by intros [x [_ ?]%checked_add_Some].
  - intros Hr. exists (r + 1)%N. by apply checked_add_Some.
Qed.

(** Updating a grant keeps its connection and subject and advances its
    revision. *)
Lemma update_grant_ok s id g f :
  grants_ok s → grants s !! id = Some g → revision_left (grant_revision g) = true →
  grant_connection (definition (f g)) = grant_connection (definition g) →
  grant_subject (definition (f g)) = grant_subject (definition g) →
  budget (f g) = budget g → grant_revision (f g) = u64_add (grant_revision g) 1 →
  ∃ s', update_grant s id f = Some s' ∧ grants_ok s' ∧ s' = s <| grants := grants s' |>.
Proof.
  intros Hok Hg Hrev Hc Hs Hb Hr. unfold update_grant. rewrite Hg. simpl.
  eexists. split; [done|]. split; [|done]. intros j h. simpl.
  destruct (decide (id = j)) as [<-|Hne].
  - rewrite lookup_insert_eq. intros [= <-]. destruct (Hok id g Hg) as [(c & Hcon & Hbud) Hlt].
    apply revision_left_spec in Hrev. split.
    + exists c. by rewrite Hc, Hs, Hb.
    + rewrite Hr, u64_add_exact; done.
  - rewrite lookup_insert_ne by done. apply Hok.
Qed.

Lemma grant_step s op ch :
  grants_ok s → grant_decide s op = Ok ch →
  ∃ s', grant_evolve s ch = Some s' ∧ grants_ok s' ∧ s' = s <| grants := grants s' |>.
Proof.
  intros Hok Hd. destruct op; simpl in Hd; unfold grant, connection in Hd.
  2: { ok_inv Hd. eexists. split; [done|]. split; [|done]. intros j h. simpl.
       destruct (decide (id = j)) as [<-|]; [|rewrite lookup_insert_ne by done; apply Hok].
       rewrite lookup_insert_eq. intros [= <-]. split; [|done]. eauto. }
  all: ok_inv Hd; simpl; eapply update_grant_ok; eauto.
Qed.

(** ** Properties *)

Lemma elem_of_options state actor project o :
  o ∈ private_selection_options state actor project ↔
  ∃ c, connections state !! pso_connection o = Some c ∧ is_Some (active_version c)
    ∧ PrivateBroker ∈ execution_classes (conn_policy (conn_definition c))
    ∧ pso_models o ≠ ∅
    ∧ pso_models o = filter (λ m, m ∈ models (conn_policy (conn_definition c)))
        (⋃ ((λ g, models (grant_policy (definition g))) <$>
            filter (λ g, private_grant (pso_connection o) actor project g = true)
              (btree_values (grants state)))).
Proof.
  unfold private_selection_options. rewrite list_elem_of_omap. split.
  - intros ([id c] & Hin%elem_of_btree_iter & Ho).
    destruct (active_version c) eqn:Hact; simpl in Ho; [|done].
    case_bool_decide; [|done]. case_bool_decide; [done|]. simplify_eq/=. eauto 10.
  - intros (c & Hc & [v Hv] & Hcl & Hne & Hm). exists (pso_connection o, c).
    rewrite elem_of_btree_iter. split; [done|]. rewrite Hv. simpl.
    rewrite bool_decide_eq_true_2 by done. rewrite <- Hm, bool_decide_eq_false_2 by done.
    by destruct o.
Qed.

(** Discovery agrees with admission. For a member's private request on a
    connection whose version and provider are current, with the shell's
    observations in place, the picker offers the model exactly when some current
    grant lets the request through. *)
Theorem selection_options_admissible state i evidence actor member c :
  initiator i = I_Member member → class i = PrivateBroker →
  final_fetch i = actor → observed evidence = i → current_identity_and_work evidence = true →
  funding_admitted evidence = true → private_plaintext_admitted evidence = true →
  (project i = None ∨ is_Some (home i)) →
  connections state !! inv_connection i = Some c → active_version c = Some (inv_version i) →
  conn_provider (conn_definition c) = inv_provider i →
  (∃ o, o ∈ private_selection_options state member (project i)
        ∧ pso_connection o = inv_connection i ∧ inv_model i ∈ pso_models o)
  ↔ ∃ applied, applicable state i evidence actor = Ok applied.
Proof.
  intros Hini Hcl Hff Hobs Hid Hfund Hpt Hhome Hc Hact Hprov.
  assert (class_admitted i evidence = Ok ()) as Hca.
  { unfold class_admitted, require. rewrite Hcl, Hpt, Hini. simpl.
    destruct Hhome as [->|[h ->]]; [by rewrite bool_decide_eq_true_2|].
    by destruct (project i). }
  assert (∀ g, private_grant (inv_connection i) member (project i) g = true
    ∧ inv_model i ∈ models (grant_policy (definition g))
    ↔ grant_matches i g = true ∧ grant_authorizes i g = true) as Hgrant.
  { intros g. unfold private_grant, grant_matches, grant_authorizes, subject_matches.
    rewrite Hini, Hcl. simpl.
    destruct (grant_subject (definition g)); simpl;
      rewrite ?andb_true_iff, ?bool_decide_eq_true; naive_solver. }
  split.
  - intros (o & Ho & Hoc & Hm). apply elem_of_options in Ho as (c' & Hc' & _ & Hpb & _ & Heq).
    rewrite Hoc in *. assert (c' = c) as -> by congruence. rewrite Heq in Hm.
    apply elem_of_filter in Hm as [Hcm Hm].
    apply elem_of_union_list in Hm as (ms & (g & -> & [Hpg Hg]%list_elem_of_filter)%list_elem_of_fmap & Hm).
    apply elem_of_btree_values in Hg as [id Hg].
    eapply applicable_complete; try done.
    + unfold connection_current. rewrite Hact, Hprov, Hcl, !bool_decide_eq_true_2; done.
    + exists id, g. by split; [|apply Hgrant].
  - intros [applied [_ _ _ _ _ (c' & Hc' & Hcur) (id & g & Hg & Hmatch) _]%applicable_ok].
    assert (c' = c) as -> by congruence. apply Hgrant in Hmatch as [Hpg Hm].
    unfold connection_current in Hcur. rewrite Hcl in Hcur. guards.
    assert (inv_model i ∈ (filter (λ m, m ∈ models (conn_policy (conn_definition c)))
        (⋃ ((λ g, models (grant_policy (definition g))) <$>
            filter (λ g, private_grant (inv_connection i) member (project i) g = true)
              (btree_values (grants state)))) : gset string)) as Hin.
    { apply elem_of_filter. split; [done|]. apply elem_of_union_list. eexists. split; [|exact Hm].
      apply list_elem_of_fmap. exists g. split; [done|]. apply list_elem_of_filter. split; [done|].
      apply elem_of_btree_values. eauto. }
    eexists (mkPrivateSelectionOption (inv_connection i) _). split; [|by split; [|exact Hin]].
    apply elem_of_options. exists c. simpl. split_and!; [done|by eauto|done| |done].
    intros He. rewrite He in Hin. by apply not_elem_of_empty in Hin.
Qed.

(** A small organization: one active connection, one project grant of 100 tokens
    a month. *)
Module Sample.
Definition policy : ModelPolicy := mkModelPolicy {["m1"%string]} {[PrivateBroker]}.
Definition binding : ProviderBinding := mkProviderBinding "p" "https://p" ApiKey.
Definition conn : Connection :=
  mkConnection (mkConnectionDefinition "c" binding policy) (mkId "c1") CS_Active
    {[mkId "v1" := mkVersion 50 (VP_Activated (mkId "e")) (M_Held (mkId "h"))
                     (Some (mkVerification ModelCatalogRead 7))]}
    (Some (mkId "v1")) false.
Definition team : Project := mkProject (mkId "org") (mkId "p1").
Definition grant1 : Grant :=
  mkGrant (mkGrantDefinition (mkId "c1") (S_Project team) policy {[PC_Member]} (mkCaps (Some 100%N) None))
    (mkBudgetKey (mkId "c1") (S_Project team)) 1 GS_Active.
Definition state : State :=
  mkState None 3 9 {[mkId "c1" := conn]} None {[mkId "h"]} {[mkId "g1" := grant1]} ∅ ∅.
Definition request : Invocation :=
  mkInvocation (mkId "c1") (mkId "v1") binding "m1" PrivateBroker (I_Member (mkId "alice"))
    (Some team) (Some (mkId "home")) (mkId "w") (mkId "fetch") [].
Definition evidence : ExecutionEvidence :=
  mkExecutionEvidence request true true true false (mkId "obs").
End Sample.

Lemma selection_options_admissible_witness :
  ∃ o, o ∈ private_selection_options Sample.state (mkId "alice") (Some Sample.team)
    ∧ pso_connection o = mkId "c1" ∧ "m1"%string ∈ pso_models o.
Proof.
  apply (selection_options_admissible Sample.state Sample.request Sample.evidence (mkId "fetch")
    (mkId "alice") Sample.conn); try reflexivity.
  - right. by exists (mkId "home").
  - eexists. vm_compute. reflexivity.
Defined.
