(* ===== verification/ModelSpend.v ===== *)
(** * Organization model connections: the attempt ledger

    [crates/core/src/model_connection/spend.rs]: calendar months, reservations
    against monthly caps, dispatch, settlement, corrections and overruns, and the
    totals that the caps are enforced against. *)

From S2P Require Import Prelude Ids Lifecycle ModelData ModelAccess.

(** ** Calendar months *)

Definition is_multiple_of (a b : N) : bool := bool_decide (a mod b = 0)%N.

Definition leap (year : N) : bool :=
  is_multiple_of year 4 && (negb (is_multiple_of year 100) || is_multiple_of year 400).

Definition year_length (year : N) : N := if leap year then 366 else 365.

(** The year loop. A 400-year cycle bounds the iterations, so 401 steps of fuel
    are enough; [None] is never reached (see [month_at_total]). *)
Fixpoint year_loop (fuel : nat) (year remaining : N) : option (N * N) :=
  match fuel with
  | O => None
  | S fuel =>
      let length := year_length year in
      if bool_decide (remaining < length)%N then Some (year, remaining)
      else year_loop fuel (year + 1) (remaining - length)
  end.

Definition month_lengths (year : N) : list N :=
  [31; if leap year then 29 else 28; 31; 30; 31; 30; 31; 31; 30; 31; 30; 31]%N.

(** The month loop; [None] is the [unreachable!] after it. *)
Fixpoint month_loop (year index : N) (lengths : list N) (remaining : N) : option Month :=
  match lengths with
  | [] => None
  | length :: lengths =>
      if bool_decide (remaining < length)%N then Some (mkMonth year (index + 1))
      else month_loop year (index + 1) lengths (remaining - length)
  end.

Definition YEAR_FUEL : nat := 401.

(** [Month::at] *)
Definition month_at (seconds : N) : option Month :=
  let days := (seconds / 86400)%N in
  '(year, remaining) ← year_loop YEAR_FUEL (1970 + (days / 146097) * 400) (days mod 146097);
  month_loop year 0 (month_lengths year) remaining.

(** *** Specification: days since 1970-01-01 of the first day of a month *)

(** Days from the (proleptic) year 1 to the start of [year], less those to 1970. *)
Definition days_before_year (year : N) : N :=
  (365 * (year - 1) + (year - 1) / 4 + (year - 1) / 400 - (year - 1) / 100 - 719162)%N.

Definition month_start (m : Month) : N :=
  (days_before_year (year m)
   + foldr N.add 0 (take (N.to_nat (month m) - 1) (month_lengths (year m))))%N.

Definition month_length (m : Month) : N :=
  default 0%N (month_lengths (year m) !! (N.to_nat (month m) - 1)).

Lemma div_pred y k :
  (1 ≤ y)%N → k ≠ 0%N →
  (y / k = (y - 1) / k + if bool_decide (y mod k = 0) then 1 else 0)%N.
Proof.
  intros Hy Hk. pose proof (N.div_mod y k Hk) as Hdm. pose proof (N.mod_lt y k Hk) as Hlt.
  set (q := (y / k)%N) in *. set (r := (y mod k)%N) in *. case_bool_decide as Hr.
  - assert (q ≠ 0%N) by (intros Hq; rewrite Hq in Hdm; lia).
    rewrite <- (N.div_unique (y - 1) k (q - 1) (k - 1)); [lia|lia|]. 
    rewrite N.mul_sub_distr_l. assert (k ≤ k * q)%N by nia. lia.
  - rewrite <- (N.div_unique (y - 1) k q (r - 1)); lia.
Qed.

Lemma mod_multiple y a b : a ≠ 0%N → (y mod (a * b) = 0 → y mod a = 0)%N.
Proof. intros Ha Hm. apply N.Div0.mod_divides in Hm as [c ->]. rewrite <- N.mul_assoc, N.mul_comm.
  by apply N.Div0.mod_mul. Qed.

Lemma since_1970 year :
  (1970 ≤ year)%N →
  (492 ≤ (year - 1) / 4 ∧ 4 ≤ (year - 1) / 400 ∧ (year - 1) / 100 + 1950 ≤ year - 1)%N.
Proof.
  intros Hy. split_and!.
  - change 492%N with (1969 / 4)%N. apply N.Div0.div_le_mono. lia.
  - change 4%N with (1969 / 400)%N. apply N.Div0.div_le_mono. lia.
  - pose proof (N.Div0.mul_div_le (year - 1) 100).
    generalize dependent ((year - 1) / 100)%N. intros q Hq.
    destruct (N.eq_dec year 1970) as [->|]; lia.
Qed.

Lemma days_before_next_year year :
  (1970 ≤ year)%N → days_before_year (year + 1) = (days_before_year year + year_length year)%N.
Proof.
  intros Hy. pose proof (since_1970 year Hy) as (H4 & H400 & H100).
  unfold days_before_year, year_length, leap, is_multiple_of.
  replace (year + 1 - 1)%N with year by lia.
  rewrite (div_pred year 4), (div_pred year 100), (div_pred year 400) by lia.
  pose proof (mod_multiple year 4 25 ltac:(done)). pose proof (mod_multiple year 100 4 ltac:(done)).
  change (4 * 25)%N with 100%N in *. change (100 * 4)%N with 400%N in *.
  generalize dependent ((year - 1) / 100)%N. generalize dependent ((year - 1) / 400)%N.
  generalize dependent ((year - 1) / 4)%N. intros q4 H4 q400 H400 q100 H100.
  repeat case_bool_decide; simpl; try tauto; lia.
Qed.

(** Any 400 consecutive years have 146097 days. *)
Lemma days_before_cycle year n :
  (1970 ≤ year)%N → days_before_year (year + 400 * n) = (days_before_year year + 146097 * n)%N.
Proof.
  intros Hy. unfold days_before_year.
  pose proof (since_1970 year Hy) as (H4 & H400 & H100).
  replace (year + 400 * n - 1)%N with (year - 1 + n * 400)%N by lia.
  rewrite N.div_add by done.
  replace (year - 1 + n * 400)%N with (year - 1 + (n * 100) * 4)%N by lia.
  rewrite N.div_add by done.
  replace (year - 1 + n * 100 * 4)%N with (year - 1 + (n * 4) * 100)%N by lia.
  rewrite N.div_add by done.
  generalize dependent ((year - 1) / 100)%N. generalize dependent ((year - 1) / 400)%N.
  generalize dependent ((year - 1) / 4)%N. intros q4 H4 q400 H400 q100 H100. lia.
Qed.

Lemma year_loop_spec fuel y r :
  (1970 ≤ y)%N → (days_before_year y + r < days_before_year (y + N.of_nat fuel))%N →
  ∃ y' r', year_loop fuel y r = Some (y', r')
    ∧ (days_before_year y + r = days_before_year y' + r')%N ∧ (r' < year_length y')%N ∧ (1970 ≤ y')%N.
Proof.
  revert y r. induction fuel as [|fuel IH]; intros y r Hy Hr.
  - replace (y + N.of_nat 0)%N with y in Hr by lia. lia.
  - simpl. case_bool_decide; [eauto 10|].
    destruct (IH (y + 1)%N (r - year_length y)%N) as (y' & r' & ? & Heq & ? & ?); [lia| |].
    + rewrite days_before_next_year by done.
      replace (y + 1 + N.of_nat fuel)%N with (y + N.of_nat (S fuel))%N by lia. lia.
    + rewrite days_before_next_year in Heq by done. exists y', r'. split_and!; [done|lia|done|done].
Qed.

Lemma month_loop_spec y i lengths r :
  (r < foldr N.add 0 lengths)%N →
  ∃ k, month_loop y i lengths r = Some (mkMonth y (i + N.of_nat k + 1)) ∧ k < length lengths
    ∧ (foldr N.add 0 (take k lengths) ≤ r)%N
    ∧ (r < foldr N.add 0 (take k lengths) + default 0 (lengths !! k))%N.
Proof.
  revert i r. induction lengths as [|l lengths IH]; intros i r Hr; simpl in *; [lia|].
  case_bool_decide.
  - exists 0. simpl. split_and!; [f_equal; f_equal; lia|lia..].
  - destruct (IH (i + 1)%N (r - l)%N) as (k & -> & ? & ? & ?); [lia|].
    exists (S k). simpl. split_and!; [f_equal; f_equal; lia|lia|lia|lia].
Qed.

Lemma year_days y : foldr N.add 0%N (month_lengths y) = year_length y.
Proof. unfold month_lengths, year_length. by destruct (leap y). Qed.

Lemma month_at_exact seconds :
  ∃ m, month_at seconds = Some m ∧ (1 ≤ month m ≤ 12)%N ∧ (1970 ≤ year m)%N
    ∧ (month_start m ≤ seconds / 86400 < month_start m + month_length m)%N.
Proof.
  unfold month_at. set (days := (seconds / 86400)%N).
  pose proof (N.div_mod days 146097 ltac:(done)) as Hdm. pose proof (N.mod_lt days 146097 ltac:(done)) as Hlt.
  set (q := (days / 146097)%N) in *. set (r := (days mod 146097)%N) in *.
  assert (days_before_year (1970 + q * 400) = 146097 * q)%N as Hstart.
  { replace (1970 + q * 400)%N with (1970 + 400 * q)%N by lia. by rewrite days_before_cycle. }
  destruct (year_loop_spec YEAR_FUEL (1970 + q * 400) r) as (y & r' & -> & Heq & Hr' & Hy); [lia| |].
  { pose proof (days_before_cycle (1970 + q * 400) 1) as Hc.
    pose proof (days_before_next_year (1970 + q * 400 + 400)) as Hn.
    replace (1970 + q * 400 + N.of_nat YEAR_FUEL)%N with (1970 + q * 400 + 400 + 1)%N
      by (unfold YEAR_FUEL; lia).
    replace (400 * 1)%N with 400%N in Hc by lia. unfold year_length in Hn. case_match; lia. }
  rewrite <- year_days in Hr'.
  destruct (month_loop_spec y 0 (month_lengths y) r' Hr') as (k & Hm & Hk & Hlo & Hhi).
  eexists. split; [exact Hm|]. unfold month_start, month_length.
  cbn [year month]. replace (N.to_nat (0 + N.of_nat k + 1) - 1) with k by lia.
  assert (length (month_lengths y) = 12) by done. split_and!; lia.
Qed.

(** ** Attempts *)

Definition counted (a : Attempt) : option (N * option Money) :=
  match phase a with
  | Ph_Released => None
  | Ph_Settled => (λ u, (usage_tokens u, usage_money u)) <$> usage a
  | _ => Some (bound_tokens (bound a), bound_money (bound a))
  end.

(** [&self.grants[0].budget.connection_family]; admitted attempts hold at least
    one grant, so the index never fails (see [attempt_ok]). *)
Definition family (a : Attempt) : option ModelConnectionId :=
  (λ g, connection_family (app_budget g)) <$> head (attempt_grants a).

Definition charges (a : Attempt) (b : BudgetKey) : bool :=
  bool_decide (family a = Some (connection_family b))
  && subject_matches (budget_subject b) (invocation a).

(** [spend::Operation] and [spend::Change] *)
Inductive SpendOperation :=
| SO_Reserve (id : ModelAttemptId) (invocation : Invocation) (evidence : ExecutionEvidence)
    (bound : Bound) (reserved_until reconcile_by : N)
| SO_Dispatch (id : ModelAttemptId) (evidence : ExecutionEvidence) (bound : Bound)
| SO_Cancel (id : ModelAttemptId)
| SO_Expire (id : ModelAttemptId)
| SO_OutcomeUnknown (id : ModelAttemptId) (evidence : ObservationId)
| SO_Settle (id : ModelAttemptId) (usage : Usage) (evidence : ObservationId)
| SO_ReconcileDeadline (id : ModelAttemptId)
| SO_Correct (id : ModelAttemptId) (usage : Usage) (evidence : ObservationId)
| SO_ReconcileOverrun (id : ModelAttemptId) (repaired_enforcement evidence : ObservationId).

Definition spend_capability (o : SpendOperation) : Capability :=
  match o with
  | SO_Reserve _ _ _ _ _ _ | SO_Dispatch _ _ _ | SO_Cancel _ => InvokeProvider
  | SO_Expire _ | SO_ReconcileDeadline _ => ObserveDeadline
  | SO_OutcomeUnknown _ _ | SO_Settle _ _ _ | SO_Correct _ _ _ => ObserveUsage
  | SO_ReconcileOverrun _ _ _ => ReconcileBounds
  end.

Definition spend_id (o : SpendOperation) : ModelAttemptId :=
  match o with
  | SO_Reserve id _ _ _ _ _ | SO_Dispatch id _ _ | SO_Cancel id | SO_Expire id
  | SO_OutcomeUnknown id _ | SO_Settle id _ _ | SO_ReconcileDeadline id
  | SO_Correct id _ _ | SO_ReconcileOverrun id _ _ => id
  end.

Inductive SpendChange :=
| SC_Reserved (id : ModelAttemptId) (attempt : Attempt) (evidence : ObservationId)
| SC_Dispatched (id : ModelAttemptId) (evidence : ObservationId)
| SC_Released (id : ModelAttemptId)
| SC_OutcomeUnknown (id : ModelAttemptId) (evidence : ObservationId)
| SC_Settled (id : ModelAttemptId) (usage : Usage) (evidence : ObservationId) (overrun : bool)
| SC_AccountedAtBound (id : ModelAttemptId)
| SC_Corrected (id : ModelAttemptId) (usage : Usage) (evidence : ObservationId) (overrun : bool)
| SC_OverrunReconciled (id : ModelAttemptId) (repaired_enforcement evidence : ObservationId).

Definition attempt (state : State) (id : ModelAttemptId) : result Rejection Attempt :=
  ok_or (attempts state !! id) (mkRejection "unknown provider attempt").

Definition check_basis (state : State) (operation : SpendOperation) (basis : Basis)
    : result Rejection unit :=
  let? expected :=
    match operation with
    | SO_Reserve _ _ _ _ _ _ => Ok (B_Metadata (revision state))
    | SO_Dispatch id _ _ =>
        let? a := attempt state id in
        Ok (B_Dispatch (revision state) id (attempt_revision a))
    | _ =>
        let? a := attempt state (spend_id operation) in
        Ok (B_Attempt (spend_id operation) (attempt_revision a))
    end in
  require (bool_decide (basis = expected)) "stale or mismatched spend basis".

(** ** Totals *)

Record Totals := mkTotals {
  tokens : N; (* u128 *)
  money : gmap Currency N; (* u128 *)
  unknown_money : bool;
}.

#[export] Instance Totals_eta : Eta Totals := mkEta (λ t,
  mkTotals (tokens t) (money t) (unknown_money t)).

Definition totals_default : Totals := mkTotals 0 ∅ false.

(** One round of the currency loop of [Totals::add]. *)
Definition add_money (m : gmap Currency N) (p : Currency * N) : result Rejection (gmap Currency N) :=
  let? amount := ok_or (u128_checked_add (default 0%N (m !! p.1)) p.2)
                   (mkRejection "money accounting overflow") in
  Ok (<[p.1 := amount]> m).

Definition totals_add (self : Totals) (tokens : N) (money : gmap Currency N) (unknown : bool)
    : result Rejection Totals :=
  let? tokens := ok_or (u128_checked_add (ModelSpend.tokens self) tokens)
                   (mkRejection "token accounting overflow") in
  let? money := try_fold add_money (ModelSpend.money self) (btree_iter money) in
  Ok (mkTotals tokens money (unknown_money self || unknown)).

Record PeriodUsage := mkPeriodUsage {
  measured_totals : Totals;
  reserved_totals : Totals;
  accounted_totals : Totals;
  unknown_outcomes : N; (* u64 *)
}.

#[export] Instance PeriodUsage_eta : Eta PeriodUsage := mkEta (λ u,
  mkPeriodUsage (measured_totals u) (reserved_totals u) (accounted_totals u) (unknown_outcomes u)).

Definition period_default : PeriodUsage :=
  mkPeriodUsage totals_default totals_default totals_default 0.

(** [PeriodUsage::total] *)
Definition period_total (u : PeriodUsage) : result Rejection Totals :=
  try_fold (λ total part, totals_add total (tokens part) (money part) (unknown_money part))
    totals_default [measured_totals u; reserved_totals u; accounted_totals u].

Definition money_amounts (m : option Money) : gmap Currency N :=
  match m with Some value => {[currency value := micros value]} | None => ∅ end.

(** One round of the loop of [period_usage]. *)
Definition count_attempt (usage : PeriodUsage) (a : Attempt) : result Rejection PeriodUsage :=
  match counted a with
  | None => Ok usage
  | Some (tokens, money) =>
      let unknown := bool_decide (money = None) in
      let? usage :=
        match phase a with
        | Ph_Settled =>
            let? t := totals_add (measured_totals usage) tokens (money_amounts money) unknown in
            Ok (usage <| measured_totals := t |>)
        | Ph_AccountedAtBound =>
            let? t := totals_add (accounted_totals usage) tokens (money_amounts money) unknown in
            Ok (usage <| accounted_totals := t |>)
        | _ =>
            let? t := totals_add (reserved_totals usage) tokens (money_amounts money) unknown in
            Ok (usage <| reserved_totals := t |>)
        end in
      match phase a with
      | Ph_Unknown | Ph_AccountedAtBound =>
          let? n := ok_or (u64_checked_add (unknown_outcomes usage) 1)
                      (mkRejection "outcome count overflow") in
          Ok (usage <| unknown_outcomes := n |>)
      | _ => Ok usage
      end
  end.

Definition period_usage (state : State) (b : BudgetKey) (m : Month) : result Rejection PeriodUsage :=
  try_fold count_attempt period_default
    (filter (λ a, attempt_month a = m ∧ charges a b = true) (btree_values (attempts state))).

Definition totals (state : State) (b : BudgetKey) (m : Month) : result Rejection Totals :=
  let? u := period_usage state b m in period_total u.

Definition is_overrun_pending (fam : ModelConnectionId) (a : Attempt) : bool :=
  bool_decide (family a = Some fam) && overrun a && bool_decide (reconciled_with a = None).

Definition overrun_pending (state : State) (fam : ModelConnectionId) : bool :=
  existsb (is_overrun_pending fam) (btree_values (attempts state)).

Definition le_cap (sum : option N) (cap : N) : bool :=
  match sum with Some value => bool_decide (value ≤ cap)%N | None => false end.

Definition within (total : Totals) (bound : Bound) (caps : Caps) : result Rejection unit :=
  try! match cap_tokens caps with
       | Some cap =>
           require (le_cap (u128_checked_add (tokens total) (bound_tokens bound)) cap)
             "monthly token cap exhausted"
       | None => Ok ()
       end;
  match cap_money caps with
  | Some cap =>
      try! require (bool_decide (0 < micros cap)%N) "monthly money cap is zero";
      let? maximum := ok_or (bound_money bound)
                        (mkRejection "money cap requires a supported conservative price") in
      try! require (bool_decide (currency maximum = currency cap) && negb (unknown_money total)
                    && forallb (λ p, bool_decide (p.1 = currency cap)) (btree_iter (money total)))
             "money allowance has unknown or incompatible pricing";
      let used := default 0%N (money total !! currency cap) in
      require (le_cap (u128_checked_add used (micros maximum)) (micros cap))
        "monthly money cap exhausted"
  | None => Ok ()
  end.

Definition eligible (state : State) (fam : ModelConnectionId) (bound : Bound) : result Rejection unit :=
  try! require (negb (bool_decide (enforcement bound ∈ failed_enforcements state)))
         "provider bound enforcement has failed";
  require (negb (overrun_pending state fam)) "connection has an unreconciled overrun".

(** [fn measured]: [None] for evidence seen before, else whether it is an overrun. *)
Definition measured (a : Attempt) (usage : Usage) (evidence : ObservationId)
    : result Rejection (option bool) :=
  match measurements a !! evidence with
  | Some previous =>
      try! require (bool_decide (previous = usage)) "usage evidence identity collision";
      Ok None
  | None =>
      try! require (bool_decide (usage_money usage = None) || bool_decide (is_Some (usage_rate usage)))
             "measured cost requires its rate basis";
      let? money_overrun :=
        match bound_money (bound a) with
        | Some maximum =>
            let? actual := ok_or (usage_money usage)
                             (mkRejection "unknown cost cannot release a priced reservation") in
            Ok (negb (bool_decide (currency actual = currency maximum))
                || bool_decide (micros maximum < micros actual)%N)
        | None => Ok false
        end in
      Ok (Some (bool_decide (bound_tokens (bound a) < usage_tokens usage)%N || money_overrun))
  end.

(** ** The decision *)

(** The two loops over [access::budgets(&grants)]. *)
Definition caps_admit (state : State) (applied : list ApplicableGrant) (m : Month) (bound : Bound)
    : result Rejection unit :=
  try_each (λ '(b, cs),
    let? total := totals state b m in
    try_each (within total bound) cs) (btree_iter (budgets applied)).

(** [month_at] and [grants[0]] have no failing case here: see [month_at_exact] and
    [admitted_nonempty]; the two last arms stand for the panics. *)
Definition reserve_decide (state : State) (actor : AuthorityId) (now : N) (id : ModelAttemptId)
    (i : Invocation) (evidence : ExecutionEvidence) (bound : Bound)
    (reserved_until reconcile_by : N) : result Rejection (option SpendChange) :=
  try! require (bool_decide (final_fetch i = actor) && bool_decide (observed evidence = i))
         "reservation audience or invocation mismatch";
  match attempts state !! id with
  | Some previous =>
      try! require (bool_decide (invocation previous = i)
                    && bool_decide (ModelData.bound previous = bound)
                    && bool_decide (ModelData.reserved_until previous = reserved_until)
                    && bool_decide (ModelData.reconcile_by previous = reconcile_by))
             "provider attempt identity collision";
      Ok None
  | None =>
      try! require (bool_decide (0 < bound_tokens bound)%N
                    && (bool_decide (bound_money bound = None)
                        || bool_decide (is_Some (bound_rate bound))))
             "unsupported conservative request bound";
      try! require (bool_decide (now < reserved_until)%N && bool_decide (reserved_until < reconcile_by)%N)
             "attempt requires ordered future deadlines";
      let? applied := applicable state i evidence actor in
      match head applied with
      | Some first =>
          try! eligible state (connection_family (app_budget first)) bound;
          match month_at now with
          | Some m =>
              try! caps_admit state applied m bound;
              Ok (Some (SC_Reserved id
                (mkAttempt i applied m bound reserved_until reconcile_by 1 Ph_Reserved None ∅
                   None false None) (observation evidence)))
          | None => reject "unreachable: bounded Gregorian year"
          end
      | None => reject "index out of bounds"
      end
  end.

Definition dispatch_decide (state : State) (actor : AuthorityId) (now : N) (id : ModelAttemptId)
    (current : Attempt) (evidence : ExecutionEvidence) (bound : Bound)
    : result Rejection (option SpendChange) :=
  try! require (bool_decide (bound = ModelData.bound current))
         "actual request bound no longer matches reservation";
  try! require (bool_decide (phase current = Ph_Reserved)
                && bool_decide (now < ModelData.reserved_until current)%N)
         "attempt is not dispatchable";
  let? applied := applicable state (invocation current) evidence actor in
  try! require (bool_decide (applied = attempt_grants current))
         "grant basis changed; re-admit undispatched work";
  match family current with
  | Some fam =>
      try! eligible state fam (ModelData.bound current);
      Ok (Some (SC_Dispatched id (observation evidence)))
  | None => reject "index out of bounds"
  end.

Definition in_flight (p : Phase) : bool :=
  match p with Ph_Dispatched | Ph_Unknown => true | _ => false end.
Definition accounted (p : Phase) : bool :=
  match p with Ph_Settled | Ph_AccountedAtBound => true | _ => false end.

(** The arms of the second [match], after the attempt is found. *)
Definition attempt_decide (state : State) (actor : AuthorityId) (now : N) (current : Attempt)
    (operation : SpendOperation) : result Rejection (option SpendChange) :=
  match operation with
  | SO_Dispatch id evidence bound => dispatch_decide state actor now id current evidence bound
  | SO_Cancel id =>
      try! require (bool_decide (phase current = Ph_Reserved))
             "only definite pre-dispatch non-use can release allowance";
      Ok (Some (SC_Released id))
  | SO_Expire id =>
      try! require (bool_decide (phase current = Ph_Reserved))
             "only definite pre-dispatch non-use can release allowance";
      try! require (bool_decide (reserved_until current ≤ now)%N)
             "reservation deadline has not elapsed";
      Ok (Some (SC_Released id))
  | SO_OutcomeUnknown id evidence =>
      if bool_decide (phase current = Ph_Unknown)
         && bool_decide (unknown_evidence current = Some evidence)
      then Ok None
      else
        try! require (bool_decide (phase current = Ph_Dispatched))
               "unknown outcome requires a dispatched attempt";
        Ok (Some (SC_OutcomeUnknown id evidence))
  | SO_Settle id usage evidence =>
      let? m := measured current usage evidence in
      match m with
      | None => Ok None
      | Some overrun =>
          try! require (in_flight (phase current))
                 "attempt requires a correction, not another settlement";
          Ok (Some (SC_Settled id usage evidence overrun))
      end
  | SO_ReconcileDeadline id =>
      try! require (bool_decide (reconcile_by current ≤ now)%N)
             "reconciliation deadline has not elapsed";
      if bool_decide (phase current = Ph_AccountedAtBound) then Ok None
      else
        try! require (in_flight (phase current)) "attempt has no unknown charge to reconcile";
        Ok (Some (SC_AccountedAtBound id))
  | SO_Correct id usage evidence =>
      let? m := measured current usage evidence in
      match m with
      | None => Ok None
      | Some overrun =>
          try! require (accounted (phase current)) "only terminal accounting can be corrected";
          Ok (Some (SC_Corrected id usage evidence overrun))
      end
  | SO_ReconcileOverrun id repaired_enforcement evidence =>
      try! require (overrun current && bool_decide (reconciled_with current = None))
             "no unreconciled overrun";
      try! require (negb (bool_decide (repaired_enforcement = enforcement (bound current)))
                    && negb (bool_decide (repaired_enforcement ∈ failed_enforcements state)))
             "repair must name a new eligible enforcement revision";
      Ok (Some (SC_OverrunReconciled id repaired_enforcement evidence))
  | SO_Reserve _ _ _ _ _ _ => reject "unreachable: handled above"
  end.

Arguments attempt_decide : simpl never.

Definition spend_decide (state : State) (operation : SpendOperation) (actor : AuthorityId) (now : N)
    : result Rejection (option SpendChange) :=
  match operation with
  | SO_Reserve id i evidence bound reserved_until reconcile_by =>
      reserve_decide state actor now id i evidence bound reserved_until reconcile_by
  | _ =>
      let? current := attempt state (spend_id operation) in
      try! require (revision_left (attempt_revision current)) "attempt revision exhausted";
      try! match spend_capability operation with
           | InvokeProvider | ObserveUsage =>
               require (bool_decide (final_fetch (invocation current) = actor))
                 "wrong attempt final-fetch actor"
           | _ => Ok ()
           end;
      attempt_decide state actor now current operation
  end.

(** ** The fold *)

(** [state.attempts.get_mut(&id).expect("admitted attempt")], updated by [f]. *)
Definition update_attempt (state : State) (id : ModelAttemptId) (f : Attempt → Attempt)
    : option State :=
  a ← attempts state !! id;
  Some (state <| attempts := <[id := f a]> (attempts state) |>).

(** The common tail: the new phase and revision. *)
Definition advance (p : Phase) (a : Attempt) : Attempt :=
  a <| phase := p |> <| attempt_revision := u64_add (attempt_revision a) 1 |>.

Definition record_usage (usage : Usage) (evidence : ObservationId) (over : bool) (a : Attempt)
    : Attempt :=
  let a := a <| measurements := <[evidence := usage]> (measurements a) |>
             <| ModelData.usage := Some usage |> in
  if over then a <| overrun := true |> <| reconciled_with := None |> else a.

Definition spend_evolve (state : State) (change : SpendChange) : option State :=
  match change with
  | SC_Reserved id attempt _ => Some (state <| attempts := <[id := attempt]> (attempts state) |>)
  | SC_Dispatched id _ => update_attempt state id (advance Ph_Dispatched)
  | SC_Released id => update_attempt state id (advance Ph_Released)
  | SC_OutcomeUnknown id evidence =>
      update_attempt state id (λ a, advance Ph_Unknown (a <| unknown_evidence := Some evidence |>))
  | SC_Settled id usage evidence over | SC_Corrected id usage evidence over =>
      a ← attempts state !! id;
      let state := if over
        then state <| failed_enforcements := {[enforcement (bound a)]} ∪ failed_enforcements state |>
        else state in
      update_attempt state id (λ a, advance Ph_Settled (record_usage usage evidence over a))
  | SC_AccountedAtBound id => update_attempt state id (advance Ph_AccountedAtBound)
  | SC_OverrunReconciled id repaired_enforcement _ =>
      update_attempt state id (λ a,
        a <| reconciled_with := Some repaired_enforcement |>
          <| attempt_revision := u64_add (attempt_revision a) 1 |>)
  end.

(** ** What the totals denote

    Seen from one currency, totals are a token count, an amount, whether the
    currency occurs, and whether some price is unknown. *)

Definition view : Type := N * N * bool * bool.

Definition vadd (x y : view) : view :=
  (x.1.1.1 + y.1.1.1, x.1.1.2 + y.1.1.2, x.1.2 || y.1.2, x.2 || y.2)%N.
Definition vzero : view := (0%N, 0%N, false, false).

Definition view_totals (c : Currency) (t : Totals) : view :=
  (tokens t, default 0%N (money t !! c), bool_decide (is_Some (money t !! c)), unknown_money t).

(** What one attempt charges. *)
Definition charge (c : Currency) (a : Attempt) : view :=
  match counted a with
  | None => vzero
  | Some (n, None) => (n, 0%N, false, true)
  | Some (n, Some m) =>
      (n, if bool_decide (currency m = c) then micros m else 0%N, bool_decide (currency m = c), false)
  end.

(** The reference: the sum over the attempts of the month that charge the budget. *)
Definition charged (state : State) (b : BudgetKey) (m : Month) : list Attempt :=
  filter (λ a, attempt_month a = m ∧ charges a b = true) (btree_values (attempts state)).

Definition vsum (c : Currency) (l : list Attempt) : view := foldr (λ a, vadd (charge c a)) vzero l.

Definition charged_view (state : State) (b : BudgetKey) (m : Month) (c : Currency) : view :=
  vsum c (charged state b m).

Lemma view_eq (x y : view) :
  x.1.1.1 = y.1.1.1 → x.1.1.2 = y.1.1.2 → x.1.2 = y.1.2 → x.2 = y.2 → x = y.
Proof. destruct x as [[[??]?]?], y as [[[??]?]?]. simpl. congruence. Qed.

Lemma vadd_assoc x y z : vadd x (vadd y z) = vadd (vadd x y) z.
Proof. apply view_eq; simpl; [lia|lia|apply orb_assoc..]. Qed.
Lemma vadd_comm x y : vadd x y = vadd y x.
Proof. apply view_eq; simpl; [lia|lia|apply orb_comm..]. Qed.
Lemma vadd_zero_l x : vadd vzero x = x.
Proof. by destruct x as [[[??]?]?]. Qed.
Lemma vadd_zero_r x : vadd x vzero = x.
Proof. by rewrite vadd_comm, vadd_zero_l. Qed.

Lemma vsum_perm c l1 l2 : l1 ≡ₚ l2 → vsum c l1 = vsum c l2.
Proof.
  induction 1 as [| |x y l|]; simpl; [done|by f_equal| |congruence].
  by rewrite !vadd_assoc, (vadd_comm (charge c y)).
Qed.

Lemma btree_iter_map {K V} `{Countable K, KeyOrd K} (m : gmap K V) :
  NoDup (btree_iter m).*1 ∧ list_to_map (btree_iter m) = m.
Proof.
  assert (NoDup (btree_iter m).*1) as Hnd by (rewrite btree_iter_perm; apply NoDup_fst_map_to_list).
  split; [done|]. rewrite <- (list_to_map_to_list m) at 2.
  by apply list_to_map_proper, btree_iter_perm.
Qed.

Lemma add_money_fold l (m m' : gmap Currency N) :
  NoDup l.*1 → try_fold add_money m l = Ok m' →
  ∀ c, default 0%N (m' !! c) = (default 0 (m !! c) + default 0 ((list_to_map l : gmap Currency N) !! c))%N
    ∧ (is_Some (m' !! c) ↔ is_Some (m !! c) ∨ is_Some ((list_to_map l : gmap Currency N) !! c)).
Proof.
  revert m. induction l as [|[k v] l IH]; intros m Hnd Hf c.
  - simpl in Hf. injection Hf as ->. simpl. rewrite lookup_empty. simpl.
    split; [lia|]. split; [by left|]. intros [|[]]; done.
  - apply NoDup_cons in Hnd as [Hk Hnd]. simpl in Hf. unfold add_money in Hf at 1. simpl in Hf.
    destruct (u128_checked_add _ v) as [x|] eqn:Hx; simpl in Hf; [|done].
    apply checked_add_Some in Hx as [-> _].
    destruct (IH _ Hnd Hf c) as [Hd Hs]. rewrite Hd, Hs. simpl.
    destruct (decide (k = c)) as [<-|Hne].
    + rewrite !lookup_insert_eq. rewrite (not_elem_of_list_to_map_1 l k Hk). simpl.
      split; [lia|]. naive_solver.
    + rewrite !lookup_insert_ne by done. done.
Qed.

Lemma totals_add_ok self n mo unk t :
  totals_add self n mo unk = Ok t →
  ∀ c, view_totals c t = vadd (view_totals c self)
         (n, default 0%N (mo !! c), bool_decide (is_Some (mo !! c)), unk).
Proof.
  unfold totals_add. intros Ht c.
  destruct (u128_checked_add (tokens self) n) as [x|] eqn:Hx; simpl in Ht; [|done].
  apply checked_add_Some in Hx as [-> _].
  destruct (try_fold add_money (money self) (btree_iter mo)) as [m'|] eqn:Hm; simpl in Ht; [|done].
  injection Ht as <-. destruct (btree_iter_map mo) as [Hnd Hlm].
  destruct (add_money_fold _ _ _ Hnd Hm c) as [Hd Hs]. rewrite Hlm in Hd, Hs.
  unfold view_totals. simpl. rewrite Hd. apply view_eq; simpl; try done.
  apply eq_true_iff_eq. rewrite orb_true_iff, !bool_decide_eq_true. done.
Qed.

Definition view_period (c : Currency) (u : PeriodUsage) : view :=
  vadd (view_totals c (measured_totals u))
    (vadd (view_totals c (reserved_totals u)) (view_totals c (accounted_totals u))).

Lemma charge_amounts c a n mo :
  counted a = Some (n, mo) →
  charge c a = (n, default 0%N (money_amounts mo !! c), bool_decide (is_Some (money_amounts mo !! c)),
                bool_decide (mo = None)).
Proof.
  intros Hc. unfold charge. rewrite Hc. destruct mo as [v|]; simpl.
  - destruct (decide (currency v = c)) as [<-|Hne].
    + rewrite lookup_singleton_eq. by rewrite !bool_decide_eq_true_2 by eauto.
    + rewrite lookup_singleton_ne by done. rewrite (bool_decide_eq_false_2 (currency v = c)) by done.
      done.
  - by rewrite lookup_empty.
Qed.

Lemma count_attempt_ok u a u' :
  count_attempt u a = Ok u' → ∀ c, view_period c u' = vadd (view_period c u) (charge c a).
Proof.
  unfold count_attempt. intros Hu c. destruct (counted a) as [[n mo]|] eqn:Hc.
  2: { simplify_eq. unfold charge. by rewrite Hc, vadd_zero_r. }
  rewrite (charge_amounts c a n mo Hc).
  destruct (phase a); repeat split_next Hu; simplify_eq/=;
    match goal with
    | H : totals_add _ _ _ _ = Ok _ |- _ =>
        let Hv := fresh in pose proof (totals_add_ok _ _ _ _ _ H c) as Hv;
        unfold view_period; simpl; rewrite Hv
    end; apply view_eq; simpl; try lia; by repeat match goal with |- context [bool_decide ?P] => destruct (bool_decide P) | |- context [unknown_money ?t] => destruct (unknown_money t) end.
Qed.

Lemma period_fold_ok l u u' :
  try_fold count_attempt u l = Ok u' → ∀ c, view_period c u' = vadd (view_period c u) (vsum c l).
Proof.
  revert u. induction l as [|a l IH]; intros u Hu c; simpl in *.
  - injection Hu as ->. by rewrite vadd_zero_r.
  - destruct (count_attempt u a) as [u1|] eqn:Ha; [|done].
    rewrite (IH u1 Hu c), (count_attempt_ok u a u1 Ha c). by rewrite vadd_assoc.
Qed.

Lemma view_totals_part c t : 
  (tokens t, default 0%N (money t !! c), bool_decide (is_Some (money t !! c)), unknown_money t)
  = view_totals c t.
Proof. done. Qed.

Lemma view_totals_default c : view_totals c totals_default = vzero.
Proof. unfold view_totals. simpl. rewrite lookup_empty. done. Qed.

Lemma period_total_ok u t : period_total u = Ok t → ∀ c, view_totals c t = view_period c u.
Proof.
  unfold period_total. intros Ht c. simpl in Ht. repeat split_next Ht. injection Ht as <-.
  repeat match goal with
  | H : totals_add _ _ _ _ = Ok _ |- _ =>
      apply totals_add_ok with (c := c) in H; rewrite view_totals_part in H
  end.
  unfold view_period. repeat match goal with H : view_totals c _ = _ |- _ => rewrite H; clear H end.
  by rewrite view_totals_default, vadd_zero_l, vadd_assoc.
Qed.

Lemma totals_ok state b m t :
  totals state b m = Ok t → ∀ c, view_totals c t = charged_view state b m c.
Proof.
  unfold totals, period_usage. intros Ht c.
  destruct (try_fold count_attempt period_default _) as [u|] eqn:Hu; [|done].
  rewrite (period_total_ok u t Ht c), (period_fold_ok _ _ _ Hu c).
  unfold view_period. simpl. by rewrite view_totals_default, !vadd_zero_l.
Qed.

(** *** Overflow

    The checked additions cannot fail while fewer than 2^64 attempts of 64-bit
    amounts are recorded. *)

Definition u64_counted (a : Attempt) : Prop :=
  ∀ n mo, counted a = Some (n, mo) →
    (n ≤ u64_max)%N ∧ ∀ v, mo = Some v → (micros v ≤ u64_max)%N.

Lemma charge_bound a c :
  u64_counted a → ((charge c a).1.1.1 ≤ u64_max)%N ∧ ((charge c a).1.1.2 ≤ u64_max)%N.
Proof.
  intros Ha. unfold charge. destruct (counted a) as [[n mo]|] eqn:Hc; [|done].
  destruct (Ha n mo Hc) as [Hn Hm]. destruct mo as [v|]; simpl; [|done].
  split; [done|]. case_bool_decide; [by apply Hm|done].
Qed.

Lemma add_money_fold_total l (m : gmap Currency N) :
  NoDup l.*1 →
  (∀ c, default 0 (m !! c) + default 0 ((list_to_map l : gmap Currency N) !! c) < u128_modulus)%N →
  ∃ m', try_fold add_money m l = Ok m'.
Proof.
  revert m. induction l as [|[k v] l IH]; intros m Hnd Hlt; [by eexists|].
  apply NoDup_cons in Hnd as [Hk Hnd]. simpl. unfold add_money at 1. simpl.
  pose proof (Hlt k) as Hkk. simpl in Hkk. rewrite lookup_insert_eq in Hkk. simpl in Hkk.
  unfold u128_checked_add, checked_add. rewrite bool_decide_eq_true_2 by done. simpl.
  apply IH; [done|]. intros c. specialize (Hlt c). simpl in Hlt.
  destruct (decide (k = c)) as [<-|Hne].
  - rewrite lookup_insert_eq, (not_elem_of_list_to_map_1 l k Hk). simpl. lia.
  - rewrite lookup_insert_ne in * by done. done.
Qed.

Lemma totals_add_total self n mo unk :
  (tokens self + n < u128_modulus)%N →
  (∀ c, default 0 (money self !! c) + default 0 (mo !! c) < u128_modulus)%N →
  ∃ t, totals_add self n mo unk = Ok t.
Proof.
  intros Hn Hm. unfold totals_add, u128_checked_add, checked_add.
  rewrite bool_decide_eq_true_2 by done. simpl.
  destruct (btree_iter_map mo) as [Hnd Hlm].
  destruct (add_money_fold_total (btree_iter mo) (money self) Hnd) as [m' ->]; [by rewrite Hlm|].
  by eexists.
Qed.

(** The running usage after [k] attempts. *)
Definition period_bounded (k : N) (u : PeriodUsage) : Prop :=
  (∀ c, (view_period c u).1.1.1 ≤ k * u64_max ∧ (view_period c u).1.1.2 ≤ k * u64_max)%N
  ∧ (unknown_outcomes u ≤ k)%N.

Lemma count_attempt_total u a k :
  u64_counted a → period_bounded k u → (k < u64_max)%N →
  ∃ u', count_attempt u a = Ok u' ∧ period_bounded (k + 1) u'.
Proof.
  intros Ha [Hv Hk] Hlt.
  assert (∃ u', count_attempt u a = Ok u' ∧ (unknown_outcomes u' ≤ k + 1)%N) as (u' & Hu & Hout).
  { unfold count_attempt. destruct (counted a) as [[n mo]|] eqn:Hc; [|eexists; split; [done|lia]].
    assert (∀ t, (∀ c, (view_totals c t).1.1.1 ≤ (view_period c u).1.1.1
        ∧ (view_totals c t).1.1.2 ≤ (view_period c u).1.1.2)%N →
      ∃ t', totals_add t n (money_amounts mo) (bool_decide (mo = None)) = Ok t') as Hadd.
    { intros t Ht. assert (∀ c, ((view_totals c t).1.1.1 + n < u128_modulus)%N
        ∧ ((view_totals c t).1.1.2 + default 0 (money_amounts mo !! c) < u128_modulus)%N) as Hs.
      { intros c. destruct (charge_bound a c Ha) as [Hc1 Hc2]. destruct (Hv c), (Ht c).
        rewrite (charge_amounts c a n mo Hc) in Hc1, Hc2. simpl in Hc1, Hc2.
        unfold u64_max, u128_modulus in *. lia. }
      apply totals_add_total; [apply (Hs (mkCurrency ""))|intros c; apply (Hs c)]. }
    destruct (Hadd (measured_totals u)) as [t1 Ht1]; [intros c; simpl; lia|].
    destruct (Hadd (reserved_totals u)) as [t2 Ht2]; [intros c; simpl; lia|].
    destruct (Hadd (accounted_totals u)) as [t3 Ht3]; [intros c; simpl; lia|].
    assert (u64_checked_add (unknown_outcomes u) 1 = Some (unknown_outcomes u + 1)%N) as Hone.
    { apply checked_add_Some. split; [done|]. unfold u64_modulus, u64_max in *. lia. }
    destruct (phase a); rewrite ?Ht1, ?Ht2, ?Ht3; simpl; rewrite ?Hone; simpl;
      eexists; (split; [done|]); simpl; lia. }
  exists u'. split; [done|]. split; [|done]. intros c.
  rewrite (count_attempt_ok u a u' Hu c). destruct (Hv c), (charge_bound a c Ha). unfold vadd, u64_max in *. cbn [fst snd]. lia.
Qed.

Lemma period_fold_total l u k :
  Forall u64_counted l → period_bounded k u → (k + N.of_nat (length l) ≤ u64_max)%N →
  ∃ u', try_fold count_attempt u l = Ok u' ∧ period_bounded u64_max u'.
Proof.
  revert u k. induction l as [|a l IH]; intros u k Hl Hu Hlen; simpl in *.
  - exists u. split; [done|]. destruct Hu as [Hv Ho]. split; [|lia].
    intros c. destruct (Hv c). unfold u64_max in *. lia.
  - apply Forall_cons in Hl as [Ha Hl].
    destruct (count_attempt_total u a k Ha Hu) as (u1 & -> & Hu1); [lia|].
    apply (IH u1 (k + 1)%N); [done|done|lia].
Qed.

Lemma period_total_total u : period_bounded u64_max u → ∃ t, period_total u = Ok t.
Proof.
  intros [Hv _]. unfold period_total. simpl.
  assert (∀ c, (view_period c u).1.1.1 < u128_modulus ∧ (view_period c u).1.1.2 < u128_modulus)%N as Hb.
  { intros c. destruct (Hv c). unfold u64_max, u128_modulus in *. lia. }
  clear Hv. unfold view_period in Hb. simpl in Hb.
  destruct (totals_add_total totals_default (tokens (measured_totals u)) (money (measured_totals u))
    (unknown_money (measured_totals u))) as [t1 Ht1].
  { destruct (Hb (mkCurrency "")). simpl. lia. }
  { intros c. simpl. rewrite lookup_empty. simpl. destruct (Hb c). lia. }
  rewrite Ht1. pose proof (totals_add_ok _ _ _ _ _ Ht1) as Hv1.
  destruct (totals_add_total t1 (tokens (reserved_totals u)) (money (reserved_totals u))
    (unknown_money (reserved_totals u))) as [t2 Ht2].
  { specialize (Hv1 (mkCurrency "")). apply (f_equal (λ v, v.1.1.1)) in Hv1. simpl in Hv1.
    rewrite Hv1. destruct (Hb (mkCurrency "")). lia. }
  { intros c. specialize (Hv1 c). apply (f_equal (λ v, v.1.1.2)) in Hv1. simpl in Hv1.
    rewrite lookup_empty in Hv1. simpl in Hv1. rewrite Hv1. destruct (Hb c). lia. }
  rewrite Ht2. pose proof (totals_add_ok _ _ _ _ _ Ht2) as Hv2.
  destruct (totals_add_total t2 (tokens (accounted_totals u)) (money (accounted_totals u))
    (unknown_money (accounted_totals u))) as [t3 Ht3].
  { specialize (Hv1 (mkCurrency "")). apply (f_equal (λ v, v.1.1.1)) in Hv1. simpl in Hv1.
    specialize (Hv2 (mkCurrency "")). apply (f_equal (λ v, v.1.1.1)) in Hv2. simpl in Hv2.
    rewrite Hv2, Hv1. destruct (Hb (mkCurrency "")). lia. }
  { intros c. specialize (Hv1 c). apply (f_equal (λ v, v.1.1.2)) in Hv1. simpl in Hv1.
    specialize (Hv2 c). apply (f_equal (λ v, v.1.1.2)) in Hv2. simpl in Hv2.
    rewrite lookup_empty in Hv1. simpl in Hv1. rewrite Hv2, Hv1. destruct (Hb c). lia. }
  rewrite Ht3. by eexists.
Qed.

Lemma totals_total state b m :
  (∀ id a, attempts state !! id = Some a → u64_counted a) →
  (N.of_nat (size (attempts state)) ≤ u64_max)%N → ∃ t, totals state b m = Ok t.
Proof.
  intros Ha Hsize. unfold totals, period_usage.
  destruct (period_fold_total (charged state b m) period_default 0) as (u & Hu & Hb).
  - apply Forall_forall. intros a [_ Hin]%list_elem_of_filter.
    apply elem_of_btree_values in Hin as [id Hin]. by eapply Ha.
  - split; [|simpl; lia]. intros c. unfold view_period. simpl. rewrite lookup_empty. simpl. lia.
  - assert (length (charged state b m) ≤ size (attempts state)).
    { unfold charged. etransitivity; [apply length_filter|].
      by rewrite btree_values_perm, length_fmap, length_map_to_list. }
    lia.
  - unfold charged in Hu. rewrite Hu. by apply period_total_total.
Qed.

(** ** Invariant of the attempts *)

(** Measured usage that stays within the reservation. *)
Definition within_bound (b : Bound) (u : Usage) : Prop :=
  (usage_tokens u ≤ bound_tokens b)%N
  ∧ ∀ maximum, bound_money b = Some maximum →
      ∃ actual, usage_money u = Some actual ∧ currency actual = currency maximum
                ∧ (micros actual ≤ micros maximum)%N.

Record attempt_ok (failed : gset ObservationId) (a : Attempt) : Prop := {
  ok_grants : attempt_grants a ≠ [];
  (** the attempt charges the budget of every grant it was admitted under *)
  ok_charges : ∀ g, g ∈ attempt_grants a → charges a (app_budget g) = true;
  ok_settled : phase a = Ph_Settled → is_Some (usage a);
  ok_within : overrun a = false → ∀ u, usage a = Some u → within_bound (bound a) u;
  ok_overrun : overrun a = true → enforcement (bound a) ∈ failed;
  ok_revision : (attempt_revision a < u64_modulus)%N;
}.

Definition attempts_ok (s : State) : Prop :=
  ∀ id a, attempts s !! id = Some a → attempt_ok (failed_enforcements s) a.

Lemma attempt_ok_weaken failed failed' a :
  failed ⊆ failed' → attempt_ok failed a → attempt_ok failed' a.
Proof. intros Hsub []. split; auto. Qed.

Lemma measured_spec a u ev over :
  measured a u ev = Ok (Some over) → measurements a !! ev = None ∧ (over = false → within_bound (bound a) u).
Proof.
  unfold measured. intros H. ok_inv H; (split; [done|]); intros Hover; guards.
  - split; [lia|]. intros maximum Hmax. simplify_eq. eexists. split_and!; [done|done|lia].
  - split; [lia|]. intros maximum Hmax. congruence.
Qed.

(** A reservation charges all the budgets it was admitted under. *)
Lemma admitted_charges s i evidence actor applied a :
  grants_ok s → admitted s i evidence actor applied →
  invocation a = i → attempt_grants a = applied →
  ∀ g, g ∈ attempt_grants a → charges a (app_budget g) = true.
Proof.
  intros Hok Hadm Hi Hg.
  destruct (adm_connection _ _ _ _ _ Hadm) as (c & Hc & _).
  assert (∀ g, g ∈ applied → connection_family (app_budget g) = budget_family c
    ∧ subject_matches (budget_subject (app_budget g)) i = true) as Hall.
  { intros g Hin. apply (adm_applied _ _ _ _ _ Hadm) in Hin as (g' & Hg' & Hm & ->). simpl.
    destruct (Hok _ _ Hg') as [(c' & Hc' & ->) _]. unfold grant_matches in Hm. guards. simpl.
    split; congruence. }
  intros g Hin. unfold charges, family. rewrite Hg in *. rewrite Hi.
  destruct applied as [|g0 applied]; [by apply elem_of_nil in Hin|]. simpl.
  destruct (Hall g Hin) as [-> ->]. destruct (Hall g0) as [-> _]; [by left|].
  by rewrite bool_decide_eq_true_2.
Qed.

(** What an admitted reservation establishes. *)
Record reserved (s : State) (actor : AuthorityId) (now : N) (id : ModelAttemptId) (a : Attempt)
    (evidence : ExecutionEvidence) : Prop := {
  res_fresh : attempts s !! id = None;
  res_admitted : admitted s (invocation a) evidence actor (attempt_grants a);
  res_month : month_at now = Some (attempt_month a);
  res_caps : caps_admit s (attempt_grants a) (attempt_month a) (bound a) = Ok ();
  res_eligible : ∃ fam, family a = Some fam ∧ eligible s fam (bound a) = Ok ();
  res_deadlines : (now < reserved_until a ∧ reserved_until a < reconcile_by a)%N;
  res_phase : phase a = Ph_Reserved ∧ usage a = None ∧ overrun a = false ∧ attempt_revision a = 1%N;
}.

Lemma reserve_decide_ok s actor now id i evidence b until by_ ch :
  reserve_decide s actor now id i evidence b until by_ = Ok (Some ch) →
  ∃ a, ch = SC_Reserved id a (observation evidence) ∧ invocation a = i ∧ bound a = b
    ∧ reserved s actor now id a evidence.
Proof.
  unfold reserve_decide. intros H. ok_inv H. guards.
  eexists. split; [done|]. split; [done|]. split; [done|].
  repeat match goal with u : unit |- _ => destruct u end.
  split; simpl; try done; [by apply applicable_ok|]. eexists. split; [|done].
  unfold family. simpl. by match goal with H : head _ = _ |- _ => rewrite H end.
Qed.

Lemma spend_decide_attempt s op actor now ch :
  spend_decide s op actor now = Ok (Some ch) →
  (∃ id i evidence b until by_, op = SO_Reserve id i evidence b until by_
     ∧ reserve_decide s actor now id i evidence b until by_ = Ok (Some ch))
  ∨ ∃ a, attempts s !! spend_id op = Some a ∧ revision_left (attempt_revision a) = true
         ∧ attempt_decide s actor now a op = Ok (Some ch).
Proof.
  intros H. destruct op; simpl in H; [left; by eauto 10|..]; right;
    unfold attempt in H; unfold require, reject, ok_or in H; cbv beta iota in H;
    repeat split_next H; eauto.
Qed.

(** Each change of an existing attempt, and what it needs. *)
Lemma attempt_change_step s id a f failed :
  attempts_ok s → attempts s !! id = Some a → failed_enforcements s ⊆ failed →
  attempt_ok failed (f a) →
  ∃ s', update_attempt (s <| failed_enforcements := failed |>) id f = Some s' ∧ attempts_ok s'
    ∧ s' = s <| attempts := <[id := f a]> (attempts s) |> <| failed_enforcements := failed |>.
Proof.
  intros Hok Ha Hsub Hf. unfold update_attempt. simpl. rewrite Ha. simpl.
  eexists. split; [done|]. split; [|done]. intros j x. simpl.
  destruct (decide (id = j)) as [<-|]; [by rewrite lookup_insert_eq; intros [= <-]|].
  rewrite lookup_insert_ne by done. intros Hx. by eapply attempt_ok_weaken, Hok.
Qed.

Lemma advance_ok failed p a :
  attempt_ok failed a → revision_left (attempt_revision a) = true → p ≠ Ph_Settled →
  attempt_ok failed (advance p a).
Proof.
  intros [] Hr%revision_left_spec Hp. split; simpl; try done. by rewrite u64_add_exact.
Qed.

Lemma record_usage_ok failed u ev over a :
  attempt_ok failed a → revision_left (attempt_revision a) = true →
  (over = false → within_bound (bound a) u) → (over = true → enforcement (bound a) ∈ failed) →
  attempt_ok failed (advance Ph_Settled (record_usage u ev over a)).
Proof.
  intros [] Hr%revision_left_spec Hw Hf. destruct over; split; simpl; try done;
    try (by rewrite u64_add_exact); try (by eauto).
  - intros Hov u' [= <-]. by apply Hw.
Qed.

(** ** Steps of the ledger *)

(** What no change touches once the attempt is reserved. *)
Definition same_attempt (a a' : Attempt) : Prop :=
  invocation a' = invocation a ∧ attempt_grants a' = attempt_grants a
  ∧ attempt_month a' = attempt_month a ∧ bound a' = bound a
  ∧ reserved_until a' = reserved_until a ∧ reconcile_by a' = reconcile_by a.

(** The phases an attempt can move between. *)
Inductive phase_step : Phase → Phase → Prop :=
| step_dispatch : phase_step Ph_Reserved Ph_Dispatched
| step_release : phase_step Ph_Reserved Ph_Released
| step_unknown : phase_step Ph_Dispatched Ph_Unknown
| step_settle p : in_flight p = true → phase_step p Ph_Settled
| step_account p : in_flight p = true → phase_step p Ph_AccountedAtBound
| step_correct p : accounted p = true → phase_step p Ph_Settled
| step_repair p : phase_step p p.

(** A change that can raise what is charged: a correction or an overrun. *)
Definition may_raise (ch : SpendChange) : bool :=
  match ch with
  | SC_Reserved _ _ _ | SC_Corrected _ _ _ _ | SC_Settled _ _ _ true => true
  | _ => false
  end.

Definition charge_le (a' a : Attempt) : Prop :=
  ∀ c, ((charge c a').1.1.1 ≤ (charge c a).1.1.1)%N
       ∧ (is_Some (bound_money (bound a)) → ((charge c a').1.1.2 ≤ (charge c a).1.1.2)%N).

Record attempt_moves (failed failed' : gset ObservationId) (ch : SpendChange) (a a' : Attempt) : Prop := {
  mv_same : same_attempt a a';
  mv_phase : phase_step (phase a) (phase a');
  mv_ok : attempt_ok failed' a';
  mv_failed : failed ⊆ failed';
  mv_charge : may_raise ch = false → charge_le a' a;
  mv_overrun : overrun a = true → overrun a' = true;
}.

Lemma charge_le_refl a a' : counted a' = counted a → charge_le a' a.
Proof. intros Hc c. unfold charge. rewrite Hc. done. Qed.

Lemma charge_le_released a a' : counted a' = None → charge_le a' a.
Proof. intros Hc c. unfold charge. rewrite Hc. simpl. lia. Qed.

Lemma charge_le_settled a a' u :
  counted a = Some (bound_tokens (bound a), bound_money (bound a)) →
  counted a' = Some (usage_tokens u, usage_money u) → within_bound (bound a) u → charge_le a' a.
Proof.
  intros Ha Ha' [Ht Hm] c. unfold charge. rewrite Ha, Ha'. split.
  - by destruct (usage_money u), (bound_money (bound a)).
  - intros [m Hb]. rewrite Hb. destruct (Hm m Hb) as (x & -> & -> & Hx). simpl.
    by case_bool_decide.
Qed.

Lemma in_flight_counted a :
  in_flight (phase a) = true → counted a = Some (bound_tokens (bound a), bound_money (bound a)).
Proof. unfold counted. by destruct (phase a). Qed.

(** The change of an existing attempt, as the fold applies it. *)
Definition apply_change (ch : SpendChange) (a : Attempt) : Attempt :=
  match ch with
  | SC_Reserved _ _ _ => a
  | SC_Dispatched _ _ => advance Ph_Dispatched a
  | SC_Released _ => advance Ph_Released a
  | SC_OutcomeUnknown _ evidence => advance Ph_Unknown (a <| unknown_evidence := Some evidence |>)
  | SC_Settled _ u evidence over | SC_Corrected _ u evidence over =>
      advance Ph_Settled (record_usage u evidence over a)
  | SC_AccountedAtBound _ => advance Ph_AccountedAtBound a
  | SC_OverrunReconciled _ repaired _ =>
      a <| reconciled_with := Some repaired |>
        <| attempt_revision := u64_add (attempt_revision a) 1 |>
  end.

Definition fails (ch : SpendChange) (a : Attempt) : gset ObservationId :=
  match ch with
  | SC_Settled _ _ _ true | SC_Corrected _ _ _ true => {[enforcement (bound a)]}
  | _ => ∅
  end.

Definition change_id (ch : SpendChange) : ModelAttemptId :=
  match ch with
  | SC_Reserved id _ _ | SC_Dispatched id _ | SC_Released id | SC_OutcomeUnknown id _
  | SC_Settled id _ _ _ | SC_AccountedAtBound id | SC_Corrected id _ _ _
  | SC_OverrunReconciled id _ _ => id
  end.

Lemma spend_evolve_existing s ch a :
  attempts s !! change_id ch = Some a → (∀ id a' e, ch ≠ SC_Reserved id a' e) →
  spend_evolve s ch = Some (s <| attempts := <[change_id ch := apply_change ch a]> (attempts s) |>
                              <| failed_enforcements := fails ch a ∪ failed_enforcements s |>).
Proof.
  intros Ha Hnr. destruct ch; simpl in Ha |- *; try (by edestruct Hnr);
    unfold update_attempt; try match goal with b : bool |- _ => destruct b end; simpl; rewrite Ha; simpl; rewrite ?Ha; simpl;
    by rewrite ?(left_id_L ∅ (∪)).
Qed.

Lemma moves_advance failed ch a a0 p :
  attempt_ok failed a → revision_left (attempt_revision a) = true →
  same_attempt a a0 → attempt_revision a0 = attempt_revision a → usage a0 = usage a →
  overrun a0 = overrun a → p ≠ Ph_Settled → phase_step (phase a) p → charge_le (advance p a0) a →
  attempt_moves failed (∅ ∪ failed) ch a (advance p a0).
Proof.
  intros Hok Hrev Hsame Hr Hu Ho Hp Hstep Hle. rewrite (left_id_L ∅ (∪)).
  split; simpl; try done; [|congruence].
  destruct Hok, Hsame as (Hi & Hg & Hm & Hb & _ & _). apply revision_left_spec in Hrev.
  split; simpl; rewrite ?Hg, ?Hb, ?Hu, ?Ho, ?Hr, ?u64_add_exact by done; try done.
  intros g Hin. unfold charges, family in *. simpl. rewrite Hi, Hg. auto.
Qed.

Lemma moves_usage failed ch a u ev over :
  attempt_ok failed a → revision_left (attempt_revision a) = true →
  (over = false → within_bound (bound a) u) → phase_step (phase a) Ph_Settled →
  (may_raise ch = false → over = false ∧ in_flight (phase a) = true) →
  attempt_moves failed ((if over : bool then {[enforcement (bound a)]} else ∅) ∪ failed) ch a
    (advance Ph_Settled (record_usage u ev over a)).
Proof.
  intros Hok Hrev Hw Hstep Hraise. split.
  - by destruct over.
  - by destruct over.
  - apply record_usage_ok; [|done|by destruct over|].
    + eapply attempt_ok_weaken; [|done]. set_solver.
    + intros ->. set_solver.
  - set_solver.
  - intros H. destruct (Hraise H) as [-> Hf]. apply charge_le_settled with u; [|done|by auto].
    by apply in_flight_counted.
  - by destruct over.
Qed.

Lemma attempt_step s op actor now a ch :
  attempt_ok (failed_enforcements s) a → revision_left (attempt_revision a) = true →
  attempt_decide s actor now a op = Ok (Some ch) →
  change_id ch = spend_id op ∧ (∀ id a' e, ch ≠ SC_Reserved id a' e)
  ∧ attempt_moves (failed_enforcements s) (fails ch a ∪ failed_enforcements s) ch a (apply_change ch a).
Proof.
  intros Hok Hrev Hd.
  destruct op; unfold attempt_decide, dispatch_decide in Hd; ok_inv Hd; guards;
    (split; [done|]); (split; [done|]); simpl.
  - apply moves_advance; try done; [rewrite H; constructor|].
    apply charge_le_refl. unfold counted. simpl. by rewrite H.
  - apply moves_advance; try done; [rewrite Heqb; constructor|]. by apply charge_le_released.
  - apply moves_advance; try done; [rewrite Heqb; constructor|]. by apply charge_le_released.
  - apply moves_advance; try done; [rewrite Heqb0; constructor|].
    apply charge_le_refl. unfold counted. simpl. by rewrite Heqb0.
  - apply moves_usage; try done; [by eapply measured_spec|by constructor|].
    simpl. intros Hm. by destruct b; split.
  - apply moves_advance; try done; [by constructor|].
    apply charge_le_refl. by rewrite (in_flight_counted a).
  - apply moves_usage; try done; [by eapply measured_spec|by apply step_correct].
  - rewrite (left_id_L ∅ (∪)). destruct Hok. apply revision_left_spec in Hrev.
    split; simpl; try done; [constructor|].
    split; simpl; try done. by rewrite u64_add_exact.
Qed.

Lemma reserved_ok s actor now id a evidence failed :
  grants_ok s → reserved s actor now id a evidence → attempt_ok failed a.
Proof.
  intros Hok [Hfresh Hadm _ _ _ _ (Hp & Hu & Ho & Hr)]. split.
  - by eapply admitted_nonempty.
  - by eapply admitted_charges.
  - by rewrite Hp.
  - by rewrite Hu.
  - by rewrite Ho.
  - by rewrite Hr.
Qed.

(** A decided change folds without a panic and keeps the invariant; it touches
    the attempts and the failed enforcements only. *)
Lemma spend_step s op actor now ch :
  grants_ok s → attempts_ok s → spend_decide s op actor now = Ok (Some ch) →
  ∃ s', spend_evolve s ch = Some s' ∧ attempts_ok s'
    ∧ s' = s <| attempts := attempts s' |> <| failed_enforcements := failed_enforcements s' |>.
Proof.
  intros Hg Hok [(id & i & evidence & b & until & by_ & -> & Hd)|(a & Ha & Hrev & Hd)]
    %spend_decide_attempt.
  - apply reserve_decide_ok in Hd as (a & -> & _ & _ & Hres). simpl.
    eexists. split; [done|]. split; [|done]. intros j x. simpl.
    destruct (decide (id = j)) as [<-|]; [|rewrite lookup_insert_ne by done; apply Hok].
    rewrite lookup_insert_eq. intros [= <-]. by eapply reserved_ok.
  - destruct (attempt_step s op actor now a ch (Hok _ _ Ha) Hrev Hd) as (Hid & Hnr & [_ _ Hok' Hsub _ _]).
    rewrite <- Hid in Ha. rewrite (spend_evolve_existing s ch a Ha Hnr).
    eexists. split; [done|]. split; [|done]. intros j x. simpl.
    destruct (decide (change_id ch = j)) as [<-|].
    + rewrite lookup_insert_eq. by intros [= <-].
    + rewrite lookup_insert_ne by done. intros Hx. by eapply attempt_ok_weaken, Hok.
Qed.

(** *** Charges after a step *)

(** What one attempt contributes to a budget in a month. *)
Definition charge_to (b : BudgetKey) (m : Month) (c : Currency) (a : Attempt) : view :=
  if bool_decide (attempt_month a = m ∧ charges a b = true) then charge c a else vzero.

Lemma charged_view_sum s b m c :
  charged_view s b m c = foldr (λ a, vadd (charge_to b m c a)) vzero (btree_values (attempts s)).
Proof.
  unfold charged_view, charged, vsum. induction (btree_values (attempts s)) as [|a l IH]; [done|].
  rewrite filter_cons. simpl. unfold charge_to at 1. case_decide as Hc.
  - rewrite bool_decide_eq_true_2 by done. simpl. by rewrite IH.
  - rewrite bool_decide_eq_false_2 by done. by rewrite vadd_zero_l.
Qed.

Lemma charge_to_perm b m c l1 l2 :
  l1 ≡ₚ l2 →
  foldr (λ a, vadd (charge_to b m c a)) vzero l1 = foldr (λ a, vadd (charge_to b m c a)) vzero l2.
Proof.
  induction 1 as [| |x y l|]; simpl; [done|by f_equal| |congruence].
  by rewrite !vadd_assoc, (vadd_comm (charge_to b m c y)).
Qed.

(** Adding or replacing one attempt. *)
Lemma charged_view_insert s s' id a b m c :
  attempts s' = <[id := a]> (attempts s) →
  charged_view s' b m c
  = vadd (charge_to b m c a)
      (foldr (λ a, vadd (charge_to b m c a)) vzero (btree_values (delete id (attempts s)))).
Proof.
  intros Hs'. rewrite charged_view_sum, Hs'.
  rewrite (charge_to_perm _ _ _ _ (a :: btree_values (delete id (attempts s)))); [done|].
  rewrite <- insert_delete_eq. apply btree_values_insert, lookup_delete_eq.
Qed.

Lemma charged_view_split s id a b m c :
  attempts s !! id = Some a →
  charged_view s b m c
  = vadd (charge_to b m c a)
      (foldr (λ a, vadd (charge_to b m c a)) vzero (btree_values (delete id (attempts s)))).
Proof. intros Ha. apply charged_view_insert. by rewrite insert_id. Qed.

Lemma charged_view_fresh s s' id a b m c :
  attempts s !! id = None → attempts s' = <[id := a]> (attempts s) →
  charged_view s' b m c = vadd (charge_to b m c a) (charged_view s b m c).
Proof.
  intros Hn Hs'. rewrite (charged_view_insert s s' id a b m c Hs'), delete_id by done.
  by rewrite <- charged_view_sum.
Qed.

(** *** Caps *)

(** The charges of a month, seen from each currency, respect the caps. *)
Definition within_caps (v : Currency → view) (caps : Caps) : Prop :=
  (∀ cap, cap_tokens caps = Some cap → ∀ c, ((v c).1.1.1 ≤ cap)%N)
  ∧ (∀ cap, cap_money caps = Some cap →
       ((v (currency cap)).1.1.2 ≤ micros cap)%N
       ∧ ∀ c, (v c).2 = false ∧ ((v c).1.2 = true → c = currency cap)).

Lemma le_cap_spec m a b cap :
  le_cap (checked_add m a b) cap = true → (a + b ≤ cap)%N.
Proof. unfold le_cap, checked_add. intros H. case_bool_decide; [|done]. by guards. Qed.

Lemma within_spec t b caps v :
  within t b caps = Ok () → (∀ c, v c = view_totals c t) → 
  within_caps (λ c, vadd (bound_tokens b,
      match bound_money b with Some m => if bool_decide (currency m = c) then micros m else 0%N | None => 0%N end,
      match bound_money b with Some m => bool_decide (currency m = c) | None => false end,
      bool_decide (bound_money b = None)) (v c)) caps.
Proof.
  intros Hw Hv. split.
  - intros cap Hcap c. rewrite Hv. simpl. unfold within in Hw. rewrite Hcap in Hw.
    ok_inv Hw; match goal with H : le_cap _ _ = true |- _ => apply le_cap_spec in H; lia end.
  - intros cap Hcap. unfold within in Hw. rewrite Hcap in Hw.
    destruct (match cap_tokens caps with Some _ => _ | None => _ end) as [_|]; [|done].
    ok_inv Hw. guards. subst.
    match goal with H : le_cap _ _ = true |- _ => apply le_cap_spec in H as Hle end.
    rewrite Hv. simpl. rewrite bool_decide_eq_true_2 by done. split; [lia|]. intros c.
    rewrite Hv. simpl. split; [by rewrite H2|]. intros [Hc|Hc]%orb_true_iff; guards; [congruence|].
    destruct Hc as [x Hx]. rewrite forallb_forall in H0. specialize (H0 (c, x)).
    rewrite bool_decide_eq_true in H0. apply H0, list_elem_of_In. by apply elem_of_btree_iter.
Qed.

Lemma caps_admit_spec s applied m b g :
  caps_admit s applied m b = Ok () → g ∈ applied →
  ∃ t, totals s (app_budget g) m = Ok t ∧ within t b (app_caps g) = Ok ().
Proof.
  unfold caps_admit. intros Hall Hg. rewrite try_each_ok in Hall.
  destruct (budgets_complete applied g Hg) as (cs & Hcs & Hin).
  specialize (Hall (app_budget g, cs)). rewrite elem_of_btree_iter in Hall. specialize (Hall Hcs).
  simpl in Hall. destruct (totals s (app_budget g) m) as [t|]; [|done].
  exists t. split; [done|]. rewrite try_each_ok in Hall. by apply Hall.
Qed.

(** Right after a reservation, what the month has been charged, this attempt
    included, is within the caps of every grant it was admitted under. *)
Lemma reserve_caps s s' actor now id a evidence g :
  grants_ok s → reserved s actor now id a evidence → attempts s' = <[id := a]> (attempts s) →
  g ∈ attempt_grants a →
  within_caps (charged_view s' (app_budget g) (attempt_month a)) (app_caps g).
Proof.
  intros Hok Hres Hs' Hg.
  pose proof (reserved_ok s actor now id a evidence ∅ Hok Hres) as Ha.
  destruct (caps_admit_spec _ _ _ _ g (res_caps _ _ _ _ _ _ Hres) Hg) as (t & Ht & Hw).
  pose proof (within_spec t (bound a) (app_caps g)
    (charged_view s (app_budget g) (attempt_month a)) Hw) as Hcaps.
  assert (∀ c, charged_view s' (app_budget g) (attempt_month a) c
    = vadd (bound_tokens (bound a),
      match bound_money (bound a) with
      | Some m => if bool_decide (currency m = c) then micros m else 0%N | None => 0%N end,
      match bound_money (bound a) with Some m => bool_decide (currency m = c) | None => false end,
      bool_decide (bound_money (bound a) = None))
      (charged_view s (app_budget g) (attempt_month a) c)) as Heq.
  { intros c. rewrite (charged_view_fresh s s' id a) by (done || apply Hres). f_equal.
    unfold charge_to. rewrite bool_decide_eq_true_2 by (split; [done|by apply Ha]).
    unfold charge, counted. destruct (res_phase _ _ _ _ _ _ Hres) as [-> _].
    by destruct (bound_money (bound a)). }
  destruct Hcaps as [Ht' Hm']; [intros c; by rewrite (totals_ok s _ _ t Ht c)|].
  split.
  - intros cap Hcap c. rewrite Heq. by apply Ht'.
  - intros cap Hcap. destruct (Hm' cap Hcap) as [Hle Hall]. rewrite Heq. split; [done|].
    intros c. rewrite Heq. apply Hall.
Qed.

(** Replacing an attempt by one that charges no more. *)
Lemma charged_view_le s s' id a a' b m c :
  attempts s !! id = Some a → attempts s' = <[id := a']> (attempts s) →
  same_attempt a a' → charge_le a' a →
  ((charged_view s' b m c).1.1.1 ≤ (charged_view s b m c).1.1.1)%N
  ∧ (is_Some (bound_money (bound a)) →
     ((charged_view s' b m c).1.1.2 ≤ (charged_view s b m c).1.1.2)%N).
Proof.
  intros Ha Hs' (Hi & Hg & Hm & Hb & _) Hle.
  rewrite (charged_view_insert s s' id a' b m c Hs'), (charged_view_split s id a b m c Ha).
  set (rest := foldr _ _ _). unfold charge_to.
  assert (attempt_month a' = m ∧ charges a' b = true ↔ attempt_month a = m ∧ charges a b = true) as Hiff.
  { unfold charges, family. by rewrite Hm, Hg, Hi. }
  rewrite (bool_decide_ext _ _ Hiff). destruct (Hle c) as [Ht Hmo].
  case_bool_decide; unfold vadd; cbn [fst snd]; split; try lia; intros Hp; specialize (Hmo Hp); lia.
Qed.

Lemma spend_step_charges s op actor now ch s' :
  grants_ok s → attempts_ok s → spend_decide s op actor now = Ok (Some ch) →
  spend_evolve s ch = Some s' → may_raise ch = false →
  ∃ a, attempts s !! change_id ch = Some a ∧ ∀ b m c,
    ((charged_view s' b m c).1.1.1 ≤ (charged_view s b m c).1.1.1)%N
    ∧ (is_Some (bound_money (bound a)) →
       ((charged_view s' b m c).1.1.2 ≤ (charged_view s b m c).1.1.2)%N).
Proof.
  intros Hg Hok [(id & i & evidence & b & until & by_ & -> & Hd)|(a & Ha & Hrev & Hd)]
    %spend_decide_attempt Hev Hraise.
  - apply reserve_decide_ok in Hd as (a & -> & _). done.
  - destruct (attempt_step s op actor now a ch (Hok _ _ Ha) Hrev Hd) as (Hid & Hnr & [Hsame _ _ _ Hle _]).
    rewrite <- Hid in Ha. rewrite (spend_evolve_existing s ch a Ha Hnr) in Hev. simplify_eq.
    exists a. split; [done|]. intros b m c.
    by apply (charged_view_le _ _ (change_id ch) a (apply_change ch a)); auto.
Qed.

(** ** Properties *)

(** [Month::at] is the UTC calendar. For every timestamp the loops terminate
    within their bound (the [unreachable!] is unreachable) and the result is the
    month of the Gregorian calendar whose days contain the timestamp. *)
Theorem month_at_calendar (seconds : N) :
  ∃ m, month_at seconds = Some m ∧ (1 ≤ month m ≤ 12)%N
    ∧ (month_start m ≤ seconds / 86400 < month_start m + month_length m)%N.
Proof. destruct (month_at_exact seconds) as (m & ? & ? & _ & ?). eauto. Qed.

(** The only ways the totals can be refused. *)
Definition accounting_overflow (r : Rejection) : Prop :=
  r = mkRejection "token accounting overflow" ∨ r = mkRejection "money accounting overflow"
  ∨ r = mkRejection "outcome count overflow".

Lemma totals_add_err self n mo unk r : totals_add self n mo unk = Err r → accounting_overflow r.
Proof.
  unfold totals_add. destruct (u128_checked_add _ n); simpl.
  2: { intros [= <-]. by left. }
  destruct (try_fold add_money _ _) as [|e] eqn:He; [done|]. intros [= <-].
  eapply try_fold_err; [|exact He]. intros m p e'. unfold add_money.
  destruct (u128_checked_add _ p.2); simpl; [done|]. intros [= <-]. right. by left.
Qed.

Lemma count_attempt_err u a r : count_attempt u a = Err r → accounting_overflow r.
Proof.
  unfold count_attempt. intros H. destruct (counted a) as [[n mo]|]; [|done].
  destruct (phase a); repeat case_match; simplify_eq/=; try by eapply totals_add_err.
  all: unfold ok_or in *; case_match; simplify_eq; right; by right.
Qed.

Lemma totals_err s b m r : totals s b m = Err r → accounting_overflow r.
Proof.
  unfold totals, period_usage, period_total.
  destruct (try_fold count_attempt _ _) as [u|e] eqn:He.
  - apply try_fold_err. intros t x e. apply totals_add_err.
  - intros [= <-]. eapply try_fold_err; [|exact He]. apply count_attempt_err.
Qed.

(** The bucketed, overflow-checked totals are the plain sums. Whatever [totals]
    returns for a budget and a month is, in every currency, the sum over the
    attempts of that month that charge that budget of what each one counts; it
    refuses only when a sum overflows its integer. *)
Theorem totals_are_sums (s : State) (b : BudgetKey) (m : Month) :
  match totals s b m with
  | Ok t => ∀ c, view_totals c t = charged_view s b m c
  | Err r => accounting_overflow r
  end.
Proof.
  destruct (totals s b m) as [t|r] eqn:Ht; [by apply totals_ok|by eapply totals_err].
Qed.

(** The checked additions never refuse in practice: with fewer than 2^64
    attempts of 64-bit amounts on record the totals are always defined. *)
Theorem totals_never_overflow (s : State) (b : BudgetKey) (m : Month) :
  (∀ id a, attempts s !! id = Some a → u64_counted a) →
  (N.of_nat (size (attempts s)) ≤ u64_max)%N → ∃ t, totals s b m = Ok t.
Proof. apply totals_total. Qed.

(** The sample organization with one reservation of 40 tokens in July 2026. *)
Module Ledger.
Definition july : Month := mkMonth 2026 7.
Definition limit (n : N) : Bound := mkBound n None None (mkId "enf").
Definition attempt1 : Attempt :=
  mkAttempt Sample.request
    [mkApplicableGrant (mkId "g1") 1 (mkBudgetKey (mkId "c1") (S_Project Sample.team))
       (mkCaps (Some 100%N) None)]
    july (limit 40) 1784000000 1784000100 1 Ph_Reserved None ∅ None false None.
Definition state : State := Sample.state <| attempts := {[mkId "a1" := attempt1]} |>.
End Ledger.

Lemma totals_never_overflow_witness :
  ∃ t, totals Ledger.state (mkBudgetKey (mkId "c1") (S_Project Sample.team)) Ledger.july = Ok t.
Proof.
  apply (totals_never_overflow Ledger.state).
  - intros id a Ha. change (({[mkId "a1" := Ledger.attempt1]} : gmap ModelAttemptId Attempt) !! id = Some a) in Ha.
    apply lookup_singleton_Some in Ha as [<- <-]. intros n mo [= <- <-]. split; [simpl; unfold u64_max; lia|by intros v].
  - vm_compute. discriminate.
Defined.

(** The cap counts the reservation: 60 more tokens fit, 61 do not. *)
Example ledger_cap :
  (∃ ch, reserve_decide Ledger.state (mkId "fetch") 1783999000 (mkId "a2") Sample.request
           Sample.evidence (Ledger.limit 60) 1784000000 1784000100 = Ok (Some ch))
  ∧ reserve_decide Ledger.state (mkId "fetch") 1783999000 (mkId "a2") Sample.request
      Sample.evidence (Ledger.limit 61) 1784000000 1784000100 = reject "monthly token cap exhausted".
Proof. split; [eexists|]; vm_compute; reflexivity. Qed.
