(* ===== verification/ModelConnection.v ===== *)
(** * Organization model connections: the lifecycle

    [crates/core/src/model_connection.rs]: connections, their credential versions
    and secret material, composed with the grants ([ModelAccess]) and the attempt
    ledger ([ModelSpend]) into one reducer. *)

From S2P Require Import Prelude Ids Lifecycle ModelData ModelAccess ModelSpend.

Inductive Operation :=
| O_Grant (operation : GrantOperation)
| O_Spend (operation : SpendOperation)
| O_BeginIntake (connection : ModelConnectionId) (definition : ConnectionDefinition)
    (reconnects : option ModelConnectionId) (version : CredentialVersionId) (expires_at : N)
| O_BeginReplacement (connection : ModelConnectionId) (version : CredentialVersionId) (expires_at : N)
| O_RecordSealed (connection : ModelConnectionId) (version : CredentialVersionId)
    (handle : SecretHandleId)
| O_RecordVerification (connection : ModelConnectionId) (version : CredentialVersionId)
    (provider : ProviderBinding) (handle : SecretHandleId) (evidence : ObservationId)
    (check : VerificationCheck) (passed : bool)
| O_Activate (connection : ModelConnectionId) (version : CredentialVersionId)
| O_CancelCandidate (connection : ModelConnectionId) (version : CredentialVersionId)
| O_ExpireCandidate (connection : ModelConnectionId) (version : CredentialVersionId)
| O_Rename (connection : ModelConnectionId) (name : string)
| O_SetModelPolicy (connection : ModelConnectionId) (policy : ModelPolicy)
| O_SetDefault (selection : option ModelSelection)
| O_Suspend (connection : ModelConnectionId)
| O_Resume (connection : ModelConnectionId)
| O_Revoke (connection : ModelConnectionId)
| O_RequestErasure (connection : ModelConnectionId)
| O_RecordMaterialErased (connection : ModelConnectionId) (version : CredentialVersionId)
    (expected_handle : option SecretHandleId) (evidence : ObservationId).

Record Command := mkCommand {
  cmd_binding : AuthorityBinding;
  actor : AuthorityId;
  capability : Capability;
  basis : Basis;
  now : N;
  operation : Operation;
}.

Inductive Change :=
| Ch_Grant (change : GrantChange)
| Ch_Spend (change : SpendChange)
| Ch_IntakeBegun (connection : ModelConnectionId) (definition : ConnectionDefinition)
    (reconnects : option ModelConnectionId) (version : CredentialVersionId) (expires_at : N)
| Ch_ReplacementBegun (connection : ModelConnectionId) (version : CredentialVersionId) (expires_at : N)
| Ch_CandidateSealed (connection : ModelConnectionId) (version : CredentialVersionId)
    (handle : SecretHandleId)
| Ch_CandidateVerified (connection : ModelConnectionId) (version : CredentialVersionId)
    (evidence : ObservationId) (check : option VerificationCheck)
| Ch_CandidateFailed (connection : ModelConnectionId) (version : CredentialVersionId)
    (evidence : ObservationId) (check : option VerificationCheck)
| Ch_VersionActivated (connection : ModelConnectionId) (version : CredentialVersionId)
    (evidence : ObservationId)
| Ch_CandidateCancelled (connection : ModelConnectionId) (version : CredentialVersionId)
| Ch_CandidateExpired (connection : ModelConnectionId) (version : CredentialVersionId)
| Ch_ConnectionRenamed (connection : ModelConnectionId) (name : string)
| Ch_ModelPolicyChanged (connection : ModelConnectionId) (policy : ModelPolicy)
| Ch_DefaultChanged (selection : option ModelSelection)
| Ch_ConnectionSuspended (connection : ModelConnectionId)
| Ch_ConnectionResumed (connection : ModelConnectionId)
| Ch_ConnectionRevoked (connection : ModelConnectionId)
| Ch_ErasureRequested (connection : ModelConnectionId)
| Ch_MaterialErased (connection : ModelConnectionId) (version : CredentialVersionId)
    (evidence : ObservationId)
| Ch_ConnectionErased (connection : ModelConnectionId).

Record Event := mkEvent {
  ev_binding : AuthorityBinding;
  ev_actor : AuthorityId;
  at_ : N;
  change : Change;
}.

(** ** The decision *)

Definition required_capability (operation : Operation) : Capability :=
  match operation with
  | O_Grant _ => ManageGrants
  | O_Spend operation => spend_capability operation
  | O_RecordSealed _ _ _ => SealCandidate
  | O_RecordVerification _ _ _ _ _ _ _ => VerifyCandidate
  | O_ExpireCandidate _ _ => ObserveDeadline
  | O_RecordMaterialErased _ _ _ _ => ConfirmErasure
  | _ => ManageConnections
  end.

Definition closure_allows (operation : Operation) : bool :=
  match operation with
  | O_Revoke _ | O_RequestErasure _ | O_Grant (GO_Revoke _) => true
  | _ => false
  end.

(** The arms that begin or advance a candidate credential. *)
Definition candidate_decide (state : State) (now : N) (operation : Operation)
    : result Rejection (list Change) :=
  match operation with
  | O_BeginIntake id definition reconnects version expires_at =>
      try! require (negb (bool_decide (is_Some (connections state !! id))))
             "connection identity already exists";
      try! require (bool_decide (now < expires_at)%N) "candidate deadline must be in the future";
      try! match reconnects with
           | Some previous =>
               let? previous := connection state previous in
               require (negb (mutable previous)
                        && bool_decide (conn_provider (conn_definition previous) = conn_provider definition))
                 "reconnection requires a terminal predecessor with the same provider binding"
           | None => Ok ()
           end;
      Ok [Ch_IntakeBegun id definition reconnects version expires_at]
  | O_BeginReplacement id version expires_at =>
      let? current := connection state id in
      try! require (mutable current) "connection is terminal";
      try! require (bool_decide (now < expires_at)%N) "candidate deadline must be in the future";
      try! require (negb (bool_decide (is_Some (versions current !! version))))
             "credential version identity already exists";
      try! require (negb (existsb (λ value, phase_open (version_phase value))
                            (btree_values (versions current))))
             "finish or cancel the existing candidate";
      Ok [Ch_ReplacementBegun id version expires_at]
  | O_RecordSealed id version handle =>
      let? current := connection state id in
      let? item := candidate current version in
      try! require (mutable current && bool_decide (now < ModelData.expires_at item)%N)
             "candidate is no longer open";
      try! require (bool_decide (version_phase item = VP_AwaitingSecret)
                    && bool_decide (material item = M_Unobserved))
             "candidate already received material";
      try! require (negb (bool_decide (handle ∈ used_handles state)))
             "secret handle already belongs to another version";
      Ok [Ch_CandidateSealed id version handle]
  | O_RecordVerification id version provider handle evidence check passed =>
      let? current := connection state id in
      let? item := candidate current version in
      try! require (mutable current && bool_decide (now < ModelData.expires_at item)%N)
             "candidate is no longer open";
      try! require (bool_decide (conn_provider (conn_definition current) = provider))
             "verification targets a different provider binding";
      try! require (bool_decide (version_phase item = VP_Sealed)
                    && bool_decide (material item = M_Held handle))
             "verification targets different or unsealed material";
      Ok [if (passed : bool) then Ch_CandidateVerified id version evidence (Some check)
          else Ch_CandidateFailed id version evidence (Some check)]
  | O_Activate id version =>
      let? current := connection state id in
      let? item := candidate current version in
      try! require (mutable current && bool_decide (now < ModelData.expires_at item)%N)
             "candidate is no longer activatable";
      match version_phase item with
      | VP_Verified evidence =>
          try! require (is_held (material item)) "verified material is unavailable";
          try! require (bool_decide (is_Some (verification item)))
                 "candidate verification does not identify the tested capability";
          Ok [Ch_VersionActivated id version evidence]
      | _ => reject "candidate has not passed verification"
      end
  | O_CancelCandidate id version =>
      let? current := connection state id in
      let? item := candidate current version in
      try! require (phase_open (version_phase item)) "candidate is already terminal";
      Ok [Ch_CandidateCancelled id version]
  | O_ExpireCandidate id version =>
      let? current := connection state id in
      let? item := candidate current version in
      try! require (phase_open (version_phase item) && bool_decide (ModelData.expires_at item ≤ now)%N)
             "candidate has not expired or is terminal";
      Ok [Ch_CandidateExpired id version]
  | _ => Ok []
  end.

Definition usable (c : Connection) : bool :=
  match current_version c ≫= λ value, versions c !! value with
  | Some value => is_activated (version_phase value) && is_held (material value)
  | None => false
  end.

(** The arms on a connection's metadata and standing. *)
Definition connection_decide (state : State) (operation : Operation)
    : result Rejection (list Change) :=
  match operation with
  | O_Rename id name =>
      let? current := connection state id in
      try! require (mutable current) "connection is terminal";
      Ok [Ch_ConnectionRenamed id name]
  | O_SetModelPolicy id policy =>
      let? current := connection state id in
      try! require (mutable current) "connection is terminal";
      Ok [Ch_ModelPolicyChanged id policy]
  | O_SetDefault selection =>
      try! match selection with
           | Some value =>
               let? current := connection state (sel_connection value) in
               let policy := conn_policy (conn_definition current) in
               require (bool_decide (is_Some (active_version current))
                        && bool_decide (sel_model value ∈ models policy)
                        && negb (bool_decide (execution_classes policy = ∅)))
                 "default is not an active approved model"
           | None => Ok ()
           end;
      Ok [Ch_DefaultChanged selection]
  | O_Suspend id =>
      let? current := connection state id in
      try! require (bool_decide (conn_status current = CS_Active))
             "only active connections may be suspended";
      Ok [Ch_ConnectionSuspended id]
  | O_Resume id =>
      let? current := connection state id in
      try! require (bool_decide (conn_status current = CS_Suspended)) "connection is not suspended";
      try! require (usable current) "current credential is unavailable";
      Ok [Ch_ConnectionResumed id]
  | O_Revoke id =>
      let? current := connection state id in
      try! require (mutable current) "connection is already terminal";
      Ok [Ch_ConnectionRevoked id]
  | O_RequestErasure id =>
      let? current := connection state id in
      try! require (negb (bool_decide (conn_status current = CS_Erased))
                    && negb (erasure_requested current))
             "erasure is already requested or complete";
      Ok ((if mutable current then [Ch_ConnectionRevoked id] else [])
          ++ [Ch_ErasureRequested id]
          ++ (if material_gone current then [Ch_ConnectionErased id] else []))
  | O_RecordMaterialErased id version expected_handle evidence =>
      let? current := connection state id in
      let? item := candidate current version in
      try! require (bool_decide (material item = M_ErasureRequired expected_handle))
             "erasure does not match an outstanding cleanup obligation";
      Ok (Ch_MaterialErased id version evidence ::
          if erasure_requested current
             && forallb (λ p, bool_decide (p.1 = version) || gone (material p.2))
                  (btree_iter (versions current))
          then [Ch_ConnectionErased id] else [])
  | _ => Ok []
  end.

Definition operation_changes (state : State) (actor : AuthorityId) (now : N) (operation : Operation)
    : result Rejection (list Change) :=
  match operation with
  | O_Grant operation =>
      let? c := grant_decide state operation in
      Ok [Ch_Grant c]
  | O_Spend operation =>
      let? c := spend_decide state operation actor now in
      Ok (match c with Some c => [Ch_Spend c] | None => [] end)
  | O_BeginIntake _ _ _ _ _ | O_BeginReplacement _ _ _ | O_RecordSealed _ _ _
  | O_RecordVerification _ _ _ _ _ _ _ | O_Activate _ _ | O_CancelCandidate _ _
  | O_ExpireCandidate _ _ => candidate_decide state now operation
  | _ => connection_decide state operation
  end.

Definition is_spend (c : Change) : bool :=
  match c with Ch_Spend _ => true | _ => false end.

Definition decide (state : State) (command : Command) : result Rejection (list Event) :=
  try! require (match binding state with
                | Some current => bool_decide (current = cmd_binding command)
                | None => true
                end) "wrong connection authority, organization or environment";
  try! match operation command with
       | O_Spend operation => check_basis state operation (basis command)
       | _ => require (bool_decide (basis command = B_Metadata (revision state)))
                "stale connection authority basis"
       end;
  try! require (bool_decide (0 < now command)%N && bool_decide (last_at state ≤ now command)%N)
         "invalid or stale observation time";
  try! require (bool_decide (capability command = required_capability (operation command))
                || bool_decide (capability command = OrganizationClosure)
                   && closure_allows (operation command))
         "operation not permitted by authenticated capability";
  let? changes := operation_changes state (actor command) (now command) (operation command) in
  try! require (bool_decide (is_Some (u64_checked_add (revision state)
                  (N.of_nat (length (filter (λ c, is_spend c = false) changes))))))
         "connection authority revision exhausted";
  Ok (mkEvent (cmd_binding command) (actor command) (now command) <$> changes).

(** ** The fold *)

Definition new_version (expires_at : N) : Version :=
  mkVersion expires_at VP_AwaitingSecret M_Unobserved None.

(** [stored_connection(&mut next, &id)], updated by [f]. *)
Definition update_connection (state : State) (id : ModelConnectionId) (f : Connection → option Connection)
    : option State :=
  c ← connections state !! id;
  c' ← f c;
  Some (state <| connections := <[id := c']> (connections state) |>).

Definition update_version (version : CredentialVersionId) (f : Version → Version) (c : Connection)
    : option Connection :=
  v ← versions c !! version;
  Some (c <| versions := <[version := f v]> (versions c) |>).

Definition drop_material (v : Version) : Version :=
  v <| material := require_erasure (material v) |>.

Definition evolve_candidate (next : State) (at_ : N) (c : Change) : option State :=
  match c with
  | Ch_IntakeBegun id definition reconnects version expires_at =>
      family ← match reconnects with
               | Some previous => budget_family <$> connections next !! previous
               | None => Some id
               end;
      Some (next <| connections := <[id := mkConnection definition family CS_Pending
              {[version := new_version expires_at]} None false]> (connections next) |>)
  | Ch_ReplacementBegun id version expires_at =>
      update_connection next id (λ c,
        Some (c <| versions := <[version := new_version expires_at]> (versions c) |>))
  | Ch_CandidateSealed id version handle =>
      let next := next <| used_handles := {[handle]} ∪ used_handles next |> in
      update_connection next id (update_version version (λ v,
        v <| version_phase := VP_Sealed |> <| material := M_Held handle |>))
  | Ch_CandidateVerified id version evidence check =>
      update_connection next id (update_version version (λ v,
        v <| version_phase := VP_Verified evidence |>
          <| verification := (λ check, mkVerification check at_) <$> check |>))
  | Ch_CandidateFailed id version evidence check =>
      update_connection next id (update_version version (λ v,
        drop_material (v <| version_phase := VP_Failed evidence |>
          <| verification := (λ check, mkVerification check at_) <$> check |>)))
  | Ch_CandidateCancelled id version =>
      update_connection next id (update_version version (λ v,
        drop_material (v <| version_phase := VP_Cancelled |>)))
  | Ch_CandidateExpired id version =>
      update_connection next id (update_version version (λ v,
        drop_material (v <| version_phase := VP_Expired |>)))
  | Ch_VersionActivated id version evidence =>
      update_connection next id (λ c,
        c ← update_version version (λ v, v <| version_phase := VP_Activated evidence |>) c;
        let c := c <| current_version := Some version |> in
        Some (if bool_decide (conn_status c = CS_Pending) then c <| conn_status := CS_Active |> else c))
  | _ => Some next
  end.

Definition evolve_connection (next : State) (c : Change) : option State :=
  match c with
  | Ch_ConnectionRenamed id n =>
      update_connection next id (λ c,
        Some (c <| conn_definition := (conn_definition c) <| name := n |> |>))
  | Ch_ModelPolicyChanged id policy =>
      update_connection next id (λ c,
        Some (c <| conn_definition := (conn_definition c) <| conn_policy := policy |> |>))
  | Ch_DefaultChanged selection => Some (next <| default_selection := selection |>)
  | Ch_ConnectionSuspended id =>
      update_connection next id (λ c, Some (c <| conn_status := CS_Suspended |>))
  | Ch_ConnectionResumed id =>
      update_connection next id (λ c, Some (c <| conn_status := CS_Active |>))
  | Ch_ConnectionRevoked id => update_connection next id (λ c, Some (revoke c))
  | Ch_ErasureRequested id =>
      update_connection next id (λ c,
        Some (c <| erasure_requested := true |> <| versions := drop_material <$> versions c |>))
  | Ch_MaterialErased id version evidence =>
      update_connection next id (update_version version (λ v, v <| material := M_Erased evidence |>))
  | Ch_ConnectionErased id =>
      update_connection next id (λ c, Some (c <| conn_status := CS_Erased |>))
  | _ => Some next
  end.

Definition evolve_change (next : State) (at_ : N) (c : Change) : option State :=
  match c with
  | Ch_Grant c => grant_evolve next c
  | Ch_Spend c => spend_evolve next c
  | Ch_IntakeBegun _ _ _ _ _ | Ch_ReplacementBegun _ _ _ | Ch_CandidateSealed _ _ _
  | Ch_CandidateVerified _ _ _ _ | Ch_CandidateFailed _ _ _ _ | Ch_CandidateCancelled _ _
  | Ch_CandidateExpired _ _ | Ch_VersionActivated _ _ _ => evolve_candidate next at_ c
  | _ => evolve_connection next c
  end.

Definition evolve (state : State) (event : Event) : option State :=
  let next := state <| binding := Some (ev_binding event) |>
                <| revision := if is_spend (change event) then revision state
                               else u64_add (revision state) 1 |>
                <| last_at := at_ event |> in
  evolve_change next (at_ event) (change event).

Definition model_connection : Lifecycle := {|
  lc_state := State;
  lc_command := Command;
  lc_event := Event;
  lc_default := state_default;
  KIND := "organization-model-connection.v1";
  lc_decide := decide;
  lc_evolve := evolve;
  lc_snapshot_codec := None;
|}.

(** ** Invariant *)

(** The phase of a version and what is known of its material. *)
Definition version_ok (v : Version) : bool :=
  match version_phase v with
  | VP_AwaitingSecret => bool_decide (material v = M_Unobserved)
  | VP_Sealed => is_held (material v)
  | VP_Verified _ => is_held (material v) && bool_decide (is_Some (verification v))
  | VP_Activated _ => negb (bool_decide (material v = M_Unobserved))
                      && bool_decide (is_Some (verification v))
  | VP_Failed _ | VP_Cancelled | VP_Expired =>
      match material v with M_ErasureRequired _ | M_Erased _ => true | _ => false end
  end.

Definition to_erase (m : Material) : bool :=
  match m with M_ErasureRequired _ | M_Erased _ => true | _ => false end.

(** The secret handle a version's material names. *)
Definition material_handle (m : Material) : option SecretHandleId :=
  match m with
  | M_Held h => Some h
  | M_ErasureRequired h => h
  | _ => None
  end.

Record conn_ok (c : Connection) : Prop := {
  ok_versions : ∀ id v, versions c !! id = Some v → version_ok v = true;
  (** the current version was activated *)
  ok_current : ∀ id, current_version c = Some id →
    ∃ v, versions c !! id = Some v ∧ is_activated (version_phase v) = true;
  ok_standing : conn_status c = CS_Active ∨ conn_status c = CS_Suspended →
    is_Some (current_version c);
  (** at most one open candidate, none once the connection is terminal *)
  ok_open : ∀ i j v w, versions c !! i = Some v → versions c !! j = Some w →
    phase_open (version_phase v) = true → phase_open (version_phase w) = true → i = j;
  ok_terminal : mutable c = false → ∀ id v, versions c !! id = Some v →
    phase_open (version_phase v) = false;
  ok_requested : erasure_requested c = true →
    mutable c = false ∧ ∀ id v, versions c !! id = Some v → to_erase (material v) = true;
  ok_erased : conn_status c = CS_Erased →
    erasure_requested c = true ∧ ∀ id v, versions c !! id = Some v → gone (material v) = true;
}.

(** The handle a version of a connection holds or still has to erase. *)
Definition handle_of (conns : gmap ModelConnectionId Connection) (id : ModelConnectionId)
    (version : CredentialVersionId) : option SecretHandleId :=
  c ← conns !! id; v ← versions c !! version; material_handle (material v).

Definition handles_ok (conns : gmap ModelConnectionId Connection) (used : gset SecretHandleId) : Prop :=
  (∀ id v h, handle_of conns id v = Some h → h ∈ used)
  ∧ ∀ i v j w h, handle_of conns i v = Some h → handle_of conns j w = Some h → i = j ∧ v = w.

Record mc_inv (s : State) : Prop := {
  inv_conns : ∀ id c, connections s !! id = Some c → conn_ok c;
  inv_handles : handles_ok (connections s) (used_handles s);
  inv_grants : grants_ok s;
  inv_attempts : attempts_ok s;
}.

(** Changing one connection: its family stays, and it gains no handle. *)
Lemma mc_inv_update s id c c' used :
  mc_inv s → connections s !! id = Some c → conn_ok c' → budget_family c' = budget_family c →
  handles_ok (<[id := c']> (connections s)) used →
  mc_inv (s <| connections := <[id := c']> (connections s) |> <| used_handles := used |>).
Proof.
  intros [] Hc Hok Hfam Hh. split; simpl; try done.
  - intros j d Hd. apply lookup_insert_Some in Hd as [[<- <-]|[_ Hd]]; eauto.
  - intros j g Hg. simpl in *. destruct (inv_grants0 j g Hg) as [(d & Hd & Hb) Hlt]. split; [|done].
    destruct (base.decide (id = grant_connection (definition g))) as [He|].
    + exists c'. rewrite He, lookup_insert_eq. simplify_eq. by rewrite Hfam.
    + exists d. by rewrite lookup_insert_ne.
Qed.

Lemma handle_of_insert conns id c j w :
  handle_of (<[id := c]> conns) j w
  = if bool_decide (id = j) then v ← versions c !! w; material_handle (material v)
    else handle_of conns j w.
Proof.
  unfold handle_of. case_bool_decide; [subst; by rewrite lookup_insert_eq|].
  by rewrite lookup_insert_ne.
Qed.

Lemma handles_ok_le conns used id c c' :
  handles_ok conns used → conns !! id = Some c →
  (∀ w h, (v ← versions c' !! w; material_handle (material v)) = Some h →
          (v ← versions c !! w; material_handle (material v)) = Some h) →
  handles_ok (<[id := c']> conns) used.
Proof.
  intros [Hu Hi] Hc Hle.
  assert (∀ j w h, handle_of (<[id := c']> conns) j w = Some h → handle_of conns j w = Some h) as Hall.
  { intros j w h. rewrite handle_of_insert. case_bool_decide; [subst|done].
    intros Hh%Hle. unfold handle_of. by rewrite Hc. }
  split; eauto.
Qed.

Lemma handles_ok_fresh conns used id c c' version h :
  handles_ok conns used → conns !! id = Some c → h ∉ used →
  (∀ w h', (v ← versions c' !! w; material_handle (material v)) = Some h' →
     (v ← versions c !! w; material_handle (material v)) = Some h' ∨ w = version ∧ h' = h) →
  handles_ok (<[id := c']> conns) ({[h]} ∪ used).
Proof.
  intros [Hu Hi] Hc Hh Hle.
  assert (∀ j w h', handle_of (<[id := c']> conns) j w = Some h' →
    handle_of conns j w = Some h' ∨ (j = id ∧ w = version ∧ h' = h)) as Hall.
  { intros j w h'. rewrite handle_of_insert. case_bool_decide; [subst|by left].
    intros [Hh'|[-> ->]]%Hle; [|by right]. left. unfold handle_of. by rewrite Hc. }
  split.
  - intros j w h' [Hh'|(_ & _ & ->)]%Hall; [|set_solver]. apply Hu in Hh'. set_solver.
  - intros i v j w h' H1%Hall H2%Hall.
    destruct H1 as [H1|(? & ? & ?)], H2 as [H2|(? & ? & ?)]; subst; [by eauto| | |done];
      exfalso; eauto.
Qed.

(** The handle under a version id of one connection. *)
Definition conn_handle (c : Connection) (w : CredentialVersionId) : option SecretHandleId :=
  v ← versions c !! w; material_handle (material v).

Lemma update_conn_step s id c c' f :
  mc_inv s → connections s !! id = Some c → f c = Some c' → conn_ok c' →
  budget_family c' = budget_family c →
  (∀ w h, conn_handle c' w = Some h → conn_handle c w = Some h) →
  ∃ s', update_connection s id f = Some s' ∧ mc_inv s' ∧ connections s' !! id = Some c'.
Proof.
  intros Hinv Hc Hf Hok Hfam Hh. unfold update_connection. rewrite Hc. simpl. rewrite Hf. simpl.
  eexists. split; [done|]. split; [|by simpl; rewrite lookup_insert_eq].
  apply (mc_inv_update s id c c' (used_handles s)); try done.
  by eapply handles_ok_le; [apply Hinv| |].
Qed.

Lemma conn_handle_insert c version v v' w h :
  versions c !! version = Some v →
  (material_handle (material v') = Some h → material_handle (material v) = Some h) →
  conn_handle (c <| versions := <[version := v']> (versions c) |>) w = Some h →
  conn_handle c w = Some h.
Proof.
  intros Hv Hle. unfold conn_handle. simpl. destruct (base.decide (version = w)) as [<-|].
  - rewrite lookup_insert_eq, Hv. done.
  - by rewrite lookup_insert_ne.
Qed.

Lemma require_erasure_handle m : material_handle (require_erasure m) = material_handle m.
Proof. by destruct m. Qed.
Lemma require_erasure_to_erase m : to_erase (require_erasure m) = true.
Proof. by destruct m. Qed.

(** One version changes. *)
Lemma conn_ok_version c version v v' :
  conn_ok c → versions c !! version = Some v → version_ok v' = true →
  (is_activated (version_phase v) = true → is_activated (version_phase v') = true) →
  (phase_open (version_phase v') = true → phase_open (version_phase v) = true) →
  (to_erase (material v) = true → to_erase (material v') = true) →
  (gone (material v) = true → gone (material v') = true) →
  conn_ok (c <| versions := <[version := v']> (versions c) |>).
Proof.
  intros [] Hv Hok Hact Hopen Her Hgone. split; simpl; try done.
  - intros j w Hw. apply lookup_insert_Some in Hw as [[<- <-]|[_ Hw]]; eauto.
  - intros j Hj. destruct (ok_current0 j Hj) as (w & Hw & Ha).
    destruct (base.decide (version = j)) as [<-|]; [rewrite lookup_insert_eq; naive_solver|].
    rewrite lookup_insert_ne by done. eauto.
  - intros i j x w Hx Hw. apply lookup_insert_Some in Hx as [[<- <-]|[? Hx]];
      apply lookup_insert_Some in Hw as [[<- <-]|[? Hw]]; eauto.
  - intros Hm j w Hw. apply lookup_insert_Some in Hw as [[<- <-]|[_ Hw]]; [|by eauto].
    apply not_true_iff_false. intros Hp%Hopen. specialize (ok_terminal0 Hm _ _ Hv). congruence.
  - intros Hr. destruct (ok_requested0 Hr) as [Hm Hall]. split; [done|].
    intros j w Hw. apply lookup_insert_Some in Hw as [[<- <-]|[_ Hw]]; eauto.
  - intros He. destruct (ok_erased0 He) as [Hr Hall]. split; [done|].
    intros j w Hw. apply lookup_insert_Some in Hw as [[<- <-]|[_ Hw]]; eauto.
Qed.

(** A version change that adds no handle, on a connection of the state. *)
Lemma update_version_step s id c version v f :
  mc_inv s → connections s !! id = Some c → versions c !! version = Some v →
  version_ok (f v) = true →
  (is_activated (version_phase v) = true → is_activated (version_phase (f v)) = true) →
  (phase_open (version_phase (f v)) = true → phase_open (version_phase v) = true) →
  (to_erase (material v) = true → to_erase (material (f v)) = true) →
  (gone (material v) = true → gone (material (f v)) = true) →
  (∀ h, material_handle (material (f v)) = Some h → material_handle (material v) = Some h) →
  ∃ s', update_connection s id (update_version version f) = Some s' ∧ mc_inv s'
    ∧ connections s' !! id = Some (c <| versions := <[version := f v]> (versions c) |>).
Proof.
  intros Hinv Hc Hv Hok Hact Hopen Her Hgone Hh.
  eapply update_conn_step; try done.
  - unfold update_version. by rewrite Hv.
  - by eapply conn_ok_version; [eapply inv_conns| | | | | |].
  - intros w h. apply (conn_handle_insert c version v (f v) w h); auto.
Qed.

(** Giving up an open candidate. *)
Lemma drop_version_step s id c version v f :
  mc_inv s → connections s !! id = Some c → versions c !! version = Some v →
  phase_open (version_phase v) = true →
  (∀ v, material (f v) = material v) →
  (∀ v, match version_phase (f v) with VP_Failed _ | VP_Cancelled | VP_Expired => true | _ => false end = true) →
  ∃ s', update_connection s id (update_version version (λ v, drop_material (f v))) = Some s' ∧ mc_inv s'.
Proof.
  intros Hinv Hc Hv Hop Hmat Hph.
  destruct (update_version_step s id c version v (λ v, drop_material (f v))) as (s' & ? & ? & _);
    eauto; unfold drop_material; simpl; rewrite ?Hmat.
  - unfold version_ok. simpl. specialize (Hph v).
    destruct (version_phase (f v)); try done; by destruct (material v).
  - by destruct (version_phase v).
  - by rewrite require_erasure_to_erase.
  - by destruct (material v).
  - intros h. by rewrite require_erasure_handle.
Qed.

(** A change that leaves the versions alone. *)
Lemma conn_ok_frame c c' :
  conn_ok c → versions c' = versions c → current_version c' = current_version c →
  erasure_requested c' = erasure_requested c → mutable c' = mutable c →
  conn_status c' ≠ CS_Erased ∨ conn_status c' = conn_status c →
  (conn_status c' = CS_Active ∨ conn_status c' = CS_Suspended → is_Some (current_version c)) →
  conn_ok c'.
Proof.
  intros [] Hv Hcur Her Hm Hs Hst. split; rewrite ?Hv, ?Hcur, ?Her, ?Hm; try done.
  intros He. destruct Hs as [|Hs]; [done|]. rewrite Hs in He. auto.
Qed.

Lemma conn_handle_frame c c' w h :
  versions c' = versions c → conn_handle c' w = Some h → conn_handle c w = Some h.
Proof. unfold conn_handle. by intros ->. Qed.

Lemma fresh_conn_ok definition fam version expires :
  conn_ok (mkConnection definition fam CS_Pending {[version := new_version expires]} None false).
Proof.
  split; simpl; try done.
  - intros id v [_ <-]%lookup_singleton_Some. done.
  - by intros [|].
  - intros i j v w [<- _]%lookup_singleton_Some [<- _]%lookup_singleton_Some. done.
Qed.

Lemma replacement_conn_ok c version expires :
  conn_ok c → mutable c = true → versions c !! version = None →
  existsb (λ value, phase_open (version_phase value)) (btree_values (versions c)) = false →
  conn_ok (c <| versions := <[version := new_version expires]> (versions c) |>).
Proof.
  intros [] Hm Hfresh Hno.
  assert (∀ id v, versions c !! id = Some v → phase_open (version_phase v) = false) as Hclosed.
  { intros id v Hv. apply not_true_iff_false. intros Hp. apply not_true_iff_false in Hno. apply Hno.
    apply existsb_exists. exists v. split; [|done].
    apply list_elem_of_In, elem_of_btree_values. eauto. }
  split; simpl; try done.
  - intros j w Hw. apply lookup_insert_Some in Hw as [[<- <-]|[_ Hw]]; eauto.
  - intros j Hj. destruct (ok_current0 j Hj) as (w & Hw & Ha). exists w.
    rewrite lookup_insert_ne by congruence. done.
  - intros i j x w Hx Hw Hox How. apply lookup_insert_Some in Hx as [[<- <-]|[? Hx]];
      apply lookup_insert_Some in Hw as [[<- <-]|[? Hw]]; try done;
      [rewrite (Hclosed _ _ Hw) in How|rewrite (Hclosed _ _ Hx) in Hox..]; done.
  - unfold mutable in *. simpl. congruence.
  - intros Hr. destruct (ok_requested0 Hr). congruence.
  - intros He. unfold mutable in Hm. by rewrite He in Hm.
Qed.

Lemma activated_conn_ok c version v evidence :
  conn_ok c → mutable c = true → versions c !! version = Some v →
  is_held (material v) = true → is_Some (verification v) →
  conn_ok (let c := c <| versions := <[version := v <| version_phase := VP_Activated evidence |>]>
                                        (versions c) |> <| current_version := Some version |> in
           if bool_decide (conn_status c = CS_Pending) then c <| conn_status := CS_Active |> else c).
Proof.
  intros Hok Hm Hv Hheld Hver. destruct (conn_ok_version c version v
    (v <| version_phase := VP_Activated evidence |>)) as []; try done.
  { unfold version_ok. simpl. destruct Hver as [x ->]. by destruct (material v). }
  unfold mutable in Hm. simpl in *. case_bool_decide as Hst; (split; simpl; try done); unfold mutable;
    simpl; try done.
  1,3: intros id [= <-]; rewrite lookup_insert_eq; eauto.
  intros Hr. destruct (ok_requested0 Hr) as [Hm' _]. unfold mutable in Hm'. simpl in Hm'. congruence.
Qed.

Lemma revoke_lookup c id v :
  versions (revoke c) !! id = Some v ↔ ∃ w, versions c !! id = Some w ∧ v = revoke_version w.
Proof. simpl. rewrite lookup_fmap_Some. naive_solver. Qed.

Lemma revoke_version_facts w :
  phase_open (version_phase (revoke_version w)) = false
  ∧ (is_activated (version_phase w) = true → revoke_version w = w)
  ∧ (version_ok w = true → version_ok (revoke_version w) = true)
  ∧ (to_erase (material w) = true → to_erase (material (revoke_version w)) = true)
  ∧ (gone (material w) = true → gone (material (revoke_version w)) = true)
  ∧ material_handle (material (revoke_version w)) = material_handle (material w).
Proof.
  destruct w as [e p m v]. unfold revoke_version, version_ok. simpl.
  destruct p; simpl; split_and!; try done; destruct m; done.
Qed.

Lemma revoke_conn_ok c : conn_ok c → mutable c = true → conn_ok (revoke c).
Proof.
  intros [] Hm. split; try done.
  - intros id v (w & Hw & ->)%revoke_lookup. apply revoke_version_facts. eauto.
  - intros id Hid. destruct (ok_current0 id Hid) as (w & Hw & Ha). exists w. split; [|done].
    apply revoke_lookup. exists w. split; [done|]. symmetry. by apply revoke_version_facts.
  - by intros [|].
  - intros i j v w (x & _ & ->)%revoke_lookup _ Hv. by rewrite (proj1 (revoke_version_facts x)) in Hv.
  - intros _ id v (x & _ & ->)%revoke_lookup. apply revoke_version_facts.
  - intros Hr. simpl in Hr. destruct (ok_requested0 Hr). congruence.
Qed.

(** The erasure request on a terminal connection. *)
Lemma requested_conn_ok c :
  conn_ok c → mutable c = false → conn_status c ≠ CS_Erased →
  conn_ok (c <| erasure_requested := true |> <| versions := drop_material <$> versions c |>).
Proof.
  intros [] Hm He.
  assert (∀ id v, (drop_material <$> versions c) !! id = Some v →
    ∃ w, versions c !! id = Some w ∧ v = drop_material w) as Hlook.
  { intros id v. rewrite lookup_fmap_Some. naive_solver. }
  split; simpl; try done.
  - intros id v (w & Hw & ->)%Hlook. specialize (ok_versions0 id w Hw).
    specialize (ok_terminal0 Hm id w Hw). destruct w as [e p m x]. unfold version_ok in *. simpl in *.
    destruct p; simpl in *; try done; destruct m; done.
  - intros id Hid. destruct (ok_current0 id Hid) as (w & Hw & Ha).
    exists (drop_material w). by rewrite lookup_fmap, Hw.
  - intros i j v w (x & Hx & ->)%Hlook (y & Hy & ->)%Hlook. simpl. eauto.
  - intros _ id v (w & Hw & ->)%Hlook. simpl. eauto.
  - intros _. split; [done|]. intros id v (w & Hw & ->)%Hlook. apply require_erasure_to_erase.
Qed.

Lemma erased_conn_ok c :
  conn_ok c → erasure_requested c = true →
  (∀ id v, versions c !! id = Some v → gone (material v) = true) →
  conn_ok (c <| conn_status := CS_Erased |>).
Proof.
  intros [] Hr Hgone. destruct (ok_requested0 Hr) as [Hm Hall]. split; simpl; try done.
  - by intros [|].
  - eauto.
Qed.

(** ** Steps *)

Lemma mc_intake_step s t id definition reconnects version expires :
  mc_inv s → connections s !! id = None →
  (∀ previous, reconnects = Some previous → is_Some (connections s !! previous)) →
  ∃ s', evolve_change s t (Ch_IntakeBegun id definition reconnects version expires) = Some s'
        ∧ mc_inv s'.
Proof.
  intros [] Hid Hrec. simpl.
  assert (∃ fam, match reconnects with
                 | Some previous => budget_family <$> connections s !! previous
                 | None => Some id
                 end = Some fam) as [fam ->].
  { destruct reconnects as [previous|]; [|eauto]. destruct (Hrec previous eq_refl) as [c ->]. eauto. }
  simpl. eexists. split; [done|]. split; simpl; try done.
  - intros j d Hd. apply lookup_insert_Some in Hd as [[<- <-]|[_ Hd]]; [apply fresh_conn_ok|eauto].
  - assert (∀ j w h, handle_of (<[id := mkConnection definition fam CS_Pending
        {[version := new_version expires]} None false]> (connections s)) j w = Some h →
      handle_of (connections s) j w = Some h) as Hall.
    { intros j w h. rewrite handle_of_insert. case_bool_decide; [|done]. simpl.
      destruct ({[version := new_version expires]} !! w) as [v|] eqn:Hv; [|done].
      apply lookup_singleton_Some in Hv as [_ <-]. done. }
    destruct inv_handles0. split; eauto.
  - intros j g Hg. destruct (inv_grants0 j g Hg) as [(d & Hd & Hb) Hlt]. split; [|done].
    exists d. simpl. rewrite lookup_insert_ne by congruence. done.
Qed.

Lemma sealed_step s t id c version v handle :
  mc_inv s → connections s !! id = Some c → versions c !! version = Some v →
  version_phase v = VP_AwaitingSecret → material v = M_Unobserved → handle ∉ used_handles s →
  ∃ s', evolve_change s t (Ch_CandidateSealed id version handle) = Some s' ∧ mc_inv s'.
Proof.
  intros Hinv Hc Hv Hp Hm Hh. simpl. unfold update_connection, update_version. simpl.
  rewrite Hc. simpl. rewrite Hv. simpl. eexists. split; [done|].
  pose proof (conn_ok_version c version v
    (v <| version_phase := VP_Sealed |> <| material := M_Held handle |>)
    (inv_conns s Hinv id c Hc) Hv) as Hok.
  eapply (mc_inv_update s id c _ ({[handle]} ∪ used_handles s)); try done.
  - apply Hok; try done; simpl; rewrite ?Hp, ?Hm; done.
  - eapply (handles_ok_fresh _ _ _ c _ version); [apply Hinv|done|done|].
    intros w h'. simpl. destruct (base.decide (version = w)) as [<-|].
    + rewrite lookup_insert_eq. simpl. intros [= <-]. by right.
    + rewrite lookup_insert_ne by done. by left.
Qed.

Lemma activate_step s id c version v evidence t :
  mc_inv s → connections s !! id = Some c → versions c !! version = Some v →
  mutable c = true → is_held (material v) = true → is_Some (verification v) →
  ∃ s', evolve_change s t (Ch_VersionActivated id version evidence) = Some s' ∧ mc_inv s'.
Proof.
  intros Hinv Hc Hv Hm Hheld Hver. simpl.
  edestruct (update_conn_step s id c) as (s' & Hs' & Hinv' & _); [done|done| | | | |eauto].
  - unfold update_version. rewrite Hv. simpl. reflexivity.
  - by apply (activated_conn_ok c version v evidence (inv_conns s Hinv id c Hc)).
  - simpl. by case_match.
  - intros w h Hh. apply (conn_handle_insert c version v
      (v <| version_phase := VP_Activated evidence |>) w h Hv); [done|].
    simpl in Hh. by case_match.
Qed.

Lemma one_change s t ch :
  (∃ s', evolve_change s t ch = Some s' ∧ mc_inv s') →
  ∃ ch' s', [ch] = [ch'] ∧ evolve_change s t ch' = Some s' ∧ mc_inv s'.
Proof. intros (s' & ? & ?). eauto. Qed.

(** Name the connection and version an operation found. *)
Ltac name_found s :=
  try match goal with H : connections s !! _ = Some ?x |- _ => rename x into c0 end;
  try match goal with H : versions _ !! _ = Some ?x |- _ => rename x into v0 end.

Lemma mc_candidate_step s now t op chs :
  mc_inv s → candidate_decide s now op = Ok chs →
  match op with
  | O_BeginIntake _ _ _ _ _ | O_BeginReplacement _ _ _ | O_RecordSealed _ _ _
  | O_RecordVerification _ _ _ _ _ _ _ | O_Activate _ _ | O_CancelCandidate _ _
  | O_ExpireCandidate _ _ => true
  | _ => false
  end = true →
  ∃ ch s', chs = [ch] ∧ evolve_change s t ch = Some s' ∧ mc_inv s'.
Proof.
  intros Hinv Hd Hop. unfold candidate_decide, connection, candidate in Hd.
  destruct op; try done; ok_inv Hd; guards; apply one_change; name_found s.
  - apply mc_intake_step; [done|by apply eq_None_not_Some|]. intros previous [= <-]. eauto.
  - apply mc_intake_step; [done|by apply eq_None_not_Some|done].
  - destruct (update_conn_step s connection c0
      (c0 <| versions := <[version := new_version expires_at]> (versions c0) |>)
      (λ c, Some (c <| versions := <[version := new_version expires_at]> (versions c) |>)))
      as (s' & Hs' & Hinv' & _); [done|done|reflexivity| |done| |by eauto].
    + apply replacement_conn_ok; [by eapply inv_conns|done|by apply eq_None_not_Some|done].
    + intros w h. unfold conn_handle. simpl. destruct (base.decide (version = w)) as [<-|].
      * by rewrite lookup_insert_eq.
      * by rewrite lookup_insert_ne.
  - by eapply sealed_step.
  - assert (version_ok v0 = true) as Hok by (by eapply ok_versions; [eapply inv_conns|]).
    destruct passed.
    + destruct (update_version_step s connection c0 version v0 (λ v,
        v <| version_phase := VP_Verified evidence |>
          <| verification := Some (mkVerification check t) |>)) as (s' & Hs' & Hinv' & _);
        [done|done|done|..|by eauto]; simpl; try done.
      * unfold version_ok. simpl. by match goal with H : material v0 = _ |- _ => rewrite H end.
      * by match goal with H : version_phase v0 = _ |- _ => rewrite H end.
      * by match goal with H : version_phase v0 = _ |- _ => rewrite H end.
    + eapply drop_version_step; try done.
      by match goal with H : version_phase v0 = _ |- _ => rewrite H end.
  - eapply activate_step; try done.
  - by eapply drop_version_step.
  - by eapply drop_version_step.
Qed.

Definition fold_changes (t : N) (s : State) (chs : list Change) : option State :=
  foldM (λ s ch, evolve_change s t ch) s chs.

Lemma fold_changes_cons t s ch chs s' :
  evolve_change s t ch = Some s' → fold_changes t s (ch :: chs) = fold_changes t s' chs.
Proof. intros H. unfold fold_changes. cbn [foldM]. by rewrite H. Qed.

Lemma fold_changes_app t s chs1 chs2 s' :
  fold_changes t s chs1 = Some s' → fold_changes t s (chs1 ++ chs2) = fold_changes t s' chs2.
Proof. unfold fold_changes. intros H. by rewrite foldM_app, H. Qed.

Lemma revoke_step s t id c :
  mc_inv s → connections s !! id = Some c → mutable c = true →
  ∃ s', fold_changes t s [Ch_ConnectionRevoked id] = Some s' ∧ mc_inv s'
    ∧ connections s' !! id = Some (revoke c).
Proof.
  intros Hinv Hc Hm.
  destruct (update_conn_step s id c (revoke c) (λ c, Some (revoke c))) as (s1 & Hs1 & ? & ?); try done.
  - apply revoke_conn_ok; [by eapply inv_conns|done].
  - intros w h. unfold conn_handle. simpl. rewrite lookup_fmap.
    destruct (versions c !! w) as [v|]; simpl; [|done].
    by rewrite (proj2 (proj2 (proj2 (proj2 (proj2 (revoke_version_facts v)))))).
  - exists s1. by rewrite (fold_changes_cons t s (Ch_ConnectionRevoked id) [] s1 Hs1).
Qed.

(** Erasing: the request, the confirmation of one version, and completion. *)
Lemma request_step s t id c :
  mc_inv s → connections s !! id = Some c → conn_status c ≠ CS_Erased → erasure_requested c = false →
  ∃ s', fold_changes t s ((if mutable c then [Ch_ConnectionRevoked id] else [])
          ++ [Ch_ErasureRequested id]
          ++ (if material_gone c then [Ch_ConnectionErased id] else [])) = Some s' ∧ mc_inv s'.
Proof.
  intros Hinv Hc Hne Her.
  assert (∃ s1 c1, fold_changes t s (if mutable c then [Ch_ConnectionRevoked id] else []) = Some s1
    ∧ mc_inv s1 ∧ connections s1 !! id = Some c1 ∧ mutable c1 = false ∧ conn_status c1 ≠ CS_Erased
    ∧ (material_gone c = true → ∀ w v, versions c1 !! w = Some v → gone (material v) = true))
    as (s1 & c1 & Hf1 & Hinv1 & Hc1 & Hm1 & Hne1 & Hgone1).
  { assert (material_gone c = true → ∀ w v, versions c !! w = Some v → gone (material v) = true) as Hg.
    { unfold material_gone. rewrite forallb_forall. intros Hall w v Hv. apply Hall.
      apply list_elem_of_In, elem_of_btree_values. eauto. }
    destruct (mutable c) eqn:Hm; [|exists s, c; by split_and!].
    destruct (revoke_step s t id c Hinv Hc Hm) as (s1 & Hs1 & ? & ?).
    exists s1, (revoke c). split_and!; try done. intros Hgone w v (x & Hx & ->)%revoke_lookup. apply revoke_version_facts. by eapply Hg. }
  destruct (update_conn_step s1 id c1
    (c1 <| erasure_requested := true |> <| versions := drop_material <$> versions c1 |>)
    (λ c, Some (c <| erasure_requested := true |> <| versions := drop_material <$> versions c |>)))
    as (s2 & Hs2 & Hinv2 & Hc2); try done.
  { apply requested_conn_ok; [by eapply inv_conns|done|done]. }
  { intros w h. unfold conn_handle. simpl. rewrite lookup_fmap.
    destruct (versions c1 !! w); simpl; [|done]. by rewrite require_erasure_handle. }
  rewrite (fold_changes_app _ _ _ _ s1 Hf1). simpl app. rewrite (fold_changes_cons t s1 (Ch_ErasureRequested id) _ s2 Hs2).
  destruct (material_gone c) eqn:Hg; [|by eexists].
  destruct (update_conn_step s2 id _
    (c1 <| erasure_requested := true |> <| versions := drop_material <$> versions c1 |>
        <| conn_status := CS_Erased |>)
    (λ c, Some (c <| conn_status := CS_Erased |>)) Hinv2 Hc2) as (s3 & Hs3 & Hinv3 & _); try done.
  { apply erased_conn_ok; [by eapply inv_conns|done|]. simpl. intros w v.
    rewrite lookup_fmap_Some. intros (x & <- & Hx). specialize (Hgone1 eq_refl w x Hx).
    unfold drop_material. simpl. by destruct (material x). }
  rewrite (fold_changes_cons t s2 (Ch_ConnectionErased id) [] s3 Hs3). by eexists.
Qed.

Lemma material_step s t id c version v handle evidence :
  mc_inv s → connections s !! id = Some c → versions c !! version = Some v →
  material v = M_ErasureRequired handle →
  ∃ s', fold_changes t s (Ch_MaterialErased id version evidence ::
    (if erasure_requested c
        && forallb (λ p, bool_decide (p.1 = version) || gone (material p.2)) (btree_iter (versions c))
     then [Ch_ConnectionErased id] else [])) = Some s' ∧ mc_inv s'.
Proof.
  intros Hinv Hc Hv Hm. pose proof (inv_conns s Hinv id c Hc) as Hok.
  destruct (update_version_step s id c version v (λ v, v <| material := M_Erased evidence |>))
    as (s1 & Hs1 & Hinv1 & Hc1); try done.
  { pose proof (ok_versions c Hok version v Hv) as Hvok. unfold version_ok in *. simpl.
    rewrite Hm in Hvok. destruct (version_phase v); simpl in *; try done. }
  rewrite (fold_changes_cons t s (Ch_MaterialErased id version evidence) _ s1 Hs1). case_match eqn:Hg; [|by eexists]. guards.
  destruct (update_conn_step s1 id _
    (c <| versions := <[version := v <| material := M_Erased evidence |>]> (versions c) |>
       <| conn_status := CS_Erased |>)
    (λ c, Some (c <| conn_status := CS_Erased |>)) Hinv1 Hc1) as (s2 & Hs2 & Hinv2 & _); try done.
  { apply erased_conn_ok; [by eapply inv_conns|done|]. simpl. intros w x Hx.
    apply lookup_insert_Some in Hx as [[<- <-]|[Hne Hx]]; [done|].
    rewrite forallb_forall in *. match goal with H : ∀ x, In x _ → _ |- _ => specialize (H (w, x)) end.
    rewrite orb_true_iff, bool_decide_eq_true in *. simpl in *.
    edestruct H0 as [|]; [|congruence|done]. by apply list_elem_of_In, elem_of_btree_iter. }
  rewrite (fold_changes_cons t s1 (Ch_ConnectionErased id) [] s2 Hs2). by eexists.
Qed.

Lemma frame_step s t id c ch f :
  mc_inv s → connections s !! id = Some c →
  evolve_change s t ch = update_connection s id (λ c, Some (f c)) →
  versions (f c) = versions c → current_version (f c) = current_version c →
  erasure_requested (f c) = erasure_requested c → mutable (f c) = mutable c →
  budget_family (f c) = budget_family c →
  conn_status (f c) ≠ CS_Erased ∨ conn_status (f c) = conn_status c →
  (conn_status (f c) = CS_Active ∨ conn_status (f c) = CS_Suspended → is_Some (current_version c)) →
  ∃ s', fold_changes t s [ch] = Some s' ∧ mc_inv s'.
Proof.
  intros Hinv Hc Hev Hv Hcur Her Hm Hf Hs Hst.
  destruct (update_conn_step s id c (f c) (λ c, Some (f c))) as (s' & Hs' & Hinv' & _); try done.
  - eapply conn_ok_frame; [by eapply inv_conns|done..].
  - intros w h. by apply conn_handle_frame.
  - exists s'. rewrite (fold_changes_cons t s ch [] s'); [done|congruence].
Qed.

Lemma connection_step s t op chs :
  mc_inv s → connection_decide s op = Ok chs → ∃ s', fold_changes t s chs = Some s' ∧ mc_inv s'.
Proof.
  intros Hinv Hd. unfold connection_decide, connection, candidate in Hd.
  destruct op; ok_inv Hd; guards; name_found s; try (by eexists).
  - eapply frame_step; try done; [by right|]. simpl. eapply ok_standing, inv_conns; done.
  - eapply frame_step; try done; [by right|]. simpl. eapply ok_standing, inv_conns; done.
  - eexists. split; [done|]. destruct Hinv. by split.
  - eexists. split; [done|]. destruct Hinv. by split.
  - eapply (frame_step s t connection c0 _ (λ c, c <| conn_status := CS_Suspended |>)); try done.
    + unfold mutable. simpl. by rewrite Heqb.
    + by left.
    + intros _. eapply ok_standing; [by eapply inv_conns|by left].
  - eapply (frame_step s t connection c0 _ (λ c, c <| conn_status := CS_Active |>)); try done.
    + unfold mutable. simpl. by rewrite Heqb.
    + by left.
    + intros _. eapply ok_standing; [by eapply inv_conns|by right].
  - destruct (revoke_step s t connection c0 Hinv Heqo Heqb) as (s1 & ? & ? & _). eauto.
  - by apply request_step.
  - by eapply material_step.
Qed.

Lemma mc_operation_step s actor now op chs :
  mc_inv s → operation_changes s actor now op = Ok chs →
  ∃ s', fold_changes now s chs = Some s' ∧ mc_inv s'.
Proof.
  intros Hinv Hd. destruct op as [op|op| | | | | | | | | | | | | | |];
    try exact (connection_step s now _ chs Hinv Hd).
  3-9: destruct (mc_candidate_step s now now _ chs Hinv Hd eq_refl) as (ch & s' & -> & Hs' & ?);
    exists s'; by rewrite (fold_changes_cons now s ch [] s' Hs').
  - simpl in Hd. destruct (grant_decide s op) as [ch|] eqn:Hg; [|done]. simplify_eq.
    destruct (grant_step s op ch (inv_grants s Hinv) Hg) as (s' & Hs' & Hok & Heq).
    exists s'. rewrite (fold_changes_cons now s (Ch_Grant ch) [] s' Hs'). split; [done|].
    destruct Hinv. rewrite Heq in Hok |- *. by split.
  - simpl in Hd. destruct (spend_decide s op actor now) as [[ch|]|] eqn:Hg; simplify_eq; [|by eexists].
    destruct (spend_step s op actor now ch (inv_grants s Hinv) (inv_attempts s Hinv) Hg)
      as (s' & Hs' & Hok & Heq).
    exists s'. rewrite (fold_changes_cons now s (Ch_Spend ch) [] s' Hs'). split; [done|].
    destruct Hinv. rewrite Heq in Hok |- *. by split.
Qed.

(** *** Events

    An event stamps the header fields and applies its change; the changes do not
    look at the stamps. *)

Definition stamp (b : option AuthorityBinding) (r t : N) (s : State) : State :=
  s <| binding := b |> <| revision := r |> <| last_at := t |>.

Lemma update_connection_stamp b r t s id f :
  update_connection (stamp b r t s) id f = stamp b r t <$> update_connection s id f.
Proof.
  unfold update_connection. simpl. destruct (connections s !! id); simpl; [|done].
  by destruct (f _).
Qed.

Lemma evolve_change_stamp b r t s at_ ch :
  evolve_change (stamp b r t s) at_ ch = stamp b r t <$> evolve_change s at_ ch.
Proof.
  destruct ch as [[]|[]| | | | | | | | | | | | | | | | |]; try done;
    try apply update_connection_stamp; simpl.
  1-5: unfold update_grant; simpl; by destruct (grants s !! id).
  1-7: unfold update_attempt; simpl; destruct (attempts s !! id) eqn:Ha; simpl; [|done];
    repeat (case_match; simpl); rewrite ?Ha; simpl; done.
  - destruct reconnects as [previous|]; simpl; [|done]. by destruct (connections s !! previous).
  - unfold update_connection, update_version. simpl.
    destruct (connections s !! connection) as [c|]; simpl; [|done]. by destruct (versions c !! version).
Qed.

Definition count_metadata (chs : list Change) : nat := length (filter (λ c, is_spend c = false) chs).

(** Folding a batch of events is folding its changes; the revision counts the
    changes that are not spend. *)
Lemma evolve_fold b a t chs : ∀ s s' sb r st,
  (r + N.of_nat (count_metadata chs) < u64_modulus)%N → fold_changes t s chs = Some s' →
  ∃ sb' r' st', foldM evolve (stamp sb r st s) (mkEvent b a t <$> chs) = Some (stamp sb' r' st' s')
    ∧ r' = (r + N.of_nat (count_metadata chs))%N.
Proof.
  induction chs as [|ch chs IH]; intros s s' sb r st Hr Hf.
  - unfold fold_changes in Hf. simpl in Hf. simplify_eq. exists sb, r, st. split; [done|].
    unfold count_metadata. simpl. lia.
  - unfold fold_changes in Hf. cbn [foldM] in Hf.
    destruct (evolve_change s t ch) as [s1|] eqn:Hch; [|done].
    assert (evolve (stamp sb r st s) (mkEvent b a t ch)
      = Some (stamp (Some b) (if is_spend ch then r else u64_add r 1) t s1)) as Hev.
    { unfold evolve. cbn [change at_ ev_binding].
      change (evolve_change (stamp (Some b) (if is_spend ch then r else u64_add r 1) t s) t ch
        = Some (stamp (Some b) (if is_spend ch then r else u64_add r 1) t s1)).
      by rewrite evolve_change_stamp, Hch. }
    cbn [fmap list_fmap foldM]. rewrite Hev. unfold count_metadata in *. rewrite filter_cons in *.
    destruct (is_spend ch) eqn:Hsp; simpl in *.
    + destruct (IH s1 s' (Some b) r t Hr Hf) as (? & ? & ? & ? & ?). eauto.
    + rewrite u64_add_exact by lia.
      destruct (IH s1 s' (Some b) (r + 1)%N t ltac:(lia) Hf) as (sb' & r' & st' & ? & ?).
      exists sb', r', st'. split; [done|lia].
Qed.

Lemma mc_inv_stamp b r t s : mc_inv s → mc_inv (stamp b r t s).
Proof. intros []. by split. Qed.

(** What an admitted command's events are. *)
Lemma decide_changes s c es :
  decide s c = Ok es →
  ∃ chs, es = mkEvent (cmd_binding c) (actor c) (now c) <$> chs
    ∧ operation_changes s (actor c) (now c) (operation c) = Ok chs
    ∧ (revision s + N.of_nat (count_metadata chs) < u64_modulus)%N
    ∧ (last_at s ≤ now c)%N.
Proof.
  unfold decide. intros H. repeat split_outer H. simplify_eq.
  repeat match goal with H : require _ _ = Ok _ |- _ => apply require_ok in H end. guards.
  eexists. split_and!; try done.
  match goal with H : is_Some (u64_checked_add _ _) |- _ => destruct H as [x [_ ?]%checked_add_Some] end.
  done.
Qed.

Lemma mc_inv_step s c es :
  mc_inv s → decide s c = Ok es →
  ∃ s', foldM evolve s es = Some s' ∧ mc_inv s'
    ∧ revision s' = (revision s + N.of_nat (length (filter (λ e, is_spend (change e) = false) es)))%N
    ∧ (revision s' < u64_modulus)%N.
Proof.
  intros Hinv (chs & -> & Hop & Hr & _)%decide_changes.
  destruct (mc_operation_step s (actor c) (now c) (operation c) chs Hinv Hop) as (s1 & Hf & Hinv1).
  destruct (evolve_fold (cmd_binding c) (actor c) (now c) chs s s1 (binding s) (revision s) (last_at s) Hr Hf)
    as (sb & r & st & Hev & Hrev).
  exists (stamp sb r st s1). split_and!.
  - rewrite <- Hev. by destruct s.
  - by apply mc_inv_stamp.
  - simpl. rewrite Hrev. f_equal. f_equal. unfold count_metadata.
    clear. induction chs as [|ch chs IH]; [done|]. rewrite fmap_cons, !filter_cons. simpl.
    case_decide; simpl; congruence.
  - simpl. by rewrite Hrev.
Qed.

Lemma mc_inv_default : mc_inv state_default.
Proof.
  split; simpl.
  - intros id c. by rewrite lookup_empty.
  - split; unfold handle_of; intros *; by rewrite lookup_empty.
  - intros id g. simpl. by rewrite lookup_empty.
  - intros id a. simpl. by rewrite lookup_empty.
Qed.

#[export] Instance model_connection_safe : LifecycleSafe model_connection.
Proof.
  refine {| lc_inv := (mc_inv : lc_state model_connection → Prop) |}.
  - exact mc_inv_default.
  - intros s c es Hinv Hd. destruct (mc_inv_step s c es Hinv Hd) as (s' & ? & ? & _). eauto.
Defined.

(** ** The ledger through the lifecycle *)

Lemma mc_trace_inv log s : trace model_connection log s → mc_inv s.
Proof. exact (trace_inv model_connection log s). Qed.

(** A spend event is alone in its batch and was decided by the ledger. *)
Lemma spend_event s c es e ch :
  decide s c = Ok es → e ∈ es → change e = Ch_Spend ch →
  ∃ op, operation c = O_Spend op ∧ spend_decide s op (actor c) (now c) = Ok (Some ch)
    ∧ es = [e] ∧ at_ e = now c.
Proof.
  intros (chs & -> & Hop & _)%decide_changes He Hch.
  assert (Ch_Spend ch ∈ chs) as Hin.
  { apply list_elem_of_fmap in He as (x & -> & Hx). simpl in Hch. by subst x. }
  destruct (operation c) as [gop|op| | | | | | | | | | | | | | |] eqn:Hc; unfold operation_changes in Hop.
  2: { destruct (spend_decide s op _ _) as [[x|]|] eqn:Hd; simplify_eq/=;
         [|by apply elem_of_nil in Hin].
       apply list_elem_of_singleton in Hin as [= ->].
       apply list_elem_of_singleton in He as ->. eauto 10. }
  1: { destruct (grant_decide s gop); simplify_eq. by apply list_elem_of_singleton in Hin. }
  all: exfalso; unfold candidate_decide, connection_decide in Hop;
    unfold require, reject, ok_or in Hop; cbv beta iota in Hop; repeat split_outer Hop;
    simplify_eq; repeat case_match; set_solver.
Qed.

Lemma evolve_spend s e ch :
  change e = Ch_Spend ch →
  evolve s e = stamp (Some (ev_binding e)) (revision s) (at_ e) <$> spend_evolve s ch.
Proof.
  intros He. unfold evolve. rewrite He. simpl is_spend. cbv iota.
  apply (evolve_change_stamp (Some (ev_binding e)) (revision s) (at_ e) s (at_ e) (Ch_Spend ch)).
Qed.

(** Other events leave the ledger alone. *)
Lemma evolve_other s e s' :
  is_spend (change e) = false → evolve s e = Some s' →
  attempts s' = attempts s ∧ failed_enforcements s' = failed_enforcements s.
Proof.
  intros Hsp He.
  assert (∀ s0 id f s1, update_connection s0 id f = Some s1 →
    attempts s1 = attempts s0 ∧ failed_enforcements s1 = failed_enforcements s0) as Hconn.
  { intros s0 id f s1. unfold update_connection. destruct (connections s0 !! id); simpl; [|done].
    destruct (f _); simpl; [|done]. by intros [= <-]. }
  assert (∀ s0 id f s1, update_grant s0 id f = Some s1 →
    attempts s1 = attempts s0 ∧ failed_enforcements s1 = failed_enforcements s0) as Hgr.
  { intros s0 id f s1. unfold update_grant. destruct (grants s0 !! id); simpl; [|done].
    by intros [= <-]. }
  unfold evolve in He. destruct (change e) as [[]| | | | | | | | | | | | | | | | | |]; try done;
    try (apply Hconn in He; done); try (apply Hgr in He; done); simpl in He.
  - by simplify_eq/=.
  - destruct (match reconnects with Some _ => _ | None => _ end); simplify_eq/=; done.
  - by simplify_eq/=.
Qed.

Lemma fold_other es : ∀ s s',
  (∀ e, e ∈ es → is_spend (change e) = false) → foldM evolve s es = Some s' →
  attempts s' = attempts s ∧ failed_enforcements s' = failed_enforcements s.
Proof.
  induction es as [|e es IH]; intros s s' Hsp Hf; simpl in Hf; [by simplify_eq|].
  destruct (evolve s e) as [s1|] eqn:He; [|done].
  destruct (evolve_other s e s1 (Hsp e ltac:(by left)) He) as [<- <-].
  apply IH; [|done]. intros x Hx. apply Hsp. by right.
Qed.

Lemma ledger_step s c es s' :
  decide s c = Ok es → foldM evolve s es = Some s' →
  (attempts s' = attempts s ∧ failed_enforcements s' = failed_enforcements s
   ∧ ∀ e, e ∈ es → is_spend (change e) = false)
  ∨ ∃ op ch e s1, operation c = O_Spend op ∧ spend_decide s op (actor c) (now c) = Ok (Some ch)
      ∧ es = [e] ∧ change e = Ch_Spend ch ∧ at_ e = now c
      ∧ spend_evolve s ch = Some s1 ∧ attempts s' = attempts s1
      ∧ failed_enforcements s' = failed_enforcements s1.
Proof.
  intros Hd Hf. destruct (existsb (λ e, is_spend (change e)) es) eqn:Hex.
  - right. apply existsb_exists in Hex as (e & He%list_elem_of_In & Hsp).
    destruct (change e) as [|ch| | | | | | | | | | | | | | | | |] eqn:Hch; try done.
    destruct (spend_event s c es e ch Hd He Hch) as (op & Hop & Hsd & -> & Hat).
    simpl in Hf. rewrite (evolve_spend s e ch Hch) in Hf.
    destruct (spend_evolve s ch) as [s1|] eqn:Hs1; simplify_eq/=. eauto 20.
  - left. assert (∀ e, e ∈ es → is_spend (change e) = false) as Hall.
    { intros e He. apply not_true_iff_false. intros Hsp. apply not_true_iff_false in Hex. apply Hex.
      apply existsb_exists. exists e. by rewrite <- list_elem_of_In. }
    destruct (fold_other es s s' Hall Hf). done.
Qed.

(** Later ledgers keep every attempt's identity; a phase never returns to
    reserved; failed enforcements stay failed. *)
Definition ledger_le (s s' : State) : Prop :=
  (∀ id a, attempts s !! id = Some a → ∃ a', attempts s' !! id = Some a' ∧ same_attempt a a'
     ∧ (phase a ≠ Ph_Reserved → phase a' ≠ Ph_Reserved))
  ∧ failed_enforcements s ⊆ failed_enforcements s'.

Lemma same_attempt_refl a : same_attempt a a.
Proof. by repeat split. Qed.

Lemma phase_step_reserved p q : phase_step p q → p ≠ Ph_Reserved → q ≠ Ph_Reserved.
Proof. by destruct 1. Qed.

Lemma spend_step_le s op actor now ch s' :
  mc_inv s → spend_decide s op actor now = Ok (Some ch) → spend_evolve s ch = Some s' →
  ledger_le s s'
  ∧ match ch with
    | SC_Reserved id a _ => ∃ evidence, reserved s actor now id a evidence
        ∧ attempts s' = <[id := a]> (attempts s)
    | _ => ∃ a, attempts s !! change_id ch = Some a
        ∧ attempts s' = <[change_id ch := apply_change ch a]> (attempts s)
        ∧ fails ch a ⊆ failed_enforcements s'
        ∧ attempt_decide s actor now a op = Ok (Some ch)
        ∧ attempt_moves (failed_enforcements s) (failed_enforcements s') ch a (apply_change ch a)
    end.
Proof.
  intros Hinv Hd Hev.
  apply spend_decide_attempt in Hd as [(id & i & evidence & b & until & by_ & -> & Hd)|(a & Ha & Hrev & Hd)].
  - apply reserve_decide_ok in Hd as (a & -> & _ & _ & Hres). simpl in Hev. simplify_eq/=.
    split; [split; [|done]|by eauto]. intros j x Hx. simpl. exists x.
    rewrite lookup_insert_ne; [by split_and!; [|apply same_attempt_refl|]|].
    intros <-. rewrite (res_fresh _ _ _ _ _ _ Hres) in Hx. done.
  - destruct (attempt_step s op actor now a ch (inv_attempts s Hinv _ _ Ha) Hrev Hd)
      as (Hid & Hnr & Hmv).
    rewrite <- Hid in Ha. rewrite (spend_evolve_existing s ch a Ha Hnr) in Hev. simplify_eq/=.
    split.
    + split; [|simpl; set_solver]. intros j x Hx. simpl.
      destruct (base.decide (change_id ch = j)) as [<-|].
      * rewrite lookup_insert_eq. simplify_eq. eexists. split; [done|].
        split; [apply Hmv|]. eapply phase_step_reserved, Hmv.
      * rewrite lookup_insert_ne by done. exists x. by split_and!; [|apply same_attempt_refl|].
    + destruct ch; try by edestruct Hnr.
      all: exists a; split_and!; try done; simpl; set_solver.
Qed.

(** What the ledger retains of one event. *)
Definition ledger_retains (e : Event) (s : State) : Prop :=
  match change e with
  | Ch_Spend (SC_Reserved id a _) => ∃ a', attempts s !! id = Some a' ∧ same_attempt a a'
  | Ch_Spend (SC_Dispatched id _) => ∃ a, attempts s !! id = Some a ∧ phase a ≠ Ph_Reserved
  | Ch_Spend (SC_Settled id _ _ true) | Ch_Spend (SC_Corrected id _ _ true) =>
      ∃ a, attempts s !! id = Some a ∧ enforcement (bound a) ∈ failed_enforcements s
  | _ => True
  end.

Lemma same_attempt_trans a b c : same_attempt a b → same_attempt b c → same_attempt a c.
Proof. unfold same_attempt. intros (?&?&?&?&?&?) (?&?&?&?&?&?). split_and!; congruence. Qed.

Lemma ledger_retains_le e s s' : ledger_le s s' → ledger_retains e s → ledger_retains e s'.
Proof.
  intros [Hle Hf]. unfold ledger_retains. destruct (change e); try done.
  assert (∀ id a, attempts s !! id = Some a → enforcement (bound a) ∈ failed_enforcements s →
    ∃ a', attempts s' !! id = Some a' ∧ enforcement (bound a') ∈ failed_enforcements s') as Hfail.
  { intros id a Ha Hin. destruct (Hle id a Ha) as (a' & ? & (_ & _ & _ & Hb & _) & _).
    exists a'. rewrite Hb. auto. }
  destruct change0 as [id x ev|id ev|id|id ev|id u ev over|id|id u ev over|id r ev]; try done.
  - intros (a & Ha & Hs). destruct (Hle id a Ha) as (a' & ? & ? & _).
    eauto using same_attempt_trans.
  - intros (a & Ha & Hp). destruct (Hle id a Ha) as (a' & ? & _ & ?). eauto.
  - destruct over; [|done]. intros (a & Ha & Hin). eauto.
  - destruct over; [|done]. intros (a & Ha & Hin). eauto.
Qed.

Lemma ledger_admitted s c es s' :
  mc_inv s → decide s c = Ok es → foldM evolve s es = Some s' →
  ledger_le s s' ∧ ∀ e, e ∈ es → ledger_retains e s'.
Proof.
  intros Hinv Hd Hf.
  destruct (ledger_step s c es s' Hd Hf)
    as [(Ha & Hfl & Hall)|(op & ch & e & s1 & Hop & Hsd & -> & Hch & _ & Hs1 & Ha & Hfl)].
  - split.
    + split; [|by rewrite Hfl]. intros id a Hid. exists a. rewrite Ha.
      by split_and!; [|apply same_attempt_refl|].
    + intros e He%Hall. unfold ledger_retains. by destruct (change e).
  - destruct (spend_step_le s op (actor c) (now c) ch s1 Hinv Hsd Hs1) as [[Hle1 Hle2] Hpost].
    split; [split; [by rewrite Ha|by rewrite Hfl]|].
    intros e' ->%list_elem_of_singleton. unfold ledger_retains. rewrite Hch, Ha, Hfl.
    destruct ch as [id x ev|id ev|id|id ev|id u ev over|id|id u ev over|id r ev]; try done.
    + destruct Hpost as (evidence & _ & ->). rewrite lookup_insert_eq.
      eauto using same_attempt_refl.
    + destruct Hpost as (a & _ & -> & _). simpl. rewrite lookup_insert_eq. eauto.
    + destruct over; [|done]. destruct Hpost as (a & _ & -> & Hfails & _). simpl in *.
      rewrite lookup_insert_eq. eexists. split; [done|]. set_solver.
    + destruct over; [|done]. destruct Hpost as (a & _ & -> & Hfails & _). simpl in *.
      rewrite lookup_insert_eq. eexists. split; [done|]. set_solver.
Qed.

Lemma mc_retained log s : trace model_connection log s → ∀ e, e ∈ log → ledger_retains e s.
Proof.
  apply (trace_events model_connection). intros s0 c es s1 Hinv Hd Hf.
  destruct (ledger_admitted s0 c es s1 Hinv Hd Hf) as [Hle Hnew].
  split; [exact Hnew|]. intros e. by apply ledger_retains_le.
Qed.

(** The state in which a logged spend event was decided. *)
Lemma spend_decided log s before e after ch :
  trace model_connection log s → log = before ++ e :: after → change e = Ch_Spend ch →
  ∃ s0 c op, trace model_connection before s0 ∧ decide s0 c = Ok [e]
    ∧ spend_decide s0 op (actor c) (now c) = Ok (Some ch) ∧ at_ e = now c.
Proof.
  intros Ht Heq Hch.
  destruct (trace_event_batch model_connection log s before e after Ht Heq)
    as (earlier & pre & post & s0 & c & -> & Ht0 & Hd).
  destruct (spend_event s0 c _ e ch Hd) as (op & Hop & Hsd & Hes & Hat); [set_solver|done|].
  destruct pre as [|x pre]; [|by destruct pre]. injection Hes as ->.
  rewrite app_nil_r. eauto 10.
Qed.

(** What a decided dispatch establishes. *)
Lemma dispatch_decided s op actor now id ev :
  spend_decide s op actor now = Ok (Some (SC_Dispatched id ev)) →
  ∃ a evidence fam, attempts s !! id = Some a ∧ phase a = Ph_Reserved ∧ (now < reserved_until a)%N
    ∧ admitted s (invocation a) evidence actor (attempt_grants a)
    ∧ family a = Some fam ∧ eligible s fam (bound a) = Ok ().
Proof.
  intros [(id0 & i & evidence & b & until & by_ & -> & Hd)|(a & Ha & _ & Hd)]%spend_decide_attempt.
  - by apply reserve_decide_ok in Hd as (a & ? & _).
  - destruct op; unfold attempt_decide in Hd; try by (ok_inv Hd).
    unfold dispatch_decide in Hd. ok_inv Hd. guards. subst.
    repeat match goal with u : unit |- _ => destruct u end.
    eexists a, _, _. split_and!; try done. by apply applicable_ok.
Qed.

Lemma eligible_spec s fam b :
  eligible s fam b = Ok () →
  enforcement b ∉ failed_enforcements s ∧ overrun_pending s fam = false.
Proof. unfold eligible. intros H. ok_inv H. guards. done. Qed.

(** ** Properties *)

(** C7: organizations' connections, grants and ledger are consistent after any
    sequence of requests: folding never panics; no secret handle belongs to two
    versions; a terminal connection has no open candidate, one under erasure has
    every version's material marked or erased and an erased one has none left; an
    attempt charges every budget it was admitted under; and the management
    revision counts exactly the non-spend events and never wraps. *)
Theorem model_connection_session_safe (cs : list Command) :
  ∃ log s, session model_connection cs = Some (log, s) ∧ replay model_connection log = Some s
    ∧ mc_inv s
    ∧ revision s = N.of_nat (length (filter (λ e, is_spend (change e) = false) log))
    ∧ (revision s < u64_modulus)%N.
Proof.
  destruct (session_total model_connection cs) as (log & s & Hs & Ht & Hinv & Hr).
  exists log, s. split_and!; [done|done|done|..]; clear Hs Hr Hinv.
  - induction Ht as [|log s c es s' Ht IH Ha]; [done|]. apply apply_admitted in Ha as [Hd Hev].
    destruct (mc_inv_step s c es (mc_trace_inv log s Ht) Hd) as (s2 & Hev2 & _ & Hrev & _).
    assert (s2 = s') as -> by (change (foldM evolve s es = Some s') in Hev; congruence).
    rewrite Hrev, IH. rewrite filter_app, length_app. by rewrite Nat2N.inj_add.
  - destruct Ht as [|log s c es s' Ht Ha]; [done|]. apply apply_admitted in Ha as [Hd Hev].
    destruct (mc_inv_step s c es (mc_trace_inv log s Ht) Hd) as (s2 & Hev2 & _ & _ & Hlt).
    assert (s2 = s') as -> by (change (foldM evolve s es = Some s') in Hev; congruence). done.
Qed.

(** C4: caps are never exceeded by a reservation. Whatever happened before, when a
    reservation is admitted the charges of its month, the new attempt included,
    are within the token cap and the money cap of every grant it was admitted
    under, at the caps those grants currently have; a money cap leaves no
    unpriced or foreign-currency charge beside it. *)
Theorem reservation_within_caps (cs : list Command) (c : Command) :
  ∃ log s, session model_connection cs = Some (log, s)
    ∧ ∀ es s' e id a ev, apply model_connection s c = Applied es s' → e ∈ es →
        change e = Ch_Spend (SC_Reserved id a ev) →
        month_at (now c) = Some (attempt_month a)
        ∧ ∀ g, g ∈ attempt_grants a →
          within_caps (charged_view s' (app_budget g) (attempt_month a)) (app_caps g)
          ∧ ∃ gr, grants s !! app_id g = Some gr ∧ grant_status gr = GS_Active
                  ∧ caps (definition gr) = app_caps g.
Proof.
  destruct (session_total model_connection cs) as (log & s & Hs & Ht & _ & _).
  pose proof (mc_trace_inv log s Ht) as Hinv.
  exists log, s. split; [done|]. intros es s' e id a ev [Hd Hev]%apply_admitted He Hch.
  destruct (ledger_step s c es s' Hd Hev)
    as [(_ & _ & Hall)|(op & ch & e' & s1 & _ & Hsd & -> & Hch' & _ & Hs1 & Ha & _)].
  { specialize (Hall e He). by rewrite Hch in Hall. }
  apply list_elem_of_singleton in He as ->. rewrite Hch in Hch'. injection Hch' as <-.
  destruct (spend_step_le s op _ _ _ s1 Hinv Hsd Hs1) as [_ (evidence & Hres & Hins)].
  split; [apply Hres|]. intros g Hg. split.
  - eapply reserve_caps; [apply Hinv|exact Hres|congruence|done].
  - apply (adm_applied _ _ _ _ _ (res_admitted _ _ _ _ _ _ Hres)) in Hg as (gr & Hgr & Hm & ->).
    unfold grant_matches in Hm. guards. eauto.
Qed.

(** Nothing but a correction or an overrun raises what a budget was charged.
    Dispatch, release, unknown outcomes, deadline accounting, repairs and
    settlements within the bound never increase any budget's tokens in any month,
    nor its money when the attempt's bound is priced. *)
Theorem charges_never_grow (cs : list Command) (c : Command) :
  ∃ log s, session model_connection cs = Some (log, s)
    ∧ ∀ es s' e ch, apply model_connection s c = Applied es s' → e ∈ es →
        change e = Ch_Spend ch → may_raise ch = false →
        ∃ a, attempts s !! change_id ch = Some a ∧ ∀ b m cur,
          ((charged_view s' b m cur).1.1.1 ≤ (charged_view s b m cur).1.1.1)%N
          ∧ (is_Some (bound_money (bound a)) →
             ((charged_view s' b m cur).1.1.2 ≤ (charged_view s b m cur).1.1.2)%N).
Proof.
  destruct (session_total model_connection cs) as (log & s & Hs & Ht & _ & _).
  pose proof (mc_trace_inv log s Ht) as Hinv.
  exists log, s. split; [done|]. intros es s' e ch [Hd Hev]%apply_admitted He Hch Hraise.
  destruct (ledger_step s c es s' Hd Hev)
    as [(_ & _ & Hall)|(op & ch' & e' & s1 & _ & Hsd & -> & Hch' & _ & Hs1 & Ha & _)].
  { specialize (Hall e He). by rewrite Hch in Hall. }
  apply list_elem_of_singleton in He as ->. rewrite Hch in Hch'. injection Hch' as <-.
  destruct (spend_step_charges s op _ _ ch s1 (inv_grants s Hinv) (inv_attempts s Hinv) Hsd Hs1 Hraise)
    as (a & Hat & Hle).
  exists a. split; [done|]. intros b m cur. specialize (Hle b m cur).
  assert (charged_view s' b m cur = charged_view s1 b m cur) as ->; [|done].
  unfold charged_view, charged. by rewrite Ha.
Qed.

(** A provider call is dispatched at most once per attempt, and only on a live
    reservation whose grants, credential version and enforcement are all current
    at that moment: the attempt was reserved and before its deadline, the request
    passes [applicable] with exactly the grants it was reserved under, the
    enforcement has not failed, and the family has no overrun awaiting repair. *)
Theorem dispatch_gate (cs : list Command) :
  ∃ log s, session model_connection cs = Some (log, s)
    ∧ ∀ before e after id ev, log = before ++ e :: after →
        change e = Ch_Spend (SC_Dispatched id ev) →
        (∃ s0 a actor evidence fam, replay model_connection before = Some s0
           ∧ attempts s0 !! id = Some a ∧ phase a = Ph_Reserved ∧ (at_ e < reserved_until a)%N
           ∧ admitted s0 (invocation a) evidence actor (attempt_grants a)
           ∧ family a = Some fam ∧ enforcement (bound a) ∉ failed_enforcements s0
           ∧ overrun_pending s0 fam = false)
        ∧ ∀ e' ev', e' ∈ before ∨ e' ∈ after → change e' ≠ Ch_Spend (SC_Dispatched id ev').
Proof.
  destruct (session_total model_connection cs) as (log & s & Hs & Ht & _ & _).
  exists log, s. split; [done|]. clear Hs.
  assert (∀ before e after id ev e' ev', log = before ++ e :: after →
    change e = Ch_Spend (SC_Dispatched id ev) → e' ∈ before →
    change e' ≠ Ch_Spend (SC_Dispatched id ev')) as Hbefore.
  { intros before e after id ev e' ev' Heq He Hin He'.
    destruct (spend_decided log s before e after _ Ht Heq He) as (s0 & c & op & Ht0 & _ & Hsd & _).
    apply dispatch_decided in Hsd as (a & _ & _ & Ha & Hp & _).
    pose proof (mc_retained before s0 Ht0 e' Hin) as Hret. unfold ledger_retains in Hret.
    rewrite He' in Hret. destruct Hret as (a' & ? & ?). congruence. }
  intros before e after id ev Heq He. split.
  - destruct (spend_decided log s before e after _ Ht Heq He) as (s0 & c & op & Ht0 & _ & Hsd & Hat).
    apply dispatch_decided in Hsd as (a & evidence & fam & ? & ? & ? & ? & ? & Hel).
    apply eligible_spec in Hel as [? ?]. exists s0, a, (actor c), evidence, fam.
    rewrite Hat. split_and!; try done. by apply trace_replay.
  - intros e' ev' [Hin|Hin] He'; [by eapply Hbefore|].
    apply list_elem_of_split in Hin as (l1 & l2 & ->).
    refine (Hbefore (before ++ e :: l1) e' l2 id ev' e ev _ He' _ He).
    + by rewrite Heq, <- app_assoc.
    + apply elem_of_app. right. by left.
Qed.

(** An overrun condemns its enforcement for good. Once measured usage of an
    attempt has exceeded its bound, no later reservation of any connection is
    admitted under the enforcement revision that failed. *)
Theorem overrun_quarantine (cs : list Command) :
  ∃ log s, session model_connection cs = Some (log, s)
    ∧ ∀ l1 e1 l2 e2 l3 id1 u ev1 id2 a2 ev2, log = l1 ++ e1 :: l2 ++ e2 :: l3 →
        change e1 = Ch_Spend (SC_Settled id1 u ev1 true)
        ∨ change e1 = Ch_Spend (SC_Corrected id1 u ev1 true) →
        change e2 = Ch_Spend (SC_Reserved id2 a2 ev2) →
        ∃ s0 a1, replay model_connection (l1 ++ e1 :: l2) = Some s0
          ∧ attempts s0 !! id1 = Some a1 ∧ enforcement (bound a1) ∈ failed_enforcements s0
          ∧ enforcement (bound a2) ≠ enforcement (bound a1).
Proof.
  destruct (session_total model_connection cs) as (log & s & Hs & Ht & _ & _).
  exists log, s. split; [done|]. intros l1 e1 l2 e2 l3 id1 u ev1 id2 a2 ev2 Heq He1 He2.
  assert (log = (l1 ++ e1 :: l2) ++ e2 :: l3) as Heq' by (by rewrite Heq, <- app_assoc).
  destruct (spend_decided log s _ e2 l3 _ Ht Heq' He2) as (s0 & c & op & Ht0 & Hd & Hsd & _).
  assert (ledger_retains e1 s0) as Hret by (apply (mc_retained _ s0 Ht0); set_solver).
  assert (∃ a, attempts s0 !! id1 = Some a ∧ enforcement (bound a) ∈ failed_enforcements s0)
    as (a1 & Ha1 & Hf1) by (unfold ledger_retains in Hret; by destruct He1 as [He1|He1]; rewrite He1 in Hret).
  exists s0, a1. split_and!; [by apply trace_replay|done|done|].
  pose proof (mc_trace_inv _ s0 Ht0) as Hinv.
  destruct (spend_step s0 op _ _ _ (inv_grants s0 Hinv) (inv_attempts s0 Hinv) Hsd) as (s1 & Hs1 & _).
  destruct (spend_step_le s0 op _ _ _ s1 Hinv Hsd Hs1) as [_ (evidence & Hres & _)].
  destruct (res_eligible _ _ _ _ _ _ Hres) as (fam & _ & Hel).
  apply eligible_spec in Hel as [Hnot _]. congruence.
Qed.

(** *** Secrets and terminal connections *)

(** Which changes a connection's own standing depends on. *)
Definition change_pre (s : State) (ch : Change) : Prop :=
  match ch with
  | Ch_IntakeBegun id _ _ _ _ => connections s !! id = None
  | Ch_CandidateSealed _ _ h => h ∉ used_handles s
  | Ch_VersionActivated id _ _ | Ch_ConnectionSuspended id | Ch_ConnectionResumed id
  | Ch_ConnectionRevoked id => ∃ c, connections s !! id = Some c ∧ mutable c = true
  | _ => True
  end.

Definition closing (ch : Change) : bool :=
  match ch with Ch_ErasureRequested _ | Ch_ConnectionErased _ => true | _ => false end.

Lemma operation_pre s actor now op chs :
  operation_changes s actor now op = Ok chs →
  match chs with
  | [] => True
  | ch :: rest => change_pre s ch ∧ Forall (λ ch, closing ch = true) rest
                  ∧ ∀ id v h, ch = Ch_CandidateSealed id v h → rest = []
  end.
Proof.
  intros Hd. unfold operation_changes, candidate_decide, connection_decide, connection, candidate in Hd.
  destruct op; ok_inv Hd; guards; name_found s;
    try (split_and!; [simpl; by eauto|by repeat constructor|done]); try done.
  - by destruct t.
  - split_and!; [by apply eq_None_not_Some|constructor|done].
  - split_and!; [by apply eq_None_not_Some|constructor|done].
  - split_and!; [by destruct passed|constructor|done].
  - split_and!; [|constructor|done]. exists c0. split; [done|]. unfold mutable. by rewrite Heqb.
  - split_and!; [|constructor|done]. exists c0. split; [done|]. unfold mutable. by rewrite Heqb.
  - destruct (mutable c0) eqn:Hm, (material_gone c0); simpl; split_and!; eauto; by repeat constructor.
  - split_and!; [done| |done]. case_match; by repeat constructor.
Qed.

(** What a connection keeps for the rest of its life. *)
Definition conn_keeps (c c' : Connection) : Prop :=
  budget_family c' = budget_family c
  ∧ conn_provider (conn_definition c') = conn_provider (conn_definition c)
  ∧ (mutable c = false → mutable c' = false)
  ∧ (conn_status c = CS_Erased → conn_status c' = CS_Erased)
  ∧ (erasure_requested c = true → erasure_requested c' = true).

Definition conns_keep (s s' : State) : Prop :=
  (∀ id c, connections s !! id = Some c → ∃ c', connections s' !! id = Some c' ∧ conn_keeps c c')
  ∧ used_handles s ⊆ used_handles s'.

Lemma conn_keeps_refl c : conn_keeps c c.
Proof. by repeat split. Qed.

Lemma conns_keep_refl s : conns_keep s s.
Proof. split; [|done]. intros id c Hc. eauto using conn_keeps_refl. Qed.

Lemma conns_keep_trans s1 s2 s3 : conns_keep s1 s2 → conns_keep s2 s3 → conns_keep s1 s3.
Proof.
  intros [H1 U1] [H2 U2]. split; [|set_solver]. intros id c Hc.
  destruct (H1 id c Hc) as (c2 & Hc2 & A1 & A2 & A3 & A4 & A5).
  destruct (H2 id c2 Hc2) as (c3 & Hc3 & B1 & B2 & B3 & B4 & B5).
  exists c3. split; [done|]. split_and!; auto; congruence.
Qed.

Lemma update_conn_keeps s id f s' :
  (∀ c c', connections s !! id = Some c → f c = Some c' → conn_keeps c c') →
  update_connection s id f = Some s' → conns_keep s s'.
Proof.
  intros Hf. unfold update_connection. destruct (connections s !! id) as [c|] eqn:Hc; simpl; [|done].
  destruct (f c) as [c'|] eqn:Hfc; simpl; [|done]. intros [= <-]. split; [|done]. intros j d Hd. simpl.
  destruct (base.decide (id = j)) as [<-|]; [|rewrite lookup_insert_ne by done; eauto using conn_keeps_refl].
  rewrite lookup_insert_eq. simplify_eq. eauto.
Qed.

Lemma update_version_keeps version f c c' : update_version version f c = Some c' → conn_keeps c c'.
Proof.
  unfold update_version. destruct (versions c !! version); simpl; [|done]. intros [= <-].
  by repeat split.
Qed.

Lemma same_conns_keep s s' :
  connections s' = connections s → used_handles s' = used_handles s → conns_keep s s'.
Proof. intros Hc Hu. unfold conns_keep. rewrite Hc, Hu. apply conns_keep_refl. Qed.

Lemma mutable_keeps c c' :
  mutable c = true → budget_family c' = budget_family c →
  conn_provider (conn_definition c') = conn_provider (conn_definition c) →
  (erasure_requested c = true → erasure_requested c' = true) → conn_keeps c c'.
Proof.
  intros Hm Hf Hp He. split_and!; try done; [congruence|].
  unfold mutable in Hm. intros Hs. by rewrite Hs in Hm.
Qed.

Lemma change_keeps s t ch s' :
  change_pre s ch → evolve_change s t ch = Some s' → conns_keep s s'.
Proof.
  intros Hpre Hev. destruct ch as [gch|sch| | | | | | | | | | | | | | | | |];
    try (eapply update_conn_keeps; [|exact Hev]; intros c c' Hc; simpl;
         first [by apply update_version_keeps
               |intros [= <-]; simpl in Hpre; unfold conn_keeps, mutable in *; naive_solver]).
  - destruct gch; simpl in Hev; unfold update_grant in Hev;
      try destruct (grants s !! id); simplify_eq/=; by apply same_conns_keep.
  - destruct sch; simpl in Hev; unfold update_attempt in Hev;
      try match goal with b : bool |- _ => destruct b end; simpl in Hev;
      try destruct (attempts s !! id); simplify_eq/=; by apply same_conns_keep.
  - simpl in Hpre, Hev. destruct (match reconnects with Some _ => _ | None => _ end); [|done].
    simplify_eq/=. split; [|done]. intros id c Hc. exists c. split; [|apply conn_keeps_refl].
    simpl. by rewrite lookup_insert_ne by congruence.
  - simpl in Hev. apply update_conn_keeps in Hev as [Hk Hu].
    + split; [done|]. simpl in Hu. set_solver.
    + intros c c' _. apply update_version_keeps.
  - simpl in Hpre. destruct Hpre as (c1 & Hc1 & Hm). eapply update_conn_keeps; [|exact Hev].
    intros c c' Hc Hf. assert (c1 = c) as -> by congruence. simpl in Hf.
    destruct (update_version _ _ c) as [c2|] eqn:Hc2; simpl in Hf; [|done].
    apply update_version_keeps in Hc2 as (? & ? & _ & _ & ?). injection Hf as <-.
    apply mutable_keeps; try done; by case_bool_decide.
  - simpl in Hev. simplify_eq. by apply same_conns_keep.
  - simpl in Hpre. destruct Hpre as (c1 & Hc1 & Hm). eapply update_conn_keeps; [|exact Hev].
    intros c c' Hc [= <-]. assert (c1 = c) as -> by congruence. by apply mutable_keeps.
  - simpl in Hpre. destruct Hpre as (c1 & Hc1 & Hm). eapply update_conn_keeps; [|exact Hev].
    intros c c' Hc [= <-]. assert (c1 = c) as -> by congruence. by apply mutable_keeps.
  - simpl in Hpre. destruct Hpre as (c1 & Hc1 & Hm). eapply update_conn_keeps; [|exact Hev].
    intros c c' Hc [= <-]. assert (c1 = c) as -> by congruence. by apply mutable_keeps.
Qed.

Lemma closing_keeps t chs : ∀ s s',
  Forall (λ ch, closing ch = true) chs → fold_changes t s chs = Some s' → conns_keep s s'.
Proof.
  induction chs as [|ch chs IH]; intros s s' Hcl Hf.
  - unfold fold_changes in Hf. simplify_eq/=. apply conns_keep_refl.
  - apply Forall_cons in Hcl as [Hch Hcl]. unfold fold_changes in Hf. cbn [foldM] in Hf.
    destruct (evolve_change s t ch) as [s1|] eqn:Hs1; [|done].
    eapply conns_keep_trans; [|by apply (IH s1)].
    eapply change_keeps; [|exact Hs1]. by destruct ch.
Qed.

Lemma mc_keeps s c es s' :
  mc_inv s → decide s c = Ok es → foldM evolve s es = Some s' →
  conns_keep s s'
  ∧ ∀ e id v h, e ∈ es → change e = Ch_CandidateSealed id v h →
      h ∉ used_handles s ∧ h ∈ used_handles s' ∧ es = [e].
Proof.
  intros Hinv Hd Hev. pose proof Hd as (chs & -> & Hop & Hr & _)%decide_changes.
  destruct (mc_operation_step s (actor c) (now c) (operation c) chs Hinv Hop) as (s1 & Hf & _).
  destruct (evolve_fold (cmd_binding c) (actor c) (now c) chs s s1 (binding s) (revision s)
    (last_at s) Hr Hf) as (sb & r & st & Hev' & _).
  assert (stamp (binding s) (revision s) (last_at s) s = s) as Hst by (by destruct s).
  rewrite Hst, Hev in Hev'. simplify_eq.
  pose proof (operation_pre s (actor c) (now c) (operation c) chs Hop) as Hpre.
  destruct chs as [|ch chs].
  { unfold fold_changes in Hf. simplify_eq/=. split; [|set_solver]. by apply same_conns_keep. }
  destruct Hpre as (Hpre & Hcl & Hone). unfold fold_changes in Hf. cbn [foldM] in Hf.
  destruct (evolve_change s (now c) ch) as [s2|] eqn:Hs2; [|done].
  pose proof (change_keeps s _ ch s2 Hpre Hs2) as Hk1.
  pose proof (closing_keeps (now c) chs s2 s1 Hcl Hf) as Hk2.
  split; [eapply conns_keep_trans; [exact Hk1|by destruct Hk2]|].
  intros e id v h He Hch. apply list_elem_of_fmap in He as (x & -> & Hx). simpl in Hch. subst x.
  apply elem_of_cons in Hx as [<-|Hx].
  - split; [done|]. split.
    + simpl in Hs2. unfold update_connection in Hs2. simpl in Hs2.
      destruct (connections s !! id); simpl in Hs2; [|done].
      destruct (update_version _ _ _); simplify_eq/=. destruct Hk2 as [_ Hu]. simpl in Hu. set_solver.
    + rewrite fmap_cons. by rewrite (Hone id v h eq_refl).
  - apply Forall_forall with (x := Ch_CandidateSealed id v h) in Hcl; [|done]. done.
Qed.

(** A secret handle is sealed at most once in the whole history of the
    organization: no two versions, of the same or of different connections, are
    ever recorded with the same handle, also after the first was erased. *)
Theorem secret_handles_single_use (cs : list Command) :
  ∃ log s, session model_connection cs = Some (log, s)
    ∧ ∀ before e after id v h, log = before ++ e :: after →
        change e = Ch_CandidateSealed id v h →
        ∀ e' id' v', e' ∈ before ∨ e' ∈ after → change e' ≠ Ch_CandidateSealed id' v' h.
Proof.
  destruct (session_total model_connection cs) as (log & s & Hs & Ht & _ & _).
  exists log, s. split; [done|]. clear Hs.
  assert (∀ log0 s0, trace model_connection log0 s0 → ∀ e, e ∈ log0 →
    ∀ id v h, change e = Ch_CandidateSealed id v h → h ∈ used_handles s0) as Hused.
  { apply (trace_events model_connection
      (λ e s, ∀ id v h, change e = Ch_CandidateSealed id v h → h ∈ used_handles s)).
    intros s0 c es s1 Hinv Hd Hev. destruct (mc_keeps s0 c es s1 Hinv Hd Hev) as [[_ Hu] Hseal].
    split; [|by eauto]. intros e He id v h Hch. by apply (Hseal e id v h). }
  assert (∀ before e after id v h e' id' v', log = before ++ e :: after →
    change e = Ch_CandidateSealed id v h → e' ∈ before → change e' ≠ Ch_CandidateSealed id' v' h)
    as Hbefore.
  { intros before e after id v h e' id' v' Heq He Hin He'.
    destruct (trace_event_batch model_connection log s before e after Ht Heq)
      as (earlier & pre & post & s0 & c & -> & Ht0 & Hd).
    pose proof (mc_trace_inv earlier s0 Ht0) as Hinv.
    destruct (mc_inv_step s0 c _ Hinv Hd) as (s1 & Hev & _).
    destruct (mc_keeps s0 c _ s1 Hinv Hd Hev) as [_ Hseal].
    destruct (Hseal e id v h) as (Hnot & _ & Hes); [set_solver|done|].
    destruct pre as [|x pre]; [|by destruct pre]. rewrite app_nil_r in Hin.
    destruct Hnot. by apply (Hused earlier s0 Ht0 e' Hin id' v'). }
  intros before e after id v h Heq He e' id' v' [Hin|Hin] He'; [by eapply Hbefore|].
  apply list_elem_of_split in Hin as (l1 & l2 & ->).
  refine (Hbefore (before ++ e :: l1) e' l2 id' v' h e id v _ He' _ He).
  - by rewrite Heq, <- app_assoc.
  - apply elem_of_app. right. by left.
Qed.

(** Revoked and erased connections never come back. However a session continues,
    a connection stays on record with its provider binding and budget family; once
    terminal it is never mutable or active again, an erasure request is never
    withdrawn, and an erased connection stays erased with no material left. *)
Theorem terminal_connections_stay (cs later : list Command) :
  ∃ log s log' s', session model_connection cs = Some (log, s)
    ∧ drive model_connection log s later = Some (log', s')
    ∧ ∀ id c, connections s !! id = Some c → ∃ c', connections s' !! id = Some c' ∧ conn_keeps c c'
        ∧ (mutable c = false → active_version c' = None)
        ∧ (conn_status c = CS_Erased → material_gone c' = true).
Proof.
  destruct (session_total model_connection cs) as (log & s & Hs & Ht & Hinv & _).
  destruct (drive_trace model_connection log s later Ht) as (log' & s' & Hd & Ht').
  exists log, s, log', s'. split_and!; [done|done|].
  assert (conns_keep s s') as [Hk _].
  { eapply (drive_preserves model_connection (conns_keep s)); [|exact Hinv| |exact Hd].
    - intros s1 c es s2 Hi Hk [Hdec Hev]%apply_admitted.
      eapply conns_keep_trans; [exact Hk|]. by destruct (mc_keeps s1 c es s2 Hi Hdec Hev).
    - apply conns_keep_refl. }
  intros id c Hc. destruct (Hk id c Hc) as (c' & Hc' & Hkc). exists c'. split_and!; [done|done| |].
  - intros Hm. destruct Hkc as (_ & _ & Hm' & _). specialize (Hm' Hm).
    unfold active_version, mutable in *. by destruct (conn_status c').
  - intros He. destruct Hkc as (_ & _ & _ & He' & _).
    destruct (ok_erased c' (inv_conns s' (mc_trace_inv log' s' Ht') id c' Hc') (He' He)) as [_ Hg].
    unfold material_gone. apply forallb_forall. intros v Hv%list_elem_of_In.
    apply elem_of_btree_values in Hv as [w Hv]. by eapply Hg.
Qed.
