(* ===== verification/Scenarios.v ===== *)
(** * Executable scenarios

    Whole sessions of the two largest reducers, evaluated: a credential's life
    from intake to erasure, and an organization's connection from intake through a
    metered provider call that overruns its bound. They show that the admitted
    branches the theorems speak of are all reached. *)

From S2P Require Import Prelude Ids Lifecycle GaugeVault ModelData ModelAccess ModelSpend ModelConnection.

Module VaultLife.
Definition binding : GaugeVault.Binding :=
  GaugeVault.mkBinding (mkId "auth") (mkId "owner") (mkId "cred") (mkId "c").
Definition hex : string := "0123456789abcdef0123456789abcdef".
Definition hex2 : string := "fedcba9876543210fedcba9876543210".
Definition name : string := "gv-0123456789abcdef0123456789abcdef-fedcba9876543210fedcba9876543210".

Definition send (cap : GaugeVault.Capability) (revision : N) (op : GaugeVault.Operation) : GaugeVault.Command :=
  GaugeVault.mkCommand binding cap revision (10 + revision) op.

Definition effect : GaugeVault.Effect :=
  GaugeVault.mkEffect (mkId "s") (mkId "o") (mkId "t") GaugeVault.AuthenticateEffect (mkId "req").

(** The third command is stale and the seventh names a reference that is not
    active; both are refused. *)
Definition commands : list GaugeVault.Command :=
  [send GaugeVault.Manage 0 (GaugeVault.Create (mkId hex));
   send GaugeVault.Manage 1 (GaugeVault.BeginCandidate (mkId "k") GaugeVault.Bearer (mkId hex2) (mkId name) 100);
   send GaugeVault.Manage 1 GaugeVault.Revoke;
   send GaugeVault.IntakeReceipt 2 (GaugeVault.RecordStored (mkId "k") (mkId "ref"));
   send GaugeVault.Manage 3 (GaugeVault.Activate (mkId "k"));
   send GaugeVault.AdmitFinalUse 4 (GaugeVault.Dispatch (mkId "d") effect (mkId "ref") (mkId "g") (mkId "f"));
   send GaugeVault.AdmitFinalUse 5 (GaugeVault.Dispatch (mkId "d2") effect (mkId "other") (mkId "g") (mkId "f"));
   send GaugeVault.ConfirmFinalUse 5 (GaugeVault.SettleDispatch (mkId "d") GaugeVault.EffectObserved (mkId "seen"));
   send GaugeVault.Manage 6 GaugeVault.Revoke;
   send GaugeVault.Manage 7 GaugeVault.FenceErasure;
   send GaugeVault.ConfirmCleanup 8 (GaugeVault.RecordCleaned (mkId "k") (mkId "wiped"));
   send GaugeVault.ConfirmCleanup 9 (GaugeVault.ConfirmErasure (mkId "done"))].

Definition final : option (nat * GaugeVault.Status * option GaugeVault.Outcome) :=
  '(log, s) ← session (GaugeVault.vault_lifecycle (λ _, None) (λ _, None)) commands;
  Some (length log, GaugeVault.status s, GaugeVault.dispatches s !! mkId "d" ≫= GaugeVault.outcome).

Example vault_life : final = Some (10, GaugeVault.Erased, Some GaugeVault.EffectObserved).
Proof. vm_compute. reflexivity. Qed.
End VaultLife.

Module ConnectionLife.
Definition binding : AuthorityBinding := mkAuthorityBinding (mkId "auth") (mkId "org") "prod".
Definition c1 : ModelConnectionId := mkId "c1".
Definition v1 : CredentialVersionId := mkId "v1".
Definition a1 : ModelAttemptId := mkId "a1".

Definition send (actor : string) (cap : ModelData.Capability) (basis : ModelData.Basis) (now : N)
    (op : ModelConnection.Operation) : ModelConnection.Command :=
  ModelConnection.mkCommand binding (mkId actor) cap basis now op.

Definition policy : ModelPolicy := Sample.policy.
Definition project_caps (n : N) : Caps := mkCaps (Some n) None.
Definition limit (n : N) : Bound := mkBound n None None (mkId "enf").

(** The connection is taken in, verified and activated, granted 100 tokens a month,
    and used: 101 tokens are refused, 90 are reserved, dispatched and settled with
    95, an overrun; the next reservation is refused. *)
Definition commands : list ModelConnection.Command :=
  [send "admin" ManageConnections (B_Metadata 0) 10
     (O_BeginIntake c1 (mkConnectionDefinition "c" Sample.binding policy) None v1 1000);
   send "seal" SealCandidate (B_Metadata 1) 11 (O_RecordSealed c1 v1 (mkId "h"));
   send "check" VerifyCandidate (B_Metadata 2) 12
     (O_RecordVerification c1 v1 Sample.binding (mkId "h") (mkId "ev") ModelCatalogRead true);
   send "admin" ManageConnections (B_Metadata 3) 13 (O_Activate c1 v1);
   send "admin" ManageGrants (B_Metadata 4) 14
     (O_Grant (GO_Create (mkId "g1")
        (mkGrantDefinition c1 (S_Project Sample.team) policy {[PC_Member]} (project_caps 100)) (mkId "adm")));
   send "fetch" InvokeProvider (B_Metadata 5) 15
     (O_Spend (SO_Reserve a1 Sample.request Sample.evidence (limit 101) 100 200));
   send "fetch" InvokeProvider (B_Metadata 5) 15
     (O_Spend (SO_Reserve a1 Sample.request Sample.evidence (limit 90) 100 200));
   send "fetch" InvokeProvider (B_Dispatch 5 a1 1) 16
     (O_Spend (SO_Dispatch a1 Sample.evidence (limit 90)));
   send "fetch" ObserveUsage (B_Attempt a1 2) 17
     (O_Spend (SO_Settle a1 (mkUsage 95 None None (mkId "rt")) (mkId "use")));
   send "fetch" InvokeProvider (B_Metadata 5) 18
     (O_Spend (SO_Reserve (mkId "a2") Sample.request Sample.evidence (limit 5) 100 200))].

Definition final :=
  '(log, s) ← session model_connection commands;
  Some (length log, phase <$> attempts s !! a1, overrun <$> attempts s !! a1,
        bool_decide (mkId "enf" ∈ failed_enforcements s), overrun_pending s c1).

Example connection_life : final = Some (8, Some Ph_Settled, Some true, true, true).
Proof. vm_compute. reflexivity. Qed.
End ConnectionLife.
