(* ===== verification/Store.v ===== *)
(** * The event store

    [crates/store/src/lib.rs] (the append-only log, admission, idempotent
    admission, record appends) and [snapshot.rs] (fold checkpoints), over any
    lifecycle that keeps the promise [LifecycleSafe].

    SQLite is modelled by its tables: [events] with primary key (scope,
    position), [command_receipts] with primary key (scope, key) and
    [scope_snapshots] with primary key (scope, kind, lifecycle, version, build).
    A transaction's body returns the new tables or an error, and an error rolls
    back. Positions are [Z]; the i64 range is never approached (one position per
    stored event). The content codec, [serde_json] and SHA-256 are arguments. *)

From S2P Require Import Prelude Lifecycle.

(** ** Tables *)

Record EventRow := mkEventRow {
  row_scope : string;
  row_position : Z;
  row_kind : string;
  row_payload : string;
}.

(** Key: (scope_id, kind, lifecycle), (codec_version, reducer_build).
    Value: position, anchor_sha256, state. *)
Definition SnapKey : Type := (string * string * string) * (N * string).

Record Db := mkDb {
  events : list EventRow;
  command_receipts : gmap (string * string) Z;
  scope_snapshots : gmap SnapKey (Z * string * string);
}.

#[export] Instance Db_eta : Eta Db := mkEta (λ d,
  mkDb (events d) (command_receipts d) (scope_snapshots d)).

Definition empty_db : Db := mkDb [] ∅ ∅.

Inductive AdmitError :=
| AE_Rejected (r : Rejection)
| AE_Db (why : string)
| AE_Json
| AE_Codec (why : string)
| AE_UnsupportedSchema (why : string).

(** An operation fails with an error or unwinds with a panic; both roll back. *)
Inductive failure := Failed (e : AdmitError) | Unwound.

Definition fail {T} (e : AdmitError) : result failure T := Err (Failed e).

(** [transaction_with_behavior(Immediate)] .. [commit]. *)
Definition transaction {D T} (db : D) (body : result failure (D * T)) : D * result failure T :=
  match body with
  | Ok (db', t) => (db', Ok t)
  | Err e => (db, Err e)
  end.

(** ** Queries *)

Definition pos_le (a b : EventRow) : Prop := (row_position a ≤ row_position b)%Z.
#[export] Instance pos_le_dec : RelDecision pos_le.
Proof. intros a b. unfold pos_le. apply _. Defined.

Definition order_by_position (rows : list EventRow) : list EventRow := merge_sort pos_le rows.

(** [SELECT .. FROM events WHERE scope_id = ?1 ORDER BY position] *)
Definition select_scope (db : Db) (scope : string) : list EventRow :=
  order_by_position (filter (λ r, row_scope r = scope) (events db)).

(** [.. WHERE scope_id = ?1 AND kind = ?2 AND position > ?3 ORDER BY position] *)
Definition select_kind_after (db : Db) (scope kind : string) (after : Z) : list EventRow :=
  order_by_position
    (filter (λ r, row_scope r = scope ∧ row_kind r = kind ∧ (after < row_position r)%Z) (events db)).

(** [SELECT .. WHERE scope_id = ?1 AND position = ?2] *)
Definition select_at (db : Db) (scope : string) (position : Z) : option EventRow :=
  head (filter (λ r, row_scope r = scope ∧ row_position r = position) (events db)).

Definition max_position (rows : list EventRow) : option Z :=
  foldr (λ r m, Some (match m with Some m => Z.max (row_position r) m | None => row_position r end))
    None rows.

(** [SELECT COALESCE(MAX(position), -1) + 1 FROM events WHERE scope_id = ?1] *)
Definition next_position (db : Db) (scope : string) : Z :=
  (default (-1) (max_position (filter (λ r, row_scope r = scope) (events db))) + 1)%Z.

Definition insert_event (db : Db) (row : EventRow) : result failure Db :=
  match select_at db (row_scope row) (row_position row) with
  | Some _ => fail (AE_Db "UNIQUE constraint failed: events.scope_id, events.position")
  | None => Ok (db <| events := events db ++ [row] |>)
  end.

Definition insert_receipt (db : Db) (scope key : string) (applied_at : Z) : result failure Db :=
  match command_receipts db !! (scope, key) with
  | Some _ => fail (AE_Db "UNIQUE constraint failed: command_receipts.scope_id, command_key")
  | None => Ok (db <| command_receipts := <[(scope, key) := applied_at]> (command_receipts db) |>)
  end.

(** ** Third-party code *)

(** [trait ContentCodec] *)
Record ContentCodec := mkContentCodec {
  cc_encode : string → string → string → result string string;
  cc_decode : string → string → string → option string;
}.

(** [serde_json::to_string] and [from_str] on a lifecycle's events. *)
Record Json (E : Type) := mkJson {
  to_json : E → option string;
  from_json : string → option E;
}.
Arguments mkJson {E}.
Arguments to_json {E}.
Arguments from_json {E}.

Section store.
Context (codec : option ContentCodec).
(** [hex::encode(Sha256::digest(raw))] *)
Context (anchor : string → string).
(** [SNAPSHOT_REDUCER_BUILD] *)
Context (reducer_build : string).

(** ** Records *)

Definition encode_payload (scope kind payload : string) : result failure string :=
  match codec with
  | Some c => match cc_encode c scope kind payload with
              | Ok stored => Ok stored
              | Err why => fail (AE_Codec why)
              end
  | None => Ok payload
  end.

Definition decode_row (scope : string) (r : EventRow) : option string :=
  match codec with
  | Some c => cc_decode c scope (row_kind r) (row_payload r)
  | None => Some (row_payload r)
  end.

Definition append_record (db : Db) (scope kind payload : string) : Db * result failure Z :=
  match encode_payload scope kind payload with
  | Err e => (db, Err e)
  | Ok stored =>
      transaction db (
        let position := next_position db scope in
        let? db := insert_event db (mkEventRow scope position kind stored) in
        Ok (db, position))
  end.

Definition append_record_with_key (db : Db) (scope key kind payload : string)
    : Db * result failure (Z * bool) :=
  match encode_payload scope kind payload with
  | Err e => (db, Err e)
  | Ok stored =>
      transaction db (
        match command_receipts db !! (scope, key) with
        | Some position => Ok (db, (position, false))
        | None =>
            let position := next_position db scope in
            let? db := insert_event db (mkEventRow scope position kind stored) in
            let? db := insert_receipt db scope key position in
            Ok (db, (position, true))
        end)
  end.

(** The first pass of [append_records_atomically]: encode everything. *)
Fixpoint encode_all (records : list (string * string * string))
    : result failure (list (string * string * string)) :=
  match records with
  | [] => Ok []
  | (scope, kind, payload) :: records =>
      let? stored := encode_payload scope kind payload in
      let? rest := encode_all records in
      Ok ((scope, kind, stored) :: rest)
  end.

(** The second pass: each record at the next position of its scope. *)
Fixpoint insert_all (db : Db) (stored : list (string * string * string))
    : result failure (Db * list Z) :=
  match stored with
  | [] => Ok (db, [])
  | (scope, kind, payload) :: stored =>
      let position := next_position db scope in
      let? db := insert_event db (mkEventRow scope position kind payload) in
      let? p := insert_all db stored in
      Ok (p.1, position :: p.2)
  end.

Definition append_records_atomically (db : Db) (records : list (string * string * string))
    : Db * result failure (list Z) :=
  match encode_all records with
  | Err e => (db, Err e)
  | Ok stored => transaction db (insert_all db stored)
  end.

(** [.. ORDER BY position DESC LIMIT 1], decoded. *)
Definition tx_chain_head (db : Db) (scope kind : string) : option string :=
  match last (order_by_position (filter (λ r, row_scope r = scope ∧ row_kind r = kind) (events db))) with
  | Some r => decode_row scope r
  | None => None
  end.

Definition append_chained_record (db : Db) (scope kind : string) (link : option string → string)
    : Db * result failure (Z * string) :=
  transaction db (
    let payload := link (tx_chain_head db scope kind) in
    let? stored := encode_payload scope kind payload in
    let position := next_position db scope in
    let? db := insert_event db (mkEventRow scope position kind stored) in
    Ok (db, (position, payload))).

Definition append_record_with_linked_record (db : Db) (scope kind payload companion_scope
    companion_kind : string) (link : Z → result failure string) : Db * result failure Z :=
  transaction db (
    let position := next_position db scope in
    let? companion := link position in
    let? stored := encode_payload scope kind payload in
    let? db := insert_event db (mkEventRow scope (next_position db scope) kind stored) in
    let? stored := encode_payload companion_scope companion_kind companion in
    let? db := insert_event db
                 (mkEventRow companion_scope (next_position db companion_scope) companion_kind stored) in
    Ok (db, position)).

(** Authenticate the whole scope, then project a kind. *)
Fixpoint retained_rows (scope selected : string) (rows : list EventRow) : result failure (list string) :=
  match rows with
  | [] => Ok []
  | r :: rows =>
      match decode_row scope r with
      | None => fail (AE_Codec "authority history contains an unavailable record")
      | Some plain =>
          let? rest := retained_rows scope selected rows in
          Ok (if String.eqb (row_kind r) selected then plain :: rest else rest)
      end
  end.

Definition retained_kind_payloads (db : Db) (scope selected : string) : result failure (list string) :=
  retained_rows scope selected (select_scope db scope).

(** ** Folding a lifecycle *)

Section lifecycle.
Context (L : Lifecycle) (json : Json (lc_event L)).

(** [L::evolve(&state, serde_json::from_str(plain)?)] *)
Definition evolve_stored (state : lc_state L) (plain : string) : result failure (lc_state L) :=
  match from_json json plain with
  | None => fail AE_Json
  | Some event => match lc_evolve L state event with
                  | Some state => Ok state
                  | None => Err Unwound
                  end
  end.

(** [snapshot::load]: the stored state and the position of the event it follows,
    when every check on it still holds. *)
Definition load (db : Db) (scope : string) (snapshot : SnapshotCodec (lc_state L))
    : option (lc_state L * Z) :=
  match scope_snapshots db !! ((scope, KIND L, codec_lifecycle snapshot),
                               (codec_version snapshot, reducer_build)) with
  | None => None
  | Some (position, expected, stored) =>
      match select_at db scope position with
      | Some r =>
          if String.eqb (row_kind r) (KIND L) && String.eqb (anchor (row_payload r)) expected
          then
            match match codec with
                  | Some c => cc_decode c scope (KIND L) stored
                  | None => Some stored
                  end with
            | None => None
            | Some plain => (λ state, (state, position)) <$> codec_decode snapshot plain
            end
          else None
      | None => None
      end
  end.

(** The two loops of [snapshot::fold]: the lifecycle's tail only, or the whole
    scope opened and only what follows [after] folded. *)
Definition fold_tail (db : Db) (scope : string) (state : lc_state L) (after : Z)
    : result failure (lc_state L) :=
  try_fold (λ state r, evolve_stored state (row_payload r)) state
    (select_kind_after db scope (KIND L) after).

Definition fold_opened (c : ContentCodec) (db : Db) (scope : string) (state : lc_state L) (after : Z)
    : result failure (lc_state L) :=
  try_fold (λ state r,
    match cc_decode c scope (row_kind r) (row_payload r) with
    | None => fail (AE_Codec "authority history contains an unavailable record")
    | Some plain =>
        if String.eqb (row_kind r) (KIND L) && bool_decide (after < row_position r)%Z
        then evolve_stored state plain else Ok state
    end) state (select_scope db scope).

(** [snapshot::fold], [fold_retained] and [Store::fold] *)
Definition fold (db : Db) (scope : string) : result failure (lc_state L) :=
  let loaded := match lc_snapshot_codec L with
                | Some snapshot => load db scope snapshot
                | None => None
                end in
  let '(state, after) := match loaded with
                         | Some (state, position) => (state, position)
                         | None => (lc_default L, (-1)%Z)
                         end in
  match codec with
  | None => fold_tail db scope state after
  | Some c => fold_opened c db scope state after
  end.

(** ** Checkpoints *)

Definition snapshot_matches (scope lifecycle : string) (k : SnapKey) : Prop :=
  k.1 = (scope, KIND L, lifecycle).
#[local] Instance snapshot_matches_dec scope lifecycle k : Decision (snapshot_matches scope lifecycle k).
Proof. unfold snapshot_matches. apply _. Defined.

(** [DELETE] then [INSERT], with the table's [CHECK] constraints. *)
Definition write_snapshot (db : Db) (scope : string) (snapshot : SnapshotCodec (lc_state L))
    (head : Z) (raw stored : string) : result failure Db :=
  let kept := filter (λ p, ¬ snapshot_matches scope (codec_lifecycle snapshot) p.1) (scope_snapshots db) in
  if bool_decide (0 ≤ head)%Z && bool_decide (String.length (anchor raw) = 64)
  then Ok (db <| scope_snapshots :=
         <[((scope, KIND L, codec_lifecycle snapshot), (codec_version snapshot, reducer_build))
           := (head, anchor raw, stored)]> kept |>)
  else fail (AE_Db "CHECK constraint failed: scope_snapshots").

Definition checkpoint (db : Db) (scope : string) (state : lc_state L) : result failure Db :=
  match lc_snapshot_codec L with
  | None => Ok db
  | Some snapshot =>
      let previous := match scope_snapshots db !! ((scope, KIND L, codec_lifecycle snapshot),
                              (codec_version snapshot, reducer_build)) with
                      | Some (position, _, _) => position
                      | None => (-1)%Z
                      end in
      let since := select_kind_after db scope (KIND L) previous in
      match max_position since with
      | None => Ok db
      | Some head =>
          if bool_decide (Z.of_nat (length since) < Z.of_N (codec_every snapshot))%Z then Ok db
          else
            match select_at db scope head with
            | None => fail (AE_Db "Query returned no rows")
            | Some r =>
                match codec_encode snapshot state with
                | None => Ok db
                | Some plain =>
                    match match codec with
                          | Some c => match cc_encode c scope (KIND L) plain with
                                      | Ok stored => Some stored | Err _ => None end
                          | None => Some plain
                          end with
                    | None => Ok db
                    | Some stored => write_snapshot db scope snapshot head (row_payload r) stored
                    end
                end
            end
      end
  end.

(** ** Admission *)

(** The append loop: each event at the next position, folded as it is written. *)
Fixpoint append_events (db : Db) (scope : string) (position : Z) (state : lc_state L)
    (es : list (lc_event L)) : result failure (Db * lc_state L) :=
  match es with
  | [] => Ok (db, state)
  | event :: es =>
      let? plain := ok_or (to_json json event) (Failed AE_Json) in
      let? payload := encode_payload scope (KIND L) plain in
      let? db := insert_event db (mkEventRow scope position (KIND L) payload) in
      match lc_evolve L state event with
      | None => Err Unwound
      | Some state => append_events db scope (position + 1) state es
      end
  end.

Definition decide_in (state : lc_state L) (command : lc_command L)
    : result failure (list (lc_event L)) :=
  match lc_decide L state command with
  | Ok es => Ok es
  | Err r => fail (AE_Rejected r)
  end.

Definition store_admit (db : Db) (scope : string) (command : lc_command L)
    : Db * result failure (lc_state L) :=
  transaction db (
    let? state := fold db scope in
    let? es := decide_in state command in
    let? p := append_events db scope (next_position db scope) state es in
    let? db := checkpoint p.1 scope p.2 in
    Ok (db, p.2)).

Definition admit_with_key (db : Db) (scope key : string) (command : lc_command L)
    : Db * result failure (lc_state L) :=
  transaction db (
    match command_receipts db !! (scope, key) with
    | Some _ =>
        let? state := fold db scope in
        Ok (db, state)
    | None =>
        let? state := fold db scope in
        let? es := decide_in state command in
        let base := next_position db scope in
        let? p := append_events db scope base state es in
        let? db := insert_receipt p.1 scope key base in
        let? db := checkpoint db scope p.2 in
        Ok (db, p.2)
    end).
End lifecycle.
End store.

(** ** Dense logs

    The rows of a scope, in the order they were written, hold the positions 0, 1,
    2, .. *)

Definition scope_rows (db : Db) (scope : string) : list EventRow :=
  filter (λ r, row_scope r = scope) (events db).

Definition dense (rows : list EventRow) : Prop :=
  ∀ i r, rows !! i = Some r → row_position r = Z.of_nat i.

Definition db_ok (db : Db) : Prop := ∀ scope, dense (scope_rows db scope).

Lemma dense_sorted rows (P : EventRow → Prop) `{∀ r, Decision (P r)} :
  dense rows → StronglySorted pos_le (filter P rows).
Proof.
  intros Hd. assert (∀ k, (∀ i r, rows !! i = Some r → row_position r = Z.of_nat (k + i)) →
    StronglySorted pos_le (filter P rows)) as Hk; [|by apply (Hk 0)].
  clear Hd. induction rows as [|r rows IH]; intros k Hd; [constructor|].
  assert (StronglySorted pos_le (filter P rows)) as Hs.
  { apply (IH (S k)). intros i x Hx. rewrite (Hd (S i) x Hx). f_equal. lia. }
  rewrite filter_cons. case_decide; [|done]. constructor; [done|].
  apply Forall_forall. intros x [_ [j Hj]%list_elem_of_lookup]%list_elem_of_filter.
  unfold pos_le. rewrite (Hd 0 r eq_refl), (Hd (S j) x Hj). lia.
Qed.

Lemma order_by_dense rows (P : EventRow → Prop) `{∀ r, Decision (P r)} :
  dense rows → order_by_position (filter P rows) = filter P rows.
Proof.
  intros Hd. unfold order_by_position. pose proof (merge_sort_Permutation pos_le (filter P rows)) as Hp.
  assert (∀ x y, x ∈ rows → y ∈ rows → row_position x = row_position y → x = y) as Hinj.
  { intros x y [i Hi]%list_elem_of_lookup [j Hj]%list_elem_of_lookup Heq.
    rewrite (Hd i x Hi), (Hd j y Hj) in Heq. assert (i = j) as -> by lia. congruence. }
  apply (StronglySorted_unique_strong pos_le); [| |by apply dense_sorted|done].
  - intros x y Hx Hy Hxy Hyx. rewrite Hp in Hx.
    apply list_elem_of_filter in Hx as [_ Hx], Hy as [_ Hy].
    apply Hinj; [done..|]. unfold pos_le in *. lia.
  - apply StronglySorted_merge_sort.
    + intros x y z. unfold pos_le. lia.
    + intros x y. unfold pos_le. lia.
Qed.

Lemma select_scope_dense db scope : db_ok db → select_scope db scope = scope_rows db scope.
Proof.
  intros Hok. unfold select_scope.
  rewrite <- (list_filter_filter_r (λ _, True) (λ r, row_scope r = scope) (events db)) by done.
  rewrite (order_by_dense (scope_rows db scope)) by apply Hok.
  unfold scope_rows. by apply list_filter_filter_r.
Qed.

Lemma select_kind_dense db scope kind after :
  db_ok db → select_kind_after db scope kind after
  = filter (λ r, row_kind r = kind ∧ (after < row_position r)%Z) (scope_rows db scope).
Proof.
  intros Hok. rewrite <- (order_by_dense (scope_rows db scope)) by apply Hok.
  unfold select_kind_after, scope_rows. rewrite list_filter_filter. f_equal.
  apply list_filter_iff. intros r. tauto.
Qed.

Lemma select_at_dense db scope p r :
  db_ok db → select_at db scope p = Some r ↔ (0 ≤ p)%Z ∧ scope_rows db scope !! Z.to_nat p = Some r.
Proof.
  intros Hok. unfold select_at.
  assert (filter (λ r, row_scope r = scope ∧ row_position r = p) (events db)
    = filter (λ r, row_position r = p) (scope_rows db scope)) as ->.
  { unfold scope_rows. rewrite list_filter_filter. apply list_filter_iff. intros x. tauto. }
  pose proof (Hok scope) as Hd. split.
  - intros Hh. assert (r ∈ filter (λ r, row_position r = p) (scope_rows db scope)) as Hin.
    { destruct (filter _ (scope_rows db scope)); [done|]. simplify_eq/=. by left. }
    apply list_elem_of_filter in Hin as [<- [i Hi]%list_elem_of_lookup].
    rewrite (Hd i r Hi), Nat2Z.id. split; [lia|done].
  - intros [Hp Hr]. destruct (filter (λ r, row_position r = p) (scope_rows db scope)) as [|x l] eqn:Hf.
    + exfalso. apply (not_elem_of_nil r). rewrite <- Hf. apply list_elem_of_filter. split.
      * rewrite (Hd _ _ Hr). lia.
      * by eapply list_elem_of_lookup_2.
    + simpl. f_equal. assert (x ∈ x :: l) as Hx by (by left). rewrite <- Hf in Hx.
      apply list_elem_of_filter in Hx as [Hpx [i Hi]%list_elem_of_lookup].
      rewrite (Hd _ _ Hi) in Hpx. assert (i = Z.to_nat p) as -> by lia. congruence.
Qed.

Lemma max_position_snoc rows r :
  max_position (rows ++ [r])
  = Some (match max_position rows with Some m => Z.max m (row_position r) | None => row_position r end).
Proof.
  induction rows as [|x rows IH]; [done|]. simpl. rewrite IH.
  destruct (max_position rows); simpl; f_equal; lia.
Qed.

Lemma max_position_dense rows :
  dense rows → default (-1)%Z (max_position rows) = (Z.of_nat (length rows) - 1)%Z.
Proof.
  induction rows as [|r rows IH] using rev_ind; intros Hd; [done|].
  assert (dense rows) as Hd' by (intros i x Hx; apply Hd; by apply lookup_app_l_Some).
  specialize (IH Hd').
  assert (row_position r = Z.of_nat (length rows)) as Hr.
  { apply Hd. rewrite lookup_app_r, Nat.sub_diag; done. }
  rewrite max_position_snoc, length_app. simpl. destruct (max_position rows); simpl in *; lia.
Qed.

Lemma next_position_dense db scope :
  db_ok db → next_position db scope = Z.of_nat (length (scope_rows db scope)).
Proof.
  intros Hok. unfold next_position. fold (scope_rows db scope).
  rewrite max_position_dense by apply Hok. lia.
Qed.

(** Writing at the next position succeeds and keeps the log dense. *)
Definition pushed (db : Db) (r : EventRow) : Db := db <| events := events db ++ [r] |>.

Lemma scope_rows_pushed db r scope :
  scope_rows (pushed db r) scope
  = scope_rows db scope ++ if bool_decide (row_scope r = scope) then [r] else [].
Proof.
  unfold scope_rows, pushed. simpl. rewrite filter_app, filter_cons, filter_nil.
  case_decide; [by rewrite bool_decide_eq_true_2|by rewrite bool_decide_eq_false_2].
Qed.

Lemma pushed_ok db scope kind payload :
  db_ok db → db_ok (pushed db (mkEventRow scope (next_position db scope) kind payload)).
Proof.
  intros Hok s i r. rewrite scope_rows_pushed. simpl. case_bool_decide as Hs.
  - subst s. intros [Hi|[Hge Hi]]%lookup_app_Some; [by apply (Hok scope)|].
    apply list_lookup_singleton_Some in Hi as [Hi <-]. simpl. rewrite next_position_dense by done. lia.
  - rewrite app_nil_r. apply Hok.
Qed.

Lemma insert_event_next db scope kind payload :
  db_ok db →
  insert_event db (mkEventRow scope (next_position db scope) kind payload)
  = Ok (pushed db (mkEventRow scope (next_position db scope) kind payload)).
Proof.
  intros Hok. unfold insert_event. simpl.
  destruct (select_at db scope (next_position db scope)) as [r|] eqn:Hr; [|done].
  apply select_at_dense in Hr as [_ Hr]; [|done]. rewrite next_position_dense in Hr by done.
  rewrite Nat2Z.id in Hr. apply lookup_lt_Some in Hr. lia.
Qed.

(** ** What the third-party code promises *)

(** [ContentCodec::encode] "must be reversible by [decode]". *)
Class CodecLaws (codec : option ContentCodec) : Prop :=
  codec_roundtrip : ∀ c scope kind plain stored, codec = Some c →
    cc_encode c scope kind plain = Ok stored → cc_decode c scope kind stored = Some plain.

Class JsonLaws {E} (json : Json E) : Prop :=
  json_roundtrip : ∀ e p, to_json json e = Some p → from_json json p = Some e.

Class SnapshotLaws (L : Lifecycle) : Prop :=
  snapshot_roundtrip : ∀ sc s p, lc_snapshot_codec L = Some sc →
    codec_encode sc s = Some p → codec_decode sc p = Some s.

(** A SHA-256 digest in hex has 64 characters. *)
Class AnchorLaws (anchor : string → string) : Prop :=
  anchor_length : ∀ raw, String.length (anchor raw) = 64.

(** ** What a scope holds for a lifecycle *)

Section representation.
Context (codec : option ContentCodec) (anchor : string → string) (reducer_build : string).
Context (L : Lifecycle) (json : Json (lc_event L)).

Definition kind_rows (db : Db) (scope : string) : list EventRow :=
  filter (λ r, row_kind r = KIND L) (scope_rows db scope).

Definition open_state (scope stored : string) : option string :=
  match codec with
  | Some c => cc_decode c scope (KIND L) stored
  | None => Some stored
  end.

(** The scope's rows all open; those of the lifecycle's kind are the events [log];
    and a checkpoint, if there is one, is the fold of the events up to the row it
    names. *)
Record represents (db : Db) (scope : string) (log : list (lc_event L)) : Prop := {
  rep_open : ∀ r, r ∈ scope_rows db scope → is_Some (decode_row codec scope r);
  rep_log : Forall2 (λ r e, decode_row codec scope r ≫= from_json json = Some e)
              (kind_rows db scope) log;
  rep_snapshot : ∀ sc p a stored, lc_snapshot_codec L = Some sc →
    scope_snapshots db !! ((scope, KIND L, codec_lifecycle sc), (codec_version sc, reducer_build))
      = Some (p, a, stored) →
    ∃ k r plain s, kind_rows db scope !! k = Some r ∧ row_position r = p
      ∧ open_state scope stored = Some plain ∧ codec_decode sc plain = Some s
      ∧ replay L (take (S k) log) = Some s;
}.

(** Later rows of a kind have later positions. *)
Lemma kind_rows_sorted db scope :
  db_ok db → StronglySorted (λ r r', (row_position r < row_position r')%Z) (kind_rows db scope).
Proof.
  intros Hok. pose proof (Hok scope) as Hd. unfold kind_rows, dense in *.
  revert Hd. generalize (scope_rows db scope) as rows. intros rows Hd.
  assert (∃ k, ∀ i r, rows !! i = Some r → row_position r = Z.of_nat (k + i)) as [k Hk] by (by exists 0).
  clear Hd. revert k Hk. induction rows as [|r rows IH]; intros k Hk; [constructor|].
  assert (∀ i x, rows !! i = Some x → row_position x = Z.of_nat (S k + i)) as Hk'.
  { intros i x Hx. rewrite (Hk (S i) x Hx). f_equal. lia. }
  rewrite filter_cons. case_decide; [|by apply (IH (S k))]. constructor; [by apply (IH (S k))|].
  apply Forall_forall. intros x [_ [j Hj]%list_elem_of_lookup]%list_elem_of_filter.
  rewrite (Hk 0 r eq_refl), (Hk' j x Hj). lia.
Qed.

(** The rows of the lifecycle's kind after [after] are all but the first [n]. *)
Definition tail_at (db : Db) (scope : string) (after : Z) (n : nat) : Prop :=
  filter (λ r, row_kind r = KIND L ∧ (after < row_position r)%Z) (scope_rows db scope)
  = drop n (kind_rows db scope).

Lemma tail_filter db scope after :
  filter (λ r, row_kind r = KIND L ∧ (after < row_position r)%Z) (scope_rows db scope)
  = filter (λ r, (after < row_position r)%Z) (kind_rows db scope).
Proof.
  unfold kind_rows. rewrite list_filter_filter. apply list_filter_iff. intros. tauto.
Qed.

Lemma tail_all db scope : db_ok db → tail_at db scope (-1) 0.
Proof.
  intros Hok. unfold tail_at. rewrite tail_filter, drop_0. apply filter_keeps_all.
  intros r [_ [i Hi]%list_elem_of_lookup]%list_elem_of_filter. rewrite (Hok _ _ _ Hi). lia.
Qed.

Lemma tail_after db scope k r :
  db_ok db → kind_rows db scope !! k = Some r → tail_at db scope (row_position r) (S k).
Proof.
  intros Hok Hk. unfold tail_at. rewrite tail_filter.
  pose proof (kind_rows_sorted db scope Hok) as Hs.
  rewrite <- (take_drop_middle _ _ _ Hk) in Hs |- * at 1.
  apply StronglySorted_app in Hs as (Hlt & _ & Hs). inversion Hs as [|? ? _ Hgt]; subst.
  rewrite filter_app, filter_cons, decide_False by lia.
  rewrite filter_keeps_none, filter_keeps_all; [done| |].
  - rewrite Forall_forall in Hgt. done.
  - intros x Hx. assert ((row_position x < row_position r)%Z) by (apply Hlt; [done|by left]). lia.
Qed.
(** The loop over rows that hold [es] is the fold of [es]. *)
Lemma try_fold_rows scope rows es s s' :
  Forall2 (λ r e, decode_row codec scope r ≫= from_json json = Some e) rows es →
  evolve_all L s es = Some s' →
  try_fold (λ s r, match decode_row codec scope r with
                   | Some plain => evolve_stored L json s plain
                   | None => fail (AE_Codec "authority history contains an unavailable record")
                   end) s rows = Ok s'.
Proof.
  intros Hrows. revert s. induction Hrows as [|r e rows es Hr _ IH]; intros s Hs; simpl in *.
  - by simplify_eq.
  - apply bind_Some in Hr as (plain & -> & Hp). unfold evolve_stored. rewrite Hp.
    destruct (lc_evolve L s e) as [s1|]; [|done]. by apply IH.
Qed.

(** Either loop of [snapshot::fold] from a prefix's state is the replay. *)
Lemma fold_loops db scope log after n s0 s :
  db_ok db → represents db scope log → tail_at db scope after n →
  replay L (take n log) = Some s0 → replay L log = Some s →
  match codec with
  | None => fold_tail L json db scope s0 after
  | Some c => fold_opened L json c db scope s0 after
  end = Ok s.
Proof.
  intros Hok [Hopen Hlog _] Htail Hs0 Hs.
  assert (evolve_all L s0 (drop n log) = Some s) as Hrest.
  { rewrite <- (take_drop n log) in Hs. unfold replay, evolve_all in *. by rewrite foldM_app, Hs0 in Hs. }
  pose proof (try_fold_rows scope _ _ s0 s (Forall2_drop _ _ _ n Hlog) Hrest) as Hgoal.
  rewrite <- Htail in Hgoal. destruct codec as [c|] eqn:Hc.
  - unfold fold_opened. rewrite select_scope_dense by done. rewrite <- Hgoal.
    apply try_fold_filter; intros b r Hr Hk; destruct (Hopen r Hr) as [plain Hplain];
      simpl in *; rewrite Hplain.
    + destruct Hk as [-> Hk]. by rewrite String.eqb_refl, bool_decide_eq_true_2.
    + destruct (String.eqb_spec (row_kind r) (KIND L)); [|done].
      rewrite bool_decide_eq_false_2; [done|]. tauto.
  - unfold fold_tail. rewrite select_kind_dense by done. exact Hgoal.
Qed.

(** Where a fold starts: at nothing, or at a checkpoint that is a prefix's fold. *)
Lemma load_prefix db scope log sc s0 p :
  db_ok db → represents db scope log → lc_snapshot_codec L = Some sc →
  load codec anchor reducer_build L db scope sc = Some (s0, p) →
  ∃ n, tail_at db scope p n ∧ replay L (take n log) = Some s0.
Proof.
  intros Hok [_ _ Hsnap] Hsc Hload. unfold load in Hload.
  destruct (scope_snapshots db !! _) as [[[q a] stored]|] eqn:Hrow; [|done].
  destruct (Hsnap sc q a stored Hsc Hrow) as (k & r & plain & s & Hk & <- & Hopen & Hdec & Hrep).
  unfold open_state in Hopen. rewrite Hopen, Hdec in Hload.
  exists (S k). destruct (select_at db scope (row_position r)); [|done].
  destruct (_ && _); [|done]. simplify_eq/=. split; [by apply tail_after|done].
Qed.

(** Folding from a checkpoint, or from the beginning, is replaying the log. *)
Lemma fold_replays db scope log s :
  db_ok db → represents db scope log → replay L log = Some s →
  fold codec anchor reducer_build L json db scope = Ok s.
Proof.
  intros Hok Hrep Hs. unfold fold.
  destruct (match lc_snapshot_codec L with Some sc => _ | None => None end) as [[s0 p]|] eqn:Hl.
  - destruct (lc_snapshot_codec L) as [sc|] eqn:Hsc; [|done].
    destruct (load_prefix db scope log sc s0 p Hok Hrep Hsc Hl) as (n & Ht & Hs0).
    by eapply fold_loops.
  - eapply (fold_loops db scope log (-1) 0); [done|done|by apply tail_all|done|done].
Qed.
(** Rows that hold [es] for the lifecycle, and a checkpoint table that has lost
    rows at most, extend what a scope holds. *)
Lemma represents_extend db db' scope log new es :
  represents db scope log → scope_rows db' scope = scope_rows db scope ++ new →
  (∀ r, r ∈ new → is_Some (decode_row codec scope r)) →
  Forall2 (λ r e, decode_row codec scope r ≫= from_json json = Some e)
    (filter (λ r, row_kind r = KIND L) new) es →
  (∀ sc v, lc_snapshot_codec L = Some sc →
     let k := ((scope, KIND L, codec_lifecycle sc), (codec_version sc, reducer_build)) in
     scope_snapshots db' !! k = Some v → scope_snapshots db !! k = Some v) →
  represents db' scope (log ++ es).
Proof.
  intros [Hopen Hlog Hsnap] Hrows Hnew Hes Hkeep.
  assert (kind_rows db' scope = kind_rows db scope ++ filter (λ r, row_kind r = KIND L) new) as Hkind
    by (unfold kind_rows; by rewrite Hrows, filter_app).
  split.
  - intros r. rewrite Hrows, elem_of_app. intros [?|?]; auto.
  - rewrite Hkind. by apply Forall2_app.
  - intros sc p a stored Hsc Hrow%Hkeep; [|done].
    destruct (Hsnap sc p a stored Hsc Hrow) as (k & r & plain & s & Hk & ? & ? & ? & Hrep).
    exists k, r, plain, s. rewrite Hkind. split_and!; [by apply lookup_app_l_Some|done..|].
    apply lookup_lt_Some in Hk. apply Forall2_length in Hlog.
    rewrite take_app_le by lia. done.
Qed.

(** ** Writing a batch *)

(** The event has a JSON form that the content codec accepts. *)
Definition encodable (scope : string) (e : lc_event L) : Prop :=
  ∃ plain stored, to_json json e = Some plain ∧ encode_payload codec scope (KIND L) plain = Ok stored.

#[global] Instance encodable_dec scope e : Decision (encodable scope e).
Proof.
  unfold encodable. destruct (to_json json e) as [plain|]; [|right; by intros (p & st & ? & _)].
  destruct (encode_payload codec scope (KIND L) plain) as [stored|] eqn:Hp; [left; by exists plain, stored|].
  right. intros (p & st & [= <-] & ?). congruence.
Defined.

(** [db'] is [db] with the rows [new] written at the next positions of their
    scopes. *)
Record extends (db db' : Db) (new : list EventRow) : Prop := {
  ext_events : events db' = events db ++ new;
  ext_open : ∀ r, r ∈ new → is_Some (decode_row codec (row_scope r) r);
  ext_ok : db_ok db';
}.

Lemma extends_refl db : db_ok db → extends db db [].
Proof. split; [by rewrite app_nil_r|by intros r ?%elem_of_nil|done]. Qed.

Lemma extends_trans db1 db2 db3 new1 new2 :
  extends db1 db2 new1 → extends db2 db3 new2 → extends db1 db3 (new1 ++ new2).
Proof.
  intros [He1 Ho1 _] [He2 Ho2 ?]. split; [|intros r [?|?]%elem_of_app; auto|done].
  by rewrite He2, He1, app_assoc.
Qed.

Lemma extends_rows db db' new scope :
  extends db db' new →
  scope_rows db' scope = scope_rows db scope ++ filter (λ r, row_scope r = scope) new.
Proof. intros [He _ _]. unfold scope_rows. by rewrite He, filter_app. Qed.

(** Rows of other kinds and other lifecycles' checkpoints leave what a scope
    holds as it is. *)
Lemma represents_frame db db' scope log new :
  represents db scope log → extends db db' new →
  (∀ r, r ∈ new → row_scope r = scope → row_kind r ≠ KIND L) →
  (∀ key : SnapKey, key.1.1 = (scope, KIND L) → scope_snapshots db' !! key = scope_snapshots db !! key) →
  represents db' scope log.
Proof.
  intros Hrep Hext Hkind Hsnap. rewrite <- (app_nil_r log).
  eapply represents_extend; [done|by apply extends_rows| | |].
  - intros r [<- Hr]%list_elem_of_filter. by eapply ext_open.
  - rewrite filter_keeps_none; [constructor|]. intros r [? Hr]%list_elem_of_filter. by apply Hkind.
  - intros sc v _ k. by rewrite Hsnap.
Qed.

Context `{!CodecLaws codec, !JsonLaws json, !SnapshotLaws L, !AnchorLaws anchor}.

Lemma encode_decode scope pos kind plain stored :
  encode_payload codec scope kind plain = Ok stored →
  decode_row codec scope (mkEventRow scope pos kind stored) = Some plain.
Proof.
  unfold encode_payload, decode_row. destruct codec as [c|] eqn:Hc; simpl; [|by intros [= ->]].
  destruct (cc_encode c scope kind plain) eqn:He; [|done]. intros [= <-].
  by apply (codec_roundtrip c).
Qed.

Lemma append_events_ok db scope s es s' :
  db_ok db → evolve_all L s es = Some s' → (∀ e, e ∈ es → encodable scope e) →
  ∃ db' new, append_events codec L json db scope (next_position db scope) s es = Ok (db', s')
    ∧ extends db db' new ∧ (∀ r, r ∈ new → row_scope r = scope ∧ row_kind r = KIND L)
    ∧ Forall2 (λ r e, decode_row codec scope r ≫= from_json json = Some e) new es
    ∧ command_receipts db' = command_receipts db ∧ scope_snapshots db' = scope_snapshots db.
Proof.
  revert db s. induction es as [|e es IH]; intros db s Hok Hs Henc; simpl in *.
  { simplify_eq. exists db, []. split_and!; [done|by apply extends_refl| |constructor|done..].
    by intros r ?%elem_of_nil. }
  destruct (Henc e) as (plain & stored & Hj & Hp); [by left|]. rewrite Hj. simpl. rewrite Hp.
  rewrite insert_event_next by done. destruct (lc_evolve L s e) as [s1|] eqn:He; [|done].
  set (r := mkEventRow scope (next_position db scope) (KIND L) stored).
  assert (db_ok (pushed db r)) as Hok' by (by apply pushed_ok).
  assert (next_position (pushed db r) scope = next_position db scope + 1)%Z as <-.
  { rewrite !next_position_dense, scope_rows_pushed by done. simpl.
    rewrite bool_decide_eq_true_2, length_app by done. simpl. lia. }
  destruct (IH (pushed db r) s1 Hok' Hs) as (db' & new & Happ & Hext & Hkind & Hrows & Hrec & Hsn).
  { intros e' He'. apply Henc. by right. }
  assert (decode_row codec scope r = Some plain) as Hdec by (by apply encode_decode).
  exists db', (r :: new). split_and!; [done| | | |done|done].
  - destruct Hext as [Hev Hsc Hok2]. split; [by rewrite Hev; simpl; rewrite <- app_assoc| |done].
    intros x [->|Hx]%elem_of_cons; [simpl; by rewrite Hdec|by apply Hsc].
  - intros x [->|Hx]%elem_of_cons; [done|by apply Hkind].
  - constructor; [|done]. rewrite Hdec. simpl. by apply json_roundtrip.
Qed.

Lemma append_events_err db scope s es e :
  e ∈ es → ¬ encodable scope e → ∀ position, ∃ f,
  append_events codec L json db scope position s es = Err f.
Proof.
  intros He Hne. revert db s. induction es as [|e' es IH]; intros db s position; simpl.
  { by apply elem_of_nil in He. }
  destruct (to_json json e') as [plain|] eqn:Hj; simpl; [|eauto].
  destruct (encode_payload codec scope (KIND L) plain) as [stored|] eqn:Hp; [|eauto].
  destruct (insert_event _ _); [|eauto]. destruct (lc_evolve L s e') as [s1|]; [|eauto].
  apply elem_of_cons in He as [->|He]; [|by apply IH]. destruct Hne. by exists plain, stored.
Qed.
(** ** Writing a checkpoint *)

Lemma max_position_Some rows m :
  max_position rows = Some m →
  (∃ r, r ∈ rows ∧ row_position r = m) ∧ ∀ r, r ∈ rows → (row_position r ≤ m)%Z.
Proof.
  revert m. induction rows as [|x rows IH]; intros m Hm; [done|]. simpl in Hm.
  setoid_rewrite elem_of_cons. destruct (max_position rows) as [m'|] eqn:Hr; simplify_eq.
  - destruct (IH m' eq_refl) as [(r & Hin & Hp) Hle]. split.
    + destruct (Z.max_spec (row_position x) m') as [[_ ->]|[_ ->]]; eauto.
    + intros y [->|Hy]; [lia|]. specialize (Hle y Hy). lia.
  - destruct rows as [|y rows]; [|simpl in Hr; by destruct (max_position rows)].
    split; [by eauto|]. intros y [->|Hy%elem_of_nil]; done.
Qed.

(** The head that [checkpoint] reads is the last row of the kind. *)
Lemma checkpoint_head db scope after head :
  db_ok db → max_position (select_kind_after db scope (KIND L) after) = Some head →
  ∃ k r, kind_rows db scope !! k = Some r ∧ row_position r = head
    ∧ length (kind_rows db scope) = S k ∧ select_at db scope head = Some r.
Proof.
  intros Hok. rewrite select_kind_dense by done.
  intros [(r & Hr & Hp) Hmax]%max_position_Some. rewrite tail_filter in Hr, Hmax.
  apply list_elem_of_filter in Hr as [Hafter Hr]. pose proof Hr as [k Hk]%list_elem_of_lookup.
  exists k, r. split_and!; [done|done| |].
  - pose proof (lookup_lt_Some _ _ _ Hk). destruct (decide (length (kind_rows db scope) = S k)); [done|].
    destruct (lookup_lt_is_Some_2 (kind_rows db scope) (S k)) as [r' Hr']; [lia|].
    pose proof (kind_rows_sorted db scope Hok) as Hs.
    rewrite <- (take_drop_middle _ _ _ Hk) in Hs. apply StronglySorted_app in Hs as (_ & _ & Hs).
    inversion Hs as [|? ? _ Hgt]; subst. rewrite Forall_forall in Hgt.
    assert (r' ∈ drop (S k) (kind_rows db scope)) as Hin.
    { apply (list_elem_of_lookup_2 _ 0). by rewrite lookup_drop, Nat.add_0_r. }
    pose proof (Hgt r' Hin).
    assert (row_position r' ≤ row_position r)%Z; [|lia]. apply Hmax, list_elem_of_filter.
    split; [lia|by eapply list_elem_of_lookup_2].
  - apply list_elem_of_filter in Hr as [_ [i Hi]%list_elem_of_lookup].
    apply select_at_dense; [done|]. pose proof (Hok _ _ _ Hi). split; [lia|].
    by replace (Z.to_nat head) with i by lia.
Qed.

(** A new checkpoint is the fold of the whole log. *)
Lemma write_snapshot_represents db scope log s sc k r plain stored :
  represents db scope log → replay L log = Some s → lc_snapshot_codec L = Some sc →
  kind_rows db scope !! k = Some r → length (kind_rows db scope) = S k →
  codec_encode sc s = Some plain → open_state scope stored = Some plain → (0 ≤ row_position r)%Z →
  ∃ db', write_snapshot anchor reducer_build L db scope sc (row_position r) (row_payload r) stored = Ok db'
    ∧ events db' = events db ∧ command_receipts db' = command_receipts db
    ∧ represents db' scope log
    ∧ ∀ key : SnapKey, key.1.1 ≠ (scope, KIND L) → scope_snapshots db' !! key = scope_snapshots db !! key.
Proof.
  intros [Hopen Hlog Hsnap] Hs Hsc Hk Hlen Henc Hst Hpos. unfold write_snapshot.
  rewrite !bool_decide_eq_true_2 by (done || apply anchor_length). simpl.
  eexists. split_and!; [done|done|done| |].
  - split; [done|done|]. simpl. intros sc' p a stored' Hsc' Hrow. simplify_eq.
    rewrite lookup_insert_eq in Hrow. simplify_eq. exists k, r, plain, s.
    split_and!; [done|done|done|by apply (snapshot_roundtrip sc s plain)|].
    apply Forall2_length in Hlog. rewrite take_ge by lia. done.
  - intros key Hkey. simpl. rewrite lookup_insert_ne by (intros <-; done).
    destruct (scope_snapshots db !! key) as [v|] eqn:Hv.
    + apply map_lookup_filter_Some. split; [done|]. unfold snapshot_matches. simpl. intros Heq.
      by rewrite Heq in Hkey.
    + apply map_lookup_filter_None. by left.
Qed.

Lemma checkpoint_ok db scope log s :
  db_ok db → represents db scope log → replay L log = Some s →
  ∃ db', checkpoint codec anchor reducer_build L db scope s = Ok db'
    ∧ events db' = events db ∧ command_receipts db' = command_receipts db
    ∧ represents db' scope log
    ∧ ∀ key : SnapKey, key.1.1 ≠ (scope, KIND L) → scope_snapshots db' !! key = scope_snapshots db !! key.
Proof.
  intros Hok Hrep Hs. unfold checkpoint. assert (∃ db', @Ok failure Db db = Ok db'
    ∧ events db' = events db ∧ command_receipts db' = command_receipts db ∧ represents db' scope log
    ∧ ∀ key : SnapKey, key.1.1 ≠ (scope, KIND L) → scope_snapshots db' !! key = scope_snapshots db !! key)
    as Hskip by (by exists db).
  destruct (lc_snapshot_codec L) as [sc|] eqn:Hsc; [|done].
  set (previous := match scope_snapshots db !! _ with Some (p, _, _) => p | None => (-1)%Z end).
  destruct (max_position _) as [head|] eqn:Hhead; [|done].
  destruct (checkpoint_head db scope previous head Hok Hhead) as (k & r & Hk & <- & Hlen & ->).
  case_bool_decide; [done|]. destruct (codec_encode sc s) as [plain|] eqn:Henc; [|done].
  assert (0 ≤ row_position r)%Z as Hpos.
  { apply list_elem_of_lookup_2, list_elem_of_filter in Hk as [_ [i Hi]%list_elem_of_lookup].
    rewrite (Hok _ _ _ Hi). lia. }
  destruct codec as [c|] eqn:Hc.
  - destruct (cc_encode c scope (KIND L) plain) as [stored|] eqn:Hst; [|done].
    eapply write_snapshot_represents; [done..| |done]. unfold open_state. rewrite Hc.
    by apply (codec_roundtrip c).
  - eapply write_snapshot_represents; [done..| |done]. unfold open_state. by rewrite Hc.
Qed.
(** ** Admission *)

(** [es] were admitted: their rows follow the scope's rows, and what the scope
    holds is the longer log. *)
Record admission (db db' : Db) (scope : string) (log es : list (lc_event L)) : Prop := {
  adm_rows : ∃ new, extends db db' new ∧ length new = length es
               ∧ ∀ r, r ∈ new → row_scope r = scope ∧ row_kind r = KIND L;
  adm_log : represents db' scope (log ++ es);
  adm_snapshots : ∀ key : SnapKey, key.1.1 ≠ (scope, KIND L) →
    scope_snapshots db' !! key = scope_snapshots db !! key;
}.

(** Appending an encodable batch, then checkpointing (with the receipts changed
    in between or not), admits the batch. *)
Lemma commit_batch db scope log s es s' :
  db_ok db → represents db scope log → replay L log = Some s → evolve_all L s es = Some s' →
  (∀ e, e ∈ es → encodable scope e) →
  ∃ db1, append_events codec L json db scope (next_position db scope) s es = Ok (db1, s')
    ∧ command_receipts db1 = command_receipts db
    ∧ ∀ db2, events db2 = events db1 → scope_snapshots db2 = scope_snapshots db1 →
      ∃ db', checkpoint codec anchor reducer_build L db2 scope s' = Ok db'
        ∧ command_receipts db' = command_receipts db2 ∧ admission db db' scope log es.
Proof.
  intros Hok Hrep Hs Hes Henc.
  destruct (append_events_ok db scope s es s' Hok Hes Henc)
    as (db1 & new & Happ & Hext & Hnew & Hrows & Hrec & Hsn).
  exists db1. split_and!; [done|done|]. intros db2 Hev Hsn2.
  assert (extends db db2 new) as Hext2.
  { destruct Hext as [He Ho Hk]. split; [congruence|done|]. intros sc. unfold scope_rows.
    rewrite Hev. apply Hk. }
  assert (filter (λ r, row_scope r = scope) new = new) as Hall
    by (apply filter_keeps_all; naive_solver).
  assert (represents db2 scope (log ++ es)) as Hrep2.
  { eapply represents_extend; [done|by apply extends_rows| | |].
    - intros r [<- Hr]%list_elem_of_filter. by eapply ext_open.
    - rewrite Hall, filter_keeps_all; [done|]. naive_solver.
    - intros sc v _ k. by rewrite Hsn2, Hsn. }
  assert (replay L (log ++ es) = Some s') as Hs'.
  { unfold replay, evolve_all in *. by rewrite foldM_app, Hs. }
  destruct (checkpoint_ok db2 scope (log ++ es) s' (ext_ok _ _ _ Hext2) Hrep2 Hs')
    as (db' & Hcp & Hev' & Hrec' & Hrep' & Hkeys).
  exists db'. split_and!; [done|done|]. split; [|done|intros; by rewrite Hkeys, Hsn2, Hsn].
  exists new. split_and!; [|by apply Forall2_length in Hrows|done].
  destruct Hext2 as [He Ho Hk]. split; [congruence|done|]. intros sc. unfold scope_rows.
  rewrite Hev'. apply Hk.
Qed.

Context `{!LifecycleSafe L}.

(** What one admission does, for each outcome of the lifecycle. [receipt] is what
    happens to the receipts. *)
Definition admits (op : Db * result failure (lc_state L)) (db : Db) (scope : string)
    (log : list (lc_event L)) (s : lc_state L) (command : lc_command L)
    (receipts : gmap (string * string) Z) : Prop :=
  match apply L s command with
  | Refused r => op = (db, Err (Failed (AE_Rejected r)))
  | Applied es s' =>
      ((∀ e, e ∈ es → encodable scope e) → ∃ db', op = (db', Ok s')
         ∧ command_receipts db' = receipts ∧ admission db db' scope log es)
      ∧ ((∃ e, e ∈ es ∧ ¬ encodable scope e) → ∃ f, op = (db, Err f))
  | Panicked => False
  end.

Lemma admit_spec db scope log s command :
  db_ok db → represents db scope log → trace L log s →
  admits (store_admit codec anchor reducer_build L json db scope command) db scope log s command
    (command_receipts db).
Proof.
  intros Hok Hrep Ht. pose proof (trace_replay L log s Ht) as Hs.
  pose proof (trace_inv L log s Ht) as Hinv. unfold admits, store_admit.
  rewrite (fold_replays db scope log s) by done.
  pose proof (apply_no_panic L s command Hinv) as Hnp. unfold apply, decide_in in *.
  destruct (lc_decide L s command) as [es|r]; [|done].
  destruct (evolve_all L s es) as [s'|] eqn:Hes; [|done]. split.
  - intros Henc. destruct (commit_batch db scope log s es s' Hok Hrep Hs Hes Henc)
      as (db1 & -> & Hrec & Hcp). simpl.
    destruct (Hcp db1 eq_refl eq_refl) as (db' & -> & Hrec' & Hadm).
    exists db'. split_and!; [done|congruence|done].
  - intros (e & He & Hne).
    destruct (append_events_err db scope s es e He Hne (next_position db scope)) as [f ->]. by exists f.
Qed.

Lemma admit_with_key_spec db scope key log s command :
  db_ok db → represents db scope log → trace L log s →
  match command_receipts db !! (scope, key) with
  | Some _ => admit_with_key codec anchor reducer_build L json db scope key command = (db, Ok s)
  | None =>
      admits (admit_with_key codec anchor reducer_build L json db scope key command)
        db scope log s command
        (<[(scope, key) := Z.of_nat (length (scope_rows db scope))]> (command_receipts db))
  end.
Proof.
  intros Hok Hrep Ht. pose proof (trace_replay L log s Ht) as Hs.
  pose proof (trace_inv L log s Ht) as Hinv. unfold admits, admit_with_key.
  destruct (command_receipts db !! (scope, key)) as [at_|] eqn:Hkey;
    rewrite (fold_replays db scope log s) by done; [done|].
  pose proof (apply_no_panic L s command Hinv) as Hnp. unfold apply, decide_in in *.
  destruct (lc_decide L s command) as [es|r]; [|done].
  destruct (evolve_all L s es) as [s'|] eqn:Hes; [|done]. split.
  - intros Henc. destruct (commit_batch db scope log s es s' Hok Hrep Hs Hes Henc)
      as (db1 & -> & Hrec & Hcp). simpl. unfold insert_receipt. rewrite Hrec, Hkey.
    edestruct Hcp as (db' & -> & Hrec' & Hadm); [reflexivity..|].
    exists db'. split_and!; [done| |done]. rewrite Hrec'. simpl. by rewrite next_position_dense.
  - intros (e & He & Hne).
    destruct (append_events_err db scope s es e He Hne (next_position db scope)) as [f ->]. by exists f.
Qed.
End representation.

(** ** Records

    Every record append either leaves the database alone or adds rows that
    continue the scopes they are written to. *)

Section records.
Context (codec : option ContentCodec) `{!CodecLaws codec}.

(** Rows of the kinds [K] were written; receipts were only added. *)
Definition grows (K : string → Prop) (db db' : Db) : Prop :=
  ∃ new, extends codec db db' new ∧ (∀ r, r ∈ new → K (row_kind r))
    ∧ scope_snapshots db' = scope_snapshots db
    ∧ command_receipts db ⊆ command_receipts db'.

Lemma grows_refl K db : db_ok db → grows K db db.
Proof.
  intros. exists []. split_and!; [by apply extends_refl| |done|done]. by intros r ?%elem_of_nil.
Qed.

Lemma grows_trans K db1 db2 db3 : grows K db1 db2 → grows K db2 db3 → grows K db1 db3.
Proof.
  intros (n1 & He1 & HK1 & Hs1 & Hr1) (n2 & He2 & HK2 & Hs2 & Hr2). exists (n1 ++ n2).
  split_and!; [by eapply extends_trans| |congruence|by etrans].
  intros r [?|?]%elem_of_app; auto.
Qed.

(** One encoded record at the next position. *)
Lemma insert_grows (K : string → Prop) db scope kind plain stored :
  db_ok db → K kind → encode_payload codec scope kind plain = Ok stored →
  ∃ db', insert_event db (mkEventRow scope (next_position db scope) kind stored) = Ok db'
    ∧ grows K db db' ∧ command_receipts db' = command_receipts db
    ∧ scope_rows db' scope
      = scope_rows db scope ++ [mkEventRow scope (Z.of_nat (length (scope_rows db scope))) kind stored].
Proof.
  intros Hok HK He. rewrite insert_event_next by done. eexists. split; [done|].
  set (r := mkEventRow scope (next_position db scope) kind stored). split_and!; [|done|].
  - exists [r]. split_and!; [| |done|done].
    + split; [done| |by apply pushed_ok]. intros x ->%list_elem_of_singleton.
      subst r. simpl. by erewrite encode_decode.
    + by intros x ->%list_elem_of_singleton.
  - rewrite scope_rows_pushed. subst r. simpl. rewrite bool_decide_eq_true_2 by done.
    by rewrite next_position_dense.
Qed.

Lemma append_record_grows (K : string → Prop) db scope kind payload :
  db_ok db → K kind → grows K db (append_record codec db scope kind payload).1.
Proof.
  intros Hok HK. unfold append_record.
  destruct (encode_payload codec scope kind payload) eqn:He; [|by apply grows_refl].
  edestruct (insert_grows K) as (db' & -> & Hg & _); done.
Qed.

Lemma append_record_with_key_grows (K : string → Prop) db scope key kind payload :
  db_ok db → K kind → grows K db (append_record_with_key codec db scope key kind payload).1.
Proof.
  intros Hok HK. unfold append_record_with_key.
  destruct (encode_payload codec scope kind payload) eqn:He; [|by apply grows_refl].
  destruct (command_receipts db !! (scope, key)) eqn:Hkey; [by apply grows_refl|].
  edestruct (insert_grows K) as (db' & -> & Hg & Hrec & _); [done..|].
  unfold insert_receipt. rewrite Hrec, Hkey. simpl.
  destruct Hg as (new & [He1 Ho1 Hk1] & HKn & Hs & _). exists new. split_and!; [by split|done|done|].
  simpl. by apply insert_subseteq.
Qed.

Lemma insert_all_grows (K : string → Prop) records db stored :
  db_ok db → (∀ x, x ∈ records → K x.1.2) → encode_all codec records = Ok stored →
  ∃ db' ps, insert_all db stored = Ok (db', ps) ∧ grows K db db' ∧ length ps = length records.
Proof.
  revert db stored. induction records as [|[[scope kind] payload] records IH];
    intros db stored Hok HK He; simpl in *.
  { simplify_eq. exists db, []. split_and!; [done|by apply grows_refl|done]. }
  destruct (encode_payload codec scope kind payload) as [p|] eqn:Hp; [|done].
  destruct (encode_all codec records) as [rest|] eqn:Hr; [|done]. simplify_eq. simpl.
  edestruct (insert_grows K) as (db1 & -> & Hg & _ & _); [done|by apply (HK (scope, kind, payload)); left|done|].
  destruct (IH db1 rest) as (db' & ps & -> & Hg' & Hlen).
  - by destruct Hg as (? & [] & _).
  - intros x Hx. apply HK. by right.
  - done.
  - eexists _, _. split_and!; [done|by eapply grows_trans|]. simpl. by rewrite Hlen.
Qed.

Lemma append_records_atomically_grows (K : string → Prop) db records :
  db_ok db → (∀ x, x ∈ records → K x.1.2) →
  grows K db (append_records_atomically codec db records).1.
Proof.
  intros Hok HK. unfold append_records_atomically.
  destruct (encode_all codec records) as [stored|] eqn:He; [|by apply grows_refl].
  destruct (insert_all_grows K records db stored Hok HK He) as (db' & ps & -> & Hg & _). done.
Qed.

Lemma append_chained_record_grows (K : string → Prop) db scope kind link :
  db_ok db → K kind → grows K db (append_chained_record codec db scope kind link).1.
Proof.
  intros Hok HK. unfold append_chained_record.
  destruct (encode_payload codec scope kind _) eqn:He; [|by apply grows_refl].
  edestruct (insert_grows K) as (db' & -> & Hg & _); done.
Qed.

Lemma append_linked_grows (K : string → Prop) db scope kind payload scope' kind' link :
  db_ok db → K kind → K kind' →
  grows K db (append_record_with_linked_record codec db scope kind payload scope' kind' link).1.
Proof.
  intros Hok HK HK'. unfold append_record_with_linked_record.
  destruct (link _) as [companion|]; [|by apply grows_refl].
  destruct (encode_payload codec scope kind payload) eqn:He; [|by apply grows_refl].
  edestruct (insert_grows K) as (db1 & -> & Hg & _); [done..|].
  destruct (encode_payload codec scope' kind' companion) eqn:He'; [|by apply grows_refl].
  edestruct (insert_grows K) as (db2 & -> & Hg' & _); [by destruct Hg as (? & [] & _)|done..|].
  by eapply grows_trans.
Qed.

Lemma grows_represents (K : string → Prop) build L json db db' scope log :
  grows K db db' → (∀ kind, K kind → kind ≠ KIND L) →
  represents codec build L json db scope log → represents codec build L json db' scope log.
Proof.
  intros (new & Hext & HK & Hs & _) Hdiff Hrep. eapply represents_frame; [done|done| |].
  - intros r Hr _. by apply Hdiff, HK.
  - intros key _. by rewrite Hs.
Qed.
End records.
