(* ===== verification/StoreSystem.v ===== *)
(** * The store as a service

    A store hosts several lifecycles, each under its own kind, and serves
    requests one transaction at a time: admissions, keyed admissions and record
    appends ([crates/store/src/lib.rs], with [snapshot.rs] underneath). The
    theorems are about every database such a service can reach, and are proved
    against the lifecycles' promise [LifecycleSafe] and the laws of the
    third-party code alone. *)

From Stdlib Require Import Ascii.
From S2P Require Import Prelude Lifecycle Store.

(** ** Hosted lifecycles and requests *)

Record Hosted := mkHosted {
  lifecycle : Lifecycle;
  h_json : Json (lc_event lifecycle);
  h_safe : LifecycleSafe lifecycle;
  h_json_laws : JsonLaws h_json;
  h_snapshot_laws : SnapshotLaws lifecycle;
}.
#[export] Existing Instances h_safe h_json_laws h_snapshot_laws.

Section system.
Context (codec : option ContentCodec) (anchor : string → string) (reducer_build : string).
Context {I : Type} (host : I → Hosted).

Inductive Request :=
| Admit (i : I) (scope : string) (command : lc_command (lifecycle (host i)))
| AdmitWithKey (i : I) (scope key : string) (command : lc_command (lifecycle (host i)))
| AppendRecord (scope kind payload : string)
| AppendRecordWithKey (scope key kind payload : string)
| AppendRecordsAtomically (records : list (string * string * string))
| AppendChainedRecord (scope kind : string) (link : option string → string)
| AppendLinkedRecord (scope kind payload companion_scope companion_kind : string)
    (link : Z → result failure string).

Definition admit_i (i : I) (db : Db) (scope : string) (command : lc_command (lifecycle (host i))) :=
  store_admit codec anchor reducer_build (lifecycle (host i)) (h_json (host i)) db scope command.

Definition admit_with_key_i (i : I) (db : Db) (scope key : string)
    (command : lc_command (lifecycle (host i))) :=
  admit_with_key codec anchor reducer_build (lifecycle (host i)) (h_json (host i)) db scope key command.

Definition fold_i (i : I) (db : Db) (scope : string) :=
  fold codec anchor reducer_build (lifecycle (host i)) (h_json (host i)) db scope.

(** One request, one transaction: the database it leaves. *)
Definition serve (db : Db) (request : Request) : Db :=
  match request with
  | Admit i scope command => (admit_i i db scope command).1
  | AdmitWithKey i scope key command => (admit_with_key_i i db scope key command).1
  | AppendRecord scope kind payload => (append_record codec db scope kind payload).1
  | AppendRecordWithKey scope key kind payload =>
      (append_record_with_key codec db scope key kind payload).1
  | AppendRecordsAtomically records => (append_records_atomically codec db records).1
  | AppendChainedRecord scope kind link => (append_chained_record codec db scope kind link).1
  | AppendLinkedRecord scope kind payload scope' kind' link =>
      (append_record_with_linked_record codec db scope kind payload scope' kind' link).1
  end.

(** Plain records do not use the kind of a lifecycle. *)
Definition record_kind (kind : string) : Prop := ∀ i, kind ≠ KIND (lifecycle (host i)).

Definition well_kinded (request : Request) : Prop :=
  match request with
  | Admit _ _ _ | AdmitWithKey _ _ _ _ => True
  | AppendRecord _ kind _ | AppendRecordWithKey _ _ kind _ | AppendChainedRecord _ kind _ =>
      record_kind kind
  | AppendRecordsAtomically records => ∀ x, x ∈ records → record_kind x.1.2
  | AppendLinkedRecord _ kind _ _ kind' _ => record_kind kind ∧ record_kind kind'
  end.

(** The databases a service reaches. *)
Inductive served : Db → Prop :=
| served_empty : served empty_db
| served_request db request : served db → well_kinded request → served (serve db request).

Definition holds (i : I) (db : Db) (scope : string) (log : list (lc_event (lifecycle (host i)))) :=
  represents codec reducer_build (lifecycle (host i)) (h_json (host i)) db scope log.

(** Positions are dense, and every scope holds a history of every lifecycle. *)
Definition system_ok (db : Db) : Prop :=
  db_ok db ∧ ∀ i scope, ∃ log s, trace (lifecycle (host i)) log s ∧ holds i db scope log.

(** What a later database keeps of an earlier one. *)
Definition retains (db db' : Db) : Prop :=
  events db `prefix_of` events db' ∧ command_receipts db ⊆ command_receipts db'.

#[global] Instance retains_preorder : PreOrder retains.
Proof.
  split; [by split|]. intros a b c [] []. split; by etrans.
Qed.

Context `{!EqDecision I, !CodecLaws codec, !AnchorLaws anchor}.
Context (Hkinds : ∀ i j, KIND (lifecycle (host i)) = KIND (lifecycle (host j)) → i = j).

Lemma empty_system_ok : system_ok empty_db.
Proof.
  split; [by intros scope i r|]. intros i scope. exists [], (lc_default _).
  split; [constructor|]. split; [by intros r ?%elem_of_nil|constructor|by intros].
Qed.

Lemma grows_system_ok db db' :
  system_ok db → grows codec record_kind db db' → system_ok db' ∧ retains db db'.
Proof.
  intros [Hok Hall] Hg. pose proof Hg as (new & [He _ Hok'] & _ & _ & Hrec). split_and!.
  - split; [done|]. intros i scope. destruct (Hall i scope) as (log & s & Ht & Hh).
    exists log, s. split; [done|]. eapply grows_represents; [exact Hg| |done]. auto.
  - split; [|done]. rewrite He. by apply prefix_app_r.
Qed.

(** An admission touches the history of its own lifecycle and scope only. *)
Lemma admission_frame i j db db' scope scope' log es log' :
  (i, scope) ≠ (j, scope') →
  admission codec reducer_build (lifecycle (host i)) (h_json (host i)) db db' scope log es →
  holds j db scope' log' → holds j db' scope' log'.
Proof.
  intros Hne [(new & Hext & _ & Hnew) _ Hsnap] Hh. eapply represents_frame; [done|done| |].
  - intros r Hr Hsc Hk. destruct (Hnew r Hr) as [Hsc2 Hk2]. apply Hne. f_equal; [|congruence].
    apply Hkinds. congruence.
  - intros key Hkey. apply Hsnap. rewrite Hkey. intros [= -> Hk]. apply Hne. f_equal. by apply Hkinds.
Qed.

Lemma admission_system_ok i db db' scope log s command es s' :
  system_ok db → trace (lifecycle (host i)) log s →
  apply (lifecycle (host i)) s command = Applied es s' →
  admission codec reducer_build (lifecycle (host i)) (h_json (host i)) db db' scope log es →
  system_ok db' ∧ events db `prefix_of` events db'.
Proof.
  intros [Hok Hall] Ht Ha Hadm. pose proof Hadm as [(new & [He _ Hok'] & _) Hlog _]. split.
  - split; [done|]. intros j scope'. destruct (decide ((i, scope) = (j, scope'))) as [Heq|Hne].
    + injection Heq as <- <-. exists (log ++ es), s'. split; [by eapply trace_admit|done].
    + destruct (Hall j scope') as (log' & t & Ht' & Hh). exists log', t. split; [done|].
      by eapply admission_frame.
  - rewrite He. by apply prefix_app_r.
Qed.

(** What any admission operation leaves, by its specification. *)
Lemma admits_system_ok i op db scope log s command receipts :
  system_ok db → trace (lifecycle (host i)) log s → command_receipts db ⊆ receipts →
  admits codec reducer_build (lifecycle (host i)) (h_json (host i)) op db scope log s command receipts →
  system_ok op.1 ∧ retains db op.1 ∧ (∀ t, op.2 = Ok t → command_receipts op.1 = receipts).
Proof.
  intros Hsys Ht Hsub Hop. unfold admits in Hop.
  assert (∀ f, op = (db, Err f) → system_ok op.1 ∧ retains db op.1
    ∧ (∀ t, op.2 = Ok t → command_receipts op.1 = receipts)) as Herr by (by intros f ->).
  destruct (apply _ s command) as [r|es s'|] eqn:Ha; [by eauto| |done].
  destruct Hop as [Hgood Hbad]. destruct (decide (Forall (encodable codec _ (h_json (host i)) scope) es)) as [Henc|Henc].
  - rewrite Forall_forall in Henc. destruct (Hgood Henc) as (db' & -> & Hrec & Hadm). simpl.
    edestruct (admission_system_ok i db db') as [Hsys' Hpre]; [done..|].
    split_and!; [done| |done]. split; [done|by rewrite Hrec].
  - apply not_Forall_Exists, Exists_exists in Henc; [|apply _]. destruct (Hbad Henc) as [f Hf]. eauto.
Qed.

Lemma admit_with_key_ok i db scope key command :
  system_ok db →
  let op := admit_with_key_i i db scope key command in
  system_ok op.1 ∧ retains db op.1
  ∧ (∀ t, op.2 = Ok t → is_Some (command_receipts op.1 !! (scope, key))).
Proof.
  intros Hsys. pose proof Hsys as [Hok Hall]. destruct (Hall i scope) as (log & s & Ht & Hh).
  pose proof (admit_with_key_spec codec anchor reducer_build _ (h_json (host i)) db scope key log s command Hok Hh Ht) as Hop.
  unfold admit_with_key_i. simpl. destruct (command_receipts db !! (scope, key)) as [at_|] eqn:Hkey.
  - rewrite Hop. simpl. split_and!; [done|done|]. by rewrite Hkey.
  - eapply admits_system_ok in Hop as (H1 & H2 & H3); [|done|done|by apply insert_subseteq].
    split_and!; [done|done|]. intros t Hok2. rewrite (H3 t Hok2), lookup_insert_eq. done.
Qed.

Lemma serve_ok db request :
  system_ok db → well_kinded request → system_ok (serve db request) ∧ retains db (serve db request).
Proof.
  intros Hsys Hk. pose proof Hsys as [Hok Hall]. destruct request; simpl in *.
  - destruct (Hall i scope) as (log & s & Ht & Hh).
    destruct (admits_system_ok i _ _ _ _ _ _ _ Hsys Ht (reflexivity _)
      (admit_spec codec anchor reducer_build _ (h_json (host i)) db scope log s command Hok Hh Ht))
      as (H1 & H2 & _). done.
  - destruct (admit_with_key_ok i db scope key command Hsys) as (H1 & H2 & _). done.
  - apply grows_system_ok; [done|]. by apply append_record_grows.
  - apply grows_system_ok; [done|]. by apply append_record_with_key_grows.
  - apply grows_system_ok; [done|]. by apply append_records_atomically_grows.
  - apply grows_system_ok; [done|]. by apply append_chained_record_grows.
  - destruct Hk. apply grows_system_ok; [done|]. by apply append_linked_grows.
Qed.

Lemma served_all db requests :
  served db → Forall well_kinded requests → served (fold_left serve requests db).
Proof.
  intros Hdb Hk. revert db Hdb. induction Hk; intros db Hdb; simpl; [done|]. auto using served_request.
Qed.

Lemma served_ok db : served db → system_ok db.
Proof.
  induction 1 as [|db request _ IH Hk]; [apply empty_system_ok|]. by apply serve_ok.
Qed.

Lemma serve_all_ok db requests :
  system_ok db → Forall well_kinded requests →
  system_ok (fold_left serve requests db) ∧ retains db (fold_left serve requests db).
Proof.
  intros Hsys Hk. revert db Hsys. induction Hk as [|request requests Hr _ IH]; intros db Hsys; simpl; [done|].
  destruct (serve_ok db request Hsys Hr) as [Hsys' Hret].
  destruct (IH _ Hsys') as [? ?]. split; [done|by etrans].
Qed.
Lemma holds_fold i db scope log s :
  db_ok db → holds i db scope log → trace (lifecycle (host i)) log s → fold_i i db scope = Ok s.
Proof. intros. by eapply fold_replays, trace_replay. Qed.

(** An admission leaves the fold of every other lifecycle and scope. *)
Lemma admission_folds i j db db' scope scope' log es :
  system_ok db → db_ok db' → (i, scope) ≠ (j, scope') →
  admission codec reducer_build (lifecycle (host i)) (h_json (host i)) db db' scope log es →
  fold_i j db' scope' = fold_i j db scope'.
Proof.
  intros [Hok Hall] Hok' Hne Hadm. destruct (Hall j scope') as (log' & t & Ht & Hh).
  rewrite (holds_fold j db scope' log' t), (holds_fold j db' scope' log' t); try done.
  by eapply admission_frame.
Qed.

(** What one successful admission does to every fold and to the log. *)
Lemma admit_ok db i scope command db' s' :
  system_ok db → admit_i i db scope command = (db', Ok s') →
  system_ok db' ∧ (∃ s es, fold_i i db scope = Ok s ∧ apply (lifecycle (host i)) s command = Applied es s')
  ∧ fold_i i db' scope = Ok s' ∧ (∀ j scope', (i, scope) ≠ (j, scope') → fold_i j db' scope' = fold_i j db scope')
  ∧ ∃ new, extends codec db db' new ∧ ∀ r, r ∈ new → row_scope r = scope ∧ row_kind r = KIND (lifecycle (host i)).
Proof.
  intros Hsys Hop. pose proof Hsys as [Hok Hall]. destruct (Hall i scope) as (log & s & Ht & Hh).
  pose proof (admit_spec codec anchor reducer_build _ (h_json (host i)) db scope log s command Hok Hh Ht) as Hspec.
  unfold admits in Hspec. fold (admit_i i db scope command) in Hspec. rewrite Hop in Hspec.
  destruct (apply _ s command) as [|es t|] eqn:Ha; [done| |done]. destruct Hspec as [Hgood Hbad].
  destruct (decide (Forall (encodable codec (lifecycle (host i)) (h_json (host i)) scope) es)) as [Henc|Henc].
  - rewrite Forall_forall in Henc. destruct (Hgood Henc) as (db1 & [= <- <-] & Hrec & Hadm).
    pose proof Hadm as [(new & Hext & Hlen & Hkind) Hlog _]. split_and!.
    + by eapply admission_system_ok.
    + exists s, es. split; [by eapply holds_fold|done].
    + eapply holds_fold; [by destruct Hext|done|by eapply trace_admit].
    + intros j scope' Hne. eapply admission_folds; [done|by destruct Hext|done|done].
    + by exists new.
  - apply not_Forall_Exists, Exists_exists in Henc; [|apply _]. by destruct (Hbad Henc) as [f Hf].
Qed.

(** ** Properties *)

(** C2: In every database the service reaches, every scope holds, for every hosted
    lifecycle, the log of a history of that lifecycle; the store's fold returns
    the state the history ends in, and that state satisfies the lifecycle's
    invariant. *)
Theorem store_serves_histories db :
  served db → ∀ i scope, ∃ log s,
    trace (lifecycle (host i)) log s ∧ holds i db scope log
    ∧ fold_i i db scope = Ok s ∧ lc_inv s.
Proof.
  intros [Hok Hall]%served_ok i scope. destruct (Hall i scope) as (log & s & Ht & Hh).
  exists log, s. split_and!; [done|done|by eapply holds_fold|by eapply trace_inv].
Qed.

(** C1: [Store::admit] implements the lifecycle: a refusal is reported and changes
    nothing; an admitted command whose events encode is committed, the returned
    state is the lifecycle's next state, a later fold reads it back, and the fold
    of every other lifecycle and every other scope is what it was; an event that
    does not encode rolls the whole command back; the fold never unwinds. *)
Theorem admit_refines_lifecycle db i scope command :
  served db → ∃ s, fold_i i db scope = Ok s ∧ reachable (lifecycle (host i)) s ∧
  match apply (lifecycle (host i)) s command with
  | Refused r => admit_i i db scope command = (db, Err (Failed (AE_Rejected r)))
  | Applied es s' =>
      if decide (Forall (encodable codec (lifecycle (host i)) (h_json (host i)) scope) es)
      then ∃ db', admit_i i db scope command = (db', Ok s')
             ∧ fold_i i db' scope = Ok s' ∧ command_receipts db' = command_receipts db
             ∧ length (events db') = length (events db) + length es
             ∧ ∀ j scope', (i, scope) ≠ (j, scope') → fold_i j db' scope' = fold_i j db scope'
      else ∃ f, admit_i i db scope command = (db, Err f)
  | Panicked => False
  end.
Proof.
  intros Hsys%served_ok. pose proof Hsys as [Hok Hall].
  destruct (Hall i scope) as (log & s & Ht & Hh). exists s.
  split; [by eapply holds_fold|]. split; [by exists log|].
  pose proof (admit_spec codec anchor reducer_build _ (h_json (host i)) db scope log s command Hok Hh Ht)
    as Hop. unfold admits in Hop. fold (admit_i i db scope command) in Hop.
  destruct (apply _ s command) as [r|es s'|] eqn:Ha; [done| |done]. destruct Hop as [Hgood Hbad].
  case_decide as Henc.
  - rewrite Forall_forall in Henc. destruct (Hgood Henc) as (db' & Hop & Hrec & Hadm).
    pose proof Hadm as [(new & [He _ Hok'] & Hlen & _) Hlog _].
    exists db'. split_and!; [done| |done| |].
    + eapply holds_fold; [done|done|by eapply trace_admit].
    + by rewrite He, length_app, Hlen.
    + intros j scope' Hne. by eapply admission_folds.
  - apply not_Forall_Exists, Exists_exists in Henc; [|apply _]. by apply Hbad.
Qed.

(** C3: A keyed admission happens at most once: after one that succeeded, and
    after any further requests, a replay of the same scope and key, for any
    lifecycle and with any command, changes nothing and returns the current
    state. *)
Theorem keyed_admission_at_most_once db i scope key command db1 s requests :
  served db → admit_with_key_i i db scope key command = (db1, Ok s) →
  Forall well_kinded requests →
  let db2 := fold_left serve requests db1 in
  ∀ j command', ∃ s', admit_with_key_i j db2 scope key command' = (db2, Ok s')
    ∧ fold_i j db2 scope = Ok s'.
Proof.
  intros Hsys%served_ok Hop Hreqs db2 j command'.
  destruct (admit_with_key_ok i db scope key command Hsys) as (Hsys1 & _ & Hkey).
  rewrite Hop in Hsys1, Hkey. simpl in *. destruct (Hkey s eq_refl) as [at_ Hat].
  destruct (serve_all_ok db1 requests Hsys1 Hreqs) as [[Hok2 Hall2] [_ Hrec]].
  destruct (Hall2 j scope) as (log & t & Ht & Hh). exists t. split; [|by eapply holds_fold].
  pose proof (admit_with_key_spec codec anchor reducer_build _ (h_json (host j)) db2 scope key log t
    command' Hok2 Hh Ht) as Hspec.
  assert (command_receipts db2 !! (scope, key) = Some at_) as Hat2 by (by eapply lookup_weaken).
  by rewrite Hat2 in Hspec.
Qed.

(** The log is append-only and gap-free: whatever is requested, the rows and
    the receipts of a database stay, and the rows of each scope, in the order they
    were written, hold the positions 0, 1, 2, ... *)
Theorem store_append_only db requests :
  served db → Forall well_kinded requests →
  let db' := fold_left serve requests db in
  events db `prefix_of` events db' ∧ command_receipts db ⊆ command_receipts db'
  ∧ ∀ scope i r, filter (λ r, row_scope r = scope) (events db') !! i = Some r →
      row_position r = Z.of_nat i.
Proof.
  intros Hsys%served_ok Hreqs. destruct (serve_all_ok db requests Hsys Hreqs) as [[Hok _] [? ?]].
  split_and!; [done|done|]. intros scope. apply Hok.
Qed.

(** C10: Checkpoints are derived: in every reached database each fold returns what
    it would return with all checkpoints discarded. *)
Theorem checkpoints_are_derived db :
  served db → ∀ i scope,
  fold_i i db scope = fold_i i (db <| scope_snapshots := ∅ |>) scope.
Proof.
  intros [Hok Hall]%served_ok i scope. destruct (Hall i scope) as (log & s & Ht & Hh).
  rewrite (holds_fold i db scope log s) by done. symmetry. eapply holds_fold; [exact Hok| |done].
  destruct Hh as [Ho Hl _]. by split.
Qed.
End system.

Section records.
Context (codec : option ContentCodec) `{!CodecLaws codec}.

Lemma retained_rows_app scope selected rows rows' l l' :
  retained_rows codec scope selected rows = Ok l → retained_rows codec scope selected rows' = Ok l' →
  retained_rows codec scope selected (rows ++ rows') = Ok (l ++ l').
Proof.
  intros Hl Hl'. revert l Hl. induction rows as [|r rows IH]; intros l Hl; simpl in *; [by simplify_eq|].
  destruct (decode_row codec scope r); [|done].
  destruct (retained_rows codec scope selected rows) as [l0|]; [|done].
  rewrite (IH l0) by done. destruct (String.eqb _ _); by simplify_eq/=.
Qed.

(** A record that [append_record] stores gets the next position of its scope
    and reads back: the retained payloads of its kind are those before it and then
    it, those of other kinds and other scopes are the same. *)
Theorem append_record_roundtrip db scope kind payload db' position :
  db_ok db → append_record codec db scope kind payload = (db', Ok position) →
  position = Z.of_nat (length (filter (λ r, row_scope r = scope) (events db)))
  ∧ (∀ selected old, retained_kind_payloads codec db scope selected = Ok old →
       retained_kind_payloads codec db' scope selected
       = Ok (old ++ if String.eqb kind selected then [payload] else []))
  ∧ ∀ scope' selected, scope ≠ scope' →
      retained_kind_payloads codec db' scope' selected = retained_kind_payloads codec db scope' selected.
Proof.
  intros Hok Happ. unfold append_record in Happ.
  destruct (encode_payload codec scope kind payload) as [stored|] eqn:He; [|done].
  rewrite insert_event_next in Happ by done. simpl in Happ.
  set (r := mkEventRow scope (next_position db scope) kind stored) in *.
  assert (db' = pushed db r) as -> by congruence.
  assert (position = next_position db scope) as -> by congruence.
  assert (db_ok (pushed db r)) as Hok' by (by apply pushed_ok).
  unfold retained_kind_payloads. split_and!; [by rewrite next_position_dense| |].
  - intros selected old Hold. rewrite select_scope_dense, scope_rows_pushed by done.
    rewrite select_scope_dense in Hold by done. simpl. rewrite bool_decide_eq_true_2 by done.
    apply retained_rows_app; [done|]. simpl. subst r. by erewrite encode_decode.
  - intros scope' selected Hne. rewrite !select_scope_dense, scope_rows_pushed by done. simpl.
    by rewrite bool_decide_eq_false_2, app_nil_r.
Qed.
End records.

(** ** A concrete service

    Two host-action lifecycles, the second with a checkpoint after every event,
    behind a codec that marks what it stores. *)

Module Sample.
Definition codec : ContentCodec := mkContentCodec
  (λ _ _ plain, Ok (String "#"%char plain))
  (λ _ _ stored, match stored with String "#"%char plain => Some plain | _ => None end).

Definition digits : string := "0123456789abcdef0123456789abcdef0123456789abcdef0123456789abcdef".
Definition anchor (raw : string) : string := digits.

Definition snapshot : SnapshotCodec (HostActionAdmission string) := mkSnapshotCodec "action" 1 1
  (λ s, match admitted_command s with
        | Some c => Some (String "1"%char c) | None => Some (String "0"%char EmptyString) end)
  (λ p, match p with
        | String "1"%char c => Some (mkHostActionAdmission (Some c))
        | String "0"%char EmptyString => Some (mkHostActionAdmission None)
        | _ => None end).

Definition checkpointed : Lifecycle := {|
  lc_state := HostActionAdmission string;
  lc_command := string;
  lc_event := string;
  lc_default := mkHostActionAdmission None;
  KIND := "checkpointed_action";
  lc_decide := host_action_decide;
  lc_evolve := λ s e, Some (host_action_evolve s e);
  lc_snapshot_codec := Some snapshot;
|}.

#[export] Instance checkpointed_safe : LifecycleSafe checkpointed.
Proof.
  refine {| lc_inv := λ _ : lc_state checkpointed, True |}; [done|].
  by apply total_lifecycle_safe with host_action_evolve.
Defined.

Definition json : Json string := mkJson Some Some.

#[export] Instance json_laws : JsonLaws json.
Proof. intros e p [= ->]. done. Defined.

#[export] Instance codec_laws : CodecLaws (Some codec).
Proof. intros c scope kind plain stored [= <-] [= <-]. done. Defined.

#[export] Instance anchor_laws : AnchorLaws anchor.
Proof. intros raw. reflexivity. Defined.

#[export] Instance plain_snapshot : SnapshotLaws (host_action_lifecycle string).
Proof. intros sc s p Hsc. discriminate Hsc. Defined.

#[export] Instance checkpointed_snapshot : SnapshotLaws checkpointed.
Proof. intros sc [[c|]] p [= <-] [= <-]; done. Defined.

Definition host (b : bool) : Hosted :=
  if b then mkHosted checkpointed json _ _ _
  else mkHosted (host_action_lifecycle string) json _ _ _.

Lemma host_kinds i j : KIND (lifecycle (host i)) = KIND (lifecycle (host j)) → i = j.
Proof. by destruct i, j. Qed.

Definition serve := serve (Some codec) anchor "build" host.
Definition served := served (Some codec) anchor "build" host.

(** Admissions of both lifecycles, one of them keyed, among plain records. *)
Definition requests : list (Request host) :=
  [AppendRecord host "s" "note" "first"; Admit host true "s" "go"; Admit host true "s" "again";
   AdmitWithKey host false "s" "k" "run"; AppendRecord host "s" "note" "last"].

Definition db : Db := fold_left serve requests empty_db.

Lemma requests_kinded : Forall (well_kinded host) requests.
Proof. repeat constructor; intros []; discriminate. Qed.

Lemma db_served : served db.
Proof. apply served_all; [constructor|apply requests_kinded]. Qed.

(** The checkpoint is in use, and the second [Admit] was refused. *)
Example db_checkpoint :
  scope_snapshots db !! (("s", "checkpointed_action", "action"), (1%N, "build"))
  = Some (1%Z, digits, "#1go").
Proof. vm_compute. reflexivity. Qed.

Example db_size : length (events db) = 4.
Proof. vm_compute. reflexivity. Qed.
End Sample.

Section witnesses.
Import Sample.

Lemma store_serves_histories_witness :
  served db ∧ ∃ log s, trace checkpointed log s ∧ holds (Some codec) "build" host true db "s" log
    ∧ fold_i (Some codec) anchor "build" host true db "s" = Ok s ∧ True.
Proof.
  split; [apply db_served|].
  exact (store_serves_histories (Some codec) anchor "build" host host_kinds db db_served true "s").
Defined.

Lemma admit_refines_lifecycle_witness :
  served db ∧ ∃ db', admit_i (Some codec) anchor "build" host true db "t" "go" = (db', Ok (mkHostActionAdmission (Some "go")))
    ∧ fold_i (Some codec) anchor "build" host true db' "t" = Ok (mkHostActionAdmission (Some "go"))
    ∧ length (events db') = 5.
Proof.
  split; [apply db_served|].
  destruct (admit_refines_lifecycle (Some codec) anchor "build" host host_kinds db true "t" "go" db_served)
    as (s & Hs & _ & H).
  assert (s = mkHostActionAdmission None) as -> by (vm_compute in Hs; congruence).
  clear Hs. revert H. generalize db_size. generalize db as d. intros d Hd H.
  simpl in H. destruct H as (db' & H1 & H2 & _ & H3 & _). exists db'.
  split_and!; [exact H1|exact H2|rewrite H3, Hd; reflexivity].
Defined.

Lemma keyed_admission_at_most_once_witness :
  ∃ db1, admit_with_key_i (Some codec) anchor "build" host true db "t" "k" "go"
         = (db1, Ok (mkHostActionAdmission (Some "go")))
  ∧ ∃ s', admit_with_key_i (Some codec) anchor "build" host true
            (fold_left serve [AppendRecord host "t" "note" "x"] db1) "t" "k" "other"
          = (fold_left serve [AppendRecord host "t" "note" "x"] db1, Ok s').
Proof.
  destruct (admit_with_key_i (Some codec) anchor "build" host true db "t" "k" "go") as [db1 o] eqn:Hop.
  assert (o = Ok (mkHostActionAdmission (Some "go"))) as ->.
  { transitivity ((db1, o).2); [reflexivity|]. rewrite <- Hop. vm_compute. reflexivity. }
  exists db1. split; [reflexivity|].
  destruct (keyed_admission_at_most_once (Some codec) anchor "build" host host_kinds db true "t" "k" "go"
    db1 _ [AppendRecord host "t" "note" "x"] db_served Hop) with true "other" as (s' & H & _).
  { repeat constructor. intros []; discriminate. }
  exists s'. exact H.
Defined.

Lemma store_append_only_witness :
  events db `prefix_of` events (fold_left serve [AppendRecord host "s" "note" "x"] db).
Proof.
  refine (proj1 (store_append_only (Some codec) anchor "build" host host_kinds db
    [AppendRecord host "s" "note" "x"] db_served _)).
  repeat constructor. intros []; discriminate.
Defined.

Lemma checkpoints_are_derived_witness :
  fold_i (Some codec) anchor "build" host true db "s"
  = fold_i (Some codec) anchor "build" host true (db <| scope_snapshots := ∅ |>) "s".
Proof. exact (checkpoints_are_derived (Some codec) anchor "build" host host_kinds db db_served true "s"). Defined.

Lemma append_record_roundtrip_witness :
  ∃ db', append_record (Some codec) db "s" "note" "x" = (db', Ok 4%Z)
    ∧ retained_kind_payloads (Some codec) db' "s" "note" = Ok ["first"; "last"; "x"].
Proof.
  destruct (append_record (Some codec) db "s" "note" "x") as [db' o] eqn:Hop.
  assert (o = Ok 4%Z) as ->.
  { transitivity ((db', o).2); [reflexivity|]. rewrite <- Hop. vm_compute. reflexivity. }
  exists db'. split; [reflexivity|].
  assert (db_ok db) as Hok by exact (proj1 (served_ok (Some codec) anchor "build" host host_kinds db db_served)).
  refine (proj1 (proj2 (append_record_roundtrip (Some codec) db "s" "note" "x" db' 4 Hok Hop)) "note"
    ["first"; "last"] _).
  vm_compute. reflexivity.
Defined.
End witnesses.
