(* ===== verification/Desk.v ===== *)
(** * The store with the desk's lifecycles

    One store hosts the run, merge, review, resource-access, instance, handoff and
    boundary lifecycles. Their reducers discharge the store's interface
    ([LifecycleSafe], distinct kinds), so what each promises holds of the states
    the store folds, whatever requests were served and however they interleaved.
    [serde_json] on each event type is an argument with its round-trip law. *)

From S2P Require Import Prelude Ids Lifecycle Run Merge Review ResourceAccess Instance Handoff BoundaryLifecycle Store StoreSystem.

Inductive DeskKind := K_Run | K_Merge | K_Review | K_Access | K_Instance | K_Handoff | K_Boundary.

#[export] Instance DeskKind_eq_dec : EqDecision DeskKind.
Proof. solve_decision. Defined.

Section desk.
Context (codec : option ContentCodec) (anchor : string → string) (reducer_build : string).
Context (encode : Run.RunState → option string) (decode : string → option Run.RunState).
Context (run_json : Json Run.RunEvent) (merge_json : Json Merge.MergeEvent)
        (review_json : Json Review.ReviewEvent) (access_json : Json ResourceAccess.AccessEvent)
        (instance_json : Json Instance.InstanceEvent) (handoff_json : Json Handoff.HandoffEvent)
        (boundary_json : Json BoundaryLifecycle.BoundaryEvent).
Context `{!CodecLaws codec, !AnchorLaws anchor, !SnapshotLaws (Run.run_lifecycle encode decode)}.
Context `{!JsonLaws run_json, !JsonLaws merge_json, !JsonLaws review_json, !JsonLaws access_json,
          !JsonLaws instance_json, !JsonLaws handoff_json, !JsonLaws boundary_json}.

(** A lifecycle without a checkpoint codec. *)
Lemma no_snapshot L : lc_snapshot_codec L = None → SnapshotLaws L.
Proof. intros Hn sc s p Hsc. by rewrite Hn in Hsc. Qed.

Definition desk (k : DeskKind) : Hosted :=
  match k with
  | K_Run => mkHosted (Run.run_lifecycle encode decode) run_json _ _ _
  | K_Merge => mkHosted Merge.merge_lifecycle merge_json _ _ (no_snapshot Merge.merge_lifecycle eq_refl)
  | K_Review => mkHosted Review.review_lifecycle review_json _ _ (no_snapshot Review.review_lifecycle eq_refl)
  | K_Access => mkHosted ResourceAccess.access_lifecycle access_json _ _ (no_snapshot ResourceAccess.access_lifecycle eq_refl)
  | K_Instance => mkHosted Instance.instance_lifecycle instance_json _ _ (no_snapshot Instance.instance_lifecycle eq_refl)
  | K_Handoff => mkHosted Handoff.handoff_lifecycle handoff_json _ _ (no_snapshot Handoff.handoff_lifecycle eq_refl)
  | K_Boundary => mkHosted BoundaryLifecycle.boundary_lifecycle boundary_json _ _ (no_snapshot BoundaryLifecycle.boundary_lifecycle eq_refl)
  end.

Lemma desk_kinds i j : KIND (lifecycle (desk i)) = KIND (lifecycle (desk j)) → i = j.
Proof. by destruct i, j. Qed.

Lemma desk_folds db k scope :
  served codec anchor reducer_build desk db →
  ∃ s : lc_state (lifecycle (desk k)),
    fold_i codec anchor reducer_build desk k db scope = Ok s ∧ lc_inv s.
Proof.
  intros Hdb. destruct (served_ok codec anchor reducer_build desk desk_kinds db Hdb) as [Hok Hall].
  destruct (Hall k scope) as (log & s & Ht & Hh). exists s. split.
  - by eapply holds_fold.
  - by eapply trace_inv.
Qed.

(** C9: In every database a desk store reaches, the folds of a scope return states in
    which: started, completed and failed runs were admitted; a standing line
    advanced only on a successful workspace merge that policy admitted, once; a
    released output has everyone's consent; an accessible payload has every
    approval; only active instances are runnable; the target is home only with
    the log and the content; and an active boundary was accepted by every
    participant. *)
Theorem desk_states_safe db scope :
  served codec anchor reducer_build desk db →
  ∃ run merge review access inst handoff boundary,
    fold_i codec anchor reducer_build desk K_Run db scope = Ok run
    ∧ fold_i codec anchor reducer_build desk K_Merge db scope = Ok merge
    ∧ fold_i codec anchor reducer_build desk K_Review db scope = Ok review
    ∧ fold_i codec anchor reducer_build desk K_Access db scope = Ok access
    ∧ fold_i codec anchor reducer_build desk K_Instance db scope = Ok inst
    ∧ fold_i codec anchor reducer_build desk K_Handoff db scope = Ok handoff
    ∧ fold_i codec anchor reducer_build desk K_Boundary db scope = Ok boundary
    ∧ (Run.phase run ∈ [Run.P_Admitted; Run.P_Running; Run.P_Completed; Run.P_Failed] →
         Run.admitted_once run = true)
    ∧ (Merge.standing_advanced merge = true →
         Merge.workspace_outcome merge = Merge.W_Success ∧ Merge.policy_outcome merge = Merge.O_Admitted
         ∧ Merge.standing_advance_count merge = 1%N)
    ∧ (Review.phase review = Review.P_Released →
         Review.consented review = Review.required review ∧ Review.required review ≠ ∅)
    ∧ (ResourceAccess.payload_accessible access = true →
         ResourceAccess.approvals access = ResourceAccess.required access)
    ∧ Instance.runnable inst = bool_decide (Instance.phase inst = Instance.P_Active)
    ∧ (Handoff.home handoff = Handoff.Target →
         Handoff.target_has_log handoff = true ∧ Handoff.target_has_content handoff = true)
    ∧ (BoundaryLifecycle.phase boundary = BoundaryLifecycle.P_Active →
         BoundaryLifecycle.required boundary ⊆ BoundaryLifecycle.accepted boundary).
Proof.
  intros Hdb.
  destruct (desk_folds db K_Run scope Hdb) as (run & Hrun & Irun).
  destruct (desk_folds db K_Merge scope Hdb) as (merge & Hmerge & Imerge).
  destruct (desk_folds db K_Review scope Hdb) as (review & Hreview & Ireview).
  destruct (desk_folds db K_Access scope Hdb) as (access & Haccess & Iaccess).
  destruct (desk_folds db K_Instance scope Hdb) as (inst & Hinst & Iinst).
  destruct (desk_folds db K_Handoff scope Hdb) as (handoff & Hhandoff & Ihandoff).
  destruct (desk_folds db K_Boundary scope Hdb) as (boundary & Hboundary & Iboundary).
  exists run, merge, review, access, inst, handoff, boundary. split_and!; try done.
  - exact (Run.inv_admitted run Irun).
  - intros Ha. destruct (Merge.inv_gate merge Imerge Ha) as [? ?].
    pose proof (Merge.inv_count merge Imerge) as Hc. by rewrite Ha in Hc.
  - intros Hp. exact (Review.inv_release review Ireview (or_intror Hp)).
  - intros ?%bool_decide_eq_true. apply (ResourceAccess.inv_granted access Iaccess). by left.
  - exact (Instance.inv_runnable inst Iinst).
  - intros Hh. apply (Handoff.inv_state handoff Ihandoff). right.
    pose proof (Handoff.inv_home handoff Ihandoff) as Heq.
    rewrite bool_decide_eq_true_2 in Heq by done. symmetry in Heq. by apply bool_decide_eq_true in Heq.
  - intros Hp. apply (BoundaryLifecycle.inv_all boundary Iboundary). by rewrite Hp.
Qed.
End desk.

(** ** A concrete desk store: a run is requested, admitted and started, and its
    home is handed off. *)

Module SampleDesk.
Definition run_json : Json Run.RunEvent := mkJson
  (λ e, match e with
        | Run.E_RunRequested => Some "requested" | Run.E_RunAdmitted => Some "admitted"
        | Run.E_RunStarted => Some "started" | Run.E_RunCompleted => Some "completed"
        | _ => None end)
  (λ p, match p with
        | "requested" => Some Run.E_RunRequested | "admitted" => Some Run.E_RunAdmitted
        | "started" => Some Run.E_RunStarted | "completed" => Some Run.E_RunCompleted
        | _ => None end)%string.

Definition handoff_json : Json Handoff.HandoffEvent := mkJson
  (λ e, match e with
        | Handoff.E_HandoffOffered => Some "offered" | Handoff.E_LogSynced => Some "synced"
        | Handoff.E_HandoffCommitted => Some "committed" | Handoff.E_HandoffAborted => Some "aborted" end)
  (λ p, match p with
        | "offered" => Some Handoff.E_HandoffOffered | "synced" => Some Handoff.E_LogSynced
        | "committed" => Some Handoff.E_HandoffCommitted | "aborted" => Some Handoff.E_HandoffAborted
        | _ => None end)%string.

(** A serializer that refuses everything, for the lifecycles not used here. *)
Definition no_json E : Json E := mkJson (λ _, None) (λ _, None).

#[export] Instance run_json_laws : JsonLaws run_json.
Proof. intros [] p [= <-]; reflexivity. Defined.

#[export] Instance handoff_json_laws : JsonLaws handoff_json.
Proof. intros [] p [= <-]; reflexivity. Defined.

#[export] Instance no_json_laws E : JsonLaws (no_json E).
Proof. intros e p He. discriminate He. Defined.

#[export] Instance no_run_checkpoint : SnapshotLaws (Run.run_lifecycle (λ _, None) (λ _, None)).
Proof. intros sc s p [= <-] He. discriminate He. Defined.

Definition host := desk (λ _, None) (λ _, None) run_json (no_json _) (no_json _) (no_json _) (no_json _)
  handoff_json (no_json _).

Definition requests : list (Request host) :=
  [Admit host K_Run "s" Run.C_RequestRun; Admit host K_Handoff "s" Handoff.C_OfferHandoff;
   Admit host K_Run "s" Run.C_AdmitRun; AppendRecord host "s" "note" "x"; Admit host K_Run "s" Run.C_StartRun].

Definition db : Db := fold_left (serve None Sample.anchor "build" host) requests empty_db.

Lemma desk_db_served : served None Sample.anchor "build" host db.
Proof.
  apply served_all; [constructor|]. repeat constructor. intros []; discriminate.
Qed.

Example db_running :
  fold_i None Sample.anchor "build" host K_Run db "s"
  = Ok (Run.mkRunState Run.P_Running true 0 []).
Proof. vm_compute. reflexivity. Qed.
End SampleDesk.

#[local] Existing Instances SampleDesk.run_json_laws SampleDesk.handoff_json_laws
  SampleDesk.no_json_laws SampleDesk.no_run_checkpoint Sample.anchor_laws.

#[export] Instance no_codec_laws : CodecLaws None.
Proof. intros c scope kind plain stored He. discriminate He. Defined.

Lemma desk_states_safe_witness :
  served None Sample.anchor "build" SampleDesk.host SampleDesk.db
  ∧ ∃ run, fold_i None Sample.anchor "build" SampleDesk.host K_Run SampleDesk.db "s" = Ok run
     ∧ (Run.phase run ∈ [Run.P_Admitted; Run.P_Running; Run.P_Completed; Run.P_Failed] →
         Run.admitted_once run = true).
Proof.
  split; [exact SampleDesk.desk_db_served|].
  destruct (desk_states_safe None Sample.anchor "build" (λ _, None) (λ _, None) SampleDesk.run_json
    (SampleDesk.no_json _) (SampleDesk.no_json _) (SampleDesk.no_json _) (SampleDesk.no_json _)
    SampleDesk.handoff_json (SampleDesk.no_json _) SampleDesk.db "s" SampleDesk.desk_db_served)
    as (run & ? & ? & ? & ? & ? & ? & H1 & _ & _ & _ & _ & _ & _ & H2 & _).
  exists run. split; [exact H1|exact H2].
Defined.
