(* ===== verification/AccessControl.v ===== *)
(** * Access control

    [crates/core/src/abac.rs]: attribute rules that narrow what the protection
    floor allows; [crates/core/src/rbac.rs]: the fixed capability matrix of the
    administration console. *)

From S2P Require Import Prelude Ids.

(** ** Attributes ([abac.rs]) *)

Inductive Classification := Public | Internal | Pii | Regulated.

#[export] Instance Classification_eq_dec : EqDecision Classification.
Proof. solve_decision. Defined.

Definition classification_default : Classification := Regulated.

(** The newtypes [Region], [Purpose], [Role] and [Tenant] wrap a string. *)
Definition Region := string.
Definition Purpose := string.
Definition Role := string.
Definition Tenant := string.

Definition owner : Role := "owner".
Definition admin : Role := "admin".
Definition member : Role := "member".
Definition viewer : Role := "viewer".
Definition billing : Role := "billing".
Definition auditor : Role := "auditor".

Definition Clearance := N. (* u8 *)

Definition implied_by (role : Role) : Clearance :=
  if bool_decide (role = "owner") || bool_decide (role = "admin") then 3%N
  else if bool_decide (role = "member") then 2%N
  else if bool_decide (role = "viewer") then 1%N
  else 0%N.

Record ResourceAttributes := mkResourceAttributes {
  classification : Classification;
  res_region : option Region;
  purpose : gset Purpose;
}.

Record AuthorityAttributes := mkAuthorityAttributes {
  clearance : Clearance;
  affiliation : option Tenant;
  roles : gset Role;
  actor_region : option Region;
}.

(** [Iterator::max] over a sequence: [None] when it is empty. *)
Definition iter_max (l : list N) : option N :=
  foldr (λ x m, Some (match m with Some y => N.max x y | None => x end)) None l.

Definition effective_clearance (a : AuthorityAttributes) : Clearance :=
  default 0%N (iter_max ((implied_by <$> elements (roles a)) ++ [clearance a])).

Inductive Action := Access | Run | Export.

#[export] Instance Action_eq_dec : EqDecision Action.
Proof. solve_decision. Defined.
#[export] Instance Action_countable : Countable Action.
Proof.
  by refine (inj_countable' (λ a, match a with Access => None | Run => Some true | Export => Some false end)
    (λ o, match o with None => Access | Some true => Run | Some false => Export end) _); intros [].
Defined.

Record Decision := mkDecision {
  actor : AuthorityAttributes;
  resource : ResourceAttributes;
  action : Action;
  ceiling_attested : bool; (* [Context] has this one field *)
}.

Inductive Condition := Always | ClassificationIs (k : Classification) | ActorHasRole (r : Role).

Inductive Constraint :=
| RequireAttestedCeiling
| RequireResourceRegionMatchesActor
| DenyAction (a : Action).

Record Rule := mkRule { when : Condition; require_ : Constraint }.

Record Policy := mkPolicy { rules : list Rule }.

Definition enterprise_example : Policy := mkPolicy
  [mkRule (ClassificationIs Pii) RequireAttestedCeiling;
   mkRule (ClassificationIs Pii) RequireResourceRegionMatchesActor;
   mkRule (ActorHasRole viewer) (DenyAction Export)].

Record Constraints := mkConstraints {
  require_attested : bool;
  require_actor_region : bool;
  denied_actions : gset Action;
}.

#[export] Instance Constraints_eta : Eta Constraints := mkEta (λ c,
  mkConstraints (require_attested c) (require_actor_region c) (denied_actions c)).

Definition constraints_default : Constraints := mkConstraints false false ∅.

Definition condition_holds (cond : Condition) (d : Decision) : bool :=
  match cond with
  | Always => true
  | ClassificationIs k => bool_decide (classification (resource d) = k)
  | ActorHasRole r => bool_decide (r ∈ roles (actor d))
  end.

(** The body of [evaluate]'s loop. *)
Definition impose (c : Constraints) (k : Constraint) : Constraints :=
  match k with
  | RequireAttestedCeiling => c <| require_attested := true |>
  | RequireResourceRegionMatchesActor => c <| require_actor_region := true |>
  | DenyAction a => c <| denied_actions := {[a]} ∪ denied_actions c |>
  end.

Definition evaluate (policy : Policy) (d : Decision) : Constraints :=
  fold_left (λ c rule, if condition_holds (when rule) d then impose c (require_ rule) else c)
    (rules policy) constraints_default.

Definition regions_match (d : Decision) : bool :=
  match res_region (resource d), actor_region (actor d) with
  | Some rr, Some ar => bool_decide (rr = ar)
  | _, _ => false
  end.

Definition constraints_satisfied (c : Constraints) (d : Decision) : bool :=
  if require_attested c && negb (ceiling_attested d) then false
  else if require_actor_region c && negb (regions_match d) then false
  else if bool_decide (action d ∈ denied_actions c) then false
  else true.

Definition permitted_with_policy (baseline : bool) (policy : Policy) (d : Decision) : bool :=
  baseline && constraints_satisfied (evaluate policy d) d.

(** ** The console ([rbac.rs]) *)

Inductive Capability :=
| ManageOrgLifecycle | GrantPrivilegedRoles | EditOrgSettings | ManageMembers | ConfigureSso
| ConfigureProvisioning | ViewAudit | ConfigureSecurity | ManageBilling.

#[export] Instance Capability_eq_dec : EqDecision Capability.
Proof. solve_decision. Defined.

Definition ALL : list Capability :=
  [ManageOrgLifecycle; GrantPrivilegedRoles; EditOrgSettings; ManageMembers; ConfigureSso;
   ConfigureProvisioning; ViewAudit; ConfigureSecurity; ManageBilling].

Definition capability_str (c : Capability) : string :=
  match c with
  | ManageOrgLifecycle => "manage_org_lifecycle"
  | GrantPrivilegedRoles => "grant_privileged_roles"
  | EditOrgSettings => "edit_org_settings"
  | ManageMembers => "manage_members"
  | ConfigureSso => "configure_sso"
  | ConfigureProvisioning => "configure_provisioning"
  | ViewAudit => "view_audit"
  | ConfigureSecurity => "configure_security"
  | ManageBilling => "manage_billing"
  end.

Definition role_can (role : Role) (cap : Capability) : bool :=
  if bool_decide (role = "owner") then true
  else if bool_decide (role = "admin") then
    match cap with
    | EditOrgSettings | ManageMembers | ConfigureSso | ConfigureProvisioning | ConfigureSecurity
    | ViewAudit => true
    | _ => false
    end
  else if bool_decide (role = "auditor") then bool_decide (cap = ViewAudit)
  else if bool_decide (role = "billing") then bool_decide (cap = ManageBilling)
  else false.

Definition can_access_console (role : Role) : bool := existsb (role_can role) ALL.

(** ** What a rule means *)

(** A request meets a constraint. *)
Definition meets (d : Decision) (k : Constraint) : bool :=
  match k with
  | RequireAttestedCeiling => ceiling_attested d
  | RequireResourceRegionMatchesActor => regions_match d
  | DenyAction a => negb (bool_decide (action d = a))
  end.

(** A request passes a rule: the rule does not apply or its constraint is met. *)
Definition passes (d : Decision) (r : Rule) : bool := negb (condition_holds (when r) d) || meets d (require_ r).

Lemma impose_satisfied c k d :
  constraints_satisfied (impose c k) d = constraints_satisfied c d && meets d k.
Proof.
  destruct c as [ra rr da], k as [| |a]; unfold constraints_satisfied, impose; simpl.
  - by destruct (ceiling_attested d), ra, rr, (regions_match d), (bool_decide _).
  - by destruct (ceiling_attested d), ra, rr, (regions_match d), (bool_decide _).
  - rewrite (bool_decide_ext (action d ∈ {[a]} ∪ da) (action d = a ∨ action d ∈ da)) by set_solver.
    rewrite bool_decide_or. by destruct (ceiling_attested d), ra, rr, (regions_match d), (bool_decide _), (bool_decide _).
Qed.

Lemma evaluate_satisfied l c d :
  constraints_satisfied
    (fold_left (λ c rule, if condition_holds (when rule) d then impose c (require_ rule) else c) l c) d
  = constraints_satisfied c d && forallb (passes d) l.
Proof.
  revert c. induction l as [|r l IH]; intros c; simpl; [by rewrite andb_true_r|].
  rewrite IH. unfold passes at 2. destruct (condition_holds (when r) d); simpl; [|done].
  by rewrite impose_satisfied, andb_assoc.
Qed.

Lemma default_satisfied d : constraints_satisfied constraints_default d = true.
Proof. done. Qed.

Lemma permitted_spec baseline policy d :
  permitted_with_policy baseline policy d = baseline && forallb (passes d) (rules policy).
Proof. unfold permitted_with_policy, evaluate. by rewrite evaluate_satisfied, default_satisfied. Qed.

(** Attribute policies are conjunctions of their rules over the floor. A request is
    permitted exactly when the floor allows it and it passes every rule on its own,
    so accumulating the constraints first loses nothing: the order of the rules and
    duplicates do not matter, and adding rules only narrows. Under the enterprise
    policy personal data is reached only under an attested ceiling in the actor's
    own region, and a viewer exports nothing. *)
Theorem permitted_iff_rules (baseline : bool) (policy more : Policy) (d : Decision) :
  (permitted_with_policy baseline policy d = true ↔
     baseline = true ∧ ∀ r, r ∈ rules policy → condition_holds (when r) d = true → meets d (require_ r) = true)
  ∧ (rules policy ⊆ rules more → permitted_with_policy baseline more d = true →
       permitted_with_policy baseline policy d = true)
  ∧ (permitted_with_policy baseline enterprise_example d = true →
       (classification (resource d) = Pii → ceiling_attested d = true
          ∧ ∃ region, res_region (resource d) = Some region ∧ actor_region (actor d) = Some region)
       ∧ (viewer ∈ roles (actor d) → action d ≠ Export)).
Proof.
  assert (∀ b p, permitted_with_policy b p d = true ↔
     b = true ∧ ∀ r, r ∈ rules p → condition_holds (when r) d = true → meets d (require_ r) = true) as Hiff.
  { intros b p. rewrite permitted_spec, andb_true_iff, forallb_forall. f_equiv. split; intros H r Hr.
    - intros Hc. apply list_elem_of_In, H in Hr. unfold passes in Hr. by rewrite Hc in Hr.
    - apply list_elem_of_In in Hr. unfold passes. destruct (condition_holds _ d) eqn:Hc; [|done]. by apply H. }
  split; [apply Hiff|]. split.
  - intros Hsub [Hb H]%Hiff. apply Hiff. split; [done|]. intros r Hr. by apply H, Hsub.
  - intros [_ H]%Hiff. simpl in H. split.
    + intros Hp. assert (condition_holds (ClassificationIs Pii) d = true) as Hc by by apply bool_decide_eq_true_2.
      pose proof (H (mkRule (ClassificationIs Pii) RequireAttestedCeiling) ltac:(by left) Hc) as H1.
      pose proof (H (mkRule (ClassificationIs Pii) RequireResourceRegionMatchesActor)
                    ltac:(by right; left) Hc) as H2. simpl in H1, H2. split; [done|].
      unfold regions_match in H2. destruct (res_region _), (actor_region _); try done.
      apply bool_decide_eq_true in H2 as ->. eauto.
    + intros Hv He. assert (condition_holds (ActorHasRole viewer) d = true) as Hc by by apply bool_decide_eq_true_2.
      pose proof (H (mkRule (ActorHasRole viewer) (DenyAction Export)) ltac:(by right; right; left) Hc) as H3.
      simpl in H3. by rewrite He in H3.
Qed.

(** ** Clearance and the console *)

Lemma iter_max_app_spec l x m :
  iter_max (l ++ [x]) = Some m ↔ (m ∈ l ++ [x]) ∧ ∀ y, y ∈ l ++ [x] → (y ≤ m)%N.
Proof.
  revert m. induction l as [|z l IH]; intros m; simpl.
  - split; [intros [= <-]; split; [by left|by intros y ->%list_elem_of_singleton]|].
    by intros [->%list_elem_of_singleton _].
  - destruct (iter_max (l ++ [x])) as [k|] eqn:Hk.
    + destruct (proj1 (IH k) eq_refl) as [Hin Hle]. split.
      * intros [= <-]. split; [destruct (N.max_spec z k) as [[_ ->]|[_ ->]]; [by right|by left]|].
        intros y [->|Hy]%elem_of_cons; [lia|]. specialize (Hle y Hy). lia.
      * intros [Hm Hall]. f_equal. pose proof (Hall z ltac:(by left)). pose proof (Hall k ltac:(by right)).
        apply elem_of_cons in Hm as [->|Hm]; [lia|]. specialize (Hle m Hm). lia.
    + by destruct l.
Qed.

(** The effective clearance is the least level at or above the claim and what each
    role implies: a claim raises it, and never lowers a role. *)
Lemma effective_clearance_least a c :
  effective_clearance a = c ↔
    (c = clearance a ∨ ∃ r, r ∈ roles a ∧ c = implied_by r)
    ∧ (clearance a ≤ c)%N ∧ ∀ r, r ∈ roles a → (implied_by r ≤ c)%N.
Proof.
  unfold effective_clearance. set (l := implied_by <$> elements (roles a)).
  assert (∀ y, y ∈ l ++ [clearance a] ↔ y = clearance a ∨ ∃ r, r ∈ roles a ∧ y = implied_by r) as Hl.
  { intros y. unfold l. rewrite elem_of_app, list_elem_of_singleton, list_elem_of_fmap.
    setoid_rewrite elem_of_elements. naive_solver. }
  assert (∃ m, iter_max (l ++ [clearance a]) = Some m) as [m Hm].
  { destruct l; simpl; eauto. }
  rewrite Hm. simpl. pose proof (proj1 (iter_max_app_spec _ _ _) Hm) as [Hin Hle].
  setoid_rewrite Hl in Hin. setoid_rewrite Hl in Hle. split.
  - intros <-. split_and!; [done|by apply Hle; left|]. intros r Hr. apply Hle. eauto.
  - intros (Hc & Hclaim & Hroles). apply N.le_antisymm.
    + destruct Hin as [->|(r & Hr & ->)]; auto.
    + by apply Hle.
Qed.

(** Separation of duties on the console. Only an owner ends the organization or
    grants privileged roles; billing is the owner's and billing's; whatever the role
    string, someone who may do anything at all is an owner, an administrator, an
    auditor or billing, an auditor only reads the audit, and the console opens
    exactly for those. The transport names of the capabilities are distinct. *)
Theorem console_separation (role : Role) (cap : Capability) :
  (role_can role cap = true → role = owner ∨
     (role = admin ∧ cap ∉ [ManageOrgLifecycle; GrantPrivilegedRoles; ManageBilling])
     ∨ (role = auditor ∧ cap = ViewAudit) ∨ (role = billing ∧ cap = ManageBilling))
  ∧ role_can owner cap = true
  ∧ (can_access_console role = true ↔ role ∈ [owner; admin; auditor; billing])
  ∧ ∀ cap', capability_str cap = capability_str cap' → cap = cap'.
Proof.
  split_and!.
  - unfold role_can. repeat case_bool_decide; subst; try done; [by left| |by eauto..].
    intros Hc. right; left. split; [done|]. destruct cap; try done; set_solver.
  - done.
  - unfold can_access_console, ALL. split.
    + rewrite existsb_exists. intros (c & _ & Hc). unfold role_can in Hc.
      repeat case_bool_decide; subst; try done; rewrite !elem_of_cons; auto.
    + rewrite !elem_of_cons, elem_of_nil. by intros [->|[->|[->|[->|[]]]]].
  - by destruct cap, cap'.
Qed.
