(* ===== verification/Delivery.v ===== *)
(** * Federated delivery

    [crates/core/src/federated_delivery.rs]: one bridge-carried message. The source
    authorizes, a relay queues and delivers, the target admits a receipt on an
    authentic envelope; [crates/core/src/federated_envelope.rs]: the metadata a
    source signs. *)

From S2P Require Import Prelude Ids Lifecycle Federation.

(** [Authority] of this file is [FedAuthority] of [Federation]. *)

Definition original_handles : gset string := {["method"; "context"]}.

Definition DEFAULT_BRIDGE_GRANT_ID : string := "bridge-grant-7".
Definition DEFAULT_DEVICE_KEY : string := "04dev1ce0ke7".
Definition DEFAULT_DEVICE_ID : string := "device:pixel-9".

Inductive DeliveryPhase :=
| D_Draft | D_Authorized | D_Queued | D_Delivered | D_TargetAdmitted | D_TargetRejected | D_Failed
| D_Expired | D_Canceled.

#[export] Instance DeliveryPhase_eq_dec : EqDecision DeliveryPhase.
Proof. solve_decision. Defined.

Record DeliveryState := mkDelivery {
  phase : DeliveryPhase;
  source_authorized : bool;
  delivered : bool;
  target_admitted : bool;
  target_admitted_by : FedAuthority;
  payload_authority : FedAuthority;
  relay_has_payload_access : bool;
  handles : gset string;
  correlation_intact : bool;
  expired : bool;
  retried : bool;
  signature_verified : bool;
  bound_bridge_grant_id : BridgeGrantId;
  seen_nonces : gset Nonce;
  bound_device : DeviceId;
  bound_device_key : PublicKey;
}.

#[export] Instance DeliveryState_eta : Eta DeliveryState := mkEta (λ s,
  mkDelivery (phase s) (source_authorized s) (delivered s) (target_admitted s) (target_admitted_by s)
    (payload_authority s) (relay_has_payload_access s) (handles s) (correlation_intact s) (expired s)
    (retried s) (signature_verified s) (bound_bridge_grant_id s) (seen_nonces s) (bound_device s)
    (bound_device_key s)).

Definition delivery_default : DeliveryState :=
  mkDelivery D_Draft false false false A_None A_Source false original_handles true false false false
    (mkId DEFAULT_BRIDGE_GRANT_ID) ∅ (mkId DEFAULT_DEVICE_ID) (mkId DEFAULT_DEVICE_KEY).

Record DeliveryEnvelope := mkDeliveryEnvelope {
  signed_bytes : list N;
  signature : Signature;
  source_pubkey : PublicKey;
  nonce : Nonce;
  env_bridge_grant_id : BridgeGrantId;
  env_device_key : PublicKey;
  device_active : bool;
}.

Inductive DeliveryCommand :=
| C_BindDelivery (bridge_grant_id : BridgeGrantId) (device_key : PublicKey) (device : DeviceId)
| C_AuthorizeFederatedMessage
| C_EnqueueFederatedMessage
| C_RecordRelayDelivery
| C_AdmitTargetReceipt (envelope : DeliveryEnvelope)
| C_ValidateDeviceBinding (envelope : DeliveryEnvelope)
| C_RejectTargetReceipt
| C_RecordDeliveryFailure
| C_ExpireFederatedDelivery
| C_CancelFederatedDelivery
| C_RetryFederatedDelivery.

Inductive DeliveryEvent :=
| E_DeliveryBound (bridge_grant_id : BridgeGrantId) (device_key : PublicKey) (device : DeviceId)
| E_MessageAuthorized
| E_MessageQueued
| E_RelayDeliveryRecorded
| E_TargetReceiptAdmitted (nonce : Nonce)
| E_TargetReceiptRejected
| E_DeliveryFailed
| E_DeliveryExpired
| E_DeliveryCanceled
| E_DeliveryRetried.

Definition check_device_binding (state : DeliveryState) (envelope : DeliveryEnvelope)
    : result Rejection unit :=
  if negb (bool_decide (env_device_key envelope = bound_device_key state))
  then reject "device binding: envelope device key does not match the bound device (INV-21)"
  else if negb (device_active envelope)
  then reject "device binding: presenting device's bridge grant is revoked (INV-21)"
  else Ok ().

Definition admit_receipt `{P256} (state : DeliveryState) (envelope : DeliveryEnvelope)
    : result Rejection (list DeliveryEvent) :=
  if negb (bool_decide (phase state = D_Delivered))
  then reject "admitTargetReceipt: needs a delivered, non-expired message (INV-13)"
  else
    match verify_signature (signed_bytes envelope) (signature envelope) (source_pubkey envelope) with
    | Ok true =>
        if negb (bool_decide (env_bridge_grant_id envelope = bound_bridge_grant_id state))
        then reject "admitTargetReceipt: envelope bridge grant does not match the bound grant (INV-21)"
        else
          let? _ := check_device_binding state envelope in
          if bool_decide (nonce envelope ∈ seen_nonces state)
          then reject "admitTargetReceipt: envelope nonce was already admitted — replay (INV-21)"
          else Ok [E_TargetReceiptAdmitted (nonce envelope)]
    | Ok false => reject "admitTargetReceipt: source signature did not verify (INV-21)"
    | Err _ => reject "admitTargetReceipt: source signature could not be verified (INV-21)"
    end.

Definition decide `{P256} (state : DeliveryState) (command : DeliveryCommand)
    : result Rejection (list DeliveryEvent) :=
  match command with
  | C_BindDelivery grant key device =>
      match phase state with
      | D_Draft => Ok [E_DeliveryBound grant key device]
      | _ => reject "bindDelivery: can only bind a draft delivery (binding precedes authorize)"
      end
  | C_AuthorizeFederatedMessage =>
      match phase state with
      | D_Draft => Ok [E_MessageAuthorized]
      | _ => reject "authorize: not a draft"
      end
  | C_EnqueueFederatedMessage =>
      if bool_decide (phase state = D_Authorized) && source_authorized state && negb (expired state)
      then Ok [E_MessageQueued]
      else reject "enqueue: requires a source-authorized message (no BYPASS_SOURCE)"
  | C_RecordRelayDelivery =>
      if bool_decide (phase state = D_Queued) && negb (expired state) then Ok [E_RelayDeliveryRecorded]
      else reject "recordRelayDelivery: not queued"
  | C_AdmitTargetReceipt envelope => admit_receipt state envelope
  | C_ValidateDeviceBinding envelope => let? _ := check_device_binding state envelope in Ok []
  | C_RejectTargetReceipt =>
      match phase state with
      | D_Delivered => Ok [E_TargetReceiptRejected]
      | _ => reject "rejectTargetReceipt: nothing delivered to reject"
      end
  | C_RecordDeliveryFailure =>
      match phase state with
      | D_Authorized | D_Queued | D_Delivered => Ok [E_DeliveryFailed]
      | _ => reject "recordDeliveryFailure: not in flight"
      end
  | C_ExpireFederatedDelivery =>
      match phase state with
      | D_Draft | D_Authorized | D_Queued | D_Delivered => Ok [E_DeliveryExpired]
      | _ => reject "expire: already terminal"
      end
  | C_CancelFederatedDelivery =>
      match phase state with
      | D_Draft | D_Authorized | D_Queued | D_Delivered => Ok [E_DeliveryCanceled]
      | _ => reject "cancel: already terminal"
      end
  | C_RetryFederatedDelivery =>
      match phase state with
      | D_Failed | D_Expired | D_Canceled => Ok [E_DeliveryRetried]
      | _ => reject "retry: not in a retryable terminal state"
      end
  end.

Definition evolve (s : DeliveryState) (event : DeliveryEvent) : DeliveryState :=
  match event with
  | E_DeliveryBound grant key device =>
      s <| bound_bridge_grant_id := grant |> <| bound_device_key := key |> <| bound_device := device |>
  | E_MessageAuthorized => s <| phase := D_Authorized |> <| source_authorized := true |>
  | E_MessageQueued => s <| phase := D_Queued |>
  | E_RelayDeliveryRecorded => s <| phase := D_Delivered |> <| delivered := true |>
  | E_TargetReceiptAdmitted n =>
      s <| phase := D_TargetAdmitted |> <| target_admitted := true |> <| target_admitted_by := A_Target |>
        <| signature_verified := true |> <| seen_nonces := {[n]} ∪ seen_nonces s |>
  | E_TargetReceiptRejected => s <| phase := D_TargetRejected |>
  | E_DeliveryFailed => s <| phase := D_Failed |>
  | E_DeliveryExpired => s <| phase := D_Expired |> <| expired := true |>
  | E_DeliveryCanceled => s <| phase := D_Canceled |>
  | E_DeliveryRetried =>
      s <| phase := D_Authorized |> <| source_authorized := true |> <| delivered := false |>
        <| target_admitted := false |> <| target_admitted_by := A_None |>
        <| handles := original_handles |> <| expired := false |> <| retried := true |>
        <| signature_verified := false |>
  end.

Definition delivery_lifecycle `{P256} : Lifecycle := {|
  lc_state := DeliveryState;
  lc_command := DeliveryCommand;
  lc_event := DeliveryEvent;
  lc_default := delivery_default;
  KIND := "federated_delivery";
  lc_decide := decide;
  lc_evolve := λ s e, Some (evolve s e);
  lc_snapshot_codec := None;
|}.

(** ** Admission of a receipt *)

(** The envelope is authentic and minted for this delivery. *)
Definition envelope_accepted `{P256} (s : DeliveryState) (env : DeliveryEnvelope) : Prop :=
  verify_signature (signed_bytes env) (signature env) (source_pubkey env) = Ok true
  ∧ env_bridge_grant_id env = bound_bridge_grant_id s ∧ env_device_key env = bound_device_key s
  ∧ device_active env = true ∧ nonce env ∉ seen_nonces s.

Lemma check_device_spec s env :
  check_device_binding s env = Ok () ↔ env_device_key env = bound_device_key s ∧ device_active env = true.
Proof.
  unfold check_device_binding. case_bool_decide; simpl; [|naive_solver].
  destruct (device_active env); naive_solver.
Qed.

Lemma admit_receipt_spec `{P256} s env es :
  admit_receipt s env = Ok es ↔
    es = [E_TargetReceiptAdmitted (nonce env)] ∧ phase s = D_Delivered ∧ envelope_accepted s env.
Proof.
  unfold admit_receipt, envelope_accepted. case_bool_decide as Hp; simpl; [|naive_solver].
  destruct (verify_signature _ _ _) as [[]|]; [|naive_solver..].
  case_bool_decide; simpl; [|naive_solver].
  pose proof (check_device_spec s env) as Hc.
  destruct (check_device_binding s env) as [[]|]; simpl; [|naive_solver].
  case_bool_decide; naive_solver.
Qed.

(** ** What a history says *)

Definition opens (e : DeliveryEvent) : Prop := e = E_MessageAuthorized ∨ e = E_DeliveryRetried.

Definition is_admission (e : DeliveryEvent) : bool :=
  match e with E_TargetReceiptAdmitted _ => true | _ => false end.

Definition is_binding (e : DeliveryEvent) : bool :=
  match e with E_DeliveryBound _ _ _ => true | _ => false end.

(** How the log ends, by phase. *)
Definition ends_as (log : list DeliveryEvent) (p : DeliveryPhase) : Prop :=
  match p with
  | D_Draft => forallb is_binding log = true
  | D_Authorized => ∃ b x, log = b ++ [x] ∧ opens x
  | D_Queued => ∃ b x, log = b ++ [x; E_MessageQueued] ∧ opens x
  | D_Delivered => ∃ b x, log = b ++ [x; E_MessageQueued; E_RelayDeliveryRecorded] ∧ opens x
  | _ => True
  end.

(** The grant and device of the last binding. *)
Definition bound_by (log : list DeliveryEvent) : BridgeGrantId * PublicKey * DeviceId :=
  fold_left (λ b e, match e with E_DeliveryBound g k d => (g, k, d) | _ => b end) log
    (mkId DEFAULT_BRIDGE_GRANT_ID, mkId DEFAULT_DEVICE_KEY, mkId DEFAULT_DEVICE_ID).

Record delivery_inv (s : DeliveryState) : Prop := {
  di_relay : payload_authority s = A_Source ∧ relay_has_payload_access s = false
    ∧ correlation_intact s = true ∧ handles s = original_handles;
  di_admitted : target_admitted s = bool_decide (phase s = D_TargetAdmitted);
  di_verified : signature_verified s = target_admitted s;
  di_by : target_admitted_by s = if target_admitted s then A_Target else A_None;
}.

Section delivery.
Context `{P256}.
Abbreviation L := delivery_lifecycle.

Lemma delivery_single s c es : decide s c = Ok es → length es ≤ 1.
Proof.
  intros Hd. destruct c; simpl in Hd; repeat case_match; simplify_eq/=; try lia.
  apply admit_receipt_spec in Hd as [-> _]. done.
Qed.

(** One admitted event: the phases it needs and what it does to the log's end. *)
Lemma delivery_event log s c e :
  decide s c = Ok [e] → delivery_inv s → ends_as log (phase s) →
  delivery_inv (evolve s e) ∧ ends_as (log ++ [e]) (phase (evolve s e))
  ∧ phase s ≠ D_TargetAdmitted ∧ (is_admission e = true → phase (evolve s e) = D_TargetAdmitted)
  ∧ (phase (evolve s e) = D_TargetAdmitted → is_admission e = true)
  ∧ (is_binding e = true → phase s = D_Draft).
Proof.
  intros Hd [(? & ? & ? & ?) Ha Hv Hb] He.
  destruct s as [p sa dl ta tb pa ra hd ci ex rt sv bg sn bd bk]; simpl in *; subst.
  destruct c; simpl in Hd.
  5: { apply admit_receipt_spec in Hd as ([= ->] & Hp & _). simpl in Hp. subst. by split_and!. }
  5: { destruct (check_device_binding _ _); simplify_eq/=. }
  all: destruct p; simpl in Hd, He; try discriminate Hd.
  all: repeat case_match; try discriminate Hd; injection Hd as <-.
  all: split_and!; try done.
  all: try (destruct He as (b & x & -> & Hx); exists b, x; by rewrite <- app_assoc).
  - simpl. by rewrite forallb_app, He.
  - exists log, E_MessageAuthorized. split; [done|]. by left.
  - exists log, E_DeliveryRetried. split; [done|]. by right.
  - exists log, E_DeliveryRetried. split; [done|]. by right.
  - exists log, E_DeliveryRetried. split; [done|]. by right.
Qed.

Lemma ends_as_some p : ∃ log, ends_as log p.
Proof.
  assert (opens E_MessageAuthorized) by by left. destruct p; simpl; try by exists [].
  - by exists [E_MessageAuthorized], [], E_MessageAuthorized.
  - by exists [E_MessageAuthorized; E_MessageQueued], [], E_MessageAuthorized.
  - by exists [E_MessageAuthorized; E_MessageQueued; E_RelayDeliveryRecorded], [], E_MessageAuthorized.
Qed.

#[global] Instance delivery_safe : LifecycleSafe L.
Proof.
  refine {| lc_inv := (delivery_inv : lc_state L → Prop) |}; [split; [by split_and!|done..]|].
  apply total_lifecycle_safe with evolve; [done|]. intros s c es Hinv Hd.
  pose proof (delivery_single s c es Hd) as Hlen. destruct es as [|e [|]]; simpl in *; [done| |lia].
  destruct (ends_as_some (phase s)) as [log Hlog]. by destruct (delivery_event log s c e Hd Hinv Hlog).
Defined.

Definition binding_of (s : DeliveryState) : BridgeGrantId * PublicKey * DeviceId :=
  (bound_bridge_grant_id s, bound_device_key s, bound_device s).

Lemma bound_by_snoc log s e : bound_by log = binding_of s → bound_by (log ++ [e]) = binding_of (evolve s e).
Proof. unfold bound_by. rewrite fold_left_app. simpl. intros ->. by destruct s, e. Qed.

(** What a log tells about the state it leads to. *)
Record told (log : list DeliveryEvent) (s : DeliveryState) : Prop := {
  tl_ends : ends_as log (phase s);
  tl_open : phase s ≠ D_TargetAdmitted → existsb is_admission log = false;
  tl_admitted : phase s = D_TargetAdmitted → ∃ b e, log = b ++ [e] ∧ existsb is_admission b = false
    ∧ is_admission e = true;
  tl_bound : bound_by log = binding_of s;
  tl_seen : ∀ n, n ∈ seen_nonces s ↔ E_TargetReceiptAdmitted n ∈ log;
}.

Lemma seen_snoc log s e :
  (∀ n, n ∈ seen_nonces s ↔ E_TargetReceiptAdmitted n ∈ log) →
  ∀ n, n ∈ seen_nonces (evolve s e) ↔ E_TargetReceiptAdmitted n ∈ log ++ [e].
Proof.
  intros Hs n. rewrite elem_of_app, list_elem_of_singleton, <-Hs.
  destruct e; simpl; rewrite ?elem_of_union, ?elem_of_singleton; naive_solver.
Qed.

Lemma delivery_told log s : trace L log s → told log s.
Proof.
  induction 1 as [|log s c es s' Ht IH Ha]; [split; [done..|]; intros n; simpl; by rewrite elem_of_empty, elem_of_nil|]. pose proof (trace_inv L log s Ht) as Hinv.
  apply apply_admitted in Ha as [Hd He]. unfold evolve_all in He. simpl in He. rewrite foldM_total in He.
  injection He as <-. pose proof (delivery_single s c es Hd) as Hlen.
  destruct es as [|e [|]]; simpl in Hlen; [by rewrite app_nil_r| |lia]. simpl.
  destruct IH as [Hends Hopen _ Hbound Hseen].
  destruct (delivery_event log s c e Hd Hinv Hends) as (_ & Hends' & Hne & Hadm & Hadm' & _).
  specialize (Hopen Hne). split; [done| |by intros Hp; exists log, e; auto|by apply bound_by_snoc|by apply seen_snoc].
  intros Hp. rewrite existsb_app, Hopen. simpl. rewrite orb_false_r. apply not_true_iff_false. eauto.
Qed.

Lemma admitted_last before e after b e' :
  before ++ e :: after = b ++ [e'] → is_admission e = true → existsb is_admission b = false →
  after = [] ∧ before = b ∧ e = e'.
Proof.
  intros Heq Hadm Hb. destruct after as [|x after _] using rev_ind.
  - apply app_inj_tail in Heq as [-> ->]. done.
  - rewrite app_comm_cons, app_assoc in Heq. apply app_inj_tail in Heq as [<- _].
    rewrite existsb_app in Hb. simpl in Hb. rewrite Hadm in Hb. by destruct (existsb _ before).
Qed.

(** What the target asks of an envelope, in terms of the log so far: its source signature
    verifies, it was minted for the grant and the device key the delivery is bound to, by
    a device that is still active, and its nonce was not admitted before. *)
Definition authentic (log : list DeliveryEvent) (env : DeliveryEnvelope) : Prop :=
  verify_signature (signed_bytes env) (signature env) (source_pubkey env) = Ok true
  ∧ (env_bridge_grant_id env, env_device_key env) = (bound_by log).1 ∧ device_active env = true
  ∧ E_TargetReceiptAdmitted (nonce env) ∉ log.

Lemma authentic_accepted log s env : told log s → authentic log env ↔ envelope_accepted s env.
Proof.
  intros [_ _ _ Hb Hs]. unfold authentic, envelope_accepted. rewrite Hb, Hs. simpl.
  rewrite pair_eq. tauto.
Qed.

Lemma session_told cs log s : session L cs = Some (log, s) → told log s ∧ delivery_inv s.
Proof.
  intros Hs. destruct (session_total L cs) as (log' & s' & Hs' & Ht & Hinv & _). rewrite Hs in Hs'. simplify_eq.
  split; [by apply delivery_told|done].
Qed.

(** One envelope handed to the target, wherever the session has come to. *)
Lemma receipt_handed_in cs env log s :
  session L cs = Some (log, s) →
  let next := session L (cs ++ [C_AdmitTargetReceipt env]) in
  (phase s = D_Delivered ∧ authentic log env
     ∧ next = Some (log ++ [E_TargetReceiptAdmitted (nonce env)], evolve s (E_TargetReceiptAdmitted (nonce env))))
  ∨ (¬ (phase s = D_Delivered ∧ authentic log env) ∧ next = Some (log, s)).
Proof.
  intros Hs. pose proof (session_told _ _ _ Hs) as [Ht _]. simpl. rewrite (session_snoc L cs _ log s Hs). simpl.
  rewrite (authentic_accepted _ _ _ Ht). pose proof (admit_receipt_spec s env) as Hspec.
  destruct (admit_receipt s env) as [es|r].
  - destruct (proj1 (Hspec es) eq_refl) as (-> & Hp & Hacc). by left.
  - right. split; [|done]. intros [Hp Hacc].
    by pose proof (proj2 (Hspec _) (conj eq_refl (conj Hp Hacc))).
Qed.

(** C27: a delivery admits at most one receipt, of an envelope that was checked. In any
    session, an envelope handed to the target is admitted exactly when the message is
    delivered and the envelope authentic for the log so far: signed by the source, bound
    to the grant and device key of the draft's last binding, from an active device, with
    a new nonce; any other envelope leaves the log and the state as they were. An
    admission in the log was of such an envelope: a command of the session, handed in
    when the log was what precedes it. The admission is the last event of the log, and
    directly follows an opening (the source's authorization or a retry), the queueing and
    the relay's delivery; bindings precede everything else. Relays never gain the payload,
    retries never widen the handles, and nothing is admitted that was not verified. The
    admitted nonces are this delivery's own: see [envelope_replayed_elsewhere]. *)
Theorem delivery_admits_once (cs : list DeliveryCommand) :
  ∃ log s, session L cs = Some (log, s)
    ∧ (∀ cs1 env cs2, cs = cs1 ++ C_AdmitTargetReceipt env :: cs2 →
        ∃ before s0, session L cs1 = Some (before, s0)
          ∧ ((phase s0 = D_Delivered ∧ authentic before env
                ∧ session L (cs1 ++ [C_AdmitTargetReceipt env])
                  = Some (before ++ [E_TargetReceiptAdmitted (nonce env)], evolve s0 (E_TargetReceiptAdmitted (nonce env))))
             ∨ (¬ (phase s0 = D_Delivered ∧ authentic before env)
                ∧ session L (cs1 ++ [C_AdmitTargetReceipt env]) = Some (before, s0))))
    ∧ (∀ before n after, log = before ++ E_TargetReceiptAdmitted n :: after →
        after = []
        ∧ (∃ b x, before = b ++ [x; E_MessageQueued; E_RelayDeliveryRecorded] ∧ opens x)
        ∧ ∃ cs1 env cs2 s0, cs = cs1 ++ C_AdmitTargetReceipt env :: cs2 ∧ n = nonce env
          ∧ session L cs1 = Some (before, s0) ∧ phase s0 = D_Delivered ∧ authentic before env)
    ∧ (∀ before g k d after, log = before ++ E_DeliveryBound g k d :: after → forallb is_binding before = true)
    ∧ payload_authority s = A_Source ∧ relay_has_payload_access s = false ∧ handles s = original_handles
    ∧ (target_admitted s = true ↔ ∃ n, E_TargetReceiptAdmitted n ∈ log)
    ∧ signature_verified s = target_admitted s.
Proof.
  destruct (session_total L cs) as (log & s & Hs & Ht & Hinv & _). exists log, s. split; [done|].
  pose proof (delivery_told log s Ht) as [Hends Hopen Hadm _ _].
  destruct Hinv as [(Hpa & Hra & _ & Hh) Hta Hv _].
  assert (∀ e, e ∈ log → is_admission e = true → phase s = D_TargetAdmitted) as Hphase.
  { intros e He Hi. destruct (base.decide (phase s = D_TargetAdmitted)) as [|Hne]; [done|].
    specialize (Hopen Hne). apply not_true_iff_false in Hopen. destruct Hopen. apply existsb_exists.
    exists e. split; [by apply list_elem_of_In|done]. }
  split; [|split; [|split; [|split_and!; try done]]].
  - intros cs1 env cs2 _. destruct (session_total L cs1) as (before & s0 & Hs0 & _). exists before, s0.
    split; [done|by apply receipt_handed_in].
  - intros before n after Hlog.
    assert (E_TargetReceiptAdmitted n ∈ log) as Hin by (rewrite Hlog; apply elem_of_app; right; by left).
    destruct (Hadm (Hphase _ Hin eq_refl)) as (b & e & Hb & Hnone & _).
    destruct (admitted_last before (E_TargetReceiptAdmitted n) after b e) as (-> & -> & <-); [congruence|done..|].
    split; [done|].
    destruct (session_split L cs log s b _ [] delivery_single Hs Hlog) as (cs1 & c & cs2 & s0 & -> & Hs0 & Hd).
    pose proof (session_told _ _ _ Hs0) as [Ht0 _].
    destruct c; simpl in Hd; repeat case_match; simplify_eq/=.
    apply admit_receipt_spec in Hd as ([= ->] & Hp & Hacc). split.
    + pose proof (tl_ends _ _ Ht0) as Hends0. by rewrite Hp in Hends0.
    + exists cs1, envelope, cs2, s0. split_and!; [done..|]. by apply (authentic_accepted _ _ _ Ht0).
  - intros before g k d after Hlog.
    destruct (trace_event L log s before _ after delivery_single Ht Hlog) as (s0 & c & Ht0 & Hd).
    pose proof (delivery_told before s0 Ht0) as [Hends0 _ _ _ _].
    pose proof (trace_inv L before s0 Ht0) as Hinv0.
    destruct (delivery_event before s0 c _ Hd Hinv0 Hends0) as (_ & _ & _ & _ & _ & Hdraft).
    by rewrite (Hdraft eq_refl) in Hends0.
  - rewrite Hta, bool_decide_eq_true. split.
    + intros Hp. destruct (Hadm Hp) as (b & e & -> & _ & He).
      destruct e as [| | | |n| | | | |]; try done. exists n. apply elem_of_app. right. by left.
    + intros [n Hn]. by eapply Hphase.
Qed.

End delivery.

(** ** One envelope, two deliveries

    The admitted nonces are those of one delivery, which ends with its admission: an
    envelope is admitted again by every other delivery bound to its grant and device. *)
Lemma envelope_replayed_elsewhere `{P256} g k d env :
  authentic [E_DeliveryBound g k d] env →
  ∃ s, session delivery_lifecycle
      [C_BindDelivery g k d; C_AuthorizeFederatedMessage; C_EnqueueFederatedMessage;
       C_RecordRelayDelivery; C_AdmitTargetReceipt env]
    = Some ([E_DeliveryBound g k d; E_MessageAuthorized; E_MessageQueued; E_RelayDeliveryRecorded;
             E_TargetReceiptAdmitted (nonce env)], s)
    ∧ target_admitted s = true.
Proof.
  intros (Hv & Hg & Hact & _). simpl in Hg.
  edestruct (receipt_handed_in [C_BindDelivery g k d; C_AuthorizeFederatedMessage; C_EnqueueFederatedMessage;
    C_RecordRelayDelivery] env) as [(_ & _ & Hs)|(Hno & _)]; [reflexivity|by eexists|].
  destruct Hno. split; [done|]. split_and!; [done..|].
  intros Hin. repeat (apply elem_of_cons in Hin as [Hin|Hin]; [done|]). by apply elem_of_nil in Hin.
Qed.

(** ** A retried draft

    [RetryFederatedDelivery] sets [source_authorized], whatever it retries: a draft
    that was canceled before the source ever authorized it is queued and delivered
    after a retry. *)
Lemma canceled_draft_bypasses_source `{P256} :
  (λ p : list (lc_event delivery_lifecycle) * lc_state delivery_lifecycle,
     (p.1, phase p.2, source_authorized p.2)) <$>
    session delivery_lifecycle
      [C_EnqueueFederatedMessage; C_CancelFederatedDelivery; C_RetryFederatedDelivery;
       C_EnqueueFederatedMessage; C_RecordRelayDelivery]
  = Some ([E_DeliveryCanceled; E_DeliveryRetried; E_MessageQueued; E_RelayDeliveryRecorded],
          D_Delivered, true).
Proof. reflexivity. Qed.

(** ** The signed metadata ([federated_envelope.rs]) *)

Record FederatedEnvelope := mkFederatedEnvelope {
  fe_source : AuthorityId;
  fe_target : AuthorityId;
  fe_actor : string;
  fe_kind : string;
  fe_payload_handles : gset string;
  fe_source_basis : string;
  fe_correlation : string;
  fe_nonce : Nonce;
  fe_timestamp : N; (* u64 *)
  fe_bridge_grant_id : BridgeGrantId;
  fe_signature : Signature;
  fe_signed_bytes : list N;
}.

(** [Metadata]: the borrowed fields, in the order they are written. *)
Record Metadata := mkMetadata {
  md_actor : string;
  md_bridge_grant_id : string;
  md_correlation : string;
  md_kind : string;
  md_nonce : string;
  md_payload_handles : gset string;
  md_source : AuthorityId;
  md_source_basis : string;
  md_target : AuthorityId;
  md_timestamp : N;
}.

Definition metadata (e : FederatedEnvelope) : Metadata :=
  mkMetadata (fe_actor e) (as_str (fe_bridge_grant_id e)) (fe_correlation e) (fe_kind e)
    (as_str (fe_nonce e)) (fe_payload_handles e) (fe_source e) (fe_source_basis e) (fe_target e)
    (fe_timestamp e).

(** [ciborium::into_writer] is third-party code. *)
Definition envelope_canonical_cbor (into_writer : Metadata → list N) (e : FederatedEnvelope) : list N :=
  into_writer (metadata e).

(** Under an encoding that distinguishes values, the bytes a source signs determine
    the whole envelope but the signature and the copy of the bytes. *)
Lemma canonical_cbor_binds (into_writer : Metadata → list N) `{!Inj (=) (=) into_writer} e1 e2 :
  envelope_canonical_cbor into_writer e1 = envelope_canonical_cbor into_writer e2 →
  fe_signature e1 = fe_signature e2 → fe_signed_bytes e1 = fe_signed_bytes e2 → e1 = e2.
Proof.
  intros Heq%(inj into_writer) ??. destruct e1, e2. unfold metadata in Heq. simpl in *.
  injection Heq as -> Hg -> -> Hn -> -> -> -> ->.
  repeat match goal with i : Id _ |- _ => destruct i end. simpl in *. by subst.
Qed.
