(* ===== verification/MachineExecution.v ===== *)
(** * Managed machine execution

    [crates/core/src/managed_machine_execution.rs]: one command that a home runs on
    a managed machine: exact profile selection, fenced worker epochs, evidence,
    retry, settlement within a spend reservation. *)

From S2P Require Import Prelude Ids Lifecycle.

Inductive ExecutionProfile := DurableWorkflow | IsolatedWorkspace | DedicatedCompute.

#[export] Instance ExecutionProfile_eq_dec : EqDecision ExecutionProfile.
Proof. solve_decision. Defined.

Inductive ExecutionCapability :=
| Chat | Schedule | HttpEffect | Document | Workspace | Process | Build | Test_ | Docker
| CustomNetwork | CustomKernel | StandingDaemon.

#[export] Instance ExecutionCapability_eq_dec : EqDecision ExecutionCapability.
Proof. solve_decision. Defined.

Definition capabilities_in_order : list ExecutionCapability :=
  [Chat; Schedule; HttpEffect; Document; Workspace; Process; Build; Test_; Docker; CustomNetwork;
   CustomKernel; StandingDaemon].

Definition capability_index (c : ExecutionCapability) : nat :=
  match c with
  | Chat => 0 | Schedule => 1 | HttpEffect => 2 | Document => 3 | Workspace => 4 | Process => 5
  | Build => 6 | Test_ => 7 | Docker => 8 | CustomNetwork => 9 | CustomKernel => 10
  | StandingDaemon => 11
  end.

#[export] Instance ExecutionCapability_countable : Countable ExecutionCapability.
Proof.
  by refine (inj_countable capability_index (λ n, capabilities_in_order !! n) _); intros [].
Defined.

Definition profile_capabilities (profile : ExecutionProfile) : gset ExecutionCapability :=
  match profile with
  | DurableWorkflow => {[Chat; Schedule; HttpEffect; Document]}
  | IsolatedWorkspace => {[Workspace; Process; Build; Test_]}
  | DedicatedCompute => {[Docker; CustomNetwork; CustomKernel; StandingDaemon]}
  end.

Record ExecutionResourceBounds := mkBounds {
  max_vcpus : N; (* u8 *)
  max_memory_mib : N; (* u32 *)
  max_disk_mib : N; (* u32 *)
  max_wall_seconds : N; (* u64 *)
  max_processes : N; (* u32 *)
  max_output_bytes : N; (* u64 *)
}.

Definition bounds_valid (b : ExecutionResourceBounds) : bool :=
  forallb (λ n, bool_decide (0 < n)%N)
    [max_vcpus b; max_memory_mib b; max_disk_mib b; max_wall_seconds b; max_processes b;
     max_output_bytes b].

Record ExecutionRequest := mkRequest {
  home_id : string;
  tenant_id : string;
  project_id : string;
  work_target_basis : string;
  command_id : string;
  payload_digest : string;
  req_profile : ExecutionProfile;
  required_capabilities : gset ExecutionCapability;
  req_credential_class : string;
  bounds : ExecutionResourceBounds;
}.

(** [!value.trim().is_empty() && !value.chars().any(char::is_control)] *)
Definition clean (value : string) : bool := negb (blank value) && negb (has_control (bytes_of value)).

Definition request_valid (r : ExecutionRequest) : bool :=
  forallb clean
    [home_id r; tenant_id r; project_id r; work_target_basis r; command_id r; payload_digest r;
     req_credential_class r]
  && negb (bool_decide (required_capabilities r = ∅)) && bounds_valid (bounds r).

Record WorkspaceAuthorization := mkAuthorization {
  reservation_id : string;
  reserved_nanos_usd : N; (* u64 *)
}.

Definition authorization_valid (a : WorkspaceAuthorization) : bool :=
  clean (reservation_id a) && bool_decide (0 < reserved_nanos_usd a)%N.

Record WorkerGrant := mkGrant {
  grant_profile : ExecutionProfile;
  grant_capabilities : gset ExecutionCapability;
  grant_credential_class : string;
  egress_bounded : bool;
  grant_epoch : N; (* u64 *)
}.

Record ExecutionUsage := mkUsage {
  usage_id : string;
  billable_nanos_usd : N; (* u64 *)
  cpu_millis : N;
  memory_mib_seconds : N;
  wall_millis : N;
}.

Definition usage_valid (u : ExecutionUsage) : bool :=
  clean (usage_id u) && bool_decide (0 < wall_millis u)%N.

Record ExecutionSettlement := mkSettlement {
  settlement_id : string;
  charged_nanos_usd : N; (* u64 *)
}.

Definition settlement_valid (s : ExecutionSettlement) : bool := clean (settlement_id s).

Inductive ExecutionPhase :=
| X_Init | X_Prepared | X_Acknowledged | X_Running | X_Retryable | X_Completed | X_Failed
| X_Canceled | X_Suspended.

#[export] Instance ExecutionPhase_eq_dec : EqDecision ExecutionPhase.
Proof. solve_decision. Defined.

Definition phase_terminal (p : ExecutionPhase) : bool :=
  match p with X_Completed | X_Failed | X_Canceled => true | _ => false end.

Record ManagedExecutionState := mkExecution {
  phase : ExecutionPhase;
  request : option ExecutionRequest;
  workspace_authorization : option WorkspaceAuthorization;
  acknowledged : bool;
  selected_profile : option ExecutionProfile;
  granted_capabilities : gset ExecutionCapability;
  active_epoch : option N;
  last_epoch : N; (* u64 *)
  observation_count : N; (* u64 *)
  last_evidence_ref : option string;
  last_error : option string;
  usage : option ExecutionUsage;
  settlement : option ExecutionSettlement;
  reservation_open : bool;
  suspended : bool;
  history_events : N; (* u64 *)
}.

#[export] Instance ManagedExecutionState_eta : Eta ManagedExecutionState := mkEta (λ s,
  mkExecution (phase s) (request s) (workspace_authorization s) (acknowledged s) (selected_profile s)
    (granted_capabilities s) (active_epoch s) (last_epoch s) (observation_count s)
    (last_evidence_ref s) (last_error s) (usage s) (settlement s) (reservation_open s) (suspended s)
    (history_events s)).

Definition execution_default : ManagedExecutionState :=
  mkExecution X_Init None None false None ∅ None 0 0 None None None None false false 0.

Inductive ManagedExecutionCommand :=
| C_Prepare (r : ExecutionRequest)
| C_AuthorizeWorkspace (a : WorkspaceAuthorization)
| C_Acknowledge
| C_Start (g : WorkerGrant)
| C_RecordObservation (epoch : N) (evidence_ref : string)
| C_WorkerLost (epoch : N) (why : string)
| C_Retry (g : WorkerGrant)
| C_Complete (epoch : N) (u : ExecutionUsage)
| C_Fail_ (epoch : N) (why : string)
| C_Settle (s : ExecutionSettlement)
| C_Cancel
| C_Suspend.

Inductive ManagedExecutionEvent :=
| E_ExecutionPrepared (r : ExecutionRequest)
| E_WorkspaceAuthorized (a : WorkspaceAuthorization)
| E_CommandAcknowledged
| E_WorkerStarted (g : WorkerGrant)
| E_ObservationRecorded (epoch : N) (evidence_ref : string)
| E_WorkerLost (epoch : N) (why : string)
| E_WorkerRetried (g : WorkerGrant)
| E_ExecutionCompleted (epoch : N) (u : ExecutionUsage)
| E_ExecutionFailed (epoch : N) (why : string)
| E_ExecutionSettled (s : ExecutionSettlement)
| E_ExecutionCanceled (stopped_epoch : option N)
| E_MachineSuspended (stopped_epoch : option N).

Definition request_of (state : ManagedExecutionState) : result Rejection ExecutionRequest :=
  ok_or (request state) (mkRejection "managed execution request is absent").

Definition grant_is_exact (r : ExecutionRequest) (g : WorkerGrant) : bool :=
  bool_decide (grant_profile g = req_profile r)
  && bool_decide (grant_capabilities g = required_capabilities r)
  && bool_decide (grant_credential_class g = req_credential_class r)
  && egress_bounded g
  && bool_decide (required_capabilities r ⊆ profile_capabilities (grant_profile g))
  && negb (bool_decide (grant_profile g = DedicatedCompute)).

(** The guard of the worker's reports: running, under this epoch. *)
Definition holds_epoch (state : ManagedExecutionState) (epoch : N) : bool :=
  bool_decide (phase state = X_Running) && bool_decide (active_epoch state = Some epoch).

Definition decide_complete (state : ManagedExecutionState) (epoch : N) (u : ExecutionUsage)
    : result Rejection (list ManagedExecutionEvent) :=
  let? request := request_of state in
  if negb (holds_epoch state epoch) then reject "complete: stale or inactive worker epoch"
  else if negb (usage_valid u) then reject "complete: valid bounded usage evidence required"
  else
    match req_profile request with
    | DurableWorkflow =>
        if negb (bool_decide (billable_nanos_usd u = 0%N))
        then reject "complete: included Durable workflow cannot create workspace charge"
        else Ok [E_ExecutionCompleted epoch u]
    | IsolatedWorkspace =>
        match workspace_authorization state with
        | None => reject "complete: workspace reservation is absent"
        | Some authorization =>
            if bool_decide (reserved_nanos_usd authorization < billable_nanos_usd u)%N
            then reject "complete: billable usage exceeds reservation"
            else Ok [E_ExecutionCompleted epoch u]
        end
    | DedicatedCompute => reject "complete: Dedicated compute is unavailable"
    end.

Definition decide_settle (state : ManagedExecutionState) (s : ExecutionSettlement)
    : result Rejection (list ManagedExecutionEvent) :=
  let? request := request_of state in
  if negb (bool_decide (phase state = X_Completed)) || bool_decide (is_Some (settlement state))
  then reject "settle: command is not completed or already settled"
  else if negb (settlement_valid s) then reject "settle: valid settlement identity required"
  else
    match usage state with
    | None => reject "settle: admitted usage is absent"
    | Some usage =>
        if negb (bool_decide (charged_nanos_usd s = billable_nanos_usd usage))
        then reject "settle: charge must equal admitted billable usage"
        else if bool_decide (req_profile request = DurableWorkflow)
                && negb (bool_decide (charged_nanos_usd s = 0%N))
        then reject "settle: Durable workflow is included"
        else
          match workspace_authorization state with
          | Some authorization =>
              if bool_decide (reserved_nanos_usd authorization < charged_nanos_usd s)%N
              then reject "settle: charge exceeds reservation"
              else Ok [E_ExecutionSettled s]
          | None => Ok [E_ExecutionSettled s]
          end
    end.

Definition decide_acknowledge (state : ManagedExecutionState)
    : result Rejection (list ManagedExecutionEvent) :=
  let? request := request_of state in
  if negb (bool_decide (phase state = X_Prepared)) then reject "acknowledge: command is not prepared"
  else if bool_decide (req_profile request = DedicatedCompute)
  then reject "acknowledge: Dedicated compute is unavailable"
  else if negb (bool_decide (required_capabilities request
                             ⊆ profile_capabilities (req_profile request)))
  then reject "acknowledge: requested profile cannot satisfy requirements"
  else if bool_decide (req_profile request = IsolatedWorkspace)
          && negb (bool_decide (is_Some (workspace_authorization state)))
  then reject "acknowledge: workspace policy and spend reservation required"
  else Ok [E_CommandAcknowledged].

Definition decide (state : ManagedExecutionState) (command : ManagedExecutionCommand)
    : result Rejection (list ManagedExecutionEvent) :=
  match command with
  | C_Prepare r =>
      if negb (bool_decide (phase state = X_Init)) then reject "prepare: command already exists"
      else if negb (request_valid r)
      then reject "prepare: request identities, requirements or bounds are invalid"
      else Ok [E_ExecutionPrepared r]
  | C_AuthorizeWorkspace a =>
      let? request := request_of state in
      if negb (bool_decide (phase state = X_Prepared))
         || negb (bool_decide (req_profile request = IsolatedWorkspace))
      then reject "authorizeWorkspace: command is not a prepared workspace request"
      else if bool_decide (is_Some (workspace_authorization state))
      then reject "authorizeWorkspace: workspace already authorized"
      else if negb (authorization_valid a)
      then reject "authorizeWorkspace: positive exact reservation required"
      else Ok [E_WorkspaceAuthorized a]
  | C_Acknowledge => decide_acknowledge state
  | C_Start g =>
      let? request := request_of state in
      if negb (bool_decide (phase state = X_Acknowledged)) || suspended state
      then reject "start: command is not acknowledged or Machine is suspended"
      else if negb (grant_is_exact request g)
      then reject "start: profile, capabilities, credential or egress grant is not exact"
      else if negb (bool_decide (grant_epoch g = 1%N)) || negb (bool_decide (last_epoch state = 0%N))
              || bool_decide (is_Some (active_epoch state))
      then reject "start: first worker must hold epoch 1"
      else Ok [E_WorkerStarted g]
  | C_RecordObservation epoch evidence_ref =>
      if negb (holds_epoch state epoch)
      then reject "recordObservation: stale or inactive worker epoch"
      else if negb (clean evidence_ref)
      then reject "recordObservation: valid evidence reference required"
      else Ok [E_ObservationRecorded epoch evidence_ref]
  | C_WorkerLost epoch why =>
      if negb (holds_epoch state epoch) then reject "workerLost: stale or inactive worker epoch"
      else if blank why then reject "workerLost: reason required"
      else Ok [E_WorkerLost epoch why]
  | C_Retry g =>
      let? request := request_of state in
      if negb (bool_decide (phase state = X_Retryable)) || suspended state
      then reject "retry: command is not retryable or Machine is suspended"
      else if negb (grant_is_exact request g)
      then reject "retry: profile, capabilities, credential or egress grant is not exact"
      else if negb (bool_decide (grant_epoch g = saturating_succ u64_max (last_epoch state)))
              || bool_decide (is_Some (active_epoch state))
      then reject "retry: worker epoch must advance exactly once"
      else Ok [E_WorkerRetried g]
  | C_Complete epoch u => decide_complete state epoch u
  | C_Fail_ epoch why =>
      if negb (holds_epoch state epoch) then reject "fail: stale or inactive worker epoch"
      else if blank why then reject "fail: reason required"
      else Ok [E_ExecutionFailed epoch why]
  | C_Settle s => decide_settle state s
  | C_Cancel =>
      match phase state with
      | X_Prepared | X_Acknowledged | X_Running | X_Retryable =>
          Ok [E_ExecutionCanceled (active_epoch state)]
      | _ => reject "cancel: command is not cancelable"
      end
  | C_Suspend =>
      if bool_decide (phase state = X_Init) || suspended state
      then reject "suspend: no active command or already suspended"
      else Ok [E_MachineSuspended (active_epoch state)]
  end.

Definition start_worker (next : ManagedExecutionState) (g : WorkerGrant) : ManagedExecutionState :=
  next <| phase := X_Running |> <| selected_profile := Some (grant_profile g) |>
       <| granted_capabilities := grant_capabilities g |> <| active_epoch := Some (grant_epoch g) |>
       <| last_epoch := grant_epoch g |> <| last_error := None |>.

Definition evolve_event (next : ManagedExecutionState) (event : ManagedExecutionEvent)
    : ManagedExecutionState :=
  match event with
  | E_ExecutionPrepared r => next <| phase := X_Prepared |> <| request := Some r |>
  | E_WorkspaceAuthorized a =>
      next <| workspace_authorization := Some a |> <| reservation_open := true |>
  | E_CommandAcknowledged => next <| phase := X_Acknowledged |> <| acknowledged := true |>
  | E_WorkerStarted g | E_WorkerRetried g => start_worker next g
  | E_ObservationRecorded _ evidence_ref =>
      next <| observation_count := saturating_succ u64_max (observation_count next) |>
           <| last_evidence_ref := Some evidence_ref |>
  | E_WorkerLost _ why =>
      next <| phase := X_Retryable |> <| active_epoch := None |> <| last_error := Some why |>
  | E_ExecutionCompleted _ u =>
      next <| phase := X_Completed |> <| active_epoch := None |> <| usage := Some u |>
  | E_ExecutionFailed _ why =>
      next <| phase := X_Failed |> <| active_epoch := None |> <| reservation_open := false |>
           <| last_error := Some why |>
  | E_ExecutionSettled s => next <| settlement := Some s |> <| reservation_open := false |>
  | E_ExecutionCanceled _ =>
      next <| phase := X_Canceled |> <| active_epoch := None |> <| reservation_open := false |>
  | E_MachineSuspended _ =>
      let next := next <| suspended := true |> <| active_epoch := None |> <| reservation_open := false |> in
      if negb (phase_terminal (phase next)) then next <| phase := X_Suspended |> else next
  end.

Definition evolve (state : ManagedExecutionState) (event : ManagedExecutionEvent)
    : ManagedExecutionState :=
  evolve_event (state <| history_events := saturating_succ u64_max (history_events state) |>) event.

Definition execution_lifecycle (encode : ManagedExecutionState → option string)
    (decode : string → option ManagedExecutionState) : Lifecycle := {|
  lc_state := ManagedExecutionState;
  lc_command := ManagedExecutionCommand;
  lc_event := ManagedExecutionEvent;
  lc_default := execution_default;
  KIND := "managed_machine_execution";
  lc_decide := decide;
  lc_evolve := λ s e, Some (evolve s e);
  lc_snapshot_codec := Some (serde_codec encode decode "managed_machine_execution" 1);
|}.

(** ** The fence

    What a worker's epoch guards, as its own machine: workers are numbered in order,
    one at a time, and only the one at work is heard. *)

Inductive fence := Waiting (last : N) | Working (epoch : N) | Over.

Inductive worker_act :=
| W_Start (epoch : N) | W_Report (epoch : N) | W_Lost (epoch : N) | W_Finish (epoch : N)
| W_Stop (epoch : option N).

Definition fence_step (f : fence) (a : worker_act) : option fence :=
  match f, a with
  | Waiting last, W_Start e =>
      if bool_decide (e = saturating_succ u64_max last) then Some (Working e) else None
  | Working e, W_Report e' => if bool_decide (e = e') then Some (Working e) else None
  | Working e, W_Lost e' => if bool_decide (e = e') then Some (Waiting e) else None
  | Working e, W_Finish e' => if bool_decide (e = e') then Some Over else None
  | Working e, W_Stop (Some e') => if bool_decide (e = e') then Some Over else None
  | Waiting _, W_Stop None | Over, W_Stop None => Some Over
  | _, _ => None
  end.

Definition worker_act_of (e : ManagedExecutionEvent) : option worker_act :=
  match e with
  | E_WorkerStarted g | E_WorkerRetried g => Some (W_Start (grant_epoch g))
  | E_ObservationRecorded e _ => Some (W_Report e)
  | E_WorkerLost e _ => Some (W_Lost e)
  | E_ExecutionCompleted e _ | E_ExecutionFailed e _ => Some (W_Finish e)
  | E_ExecutionCanceled e | E_MachineSuspended e => Some (W_Stop e)
  | _ => None
  end.

Definition fence_of (s : ManagedExecutionState) : fence :=
  match phase s with
  | X_Running => Working (last_epoch s)
  | X_Init | X_Prepared | X_Acknowledged | X_Retryable => Waiting (last_epoch s)
  | _ => Over
  end.

(** ** Invariant *)

(** What may be charged under the request. *)
Definition covered (s : ManagedExecutionState) (n : N) : Prop :=
  ∃ r, request s = Some r ∧
    match req_profile r with
    | DurableWorkflow => n = 0%N
    | IsolatedWorkspace => ∃ a, workspace_authorization s = Some a ∧ (n ≤ reserved_nanos_usd a)%N
    | DedicatedCompute => False
    end.

(** The worker has what the request asks for and nothing else. *)
Definition exact_worker (s : ManagedExecutionState) : Prop :=
  ∃ r, request s = Some r ∧ selected_profile s = Some (req_profile r)
    ∧ granted_capabilities s = required_capabilities r
    ∧ required_capabilities r ⊆ profile_capabilities (req_profile r) ∧ req_profile r ≠ DedicatedCompute.

Record execution_inv (s : ManagedExecutionState) : Prop := {
  xi_epoch : active_epoch s = if bool_decide (phase s = X_Running) then Some (last_epoch s) else None;
  xi_fresh : phase s = X_Init ∨ phase s = X_Prepared ∨ phase s = X_Acknowledged → last_epoch s = 0%N;
  xi_init : request s = None ↔ phase s = X_Init;
  xi_worker : last_epoch s ≠ 0%N → exact_worker s;
  xi_running : phase s = X_Running → last_epoch s ≠ 0%N;
  xi_usage : is_Some (usage s) ↔ phase s = X_Completed;
  xi_covered : ∀ u, usage s = Some u → covered s (billable_nanos_usd u);
  xi_settled : ∀ t, settlement s = Some t →
    ∃ u, usage s = Some u ∧ charged_nanos_usd t = billable_nanos_usd u;
}.

Record good_event (s : ManagedExecutionState) (e : ManagedExecutionEvent) : Prop := {
  ge_inv : execution_inv (evolve s e);
  ge_fence : foldM fence_step (fence_of s) (omap worker_act_of [e]) = Some (fence_of (evolve s e));
  ge_settled : ∀ t, settlement s = Some t → settlement (evolve s e) = Some t;
  ge_settles : ∀ t, e = E_ExecutionSettled t →
    settlement s = None ∧ settlement (evolve s e) = Some t;
  ge_request : ∀ r, request s = Some r → request (evolve s e) = Some r;
}.

Lemma request_of_ok s r : request_of s = Ok r ↔ request s = Some r.
Proof. unfold request_of, ok_or. destruct (request s); naive_solver. Qed.

Lemma holds_epoch_true s e : holds_epoch s e = true ↔ phase s = X_Running ∧ active_epoch s = Some e.
Proof. unfold holds_epoch. by rewrite andb_true_iff, !bool_decide_eq_true. Qed.

Lemma grant_is_exact_true r g :
  grant_is_exact r g = true ↔
    grant_profile g = req_profile r ∧ grant_capabilities g = required_capabilities r
    ∧ grant_credential_class g = req_credential_class r ∧ egress_bounded g = true
    ∧ required_capabilities r ⊆ profile_capabilities (grant_profile g)
    ∧ grant_profile g ≠ DedicatedCompute.
Proof.
  unfold grant_is_exact. rewrite !andb_true_iff, negb_true_iff, !bool_decide_eq_true, bool_decide_eq_false.
  tauto.
Qed.

(** A worker's report under the fence. *)
Lemma report_good s epoch e :
  execution_inv s → holds_epoch s epoch = true →
  match e with
  | E_ObservationRecorded e _ | E_WorkerLost e _ | E_ExecutionFailed e _ => e = epoch
  | E_ExecutionCompleted e u => e = epoch ∧ covered s (billable_nanos_usd u)
  | _ => False
  end → good_event s e.
Proof.
  intros [He Hf Hi Hw Hr Hu Hc Ht] [Hp Ha]%holds_epoch_true Hev.
  rewrite Hp in *. simpl in *. rewrite Ha in He. injection He as ->.
  assert (usage s = None) as Hun by (destruct (usage s); naive_solver).
  assert (settlement s = None) as Hsn.
  { destruct (settlement s) as [t|]; [|done]. destruct (Ht t eq_refl) as (u & ? & _). congruence. }
  destruct s as [ph rq wa ak sp gc ae le oc ev er us st ro su he]; simpl in *; subst.
  destruct e; try done; destruct_and?; subst; split; simpl; try done.
  all: try (unfold fence_of; simpl; by rewrite bool_decide_eq_true_2).
  all: split; simpl; try done; try (by intros [?|[?|?]]); try (by split; [intros [? [=]]|]);
    try (by rewrite Hi).
  by intros ? [= <-].
Qed.

(** A worker starts. *)
Lemma worker_good s g r e :
  execution_inv s → request s = Some r → grant_is_exact r g = true →
  fence_of s = Waiting (last_epoch s) → grant_epoch g = saturating_succ u64_max (last_epoch s) →
  e = E_WorkerStarted g ∨ e = E_WorkerRetried g → good_event s e.
Proof.
  intros [He Hf Hi Hw Hr Hu Hc Ht] Hreq Hg Hfence Hep Hev.
  apply grant_is_exact_true in Hg as (Hgp & Hgc & _ & _ & Hsub & Hded).
  assert (phase s ≠ X_Completed) as Hnc by (intros Hp; unfold fence_of in Hfence; by rewrite Hp in Hfence).
  assert (usage s = None) as Hun by (destruct (usage s) eqn:?; [destruct Hnc; apply Hu; eauto|done]).
  assert (settlement s = None) as Hsn.
  { destruct (settlement s) as [t|]; [|done]. destruct (Ht t eq_refl) as (u & ? & _). congruence. }
  assert (grant_epoch g ≠ 0%N) as Hne by (rewrite Hep; unfold saturating_succ, u64_max; lia).
  assert (evolve s e = start_worker (s <| history_events := saturating_succ u64_max (history_events s) |>) g)
    as Heq by (by destruct Hev as [-> | ->]).
  split; [|by destruct Hev as [-> | ->]; simpl; rewrite Hfence; simpl; rewrite bool_decide_eq_true_2| | |].
  - rewrite Heq. split; simpl; [done|by intros [?|[?|?]]|by rewrite Hreq| |done| |by rewrite Hun|by rewrite Hsn].
    + intros _. exists r. simpl. rewrite Hgp in *. by rewrite Hgc.
    + rewrite Hun. by split; [intros [? [=]]|].
  - rewrite Hsn. done.
  - by destruct Hev as [-> | ->].
  - by rewrite Heq.
Qed.

(** The command stops: no worker, no open reservation. *)
Lemma stop_good s e :
  execution_inv s → request s ≠ None → phase s ≠ X_Init →
  (e = E_MachineSuspended (active_epoch s)
   ∨ (e = E_ExecutionCanceled (active_epoch s) ∧ phase_terminal (phase s) = false)) → good_event s e.
Proof.
  intros [He Hf Hi Hw Hr Hu Hc Ht] Hreq Hni Hev.
  destruct s as [ph rq wa ak sp gc ae le oc ev er us st ro su he]; simpl in *.
  destruct Hev as [-> |[-> Hterm]]; destruct ph; simpl in *; try done; subst; simpl.
  all: split; simpl; try done; try (unfold fence_of; simpl; by rewrite ?bool_decide_eq_true_2).
  all: split; simpl; try done; try (by intros [?|[?|?]]); try (by rewrite Hi).
  all: by split; [intros Hs; apply Hu in Hs|].
Qed.

(** Steps before the worker. *)
Lemma prepared_good s e :
  execution_inv s → usage s = None → settlement s = None →
  (phase s = X_Init ∧ (∃ r, e = E_ExecutionPrepared r) ∧ request s = None)
  ∨ (phase s = X_Prepared ∧ ((∃ a, e = E_WorkspaceAuthorized a) ∨ e = E_CommandAcknowledged)) →
  good_event s e.
Proof.
  intros [He Hf Hi Hw Hr Hu Hc Ht] Hun Hsn Hev.
  destruct s as [ph rq wa ak sp gc ae le oc ev er us st ro su he]; simpl in *; subst.
  assert (le = 0%N) as -> by (apply Hf; naive_solver).
  destruct Hev as [(-> & [r ->] & ->)|[-> [[a ->]| ->]]]; split; simpl; try done.
  all: split; simpl; try done; try (by rewrite Hi); by split; [intros [? [=]]|].
Qed.

Lemma settle_good s t :
  execution_inv s → phase s = X_Completed → settlement s = None →
  (∃ u, usage s = Some u ∧ charged_nanos_usd t = billable_nanos_usd u) →
  good_event s (E_ExecutionSettled t).
Proof.
  intros [He Hf Hi Hw Hr Hu Hc Ht] Hp Hsn Ht'.
  destruct s as [ph rq wa ak sp gc ae le oc ev er us st ro su he]; simpl in *; subst.
  split; simpl; try done; [|by intros ? [= <-]]. split; simpl; try done. by intros ? [= <-].
Qed.

Lemma before_usage s :
  execution_inv s → phase s ≠ X_Completed → usage s = None ∧ settlement s = None.
Proof.
  intros Hinv Hp. assert (usage s = None) as Hu.
  { destruct (usage s) eqn:Hu; [|done]. destruct Hp. apply (xi_usage s Hinv). by rewrite Hu. }
  split; [done|]. destruct (settlement s) as [t|] eqn:Ht; [|done].
  destruct (xi_settled s Hinv t Ht) as (u & ? & _). congruence.
Qed.

Lemma decide_complete_ok s epoch u es :
  decide_complete s epoch u = Ok es →
  es = [E_ExecutionCompleted epoch u] ∧ holds_epoch s epoch = true ∧ covered s (billable_nanos_usd u).
Proof.
  unfold decide_complete. destruct (request_of s) as [r|] eqn:Hr; simpl; [|done].
  apply request_of_ok in Hr. intros Hd. repeat split_next Hd; simplify_eq; guards.
  all: split_and!; try done; eexists; split; [done|].
  all: match goal with Hp : req_profile _ = _ |- _ => rewrite Hp end; try done.
  eexists. split; [done|]. lia.
Qed.

Lemma decide_settle_ok s t es :
  decide_settle s t = Ok es →
  es = [E_ExecutionSettled t] ∧ phase s = X_Completed ∧ settlement s = None
  ∧ ∃ u, usage s = Some u ∧ charged_nanos_usd t = billable_nanos_usd u.
Proof.
  unfold decide_settle. destruct (request_of s) as [r|] eqn:Hr; simpl; [|done].
  intros Hd. repeat split_next Hd; simplify_eq; guards.
  all: split_and!; try done; [by apply eq_None_not_Some|eauto].
Qed.

Lemma decide_acknowledge_ok s es :
  decide_acknowledge s = Ok es → es = [E_CommandAcknowledged] ∧ phase s = X_Prepared.
Proof.
  unfold decide_acknowledge. destruct (request_of s) as [r|]; simpl; [|done].
  intros Hd. repeat split_next Hd; simplify_eq; by guards.
Qed.

Lemma execution_decide_good s c es :
  execution_inv s → decide s c = Ok es → ∃ e, es = [e] ∧ good_event s e.
Proof.
  intros Hinv Hd. destruct c as [r|a| |g|ep ev|ep why|g|ep u|ep why|t| |]; simpl in Hd.
  - repeat split_next Hd. simplify_eq. guards. eexists. split; [done|].
    destruct (before_usage s Hinv) as [? ?]; [congruence|]. apply prepared_good; try done. left.
    split_and!; [done|eauto|by apply (xi_init s Hinv)].
  - destruct (request_of s); simpl in Hd; [|done]. repeat split_next Hd. simplify_eq. guards.
    eexists. split; [done|]. destruct (before_usage s Hinv) as [? ?]; [congruence|].
    apply prepared_good; try done. right. eauto.
  - apply decide_acknowledge_ok in Hd as [-> Hp]. eexists. split; [done|].
    destruct (before_usage s Hinv) as [? ?]; [congruence|]. apply prepared_good; auto.
  - destruct (request_of s) as [r|] eqn:Hr; simpl in Hd; [|done]. apply request_of_ok in Hr.
    repeat split_next Hd. simplify_eq. guards. eexists. split; [done|].
    eapply worker_good; [done|exact Hr|done| | |by left].
    + unfold fence_of. by match goal with Hp : phase s = _ |- _ => rewrite Hp end.
    + match goal with H0 : last_epoch s = _, H1 : grant_epoch _ = _ |- _ => by rewrite H0, H1 end.
  - repeat split_next Hd. simplify_eq. guards. eexists. split; [done|]. by eapply report_good.
  - repeat split_next Hd. simplify_eq. guards. eexists. split; [done|]. by eapply report_good.
  - destruct (request_of s) as [r|] eqn:Hr; simpl in Hd; [|done]. apply request_of_ok in Hr.
    repeat split_next Hd. simplify_eq. guards. eexists. split; [done|].
    eapply worker_good; [done|exact Hr|done| |done|by right].
    unfold fence_of. by match goal with Hp : phase s = _ |- _ => rewrite Hp end.
  - apply decide_complete_ok in Hd as (-> & Hh & Hc). eexists. split; [done|]. by eapply report_good.
  - repeat split_next Hd. simplify_eq. guards. eexists. split; [done|]. by eapply report_good.
  - apply decide_settle_ok in Hd as (-> & Hp & Hs & Ht). eexists. split; [done|]. by apply settle_good.
  - pose proof (xi_init s Hinv) as Hi. destruct (phase s) eqn:Hp; simplify_eq; eexists; (split; [done|]);
      apply stop_good; rewrite ?Hp; try done; rewrite ?Hi; auto.
  - repeat split_next Hd. simplify_eq. guards. eexists. split; [done|]. apply stop_good; try done; auto.
    by rewrite (xi_init s Hinv).
Qed.

Section execution.
Context (encode : ManagedExecutionState → option string)
        (decode : string → option ManagedExecutionState).
Abbreviation L := (execution_lifecycle encode decode).

#[global] Instance execution_safe : LifecycleSafe L.
Proof.
  refine {| lc_inv := (execution_inv : lc_state L → Prop) |}.
  - split; simpl; try done.
  - apply total_lifecycle_safe with evolve; [done|]. intros s c es Hinv Hd.
    destruct (execution_decide_good s c es Hinv Hd) as (e & -> & [Hi _ _ _ _]). done.
Defined.

Lemma execution_admitted log s c es s' :
  trace L log s → apply L s c = Applied es s' → ∃ e, es = [e] ∧ good_event s e ∧ s' = evolve s e.
Proof.
  intros Ht [Hd He]%apply_admitted. pose proof (trace_inv L log s Ht) as Hinv.
  destruct (execution_decide_good s c es Hinv Hd) as (e & -> & Hg). exists e.
  split_and!; [done|done|]. simpl in He. by injection He as <-.
Qed.

Lemma trace_fence log s :
  trace L log s → foldM fence_step (Waiting 0) (omap worker_act_of log) = Some (fence_of s).
Proof.
  induction 1 as [|log s c es s' Ht IH Ha]; [done|].
  destruct (execution_admitted _ _ _ _ _ Ht Ha) as (e & -> & Hg & ->).
  rewrite omap_app, foldM_app, IH. simpl. apply (ge_fence _ _ Hg).
Qed.

(** What the log settled is what the state has settled, and no more. *)
Lemma trace_settled log s :
  trace L log s →
  omap (λ e, match e with E_ExecutionSettled t => Some t | _ => None end) log
  = match settlement s with Some t => [t] | None => [] end.
Proof.
  induction 1 as [|log s c es s' Ht IH Ha]; [done|].
  destruct (execution_admitted _ _ _ _ _ Ht Ha) as (e & -> & [_ _ Hkeep Hset _] & ->).
  rewrite omap_app, IH.
  destruct e as [| | | | | | | | |t| |]; simpl; rewrite ?app_nil_r; try (by destruct s as [? ? ? ? ? ? ? ? ? ? ? ? []]).
  - destruct (Hset t eq_refl) as [-> _]. done.
  - by destruct (negb _).
Qed.

(** C22: workers are fenced. Whatever commands arrive, in whatever order, the worker
    events of the log are a run of the fence: workers hold the epochs 1, 2, 3, ...,
    one at a time, a new one only after the previous was lost, and observations,
    losses, failures and completions are recorded only from the worker that holds
    the current epoch; after completion, failure, cancellation or suspension no
    worker is heard again. A machine that started a worker gave it exactly the
    profile and capabilities of the request, never a dedicated machine. *)
Theorem execution_fenced (cs : list ManagedExecutionCommand) :
  ∃ log s, session L cs = Some (log, s)
    ∧ foldM fence_step (Waiting 0) (omap worker_act_of log) = Some (fence_of s)
    ∧ active_epoch s = match fence_of s with Working e => Some e | _ => None end
    ∧ (last_epoch s ≠ 0%N → exact_worker s).
Proof.
  destruct (session_total L cs) as (log & s & Hs & Ht & Hinv & _). exists log, s.
  split_and!; [done|by apply trace_fence| |by apply (xi_worker s Hinv)].
  rewrite (xi_epoch s Hinv). unfold fence_of. by destruct (phase s).
Qed.

(** Spending is bounded by what was reserved. In any session a command is settled at
    most once, the charge is the usage admitted at completion, and that usage is
    nothing for an included workflow and within the reservation the workspace was
    authorized with, for a workspace; there is no other kind of charge. *)
Theorem execution_spend_bounded (cs : list ManagedExecutionCommand) :
  ∃ log s, session L cs = Some (log, s)
    ∧ omap (λ e, match e with E_ExecutionSettled t => Some t | _ => None end) log
      = match settlement s with Some t => [t] | None => [] end
    ∧ ∀ t, settlement s = Some t → ∃ r u, request s = Some r ∧ usage s = Some u
        ∧ charged_nanos_usd t = billable_nanos_usd u
        ∧ (req_profile r = DurableWorkflow ∧ charged_nanos_usd t = 0%N
           ∨ req_profile r = IsolatedWorkspace ∧ ∃ a, workspace_authorization s = Some a
               ∧ (charged_nanos_usd t ≤ reserved_nanos_usd a)%N).
Proof.
  destruct (session_total L cs) as (log & s & Hs & Ht & Hinv & _). exists log, s.
  split_and!; [done|by apply trace_settled|]. intros t Hset.
  destruct (xi_settled s Hinv t Hset) as (u & Hu & ->).
  destruct (xi_covered s Hinv u Hu) as (r & Hr & Hc). exists r, u. split_and!; try done.
  destruct (req_profile r); [by left|right|done]. done.
Qed.
End execution.
