(* ===== verification/Recovery.v ===== *)
(** * Recovery codes

    [crates/core/src/recovery.rs]: the root key's seed as a transcribable code with
    a checksum, and back. Signing keys and hexadecimal text are third-party code
    ([p256], [hex]): their operations and documented laws are classes. *)

From Stdlib Require Import Ascii String.
From S2P Require Import Prelude Ids.

Class SeedKeys := {
  SigningKey : Type;
  to_seed_bytes : SigningKey → list N;
  from_seed : list N → option SigningKey;
}.

Definition is_byte (b : N) : Prop := (b < 256)%N.

(** A key's seed is 32 bytes and gives the key back. *)
Class SeedKeyLaws `(SeedKeys) := {
  seed_length : ∀ k, length (to_seed_bytes k) = 32;
  seed_bytes : ∀ k, Forall is_byte (to_seed_bytes k);
  seed_restores : ∀ k, from_seed (to_seed_bytes k) = Some k;
}.

(** [char::is_ascii_hexdigit] *)
Definition is_ascii_hexdigit (c : ascii) : bool :=
  let n := N_of_ascii c in
  (bool_decide (48 ≤ n ≤ 57) || bool_decide (65 ≤ n ≤ 70) || bool_decide (97 ≤ n ≤ 102))%N.

Fixpoint string_filter (f : ascii → bool) (s : string) : string :=
  match s with
  | EmptyString => EmptyString
  | String c s => if f c then String c (string_filter f s) else string_filter f s
  end.

Class Hex := {
  encode_upper : list N → string;
  hex_decode : string → option (list N);
}.

(** Encoding emits hexadecimal digits only, and decoding inverts it. *)
Class HexLaws `(Hex) := {
  encode_digits : ∀ bs, Forall is_byte bs →
    string_filter is_ascii_hexdigit (encode_upper bs) = encode_upper bs;
  decode_encode : ∀ bs, Forall is_byte bs → hex_decode (encode_upper bs) = Some bs;
}.

Definition SEED_LEN : nat := 32.

Inductive RecoveryError := Malformed | BadChecksum | BadSeed.

(** One round of FNV-1a on [u32]. *)
Definition fnv_round (h b : N) : N := (N.lxor h b * 16777619 mod 4294967296)%N.

Definition fnv (bytes : list N) : N := fold_left fnv_round bytes 2166136261%N.

Definition checksum (bytes : list N) : list N :=
  let h := fnv bytes in [(N.shiftr h 8 mod 256)%N; (h mod 256)%N].

(** [as_bytes().chunks(4)], each chunk a string again: the text is ASCII. *)
Fixpoint chunks4 (s : string) : list string :=
  match s with
  | EmptyString => []
  | String a (String b (String c (String d rest))) =>
      String a (String b (String c (String d EmptyString))) :: chunks4 rest
  | s => [s]
  end.

Definition export_recovery `{SeedKeys, Hex} (key : SigningKey) : string :=
  let seed := to_seed_bytes key in
  String.concat "-" (chunks4 (encode_upper (seed ++ checksum seed))).

Definition import_recovery `{SeedKeys, Hex} (code : string) : result RecoveryError SigningKey :=
  let cleaned := string_filter is_ascii_hexdigit code in
  let? bytes := ok_or (hex_decode cleaned) Malformed in
  if negb (bool_decide (length bytes = SEED_LEN + 2)) then Err Malformed
  else
    let seed := take SEED_LEN bytes in
    let sum := drop SEED_LEN bytes in
    if negb (bool_decide (checksum seed = sum)) then Err BadChecksum
    else ok_or (from_seed seed) BadSeed.

(** ** Formatting noise *)

Lemma string_filter_app f s t : string_filter f (s +:+ t) = string_filter f s +:+ string_filter f t.
Proof.
  induction s as [|c s IH]; simpl; [done|]. destruct (f c); [|done]. simpl. by rewrite IH.
Qed.

Lemma filter_concat_chunks s :
  string_filter is_ascii_hexdigit (String.concat "-" (chunks4 s)) = string_filter is_ascii_hexdigit s.
Proof.
  assert (∀ n s, String.length s ≤ n →
    string_filter is_ascii_hexdigit (String.concat "-" (chunks4 s)) = string_filter is_ascii_hexdigit s) as Hn.
  2: by eapply Hn.
  clear s. induction n as [|n IH]; intros s Hlen; [by destruct s; simpl in Hlen; [|lia]|].
  destruct s as [|a [|b [|c [|d rest]]]]; try done.
  specialize (IH rest ltac:(simpl in Hlen; lia)). simpl chunks4.
  destruct (chunks4 rest) as [|x l] eqn:Hc.
  - simpl in IH. simpl. by rewrite <- IH.
  - change (String.concat "-" (?y :: x :: l)) with (y +:+ "-" +:+ String.concat "-" (x :: l)).
    rewrite !string_filter_app, IH. simpl. by repeat case_match.
Qed.

(** ** The checksum *)

Definition low16 (h : N) : N := (h mod 65536)%N.

Lemma low16_lxor h b : is_byte b → N.lxor (low16 h) b = low16 (N.lxor h b).
Proof.
  unfold is_byte, low16. intros Hb. change 65536%N with (2 ^ 16)%N. rewrite <- !N.land_ones.
  apply N.bits_inj. intros i. rewrite N.land_spec, !N.lxor_spec, N.land_spec.
  destruct (N.lt_ge_cases i 16) as [Hi|Hi].
  - rewrite N.ones_spec_low by done. by rewrite !andb_true_r.
  - rewrite N.ones_spec_high by done. rewrite !andb_false_r. simpl.
    apply N.bits_above_log2. destruct (N.eq_dec b 0) as [->|Hne]; [simpl; lia|].
    apply N.log2_lt_pow2; [lia|]. eapply N.lt_le_trans; [exact Hb|].
    change 256%N with (2 ^ 8)%N. apply N.pow_le_mono_r; lia.
Qed.

Lemma low16_round h b : is_byte b → low16 (fnv_round h b) = (low16 (N.lxor h b) * 403 mod 65536)%N.
Proof.
  intros _. unfold low16, fnv_round. generalize (N.lxor h b). intros x.
  zify. Z.to_euclidean_division_equations. lia.
Qed.

(** 403 has an inverse modulo 65536. *)
Lemma round_inj x y :
  (x < 65536 → y < 65536 → x * 403 mod 65536 = y * 403 mod 65536 → x = y)%N.
Proof.
  intros Hx Hy Heq.
  assert (∀ x, x < 65536 → (x * 403 mod 65536) * 17563 mod 65536 = x)%N as Hinv.
  { clear. intros x Hx. zify. Z.to_euclidean_division_equations. lia. }
  by rewrite <- (Hinv x Hx), <- (Hinv y Hy), Heq.
Qed.

Lemma low16_lt h : (low16 h < 65536)%N.
Proof. by apply N.mod_lt. Qed.

Lemma lxor_cancel x y b : N.lxor x b = N.lxor y b → x = y.
Proof.
  intros Heq. apply (f_equal (λ z, N.lxor z b)) in Heq.
  by rewrite !N.lxor_assoc, !N.lxor_nilpotent, !N.lxor_0_r in Heq.
Qed.

(** The round, on the low 16 bits, tells states and bytes apart. *)
Lemma low16_round_state h h' b :
  is_byte b → low16 (fnv_round h b) = low16 (fnv_round h' b) → low16 h = low16 h'.
Proof.
  intros Hb. rewrite !low16_round by done. intros Heq%round_inj; [|apply low16_lt..].
  rewrite <- !low16_lxor in Heq by done. by apply lxor_cancel in Heq.
Qed.

Lemma low16_round_byte h b b' :
  is_byte b → is_byte b' → low16 (fnv_round h b) = low16 (fnv_round h b') → b = b'.
Proof.
  intros Hb Hb'. rewrite !low16_round by done. intros Heq%round_inj; [|apply low16_lt..].
  rewrite <- !low16_lxor in Heq by done. rewrite !(N.lxor_comm (low16 h)) in Heq.
  by apply lxor_cancel in Heq.
Qed.

Lemma low16_fold bs h h' :
  Forall is_byte bs →
  low16 (fold_left fnv_round bs h) = low16 (fold_left fnv_round bs h') → low16 h = low16 h'.
Proof.
  intros Hbs. revert h h'. induction Hbs as [|b bs Hb _ IH]; simpl; intros h h'; [done|].
  intros Heq%IH. by eapply low16_round_state.
Qed.

Lemma checksum_low16 l l' : checksum l = checksum l' → low16 (fnv l) = low16 (fnv l').
Proof.
  unfold checksum, low16. intros [= H1 H2]. rewrite !N.shiftr_div_pow2 in H1.
  change (2 ^ 8)%N with 256%N in H1. generalize dependent (fnv l). generalize dependent (fnv l').
  intros x y H1 H2. zify. Z.to_euclidean_division_equations. lia.
Qed.

Lemma checksum_detects a x y b :
  Forall is_byte (x :: y :: b) → checksum (a ++ x :: b) = checksum (a ++ y :: b) → x = y.
Proof.
  intros Hbs Heq%checksum_low16. apply Forall_cons in Hbs as [Hx [Hy Hb]%Forall_cons].
  unfold fnv in Heq. rewrite !fold_left_app in Heq. simpl in Heq.
  apply low16_fold in Heq; [|done]. by eapply low16_round_byte.
Qed.

Lemma checksum_bytes l : Forall is_byte (checksum l) ∧ length (checksum l) = 2.
Proof. unfold checksum, is_byte. split; [|done]. repeat constructor; by apply N.mod_lt. Qed.

(** ** Properties *)

Section recovery.
Context `{SeedKeyLaws, HexLaws}.

(** Reading a code that carries the given bytes. *)
Lemma import_bytes code seed sum :
  hex_decode (string_filter is_ascii_hexdigit code) = Some (seed ++ sum) →
  length seed = SEED_LEN → length sum = 2 →
  import_recovery code
  = if bool_decide (checksum seed = sum) then ok_or (from_seed seed) BadSeed else Err BadChecksum.
Proof.
  intros Hd Hs Hsum. unfold import_recovery. rewrite Hd. simpl.
  rewrite length_app, Hs, Hsum. rewrite bool_decide_eq_true_2 by done. simpl.
  rewrite <- Hs, take_app_length, drop_app_length. by case_bool_decide.
Qed.

(** A recovery code restores the key it was exported from, whatever is mixed into it
    that is not a hexadecimal digit, and a typo never restores anything: a text whose
    digits give the code's bytes with one byte changed, in the seed or in the
    checksum, is refused for its checksum. *)
Theorem recovery_roundtrip (key : SigningKey) (code : string) :
  (string_filter is_ascii_hexdigit code = string_filter is_ascii_hexdigit (export_recovery key) →
     import_recovery code = Ok key)
  ∧ (∀ a x y b, to_seed_bytes key ++ checksum (to_seed_bytes key) = a ++ x :: b → is_byte y → x ≠ y →
       hex_decode (string_filter is_ascii_hexdigit code) = Some (a ++ y :: b) →
       import_recovery code = Err BadChecksum).
Proof.
  set (seed := to_seed_bytes key). pose proof (seed_length key : length seed = SEED_LEN) as Hlen.
  pose proof (seed_bytes key : Forall is_byte seed) as Hbytes.
  destruct (checksum_bytes seed) as [Hsb Hsl].
  assert (Forall is_byte (seed ++ checksum seed)) as Hall by by apply Forall_app.
  split.
  - unfold export_recovery. fold seed. rewrite filter_concat_chunks, encode_digits by done. intros Hc.
    erewrite import_bytes; [|by rewrite Hc, decode_encode|done|done].
    rewrite bool_decide_eq_true_2 by done. unfold seed. by rewrite seed_restores.
  - intros a x y b Heq Hy Hne Hd.
    assert (∀ k, checksum seed = k ++ x :: b → a = seed ++ k → import_recovery code = Err BadChecksum) as Hsum.
    { intros k Hk ->. rewrite <- app_assoc in Hd. rewrite (import_bytes _ _ _ Hd Hlen).
      - rewrite bool_decide_eq_false_2; [done|]. rewrite Hk. by intros [= ?]%(inj (app k)).
      - rewrite <- Hsl, Hk, !length_app. done. }
    apply app_eq_inv in Heq as [(k & Ha & Hk)|(k & Hseed & Hk)]; [|by apply (Hsum k)].
    destruct k as [|x' k]; simpl in Hk; [by apply (Hsum []); rewrite ?app_nil_r in *|].
    injection Hk as <- ->. rewrite app_comm_cons, app_assoc in Hd.
    rewrite (import_bytes _ _ _ Hd).
    + rewrite bool_decide_eq_false_2; [done|]. rewrite Ha. intros Heq. apply Hne. symmetry.
      eapply checksum_detects; [|exact Heq]. rewrite Ha in Hbytes. apply Forall_app in Hbytes as [_ Hbytes].
      apply Forall_cons in Hbytes as [??]. by repeat constructor.
    + rewrite <- Hlen, Ha, !length_app. done.
    + done.
Qed.
End recovery.

(** ** The laws can hold

    Hexadecimal text as it is usually written, and two keys. *)

Module SampleKeys.

Definition digit (n : N) : ascii := ascii_of_N (if bool_decide (n < 10)%N then 48 + n else 55 + n)%N.

Definition digit_value (c : ascii) : option N :=
  let n := N_of_ascii c in
  if bool_decide (48 ≤ n ≤ 57)%N then Some (n - 48)%N
  else if bool_decide (65 ≤ n ≤ 70)%N then Some (n - 55)%N
  else if bool_decide (97 ≤ n ≤ 102)%N then Some (n - 87)%N
  else None.

Fixpoint write (bs : list N) : string :=
  match bs with
  | [] => ""
  | b :: bs => String (digit (b / 16)) (String (digit (b mod 16)) (write bs))
  end.

Fixpoint read (s : string) : option (list N) :=
  match s with
  | EmptyString => Some []
  | String a (String b s) =>
      x ← digit_value a; y ← digit_value b; l ← read s; Some ((16 * x + y)%N :: l)
  | String _ EmptyString => None
  end.

#[export] Instance sample_hex : Hex := {| encode_upper := write; hex_decode := read |}.

Definition sample_seed (b : bool) : list N := replicate 32 (if b then 1%N else 0%N).

#[export] Instance sample_keys : SeedKeys := {|
  SigningKey := bool;
  to_seed_bytes := sample_seed;
  from_seed l := if bool_decide (l = sample_seed true) then Some true
                 else if bool_decide (l = sample_seed false) then Some false else None;
|}.

Lemma digit_ok n : (n < 16)%N → digit_value (digit n) = Some n ∧ is_ascii_hexdigit (digit n) = true.
Proof.
  intros Hn.
  assert (n = 0 ∨ n = 1 ∨ n = 2 ∨ n = 3 ∨ n = 4 ∨ n = 5 ∨ n = 6 ∨ n = 7 ∨ n = 8 ∨ n = 9 ∨ n = 10
          ∨ n = 11 ∨ n = 12 ∨ n = 13 ∨ n = 14 ∨ n = 15)%N as Hcases by lia.
  by repeat destruct Hcases as [->|Hcases]; [..|subst n].
Qed.

Lemma nibbles b : is_byte b → (b / 16 < 16)%N ∧ (b mod 16 < 16)%N ∧ (16 * (b / 16) + b mod 16)%N = b.
Proof. unfold is_byte. intros Hb. zify. Z.to_euclidean_division_equations. lia. Qed.

#[export] Instance sample_hex_laws : HexLaws sample_hex.
Proof.
  split; intros bs; induction 1 as [|b bs Hb _ IH]; [done| |done|]; simpl in *;
    destruct (nibbles b Hb) as (H1 & H2 & H3); destruct (digit_ok _ H1) as [Hv1 Hd1];
    destruct (digit_ok _ H2) as [Hv2 Hd2].
  - by rewrite Hd1, Hd2, IH.
  - rewrite Hv1, Hv2. simpl. rewrite IH. simpl. by rewrite H3.
Qed.

#[export] Instance sample_key_laws : SeedKeyLaws sample_keys.
Proof.
  split; intros []; simpl; try done.
  all: by apply Forall_replicate.
Qed.

End SampleKeys.

Import SampleKeys.

(** A code with spaces around it restores its key; with a digit of the seed changed,
    it does not. *)
Lemma recovery_roundtrip_witness :
  import_recovery (" " +:+ export_recovery (H := sample_keys) true +:+ " ") = Ok true
  ∧ import_recovery (H := sample_keys) ("00" +:+ String.substring 2 100 (export_recovery (H := sample_keys) true))
    = Err BadChecksum.
Proof.
  split.
  - apply (proj1 (recovery_roundtrip (H := sample_keys) true _)). vm_compute. reflexivity.
  - apply (proj2 (recovery_roundtrip (H := sample_keys) true _) [] 1%N 0%N
             (replicate 31 1%N ++ checksum (sample_seed true))); [done|done|done|].
    vm_compute. reflexivity.
Defined.
