(* ===== verification/RemoteCall.v ===== *)
(** * Remote capability calls

    [crates/core/src/remote_call.rs]: one call of a capability at another authority:
    the source authorizes and sends, the target admits and executes, the source
    admits the response. *)

From S2P Require Import Prelude Ids Lifecycle Federation Delivery.

Inductive CallPhase :=
| P_Init | P_Requested | P_Authorized | P_Sent | P_Accepted | P_Executing | P_Responded | P_Completed
| P_Failed | P_Canceled.

#[export] Instance CallPhase_eq_dec : EqDecision CallPhase.
Proof. solve_decision. Defined.
#[export] Instance FedAuthority_eq_dec : EqDecision FedAuthority.
Proof. solve_decision. Defined.

Record CallState := mkCall {
  phase : CallPhase;
  source_authorized : bool;
  routed : bool;
  target_admitted : bool;
  target_admission_by : FedAuthority;
  target_executed : bool;
  response_produced : bool;
  response_routed : bool;
  response_admitted : bool;
  response_admitted_by : FedAuthority;
  completed : bool;
  relay_has_payload_access : bool;
  retried : bool;
  retry_handles : gset string;
}.

#[export] Instance CallState_eta : Eta CallState := mkEta (λ s,
  mkCall (phase s) (source_authorized s) (routed s) (target_admitted s) (target_admission_by s)
    (target_executed s) (response_produced s) (response_routed s) (response_admitted s)
    (response_admitted_by s) (completed s) (relay_has_payload_access s) (retried s) (retry_handles s)).

Definition call_default : CallState :=
  mkCall P_Init false false false A_None false false false false A_None false false false original_handles.

Definition target_ready (s : CallState) : bool :=
  source_authorized s && target_admitted s && bool_decide (target_admission_by s = A_Target).

Inductive CallCommand :=
| C_RequestCall | C_SourceAuthorize | C_SendCall | C_TargetAdmit | C_TargetExecute | C_ProduceResponse
| C_RouteResponse | C_SourceAdmitResponse | C_CompleteCall | C_FailCall | C_CancelOrExpire | C_RetryCall.

Inductive CallEvent :=
| E_CallRequested | E_CallAuthorized | E_CallSent | E_TargetAccepted | E_TargetExecuted
| E_ResponseProduced | E_ResponseRouted | E_ResponseAdmitted | E_CallCompleted | E_CallFailed
| E_CallCanceled | E_CallRetried.

#[export] Instance CallEvent_eq_dec : EqDecision CallEvent.
Proof. solve_decision. Defined.

Definition decide (state : CallState) (command : CallCommand) : result Rejection (list CallEvent) :=
  match command with
  | C_RequestCall =>
      match phase state with
      | P_Init => Ok [E_CallRequested]
      | _ => reject "requestCall: a call already exists"
      end
  | C_SourceAuthorize =>
      match phase state with
      | P_Requested => Ok [E_CallAuthorized]
      | _ => reject "sourceAuthorize: not a requested call"
      end
  | C_SendCall =>
      match phase state with
      | P_Authorized => Ok [E_CallSent]
      | _ => reject "sendCall: not authorized"
      end
  | C_TargetAdmit =>
      if bool_decide (phase state = P_Sent) && routed state && source_authorized state
      then Ok [E_TargetAccepted]
      else reject "targetAdmit: needs a routed, source-authorized call"
  | C_TargetExecute =>
      if bool_decide (phase state = P_Accepted) && target_ready state then Ok [E_TargetExecuted]
      else reject "targetExecute: requires source authorization + target admission (INV-13)"
  | C_ProduceResponse =>
      if target_executed state && bool_decide (phase state = P_Executing) then Ok [E_ResponseProduced]
      else reject "produceResponse: target has not executed"
  | C_RouteResponse =>
      if response_produced state then Ok [E_ResponseRouted]
      else reject "routeResponse: no response produced"
  | C_SourceAdmitResponse =>
      if response_routed state then Ok [E_ResponseAdmitted]
      else reject "sourceAdmitResponse: no routed response to admit"
  | C_CompleteCall =>
      if bool_decide (phase state = P_Responded) && response_admitted state
         && bool_decide (response_admitted_by state = A_Source)
      then Ok [E_CallCompleted]
      else reject "completeCall: needs a source-admitted response (INV-4)"
  | C_FailCall =>
      match phase state with
      | P_Requested | P_Authorized | P_Sent | P_Accepted | P_Executing | P_Responded => Ok [E_CallFailed]
      | _ => reject "failCall: not in flight"
      end
  | C_CancelOrExpire =>
      match phase state with
      | P_Requested | P_Authorized | P_Sent | P_Accepted => Ok [E_CallCanceled]
      | _ => reject "cancelOrExpire: too late to cancel"
      end
  | C_RetryCall =>
      match phase state with
      | P_Failed | P_Canceled => Ok [E_CallRetried]
      | _ => reject "retryCall: not in a retryable terminal state"
      end
  end.

Definition evolve (s : CallState) (event : CallEvent) : CallState :=
  match event with
  | E_CallRequested => s <| phase := P_Requested |>
  | E_CallAuthorized => s <| phase := P_Authorized |> <| source_authorized := true |>
  | E_CallSent => s <| phase := P_Sent |> <| routed := true |>
  | E_TargetAccepted =>
      s <| phase := P_Accepted |> <| target_admitted := true |> <| target_admission_by := A_Target |>
  | E_TargetExecuted => s <| phase := P_Executing |> <| target_executed := true |>
  | E_ResponseProduced => s <| phase := P_Responded |> <| response_produced := true |>
  | E_ResponseRouted => s <| response_routed := true |>
  | E_ResponseAdmitted => s <| response_admitted := true |> <| response_admitted_by := A_Source |>
  | E_CallCompleted => s <| phase := P_Completed |> <| completed := true |>
  | E_CallFailed => s <| phase := P_Failed |>
  | E_CallCanceled => s <| phase := P_Canceled |>
  | E_CallRetried =>
      s <| phase := P_Requested |> <| source_authorized := false |> <| routed := false |>
        <| target_admitted := false |> <| target_admission_by := A_None |> <| target_executed := false |>
        <| response_produced := false |> <| response_routed := false |> <| response_admitted := false |>
        <| response_admitted_by := A_None |> <| completed := false |> <| retried := true |>
        <| retry_handles := original_handles |>
  end.

Definition call_lifecycle : Lifecycle := {|
  lc_state := CallState;
  lc_command := CallCommand;
  lc_event := CallEvent;
  lc_default := call_default;
  KIND := "remote_call";
  lc_decide := decide;
  lc_evolve := λ s e, Some (evolve s e);
  lc_snapshot_codec := None;
|}.

(** ** The course of a call *)

Definition chain : list CallEvent :=
  [E_CallAuthorized; E_CallSent; E_TargetAccepted; E_TargetExecuted; E_ResponseProduced; E_CallCompleted].

(** The steps taken since the call was last requested or retried. *)
Definition course (log : list CallEvent) : list CallEvent :=
  fold_left (λ done_ e, if bool_decide (e = E_CallRequested ∨ e = E_CallRetried) then []
                        else if bool_decide (e ∈ chain) then done_ ++ [e] else done_) log [].

Definition stage_phase (n : nat) : CallPhase :=
  match n with
  | 0 => P_Requested | 1 => P_Authorized | 2 => P_Sent | 3 => P_Accepted | 4 => P_Executing
  | 5 => P_Responded | _ => P_Completed
  end.

(** The call took [n] steps of the chain. *)
Record at_stage (n : nat) (s : CallState) : Prop := {
  as_le : n ≤ 6;
  as_phase : phase s = stage_phase n ∨ (n < 6 ∧ phase s ∈ [P_Failed; P_Canceled])
             ∨ (n = 0 ∧ phase s = P_Init);
  as_flags : [source_authorized s; routed s; target_admitted s; target_executed s; response_produced s;
              completed s] = replicate n true ++ replicate (6 - n) false;
  as_by : target_admission_by s = if bool_decide (3 ≤ n) then A_Target else A_None;
  as_routed : response_routed s = true → 5 ≤ n;
  as_admitted : response_admitted s = true → response_routed s = true;
  as_admitted_by : response_admitted_by s = if response_admitted s then A_Source else A_None;
  as_done : n = 6 → response_admitted s = true;
  as_relay : relay_has_payload_access s = false ∧ retry_handles s = original_handles;
}.

Lemma course_snoc log e :
  course (log ++ [e]) = if bool_decide (e = E_CallRequested ∨ e = E_CallRetried) then []
                        else if bool_decide (e ∈ chain) then course log ++ [e] else course log.
Proof. unfold course. by rewrite fold_left_app. Qed.

Ltac stage n := exists n; split_and!; [done|constructor; simpl in *|done];
  first [done|lia|by left|by right; right|by right; left; split; [lia|set_solver]|by split
        |by intros; auto with lia].

Lemma call_step s c es n log :
  decide s c = Ok es → at_stage n s → course log = take n chain →
  ∃ e m, es = [e] ∧ at_stage m (evolve s e) ∧ course (log ++ [e]) = take m chain.
Proof.
  intros Hd Hn Hlog. destruct s as [p sa ro ta tb te rp rr ra rb cm rl rt rh].
  destruct Hn as [Hle Hp Hf Hb Hr Ha Hab Hdn [Hrl Hrh]]; simpl in *; subst.
  assert (p = stage_phase n ∨ (n < 6 ∧ (p = P_Failed ∨ p = P_Canceled)) ∨ (n = 0 ∧ p = P_Init)) as Hp'
    by set_solver.
  clear Hp.
  assert (n = 0 ∨ n = 1 ∨ n = 2 ∨ n = 3 ∨ n = 4 ∨ n = 5 ∨ n = 6) as Hn by lia.
  destruct_or! Hn; subst n; simpl in *; simplify_eq.
  all: destruct_or! Hp'; destruct_and?; destruct_or?; subst; try lia.
  all: destruct c; simpl in Hd; try discriminate Hd.
  all: repeat split_next Hd; simplify_eq.
  all: match goal with
       | |- ∃ e m, [?e'] = _ ∧ _ => exists e'
       end.
  all: rewrite course_snoc, Hlog; simpl.
  all: try first [stage 0|stage 1|stage 2|stage 3|stage 4|stage 5|stage 6].
  destruct ra; [|done]. stage 6.
Qed.

#[export] Instance call_safe : LifecycleSafe call_lifecycle.
Proof.
  refine {| lc_inv := (λ s, ∃ n, at_stage n s) : lc_state call_lifecycle → Prop |}.
  - exists 0. split; simpl; try done; [lia|by right; right].
  - apply total_lifecycle_safe with evolve; [done|]. intros s c es [n Hn] Hd.
    assert (∃ log, course log = take n chain) as [log Hlog].
    { exists (take n chain). pose proof (as_le n s Hn).
      assert (n = 0 ∨ n = 1 ∨ n = 2 ∨ n = 3 ∨ n = 4 ∨ n = 5 ∨ n = 6) as Hc by lia.
      by destruct_or! Hc; subst n. }
    destruct (call_step s c es n log Hd Hn Hlog) as (e & m & -> & Hm & _). by exists m.
Defined.

Lemma call_course log s :
  trace call_lifecycle log s → ∃ n, at_stage n s ∧ course log = take n chain.
Proof.
  induction 1 as [|log s c es s' Ht (n & Hn & Hlog) Ha].
  - exists 0. split; [|done]. split; simpl; try done; [lia|by right; right].
  - apply apply_admitted in Ha as [Hd He]. destruct (call_step s c es n log Hd Hn Hlog) as (e & m & -> & Hm & Hlog').
    simpl in He. injection He as <-. by exists m.
Qed.

(** A call takes its steps in order. In any session, what happened since the call was
    last requested or retried is an initial part of: authorized by the source, sent,
    accepted by the target, executed, answered, completed; the state records exactly
    that part. So the target executes only what the source authorized and the target
    itself admitted, and a call completes only on a response that was routed and that
    the source admitted; the relay never reads the payload, and a retry keeps the
    original handles. *)
Theorem call_in_order (cs : list CallCommand) :
  ∃ log s n, session call_lifecycle cs = Some (log, s) ∧ course log = take n chain
    ∧ [source_authorized s; routed s; target_admitted s; target_executed s; response_produced s;
       completed s] = replicate n true ++ replicate (6 - n) false
    ∧ (target_executed s = true → target_admission_by s = A_Target)
    ∧ (completed s = true → response_routed s = true ∧ response_admitted s = true
         ∧ response_admitted_by s = A_Source)
    ∧ relay_has_payload_access s = false ∧ retry_handles s = original_handles.
Proof.
  destruct (session_total call_lifecycle cs) as (log & s & Hs & Ht & _).
  destruct (call_course log s Ht) as (n & [Hle _ Hf Hb _ Ha Hab Hdn [Hrl Hrh]] & Hlog). exists log, s, n.
  assert (n = 0 ∨ n = 1 ∨ n = 2 ∨ n = 3 ∨ n = 4 ∨ n = 5 ∨ n = 6) as Hn by lia.
  split_and!; try done.
  - intros He. destruct_or! Hn; subst n; simpl in Hf; simplify_eq; try congruence; done.
  - intros Hc. assert (n = 6) as -> by (destruct_or! Hn; subst n; simpl in Hf; simplify_eq; congruence).
    specialize (Hdn eq_refl). rewrite Hdn in *. auto.
Qed.
