(* ===== verification/RemoteSession.v ===== *)
(** * Remote harness sessions

    [crates/core/src/remote_session.rs]: one turn handed to a peer's harness, from
    the orchestrator's side. *)

From S2P Require Import Prelude Ids Lifecycle Federation RemoteCall.

Inductive RemotePhase := P_Init | P_Dialed | P_Requested | P_Responded | P_Completed | P_Failed.

#[export] Instance RemotePhase_eq_dec : EqDecision RemotePhase.
Proof. solve_decision. Defined.

Record RemoteState := mkRemote {
  phase : RemotePhase;
  dialed : bool;
  request_sent : bool;
  response_received : bool;
  outcome_admitted : bool;
  outcome_admitted_by : FedAuthority;
  completed : bool;
  relay_has_payload_access : bool;
}.

#[export] Instance RemoteState_eta : Eta RemoteState := mkEta (λ s,
  mkRemote (phase s) (dialed s) (request_sent s) (response_received s) (outcome_admitted s)
    (outcome_admitted_by s) (completed s) (relay_has_payload_access s)).

Definition remote_default : RemoteState := mkRemote P_Init false false false false A_None false false.

Inductive RemoteCommand :=
| C_DialPeer | C_SendTurnRequest | C_ReceiveTurnResponse | C_SourceAdmitOutcome | C_CompleteSession
| C_FailSession.

Inductive RemoteEvent :=
| E_PeerDialed | E_TurnRequested | E_TurnResponded | E_OutcomeAdmitted | E_SessionCompleted
| E_SessionFailed.

#[export] Instance RemoteEvent_eq_dec : EqDecision RemoteEvent.
Proof. solve_decision. Defined.

Definition decide (state : RemoteState) (command : RemoteCommand) : result Rejection (list RemoteEvent) :=
  match command with
  | C_DialPeer =>
      match phase state with
      | P_Init => Ok [E_PeerDialed]
      | _ => reject "dialPeer: peer already dialed"
      end
  | C_SendTurnRequest =>
      if bool_decide (phase state = P_Dialed) && dialed state then Ok [E_TurnRequested]
      else reject "sendTurnRequest: peer not dialed (REQUEST_REQUIRES_DIAL)"
  | C_ReceiveTurnResponse =>
      if bool_decide (phase state = P_Requested) && request_sent state then Ok [E_TurnResponded]
      else reject "receiveTurnResponse: no request in flight (RESPONSE_REQUIRES_REQUEST)"
  | C_SourceAdmitOutcome =>
      if response_received state then Ok [E_OutcomeAdmitted]
      else reject "sourceAdmitOutcome: no returned outcome to admit"
  | C_CompleteSession =>
      if bool_decide (phase state = P_Responded) && outcome_admitted state
         && bool_decide (outcome_admitted_by state = A_Source)
      then Ok [E_SessionCompleted]
      else reject "completeSession: needs a source-admitted outcome (INV-4)"
  | C_FailSession =>
      match phase state with
      | P_Dialed | P_Requested | P_Responded => Ok [E_SessionFailed]
      | _ => reject "failSession: not in flight"
      end
  end.

Definition evolve (s : RemoteState) (event : RemoteEvent) : RemoteState :=
  match event with
  | E_PeerDialed => s <| phase := P_Dialed |> <| dialed := true |>
  | E_TurnRequested => s <| phase := P_Requested |> <| request_sent := true |>
  | E_TurnResponded => s <| phase := P_Responded |> <| response_received := true |>
  | E_OutcomeAdmitted => s <| outcome_admitted := true |> <| outcome_admitted_by := A_Source |>
  | E_SessionCompleted => s <| phase := P_Completed |> <| completed := true |>
  | E_SessionFailed => s <| phase := P_Failed |>
  end.

Definition remote_lifecycle : Lifecycle := {|
  lc_state := RemoteState;
  lc_command := RemoteCommand;
  lc_event := RemoteEvent;
  lc_default := remote_default;
  KIND := "remote_session";
  lc_decide := decide;
  lc_evolve := λ s e, Some (evolve s e);
  lc_snapshot_codec := None;
|}.

(** ** The course of a session

    Everything but the source's admissions and a failure, which may come at different
    points. *)

Definition chain : list RemoteEvent := [E_PeerDialed; E_TurnRequested; E_TurnResponded; E_SessionCompleted].

Definition course (log : list RemoteEvent) : list RemoteEvent := filter (.∈ chain) log.

Record at_stage (n : nat) (s : RemoteState) : Prop := {
  as_le : n ≤ 4;
  as_phase : phase s = nth n [P_Init; P_Dialed; P_Requested; P_Responded; P_Completed] P_Failed
             ∨ (1 ≤ n ≤ 3 ∧ phase s = P_Failed);
  as_flags : [dialed s; request_sent s; response_received s; completed s]
             = replicate n true ++ replicate (4 - n) false;
  as_admitted : outcome_admitted s = true → 3 ≤ n;
  as_by : outcome_admitted_by s = if outcome_admitted s then A_Source else A_None;
  as_done : n = 4 → outcome_admitted s = true;
  as_relay : relay_has_payload_access s = false;
}.

Ltac stage n := exists n; split_and!; [done|constructor; simpl in *|done];
  first [done|lia|by left|by right; split; [lia|done]|by intros; auto with lia].

Lemma remote_step s c es n log :
  decide s c = Ok es → at_stage n s → course log = take n chain →
  ∃ e m, es = [e] ∧ at_stage m (evolve s e) ∧ course (log ++ [e]) = take m chain.
Proof.
  intros Hd Hn Hlog. destruct s as [p di rs rr oa ob cm rl].
  destruct Hn as [Hle Hp Hf Ha Hb Hdn Hrl]; simpl in *; subst.
  assert (n = 0 ∨ n = 1 ∨ n = 2 ∨ n = 3 ∨ n = 4) as Hn by lia.
  destruct_or! Hn; subst n; simpl in *; simplify_eq.
  all: destruct_or! Hp; destruct_and?; subst; try lia.
  all: destruct c; simpl in Hd; try discriminate Hd; repeat split_next Hd; simplify_eq.
  all: match goal with |- ∃ e m, [?e'] = _ ∧ _ => exists e' end.
  all: unfold course in *; rewrite filter_app, Hlog; simpl.
  all: try first [stage 0|stage 1|stage 2|stage 3|stage 4].
  destruct oa; [|done]. stage 4.
Qed.

Lemma remote_course log s :
  trace remote_lifecycle log s → ∃ n, at_stage n s ∧ course log = take n chain.
Proof.
  induction 1 as [|log s c es s' Ht (n & Hn & Hlog) Ha].
  - exists 0. split; [|done]. split; simpl; try done; [lia|by left].
  - apply apply_admitted in Ha as [Hd He].
    destruct (remote_step s c es n log Hd Hn Hlog) as (e & m & -> & Hm & Hlog').
    simpl in He. injection He as <-. by exists m.
Qed.

#[export] Instance remote_safe : LifecycleSafe remote_lifecycle.
Proof.
  refine {| lc_inv := (λ s, ∃ n, at_stage n s) : lc_state remote_lifecycle → Prop |}.
  - exists 0. split; simpl; try done; [lia|by left].
  - apply total_lifecycle_safe with evolve; [done|]. intros s c es [n Hn] Hd.
    assert (∃ log, course log = take n chain) as [log Hlog].
    { exists (take n chain). pose proof (as_le n s Hn).
      assert (n = 0 ∨ n = 1 ∨ n = 2 ∨ n = 3 ∨ n = 4) as Hc by lia. by destruct_or! Hc; subst n. }
    destruct (remote_step s c es n log Hd Hn Hlog) as (e & m & -> & Hm & _). by exists m.
Defined.

(** A turn is dialed, requested, answered and completed in this order, each at most
    once, and it is completed only with an outcome the source admitted. *)
Lemma remote_in_order (cs : list RemoteCommand) :
  ∃ log s n, session remote_lifecycle cs = Some (log, s) ∧ course log = take n chain
    ∧ (completed s = true → outcome_admitted s = true ∧ outcome_admitted_by s = A_Source)
    ∧ relay_has_payload_access s = false.
Proof.
  destruct (session_total remote_lifecycle cs) as (log & s & Hs & Ht & _).
  destruct (remote_course log s Ht) as (n & [Hle _ Hf _ Hb Hdn Hrl] & Hlog). exists log, s, n.
  split_and!; try done. intros Hc.
  assert (n = 0 ∨ n = 1 ∨ n = 2 ∨ n = 3 ∨ n = 4) as Hn by lia.
  assert (n = 4) as -> by (destruct_or! Hn; subst n; simpl in Hf; simplify_eq; congruence).
  specialize (Hdn eq_refl). by rewrite Hdn in *.
Qed.

(** A failed session still takes a transition: the source admits the outcome of a turn
    that was answered and then failed, and the state changes. *)
Lemma failed_session_moves :
  let answered := [C_DialPeer; C_SendTurnRequest; C_ReceiveTurnResponse; C_FailSession] in
  (λ p : list (lc_event remote_lifecycle) * lc_state remote_lifecycle, (phase p.2, outcome_admitted p.2))
    <$> session remote_lifecycle answered = Some (P_Failed, false)
  ∧ (λ p : list (lc_event remote_lifecycle) * lc_state remote_lifecycle, (phase p.2, outcome_admitted p.2))
    <$> session remote_lifecycle (answered ++ [C_SourceAdmitOutcome]) = Some (P_Failed, true).
Proof. done. Qed.
