(* ===== verification/RuntimeSession.v ===== *)
(** * Runtime sessions

    [crates/core/src/runtime_session.rs]: one execution attempt of a turn: materialize
    the prerequisites, prepare, execute, record observations, admit them, egress
    through the boundary, terminate. *)

From S2P Require Import Prelude Ids Lifecycle.

Inductive SessionPhase := P_Init | P_Prepared | P_Executing | P_Terminal.

#[export] Instance SessionPhase_eq_dec : EqDecision SessionPhase.
Proof. solve_decision. Defined.

Inductive AdmittedBy := By_None | By_Owner.

Record SessionState := mkSession {
  phase : SessionPhase;
  run_admitted : bool;
  boundary_active : bool;
  bases_granted : bool;
  prepared : bool;
  executing : bool;
  handle_resolved : bool;
  observation_produced : bool;
  observation_admitted : bool;
  observation_admitted_by : AdmittedBy;
  product_truth_has_observation : bool;
  egress_requested : bool;
  egress_mediated_by_boundary : bool;
  terminal : bool;
  evidence_present : bool;
}.

#[export] Instance SessionState_eta : Eta SessionState := mkEta (λ s,
  mkSession (phase s) (run_admitted s) (boundary_active s) (bases_granted s) (prepared s) (executing s)
    (handle_resolved s) (observation_produced s) (observation_admitted s) (observation_admitted_by s)
    (product_truth_has_observation s) (egress_requested s) (egress_mediated_by_boundary s) (terminal s)
    (evidence_present s)).

Definition session_default : SessionState :=
  mkSession P_Init false false false false false false false false By_None false false false false false.

Inductive SessionCommand :=
| C_AdmitRun | C_StartBoundarySession | C_GrantBases | C_PrepareRuntimeSession | C_StartRuntimeSession
| C_ResolveRuntimeHandle | C_RecordRuntimeObservation | C_OwnerAdmitObservation | C_RequestBoundaryEgress
| C_TerminalOutcome.

Inductive SessionEvent :=
| E_RunAdmitted | E_BoundarySessionStarted | E_BasesGranted | E_RuntimeSessionPrepared
| E_RuntimeSessionStarted | E_RuntimeHandleResolved | E_RuntimeObservationRecorded
| E_ObservationOwnerAdmitted | E_BoundaryEgressRequested | E_Terminated.

Definition decide (state : SessionState) (command : SessionCommand)
    : result Rejection (list SessionEvent) :=
  match command with
  | C_AdmitRun =>
      match phase state with
      | P_Init => Ok [E_RunAdmitted]
      | _ => reject "admitRun: session already past init"
      end
  | C_StartBoundarySession =>
      match phase state with
      | P_Init => Ok [E_BoundarySessionStarted]
      | _ => reject "startBoundarySession: session already past init"
      end
  | C_GrantBases =>
      match phase state with
      | P_Init => Ok [E_BasesGranted]
      | _ => reject "grantBases: session already past init"
      end
  | C_PrepareRuntimeSession =>
      if bool_decide (phase state = P_Init) && run_admitted state && boundary_active state
      then Ok [E_RuntimeSessionPrepared]
      else reject "prepare: needs an admitted run in an active boundary session"
  | C_StartRuntimeSession =>
      if bool_decide (phase state = P_Prepared) && run_admitted state && boundary_active state
      then Ok [E_RuntimeSessionStarted]
      else reject "start: not prepared with run + boundary (SESSION_REQUIRES_RUN_AND_BOUNDARY)"
  | C_ResolveRuntimeHandle =>
      if executing state && boundary_active state && bases_granted state
      then Ok [E_RuntimeHandleResolved]
      else reject "resolveHandle: needs execution + boundary + granted basis"
  | C_RecordRuntimeObservation =>
      if executing state then Ok [E_RuntimeObservationRecorded]
      else reject "recordObservation: only during execution"
  | C_OwnerAdmitObservation =>
      if observation_produced state then Ok [E_ObservationOwnerAdmitted]
      else reject "ownerAdmit: no observation to admit"
  | C_RequestBoundaryEgress =>
      if executing state && boundary_active state then Ok [E_BoundaryEgressRequested]
      else reject "egress: needs execution within an active boundary session"
  | C_TerminalOutcome =>
      match phase state with
      | P_Prepared | P_Executing => Ok [E_Terminated]
      | _ => reject "terminal: only from prepared/executing"
      end
  end.

Definition evolve (s : SessionState) (event : SessionEvent) : SessionState :=
  match event with
  | E_RunAdmitted => s <| run_admitted := true |>
  | E_BoundarySessionStarted => s <| boundary_active := true |>
  | E_BasesGranted => s <| bases_granted := true |>
  | E_RuntimeSessionPrepared =>
      s <| phase := P_Prepared |> <| prepared := true |> <| evidence_present := true |>
  | E_RuntimeSessionStarted =>
      s <| phase := P_Executing |> <| executing := true |> <| evidence_present := true |>
  | E_RuntimeHandleResolved => s <| handle_resolved := true |> <| evidence_present := true |>
  | E_RuntimeObservationRecorded => s <| observation_produced := true |> <| evidence_present := true |>
  | E_ObservationOwnerAdmitted =>
      s <| observation_admitted := true |> <| observation_admitted_by := By_Owner |>
        <| product_truth_has_observation := true |> <| evidence_present := true |>
  | E_BoundaryEgressRequested =>
      s <| egress_requested := true |> <| egress_mediated_by_boundary := boundary_active s |>
        <| evidence_present := true |>
  | E_Terminated => s <| phase := P_Terminal |> <| executing := false |> <| terminal := true |>
  end.

Definition runtime_lifecycle : Lifecycle := {|
  lc_state := SessionState;
  lc_command := SessionCommand;
  lc_event := SessionEvent;
  lc_default := session_default;
  KIND := "runtime_session";
  lc_decide := decide;
  lc_evolve := λ s e, Some (evolve s e);
  lc_snapshot_codec := None;
|}.

(** ** What the state guarantees *)

Record session_inv (s : SessionState) : Prop := {
  (** SESSION_REQUIRES_RUN_AND_BOUNDARY *)
  si_started : phase s ≠ P_Init → run_admitted s = true ∧ boundary_active s = true ∧ prepared s = true;
  si_executing : executing s = bool_decide (phase s = P_Executing);
  (** HANDLE_REQUIRES_BASIS_AND_BOUNDARY *)
  si_handle : handle_resolved s = true → boundary_active s = true ∧ bases_granted s = true
                ∧ run_admitted s = true;
  (** OBSERVATION_REQUIRES_OWNER_ADMISSION *)
  si_truth : product_truth_has_observation s = true →
    observation_produced s = true ∧ observation_admitted_by s = By_Owner;
  si_observed : observation_produced s = true → run_admitted s = true ∧ boundary_active s = true;
  (** EGRESS_REQUIRES_BOUNDARY *)
  si_egress : egress_requested s = true → egress_mediated_by_boundary s = true;
  (** TERMINAL_PRESERVES_EVIDENCE *)
  si_evidence : phase s ≠ P_Init → evidence_present s = true;
  si_terminal : terminal s = bool_decide (phase s = P_Terminal);
}.

Lemma session_step s c es :
  session_inv s → decide s c = Ok es →
  ∃ e, es = [e] ∧ session_inv (evolve s e)
    ∧ (phase s = P_Terminal → e = E_ObservationOwnerAdmitted)
    ∧ (evidence_present s = true → evidence_present (evolve s e) = true).
Proof.
  intros [H1 H2 H3 H4 H5 H6 H7 H8] Hd. destruct s as [p ra ba bg pr ex hr op oa ob pt eg em te ev].
  simpl in *; subst. destruct p; simpl in *.
  2-4: destruct (H1 ltac:(done)) as (-> & -> & ->).
  all: destruct c; simpl in Hd; try discriminate Hd; repeat split_next Hd; simplify_eq; guards; subst.
  all: eexists; (split; [done|]); split_and!; try done; split; simpl; auto; try done.
  all: intros; naive_solver.
Qed.

#[export] Instance runtime_safe : LifecycleSafe runtime_lifecycle.
Proof.
  refine {| lc_inv := session_inv : lc_state runtime_lifecycle → Prop |}; [by split|].
  apply total_lifecycle_safe with evolve; [done|]. intros s c es Hinv Hd.
  by destruct (session_step s c es Hinv Hd) as (e & -> & ? & _).
Defined.

(** Whatever is requested, a runtime session executes only an admitted run in an active
    boundary session, resolves handles only on granted bases, lets an observation into
    product truth only through the owner, and keeps its evidence. *)
Lemma runtime_session_safe (cs : list SessionCommand) :
  ∃ log s, session runtime_lifecycle cs = Some (log, s) ∧ session_inv s
    ∧ ∀ later log' s', drive runtime_lifecycle log s later = Some (log', s') →
        evidence_present s = true → evidence_present s' = true.
Proof.
  destruct (session_total runtime_lifecycle cs) as (log & s & Hs & Ht & Hinv & _). exists log, s.
  split_and!; [done|done|]. intros later log' s' Hd He.
  eapply (drive_preserves runtime_lifecycle (λ s, evidence_present s = true));
    [|exact Hinv|exact He|exact Hd].
  intros s1 c es s2 Hi1 He1 [Hd1 Hev]%apply_admitted.
  destruct (session_step s1 c es Hi1 Hd1) as (e & -> & _ & _ & Hk). simpl in Hev. injection Hev as <-. auto.
Qed.
