(* ===== verification/Enrollment.v ===== *)
(** * Device enrollment

    [crates/core/src/device_enrollment.rs]: a new device joins an account root over an
    untrusted relay; a holder of the root authorizes the subkey it confirmed out of
    band. *)

From S2P Require Import Prelude Ids Lifecycle.

Definition Subkey := string.
Definition Root := string.

Inductive EnrollmentPhase :=
| P_Draft | P_Requested | P_Challenged | P_Authorized | P_Enrolled | P_Rejected | P_Expired | P_Canceled.

#[export] Instance EnrollmentPhase_eq_dec : EqDecision EnrollmentPhase.
Proof. solve_decision. Defined.

Record Delegation := mkDelegation { del_subkey : Subkey; del_root : Root }.

Record Seal := mkSeal { target_subkey : Subkey; plaintext : bool }.

Record EnrollmentState := mkEnrollment {
  phase : EnrollmentPhase;
  account_root : Root;
  requested_subkey : Subkey;
  presented_subkey : Subkey;
  delegated_subkey : Subkey;
  enrolled : bool;
}.

#[export] Instance EnrollmentState_eta : Eta EnrollmentState := mkEta (λ s,
  mkEnrollment (phase s) (account_root s) (requested_subkey s) (presented_subkey s) (delegated_subkey s)
    (enrolled s)).

Definition enrollment_default : EnrollmentState := mkEnrollment P_Draft "" "" "" "" false.

Inductive EnrollmentCommand :=
| C_RequestEnrollment (account_root : Root) (new_subkey : Subkey)
| C_ChallengeEnrollment (presented_subkey : Subkey)
| C_AuthorizeEnrollment (delegation : Delegation) (seal : Seal)
| C_CompleteEnrollment
| C_RejectEnrollment
| C_ExpireEnrollment
| C_CancelEnrollment.

Inductive EnrollmentEvent :=
| E_EnrollmentRequested (account_root : Root) (new_subkey : Subkey)
| E_EnrollmentChallenged (presented_subkey : Subkey)
| E_EnrollmentAuthorized (delegated_subkey : Subkey)
| E_DeviceEnrolled
| E_EnrollmentRejected
| E_EnrollmentExpired
| E_EnrollmentCanceled.

Definition decide_authorize (state : EnrollmentState) (delegation : Delegation) (seal : Seal)
    : result Rejection (list EnrollmentEvent) :=
  if negb (bool_decide (phase state = P_Challenged))
  then reject "authorizeEnrollment: not in the challenged state"
  else if negb (bool_decide (presented_subkey state = requested_subkey state))
  then reject "authorizeEnrollment: SAS mismatch — the presented subkey is not the device's own (relay substitution); reject instead"
  else if negb (bool_decide (del_subkey delegation = presented_subkey state))
  then reject "authorizeEnrollment: delegation does not bind the confirmed subkey"
  else if negb (bool_decide (del_root delegation = account_root state))
  then reject "authorizeEnrollment: not a self-delegation by the account root"
  else if negb (bool_decide (target_subkey seal = del_subkey delegation)) || plaintext seal
  then reject "authorizeEnrollment: account key not sealed to the device subkey"
  else Ok [E_EnrollmentAuthorized (del_subkey delegation)].

Definition decide (state : EnrollmentState) (command : EnrollmentCommand)
    : result Rejection (list EnrollmentEvent) :=
  match command with
  | C_RequestEnrollment root subkey =>
      match phase state with
      | P_Draft => Ok [E_EnrollmentRequested root subkey]
      | _ => reject "requestEnrollment: a request already exists or is terminal"
      end
  | C_ChallengeEnrollment presented =>
      match phase state with
      | P_Requested => Ok [E_EnrollmentChallenged presented]
      | _ => reject "challengeEnrollment: no open request to challenge"
      end
  | C_AuthorizeEnrollment delegation seal => decide_authorize state delegation seal
  | C_CompleteEnrollment =>
      if bool_decide (phase state = P_Authorized)
         && bool_decide (delegated_subkey state = requested_subkey state)
      then Ok [E_DeviceEnrolled]
      else reject "completeEnrollment: not authorized for this device's subkey"
  | C_RejectEnrollment =>
      match phase state with
      | P_Challenged | P_Authorized => Ok [E_EnrollmentRejected]
      | _ => reject "rejectEnrollment: nothing to reject"
      end
  | C_ExpireEnrollment =>
      match phase state with
      | P_Requested | P_Challenged | P_Authorized => Ok [E_EnrollmentExpired]
      | _ => reject "expireEnrollment: not in flight"
      end
  | C_CancelEnrollment =>
      match phase state with
      | P_Requested | P_Challenged | P_Authorized => Ok [E_EnrollmentCanceled]
      | _ => reject "cancelEnrollment: not in flight"
      end
  end.

Definition evolve (s : EnrollmentState) (event : EnrollmentEvent) : EnrollmentState :=
  match event with
  | E_EnrollmentRequested root subkey =>
      s <| phase := P_Requested |> <| account_root := root |> <| requested_subkey := subkey |>
  | E_EnrollmentChallenged presented =>
      s <| phase := P_Challenged |> <| presented_subkey := presented |>
  | E_EnrollmentAuthorized delegated =>
      s <| phase := P_Authorized |> <| delegated_subkey := delegated |>
  | E_DeviceEnrolled => s <| phase := P_Enrolled |> <| enrolled := true |>
  | E_EnrollmentRejected => s <| phase := P_Rejected |>
  | E_EnrollmentExpired => s <| phase := P_Expired |>
  | E_EnrollmentCanceled => s <| phase := P_Canceled |>
  end.

Definition enrollment_lifecycle : Lifecycle := {|
  lc_state := EnrollmentState;
  lc_command := EnrollmentCommand;
  lc_event := EnrollmentEvent;
  lc_default := enrollment_default;
  KIND := "device-enrollment";
  lc_decide := decide;
  lc_evolve := λ s e, Some (evolve s e);
  lc_snapshot_codec := None;
|}.

(** ** The history of an attempt *)

(** The log and the state by phase: an attempt has one history. *)
Definition tells (log : list EnrollmentEvent) (s : EnrollmentState) : Prop :=
  let requested := E_EnrollmentRequested (account_root s) (requested_subkey s) in
  let challenged := E_EnrollmentChallenged (presented_subkey s) in
  let authorized := E_EnrollmentAuthorized (requested_subkey s) in
  (enrolled s = true → phase s = P_Enrolled) ∧
  match phase s with
  | P_Draft => log = []
  | P_Requested => log = [requested]
  | P_Challenged => log = [requested; challenged]
  | P_Authorized => log = [requested; challenged; authorized]
      ∧ presented_subkey s = requested_subkey s ∧ delegated_subkey s = requested_subkey s
  | P_Enrolled => log = [requested; challenged; authorized; E_DeviceEnrolled]
      ∧ presented_subkey s = requested_subkey s ∧ delegated_subkey s = requested_subkey s
      ∧ enrolled s = true
  | P_Rejected | P_Expired | P_Canceled => E_DeviceEnrolled ∉ log
  end.

Lemma decide_authorize_ok s d k es :
  decide_authorize s d k = Ok es →
  es = [E_EnrollmentAuthorized (requested_subkey s)] ∧ phase s = P_Challenged
  ∧ presented_subkey s = requested_subkey s ∧ del_subkey d = requested_subkey s
  ∧ del_root d = account_root s ∧ target_subkey k = requested_subkey s ∧ plaintext k = false.
Proof.
  unfold decide_authorize. intros Hd. repeat split_next Hd. simplify_eq. guards.
  split_and!; congruence.
Qed.

Lemma enrollment_step log s c es :
  decide s c = Ok es → tells log s → ∃ e, es = [e] ∧ tells (log ++ [e]) (evolve s e).
Proof.
  intros Hd [He Ht]. destruct s as [p ar rs ps ds en]; simpl in *.
  destruct c as [| |d k| | | |].
  3: { apply decide_authorize_ok in Hd as (-> & Hp & Hps & _). simpl in *. subst p ps.
       eexists. split; [done|]. subst log. split; [by intros ?%He|]. done. }
  all: simpl in Hd; destruct p; simpl in Hd; try discriminate Hd; repeat split_next Hd; simplify_eq.
  all: destruct_and?; subst; eexists; (split; [done|]); split; simpl; try done; try (by intros ?%He).
  all: try (guards; subst; done).
  all: set_solver.
Qed.

Lemma enrollment_tells log s : trace enrollment_lifecycle log s → tells log s.
Proof.
  induction 1 as [|log s c es s' Ht IH Ha]; [done|]. apply apply_admitted in Ha as [Hd He].
  destruct (enrollment_step log s c es Hd IH) as (e & -> & Hs). simpl in He. by injection He as <-.
Qed.

#[export] Instance enrollment_safe : LifecycleSafe enrollment_lifecycle.
Proof.
  refine {| lc_inv := (λ s, ∃ log, tells log s) : lc_state enrollment_lifecycle → Prop |}; [by exists []|].
  apply total_lifecycle_safe with evolve; [done|]. intros s c es [log Hlog] Hd.
  destruct (enrollment_step log s c es Hd Hlog) as (e & -> & Hs). by eexists.
Defined.

Lemma enrollment_single s c es : decide s c = Ok es → length es ≤ 1.
Proof.
  intros Hd. destruct c as [| |d k| | | |]; simpl in Hd; repeat split_next Hd; simplify_eq; simpl; try lia.
  apply decide_authorize_ok in Hd as [-> _]. done.
Qed.

(** Nobody else's device is enrolled. Whatever the relay delivers and in whatever
    order commands arrive, a device is enrolled exactly when the whole history of the
    attempt is: requested with some subkey, presented with that same subkey (the
    comparison out of band found no substitution), authorized for that subkey, and
    completed; the authorization was a delegation of that subkey by the account's
    own root with the account key sealed to that subkey, not in the clear. *)
Theorem enrolled_history (cs : list EnrollmentCommand) :
  ∃ log s, session enrollment_lifecycle cs = Some (log, s)
    ∧ (enrolled s = true ↔ E_DeviceEnrolled ∈ log)
    ∧ (enrolled s = true → ∃ d k,
        log = [E_EnrollmentRequested (account_root s) (requested_subkey s);
               E_EnrollmentChallenged (requested_subkey s);
               E_EnrollmentAuthorized (requested_subkey s); E_DeviceEnrolled]
        ∧ C_AuthorizeEnrollment d k ∈ cs
        ∧ del_subkey d = requested_subkey s ∧ del_root d = account_root s
        ∧ target_subkey k = requested_subkey s ∧ plaintext k = false).
Proof.
  destruct (session_total enrollment_lifecycle cs) as (log & s & Hs & Ht & _). exists log, s.
  pose proof (enrollment_tells log s Ht) as [Hen Hlog]. split; [done|].
  assert (enrolled s = true ↔ E_DeviceEnrolled ∈ log) as Hiff.
  { split.
    - intros He. rewrite (Hen He) in Hlog. destruct Hlog as [-> _]. set_solver.
    - intros Hin. destruct (phase s); destruct_and?; try done; exfalso; clear Hen; subst; set_solver. }
  split; [done|]. intros He. rewrite (Hen He) in Hlog. destruct Hlog as (Hlog & Hps & Hds & _).
  rewrite Hps in Hlog.
  destruct (session_command enrollment_lifecycle cs log s
    [E_EnrollmentRequested (account_root s) (requested_subkey s); E_EnrollmentChallenged (requested_subkey s)]
    (E_EnrollmentAuthorized (requested_subkey s)) [E_DeviceEnrolled] enrollment_single Hs Hlog)
    as (s0 & c & Hc & Ht0 & Hd).
  destruct c as [| |d k| | | |]; simpl in Hd; try (repeat split_next Hd; simplify_eq; fail).
  apply decide_authorize_ok in Hd as ([= Hrs] & Hp & _ & Hdk & Hdr & Htk & Hpl).
  pose proof (enrollment_tells _ s0 Ht0) as [_ Hlog0]. rewrite Hp in Hlog0. injection Hlog0 as Har _.
  exists d, k. split_and!; first [exact Hc|congruence].
Qed.
