(* ===== verification/MachineController.v ===== *)
(** * Controllers of a machine

    [crates/core/src/mobile_machine_session.rs]: a device proves a key, an owner
    approves it, and the device opens sessions to one exact machine until it is
    revoked. *)

From S2P Require Import Prelude Ids.

(** ** The challenges a device signs *)

Definition enrollment_challenge_text (machine : HomeId) (endpoint request_id : string) (device : DeviceId)
    (public_key : PublicKey) (nonce_hex : string) : string :=
  "gaugewright-mobile-machine-enrollment::v1::machine=" +:+ as_str machine +:+ "::endpoint=" +:+ endpoint
  +:+ "::request=" +:+ request_id +:+ "::device=" +:+ as_str device +:+ "::key=" +:+ as_str public_key
  +:+ "::nonce=" +:+ nonce_hex.

Definition enrollment_challenge_bytes machine endpoint request_id device public_key nonce_hex : list N :=
  bytes_of (enrollment_challenge_text machine endpoint request_id device public_key nonce_hex).

Definition session_challenge_text (machine : HomeId) (grant_id : string) (device : DeviceId)
    (public_key : PublicKey) (nonce_hex : string) : string :=
  "gaugewright-mobile-machine-session::v1::machine=" +:+ as_str machine +:+ "::grant=" +:+ grant_id
  +:+ "::device=" +:+ as_str device +:+ "::key=" +:+ as_str public_key +:+ "::nonce=" +:+ nonce_hex.

Definition session_challenge_bytes machine grant_id device public_key nonce_hex : list N :=
  bytes_of (session_challenge_text machine grant_id device public_key nonce_hex).

(** ** The controller *)

Inductive ControllerPhase := P_Challenged | P_Proved | P_Granted | P_Active | P_Rejected | P_Revoked.

#[export] Instance ControllerPhase_eq_dec : EqDecision ControllerPhase.
Proof. solve_decision. Defined.

Record ControllerState := mkController {
  machine : HomeId;
  device : DeviceId;
  public_key : PublicKey;
  phase : ControllerPhase;
  credential_issued : bool;
  grant_active : bool;
  session_active : bool;
}.

#[export] Instance ControllerState_eta : Eta ControllerState := mkEta (λ s,
  mkController (machine s) (device s) (public_key s) (phase s) (credential_issued s) (grant_active s)
    (session_active s)).

Inductive ControllerCommand :=
| C_Prove (signature_valid : bool)
| C_Approve
| C_Reject
| C_OpenSession (machine : HomeId) (device : DeviceId) (public_key : PublicKey)
    (credential_valid signature_valid : bool)
| C_Revoke
| C_AdmitWork (machine : HomeId).

Inductive ControllerRejection :=
| WrongPhase | BadKeyProof | OwnerApprovalRequired | CredentialRequired | DeviceMismatch
| MachineMismatch | Revoked | SessionRequired.

Definition challenged (machine : HomeId) (device : DeviceId) (public_key : PublicKey) : ControllerState :=
  mkController machine device public_key P_Challenged false false false.

Definition open_session (s : ControllerState) (m : HomeId) (d : DeviceId) (k : PublicKey)
    (credential_valid signature_valid : bool) : result ControllerRejection ControllerState :=
  if bool_decide (phase s = P_Revoked) || negb (grant_active s) then Err Revoked
  else if negb match phase s with P_Granted | P_Active => true | _ => false end then Err WrongPhase
  else if negb (bool_decide (m = machine s)) then Err MachineMismatch
  else if negb (bool_decide (d = device s)) || negb (bool_decide (k = public_key s)) then Err DeviceMismatch
  else if negb (credential_issued s) || negb credential_valid then Err CredentialRequired
  else if negb signature_valid then Err BadKeyProof
  else Ok (s <| phase := P_Active |> <| session_active := true |>).

Definition apply (s : ControllerState) (command : ControllerCommand)
    : result ControllerRejection ControllerState :=
  match command with
  | C_Prove signature_valid =>
      if negb (bool_decide (phase s = P_Challenged)) then Err WrongPhase
      else if negb signature_valid then Err BadKeyProof
      else Ok (s <| phase := P_Proved |>)
  | C_Approve =>
      if negb (bool_decide (phase s = P_Proved)) then Err OwnerApprovalRequired
      else Ok (s <| phase := P_Granted |> <| credential_issued := true |> <| grant_active := true |>)
  | C_Reject =>
      match phase s with
      | P_Challenged | P_Proved => Ok (s <| phase := P_Rejected |>)
      | _ => Err WrongPhase
      end
  | C_OpenSession m d k credential_valid signature_valid =>
      open_session s m d k credential_valid signature_valid
  | C_Revoke =>
      match phase s with
      | P_Rejected | P_Revoked => Err WrongPhase
      | _ => Ok (s <| phase := P_Revoked |> <| grant_active := false |> <| session_active := false |>)
      end
  | C_AdmitWork m =>
      if negb (bool_decide (m = machine s)) then Err MachineMismatch
      else if bool_decide (phase s = P_Revoked) || negb (grant_active s) then Err Revoked
      else if negb (bool_decide (phase s = P_Active)) || negb (session_active s) then Err SessionRequired
      else Ok s
  end.

(** ** Histories

    The commands that were accepted, in order; a refused one changes nothing. *)

Fixpoint run (s : ControllerState) (cs : list ControllerCommand) : list ControllerCommand * ControllerState :=
  match cs with
  | [] => ([], s)
  | c :: cs =>
      match apply s c with
      | Ok s' => let p := run s' cs in (c :: p.1, p.2)
      | Err _ => run s cs
      end
  end.

Lemma run_app s cs1 cs2 :
  run s (cs1 ++ cs2) = ((run s cs1).1 ++ (run (run s cs1).2 cs2).1, (run (run s cs1).2 cs2).2).
Proof.
  revert s. induction cs1 as [|c cs1 IH]; intros s; simpl; [by destruct (run s cs2)|].
  destruct (apply s c) as [s'|]; simpl; by rewrite IH.
Qed.

Section controller.
Context (m : HomeId) (d : DeviceId) (k : PublicKey).

(** What an active controller may have accepted after its approval. *)
Definition at_work (c : ControllerCommand) : Prop :=
  c = C_OpenSession m d k true true ∨ c = C_AdmitWork m.

Definition history (h : list ControllerCommand) (s : ControllerState) : Prop :=
  machine s = m ∧ device s = d ∧ public_key s = k
  ∧ match phase s with
    | P_Challenged => h = [] ∧ credential_issued s = false ∧ grant_active s = false ∧ session_active s = false
    | P_Proved => h = [C_Prove true] ∧ credential_issued s = false ∧ grant_active s = false
        ∧ session_active s = false
    | P_Granted => h = [C_Prove true; C_Approve] ∧ credential_issued s = true ∧ grant_active s = true
        ∧ session_active s = false
    | P_Active => ∃ l, h = [C_Prove true; C_Approve; C_OpenSession m d k true true] ++ l ∧ Forall at_work l
        ∧ credential_issued s = true ∧ grant_active s = true ∧ session_active s = true
    | P_Rejected => (h = [C_Reject] ∨ h = [C_Prove true; C_Reject]) ∧ grant_active s = false
        ∧ session_active s = false
    | P_Revoked => ∃ l, h = l ++ [C_Revoke] ∧ grant_active s = false ∧ session_active s = false
    end.

Lemma history_step h s c s' : history h s → apply s c = Ok s' → history (h ++ [c]) s'.
Proof.
  intros (Hm & Hd & Hk & Hp) Ha. destruct s as [m' d' k' p ci ga sa]; simpl in *; subst m' d' k'.
  destruct c as [v| | |m' d' k' cv sv| |m']; simpl in Ha; unfold open_session in Ha; simpl in Ha;
    destruct p; simpl in *; try discriminate Ha; repeat split_next Ha; simplify_eq; guards; subst;
    (split_and!; [done..|]); simpl; try (destruct Hp as (l & -> & Hp)); destruct_and?; subst.
  all: try done; try discriminate; try (by eexists); try (by auto).
  all: try (by exists []); try (by exists [C_Prove true]); try (by exists [C_Prove true; C_Approve]).
  all: eexists (l ++ [_]); split; [done|]; rewrite Forall_app; split_and!; try done;
    (constructor; [unfold at_work; auto|done]).
Qed.

Lemma run_history cs : history (run (challenged m d k) cs).1 (run (challenged m d k) cs).2.
Proof.
  induction cs as [|c cs IH] using rev_ind; [done|]. rewrite run_app. simpl.
  destruct (apply (run (challenged m d k) cs).2 c) as [s'|] eqn:Ha; simpl.
  - by eapply history_step.
  - by rewrite app_nil_r.
Qed.

(** Work is admitted for a proved, approved, present device. From a challenge to a
    device, whatever commands follow, work for a machine is admitted exactly when the
    accepted history is a valid proof of the key, an owner's approval, a session
    opened by that very device and key to that very machine with a valid credential
    and signature, and since then nothing but such sessions and such work; in
    particular there was no revocation, and after one nothing is ever accepted
    again. *)
Theorem controller_work_iff (cs : list ControllerCommand) (m' : HomeId) :
  let '(accepted, s) := run (challenged m d k) cs in
  ((∃ s', apply s (C_AdmitWork m') = Ok s') ↔
     m' = m ∧ ∃ l, accepted = [C_Prove true; C_Approve; C_OpenSession m d k true true] ++ l
                   ∧ Forall at_work l)
  ∧ (C_Revoke ∈ accepted → ∀ c, ∃ e, apply s c = Err e).
Proof.
  pose proof (run_history cs) as Hh. destruct (run _ cs) as [h s]; simpl in Hh.
  destruct Hh as (Hm & Hd & Hk & Hp). split.
  - split.
    + intros [s' Ha]. simpl in Ha. repeat split_next Ha. guards. split; [congruence|].
      match goal with Hph : phase s = P_Active |- _ => rewrite Hph in Hp end.
      destruct Hp as (l & -> & Hl & _). eauto.
    + intros (-> & l & -> & Hl). exists s. simpl. rewrite bool_decide_eq_true_2 by done. simpl.
      assert (∀ c, last ([C_Prove true; C_Approve; C_OpenSession m d k true true] ++ l) = Some c →
                c ≠ C_Reject ∧ c ≠ C_Revoke) as Hlast.
      { intros c. destruct l as [|x l _] using rev_ind; [by intros [= <-]|].
        rewrite app_assoc, last_snoc. intros [= ->]. apply Forall_app in Hl as [_ [Hx _]%Forall_cons].
        by destruct Hx as [->| ->]. }
      destruct (phase s) eqn:Hph; try (by destruct Hp).
      * destruct Hp as (l' & _ & _ & _ & -> & ->). done.
      * by destruct Hp as [[Heq|Heq] _].
      * destruct Hp as (l' & Heq & _). rewrite Heq, last_snoc in Hlast. by destruct (Hlast _ eq_refl).
  - intros Hr. assert (phase s = P_Revoked ∧ grant_active s = false) as [Hph Hg].
    { destruct (phase s); [destruct Hp as [-> _]; set_solver..| | |].
      - destruct Hp as (l & -> & Hl & _). apply elem_of_app in Hr as [Hr|Hr]; [set_solver|].
        rewrite Forall_forall in Hl. by destruct (Hl _ Hr).
      - destruct Hp as [[->| ->] _]; set_solver.
      - by destruct Hp as (l & _ & -> & _). }
    intros [v| | |m'' d' k' cv sv| |m'']; simpl; unfold open_session; rewrite ?Hph, ?Hg; simpl; eauto.
    destruct (bool_decide _); simpl; eauto.
Qed.
End controller.

(** A signed enrollment challenge is never a session challenge. *)
Lemma challenge_domains m endpoint request d k n m' grant d' k' n' :
  enrollment_challenge_bytes m endpoint request d k n ≠ session_challenge_bytes m' grant d' k' n'.
Proof. by intros Heq%(inj bytes_of). Qed.
