(* ===== verification/MobileWake.v ===== *)
(** * Mobile wakes

    [crates/core/src/mobile_wake.rs]: a device installs a carrier token under a rising
    epoch; a home queues reference-only wakes for the current installation. *)

From Stdlib Require Import Ascii.
From stdpp Require Import pretty.
From S2P Require Import Prelude Ids Lifecycle.

Inductive CarrierPlatform := Apns | Fcm.

#[export] Instance CarrierPlatform_eq_dec : EqDecision CarrierPlatform.
Proof. solve_decision. Defined.

(** The line feed of the statement's lines. *)
Definition newline : ascii := "010"%char.

Definition line (label value : string) (rest : string) : string := label +:+ value +:+ String newline rest.

Definition platform_name (p : CarrierPlatform) : string :=
  match p with Apns => "apns" | Fcm => "fcm" end.

Definition installation_proof_text (account device : string) (platform : CarrierPlatform)
    (token_handle : string) (epoch : N) : string :=
  line "gaugewright-mobile-wake-installation/v1" ""
    (line "account=" account
       (line "device=" device
          (line "platform=" (platform_name platform)
             (line "token_handle=" token_handle
                (line "epoch=" (pretty epoch) ""))))).

Definition installation_proof_bytes account device platform token_handle epoch : list N :=
  bytes_of (installation_proof_text account device platform token_handle epoch).

(** ** Installations *)

Record InstallationState := mkInstallation {
  account : string;
  device : string;
  platform : option CarrierPlatform;
  token_handle : string;
  epoch : N; (* u64 *)
  active : bool;
}.

#[export] Instance InstallationState_eta : Eta InstallationState := mkEta (λ s,
  mkInstallation (account s) (device s) (platform s) (token_handle s) (epoch s) (active s)).

Definition installation_default : InstallationState := mkInstallation "" "" None "" 0 false.

Inductive InstallationCommand :=
| IC_Register (account device : string) (platform : CarrierPlatform) (token_handle : string) (epoch : N)
    (device_proof_verified : bool)
| IC_Disable (account device : string) (epoch : N).

Inductive InstallationEvent :=
| IE_Registered (account device : string) (platform : CarrierPlatform) (token_handle : string) (epoch : N)
| IE_Disabled (epoch : N).

Definition is_empty (s : string) : bool := match s with EmptyString => true | _ => false end.

Definition decide_installation (state : InstallationState) (command : InstallationCommand)
    : result Rejection (list InstallationEvent) :=
  match command with
  | IC_Register a d p t e proof =>
      if negb proof then reject "wake registration requires device proof"
      else if is_empty a || is_empty d || is_empty t || bool_decide (e = 0%N)
      then reject "wake registration is incomplete"
      else if negb (is_empty (account state))
              && (negb (bool_decide (account state = a)) || negb (bool_decide (device state = d)))
      then reject "wake registration cannot change account or Device"
      else if bool_decide (e ≤ epoch state)%N then reject "wake registration epoch must advance"
      else Ok [IE_Registered a d p t e]
  | IC_Disable a d e =>
      if negb (active state) || negb (bool_decide (account state = a)) || negb (bool_decide (device state = d))
      then reject "wake installation is not active for this Device"
      else if negb (bool_decide (e = epoch state))
      then reject "wake disable uses a stale installation epoch"
      else Ok [IE_Disabled e]
  end.

Definition evolve_installation (state : InstallationState) (event : InstallationEvent)
    : InstallationState :=
  match event with
  | IE_Registered a d p t e => mkInstallation a d (Some p) t e true
  | IE_Disabled e => state <| epoch := e |> <| active := false |> <| token_handle := ""%string |>
  end.

(** ** Wakes *)

Inductive WakePhase := W_Draft | W_Queued | W_CarrierAccepted | W_Resolved | W_Expired.

#[export] Instance WakePhase_eq_dec : EqDecision WakePhase.
Proof. solve_decision. Defined.

Record WakeState := mkWake {
  wake_phase : WakePhase;
  notification_id : string;
  installation_epoch : N; (* u64 *)
  target_reference : string;
  expires_at : N; (* u64 *)
  carrier_accept_count : N; (* u32 *)
  resolution_count : N; (* u32 *)
}.

#[export] Instance WakeState_eta : Eta WakeState := mkEta (λ s,
  mkWake (wake_phase s) (notification_id s) (installation_epoch s) (target_reference s) (expires_at s)
    (carrier_accept_count s) (resolution_count s)).

Definition wake_default : WakeState := mkWake W_Draft "" 0 "" 0 0 0.

Inductive WakeCommand :=
| WC_Submit (notification_id : string) (installation_epoch : N) (target_reference : string)
    (expires_at now : N) (home_authenticated protected_payload_present : bool)
    (installation : InstallationState)
| WC_RecordCarrierAccepted
| WC_Resolve (now : N) (home_admitted : bool) (installation : InstallationState)
| WC_Expire (now : N).

Inductive WakeEvent :=
| WE_Queued (notification_id : string) (installation_epoch : N) (target_reference : string) (expires_at : N)
| WE_CarrierAccepted
| WE_Resolved
| WE_Expired.

Definition waiting (p : WakePhase) : bool :=
  match p with W_Queued | W_CarrierAccepted => true | _ => false end.

Definition decide_wake (state : WakeState) (command : WakeCommand) : result Rejection (list WakeEvent) :=
  match command with
  | WC_Submit id ie tr ex now home payload installation =>
      if negb (bool_decide (wake_phase state = W_Draft))
      then reject "wake notification id is already admitted"
      else if negb home then reject "wake intent requires an authenticated Home"
      else if payload then reject "wake intent must be reference-only"
      else if is_empty id || is_empty tr || bool_decide (ex ≤ now)%N
      then reject "wake intent is incomplete or expired"
      else if negb (active installation) || negb (bool_decide (epoch installation = ie))
      then reject "wake intent uses a stale or disabled installation"
      else Ok [WE_Queued id ie tr ex]
  | WC_RecordCarrierAccepted =>
      if waiting (wake_phase state) then Ok [WE_CarrierAccepted]
      else reject "carrier acceptance has no queued wake"
  | WC_Resolve now admitted installation =>
      if bool_decide (wake_phase state = W_Resolved) then Ok []
      else if negb (waiting (wake_phase state)) then reject "wake is not available to resolve"
      else if bool_decide (expires_at state ≤ now)%N then reject "wake reference expired"
      else if negb (active installation) || negb (bool_decide (epoch installation = installation_epoch state))
      then reject "wake installation is stale or disabled"
      else if negb admitted then reject "wake resolution requires fresh Home admission"
      else Ok [WE_Resolved]
  | WC_Expire now =>
      if waiting (wake_phase state) && bool_decide (expires_at state ≤ now)%N then Ok [WE_Expired]
      else reject "wake is not yet expirable"
  end.

Definition evolve_wake (state : WakeState) (event : WakeEvent) : WakeState :=
  match event with
  | WE_Queued id ie tr ex => mkWake W_Queued id ie tr ex 0 0
  | WE_CarrierAccepted =>
      state <| wake_phase := W_CarrierAccepted |>
            <| carrier_accept_count := saturating_succ u32_max (carrier_accept_count state) |>
  | WE_Resolved =>
      state <| wake_phase := W_Resolved |>
            <| resolution_count := saturating_succ u32_max (resolution_count state) |>
  | WE_Expired => state <| wake_phase := W_Expired |>
  end.

(** ** A device with its installation and one wake

    The two reducers together: a wake's requests are decided against the installation
    folded at that moment. *)

Inductive mobile_request :=
| On_installation (c : InstallationCommand)
| Submit (notification_id : string) (installation_epoch : N) (target_reference : string)
    (expires_at now : N) (home_authenticated protected_payload_present : bool)
| Carrier_accepted
| Resolve (now : N) (home_admitted : bool)
| Expire (now : N).

Definition wake_command (inst : InstallationState) (r : mobile_request) : option WakeCommand :=
  match r with
  | On_installation _ => None
  | Submit id ie tr ex now home payload => Some (WC_Submit id ie tr ex now home payload inst)
  | Carrier_accepted => Some WC_RecordCarrierAccepted
  | Resolve now admitted => Some (WC_Resolve now admitted inst)
  | Expire now => Some (WC_Expire now)
  end.

Definition mobile_step (s : InstallationState * WakeState) (r : mobile_request)
    : InstallationState * WakeState :=
  match r, wake_command s.1 r with
  | On_installation c, _ =>
      match decide_installation s.1 c with
      | Ok es => (fold_left evolve_installation es s.1, s.2)
      | Err _ => s
      end
  | _, Some c =>
      match decide_wake s.2 c with
      | Ok es => (s.1, fold_left evolve_wake es s.2)
      | Err _ => s
      end
  | _, None => s
  end.

Definition mobile_run (s : InstallationState * WakeState) (rs : list mobile_request)
    : InstallationState * WakeState := fold_left mobile_step rs s.

Lemma installation_epoch_rises s c es s' :
  decide_installation s c = Ok es → fold_left evolve_installation es s = s' →
  (epoch s ≤ epoch s')%N ∧ (active s' = true → (epoch s < epoch s')%N)
  ∧ (account s ≠ ""%string → account s' = account s ∧ device s' = device s).
Proof.
  intros Hd <-. destruct c as [a d p t e proof|a d e]; simpl in Hd; repeat split_next Hd; simplify_eq; guards;
    subst; simpl; split_and!; try lia; try done.
  intros Hne. destruct (account s) eqn:Ha; [done|]. simpl in *. naive_solver.
Qed.

(** The wake's installation is no longer the current one. *)
Definition stale (s : InstallationState * WakeState) : Prop :=
  (epoch s.1 ≠ installation_epoch s.2 ∨ active s.1 = false) ∧ (installation_epoch s.2 ≤ epoch s.1)%N.

Record mobile_inv (s : InstallationState * WakeState) : Prop := {
  mi_epoch : wake_phase s.2 ≠ W_Draft → (installation_epoch s.2 ≤ epoch s.1)%N;
  mi_count : resolution_count s.2 = if bool_decide (wake_phase s.2 = W_Resolved) then 1%N else 0%N;
}.

Definition closed (p : WakePhase) : bool := match p with W_Resolved | W_Expired => true | _ => false end.

Lemma mobile_step_spec s r :
  mobile_inv s →
  mobile_inv (mobile_step s r)
  ∧ (wake_phase s.2 ≠ W_Draft → stale s → wake_phase s.2 ≠ W_Resolved →
       stale (mobile_step s r) ∧ wake_phase (mobile_step s r).2 ≠ W_Resolved
       ∧ wake_phase (mobile_step s r).2 ≠ W_Draft)
  ∧ (closed (wake_phase s.2) = true → (mobile_step s r).2 = s.2).
Proof.
  intros [He Hc]. destruct s as [inst w]; simpl in *. destruct r as [c|id ie tr ex now home pl| |now adm|now].
  - unfold mobile_step. simpl. destruct (decide_installation inst c) as [es|] eqn:Hd; [|by split_and!].
    destruct (fold_left evolve_installation es inst) as [] eqn:Hf.
    destruct (installation_epoch_rises inst c es _ Hd Hf) as (Hle & Hlt & _). simpl in *.
    split_and!; [|intros Hw [Hs Hsl] Hr|done].
    + split; simpl; [|done]. intros Hw. specialize (He Hw). lia.
    + split_and!; try done. split; simpl in *; [|lia]. destruct active0; [left|by right].
      specialize (Hlt eq_refl). lia.
  - unfold mobile_step. simpl. destruct (bool_decide (wake_phase w = W_Draft)) eqn:Hw; guards; simpl.
    + rewrite Hw in *. repeat case_match; simpl; split_and!; try done; simplify_eq; guards; subst.
      all: split; simpl; rewrite ?Hw; try done; lia.
    + by split_and!.
  - unfold mobile_step. simpl. destruct w as [ph ? ie ? ? ? rc]; destruct ph; simpl in *;
      split_and!; try done; (split; simpl; [by intros _; apply He|done]).
  - unfold mobile_step. simpl. destruct w as [ph ? ie ? ex ? rc]; destruct ph; simpl in *; try (by split_and!).
    all: repeat case_match; simpl; try (by split_and!); simplify_eq; guards; subst.
    all: split_and!; try done; try (split; simpl; [by intros _; apply He|done]).
    all: intros _ [[?|?] ?]; simpl in *; congruence.
  - unfold mobile_step. simpl. destruct w as [ph ? ie ? ex ? rc]; destruct ph; simpl in *; try (by split_and!).
    all: case_match; simplify_eq; repeat case_match; simplify_eq; simpl; split_and!; try done.
    all: try (split; simpl; [by intros _; apply He|done]).
Qed.

Lemma mobile_run_spec s rs :
  mobile_inv s →
  mobile_inv (mobile_run s rs)
  ∧ (wake_phase s.2 ≠ W_Draft → stale s → wake_phase s.2 ≠ W_Resolved →
       wake_phase (mobile_run s rs).2 ≠ W_Resolved)
  ∧ (closed (wake_phase s.2) = true → (mobile_run s rs).2 = s.2).
Proof.
  revert s. induction rs as [|r rs IH]; intros s Hs; [by split_and!|]. simpl.
  destruct (mobile_step_spec s r Hs) as (Hs1 & Hst & Hcl). destruct (IH _ Hs1) as (H1 & H2 & H3).
  split_and!; [done| |].
  - intros Hd Hstale Hr. destruct (Hst Hd Hstale Hr) as (? & ? & ?). by apply H2.
  - intros Hc. specialize (Hcl Hc). rewrite H3; [done|]. by rewrite Hcl.
Qed.

(** A wake reaches only the installation it was meant for. Over any interleaving of
    installation changes and wake requests, a wake resolves at most once and stays
    resolved or expired; and once the installation it was queued for was replaced
    or disabled, it never resolves any more, whatever is installed or requested
    later, because epochs never come back. *)
Theorem wake_current_only (rs more : list mobile_request) :
  let s := mobile_run (installation_default, wake_default) rs in
  (resolution_count s.2 ≤ 1)%N
  ∧ (wake_phase s.2 = W_Resolved ↔ resolution_count s.2 = 1%N)
  ∧ (closed (wake_phase s.2) = true → (mobile_run s more).2 = s.2)
  ∧ (waiting (wake_phase s.2) = true →
       epoch s.1 ≠ installation_epoch s.2 ∨ active s.1 = false →
       wake_phase (mobile_run s more).2 ≠ W_Resolved).
Proof.
  destruct (mobile_run_spec (installation_default, wake_default) rs) as (Hs & _ & _); [by split|].
  cbv zeta. set (s := mobile_run _ rs) in *. destruct (mobile_run_spec s more Hs) as (_ & Hstale & Hclosed).
  destruct Hs as [He Hc]. rewrite Hc. split_and!; [| |done|].
  - case_bool_decide; lia.
  - case_bool_decide; naive_solver.
  - intros Hw Hst. assert (wake_phase s.2 ≠ W_Draft ∧ wake_phase s.2 ≠ W_Resolved) as [Hd Hr]
      by (by destruct (wake_phase s.2)).
    apply Hstale; [done|split; auto|done].
Qed.

(** ** The signed statement *)

Lemma bytes_of_append s t : bytes_of (s +:+ t) = bytes_of s ++ bytes_of t.
Proof. induction s as [|c s IH]; [done|]. simpl. by f_equal. Qed.

(** A device's proof determines every field it installs, as long as the identifiers
    have no line feed. *)
Lemma proof_bytes_binding a1 a2 d1 d2 p1 p2 t1 t2 e1 e2 :
  Forall (λ s, contains_char newline s = false) [a1; a2; d1; d2; t1; t2] →
  installation_proof_bytes a1 d1 p1 t1 e1 = installation_proof_bytes a2 d2 p2 t2 e2 →
  a1 = a2 ∧ d1 = d2 ∧ p1 = p2 ∧ t1 = t2 ∧ e1 = e2.
Proof.
  intros Hall Heq%(inj bytes_of). rewrite !Forall_cons in Hall. destruct Hall as (Ha1 & Ha2 & Hd1 & Hd2 & Ht1 & Ht2 & _).
  unfold installation_proof_text, line in Heq. apply (inj (String.append _)) in Heq.
  simpl in Heq. injection Heq as Heq.
  apply (append_sep_inj newline) in Heq as [-> Heq]; [|done..]. apply (inj (String.append "device=")) in Heq.
  apply (append_sep_inj newline) in Heq as [-> Heq]; [|done..]. apply (inj (String.append "platform=")) in Heq.
  apply (append_sep_inj newline) in Heq as [Hp Heq]; [|by destruct p1|by destruct p2].
  apply (inj (String.append "token_handle=")) in Heq.
  apply (append_sep_inj newline) in Heq as [-> Heq]; [|done..]. apply (inj (String.append "epoch=")) in Heq.
  apply (f_equal bytes_of) in Heq. rewrite !bytes_of_append in Heq.
  apply app_inj_tail in Heq as [Heq%(inj bytes_of)%(inj pretty) _]. subst.
  split_and!; try done. by destruct p1, p2.
Qed.
