(* ===== verification/Entitlement.v ===== *)
(** * Deployment entitlements

    [crates/core/src/deployment_entitlement.rs]: whether one deployment context may
    use one installed package for governed runs. Receipts are evidence; only the
    authority's activation makes an entitlement active. *)

From S2P Require Import Prelude Lifecycle.

Inductive EntitlementPhase := P_None | P_Requested | P_Active | P_Suspended | P_Closed | P_Denied | P_Withdrawn.

#[export] Instance EntitlementPhase_eq_dec : EqDecision EntitlementPhase.
Proof. solve_decision. Defined.

Record EntitlementState := mkEntitlement {
  phase : EntitlementPhase;
  package_installed : bool;
  package_eligible : bool;
  activated_by_authority : bool;
  billing_receipt : bool;
  support_receipt : bool;
  run_eligible : bool;
  ever_run : bool;
  history_present : bool;
}.

#[export] Instance EntitlementState_eta : Eta EntitlementState := mkEta (λ s,
  mkEntitlement (phase s) (package_installed s) (package_eligible s) (activated_by_authority s)
    (billing_receipt s) (support_receipt s) (run_eligible s) (ever_run s) (history_present s)).

Definition entitlement_default : EntitlementState :=
  mkEntitlement P_None false false false false false false false false.

Definition entitlement_active (s : EntitlementState) : bool :=
  match phase s with P_Active => true | _ => false end.

Definition suspended (s : EntitlementState) : bool :=
  match phase s with P_Suspended => true | _ => false end.

Definition closed (s : EntitlementState) : bool :=
  match phase s with P_Closed => true | _ => false end.

Definition active_entitlement (s : EntitlementState) : bool :=
  package_installed s && package_eligible s && entitlement_active s && activated_by_authority s
  && negb (suspended s) && negb (closed s).

Inductive EntitlementCommand :=
| C_AdmitPackageInstall | C_RequestEntitlement | C_ActivateEntitlement | C_RecordBillingReceipt
| C_RecordSupportReceipt | C_MarkRunEligible | C_StartGovernedRun | C_SuspendEntitlement
| C_ResumeEntitlement | C_CloseEntitlement | C_DenyOrExpire | C_WithdrawPackageInstall.

Inductive EntitlementEvent :=
| E_PackageInstallAdmitted | E_EntitlementRequested | E_EntitlementActivated | E_BillingReceiptRecorded
| E_SupportReceiptRecorded | E_RunMarkedEligible | E_GovernedRunStarted | E_EntitlementSuspended
| E_EntitlementResumed | E_EntitlementClosed | E_EntitlementDenied | E_PackageInstallWithdrawn.

#[export] Instance EntitlementEvent_eq_dec : EqDecision EntitlementEvent.
Proof. solve_decision. Defined.

Definition decide (state : EntitlementState) (command : EntitlementCommand)
    : result Rejection (list EntitlementEvent) :=
  match command with
  | C_AdmitPackageInstall =>
      match phase state with
      | P_None => Ok [E_PackageInstallAdmitted]
      | _ => reject "admitPackageInstall: entitlement already started"
      end
  | C_RequestEntitlement =>
      if bool_decide (phase state = P_None) && package_installed state
      then Ok [E_EntitlementRequested]
      else reject "requestEntitlement: needs an installed package"
  | C_ActivateEntitlement =>
      if bool_decide (phase state = P_Requested) && package_installed state && package_eligible state
      then Ok [E_EntitlementActivated]
      else reject "activateEntitlement: needs a request on an eligible install"
  | C_RecordBillingReceipt =>
      match phase state with
      | P_Requested | P_Active | P_Suspended | P_Closed => Ok [E_BillingReceiptRecorded]
      | _ => reject "recordBillingReceipt: no entitlement to attach to"
      end
  | C_RecordSupportReceipt =>
      match phase state with
      | P_Requested | P_Active | P_Suspended | P_Closed => Ok [E_SupportReceiptRecorded]
      | _ => reject "recordSupportReceipt: no entitlement to attach to"
      end
  | C_MarkRunEligible =>
      if active_entitlement state then Ok [E_RunMarkedEligible]
      else reject "markRunEligible: requires an active entitlement"
  | C_StartGovernedRun =>
      if run_eligible state then Ok [E_GovernedRunStarted]
      else reject "startGovernedRun: not run-eligible"
  | C_SuspendEntitlement =>
      match phase state with
      | P_Active => Ok [E_EntitlementSuspended]
      | _ => reject "suspendEntitlement: not active"
      end
  | C_ResumeEntitlement =>
      if bool_decide (phase state = P_Suspended) && package_installed state && package_eligible state
      then Ok [E_EntitlementResumed]
      else reject "resumeEntitlement: needs a suspended, still-eligible entitlement"
  | C_CloseEntitlement =>
      match phase state with
      | P_Active | P_Suspended => Ok [E_EntitlementClosed]
      | _ => reject "closeEntitlement: not active/suspended"
      end
  | C_DenyOrExpire =>
      match phase state with
      | P_Requested => Ok [E_EntitlementDenied]
      | _ => reject "denyOrExpire: no pending request"
      end
  | C_WithdrawPackageInstall =>
      if package_installed state then Ok [E_PackageInstallWithdrawn]
      else reject "withdrawPackageInstall: nothing installed"
  end.

Definition evolve (s : EntitlementState) (event : EntitlementEvent) : EntitlementState :=
  match event with
  | E_PackageInstallAdmitted =>
      s <| package_installed := true |> <| package_eligible := true |> <| history_present := true |>
  | E_EntitlementRequested => s <| phase := P_Requested |>
  | E_EntitlementActivated => s <| phase := P_Active |> <| activated_by_authority := true |>
  | E_BillingReceiptRecorded => s <| billing_receipt := true |> <| history_present := true |>
  | E_SupportReceiptRecorded => s <| support_receipt := true |> <| history_present := true |>
  | E_RunMarkedEligible => s <| run_eligible := true |>
  | E_GovernedRunStarted => s <| ever_run := true |> <| history_present := true |>
  | E_EntitlementSuspended => s <| phase := P_Suspended |> <| run_eligible := false |>
  | E_EntitlementResumed =>
      s <| phase := P_Active |> <| activated_by_authority := true |> <| run_eligible := false |>
  | E_EntitlementClosed => s <| phase := P_Closed |> <| run_eligible := false |>
  | E_EntitlementDenied => s <| phase := P_Denied |> <| activated_by_authority := false |>
  | E_PackageInstallWithdrawn =>
      s <| phase := P_Withdrawn |> <| package_eligible := false |> <| run_eligible := false |>
  end.

Definition entitlement_lifecycle : Lifecycle := {|
  lc_state := EntitlementState;
  lc_command := EntitlementCommand;
  lc_event := EntitlementEvent;
  lc_default := entitlement_default;
  KIND := "deployment_entitlement";
  lc_decide := decide;
  lc_evolve := λ s e, Some (evolve s e);
  lc_snapshot_codec := None;
|}.

(** ** What the log says about standing *)

(** The events that move an entitlement's standing. *)
Definition moves_standing (e : EntitlementEvent) : bool :=
  match e with
  | E_EntitlementRequested | E_EntitlementActivated | E_EntitlementSuspended | E_EntitlementResumed
  | E_EntitlementClosed | E_EntitlementDenied | E_PackageInstallWithdrawn => true
  | _ => false
  end.

Definition standing_after (last_move : option EntitlementEvent) : EntitlementPhase :=
  match last_move with
  | Some E_EntitlementRequested => P_Requested
  | Some E_EntitlementActivated | Some E_EntitlementResumed => P_Active
  | Some E_EntitlementSuspended => P_Suspended
  | Some E_EntitlementClosed => P_Closed
  | Some E_EntitlementDenied => P_Denied
  | Some E_PackageInstallWithdrawn => P_Withdrawn
  | _ => P_None
  end.

Definition granted (log : list EntitlementEvent) : bool :=
  bool_decide (standing_after (last_such moves_standing log) = P_Active).

(** A run was marked eligible and the standing has not moved since. *)
Definition cleared (log : list EntitlementEvent) : bool :=
  bool_decide (last_such (λ e, moves_standing e || bool_decide (e = E_RunMarkedEligible)) log
               = Some E_RunMarkedEligible).

Record entitlement_inv (s : EntitlementState) : Prop := {
  inv_installed : phase s ≠ P_None → package_installed s = true;
  inv_eligible : phase s ≠ P_Withdrawn → package_eligible s = package_installed s;
  inv_authority : phase s = P_Active ∨ phase s = P_Suspended → activated_by_authority s = true;
  inv_run : run_eligible s = true → phase s = P_Active;
}.

Lemma entitlement_decide_one s c es : decide s c = Ok es → ∃ e, es = [e].
Proof. intros Hd. destruct c; simpl in Hd; repeat split_next Hd; simplify_eq; eauto. Qed.

Lemma entitlement_step s c es :
  entitlement_inv s → decide s c = Ok es → entitlement_inv (fold_left evolve es s).
Proof.
  intros [Hi He Ha Hr] Hd.
  destruct s as [p pi pe au br sr re er hp]; simpl in *.
  assert (p ≠ P_Active → re = false) as Hr' by (destruct re; [intros []; auto|done]).
  destruct c; simpl in Hd; unfold active_entitlement, entitlement_active in Hd; destruct p; simpl in Hd; try discriminate Hd;
    repeat split_next Hd; simplify_eq; split; simpl in *; auto.
  all: try (by intros [|]); intros Hre; first [discriminate Hre|by rewrite !andb_false_r in *
    |specialize (Hr' ltac:(done)); congruence].
Qed.

#[export] Instance entitlement_safe : LifecycleSafe entitlement_lifecycle.
Proof.
  refine {| lc_inv := entitlement_inv : lc_state entitlement_lifecycle → Prop |}.
  - split; simpl; try done. by intros [|].
  - apply total_lifecycle_safe with evolve; [done|]. exact entitlement_step.
Defined.

Lemma active_is_phase s : entitlement_inv s → active_entitlement s = bool_decide (phase s = P_Active).
Proof.
  intros [Hi He Ha _]. unfold active_entitlement, entitlement_active, suspended, closed.
  destruct s as [[] pi pe au br sr re er hp]; simpl in *; try by rewrite !andb_false_r.
  rewrite He, Hi, Ha by auto. done.
Qed.

Lemma standing_is_log log s :
  trace entitlement_lifecycle log s → phase s = standing_after (last_such moves_standing log).
Proof.
  revert log s. apply (trace_one_ind entitlement_lifecycle evolve); [done|exact entitlement_decide_one|done|].
  intros log s c e _ IH Hd. rewrite last_such_snoc. by destruct e.
Qed.

(** What a decided event says of the standing before it. *)
Definition standing_before (e : EntitlementEvent) (p : EntitlementPhase) : Prop :=
  match e with
  | E_PackageInstallAdmitted | E_EntitlementRequested => p = P_None
  | E_EntitlementActivated | E_EntitlementDenied => p = P_Requested
  | E_BillingReceiptRecorded | E_SupportReceiptRecorded => p ∈ [P_Requested; P_Active; P_Suspended; P_Closed]
  | E_RunMarkedEligible | E_GovernedRunStarted | E_EntitlementSuspended => p = P_Active
  | E_EntitlementResumed => p = P_Suspended
  | E_EntitlementClosed => p = P_Active ∨ p = P_Suspended
  | E_PackageInstallWithdrawn => True
  end.

Lemma decided_standing s c e :
  entitlement_inv s → decide s c = Ok [e] → standing_before e (phase s).
Proof.
  intros Hinv Hd. destruct c; simpl in Hd; repeat split_outer Hd; simplify_eq; simpl; guards;
    try done; try set_solver; auto.
  - match goal with H : active_entitlement _ = true |- _ => rewrite active_is_phase in H by done end.
    by guards.
  - by apply (inv_run s Hinv).
Qed.

Lemma run_eligible_is_log log s :
  trace entitlement_lifecycle log s → run_eligible s = cleared log.
Proof.
  revert log s. apply (trace_one_ind entitlement_lifecycle evolve); [done|exact entitlement_decide_one|done|].
  intros log s c e Ht IH Hd. unfold cleared. rewrite last_such_snoc. fold (cleared log).
  pose proof (trace_inv entitlement_lifecycle log s Ht) as Hinv.
  pose proof (decided_standing s c e Hinv Hd) as Hst. pose proof (inv_run s Hinv) as Hr.
  destruct e; simpl in *; try done; destruct (run_eligible s); try done; specialize (Hr eq_refl); congruence.
Qed.

Lemma trace_active log s : trace entitlement_lifecycle log s → active_entitlement s = granted log.
Proof.
  intros Ht. pose proof (trace_inv entitlement_lifecycle log s Ht) as Hi.
  rewrite active_is_phase by done. unfold granted. by rewrite (standing_is_log log s Ht).
Qed.

(** Governed use follows the log. After any session an entitlement is active exactly
    when the last event that moved its standing activated or resumed it, so receipts
    never activate and suspension, closing, denial and withdrawal end it; a run may
    start exactly when one was marked eligible and the standing has not moved since;
    and every governed run of the log started while the entitlement stood active and
    a mark was current. *)
Theorem entitlement_follows_log (cs : list EntitlementCommand) :
  ∃ log s, session entitlement_lifecycle cs = Some (log, s)
    ∧ active_entitlement s = granted log
    ∧ run_eligible s = cleared log
    ∧ (cleared log = true → granted log = true)
    ∧ ∀ before after, log = before ++ E_GovernedRunStarted :: after →
        granted before = true ∧ cleared before = true.
Proof.
  destruct (session_total entitlement_lifecycle cs) as (log & s & Hs & Ht & Hinv & _). exists log, s.
  assert (∀ log s, trace entitlement_lifecycle log s → cleared log = true → granted log = true) as Hcg.
  { intros l t Hl. rewrite <- (run_eligible_is_log l t Hl), <- (trace_active l t Hl).
    pose proof (trace_inv entitlement_lifecycle l t Hl) as Hi. intros Hr.
    rewrite active_is_phase by done. apply bool_decide_eq_true. by apply (inv_run t Hi). }
  split_and!; [done|by apply trace_active|by apply run_eligible_is_log|by eapply Hcg|].
  intros before after Hlog.
  destruct (trace_event entitlement_lifecycle log s before E_GovernedRunStarted after) as (s0 & c & Ht0 & Hd);
    [|done|done|].
  { intros s1 c es [e ->]%entitlement_decide_one. done. }
  assert (cleared before = true) as Hc; [|by eauto].
  rewrite <- (run_eligible_is_log before s0 Ht0).
  destruct c; simpl in Hd; repeat split_outer Hd; simplify_eq. done.
Qed.

(** ** An entitlement bought, used, suspended and resumed *)

Module Course.
Definition commands : list EntitlementCommand :=
  [C_RecordBillingReceipt; C_AdmitPackageInstall; C_RequestEntitlement; C_RecordBillingReceipt;
   C_StartGovernedRun; C_ActivateEntitlement; C_MarkRunEligible; C_StartGovernedRun; C_SuspendEntitlement;
   C_StartGovernedRun; C_ResumeEntitlement; C_StartGovernedRun].

(** Neither the receipt nor the request starts a run, and after resumption a run must
    be marked again. *)
Example course_log : fst <$> session entitlement_lifecycle commands
  = Some [E_PackageInstallAdmitted; E_EntitlementRequested; E_BillingReceiptRecorded;
          E_EntitlementActivated; E_RunMarkedEligible; E_GovernedRunStarted; E_EntitlementSuspended;
          E_EntitlementResumed].
Proof. vm_compute. reflexivity. Qed.
End Course.
