(* ===== verification/AgentVersion.v ===== *)
(** * Agent versions

    [crates/core/src/agent_version.rs]: a draft is revised, frozen into a snapshot,
    referenced by packages and retired. *)

From S2P Require Import Prelude Lifecycle.

Inductive VersionPhase := P_Init | P_Draft | P_Frozen | P_Packaged | P_Retired | P_Abandoned.

#[export] Instance VersionPhase_eq_dec : EqDecision VersionPhase.
Proof. solve_decision. Defined.

Record VersionState := mkVersion {
  phase : VersionPhase;
  draft_revision : N; (* u32 *)
  frozen_revision : N; (* u32 *)
  packaged : bool;
}.

#[export] Instance VersionState_eta : Eta VersionState := mkEta (λ s,
  mkVersion (phase s) (draft_revision s) (frozen_revision s) (packaged s)).

Definition version_default : VersionState := mkVersion P_Init 0 0 false.

Inductive VersionCommand :=
| C_CreateDraft | C_ReviseDraft | C_FreezeVersion | C_RecordPackageReference | C_RetireVersion | C_AbandonDraft.

Inductive VersionEvent :=
| E_DraftCreated | E_DraftRevised | E_VersionFrozen | E_PackageReferenced | E_VersionRetired | E_DraftAbandoned.

#[export] Instance VersionEvent_eq_dec : EqDecision VersionEvent.
Proof. solve_decision. Defined.

Definition decide (state : VersionState) (command : VersionCommand)
    : result Rejection (list VersionEvent) :=
  match command with
  | C_CreateDraft =>
      match phase state with
      | P_Init => Ok [E_DraftCreated]
      | _ => reject "createDraft: a version already exists"
      end
  | C_ReviseDraft =>
      match phase state with
      | P_Draft => Ok [E_DraftRevised]
      | _ => reject "reviseDraft: not a draft (FROZEN_VERSION_IMMUTABLE)"
      end
  | C_FreezeVersion =>
      match phase state with
      | P_Draft => Ok [E_VersionFrozen]
      | _ => reject "freezeVersion: only a draft can be frozen"
      end
  | C_RecordPackageReference =>
      match phase state with
      | P_Frozen | P_Packaged => Ok [E_PackageReferenced]
      | _ => reject "recordPackageReference: requires a frozen, non-retired version"
      end
  | C_RetireVersion =>
      match phase state with
      | P_Frozen | P_Packaged => Ok [E_VersionRetired]
      | _ => reject "retireVersion: only a frozen/packaged version retires"
      end
  | C_AbandonDraft =>
      match phase state with
      | P_Draft => Ok [E_DraftAbandoned]
      | _ => reject "abandonDraft: not a draft"
      end
  end.

Definition evolve (s : VersionState) (event : VersionEvent) : VersionState :=
  match event with
  | E_DraftCreated => s <| phase := P_Draft |> <| draft_revision := 1%N |>
  | E_DraftRevised => s <| draft_revision := u32_add (draft_revision s) 1 |>
  | E_VersionFrozen => s <| phase := P_Frozen |> <| frozen_revision := draft_revision s |>
  | E_PackageReferenced => s <| phase := P_Packaged |> <| packaged := true |>
  | E_VersionRetired => s <| phase := P_Retired |>
  | E_DraftAbandoned => s <| phase := P_Abandoned |>
  end.

Definition version_lifecycle : Lifecycle := {|
  lc_state := VersionState;
  lc_command := VersionCommand;
  lc_event := VersionEvent;
  lc_default := version_default;
  KIND := "agent_version";
  lc_decide := decide;
  lc_evolve := λ s e, Some (evolve s e);
  lc_snapshot_codec := None;
|}.

(** ** The histories of a version *)

(** The logs of a version in each phase: [n] revisions of the draft, then [m]
    references. *)
Inductive version_log : list VersionEvent → VersionState → Prop :=
| vl_none : version_log [] version_default
| vl_draft n :
    version_log (E_DraftCreated :: replicate n E_DraftRevised)
      (mkVersion P_Draft ((1 + N.of_nat n) mod u32_modulus) 0 false)
| vl_abandoned n :
    version_log (E_DraftCreated :: replicate n E_DraftRevised ++ [E_DraftAbandoned])
      (mkVersion P_Abandoned ((1 + N.of_nat n) mod u32_modulus) 0 false)
| vl_frozen n m :
    version_log (E_DraftCreated :: replicate n E_DraftRevised ++ E_VersionFrozen :: replicate m E_PackageReferenced)
      (let rev := ((1 + N.of_nat n) mod u32_modulus)%N in
       mkVersion (if bool_decide (m = 0) then P_Frozen else P_Packaged) rev rev (bool_decide (m ≠ 0)))
| vl_retired n m :
    version_log (E_DraftCreated :: replicate n E_DraftRevised ++ E_VersionFrozen :: replicate m E_PackageReferenced
                   ++ [E_VersionRetired])
      (let rev := ((1 + N.of_nat n) mod u32_modulus)%N in
       mkVersion P_Retired rev rev (bool_decide (m ≠ 0))).

Lemma version_decide_one s c es : decide s c = Ok es → ∃ e, es = [e].
Proof. intros Hd. destruct c; simpl in Hd; repeat split_next Hd; simplify_eq; eauto. Qed.

#[export] Instance version_safe : LifecycleSafe version_lifecycle.
Proof.
  refine {| lc_inv := (λ s, True) : lc_state version_lifecycle → Prop |}; [done|].
  by apply total_lifecycle_safe with evolve.
Defined.

Lemma replicate_snoc {A} n (x : A) : replicate n x ++ [x] = replicate (S n) x.
Proof. by rewrite replicate_S_end. Qed.

(** A version's history has one shape: a draft, revised some number of times, then
    abandoned, or frozen, referenced by packages some number of times and perhaps
    retired. The state is a function of that shape: the frozen revision is the number
    of drafts written (in 32 bits) whatever happens after the freeze, references are
    recorded only between freeze and retirement, and retirement keeps them. *)
Theorem version_history (cs : list VersionCommand) :
  ∃ log s, session version_lifecycle cs = Some (log, s) ∧ version_log log s.
Proof.
  destruct (session_total version_lifecycle cs) as (log & s & Hs & Ht & _). exists log, s. split; [done|].
  clear Hs cs. revert log s Ht.
  apply (trace_one_ind version_lifecycle evolve); [done|exact version_decide_one|constructor|].
  intros log s c e _ IH Hd. simpl in Hd. destruct IH as [|n|n|n m|n m].
  - destruct c; simpl in Hd; simplify_eq. exact (vl_draft 0).
  - destruct c; simpl in Hd; simplify_eq; simpl.
    + rewrite replicate_snoc. unfold u32_add. rewrite N.Div0.add_mod_idemp_l.
      replace (1 + N.of_nat n + 1)%N with (1 + N.of_nat (S n))%N by lia. exact (vl_draft (S n)).
    + exact (vl_frozen n 0).
    + exact (vl_abandoned n).
  - destruct c; simpl in Hd; simplify_eq.
  - simpl in *. rewrite <- app_assoc. simpl. destruct m as [|m]; simpl in *.
    + destruct c; simpl in Hd; simplify_eq; simpl; [exact (vl_frozen n 1)|exact (vl_retired n 0)].
    + destruct c; simpl in Hd; simplify_eq; simpl.
      * rewrite replicate_snoc. exact (vl_frozen n (S (S m))).
      * exact (vl_retired n (S m)).
  - destruct c; simpl in Hd; simplify_eq.
Qed.
