(* ===== verification/Distribution.v ===== *)
(** * Package distribution

    [crates/core/src/package_distribution.rs]: one package version on one target:
    published by its source, requested, admitted and installed at the target,
    disabled, removed, superseded or withdrawn. *)

From S2P Require Import Prelude Lifecycle.

Inductive DistPhase :=
| P_Draft | P_Published | P_InstallRequested | P_Installed | P_Disabled | P_Withdrawn | P_Removed
| P_Superseded | P_Denied.

#[export] Instance DistPhase_eq_dec : EqDecision DistPhase.
Proof. solve_decision. Defined.

Record DistState := mkDist {
  phase : DistPhase;
  published : bool;
  source_basis : bool;
  target_admitted : bool;
  installed : bool;
  ever_installed : bool;
  withdrawn : bool;
  run_noted : bool;
  replacement_published : bool;
  replacement_target_admitted : bool;
  superseded : bool;
}.

#[export] Instance DistState_eta : Eta DistState := mkEta (λ s,
  mkDist (phase s) (published s) (source_basis s) (target_admitted s) (installed s) (ever_installed s)
    (withdrawn s) (run_noted s) (replacement_published s) (replacement_target_admitted s) (superseded s)).

Definition dist_default : DistState :=
  mkDist P_Draft false false false false false false false false false false.

Definition install_ready (s : DistState) : bool :=
  published s && source_basis s && target_admitted s && negb (withdrawn s).

Definition replacement_ready (s : DistState) : bool :=
  replacement_published s && replacement_target_admitted s.

Inductive DistCommand :=
| C_PublishPackage | C_RequestInstall | C_TargetAdmitInstall | C_InstallPackage | C_WithdrawPackage
| C_NoteRunEligible | C_DisableInstall | C_RemoveInstall | C_PublishReplacement | C_TargetAdmitReplacement
| C_AdmitUpgrade | C_RejectOrExpire.

Inductive DistEvent :=
| E_PackagePublished | E_InstallRequested | E_InstallTargetAdmitted | E_PackageInstalled | E_PackageWithdrawn
| E_RunNoted | E_InstallDisabled | E_InstallRemoved | E_ReplacementPublished | E_ReplacementTargetAdmitted
| E_PackageSuperseded | E_InstallDenied.

#[export] Instance DistEvent_eq_dec : EqDecision DistEvent.
Proof. solve_decision. Defined.

Definition decide (state : DistState) (command : DistCommand) : result Rejection (list DistEvent) :=
  match command with
  | C_PublishPackage =>
      match phase state with
      | P_Draft => Ok [E_PackagePublished]
      | _ => reject "publishPackage: not a draft"
      end
  | C_RequestInstall =>
      match phase state with
      | P_Published => Ok [E_InstallRequested]
      | _ => reject "requestInstall: requires a published package"
      end
  | C_TargetAdmitInstall =>
      match phase state with
      | P_InstallRequested => Ok [E_InstallTargetAdmitted]
      | _ => reject "targetAdmitInstall: no pending install request"
      end
  | C_InstallPackage =>
      if bool_decide (phase state = P_InstallRequested) && install_ready state
      then Ok [E_PackageInstalled]
      else reject "installPackage: requires published + target admission (INV-13)"
  | C_WithdrawPackage =>
      match phase state with
      | P_Published | P_InstallRequested | P_Installed | P_Disabled | P_Superseded =>
          Ok [E_PackageWithdrawn]
      | _ => reject "withdrawPackage: nothing withdrawable"
      end
  | C_NoteRunEligible =>
      if installed state && negb (withdrawn state) then Ok [E_RunNoted]
      else reject "noteRunEligible: needs a live, non-withdrawn install"
  | C_DisableInstall =>
      match phase state with
      | P_Installed => Ok [E_InstallDisabled]
      | _ => reject "disableInstall: not installed"
      end
  | C_RemoveInstall =>
      match phase state with
      | P_Installed | P_Disabled => Ok [E_InstallRemoved]
      | _ => reject "removeInstall: nothing installed"
      end
  | C_PublishReplacement =>
      match phase state with
      | P_Installed | P_Disabled => Ok [E_ReplacementPublished]
      | _ => reject "publishReplacement: needs an install to upgrade"
      end
  | C_TargetAdmitReplacement =>
      if replacement_published state then Ok [E_ReplacementTargetAdmitted]
      else reject "targetAdmitReplacement: no replacement published"
  | C_AdmitUpgrade =>
      if replacement_ready state then Ok [E_PackageSuperseded]
      else reject "admitUpgrade: replacement must be published + target-admitted"
  | C_RejectOrExpire =>
      match phase state with
      | P_Published | P_InstallRequested => Ok [E_InstallDenied]
      | _ => reject "rejectOrExpire: nothing to deny"
      end
  end.

Definition evolve (s : DistState) (event : DistEvent) : DistState :=
  match event with
  | E_PackagePublished => s <| phase := P_Published |> <| published := true |> <| source_basis := true |>
  | E_InstallRequested => s <| phase := P_InstallRequested |>
  | E_InstallTargetAdmitted => s <| target_admitted := true |>
  | E_PackageInstalled => s <| phase := P_Installed |> <| installed := true |> <| ever_installed := true |>
  | E_PackageWithdrawn => s <| phase := P_Withdrawn |> <| withdrawn := true |>
  | E_RunNoted => s <| run_noted := true |>
  | E_InstallDisabled => s <| phase := P_Disabled |>
  | E_InstallRemoved => s <| phase := P_Removed |> <| installed := false |>
  | E_ReplacementPublished => s <| replacement_published := true |>
  | E_ReplacementTargetAdmitted => s <| replacement_target_admitted := true |>
  | E_PackageSuperseded => s <| phase := P_Superseded |> <| installed := false |> <| superseded := true |>
  | E_InstallDenied => s <| phase := P_Denied |>
  end.

Definition dist_lifecycle : Lifecycle := {|
  lc_state := DistState;
  lc_command := DistCommand;
  lc_event := DistEvent;
  lc_default := dist_default;
  KIND := "package_distribution";
  lc_decide := decide;
  lc_evolve := λ s e, Some (evolve s e);
  lc_snapshot_codec := None;
|}.

(** ** What the log says *)

Definition moves_phase (e : DistEvent) : bool :=
  match e with
  | E_InstallTargetAdmitted | E_RunNoted | E_ReplacementPublished | E_ReplacementTargetAdmitted => false
  | _ => true
  end.

Definition phase_after (last_move : option DistEvent) : DistPhase :=
  match last_move with
  | Some E_PackagePublished => P_Published
  | Some E_InstallRequested => P_InstallRequested
  | Some E_PackageInstalled => P_Installed
  | Some E_PackageWithdrawn => P_Withdrawn
  | Some E_InstallDisabled => P_Disabled
  | Some E_InstallRemoved => P_Removed
  | Some E_PackageSuperseded => P_Superseded
  | Some E_InstallDenied => P_Denied
  | _ => P_Draft
  end.

(** An install stands until it is removed or superseded. *)
Definition install_stands (log : list DistEvent) : bool :=
  bool_decide (last_such (λ e, bool_decide (e ∈ [E_PackageInstalled; E_InstallRemoved; E_PackageSuperseded])) log
               = Some E_PackageInstalled).

Definition happened (e : DistEvent) (log : list DistEvent) : bool := bool_decide (e ∈ log).

(** The state a log denotes. *)
Definition told (log : list DistEvent) : DistState :=
  mkDist (phase_after (last_such moves_phase log)) (happened E_PackagePublished log)
    (happened E_PackagePublished log) (happened E_InstallTargetAdmitted log) (install_stands log)
    (happened E_PackageInstalled log) (happened E_PackageWithdrawn log) (happened E_RunNoted log)
    (happened E_ReplacementPublished log) (happened E_ReplacementTargetAdmitted log)
    (happened E_PackageSuperseded log).

Lemma happened_snoc e log e' : happened e (log ++ [e']) = happened e log || bool_decide (e = e').
Proof.
  unfold happened. apply Bool.eq_iff_eq_true. rewrite orb_true_iff, !bool_decide_eq_true, elem_of_app,
    list_elem_of_singleton. done.
Qed.

Lemma told_snoc log e : told (log ++ [e]) = evolve (told log) e.
Proof.
  unfold told, install_stands. rewrite !last_such_snoc, !happened_snoc.
  destruct e; unfold evolve; simpl; f_equal; by rewrite ?orb_true_r, ?orb_false_r.
Qed.

Lemma dist_decide_one s c es : decide s c = Ok es → ∃ e, es = [e].
Proof. intros Hd. destruct c; simpl in Hd; repeat split_next Hd; simplify_eq; eauto. Qed.

#[export] Instance dist_safe : LifecycleSafe dist_lifecycle.
Proof.
  refine {| lc_inv := (λ s, True) : lc_state dist_lifecycle → Prop |}; [done|].
  by apply total_lifecycle_safe with evolve.
Defined.

Lemma trace_told log s : trace dist_lifecycle log s → s = told log.
Proof.
  revert log s. apply (trace_one_ind dist_lifecycle evolve); [done|exact dist_decide_one|done|].
  intros log s c e _ -> _. by rewrite told_snoc.
Qed.

(** What a decided event needs of the events before it. *)
Lemma decided_needs log c e :
  decide (told log) c = Ok [e] →
  match e with
  | E_PackageInstalled => E_PackagePublished ∈ log ∧ E_InstallTargetAdmitted ∈ log ∧ E_PackageWithdrawn ∉ log
  | E_RunNoted => install_stands log = true ∧ E_PackageWithdrawn ∉ log
  | E_PackageSuperseded => E_ReplacementPublished ∈ log ∧ E_ReplacementTargetAdmitted ∈ log
  | _ => True
  end.
Proof.
  unfold install_ready, replacement_ready. intros Hd.
  destruct c; cbn [decide] in Hd; unfold install_ready, replacement_ready in Hd;
    repeat split_outer Hd; simplify_eq; try done;
    repeat match goal with H : _ && _ = true |- _ => apply andb_prop in H as [? ?] end;
    simpl in *; unfold happened in *; rewrite ?negb_true_iff in *;
    repeat match goal with
      | H : bool_decide _ = true |- _ => apply bool_decide_eq_true in H
      | H : bool_decide _ = false |- _ => apply bool_decide_eq_false in H
      end; done.
Qed.

(** Distribution follows the log. After any session the state is a function of the
    log; every install of the log was published by the source and admitted by the
    target before it and not withdrawn; every run was noted on an install that stands,
    never after a withdrawal; every upgrade had its replacement published and admitted
    by the target; and no later event makes the record of an install go away. *)
Theorem distribution_follows_log (cs : list DistCommand) :
  ∃ log s, session dist_lifecycle cs = Some (log, s) ∧ s = told log
    ∧ (∀ before after, log = before ++ E_PackageInstalled :: after →
         E_PackagePublished ∈ before ∧ E_InstallTargetAdmitted ∈ before ∧ E_PackageWithdrawn ∉ before)
    ∧ (∀ before after, log = before ++ E_RunNoted :: after →
         install_stands before = true ∧ E_PackageWithdrawn ∉ before)
    ∧ (∀ before after, log = before ++ E_PackageSuperseded :: after →
         E_ReplacementPublished ∈ before ∧ E_ReplacementTargetAdmitted ∈ before)
    ∧ (E_PackageInstalled ∈ log → ever_installed s = true).
Proof.
  destruct (session_total dist_lifecycle cs) as (log & s & Hs & Ht & _). exists log, s.
  pose proof (trace_told log s Ht) as ->.
  assert (∀ before e after, log = before ++ e :: after → ∃ c, decide (told before) c = Ok [e]) as Hev.
  { intros before e after Hlog.
    destruct (trace_event dist_lifecycle log (told log) before e after) as (s0 & c & Ht0 & Hd); [|done|done|].
    - intros s1 c es [e' ->]%dist_decide_one. done.
    - apply trace_told in Ht0 as ->. by exists c. }
  split_and!; [done|done|intros before after Hlog..|].
  1-3: destruct (Hev _ _ _ Hlog) as [c Hc]; exact (decided_needs before c _ Hc).
  intros Hin. by apply bool_decide_eq_true.
Qed.
