(* ===== verification/Records.v ===== *)
(** * Records by kind, and records that fold latest-wins

    [Store::records] of [crates/store/src/lib.rs]: the readable records of one kind in
    one scope. On it, [crates/app/src/package_store.rs]: manifests of packages,
    versions and entitlements, appended as revisions and read back latest-wins by id.
    Store operations of the shell run one after the other on a [&mut Store]; an
    operation that fails ends the shell function, and what was committed before it
    stays: [Prog]. *)

From Stdlib Require Import Ascii.
From S2P Require Import Prelude Ids Lifecycle Store.

(** ** Programs over the store *)

Definition Prog (T : Type) : Type := Db → Db * result failure T.

Definition ret {T} (t : T) : Prog T := λ db, (db, Ok t).
Definition raise {T} (e : AdmitError) : Prog T := λ db, (db, fail e).
Definition bind {S T} (p : Prog S) (k : S → Prog T) : Prog T := λ db,
  match p db with
  | (db', Ok x) => k x db'
  | (db', Err e) => (db', Err e)
  end.
(** A shared borrow: the operation only reads. *)
Definition reads {T} (f : Db → result failure T) : Prog T := λ db, (db, f db).

Notation "'do' x <- p ; k" := (bind p (λ x, k))
  (at level 90, x pattern, p at level 100, k at level 200, right associativity,
   format "'[v' 'do'  x  <-  p ; '/' k ']'") : core_scope.

(** [serde_json::to_string(..)?] *)
Definition serialized {E} (json : Json E) (e : E) : Prog string :=
  match to_json json e with Some p => ret p | None => raise AE_Json end.

Section records.
Context (codec : option ContentCodec).

Definition kind_payloads (db : Db) (scope kind : string) : list EventRow :=
  order_by_position (filter (λ r, row_scope r = scope ∧ row_kind r = kind) (events db)).

Definition decode_kind (scope : string) (rows : list EventRow) : list (option string) :=
  decode_row codec scope <$> rows.

(** What does not decode disappears. *)
Definition records (db : Db) (scope kind : string) : list string :=
  omap id (decode_kind scope (kind_payloads db scope kind)).

(** [Store::retained_records]: one row that does not decode refuses the read. *)
Fixpoint all_retained (rows : list (option string)) : result failure (list string) :=
  match rows with
  | [] => Ok []
  | None :: _ => fail (AE_Codec "authority history contains an unavailable record")
  | Some plain :: rows => let? rest := all_retained rows in Ok (plain :: rest)
  end.
Definition retained_records (db : Db) (scope kind : string) : result failure (list string) :=
  all_retained (decode_kind scope (kind_payloads db scope kind)).

Lemma retained_is_all db scope kind rows : retained_records db scope kind = Ok rows → records db scope kind = rows.
Proof.
  unfold retained_records, records. revert rows. induction (decode_kind scope (kind_payloads db scope kind)) as [|[p|] l IH]; intros rows; cbn; [by intros [= <-]| |done].
  destruct (all_retained l) as [rest|]; [|done]. intros [= <-]. f_equal. by apply IH.
Qed.

Lemma records_dense db scope kind :
  db_ok db →
  records db scope kind = omap (decode_row codec scope) (filter (λ r, row_kind r = kind) (scope_rows db scope)).
Proof.
  intros Hok. unfold records, decode_kind, kind_payloads.
  assert (∀ l, omap id (decode_row codec scope <$> l) = omap (decode_row codec scope) l) as ->.
  { intros l. induction l as [|r l IH]; [done|]. csimpl. by rewrite IH. }
  f_equal.
  rewrite <- (order_by_dense (scope_rows db scope)) by apply Hok. unfold scope_rows.
  rewrite list_filter_filter. f_equal. apply list_filter_iff. tauto.
Qed.

Lemma records_extends db db' new scope kind :
  db_ok db → extends codec db db' new →
  records db' scope kind = records db scope kind
    ++ omap (decode_row codec scope) (filter (λ r, row_scope r = scope ∧ row_kind r = kind) new).
Proof.
  intros Hok Hext. pose proof (ext_ok _ _ _ _ Hext) as Hok'.
  rewrite !records_dense by done. rewrite (extends_rows _ _ _ _ _ Hext), filter_app, omap_app.
  f_equal. rewrite list_filter_filter. f_equal. apply list_filter_iff. tauto.
Qed.

Context `{!CodecLaws codec}.

Definition sealed (scope kind payload : string) : string :=
  match encode_payload codec scope kind payload with Ok stored => stored | Err _ => "" end.

(** A stored record reads back, after those before it; nothing else changes. *)
Lemma pushed_records db scope kind payload stored scope' kind' :
  db_ok db → encode_payload codec scope kind payload = Ok stored →
  let r := mkEventRow scope (next_position db scope) kind stored in
  extends codec db (pushed db r) [r]
  ∧ records (pushed db r) scope' kind'
    = records db scope' kind' ++ if bool_decide (scope = scope' ∧ kind = kind') then [payload] else [].
Proof.
  intros Hok He. cbv zeta. set (r := mkEventRow _ _ _ _). assert (extends codec db (pushed db r) [r]) as Hext.
  { split; [done| |by apply pushed_ok]. intros r' ->%list_elem_of_singleton. subst r. simpl. by erewrite encode_decode. }
  split; [done|]. subst r. rewrite (records_extends _ _ _ _ _ Hok Hext), filter_cons, filter_nil. simpl.
  case_decide as Hk; [rewrite bool_decide_eq_true_2 by done|by rewrite bool_decide_eq_false_2].
  destruct Hk as [-> ->]. simpl. by erewrite encode_decode.
Qed.

Lemma append_record_err db scope kind payload db' e : append_record codec db scope kind payload = (db', Err e) → db' = db.
Proof.
  unfold append_record. destruct (encode_payload _ _ _ _); [|by intros [= <-]].
  destruct (insert_event _ _); by intros [= <-].
Qed.

Lemma empty_db_ok : db_ok empty_db.
Proof. intros s i r Hr. change (([] : list EventRow) !! i = Some r) in Hr. discriminate Hr. Qed.

Lemma append_record_records db scope kind payload db' position scope' kind' :
  db_ok db → append_record codec db scope kind payload = (db', Ok position) →
  extends codec db db' [mkEventRow scope position kind (sealed scope kind payload)]
  ∧ records db' scope' kind'
    = records db scope' kind' ++ if bool_decide (scope = scope' ∧ kind = kind') then [payload] else [].
Proof.
  intros Hok Happ. unfold append_record, sealed in *.
  destruct (encode_payload codec scope kind payload) as [stored|] eqn:He; [|done].
  rewrite insert_event_next in Happ by done. simpl in Happ. injection Happ as <- <-. by apply pushed_records.
Qed.

(** A batch of records, in order. *)
Lemma append_all_records rs : ∀ db db' ps scope kind,
  db_ok db → append_records_atomically codec db rs = (db', Ok ps) →
  db_ok db' ∧ records db' scope kind
    = records db scope kind ++ (snd <$> filter (λ x : string * string * string, x.1.1 = scope ∧ x.1.2 = kind) rs).
Proof.
  unfold append_records_atomically, transaction. induction rs as [|[[s k] payload] rs IH]; intros db db' ps scope kind Hok; cbn [encode_all].
  - intros [= <- <-]. by rewrite app_nil_r.
  - destruct (encode_payload codec s k payload) as [stored|] eqn:He; [|done]. destruct (encode_all codec rs) as [rest|] eqn:Hr; [|done].
    cbn [insert_all]. rewrite insert_event_next by done. destruct (insert_all _ rest) as [[db2 ps2]|] eqn:Hi; [|done].
    cbn. intros [= <- <-]. destruct (pushed_records db s k payload stored scope kind Hok He) as [Hext Hrec].
    destruct (IH _ db2 ps2 scope kind (ext_ok _ _ _ _ Hext)) as [Hok2 ->]; [by rewrite Hi|]. split; [done|].
    rewrite Hrec, <-app_assoc.
    destruct (decide (s = scope ∧ k = kind)) as [Hk|Hk];
      [rewrite (bool_decide_eq_true_2 _ Hk)|rewrite (bool_decide_eq_false_2 _ Hk)]; done.
Qed.

(** A keyed record is appended unless its key has a receipt. *)
Lemma keyed_records db scope key kind payload db' position fresh scope' kind' :
  db_ok db → append_record_with_key codec db scope key kind payload = (db', Ok (position, fresh)) →
  is_Some (command_receipts db' !! (scope, key)) ∧ command_receipts db ⊆ command_receipts db'
  ∧ (fresh = false → db' = db ∧ is_Some (command_receipts db !! (scope, key)))
  ∧ (fresh = true → command_receipts db !! (scope, key) = None)
  ∧ db_ok db' ∧ records db' scope' kind'
    = records db scope' kind' ++ if fresh && bool_decide (scope = scope' ∧ kind = kind') then [payload] else [].
Proof.
  intros Hok. unfold append_record_with_key, transaction. destruct (encode_payload codec scope kind payload) as [stored|] eqn:He; [|done].
  destruct (command_receipts db !! (scope, key)) as [p|] eqn:Hkey.
  { intros [= <- <- <-]. rewrite Hkey. split_and!; try done. by rewrite app_nil_r. }
  rewrite insert_event_next by done. unfold insert_receipt. cbn [command_receipts pushed set]. rewrite Hkey.
  destruct (pushed_records db scope kind payload stored scope' kind' Hok He) as [Hext Hrec].
  cbn. intros [= <- <- <-]. split_and!; try done.
  - cbn. rewrite lookup_insert_eq. by eexists.
  - cbn. by apply insert_subseteq.
  - intros s. apply (ext_ok _ _ _ _ Hext).
Qed.
End records.

(** ** Folds of rows *)

(** [for row in rows { let r = serde_json::from_str(&row)?; .. }] *)
Definition fold_rows {R A} (json : Json R) (step : A → R → A) (a : A) (rows : list string) : result failure A :=
  try_fold (λ a row, let? r := ok_or (from_json json row) (Failed AE_Json) in Ok (step a r)) a rows.

Lemma fold_rows_app {R A} (json : Json R) (step : A → R → A) a rows rows' :
  fold_rows json step a (rows ++ rows') = (let? a' := fold_rows json step a rows in fold_rows json step a' rows').
Proof.
  revert a. induction rows as [|row rows IH]; intros a; [done|]. unfold fold_rows in *. cbn [app try_fold].
  destruct (ok_or (from_json json row) (Failed AE_Json)); [apply IH|done].
Qed.

Lemma fold_rows_snoc {R A} (json : Json R) (step : A → R → A) a rows row r :
  from_json json row = Some r →
  fold_rows json step a (rows ++ [row]) = (let? a' := fold_rows json step a rows in Ok (step a' r)).
Proof.
  intros Hr. revert a. induction rows as [|row' rows IH]; intros a; unfold fold_rows; cbn [app try_fold].
  - by rewrite Hr.
  - destruct (ok_or (from_json json row') _) as [r'|]; [|done]. apply IH.
Qed.

Lemma fold_rows_ok {R A} (json : Json R) (step : A → R → A) a rows a' :
  fold_rows json step a rows = Ok a' → ∃ rs, Forall2 (λ row r, from_json json row = Some r) rows rs ∧ a' = foldl step a rs.
Proof.
  revert a. induction rows as [|row rows IH]; intros a; unfold fold_rows; cbn [try_fold].
  - intros [= <-]. exists []. by split; [constructor|].
  - destruct (from_json json row) as [r|] eqn:Hr; [|done]. cbn. intros (rs & Hrs & ->)%IH. exists (r :: rs). by split; [constructor|].
Qed.

Lemma serialized_ok {E} (json : Json E) e db db' p : serialized json e db = (db', Ok p) → db' = db ∧ to_json json e = Some p.
Proof. unfold serialized. destruct (to_json json e); [|done]. by intros [= -> ->]. Qed.

(** ** Serializers of the examples *)

(** A serializer given by a table of the values it knows. *)
Definition table_json {E} `{!EqDecision E} (table : list (string * E)) : Json E := mkJson
  (λ e, fst <$> List.find (λ p, bool_decide (p.2 = e)) table)
  (λ s, snd <$> List.find (λ p, String.eqb p.1 s) table).

Lemma table_json_laws {E} `{!EqDecision E} (table : list (string * E)) :
  NoDup table.*1 → JsonLaws (table_json table).
Proof.
  intros Hnd e s. simpl. destruct (List.find _ table) as [[s' e']|] eqn:Hf; [|done]. intros [= ->].
  apply List.find_some in Hf as [Hin Heq]. simpl in Heq. apply bool_decide_eq_true in Heq as ->.
  destruct (List.find (λ p, String.eqb p.1 s) table) as [[s2 e2]|] eqn:Hf2; simpl.
  - apply List.find_some in Hf2 as [Hin2 Heq2%String.eqb_eq]. simpl in Heq2. subst s2. f_equal.
    apply list_elem_of_In in Hin, Hin2.
    apply (elem_of_list_to_map_1 (M:=gmap string)) in Hin, Hin2; [congruence|done..].
  - by pose proof (List.find_none _ _ Hf2 _ Hin) as Hne; simpl in Hne; rewrite String.eqb_refl in Hne.
Qed.

(** [serde_json] on the tuple of a record's fields. *)
Definition tuple_json {R T} `{Countable T} (fields : R → T) (build : T → R) : Json R := mkJson
  (λ r, Some (write_bits (countable.encode (fields r)))) (λ s, build <$> countable.decode (read_bits s)).

Lemma tuple_json_laws {R T} `{Countable T} (fields : R → T) (build : T → R) :
  (∀ r, build (fields r) = r) → JsonLaws (tuple_json fields build).
Proof.
  intros Hb r p. cbn [tuple_json to_json from_json]. intros [= <-].
  rewrite bits_roundtrip, countable.decode_encode. cbn. by rewrite Hb.
Qed.

(** ** Manifests, latest revision wins *)

(** [trait Record] *)
Class RecordKind (R : Type) := {
  rk_kind : string;
  rk_id : R → string;
  rk_tombstoned : R → bool;
  set_tombstoned : R → R;
}.

Record PackageRecord := mkPackage {
  pkg_id : string;
  pkg_version : string;
  pkg_source_authority : string;
  pkg_agent_ref : string;
  pkg_method_handles : list ResourceId;
  pkg_protection_posture : string;
  pkg_source_basis : bool;
  pkg_tombstoned : bool;
}.

Record VersionRecord := mkVersionRecord {
  ver_id : string;
  ver_agent_ref : string;
  ver_method_handles : list ResourceId;
  ver_config : string;
  ver_protection_posture : string;
  ver_provenance : list string;
  ver_content_hashes : list string;
  ver_tombstoned : bool;
}.

Record EntitlementRecord := mkEntitlementRecord {
  ent_id : string;
  ent_installed_package : string;
  ent_target_context : string;
  ent_entitlement_authority : string;
  ent_terms : string;
  ent_correlation : list string;
  ent_tombstoned : bool;
}.

#[export] Instance PackageRecord_eta : Eta PackageRecord := mkEta (λ r,
  mkPackage (pkg_id r) (pkg_version r) (pkg_source_authority r) (pkg_agent_ref r) (pkg_method_handles r)
    (pkg_protection_posture r) (pkg_source_basis r) (pkg_tombstoned r)).
#[export] Instance VersionRecord_eta : Eta VersionRecord := mkEta (λ r,
  mkVersionRecord (ver_id r) (ver_agent_ref r) (ver_method_handles r) (ver_config r)
    (ver_protection_posture r) (ver_provenance r) (ver_content_hashes r) (ver_tombstoned r)).
#[export] Instance EntitlementRecord_eta : Eta EntitlementRecord := mkEta (λ r,
  mkEntitlementRecord (ent_id r) (ent_installed_package r) (ent_target_context r)
    (ent_entitlement_authority r) (ent_terms r) (ent_correlation r) (ent_tombstoned r)).

#[export] Instance package_kind : RecordKind PackageRecord :=
  Build_RecordKind _ "package_record" pkg_id pkg_tombstoned (λ r, r <| pkg_tombstoned := true |>).
#[export] Instance version_kind : RecordKind VersionRecord :=
  Build_RecordKind _ "version_record" ver_id ver_tombstoned (λ r, r <| ver_tombstoned := true |>).
#[export] Instance entitlement_kind : RecordKind EntitlementRecord :=
  Build_RecordKind _ "entitlement_record" ent_id ent_tombstoned (λ r, r <| ent_tombstoned := true |>).

Section manifests.
Context (codec : option ContentCodec) {R : Type} `{!RecordKind R} (json : Json R).

Definition put (scope : string) (rec : R) : Prog unit :=
  do payload <- serialized json rec;
  do _ <- (λ db, append_record codec db scope (rk_kind (R:=R)) payload);
  ret ().

(** The loop of [list]: the latest revision of each id. *)
Definition latest (rows : list string) : result failure (gmap string R) :=
  try_fold (λ latest row,
    let? rec := ok_or (from_json json row) (Failed AE_Json) in
    Ok (<[rk_id rec := rec]> latest)) ∅ rows.

Definition list_records (db : Db) (scope : string) : result failure (list R) :=
  let? latest := latest (records codec db scope (rk_kind (R:=R))) in
  Ok (btree_values latest).

Definition get (db : Db) (scope id : string) : result failure (option R) :=
  let? rs := list_records db scope in
  Ok (List.find (λ r, String.eqb (rk_id r) id) rs).

Definition tombstone (scope id : string) : Prog bool :=
  do found <- reads (λ db, get db scope id);
  match found with
  | Some rec => do _ <- put scope (set_tombstoned rec); ret true
  | None => ret false
  end.

(** Every entry of the folded map is filed under its own id. *)
Definition filed (m : gmap string R) : Prop := ∀ id r, m !! id = Some r → rk_id r = id.

Lemma latest_app rows rows' :
  latest (rows ++ rows') = match latest rows with
    | Ok m => try_fold (λ latest row,
        let? rec := ok_or (from_json json row) (Failed AE_Json) in
        Ok (<[rk_id rec := rec]> latest)) m rows'
    | Err e => Err e
    end.
Proof.
  unfold latest. generalize (∅ : gmap string R) as m. induction rows as [|row rows IH]; intros m; [done|].
  simpl. destruct (ok_or (from_json json row) (Failed AE_Json)); [apply IH|done].
Qed.

Lemma latest_filed rows m : latest rows = Ok m → filed m.
Proof.
  revert m. induction rows as [|row rows IH] using rev_ind; intros m Hm.
  - unfold latest in Hm. simpl in Hm. simplify_eq. by intros id r ?%lookup_empty_Some.
  - rewrite latest_app in Hm. destruct (latest rows) as [m0|] eqn:H0; [|done]. simpl in Hm.
    destruct (from_json json row) as [rec|]; [|done]. simpl in Hm. simplify_eq.
    intros id r [[<- <-]|[_ Hr]]%lookup_insert_Some; [done|]. by eapply IH.
Qed.

(** Looking an id up in the listing is looking it up in the map. *)
Lemma find_latest m id :
  filed m → List.find (λ r, String.eqb (rk_id r) id) (btree_values m) = m !! id.
Proof.
  intros Hf. destruct (List.find _ (btree_values m)) as [r|] eqn:Hr.
  - apply List.find_some in Hr as [Hin Heq%String.eqb_eq].
    apply list_elem_of_In, elem_of_btree_values in Hin as [k Hk].
    rewrite <- (Hf k r Hk) in Hk. by rewrite <- Heq.
  - destruct (m !! id) as [r|] eqn:Hm; [|done]. exfalso.
    assert (r ∈ btree_values m) as Hin by (apply elem_of_btree_values; eauto).
    apply list_elem_of_In in Hin. pose proof (List.find_none _ _ Hr r Hin) as Hne.
    simpl in Hne. by rewrite (Hf id r Hm), String.eqb_refl in Hne.
Qed.

Context `{!CodecLaws codec, !JsonLaws json}.

Lemma put_latest db scope rec db' m :
  db_ok db → put scope rec db = (db', Ok ()) →
  latest (records codec db scope (rk_kind (R:=R))) = Ok m →
  db_ok db' ∧ latest (records codec db' scope (rk_kind (R:=R))) = Ok (<[rk_id rec := rec]> m)
  ∧ ∀ scope' kind', (scope', kind') ≠ (scope, rk_kind (R:=R)) → records codec db' scope' kind' = records codec db scope' kind'.
Proof.
  intros Hok Hput Hm. unfold put, bind, serialized in Hput.
  destruct (to_json json rec) as [payload|] eqn:Hj; [|done]. simpl in Hput.
  destruct (append_record codec db scope (rk_kind (R:=R)) payload) as [db1 [pos|]] eqn:Ha; [|done].
  unfold ret in Hput. simplify_eq. split_and!.
  - by destruct (append_record_records codec _ _ _ _ _ _ "" "" Hok Ha) as [[] _].
  - destruct (append_record_records codec _ _ _ _ _ _ scope (rk_kind (R:=R)) Hok Ha) as [_ ->].
    rewrite bool_decide_eq_true_2 by done. rewrite latest_app, Hm. simpl.
    by rewrite (json_roundtrip _ _ Hj).
  - intros scope' kind' Hne.
    destruct (append_record_records codec _ _ _ _ _ _ scope' kind' Hok Ha) as [_ ->].
    rewrite bool_decide_eq_false_2 by (intros [-> <-]; done). by rewrite app_nil_r.
Qed.

(** A manifest that was put is the one read back: [get] returns it for its id, every
    other id and every other kind and scope read as before, and tombstoning an id
    leaves its manifest readable with the tombstone set. *)
Theorem put_get_latest db scope rec db' m :
  db_ok db → latest (records codec db scope (rk_kind (R:=R))) = Ok m →
  put scope rec db = (db', Ok ()) →
  get db' scope (rk_id rec) = Ok (Some rec)
  ∧ (∀ id, id ≠ rk_id rec → get db' scope id = get db scope id)
  ∧ (∀ scope' kind', (scope', kind') ≠ (scope, rk_kind (R:=R)) →
       records codec db' scope' kind' = records codec db scope' kind')
  ∧ ∀ id db'' b, (∀ r : R, rk_id (set_tombstoned r) = rk_id r) →
      tombstone scope id db' = (db'', Ok b) →
      b = bool_decide (is_Some (<[rk_id rec := rec]> m !! id))
      ∧ get db'' scope id = Ok (set_tombstoned <$> <[rk_id rec := rec]> m !! id).
Proof.
  intros Hok Hm Hput. destruct (put_latest db scope rec db' m Hok Hput Hm) as (Hok' & Hm' & Hframe).
  assert (∀ db0 m0 id, latest (records codec db0 scope (rk_kind (R:=R))) = Ok m0 →
    get db0 scope id = Ok (m0 !! id)) as Hget.
  { intros db0 m0 id H0. unfold get, list_records. rewrite H0. f_equal. apply find_latest.
    by eapply latest_filed. }
  split_and!; [|intros id Hne|done|].
  - by rewrite (Hget _ _ _ Hm'), lookup_insert_eq.
  - by rewrite (Hget _ _ _ Hm'), (Hget _ _ _ Hm), lookup_insert_ne.
  - intros id db'' b Hset. unfold tombstone, reads, bind. rewrite (Hget _ _ _ Hm').
    destruct (<[rk_id rec := rec]> m !! id) as [r|] eqn:Hr; simpl.
    + destruct (put scope (set_tombstoned r) db') as [db1 [[]|]] eqn:Hp; [|done]. intros [= <- <-].
      destruct (put_latest db' scope _ db1 _ Hok' Hp Hm') as (_ & Hm1 & _). split; [done|].
      rewrite (Hget _ _ _ Hm1), Hset. pose proof (latest_filed _ _ Hm' _ _ Hr) as ->.
      by rewrite lookup_insert_eq.
    + intros [= <- <-]. split; [done|]. by rewrite (Hget _ _ _ Hm'), Hr.
Qed.
End manifests.

(** ** A package published twice *)

Module SampleManifests.
#[local] Instance PackageRecord_eq_dec : EqDecision PackageRecord.
Proof. solve_decision. Defined.

Definition package (id : string) (dead : bool) : PackageRecord :=
  mkPackage id "v1" "source" "agent" [] "local" true dead.

(** A serializer for these packages. *)
Definition json : Json PackageRecord := mkJson
  (λ r, if bool_decide (r = package (pkg_id r) (pkg_tombstoned r))
        then Some (String (if pkg_tombstoned r then "x" else "o") (pkg_id r)) else None)
  (λ p, match p with
        | String c id => Some (package id (bool_decide (c = "x"%char)))
        | EmptyString => None
        end).

#[export] Instance json_laws : JsonLaws json.
Proof.
  intros r p. simpl. case_bool_decide as Hr; [|discriminate]. intros [= <-]. simpl. f_equal. etransitivity; [|symmetry; exact Hr].
  by destruct (pkg_tombstoned r).
Defined.

Definition db1 : Db := (put None json "library" (package "p1" false) empty_db).1.
Definition db2 : Db := (put None json "library" (package "p2" false) db1).1.
End SampleManifests.
#[local] Existing Instance SampleManifests.json_laws.

#[local] Instance plain_codec : CodecLaws None.
Proof. intros c scope kind plain stored He. discriminate He. Defined.

Lemma put_get_latest_witness :
  get None SampleManifests.json SampleManifests.db2 "library" "p2"
    = Ok (Some (SampleManifests.package "p2" false))
  ∧ get None SampleManifests.json SampleManifests.db2 "library" "p1"
    = Ok (Some (SampleManifests.package "p1" false)).
Proof.
  destruct (put_get_latest None SampleManifests.json SampleManifests.db1 "library"
    (SampleManifests.package "p2" false) SampleManifests.db2
    {["p1" := SampleManifests.package "p1" false]}) as (H1 & H2 & _).
  - intros scope i r. unfold scope_rows. simpl. rewrite filter_cons, filter_nil.
    case_decide; [|done]. by destruct i; [intros [= <-]|].
  - vm_compute. reflexivity.
  - reflexivity.
  - split; [exact H1|]. rewrite H2; [vm_compute; reflexivity|done].
Defined.
