(* ===== verification/Texts.v ===== *)
(** * Operations of [str]

    The string operations of the standard library that the application's files share: on
    UTF-8 strings byte by byte, as [str] does them. [str::trim] removes Unicode White_Space,
    as [Ids.blank] tests it. *)

From Stdlib Require Import Ascii.
From S2P Require Import Prelude Ids.

(** ** Prefixes and suffixes *)

(** [str::strip_prefix] *)
Fixpoint strip_prefix (prefix s : string) : option string :=
  match prefix, s with
  | EmptyString, _ => Some s
  | String a prefix, String b s => if Ascii.eqb a b then strip_prefix prefix s else None
  | _, EmptyString => None
  end.

(** [str::strip_suffix] *)
Fixpoint strip_suffix (suffix s : string) : option string :=
  if String.eqb s suffix then Some EmptyString
  else match s with
       | EmptyString => None
       | String c s => String c <$> strip_suffix suffix s
       end.

Definition has_prefix (prefix s : string) : bool := bool_decide (is_Some (strip_prefix prefix s)).
Definition has_suffix (suffix s : string) : bool := bool_decide (is_Some (strip_suffix suffix s)).

(** [str::split_once] on a one-byte separator. *)
Fixpoint split_once (sep : ascii) (s : string) : option (string * string) :=
  match s with
  | EmptyString => None
  | String c s => if Ascii.eqb c sep then Some (EmptyString, s)
                  else '(before, after) ← split_once sep s; Some (String c before, after)
  end.

(** What follows the last occurrence of [sep]: [s.rfind(sep)] and the slice after it. *)
Fixpoint after_last (sep s : string) : option string :=
  match s with
  | EmptyString => strip_prefix sep s
  | String c r => match after_last sep r with Some x => Some x | None => strip_prefix sep s end
  end.

(** [str::trim_start_matches] on a nonempty pattern: every repetition is removed. *)
Fixpoint trim_matches (fuel : nat) (pat s : string) : string :=
  match fuel, strip_prefix pat s with
  | S fuel, Some rest => trim_matches fuel pat rest
  | _, _ => s
  end.
Definition trim_start_matches (pat s : string) : string := trim_matches (String.length s) pat s.

(** ** White space *)

Definition ascii_space (b : N) : bool := bool_decide (9 ≤ b ≤ 13)%N || (b =? 32)%N.
Definition space_2 (b b2 : N) : bool := (b =? 194)%N && ((b2 =? 133) || (b2 =? 160))%N.
Definition space_3 (b b2 b3 : N) : bool :=
  ((b =? 225) && (b2 =? 154) && (b3 =? 128))%N
  || (b =? 226)%N && ((b2 =? 128)%N && (bool_decide (128 ≤ b3 ≤ 138)%N || (b3 =? 168)%N || (b3 =? 169)%N || (b3 =? 175)%N)
                      || ((b2 =? 129) && (b3 =? 159))%N)
  || ((b =? 227) && (b2 =? 128) && (b3 =? 128))%N.

(** [str::trim_start] *)
Fixpoint trim_start (s : string) : string :=
  match s with
  | EmptyString => EmptyString
  | String c r =>
      if ascii_space (N_of_ascii c) then trim_start r
      else match r with
           | String c2 r2 =>
               if space_2 (N_of_ascii c) (N_of_ascii c2) then trim_start r2
               else match r2 with
                    | String c3 r3 => if space_3 (N_of_ascii c) (N_of_ascii c2) (N_of_ascii c3) then trim_start r3 else s
                    | EmptyString => s
                    end
           | EmptyString => s
           end
  end.

(** [str::trim_end]: no suffix that starts inside a character is blank. *)
Fixpoint trim_end (s : string) : string :=
  if blank s then EmptyString
  else match s with EmptyString => EmptyString | String c r => String c (trim_end r) end.

(** [str::trim] *)
Definition trim (s : string) : string := trim_end (trim_start s).

(** ** Lines and letters *)

Definition newline : ascii := "010"%char.
Definition carriage_return : ascii := "013"%char.

(** [str::lines]: a terminated line loses its terminator, a last line without one is kept
    as it is, unless it is empty. *)
Fixpoint lines_of (segments : list string) : list string :=
  match segments with
  | [] => []
  | [last] => if String.eqb last "" then [] else [last]
  | seg :: segments => default seg (strip_suffix (String carriage_return "") seg) :: lines_of segments
  end.
Definition lines (s : string) : list string := lines_of (split_on newline s).

(** [u8::to_ascii_lowercase] *)
Definition to_lower (c : ascii) : ascii :=
  let n := N_of_ascii c in if (65 <=? n)%N && (n <=? 90)%N then ascii_of_N (n + 32) else c.

(** [str::to_ascii_lowercase] *)
Fixpoint to_ascii_lowercase (s : string) : string :=
  match s with EmptyString => EmptyString | String c s => String (to_lower c) (to_ascii_lowercase s) end.

(** [str::eq_ignore_ascii_case] *)
Fixpoint eq_ignore_ascii_case (a b : string) : bool :=
  match a, b with
  | EmptyString, EmptyString => true
  | String x a, String y b => Ascii.eqb (to_lower x) (to_lower y) && eq_ignore_ascii_case a b
  | _, _ => false
  end.

(** ** Names made of a text *)

(** [char::is_ascii_alphanumeric] *)
Definition alphanumeric (c : ascii) : bool :=
  let n := N_of_ascii c in (bool_decide (48 ≤ n ≤ 57) || bool_decide (65 ≤ n ≤ 90) || bool_decide (97 ≤ n ≤ 122))%N.

(** [chars().map(..)]: one ['-'] for each character that is not alphanumeric, however many
    bytes it has. *)
Fixpoint slug (s : string) : string :=
  match s with
  | EmptyString => EmptyString
  | String c s =>
      if alphanumeric c then String c (slug s)
      else if bool_decide (128 ≤ N_of_ascii c < 192)%N then slug s
      else String "-" (slug s)
  end.

Fixpoint dashes_only (s : string) : bool :=
  match s with EmptyString => true | String c s => Ascii.eqb c "-" && dashes_only s end.
Fixpoint trim_dashes_start (s : string) : string :=
  match s with String c r => if Ascii.eqb c "-" then trim_dashes_start r else s | EmptyString => s end.
Fixpoint trim_dashes_end (s : string) : string :=
  if dashes_only s then EmptyString else match s with String c r => String c (trim_dashes_end r) | EmptyString => s end.

(** [l.join(sep)] *)
Definition join (sep : string) (l : list string) : string := String.concat sep l.

(** ** Sets of texts *)

(** [BTreeSet::into_iter] *)
Definition string_le (a b : string) : Prop := Is_true (String.leb a b).
#[export] Instance string_le_dec : RelDecision string_le.
Proof. intros a b. unfold string_le. apply _. Defined.
Definition btree_set_iter (X : gset string) : list string := merge_sort string_le (elements X).

(** ** Lemmas *)

Lemma elem_of_btree_set_iter X a : a ∈ btree_set_iter X ↔ a ∈ X.
Proof. unfold btree_set_iter. by rewrite merge_sort_Permutation, elem_of_elements. Qed.

Lemma NoDup_btree_set_iter X : NoDup (btree_set_iter X).
Proof. unfold btree_set_iter. rewrite merge_sort_Permutation. apply NoDup_elements. Qed.


Lemma strip_prefix_append p s : strip_prefix p (p +:+ s) = Some s.
Proof. induction p as [|c p IH]; [done|]. rewrite append_cons. cbn [strip_prefix]. by rewrite Ascii.eqb_refl. Qed.

Lemma strip_prefix_Some p s rest : strip_prefix p s = Some rest → s = p +:+ rest.
Proof.
  revert s. induction p as [|c p IH]; intros s; [by intros [= ->]|]. destruct s as [|c' s]; [done|]. cbn [strip_prefix].
  destruct (Ascii.eqb_spec c c') as [<-|]; [|done]. intros ->%IH. by rewrite append_cons.
Qed.

Lemma strip_suffix_Some p s rest : strip_suffix p s = Some rest → s = rest +:+ p.
Proof.
  revert rest. induction s as [|c s IH]; intros rest; cbn [strip_suffix].
  - destruct (String.eqb_spec "" p) as [<-|]; [by intros [= <-]|done].
  - destruct (String.eqb_spec (String c s) p) as [<-|]; [by intros [= <-]|]. destruct (strip_suffix p s) as [r|]; [|done].
    intros [= <-]. rewrite append_cons. f_equal. by apply IH.
Qed.

Lemma has_prefix_spec p s : has_prefix p s = true ↔ ∃ r, s = p +:+ r.
Proof.
  unfold has_prefix. rewrite bool_decide_eq_true. split; [intros [r Hr%strip_prefix_Some]; by exists r|].
  intros [r ->]. rewrite strip_prefix_append. by eexists.
Qed.

Lemma string_length_append s t : String.length (s +:+ t) = String.length s + String.length t.
Proof. induction s as [|c s IH]; [done|]. rewrite append_cons. cbn. by rewrite IH. Qed.

Lemma strip_suffix_append p s : strip_suffix p (s +:+ p) = Some s.
Proof.
  induction s as [|c s IH].
  - change ("" +:+ p) with p. destruct p; cbn [strip_suffix]; by rewrite String.eqb_refl.
  - rewrite append_cons. cbn [strip_suffix]. destruct (String.eqb_spec (String c (s +:+ p)) p) as [Heq|_].
    + apply (f_equal String.length) in Heq. cbn in Heq. rewrite string_length_append in Heq. lia.
    + by rewrite IH.
Qed.

Lemma has_suffix_spec p s : has_suffix p s = true ↔ ∃ r, s = r +:+ p.
Proof.
  unfold has_suffix. rewrite bool_decide_eq_true. split; [intros [r Hr%strip_suffix_Some]; by exists r|].
  intros [r ->]. rewrite strip_suffix_append. by eexists.
Qed.

Lemma split_on_nonempty sep s : split_on sep s ≠ [].
Proof. destruct s as [|c s]; [done|]. cbn [split_on]. destruct (Ascii.eqb c sep); [done|]. by destruct (split_on sep s). Qed.

Lemma split_on_append sep a b : split_on sep (a +:+ String sep b) = split_on sep a ++ split_on sep b.
Proof.
  induction a as [|c a IH]; [rewrite append_nil; cbn [split_on]; by rewrite Ascii.eqb_refl|].
  rewrite append_cons. cbn [split_on]. rewrite IH. destruct (Ascii.eqb c sep); [done|].
  pose proof (split_on_nonempty sep a). by destruct (split_on sep a).
Qed.

Lemma split_on_line sep s : contains_char sep s = false → split_on sep s = [s].
Proof. induction s as [|c s IH]; [done|]. cbn [contains_char split_on]. intros [Hc Hs]%orb_false_iff. by rewrite Hc, IH. Qed.

Lemma lines_of_app l l' : l' ≠ [] → lines_of (l ++ l') = ((λ seg, default seg (strip_suffix (String carriage_return "") seg)) <$> l) ++ lines_of l'.
Proof.
  intros Hl'. induction l as [|seg l IH]; [done|]. cbn [app fmap list_fmap]. rewrite <-IH. cbn [lines_of].
  destruct l as [|seg' l]; [|done]. by destruct l'.
Qed.

(** A terminated piece has the lines it has alone. *)
Lemma lines_append a b : lines (a +:+ String newline b) = lines (a +:+ String newline "") ++ lines b.
Proof.
  unfold lines. rewrite !split_on_append, !lines_of_app by apply split_on_nonempty. cbn. by rewrite app_nil_r.
Qed.

Lemma lines_line a : contains_char newline a = false → strip_suffix (String carriage_return "") a = None → lines (a +:+ String newline "") = [a].
Proof. intros Ha Hs. unfold lines. rewrite split_on_append, lines_of_app, split_on_line by (done || apply split_on_nonempty). cbn. by rewrite Hs. Qed.

Lemma contains_char_append c s t : contains_char c (s +:+ t) = contains_char c s || contains_char c t.
Proof. induction s as [|d s IH]; [done|]. rewrite append_cons. cbn [contains_char]. by rewrite IH, orb_assoc. Qed.

Lemma after_last_append sep a s x : after_last sep s = Some x → after_last sep (a +:+ s) = Some x.
Proof. intros Hs. induction a as [|c a IH]; [done|]. rewrite append_cons. cbn [after_last]. by rewrite IH. Qed.
