(* ===== verification/KeyRelease.v ===== *)
(** * Release of sealed keys

    [crates/core/src/key_release.rs] (the decision), [crates/app/src/attestation_verifier.rs]
    (the loopback quote verifier) and the release services of
    [crates/app/src/boundary_keeper.rs]: one that holds sealed records in memory and one
    that asks a key-management service once the decision allows it. *)

From S2P Require Import Prelude Ids BoundaryLifecycle.

(** ** The decision *)

Inductive EntitlementIneligibility := NoActiveEntitlement | Blocked | Expired.

Inductive EntitlementVerdict := V_Active | V_Ineligible (why : EntitlementIneligibility).

Definition verdict_is_active (v : EntitlementVerdict) : bool :=
  match v with V_Active => true | V_Ineligible _ => false end.

Record EntitlementProof := mkProof { engagement : string; proof_verdict : EntitlementVerdict }.

Record SealedKeyRecord := mkSealedKey {
  sealed_id : string;
  sealed_measurement : CodeMeasurement;
  key_bytes : list N;
}.

Record KeyReleaseRequest := mkKeyRequest {
  sealed_key_id : string;
  req_evidence : AttestationEvidence;
  req_entitlement : EntitlementProof;
}.

Inductive KeyReleaseDenial :=
| UnknownSealedKey | UntrustedAttestation | MeasurementMismatch
| Unentitled (why : EntitlementIneligibility) | ReleaseUnavailable.

Inductive KeyReleaseDecision := Released (bytes : list N) | Denied (why : KeyReleaseDenial).

Definition released_key (d : KeyReleaseDecision) : option (list N) :=
  match d with Released k => Some k | Denied _ => None end.

Definition is_released (d : KeyReleaseDecision) : bool :=
  match d with Released _ => true | Denied _ => false end.

Definition decide (request : KeyReleaseRequest) (sealed_key : SealedKeyRecord) : KeyReleaseDecision :=
  if negb (bool_decide (sealed_key_id request = sealed_id sealed_key)) then Denied UnknownSealedKey
  else if negb (is_trustworthy (req_evidence request)) then Denied UntrustedAttestation
  else if negb (bool_decide (measurement (quote (req_evidence request)) = sealed_measurement sealed_key))
  then Denied MeasurementMismatch
  else match proof_verdict (req_entitlement request) with
       | V_Ineligible why => Denied (Unentitled why)
       | V_Active => Released (key_bytes sealed_key)
       end.

(** The evidence vouches for the measurement [m] the quote claimed. *)
Definition vouches (e : AttestationEvidence) (m : CodeMeasurement) : Prop :=
  verdict e = Verified m ∧ measurement (quote e) = m.

#[export] Instance QuoteRejection_eq_dec : EqDecision QuoteRejection.
Proof. solve_decision. Defined.
#[export] Instance QuoteVerificationResult_eq_dec : EqDecision QuoteVerificationResult.
Proof. solve_decision. Defined.
#[export] Instance vouches_dec e m : Decision (vouches e m).
Proof. unfold vouches. apply _. Defined.

Lemma trustworthy_vouches e : is_trustworthy e = true ↔ vouches e (measurement (quote e)).
Proof.
  unfold is_trustworthy, vouches. rewrite bool_decide_eq_true.
  destruct (verdict e) as [m|]; simpl; [|naive_solver]. split; [by intros [= ->]|by intros [[= ->] _]].
Qed.

(** The decision for a request that names the key. *)
Lemma decide_cases request key :
  decide request key =
    if bool_decide (sealed_key_id request = sealed_id key) then
      if is_trustworthy (req_evidence request) then
        if bool_decide (vouches (req_evidence request) (sealed_measurement key)) then
          match proof_verdict (req_entitlement request) with
          | V_Ineligible why => Denied (Unentitled why)
          | V_Active => Released (key_bytes key)
          end
        else Denied MeasurementMismatch
      else Denied UntrustedAttestation
    else Denied UnknownSealedKey.
Proof.
  unfold decide. case_bool_decide; simpl; [|done].
  destruct (is_trustworthy (req_evidence request)) eqn:Ht; simpl; [|done].
  apply trustworthy_vouches in Ht as [Hv _].
  case_bool_decide as Hm; simpl; case_bool_decide as Hv'; try done.
  - destruct Hv'. rewrite <- Hm. by split.
  - by destruct Hv' as [_ ?].
Qed.

Lemma decide_released request key bytes :
  decide request key = Released bytes ↔
     bytes = key_bytes key ∧ sealed_key_id request = sealed_id key
     ∧ vouches (req_evidence request) (sealed_measurement key)
     ∧ proof_verdict (req_entitlement request) = V_Active.
Proof.
  rewrite decide_cases. split.
  - intros Hd. repeat case_match; guards; naive_solver.
  - intros (-> & Hid & Hv & Ha). rewrite bool_decide_eq_true_2 by done.
    assert (is_trustworthy (req_evidence request) = true) as ->.
    { apply trustworthy_vouches. destruct Hv as [? Hm]. rewrite Hm. by split. }
    rewrite bool_decide_eq_true_2 by done. by rewrite Ha.
Qed.

(** A sealed key is released exactly to a request that names it, whose evidence vouches
    for the measurement the key is sealed to, and that presents an active entitlement; a
    denial for want of an entitlement is given only to a host that passed every
    attestation check, so an untrusted host never learns the billing status. *)
Theorem key_release_iff (request : KeyReleaseRequest) (key : SealedKeyRecord) :
  (∀ bytes, decide request key = Released bytes ↔
     bytes = key_bytes key ∧ sealed_key_id request = sealed_id key
     ∧ vouches (req_evidence request) (sealed_measurement key)
     ∧ proof_verdict (req_entitlement request) = V_Active)
  ∧ (∀ why, decide request key = Denied (Unentitled why) ↔
       sealed_key_id request = sealed_id key
       ∧ vouches (req_evidence request) (sealed_measurement key)
       ∧ proof_verdict (req_entitlement request) = V_Ineligible why)
  ∧ decide request key ≠ Denied ReleaseUnavailable.
Proof.
  split_and!; [intros bytes; apply decide_released|intros why|]; rewrite decide_cases.
  - split.
    + intros Hd. repeat case_match; guards; naive_solver.
    + intros (Hid & Hv & Ha). rewrite bool_decide_eq_true_2 by done.
      assert (is_trustworthy (req_evidence request) = true) as ->.
      { apply trustworthy_vouches. destruct Hv as [? Hm]. rewrite Hm. by split. }
      rewrite bool_decide_eq_true_2 by done. by rewrite Ha.
  - repeat case_match; done.
Qed.

(** ** Quote verification *)

(** [trait QuoteVerifier] *)
Definition QuoteVerifier : Type := AttestationQuote → string → QuoteVerificationResult.

Definition trusts (allowed : list CodeMeasurement) (m : CodeMeasurement) : bool :=
  existsb (λ a, bool_decide (a = m)) allowed.

Definition loopback_verify (allowed : list CodeMeasurement) : QuoteVerifier := λ quote expected_nonce,
  if bool_decide (quote_bytes quote = []) then QuoteRejected UntrustedSignature
  else if negb (String.eqb (nonce quote) expected_nonce) then QuoteRejected StaleNonce
  else if negb (trusts allowed (measurement quote)) then QuoteRejected UnknownMeasurement
  else Verified (measurement quote).

Lemma loopback_verified allowed q n m :
  loopback_verify allowed q n = Verified m ↔
    m = measurement q ∧ m ∈ allowed ∧ nonce q = n ∧ quote_bytes q ≠ [].
Proof.
  assert (∀ m, trusts allowed m = true ↔ m ∈ allowed) as Ht.
  { intros m'. unfold trusts. rewrite existsb_exists. setoid_rewrite bool_decide_eq_true.
    rewrite list_elem_of_In. naive_solver. }
  unfold loopback_verify. case_bool_decide as Hb; [naive_solver|].
  destruct (String.eqb_spec (nonce q) n) as [Hn|Hn]; simpl; [|naive_solver].
  destruct (trusts allowed (measurement q)) eqn:Htr; simpl.
  - apply Ht in Htr. naive_solver.
  - assert (measurement q ∉ allowed) by (intros Hin%Ht; congruence). naive_solver.
Qed.

(** ** Release services *)

(** [trait SealedKeyReleaseService] *)
Record KeyService := mkKeyService {
  release : KeyReleaseRequest → KeyReleaseDecision;
  sealed_key_ids_for_measurement : CodeMeasurement → list string;
}.

(** What a service promises the gate: which measurement each key is bound to, that the
    keys of a measurement are exactly those, and that it releases nothing the decision
    would not. *)
Class KeyServiceLaws (ks : KeyService) := {
  bound_to : string → option CodeMeasurement;
  ids_bound : ∀ m id, id ∈ sealed_key_ids_for_measurement ks m ↔ bound_to id = Some m;
  ids_once : ∀ m, NoDup (sealed_key_ids_for_measurement ks m);
  release_gated : ∀ request bytes, release ks request = Released bytes →
    ∃ m, bound_to (sealed_key_id request) = Some m ∧ vouches (req_evidence request) m
      ∧ proof_verdict (req_entitlement request) = V_Active;
}.

(** [LoopbackKeyReleaseService] *)
Definition Loopback : Type := gmap string SealedKeyRecord.

Definition seal (service : Loopback) (record : SealedKeyRecord) : Loopback :=
  <[sealed_id record := record]> service.

Definition with_keys (records : list SealedKeyRecord) : Loopback := fold_left seal records ∅.

Definition loopback_release (service : Loopback) (request : KeyReleaseRequest) : KeyReleaseDecision :=
  match service !! sealed_key_id request with
  | Some record => decide request record
  | None => Denied UnknownSealedKey
  end.

Definition loopback_ids (service : Loopback) (m : CodeMeasurement) : list string :=
  sealed_id <$> filter (λ r, sealed_measurement r = m) (btree_values service).

Definition loopback_service (service : Loopback) : KeyService :=
  mkKeyService (loopback_release service) (loopback_ids service).

Definition keyed_by_id (service : Loopback) : Prop := ∀ id r, service !! id = Some r → sealed_id r = id.

Lemma with_keys_keyed records : keyed_by_id (with_keys records).
Proof.
  unfold with_keys. assert (keyed_by_id ∅) as H0 by (by intros id r ?%lookup_empty_Some).
  revert H0. generalize (∅ : Loopback) as service. induction records as [|r records IH]; intros service Hk; [done|].
  simpl. apply IH. unfold seal. intros id x [[<- <-]|[_ Hx]]%lookup_insert_Some; [done|by apply Hk].
Qed.

(** Distinct keys of a map come out once. *)
Lemma btree_values_NoDup {V} (m : gmap string V) (f : V → string) :
  (∀ id v, m !! id = Some v → f v = id) → NoDup (f <$> btree_values m).
Proof.
  intros Hf. rewrite (btree_values_perm m), <- list_fmap_compose.
  assert ((f ∘ snd) <$> map_to_list m = (map_to_list m).*1) as ->; [|apply NoDup_fst_map_to_list].
  apply Forall_fmap_ext, Forall_forall. intros [k v] Hi. simpl. apply Hf. by apply elem_of_map_to_list.
Qed.

Lemma NoDup_fmap_filter {A B} (f : A → B) (P : A → Prop) `{∀ x, Decision (P x)} l :
  NoDup (f <$> l) → NoDup (f <$> filter P l).
Proof.
  induction l as [|x l IH]; [done|]. rewrite fmap_cons, filter_cons. intros [Hx Hl]%NoDup_cons.
  case_decide; [|auto]. rewrite fmap_cons. apply NoDup_cons. split; [|auto].
  intros (y & Hxy & Hy)%list_elem_of_fmap. apply Hx, list_elem_of_fmap. exists y. split; [done|].
  by apply list_elem_of_filter in Hy as [_ ?].
Qed.

#[export] Instance loopback_laws records : KeyServiceLaws (loopback_service (with_keys records)).
Proof.
  pose proof (with_keys_keyed records) as Hk. set (service := with_keys records) in *.
  refine {| bound_to := λ id, sealed_measurement <$> service !! id |}; simpl.
  - intros m id. unfold loopback_ids. rewrite list_elem_of_fmap, fmap_Some. split.
    + intros (r & -> & [<- [k Hr]%elem_of_btree_values]%list_elem_of_filter). exists r.
      by rewrite (Hk k r Hr).
    + intros (r & Hr & ->). exists r. split; [by rewrite (Hk id r Hr)|].
      apply list_elem_of_filter. split; [done|]. apply elem_of_btree_values. by exists id.
  - intros m. unfold loopback_ids. apply NoDup_fmap_filter, btree_values_NoDup. exact Hk.
  - intros request bytes. unfold loopback_release.
    destruct (service !! sealed_key_id request) as [r|] eqn:Hr; [|done]. intros Hd.
    apply decide_released in Hd as (_ & _ & Hv & Ha). exists (sealed_measurement r). done.
Defined.

(** [KmsKeyReleaseService]: the bindings, and the unwrapping call of the service. *)
Record KmsKeyBinding := mkBinding { bind_measurement : CodeMeasurement; key_policy_id : string }.

Inductive SkrError := PolicyRejected | CallFailed.

Definition kms_release (bindings : gmap string KmsKeyBinding)
    (unwrap_key : string → AttestationEvidence → result SkrError (list N))
    (request : KeyReleaseRequest) : KeyReleaseDecision :=
  match bindings !! sealed_key_id request with
  | None => Denied UnknownSealedKey
  | Some binding =>
      match decide request (mkSealedKey (sealed_key_id request) (bind_measurement binding) []) with
      | Denied why => Denied why
      | Released _ =>
          match unwrap_key (key_policy_id binding) (req_evidence request) with
          | Ok bytes => Released bytes
          | Err _ => Denied ReleaseUnavailable
          end
      end
  end.

Definition kms_ids (bindings : gmap string KmsKeyBinding) (m : CodeMeasurement) : list string :=
  fst <$> filter (λ p, bind_measurement p.2 = m) (btree_iter bindings).

Definition kms_service bindings unwrap_key : KeyService :=
  mkKeyService (kms_release bindings unwrap_key) (kms_ids bindings).

#[export] Instance kms_laws bindings unwrap_key : KeyServiceLaws (kms_service bindings unwrap_key).
Proof.
  refine {| bound_to := λ id, bind_measurement <$> bindings !! id |}; simpl.
  - intros m id. unfold kms_ids. rewrite list_elem_of_fmap, fmap_Some. split.
    + intros ([k b] & -> & [<- Hb%elem_of_btree_iter]%list_elem_of_filter). by exists b.
    + intros (b & Hb & ->). exists (id, b). split; [done|].
      apply list_elem_of_filter. split; [done|]. by apply elem_of_btree_iter.
  - intros m. unfold kms_ids. apply NoDup_fmap_filter. rewrite btree_iter_perm.
    apply NoDup_fst_map_to_list.
  - intros request bytes. unfold kms_release.
    destruct (bindings !! sealed_key_id request) as [b|] eqn:Hb; [|done].
    destruct (decide request _) as [k|] eqn:Hd; [|done]. intros _.
    apply decide_released in Hd as (_ & _ & Hv & Ha). exists (bind_measurement b). done.
Defined.
