(* ===== verification/Keeper.v ===== *)
(** * Attested runs: packages, entitlements, boundary acceptance, key release and metering

    The shell functions that compose the reducers through the store:
    [crates/app/src/package_flow.rs] (publish, install, entitle, readiness, the
    attested-run verdict), [accept_boundary_attested] and [pairing_policy_admits] of
    [crates/app/src/boundary_keeper.rs], [release_sealed_keys] and
    [attested_run_usage] of [crates/app/src/resource_store.rs], and the acceptance of an
    attested boundary in [crates/app/src/library_state.rs] that strings them together.
    [serde_json] on each type is an argument with its round-trip law, the clock and the
    quote verifier are arguments. *)

From S2P Require Import Prelude Ids Lifecycle AgentVersion Distribution Entitlement BoundaryLifecycle Store StoreSystem Desk Records KeyRelease.

(** ** Scopes and records *)

Definition dist_scope (package_id : string) : string := "dist::" +:+ package_id.
Definition version_scope (version_id : string) : string := "version::" +:+ version_id.
Definition entitle_scope (package_id context : string) : string :=
  "entitle::" +:+ package_id +:+ "::" +:+ context.
Definition attested_run_scope (engagement : string) : string := "attest-run::" +:+ engagement.

Definition ATTESTED_GRANT_KIND : string := "attested-run-grant".
Definition KEY_RELEASE_KIND : string := "key-release-grant".
Definition ATTESTED_RUN_METER_KIND : string := "attested-run-meter".

Record AttestedRunGrant := mkRunGrant { expires_at_ms : option N }.

Record KeyReleaseGrant := mkKeyGrant {
  grant_key : string;
  grant_measurement : CodeMeasurement;
  grant_boundary : string;
  grant_participant : string;
}.

Record AttestedRunMeterRecord := mkMeter {
  meter_measurement : CodeMeasurement;
  meter_boundary : string;
  meter_participant : string;
  released_keys : N;
}.

Record AttestedRunUsage := mkUsage {
  attested_runs : N;
  release_events : N;
  distinct_keys : N;
  measurements : list string;
}.

(** ** The store the flows run on *)

Inductive KeeperKind := K_Version | K_Dist | K_Entitlement | K_Boundary.

#[export] Instance KeeperKind_eq_dec : EqDecision KeeperKind.
Proof. solve_decision. Defined.

Section keeper.
Context (codec : option ContentCodec) (anchor : string → string) (reducer_build : string).
Context (version_json : Json AgentVersion.VersionEvent) (dist_json : Json Distribution.DistEvent)
        (entitlement_json : Json Entitlement.EntitlementEvent) (boundary_json : Json BoundaryEvent).
Context (version_record_json : Json VersionRecord) (package_record_json : Json PackageRecord)
        (run_grant_json : Json AttestedRunGrant) (key_grant_json : Json KeyReleaseGrant)
        (meter_json : Json AttestedRunMeterRecord).

Definition admit_in (L : Lifecycle) (json : Json (lc_event L)) (scope : string) (command : lc_command L)
    : Prog (lc_state L) := λ db, store_admit codec anchor reducer_build L json db scope command.

Definition admit_version := admit_in AgentVersion.version_lifecycle version_json.
Definition admit_dist := admit_in Distribution.dist_lifecycle dist_json.
Definition admit_entitlement := admit_in Entitlement.entitlement_lifecycle entitlement_json.

Definition fold_dist (db : Db) (scope : string) :=
  fold codec anchor reducer_build Distribution.dist_lifecycle dist_json db scope.
Definition fold_entitlement (db : Db) (scope : string) :=
  fold codec anchor reducer_build Entitlement.entitlement_lifecycle entitlement_json db scope.

(** ** Publishing, installing, entitling *)

Definition freeze_version (source_scope : string) (rec : VersionRecord) : Prog unit :=
  let vs := version_scope (ver_id rec) in
  do _ <- admit_version vs AgentVersion.C_CreateDraft;
  do _ <- admit_version vs AgentVersion.C_FreezeVersion;
  put codec version_record_json source_scope rec.

Definition publish (source_scope : string) (rec : PackageRecord) : Prog unit :=
  do _ <- admit_version (version_scope (pkg_version rec)) AgentVersion.C_RecordPackageReference;
  do _ <- admit_dist (dist_scope (pkg_id rec)) Distribution.C_PublishPackage;
  put codec package_record_json source_scope rec.

Definition install (package_id : string) : Prog Distribution.DistPhase :=
  let ds := dist_scope package_id in
  do _ <- admit_dist ds Distribution.C_RequestInstall;
  do _ <- admit_dist ds Distribution.C_TargetAdmitInstall;
  do state <- admit_dist ds Distribution.C_InstallPackage;
  ret (Distribution.phase state).

Definition entitle (package_id context : string) : Prog unit :=
  let es := entitle_scope package_id context in
  do _ <- admit_entitlement es Entitlement.C_AdmitPackageInstall;
  do _ <- admit_entitlement es Entitlement.C_RequestEntitlement;
  do _ <- admit_entitlement es Entitlement.C_ActivateEntitlement;
  ret ().

Definition suspend (package_id context : string) : Prog unit :=
  do _ <- admit_entitlement (entitle_scope package_id context) Entitlement.C_SuspendEntitlement;
  ret ().

Definition withdraw (package_id : string) : Prog unit :=
  do _ <- admit_dist (dist_scope package_id) Distribution.C_WithdrawPackage;
  ret ().

Definition is_installed (db : Db) (package_id : string) : result failure bool :=
  let? s := fold_dist db (dist_scope package_id) in
  Ok (bool_decide (Distribution.phase s = Distribution.P_Installed)).

Definition is_entitled (db : Db) (package_id context : string) : result failure bool :=
  let? s := fold_entitlement db (entitle_scope package_id context) in
  Ok (Entitlement.active_entitlement s).

(** [&&] on two [?]: the second fold is read only when the first holds. *)
Definition run_ready (db : Db) (package_id context : string) : result failure bool :=
  let? installed := is_installed db package_id in
  if installed then is_entitled db package_id context else Ok false.

(** ** Attested runs *)

Definition entitle_attested_run_until (engagement : string) (expires : option N) : Prog unit :=
  let es := attested_run_scope engagement in
  do _ <- admit_entitlement es Entitlement.C_AdmitPackageInstall;
  do _ <- admit_entitlement es Entitlement.C_RequestEntitlement;
  do _ <- admit_entitlement es Entitlement.C_ActivateEntitlement;
  do payload <- serialized run_grant_json (mkRunGrant expires);
  do _ <- (λ db, append_record codec db es ATTESTED_GRANT_KIND payload);
  ret ().

Definition entitle_attested_run (engagement : string) : Prog unit :=
  entitle_attested_run_until engagement None.

Definition suspend_attested_run (engagement : string) : Prog unit :=
  do _ <- admit_entitlement (attested_run_scope engagement) Entitlement.C_SuspendEntitlement;
  ret ().

Definition latest_attested_grant (db : Db) (engagement : string)
    : result failure (option AttestedRunGrant) :=
  try_fold (λ _ row, let? grant := ok_or (from_json run_grant_json row) (Failed AE_Json) in Ok (Some grant))
    None (records codec db (attested_run_scope engagement) ATTESTED_GRANT_KIND).

Definition attested_run_verdict_at (db : Db) (engagement : string) (now_ms : N)
    : result failure EntitlementVerdict :=
  let? s := fold_entitlement db (attested_run_scope engagement) in
  if Entitlement.active_entitlement s then
    let? grant := latest_attested_grant db engagement in
    Ok match grant with
       | Some g => match expires_at_ms g with
                   | Some exp => if bool_decide (exp ≤ now_ms)%N then V_Ineligible Expired else V_Active
                   | None => V_Active
                   end
       | None => V_Active
       end
  else
    Ok match Entitlement.phase s with
       | Entitlement.P_Suspended | Entitlement.P_Closed => V_Ineligible Blocked
       | _ => V_Ineligible NoActiveEntitlement
       end.

(** ** The attested acceptance *)

Inductive AcceptError :=
| A_QuoteRejected (why : QuoteRejection)
| A_Boundary (r : Rejection)
| A_Store (f : failure).

Definition accept_boundary_attested (db : Db) (scope participant : string) (quote : AttestationQuote)
    (expected_nonce : string) (verifier : QuoteVerifier) (keys : KeyService)
    (entitlement : EntitlementVerdict) (key_id : option string)
    : Db * result AcceptError (BoundaryState * option KeyReleaseDecision) :=
  match verifier quote expected_nonce with
  | QuoteRejected why => (db, Err (A_QuoteRejected why))
  | Verified m =>
      let evidence := mkAttestationEvidence quote (Verified m) in
      match admit_in boundary_lifecycle boundary_json scope (C_Accept participant (Some evidence)) db with
      | (db', Err (Failed (AE_Rejected r))) => (db', Err (A_Boundary r))
      | (db', Err other) => (db', Err (A_Store other))
      | (db', Ok state) =>
          (db', Ok (state, (λ id, release keys (mkKeyRequest id evidence (mkProof scope entitlement)))
                           <$> key_id))
      end
  end.

(** [pairing_policy_admits]: the readable records of the boundary, folded from its
    default; anything unreadable refuses. *)
Definition boundary_of_records (rows : list string) : option BoundaryState :=
  foldM (λ state row, evolve state <$> from_json boundary_json row) boundary_default rows.

Definition pairing_policy_admits (db : Db) (scope : string) (policy : PlacementPolicy)
    (measurement_verified : bool) : bool :=
  match boundary_of_records (records codec db scope (KIND boundary_lifecycle)) with
  | None => false
  | Some state => match placement state with
                  | None => false
                  | Some declared => pairing_admitted policy declared measurement_verified
                  end
  end.

(** ** Releasing every key of a measurement, and metering it *)

Section release.
Context (keys : KeyService) (engagement boundary participant : string) (evidence : AttestationEvidence)
        (entitlement : EntitlementVerdict) (m : CodeMeasurement).

Definition request_for (id : string) : KeyReleaseRequest :=
  mkKeyRequest id evidence (mkProof engagement entitlement).

Fixpoint release_loop (ids : list string) (out : list (string * KeyReleaseDecision)) (released : N)
    : Prog (list (string * KeyReleaseDecision) * N) :=
  match ids with
  | [] => ret (out, released)
  | id :: ids =>
      let decision := release keys (request_for id) in
      if is_released decision then
        do payload <- serialized key_grant_json (mkKeyGrant id m boundary participant);
        do _ <- (λ db, append_record codec db engagement KEY_RELEASE_KIND payload);
        release_loop ids (out ++ [(id, decision)]) (released + 1)
      else release_loop ids (out ++ [(id, decision)]) released
  end.
End release.

Definition release_sealed_keys (keys : KeyService) (engagement boundary participant : string)
    (evidence : AttestationEvidence) (entitlement : EntitlementVerdict)
    : Prog (list (string * KeyReleaseDecision)) :=
  match verified_measurement (verdict evidence) with
  | None => ret []
  | Some m =>
      do p <- release_loop keys engagement boundary participant evidence entitlement m
                (sealed_key_ids_for_measurement keys m) [] 0;
      if bool_decide (0 < p.2)%N then
        do payload <- serialized meter_json (mkMeter m boundary participant p.2);
        do _ <- (λ db, append_record codec db engagement ATTESTED_RUN_METER_KIND payload);
        ret p.1
      else ret p.1
  end.

Definition all_from_json {E} (json : Json E) (rows : list string) : result failure (list E) :=
  try_fold (λ out row, let? e := ok_or (from_json json row) (Failed AE_Json) in Ok (out ++ [e])) [] rows.

Definition attested_run_usage (db : Db) (engagement : string) : result failure AttestedRunUsage :=
  let? meters := all_from_json meter_json (records codec db engagement ATTESTED_RUN_METER_KIND) in
  let? grants := all_from_json key_grant_json (records codec db engagement KEY_RELEASE_KIND) in
  Ok (mkUsage (N.of_nat (length meters)) (N.of_nat (length grants))
        (N.of_nat (size (list_to_set (grant_key <$> grants) : gset string)))
        (merge_sort String.le (elements (list_to_set (digest_hex ∘ grant_measurement <$> grants) : gset string)))).

(** Accepting an attested boundary: the verdict of its engagement, the gate, then every
    key of the evidence the boundary recorded for the participant. *)
Definition accept_attested (db : Db) (boundary_id participant : string) (quote : AttestationQuote)
    (expected : string) (verifier : QuoteVerifier) (keys : KeyService) (now_ms : N)
    (key_id : option string) : Db * result AcceptError (BoundaryState * option bool) :=
  match attested_run_verdict_at db boundary_id now_ms with
  | Err f => (db, Err (A_Store f))
  | Ok entitlement =>
      match accept_boundary_attested db boundary_id participant quote expected verifier keys entitlement key_id with
      | (db, Err e) => (db, Err e)
      | (db, Ok (state, decision)) =>
          let db := match attestation_evidence state !! participant with
                    | Some evidence =>
                        (release_sealed_keys keys boundary_id boundary_id participant evidence entitlement db).1
                    | None => db
                    end in
          (db, Ok (state, is_released <$> decision))
      end
  end.

(** ** What the flows read and write *)

Context `{!CodecLaws codec, !AnchorLaws anchor, !JsonLaws version_json, !JsonLaws dist_json,
          !JsonLaws entitlement_json, !JsonLaws boundary_json, !JsonLaws key_grant_json,
          !JsonLaws meter_json}.

Definition keeper (k : KeeperKind) : Hosted :=
  match k with
  | K_Version => mkHosted AgentVersion.version_lifecycle version_json _ _
                   (no_snapshot AgentVersion.version_lifecycle eq_refl)
  | K_Dist => mkHosted Distribution.dist_lifecycle dist_json _ _
                (no_snapshot Distribution.dist_lifecycle eq_refl)
  | K_Entitlement => mkHosted Entitlement.entitlement_lifecycle entitlement_json _ _
                       (no_snapshot Entitlement.entitlement_lifecycle eq_refl)
  | K_Boundary => mkHosted boundary_lifecycle boundary_json _ _ (no_snapshot boundary_lifecycle eq_refl)
  end.

Lemma keeper_kinds i j : KIND (lifecycle (keeper i)) = KIND (lifecycle (keeper j)) → i = j.
Proof. by destruct i, j. Qed.

(** What a scope's rows say for each lifecycle. *)
Definition dist_log (db : Db) (scope : string) : list Distribution.DistEvent → Prop :=
  holds codec reducer_build keeper K_Dist db scope.
Definition entitlement_log (db : Db) (scope : string) : list Entitlement.EntitlementEvent → Prop :=
  holds codec reducer_build keeper K_Entitlement db scope.
Definition boundary_log (db : Db) (scope : string) : list BoundaryEvent → Prop :=
  holds codec reducer_build keeper K_Boundary db scope.

Lemma entitlement_read db scope :
  system_ok codec reducer_build keeper db →
  ∃ log s, entitlement_log db scope log ∧ fold_entitlement db scope = Ok s
    ∧ Entitlement.active_entitlement s = Entitlement.granted log.
Proof.
  intros [Hok Hall]. destruct (Hall K_Entitlement scope) as (log & s & Ht & Hh). exists log, s.
  split_and!; [done| |by apply Entitlement.trace_active].
  exact (holds_fold codec anchor reducer_build keeper K_Entitlement db scope log s Hok Hh Ht).
Qed.

Lemma dist_read db scope :
  system_ok codec reducer_build keeper db →
  ∃ log, dist_log db scope log ∧ fold_dist db scope = Ok (Distribution.told log).
Proof.
  intros [Hok Hall]. destruct (Hall K_Dist scope) as (log & s & Ht & Hh). exists log. split; [done|].
  pose proof (Distribution.trace_told log s Ht) as <-.
  exact (holds_fold codec anchor reducer_build keeper K_Dist db scope log s Hok Hh Ht).
Qed.

(** Install alone is never enough. In every database the service reaches, readiness
    reads without an error and holds exactly when the last phase the package's log
    records is its installation and the last standing the entitlement's log records is
    active. *)
Theorem run_ready_iff db package_id context :
  served codec anchor reducer_build keeper db →
  ∃ installs entitlements,
    dist_log db (dist_scope package_id) installs
    ∧ entitlement_log db (entitle_scope package_id context) entitlements
    ∧ run_ready db package_id context
      = Ok (bool_decide (last_such Distribution.moves_phase installs = Some Distribution.E_PackageInstalled)
            && Entitlement.granted entitlements).
Proof.
  intros Hdb. pose proof (served_ok codec anchor reducer_build keeper keeper_kinds db Hdb) as Hsys.
  destruct (dist_read db (dist_scope package_id) Hsys) as (installs & Hi & Hfi).
  destruct (entitlement_read db (entitle_scope package_id context) Hsys) as (ents & s & He & Hfe & Hact).
  exists installs, ents. split_and!; [done|done|]. unfold run_ready, is_installed, is_entitled.
  rewrite Hfi, Hfe, Hact. simpl.
  destruct (last_such Distribution.moves_phase installs) as [[]|]; simpl; done.
Qed.

(** ** Grants and meters *)

Definition release_kind (kind : string) : Prop := kind = KEY_RELEASE_KIND ∨ kind = ATTESTED_RUN_METER_KIND.

Lemma append_cases db scope kind payload :
  db_ok db → release_kind kind →
  let op := append_record codec db scope kind payload in
  grows codec release_kind db op.1
  ∧ match op.2 with
    | Err _ => op.1 = db
    | Ok _ => ∀ scope' kind', records codec op.1 scope' kind'
        = records codec db scope' kind' ++ if bool_decide (scope = scope' ∧ kind = kind') then [payload] else []
    end.
Proof.
  intros Hok Hk op. split; [by apply append_record_grows|]. subst op.
  destruct (append_record codec db scope kind payload) as [db' [pos|e]] eqn:Ha; simpl.
  - intros scope' kind'. by destruct (append_record_records codec _ _ _ _ _ _ scope' kind' Hok Ha) as [_ ?].
  - unfold append_record in Ha. destruct (encode_payload codec scope kind payload); [|by simplify_eq].
    unfold transaction in Ha. rewrite insert_event_next in Ha by done. discriminate Ha.
Qed.

Section releasing.
Context (keys : KeyService) (engagement boundary participant : string) (evidence : AttestationEvidence)
        (entitlement : EntitlementVerdict) (m : CodeMeasurement).

Definition decision_on (id : string) : string * KeyReleaseDecision :=
  (id, release keys (request_for engagement evidence entitlement id)).

Definition granted_keys (ids : list string) : list string :=
  filter (λ id, Is_true (is_released (decision_on id).2)) ids.

(** What the loop leaves: grants of keys that were released; and when it ended well,
    one for each of them, in order. *)
Definition wrote (ids : list string) (out : list (string * KeyReleaseDecision)) (n : N) (db : Db)
    (op : Db * result failure (list (string * KeyReleaseDecision) * N)) : Prop :=
  grows codec release_kind db op.1
  ∧ ∃ written payloads,
      written `prefix_of` granted_keys ids
      ∧ Forall2 (λ id p, to_json key_grant_json (mkKeyGrant id m boundary participant) = Some p) written payloads
      ∧ (∀ scope kind, records codec op.1 scope kind = records codec db scope kind
           ++ if bool_decide (engagement = scope ∧ KEY_RELEASE_KIND = kind) then payloads else [])
      ∧ ∀ p, op.2 = Ok p → written = granted_keys ids
          ∧ p = (out ++ (decision_on <$> ids), n + N.of_nat (length written))%N.

Lemma wrote_nothing ids out n db e : db_ok db → wrote ids out n db (db, Err e).
Proof.
  intros Hok. split; [by apply grows_refl|]. exists [], []. split_and!; [apply prefix_nil|done| |done].
  intros. by destruct (bool_decide _); rewrite app_nil_r.
Qed.

Lemma release_loop_spec ids out n db :
  db_ok db →
  wrote ids out n db (release_loop keys engagement boundary participant evidence entitlement m ids out n db).
Proof.
  revert out n db. induction ids as [|id ids IH]; intros out n db Hok; simpl.
  { split; [by apply grows_refl|]. exists [], []. split_and!; [done|done| |].
    - intros. by destruct (bool_decide _); rewrite app_nil_r.
    - intros p [= <-]. split; [done|]. rewrite app_nil_r. f_equal. simpl. lia. }
  change (release keys (request_for engagement evidence entitlement id)) with (decision_on id).2.
  change (id, (decision_on id).2) with (decision_on id).
  destruct (is_released (decision_on id).2) eqn:Hrel.
  - unfold bind, serialized.
    destruct (to_json key_grant_json (mkKeyGrant id m boundary participant)) as [payload|] eqn:Hj;
      simpl; [|by apply wrote_nothing].
    destruct (append_cases db engagement KEY_RELEASE_KIND payload Hok (or_introl eq_refl)) as [Hg Hr].
    destruct (append_record codec db engagement KEY_RELEASE_KIND payload) as [db1 [pos|e]]; simpl in *;
      [|subst db1; by apply wrote_nothing].
    pose proof Hg as (new & [_ _ Hok1] & _).
    destruct (IH (out ++ [decision_on id]) (n + 1)%N db1 Hok1) as (Hg2 & written & payloads & Hpre & Hall & Hrec & Hend).
    split; [by eapply grows_trans|]. exists (id :: written), (payload :: payloads).
    unfold granted_keys. rewrite filter_cons_True by (apply Is_true_true; exact Hrel). split_and!.
    + by apply prefix_cons.
    + by constructor.
    + intros scope kind. rewrite Hrec, Hr. destruct (bool_decide _); [|by rewrite !app_nil_r].
      by rewrite <- app_assoc.
    + intros p Hp. destruct (Hend p Hp) as [-> ->]. split; [done|]. simpl. rewrite <- app_assoc. simpl.
      f_equal. lia.
  - destruct (IH (out ++ [decision_on id]) n db Hok) as (Hg2 & written & payloads & Hpre & Hall & Hrec & Hend).
    split; [done|]. exists written, payloads. unfold granted_keys.
    rewrite filter_cons_False by (rewrite Is_true_true; intros Ht; congruence). split_and!; [done|done|done|].
    intros p Hp. destruct (Hend p Hp) as [-> ->]. split; [done|]. by rewrite <- app_assoc.
Qed.

Lemma granted_released ids :
  granted_keys ids = (filter (λ d, Is_true (is_released d.2)) (decision_on <$> ids)).*1.
Proof.
  induction ids as [|id ids IH]; [done|]. unfold granted_keys. rewrite fmap_cons, !filter_cons.
  fold (granted_keys ids). rewrite IH. case_decide; done.
Qed.
End releasing.

Definition releases (out : list (string * KeyReleaseDecision)) : list string :=
  (filter (λ d, Is_true (is_released d.2)) out).*1.

(** What releasing the keys of a measurement leaves: the grants the loop wrote and, once
    it ended well with a release, one meter. *)
Record released_by (keys : KeyService) (engagement boundary participant : string)
    (evidence : AttestationEvidence) (entitlement : EntitlementVerdict) (db : Db)
    (op : Db * result failure (list (string * KeyReleaseDecision)))
    (written grants meters : list string) : Prop := {
  rb_grows : grows codec release_kind db op.1;
  rb_grants : ∃ m,
    Forall2 (λ id p, to_json key_grant_json (mkKeyGrant id m boundary participant) = Some p) written grants
    ∧ ∀ id, id ∈ written → verdict evidence = Verified m
        ∧ id ∈ sealed_key_ids_for_measurement keys m
        ∧ is_released (release keys (request_for engagement evidence entitlement id)) = true;
  rb_meters : Forall (λ p, ∃ r, to_json meter_json r = Some p) meters;
  rb_records : ∀ scope kind, records codec op.1 scope kind = records codec db scope kind
    ++ (if bool_decide (engagement = scope ∧ KEY_RELEASE_KIND = kind) then grants else [])
    ++ (if bool_decide (engagement = scope ∧ ATTESTED_RUN_METER_KIND = kind) then meters else []);
  rb_done : ∀ out, op.2 = Ok out → written = releases out
    ∧ length meters = if bool_decide (written = []) then 0 else 1;
}.

Lemma release_sealed_keys_spec keys engagement boundary participant evidence entitlement db :
  db_ok db → ∃ written grants meters,
  released_by keys engagement boundary participant evidence entitlement db
    (release_sealed_keys keys engagement boundary participant evidence entitlement db) written grants meters.
Proof.
  intros Hok. unfold release_sealed_keys.
  destruct (verified_measurement (verdict evidence)) as [m|] eqn:Hm.
  2: { exists [], [], []. split; simpl; [by apply grows_refl| |done| |].
       - exists (mkCodeMeasurement ""). split; [done|]. by intros id ?%elem_of_nil.
       - intros scope kind. by repeat case_match; rewrite app_nil_r.
       - by intros out [= <-]. }
  set (ids := sealed_key_ids_for_measurement keys m). unfold bind.
  destruct (release_loop_spec keys engagement boundary participant evidence entitlement m ids [] 0 db Hok)
    as (Hg & written & grants & Hpre & Hall & Hrec & Hend).
  destruct (release_loop keys engagement boundary participant evidence entitlement m ids [] 0 db) as [db1 r1];
    simpl in *.
  assert (∀ id, id ∈ written → verdict evidence = Verified m ∧ id ∈ ids
        ∧ is_released (release keys (request_for engagement evidence entitlement id)) = true) as Hids.
  { intros id Hid. destruct (verdict evidence); simplify_eq/=. split; [done|].
    destruct Hpre as [k Hk]. assert (id ∈ granted_keys keys engagement evidence entitlement ids) as Hin.
    { rewrite Hk. apply elem_of_app. by left. }
    apply list_elem_of_filter in Hin as [Hr ?]. split; [done|]. by apply Is_true_true in Hr. }
  assert (∀ r, (∀ out, r = Ok out → written = releases out ∧ written = []) →
    released_by keys engagement boundary participant evidence entitlement db (db1, r) written grants []) as Hbare.
  { intros r Hr. split; simpl; [done|by exists m|done| |].
    - intros scope kind. rewrite Hrec. by repeat case_match; rewrite ?app_nil_r.
    - intros out Ho. destruct (Hr out Ho) as [? ->]. by rewrite bool_decide_eq_true_2. }
  destruct r1 as [p|e]; [|exists written, grants, []; by apply Hbare].
  destruct (Hend p eq_refl) as [Hw ->]. simpl.
  rewrite granted_released in Hw. case_bool_decide as Hn; simpl in Hn.
  2: { exists written, grants, []. apply Hbare. intros out [= <-]. split; [done|].
       destruct written; [done|]. simpl in Hn. lia. }
  unfold serialized. destruct (to_json meter_json _) as [payload|] eqn:Hj; simpl;
    [|exists written, grants, []; by apply Hbare].
  pose proof Hg as (new & [_ _ Hok1] & _).
  destruct (append_cases db1 engagement ATTESTED_RUN_METER_KIND payload Hok1 (or_intror eq_refl)) as [Hg2 Hr2].
  destruct (append_record codec db1 engagement ATTESTED_RUN_METER_KIND payload) as [db2 [pos|e]]; simpl in *;
    [|subst db2; exists written, grants, []; by apply Hbare].
  exists written, grants, [payload]. split; simpl; [by eapply grows_trans|by exists m|by eauto using Forall_cons| |].
  - intros scope kind. by rewrite Hr2, Hrec, app_assoc.
  - intros out [= <-]. split; [done|]. rewrite bool_decide_eq_false_2; [done|]. intros ->. simpl in Hn. lia.
Qed.

Lemma all_from_json_app {E} (json : Json E) `{!JsonLaws json} rows l es ps :
  all_from_json json rows = Ok l → Forall2 (λ e p, to_json json e = Some p) es ps →
  all_from_json json (rows ++ ps) = Ok (l ++ es).
Proof.
  unfold all_from_json.
  set (f := λ (out : list E) row, let? e := ok_or (from_json json row) (Failed AE_Json) in Ok (out ++ [e])).
  generalize (@nil E) as acc. intros acc Hrows Hall. revert acc Hrows.
  induction rows as [|row rows IH]; intros acc Hrows; simpl in *.
  - injection Hrows as ->. revert l. induction Hall as [|e p es ps Hj _ IH]; intros l; simpl;
      [by rewrite app_nil_r|]. unfold f at 1. rewrite (json_roundtrip _ _ Hj). simpl. rewrite IH. by rewrite <- app_assoc.
  - unfold f at 1 in Hrows. unfold f at 1. destruct (from_json json row); simpl in *; [|done]. by apply IH.
Qed.

(** Usage is metered once per batch. When releasing the keys of some evidence ends
    well, the engagement's usage counts one more attested run exactly if at least one
    key was released, and one more release for each key that was; every released key
    is bound to the measurement the verifier vouched for, under an active
    entitlement. *)
Theorem metered_once keys `{!KeyServiceLaws keys} engagement boundary participant evidence entitlement
    db db' out u :
  db_ok db → attested_run_usage db engagement = Ok u →
  release_sealed_keys keys engagement boundary participant evidence entitlement db = (db', Ok out) →
  (∃ u', attested_run_usage db' engagement = Ok u'
     ∧ attested_runs u' = (attested_runs u + if bool_decide (releases out = []) then 0 else 1)%N
     ∧ release_events u' = (release_events u + N.of_nat (length (releases out)))%N)
  ∧ ∀ id, id ∈ releases out →
      entitlement = V_Active ∧ ∃ m, bound_to id = Some m ∧ vouches evidence m.
Proof.
  intros Hok Hu Hop.
  destruct (release_sealed_keys_spec keys engagement boundary participant evidence entitlement db Hok)
    as (written & grants & meters & [_ (m & Hall & Hids) Hmeters Hrec Hdone]).
  rewrite Hop in *. simpl in *. destruct (Hdone out eq_refl) as [-> Hlen]. split.
  - unfold attested_run_usage in Hu |- *. rewrite !Hrec.
    rewrite (bool_decide_eq_true_2 (engagement = engagement ∧ KEY_RELEASE_KIND = KEY_RELEASE_KIND)),
      (bool_decide_eq_true_2 (engagement = engagement ∧ ATTESTED_RUN_METER_KIND = ATTESTED_RUN_METER_KIND)),
      (bool_decide_eq_false_2 (engagement = engagement ∧ KEY_RELEASE_KIND = ATTESTED_RUN_METER_KIND)),
      (bool_decide_eq_false_2 (engagement = engagement ∧ ATTESTED_RUN_METER_KIND = KEY_RELEASE_KIND))
      by first [done|by intros [_ ?]].
    rewrite app_nil_r. simpl.
    destruct (all_from_json meter_json _) as [ms|] eqn:Hms; [|done].
    destruct (all_from_json key_grant_json _) as [gs|] eqn:Hgs; [|done]. injection Hu as <-.
    assert (∃ rs, Forall2 (λ r p, to_json meter_json r = Some p) rs meters) as [rs Hrs].
    { clear -Hmeters. induction Hmeters as [|p ps [r Hr] _ [rs IH]]; [by exists []|exists (r :: rs); by constructor]. }
    rewrite (all_from_json_app meter_json _ _ _ _ Hms Hrs).
    rewrite (all_from_json_app key_grant_json _ gs ((λ id, mkKeyGrant id m boundary participant) <$> releases out) grants Hgs)
      by (by apply Forall2_fmap_l).
    eexists. split; [done|]. simpl. rewrite !length_app, length_fmap, (Forall2_length _ _ _ Hrs), Hlen.
    split; [case_bool_decide; lia|lia].
  - intros id Hid. destruct (Hids id Hid) as (Hv & Hin & Hr).
    destruct (release keys _) as [bytes|] eqn:Hrel; [|done].
    destruct (release_gated _ _ Hrel) as (m' & Hb & Hvo & Ha). split; [done|]. by exists m'.
Qed.

(** ** The gate *)

(** The latest recorded grant of the engagement is not past its time. *)
Definition fresh (db : Db) (engagement : string) (now_ms : N) : Prop :=
  ∃ grant, latest_attested_grant db engagement = Ok grant
    ∧ ∀ exp, grant ≫= expires_at_ms = Some exp → (now_ms < exp)%N.

Lemma verdict_active_iff db engagement now_ms v :
  system_ok codec reducer_build keeper db →
  attested_run_verdict_at db engagement now_ms = Ok v →
  ∃ log, entitlement_log db (attested_run_scope engagement) log
    ∧ (v = V_Active ↔ Entitlement.granted log = true ∧ fresh db engagement now_ms).
Proof.
  intros Hsys Hv. destruct (entitlement_read db (attested_run_scope engagement) Hsys)
    as (log & s & Hlog & Hf & Hact).
  exists log. split; [done|]. unfold attested_run_verdict_at in Hv. rewrite Hf, Hact in Hv.
  unfold fresh. destruct (Entitlement.granted log).
  - destruct (latest_attested_grant db engagement) as [grant|] eqn:Hg; [|done]. injection Hv as <-.
    destruct grant as [[[exp|]]|]; simpl; [|naive_solver..]. case_bool_decide as Hn; split; try done.
    + intros (_ & g & [= <-] & Hexp). specialize (Hexp exp eq_refl). lia.
    + intros _. split; [done|]. eexists. split; [done|]. intros e [= <-]. lia.
  - split; [|by intros [? _]]. intros ->. injection Hv as Hv. by destruct (Entitlement.phase s).
Qed.

#[local] Instance boundary_no_snapshot : SnapshotLaws boundary_lifecycle :=
  no_snapshot boundary_lifecycle eq_refl.

(** What the acceptance writes: nothing, or the acceptance with its evidence. *)
Lemma accept_admission db scope participant ev :
  system_ok codec reducer_build keeper db →
  ∃ log, boundary_log db scope log ∧
  let op := admit_in boundary_lifecycle boundary_json scope (C_Accept participant (Some ev)) db in
  match op.2 with
  | Err _ => op.1 = db
  | Ok state => system_ok codec reducer_build keeper op.1
      ∧ boundary_log op.1 scope (log ++ [E_Accepted participant (Some ev)])
      ∧ attestation_evidence state !! participant = Some ev
      ∧ ∀ kind, kind ≠ KIND boundary_lifecycle → records codec op.1 scope kind = records codec db scope kind
  end.
Proof.
  intros Hsys. pose proof Hsys as [Hok Hall]. destruct (Hall K_Boundary scope) as (log & s & Ht & Hh).
  exists log. split; [done|]. unfold admit_in.
  pose proof (admit_spec codec anchor reducer_build boundary_lifecycle boundary_json db scope log s
    (C_Accept participant (Some ev)) Hok Hh Ht) as Hop.
  pose proof (admits_system_ok codec reducer_build keeper keeper_kinds K_Boundary _ db scope log s
    (C_Accept participant (Some ev)) _ Hsys Ht (reflexivity _) Hop) as (Hsys' & _ & _).
  simpl in Hsys'. unfold admits in Hop.
  destruct (apply boundary_lifecycle s (C_Accept participant (Some ev))) as [r|es s'|] eqn:Ha;
    [by rewrite Hop| |done].
  destruct Hop as [Hgood Hbad].
  destruct (base.decide (Forall (encodable codec boundary_lifecycle boundary_json scope) es)) as [Henc|Henc].
  2: { apply not_Forall_Exists, Exists_exists in Henc; [|apply _]. destruct (Hbad Henc) as [f Hf]. by rewrite Hf. }
  rewrite Forall_forall in Henc. destruct (Hgood Henc) as (db' & Heq & _ & [(new & Hext & _ & Hnew) Hlog _]).
  rewrite Heq in *. simpl in *. apply (apply_admitted boundary_lifecycle) in Ha as [Hd He].
  assert (es = [E_Accepted participant (Some ev)]) as ->.
  { simpl in Hd. repeat split_outer Hd; by simplify_eq. }
  simpl in He. injection He as <-. split_and!; [done|done| |].
  - unfold evolve_accepted. case_match; simpl; by rewrite lookup_insert_eq.
  - intros kind Hk. rewrite (records_extends codec _ _ _ _ _ Hok Hext), filter_keeps_none; [by rewrite app_nil_r|].
    intros r Hr [_ ?]. destruct (Hnew r Hr) as [_ ?]. simpl in *. congruence.
Qed.

(** What a release on verified evidence means. *)
Lemma released_request keys `{!KeyServiceLaws keys} ev engagement v id m :
  is_released (release keys (mkKeyRequest id ev (mkProof engagement v))) = true →
  verdict ev = Verified m → bound_to id = Some m ∧ v = V_Active ∧ measurement (quote ev) = m.
Proof.
  intros Hr He. destruct (release keys _) as [bytes|] eqn:Hrel; [|done].
  destruct (release_gated _ _ Hrel) as (m2 & Hb & [Hv1 Hv2] & Ha). simpl in *. naive_solver congruence.
Qed.

(** C11: attestation is the gate and the meter. Accepting an attested boundary either fails
    and leaves the store as it was, or the verifier vouched for a measurement, the
    boundary's log grew by exactly that acceptance with its evidence, and then a key is
    released, or recorded as released, only if at that moment the engagement's
    entitlement log stood active, its latest grant was not past its time, and the
    measurement the quote claims is the one that was vouched for; a named key is
    released only if it is sealed to that measurement. *)
Theorem attested_gate db keys `{!KeyServiceLaws keys} boundary_id participant q expected verifier now_ms key_id :
  served codec anchor reducer_build keeper db →
  let op := accept_attested db boundary_id participant q expected verifier keys now_ms key_id in
  system_ok codec reducer_build keeper op.1
  ∧ match op.2 with
    | Err e => op.1 = db
    | Ok (state, released) =>
        ∃ m boundary entitlements,
          verifier q expected = Verified m
          ∧ boundary_log db boundary_id boundary
          ∧ boundary_log op.1 boundary_id
              (boundary ++ [E_Accepted participant (Some (mkAttestationEvidence q (Verified m)))])
          ∧ entitlement_log db (attested_run_scope boundary_id) entitlements
          ∧ (released = Some true
             ∨ records codec op.1 boundary_id KEY_RELEASE_KIND ≠ records codec db boundary_id KEY_RELEASE_KIND →
               Entitlement.granted entitlements = true ∧ fresh db boundary_id now_ms ∧ measurement q = m)
          ∧ (∀ id, key_id = Some id → released = Some true → bound_to id = Some m)
    end.
Proof.
  intros Hdb op. pose proof (served_ok codec anchor reducer_build keeper keeper_kinds db Hdb) as Hsys.
  subst op. unfold accept_attested.
  destruct (attested_run_verdict_at db boundary_id now_ms) as [v|f] eqn:Hv; [|done].
  destruct (verdict_active_iff db boundary_id now_ms v Hsys Hv) as (ents & Hents & Hact).
  unfold accept_boundary_attested. destruct (verifier q expected) as [m|why] eqn:Hq; [|done].
  set (ev := mkAttestationEvidence q (Verified m)).
  destruct (accept_admission db boundary_id participant ev Hsys) as (log & Hlog & Hop).
  destruct (admit_in boundary_lifecycle boundary_json boundary_id (C_Accept participant (Some ev)) db)
    as [db1 [state|f]]; simpl in Hop; [|by subst db1; destruct f as [[]|]].
  destruct Hop as (Hsys1 & Hlog1 & Hev & Hrec1). simpl. rewrite Hev.
  pose proof Hsys1 as [Hok1 _].
  destruct (release_sealed_keys_spec keys boundary_id boundary_id participant ev v db1 Hok1)
    as (written & grants & meters & [Hg (m' & Hall & Hids) _ Hrec _]).
  assert (∀ kind, release_kind kind → ∀ i, kind ≠ KIND (lifecycle (keeper i))) as Hkinds.
  { intros kind [->| ->] []; discriminate. }
  destruct (grows_system_ok codec reducer_build keeper db1
    (release_sealed_keys keys boundary_id boundary_id participant ev v db1).1 Hsys1) as [Hsys2 _].
  { destruct Hg as (new & Hext & HK & Hs). exists new. split_and!; [done| |apply Hs..].
    intros r Hr i. by apply Hkinds, HK. }
  split; [done|]. exists m, log, ents. split_and!; [done|done| |done| |].
  - eapply (grows_represents codec release_kind); [exact Hg| |exact Hlog1].
    intros kind Hk. exact (Hkinds kind Hk K_Boundary).
  - assert (∀ id, is_released (release keys (mkKeyRequest id ev (mkProof boundary_id v))) = true →
      Entitlement.granted ents = true ∧ fresh db boundary_id now_ms ∧ measurement q = m) as Hgate2.
    { intros id Hr. destruct (released_request keys ev boundary_id v id m Hr eq_refl) as (_ & Ha & ?).
      apply Hact in Ha as [? ?]. auto. }
    intros [Hr|Hne].
    + destruct key_id as [id|]; [|done]. simpl in Hr. injection Hr as Hr. by eapply Hgate2.
    + destruct written as [|id written].
      * exfalso. apply Hne. apply Forall2_nil_inv_l in Hall as ->. rewrite Hrec, <- (Hrec1 KEY_RELEASE_KIND) by done.
        rewrite (bool_decide_eq_false_2 (boundary_id = boundary_id ∧ ATTESTED_RUN_METER_KIND = _)) by (by intros [_ ?]).
        by case_bool_decide; rewrite app_nil_r.
      * destruct (Hids id ltac:(by left)) as (_ & _ & Hr). by eapply Hgate2.
  - intros id -> Hr. simpl in Hr. injection Hr as Hr.
    by destruct (released_request keys ev boundary_id v id m Hr eq_refl) as (? & _ & _).
Qed.
End keeper.

(** ** A concrete keeper: one boundary, one entitled engagement, one sealed key *)

Module SampleKeeper.
#[local] Existing Instances SampleDesk.no_json_laws Sample.anchor_laws.

#[local] Instance Placement_eq_dec : EqDecision Placement.
Proof. solve_decision. Defined.
#[local] Instance AttestationQuote_eq_dec : EqDecision AttestationQuote.
Proof. solve_decision. Defined.
#[local] Instance AttestationEvidence_eq_dec : EqDecision AttestationEvidence.
Proof. solve_decision. Defined.
#[local] Instance BoundaryEvent_eq_dec : EqDecision BoundaryEvent.
Proof. solve_decision. Defined.
#[local] Instance AttestedRunGrant_eq_dec : EqDecision AttestedRunGrant.
Proof. solve_decision. Defined.
#[local] Instance KeyReleaseGrant_eq_dec : EqDecision KeyReleaseGrant.
Proof. solve_decision. Defined.
#[local] Instance AttestedRunMeterRecord_eq_dec : EqDecision AttestedRunMeterRecord.
Proof. solve_decision. Defined.

Definition trusted : CodeMeasurement := mkCodeMeasurement "aa".
Definition quote : AttestationQuote := mkAttestationQuote trusted "n1" [1%N].
Definition evidence : AttestationEvidence := mkAttestationEvidence quote (Verified trusted).
Definition ceiling : Placement := mkPlacement Counterparty true.

Definition dist_json : Json Distribution.DistEvent := table_json
  [("published", Distribution.E_PackagePublished); ("requested", Distribution.E_InstallRequested);
   ("admitted", Distribution.E_InstallTargetAdmitted); ("installed", Distribution.E_PackageInstalled)].
Definition entitlement_json : Json Entitlement.EntitlementEvent := table_json
  [("installed", Entitlement.E_PackageInstallAdmitted); ("requested", Entitlement.E_EntitlementRequested);
   ("activated", Entitlement.E_EntitlementActivated); ("suspended", Entitlement.E_EntitlementSuspended)].
Definition boundary_json : Json BoundaryEvent := table_json
  [("proposed", E_Proposed {["A"]}); ("declared", E_CeilingDeclared ceiling);
   ("accepted", E_Accepted "A" (Some evidence))].
Definition run_grant_json : Json AttestedRunGrant := table_json [("until 100", mkRunGrant (Some 100%N))].
Definition key_grant_json : Json KeyReleaseGrant := table_json [("k1", mkKeyGrant "k1" trusted "b" "A")].
Definition meter_json : Json AttestedRunMeterRecord := table_json [("run", mkMeter trusted "b" "A" 1)].

#[export] Instance dist_laws : JsonLaws dist_json.
Proof. apply table_json_laws. refine (bool_decide_unpack _ _). vm_compute. exact I. Defined.
#[export] Instance entitlement_laws : JsonLaws entitlement_json.
Proof. apply table_json_laws. refine (bool_decide_unpack _ _). vm_compute. exact I. Defined.
#[export] Instance boundary_laws : JsonLaws boundary_json.
Proof. apply table_json_laws. refine (bool_decide_unpack _ _). vm_compute. exact I. Defined.
#[export] Instance key_grant_laws : JsonLaws key_grant_json.
Proof. apply table_json_laws. refine (bool_decide_unpack _ _). vm_compute. exact I. Defined.
#[export] Instance meter_laws : JsonLaws meter_json.
Proof. apply table_json_laws. refine (bool_decide_unpack _ _). vm_compute. exact I. Defined.

Definition host := keeper (SampleDesk.no_json _) dist_json entitlement_json boundary_json.

(** A package installed and entitled in the context "c"; a boundary proposed to "A" with
    an attested ceiling; its engagement entitled until time 100. *)
Definition requests : list (Request host) :=
  [Admit host K_Dist (dist_scope "p") Distribution.C_PublishPackage;
   Admit host K_Dist (dist_scope "p") Distribution.C_RequestInstall;
   Admit host K_Dist (dist_scope "p") Distribution.C_TargetAdmitInstall;
   Admit host K_Dist (dist_scope "p") Distribution.C_InstallPackage;
   Admit host K_Entitlement (entitle_scope "p" "c") Entitlement.C_AdmitPackageInstall;
   Admit host K_Entitlement (entitle_scope "p" "c") Entitlement.C_RequestEntitlement;
   Admit host K_Entitlement (entitle_scope "p" "c") Entitlement.C_ActivateEntitlement;
   Admit host K_Boundary "b" (C_Propose {["A"]});
   Admit host K_Boundary "b" (C_DeclareCeiling ceiling);
   Admit host K_Entitlement (attested_run_scope "b") Entitlement.C_AdmitPackageInstall;
   Admit host K_Entitlement (attested_run_scope "b") Entitlement.C_RequestEntitlement;
   Admit host K_Entitlement (attested_run_scope "b") Entitlement.C_ActivateEntitlement;
   AppendRecord host (attested_run_scope "b") ATTESTED_GRANT_KIND "until 100"].

Definition db : Db := fold_left (serve None Sample.anchor "build" host) requests empty_db.

Definition keys : KeyService := loopback_service (with_keys [mkSealedKey "k1" trusted [7%N]]).

Lemma keeper_db_served : served None Sample.anchor "build" host db.
Proof.
  apply served_all; [constructor|]. repeat constructor. intros []; discriminate.
Qed.

Abbreviation accept now_ms := (accept_attested None Sample.anchor "build" entitlement_json boundary_json
  run_grant_json key_grant_json meter_json db "b" "A" quote "n1" (loopback_verify [trusted]) keys now_ms
  (Some "k1")).

(** In time the key is released and the run metered; at the time the grant ends it is
    not, though the acceptance stands. *)
Example in_time : (snd <$> match (accept 99).2 with Ok p => Some p | Err _ => None end) = Some (Some true)
  ∧ attested_run_usage None key_grant_json meter_json (accept 99).1 "b" = Ok (mkUsage 1 1 1 ["aa"]).
Proof. split; vm_compute; reflexivity. Qed.
Example too_late : (snd <$> match (accept 100).2 with Ok p => Some p | Err _ => None end) = Some (Some false)
  ∧ attested_run_usage None key_grant_json meter_json (accept 100).1 "b" = Ok (mkUsage 0 0 0 []).
Proof. split; vm_compute; reflexivity. Qed.
End SampleKeeper.

#[local] Existing Instances SampleKeeper.dist_laws SampleKeeper.entitlement_laws SampleKeeper.boundary_laws
  SampleKeeper.key_grant_laws SampleKeeper.meter_laws SampleDesk.no_json_laws Sample.anchor_laws.

Lemma run_ready_iff_witness :
  served None Sample.anchor "build" SampleKeeper.host SampleKeeper.db
  ∧ run_ready None Sample.anchor "build" SampleKeeper.dist_json SampleKeeper.entitlement_json SampleKeeper.db "p" "c"
    = Ok true
  ∧ ∃ installs, last_such Distribution.moves_phase installs = Some Distribution.E_PackageInstalled.
Proof.
  split; [exact SampleKeeper.keeper_db_served|].
  destruct (run_ready_iff None Sample.anchor "build" (SampleDesk.no_json _) SampleKeeper.dist_json
    SampleKeeper.entitlement_json SampleKeeper.boundary_json SampleKeeper.db "p" "c"
    SampleKeeper.keeper_db_served) as (installs & ents & _ & _ & Hr).
  assert (run_ready None Sample.anchor "build" SampleKeeper.dist_json SampleKeeper.entitlement_json
    SampleKeeper.db "p" "c" = Ok true) as Ht by (vm_compute; reflexivity).
  split; [exact Ht|]. exists installs. rewrite Ht in Hr. injection Hr as Hr. symmetry in Hr.
  apply andb_prop in Hr as [Hr _]. by apply bool_decide_eq_true in Hr.
Defined.

Lemma metered_once_witness :
  db_ok SampleKeeper.db
  ∧ ∃ db' u', release_sealed_keys None SampleKeeper.key_grant_json SampleKeeper.meter_json SampleKeeper.keys
      "b" "b" "A" SampleKeeper.evidence V_Active SampleKeeper.db = (db', Ok [("k1", Released [7%N])])
    ∧ attested_run_usage None SampleKeeper.key_grant_json SampleKeeper.meter_json db' "b" = Ok u'
    ∧ attested_runs u' = 1%N.
Proof.
  assert (db_ok SampleKeeper.db) as Hok.
  { apply (served_ok None Sample.anchor "build" SampleKeeper.host (keeper_kinds _ _ _ _) _
      SampleKeeper.keeper_db_served). }
  split; [exact Hok|].
  destruct (release_sealed_keys None SampleKeeper.key_grant_json SampleKeeper.meter_json SampleKeeper.keys
      "b" "b" "A" SampleKeeper.evidence V_Active SampleKeeper.db) as [db' r] eqn:Hop.
  assert (r = Ok [("k1", Released [7%N])]) as ->.
  { change r with (db', r).2. rewrite <- Hop. vm_compute. reflexivity. }
  destruct (metered_once None SampleKeeper.key_grant_json SampleKeeper.meter_json SampleKeeper.keys
    "b" "b" "A" SampleKeeper.evidence V_Active SampleKeeper.db db' [("k1", Released [7%N])]
    (mkUsage 0 0 0 []) Hok) as [(u' & Hu & Hruns & _) _]; [vm_compute; reflexivity|exact Hop|].
  exists db', u'. split; [reflexivity|]. split; [exact Hu|]. rewrite Hruns. vm_compute. reflexivity.
Defined.

Lemma attested_gate_witness :
  served None Sample.anchor "build" SampleKeeper.host SampleKeeper.db
  ∧ match (SampleKeeper.accept 99).2 with
    | Ok (_, released) => released = Some true ∧ ∃ ents, Entitlement.granted ents = true
    | Err _ => False
    end.
Proof.
  split; [exact SampleKeeper.keeper_db_served|].
  destruct (attested_gate None Sample.anchor "build" (SampleDesk.no_json _) SampleKeeper.dist_json
    SampleKeeper.entitlement_json SampleKeeper.boundary_json SampleKeeper.run_grant_json
    SampleKeeper.key_grant_json SampleKeeper.meter_json SampleKeeper.db SampleKeeper.keys "b" "A"
    SampleKeeper.quote "n1" (loopback_verify [SampleKeeper.trusted]) 99 (Some "k1")
    SampleKeeper.keeper_db_served) as [_ Hm].
  pose proof (proj1 SampleKeeper.in_time) as Hr. cbv zeta in Hm. revert Hm Hr.
  destruct (SampleKeeper.accept 99) as [db' [[state released]|]]; simpl; [|intros _ Hr; discriminate Hr].
  intros Hm Hr. injection Hr as ->. split; [reflexivity|].
  destruct Hm as (m & blog & ents & _ & _ & _ & _ & Hg & _). exists ents. apply Hg. by left.
Defined.

(** Two pairs of a package and a context can share one entitlement scope: the parts are
    joined without escaping the separator. *)
Lemma entitle_scope_collides : entitle_scope "a::b" "c" = entitle_scope "a" "b::c".
Proof. reflexivity. Qed.
