(* ===== verification/Erasure.v ===== *)
(** * Content erasure

    [crates/core/src/content_erasure.rs]: a payload is tombstoned with its owner's
    approval; history, metadata and copies already exported stay. *)

From S2P Require Import Prelude Ids Lifecycle.

Definition OWNER : string := "owner".

Inductive ErasurePhase := P_Init | P_Requested | P_Approved | P_Denied | P_Tombstoned | P_Failed.

#[export] Instance ErasurePhase_eq_dec : EqDecision ErasurePhase.
Proof. solve_decision. Defined.

Record ErasureState := mkErasure {
  phase : ErasurePhase;
  approved_by : gset string;
  tombstoned : bool;
  payload_resolvable : bool;
  historical_handle_present : bool;
  metadata_present : bool;
  ever_exported : bool;
  exported_copy_held : bool;
}.

#[export] Instance ErasureState_eta : Eta ErasureState := mkEta (λ s,
  mkErasure (phase s) (approved_by s) (tombstoned s) (payload_resolvable s) (historical_handle_present s)
    (metadata_present s) (ever_exported s) (exported_copy_held s)).

Definition erasure_default : ErasureState := mkErasure P_Init ∅ false true true true false false.

Definition approved (s : ErasureState) : bool := bool_decide (OWNER ∈ approved_by s).

Inductive ErasureCommand :=
| C_RequestErasure | C_Approve (a : string) | C_Reject | C_Tombstone | C_TombstoneFailure
| C_RetryTombstone | C_Cancel | C_Expire | C_ExportBeforeTombstone | C_ResolvePayload.

Inductive ErasureEvent :=
| E_ErasureRequested | E_Approved (a : string) | E_Rejected | E_Tombstoned | E_TombstoneFailed
| E_TombstoneRetried | E_ErasureCanceled | E_ErasureExpired | E_Exported | E_PayloadResolved.

#[export] Instance ErasureEvent_eq_dec : EqDecision ErasureEvent.
Proof. solve_decision. Defined.

Definition decide (state : ErasureState) (command : ErasureCommand)
    : result Rejection (list ErasureEvent) :=
  match command with
  | C_RequestErasure =>
      match phase state with
      | P_Init => Ok [E_ErasureRequested]
      | _ => reject "requestErasure: not in init"
      end
  | C_Approve a =>
      if bool_decide (phase state = P_Requested) && String.eqb a OWNER then Ok [E_Approved a]
      else reject "approve: not a pending owner approval"
  | C_Reject =>
      match phase state with
      | P_Requested => Ok [E_Rejected]
      | _ => reject "reject: not requested"
      end
  | C_Cancel =>
      match phase state with
      | P_Requested => Ok [E_ErasureCanceled]
      | _ => reject "cancel: no pending erasure request"
      end
  | C_Expire =>
      match phase state with
      | P_Requested | P_Approved => Ok [E_ErasureExpired]
      | _ => reject "expireErasure: no pending erasure"
      end
  | C_Tombstone =>
      if approved state then Ok [E_Tombstoned]
      else reject "tombstone: requires owner approval (TOMBSTONE_REQUIRES_APPROVAL)"
  | C_TombstoneFailure =>
      match phase state with
      | P_Approved => Ok [E_TombstoneFailed]
      | _ => reject "tombstoneFailure: not approved"
      end
  | C_RetryTombstone =>
      match phase state with
      | P_Failed => Ok [E_TombstoneRetried]
      | _ => reject "retryTombstone: not failed"
      end
  | C_ExportBeforeTombstone =>
      if negb (tombstoned state) then Ok [E_Exported]
      else reject "exportBeforeTombstone: already tombstoned"
  | C_ResolvePayload =>
      if payload_resolvable state then Ok [E_PayloadResolved]
      else reject "resolvePayload: tombstoned, not resolvable (TOMBSTONE_BLOCKS_FUTURE_RESOLUTION)"
  end.

Definition evolve (s : ErasureState) (event : ErasureEvent) : ErasureState :=
  match event with
  | E_ErasureRequested => s <| phase := P_Requested |>
  | E_Approved a => s <| phase := P_Approved |> <| approved_by := {[a]} ∪ approved_by s |>
  | E_Rejected | E_ErasureCanceled | E_ErasureExpired => s <| phase := P_Denied |>
  | E_Tombstoned => s <| phase := P_Tombstoned |> <| tombstoned := true |> <| payload_resolvable := false |>
  | E_TombstoneFailed => s <| phase := P_Failed |>
  | E_TombstoneRetried => s <| phase := P_Approved |>
  | E_Exported => s <| ever_exported := true |> <| exported_copy_held := true |>
  | E_PayloadResolved => s
  end.

Definition erasure_lifecycle : Lifecycle := {|
  lc_state := ErasureState;
  lc_command := ErasureCommand;
  lc_event := ErasureEvent;
  lc_default := erasure_default;
  KIND := "content_erasure";
  lc_decide := decide;
  lc_evolve := λ s e, Some (evolve s e);
  lc_snapshot_codec := None;
|}.

(** ** What the log says *)

Record erasure_told (log : list ErasureEvent) (s : ErasureState) : Prop := {
  told_tombstoned : tombstoned s = bool_decide (E_Tombstoned ∈ log);
  told_resolvable : payload_resolvable s = negb (bool_decide (E_Tombstoned ∈ log));
  told_approved : approved_by s = if bool_decide (E_Approved OWNER ∈ log) then {[OWNER]} else ∅;
  told_exported : exported_copy_held s = bool_decide (E_Exported ∈ log);
  told_history : historical_handle_present s = true ∧ metadata_present s = true;
}.

Lemma erasure_decide_one s c es : decide s c = Ok es → ∃ e, es = [e].
Proof. intros Hd. destruct c; simpl in Hd; repeat split_next Hd; simplify_eq; eauto. Qed.

#[export] Instance erasure_safe : LifecycleSafe erasure_lifecycle.
Proof.
  refine {| lc_inv := (λ s, True) : lc_state erasure_lifecycle → Prop |}; [done|].
  by apply total_lifecycle_safe with evolve.
Defined.

Lemma bool_elem_of_snoc {A} `{!EqDecision A} (x : A) l y :
  bool_decide (x ∈ l ++ [y]) = bool_decide (x ∈ l) || bool_decide (x = y).
Proof.
  apply Bool.eq_iff_eq_true. rewrite orb_true_iff, !bool_decide_eq_true, elem_of_app, list_elem_of_singleton. done.
Qed.

Lemma trace_erasure log s : trace erasure_lifecycle log s → erasure_told log s.
Proof.
  revert log s. apply (trace_one_ind erasure_lifecycle evolve); [done|exact erasure_decide_one|by split|].
  intros log s c e _ [Ht Hr Ha Hx Hh] Hd. split; rewrite ?bool_elem_of_snoc.
  all: destruct e; simpl; rewrite ?orb_false_r, ?orb_true_r; try done.
  destruct c; simpl in Hd; repeat split_next Hd; simplify_eq.
  match goal with H : _ && String.eqb _ _ = true |- _ => apply andb_prop in H as [_ ->%String.eqb_eq] end.
  rewrite Ha, (bool_decide_eq_true_2 (E_Approved OWNER = E_Approved OWNER)), orb_true_r by done.
  match goal with |- context [if ?b then _ else _] => destruct b end; [by rewrite union_idemp_L|by rewrite union_empty_r_L].
Qed.

(** Erasure is approved, final and keeps history. In any session every tombstone of
    the log was preceded by the owner's approval, and no one else ever approves; after
    a tombstone no payload is resolved and nothing more is exported; the historical
    handle and the metadata are always there, and an exported copy is never
    recalled. *)
Theorem erasure_sound (cs : list ErasureCommand) :
  ∃ log s, session erasure_lifecycle cs = Some (log, s)
    ∧ (∀ before after, log = before ++ E_Tombstoned :: after → E_Approved OWNER ∈ before)
    ∧ (∀ a, E_Approved a ∈ log → a = OWNER)
    ∧ (∀ before after, log = before ++ E_Tombstoned :: after → E_PayloadResolved ∉ after ∧ E_Exported ∉ after)
    ∧ historical_handle_present s = true ∧ metadata_present s = true
    ∧ exported_copy_held s = bool_decide (E_Exported ∈ log).
Proof.
  destruct (session_total erasure_lifecycle cs) as (log & s & Hs & Ht & _). exists log, s.
  assert (∀ before e after, log = before ++ e :: after →
    ∃ s0 c, erasure_told before s0 ∧ decide s0 c = Ok [e]) as Hev.
  { intros before e after Hlog.
    destruct (trace_event erasure_lifecycle log s before e after) as (s0 & c & Ht0 & Hd); [|done|done|].
    - intros s1 c es [e' ->]%erasure_decide_one. done.
    - exists s0, c. split; [by apply trace_erasure|done]. }
  destruct (trace_erasure log s Ht) as [_ _ _ Hx [Hh Hm]]. split_and!; try done.
  - intros before after Hlog. destruct (Hev _ _ _ Hlog) as (s0 & c & [_ _ Ha _ _] & Hd).
    destruct c; simpl in Hd; repeat split_next Hd; simplify_eq.
    unfold approved in *. guards. rewrite Ha in *. case_bool_decide; [done|set_solver].
  - intros a [before [after Hlog]]%list_elem_of_split. destruct (Hev _ _ _ Hlog) as (s0 & c & _ & Hd).
    destruct c; simpl in Hd; repeat split_next Hd; simplify_eq.
    match goal with H : _ && String.eqb _ _ = true |- _ => by apply andb_prop in H as [_ ?%String.eqb_eq] end.
  - intros before after Hlog.
    assert (∀ e mid rest, after = mid ++ e :: rest → ∃ s0 c, payload_resolvable s0 = false
      ∧ tombstoned s0 = true ∧ decide s0 c = Ok [e]) as Hlater.
    { intros e mid rest ->. destruct (Hev (before ++ E_Tombstoned :: mid) e rest) as (s0 & c & [Htb Hr _ _ _] & Hd).
      - by rewrite Hlog, <- app_assoc.
      - exists s0, c. rewrite Hr, Htb, bool_decide_eq_true_2; [done|]. set_solver. }
    split; intros (mid & rest & Hmid)%list_elem_of_split; destruct (Hlater _ _ _ Hmid) as (s0 & c & Hr & Htb & Hd);
      destruct c; simpl in Hd; repeat split_next Hd; simplify_eq; guards; congruence.
Qed.

(** An approval is not withdrawn by expiry: an erasure whose request expired after the
    approval, and is denied, is still tombstoned. *)
Example expired_erasure_tombstoned :
  fst <$> session erasure_lifecycle [C_RequestErasure; C_Approve OWNER; C_Expire; C_Tombstone]
  = Some [E_ErasureRequested; E_Approved OWNER; E_ErasureExpired; E_Tombstoned].
Proof. reflexivity. Qed.
