(* ===== verification/Workstream.v ===== *)
(** * Workstreams

    [crates/core/src/workstream.rs]: a shared line that member chats contribute to,
    until it is archived. *)

From S2P Require Import Prelude Ids Lifecycle.

Inductive WorkstreamPhase := P_Absent | P_Active | P_Archived.

#[export] Instance WorkstreamPhase_eq_dec : EqDecision WorkstreamPhase.
Proof. solve_decision. Defined.

Record WorkstreamState := mkWorkstream {
  phase : WorkstreamPhase;
  members : gset string;
  name : string;
  home : string;
}.

#[export] Instance WorkstreamState_eta : Eta WorkstreamState := mkEta (λ s,
  mkWorkstream (phase s) (members s) (name s) (home s)).

Definition workstream_default : WorkstreamState := mkWorkstream P_Absent ∅ "" "".

Inductive WorkstreamCommand :=
| C_CreateWorkstream (name home creator : string)
| C_JoinWorkstream (chat : string)
| C_LeaveWorkstream (chat : string)
| C_ArchiveWorkstream
| C_Contribute (chat by_ : string).

Inductive WorkstreamEvent :=
| E_WorkstreamCreated (name home creator : string)
| E_ChatJoined (chat : string)
| E_ChatLeft (chat : string)
| E_WorkstreamArchived (rehomed : list string)
| E_ContributionAdmitted (chat by_ : string).

#[export] Instance WorkstreamEvent_eq_dec : EqDecision WorkstreamEvent.
Proof. solve_decision. Defined.

(** [members.iter()] of a [BTreeSet]: in key order. *)
Definition iter_members (m : gset string) : list string := merge_sort String.le (elements m).

Definition decide (state : WorkstreamState) (command : WorkstreamCommand)
    : result Rejection (list WorkstreamEvent) :=
  match command with
  | C_CreateWorkstream n h creator =>
      match phase state with
      | P_Absent => Ok [E_WorkstreamCreated n h creator]
      | _ => reject "createWorkstream: a workstream already exists in this scope"
      end
  | C_JoinWorkstream chat =>
      match phase state with
      | P_Active => Ok [E_ChatJoined chat]
      | _ => reject "joinWorkstream: the workstream is not active"
      end
  | C_LeaveWorkstream chat =>
      if bool_decide (phase state = P_Active) && bool_decide (chat ∈ members state)
      then Ok [E_ChatLeft chat]
      else reject "leaveWorkstream: not an active stream or chat is not a member"
  | C_ArchiveWorkstream =>
      match phase state with
      | P_Active => Ok [E_WorkstreamArchived (iter_members (members state))]
      | _ => reject "archiveWorkstream: only an active workstream can be archived"
      end
  | C_Contribute chat by_ =>
      if bool_decide (phase state = P_Active) && bool_decide (chat ∈ members state)
      then Ok [E_ContributionAdmitted chat by_]
      else reject "contribute: chat is not a member of an active workstream"
  end.

Definition evolve (s : WorkstreamState) (event : WorkstreamEvent) : WorkstreamState :=
  match event with
  | E_WorkstreamCreated n h _ => s <| phase := P_Active |> <| name := n |> <| home := h |>
  | E_ChatJoined chat => s <| members := {[chat]} ∪ members s |>
  | E_ChatLeft chat => s <| members := members s ∖ {[chat]} |>
  | E_WorkstreamArchived _ => s <| phase := P_Archived |> <| members := ∅ |>
  | E_ContributionAdmitted _ _ => s
  end.

Definition workstream_lifecycle : Lifecycle := {|
  lc_state := WorkstreamState;
  lc_command := WorkstreamCommand;
  lc_event := WorkstreamEvent;
  lc_default := workstream_default;
  KIND := "workstream";
  lc_decide := decide;
  lc_evolve := λ s e, Some (evolve s e);
  lc_snapshot_codec := None;
|}.

(** ** What the log says *)

Definition is_archive (e : WorkstreamEvent) : bool :=
  match e with E_WorkstreamArchived _ => true | _ => false end.

Definition archived (log : list WorkstreamEvent) : bool := existsb is_archive log.

(** The last join or leave of the chat. *)
Definition moves_chat (chat : string) (e : WorkstreamEvent) : bool :=
  match e with E_ChatJoined c | E_ChatLeft c => String.eqb c chat | _ => false end.

Definition homed (log : list WorkstreamEvent) (chat : string) : Prop :=
  archived log = false ∧ last_such (moves_chat chat) log = Some (E_ChatJoined chat).

Lemma workstream_decide_one s c es : decide s c = Ok es → ∃ e, es = [e].
Proof. intros Hd. destruct c; simpl in Hd; repeat split_next Hd; simplify_eq; eauto. Qed.

#[export] Instance workstream_safe : LifecycleSafe workstream_lifecycle.
Proof.
  refine {| lc_inv := (λ s, True) : lc_state workstream_lifecycle → Prop |}; [done|].
  by apply total_lifecycle_safe with evolve.
Defined.

Record workstream_told (log : list WorkstreamEvent) (s : WorkstreamState) : Prop := {
  told_members : ∀ chat, chat ∈ members s ↔ homed log chat;
  told_phase : phase s = if archived log then P_Archived
                         else if bool_decide (log = []) then P_Absent else P_Active;
}.

Lemma archived_snoc log e : archived (log ++ [e]) = archived log || is_archive e.
Proof. unfold archived. rewrite existsb_app. simpl. by rewrite orb_false_r. Qed.

Lemma active_told log s c e :
  workstream_told log s → decide s c = Ok [e] →
  archived log = false ∧ (match e with E_WorkstreamCreated _ _ _ => log = [] | _ => log ≠ [] end).
Proof.
  intros [_ Hp] Hd. destruct (archived log).
  - destruct c; simpl in Hd; rewrite Hp in Hd; simpl in Hd; done.
  - split; [done|]. case_bool_decide as Hl; destruct c; simpl in Hd; rewrite Hp in Hd; simpl in Hd;
      repeat split_next Hd; simplify_eq; done.
Qed.

Lemma trace_workstream log s : trace workstream_lifecycle log s → workstream_told log s.
Proof.
  revert log s. apply (trace_one_ind workstream_lifecycle evolve); [done|exact workstream_decide_one| |].
  { split; [|done]. intros chat. unfold homed. simpl. split; [by intros ?%elem_of_empty|by intros [_ ?]]. }
  intros log s c e _ Hold Hd. destruct (active_told log s c e Hold Hd) as [Ha He].
  destruct Hold as [Hm Hp]. unfold homed in Hm. rewrite Ha in *.
  split; [|rewrite archived_snoc, Ha, (bool_decide_eq_false_2 (log ++ [e] = [])) by (by destruct log);
           destruct e; simpl; try done; rewrite Hp, bool_decide_eq_false_2; done].
  intros chat. unfold homed. rewrite archived_snoc, Ha, last_such_snoc.
  destruct e as [n h cr|ch|ch|r|ch b]; simpl; rewrite ?Hm; [naive_solver| | |set_solver|naive_solver].
  - rewrite elem_of_union, elem_of_singleton, Hm. destruct (String.eqb_spec ch chat) as [->|]; naive_solver.
  - rewrite elem_of_difference, elem_of_singleton, Hm. destruct (String.eqb_spec ch chat) as [->|]; naive_solver.
Qed.

(** Membership gates the shared line. In any session a chat is a member exactly when
    its last move was to join and the stream is not archived; every contribution of the
    log came from a chat that was a member at that moment; the archive lists exactly
    the members it re-homes, and nothing follows it. *)
Theorem membership_gates (cs : list WorkstreamCommand) :
  ∃ log s, session workstream_lifecycle cs = Some (log, s)
    ∧ (∀ chat, chat ∈ members s ↔ homed log chat)
    ∧ (∀ before chat by_ after, log = before ++ E_ContributionAdmitted chat by_ :: after → homed before chat)
    ∧ (∀ before rehomed after, log = before ++ E_WorkstreamArchived rehomed :: after →
         after = [] ∧ NoDup rehomed ∧ ∀ chat, chat ∈ rehomed ↔ homed before chat).
Proof.
  destruct (session_total workstream_lifecycle cs) as (log & s & Hs & Ht & _). exists log, s.
  assert (∀ before e after, log = before ++ e :: after →
    ∃ s0 c, workstream_told before s0 ∧ decide s0 c = Ok [e]) as Hev.
  { intros before e after Hlog.
    destruct (trace_event workstream_lifecycle log s before e after) as (s0 & c & Ht0 & Hd); [|done|done|].
    - intros s1 c es [e' ->]%workstream_decide_one. done.
    - exists s0, c. split; [by apply trace_workstream|done]. }
  split_and!; [done|by apply trace_workstream| |].
  - intros before chat by_ after Hlog. destruct (Hev _ _ _ Hlog) as (s0 & c & [Hm _] & Hd).
    destruct c; simpl in Hd; repeat split_next Hd; simplify_eq. guards. by apply Hm.
  - intros before rehomed after Hlog. split.
    + destruct after as [|e after]; [done|].
      destruct (Hev (before ++ [E_WorkstreamArchived rehomed]) e after) as (s0 & c & Htold & Hd).
      { by rewrite Hlog, <- app_assoc. }
      destruct (active_told _ _ _ _ Htold Hd) as [Ha _]. rewrite archived_snoc in Ha. simpl in Ha.
      by rewrite orb_true_r in Ha.
    + destruct (Hev _ _ _ Hlog) as (s0 & c & [Hm _] & Hd).
      destruct c; simpl in Hd; repeat split_next Hd; simplify_eq. unfold iter_members. split.
      * rewrite merge_sort_Permutation. apply NoDup_elements.
      * intros chat. rewrite merge_sort_Permutation, elem_of_elements. apply Hm.
Qed.
