(* ===== verification/Export.v ===== *)
(** * Resource export

    [crates/core/src/resource_export.rs]: a resource leaves its boundary once every source
    stakeholder consents and the target admits it. *)

From S2P Require Import Prelude Ids Lifecycle.

Inductive ExportPhase := P_Init | P_Requested | P_Cleared | P_Exported | P_Denied.

#[export] Instance ExportPhase_eq_dec : EqDecision ExportPhase.
Proof. solve_decision. Defined.

Record ExportState := mkExport {
  phase : ExportPhase;
  source_required : gset string;
  source_consented : gset string;
  target_admitted : bool;
}.

#[export] Instance ExportState_eta : Eta ExportState := mkEta (λ s,
  mkExport (phase s) (source_required s) (source_consented s) (target_admitted s)).

Definition export_default : ExportState := mkExport P_Init ∅ ∅ false.

Inductive ExportCommand :=
| C_ProposeExport (required : gset string)
| C_SourceConsent (a : string)
| C_TargetAdmit
| C_Revoke (a : string)
| C_Export
| C_Reject (a : string)
| C_Cancel
| C_Expire.

Inductive ExportEvent :=
| E_ExportProposed (required : gset string)
| E_SourceConsented (a : string)
| E_TargetAdmitted
| E_Cleared
| E_ConsentRevoked (a : string)
| E_Exported
| E_ExportRejected (a : string)
| E_ExportCanceled
| E_ExportExpired.

#[export] Instance ExportEvent_eq_dec : EqDecision ExportEvent.
Proof. solve_decision. Defined.

Definition ready (required consented : gset string) (target : bool) : bool :=
  bool_decide (required ⊆ consented) && target.

(** Phases in which an export can still be revoked or rejected. *)
Definition reviewable (p : ExportPhase) : bool :=
  match p with P_Requested | P_Cleared => true | _ => false end.

Definition decide (state : ExportState) (command : ExportCommand) : result Rejection (list ExportEvent) :=
  match command with
  | C_ProposeExport required =>
      match phase state with
      | P_Init => Ok [E_ExportProposed required]
      | _ => reject "proposeExport: already exists"
      end
  | C_SourceConsent a =>
      if negb (bool_decide (phase state = P_Requested) && bool_decide (a ∈ source_required state)
               && negb (bool_decide (a ∈ source_consented state)))
      then reject "sourceConsent: not a pending source stakeholder"
      else
        let after := {[a]} ∪ source_consented state in
        Ok (E_SourceConsented a ::
            if ready (source_required state) after (target_admitted state) then [E_Cleared] else [])
  | C_TargetAdmit =>
      if negb (bool_decide (phase state = P_Requested)) || target_admitted state
      then reject "targetAdmit: not applicable"
      else Ok (E_TargetAdmitted ::
               if ready (source_required state) (source_consented state) true then [E_Cleared] else [])
  | C_Revoke a =>
      if reviewable (phase state) && bool_decide (a ∈ source_consented state)
      then Ok [E_ConsentRevoked a]
      else reject "revoke: nothing to revoke (or already exported — INV-18)"
  | C_Export =>
      match phase state with
      | P_Cleared => Ok [E_Exported]
      | _ => reject "export: not cleared (EXPORT_REQUIRES_SOURCE_AND_TARGET)"
      end
  | C_Reject a =>
      if reviewable (phase state) && bool_decide (a ∈ source_required state)
      then Ok [E_ExportRejected a]
      else reject "rejectExport: not a source stakeholder in a reviewable phase"
  | C_Cancel =>
      match phase state with
      | P_Requested => Ok [E_ExportCanceled]
      | _ => reject "cancel: no pending export request"
      end
  | C_Expire =>
      match phase state with
      | P_Requested | P_Cleared => Ok [E_ExportExpired]
      | _ => reject "expireExport: no pending proposal"
      end
  end.

Definition evolve (s : ExportState) (event : ExportEvent) : ExportState :=
  match event with
  | E_ExportProposed required =>
      s <| phase := P_Requested |> <| source_required := required |> <| source_consented := ∅ |>
        <| target_admitted := false |>
  | E_SourceConsented a => s <| source_consented := {[a]} ∪ source_consented s |>
  | E_TargetAdmitted => s <| target_admitted := true |>
  | E_Cleared => s <| phase := P_Cleared |>
  | E_ConsentRevoked a =>
      s <| source_consented := source_consented s ∖ {[a]} |> <| phase := P_Requested |>
  | E_Exported => s <| phase := P_Exported |>
  | E_ExportRejected _ | E_ExportCanceled | E_ExportExpired => s <| phase := P_Denied |>
  end.

Definition export_lifecycle : Lifecycle := {|
  lc_state := ExportState;
  lc_command := ExportCommand;
  lc_event := ExportEvent;
  lc_default := export_default;
  KIND := "resource_export";
  lc_decide := decide;
  lc_evolve := λ s e, Some (evolve s e);
  lc_snapshot_codec := None;
|}.

(** ** Invariant *)

Record export_inv (s : ExportState) : Prop := {
  inv_ghost : source_consented s ⊆ source_required s;
  inv_pending : phase s = P_Requested →
    ready (source_required s) (source_consented s) (target_admitted s) = false;
  inv_cleared : phase s = P_Cleared ∨ phase s = P_Exported →
    source_required s ⊆ source_consented s ∧ target_admitted s = true;
}.

Lemma ready_true required consented target :
  ready required consented target = true ↔ required ⊆ consented ∧ target = true.
Proof. unfold ready. by rewrite andb_true_iff, bool_decide_eq_true. Qed.

Lemma export_step s c es : export_inv s → decide s c = Ok es → export_inv (fold_left evolve es s).
Proof.
  intros [Hg Hp Hc] Hd.
  destruct s as [p req con tgt]; simpl in *. destruct c; simpl in Hd.
  - destruct p; simplify_eq; split; simpl; [set_solver|intros _; unfold ready; by rewrite andb_false_r|by intros [|]].
  - destruct (negb _) eqn:Hn; [done|]. guards.
    destruct (ready req ({[a]} ∪ con) tgt) eqn:Hr; simplify_eq; simpl; split; simpl; try set_solver.
    intros _. by apply ready_true in Hr.
  - destruct (negb _ || tgt) eqn:Hn; [done|]. apply orb_false_iff in Hn as [Hn ->]. guards. subst p.
    destruct (ready req con true) eqn:Hr; simplify_eq; simpl; split; simpl; try done; try by intros [|].
    intros _. by apply ready_true in Hr.
  - destruct (reviewable p && _) eqn:Hn; [|done]. simplify_eq. guards. split; simpl; [set_solver| |by intros [|]].
    intros _. apply not_true_iff_false. rewrite ready_true. set_solver.
  - destruct p; simplify_eq. split; simpl; try done. intros _. apply Hc. by left.
  - destruct (reviewable p && _); [|done]. simplify_eq. split; simpl; [done|done|by intros [|]].
  - destruct p; simplify_eq. split; simpl; [done|done|by intros [|]].
  - destruct p; simplify_eq; split; simpl; try done; by intros [|].
Qed.

#[export] Instance export_safe : LifecycleSafe export_lifecycle.
Proof.
  refine {| lc_inv := export_inv : lc_state export_lifecycle → Prop |}.
  - split; simpl; [done|done|by intros [|]].
  - apply total_lifecycle_safe with evolve; [done|]. exact export_step.
Defined.

(** ** What the log says *)

Definition moves_consent (a : string) (e : ExportEvent) : bool :=
  match e with
  | E_ExportProposed _ => true
  | E_SourceConsented b | E_ConsentRevoked b => String.eqb b a
  | _ => false
  end.

(** The consent of [a] stands in a log. *)
Definition consents (log : list ExportEvent) (a : string) : Prop :=
  last_such (moves_consent a) log = Some (E_SourceConsented a).

Lemma consented_is_log log a :
  a ∈ source_consented (fold_left evolve log export_default) ↔ consents log a.
Proof.
  unfold consents. induction log as [|e log IH] using rev_ind; [set_solver|].
  rewrite fold_left_app, last_such_snoc. destruct e as [r|b| | |b| |b| |]; simpl; rewrite ?IH; try done.
  - rewrite elem_of_union, elem_of_singleton, IH. destruct (String.eqb_spec b a) as [->|]; naive_solver.
  - rewrite elem_of_difference, elem_of_singleton, IH. destruct (String.eqb_spec b a) as [->|]; naive_solver.
Qed.

Lemma target_is_log log :
  target_admitted (fold_left evolve log export_default) = true → E_TargetAdmitted ∈ log.
Proof.
  induction log as [|e log IH] using rev_ind; [done|]. rewrite fold_left_app.
  destruct e; simpl; intros Ht; try done; first [apply elem_of_snoc_r|apply elem_of_snoc_l; auto].
Qed.

Lemma trace_fold log s : trace export_lifecycle log s → s = fold_left evolve log export_default.
Proof.
  intros Hr%trace_replay. unfold replay, evolve_all in Hr. simpl in Hr. rewrite foldM_total in Hr. by injection Hr.
Qed.

Lemma required_is_log log s :
  trace export_lifecycle log s → phase s = P_Init ∨ E_ExportProposed (source_required s) ∈ log.
Proof.
  induction 1 as [|log s c es s' _ IH Ha]; [by left|]. right.
  apply (apply_admitted export_lifecycle) in Ha as [Hd He]. unfold evolve_all in He. simpl in He.
  rewrite foldM_total in He. injection He as <-. apply elem_of_app. simpl in Hd.
  assert (∀ es', (∀ r, E_ExportProposed r ∉ es') →
    source_required (fold_left evolve es' s) = source_required s) as Hsame.
  { clear. intros es'. generalize s. induction es' as [|e es' IH]; intros t Hno; simpl; [done|].
    rewrite IH; [|set_solver]. destruct e; simpl; try done. by destruct (Hno required ltac:(by left)). }
  destruct c; simpl in Hd; repeat split_outer Hd; simplify_eq.
  all: first [by right; left | left; rewrite Hsame; [destruct IH as [Hi|]; [|done]|]].
  all: try (intros r Hin; repeat case_match; set_solver).
  all: try by rewrite Hi in *.
Qed.

(** An export is a batch of its own, decided when cleared. *)
Lemma export_batch s c pre post :
  decide s c = Ok (pre ++ E_Exported :: post) → pre = [] ∧ post = [] ∧ phase s = P_Cleared.
Proof.
  intros Hd. destruct c; simpl in Hd; repeat split_outer Hd; simplify_eq;
    destruct pre as [|x [|y [|]]]; simplify_eq/=; try done; repeat case_match; simplify_eq; done.
Qed.

Lemma exported_stuck s c es : phase s = P_Exported → decide s c ≠ Ok es.
Proof.
  intros Hp. destruct c; simpl; rewrite Hp; simpl; done.
Qed.

(** An export needs both sides. Whatever was requested before, each export of the log
    happened when the standing consent of every source stakeholder and the target's
    admission were on the log; consents that were revoked before do not count, only
    stakeholders ever consent, and nothing follows the export. *)
Theorem export_needs_both (cs : list ExportCommand) :
  ∃ log s, session export_lifecycle cs = Some (log, s)
    ∧ (∀ before after, log = before ++ E_Exported :: after →
         after = [] ∧ E_TargetAdmitted ∈ before
         ∧ ∃ required, E_ExportProposed required ∈ before ∧ ∀ a, a ∈ required ↔ consents before a)
    ∧ source_consented s ⊆ source_required s.
Proof.
  destruct (session_total export_lifecycle cs) as (log & s & Hs & Ht & Hinv & _). exists log, s.
  split_and!; [done| |exact (inv_ghost s Hinv)]. intros before after Hlog. split.
  - destruct after as [|e after]; [done|]. exfalso.
    destruct (trace_event_batch export_lifecycle log s (before ++ [E_Exported]) e after Ht)
      as (earlier & pre & post & s0 & c & Heq & Ht0 & Hd); [by rewrite Hlog, <- app_assoc|].
    destruct pre as [|x pre _] using rev_ind.
    + rewrite app_nil_r in Heq. subst earlier. apply trace_fold in Ht0.
      rewrite fold_left_app in Ht0. eapply exported_stuck; [|exact Hd]. by rewrite Ht0.
    + rewrite app_assoc in Heq. apply app_inj_tail in Heq as [_ <-]. rewrite <- app_assoc in Hd.
      by apply export_batch in Hd as (_ & ? & _).
  - destruct (trace_event_batch export_lifecycle log s before E_Exported after Ht Hlog)
      as (earlier & pre & post & s0 & c & Heq & Ht0 & Hd).
    apply export_batch in Hd as (-> & _ & Hp). rewrite app_nil_r in Heq. subst earlier.
    pose proof (trace_inv export_lifecycle before s0 Ht0) as Hinv0.
    destruct (inv_cleared s0 Hinv0 (or_introl Hp)) as [Hall Htgt].
    destruct (required_is_log before s0 Ht0) as [Hi|Hreq]; [congruence|].
    pose proof (trace_fold before s0 Ht0) as Hs0. split.
    + apply target_is_log. by rewrite <- Hs0.
    + exists (source_required s0). split; [done|]. intros a. rewrite <- consented_is_log, <- Hs0.
      pose proof (inv_ghost s0 Hinv0). set_solver.
Qed.

(** A revoked consent has to be given again before the export clears. *)
Example revoked_then_exported :
  fst <$> session export_lifecycle
    [C_ProposeExport {["x"]}; C_SourceConsent "x"; C_TargetAdmit; C_Revoke "x"; C_Export; C_SourceConsent "x"; C_Export]
  = Some [E_ExportProposed {["x"]}; E_SourceConsented "x"; E_TargetAdmitted; E_Cleared; E_ConsentRevoked "x";
          E_SourceConsented "x"; E_Cleared; E_Exported].
Proof. vm_compute. reflexivity. Qed.
