(* ===== verification/Pricing.v ===== *)
(** * What runs and engagements cost

    [crates/core/src/whip_pricing.rs] (recorded token counts and a rate card give money,
    or the gaps that stop a total) and [crates/core/src/billing.rs] (the split of one
    engagement between consultant and platform), at the widths of the source. *)

From S2P Require Import Prelude Ids ModelData.

(** ** Rates and recorded usage *)

Definition u128_add (a b : N) : N := ((a + b) mod u128_modulus)%N.

Inductive Bucket := InputUncached | InputCacheRead | InputCacheWrite | Output.

#[export] Instance Bucket_eq_dec : EqDecision Bucket.
Proof. solve_decision. Defined.

Definition ALL : list Bucket := [InputUncached; InputCacheRead; InputCacheWrite; Output].

Definition measure_name (b : Bucket) : string :=
  match b with
  | InputUncached => "input_uncached" | InputCacheRead => "input_cache_read"
  | InputCacheWrite => "input_cache_write" | Output => "output"
  end.

Record ModelRates := mkRates {
  rate_input_uncached : N; (* u64 *)
  rate_input_cache_read : N;
  rate_input_cache_write : N;
  rate_output : N;
  rate_source : string;
  as_of : string;
}.

Definition rate (r : ModelRates) (b : Bucket) : N :=
  match b with
  | InputUncached => rate_input_uncached r | InputCacheRead => rate_input_cache_read r
  | InputCacheWrite => rate_input_cache_write r | Output => rate_output r
  end.

Record RateCard := mkCard {
  card_version : string;
  card_currency : Currency;
  models : gmap string ModelRates;
}.

Record MeteredUsage := mkMetered {
  used_input_uncached : option N; (* u64 *)
  used_input_cache_read : option N;
  used_input_cache_write : option N;
  used_output : option N;
}.

Definition used_tokens (u : MeteredUsage) (b : Bucket) : option N :=
  match b with
  | InputUncached => used_input_uncached u | InputCacheRead => used_input_cache_read u
  | InputCacheWrite => used_input_cache_write u | Output => used_output u
  end.

Record MeteredRow := mkRow { row_model : option string; row_usage : MeteredUsage }.

Inductive Gap :=
| ModelUnrecorded
| NoRate (model : string)
| Unrecorded (model : option string) (bucket : Bucket).

#[export] Instance Gap_eq_dec : EqDecision Gap.
Proof. solve_decision. Defined.

(** The derived orders of [Bucket], [Option<String>] and [Gap]. *)
Definition bucket_index (b : Bucket) : nat :=
  match b with InputUncached => 0 | InputCacheRead => 1 | InputCacheWrite => 2 | Output => 3 end.

Definition option_le (a b : option string) : Prop :=
  match a, b with
  | None, _ => True
  | Some _, None => False
  | Some x, Some y => String.le x y
  end.

Definition gap_le (a b : Gap) : Prop :=
  match a, b with
  | ModelUnrecorded, _ => True
  | NoRate _, ModelUnrecorded => False
  | NoRate m, NoRate n => String.le m n
  | NoRate _, Unrecorded _ _ => True
  | Unrecorded m b, Unrecorded n c => if base.decide (m = n) then bucket_index b ≤ bucket_index c else option_le m n
  | Unrecorded _ _, _ => False
  end.

#[export] Instance option_le_dec : RelDecision option_le.
Proof. intros [x|] [y|]; simpl; apply _. Defined.
#[export] Instance gap_le_dec : RelDecision gap_le.
Proof. intros [|m|m b] [|n|n c]; simpl; try apply _. case_decide; apply _. Defined.

(** [Vec::dedup]: drop an element equal to the one before it. *)
Fixpoint dedup (l : list Gap) : list Gap :=
  match l with
  | [] => []
  | x :: l => match dedup l with
              | [] => [x]
              | y :: l' => if bool_decide (x = y) then y :: l' else x :: y :: l'
              end
  end.

Record Priced := mkPriced { priced_currency : Currency; numerator : N; gaps : list Gap }.

Definition PER_MILLION : N := 1000000.

Definition div_ceil (a b : N) : N := ((a + (b - 1)) / b)%N.

Definition recorded_cost (p : Priced) : Money :=
  mkMoney (priced_currency p) (N.min (div_ceil (numerator p) PER_MILLION) u64_max).

Definition amount (p : Priced) : option Money :=
  if bool_decide (gaps p = []) then Some (recorded_cost p) else None.

(** One bucket of one row: what it adds, or what is missing. *)
Definition price_bucket (card : RateCard) (row : MeteredRow) (acc : N * list Gap) (bucket : Bucket)
    : N * list Gap :=
  let rates := row_model row ≫= λ m, models card !! m in
  match used_tokens (row_usage row) bucket with
  | None => (acc.1, acc.2 ++ [Unrecorded (row_model row) bucket])
  | Some tokens =>
      if bool_decide (tokens = 0%N) then acc
      else match row_model row, rates with
           | _, Some rates => (u128_add acc.1 (tokens * rate rates bucket), acc.2)
           | Some m, None => (acc.1, acc.2 ++ [NoRate m])
           | None, None => (acc.1, acc.2 ++ [ModelUnrecorded])
           end
  end.

Definition price_row (card : RateCard) (acc : N * list Gap) (row : MeteredRow) : N * list Gap :=
  fold_left (price_bucket card row) ALL acc.

Definition price (card : RateCard) (rows : list MeteredRow) : Priced :=
  let acc := fold_left (price_row card) rows (0%N, []) in
  mkPriced (card_currency card) acc.1 (dedup (merge_sort gap_le acc.2)).

(** ** Sorting and removing repetitions *)

#[export] Instance option_le_po : PartialOrder option_le.
Proof.
  repeat split.
  - intros [x|]; simpl; [reflexivity|done].
  - intros [x|] [y|] [z|]; simpl; try done. apply (transitivity (R:=String.le)).
  - intros [x|] [y|]; simpl; try done. intros. f_equal. by apply (anti_symm String.le).
Qed.

#[export] Instance gap_le_po : PartialOrder gap_le.
Proof.
  repeat split.
  - intros [|m|m b]; simpl; [done|reflexivity|by rewrite decide_True].
  - intros [|m|m b] [|n|n c] [|k|k d]; simpl; try done; [by apply (transitivity (R:=String.le))|].
    intros H1 H2. repeat case_decide; subst; try done; try lia.
    + by destruct (anti_symm option_le n k).
    + by etrans.
  - intros [|m|m b] [|n|n c]; simpl; try done.
    + intros. f_equal. by apply (anti_symm String.le).
    + intros H1 H2. repeat case_decide; subst; try done.
      * f_equal. destruct b, c; simpl in *; first [done|lia].
      * by destruct (anti_symm option_le m n).
Qed.

#[export] Instance gap_le_total : Total gap_le.
Proof.
  intros [|m|m b] [|n|n c]; simpl; auto; [apply String.le_total|].
  case_decide as H1; subst; [rewrite decide_True by done; lia|]. rewrite decide_False by done.
  destruct m, n; simpl; auto. apply String.le_total.
Qed.

Lemma elem_of_dedup x l : x ∈ dedup l ↔ x ∈ l.
Proof.
  induction l as [|y l IH]; [done|]. simpl. rewrite elem_of_cons, <- IH.
  destruct (dedup l) as [|z l']; [set_solver|]. case_bool_decide; subst; set_solver.
Qed.

Lemma dedup_sorted l : StronglySorted gap_le l → StronglySorted (strict gap_le) (dedup l).
Proof.
  induction 1 as [|x l Hs IH Hx]; [constructor|]. simpl.
  destruct (dedup l) as [|y l'] eqn:Hd; [by repeat constructor|].
  assert (∀ z, z ∈ y :: l' → gap_le x z) as Hle.
  { intros z Hz. rewrite <- Hd, elem_of_dedup in Hz. by eapply Forall_forall in Hx. }
  case_bool_decide as Hxy; [done|]. constructor; [done|]. inversion IH as [|? ? Hs' Hy]; subst.
  assert (strict gap_le x y) as Hxs.
  { split; [apply Hle; by left|]. intros Hyx. apply Hxy. apply (anti_symm gap_le); [apply Hle; by left|done]. }
  constructor; [done|]. apply Forall_forall. intros z Hz. eapply Forall_forall in Hy; [|exact Hz].
  destruct Hxs as [H1 H2], Hy as [H3 H4]. split; [by etrans|]. intros Hzx. apply H4. by etrans.
Qed.

(** ** What pricing means *)

Definition rates_of (card : RateCard) (row : MeteredRow) : option ModelRates :=
  row_model row ≫= λ m, models card !! m.

(** The cost of a bucket, in micros per million tokens. *)
Definition cost (card : RateCard) (row : MeteredRow) (b : Bucket) : N :=
  match used_tokens (row_usage row) b, rates_of card row with
  | Some tokens, Some rates => tokens * rate rates b
  | _, _ => 0
  end.

(** What stops a bucket from being priced. *)
Definition gap_of (card : RateCard) (row : MeteredRow) (b : Bucket) : option Gap :=
  match used_tokens (row_usage row) b with
  | None => Some (Unrecorded (row_model row) b)
  | Some tokens =>
      if bool_decide (tokens = 0%N) then None
      else match rates_of card row with
           | Some _ => None
           | None => Some (match row_model row with Some m => NoRate m | None => ModelUnrecorded end)
           end
  end.

Definition sum_N (l : list N) : N := foldr N.add 0%N l.

(** The exact total over all rows and buckets. *)
Definition total (card : RateCard) (rows : list MeteredRow) : N :=
  sum_N (rows ≫= λ row, cost card row <$> ALL).

Definition all_gaps (card : RateCard) (rows : list MeteredRow) : list Gap :=
  rows ≫= λ row, omap (gap_of card row) ALL.

Lemma price_bucket_spec card row k gs b :
  price_bucket card row ((k mod u128_modulus)%N, gs) b
  = (((k + cost card row b) mod u128_modulus)%N, gs ++ option_list (gap_of card row b)).
Proof.
  unfold price_bucket, cost, gap_of, u128_add. fold (rates_of card row). simpl.
  destruct (used_tokens (row_usage row) b) as [t|]; simpl; [|by rewrite N.add_0_r].
  case_bool_decide as Ht; simpl.
  - subst t. rewrite app_nil_r. destruct (rates_of card row); by rewrite ?N.mul_0_l, N.add_0_r.
  - unfold rates_of. destruct (row_model row) as [m|]; simpl; [destruct (models card !! m)|]; simpl;
      rewrite ?N.add_0_r, ?app_nil_r, ?N.Div0.add_mod_idemp_l; done.
Qed.

Lemma sum_N_app l l' : sum_N (l ++ l') = (sum_N l + sum_N l')%N.
Proof. unfold sum_N. rewrite foldr_app. induction l as [|x l IH]; simpl; [done|]. rewrite IH. lia. Qed.

Lemma price_row_spec card row k gs bs :
  fold_left (price_bucket card row) bs ((k mod u128_modulus)%N, gs)
  = (((k + sum_N (cost card row <$> bs)) mod u128_modulus)%N, gs ++ omap (gap_of card row) bs).
Proof.
  revert k gs. induction bs as [|b bs IH]; intros k gs; [by rewrite N.add_0_r, app_nil_r|].
  cbn [fold_left]. rewrite price_bucket_spec, IH. csimpl. f_equal; [f_equal; lia|].
  rewrite <- app_assoc. f_equal. by destruct (gap_of card row b).
Qed.

Lemma price_rows_spec card rows k gs :
  fold_left (price_row card) rows ((k mod u128_modulus)%N, gs)
  = (((k + total card rows) mod u128_modulus)%N, gs ++ all_gaps card rows).
Proof.
  revert k gs. induction rows as [|row rows IH]; intros k gs; [by rewrite N.add_0_r, app_nil_r|].
  cbn [fold_left]. unfold price_row at 2. rewrite price_row_spec, IH. unfold total, all_gaps.
  rewrite !bind_cons, sum_N_app, <- app_assoc. f_equal. f_equal. lia.
Qed.

Lemma price_acc card rows :
  fold_left (price_row card) rows (0%N, []) = ((total card rows mod u128_modulus)%N, all_gaps card rows).
Proof. exact (price_rows_spec card rows 0 []). Qed.

Lemma elem_of_all_gaps card rows g :
  g ∈ all_gaps card rows ↔ ∃ row b, row ∈ rows ∧ gap_of card row b = Some g.
Proof.
  unfold all_gaps. rewrite list_elem_of_bind. setoid_rewrite list_elem_of_omap. split.
  - intros (row & (b & _ & Hb) & Hrow). by exists row, b.
  - intros (row & b & Hrow & Hb). exists row. split; [|done]. exists b. split; [|done].
    destruct b; unfold ALL; set_solver.
Qed.

Lemma div_ceil_spec a b : (0 < b)%N → (a ≤ b * div_ceil a b < a + b)%N.
Proof.
  intros Hb. unfold div_ceil. pose proof (N.div_mod (a + (b - 1)) b ltac:(lia)) as Hd.
  pose proof (N.mod_lt (a + (b - 1)) b ltac:(lia)) as Hm. revert Hd Hm.
  generalize ((a + (b - 1)) / b)%N as q, ((a + (b - 1)) mod b)%N as r. intros q r Hd Hm.
  assert (a + b = b * q + r + 1)%N as He by lia. split; lia.
Qed.

(** Pricing is exact and never guesses. The accumulator is the sum, over rows and
    buckets, of recorded tokens times the model's rate; the gaps are exactly what stops
    some bucket (a count not recorded, or tokens spent by a model without a rate), in
    order and each once; there is a total exactly when there is no gap; and when it fits
    it is the sum rounded up to a micro, or pegged at the largest u64. *)
Theorem price_exact (card : RateCard) (rows : list MeteredRow) :
  let p := price card rows in
  numerator p = (total card rows mod u128_modulus)%N
  ∧ (∀ g, g ∈ gaps p ↔ ∃ row b, row ∈ rows ∧ gap_of card row b = Some g)
  ∧ StronglySorted (strict gap_le) (gaps p)
  ∧ (is_Some (amount p) ↔ ∀ row b, row ∈ rows → gap_of card row b = None)
  ∧ ∀ money, amount p = Some money → (total card rows < u128_modulus)%N →
      currency money = card_currency card
      ∧ (micros money = u64_max ∧ PER_MILLION * (u64_max - 1) < total card rows
         ∨ micros money < u64_max
           ∧ total card rows ≤ PER_MILLION * micros money < total card rows + PER_MILLION)%N.
Proof.
  unfold price. rewrite price_acc. simpl.
  assert (∀ g, g ∈ dedup (merge_sort gap_le (all_gaps card rows)) ↔
    ∃ row b, row ∈ rows ∧ gap_of card row b = Some g) as Hgaps.
  { intros g. rewrite elem_of_dedup, merge_sort_Permutation. apply elem_of_all_gaps. }
  split_and!; [done|done| | |].
  - apply dedup_sorted, StronglySorted_merge_sort; apply _.
  - unfold amount. simpl. split.
    + case_bool_decide as He; [|by intros [? ?]]. intros _ row b Hrow. apply eq_None_not_Some. intros [g Hg].
      apply (not_elem_of_nil g). rewrite <- He. apply Hgaps. eauto.
    + intros Hall. rewrite bool_decide_eq_true_2; [by eexists|]. apply elem_of_nil_inv. intros g Hg.
      apply Hgaps in Hg as (row & b & Hrow & Hb). by rewrite Hall in Hb.
  - intros money. unfold amount. simpl. case_bool_decide; [|done]. intros [= <-] Hlt.
    unfold recorded_cost. simpl. rewrite N.mod_small by done. split; [done|].
    pose proof (div_ceil_spec (total card rows) PER_MILLION ltac:(done)) as Hd. unfold PER_MILLION, u64_max in *. lia.
Qed.

(** Pricing two parts of a report and adding the accumulators prices the whole. *)
Lemma price_additive card rows rows' :
  numerator (price card (rows ++ rows')) = u128_add (numerator (price card rows)) (numerator (price card rows')).
Proof.
  unfold price, u128_add. rewrite !price_acc. simpl. unfold total. rewrite bind_app, sum_N_app.
  by rewrite <- N.Div0.add_mod.
Qed.

(** ** The split of an engagement *)

Record BillingPolicy := mkPolicy { take_rate_bps : N (* u32 *); metered_floor_cents : N (* u64 *) }.

Record Engagement := mkEngagement { value_cents : N; attested_runs : N }.

Record TransactionSettlement := mkTransaction {
  client_charge_cents : N;
  platform_take_cents : N;
  transaction_net_cents : N;
}.

Record PlatformCharge := mkCharge { metered_floor_total_cents : N; total_cents : N }.

Record Settlement := mkSettlement {
  transaction : TransactionSettlement;
  platform_charge : PlatformCharge;
  platform_revenue_cents : N;
  consultant_net_cents : Z; (* i64 *)
}.

Definition FREE_CONSULTANT_SEATS : N := 3.

Definition saturating (n : N) : N := N.min n u64_max.

Definition platform_seat_charge (seats_used free_seats seat_fee_cents : N) : N :=
  saturating (seat_fee_cents * (seats_used - free_seats)).

(** [as i64] of a u64, and wrapping subtraction in i64. *)
Definition to_i64 (z : Z) : Z := ((z + 2 ^ 63) mod 2 ^ 64 - 2 ^ 63)%Z.

Definition settle (policy : BillingPolicy) (e : Engagement) : Settlement :=
  let take := N.min (value_cents e * take_rate_bps policy / 10000) u64_max in
  let transaction_net := (value_cents e - take)%N in
  let metered_floor_total := saturating (metered_floor_cents policy * attested_runs e) in
  let platform_revenue := saturating (take + metered_floor_total) in
  let consultant_net := to_i64 (to_i64 (Z.of_N transaction_net) - to_i64 (Z.of_N metered_floor_total)) in
  mkSettlement (mkTransaction (value_cents e) take transaction_net)
    (mkCharge metered_floor_total metered_floor_total) platform_revenue consultant_net.

Lemma to_i64_exact z : (-2 ^ 63 ≤ z < 2 ^ 63)%Z → to_i64 z = z.
Proof. intros Hz. unfold to_i64. rewrite Z.mod_small; lia. Qed.

(** Money is conserved. With a take rate of at most 100% the client's charge is split
    exactly between platform and consultant, neither negative; the platform's revenue
    is its take and the metered floor; and when price and floor fit a signed 64-bit
    amount, revenue and the consultant's overall net add up to the client's charge. *)
Theorem settlement_conserves (policy : BillingPolicy) (e : Engagement) :
  (take_rate_bps policy ≤ 10000)%N → (value_cents e < 2 ^ 63)%N →
  (metered_floor_cents policy * attested_runs e < 2 ^ 63)%N →
  let s := settle policy e in
  (client_charge_cents (transaction s)
     = platform_take_cents (transaction s) + transaction_net_cents (transaction s)
   ∧ 10000 * platform_take_cents (transaction s) ≤ value_cents e * take_rate_bps policy
   ∧ value_cents e * take_rate_bps policy < 10000 * (platform_take_cents (transaction s) + 1)
   ∧ total_cents (platform_charge s) = metered_floor_cents policy * attested_runs e)%N
  ∧ (Z.of_N (platform_revenue_cents s) + consultant_net_cents s = Z.of_N (value_cents e))%Z.
Proof.
  intros Hrate Hval Hfloor s.
  set (v := value_cents e) in *. set (r := take_rate_bps policy) in *.
  set (f := (metered_floor_cents policy * attested_runs e)%N) in *.
  pose proof (N.div_mod (v * r) 10000 ltac:(lia)) as Hd. pose proof (N.mod_lt (v * r) 10000 ltac:(lia)) as Hm.
  set (t := (v * r / 10000)%N) in *. assert (t ≤ v)%N as Htv.
  { apply N.Div0.div_le_upper_bound. rewrite (N.mul_comm 10000). by apply N.mul_le_mono_l. }
  subst s. unfold settle. cbv zeta. simpl. fold v r f t. unfold saturating, u64_max.
  set (m := ((v * r) mod 10000)%N) in *. clearbody t f m.
  rewrite (N.min_l t), (N.min_l f) by lia. rewrite (N.min_l (t + f)) by lia.
  change (2 ^ 63)%N with 9223372036854775808%N in *.
  rewrite (to_i64_exact (Z.of_N (v - t))), (to_i64_exact (Z.of_N f)), to_i64_exact by (change (2 ^ 63)%Z with 9223372036854775808%Z; lia).
  split_and!; try lia.
Qed.

Lemma settlement_conserves_witness :
  (Z.of_N (platform_revenue_cents (settle (mkPolicy 1000 50) (mkEngagement 10000 3)))
   + consultant_net_cents (settle (mkPolicy 1000 50) (mkEngagement 10000 3)) = 10000)%Z.
Proof. apply (settlement_conserves (mkPolicy 1000 50) (mkEngagement 10000 3)); vm_compute; done. Defined.

(** A take rate above 100% is not refused: the take then exceeds the charge, which is
    not what platform and consultant received together. *)
Example take_rate_unbounded :
  let t := transaction (settle (mkPolicy 20000 0) (mkEngagement 100 0)) in
  (client_charge_cents t = 100 ∧ platform_take_cents t + transaction_net_cents t = 200)%N.
Proof. vm_compute. done. Qed.
