(* ===== verification/Supply.v ===== *)
(** * Envelope supply

    [crates/core/src/envelope_supply.rs]: the two cross-checked lists a multi-party run
    travels with: everyone with a stake, and the policies it was checked under. *)

From S2P Require Import Prelude Ids.

Record CompositionEntry := mkComposition { ce_authority : string; ce_hash : string; ce_epoch : N }.

Record RosterEntry := mkRoster { re_authority : string; governed : bool }.

Record SuppliedEnvelope := mkSupplied {
  se_authority : string;
  se_hash : string;
  se_epoch : N; (* u64 *)
  signer : PublicKey;
}.

Record EnvelopeSupply := mkSupply { roster : list RosterEntry; composition : list CompositionEntry }.

Definition ungoverned (s : EnvelopeSupply) : list string :=
  re_authority <$> filter (λ e, Is_true (negb (governed e))) (roster s).

Inductive SupplyRefusal :=
| NotAStakeholder (a : string)
| DuplicateAuthority (a : string)
| UnboundAuthority (a : string)
| NotRootSigned (a : string) (signer : PublicKey).

(** A [BTreeSet]'s elements in order. *)
Definition set_iter (m : gset string) : list string := merge_sort String.le (elements m).

Section assemble.
Context (stakeholders : gset string) (root_key_of : string → option PublicKey).

Definition entry_of (e : SuppliedEnvelope) : CompositionEntry :=
  mkComposition (se_authority e) (se_hash e) (se_epoch e).

(** One envelope of the loop. *)
Definition supply_one (by_authority : gmap string CompositionEntry) (e : SuppliedEnvelope)
    : result SupplyRefusal (gmap string CompositionEntry) :=
  if negb (bool_decide (se_authority e ∈ stakeholders)) then Err (NotAStakeholder (se_authority e))
  else match root_key_of (se_authority e) with
       | None => Err (UnboundAuthority (se_authority e))
       | Some root =>
           if negb (bool_decide (signer e = root)) then Err (NotRootSigned (se_authority e) (signer e))
           else if bool_decide (is_Some (by_authority !! se_authority e))
           then Err (DuplicateAuthority (se_authority e))
           else Ok (<[se_authority e := entry_of e]> by_authority)
       end.

Definition assemble (supplied : list SuppliedEnvelope) : result SupplyRefusal EnvelopeSupply :=
  let? by_authority := try_fold supply_one ∅ supplied in
  Ok (mkSupply
        ((λ a, mkRoster a (bool_decide (is_Some (by_authority !! a)))) <$> set_iter stakeholders)
        (btree_values by_authority)).

(** ** What is supplied *)

(** The envelope speaks for a stakeholder and its root signed it. *)
Definition acceptable (e : SuppliedEnvelope) : Prop :=
  se_authority e ∈ stakeholders ∧ root_key_of (se_authority e) = Some (signer e).

Lemma supply_one_ok m e m' :
  supply_one m e = Ok m' ↔ acceptable e ∧ m !! se_authority e = None ∧ m' = <[se_authority e := entry_of e]> m.
Proof.
  unfold supply_one, acceptable. case_bool_decide; simpl; [|naive_solver].
  destruct (root_key_of (se_authority e)) as [root|]; [|naive_solver].
  case_bool_decide; simpl; [subst root|naive_solver].
  destruct (m !! se_authority e) eqn:Hm; [rewrite bool_decide_eq_true_2 by done; naive_solver|].
  rewrite bool_decide_eq_false_2 by (by intros [? ?]). naive_solver.
Qed.

(** The map the loop builds holds one entry per envelope. *)
Lemma supply_all m supplied m' :
  try_fold supply_one m supplied = Ok m' ↔
    (∀ e, e ∈ supplied → acceptable e ∧ m !! se_authority e = None)
    ∧ NoDup (se_authority <$> supplied)
    ∧ m' = list_to_map ((λ e, (se_authority e, entry_of e)) <$> supplied) ∪ m.
Proof.
  revert m. induction supplied as [|e supplied IH]; intros m; simpl.
  { rewrite (left_id_L ∅ (∪)). split; [intros [= <-]|by intros (_ & _ & ->)].
    split_and!; [by intros e ?%elem_of_nil|constructor|done]. }
  destruct (supply_one m e) as [m1|r] eqn:H1.
  - apply supply_one_ok in H1 as (Hacc & Hnone & ->). rewrite IH, NoDup_cons, list_elem_of_fmap. split.
    + intros (Hall & Hnd & ->). split_and!; [| |done|].
      * intros x [->|Hx]%elem_of_cons; [done|]. destruct (Hall x Hx) as [? [? ?]%lookup_insert_None]. done.
      * intros (y & Heq & Hy). destruct (Hall y Hy) as [_ [_ Hne]%lookup_insert_None]. done.
      * rewrite <- insert_union_r; [by rewrite <- insert_union_l|].
        apply not_elem_of_list_to_map. rewrite <- list_fmap_compose. intros (y & Heq & Hy)%list_elem_of_fmap.
        destruct (Hall y Hy) as [_ [_ Hne]%lookup_insert_None]. done.
    + intros (Hall & [Hnotin Hnd] & ->). split_and!; [|done|].
      * intros x Hx. destruct (Hall x ltac:(by right)) as [? ?]. split; [done|].
        rewrite lookup_insert_ne; [done|]. intros Heq. apply Hnotin. by exists x.
      * rewrite <- insert_union_r; [by rewrite <- insert_union_l|].
        apply not_elem_of_list_to_map. rewrite <- list_fmap_compose. intros (y & Heq & Hy)%list_elem_of_fmap.
        apply Hnotin. by exists y.
  - split; [done|]. intros (Hall & _). destruct (Hall e ltac:(by left)) as [Hacc Hnone].
    assert (supply_one m e = Ok (<[se_authority e := entry_of e]> m)) as Hok by (by apply supply_one_ok).
    congruence.
Qed.

Definition filed (supplied : list SuppliedEnvelope) : gmap string CompositionEntry :=
  list_to_map ((λ e, (se_authority e, entry_of e)) <$> supplied).

Lemma filed_keys supplied : ((λ e, (se_authority e, entry_of e)) <$> supplied).*1 = se_authority <$> supplied.
Proof. by rewrite <- list_fmap_compose. Qed.

Lemma filed_Some supplied a : is_Some (filed supplied !! a) ↔ a ∈ se_authority <$> supplied.
Proof.
  unfold filed. rewrite <- filed_keys. split.
  - intros Hs. apply dec_stable. intros Hn%not_elem_of_list_to_map. rewrite Hn in Hs. by destruct Hs.
  - intros Hin. apply not_eq_None_Some. intros Hn%not_elem_of_list_to_map. done.
Qed.

Lemma assemble_ok supplied s :
  assemble supplied = Ok s ↔
    (∀ e, e ∈ supplied → acceptable e) ∧ NoDup (se_authority <$> supplied)
    ∧ s = mkSupply ((λ a, mkRoster a (bool_decide (is_Some (filed supplied !! a)))) <$> set_iter stakeholders)
            (btree_values (filed supplied)).
Proof.
  unfold assemble. destruct (try_fold supply_one ∅ supplied) as [m|r] eqn:Hm.
  - apply supply_all in Hm as (Hall & Hnd & ->). rewrite (right_id_L ∅ (∪)). fold (filed supplied). split.
    + intros [= <-]. split_and!; [|done|done]. intros e He. by apply Hall.
    + by intros (_ & _ & ->).
  - split; [done|]. intros (Hall & Hnd & _).
    assert (try_fold supply_one ∅ supplied = Ok (filed supplied ∪ ∅)) as Hok.
    { apply supply_all. split_and!; [|done|done]. intros e He. split; [by apply Hall|apply lookup_empty]. }
    congruence.
Qed.

(** Supply is exact or refused. The lists are assembled exactly when every envelope
    speaks for a stakeholder, is signed by that authority's governance root and is the
    only one for it; then the roster names each stakeholder once, governed exactly if it
    supplied an envelope, and the composition record holds exactly the envelopes
    supplied, one entry each: nothing is dropped or repaired, and who supplied nothing
    is reported. *)
Theorem assemble_exact (supplied : list SuppliedEnvelope) :
  ((∃ s, assemble supplied = Ok s) ↔
     (∀ e, e ∈ supplied → acceptable e) ∧ NoDup (se_authority <$> supplied))
  ∧ ∀ s, assemble supplied = Ok s →
      NoDup (re_authority <$> roster s)
      ∧ (∀ a g, mkRoster a g ∈ roster s ↔
           a ∈ stakeholders ∧ g = bool_decide (a ∈ se_authority <$> supplied))
      ∧ composition s ≡ₚ entry_of <$> supplied
      ∧ ∀ a, a ∈ ungoverned s ↔ a ∈ stakeholders ∧ a ∉ se_authority <$> supplied.
Proof.
  setoid_rewrite assemble_ok. split; [naive_solver|]. intros s (_ & Hnd & ->). simpl.
  assert (∀ a g, mkRoster a g ∈ ((λ a, mkRoster a (bool_decide (is_Some (filed supplied !! a))))
      <$> set_iter stakeholders) ↔ a ∈ stakeholders ∧ g = bool_decide (a ∈ se_authority <$> supplied)) as Hroster.
  { intros a g. unfold set_iter. rewrite list_elem_of_fmap.
    setoid_rewrite merge_sort_Permutation. setoid_rewrite elem_of_elements.
    rewrite <- (bool_decide_ext _ _ (filed_Some supplied a)). naive_solver. }
  split_and!; [|done| |].
  - rewrite <- list_fmap_compose. unfold set_iter. rewrite merge_sort_Permutation.
    rewrite (list_fmap_ext _ id), list_fmap_id by done. apply NoDup_elements.
  - rewrite btree_values_perm. unfold filed. rewrite map_to_list_to_map by (by rewrite filed_keys).
    by rewrite <- list_fmap_compose.
  - intros a. unfold ungoverned. rewrite list_elem_of_fmap. simpl.
    setoid_rewrite list_elem_of_filter. split.
    + intros ([b g] & -> & Hg & Hin). apply Hroster in Hin as [Hb ->]. simpl in *. split; [done|].
      by case_bool_decide.
    + intros [Ha Hno]. exists (mkRoster a false). split_and!; [done|done|]. apply Hroster. split; [done|].
      by rewrite bool_decide_eq_false_2.
Qed.
End assemble.

(** ** Three stakeholders, one of them without a policy *)

Module Three.
Definition key (s : string) : PublicKey := mkId s.
Definition roots (a : string) : option PublicKey :=
  match a with "a" => Some (key "ka") | "b" => Some (key "kb") | _ => None end.
Definition envelope (a k : string) : SuppliedEnvelope := mkSupplied a ("hash of " +:+ a) 1 (key k).

Example two_governed :
  assemble {["a"; "b"; "c"]} roots [envelope "b" "kb"; envelope "a" "ka"]
  = Ok (mkSupply [mkRoster "a" true; mkRoster "b" true; mkRoster "c" false]
          [mkComposition "a" "hash of a" 1; mkComposition "b" "hash of b" 1]).
Proof. vm_compute. reflexivity. Qed.

(** A device subkey, an unbound authority, an outsider and a second envelope. *)
Example refused :
  assemble {["a"; "b"; "c"]} roots [envelope "a" "device"] = Err (NotRootSigned "a" (key "device"))
  ∧ assemble {["a"; "b"; "c"]} roots [envelope "c" "kc"] = Err (UnboundAuthority "c")
  ∧ assemble {["a"; "b"; "c"]} roots [envelope "d" "kd"] = Err (NotAStakeholder "d")
  ∧ assemble {["a"; "b"; "c"]} roots [envelope "a" "ka"; envelope "a" "ka"] = Err (DuplicateAuthority "a").
Proof. vm_compute. done. Qed.
End Three.
