(* ===== verification/Wire.v ===== *)
(** * The relay's wire

    [crates/relay-transport/src/wire.rs]: the route a leg dials, its handshake, the frames
    that carry ciphertext and the reports of what was consumed. Bytes are [N] below 256,
    lengths are [N] or [nat]. The base64 crate, SHA-256 and the parsing of socket
    addresses are arguments. *)

From S2P Require Import Prelude Ids.

(** ** Constants *)

Definition TOKEN_LEN : nat := 32.
Definition WSS_PROTOCOL_VERSION : N := 1.
Definition WSS_MAX_FRAME_BYTES : N := 65536.
Definition WSS_HANDSHAKE_LEN : nat := 84.
Definition WSS_KEEPALIVE_FLAG : N := 2.
Definition WSS_ACCOUNTING_FLAG : N := 4.
Definition WSS_CREDIT_THRESHOLD : N := 16384.
Definition WSS_HANDSHAKE_MAGIC : list N := [71; 87; 82; 87; 83; 83; 49; 10]%N.
Definition WSS_READY : list N := [71; 87; 82; 82; 69; 65; 68; 89]%N.
Definition WSS_DATA : N := 0.
Definition WSS_FIN : N := 1.
Definition WSS_FIN_ACK : N := 2.
Definition WSS_CREDIT : N := 3.
Definition WSS_CREDIT_LEN : nat := 5.

(** ** Routes and the handshake *)

Inductive WebSocketRelayRole := Home | Client | Source | Target.

Definition role_byte (r : WebSocketRelayRole) : N :=
  match r with Home => 1 | Client => 2 | Source => 3 | Target => 4 end.

Definition is_initializer (r : WebSocketRelayRole) : bool :=
  match r with Home | Source => true | _ => false end.

Definition sends_keepalives (r : WebSocketRelayRole) : bool :=
  match r with Home | Client => true | _ => false end.

(** A [\[u8; 32\]]. *)
Definition RouteProof : Type := list N.

Record WebSocketRelayRoute := mkRoute {
  endpoint : string;
  handle : string;
  epoch : N; (* u64 *)
  proof : RouteProof;
  previous_proof : option RouteProof;
}.

(** What Rust's types say of a route. *)
Definition proof_typed (p : RouteProof) : Prop := length p = 32.
Definition route_typed (r : WebSocketRelayRoute) : Prop :=
  proof_typed (proof r) ∧ (epoch r < u64_modulus)%N ∧ from_option proof_typed True (previous_proof r).

Definition contains_byte (b : N) (bs : list N) : bool := existsb (N.eqb b) bs.

Fixpoint drop_prefix (p s : list N) : option (list N) :=
  match p, s with
  | [], _ => Some s
  | a :: p, b :: s => if (a =? b)%N then drop_prefix p s else None
  | _ :: _, [] => None
  end.

(** A Unicode white-space character starts here, in UTF-8. *)
Definition starts_whitespace (bs : list N) : bool :=
  match bs with
  | b :: rest =>
      (bool_decide (9 ≤ b ≤ 13) || (b =? 32))%N
      || match rest with
         | b2 :: rest2 =>
             ((b =? 194) && ((b2 =? 133) || (b2 =? 160)))%N
             || match rest2 with
                | b3 :: _ =>
                    ((b =? 225) && (b2 =? 154) && (b3 =? 128)
                     || (b =? 226) && (b2 =? 128) && (bool_decide (128 ≤ b3 ≤ 138) || (b3 =? 168) || (b3 =? 169) || (b3 =? 175))
                     || (b =? 226) && (b2 =? 129) && (b3 =? 159)
                     || (b =? 227) && (b2 =? 128) && (b3 =? 128))%N
                | [] => false
                end
         | [] => false
         end
  | [] => false
  end.

Fixpoint has_whitespace (bs : list N) : bool :=
  match bs with
  | [] => false
  | _ :: rest => starts_whitespace bs || has_whitespace rest
  end.

Definition valid_origin_authority (authority : list N) : bool :=
  negb (bool_decide (authority = [])) && negb (contains_byte 47 authority)
  && negb (contains_byte 64 authority) && negb (has_whitespace authority).

Section wire.
(** [URL_SAFE_NO_PAD.decode], and [parse::<SocketAddr>] with [is_loopback]. *)
Context (base64url_decode : string → option (list N)) (loopback_address : list N → bool).

Definition validate (route : WebSocketRelayRoute) : result string unit :=
  let at_ := bytes_of (endpoint route) in
  let production := from_option valid_origin_authority false (drop_prefix (bytes_of "wss://") at_) in
  let loopback_test := from_option loopback_address false (drop_prefix (bytes_of "ws://") at_) in
  if (negb production && negb loopback_test) || bool_decide (last at_ = Some 47%N)
     || contains_byte 35 at_ || contains_byte 63 at_
  then Err "relay endpoint must be a canonical wss:// origin (or a loopback ws:// test origin)"
  else match base64url_decode (handle route) with
       | None => Err "relay route handle is not base64url"
       | Some h =>
           if negb (bool_decide (length h = 32)) then Err "relay route handle must contain 32 bytes"
           else if bool_decide (epoch route = 0%N) then Err "relay route epoch must be positive"
           else Ok ()
       end.

Definition url (route : WebSocketRelayRoute) : result string string :=
  try! validate route; Ok (endpoint route +:+ "/v1/relay/" +:+ handle route).

Definition handshake_flags (route : WebSocketRelayRoute) (role : WebSocketRelayRole) : N :=
  N.lor (N.lor (match previous_proof route with Some _ => 1 | None => 0 end) WSS_ACCOUNTING_FLAG)
    (if sends_keepalives role then WSS_KEEPALIVE_FLAG else 0).

(** The 84 bytes, field after field; the last 32 stay zero without a previous proof. *)
Definition websocket_handshake (route : WebSocketRelayRoute) (role : WebSocketRelayRole)
    : result string (list N) :=
  try! validate route;
  if negb (is_initializer role) && bool_decide (is_Some (previous_proof route))
  then Err "only an initializer may present a previous route proof"
  else Ok (WSS_HANDSHAKE_MAGIC ++ to_be_bytes 2 WSS_PROTOCOL_VERSION ++ [role_byte role]
           ++ [handshake_flags route role] ++ to_be_bytes 8 (epoch route) ++ proof route
           ++ default (replicate 32 0%N) (previous_proof route)).

Lemma Ok_inj {E A} (a b : A) : @Ok E A a = Ok b → a = b.
Proof. congruence. Qed.

(** The handshake binds the leg. It is 84 bytes long, is refused for an invalid route
    and for a joiner that claims a previous proof, and determines the role, the epoch,
    the proof and the previous proof, so two legs that send the same bytes present the
    same credentials: in particular the absence of a previous proof cannot be read as
    one of zeros. *)
Theorem handshake_binding route role route' role' frame :
  route_typed route → route_typed route' →
  websocket_handshake route role = Ok frame →
  websocket_handshake route' role' = Ok frame →
  length frame = WSS_HANDSHAKE_LEN
  ∧ role = role' ∧ epoch route = epoch route' ∧ proof route = proof route'
  ∧ previous_proof route = previous_proof route'
  ∧ (is_Some (previous_proof route) → is_initializer role = true)
  ∧ (0 < epoch route)%N.
Proof.
  intros (Hp & He & Hpp) (Hp' & He' & Hpp') Hh Hh'. unfold websocket_handshake in *.
  assert (∀ r, validate r = Ok () → (0 < epoch r)%N) as Hepoch.
  { intros r Hv. unfold validate in Hv. repeat split_outer Hv. guards. lia. }
  destruct (validate route) as [[]|] eqn:Hv; [|done]. destruct (validate route') as [[]|]; [|done].
  destruct (negb (is_initializer role) && _) eqn:Hi; [done|]. destruct (negb (is_initializer role') && _); [done|].
  apply Ok_inj in Hh as <-. apply Ok_inj in Hh' as Heq. do 2 apply app_inv_head in Heq.
  apply app_inj_1 in Heq as [Hrole Heq]; [|done]. apply app_inj_1 in Heq as [Hflags Hrest]; [|done].
  assert (role_byte role' = role_byte role) as Hrole' by congruence.
  assert (handshake_flags route' role' = handshake_flags route role) as Hflags' by congruence.
  assert (∀ r, from_option proof_typed True (previous_proof r) →
    length (default (replicate 32 0%N) (previous_proof r)) = 32) as Hlen.
  { intros r Hr. by destruct (previous_proof r). }
  apply app_inj_1 in Hrest as [Hep Hrest]; [|by rewrite !to_be_bytes_length].
  apply app_inj_1 in Hrest as [Hpr Hprev]; [|congruence].
  assert (role = role') as <- by (by destruct role, role').
  assert (is_Some (previous_proof route) ↔ is_Some (previous_proof route')) as Hsome.
  { revert Hflags'. unfold handshake_flags.
    destruct (previous_proof route), (previous_proof route'), role; simpl; done. }
  split_and!; [| |by eapply (to_be_bytes_inj 8)|done| | |by apply Hepoch].
  - rewrite !length_app, !to_be_bytes_length, Hlen, Hp by done. done.
  - done.
  - destruct (previous_proof route), (previous_proof route'); simpl in Hprev; [by f_equal|..|done].
    + destruct (proj1 Hsome); by eauto.
    + destruct (proj2 Hsome); by eauto.
  - intros Hs. rewrite (bool_decide_eq_true_2 _ Hs), andb_true_r in Hi. by apply negb_false_iff in Hi.
Qed.
End wire.

Module SampleRoute.
Definition decode (s : string) : option (list N) := Some (replicate 32 7%N).
Definition route (previous : option RouteProof) : WebSocketRelayRoute :=
  mkRoute "wss://relay.example" "handle" 3 (replicate 32 5%N) previous.
Definition frame : list N :=
  [71; 87; 82; 87; 83; 83; 49; 10; 0; 1; 1; 6; 0; 0; 0; 0; 0; 0; 0; 3]%N ++ replicate 32 5%N ++ replicate 32 0%N.

Example first_leg : websocket_handshake decode (λ _, false) (route None) Home = Ok frame.
Proof. vm_compute. reflexivity. Qed.
Example joiner_without_past :
  websocket_handshake decode (λ _, false) (route (Some (replicate 32 0%N))) Client
  = Err "only an initializer may present a previous route proof".
Proof. vm_compute. reflexivity. Qed.
End SampleRoute.

Lemma handshake_binding_witness :
  length SampleRoute.frame = WSS_HANDSHAKE_LEN ∧ (0 < epoch (SampleRoute.route None))%N.
Proof.
  destruct (handshake_binding SampleRoute.decode (λ _, false) (SampleRoute.route None) Home
    (SampleRoute.route None) Home SampleRoute.frame) as (H1 & _ & _ & _ & _ & _ & H2);
    [done|done|vm_compute; reflexivity|vm_compute; reflexivity|].
  split; [exact H1|exact H2].
Defined.

(** ** Frames *)

Definition data_frame (ciphertext : list N) : list N := WSS_DATA :: ciphertext.

(** [FrameQueue]: the bytes not yet sent. *)
Definition push (unsent ciphertext : list N) : list N := unsent ++ ciphertext.

Definition next_frame (unsent : list N) : option (list N) * list N :=
  match unsent with
  | [] => (None, [])
  | _ => let n := N.to_nat (N.min (N.of_nat (length unsent)) (WSS_MAX_FRAME_BYTES - 1)) in
         (Some (WSS_DATA :: take n unsent), drop n unsent)
  end.

Inductive RelayFrame := Ready | Data (ciphertext : list N) | Fin | FinAck.

Definition classify_frame (bytes : list N) : result string RelayFrame :=
  if bool_decide (bytes = WSS_READY) then Ok Ready
  else if bool_decide (bytes = []) || bool_decide (WSS_MAX_FRAME_BYTES < N.of_nat (length bytes))%N
  then Err "relay frame out of bounds"
  else match bytes with
       | b :: rest =>
           if (b =? WSS_DATA)%N then Ok (Data rest)
           else if (b =? WSS_FIN)%N then Ok Fin
           else if (b =? WSS_FIN_ACK)%N then Ok FinAck
           else Err "relay frame has an unknown kind"
       | [] => Err "relay frame has an unknown kind"
       end.

(** The carrier's use of the queue: ciphertext comes in, frames go out. *)
Inductive QueueOp := Push (ciphertext : list N) | Next.

Definition queue_step (st : list N * list (list N)) (op : QueueOp) : list N * list (list N) :=
  match op with
  | Push c => (push st.1 c, st.2)
  | Next => match next_frame st.1 with
            | (Some frame, rest) => (rest, st.2 ++ [frame])
            | (None, rest) => (rest, st.2)
            end
  end.

Definition pushed_bytes (ops : list QueueOp) : list N :=
  ops ≫= λ op, match op with Push c => c | Next => [] end.

(** What the peer reads from the frames it is sent, or nothing if one is refused. *)
Definition received (frames : list (list N)) : option (list N) :=
  foldM (λ got frame, match classify_frame frame with Ok (Data c) => Some (got ++ c) | _ => None end) [] frames.

Lemma next_frame_spec unsent :
  unsent ≠ [] → ∃ payload rest, next_frame unsent = (Some (WSS_DATA :: payload), rest)
    ∧ unsent = payload ++ rest ∧ payload ≠ []
    ∧ (length payload = length unsent ∨ N.of_nat (length payload) = WSS_MAX_FRAME_BYTES - 1)%N
    ∧ (N.of_nat (length payload) ≤ WSS_MAX_FRAME_BYTES - 1)%N
    ∧ classify_frame (WSS_DATA :: payload) = Ok (Data payload).
Proof.
  intros Hne. set (n := N.to_nat (N.min (N.of_nat (length unsent)) (WSS_MAX_FRAME_BYTES - 1))).
  exists (take n unsent), (drop n unsent).
  assert (0 < n) as Hn. { subst n. destruct unsent; [done|]. unfold WSS_MAX_FRAME_BYTES. simpl length. lia. }
  assert (length (take n unsent) = n) as Hlen. { rewrite length_take. subst n. lia. }
  split_and!.
  - by destruct unsent.
  - by rewrite take_drop.
  - intros He. rewrite He in Hlen. simpl in Hlen. lia.
  - rewrite Hlen. subst n. lia.
  - rewrite Hlen. subst n. lia.
  - unfold classify_frame. rewrite (bool_decide_eq_false_2 (_ = WSS_READY)) by done. simpl.
    rewrite bool_decide_eq_false_2; [done|]. simpl length. rewrite Hlen. subst n. unfold WSS_MAX_FRAME_BYTES. lia.
Qed.

(** A queue that is asked often enough is empty. *)
Lemma next_frames_empty n unsent frames :
  (N.of_nat (length unsent) ≤ N.of_nat n * (WSS_MAX_FRAME_BYTES - 1))%N →
  (fold_left queue_step (replicate n Next) (unsent, frames)).1 = [].
Proof.
  revert unsent frames. induction n as [|n IH]; intros unsent frames Hle.
  - destruct unsent; simpl in *; [done|lia].
  - cbn [replicate fold_left]. unfold queue_step at 2. simpl fst.
    destruct (base.decide (unsent = [])) as [->|Hne]; [simpl; apply IH; simpl; apply N.le_0_l|].
    destruct (next_frame_spec unsent Hne) as (payload & rest & -> & -> & _ & Hlen & _ & _). simpl. apply IH.
    rewrite length_app in *. unfold WSS_MAX_FRAME_BYTES in *. lia.
Qed.

(** The frame queue loses and reorders nothing. After any interleaving of pushes and
    sends, every frame sent is within the relay's limit and is read as data, and what
    the peer reads followed by what is unsent is what was pushed; a queue of [k] bytes
    is empty after [k] divided by the payload limit, rounded up, further sends. *)
Theorem frames_roundtrip (ops : list QueueOp) :
  ∃ unsent frames got, fold_left queue_step ops ([], []) = (unsent, frames)
    ∧ Forall (λ f : list N, 1 < N.of_nat (length f) ≤ WSS_MAX_FRAME_BYTES)%N frames
    ∧ received frames = Some got ∧ got ++ unsent = pushed_bytes ops
    ∧ ∀ n, (N.of_nat (length unsent) ≤ N.of_nat n * (WSS_MAX_FRAME_BYTES - 1))%N →
        (fold_left queue_step (ops ++ replicate n Next) ([], [])).1 = [].
Proof.
  assert (∃ unsent frames got, fold_left queue_step ops ([], []) = (unsent, frames)
    ∧ Forall (λ f : list N, 1 < N.of_nat (length f) ≤ WSS_MAX_FRAME_BYTES)%N frames
    ∧ received frames = Some got ∧ got ++ unsent = pushed_bytes ops) as (unsent & frames & got & Hf & Hall & Hr & Hg).
  { induction ops as [|op ops (unsent & frames & got & Hf & Hall & Hr & Hg)] using rev_ind; [by exists [], [], []|].
    rewrite fold_left_app, Hf. unfold pushed_bytes in *. rewrite bind_app, <- Hg. destruct op as [c|]; simpl.
    - exists (unsent ++ c), frames, got. split_and!; [done|done|done|]. by rewrite !app_nil_r, app_assoc.
    - destruct (base.decide (unsent = [])) as [->|Hne]; simpl.
      { exists [], frames, got. by rewrite !app_nil_r. }
      destruct (next_frame_spec unsent Hne) as (payload & rest & -> & -> & Hp & _ & Hlen & Hc). simpl.
      exists rest, (frames ++ [WSS_DATA :: payload]), (got ++ payload). split_and!; [done| | |].
      + apply Forall_app. split; [done|]. apply Forall_singleton.
        destruct payload; [done|]. simpl length in *. unfold WSS_MAX_FRAME_BYTES in *. lia.
      + unfold received in *. rewrite foldM_app, Hr. simpl. by rewrite Hc.
      + by rewrite app_nil_r, <- app_assoc. }
  exists unsent, frames, got. split_and!; [done..|]. intros n Hn. rewrite fold_left_app, Hf.
  by apply next_frames_empty.
Qed.

(** ** Credit reports *)

Definition credit_frame (consumed : N) : list N := WSS_CREDIT :: to_be_bytes 4 consumed.

Definition parse_credit (frame : list N) : option N :=
  match frame with
  | kind :: count =>
      if bool_decide (length frame = WSS_CREDIT_LEN) && (kind =? WSS_CREDIT)%N
      then Some (from_be_bytes count) else None
  | [] => None
  end.

Definition u32_MAX : N := 4294967295.

(** [CreditMeter] is its one field; [usize] is 64 bits wide. *)
Definition CreditMeter : Type := N.
Definition new_meter : CreditMeter := 0%N.
Definition consumed (owed : CreditMeter) (len : N) : CreditMeter := N.min (owed + len) u64_max.

Definition take_credit (owed : CreditMeter) : option (list N) * CreditMeter :=
  if (owed <? WSS_CREDIT_THRESHOLD)%N then (None, owed)
  else let reported := N.min owed u32_MAX in (Some (credit_frame reported), (owed - reported)%N).

(** A carrier's use of the meter: it consumes frames and sends the reports it is given. *)
Inductive MeterOp := Consume (len : N) | Take.

Definition meter_step (st : CreditMeter * list (list N)) (op : MeterOp) : CreditMeter * list (list N) :=
  match op with
  | Consume len => (consumed st.1 len, st.2)
  | Take => match take_credit st.1 with
            | (Some frame, owed) => (owed, st.2 ++ [frame])
            | (None, owed) => (owed, st.2)
            end
  end.

Definition bytes_consumed (ops : list MeterOp) : N :=
  foldr (λ op n, match op with Consume len => (len + n)%N | Take => n end) 0%N ops.

(** What the relay credits for the reports, or nothing if one is not a report. *)
Definition credited (frames : list (list N)) : option N :=
  foldM (λ n frame, match parse_credit frame with Some c => Some (n + c)%N | None => None end) 0%N frames.

Lemma parse_credit_frame n : (n ≤ u32_MAX)%N → parse_credit (credit_frame n) = Some n.
Proof.
  intros Hn. unfold parse_credit, credit_frame. rewrite bool_decide_eq_true_2 by done.
  rewrite N.eqb_refl. simpl andb. rewrite from_to_be_bytes; [done|].
  change (256 ^ N.of_nat 4)%N with 4294967296%N. unfold u32_MAX in Hn. lia.
Qed.

Lemma bytes_consumed_snoc ops op :
  bytes_consumed (ops ++ [op]) = (bytes_consumed ops + bytes_consumed [op])%N.
Proof. induction ops as [|[len|] ops IH]; simpl in *; [done| |done]. rewrite IH. lia. Qed.

(** Credit reports account for every byte. As long as the bytes a leg consumed fit in
    64 bits, after any interleaving of consumption and reporting every report is read
    back by the relay, no carrier takes one for a data frame, none is below the
    threshold, and what was reported plus what is still owed is exactly what was
    consumed. *)
Theorem credit_conserved (ops : list MeterOp) :
  (bytes_consumed ops ≤ u64_max)%N →
  ∃ owed reports n, fold_left meter_step ops (new_meter, []) = (owed, reports)
    ∧ credited reports = Some n ∧ (n + owed = bytes_consumed ops)%N
    ∧ Forall (λ r, classify_frame r = Err "relay frame has an unknown kind"
        ∧ from_option (λ c, WSS_CREDIT_THRESHOLD ≤ c)%N False (parse_credit r)) reports.
Proof.
  induction ops as [|op ops IH] using rev_ind; intros Hle; [by exists 0%N, [], 0%N|].
  rewrite bytes_consumed_snoc in Hle |- *. destruct IH as (owed & reports & n & Hf & Hc & Hsum & Hall); [lia|].
  rewrite fold_left_app, Hf. cbn [fold_left]. destruct op as [len|].
  - exists (consumed owed len), reports, n. split_and!; [done|done| |done]. unfold consumed. simpl in *. lia.
  - unfold meter_step, take_credit. cbn [fst snd]. destruct (owed <? WSS_CREDIT_THRESHOLD)%N eqn:Ht; [exists owed, reports, n; simpl in *; split_and!; first [done|lia]|].
    apply N.ltb_ge in Ht. set (c := N.min owed u32_MAX). assert (c ≤ u32_MAX)%N as Hmax by lia.
    assert (WSS_CREDIT_THRESHOLD ≤ c)%N as Hmin by (subst c; unfold u32_MAX, WSS_CREDIT_THRESHOLD in *; lia).
    exists (owed - c)%N, (reports ++ [credit_frame c]), (n + c)%N. split_and!; [done| |simpl; subst c; lia|].
    + unfold credited in *. rewrite foldM_app, Hc. cbn [foldM mbind option_bind]. by rewrite parse_credit_frame.
    + apply Forall_app. split; [done|]. apply Forall_singleton. rewrite parse_credit_frame by done.
      split; [|done]. unfold classify_frame, credit_frame. rewrite bool_decide_eq_false_2 by done. by simpl.
Qed.

Lemma credit_conserved_witness :
  ∃ owed reports n, fold_left meter_step [Consume 16000; Take; Consume 400; Take; Consume 7] (new_meter, []) = (owed, reports)
    ∧ credited reports = Some n ∧ (n + owed = 16407)%N.
Proof.
  destruct (credit_conserved [Consume 16000; Take; Consume 400; Take; Consume 7]) as (owed & reports & n & H1 & H2 & H3 & _);
    [vm_compute; discriminate|].
  exists owed, reports, n. split; [exact H1|]. split; [exact H2|exact H3].
Defined.

(** ** One-shot routes *)

Section one_shot.
(** [URL_SAFE_NO_PAD], SHA-256 and the parsing of socket addresses. *)
Context (base64url_decode : string → option (list N)) (base64url_encode : list N → string)
  (sha256 : list N → list N) (loopback_address : list N → bool).

Definition one_shot_websocket_route (endpoint : string) (token : list N) : result string WebSocketRelayRoute :=
  let route := mkRoute endpoint (base64url_encode token) 1
    (sha256 (bytes_of "gaugewright-relay-proof-v1" ++ [0%N] ++ token)) None in
  try! validate base64url_decode loopback_address route;
  Ok route.

Definition from_base64url (value : string) : result string RouteProof :=
  match base64url_decode value with
  | None => Err "relay route proof is not base64url"
  | Some bytes => if bool_decide (length bytes = 32) then Ok bytes
                  else Err "relay route proof must contain 32 bytes"
  end.

Definition to_base64url (p : RouteProof) : string := base64url_encode p.

(** The pin: [verify_server_cert] of [PinnedVerifier]. *)
Definition fingerprint (cert : list N) : list N := sha256 cert.
Definition verify_server_cert (expected cert : list N) : bool := bool_decide (fingerprint cert = expected).

(** What the crates document: decoding undoes encoding, and a digest has 32 bytes. *)
Hypothesis base64url_roundtrip : ∀ bytes, base64url_decode (base64url_encode bytes) = Some bytes.
Hypothesis sha256_length : ∀ bytes, length (sha256 bytes) = 32.

Lemma proof_roundtrip p : proof_typed p → from_base64url (to_base64url p) = Ok p.
Proof. intros Hp. unfold from_base64url, to_base64url. rewrite base64url_roundtrip. by rewrite bool_decide_eq_true_2. Qed.

(** Both legs of a one-shot crossing derive the same route from the ticket, and each can
    send its handshake: an endpoint is the only thing a 32-byte token can be refused for. *)
Lemma one_shot_dials endpoint token :
  length token = 32 →
  match one_shot_websocket_route endpoint token with
  | Err e => e = "relay endpoint must be a canonical wss:// origin (or a loopback ws:// test origin)"
  | Ok route =>
      route_typed route ∧ url base64url_decode loopback_address route
        = Ok (endpoint +:+ "/v1/relay/" +:+ base64url_encode token)
      ∧ ∀ role, ∃ frame, websocket_handshake base64url_decode loopback_address route role = Ok frame
  end.
Proof.
  intros Ht. unfold one_shot_websocket_route.
  set (route := mkRoute _ _ _ _ _).
  destruct (validate base64url_decode loopback_address route) as [[]|e] eqn:Hv; simpl.
  - split_and!.
    + split_and!; [apply sha256_length|done|done].
    + unfold url. by rewrite Hv.
    + intros role. unfold websocket_handshake. rewrite Hv. simpl. rewrite andb_false_r. eauto.
  - revert Hv. unfold validate. subst route. cbn [Wire.endpoint Wire.handle Wire.epoch].
    rewrite base64url_roundtrip. destruct (_ || _); [by intros [= <-]|].
    by rewrite (bool_decide_eq_true_2 _ Ht).
Qed.
End one_shot.
