(* ===== verification/SignedText.v ===== *)
(** * Texts that are signed, line by line

    The canonical preimages of [crates/core/src/protected_profile.rs],
    [project_host_registration.rs] and [project_host_export.rs] are lines joined by a
    line feed; free text is written in hexadecimal, numbers in decimal. This file holds
    what those files share: [encode], [sha256_hex], joining, and when a joined text gives
    its lines back. The [hex] crate and SHA-256 are arguments with their laws. *)

From Stdlib Require Import Ascii.
From stdpp Require Import pretty.
From S2P Require Import Prelude Ids Recovery Federation.

Class SignedTexts `{P256} := {
  hex_encode : list N → string;
  sha256 : list N → list N;
}.

Definition is_octet (b : N) : Prop := (b < 256)%N.

Definition lf : ascii := "010"%char.

(** A text without a line feed. *)
Definition single_line (s : string) : Prop := contains_char lf s = false.

(** [SigningKey] of [signature.rs] wraps a key of the [p256] crate: its verifying key in
    SEC1 form and the bytes of a signature. *)
Class Signing `{P256} := {
  P256SigningKey : Type;
  verifying_sec1 : P256SigningKey → list N;
  p256_sign : P256SigningKey → list N → list N;
}.

(** What the crates document: decoding undoes encoding, a text with any character but
    hexadecimal digits is not decoded, and a digest is 32 bytes. *)
Class SignedTextLaws `(SignedTexts) : Prop := {
  hex_roundtrip : ∀ bs, Forall is_octet bs → Federation.hex_decode (hex_encode bs) = Some bs;
  hex_decode_digits : ∀ s bs c, Federation.hex_decode s = Some bs → is_ascii_hexdigit c = false → contains_char c s = false;
  sha256_octets : ∀ bs, Forall is_octet (sha256 bs);
  sha256_length : ∀ bs, length (sha256 bs) = 32;
}.

(** A signature is 64 bytes and verifies under the key's own verifying key. *)
Class SigningLaws `(SignedTexts) (signing : Signing) : Prop := {
  sec1_octets : ∀ key, Forall is_octet (verifying_sec1 key);
  sign_octets : ∀ key msg, Forall is_octet (p256_sign key msg);
  signs : ∀ key msg, ∃ verifying parsed,
    from_sec1_bytes (verifying_sec1 key) = Some verifying ∧ length (p256_sign key msg) = P256_SIG_LEN
    ∧ sig_from_slice (p256_sign key msg) = Some parsed ∧ p256_verify verifying msg parsed = true;
}.

Section texts.
Context `{SignedTexts}.

Definition encode (value : string) : string := hex_encode (bytes_of value).

Definition sha256_hex (bytes : list N) : string := hex_encode (sha256 bytes).

(** [hex::decode(value).is_ok_and(|bytes| bytes.len() == 32)] *)
Definition is_sha256 (value : string) : bool :=
  match Federation.hex_decode value with
  | Some bytes => bool_decide (length bytes = 32)
  | None => false
  end.

(** [parts.join(LF).into_bytes()] *)
Definition joined (parts : list string) : list N := bytes_of (String.concat (String lf "") parts).

Definition public_key `{!Signing} (key : P256SigningKey) : PublicKey := mkId (hex_encode (verifying_sec1 key)).
Definition sign `{!Signing} (key : P256SigningKey) (msg : list N) : Signature := mkSignature (p256_sign key msg).

(** [(bytes.len() as u64).to_be_bytes()] *)
Definition len_bytes (bs : list N) : list N := to_be_bytes 8 (N.of_nat (length bs)).

End texts.

(** ** Chains of checks *)

(** [if condition { return Err(error) }] *)
Definition unless {E} (condition : bool) (e : E) : result E unit :=
  if condition then Err e else Ok ().

Definition neqb (a b : string) : bool := negb (String.eqb a b).
Definition empty (s : string) : bool := String.eqb s "".

Lemma neqb_false a b : neqb a b = false ↔ a = b.
Proof. unfold neqb. rewrite negb_false_iff. apply String.eqb_eq. Qed.

Lemma unless_ok {E} c (e : E) : unless c e = Ok () ↔ c = false.
Proof. unfold unless. by destruct c. Qed.

Lemma try_unless {E T} c (e : E) (k : result E T) t :
  (try! unless c e; k) = Ok t ↔ c = false ∧ k = Ok t.
Proof. unfold unless. destruct c; simpl; naive_solver. Qed.

Lemma try_unit {E T} (m : result E unit) (k : result E T) t :
  (try! m; k) = Ok t ↔ m = Ok () ∧ k = Ok t.
Proof. destruct m as [[]|]; simpl; naive_solver. Qed.

Lemma nle_false a b : bool_decide (a ≤ b)%N = false ↔ (b < a)%N.
Proof. rewrite bool_decide_eq_false. lia. Qed.

Lemma nlt_false a b : bool_decide (a < b)%N = false ↔ (b ≤ a)%N.
Proof. rewrite bool_decide_eq_false. lia. Qed.

Lemma empty_false s : empty s = false ↔ s ≠ "".
Proof. apply String.eqb_neq. Qed.

#[export] Hint Rewrite @try_unless orb_false_iff neqb_false nle_false nlt_false negb_false_iff N.eqb_eq
  empty_false @unless_ok : text_checks.

Ltac read_checks := autorewrite with text_checks.

(** ** Fields *)

(** A length-prefixed field gives the field back. *)
Lemma len_bytes_inj (bs bs' rest rest' : list N) :
  (N.of_nat (length bs) < u64_modulus)%N → (N.of_nat (length bs') < u64_modulus)%N →
  len_bytes bs ++ bs ++ rest = len_bytes bs' ++ bs' ++ rest' → bs = bs' ∧ rest = rest'.
Proof.
  intros Hb Hb' Heq. apply app_inj_1 in Heq as [Hl Heq]; [|unfold len_bytes; by rewrite !to_be_bytes_length].
  assert (256 ^ N.of_nat 8 = u64_modulus)%N as Hw by (vm_compute; reflexivity).
  pose proof (to_be_bytes_inj 8 (N.of_nat (length bs)) (N.of_nat (length bs'))) as Hinj. rewrite Hw in Hinj.
  specialize (Hinj Hb Hb' Hl). clear Hl. rename Hinj into Hl.
  apply Nat2N.inj in Hl. by apply app_inj_1 in Heq.
Qed.

(** ** Lines *)

Lemma contains_app c s t : contains_char c (s +:+ t) = contains_char c s || contains_char c t.
Proof. induction s as [|a s IH]; simpl; [done|]. by rewrite IH, orb_assoc. Qed.

Lemma concat_cons_cons sep a b l :
  String.concat (String sep "") (a :: b :: l) = a +:+ String sep (String.concat (String sep "") (b :: l)).
Proof. done. Qed.

(** Segments without the separator are recovered from the text they are joined into. *)
Lemma concat_sep_inj sep l1 l2 :
  l1 ≠ [] → l2 ≠ [] → Forall (λ s, contains_char sep s = false) l1 → Forall (λ s, contains_char sep s = false) l2 →
  String.concat (String sep "") l1 = String.concat (String sep "") l2 → l1 = l2.
Proof.
  assert (∀ a b l, contains_char sep a = false → a ≠ b +:+ String sep l) as Hno.
  { intros a b l Ha ->. rewrite contains_app in Ha. apply orb_false_iff in Ha as [_ Ha]. simpl in Ha.
    by rewrite Ascii.eqb_refl in Ha. }
  revert l2. induction l1 as [|a1 l1 IH]; intros [|a2 l2] Hn1 Hn2; [done..|]. intros H1 H2.
  apply Forall_cons in H1 as [Ha1 H1], H2 as [Ha2 H2].
  destruct l1 as [|b1 l1], l2 as [|b2 l2]; rewrite ?concat_cons_cons; intros Heq.
  - simpl in Heq. by subst.
  - simpl (String.concat _ [a1]) in Heq. by apply Hno in Heq.
  - simpl (String.concat _ [a2]) in Heq. symmetry in Heq. by apply Hno in Heq.
  - apply append_sep_inj in Heq as [-> Heq]; [|done..]. f_equal. by apply IH.
Qed.

(** Joined lines give the lines back. *)
Lemma joined_inj l1 l2 :
  l1 ≠ [] → l2 ≠ [] → Forall single_line l1 → Forall single_line l2 → joined l1 = joined l2 → l1 = l2.
Proof. intros ???? Heq%(inj bytes_of). by apply (concat_sep_inj lf). Qed.

(** Different first lines make different texts, whatever follows. *)
Lemma joined_head a1 a2 b1 b2 l1 l2 :
  single_line a1 → single_line a2 → a1 ≠ a2 → joined (a1 :: b1 :: l1) ≠ joined (a2 :: b2 :: l2).
Proof.
  intros H1 H2 Hne Heq%(inj bytes_of). rewrite !concat_cons_cons in Heq.
  by apply append_sep_inj in Heq as [-> _].
Qed.

Lemma pretty_line (n : N) : single_line (pretty n).
Proof. apply pretty_without. intros k. unfold pretty_N_char. by repeat case_match. Qed.

Lemma bytes_of_octets s : Forall is_octet (bytes_of s).
Proof.
  induction s as [|c s IH]; simpl; [done|]. constructor; [|done]. unfold is_octet.
  apply (N_ascii_bounded c).
Qed.

Section laws.
Context `{SignedTextLaws}.

Lemma hex_decode_line s bs : Federation.hex_decode s = Some bs → single_line s.
Proof. intros Hs. by eapply hex_decode_digits. Qed.

Lemma hex_encode_line bs : Forall is_octet bs → single_line (hex_encode bs).
Proof. intros Hb. eapply hex_decode_line. by apply hex_roundtrip. Qed.

Lemma hex_encode_inj bs bs' : Forall is_octet bs → Forall is_octet bs' → hex_encode bs = hex_encode bs' → bs = bs'.
Proof. intros Hb Hb' Heq. apply (f_equal Federation.hex_decode) in Heq. rewrite !hex_roundtrip in Heq by done. by simplify_eq. Qed.

Lemma encode_line s : single_line (encode s).
Proof. apply hex_encode_line, bytes_of_octets. Qed.

#[global] Instance encode_inj : Inj (=) (=) encode.
Proof. intros s t Heq%hex_encode_inj; [|apply bytes_of_octets..]. by apply (inj bytes_of). Qed.

Lemma sha256_hex_line bs : single_line (sha256_hex bs).
Proof. apply hex_encode_line, sha256_octets. Qed.

(** Equal digests are of equal texts, or SHA-256 collides. *)
Definition collides (x y : list N) : Prop := x ≠ y ∧ sha256 x = sha256 y.

Lemma sha256_hex_collision x y : sha256_hex x = sha256_hex y → x = y ∨ collides x y.
Proof.
  intros Heq%hex_encode_inj; [|apply sha256_octets..].
  destruct (base.decide (x = y)); [by left|by right].
Qed.

Lemma is_sha256_line s : is_sha256 s = true → single_line s.
Proof. unfold is_sha256. destruct (Federation.hex_decode s) eqn:Hd; [|done]. intros _. by eapply hex_decode_line. Qed.

Lemma is_sha256_hex bs : is_sha256 (sha256_hex bs) = true.
Proof. unfold is_sha256, sha256_hex. rewrite hex_roundtrip by apply sha256_octets. by rewrite sha256_length. Qed.

(** A key some signature verifies under is one line. *)
Lemma verified_key_line msg sig key :
  verify_signature msg sig key = Ok true → single_line (as_str key).
Proof.
  unfold verify_signature. destruct (Federation.hex_decode (as_str key)) eqn:Hd; [|done]. intros _.
  by eapply hex_decode_line.
Qed.

Lemma sign_verifies `{signing : !Signing, !SigningLaws _ signing} key msg :
  verify_signature msg (sign key msg) (public_key key) = Ok true.
Proof.
  destruct (signs key msg) as (v & p & Hv & Hl & Hp & Hver). unfold verify_signature, public_key. simpl.
  rewrite hex_roundtrip by apply sec1_octets. simpl. rewrite Hv. simpl.
  rewrite bool_decide_eq_true_2 by done. simpl. by rewrite Hp, Hver.
Qed.
End laws.

(** From equal lists of lines to equal fields. *)
Ltac same_lines Heq :=
  injection Heq; intros;
  repeat match goal with
         | E : encode _ = encode _ |- _ => apply (inj encode) in E
         | E : pretty _ = pretty _ |- _ => apply (inj pretty) in E
         end.

#[global] Hint Resolve pretty_line encode_line sha256_hex_line is_sha256_line : lines.

(** The laws can hold: hexadecimal text with a toy scheme. *)
Module SampleTexts.
#[export] Instance sample_p256 : P256 := {|
  VerifyingKey := list N; P256Sig := list N; Federation.hex_decode := SampleKeys.read;
  from_sec1_bytes := Some; sig_from_slice := Some;
  p256_verify key msg sig := bool_decide (sig = replicate 64 (N.of_nat (length msg) mod 256)%N);
|}.

#[export] Instance sample_texts : SignedTexts := {|
  hex_encode := SampleKeys.write;
  sha256 bytes := replicate 32 (N.of_nat (length bytes) mod 256)%N;
|}.

#[export] Instance sample_signing : Signing := {|
  P256SigningKey := bool;
  verifying_sec1 b := [if b then 1 else 2]%N;
  p256_sign _ msg := replicate 64 (N.of_nat (length msg) mod 256)%N;
|}.

Lemma read_digits s : ∀ bs c, SampleKeys.read s = Some bs → is_ascii_hexdigit c = false → contains_char c s = false.
Proof.
  assert (∀ a c n, SampleKeys.digit_value a = Some n → is_ascii_hexdigit c = false → Ascii.eqb a c = false) as Hd.
  { intros a c n Ha Hc. destruct (Ascii.eqb_spec a c) as [->|]; [|done]. exfalso. revert Ha Hc.
    unfold SampleKeys.digit_value, is_ascii_hexdigit. repeat case_bool_decide; done. }
  revert s. fix IH 1. intros [|a [|b s]] bs c; simpl; [done..|].
  destruct (SampleKeys.digit_value a) eqn:Ha, (SampleKeys.digit_value b) eqn:Hb; try done. simpl.
  destruct (SampleKeys.read s) eqn:Hs; [|done]. intros _ Hc.
  rewrite (Hd a c _ Ha), (Hd b c _ Hb) by done. by apply (IH s l).
Qed.

#[export] Instance sample_text_laws : SignedTextLaws sample_texts.
Proof.
  split.
  - intros bs Hbs. by apply (@decode_encode _ SampleKeys.sample_hex_laws).
  - apply read_digits.
  - intros bs. apply Forall_replicate. apply N.mod_lt. lia.
  - intros bs. apply length_replicate.
Qed.

#[export] Instance sample_signing_laws : SigningLaws sample_texts sample_signing.
Proof.
  split.
  - intros []; by apply Forall_singleton.
  - intros key msg. apply Forall_replicate. apply N.mod_lt. lia.
  - intros key msg. eexists _, _. split_and!; try done. simpl. by rewrite bool_decide_eq_true_2.
Qed.
End SampleTexts.
