(* ===== verification/ProtectedProfile.v ===== *)
(** * Protected commercial profiles

    [crates/core/src/protected_profile.rs]: what an owner authorizes a service to issue,
    the artifact the issuer signs, the recipient's short-lived release proof, and the
    attribution inside the package; their signed texts and their verification. *)

From stdpp Require Import pretty.
From S2P Require Import Prelude Ids Federation SignedText.

Definition PROTECTED_PROFILE_VERSION : N := 2.
Definition PROTECTED_PROFILE_DOMAIN : string := "gaugedesk-protected-profile.v2".
Definition ISSUE_AUTHORIZATION_DOMAIN : string := "gaugedesk-protected-profile-issue.v2".
Definition RELEASE_AUTHORIZATION_DOMAIN : string := "gaugedesk-protected-profile-release.v2".
Definition ATTRIBUTION_ENVELOPE_VERSION : N := 1.

Record IssueAuthorization := mkIssue {
  is_version : N; (* u8 *)
  is_request_id : string;
  is_profile_id : string;
  is_agent_id : string;
  is_revision : string;
  is_owner_authority : string;
  is_owner_root : string;
  is_issuer_authority : string;
  is_issuer_pubkey : string;
  is_service_origin : string;
  is_recipient_authority : string;
  is_recipient_root : string;
  is_plaintext_sha256 : string;
  is_export_format : string;
  is_authorized_at : N; (* u64 *)
  is_authorization_expires_at : N; (* u64 *)
  is_lease_expires_at : N; (* u64 *)
  is_max_runs : N; (* u64 *)
}.

Record SignedIssueAuthorization := mkSignedIssue {
  si_authorization : IssueAuthorization;
  owner_signature : Signature;
}.

Record ProtectedProfileClaims := mkClaims {
  cl_version : N; (* u8 *)
  cl_profile_id : string;
  cl_agent_id : string;
  cl_revision : string;
  cl_owner_authority : string;
  cl_owner_root : string;
  cl_issuer_authority : string;
  cl_service_origin : string;
  cl_recipient_authority : string;
  cl_recipient_root : string;
  cl_plaintext_sha256 : string;
  cl_blob_sha256 : string;
  cl_export_format : string;
  cl_license_id : string;
  cl_attribution_id : string;
  cl_issued_at : N; (* u64 *)
  cl_expires_at : N; (* u64 *)
  cl_max_runs : N; (* u64 *)
}.

Record ProtectedProfileArtifact := mkArtifact {
  claims : ProtectedProfileClaims;
  protection_blob : list N;
  issuer_signature : Signature;
}.

Record AttributedPackageEnvelope := mkAttributed {
  ap_version : N; (* u8 *)
  ap_profile_id : string;
  ap_agent_id : string;
  ap_revision : string;
  ap_owner_root : string;
  ap_recipient_root : string;
  ap_attribution_id : string;
  ap_plaintext_sha256 : string;
  ap_payload : list N;
}.

Record ReleaseAuthorization := mkRelease {
  re_version : N; (* u8 *)
  re_request_id : string;
  re_license_id : string;
  re_artifact_sha256 : string;
  re_recipient_root : string;
  re_issued_at : N; (* u64 *)
  re_expires_at : N; (* u64 *)
  re_nonce : string;
}.

Record SignedReleaseAuthorization := mkSignedRelease {
  sr_authorization : ReleaseAuthorization;
  recipient_signature : Signature;
}.

Inductive ProtectedProfileError :=
| UnsupportedVersion | WrongOwner | WrongRecipient | InvalidDigest | InvalidKey
| BadSignature | NotYetValid | Expired | InvalidLease | InvalidAuthorization.

Section profiles.
Context `{SignedTexts}.

Definition verify (sig : Signature) (bytes : list N) (key : PublicKey) : result ProtectedProfileError unit :=
  match verify_signature bytes sig key with
  | Ok true => Ok ()
  | Ok false => Err BadSignature
  | Err _ => Err InvalidKey
  end.

Definition validate_issue (v : IssueAuthorization) : result ProtectedProfileError unit :=
  unless (empty (is_request_id v) || empty (is_profile_id v) || empty (is_agent_id v)
          || empty (is_revision v) || empty (is_owner_authority v) || empty (is_issuer_authority v)
          || empty (is_service_origin v) || empty (is_recipient_authority v) || empty (is_export_format v)
          || negb (is_sha256 (is_plaintext_sha256 v))
          || bool_decide (is_authorization_expires_at v ≤ is_authorized_at v)%N
          || bool_decide (is_lease_expires_at v ≤ is_authorized_at v)%N) InvalidAuthorization.

Definition issue_lines (v : IssueAuthorization) : list string :=
  [ISSUE_AUTHORIZATION_DOMAIN; pretty (is_version v); encode (is_request_id v); encode (is_profile_id v);
   encode (is_agent_id v); encode (is_revision v); encode (is_owner_authority v); is_owner_root v;
   encode (is_issuer_authority v); is_issuer_pubkey v; encode (is_service_origin v);
   encode (is_recipient_authority v); is_recipient_root v; is_plaintext_sha256 v;
   encode (is_export_format v); pretty (is_authorized_at v); pretty (is_authorization_expires_at v);
   pretty (is_lease_expires_at v); pretty (is_max_runs v)].

Definition issue_authorization_bytes (v : IssueAuthorization) : list N := joined (issue_lines v).

Definition sign_issue_authorization `{!Signing} (signer : P256SigningKey) (v : IssueAuthorization)
    : SignedIssueAuthorization := mkSignedIssue v (sign signer (issue_authorization_bytes v)).

Definition verify_issue_authorization (signed : SignedIssueAuthorization) (owner_root : PublicKey) (now : N)
    : result ProtectedProfileError unit :=
  let v := si_authorization signed in
  try! unless (negb (is_version v =? PROTECTED_PROFILE_VERSION)%N) UnsupportedVersion;
  try! unless (neqb (is_owner_root v) (as_str owner_root)) WrongOwner;
  try! validate_issue v;
  try! unless (bool_decide (now < is_authorized_at v)%N) NotYetValid;
  try! unless (bool_decide (is_authorization_expires_at v ≤ now)%N) Expired;
  verify (owner_signature signed) (issue_authorization_bytes v) owner_root.

Definition claims_lines (c : ProtectedProfileClaims) : list string :=
  [PROTECTED_PROFILE_DOMAIN; pretty (cl_version c); encode (cl_profile_id c); encode (cl_agent_id c);
   encode (cl_revision c); encode (cl_owner_authority c); cl_owner_root c; encode (cl_issuer_authority c);
   encode (cl_service_origin c); encode (cl_recipient_authority c); cl_recipient_root c;
   cl_plaintext_sha256 c; cl_blob_sha256 c; encode (cl_export_format c); encode (cl_license_id c);
   encode (cl_attribution_id c); pretty (cl_issued_at c); pretty (cl_expires_at c); pretty (cl_max_runs c)].

Definition signing_bytes (c : ProtectedProfileClaims) : list N := joined (claims_lines c).

Definition sign_artifact `{!Signing} (signer : P256SigningKey) (c : ProtectedProfileClaims) (blob : list N)
    : result ProtectedProfileError ProtectedProfileArtifact :=
  if negb (cl_version c =? PROTECTED_PROFILE_VERSION)%N
     || bool_decide (cl_expires_at c ≤ cl_issued_at c)%N
     || neqb (cl_blob_sha256 c) (sha256_hex blob)
  then Err InvalidLease
  else Ok (mkArtifact c blob (sign signer (signing_bytes c))).

(** The bytes [artifact_digest] hashes, and their digest. *)
Definition artifact_preimage (a : ProtectedProfileArtifact) : list N :=
  let bytes := signing_bytes (claims a) in
  bytes_of PROTECTED_PROFILE_DOMAIN ++ len_bytes bytes ++ bytes
  ++ len_bytes (protection_blob a) ++ protection_blob a ++ sig_bytes (issuer_signature a).

Definition artifact_digest (a : ProtectedProfileArtifact) : string := hex_encode (sha256 (artifact_preimage a)).

Definition verify_artifact (a : ProtectedProfileArtifact) (pinned_issuer_key recipient_root : PublicKey) (now : N)
    : result ProtectedProfileError unit :=
  let c := claims a in
  try! unless (negb (cl_version c =? PROTECTED_PROFILE_VERSION)%N) UnsupportedVersion;
  try! unless (neqb (cl_recipient_root c) (as_str recipient_root)) WrongRecipient;
  try! unless (bool_decide (cl_expires_at c ≤ cl_issued_at c)%N) InvalidLease;
  try! unless (bool_decide (now < cl_issued_at c)%N) NotYetValid;
  try! unless (bool_decide (cl_expires_at c ≤ now)%N) Expired;
  try! unless (negb (is_sha256 (cl_plaintext_sha256 c))
               || neqb (cl_blob_sha256 c) (sha256_hex (protection_blob a))) InvalidDigest;
  verify (issuer_signature a) (signing_bytes c) pinned_issuer_key.

(** The comparison of the claims with the owner's authorization. *)
Definition claims_differ (c : ProtectedProfileClaims) (v : IssueAuthorization) (pinned_issuer_key : PublicKey) : bool :=
  neqb (cl_profile_id c) (is_profile_id v) || neqb (cl_agent_id c) (is_agent_id v)
  || neqb (cl_revision c) (is_revision v) || neqb (cl_owner_authority c) (is_owner_authority v)
  || neqb (cl_owner_root c) (is_owner_root v) || neqb (cl_issuer_authority c) (is_issuer_authority v)
  || neqb (cl_service_origin c) (is_service_origin v) || neqb (cl_recipient_authority c) (is_recipient_authority v)
  || neqb (cl_recipient_root c) (is_recipient_root v) || neqb (cl_plaintext_sha256 c) (is_plaintext_sha256 v)
  || neqb (cl_export_format c) (is_export_format v)
  || bool_decide (cl_issued_at c < is_authorized_at v)%N
  || bool_decide (is_authorization_expires_at v ≤ cl_issued_at c)%N
  || negb (cl_expires_at c =? is_lease_expires_at v)%N || negb (cl_max_runs c =? is_max_runs v)%N
  || neqb (is_issuer_pubkey v) (as_str pinned_issuer_key).

Definition verify_artifact_against_issue (a : ProtectedProfileArtifact) (signed : SignedIssueAuthorization)
    (owner_root pinned_issuer_key recipient_root : PublicKey) (now : N) : result ProtectedProfileError unit :=
  let v := si_authorization signed in
  try! unless (negb (is_version v =? PROTECTED_PROFILE_VERSION)%N) UnsupportedVersion;
  try! unless (neqb (is_owner_root v) (as_str owner_root)) WrongOwner;
  try! validate_issue v;
  try! verify (owner_signature signed) (issue_authorization_bytes v) owner_root;
  try! unless (claims_differ (claims a) v pinned_issuer_key) InvalidAuthorization;
  verify_artifact a pinned_issuer_key recipient_root now.

Definition release_lines (v : ReleaseAuthorization) : list string :=
  [RELEASE_AUTHORIZATION_DOMAIN; pretty (re_version v); encode (re_request_id v); encode (re_license_id v);
   re_artifact_sha256 v; re_recipient_root v; pretty (re_issued_at v); pretty (re_expires_at v);
   encode (re_nonce v)].

Definition release_authorization_bytes (v : ReleaseAuthorization) : list N := joined (release_lines v).

Definition sign_release_authorization `{!Signing} (signer : P256SigningKey) (v : ReleaseAuthorization)
    : SignedReleaseAuthorization := mkSignedRelease v (sign signer (release_authorization_bytes v)).

Definition verify_release_authorization (signed : SignedReleaseAuthorization) (recipient_root : PublicKey)
    (a : ProtectedProfileArtifact) (now : N) : result ProtectedProfileError unit :=
  let v := sr_authorization signed in
  try! unless (negb (re_version v =? PROTECTED_PROFILE_VERSION)%N) UnsupportedVersion;
  try! unless (neqb (re_recipient_root v) (as_str recipient_root)
               || neqb (cl_recipient_root (claims a)) (as_str recipient_root)) WrongRecipient;
  try! unless (neqb (re_license_id v) (cl_license_id (claims a))
               || neqb (re_artifact_sha256 v) (artifact_digest a)
               || empty (re_request_id v) || empty (re_nonce v)
               || bool_decide (re_expires_at v ≤ re_issued_at v)%N) InvalidAuthorization;
  try! unless (bool_decide (now < re_issued_at v)%N) NotYetValid;
  try! unless (bool_decide (re_expires_at v ≤ now)%N) Expired;
  verify (recipient_signature signed) (release_authorization_bytes v) recipient_root.

Definition verify_attributed_package (e : AttributedPackageEnvelope) (c : ProtectedProfileClaims)
    : result ProtectedProfileError unit :=
  unless (negb (ap_version e =? ATTRIBUTION_ENVELOPE_VERSION)%N
          || neqb (ap_profile_id e) (cl_profile_id c) || neqb (ap_agent_id e) (cl_agent_id c)
          || neqb (ap_revision e) (cl_revision c) || neqb (ap_owner_root e) (cl_owner_root c)
          || neqb (ap_recipient_root e) (cl_recipient_root c) || neqb (ap_attribution_id e) (cl_attribution_id c)
          || neqb (ap_plaintext_sha256 e) (cl_plaintext_sha256 c)
          || neqb (sha256_hex (ap_payload e)) (cl_plaintext_sha256 c)) InvalidDigest.

End profiles.

Section theorems.
Context `{SignedTextLaws}.

Lemma verify_ok sig bytes key : verify sig bytes key = Ok () ↔ verify_signature bytes sig key = Ok true.
Proof. unfold verify. destruct (verify_signature bytes sig key) as [[]|]; naive_solver. Qed.

(** A well-formed authorization. *)
Record issue_wf (v : IssueAuthorization) : Prop := {
  wf_named : Forall (λ s, s ≠ "") [is_request_id v; is_profile_id v; is_agent_id v; is_revision v;
    is_owner_authority v; is_issuer_authority v; is_service_origin v; is_recipient_authority v; is_export_format v];
  wf_digest : is_sha256 (is_plaintext_sha256 v) = true;
  wf_window : (is_authorized_at v < is_authorization_expires_at v)%N;
  wf_lease : (is_authorized_at v < is_lease_expires_at v)%N;
}.

Lemma validate_issue_ok v : validate_issue v = Ok () ↔ issue_wf v.
Proof.
  unfold validate_issue. read_checks. split.
  - intros. destruct_and!. split; [|done..]. repeat (constructor; [done|]). constructor.
  - intros [Hn ???]. rewrite !Forall_cons in Hn. naive_solver.
Qed.

(** The claims an authorization allows: the issuer chooses the digest of what it packed,
    its own names and the time of issue, and nothing else. *)
Definition claims_for (v : IssueAuthorization) (blob_sha256 license attribution : string) (issued_at : N)
    : ProtectedProfileClaims :=
  mkClaims PROTECTED_PROFILE_VERSION (is_profile_id v) (is_agent_id v) (is_revision v) (is_owner_authority v)
    (is_owner_root v) (is_issuer_authority v) (is_service_origin v) (is_recipient_authority v)
    (is_recipient_root v) (is_plaintext_sha256 v) blob_sha256 (is_export_format v) license attribution
    issued_at (is_lease_expires_at v) (is_max_runs v).

Lemma claims_differ_false c v key :
  claims_differ c v key = false ∧ cl_version c = PROTECTED_PROFILE_VERSION ↔
  (∃ blob license attribution issued_at, c = claims_for v blob license attribution issued_at
    ∧ (is_authorized_at v ≤ issued_at < is_authorization_expires_at v)%N)
  ∧ is_issuer_pubkey v = as_str key.
Proof.
  unfold claims_differ. read_checks. split.
  - intros. destruct_and!. split; [|done]. exists (cl_blob_sha256 c), (cl_license_id c), (cl_attribution_id c), (cl_issued_at c).
    split; [|done]. destruct c; simpl in *. unfold claims_for. by subst.
  - intros ((blob & lic & att & t & -> & ? & ?) & ?). simpl. by split_and!.
Qed.

Lemma verify_artifact_ok a issuer recipient now :
  verify_artifact a issuer recipient now = Ok () ↔
  cl_version (claims a) = PROTECTED_PROFILE_VERSION
  ∧ cl_recipient_root (claims a) = as_str recipient
  ∧ (cl_issued_at (claims a) ≤ now < cl_expires_at (claims a))%N
  ∧ is_sha256 (cl_plaintext_sha256 (claims a)) = true
  ∧ cl_blob_sha256 (claims a) = sha256_hex (protection_blob a)
  ∧ verify_signature (signing_bytes (claims a)) (issuer_signature a) issuer = Ok true.
Proof.
  unfold verify_artifact. cbv zeta. read_checks. rewrite verify_ok. split; [naive_solver|].
  intros (? & ? & [? ?] & ? & ? & ?). split_and!; try done; lia.
Qed.

Lemma artifact_against_issue_ok a signed owner issuer recipient now :
  let v := si_authorization signed in
  verify_artifact_against_issue a signed owner issuer recipient now = Ok () ↔
  (is_version v = PROTECTED_PROFILE_VERSION ∧ issue_wf v
   ∧ is_owner_root v = as_str owner ∧ is_issuer_pubkey v = as_str issuer ∧ is_recipient_root v = as_str recipient
   ∧ verify_signature (issue_authorization_bytes v) (owner_signature signed) owner = Ok true)
  ∧ ∃ license attribution issued_at,
      claims a = claims_for v (sha256_hex (protection_blob a)) license attribution issued_at
      ∧ (is_authorized_at v ≤ issued_at < is_authorization_expires_at v)%N
      ∧ (issued_at ≤ now < is_lease_expires_at v)%N
      ∧ verify_signature (signing_bytes (claims a)) (issuer_signature a) issuer = Ok true.
Proof.
  intros v. unfold verify_artifact_against_issue. cbv zeta. fold v. read_checks.
  rewrite !try_unit, validate_issue_ok, verify_ok, unless_ok, verify_artifact_ok. split.
  - intros (Hv & Ho & Hwf & Hs & Hd & Hver & Hr & Ht & _ & Hb & Hi).
    destruct (proj1 (claims_differ_false _ _ _) (conj Hd Hver)) as ((blob & lic & att & t & Hc & Hw) & Hk).
    rewrite Hc in *. simpl in *. subst blob. split; [done|]. by exists lic, att, t.
  - intros ((Hv & Hwf & Ho & Hk & Hr & Hs) & lic & att & t & Hc & Hw & Ht & Hi).
    destruct (proj2 (claims_differ_false (claims a) v issuer)) as [Hd Hver]; [naive_solver|].
    rewrite Hc in *. simpl. split_and!; try done; [lia..|by destruct Hwf].
Qed.

(** An artifact runs only as the owner authorized it. Verification against the owner's
    authorization succeeds exactly when the authorization is well formed, names the
    pinned issuer and is signed by the owner's root, and the artifact is, within its
    lease, the issuer's signed statement of exactly those terms (profile, agent,
    revision, parties, service, digest, format, lease and run count), issued within the
    window, over the bytes it carries, for this recipient. *)
Theorem artifact_exact a signed owner issuer recipient now :
  let v := si_authorization signed in
  verify_artifact_against_issue a signed owner issuer recipient now = Ok () ↔
  (is_version v = PROTECTED_PROFILE_VERSION ∧ issue_wf v
   ∧ is_owner_root v = as_str owner ∧ is_issuer_pubkey v = as_str issuer ∧ is_recipient_root v = as_str recipient
   ∧ verify_signature (issue_authorization_bytes v) (owner_signature signed) owner = Ok true)
  ∧ ∃ license attribution issued_at,
      claims a = claims_for v (sha256_hex (protection_blob a)) license attribution issued_at
      ∧ (is_authorized_at v ≤ issued_at < is_authorization_expires_at v)%N
      ∧ (issued_at ≤ now < is_lease_expires_at v)%N
      ∧ verify_signature (signing_bytes (claims a)) (issuer_signature a) issuer = Ok true.
Proof. apply artifact_against_issue_ok. Qed.

(** ** The signed texts determine what was signed *)

(** The keys and digests a statement names are one line each: every key some signature
    verified under and every digest that was checked is. *)
Definition issue_clean (v : IssueAuthorization) : Prop :=
  Forall single_line [is_owner_root v; is_issuer_pubkey v; is_recipient_root v; is_plaintext_sha256 v].
Definition claims_clean (c : ProtectedProfileClaims) : Prop :=
  Forall single_line [cl_owner_root c; cl_recipient_root c; cl_plaintext_sha256 c; cl_blob_sha256 c].
Definition release_clean (v : ReleaseAuthorization) : Prop :=
  Forall single_line [re_artifact_sha256 v; re_recipient_root v].

Ltac lines_single := rewrite !Forall_cons in *; destruct_and?; split_and!; first [solve [eauto with lines]|done].

Lemma issue_single v : issue_clean v → Forall single_line (issue_lines v).
Proof. intros Hc. unfold issue_clean, issue_lines in *. lines_single. Qed.
Lemma claims_single c : claims_clean c → Forall single_line (claims_lines c).
Proof. intros Hc. unfold claims_clean, claims_lines in *. lines_single. Qed.
Lemma release_single v : release_clean v → Forall single_line (release_lines v).
Proof. intros Hc. unfold release_clean, release_lines in *. lines_single. Qed.

(** The signed texts determine what was signed. Two authorizations, two claims or two
    release proofs with the same text are the same statement, when the keys and digests
    they name are single lines; no text of one kind is a text of another; and two
    artifacts with the same digest are the same claims, bytes and signature, or SHA-256
    collides on the texts at hand. *)
Theorem profile_texts_binding :
  (∀ v v', issue_clean v → issue_clean v' →
     issue_authorization_bytes v = issue_authorization_bytes v' → v = v')
  ∧ (∀ c c', claims_clean c → claims_clean c' → signing_bytes c = signing_bytes c' → c = c')
  ∧ (∀ r r', release_clean r → release_clean r' →
       release_authorization_bytes r = release_authorization_bytes r' → r = r')
  ∧ (∀ v c r, issue_authorization_bytes v ≠ signing_bytes c
       ∧ signing_bytes c ≠ release_authorization_bytes r
       ∧ issue_authorization_bytes v ≠ release_authorization_bytes r)
  ∧ (∀ a a', claims_clean (claims a) → claims_clean (claims a') →
       Forall (λ bs, N.of_nat (length bs) < u64_modulus)%N
         [signing_bytes (claims a); signing_bytes (claims a'); protection_blob a; protection_blob a'] →
       artifact_digest a = artifact_digest a' →
       a = a' ∨ (artifact_preimage a ≠ artifact_preimage a'
                 ∧ sha256 (artifact_preimage a) = sha256 (artifact_preimage a'))).
Proof.
  assert (∀ c c', claims_clean c → claims_clean c' → signing_bytes c = signing_bytes c' → c = c') as Hclaims.
  { intros c c' Hc Hc' Heq. apply joined_inj in Heq; [|done..|by apply claims_single|by apply claims_single].
    same_lines Heq. destruct c, c'; simpl in *; by subst. }
  split_and!; [|exact Hclaims| | |].
  - intros v v' Hv Hv' Heq. apply joined_inj in Heq; [|done..|by apply issue_single|by apply issue_single].
    same_lines Heq. destruct v, v'; simpl in *; by subst.
  - intros v v' Hv Hv' Heq. apply joined_inj in Heq; [|done..|by apply release_single|by apply release_single].
    same_lines Heq. destruct v, v'; simpl in *; by subst.
  - intros v c r. split_and!; by apply joined_head.
  - intros a a' Hc Hc' Hlen Heq. rewrite !Forall_cons in Hlen. destruct Hlen as (L1 & L2 & L3 & L4 & _).
    apply sha256_hex_collision in Heq as [Heq|]; [left|by right]. unfold artifact_preimage in Heq.
    apply app_inv_head in Heq. apply len_bytes_inj in Heq as [Hs Heq]; [|done..].
    apply len_bytes_inj in Heq as [Hb Hsig]; [|done..]. apply Hclaims in Hs; [|done..].
    destruct a as [? ? []], a' as [? ? []]; simpl in *; by subst.
Qed.

(** ** Signing and verifying *)

Lemma verified_clean a signed owner issuer recipient now :
  single_line (as_str recipient) →
  verify_artifact_against_issue a signed owner issuer recipient now = Ok () →
  issue_clean (si_authorization signed) ∧ claims_clean (claims a).
Proof.
  intros Hr Hv. apply artifact_against_issue_ok in Hv as ((_ & [_ Hd _ _] & Ho & Hk & Hre & Hs) & lic & att & t & Hc & _ & _ & Hi).
  apply verified_key_line in Hs, Hi. unfold issue_clean, claims_clean. rewrite Hc. simpl.
  rewrite Ho, Hk, Hre. split; lines_single.
Qed.

(** What is signed is accepted. An authorization the owner signed, the artifact the
    issuer signed for its terms, and the release proof the recipient signed for that
    artifact verify at every time inside the lease and the proof's window; and the proof
    verifies for no other artifact, unless SHA-256 collides. *)
Theorem profile_roundtrip `{signing : !Signing, !SigningLaws H0 signing} owner issuer recipient v blob license attribution
    issued_at r now a :
  issue_wf v → is_version v = PROTECTED_PROFILE_VERSION → is_owner_root v = as_str (public_key owner) →
  is_issuer_pubkey v = as_str (public_key issuer) → is_recipient_root v = as_str (public_key recipient) →
  (is_authorized_at v ≤ issued_at < is_authorization_expires_at v)%N →
  (issued_at ≤ now < is_lease_expires_at v)%N →
  sign_artifact issuer (claims_for v (sha256_hex blob) license attribution issued_at) blob = Ok a →
  re_version r = PROTECTED_PROFILE_VERSION → re_license_id r = license → re_artifact_sha256 r = artifact_digest a →
  re_recipient_root r = as_str (public_key recipient) → re_request_id r ≠ "" → re_nonce r ≠ "" →
  (re_issued_at r ≤ now < re_expires_at r)%N →
  verify_artifact_against_issue a (sign_issue_authorization owner v) (public_key owner) (public_key issuer)
    (public_key recipient) now = Ok ()
  ∧ verify_release_authorization (sign_release_authorization recipient r) (public_key recipient) a now = Ok ()
  ∧ ∀ a', verify_release_authorization (sign_release_authorization recipient r) (public_key recipient) a' now = Ok () →
      artifact_preimage a' = artifact_preimage a
      ∨ (artifact_preimage a' ≠ artifact_preimage a ∧ sha256 (artifact_preimage a') = sha256 (artifact_preimage a)).
Proof.
  intros Hwf Hv Ho Hk Hr Hw Ht Hsign Hrv Hl Hd Hrr Hq Hn Hrt. unfold sign_artifact in Hsign.
  destruct (_ || _); [done|]. simplify_eq. split_and!.
  - apply artifact_against_issue_ok. simpl. split; [split_and!; try done; apply sign_verifies|].
    exists (re_license_id r), attribution, issued_at. split_and!; try done; [lia..|apply sign_verifies].
  - unfold verify_release_authorization. cbv zeta. read_checks. rewrite verify_ok.
    simpl. split_and!; try done; [lia..|apply sign_verifies].
  - intros a' Ha'. unfold verify_release_authorization in Ha'. cbv zeta in Ha'.
    autorewrite with text_checks in Ha'. destruct_and!. apply sha256_hex_collision.
    etrans; [symmetry|]; [eassumption|exact Hd].
Qed.
End theorems.

(** ** Concrete statements *)

Module SampleProfile.
Import SampleTexts.

Definition owner : P256SigningKey := true.
Definition other : P256SigningKey := false.

Definition issue (issuer_key service recipient_authority recipient_key : string) : IssueAuthorization :=
  mkIssue 2 "request" "profile" "agent" "r1" "owner" (as_str (public_key owner)) "issuer" issuer_key service
    recipient_authority recipient_key (sha256_hex [1%N; 2%N]) "zip" 10 20 100 0.

Definition sample_issue : IssueAuthorization :=
  issue (as_str (public_key other)) "https://service" "recipient" (as_str (public_key other)).

Definition sample_artifact : ProtectedProfileArtifact :=
  let c := claims_for sample_issue (sha256_hex [3%N]) "license" "mark" 15 in
  mkArtifact c [3%N] (sign other (signing_bytes c)).

Definition sample_release : ReleaseAuthorization :=
  mkRelease 2 "again" "license" (artifact_digest sample_artifact) (as_str (public_key other)) 30 40 "n".

(** The keys an authorization names are written as they are. A line feed in one moves the
    lines after it: two authorizations, for different services, are both well formed and
    have one signed text. *)
Example issue_text_ambiguous :
  let v := issue (String.concat (String lf "") ["k"; encode "https://one"]) "https://two" "three" "r" in
  let v' := issue "k" "https://one" "https://two" (String.concat (String lf "") [encode "three"; "r"]) in
  issue_authorization_bytes v = issue_authorization_bytes v' ∧ validate_issue v = Ok () ∧ validate_issue v' = Ok ()
  ∧ is_service_origin v ≠ is_service_origin v'.
Proof. vm_compute. done. Qed.
End SampleProfile.

Import SampleTexts.

Lemma profile_texts_binding_witness :
  signing_bytes (claims SampleProfile.sample_artifact) ≠ issue_authorization_bytes SampleProfile.sample_issue.
Proof.
  destruct profile_texts_binding as (_ & _ & _ & Hkinds & _).
  destruct (Hkinds SampleProfile.sample_issue (claims SampleProfile.sample_artifact) SampleProfile.sample_release) as [Hne _].
  intros Heq. by apply Hne.
Defined.

Lemma artifact_exact_witness :
  ∃ license attribution issued_at, claims SampleProfile.sample_artifact
    = claims_for SampleProfile.sample_issue (sha256_hex [3%N]) license attribution issued_at.
Proof.
  destruct (proj1 (artifact_exact SampleProfile.sample_artifact
    (sign_issue_authorization SampleProfile.owner SampleProfile.sample_issue) (public_key SampleProfile.owner) (public_key SampleProfile.other) (public_key SampleProfile.other) 35%N))
    as (_ & lic & att & t & Hc & _); [vm_compute; reflexivity|].
  exists lic, att, t. exact Hc.
Defined.

Lemma profile_roundtrip_witness :
  verify_release_authorization (sign_release_authorization SampleProfile.other SampleProfile.sample_release) (public_key SampleProfile.other)
    SampleProfile.sample_artifact 35 = Ok ().
Proof.
  destruct (profile_roundtrip SampleProfile.owner SampleProfile.other SampleProfile.other SampleProfile.sample_issue [3%N] "license" "mark" 15%N
    SampleProfile.sample_release 35%N SampleProfile.sample_artifact) as (_ & Hr & _);
    [split; [repeat constructor; discriminate|vm_compute; reflexivity..]|try (vm_compute; reflexivity)..|exact Hr].
  all: vm_compute; first [discriminate|split; [discriminate|reflexivity]].
Defined.
