(* ===== verification/ProjectHost.v ===== *)
(** * Project hosts: registration, recovery export, handoff preparation

    [crates/core/src/project_host_registration.rs] with the answering half of
    [crates/app/src/possession_exchange.rs] (module [Registration]),
    [project_host_export.rs] (module [HostExport]) and [project_home_handoff.rs] (module
    [Preparation]). *)

From Stdlib Require Import Ascii.
From stdpp Require Import pretty.
From S2P Require Import Prelude Ids Federation SignedText.

Module Registration.

Definition REGISTRATION_VERSION : N := 1.
Definition CLAIM_DOMAIN : string := "gaugedesk-project-host-claim.v1".
Definition POSSESSION_DOMAIN : string := "gaugedesk-project-host-possession.v1".
Definition ADMITTED_CAPABILITIES : list string := ["carry-project-home"; "accept-handoff"; "serve-export"].

Inductive RegistrationError :=
| UnsupportedVersion | Expired | ChallengeMismatch | TenantMismatch | UnadmittedCapability
| Malformed | BadSignature | RouteSubstituted | NonceMismatch | StaleEpoch.

Record RegistrationChallenge := mkRegistrationChallenge {
  rc_version : N; (* u8 *)
  rc_challenge_id : string;
  rc_tenant_id : string;
  rc_initiating_actor : string;
  rc_proposed_label : string;
  rc_nonce : string;
  rc_issued_at : N; (* u64 *)
  rc_expires_at : N; (* u64 *)
}.

Record HostClaim := mkHostClaim {
  hc_version : N; (* u8 *)
  hc_home_id : string;
  hc_governance_pubkey : string;
  hc_tenant_id : string;
  hc_challenge_id : string;
  hc_challenge_nonce : string;
  hc_route : string;
  hc_route_epoch : N; (* u64 *)
  hc_transport_pin : string;
  hc_capabilities : list string;
  hc_issued_at : N; (* u64 *)
  hc_expires_at : N; (* u64 *)
}.

Record SignedHostClaim := mkSignedClaim { claim : HostClaim; governance_signature : Signature }.

Record PossessionChallenge := mkPossessionChallenge {
  pc_version : N; (* u8 *)
  pc_challenge_id : string;
  pc_nonce : string;
  pc_issued_at : N; (* u64 *)
  pc_expires_at : N; (* u64 *)
}.

Record PossessionAnswer := mkAnswer {
  pa_version : N; (* u8 *)
  pa_challenge_id : string;
  pa_nonce : string;
  pa_home_id : string;
  pa_governance_pubkey : string;
  pa_tenant_id : string;
  pa_route : string;
  pa_route_epoch : N; (* u64 *)
  pa_transport_pin : string;
  pa_signature : Signature;
}.

(** [windows(2).all(|pair| pair\[0\] < pair\[1\])] *)
Fixpoint increasing (l : list string) : bool :=
  match l with
  | a :: (b :: _) as rest => String.ltb a b && increasing rest
  | _ => true
  end.

Definition capabilities_admitted (capabilities : list string) : bool :=
  negb (bool_decide (capabilities = []))
  && forallb (λ name, bool_decide (name ∈ ADMITTED_CAPABILITIES)) capabilities
  && increasing capabilities.

Definition well_formed (c : HostClaim) : bool :=
  negb (existsb blank [hc_home_id c; hc_governance_pubkey c; hc_tenant_id c; hc_challenge_id c;
                       hc_challenge_nonce c; hc_route c; hc_transport_pin c])
  && bool_decide (hc_issued_at c < hc_expires_at c)%N.

Section registration.
Context `{SignedTexts}.

Definition claim_lines (c : HostClaim) : list string :=
  [CLAIM_DOMAIN; pretty (hc_version c); encode (hc_home_id c); hc_governance_pubkey c; encode (hc_tenant_id c);
   encode (hc_challenge_id c); encode (hc_challenge_nonce c); encode (hc_route c); pretty (hc_route_epoch c);
   encode (hc_transport_pin c); encode (String.concat "," (hc_capabilities c)); pretty (hc_issued_at c);
   pretty (hc_expires_at c)].

Definition claim_signing_bytes (c : HostClaim) : list N := joined (claim_lines c).

Definition answer_lines (a : PossessionAnswer) : list string :=
  [POSSESSION_DOMAIN; pretty (pa_version a); encode (pa_challenge_id a); encode (pa_nonce a); encode (pa_home_id a);
   pa_governance_pubkey a; encode (pa_tenant_id a); encode (pa_route a); pretty (pa_route_epoch a);
   encode (pa_transport_pin a)].

Definition possession_signing_bytes (a : PossessionAnswer) : list N := joined (answer_lines a).

Definition sign_claim `{!Signing} (signer : P256SigningKey) (c : HostClaim) : result RegistrationError SignedHostClaim :=
  try! unless (negb (hc_version c =? REGISTRATION_VERSION)%N) UnsupportedVersion;
  try! unless (negb (well_formed c)) Malformed;
  try! unless (negb (capabilities_admitted (hc_capabilities c))) UnadmittedCapability;
  Ok (mkSignedClaim c (sign signer (claim_signing_bytes c))).

(** [match verify_signature(..) { Ok(true) => Ok(()), _ => Err(Signature) }] *)
Definition signature_checked (bytes : list N) (sig : Signature) (key : string) : result RegistrationError unit :=
  match verify_signature bytes sig (mkId key) with Ok true => Ok () | _ => Err BadSignature end.

Definition verify_claim (signed : SignedHostClaim) (ch : RegistrationChallenge) (now : N)
    : result RegistrationError unit :=
  let c := claim signed in
  try! unless (negb (hc_version c =? REGISTRATION_VERSION)%N || negb (rc_version ch =? REGISTRATION_VERSION)%N)
         UnsupportedVersion;
  try! unless (negb (well_formed c)) Malformed;
  try! unless (bool_decide (rc_expires_at ch ≤ now)%N || bool_decide (hc_expires_at c ≤ now)%N) Expired;
  try! unless (neqb (hc_challenge_id c) (rc_challenge_id ch) || neqb (hc_challenge_nonce c) (rc_nonce ch))
         ChallengeMismatch;
  try! unless (neqb (hc_tenant_id c) (rc_tenant_id ch)) TenantMismatch;
  try! unless (negb (capabilities_admitted (hc_capabilities c))) UnadmittedCapability;
  signature_checked (claim_signing_bytes c) (governance_signature signed) (hc_governance_pubkey c).

Definition verify_possession (a : PossessionAnswer) (c : HostClaim) (ch : PossessionChallenge)
    (last_known_epoch : option N) (now : N) : result RegistrationError unit :=
  try! unless (negb (pa_version a =? REGISTRATION_VERSION)%N || negb (pc_version ch =? REGISTRATION_VERSION)%N)
         UnsupportedVersion;
  try! unless (bool_decide (pc_expires_at ch ≤ now)%N) Expired;
  try! unless (neqb (pa_challenge_id a) (pc_challenge_id ch)) ChallengeMismatch;
  try! unless (neqb (pa_nonce a) (pc_nonce ch)) NonceMismatch;
  try! unless (neqb (pa_home_id a) (hc_home_id c) || neqb (pa_governance_pubkey a) (hc_governance_pubkey c)
               || neqb (pa_tenant_id a) (hc_tenant_id c) || neqb (pa_route a) (hc_route c)
               || neqb (pa_transport_pin a) (hc_transport_pin c)) RouteSubstituted;
  try! unless (negb (pa_route_epoch a =? hc_route_epoch c)%N) RouteSubstituted;
  try! unless (match last_known_epoch with
               | Some known => bool_decide (pa_route_epoch a ≤ known)%N
               | None => false
               end) StaleEpoch;
  signature_checked (possession_signing_bytes a) (pa_signature a) (pa_governance_pubkey a).

(** ** The Home's half ([possession_exchange.rs]) *)

Record HomeIdentity := mkHome {
  hi_home_id : string;
  hi_tenant_id : string;
  hi_route : string;
  hi_route_epoch : option N; (* u64 *)
  hi_transport_pin : string;
}.

Definition answer_possession `{!Signing} (signer : P256SigningKey) (identity : HomeIdentity) (ch : PossessionChallenge)
    : PossessionAnswer :=
  let unsigned sig := mkAnswer REGISTRATION_VERSION (pc_challenge_id ch) (pc_nonce ch) (hi_home_id identity)
    (as_str (public_key signer)) (hi_tenant_id identity) (hi_route identity) (default 0%N (hi_route_epoch identity))
    (hi_transport_pin identity) sig in
  unsigned (sign signer (possession_signing_bytes (unsigned (mkSignature [])))).

Definition MAX_POSSESSION_FRAME : N := 16384.

Inductive PossessionError := Unreachable | MalformedFrame.

(** A stream is the bytes that will arrive; reading past its end fails. *)
Definition read_exact (n : nat) (stream : list N) : result PossessionError (list N * list N) :=
  if bool_decide (n ≤ length stream) then Ok (take n stream, drop n stream) else Err Unreachable.

Definition write_frame {T} (to_vec : T → option (list N)) (value : T) : result PossessionError (list N) :=
  let? bytes := ok_or (to_vec value) MalformedFrame in
  let len := N.of_nat (length bytes) in
  if bool_decide (len < 4294967296)%N && bool_decide (len ≤ MAX_POSSESSION_FRAME)%N
  then Ok (to_be_bytes 4 len ++ bytes) else Err MalformedFrame.

Definition read_frame {T} (from_slice : list N → option T) (stream : list N) : result PossessionError (T * list N) :=
  let? p := read_exact 4 stream in
  let len := from_be_bytes p.1 in
  if bool_decide (MAX_POSSESSION_FRAME < len)%N then Err MalformedFrame
  else let? q := read_exact (N.to_nat len) p.2 in
       let? value := ok_or (from_slice q.1) MalformedFrame in
       Ok (value, q.2).

(** One request in, one response out. *)
Definition serve_possession `{!Signing} (read_challenge : list N → option PossessionChallenge)
    (write_answer : PossessionAnswer → option (list N)) (stream : list N) (signer : P256SigningKey)
    (identity : HomeIdentity) : result PossessionError (list N) :=
  let? p := read_frame read_challenge stream in
  write_frame write_answer (answer_possession signer identity p.1).

End registration.

Section registration_theorems.
Context `{SignedTextLaws}.

Lemma signature_checked_ok bytes sig key :
  signature_checked bytes sig key = Ok () ↔ verify_signature bytes sig (mkId key) = Ok true.
Proof. unfold signature_checked. destruct (verify_signature _ _ _) as [[]|]; naive_solver. Qed.

Lemma admitted_no_comma caps :
  capabilities_admitted caps = true → caps ≠ [] ∧ Forall (λ s, contains_char "," s = false) caps.
Proof.
  unfold capabilities_admitted. rewrite !andb_true_iff, negb_true_iff, bool_decide_eq_false.
  intros [[? Hall] _]. split; [done|]. apply Forall_forall. intros s Hs.
  rewrite forallb_forall in Hall. specialize (Hall s (proj1 (list_elem_of_In _ _) Hs)).
  apply bool_decide_eq_true in Hall. unfold ADMITTED_CAPABILITIES in Hall. set_unfold. naive_solver.
Qed.

Lemma claim_text_inj c c' :
  single_line (hc_governance_pubkey c) → single_line (hc_governance_pubkey c') →
  capabilities_admitted (hc_capabilities c) = true → capabilities_admitted (hc_capabilities c') = true →
  claim_signing_bytes c = claim_signing_bytes c' → c = c'.
Proof.
  intros Hk Hk' Hc Hc' Heq.
  assert (∀ c, single_line (hc_governance_pubkey c) → Forall single_line (claim_lines c)) as Hl.
  { intros d Hd. unfold claim_lines. rewrite !Forall_cons. split_and!; first [solve [eauto with lines]|done]. }
  apply joined_inj in Heq; [|done..|by apply Hl|by apply Hl]. same_lines Heq.
  assert (hc_capabilities c = hc_capabilities c') as Hcaps.
  { apply admitted_no_comma in Hc as [? ?], Hc' as [? ?]. by apply (concat_sep_inj ","). }
  destruct c, c'; simpl in *; by subst.
Qed.

(** Two routes never sign the same answer for different identities. *)
Lemma answer_text_inj a a' :
  single_line (pa_governance_pubkey a) → single_line (pa_governance_pubkey a') →
  possession_signing_bytes a = possession_signing_bytes a' → pa_signature a = pa_signature a' → a = a'.
Proof.
  intros Hk Hk' Heq Hs.
  assert (∀ a, single_line (pa_governance_pubkey a) → Forall single_line (answer_lines a)) as Hl.
  { intros d Hd. unfold answer_lines. rewrite !Forall_cons. split_and!; first [solve [eauto with lines]|done]. }
  apply joined_inj in Heq; [|done..|by apply Hl|by apply Hl]. same_lines Heq.
  destruct a, a'; simpl in *; by subst.
Qed.

(** The claim answers this challenge, in time. *)
Record claim_answers (c : HostClaim) (ch : RegistrationChallenge) (now : N) : Prop := {
  ca_versions : hc_version c = REGISTRATION_VERSION ∧ rc_version ch = REGISTRATION_VERSION;
  ca_formed : well_formed c = true;
  ca_time : (now < rc_expires_at ch ∧ now < hc_expires_at c)%N;
  ca_challenge : hc_challenge_id c = rc_challenge_id ch ∧ hc_challenge_nonce c = rc_nonce ch;
  ca_tenant : hc_tenant_id c = rc_tenant_id ch;
  ca_capabilities : capabilities_admitted (hc_capabilities c) = true;
}.

(** The answer that restates a claim. *)
Definition restated (c : HostClaim) (ch : PossessionChallenge) (sig : Signature) : PossessionAnswer :=
  mkAnswer REGISTRATION_VERSION (pc_challenge_id ch) (pc_nonce ch) (hc_home_id c) (hc_governance_pubkey c)
    (hc_tenant_id c) (hc_route c) (hc_route_epoch c) (hc_transport_pin c) sig.

Lemma verify_claim_ok s ch now :
  verify_claim s ch now = Ok () ↔
  claim_answers (claim s) ch now
  ∧ verify_signature (claim_signing_bytes (claim s)) (governance_signature s) (mkId (hc_governance_pubkey (claim s))) = Ok true.
Proof.
  unfold verify_claim. cbv zeta. read_checks. rewrite signature_checked_ok. split.
  - intros. destruct_and!. split; [by split|done].
  - intros [[[] ? [] [] ? ?] ?]. naive_solver.
Qed.

Lemma verify_possession_ok a c ch last now :
  verify_possession a c ch last now = Ok () ↔
  a = restated c ch (pa_signature a) ∧ pc_version ch = REGISTRATION_VERSION ∧ (now < pc_expires_at ch)%N
  ∧ (∀ known, last = Some known → (known < hc_route_epoch c)%N)
  ∧ verify_signature (possession_signing_bytes a) (pa_signature a) (mkId (hc_governance_pubkey c)) = Ok true.
Proof.
  unfold verify_possession. read_checks. rewrite signature_checked_ok.
  assert (match last with Some known => bool_decide (pa_route_epoch a ≤ known)%N | None => false end = false ↔
    ∀ known, last = Some known → (known < pa_route_epoch a)%N) as ->.
  { destruct last as [k|]; [rewrite nle_false; naive_solver|naive_solver]. }
  split.
  - intros. destruct_and!. destruct a; simpl in *; subst. by split_and!.
  - intros (Ha & ? & ? & Hk & Hs). rewrite Ha in *. simpl in *. by split_and!.
Qed.

(** C28: a Home is registered exactly on a claim it signed and a live answer that restates
    it. Both checks pass exactly when the claim answers this tenant's challenge in time
    with admitted capabilities, the answer is the claim's identity, route, epoch and pin
    for the fresh nonce, its epoch is newer than any accepted before, and one governance
    key signed both; a claim verified against some challenge is the only claim with its
    signed text, and no answer's text is a claim's. "In time" is before the challenge and
    before the claim expire, each by the present time: their two expiries are not
    compared, and a claim that expires after its challenge is accepted, contrary to the
    doc of [Expired] (see [SampleHost.outliving_claim_accepted]). *)
Theorem registration_exact s ch now a pch last now' :
  (verify_claim s ch now = Ok () ∧ verify_possession a (claim s) pch last now' = Ok () ↔
     let key := mkId (hc_governance_pubkey (claim s)) in
     claim_answers (claim s) ch now
     ∧ verify_signature (claim_signing_bytes (claim s)) (governance_signature s) key = Ok true
     ∧ a = restated (claim s) pch (pa_signature a) ∧ pc_version pch = REGISTRATION_VERSION
     ∧ (now' < pc_expires_at pch)%N ∧ (∀ known, last = Some known → (known < hc_route_epoch (claim s))%N)
     ∧ verify_signature (possession_signing_bytes a) (pa_signature a) key = Ok true)
  ∧ (∀ s' ch' t', verify_claim s ch now = Ok () → verify_claim s' ch' t' = Ok () →
       claim_signing_bytes (claim s) = claim_signing_bytes (claim s') → claim s = claim s')
  ∧ claim_signing_bytes (claim s) ≠ possession_signing_bytes a.
Proof.
  split_and!.
  - rewrite verify_claim_ok, verify_possession_ok. naive_solver.
  - intros s' ch' t' [[] Hs]%verify_claim_ok [[] Hs']%verify_claim_ok Heq.
    apply verified_key_line in Hs, Hs'. by apply claim_text_inj.
  - by apply joined_head.
Qed.

(** *** The exchange *)

Lemma frame_roundtrip {T} (to_vec : T → option (list N)) (from_slice : list N → option T) v frame rest :
  (∀ v bs, to_vec v = Some bs → from_slice bs = Some v) →
  write_frame to_vec v = Ok frame → read_frame from_slice (frame ++ rest) = Ok (v, rest).
Proof.
  intros Hrt Hw. unfold write_frame in Hw. destruct (to_vec v) as [bs|] eqn:Hv; [|done]. unfold ok_or in Hw.
  destruct (bool_decide (_ < 4294967296)%N) eqn:Hu; [|done]. destruct (bool_decide (_ ≤ MAX_POSSESSION_FRAME)%N) eqn:Hm; [|done].
  apply bool_decide_eq_true in Hu, Hm. assert (frame = to_be_bytes 4 (N.of_nat (length bs)) ++ bs) as -> by (cbv beta iota delta [andb] in Hw; congruence).
  unfold read_frame, read_exact. rewrite <- app_assoc. rewrite bool_decide_eq_true_2 by (rewrite length_app, to_be_bytes_length; lia).
  cbn [fst snd]. rewrite take_app_length' by (by rewrite to_be_bytes_length).
  rewrite drop_app_length' by (by rewrite to_be_bytes_length).
  rewrite from_to_be_bytes by exact Hu. rewrite bool_decide_eq_false_2 by lia. rewrite Nat2N.id.
  rewrite bool_decide_eq_true_2 by (rewrite length_app; lia). cbn [fst snd].
  rewrite take_app_length, drop_app_length, (Hrt v bs Hv). done.
Qed.

(** The identity a claim states. *)
Definition identity_of (c : HostClaim) (epoch : option N) : HomeIdentity :=
  mkHome (hc_home_id c) (hc_tenant_id c) (hc_route c) epoch (hc_transport_pin c).

Context `{signing : !Signing, !SigningLaws H0 signing}.

Lemma answer_restates signer c epoch ch :
  hc_governance_pubkey c = as_str (public_key signer) → default 0%N epoch = hc_route_epoch c →
  ∃ sig, answer_possession signer (identity_of c epoch) ch = restated c ch sig
    ∧ verify_signature (possession_signing_bytes (restated c ch sig)) sig (mkId (hc_governance_pubkey c)) = Ok true.
Proof.
  intros Hk He. exists (sign signer (possession_signing_bytes (restated c ch (mkSignature [])))). split.
  - unfold answer_possession, restated, identity_of. cbv zeta. simpl. by rewrite Hk, He.
  - rewrite Hk. exact (sign_verifies signer (possession_signing_bytes (restated c ch (mkSignature [])))).
Qed.

(** An honest Home registers. A claim a Home signed for a challenge verifies while the
    challenge and the claim last; its answer, read from the frame the exchange returned
    for the verifier's framed challenge, verifies in time exactly if the route epoch is
    newer than the last the verifier accepted. *)
Theorem honest_home_registers signer c s ch now epoch pch
    read_challenge write_challenge read_answer write_answer asked answered last now' :
  (∀ v bs, write_challenge v = Some bs → read_challenge bs = Some v) →
  (∀ v bs, write_answer v = Some bs → read_answer bs = Some v) →
  hc_governance_pubkey c = as_str (public_key signer) → default 0%N epoch = hc_route_epoch c →
  claim_answers c ch now → sign_claim signer c = Ok s →
  pc_version pch = REGISTRATION_VERSION → (now' < pc_expires_at pch)%N →
  write_frame write_challenge pch = Ok asked →
  serve_possession read_challenge write_answer asked signer (identity_of c epoch) = Ok answered →
  verify_claim s ch now = Ok ()
  ∧ ∃ a, read_frame read_answer answered = Ok (a, [])
    ∧ (verify_possession a c pch last now' = Ok () ↔ ∀ known, last = Some known → (known < hc_route_epoch c)%N).
Proof.
  intros Hrc Hra Hk He Hans Hsign Hv Ht Hask Hserve.
  unfold sign_claim in Hsign. autorewrite with text_checks in Hsign. destruct Hsign as (_ & _ & _ & [= <-]). split.
  - apply verify_claim_ok. split; [done|]. simpl. rewrite Hk. apply (sign_verifies signer).
  - pose proof (frame_roundtrip write_challenge read_challenge pch asked [] Hrc Hask) as Hr. rewrite app_nil_r in Hr.
    unfold serve_possession in Hserve. rewrite Hr in Hserve. cbn [fst] in Hserve.
    exists (answer_possession signer (identity_of c epoch) pch). split.
    + rewrite <- (app_nil_r answered). by eapply frame_roundtrip.
    + destruct (answer_restates signer c epoch pch Hk He) as (sig & -> & Hsig).
      rewrite verify_possession_ok. simpl. naive_solver.
Qed.

(** A Home without a route epoch answers with zero, so a verifier that accepted it before
    refuses it: no epoch is below zero. *)
Lemma unversioned_home_stale signer c pch known now' :
  verify_possession (answer_possession signer (identity_of c None) pch) c pch (Some known) now' ≠ Ok ().
Proof.
  intros (Ha & _ & _ & Hk & _)%verify_possession_ok. specialize (Hk known eq_refl).
  apply (f_equal pa_route_epoch) in Ha. simpl in Ha. lia.
Qed.

End registration_theorems.
End Registration.

Module Preparation.

Definition HANDOFF_PREPARATION_VERSION : N := 1.

Inductive PreparationError :=
| NotPermitted | TenantMismatch | PersonalProjectNotTransferable | StaleHomeBasis
| TargetNotRegistered | TargetPossessionStale | TargetNotEligible | AlreadyHome.

Record HandoffRequest := mkRequest {
  hr_version : N; (* u8 *)
  hr_tenant_id : string;
  hr_project_id : string;
  hr_expected_current_home_id : string;
  hr_target_home_id : string;
  hr_requested_by : string;
}.

Record CurrentFacts := mkFacts {
  actor_may_move_projects : bool;
  project_tenant_id : string;
  project_is_personal : bool;
  project_current_home_id : string;
  target_tenant_id : string;
  target_registered : bool;
  target_possession_current : bool;
  target_accepts_placement : bool;
}.

Record HandoffIntent := mkIntent {
  in_version : N; (* u8 *)
  in_intent_id : string;
  in_tenant_id : string;
  in_project_id : string;
  in_origin_home_id : string;
  in_target_home_id : string;
}.

Section preparation.
Context `{SignedTexts}.

(** What [intent_id] hashes: each part followed by a zero byte. *)
Definition intent_preimage (r : HandoffRequest) (origin : string) : list N :=
  ["gaugedesk-project-home-handoff.v1"; hr_tenant_id r; hr_project_id r; origin; hr_target_home_id r]
    ≫= λ part, bytes_of part ++ [0%N].

Definition intent_id (r : HandoffRequest) (origin : string) : string := hex_encode (sha256 (intent_preimage r origin)).

Definition prepare (r : HandoffRequest) (facts : CurrentFacts) : result PreparationError HandoffIntent :=
  try! unless (negb (hr_version r =? HANDOFF_PREPARATION_VERSION)%N) TenantMismatch;
  try! unless (negb (actor_may_move_projects facts)) NotPermitted;
  try! unless (neqb (project_tenant_id facts) (hr_tenant_id r) || neqb (target_tenant_id facts) (hr_tenant_id r))
         TenantMismatch;
  try! unless (project_is_personal facts) PersonalProjectNotTransferable;
  try! unless (neqb (project_current_home_id facts) (hr_expected_current_home_id r)) StaleHomeBasis;
  try! unless (String.eqb (project_current_home_id facts) (hr_target_home_id r)) AlreadyHome;
  try! unless (negb (target_registered facts)) TargetNotRegistered;
  try! unless (negb (target_possession_current facts)) TargetPossessionStale;
  try! unless (negb (target_accepts_placement facts)) TargetNotEligible;
  Ok (mkIntent HANDOFF_PREPARATION_VERSION (intent_id r (project_current_home_id facts)) (hr_tenant_id r)
        (hr_project_id r) (project_current_home_id facts) (hr_target_home_id r)).

Context `{!SignedTextLaws _}.

(** A text without a zero byte, as every identifier is. *)
Definition no_nul (s : string) : Prop := 0%N ∉ bytes_of s.

Lemma nul_terminated_inj (a b : list N) x y :
  0%N ∉ a → 0%N ∉ b → a ++ 0%N :: x = b ++ 0%N :: y → a = b ∧ x = y.
Proof.
  revert b. induction a as [|n a IH]; intros [|m b]; simpl; intros Ha Hb Heq; simplify_eq; [done|set_solver..|].
  destruct (IH b) as [-> ->]; [set_solver..|done|done].
Qed.

(** A handoff is prepared exactly on current facts. The intent is the request's
    subject moved from the Home the project is on, given exactly when the actor may move
    projects, both sides are the request's tenant, the project is not personal and lives
    where the page believed, elsewhere than the target, and the target is registered,
    currently reachable and accepting; who asked does not matter, so a retry is the same
    intent, and two intents with one id are one subject, or SHA-256 collides on the two. *)
Theorem preparation_exact r facts :
  (∀ i, prepare r facts = Ok i ↔
     i = mkIntent HANDOFF_PREPARATION_VERSION (intent_id r (project_current_home_id facts)) (hr_tenant_id r)
           (hr_project_id r) (project_current_home_id facts) (hr_target_home_id r)
     ∧ hr_version r = HANDOFF_PREPARATION_VERSION ∧ actor_may_move_projects facts = true
     ∧ project_tenant_id facts = hr_tenant_id r ∧ target_tenant_id facts = hr_tenant_id r
     ∧ project_is_personal facts = false ∧ project_current_home_id facts = hr_expected_current_home_id r
     ∧ project_current_home_id facts ≠ hr_target_home_id r ∧ target_registered facts = true
     ∧ target_possession_current facts = true ∧ target_accepts_placement facts = true)
  ∧ ∀ r' facts' i i', prepare r facts = Ok i → prepare r' facts' = Ok i' →
      Forall no_nul [hr_tenant_id r; hr_project_id r; project_current_home_id facts; hr_target_home_id r;
                     hr_tenant_id r'; hr_project_id r'; project_current_home_id facts'; hr_target_home_id r'] →
      in_intent_id i = in_intent_id i' →
      i = i' ∨ collides (intent_preimage r (project_current_home_id facts)) (intent_preimage r' (project_current_home_id facts')).
Proof.
  assert (∀ r facts i, prepare r facts = Ok i ↔
     i = mkIntent HANDOFF_PREPARATION_VERSION (intent_id r (project_current_home_id facts)) (hr_tenant_id r)
           (hr_project_id r) (project_current_home_id facts) (hr_target_home_id r)
     ∧ hr_version r = HANDOFF_PREPARATION_VERSION ∧ actor_may_move_projects facts = true
     ∧ project_tenant_id facts = hr_tenant_id r ∧ target_tenant_id facts = hr_tenant_id r
     ∧ project_is_personal facts = false ∧ project_current_home_id facts = hr_expected_current_home_id r
     ∧ project_current_home_id facts ≠ hr_target_home_id r ∧ target_registered facts = true
     ∧ target_possession_current facts = true ∧ target_accepts_placement facts = true) as Hspec.
  { clear. intros r facts i. unfold prepare. read_checks. rewrite String.eqb_neq. naive_solver. }
  split; [apply Hspec|]. intros r' facts' i i' (-> & _)%Hspec (-> & _)%Hspec Hn Heq. simpl in Heq.
  apply sha256_hex_collision in Heq as [Heq|]; [|by right]. left. rewrite !Forall_cons in Hn.
  unfold intent_preimage in Heq. rewrite !bind_cons, <- !app_assoc in Heq. apply app_inv_head in Heq.
  injection Heq as Heq.
  repeat (apply nul_terminated_inj in Heq as [?%(inj bytes_of) Heq]; [|by apply Hn..]).
  unfold intent_id, intent_preimage. congruence.
Qed.
End preparation.
End Preparation.

Module HostExport.

Definition EXPORT_MANIFEST_VERSION : N := 1.
Definition EXPORT_MANIFEST_DOMAIN : string := "gaugedesk-project-host-export.v1".

Inductive ExportError :=
| UnsupportedVersion | Malformed | BadSignature | ContentDigest | WrongHolder | WrongTenant | ConflictingLiveHome.

Record ManifestEntry := mkEntry { en_kind : string; en_id : string; en_sha256 : string; en_bytes : N (* u64 *) }.

Inductive SignerKind := SelfManaged | OperatorManaged.

Definition signer_kind_str (k : SignerKind) : string :=
  match k with SelfManaged => "self-managed" | OperatorManaged => "operator-managed" end.

Record RecoveryHolder := mkHolder { ho_holder_id : string; ho_recipient_pubkey : string }.

Record ExportManifest := mkManifest {
  ma_version : N; (* u8 *)
  ma_operation_id : string;
  ma_home_id : string;
  ma_tenant_id : string;
  ma_cut_basis : string;
  ma_holder : RecoveryHolder;
  ma_signer_kind : SignerKind;
  ma_entries : list ManifestEntry;
  ma_ciphertext_sha256 : string;
  ma_created_at : N; (* u64 *)
}.

Record SignedExportManifest := mkSignedManifest {
  manifest : ExportManifest;
  source_pubkey : string;
  source_signature : Signature;
}.

Record RestoreTarget := mkTarget { rt_holder_id : string; rt_tenant_id : string; rt_home_is_live : bool }.

Section host_export.
Context `{SignedTexts}.

Definition entry_lines (e : ManifestEntry) : list string :=
  [encode (en_kind e); encode (en_id e); en_sha256 e; pretty (en_bytes e)].

Definition manifest_lines (m : ExportManifest) : list string :=
  [EXPORT_MANIFEST_DOMAIN; pretty (ma_version m); encode (ma_operation_id m); encode (ma_home_id m);
   encode (ma_tenant_id m); encode (ma_cut_basis m); encode (ho_holder_id (ma_holder m));
   ho_recipient_pubkey (ma_holder m); signer_kind_str (ma_signer_kind m); ma_ciphertext_sha256 m;
   pretty (ma_created_at m); pretty (N.of_nat (length (ma_entries m)))]
  ++ (ma_entries m ≫= entry_lines).

Definition manifest_signing_bytes (m : ExportManifest) : list N := joined (manifest_lines m).

Definition manifest_well_formed (m : ExportManifest) : bool :=
  negb (blank (ma_operation_id m)) && negb (blank (ma_home_id m)) && negb (blank (ma_tenant_id m))
  && negb (blank (ma_cut_basis m)) && negb (blank (ho_holder_id (ma_holder m)))
  && negb (blank (ho_recipient_pubkey (ma_holder m))) && negb (blank (ma_ciphertext_sha256 m))
  && negb (bool_decide (length (ma_entries m) = 0))
  && forallb (λ e, negb (blank (en_id e)) && negb (blank (en_sha256 e))) (ma_entries m).

Definition sign_manifest `{!Signing} (signer : P256SigningKey) (m : ExportManifest) : result ExportError SignedExportManifest :=
  try! unless (negb (ma_version m =? EXPORT_MANIFEST_VERSION)%N) UnsupportedVersion;
  try! unless (negb (manifest_well_formed m)) Malformed;
  Ok (mkSignedManifest m (as_str (public_key signer)) (sign signer (manifest_signing_bytes m))).

Definition export_verify_artifact (s : SignedExportManifest) (ciphertext : list N) : result ExportError unit :=
  try! unless (negb (ma_version (manifest s) =? EXPORT_MANIFEST_VERSION)%N) UnsupportedVersion;
  try! unless (negb (manifest_well_formed (manifest s))) Malformed;
  try! match verify_signature (manifest_signing_bytes (manifest s)) (source_signature s) (mkId (source_pubkey s)) with
       | Ok true => Ok ()
       | _ => Err BadSignature
       end;
  unless (neqb (sha256_hex ciphertext) (ma_ciphertext_sha256 (manifest s))) ContentDigest.

Definition verify_restore_admission (s : SignedExportManifest) (t : RestoreTarget) : result ExportError unit :=
  try! unless (negb (ma_version (manifest s) =? EXPORT_MANIFEST_VERSION)%N) UnsupportedVersion;
  try! unless (neqb (ho_holder_id (ma_holder (manifest s))) (rt_holder_id t)) WrongHolder;
  try! unless (neqb (ma_tenant_id (manifest s)) (rt_tenant_id t)) WrongTenant;
  unless (rt_home_is_live t) ConflictingLiveHome.

Definition verify_entry (s : SignedExportManifest) (id : string) (plaintext : list N) : result ExportError unit :=
  let? e := ok_or (List.find (λ e, String.eqb (en_id e) id) (ma_entries (manifest s))) Malformed in
  unless (neqb (en_sha256 e) (sha256_hex plaintext) || negb (en_bytes e =? N.of_nat (length plaintext))%N) ContentDigest.

Context `{!SignedTextLaws _}.

(** The keys and digests the manifest names are one line each. *)
Definition manifest_clean (m : ExportManifest) : Prop :=
  single_line (ho_recipient_pubkey (ma_holder m)) ∧ single_line (ma_ciphertext_sha256 m)
  ∧ Forall (λ e, single_line (en_sha256 e)) (ma_entries m).

Lemma entries_inj es es' : es ≫= entry_lines = es' ≫= entry_lines → es = es'.
Proof.
  revert es'. induction es as [|e es IH]; intros [|e' es']; simpl; [done..|]. intros Heq. same_lines Heq.
  destruct e, e'; simpl in *; subst. f_equal. by apply IH.
Qed.

Lemma manifest_text_inj m m' :
  manifest_clean m → manifest_clean m' → manifest_signing_bytes m = manifest_signing_bytes m' → m = m'.
Proof.
  assert (∀ m, manifest_clean m → Forall single_line (manifest_lines m)) as Hl.
  { intros d (Hk & Hc & He). unfold manifest_lines. apply Forall_app. split.
    - rewrite !Forall_cons. split_and!; first [solve [eauto with lines]|by destruct (ma_signer_kind d)].
    - apply Forall_bind. eapply Forall_impl; [exact He|]. intros e Hs. unfold entry_lines. simpl.
      rewrite !Forall_cons. split_and!; first [solve [eauto with lines]|done]. }
  intros Hm Hm' Heq. apply joined_inj in Heq; [|done..|by apply Hl|by apply Hl].
  unfold manifest_lines in Heq. same_lines Heq.
  destruct m as [? ? ? ? ? [] [] ? ? ?], m' as [? ? ? ? ? [] [] ? ? ?]; simpl in *; try done; subst;
    f_equal; by apply entries_inj.
Qed.

Lemma export_artifact_ok s ciphertext :
  export_verify_artifact s ciphertext = Ok () ↔
  ma_version (manifest s) = EXPORT_MANIFEST_VERSION ∧ manifest_well_formed (manifest s) = true
  ∧ verify_signature (manifest_signing_bytes (manifest s)) (source_signature s) (mkId (source_pubkey s)) = Ok true
  ∧ sha256_hex ciphertext = ma_ciphertext_sha256 (manifest s).
Proof.
  unfold export_verify_artifact. read_checks. rewrite try_unit, unless_ok, neqb_false.
  destruct (verify_signature _ _ _) as [[]|]; naive_solver.
Qed.

Lemma verify_entry_ok s e plaintext :
  NoDup (en_id <$> ma_entries (manifest s)) → e ∈ ma_entries (manifest s) →
  (verify_entry s (en_id e) plaintext = Ok () ↔
     en_sha256 e = sha256_hex plaintext ∧ en_bytes e = N.of_nat (length plaintext)).
Proof.
  intros Hnd He. unfold verify_entry.
  assert (List.find (λ e', String.eqb (en_id e') (en_id e)) (ma_entries (manifest s)) = Some e) as ->.
  { revert Hnd He. generalize (ma_entries (manifest s)). intros l. induction l as [|e' l IH]; simpl; intros Hnd He; [set_solver|].
    apply NoDup_cons in Hnd as [Hn Hnd]. destruct (String.eqb_spec (en_id e') (en_id e)) as [Heq|Hne].
    - apply elem_of_cons in He as [->|He]; [done|]. destruct Hn. rewrite Heq. by apply list_elem_of_fmap_2.
    - apply IH; [done|]. apply elem_of_cons in He as [->|He]; done. }
  simpl. by read_checks.
Qed.

(** A restore imports the cut that was signed, at the holder and tenant it was sealed
    for, and never over a live Home. When artifact and admission are accepted, the source
    signed the manifest, the ciphertext is the only one it accepts unless SHA-256
    collides, each entry is accepted with exactly the bytes of its digest and length,
    and another accepted manifest with the same signed text is this manifest, as far as
    the keys and digests the two name are single lines. *)
Theorem restore_exact s ciphertext t :
  export_verify_artifact s ciphertext = Ok () → verify_restore_admission s t = Ok () →
  verify_signature (manifest_signing_bytes (manifest s)) (source_signature s) (mkId (source_pubkey s)) = Ok true
  ∧ ho_holder_id (ma_holder (manifest s)) = rt_holder_id t ∧ ma_tenant_id (manifest s) = rt_tenant_id t
  ∧ rt_home_is_live t = false
  ∧ (∀ other, export_verify_artifact s other = Ok () →
       other = ciphertext ∨ (other ≠ ciphertext ∧ sha256 other = sha256 ciphertext))
  ∧ (NoDup (en_id <$> ma_entries (manifest s)) → ∀ e plaintext, e ∈ ma_entries (manifest s) →
       (verify_entry s (en_id e) plaintext = Ok () ↔
          en_sha256 e = sha256_hex plaintext ∧ en_bytes e = N.of_nat (length plaintext)))
  ∧ (∀ s' other, export_verify_artifact s' other = Ok () →
       manifest_clean (manifest s) → manifest_clean (manifest s') →
       manifest_signing_bytes (manifest s) = manifest_signing_bytes (manifest s') → manifest s = manifest s').
Proof.
  intros (Hv & Hwf & Hs & Hd)%export_artifact_ok Ha. unfold verify_restore_admission in Ha.
  autorewrite with text_checks in Ha. destruct_and!. split_and!; try done.
  - intros other (_ & _ & _ & Ho)%export_artifact_ok. apply sha256_hex_collision. congruence.
  - intros Hnd e plaintext He. by apply verify_entry_ok.
  - intros s' other _ Hc Hc'. by apply manifest_text_inj.
Qed.
End host_export.

(** The recipient key and the digests of the entries are written as they are: with line
    feeds in them one signed text is that of two manifests, of different signer kinds. *)
Module Ambiguous.
Import SampleTexts.
Definition lines (l : list string) : string := String.concat (String lf "") l.
Definition operator_cut : ExportManifest :=
  mkManifest 1 "op" "home" "tenant" "cut" (mkHolder "holder" "key") OperatorManaged
    [mkEntry "log" "a" (lines ["x"; "self-managed"; "digest"; "7"; "1"; encode "content"; encode "b"; "y"]) 9]
    "sealed" 5.
Definition tenant_cut : ExportManifest :=
  mkManifest 1 "op" "home" "tenant" "cut"
    (mkHolder "holder" (lines ["key"; "operator-managed"; "sealed"; "5"; "1"; encode "log"; encode "a"; "x"])) SelfManaged
    [mkEntry "content" "b" "y" 9] "digest" 7.
Example one_text_two_signers :
  manifest_signing_bytes operator_cut = manifest_signing_bytes tenant_cut
  ∧ manifest_well_formed operator_cut = true ∧ manifest_well_formed tenant_cut = true.
Proof. vm_compute. done. Qed.
End Ambiguous.
End HostExport.

(** ** Concrete ceremonies *)

Import SampleTexts.

Module SampleHost.
Definition home : P256SigningKey := true.
Definition host_claim : Registration.HostClaim :=
  Registration.mkHostClaim 1 "home" (as_str (public_key home)) "tenant" "c1" "n1" "route" 4 "pin"
    ["accept-handoff"; "serve-export"] 10 100.
Definition challenge : Registration.RegistrationChallenge :=
  Registration.mkRegistrationChallenge 1 "c1" "tenant" "admin" "label" "n1" 10 50.
Definition probe : Registration.PossessionChallenge := Registration.mkPossessionChallenge 1 "p1" "n2" 20 60.
Definition signed_claim : Registration.SignedHostClaim :=
  Registration.mkSignedClaim host_claim (sign home (Registration.claim_signing_bytes host_claim)).
Definition answer : Registration.PossessionAnswer :=
  Registration.answer_possession home (Registration.identity_of host_claim (Some 4%N)) probe.
Definition write_challenge (c : Registration.PossessionChallenge) : option (list N) :=
  if bool_decide (Registration.pc_challenge_id c = "p1") then Some [1%N] else None.

(** The claim ends at 100, the challenge it answers at 50. *)
Example outliving_claim_accepted :
  (Registration.rc_expires_at challenge < Registration.hc_expires_at host_claim)%N
  ∧ Registration.verify_claim signed_claim challenge 20 = Ok ().
Proof. split; vm_compute; reflexivity. Qed.
End SampleHost.

Lemma registration_exact_witness :
  SampleHost.answer = Registration.restated SampleHost.host_claim SampleHost.probe
    (Registration.pa_signature SampleHost.answer).
Proof.
  destruct (Registration.registration_exact SampleHost.signed_claim SampleHost.challenge 20 SampleHost.answer
    SampleHost.probe (Some 3%N) 30) as [[Hok _] _].
  destruct Hok as (_ & _ & Ha & _); [split; vm_compute; reflexivity|exact Ha].
Defined.

Lemma preparation_exact_witness :
  let r := Preparation.mkRequest 1 "t" "p" "h1" "h2" "admin" in
  let facts := Preparation.mkFacts true "t" false "h1" "t" true true true in
  ∃ i, Preparation.prepare r facts = Ok i ∧ Preparation.in_origin_home_id i = "h1".
Proof.
  intros r facts. destruct (Preparation.preparation_exact r facts) as [Hspec _].
  eexists. split; [apply Hspec; split_and!; try reflexivity; discriminate|reflexivity].
Defined.

Lemma restore_exact_witness :
  let m := HostExport.mkManifest 1 "op" "home" "t" "cut" (HostExport.mkHolder "h" "aa") HostExport.SelfManaged
    [HostExport.mkEntry "log" "a" (sha256_hex [1%N]) 1] (sha256_hex [5%N; 6%N]) 9 in
  let s := HostExport.mkSignedManifest m (as_str (public_key SampleHost.home))
    (sign SampleHost.home (HostExport.manifest_signing_bytes m)) in
  HostExport.verify_entry s "a" [1%N] = Ok ().
Proof.
  intros m s. destruct (HostExport.restore_exact s [5%N; 6%N] (HostExport.mkTarget "h" "t" false))
    as (_ & _ & _ & _ & _ & He & _); [vm_compute; reflexivity..|].
  apply (He ltac:(apply NoDup_singleton) (HostExport.mkEntry "log" "a" (sha256_hex [1%N]) 1) [1%N]);
    [by left|split; reflexivity].
Defined.
