(* ===== verification/AgentRelease.v ===== *)
(** * Agent releases

    [crates/core/src/agent_release.rs]: the immutable publication artifact of a public
    session, its validation, its signed envelope and what a host checks before it
    activates one. Canonical CBOR is an argument. *)

From Stdlib Require Import Ascii.
From S2P Require Import Prelude Ids Federation SignedText.

Definition AGENT_RELEASE_SCHEMA : string := "gaugedesk.agent_release.v1".
Definition AGENT_RELEASE_MEDIA_TYPE : string := "application/vnd.gaugedesk.agent-release+cbor;v=1".
Definition AGENT_RELEASE_SIGNATURE_ALGORITHM : string := "p256-sha256".
Definition AGENT_RELEASE_HASH_ALGORITHM : string := "sha256".
Definition MAX_COLLECTION_ARTIFACT_BYTES : N := 8388608.

Record ReleaseFile := mkFile { path : string; file_media_type : string; file_sha256 : string; file_bytes : list N }.

Record CollectionPolicy := mkCollection {
  exportable_paths : list string;
  transcript_eligible : bool;
  schema_ref : string;
  recipient_class : string;
  max_artifact_bytes : N; (* u64 *)
}.

Record HostPolicyClosure := mkHostPolicy {
  hp_epoch : N; (* u64 *)
  signed_envelope : string;
  expected_signer : string;
  signer_public_key_hex : string;
  provider_binding_ref : string;
  hp_credential_class : string;
  placement_ref : string;
}.

Record RuntimeCompatibility := mkRuntime {
  host_protocol : string;
  runtime_abi : string;
  required_host_capabilities : gset string;
}.

Record PackageClosure := mkPackageClosure { version_ref : string; entrypoint : string; package_files : list ReleaseFile }.

Record PersonaClosure := mkPersona { system_prompt : string; instructions : list ReleaseFile }.

Record CapabilityManifest := mkCapabilities { required : gset string; ceiling : gset string }.

Inductive AttributionPolicy := GaugeWright | WhiteLabelEligible.

Record PanelManifest := mkPanels { components : gset string; default_component : string; attribution : AttributionPolicy }.

Record ProviderPolicy := mkProvider {
  provider_id : string;
  model : string;
  base_url : string;
  pp_credential_class : string;
  max_input_tokens : option N; (* u64 *)
  max_output_tokens : option N; (* u64 *)
}.

Record RetentionPolicy := mkRetention {
  idle_ttl_seconds : N; (* u64 *)
  absolute_ttl_seconds : N; (* u64 *)
  transcript_retained : bool;
  workspace_retained : bool;
}.

Record AgentRelease := mkAgentRelease {
  schema : string;
  published_at_unix_ms : N; (* u64 *)
  source_revision : string;
  runtime : RuntimeCompatibility;
  host_policy : HostPolicyClosure;
  package : PackageClosure;
  persona : PersonaClosure;
  initial_workspace : list ReleaseFile;
  capabilities : CapabilityManifest;
  panels : PanelManifest;
  audience_inputs : gset string;
  provider : ProviderPolicy;
  retention : RetentionPolicy;
  collection : option CollectionPolicy;
}.

Record SignedAgentRelease := mkSignedRelease {
  media_type : string;
  payload_sha256 : string;
  signer_key_id : string;
  signer_public_key : PublicKey;
  signature_algorithm : string;
  release_signature : Signature;
  payload : AgentRelease;
}.

Record PublicDoRuntimeSupport := mkSupport {
  sup_host_protocol : string;
  sup_runtime_abi : string;
  host_capabilities : gset string;
  providers : gset string;
  panel_components : gset string;
}.

Inductive AgentReleaseError :=
| Encoding | Invalid (why : string) | DigestMismatch | InvalidPublicKey | SignatureMismatch
| UnsupportedHostProtocol | UnsupportedRuntimeAbi | UnsupportedHostCapability (c : string)
| UnsupportedProvider (p : string) | UnsupportedPanel (p : string).

Definition default_audience_inputs : gset string := {["text"]}.

(** A [BTreeSet] is iterated in order. *)
Definition set_iter (m : gset string) : list string := merge_sort String.le (elements m).

(** ** Checks on text and paths *)

Definition required_text (value why : string) : result AgentReleaseError unit :=
  unless (blank value || has_control (bytes_of value)) (Invalid why).

Fixpoint starts_with (p s : string) : bool :=
  match p, s with
  | EmptyString, _ => true
  | String a p, String b s => Ascii.eqb a b && starts_with p s
  | String _ _, EmptyString => false
  end.

Fixpoint contains (p s : string) : bool :=
  starts_with p s || match s with String _ s => contains p s | EmptyString => false end.

(** [path.strip_suffix("/*").unwrap_or(path)] *)
Fixpoint strip_star (s : string) : string :=
  match s with
  | String "/" (String "*" EmptyString) => EmptyString
  | String c s => String c (strip_star s)
  | EmptyString => EmptyString
  end.

Definition valid_release_path (p : string) : result AgentReleaseError unit :=
  unless (empty p || starts_with "/" p || starts_with "./" p || contains_char "\" p
          || existsb (λ part, empty part || String.eqb part "..") (split_on "/" p))
    (Invalid "release file path is unsafe").

Definition bounded_selector (p : string) : result AgentReleaseError unit :=
  let selector := strip_star p in
  unless (empty selector || starts_with "/" selector || contains_char "\" selector || contains "**" selector
          || existsb (λ part, empty part || String.eqb part "." || String.eqb part "..") (split_on "/" selector))
    (Invalid "collection exportable path is not a bounded relative selector").

Section release.
Context `{SignedTexts}.

(** [ciborium::into_writer] *)
Context (cbor : AgentRelease → option (list N)).

Definition new_file (p media : string) (bytes : list N) : ReleaseFile := mkFile p media (sha256_hex bytes) bytes.

Fixpoint files_from (paths : gset string) (files : list ReleaseFile) : result AgentReleaseError unit :=
  match files with
  | [] => Ok ()
  | f :: files =>
      try! valid_release_path (path f);
      try! required_text (file_media_type f) "file media type is required";
      try! unless (bool_decide (path f ∈ paths)) (Invalid "release closure contains a duplicate path");
      try! unless (neqb (sha256_hex (file_bytes f)) (file_sha256 f)) (Invalid "release file digest does not match its bytes");
      files_from ({[path f]} ∪ paths) files
  end.

Definition validate_files (files : list ReleaseFile) : result AgentReleaseError unit := files_from ∅ files.

Definition validate_host_policy (p : HostPolicyClosure) : result AgentReleaseError unit :=
  try! unless (hp_epoch p =? 0)%N (Invalid "host policy epoch is invalid");
  try! required_text (signed_envelope p) "signed host policy is required";
  try! required_text (expected_signer p) "host policy signer is required";
  try! required_text (signer_public_key_hex p) "host policy public key is required";
  try! required_text (provider_binding_ref p) "provider binding reference is required";
  try! required_text (hp_credential_class p) "credential class is required";
  required_text (placement_ref p) "placement reference is required".

Definition validate_package (p : PackageClosure) : result AgentReleaseError unit :=
  try! required_text (version_ref p) "package version is required";
  try! valid_release_path (entrypoint p);
  try! unless (bool_decide (length (package_files p) = 0)) (Invalid "package closure is empty");
  try! validate_files (package_files p);
  unless (negb (existsb (λ f, String.eqb (path f) (entrypoint p)) (package_files p)))
    (Invalid "package entrypoint is absent from the closure").

Definition validate_collection (c : CollectionPolicy) : result AgentReleaseError unit :=
  try! unless (bool_decide (length (exportable_paths c) = 0) && negb (transcript_eligible c))
         (Invalid "collection declares nothing eligible to leave the session");
  try! try_each bounded_selector (exportable_paths c);
  try! required_text (schema_ref c) "collection schema is required";
  try! required_text (recipient_class c) "collection recipient class is required";
  unless ((max_artifact_bytes c =? 0)%N || bool_decide (MAX_COLLECTION_ARTIFACT_BYTES < max_artifact_bytes c)%N)
    (Invalid "collection artifact bound is outside the permitted range").

Definition validate_panels (p : PanelManifest) : result AgentReleaseError unit :=
  try! unless (bool_decide (components p = ∅) || negb (bool_decide (default_component p ∈ components p)))
         (Invalid "default panel is not in the panel manifest");
  try_each (λ c, required_text c "panel component is empty") (set_iter (components p)).

Definition validate_inputs (inputs : gset string) : result AgentReleaseError unit :=
  try! unless (bool_decide (inputs = ∅)) (Invalid "at least one audience input class is required");
  try_each (λ i, unless (neqb i "text") (Invalid "audience input class is unsupported by the public host"))
    (set_iter inputs).

Definition validate_provider (p : ProviderPolicy) : result AgentReleaseError unit :=
  try! required_text (provider_id p) "provider is required";
  try! required_text (model p) "provider model is required";
  try! required_text (base_url p) "provider base URL is required";
  try! required_text (pp_credential_class p) "provider credential class is required";
  unless (bool_decide (max_input_tokens p = Some 0%N) || bool_decide (max_output_tokens p = Some 0%N))
    (Invalid "provider token ceilings must be non-zero").

Definition validate_shape (r : AgentRelease) : result AgentReleaseError unit :=
  try! unless (neqb (schema r) AGENT_RELEASE_SCHEMA) (Invalid "unsupported schema");
  try! required_text (source_revision r) "source revision is required";
  try! required_text (host_protocol (runtime r)) "host protocol is required";
  try! required_text (runtime_abi (runtime r)) "runtime ABI is required";
  try! validate_host_policy (host_policy r);
  try! validate_package (package r);
  try! validate_files (instructions (persona r));
  try! validate_files (initial_workspace r);
  try! unless (negb (bool_decide (required (capabilities r) ⊆ ceiling (capabilities r))))
         (Invalid "required capability exceeds the release ceiling");
  try! match collection r with Some c => validate_collection c | None => Ok () end;
  try! validate_panels (panels r);
  try! validate_inputs (audience_inputs r);
  try! validate_provider (provider r);
  unless ((idle_ttl_seconds (retention r) =? 0)%N
          || bool_decide (absolute_ttl_seconds (retention r) < idle_ttl_seconds (retention r))%N)
    (Invalid "retention TTLs are inconsistent").

Definition canonical_bytes (r : AgentRelease) : result AgentReleaseError (list N) := ok_or (cbor r) Encoding.

Definition content_hash (r : AgentRelease) : result AgentReleaseError string :=
  let? bytes := canonical_bytes r in
  Ok (AGENT_RELEASE_HASH_ALGORITHM +:+ ":" +:+ sha256_hex bytes).

Definition sign_release `{!Signing} (r : AgentRelease) (key_id : string) (key : P256SigningKey)
    : result AgentReleaseError SignedAgentRelease :=
  try! validate_shape r;
  let? bytes := canonical_bytes r in
  Ok (mkSignedRelease AGENT_RELEASE_MEDIA_TYPE (sha256_hex bytes) key_id (public_key key)
        AGENT_RELEASE_SIGNATURE_ALGORITHM (sign key bytes) r).

Definition release_id (s : SignedAgentRelease) : string := AGENT_RELEASE_HASH_ALGORITHM +:+ ":" +:+ payload_sha256 s.

Definition verify_release (s : SignedAgentRelease) (support : PublicDoRuntimeSupport) : result AgentReleaseError unit :=
  let r := payload s in
  try! unless (neqb (media_type s) AGENT_RELEASE_MEDIA_TYPE
               || neqb (signature_algorithm s) AGENT_RELEASE_SIGNATURE_ALGORITHM || blank (signer_key_id s))
         (Invalid "signed envelope metadata is invalid");
  try! validate_shape r;
  let? bytes := canonical_bytes r in
  try! unless (neqb (sha256_hex bytes) (payload_sha256 s)) DigestMismatch;
  try! match verify_signature bytes (release_signature s) (signer_public_key s) with
       | Ok true => Ok ()
       | Ok false => Err SignatureMismatch
       | Err _ => Err InvalidPublicKey
       end;
  try! unless (neqb (host_protocol (runtime r)) (sup_host_protocol support)) UnsupportedHostProtocol;
  try! unless (neqb (runtime_abi (runtime r)) (sup_runtime_abi support)) UnsupportedRuntimeAbi;
  try! match head (set_iter (required_host_capabilities (runtime r) ∖ host_capabilities support)) with
       | Some c => Err (UnsupportedHostCapability c)
       | None => Ok ()
       end;
  try! unless (negb (bool_decide (provider_id (provider r) ∈ providers support)))
         (UnsupportedProvider (provider_id (provider r)));
  match head (set_iter (components (panels r) ∖ panel_components support)) with
  | Some p => Err (UnsupportedPanel p)
  | None => Ok ()
  end.

End release.

(** ** What validation means *)

Definition text_ok (s : string) : Prop := blank s = false ∧ has_control (bytes_of s) = false.

(** A path inside the release: relative, its segments neither empty nor [..]. *)
Definition path_ok (p : string) : Prop :=
  p ≠ "" ∧ starts_with "/" p = false ∧ starts_with "./" p = false ∧ contains_char "\" p = false
  ∧ ∀ part, part ∈ split_on "/" p → part ≠ "" ∧ part ≠ "..".

Definition selector_ok (p : string) : Prop :=
  let s := strip_star p in
  s ≠ "" ∧ starts_with "/" s = false ∧ contains_char "\" s = false ∧ contains "**" s = false
  ∧ ∀ part, part ∈ split_on "/" s → part ≠ "" ∧ part ≠ "." ∧ part ≠ "..".

Lemma existsb_false {A} (f : A → bool) l : existsb f l = false ↔ ∀ x, x ∈ l → f x = false.
Proof.
  rewrite <- not_true_iff_false, existsb_exists. setoid_rewrite <- list_elem_of_In.
  setoid_rewrite <- not_true_iff_false. naive_solver.
Qed.

Lemma required_text_ok s why : required_text s why = Ok () ↔ text_ok s.
Proof. unfold required_text, text_ok. by read_checks. Qed.

Lemma valid_release_path_ok p : valid_release_path p = Ok () ↔ path_ok p.
Proof.
  unfold valid_release_path, path_ok. read_checks. rewrite existsb_false.
  setoid_rewrite orb_false_iff. setoid_rewrite empty_false. setoid_rewrite String.eqb_neq. naive_solver.
Qed.

Lemma bounded_selector_ok p : bounded_selector p = Ok () ↔ selector_ok p.
Proof.
  unfold bounded_selector, selector_ok. cbv zeta. read_checks. rewrite existsb_false.
  setoid_rewrite orb_false_iff. setoid_rewrite orb_false_iff. setoid_rewrite empty_false.
  setoid_rewrite String.eqb_neq. naive_solver.
Qed.

Lemma elem_of_set_iter s m : s ∈ set_iter m ↔ s ∈ m.
Proof. unfold set_iter. by rewrite merge_sort_Permutation, elem_of_elements. Qed.

Lemma try_each_iff {E A} (f : A → result E unit) l : try_each f l = Ok () ↔ ∀ x, x ∈ l → f x = Ok ().
Proof.
  induction l as [|x l IH]; simpl; [set_solver|]. setoid_rewrite elem_of_cons.
  destruct (f x) as [[]|e] eqn:Hf; [rewrite IH; naive_solver|]. split; [done|]. intros Hall.
  rewrite (Hall x) in Hf by auto. done.
Qed.

Lemma head_none_iff (m : gset string) : head (set_iter m) = None ↔ m = ∅.
Proof.
  split.
  - intros Hh. apply set_eq. intros x. rewrite <- elem_of_set_iter. destruct (set_iter m); [set_solver|done].
  - intros ->. unfold set_iter. by rewrite elements_empty.
Qed.

Section theorems.
Context `{SignedTextLaws} (cbor : AgentRelease → option (list N)).

Record files_ok (files : list ReleaseFile) : Prop := {
  fo_distinct : NoDup (path <$> files);
  fo_paths : ∀ f, f ∈ files → path_ok (path f);
  fo_media : ∀ f, f ∈ files → text_ok (file_media_type f);
  fo_digests : ∀ f, f ∈ files → file_sha256 f = sha256_hex (file_bytes f);
}.

Lemma validate_files_ok files : validate_files files = Ok () ↔ files_ok files.
Proof.
  assert (∀ paths, files_from paths files = Ok () ↔ files_ok files ∧ ∀ f, f ∈ files → path f ∉ paths) as Hgen.
  { induction files as [|f files IH]; intros paths; simpl.
    { split; [|done]. intros _. split; [|set_solver]. split; [constructor|set_solver..]. }
    rewrite !try_unit, valid_release_path_ok, required_text_ok, !unless_ok, bool_decide_eq_false, neqb_false, IH.
    split.
    - intros (Hp & Hm & Hn & Hd & [[Hnd H2 H3 H4] Hout]). split; [|set_solver].
      split; [|setoid_rewrite elem_of_cons; naive_solver..]. simpl. apply NoDup_cons. split; [|done].
      intros (g & Heq & Hg)%list_elem_of_fmap. apply (Hout g Hg). rewrite <- Heq. set_solver.
    - intros [[Hnd H2 H3 H4] Hout]. simpl in Hnd. apply NoDup_cons in Hnd as [Hn Hnd].
      split_and!; [apply H2; set_solver|apply H3; set_solver|apply Hout; set_solver|symmetry; apply H4; set_solver| |].
      + split; [done|intros g Hg; (apply H2 || apply H3 || apply H4); set_solver..].
      + intros g Hg. rewrite not_elem_of_union, not_elem_of_singleton. split; [|apply Hout; set_solver].
        intros Heq. apply Hn. rewrite <- Heq. by apply list_elem_of_fmap_2. }
  unfold validate_files. rewrite Hgen. set_solver.
Qed.

Record collection_ok (c : CollectionPolicy) : Prop := {
  co_something : exportable_paths c ≠ [] ∨ transcript_eligible c = true;
  co_selectors : ∀ p, p ∈ exportable_paths c → selector_ok p;
  co_named : text_ok (schema_ref c) ∧ text_ok (recipient_class c);
  co_bound : (0 < max_artifact_bytes c ≤ MAX_COLLECTION_ARTIFACT_BYTES)%N;
}.

Lemma validate_collection_ok c : validate_collection c = Ok () ↔ collection_ok c.
Proof.
  unfold validate_collection.
  rewrite !try_unit, try_each_iff, !required_text_ok, !unless_ok, andb_false_iff, bool_decide_eq_false,
    negb_false_iff, orb_false_iff, nlt_false, N.eqb_neq.
  setoid_rewrite bounded_selector_ok. rewrite length_zero_iff_nil. split.
  - intros (? & ? & ? & ? & ? & ?). split; try done. lia.
  - intros [? ? [? ?] ?]. split_and!; try done; lia.
Qed.

(** The whole of [validate_shape]. *)
Record release_wf (r : AgentRelease) : Prop := {
  wf_schema : schema r = AGENT_RELEASE_SCHEMA;
  wf_texts : Forall text_ok [source_revision r; host_protocol (runtime r); runtime_abi (runtime r);
    signed_envelope (host_policy r); expected_signer (host_policy r); signer_public_key_hex (host_policy r);
    provider_binding_ref (host_policy r); hp_credential_class (host_policy r); placement_ref (host_policy r);
    version_ref (package r); provider_id (provider r); model (provider r); base_url (provider r);
    pp_credential_class (provider r)];
  wf_epoch : hp_epoch (host_policy r) ≠ 0%N;
  wf_entry : path_ok (entrypoint (package r)) ∧ entrypoint (package r) ∈ path <$> package_files (package r);
  wf_files : Forall files_ok [package_files (package r); instructions (persona r); initial_workspace r];
  wf_ceiling : required (capabilities r) ⊆ ceiling (capabilities r);
  wf_collection : ∀ c, collection r = Some c → collection_ok c;
  wf_panels : default_component (panels r) ∈ components (panels r) ∧ ∀ c, c ∈ components (panels r) → text_ok c;
  wf_inputs : audience_inputs r = {["text"]};
  wf_tokens : max_input_tokens (provider r) ≠ Some 0%N ∧ max_output_tokens (provider r) ≠ Some 0%N;
  wf_retention : (0 < idle_ttl_seconds (retention r) ≤ absolute_ttl_seconds (retention r))%N;
}.

Lemma validate_host_policy_ok p :
  validate_host_policy p = Ok () ↔ hp_epoch p ≠ 0%N
    ∧ Forall text_ok [signed_envelope p; expected_signer p; signer_public_key_hex p; provider_binding_ref p;
                      hp_credential_class p; placement_ref p].
Proof.
  unfold validate_host_policy. rewrite !try_unit, unless_ok, N.eqb_neq, !required_text_ok, !Forall_cons. naive_solver.
Qed.

Lemma validate_package_ok p :
  validate_package p = Ok () ↔ text_ok (version_ref p) ∧ path_ok (entrypoint p) ∧ files_ok (package_files p)
    ∧ entrypoint p ∈ path <$> package_files p.
Proof.
  unfold validate_package.
  rewrite !try_unit, !unless_ok, required_text_ok, valid_release_path_ok, validate_files_ok, negb_false_iff,
    existsb_exists, bool_decide_eq_false, length_zero_iff_nil, list_elem_of_fmap.
  setoid_rewrite String.eqb_eq. setoid_rewrite <- list_elem_of_In. split; [naive_solver|].
  intros (? & ? & ? & f & ? & Hf). split_and!; eauto. intros He. rewrite He in Hf. set_solver.
Qed.

Lemma validate_panels_ok p :
  validate_panels p = Ok () ↔ default_component p ∈ components p ∧ ∀ c, c ∈ components p → text_ok c.
Proof.
  unfold validate_panels. rewrite try_unit, unless_ok, try_each_iff, orb_false_iff, bool_decide_eq_false,
    negb_false_iff, bool_decide_eq_true.
  setoid_rewrite required_text_ok. setoid_rewrite elem_of_set_iter. set_solver.
Qed.

Lemma validate_inputs_ok inputs : validate_inputs inputs = Ok () ↔ inputs = {["text"]}.
Proof.
  unfold validate_inputs. rewrite try_unit, unless_ok, try_each_iff, bool_decide_eq_false.
  setoid_rewrite unless_ok. setoid_rewrite neqb_false. setoid_rewrite elem_of_set_iter. split; [|set_solver].
  intros [Hne Hall]. apply set_choose_L in Hne as [x Hx]. apply set_eq. set_solver.
Qed.

Lemma validate_provider_ok p :
  validate_provider p = Ok () ↔ Forall text_ok [provider_id p; model p; base_url p; pp_credential_class p]
    ∧ max_input_tokens p ≠ Some 0%N ∧ max_output_tokens p ≠ Some 0%N.
Proof.
  unfold validate_provider. rewrite !try_unit, unless_ok, orb_false_iff, !bool_decide_eq_false, !required_text_ok,
    !Forall_cons. naive_solver.
Qed.

Lemma validate_shape_ok r : validate_shape r = Ok () ↔ release_wf r.
Proof.
  unfold validate_shape.
  rewrite !try_unit, !unless_ok, neqb_false, !required_text_ok, validate_host_policy_ok, validate_package_ok,
    !validate_files_ok, negb_false_iff, bool_decide_eq_true, validate_panels_ok, validate_inputs_ok,
    validate_provider_ok, orb_false_iff, nlt_false, N.eqb_neq, !Forall_cons.
  assert (match collection r with Some c => validate_collection c | None => Ok () end = Ok () ↔
    ∀ c, collection r = Some c → collection_ok c) as ->.
  { destruct (collection r); [rewrite validate_collection_ok|]; naive_solver. }
  split.
  - intros. destruct_and!. split; try done; [rewrite !Forall_cons; by split_and!|rewrite !Forall_cons; by split_and!|lia].
  - intros [? Ht ? [] Hf ? ? [] ? [] ?]. rewrite !Forall_cons in Ht. rewrite !Forall_cons in Hf.
    destruct_and!. split_and!; try done; lia.
Qed.

(** What the host supports of a release. *)
Record supported (r : AgentRelease) (support : PublicDoRuntimeSupport) : Prop := {
  su_protocol : host_protocol (runtime r) = sup_host_protocol support;
  su_abi : runtime_abi (runtime r) = sup_runtime_abi support;
  su_capabilities : required_host_capabilities (runtime r) ⊆ host_capabilities support;
  su_provider : provider_id (provider r) ∈ providers support;
  su_panels : components (panels r) ⊆ panel_components support;
}.

Lemma head_err_ok (m : gset string) (e : string → AgentReleaseError) :
  match head (set_iter m) with Some c => Err (e c) | None => Ok () end = Ok () ↔ m = ∅.
Proof. rewrite <- head_none_iff. destruct (head (set_iter m)); naive_solver. Qed.

Lemma verify_release_ok s support :
  verify_release cbor s support = Ok () ↔
  media_type s = AGENT_RELEASE_MEDIA_TYPE ∧ signature_algorithm s = AGENT_RELEASE_SIGNATURE_ALGORITHM
  ∧ blank (signer_key_id s) = false ∧ release_wf (payload s) ∧ supported (payload s) support
  ∧ ∃ bytes, cbor (payload s) = Some bytes ∧ payload_sha256 s = sha256_hex bytes
      ∧ verify_signature bytes (release_signature s) (signer_public_key s) = Ok true.
Proof.
  unfold verify_release, canonical_bytes. cbv zeta. rewrite !try_unit, unless_ok, !orb_false_iff, !neqb_false, validate_shape_ok.
  destruct (cbor (payload s)) as [bytes|]; simpl;
    [|split; [by intros (_ & _ & ?)|by intros (_ & _ & _ & _ & _ & ? & ? & _)]].
  rewrite !try_unit, !unless_ok, !neqb_false, !head_err_ok, negb_false_iff, bool_decide_eq_true.
  destruct (verify_signature bytes _ _) as [[]|] eqn:Hsig;
    [|split; [by intros (_ & _ & _ & ? & _)|by intros (_ & _ & _ & _ & _ & ? & [= <-] & _ & ?); congruence]..].
  split.
  - intros. destruct_and!. split_and!; try done; [split; try done; set_solver|]. by exists bytes.
  - intros (? & ? & ? & ? & [] & ? & ? & ? & _). simplify_eq. split_and!; try done; set_solver.
Qed.

(** A release is activated exactly when it is whole, authentic and supported. The check
    passes exactly when the envelope's metadata is right, every part of the payload is
    well formed (named, its files at distinct paths inside the release with the digests
    they state, the entrypoint among them, capabilities within the ceiling, a bounded
    collection, text as the one audience input, consistent lifetimes), the digest is that
    of its canonical bytes, the signer signed them, and the host implements exactly its
    protocol and runtime and at least its capabilities, provider and panels. *)
Theorem release_activates_iff s support :
  verify_release cbor s support = Ok () ↔
  media_type s = AGENT_RELEASE_MEDIA_TYPE ∧ signature_algorithm s = AGENT_RELEASE_SIGNATURE_ALGORITHM
  ∧ blank (signer_key_id s) = false ∧ release_wf (payload s) ∧ supported (payload s) support
  ∧ ∃ bytes, cbor (payload s) = Some bytes ∧ payload_sha256 s = sha256_hex bytes
      ∧ verify_signature bytes (release_signature s) (signer_public_key s) = Ok true.
Proof. apply verify_release_ok. Qed.

(** Publishing round trip. A release that its author could sign activates on every host
    that supports it, under the id of its content; and two releases that activate under
    one id have the same canonical bytes, or SHA-256 collides on them. *)
Theorem release_roundtrip `{signing : !Signing, !SigningLaws H0 signing} r key_id key s :
  sign_release cbor r key_id key = Ok s →
  payload s = r ∧ content_hash cbor r = Ok (release_id s)
  ∧ (∀ support, verify_release cbor s support = Ok () ↔ blank key_id = false ∧ supported r support)
  ∧ ∀ s' support, verify_release cbor s' support = Ok () → release_id s' = release_id s →
      cbor (payload s') = cbor r
      ∨ ∃ bytes bytes', cbor r = Some bytes ∧ cbor (payload s') = Some bytes' ∧ collides bytes' bytes.
Proof.
  intros Hs. unfold sign_release in Hs. apply try_unit in Hs as [Hwf Hs]. apply validate_shape_ok in Hwf.
  unfold content_hash, canonical_bytes in *. destruct (cbor r) as [bytes|] eqn:Hc; [|done]. simpl in Hs.
  injection Hs as <-. simpl. split_and!; [done|done| |].
  - intros support. rewrite verify_release_ok. simpl. split; [naive_solver|]. intros [? ?].
    split_and!; try done. exists bytes. split_and!; [done|done|apply sign_verifies].
  - intros s' support (_ & _ & _ & _ & _ & bytes' & Hb & Hd & _)%verify_release_ok Hid.
    unfold release_id in Hid. simpl in Hid. repeat apply (inj (String.append _)) in Hid.
    assert (sha256_hex bytes' = sha256_hex bytes) as Heq by congruence.
    apply sha256_hex_collision in Heq as [->|?]; [left; congruence|right; by exists bytes, bytes'].
Qed.
End theorems.

(** ** A small release *)

Module SampleRelease.
Import SampleTexts.
Definition file (p : string) (bytes : list N) : ReleaseFile := new_file p "text/plain" bytes.
Definition release (files : list ReleaseFile) : AgentRelease := mkAgentRelease AGENT_RELEASE_SCHEMA 1 "rev"
  (mkRuntime "p1" "abi1" ∅) (mkHostPolicy 1 "env" "signer" "04" "binding" "class" "place")
  (mkPackageClosure "v1" "main.whip" files) (mkPersona "" []) [] (mkCapabilities {["read"]} {["read"; "write"]})
  (mkPanels {["panel"]} "panel" GaugeWright) default_audience_inputs
  (mkProvider "prov" "model" "https://u" "class" None (Some 10%N)) (mkRetention 60 600 false false)
  (Some (mkCollection ["notes/*"; "out.md"] false "schema" "class" 100)).
Definition bytes (r : AgentRelease) : option (list N) := Some [N.of_nat (length (package_files (package r)))].
Definition support : PublicDoRuntimeSupport := mkSupport "p1" "abi1" ∅ {["prov"]} {["panel"]}.
Definition key : P256SigningKey := true.
Definition signed : SignedAgentRelease :=
  mkSignedRelease AGENT_RELEASE_MEDIA_TYPE (sha256_hex [1%N]) "k" (public_key key)
    AGENT_RELEASE_SIGNATURE_ALGORITHM (sign key [1%N]) (release [file "main.whip" [7%N]]).

Example selectors_refused :
  (λ p, validate_collection (mkCollection [p] true "s" "c" 1)) <$> ["**"; "a/**"; "../x"; "/*"; "a//b"]
  = replicate 5 (Err (Invalid "collection exportable path is not a bounded relative selector")).
Proof. vm_compute. reflexivity. Qed.

(** A [.] segment after the first is not refused, so one file has several paths and a
    closure may hold it twice. *)
Example dot_segments_accepted :
  validate_files [file "a/b" [1%N]; file "a/./b" [2%N]; file "." [3%N]] = Ok ().
Proof. vm_compute. reflexivity. Qed.
End SampleRelease.

Import SampleTexts.

Lemma release_activates_iff_witness : supported (payload SampleRelease.signed) SampleRelease.support.
Proof.
  destruct (proj1 (release_activates_iff SampleRelease.bytes SampleRelease.signed SampleRelease.support))
    as (_ & _ & _ & _ & Hs & _); [vm_compute; reflexivity|exact Hs].
Defined.

Lemma release_roundtrip_witness : content_hash SampleRelease.bytes (payload SampleRelease.signed) = Ok (release_id SampleRelease.signed).
Proof.
  destruct (release_roundtrip SampleRelease.bytes (payload SampleRelease.signed) "k" SampleRelease.key SampleRelease.signed)
    as (_ & Hh & _); [vm_compute; reflexivity|exact Hh].
Defined.
