(* ===== verification/Directory.v ===== *)
(** * The blind directory's signed statements

    [crates/directory-protocol/src/lib.rs]: routes with a project's placement and a
    host's locator, directory entries and their retraction, and chains of root
    transitions. [serde_json::to_vec] of each signed value is an argument; the values
    are the constructors of [Statement]. *)

From S2P Require Import Prelude Ids Federation SignedText.

Record OpaqueRelayLocator := mkLocator {
  rl_endpoint : string;
  rl_handle : string;
  rl_proof : string;
  rl_route_epoch : N; (* u64 *)
  home_fingerprint : string;
}.

Record SignedPlacement := mkPlacementProof {
  project_key : string;
  host_key : string;
  placement_signature : Signature;
  locator_signature : Signature;
}.

Record OpaqueHomeRoute := mkHomeRoute {
  project : string;
  home_id : HomeId;
  endpoint : string;
  relay : option OpaqueRelayLocator;
  author_authority : string;
  author_root_pubkey : string;
  author_signature : option Signature;
  route_placement : option SignedPlacement;
}.

#[export] Instance OpaqueHomeRoute_eta : Eta OpaqueHomeRoute := mkEta (λ r,
  mkHomeRoute (project r) (home_id r) (endpoint r) (relay r) (author_authority r) (author_root_pubkey r)
    (author_signature r) (route_placement r)).

Record DirectoryRecord := mkRecord {
  root_pubkey : string;
  device_pubkeys : list string;
  placement_pointers : list string;
  home_routes : list OpaqueHomeRoute;
}.

Record DirectoryEntry := mkEntry {
  generation : N; (* u64 *)
  directory : DirectoryRecord;
  sealed_blob : string;
  retracted : bool;
  device : string;
}.

Record SignedDirectoryPut := mkPut { put_entry : DirectoryEntry; put_signature : Signature }.

Record RootTransition := mkTransition {
  from_root : string;
  to_root : string;
  issued_at_ms : N; (* u64 *)
  transition_signature : Signature;
}.

(** The values that are serialized to be signed: four tagged tuples and an entry. *)
Inductive Statement :=
| S_Placement (project : string) (home_id : HomeId) (host_key : string)
| S_Locator (home_id : HomeId) (endpoint : string) (relay : option OpaqueRelayLocator)
| S_HomeRoute (authority project : string) (home_id : HomeId) (endpoint : string) (relay : option OpaqueRelayLocator)
| S_Transition (from to : string) (issued_at_ms : N)
| S_Entry (entry : DirectoryEntry).

Section directory.
Context `{P256} (to_vec : Statement → option (list N)).

(** [verify_signature(..).unwrap_or(false)] on bytes that may not serialize. *)
Definition statement_signed (st : Statement) (sig : Signature) (key : string) : bool :=
  match to_vec st with
  | Some bytes => match verify_signature bytes sig (mkId key) with Ok b => b | Err _ => false end
  | None => false
  end.

Definition placement_signing_bytes (project : string) (home : HomeId) (host : string) : option (list N) :=
  to_vec (S_Placement project home host).
Definition locator_signing_bytes (home : HomeId) (endpoint : string) (relay : option OpaqueRelayLocator) : option (list N) :=
  to_vec (S_Locator home endpoint relay).
Definition home_route_signing_bytes (authority : string) (route : OpaqueHomeRoute) : option (list N) :=
  to_vec (S_HomeRoute authority (project route) (home_id route) (endpoint route) (relay route)).
Definition signing_bytes (entry : DirectoryEntry) : option (list N) := to_vec (S_Entry entry).
Definition root_transition_signing_bytes (from to : string) (at_ms : N) : option (list N) :=
  to_vec (S_Transition from to at_ms).

Definition placement_verifies (route : OpaqueHomeRoute) (trusted_project_key : string) : bool :=
  match route_placement route with
  | None => false
  | Some p =>
      if neqb (project_key p) trusted_project_key || empty (host_key p) then false
      else
        let placed := statement_signed (S_Placement (project route) (home_id route) (host_key p))
                        (placement_signature p) (project_key p) in
        let located := statement_signed (S_Locator (home_id route) (endpoint route) (relay route))
                         (locator_signature p) (host_key p) in
        placed && located
  end.

Definition shared_home_route_verifies (route : OpaqueHomeRoute) : bool :=
  match author_signature route with
  | None => false
  | Some sig =>
      if empty (author_authority route) || empty (author_root_pubkey route) then false
      else statement_signed
             (S_HomeRoute (author_authority route) (project route) (home_id route) (endpoint route) (relay route))
             sig (author_root_pubkey route)
  end.

Definition device_retraction_entry (root device : string) (generation : N) : DirectoryEntry :=
  mkEntry generation (mkRecord root [] [] []) "" true device.
Definition retraction_entry (root : string) (generation : N) : DirectoryEntry := device_retraction_entry root "" generation.
Definition is_retraction (entry : DirectoryEntry) : bool := retracted entry.

Definition put_verifies (put : SignedDirectoryPut) : bool :=
  statement_signed (S_Entry (put_entry put)) (put_signature put) (root_pubkey (directory (put_entry put))).

Definition root_transition_verifies (t : RootTransition) : bool :=
  if empty (from_root t) || empty (to_root t) || String.eqb (from_root t) (to_root t) then false
  else statement_signed (S_Transition (from_root t) (to_root t) (issued_at_ms t)) (transition_signature t) (from_root t).

(** The loop of [root_chain_reaches], from the root reached so far. *)
Fixpoint chain_from (at_root current : string) (chain : list RootTransition) : bool :=
  match chain with
  | [] => false
  | t :: chain =>
      if neqb (from_root t) at_root then chain_from at_root current chain
      else if negb (root_transition_verifies t) then false
      else if String.eqb (to_root t) current then true
      else chain_from (to_root t) current chain
  end.

Definition root_chain_reaches (pinned current : string) (chain : list RootTransition) : bool :=
  if String.eqb pinned current then true else chain_from pinned current chain.

(** ** Signing *)

Context `{!SignedTexts, !Signing}.

Definition sign_placement (route : OpaqueHomeRoute) (project_signer host_signer : P256SigningKey) : option OpaqueHomeRoute :=
  let host := as_str (public_key host_signer) in
  placed ← placement_signing_bytes (project route) (home_id route) host;
  located ← locator_signing_bytes (home_id route) (endpoint route) (relay route);
  Some (route <| route_placement := Some (mkPlacementProof (as_str (public_key project_signer)) host
                   (sign project_signer placed) (sign host_signer located)) |>).

Definition sign_home_route (authority : string) (route : OpaqueHomeRoute) (key : P256SigningKey) : option OpaqueHomeRoute :=
  let route := route <| author_authority := authority |> <| author_root_pubkey := as_str (public_key key) |> in
  bytes ← home_route_signing_bytes authority route;
  Some (route <| author_signature := Some (sign key bytes) |>).

Definition sign_entry (entry : DirectoryEntry) (key : P256SigningKey) : option SignedDirectoryPut :=
  bytes ← signing_bytes entry;
  Some (mkPut entry (sign key bytes)).

Definition sign_root_transition (to : string) (at_ms : N) (outgoing : P256SigningKey) : option RootTransition :=
  let from := as_str (public_key outgoing) in
  bytes ← root_transition_signing_bytes from to at_ms;
  Some (mkTransition from to at_ms (sign outgoing bytes)).

End directory.

(** ** Following a root *)

(** A path of transitions, each from where the last one led. *)
Fixpoint links (at_root current : string) (path : list RootTransition) : Prop :=
  match path with
  | [] => at_root = current
  | t :: path => from_root t = at_root ∧ links (to_root t) current path
  end.

Section chains.
Context `{P256} (to_vec : Statement → option (list N)).

Lemma chain_from_sound at_root current chain :
  chain_from to_vec at_root current chain = true →
  ∃ path, path ≠ [] ∧ path `sublist_of` chain ∧ links at_root current path
    ∧ Forall (λ t, root_transition_verifies to_vec t = true) path.
Proof.
  revert at_root. induction chain as [|t chain IH]; intros at_root; simpl; [done|].
  destruct (neqb (from_root t) at_root) eqn:Hn.
  { intros (path & ? & ? & ? & ?)%IH. exists path. split_and!; try done. by apply sublist_cons. }
  apply neqb_false in Hn. destruct (root_transition_verifies to_vec t) eqn:Hv; [simpl|done].
  destruct (String.eqb_spec (to_root t) current) as [Hc|Hc].
  - intros _. exists [t]. split_and!; [done|by apply sublist_skip, sublist_nil_l|done|by constructor].
  - intros (path & ? & ? & ? & ?)%IH. exists (t :: path). split_and!; [done|by apply sublist_skip|done|by constructor].
Qed.

Lemma chain_from_complete at_root current path :
  path ≠ [] → links at_root current path → Forall (λ t, root_transition_verifies to_vec t = true) path →
  chain_from to_vec at_root current path = true.
Proof.
  revert at_root. induction path as [|t path IH]; intros at_root Hne; [done|]. intros [Hf Hl] [Hv Hall]%Forall_cons. simpl.
  rewrite (proj2 (neqb_false _ _) Hf), Hv. simpl. destruct (String.eqb_spec (to_root t) current) as [|Hc]; [done|].
  destruct path as [|t' path]; [by simpl in Hl|]. by apply IH.
Qed.

(** A pinned root is followed only along signatures of the roots it passes. The walk
    reaches another root exactly by transitions that occur in the chain in that order,
    each signed by the root it leaves; every chain that is such a path is followed to
    its end, whatever unrelated transitions precede it, and a transition from the root
    reached that is not signed stops the walk. *)
Theorem root_chain_followed pinned current chain :
  (root_chain_reaches to_vec pinned current chain = true →
     ∃ path, path `sublist_of` chain ∧ links pinned current path
       ∧ Forall (λ t, root_transition_verifies to_vec t = true) path)
  ∧ (∀ path, links pinned current path → Forall (λ t, root_transition_verifies to_vec t = true) path →
       root_chain_reaches to_vec pinned current path = true)
  ∧ (∀ before path, Forall (λ t, from_root t ≠ pinned) before →
       root_chain_reaches to_vec pinned current (before ++ path) = root_chain_reaches to_vec pinned current path)
  ∧ (∀ t rest, chain = t :: rest → from_root t = pinned → pinned ≠ current →
       root_transition_verifies to_vec t = false → root_chain_reaches to_vec pinned current chain = false).
Proof.
  unfold root_chain_reaches. split_and!.
  - destruct (String.eqb_spec pinned current) as [->|Hne]; [intros _; by exists []; split_and!; try constructor; apply sublist_nil_l|].
    intros (path & _ & ? & ? & ?)%chain_from_sound. by exists path.
  - intros path Hl Hv. destruct (String.eqb_spec pinned current) as [|Hne]; [done|].
    apply chain_from_complete; [|done|done]. by intros ->.
  - intros before path Hb. destruct (String.eqb pinned current); [done|].
    induction Hb as [|t before Ht _ IH]; simpl; [done|].
    destruct (neqb (from_root t) pinned) eqn:Hn; [done|]. by apply neqb_false in Hn.
  - intros t rest -> Hf Hne Hv. rewrite (proj2 (String.eqb_neq _ _) Hne). simpl.
    by rewrite (proj2 (neqb_false _ _) Hf), Hv.
Qed.
End chains.

Section signing.
Context `{SignedTextLaws} {signing : Signing} `{!SigningLaws H0 signing} (to_vec : Statement → option (list N)).

Lemma statement_signed_by st key bytes :
  to_vec st = Some bytes → statement_signed to_vec st (sign key bytes) (hex_encode (verifying_sec1 key)) = true.
Proof.
  intros Hb. unfold statement_signed. rewrite Hb. change (mkId (hex_encode (verifying_sec1 key))) with (public_key key).
  by rewrite sign_verifies.
Qed.

Lemma sign_placement_verifies route r p h trusted :
  as_str (public_key h) ≠ "" → sign_placement to_vec route p h = Some r →
  placement_verifies to_vec r trusted = bool_decide (trusted = as_str (public_key p))
  ∧ project r = project route ∧ home_id r = home_id route ∧ endpoint r = endpoint route ∧ relay r = relay route.
Proof.
  intros Hh Hs. simpl in Hh. unfold sign_placement, placement_signing_bytes, locator_signing_bytes in Hs.
  destruct (to_vec (S_Placement _ _ _)) as [placed|] eqn:Hp; [|done].
  destruct (to_vec (S_Locator _ _ _)) as [located|] eqn:Hl; [|done]. simpl in Hs. injection Hs as <-. split; [|done].
  unfold placement_verifies. simpl. rewrite (proj2 (empty_false _) Hh), orb_false_r.
  rewrite (statement_signed_by _ p placed) by done. rewrite (statement_signed_by _ h located) by done.
  unfold neqb. destruct (String.eqb_spec (hex_encode (verifying_sec1 p)) trusted) as [Heq|Hne]; simpl.
  - symmetry. by apply bool_decide_eq_true_2.
  - symmetry. apply bool_decide_eq_false_2. congruence.
Qed.

(** What is signed for the directory verifies. A placed route verifies against the
    project's own key and no other, and keeps what it routes; an entry verifies if it
    names its signer as its root, so does the entry that retracts it, which discloses
    nothing but the root; a transition verifies if it leads to another root, and is then
    followed. *)
Theorem directory_roundtrip route p h key entry put to at_ms t :
  as_str (public_key h) ≠ "" → as_str (public_key key) ≠ "" →
  (∀ r trusted, sign_placement to_vec route p h = Some r →
     placement_verifies to_vec r trusted = bool_decide (trusted = as_str (public_key p))
     ∧ project r = project route ∧ home_id r = home_id route ∧ endpoint r = endpoint route ∧ relay r = relay route)
  ∧ (∀ authority r, authority ≠ "" → sign_home_route to_vec authority route key = Some r →
       shared_home_route_verifies to_vec r = true)
  ∧ (sign_entry to_vec entry key = Some put → root_pubkey (directory entry) = as_str (public_key key) →
       put_verifies to_vec put = true)
  ∧ (sign_entry to_vec (retraction_entry (as_str (public_key key)) (generation entry)) key = Some put →
       put_verifies to_vec put = true ∧ is_retraction (put_entry put) = true
       ∧ home_routes (directory (put_entry put)) = [] ∧ sealed_blob (put_entry put) = "")
  ∧ (sign_root_transition to_vec to at_ms key = Some t → to ≠ "" → to ≠ as_str (public_key key) →
       root_transition_verifies to_vec t = true
       ∧ root_chain_reaches to_vec (as_str (public_key key)) to [t] = true).
Proof.
  intros Hh Hk. split_and!.
  - intros r trusted. by apply sign_placement_verifies.
  - simpl in Hk. intros authority r Ha Hs. unfold sign_home_route, home_route_signing_bytes in Hs. simpl in Hs.
    destruct (to_vec _) as [bytes|] eqn:Hb; [|done]. simpl in Hs. injection Hs as <-.
    unfold shared_home_route_verifies. simpl. rewrite (proj2 (empty_false _) Ha), (proj2 (empty_false _) Hk). simpl.
    by apply (statement_signed_by _ key).
  - intros Hs Hr. unfold sign_entry, signing_bytes in Hs. destruct (to_vec _) as [bytes|] eqn:Hb; [|done].
    simpl in Hs. injection Hs as <-. unfold put_verifies. simpl. rewrite Hr. by apply statement_signed_by.
  - intros Hs. unfold sign_entry, signing_bytes in Hs. destruct (to_vec _) as [bytes|] eqn:Hb; [|done].
    simpl in Hs. injection Hs as <-. split; [|done]. unfold put_verifies. simpl. by apply (statement_signed_by _ key).
  - simpl in Hk. intros Hs Ht Hne. simpl in Hne. unfold sign_root_transition, root_transition_signing_bytes in Hs.
    destruct (to_vec _) as [bytes|] eqn:Hb; [|done]. simpl in Hs. injection Hs as <-.
    match goal with |- root_transition_verifies _ ?t = true ∧ _ => assert (root_transition_verifies to_vec t = true) as Hv end.
    { unfold root_transition_verifies. simpl.
      rewrite (proj2 (empty_false _) Ht), (proj2 (empty_false _) Hk), (proj2 (String.eqb_neq _ _) (not_eq_sym Hne)).
      simpl. by apply (statement_signed_by _ key). }
    split; [done|]. unfold root_chain_reaches. simpl as_str. rewrite (proj2 (String.eqb_neq _ _) (not_eq_sym Hne)).
    apply chain_from_complete; [done|done|by constructor].
Qed.
End signing.

Module SampleDirectory.
Import SampleTexts.
Definition bytes (st : Statement) : option (list N) :=
  Some match st with S_Placement _ _ _ => [1] | S_Locator _ _ _ => [2] | S_HomeRoute _ _ _ _ _ => [3]
       | S_Transition _ _ _ => [4] | S_Entry _ => [5] end%N.
Definition key : P256SigningKey := true.
Definition other : P256SigningKey := false.
Definition route : OpaqueHomeRoute := mkHomeRoute "p" (mkId "h") "e" None "" "" None None.
Definition entry : DirectoryEntry := mkEntry 1 (mkRecord (as_str (public_key key)) [] [] [route]) "blob" false "".
Definition put : SignedDirectoryPut := mkPut entry (sign key [5%N]).
Definition moved : RootTransition := mkTransition (as_str (public_key key)) "next" 9 (sign key [4%N]).
End SampleDirectory.

Import SampleTexts.

Lemma directory_roundtrip_witness :
  root_chain_reaches SampleDirectory.bytes (as_str (public_key SampleDirectory.key)) "next" [SampleDirectory.moved] = true.
Proof.
  destruct (directory_roundtrip SampleDirectory.bytes SampleDirectory.route SampleDirectory.key SampleDirectory.other
    SampleDirectory.key SampleDirectory.entry SampleDirectory.put "next" 9 SampleDirectory.moved)
    as (_ & _ & _ & _ & Hmoved); [discriminate..|].
  apply Hmoved; [vm_compute; reflexivity|discriminate|discriminate].
Defined.
