(* ===== verification/Scopes.v ===== *)
(** * Reading scopes

    The readers of [crates/store/src/lib.rs] that look across scopes: [scope_ids],
    [scope_ids_with_kind], [scopes_with_prefix] with [prefix_successor],
    [scope_high_water_marks], [records_across_scopes], [events] and [retained_events].

    A scope id is the UTF-8 bytes of its text; SQLite compares TEXT by its bytes and
    counts its characters. *)

From Stdlib Require Import Ascii.
From S2P Require Import Prelude Ids Lifecycle Store StoreSystem Records.

(** ** Characters *)

(** [char::encode_utf8]: the bytes of a code point. *)
Definition utf8 (c : N) : list N :=
  if (c <? 128)%N then [c]
  else if (c <? 2048)%N then [192 + c / 64; 128 + c mod 64]%N
  else if (c <? 65536)%N then [224 + c / 4096; 128 + c / 64 mod 64; 128 + c mod 64]%N
  else [240 + c / 262144; 128 + c / 4096 mod 64; 128 + c / 64 mod 64; 128 + c mod 64]%N.

Fixpoint string_of_bytes (bs : list N) : string :=
  match bs with [] => "" | b :: bs => String (ascii_of_N b) (string_of_bytes bs) end.

(** [chars.into_iter().collect::<String>()] *)
Definition of_chars (cs : list N) : string := string_of_bytes (concat (utf8 <$> cs)).

(** [str::chars] *)
Fixpoint chars (s : string) : list N :=
  match s with
  | String a s1 =>
      let b := N_of_ascii a in
      if (b <? 128)%N then b :: chars s1
      else
        match s1 with
        | String a1 s2 =>
            let b1 := (N_of_ascii a1 - 128)%N in
            if (b <? 224)%N then ((b - 192) * 64 + b1)%N :: chars s2
            else
              match s2 with
              | String a2 s3 =>
                  let b2 := (N_of_ascii a2 - 128)%N in
                  if (b <? 240)%N then ((b - 224) * 4096 + b1 * 64 + b2)%N :: chars s3
                  else
                    match s3 with
                    | String a3 s4 => ((b - 240) * 262144 + b1 * 4096 + b2 * 64 + (N_of_ascii a3 - 128))%N :: chars s4
                    | EmptyString => []
                    end
              | EmptyString => []
              end
        | EmptyString => []
        end
  | EmptyString => []
  end.

(** A [char]: a code point that is not a surrogate. *)
Definition is_char (c : N) : Prop := (c < 55296 ∨ 57344 ≤ c < 1114112)%N.

(** A [str]: the text of some characters. *)
Definition is_str (s : string) : Prop := ∃ cs, Forall is_char cs ∧ s = of_chars cs.

(** ** The order of texts *)

(** [a < b], byte by byte. *)
Definition string_ltb (a b : string) : bool := negb (String.leb b a).

(** ** Prefixes *)

Definition next_char (c : N) : option N :=
  if (c =? 55295)%N then Some 57344%N else if (c =? 1114111)%N then None else Some (c + 1)%N.

(** The loop of [prefix_successor], on the characters from the last one. *)
Fixpoint advance_last (rev : list N) : option (list N) :=
  match rev with
  | [] => None
  | last :: rev => match next_char last with
                   | Some next => Some (reverse rev ++ [next])
                   | None => advance_last rev
                   end
  end.

Definition prefix_successor (prefix : string) : option string := of_chars <$> advance_last (reverse (chars prefix)).

(** ** Discovery *)

(** [SELECT DISTINCT scope_id .. ORDER BY scope_id] *)
Definition string_le (a b : string) : Prop := Is_true (String.leb a b).
#[export] Instance string_le_dec : RelDecision string_le.
Proof. intros a b. unfold string_le. apply _. Defined.

Definition distinct_scopes (rows : list EventRow) : list string :=
  merge_sort string_le (remove_dups (row_scope <$> rows)).

Definition scope_ids (db : Db) : list string := distinct_scopes (events db).

(** [substr(scope_id, 1, length(?1)) = ?1] *)
Definition same_start (prefix scope : string) : bool :=
  bool_decide (take (length (chars prefix)) (chars scope) = chars prefix).

Definition scopes_with_prefix (db : Db) (prefix : string) : list string :=
  distinct_scopes (filter (λ r,
    Is_true (String.leb prefix (row_scope r)
             && match prefix_successor prefix with Some successor => string_ltb (row_scope r) successor | None => true end
             && same_start prefix (row_scope r))) (events db)).

(** [usize::MAX] may exceed [i64::MAX]. *)
Definition scope_ids_with_kind (db : Db) (kind : string) (after : option string) (limit : N)
    : result failure (list string) :=
  if (limit <? 2 ^ 63)%N then
    Ok (take (N.to_nat limit) (distinct_scopes (filter (λ r,
      Is_true (String.eqb (row_kind r) kind && match after with Some a => string_ltb a (row_scope r) | None => true end)) (events db))))
  else fail (AE_Rejected (mkRejection "scope discovery page size is out of range")).

(** [SELECT scope_id, MAX(position) .. GROUP BY scope_id] *)
Definition scope_high_water_marks (db : Db) : gmap string Z :=
  foldr (λ r marks, <[row_scope r := match marks !! row_scope r with
                                     | Some m => Z.max (row_position r) m | None => row_position r end]> marks)
    ∅ (events db).

(** [decode_kind] on a run of rows of one scope. *)
Section readers.
Context (codec : option ContentCodec).

(** [SELECT scope_id, payload .. WHERE kind = ?1 ORDER BY scope_id, position] *)
Definition scope_position_le (a b : EventRow) : Prop :=
  Is_true (string_ltb (row_scope a) (row_scope b)
           || String.eqb (row_scope a) (row_scope b) && (row_position a <=? row_position b)%Z).
#[global] Instance scope_position_le_dec : RelDecision scope_position_le.
Proof. intros a b. unfold scope_position_le. apply _. Defined.

Definition kind_rows_ordered (db : Db) (kind : string) : list EventRow :=
  merge_sort scope_position_le (filter (λ r, row_kind r = kind) (events db)).

(** The leading run of rows of a scope, and the rest. *)
Fixpoint scope_run (scope : string) (rows : list EventRow) : list EventRow * list EventRow :=
  match rows with
  | r :: rows => if String.eqb (row_scope r) scope then let '(run, rest) := scope_run scope rows in (r :: run, rest)
                 else ([], r :: rows)
  | [] => ([], [])
  end.

(** The loop over the runs; a run is not empty, so the number of rows bounds it. *)
Fixpoint decode_runs (fuel : nat) (rows : list EventRow) : list (string * string) :=
  match fuel, rows with
  | S fuel, r :: rows =>
      let scope := row_scope r in
      let '(run, rest) := scope_run scope rows in
      ((λ plain, (scope, plain)) <$> omap id (decode_kind codec scope (r :: run))) ++ decode_runs fuel rest
  | _, _ => []
  end.

Definition records_across_scopes (db : Db) (kind : string) : list (string * string) :=
  let rows := kind_rows_ordered db kind in decode_runs (length rows) rows.

(** [read_events] *)
Fixpoint read_rows (scope : string) (require_retained : bool) (rows : list EventRow)
    : result failure (list (Z * string * string)) :=
  match rows with
  | [] => Ok []
  | r :: rows =>
      match decode_row codec scope r with
      | Some plain => let? rest := read_rows scope require_retained rows in
                      Ok ((row_position r, row_kind r, plain) :: rest)
      | None => if require_retained then fail (AE_Codec "authority history contains an unavailable record")
                else read_rows scope require_retained rows
      end
  end.

Definition read_events (db : Db) (scope : string) (require_retained : bool) :=
  read_rows scope require_retained (select_scope db scope).
Definition store_events (db : Db) (scope : string) := read_events db scope false.
Definition retained_events (db : Db) (scope : string) := read_events db scope true.

(** [retained_records] *)
Fixpoint all_available (plains : list (option string)) : result failure (list string) :=
  match plains with
  | [] => Ok []
  | Some plain :: plains => let? rest := all_available plains in Ok (plain :: rest)
  | None :: _ => fail (AE_Codec "authority history contains an unavailable record")
  end.

Definition retained_records (db : Db) (scope kind : string) : result failure (list string) :=
  all_available (decode_kind codec scope (kind_payloads db scope kind)).
End readers.

(** ** The order of texts is total *)

Lemma ascii_compare_refl x : Ascii.compare x x = Eq.
Proof. apply N.compare_refl. Qed.

Lemma compare_refl a : String.compare a a = Eq.
Proof. induction a as [|x a IH]; simpl; [done|]. by rewrite ascii_compare_refl. Qed.

Lemma compare_lt_trans a b c :
  String.compare a b = Lt → String.compare b c = Lt → String.compare a c = Lt.
Proof.
  revert b c. induction a as [|x a IH]; intros [|y b] [|z c]; simpl; try done.
  destruct (Ascii.compare x y) eqn:Hxy; try done; destruct (Ascii.compare y z) eqn:Hyz; try done; intros H1 H2.
  - apply Ascii.compare_eq_iff in Hxy as ->, Hyz as ->. rewrite ascii_compare_refl. by eapply IH.
  - apply Ascii.compare_eq_iff in Hxy as ->. by rewrite Hyz.
  - apply Ascii.compare_eq_iff in Hyz as <-. by rewrite Hxy.
  - unfold Ascii.compare in *. rewrite N.compare_lt_iff in Hxy, Hyz.
    assert (N.compare (N_of_ascii x) (N_of_ascii z) = Lt) as ->; [|done]. apply N.compare_lt_iff. lia.
Qed.

Lemma leb_spec a b : String.leb a b = true ↔ a = b ∨ String.compare a b = Lt.
Proof.
  unfold String.leb. destruct (String.compare a b) eqn:Hc; split; try done; try (by right).
  - intros _. left. by apply String.compare_eq_iff.
  - intros [->|?]; [|done]. by rewrite compare_refl in Hc.
Qed.

#[export] Instance string_le_trans : Transitive string_le.
Proof.
  intros a b c Hab Hbc. apply Is_true_true in Hab, Hbc. apply Is_true_true. apply leb_spec in Hab, Hbc. apply leb_spec.
  destruct Hab as [->|Hab], Hbc as [->|Hbc]; auto. right. by eapply compare_lt_trans.
Qed.

#[export] Instance string_le_antisymm : AntiSymm (=) string_le.
Proof. intros a b Hab%Is_true_true Hba%Is_true_true. by apply String.leb_antisym. Qed.

#[export] Instance string_le_total : Total string_le.
Proof. intros a b. destruct (String.leb_total a b); [left|right]; by apply Is_true_true. Qed.

Lemma string_ltb_spec a b : string_ltb a b = true ↔ String.compare a b = Lt.
Proof.
  unfold string_ltb. rewrite negb_true_iff. unfold String.leb. rewrite (String.compare_antisym a b).
  destruct (String.compare b a); simpl; by split.
Qed.

(** A distinct, ordered list is determined by its elements. *)
Lemma ordered_unique (l l' : list string) :
  StronglySorted string_le l → StronglySorted string_le l' → NoDup l → NoDup l' → (∀ x, x ∈ l ↔ x ∈ l') → l = l'.
Proof.
  intros Hs Hs' Hn Hn' Heq. apply (StronglySorted_unique string_le); [done|done|]. by apply NoDup_Permutation.
Qed.

Lemma distinct_scopes_spec rows :
  StronglySorted string_le (distinct_scopes rows) ∧ NoDup (distinct_scopes rows)
  ∧ ∀ s, s ∈ distinct_scopes rows ↔ ∃ r, r ∈ rows ∧ row_scope r = s.
Proof.
  unfold distinct_scopes. split_and!.
  - apply (StronglySorted_merge_sort string_le).
  - rewrite merge_sort_Permutation. apply NoDup_remove_dups.
  - intros s. rewrite merge_sort_Permutation, elem_of_remove_dups, list_elem_of_fmap. naive_solver.
Qed.

Lemma distinct_scopes_filter rows (P : EventRow → Prop) (Q : string → Prop)
    `{∀ r, Decision (P r)} `{∀ s, Decision (Q s)} :
  (∀ r, r ∈ rows → P r ↔ Q (row_scope r)) →
  distinct_scopes (filter P rows) = filter Q (distinct_scopes rows).
Proof.
  intros HPQ. destruct (distinct_scopes_spec rows) as (Hs & Hn & He).
  destruct (distinct_scopes_spec (filter P rows)) as (Hs' & Hn' & He').
  apply ordered_unique; [done| |done|by apply NoDup_filter|].
  - clear -Hs. induction Hs as [|x l Hs IH Hx]; [constructor|]. rewrite filter_cons. case_decide; [|done].
    constructor; [done|]. rewrite Forall_forall in Hx |- *. intros y [_ Hy]%list_elem_of_filter. by apply Hx.
  - intros s. rewrite He', list_elem_of_filter, He. setoid_rewrite list_elem_of_filter. split.
    + intros (r & [HP Hr] & <-). split; [by apply HPQ|by exists r].
    + intros [HQ (r & Hr & <-)]. exists r. split; [|done]. split; [by apply HPQ|done].
Qed.

(** ** Characters and bytes *)

Lemma string_of_bytes_app bs bs' : string_of_bytes (bs ++ bs') = string_of_bytes bs +:+ string_of_bytes bs'.
Proof. induction bs as [|b bs IH]; simpl; [done|]. by rewrite IH. Qed.

Lemma of_chars_cons c cs : of_chars (c :: cs) = string_of_bytes (utf8 c) +:+ of_chars cs.
Proof. unfold of_chars. simpl. apply string_of_bytes_app. Qed.

Lemma of_chars_app cs cs' : of_chars (cs ++ cs') = of_chars cs +:+ of_chars cs'.
Proof. unfold of_chars. by rewrite fmap_app, concat_app, string_of_bytes_app. Qed.

Ltac utf8_cases c :=
  unfold utf8; destruct (N.ltb_spec c 128); [|destruct (N.ltb_spec c 2048); [|destruct (N.ltb_spec c 65536)]].

Lemma split3 c : (c = c / 4096 * 4096 + c / 64 mod 64 * 64 + c mod 64)%N.
Proof.
  replace (c / 4096)%N with (c / 64 / 64)%N by (rewrite N.Div0.div_div; done).
  pose proof (N.Div0.div_mod c 64) as H1. pose proof (N.Div0.div_mod (c / 64) 64) as H2. revert H1 H2.
  generalize (c mod 64)%N (c / 64 mod 64)%N (c / 64 / 64)%N (c / 64)%N. lia.
Qed.

Lemma split4 c : (c = c / 262144 * 262144 + c / 4096 mod 64 * 4096 + c / 64 mod 64 * 64 + c mod 64)%N.
Proof.
  pose proof (split3 c) as H1. replace (c / 262144)%N with (c / 4096 / 64)%N by (rewrite N.Div0.div_div; done).
  pose proof (N.Div0.div_mod (c / 4096) 64) as H2. revert H1 H2.
  generalize (c mod 64)%N (c / 64 mod 64)%N (c / 4096 mod 64)%N (c / 4096 / 64)%N (c / 4096)%N. lia.
Qed.

(** The digits of a code point are in their ranges. *)
Lemma digits_bound c :
  (c < 1114112)%N → (c mod 64 < 64 ∧ c / 64 mod 64 < 64 ∧ c / 4096 mod 64 < 64 ∧ c / 262144 < 5
    ∧ (c < 65536 → c / 4096 < 16) ∧ (c < 2048 → c / 64 < 32)
    ∧ 0 ≤ c mod 64 ∧ 0 ≤ c / 64 mod 64 ∧ 0 ≤ c / 4096 mod 64 ∧ 0 ≤ c / 64 ∧ 0 ≤ c / 4096 ∧ 0 ≤ c / 262144)%N.
Proof.
  intros Hc. split_and!; intros; try apply N.le_0_l; try (by apply N.mod_lt); apply N.Div0.div_lt_upper_bound; lia.
Qed.

Lemma chars_of_chars cs : Forall is_char cs → chars (of_chars cs) = cs.
Proof.
  induction 1 as [|c cs Hc _ IH]; [done|]. rewrite of_chars_cons. unfold is_char in Hc.
  destruct (digits_bound c) as (B0 & B1 & B2 & B3 & B4 & B5 & Z0 & Z1 & Z2 & Z3 & Z4 & Z5); [lia|].
  utf8_cases c; try specialize (B4 ltac:(lia)); try specialize (B5 ltac:(lia)); cbn [string_of_bytes];
    rewrite !append_cons, append_nil; cbn [chars]; rewrite !N_ascii_embedding by lia.
  - rewrite (proj2 (N.ltb_lt c 128)) by done. by rewrite IH.
  - rewrite (proj2 (N.ltb_ge (192 + c / 64) 128)) by lia. rewrite (proj2 (N.ltb_lt (192 + c / 64) 224)) by lia. rewrite IH. f_equal.
    pose proof (N.Div0.div_mod c 64) as Hd. lia.
  - rewrite (proj2 (N.ltb_ge (224 + c / 4096) 128)) by lia. rewrite (proj2 (N.ltb_ge (224 + c / 4096) 224)) by lia.
    rewrite (proj2 (N.ltb_lt (224 + c / 4096) 240)) by lia. rewrite IH. f_equal. pose proof (split3 c). lia.
  - rewrite (proj2 (N.ltb_ge (240 + c / 262144) 128)) by lia. rewrite (proj2 (N.ltb_ge (240 + c / 262144) 224)) by lia.
    rewrite (proj2 (N.ltb_ge (240 + c / 262144) 240)) by lia. rewrite IH. f_equal. pose proof (split4 c). lia.
Qed.

(** ** UTF-8 keeps the order of characters *)

Lemma compare_app p s t : String.compare (p +:+ s) (p +:+ t) = String.compare s t.
Proof. induction p as [|x p IH]; [done|]. rewrite !append_cons. cbn [String.compare]. by rewrite ascii_compare_refl. Qed.

Lemma byte_lt a b s t :
  (a < b)%N → (b < 256)%N → String.compare (String (ascii_of_N a) s) (String (ascii_of_N b) t) = Lt.
Proof.
  intros Hab Hb. cbn [String.compare]. unfold Ascii.compare. rewrite !N_ascii_embedding by lia.
  by rewrite (proj2 (N.compare_lt_iff a b)).
Qed.

Lemma byte_eq a s t : String.compare (String (ascii_of_N a) s) (String (ascii_of_N a) t) = String.compare s t.
Proof. cbn [String.compare]. by rewrite ascii_compare_refl. Qed.

(** The digits of a code point compare as the code point does. *)
Lemma digits_lt c c' :
  (c < c')%N → (c < 1114112)%N → (c' < 1114112)%N →
  (c / 64 < c' / 64 ∨ c / 64 = c' / 64 ∧ c mod 64 < c' mod 64)%N
  ∧ (c / 4096 < c' / 4096 ∨ c / 4096 = c' / 4096 ∧ (c / 64 mod 64 < c' / 64 mod 64
       ∨ c / 64 mod 64 = c' / 64 mod 64 ∧ c mod 64 < c' mod 64))%N
  ∧ (c / 262144 < c' / 262144 ∨ c / 262144 = c' / 262144 ∧ (c / 4096 mod 64 < c' / 4096 mod 64
       ∨ c / 4096 mod 64 = c' / 4096 mod 64 ∧ (c / 64 mod 64 < c' / 64 mod 64
            ∨ c / 64 mod 64 = c' / 64 mod 64 ∧ c mod 64 < c' mod 64)))%N.
Proof.
  intros Hlt Hc Hc'. destruct (digits_bound c Hc) as (B0 & B1 & B2 & _). destruct (digits_bound c' Hc') as (D0 & D1 & D2 & _).
  pose proof (N.Div0.div_mod c 64) as H2. pose proof (N.Div0.div_mod c' 64) as H2'.
  pose proof (split3 c) as H3. pose proof (split3 c') as H3'. pose proof (split4 c) as H4. pose proof (split4 c') as H4'.
  revert B0 B1 B2 D0 D1 D2 H2 H2' H3 H3' H4 H4'.
  generalize (c / 262144)%N (c' / 262144)%N (c / 4096)%N (c' / 4096)%N (c / 64)%N (c' / 64)%N
    (c / 4096 mod 64)%N (c' / 4096 mod 64)%N (c / 64 mod 64)%N (c' / 64 mod 64)%N (c mod 64)%N (c' mod 64)%N.
  intros. split_and!; lia.
Qed.

(** A smaller character's bytes come first, whatever follows. *)
Lemma utf8_lt c c' s t :
  is_char c → is_char c' → (c < c')%N →
  String.compare (string_of_bytes (utf8 c) +:+ s) (string_of_bytes (utf8 c') +:+ t) = Lt.
Proof.
  unfold is_char. intros Hc Hc' Hlt.
  destruct (digits_bound c) as (B0 & B1 & B2 & B3 & B4 & B5 & Z0 & Z1 & Z2 & Z3 & Z4 & Z5); [lia|].
  destruct (digits_bound c') as (D0 & D1 & D2 & D3 & D4 & D5 & Y0 & Y1 & Y2 & Y3 & Y4 & Y5); [lia|].
  destruct (digits_lt c c' Hlt) as (G2 & G3 & G4); [lia..|].
  utf8_cases c; utf8_cases c'; try lia; try specialize (B4 ltac:(lia)); try specialize (B5 ltac:(lia));
    try specialize (D4 ltac:(lia)); try specialize (D5 ltac:(lia)); cbn [string_of_bytes]; rewrite !append_cons, !append_nil;
    try (apply byte_lt; lia).
  - destruct G2 as [?|[-> ?]]; [|rewrite byte_eq]; apply byte_lt; lia.
  - destruct G3 as [?|[-> [?|[-> ?]]]]; rewrite ?byte_eq; apply byte_lt; lia.
  - destruct G4 as [?|[-> [?|[-> [?|[-> ?]]]]]]; rewrite ?byte_eq; apply byte_lt; lia.
Qed.

(** ** Prefixes, by characters and by bytes *)

Lemma char_next c n : is_char c → next_char c = Some n → is_char n ∧ (c < n)%N.
Proof.
  unfold is_char, next_char. intros Hc. destruct (N.eqb_spec c 55295) as [->|]; [intros [= <-]; lia|].
  destruct (N.eqb_spec c 1114111) as [->|]; [done|]. intros [= <-]. lia.
Qed.

Lemma advance_last_spec rev q :
  advance_last rev = Some q → ∃ a c n tail, reverse rev = a ++ c :: tail ∧ next_char c = Some n ∧ q = a ++ [n].
Proof.
  induction rev as [|c rev IH]; simpl; [done|]. destruct (next_char c) as [n|] eqn:Hn.
  - intros [= <-]. exists (reverse rev), c, n, []. by rewrite reverse_cons.
  - intros (a & c' & n & tail & Hr & Hn' & ->)%IH. exists a, c', n, (tail ++ [c]).
    rewrite reverse_cons, Hr. by rewrite <- app_assoc.
Qed.

(** Everything that begins with the prefix is below its successor. *)
Lemma below_successor cs t q :
  Forall is_char cs → advance_last (reverse cs) = Some q → String.compare (of_chars (cs ++ t)) (of_chars q) = Lt.
Proof.
  intros Hcs (a & c & n & tail & Hr & Hn & ->)%advance_last_spec. rewrite reverse_involutive in Hr. subst cs.
  apply Forall_app in Hcs as [_ [Hc _]%Forall_cons]. destruct (char_next c n Hc Hn) as [Hn' Hlt].
  rewrite <- app_assoc, <- app_comm_cons, !(of_chars_app a), compare_app, !of_chars_cons. by apply utf8_lt.
Qed.

Lemma leb_app p t : String.leb p (p +:+ t) = true.
Proof.
  apply leb_spec. assert (String.compare p (p +:+ t) = String.compare "" t) as ->.
  { rewrite <- (compare_app p "" t). f_equal. induction p as [|x p IH]; [done|]. rewrite append_cons. by rewrite <- IH. }
  destruct t; [left|by right]. symmetry. induction p as [|x p IH]; [done|]. rewrite append_cons. by rewrite IH.
Qed.

(** A byte prefix of a text that is itself a text is a prefix of its characters. *)
Lemma byte_prefix_chars cs cs' t :
  Forall is_char cs → Forall is_char cs' → of_chars cs' = of_chars cs +:+ t → cs `prefix_of` cs'.
Proof.
  intros Hcs. revert cs'. induction Hcs as [|c cs Hc _ IH]; intros cs' Hcs' Heq; [apply prefix_nil|].
  destruct cs' as [|c' cs'].
  - exfalso. rewrite of_chars_cons in Heq. revert Heq. utf8_cases c; done.
  - apply Forall_cons in Hcs' as [Hc' Hcs']. rewrite !of_chars_cons, append_assoc in Heq.
    assert (c = c') as <-.
    { destruct (N.lt_trichotomy c c') as [Hlt|[?|Hlt]]; [|done|]; exfalso.
      - pose proof (utf8_lt c c' (of_chars cs +:+ t) (of_chars cs') Hc Hc' Hlt) as Hx. by rewrite Heq, compare_refl in Hx.
      - pose proof (utf8_lt c' c (of_chars cs') (of_chars cs +:+ t) Hc' Hc Hlt) as Hx. by rewrite Heq, compare_refl in Hx. }
    apply (inj (String.append _)) in Heq. by apply prefix_cons, IH.
Qed.

(** [str::starts_with] *)
Definition starts_with (prefix s : string) : bool := String.prefix prefix s.

Lemma starts_with_spec prefix s : starts_with prefix s = true ↔ ∃ t, s = prefix +:+ t.
Proof.
  unfold starts_with. revert s. induction prefix as [|x p IH]; intros s; [split; [by exists s|by destruct s]|].
  destruct s as [|y s]; [split; [done|]; by intros [t Ht]|]. cbn [String.prefix]. destruct (ascii_dec x y) as [<-|Hne].
  - rewrite IH. setoid_rewrite append_cons. split; intros [t Ht]; exists t; congruence.
  - split; [done|]. intros [t Ht]. rewrite append_cons in Ht. congruence.
Qed.

(** For texts the three conditions of the query say that the scope begins with the prefix. *)
Lemma prefix_range prefix s :
  is_str prefix → is_str s →
  String.leb prefix s && match prefix_successor prefix with Some successor => string_ltb s successor | None => true end
    && same_start prefix s = starts_with prefix s.
Proof.
  intros (cs & Hcs & ->) (cs' & Hcs' & ->). apply eq_true_iff_eq. rewrite starts_with_spec. unfold same_start, prefix_successor.
  rewrite !chars_of_chars by done. split.
  - intros [_ Hs]%andb_true_iff. apply bool_decide_eq_true in Hs. exists (of_chars (drop (length cs) cs')).
    rewrite <- of_chars_app. f_equal. rewrite <- Hs at 1. by rewrite take_drop.
  - intros [t Ht]. destruct (byte_prefix_chars cs cs' t Hcs Hcs' Ht) as [more ->].
    rewrite of_chars_app, leb_app, take_app_length, bool_decide_eq_true_2, andb_true_r by done. simpl.
    destruct (advance_last (reverse cs)) as [q|] eqn:Hq; [|done]. simpl. apply string_ltb_spec. rewrite <- of_chars_app.
    by apply below_successor.
Qed.

(** The prefix scan is exact. For a prefix and scope ids that are texts,
    [scopes_with_prefix] returns the ids that begin with the prefix, each once, in order:
    the range from the prefix to its successor leaves none of them out. *)
Theorem prefix_scan_exact db prefix :
  is_str prefix → (∀ r, r ∈ events db → is_str (row_scope r)) →
  scopes_with_prefix db prefix = filter (λ s, Is_true (starts_with prefix s)) (scope_ids db).
Proof.
  intros Hp Hdb. unfold scopes_with_prefix, scope_ids. apply distinct_scopes_filter. intros r Hr.
  by rewrite prefix_range by auto.
Qed.

(** ** Discovery by pages *)

(** The scopes that hold a kind. *)
Definition kind_scopes (db : Db) (kind : string) : list string :=
  distinct_scopes (filter (λ r, row_kind r = kind) (events db)).

(** A reader that asks for page after page, from the last scope it saw, until one is empty. *)
Fixpoint discover (fuel : nat) (db : Db) (kind : string) (after : option string) (limit : N) : list string :=
  match fuel with
  | 0 => []
  | S fuel =>
      match scope_ids_with_kind db kind after limit with
      | Ok [] | Err _ => []
      | Ok page => page ++ discover fuel db kind (last page) limit
      end
  end.

Lemma lt_irrefl a : string_ltb a a = false.
Proof. apply not_true_iff_false. rewrite string_ltb_spec, compare_refl. done. Qed.

Lemma le_ne_lt a b : string_le a b → a ≠ b → string_ltb a b = true.
Proof. intros Hle%Is_true_true Hne. apply leb_spec in Hle as [?|?]; [done|]. by apply string_ltb_spec. Qed.

Lemma lt_not_le a b : string_ltb a b = true → ¬ string_le b a.
Proof. unfold string_ltb, string_le. intros Hf%negb_true_iff. rewrite Hf. by intros []. Qed.

(** What follows an element of an ordered list of distinct texts is what is greater. *)
Lemma greater_suffix l1 x l2 :
  StronglySorted string_le (l1 ++ x :: l2) → NoDup (l1 ++ x :: l2) →
  filter (λ s, Is_true (string_ltb x s)) (l1 ++ x :: l2) = l2.
Proof.
  intros Hs Hn. rewrite filter_app, filter_cons, decide_False by (rewrite lt_irrefl; by intros []).
  apply NoDup_app in Hn as (_ & Hdisj & [Hx _]%NoDup_cons).
  rewrite filter_keeps_none, filter_keeps_all; [done| |].
  - intros y Hy. apply Is_true_true, le_ne_lt; [|by intros ->].
    induction l1 as [|z l1 IH]; simpl in Hs; inversion Hs as [|? ? Hs' Hf]; subst; [|apply IH; [done|]; intros; apply Hdisj; by right].
    rewrite Forall_forall in Hf. by apply Hf.
  - intros y Hy Hlt%Is_true_true. apply (lt_not_le _ _ Hlt).
    induction l1 as [|z l1 IH]; [by apply elem_of_nil in Hy|]. simpl in Hs. inversion Hs as [|? ? Hs' Hf]; subst.
    apply elem_of_cons in Hy as [->|Hy]; [|apply IH; [done| |done]; intros; apply Hdisj; by right].
    rewrite Forall_forall in Hf. apply Hf, elem_of_app. right. by left.
Qed.

Lemma page_spec db kind after limit :
  (limit < 2 ^ 63)%N →
  scope_ids_with_kind db kind after limit
  = Ok (take (N.to_nat limit)
      match after with
      | Some a => filter (λ s, Is_true (string_ltb a s)) (kind_scopes db kind)
      | None => kind_scopes db kind
      end).
Proof.
  intros Hl. unfold scope_ids_with_kind, kind_scopes. rewrite (proj2 (N.ltb_lt _ _)) by done. do 2 f_equal. destruct after as [a|].
  - rewrite <- (distinct_scopes_filter (filter (λ r, row_kind r = kind) (events db))
      (λ r, Is_true (string_ltb a (row_scope r))) (λ s, Is_true (string_ltb a s))) by done.
    rewrite list_filter_filter. f_equal. apply list_filter_iff. intros r. rewrite !Is_true_true, andb_true_iff, String.eqb_eq. tauto.
  - f_equal. apply list_filter_iff. intros r. rewrite andb_true_r, Is_true_true. apply String.eqb_eq.
Qed.

Lemma discover_from db kind limit fuel : ∀ l1 x l2,
  (0 < limit < 2 ^ 63)%N → kind_scopes db kind = l1 ++ x :: l2 → length l2 < fuel →
  discover fuel db kind (Some x) limit = l2.
Proof.
  induction fuel as [|fuel IH]; intros l1 x l2 Hl Hk Hf; [lia|]. cbn [discover].
  destruct (distinct_scopes_spec (filter (λ r, row_kind r = kind) (events db))) as (Hs & Hn & _).
  fold (kind_scopes db kind) in Hs, Hn. rewrite page_spec by lia. rewrite Hk in *. rewrite greater_suffix by done.
  destruct (take (N.to_nat limit) l2) as [|y page] eqn:Hp.
  - destruct l2 as [|y l2]; [done|]. assert (N.to_nat limit = S (pred (N.to_nat limit))) as Hn0 by lia.
    rewrite Hn0 in Hp. done.
  - destruct (exists_last (l := y :: page)) as (page' & z & Hz); [done|]. rewrite Hz in Hp |- *. rewrite last_snoc.
    rewrite (IH (l1 ++ x :: page') z (drop (N.to_nat limit) l2)).
    + by rewrite <- Hp, take_drop.
    + done.
    + assert (l2 = page' ++ z :: drop (N.to_nat limit) l2) as Heq.
      { rewrite <- (take_drop (N.to_nat limit) l2) at 1. by rewrite Hp, <- app_assoc. }
      rewrite Heq at 1. by rewrite <- app_assoc.
    + pose proof (take_drop (N.to_nat limit) l2) as Htd. apply (f_equal length) in Htd. rewrite Hp, !length_app in Htd. simpl in Htd. lia.
Qed.

(** Discovery by pages is complete. Reading pages of any positive size from the last
    scope seen, until one is empty, returns every scope that holds the kind exactly once,
    in order; as many steps as there are scopes, and one more, are enough. *)
Theorem discovery_complete db kind limit fuel :
  (0 < limit < 2 ^ 63)%N → length (kind_scopes db kind) < fuel →
  discover fuel db kind None limit = kind_scopes db kind ∧ NoDup (kind_scopes db kind)
  ∧ ∀ s, s ∈ kind_scopes db kind ↔ ∃ r, r ∈ events db ∧ row_kind r = kind ∧ row_scope r = s.
Proof.
  intros Hl Hf. destruct (distinct_scopes_spec (filter (λ r, row_kind r = kind) (events db))) as (Hs & Hn & He).
  fold (kind_scopes db kind) in Hs, Hn, He. split_and!; [|done|].
  - destruct fuel as [|fuel]; [lia|]. cbn [discover]. rewrite page_spec by lia.
    destruct (take (N.to_nat limit) (kind_scopes db kind)) as [|y page] eqn:Hp.
    + destruct (kind_scopes db kind) as [|y l]; [done|]. assert (N.to_nat limit = S (pred (N.to_nat limit))) as Hn0 by lia.
      rewrite Hn0 in Hp. done.
    + destruct (exists_last (l := y :: page)) as (page' & z & Hz); [done|]. rewrite Hz in Hp |- *. rewrite last_snoc.
      pose proof (take_drop (N.to_nat limit) (kind_scopes db kind)) as Htd. rewrite Hp in Htd.
      rewrite (discover_from db kind limit fuel page' z (drop (N.to_nat limit) (kind_scopes db kind))); [done|done| |].
      * by rewrite <- Htd at 1; rewrite <- app_assoc.
      * apply (f_equal length) in Htd. rewrite !length_app in Htd. simpl in Htd. lia.
  - intros s. rewrite He. setoid_rewrite list_elem_of_filter. naive_solver.
Qed.

(** ** High-water marks *)

Lemma high_water_marks_spec db s :
  scope_high_water_marks db !! s = max_position (filter (λ r, row_scope r = s) (events db)).
Proof.
  unfold scope_high_water_marks. induction (events db) as [|r rows IH]; [done|]. cbn [foldr]. rewrite filter_cons.
  destruct (decide (row_scope r = s)) as [<-|Hne].
  - rewrite lookup_insert_eq, IH. done.
  - by rewrite lookup_insert_ne.
Qed.

(** ** Erased content *)

Section erased.
Context (codec : option ContentCodec).

Lemma read_rows_view scope rows :
  read_rows codec scope false rows
  = Ok (omap (λ r, (λ plain, (row_position r, row_kind r, plain)) <$> decode_row codec scope r) rows).
Proof.
  induction rows as [|r rows IH]; [done|]. cbn [read_rows]. rewrite IH. simpl. by destruct (decode_row codec scope r).
Qed.

Lemma read_rows_retained scope rows :
  (Forall (λ r, is_Some (decode_row codec scope r)) rows → read_rows codec scope true rows = read_rows codec scope false rows)
  ∧ (Exists (λ r, decode_row codec scope r = None) rows →
      read_rows codec scope true rows = fail (AE_Codec "authority history contains an unavailable record")).
Proof.
  induction rows as [|r rows [IH1 IH2]]; [split; [done|]; by intros ?%Exists_nil|]. cbn [read_rows]. split.
  - intros [[plain Hp] Hr]%Forall_cons. rewrite Hp. by rewrite IH1.
  - intros [Hp|Hr]%Exists_cons; [by rewrite Hp|]. rewrite IH2 by done. by destruct (decode_row codec scope r).
Qed.

(** Erasure is visible to authority only as a refusal. The timeline of a scope always
    reads: it is every row that still opens, in order, and what was erased is left out.
    The same history read for an authority fold is either that whole timeline, when every
    row opens, or a refusal, when one does not; and so is the read of one kind. *)
Theorem authority_reads_whole db scope :
  db_ok db →
  let timeline := omap (λ r, (λ plain, (row_position r, row_kind r, plain)) <$> decode_row codec scope r) (scope_rows db scope) in
  store_events codec db scope = Ok timeline
  ∧ (Forall (λ r, is_Some (decode_row codec scope r)) (scope_rows db scope) →
       retained_events codec db scope = Ok timeline ∧ length timeline = length (scope_rows db scope))
  ∧ (Exists (λ r, decode_row codec scope r = None) (scope_rows db scope) →
       retained_events codec db scope = fail (AE_Codec "authority history contains an unavailable record"))
  ∧ ∀ kind, retained_records codec db scope kind
      = if forallb (λ r, bool_decide (is_Some (decode_row codec scope r))) (kind_payloads db scope kind)
        then Ok (records codec db scope kind)
        else fail (AE_Codec "authority history contains an unavailable record").
Proof.
  intros Hok timeline. unfold store_events, retained_events, read_events. rewrite select_scope_dense by done.
  destruct (read_rows_retained scope (scope_rows db scope)) as [H1 H2]. split_and!.
  - apply read_rows_view.
  - intros Hall. rewrite H1 by done. split; [apply read_rows_view|]. subst timeline. clear -Hall.
    induction Hall as [|r rows [plain Hp] _ IH]; [done|]. cbn [omap list_omap]. rewrite Hp. cbn [fmap option_fmap option_map length]. f_equal. exact IH.
  - done.
  - intros kind. unfold retained_records, records, decode_kind. induction (kind_payloads db scope kind) as [|r rows IH]; [done|].
    rewrite fmap_cons. cbn [forallb all_available]. destruct (decode_row codec scope r) as [plain|] eqn:Hd.
    + rewrite bool_decide_eq_true_2 by done. rewrite IH. simpl. by destruct (forallb _ rows).
    + by rewrite bool_decide_eq_false_2 by (by intros [? ?]).
Qed.
End erased.

(** ** Reading a kind across scopes *)

Section across.
Context (codec : option ContentCodec).

Definition scope_kind_rows (db : Db) (kind scope : string) : list EventRow := kind_payloads db scope kind.

Lemma partition_by_scope (rows : list EventRow) (ss : list string) :
  NoDup ss → (∀ r, r ∈ rows → row_scope r ∈ ss) →
  concat ((λ s, filter (λ r, row_scope r = s) rows) <$> ss) ≡ₚ rows.
Proof.
  intros Hn. revert rows. induction Hn as [|s ss Hs _ IH]; intros rows Hin; rewrite ?fmap_cons; cbn [concat].
  { destruct rows as [|r rows]; [done|]. exfalso. apply (not_elem_of_nil (row_scope r)), Hin. by left. }
  assert ((λ s', filter (λ r, row_scope r = s') rows) <$> ss
    = (λ s', filter (λ r, row_scope r = s') (filter (λ r, row_scope r ≠ s) rows)) <$> ss) as ->.
  { apply list_fmap_ext. intros _ s' Hs'%list_elem_of_lookup_2. rewrite list_filter_filter. apply list_filter_iff.
    intros r. split; [|by intros []]. intros <-. split; [done|]. by intros Heq; subst. }
  rewrite IH.
  - clear. induction rows as [|r rows IH]; [done|]. rewrite !filter_cons. destruct (decide (row_scope r = s)) as [Heq|Hne].
    + rewrite decide_False by tauto. simpl. by rewrite IH.
    + rewrite decide_True by done. by rewrite <- Permutation_middle, IH.
  - intros r [Hne Hr]%list_elem_of_filter. pose proof (Hin r Hr) as [?|?]%elem_of_cons; done.
Qed.

Lemma kind_payloads_perm db scope kind :
  kind_payloads db scope kind ≡ₚ filter (λ r, row_scope r = scope) (filter (λ r, row_kind r = kind) (events db)).
Proof.
  unfold kind_payloads, order_by_position. rewrite merge_sort_Permutation, list_filter_filter.
  apply reflexive_eq, list_filter_iff. tauto.
Qed.

Lemma kind_payloads_elem db scope kind r : r ∈ kind_payloads db scope kind → row_scope r = scope.
Proof. rewrite kind_payloads_perm. by intros [? _]%list_elem_of_filter. Qed.

Lemma lt_trans a b c : string_ltb a b = true → string_ltb b c = true → string_ltb a c = true.
Proof. rewrite !string_ltb_spec. apply compare_lt_trans. Qed.

Lemma scope_position_le_spec a b :
  scope_position_le a b ↔ string_ltb (row_scope a) (row_scope b) = true
    ∨ row_scope a = row_scope b ∧ (row_position a ≤ row_position b)%Z.
Proof. unfold scope_position_le. rewrite Is_true_true, orb_true_iff, andb_true_iff, String.eqb_eq, Z.leb_le. done. Qed.

#[local] Instance scope_position_le_trans : Transitive scope_position_le.
Proof.
  intros a b c. rewrite !scope_position_le_spec. intros [H1|[E1 H1]] [H2|[E2 H2]].
  - left. by eapply lt_trans.
  - left. congruence.
  - left. congruence.
  - right. split; [congruence|lia].
Qed.

#[local] Instance scope_position_le_total : Total scope_position_le.
Proof.
  intros a b. rewrite !scope_position_le_spec. destruct (decide (row_scope a = row_scope b)) as [He|Hne].
  - destruct (Z.le_ge_cases (row_position a) (row_position b)); [left|right]; right; split; done || lia.
  - destruct (total string_le (row_scope a) (row_scope b)) as [Hle|Hle]; [left|right]; left; apply le_ne_lt; done || by intros ->.
Qed.

(** Rows of one scope at one position are the same row. *)
Lemma row_unique db a b :
  db_ok db → a ∈ events db → b ∈ events db → row_scope a = row_scope b → row_position a = row_position b → a = b.
Proof.
  intros Hok Ha Hb Hs Hp.
  assert (a ∈ scope_rows db (row_scope a)) as [i Hi]%list_elem_of_lookup by (by apply list_elem_of_filter).
  assert (b ∈ scope_rows db (row_scope a)) as [j Hj]%list_elem_of_lookup by (by apply list_elem_of_filter).
  pose proof (Hok _ i a Hi). pose proof (Hok _ j b Hj). assert (i = j) as -> by lia. congruence.
Qed.

Lemma sorted_app (l l' : list EventRow) :
  StronglySorted scope_position_le l → StronglySorted scope_position_le l' →
  (∀ a b, a ∈ l → b ∈ l' → scope_position_le a b) → StronglySorted scope_position_le (l ++ l').
Proof.
  intros Hl Hl' Hc. induction Hl as [|x l Hl IH Hx]; simpl; [done|]. constructor.
  - apply IH. intros a b Ha Hb. apply Hc; [by right|done].
  - apply Forall_app. split; [done|]. apply Forall_forall. intros b Hb. apply Hc; [by left|done].
Qed.

Lemma sorted_by_scope db kind ss :
  StronglySorted string_le ss → NoDup ss →
  StronglySorted scope_position_le (concat ((λ s, kind_payloads db s kind) <$> ss)).
Proof.
  intros Hs Hn. induction Hs as [|s ss Hs IH Hle]; rewrite ?fmap_cons; cbn [concat]; [constructor|]. apply NoDup_cons in Hn as [Hni Hn].
  apply sorted_app; [|by apply IH|].
  - assert (StronglySorted pos_le (kind_payloads db s kind)) as Hp.
    { apply StronglySorted_merge_sort; [intros a b c|intros a b]; unfold pos_le; lia. }
    assert (∀ r, r ∈ kind_payloads db s kind → row_scope r = s) as Hsc by (intros; by eapply kind_payloads_elem).
    induction Hp as [|x l Hp IHp Hx]; constructor.
    + apply IHp. intros r Hr. apply Hsc. by right.
    + rewrite Forall_forall in Hx |- *. intros y Hy. apply scope_position_le_spec. right. split; [|by apply Hx].
      rewrite !Hsc; [done|by right|by left].
  - intros a b <-%kind_payloads_elem Hb%list_elem_of_In. apply in_concat in Hb as (l & Hl%list_elem_of_In & Hb%list_elem_of_In).
    apply list_elem_of_fmap in Hl as (s' & -> & Hs'). apply kind_payloads_elem in Hb as <-.
    apply scope_position_le_spec. left. rewrite Forall_forall in Hle. apply le_ne_lt; [by apply Hle|by intros Heq; rewrite Heq in Hni].
Qed.

(** The ordered rows of a kind are the rows of its scopes, one scope after the other. *)
Lemma kind_rows_by_scope db kind :
  db_ok db →
  kind_rows_ordered db kind = concat ((λ s, kind_payloads db s kind) <$> kind_scopes db kind).
Proof.
  intros Hok. destruct (distinct_scopes_spec (filter (λ r, row_kind r = kind) (events db))) as (Hs & Hn & He).
  fold (kind_scopes db kind) in Hs, Hn, He.
  assert (concat ((λ s, kind_payloads db s kind) <$> kind_scopes db kind) ≡ₚ filter (λ r, row_kind r = kind) (events db)) as Hperm.
  { etrans; [|apply (partition_by_scope _ (kind_scopes db kind) Hn)].
    - clear. induction (kind_scopes db kind) as [|s ss IH]; rewrite ?fmap_cons; cbn [concat]; [reflexivity|]. by rewrite IH, kind_payloads_perm.
    - intros r Hr. apply He. by exists r. }
  apply (StronglySorted_unique_strong scope_position_le).
  - intros a b Ha Hb Hab%scope_position_le_spec Hba%scope_position_le_spec. unfold kind_rows_ordered in Ha.
    rewrite merge_sort_Permutation in Ha. rewrite Hperm in Hb.
    apply list_elem_of_filter in Ha as [_ Ha], Hb as [_ Hb]. destruct Hab as [Hab|[Hsc Hab]], Hba as [Hba|[Hsc' Hba]].
    + pose proof (lt_trans _ _ _ Hab Hba) as Hx. by rewrite lt_irrefl in Hx.
    + rewrite Hsc', lt_irrefl in Hab. done.
    + rewrite Hsc, lt_irrefl in Hba. done.
    + eapply row_unique; [done..|]. lia.
  - apply (StronglySorted_merge_sort scope_position_le).
  - by apply sorted_by_scope.
  - unfold kind_rows_ordered. by rewrite merge_sort_Permutation, Hperm.
Qed.

Lemma scope_run_app scope run rest :
  (∀ r, r ∈ run → row_scope r = scope) → (∀ r, head rest = Some r → row_scope r ≠ scope) →
  scope_run scope (run ++ rest) = (run, rest).
Proof.
  intros Hrun Hrest. induction run as [|r run IH]; simpl.
  - destruct rest as [|r rest]; [done|]. simpl. by rewrite (proj2 (String.eqb_neq _ _) (Hrest r eq_refl)).
  - rewrite (proj2 (String.eqb_eq _ _) (Hrun r ltac:(by left))). rewrite IH; [done|]. intros x Hx. apply Hrun. by right.
Qed.

Lemma decode_runs_by_scope db kind ss : ∀ fuel,
  NoDup ss → (∀ s, s ∈ ss → kind_payloads db s kind ≠ []) → length ss ≤ fuel →
  decode_runs codec fuel (concat ((λ s, kind_payloads db s kind) <$> ss))
  = concat ((λ s, (λ plain, (s, plain)) <$> records codec db s kind) <$> ss).
Proof.
  induction ss as [|s ss IH]; intros fuel Hn Hne Hf; rewrite ?fmap_cons; cbn [concat]; [by destruct fuel|].
  apply NoDup_cons in Hn as [Hni Hn]. destruct fuel as [|fuel]; [simpl in Hf; lia|].
  destruct (kind_payloads db s kind) as [|r run] eqn:Hk; [by destruct (Hne s ltac:(by left))|].
  assert (∀ x, x ∈ r :: run → row_scope x = s) as Hsc by (intros x Hx; rewrite <- Hk in Hx; by apply kind_payloads_elem in Hx).
  rewrite <- app_comm_cons. cbn [decode_runs]. rewrite (Hsc r) by (by left). rewrite scope_run_app.
  - rewrite IH; [|done|by intros; apply Hne; right|simpl in Hf; lia]. f_equal. unfold records. by rewrite Hk.
  - intros x Hx. apply Hsc. by right.
  - intros x Hx <-. apply Hni. clear -Hx Hne. assert (∀ s, s ∈ ss → kind_payloads db s kind ≠ []) as Hne' by (intros; apply Hne; by right).
    destruct ss as [|s' ss]; [done|]. rewrite fmap_cons in Hx. cbn [concat] in Hx.
    destruct (kind_payloads db s' kind) as [|y l] eqn:Hk; [by destruct (Hne' s' ltac:(by left))|]. simpl in Hx. injection Hx as ->.
    assert (row_scope x = s') as -> by (apply (kind_payloads_elem db s' kind); rewrite Hk; by left). by left.
Qed.

(** Decoding by runs is decoding by scope. Reading a kind across all scopes returns, for
    each scope that holds it and in their order, exactly the records that a read of that
    scope returns, each with its scope. *)
Theorem across_scopes_exact db kind :
  db_ok db →
  records_across_scopes codec db kind
  = concat ((λ s, (λ plain, (s, plain)) <$> records codec db s kind) <$> kind_scopes db kind).
Proof.
  intros Hok. unfold records_across_scopes. cbv zeta. rewrite (kind_rows_by_scope db kind Hok).
  destruct (distinct_scopes_spec (filter (λ r, row_kind r = kind) (events db))) as (_ & Hn & He).
  fold (kind_scopes db kind) in Hn, He.
  assert (∀ s, s ∈ kind_scopes db kind → kind_payloads db s kind ≠ []) as Hne.
  { intros s (r & [Hk Hr]%list_elem_of_filter & <-)%He Hnil.
    assert (r ∈ kind_payloads db (row_scope r) kind) as Hin.
    { rewrite kind_payloads_perm. apply list_elem_of_filter. split; [done|]. by apply list_elem_of_filter. }
    rewrite Hnil in Hin. by apply elem_of_nil in Hin. }
  apply decode_runs_by_scope; [done|done|].
  clear -Hne. induction (kind_scopes db kind) as [|s ss IH]; rewrite ?fmap_cons; cbn [concat]; [simpl; lia|].
  rewrite length_app. simpl. assert (length ss ≤ length (concat ((λ s0, kind_payloads db s0 kind) <$> ss))) by (apply IH; intros; apply Hne; by right).
  pose proof (Hne s ltac:(by left)) as Hs. destruct (kind_payloads db s kind); [done|]. simpl. lia.
Qed.
End across.

Section witnesses.
Import Sample.

Lemma sample_ok : db_ok db.
Proof. exact (proj1 (served_ok (Some codec) anchor "build" host host_kinds db db_served)). Qed.

(** A store with a scope that needs two bytes for a character. *)
Definition named : Db := fold_left serve [AppendRecord host "s:a" "note" "1"; AppendRecord host "t" "note" "2";
  AppendRecord host (of_chars [115; 58; 233]%N) "note" "3"; AppendRecord host "s" "note" "4"] empty_db.

Lemma prefix_scan_exact_witness :
  scopes_with_prefix named "s:" = ["s:a"; of_chars [115; 58; 233]%N]
  ∧ scopes_with_prefix named "s:" = filter (λ s, Is_true (starts_with "s:" s)) (scope_ids named).
Proof.
  split; [vm_compute; reflexivity|]. apply prefix_scan_exact.
  - exists [115; 58]%N. split; [repeat constructor|reflexivity].
  - intros r Hr. assert (row_scope r ∈ ["s:a"; "t"; of_chars [115; 58; 233]%N; "s"]) as Hs.
    { assert (["s:a"; "t"; of_chars [115; 58; 233]%N; "s"] = row_scope <$> events named) as -> by (vm_compute; reflexivity).
      by apply list_elem_of_fmap_2. }
    repeat (apply elem_of_cons in Hs as [->|Hs]); [| | | |by apply elem_of_nil in Hs].
    + exists [115; 58; 97]%N. split; [repeat constructor|reflexivity].
    + exists [116]%N. split; [repeat constructor|reflexivity].
    + exists [115; 58; 233]%N. split; [repeat constructor|reflexivity].
    + exists [115]%N. split; [repeat constructor|reflexivity].
Defined.

Lemma discovery_complete_witness :
  discover 5 named "note" None 1 = ["s"; "s:a"; of_chars [115; 58; 233]%N; "t"].
Proof.
  destruct (discovery_complete named "note" 1 5) as [H _]; [lia|vm_compute; lia|]. rewrite H. vm_compute. reflexivity.
Defined.

Lemma across_scopes_exact_witness :
  db_ok db ∧ records_across_scopes (Some codec) db "note" = [("s", "first"); ("s", "last")].
Proof.
  split; [exact sample_ok|]. rewrite (across_scopes_exact (Some codec) db "note" sample_ok). vm_compute. reflexivity.
Defined.

Lemma authority_reads_whole_witness :
  db_ok db ∧ retained_records (Some codec) db "s" "note" = Ok ["first"; "last"].
Proof.
  split; [exact sample_ok|]. destruct (authority_reads_whole (Some codec) db "s" sample_ok) as (_ & _ & _ & H).
  rewrite (H "note"). vm_compute. reflexivity.
Defined.
End witnesses.
