(* ===== verification/Tables.v ===== *)
(** * The operational tables and the schema ledger

    The tables of [crates/store/src/lib.rs] beside the log and the commands: immutable
    record revisions, content metadata, projection cursors, scope descriptors and
    observations, with their operations; and [init], the open-time schema handshake. What
    a migration's SQL does is an argument. *)

From S2P Require Import Prelude Ids Lifecycle Store.

Record RecordRevision := mkRevision {
  rev_record_id : string;
  rev_scope_id : string;
  rev_kind : string;
  revision : Z;
  tombstone : bool;
  rev_payload : string;
}.

Record ContentMetadata := mkContent {
  content_handle : string;
  content_resource : option string;
  content_sha256 : option string;
  size_bytes : option Z;
  content_status : string;
}.

Record ProjectionMeta := mkProjection {
  projection : string;
  proj_scope : string;
  proj_version : Z;
  high_water : Z;
  dirty : bool;
}.

Record ObservationRecord := mkObservation {
  observation_id : string;
  run_ref : string;
  obs_kind : string;
  payload_ref : option string;
  admitted_scope : option string;
  admitted_position : option Z;
}.

#[export] Instance ObservationRecord_eta : Eta ObservationRecord := mkEta (λ o,
  mkObservation (observation_id o) (run_ref o) (obs_kind o) (payload_ref o) (admitted_scope o) (admitted_position o)).

Record ScopeDescriptor := mkScopeDescriptor {
  sd_authority : option string;
  sd_lifecycle : option string;
  sd_subject : option string;
}.

Record Tables := mkTables {
  t_log : Db;
  t_records : list RecordRevision;
  t_content : gmap string ContentMetadata;
  t_projections : gmap (string * string) ProjectionMeta;
  t_scopes : gmap string ScopeDescriptor;
  t_observations : gmap string ObservationRecord;
}.

#[export] Instance Tables_eta : Eta Tables := mkEta (λ t,
  mkTables (t_log t) (t_records t) (t_content t) (t_projections t) (t_scopes t) (t_observations t)).

Definition empty_tables : Tables := mkTables empty_db [] ∅ ∅ ∅ ∅.

(** ** Record revisions *)

(** [SELECT .. FROM records WHERE record_id = ?1 ORDER BY revision] *)
Definition revision_le (a b : RecordRevision) : Prop := (revision a ≤ revision b)%Z.
#[export] Instance revision_le_dec : RelDecision revision_le.
Proof. intros a b. unfold revision_le. apply _. Defined.

Definition record_history (t : Tables) (id : string) : list RecordRevision :=
  merge_sort revision_le (filter (λ r, rev_record_id r = id) (t_records t)).

(** [.. ORDER BY revision DESC LIMIT 1] *)
Definition current_record (t : Tables) (id : string) : option RecordRevision := last (record_history t id).

(** [SELECT COALESCE(MAX(revision), 0) + 1] *)
Definition next_revision (t : Tables) (id : string) : Z :=
  (foldr Z.max 0 (revision <$> filter (λ r, rev_record_id r = id) (t_records t)) + 1)%Z.

Definition append_record_revision (t : Tables) (id scope kind payload : string) (tombstone : bool)
    : Tables * RecordRevision :=
  let r := mkRevision id scope kind (next_revision t id) tombstone payload in
  (t <| t_records := t_records t ++ [r] |>, r).

(** ** Upserts *)

(** [CHECK (status IN ('live', 'tombstoned', 'unavailable'))] *)
Definition put_content_metadata (t : Tables) (c : ContentMetadata) : result failure Tables :=
  if bool_decide (content_status c ∈ ["live"; "tombstoned"; "unavailable"])
  then Ok (t <| t_content := <[content_handle c := c]> (t_content t) |>)
  else fail (AE_Db "CHECK constraint failed: content").

Definition content_metadata (t : Tables) (handle : string) : option ContentMetadata := t_content t !! handle.

Definition put_projection_meta (t : Tables) (p : ProjectionMeta) : Tables :=
  t <| t_projections := <[(projection p, proj_scope p) := p]> (t_projections t) |>.

Definition projection_meta (t : Tables) (name scope : string) : option ProjectionMeta := t_projections t !! (name, scope).

Definition put_scope (t : Tables) (scope : string) (authority lifecycle subject : option string) : Tables :=
  t <| t_scopes := <[scope := mkScopeDescriptor authority lifecycle subject]> (t_scopes t) |>.

(** ** Observations *)

Definition observation (t : Tables) (id : string) : option ObservationRecord := t_observations t !! id.

Definition record_observation (t : Tables) (id run kind : string) (payload : option string)
    : Tables * result failure ObservationRecord :=
  let t := match t_observations t !! id with
           | Some _ => t
           | None => t <| t_observations := <[id := mkObservation id run kind payload None None]> (t_observations t) |>
           end in
  (t, ok_or (observation t id) (Failed (AE_Db "Query returned no rows"))).

Definition admit_observation (t : Tables) (id scope : string) (position : Z) : Tables * bool :=
  match select_at (t_log t) scope position with
  | None => (t, false)
  | Some _ =>
      match t_observations t !! id with
      | Some (mkObservation i run kind payload None None) =>
          (t <| t_observations := <[id := mkObservation i run kind payload (Some scope) (Some position)]> (t_observations t) |>, true)
      | _ => (t, false)
      end
  end.

(** ** The schema ledger *)

Definition SUPPORTED_SCHEMA_VERSION : Z := 14.

Record Migration := mkMigration { version : Z; migration_name : string }.

Definition MIGRATIONS : list Migration :=
  [mkMigration 1 "base-store-schema";
   mkMigration 2 "store-meta";
   mkMigration 3 "home-reference-journal";
   mkMigration 4 "home-reference-terminal-refusals";
   mkMigration 5 "home-reference-use-pins";
   mkMigration 6 "home-reference-cumulative-seals";
   mkMigration 7 "home-reference-seal-finalization";
   mkMigration 8 "home-reference-target-store-incarnation";
   mkMigration 9 "project-home-journal-catalog";
   mkMigration 10 "project-authority-keys";
   mkMigration 11 "recorded-pair-provenance";
   mkMigration 12 "scope-fold-checkpoints";
   mkMigration 13 "home-product-bindings";
   mkMigration 14 "record-command-fact-provenance"].

Lemma filter_iff_in {A} (P Q : A → Prop) `{∀ x, Decision (P x), ∀ x, Decision (Q x)} (l : list A) :
  (∀ x, x ∈ l → P x ↔ Q x) → filter P l = filter Q l.
Proof.
  induction l as [|x l IH]; intros Hpq; [done|]. rewrite !filter_cons.
  rewrite IH by (intros; apply Hpq; by right). assert (P x ↔ Q x) as Hx by (apply Hpq; by left).
  destruct (decide (P x)), (decide (Q x)); tauto || done.
Qed.

Section ledger.
(** The schema, and what a migration's batch does to it. *)
Context {Schema : Type} (execute_batch : Z → Schema → option Schema).

Inductive InitError := SchemaAhead (path : string) (found supported : Z) | MigrationFailed (path : string) (m : Migration).

(** [schema_migrations] and the rest of the schema. *)
Record Ledger := mkLedger { versions : gset Z; schema : Schema }.

Definition recorded (l : Ledger) : Z := foldr Z.max 0%Z (elements (versions l)).

(** The loop over [MIGRATIONS]. *)
Fixpoint apply_pending (path : string) (l : Ledger) (ms : list Migration) : result InitError Ledger :=
  match ms with
  | [] => Ok l
  | m :: ms =>
      if bool_decide (version m ∈ versions l) then apply_pending path l ms
      else match execute_batch (version m) (schema l) with
           | None => Err (MigrationFailed path m)
           | Some s => apply_pending path (mkLedger ({[version m]} ∪ versions l) s) ms
           end
  end.

(** [Store::init] *)
Definition init (path : string) (l : Ledger) : Ledger * result InitError unit :=
  if (SUPPORTED_SCHEMA_VERSION <? recorded l)%Z then (l, Err (SchemaAhead path (recorded l) SUPPORTED_SCHEMA_VERSION))
  else match apply_pending path l MIGRATIONS with
       | Ok l => (l, Ok ())
       | Err e => (l, Err e)
       end.

(** [schema_version] *)
Definition schema_version (l : Ledger) : Z := recorded l.

(** ** The handshake *)

(** The batches of the pending migrations, one after the other. *)
Fixpoint execute_all (s : Schema) (ms : list Migration) : option Schema :=
  match ms with
  | [] => Some s
  | m :: ms => match execute_batch (version m) s with Some s => execute_all s ms | None => None end
  end.

Lemma apply_pending_spec path ms : ∀ l l',
  NoDup (version <$> ms) → apply_pending path l ms = Ok l' →
  versions l' = list_to_set (version <$> ms) ∪ versions l
  ∧ execute_all (schema l) (filter (λ m, version m ∉ versions l) ms) = Some (schema l').
Proof.
  induction ms as [|m ms IH]; intros l l' Hn Hl; cbn [apply_pending] in Hl.
  { injection Hl as <-. split; [set_solver|done]. }
  rewrite fmap_cons in Hn. apply NoDup_cons in Hn as [Hm Hn]. rewrite fmap_cons. cbn [list_to_set]. rewrite filter_cons.
  case_bool_decide as Hin.
  - destruct (IH l l' Hn Hl) as [Hv He]. rewrite decide_False by tauto. split; [rewrite Hv; set_solver|done].
  - destruct (execute_batch (version m) (schema l)) as [s|] eqn:Hs; [|done].
    destruct (IH _ l' Hn Hl) as [Hv He]. cbn [versions schema] in Hv, He. rewrite decide_True by done. split; [rewrite Hv; set_solver|].
    cbn [execute_all]. rewrite Hs, <- He. f_equal. apply filter_iff_in. intros x Hx. cbn [versions].
    assert (version x ≠ version m) as Hne by (intros Heq; apply Hm; rewrite <- Heq; by apply list_elem_of_fmap_2).
    set_solver.
Qed.

Lemma apply_none path ms l : (∀ m, m ∈ ms → version m ∈ versions l) → apply_pending path l ms = Ok l.
Proof.
  induction ms as [|m ms IH]; intros Hall; [done|]. cbn [apply_pending].
  rewrite bool_decide_eq_true_2 by (apply Hall; by left). apply IH. intros x Hx. apply Hall. by right.
Qed.

Lemma max_le (l : list Z) x : (x ∈ l → x ≤ foldr Z.max 0 l)%Z.
Proof. induction l as [|y l IH]; [by intros ?%elem_of_nil|]. intros [->|?]%elem_of_cons; simpl; [lia|]. specialize (IH H). lia. Qed.

Lemma max_bound (l : list Z) b : (0 ≤ b → (∀ x, x ∈ l → x ≤ b) → foldr Z.max 0 l ≤ b)%Z.
Proof.
  intros Hb Hall. induction l as [|y l IH]; simpl; [done|]. pose proof (Hall y ltac:(by left)).
  assert (foldr Z.max 0 l ≤ b)%Z by (apply IH; intros; apply Hall; by right). lia.
Qed.

(** The schema handshake never misreads a newer store and runs each migration once. A
    database that records a newer version is refused and unchanged, and so is one in
    which a migration fails. Otherwise exactly the migrations that were not recorded ran,
    in the order of the ledger, the recorded version is the supported one, and opening
    again runs nothing. *)
Theorem schema_handshake path l :
  let '(l', r) := init path l in
  match r with
  | Err (SchemaAhead _ found supported) => l' = l ∧ (supported < found)%Z ∧ found = recorded l
  | Err (MigrationFailed _ _) => l' = l ∧ (recorded l ≤ SUPPORTED_SCHEMA_VERSION)%Z
  | Ok _ =>
      execute_all (schema l) (filter (λ m, version m ∉ versions l) MIGRATIONS) = Some (schema l')
      ∧ versions l' = list_to_set (version <$> MIGRATIONS) ∪ versions l
      ∧ schema_version l' = SUPPORTED_SCHEMA_VERSION ∧ init path l' = (l', Ok ())
  end.
Proof.
  unfold init. destruct (Z.ltb_spec SUPPORTED_SCHEMA_VERSION (recorded l)) as [Hlt|Hle]; [done|].
  destruct (apply_pending path l MIGRATIONS) as [l'|e] eqn:Hp.
  - assert (NoDup (version <$> MIGRATIONS)) as Hn by (apply (bool_decide_unpack _); vm_compute; done).
    destruct (apply_pending_spec path MIGRATIONS l l' Hn Hp) as [Hv He].
    assert (recorded l' = SUPPORTED_SCHEMA_VERSION) as Hrec.
    { unfold recorded in *. apply Z.le_antisymm.
      - apply max_bound; [done|]. intros x Hx. apply elem_of_elements in Hx. rewrite Hv in Hx.
        apply elem_of_union in Hx as [Hx%elem_of_list_to_set|Hx].
        + revert x Hx. apply Forall_forall. apply (bool_decide_unpack _). vm_compute. done.
        + etrans; [|exact Hle]. apply max_le. by apply elem_of_elements.
      - apply max_le. apply elem_of_elements. rewrite Hv. apply elem_of_union_l, elem_of_list_to_set.
        apply (bool_decide_unpack _). vm_compute. done. }
    split_and!; [done|done|done|]. rewrite Hrec, Z.ltb_irrefl. rewrite apply_none; [done|]. intros m Hm. rewrite Hv.
    apply elem_of_union_l, elem_of_list_to_set. by apply list_elem_of_fmap_2.
  - destruct e as [q f sup|q m]; [|done]. exfalso. revert Hp. clear. generalize MIGRATIONS. intros ms. revert l.
    induction ms as [|m ms IH]; intros l; [done|]. cbn [apply_pending]. case_bool_decide; [apply IH|].
    destruct (execute_batch (version m) (schema l)); [apply IH|done].
Qed.
End ledger.

(** ** What the tables keep *)

(** One operation, or the log moving on. *)
Inductive tables_step (t : Tables) : Tables → Prop :=
| step_revision id scope kind payload dead : tables_step t (append_record_revision t id scope kind payload dead).1
| step_content c t' : put_content_metadata t c = Ok t' → tables_step t t'
| step_projection p : tables_step t (put_projection_meta t p)
| step_scope scope authority lifecycle subject : tables_step t (put_scope t scope authority lifecycle subject)
| step_observe id run kind payload : tables_step t (record_observation t id run kind payload).1
| step_admit id scope position : tables_step t (admit_observation t id scope position).1
| step_log db : db_ok db → events (t_log t) `prefix_of` events db → tables_step t (t <| t_log := db |>).

(** The revisions of each record are numbered from one, in the order they were written. *)
Definition numbered_revisions (t : Tables) : Prop :=
  ∀ id i r, filter (λ r, rev_record_id r = id) (t_records t) !! i = Some r → revision r = Z.of_nat (S i).

(** A link names an event, and both its coordinates are set or neither. *)
Definition link_ok (t : Tables) (o : ObservationRecord) : Prop :=
  match admitted_scope o, admitted_position o with
  | Some scope, Some position => is_Some (select_at (t_log t) scope position)
  | None, None => True
  | _, _ => False
  end.

Record tables_ok (t : Tables) : Prop := {
  tb_log : db_ok (t_log t);
  tb_revisions : numbered_revisions t;
  tb_observations : ∀ id o, t_observations t !! id = Some o → observation_id o = id ∧ link_ok t o;
}.

(** What a later state keeps: the revisions in place, the original correlation of every
    observation, and its link once it has one. *)
Definition keeps_observation (o o' : ObservationRecord) : Prop :=
  observation_id o' = observation_id o ∧ run_ref o' = run_ref o ∧ obs_kind o' = obs_kind o ∧ payload_ref o' = payload_ref o
  ∧ (admitted_scope o ≠ None → o' = o).

Record tables_keep (t t' : Tables) : Prop := {
  tk_records : t_records t `prefix_of` t_records t';
  tk_observations : ∀ id o, t_observations t !! id = Some o → ∃ o', t_observations t' !! id = Some o' ∧ keeps_observation o o';
}.

Lemma keeps_refl o : keeps_observation o o.
Proof. done. Qed.

Lemma keeps_trans o1 o2 o3 : keeps_observation o1 o2 → keeps_observation o2 o3 → keeps_observation o1 o3.
Proof.
  intros (A1 & A2 & A3 & A4 & A5) (B1 & B2 & B3 & B4 & B5). split_and!; [congruence..|]. intros Hne.
  specialize (A5 Hne). subst o2. by apply B5.
Qed.

#[export] Instance tables_keep_preorder : PreOrder tables_keep.
Proof.
  split.
  - intros t. split; [done|]. intros id o Ho. exists o. by split.
  - intros t1 t2 t3 [Hr1 Ho1] [Hr2 Ho2]. split; [by etrans|]. intros id o Ho.
    destruct (Ho1 id o Ho) as (o2 & Ho2' & K1). destruct (Ho2 id o2 Ho2') as (o3 & Ho3 & K2). exists o3.
    split; [done|]. by eapply keeps_trans.
Qed.

Lemma numbered_max (rows : list RecordRevision) k :
  (∀ i r, rows !! i = Some r → revision r = Z.of_nat (k + S i)) →
  (foldr Z.max 0 (revision <$> rows) = match rows with [] => 0 | _ => Z.of_nat (k + length rows) end)%Z.
Proof.
  revert k. induction rows as [|r rows IH]; intros k Hn; [done|]. rewrite fmap_cons. cbn [foldr].
  rewrite (IH (S k)).
  - pose proof (Hn 0 r eq_refl) as H0. destruct rows; simpl in *; lia.
  - intros i x Hx. rewrite (Hn (S i) x) by done. lia.
Qed.

Lemma revisions_sorted (rows : list RecordRevision) k :
  (∀ i r, rows !! i = Some r → revision r = Z.of_nat (k + S i)) → StronglySorted revision_le rows.
Proof.
  revert k. induction rows as [|r rows IH]; intros k Hn; constructor.
  - apply (IH (S k)). intros i x Hx. rewrite (Hn (S i) x) by done. lia.
  - apply Forall_forall. intros x [i Hi]%list_elem_of_lookup. unfold revision_le. rewrite (Hn 0 r), (Hn (S i) x) by done. lia.
Qed.

(** The history of a record is what was written for it, as it was written. *)
Lemma record_history_numbered t id :
  numbered_revisions t → record_history t id = filter (λ r, rev_record_id r = id) (t_records t).
Proof.
  intros Hn. unfold record_history. specialize (Hn id). revert Hn. generalize (filter (λ r, rev_record_id r = id) (t_records t)).
  intros rows Hn. apply (StronglySorted_unique_strong revision_le).
  - intros a b Ha [j Hb]%list_elem_of_lookup Hab Hba. rewrite merge_sort_Permutation in Ha.
    apply list_elem_of_lookup in Ha as [i Ha]. pose proof (Hn i a Ha). pose proof (Hn j b Hb). unfold revision_le in *.
    assert (i = j) as -> by lia. congruence.
  - apply StronglySorted_merge_sort; [intros a b c|intros a b]; unfold revision_le; lia.
  - by apply (revisions_sorted rows 0).
  - apply merge_sort_Permutation.
Qed.

Lemma next_revision_numbered t id :
  numbered_revisions t → next_revision t id = Z.of_nat (S (length (filter (λ r, rev_record_id r = id) (t_records t)))).
Proof.
  intros Hn. unfold next_revision. rewrite (numbered_max _ 0) by (intros i r Hr; by apply (Hn id)).
  destruct (filter _ _); simpl; lia.
Qed.

Lemma revision_numbered t id scope kind payload dead :
  numbered_revisions t → numbered_revisions (append_record_revision t id scope kind payload dead).1.
Proof.
  intros Hn id' i r. unfold append_record_revision. simpl. rewrite filter_app, filter_cons, filter_nil. simpl.
  case_decide as Hid; [|rewrite app_nil_r; apply Hn].
  intros [Hr|[Hi [H0 <-]%list_lookup_singleton_Some]]%lookup_app_Some; [by apply (Hn id')|]. simpl.
  subst id'. rewrite next_revision_numbered by done. lia.
Qed.

Lemma link_later t db o :
  db_ok (t_log t) → db_ok db → events (t_log t) `prefix_of` events db → link_ok t o → link_ok (t <| t_log := db |>) o.
Proof.
  intros Hok Hok' [new Hnew] Hl. unfold link_ok in *. destruct (admitted_scope o) as [scope|], (admitted_position o) as [position|]; try done.
  destruct Hl as [r Hr]. exists r. simpl. apply select_at_dense in Hr as [Hp Hr]; [|done]. apply select_at_dense; [done|].
  split; [done|]. unfold scope_rows. rewrite Hnew, filter_app. by apply lookup_app_l_Some.
Qed.

Lemma tables_step_ok t t' : tables_ok t → tables_step t t' → tables_ok t' ∧ tables_keep t t'.
Proof.
  intros [Hlog Hrev Hobs] Hstep. destruct Hstep as [id scope kind payload dead|c t' Hc|p|scope a l s|id run kind payload|id scope position|db Hdb Hpre].
  - split; [split; [done|by apply revision_numbered|done]|]. split; [simpl; by apply prefix_app_r|]. intros i o Ho. exists o. by split.
  - unfold put_content_metadata in Hc. case_bool_decide; [|done]. injection Hc as <-.
    split; [by split|]. split; [done|]. intros i o Ho. exists o. by split.
  - split; [by split|]. split; [done|]. intros i o Ho. exists o. by split.
  - split; [by split|]. split; [done|]. intros i o Ho. exists o. by split.
  - unfold record_observation. cbv zeta. cbn [fst]. destruct (t_observations t !! id) as [o0|] eqn:Hid.
    { split; [by split|reflexivity]. }
    split.
    + split; [done|done|]. intros i o Ho. simpl in Ho. apply lookup_insert_Some in Ho as [[-> <-]|[_ Ho]]; [by split|by apply Hobs].
    + split; [done|]. intros i o Ho. exists o. split; [|done]. simpl. rewrite lookup_insert_ne; [done|]. intros ->. congruence.
  - unfold admit_observation. destruct (select_at (t_log t) scope position) as [r|] eqn:Hat; [|split; [by split|reflexivity]].
    destruct (t_observations t !! id) as [[i0 run kind payload [?|] [?|]]|] eqn:Hid; cbn [fst]; try (split; [by split|reflexivity]).
    split.
    + split; [done|done|]. intros i o Ho. simpl in Ho. apply lookup_insert_Some in Ho as [[-> <-]|[_ Ho]]; [|by apply Hobs].
      destruct (Hobs _ _ Hid) as [Hi _]. split; [done|]. unfold link_ok. simpl. by rewrite Hat.
    + split; [done|]. intros i o Ho. simpl. destruct (decide (i = id)) as [->|Hne].
      * rewrite lookup_insert_eq. assert (o = mkObservation i0 run kind payload None None) as -> by congruence. eexists. split; [done|]. by split_and!.
      * rewrite lookup_insert_ne by done. exists o. by split.
  - split.
    + split; [done|done|]. intros i o Ho. destruct (Hobs i o Ho) as [Hi Hl]. split; [done|]. by apply link_later.
    + split; [done|]. intros i o Ho. exists o. by split.
Qed.

Lemma tables_steps_ok t t' : tables_ok t → rtc tables_step t t' → tables_ok t' ∧ tables_keep t t'.
Proof.
  intros Hok Hsteps. induction Hsteps as [t|t1 t2 t3 Hstep _ IH]; [done|].
  destruct (tables_step_ok t1 t2 Hok Hstep) as [Hok2 K2]. destruct (IH Hok2) as [Hok3 K3]. split; [done|by etrans].
Qed.

(** Revisions and observations are never rewritten. In whatever order the operations on
    the operational tables come, the history of a record is its revisions numbered from
    one and its current revision is the last, and later histories extend earlier ones. An
    observation keeps its original correlation; it is linked at most once, to an event
    that exists, and the link never changes. *)
Theorem tables_never_rewrite t t' :
  tables_ok t → rtc tables_step t t' →
  (∀ id, let history := record_history t' id in
     revision <$> history = Z.of_nat <$> seq 1 (length history)
     ∧ record_history t id `prefix_of` history ∧ current_record t' id = last history)
  ∧ ∀ id o, observation t id = Some o → ∃ o', observation t' id = Some o' ∧ keeps_observation o o' ∧ link_ok t' o'.
Proof.
  intros Hok Hsteps. destruct (tables_steps_ok t t' Hok Hsteps) as [Hok' [Hpre Hobs]].
  split.
  - intros id. cbv zeta. rewrite !record_history_numbered by (by destruct Hok, Hok'). split_and!.
    + apply list_eq. intros i. rewrite !list_lookup_fmap.
      destruct (filter (λ r, rev_record_id r = id) (t_records t') !! i) as [r|] eqn:Hr.
      * rewrite lookup_seq_lt by (by apply lookup_lt_Some in Hr). simpl. by rewrite (tb_revisions _ Hok' id i r Hr).
      * rewrite lookup_seq_ge by (by apply lookup_ge_None_1 in Hr). done.
    + destruct Hpre as [new ->]. rewrite filter_app. by apply prefix_app_r.
    + unfold current_record. by rewrite record_history_numbered by (by destruct Hok').
  - intros id o Ho. destruct (Hobs id o Ho) as (o' & Ho' & K). exists o'. split_and!; [done|done|]. by apply (tb_observations _ Hok' id).
Qed.

Lemma empty_tables_ok : tables_ok empty_tables.
Proof. split; [by intros scope i r|by intros id i r|]. intros id o Ho. discriminate Ho. Qed.

(** A record written and then withdrawn. *)
Definition withdrawn : Tables :=
  (append_record_revision (append_record_revision empty_tables "r" "s" "k" "one" false).1 "r" "s" "k" "" true).1.

Lemma tables_never_rewrite_witness :
  tables_ok empty_tables ∧ rtc tables_step empty_tables withdrawn
  ∧ revision <$> record_history withdrawn "r" = [1; 2]%Z ∧ tombstone <$> current_record withdrawn "r" = Some true.
Proof.
  assert (rtc tables_step empty_tables withdrawn) as Hs.
  { eapply rtc_l; [apply (step_revision _ "r" "s" "k" "one" false)|]. apply rtc_once. apply step_revision. }
  split; [exact empty_tables_ok|]. split; [exact Hs|].
  destruct (tables_never_rewrite empty_tables withdrawn empty_tables_ok Hs) as [H _].
  destruct (H "r") as (H1 & _ & H3). split; [rewrite H1; vm_compute; reflexivity|]. rewrite H3. vm_compute. reflexivity.
Defined.
