(* ===== verification/Commands.v ===== *)
(** * The command table

    The [commands] table of [crates/store/src/lib.rs] beside the log of [Store.v]: the
    caller's original command under an idempotency key, its operational status, claims,
    failures, recovery at startup and [admit_materialized]; and, of
    [command_dispatch.rs], the basis on which an authorization was read and its check
    under the writer.

    A command row is unique by id and by (scope, key). The clock and the process guards
    a check reads are a state of the process, one per check. *)

From stdpp Require Import pretty.
From S2P Require Import Prelude Ids Lifecycle Store.

(** ** Tables *)

Record CommandRecord := mkCommandRecord {
  command_id : string;
  cmd_scope : string;
  idempotency_key : string;
  status : string;
  snapshot_json : string;
}.

#[export] Instance CommandRecord_eta : Eta CommandRecord := mkEta (λ r,
  mkCommandRecord (command_id r) (cmd_scope r) (idempotency_key r) (status r) (snapshot_json r)).

Record HomeProductBinding := mkBinding { project_id : string; bound_home_id : string; incarnation : string }.

#[export] Instance HomeProductBinding_eq_dec : EqDecision HomeProductBinding.
Proof. solve_decision. Defined.

(** [home_product_storage] is there or not, and has its row or not;
    [record_command_fact_refs] maps (scope, key, index) to an event coordinate. *)
Record Cdb := mkCdb {
  log_db : Db;
  commands : list CommandRecord;
  record_command_fact_sets : gmap (string * string) Z;
  record_command_fact_refs : gmap (string * string * Z) (string * Z);
  home_product_storage : option (option HomeProductBinding);
}.

#[export] Instance Cdb_eta : Eta Cdb := mkEta (λ c,
  mkCdb (log_db c) (commands c) (record_command_fact_sets c) (record_command_fact_refs c)
    (home_product_storage c)).

Definition empty_cdb : Cdb := mkCdb empty_db [] ∅ ∅ None.

(** [CHECK (status IN (..))] *)
Definition statuses : list string := ["received"; "processing"; "applied"; "rejected"; "expired"].

Definition same_key (scope key : string) (r : CommandRecord) : bool :=
  String.eqb (cmd_scope r) scope && String.eqb (idempotency_key r) key.

Definition has_id (id : string) (r : CommandRecord) : bool := String.eqb (command_id r) id.

(** [.. WHERE scope_id = ?1 AND idempotency_key = ?2], [.. WHERE command_id = ?1] *)
Definition command_by_key (c : Cdb) (scope key : string) : option CommandRecord :=
  List.find (same_key scope key) (commands c).
Definition command (c : Cdb) (id : string) : option CommandRecord := List.find (has_id id) (commands c).

Definition conflicts (row : CommandRecord) (rows : list CommandRecord) : bool :=
  existsb (λ r, has_id (command_id row) r || same_key (cmd_scope row) (idempotency_key row) r) rows.

(** [INSERT OR IGNORE INTO commands], with the number of rows inserted. *)
Definition insert_or_ignore (c : Cdb) (row : CommandRecord) : Cdb * nat :=
  if conflicts row (commands c) then (c, 0) else (c <| commands := commands c ++ [row] |>, 1).

(** [INSERT INTO commands] *)
Definition insert_command (c : Cdb) (row : CommandRecord) : result failure Cdb :=
  if conflicts row (commands c) then fail (AE_Db "UNIQUE constraint failed: commands")
  else Ok (c <| commands := commands c ++ [row] |>).

(** [UPDATE commands SET status = ? WHERE ..], with the number of rows updated. *)
Definition update_status (c : Cdb) (chosen : CommandRecord → bool) (to : string) : Cdb * nat :=
  (c <| commands := (λ r, if chosen r then r <| status := to |> else r) <$> commands c |>,
   length (List.filter chosen (commands c))).

Definition receipted (c : Cdb) (scope key : string) : bool :=
  bool_decide (is_Some (command_receipts (log_db c) !! (scope, key))).

(** [format!("{prefix}:{}:{scope}{key}", scope.len())] *)
Definition command_name (prefix scope key : string) : string :=
  prefix +:+ ":" +:+ pretty (N.of_nat (String.length scope)) +:+ ":" +:+ scope +:+ key.

Definition rejected {T} (why : string) : result failure T := fail (AE_Rejected (mkRejection why)).
Definition refuse_if (b : bool) (why : string) : result failure unit := if b then rejected why else Ok ().

(** ** Reading an authorization, and checking that it still stands *)

Section basis.
Context {Process : Type} (clock : Process → N).

Record DispatchReadBasis := mkBasis {
  store_path : string;
  home_product : option HomeProductBinding;
  heads : gmap string (option Z);
  deadline : option N;
  process_guards : list (Process → bool);
}.

#[export] Instance DispatchReadBasis_eta : Eta DispatchReadBasis := mkEta (λ b,
  mkBasis (store_path b) (home_product b) (heads b) (deadline b) (process_guards b)).

Definition with_process_guard (b : DispatchReadBasis) (guard : Process → bool) : DispatchReadBasis :=
  b <| process_guards := process_guards b ++ [guard] |>.

Definition with_deadline (b : DispatchReadBasis) (d : N) : DispatchReadBasis :=
  b <| deadline := Some (match deadline b with Some existing => N.min existing d | None => d end) |>.

Definition disagree (mine theirs : gmap string (option Z)) : bool :=
  existsb (λ x, match mine !! x.1 with Some existing => bool_decide (existing ≠ x.2) | None => false end)
    (map_to_list theirs).

Definition combine (b other : DispatchReadBasis) : result failure DispatchReadBasis :=
  if negb (String.eqb (store_path b) (store_path other))
     || bool_decide (home_product b ≠ home_product other) || disagree (heads b) (heads other)
  then rejected "resource observations have incompatible dispatch bases"
  else
    let b := b <| heads := heads other ∪ heads b |> in
    let b := b <| process_guards := process_guards b ++ process_guards other |> in
    Ok (match deadline other with Some d => with_deadline b d | None => b end).

Definition check_validity (p : Process) (deadline : option N) (guards : list (Process → bool))
    : result failure unit :=
  if match deadline with Some e => bool_decide (e ≤ clock p)%N | None => false end
  then rejected "dispatch authorization expired while waiting"
  else if existsb (λ guard : Process → bool, negb (guard p)) guards
  then rejected "dispatch authentication is no longer active"
  else Ok ().

Definition binding_in (c : Cdb) : result failure (option HomeProductBinding) :=
  match home_product_storage c with
  | None => Ok None
  | Some None => fail (AE_Db "Query returned no rows")
  | Some (Some b) => Ok (Some b)
  end.

(** [SELECT MAX(position) FROM events WHERE scope_id = ?1] *)
Definition head_of (c : Cdb) (scope : string) : option Z :=
  max_position (filter (λ r, row_scope r = scope) (events (log_db c))).

Definition check_dispatch_basis (c : Cdb) (path : string) (p : Process) (b : DispatchReadBasis)
    : result failure unit :=
  try! check_validity p (deadline b) (process_guards b);
  try! (if negb (String.eqb (store_path b) path)
        then rejected "dispatch authorization came from another store"
        else let? bound := binding_in c in
             refuse_if (bool_decide (home_product b ≠ bound)) "dispatch authorization came from another store");
  refuse_if (existsb (λ x, bool_decide (head_of c x.1 ≠ x.2)) (map_to_list (heads b)))
    "dispatch authorization changed during preparation".

(** [Store::read_for_dispatch]: the heads of the scopes, and what [read] returns. *)
Definition read_for_dispatch {T} (c : Cdb) (path : string) (bound : option HomeProductBinding)
    (scopes : list string) (read : Cdb → result failure T) : result failure (T * DispatchReadBasis) :=
  if bool_decide (scopes = []) || existsb blank scopes
  then rejected "dispatch authorization requires explicit event scopes"
  else
    let? value := read c in
    Ok (value, mkBasis path bound (list_to_map ((λ s, (s, head_of c s)) <$> reverse scopes)) None []).

(** [Store::confirm_dispatch_basis] *)
Definition confirm_dispatch_basis (c : Cdb) (path : string) (p : Process) (b : DispatchReadBasis)
    : result failure unit := check_dispatch_basis c path p b.

(** ** Claims *)

Definition check_basis_if (c : Cdb) (path : string) (p : Process) (b : option DispatchReadBasis)
    : result failure unit :=
  match b with Some b => check_dispatch_basis c path p b | None => Ok () end.

(** [receive_command] *)
Definition receive_command (c : Cdb) (id scope key snapshot : string) : Cdb * result failure CommandRecord :=
  let c := (insert_or_ignore c (mkCommandRecord id scope key "received" snapshot)).1 in
  (c, ok_or (command_by_key c scope key) (Failed (AE_Db "Query returned no rows"))).

(** [claim_command_with_basis]; the basis is checked when the writer is taken and again
    before it commits. *)
Definition claim_command_with_basis (c : Cdb) (path id scope key snapshot : string)
    (basis : option DispatchReadBasis) (excluded : list (string * string)) (p0 p1 : Process)
    : Cdb * result failure (CommandRecord * bool) :=
  transaction c (
    try! check_basis_if c path p0 basis;
    try! try_each (λ '(s, k), refuse_if (bool_decide (is_Some (command_by_key c s k)))
                     "legacy command receipt requires explicit resolution") excluded;
    let c := (insert_or_ignore c (mkCommandRecord id scope key "received" snapshot)).1 in
    let? record := ok_or (command_by_key c scope key) (Failed (AE_Db "Query returned no rows")) in
    let '(c, claimed) :=
      if String.eqb (snapshot_json record) snapshot && String.eqb (status record) "received"
      then let u := update_status c (λ r, has_id (command_id record) r && String.eqb (status r) "received")
                      "processing" in
           (u.1, bool_decide (u.2 = 1))
      else (c, false) in
    let record := if claimed then record <| status := "processing" |> else record in
    try! check_basis_if c path p1 basis;
    Ok (c, (record, claimed))).

(** [claim_command] *)
Definition claim_command (c : Cdb) (id scope key snapshot : string) (p : Process)
    : Cdb * result failure (CommandRecord * bool) :=
  claim_command_with_basis c "" id scope key snapshot None [] p p.

Definition claim_command_against (c : Cdb) (path id scope key snapshot : string) (basis : DispatchReadBasis)
    (p0 p1 : Process) :=
  claim_command_with_basis c path id scope key snapshot (Some basis) [] p0 p1.
Definition claim_command_excluding (c : Cdb) (path id scope key snapshot : string)
    (basis : option DispatchReadBasis) (excluded : list (string * string)) (p0 p1 : Process) :=
  claim_command_with_basis c path id scope key snapshot basis excluded p0 p1.
End basis.
Arguments DispatchReadBasis : clear implicits.

(** ** Status *)

Definition unfinished (r : CommandRecord) : bool :=
  String.eqb (status r) "received" || String.eqb (status r) "processing".

Definition set_unreceipted_command_failure (c : Cdb) (id to : string) : Cdb * result failure bool :=
  if negb (String.eqb to "rejected" || String.eqb to "expired")
  then (c, rejected "command failure requires rejected or expired status")
  else
    let u := update_status c
               (λ r, has_id id r && unfinished r && negb (receipted c (cmd_scope r) (idempotency_key r))) to in
    (u.1, Ok (bool_decide (u.2 = 1))).

Definition set_command_status (c : Cdb) (id to : string) : Cdb * result failure bool :=
  let u := update_status c (has_id id) to in
  if negb (bool_decide (to ∈ statuses)) && negb (bool_decide (u.2 = 0))
  then (c, fail (AE_Db "CHECK constraint failed: commands"))
  else (u.1, Ok (bool_decide (u.2 = 1))).

(** The loop of [reconcile_commands] over the interrupted rows, and the counts of those
    it found applied and expired. *)
Fixpoint reconcile_loop (c : Cdb) (rows : list CommandRecord) : Cdb * (nat * nat) :=
  match rows with
  | [] => (c, (0, 0))
  | r :: rows =>
      let committed := receipted c (cmd_scope r) (idempotency_key r) in
      let c := (update_status c (has_id (command_id r)) (if committed then "applied" else "expired")).1 in
      let rest := reconcile_loop c rows in
      (rest.1, if committed then (S rest.2.1, rest.2.2) else (rest.2.1, S rest.2.2))
  end.

Definition reconcile_commands (c : Cdb) : Cdb * (nat * nat) :=
  reconcile_loop c (List.filter unfinished (commands c)).

(** ** The materialized command shell *)

Record MaterializedAdmission (S : Type) := mkMaterialized { state : S; replayed : bool }.
Arguments mkMaterialized {S}.
Arguments state {S}.
Arguments replayed {S}.

(** Why a row that is not [received] cannot be claimed. *)
Definition not_claimable (status : string) : string :=
  if String.eqb status "rejected" then "command already rejected; submit with a new key"
  else if String.eqb status "expired" then "idempotency key expired; submit with a new key"
  else if String.eqb status "processing" then "command is already processing"
  else if String.eqb status "applied" then "applied command is missing its durable receipt"
  else "command could not be claimed".

Definition on_log {T} (c : Cdb) (op : Db * T) : Cdb * T := (c <| log_db := op.1 |>, op.2).

Section materialized.
Context (codec : option ContentCodec) (anchor : string → string) (reducer_build : string).
Context (L : Lifecycle) (json : Json (lc_event L)).
(** [serde_json] on [{"kind": .., "command": ..}] *)
Context (command_json : Json (string * lc_command L)).

Definition fold_retained (c : Cdb) (scope : string) : result failure (lc_state L) :=
  fold codec anchor reducer_build L json (log_db c) scope.

Definition admit_materialized (c : Cdb) (scope key : string) (cmd : lc_command L)
    : Cdb * result failure (MaterializedAdmission (lc_state L)) :=
  match to_json command_json (KIND L, cmd) with
  | None => (c, fail AE_Json)
  | Some snapshot =>
      let id := command_name "command" scope key in
      match claim_command (λ _ : unit, 0%N) c id scope key snapshot () with
      | (c, Err e) => (c, Err e)
      | (c, Ok (receipt, claimed)) =>
          if negb (String.eqb (snapshot_json receipt) snapshot)
          then (c, rejected "idempotency key reused with different command")
          else if receipted c scope key then
            match fold_retained c scope with
            | Err e => (c, Err e)
            | Ok s =>
                match set_command_status c id "applied" with
                | (c, Ok _) => (c, Ok (mkMaterialized s true))
                | (c, Err e) => (c, Err e)
                end
            end
          else if negb claimed then (c, rejected (not_claimable (status receipt)))
          else
            match on_log c (admit_with_key codec anchor reducer_build L json (log_db c) scope key cmd) with
            | (c, Ok s) =>
                match set_command_status c id "applied" with
                | (c, Ok _) => (c, Ok (mkMaterialized s false))
                | (c, Err e) => (c, Err e)
                end
            | (c, Err (Failed (AE_Rejected r))) =>
                match set_command_status c id "rejected" with
                | (c, Ok _) => (c, fail (AE_Rejected r))
                | (c, Err e) => (c, Err e)
                end
            | (c, Err (Failed e)) => ((set_command_status c id "expired").1, fail e)
            | (c, Err Unwound) => (c, Err Unwound)
            end
      end
  end.
End materialized.

(** ** Rows are kept *)

(** What never changes in a row. *)
Definition identity (r : CommandRecord) : string * string * string * string :=
  (command_id r, cmd_scope r, idempotency_key r, snapshot_json r).

Definition row_key (r : CommandRecord) : string * string := (cmd_scope r, idempotency_key r).

Record commands_ok (c : Cdb) : Prop := {
  ids_unique : NoDup (command_id <$> commands c);
  keys_unique : NoDup (row_key <$> commands c);
}.

Definition rows_kept (c c' : Cdb) : Prop := (identity <$> commands c) `prefix_of` (identity <$> commands c').

#[export] Instance rows_kept_preorder : PreOrder rows_kept.
Proof. unfold rows_kept. split; [by intros c; reflexivity|]. intros a b c ? ?. by etrans. Qed.

Lemma same_key_spec scope key r : same_key scope key r = true ↔ row_key r = (scope, key).
Proof.
  unfold same_key, row_key. rewrite andb_true_iff, !String.eqb_eq. split; [by intros [-> ->]|by intros [= -> ->]].
Qed.

Lemma has_id_spec id r : has_id id r = true ↔ command_id r = id.
Proof. apply String.eqb_eq. Qed.

Lemma conflicts_false row rows :
  conflicts row rows = false →
  command_id row ∉ command_id <$> rows ∧ row_key row ∉ row_key <$> rows.
Proof.
  unfold conflicts. intros Hc. assert (∀ r, r ∈ rows → has_id (command_id row) r = false
    ∧ same_key (cmd_scope row) (idempotency_key row) r = false) as Hno.
  { intros r Hr. apply orb_false_iff. destruct (_ || _) eqn:Hx; [|done]. rewrite <- Hc. symmetry.
    apply existsb_exists. exists r. split; [by apply list_elem_of_In|done]. }
  split; intros (r & Heq & Hr)%list_elem_of_fmap; destruct (Hno r Hr) as [Hi Hk].
  - by rewrite (proj2 (has_id_spec _ _)) in Hi.
  - by rewrite (proj2 (same_key_spec _ _ _)) in Hk.
Qed.

Lemma insert_row_ok c row :
  commands_ok c → conflicts row (commands c) = false → commands_ok (c <| commands := commands c ++ [row] |>).
Proof.
  intros [Hi Hk] [Hni Hnk]%conflicts_false. split; simpl; rewrite fmap_app; apply NoDup_app;
    (split_and!; [done| |by apply NoDup_singleton]); by intros x Hx ->%list_elem_of_singleton.
Qed.

(** Everything but the command rows is the same. *)
Definition only_commands (c c' : Cdb) : Prop := c' = c <| commands := commands c' |>.

Lemma insert_or_ignore_kept c row :
  commands_ok c → let c' := (insert_or_ignore c row).1 in
  commands_ok c' ∧ rows_kept c c' ∧ only_commands c c'.
Proof.
  intros Hok. unfold insert_or_ignore. destruct (conflicts row (commands c)) eqn:Hc; simpl.
  - split_and!; [done|done|]. unfold only_commands. by destruct c.
  - split_and!; [by apply insert_row_ok| |done]. unfold rows_kept. simpl. rewrite fmap_app. by apply prefix_app_r.
Qed.

Lemma insert_command_kept c row c' :
  commands_ok c → insert_command c row = Ok c' → commands_ok c' ∧ rows_kept c c' ∧ only_commands c c'.
Proof.
  intros Hok. unfold insert_command. destruct (conflicts row (commands c)) eqn:Hc; [done|]. intros [= <-].
  split_and!; [by apply insert_row_ok| |done]. unfold rows_kept. simpl. rewrite fmap_app. by apply prefix_app_r.
Qed.

Lemma update_status_identity c chosen to : identity <$> commands (update_status c chosen to).1 = identity <$> commands c.
Proof. simpl. rewrite <- list_fmap_compose. apply list_fmap_ext. intros _ r _. simpl. by destruct (chosen r). Qed.

Lemma fmap_identity {A} (f : CommandRecord → A) (g : string * string * string * string → A) (l l' : list CommandRecord) :
  (∀ r, f r = g (identity r)) → identity <$> l' = identity <$> l → f <$> l' = f <$> l.
Proof.
  intros Hf Heq. transitivity (g <$> (identity <$> l')); [|rewrite Heq]; rewrite <- list_fmap_compose;
    apply list_fmap_ext; intros; simpl; by rewrite Hf.
Qed.

Lemma identities_ok c c' : identity <$> commands c' = identity <$> commands c → commands_ok c → commands_ok c'.
Proof.
  intros Heq [Hi Hk]. split.
  - by rewrite (fmap_identity command_id (λ x, x.1.1.1) _ _ (λ _, eq_refl) Heq).
  - by rewrite (fmap_identity row_key (λ x, (x.1.1.2, x.1.2)) _ _ (λ _, eq_refl) Heq).
Qed.

Lemma update_status_kept c chosen to :
  commands_ok c → let c' := (update_status c chosen to).1 in
  commands_ok c' ∧ rows_kept c c' ∧ only_commands c c'.
Proof.
  intros Hok. split_and!; [|unfold rows_kept; by rewrite update_status_identity|done].
  eapply identities_ok; [apply update_status_identity|done].
Qed.

Lemma find_append {A} (f : A → bool) l l' :
  List.find f (l ++ l') = match List.find f l with Some x => Some x | None => List.find f l' end.
Proof. induction l as [|x l IH]; simpl; [done|]. by destruct (f x). Qed.

(** The row of a key, by its key. *)
Lemma command_by_key_Some c scope key r :
  commands_ok c → command_by_key c scope key = Some r ↔ r ∈ commands c ∧ row_key r = (scope, key).
Proof.
  intros [_ Hk]. unfold command_by_key. split.
  - intros [Hin Hs]%List.find_some. split; [by apply list_elem_of_In|by apply same_key_spec].
  - intros [Hin Hr]. destruct (List.find _ _) as [r'|] eqn:Hf.
    + apply List.find_some in Hf as [Hin' Hr'%same_key_spec]. f_equal. apply list_elem_of_In in Hin'.
      apply list_elem_of_lookup in Hin as [i Hi], Hin' as [j Hj].
      assert (i = j) as ->; [|congruence]. eapply NoDup_lookup; [exact Hk| |].
      * by rewrite list_lookup_fmap, Hi.
      * rewrite list_lookup_fmap, Hj. simpl. congruence.
    + apply list_elem_of_In in Hin. pose proof (List.find_none _ _ Hf r Hin) as Hno.
      by rewrite (proj2 (same_key_spec scope key r) Hr) in Hno.
Qed.

(** A row that is kept is found again, with its identity. *)
Lemma rows_kept_by_key c c' scope key r :
  commands_ok c' → rows_kept c c' → command_by_key c scope key = Some r → ∃ r',
    command_by_key c' scope key = Some r' ∧ identity r' = identity r.
Proof.
  intros Hok' Hkept [Hin Hs]%List.find_some. apply list_elem_of_In in Hin.
  assert (identity r ∈ identity <$> commands c') as (r' & Hid & Hin')%list_elem_of_fmap.
  { eapply elem_of_prefix; [|exact Hkept]. by apply list_elem_of_fmap_2. }
  exists r'. split; [|done]. apply command_by_key_Some; [done|]. split; [done|].
  apply same_key_spec in Hs. unfold identity in Hid. unfold row_key in *. congruence.
Qed.

(** The name of a command is its own: the length of the scope tells where the key begins. *)
Lemma command_name_inj prefix scope key scope' key' :
  command_name prefix scope key = command_name prefix scope' key' → scope = scope' ∧ key = key'.
Proof.
  unfold command_name. intros Heq. do 2 apply (inj (String.append _)) in Heq.
  apply append_sep_inj in Heq as [Hl Heq]; [|apply pretty_without; intros k; unfold pretty_N_char; by repeat case_match..].
  apply append_length_inj in Heq; [done|]. apply (inj pretty), (inj N.of_nat) in Hl. done.
Qed.

(** ** Recovery at startup *)

Lemma filter_andb_filter {A} (f g : A → bool) l : List.filter (λ x, f x && g x) l = List.filter g (List.filter f l).
Proof. induction l as [|x l IH]; simpl; [done|]. destruct (f x); simpl; [destruct (g x)|]; by rewrite ?IH. Qed.

Definition verdict (c : Cdb) (r : CommandRecord) : string :=
  if receipted c (cmd_scope r) (idempotency_key r) then "applied" else "expired".

Definition touch (v : CommandRecord → string) (x r : CommandRecord) : CommandRecord :=
  if has_id (command_id r) x then x <| status := v r |> else x.

(** The loop writes each row's verdict, one row after the other. *)
Lemma reconcile_loop_spec c rows :
  reconcile_loop c rows
  = (c <| commands := (λ x, fold_left (touch (verdict c)) rows x) <$> commands c |>,
     (length (List.filter (λ r, receipted c (cmd_scope r) (idempotency_key r)) rows),
      length (List.filter (λ r, negb (receipted c (cmd_scope r) (idempotency_key r))) rows))).
Proof.
  revert c. induction rows as [|r rows IH]; intros c.
  - simpl. rewrite list_fmap_id. by destruct c.
  - cbn [reconcile_loop]. rewrite IH. cbv zeta. simpl. rewrite <- list_fmap_compose. unfold receipted. simpl.
    apply (f_equal2 pair); [|by case_bool_decide; simpl]. by f_equal.
Qed.

(** A row is touched exactly when its id is among the rows. *)
Lemma touch_all v rows x w :
  (∀ r, r ∈ rows → command_id r = command_id x → v r = w) →
  fold_left (touch v) rows x
  = if bool_decide (command_id x ∈ command_id <$> rows) then x <| status := w |> else x.
Proof.
  revert x. induction rows as [|r rows IH]; intros x Hv; [done|]. simpl. unfold touch at 2. unfold has_id.
  destruct (String.eqb_spec (command_id x) (command_id r)) as [Heq|Hne].
  - rewrite (Hv r) by (done || by left). rewrite IH; simpl.
    + rewrite (bool_decide_eq_true_2 (_ ∈ _ :: _)) by (rewrite Heq; by left).
      by case_bool_decide.
    + intros r' Hr' Hid. apply Hv; [by right|done].
  - rewrite IH by (intros r' ? ?; apply Hv; [by right|done]).
    rewrite (bool_decide_ext (command_id x ∈ command_id r :: _) (command_id x ∈ command_id <$> rows)); [done|].
    rewrite elem_of_cons. naive_solver.
Qed.

(** Startup recovery is exact. It touches the command rows alone: every interrupted
    row becomes [applied] if its receipt committed and [expired] if not, every other row
    stays as it is, the two counts are those of the rows, and a second recovery finds
    nothing to do. *)
Theorem reconcile_exact c :
  commands_ok c →
  let result := reconcile_commands c in
  result.1 = c <| commands := (λ r, if unfinished r then r <| status := verdict c r |> else r) <$> commands c |>
  ∧ result.2 = (length (List.filter (λ r, unfinished r && receipted c (cmd_scope r) (idempotency_key r)) (commands c)),
                length (List.filter (λ r, unfinished r && negb (receipted c (cmd_scope r) (idempotency_key r))) (commands c)))
  ∧ reconcile_commands result.1 = (result.1, (0, 0)).
Proof.
  intros [Hids _]. set (rows := List.filter unfinished (commands c)).
  assert (∀ r, r ∈ rows ↔ r ∈ commands c ∧ unfinished r = true) as Hrows.
  { intros r. unfold rows. rewrite list_elem_of_In, List.filter_In, <- list_elem_of_In. done. }
  assert (∀ x r, x ∈ commands c → r ∈ commands c → command_id r = command_id x → r = x) as Hinj.
  { intros x r [i Hi]%list_elem_of_lookup [j Hj]%list_elem_of_lookup Heq.
    assert (i = j) as ->; [|congruence]. eapply NoDup_lookup; [exact Hids|by rewrite list_lookup_fmap, Hi|].
    rewrite list_lookup_fmap, Hj. simpl. congruence. }
  assert ((reconcile_commands c).1
    = c <| commands := (λ r, if unfinished r then r <| status := verdict c r |> else r) <$> commands c |>) as Hc.
  { unfold reconcile_commands. rewrite reconcile_loop_spec. simpl. f_equal. apply list_fmap_ext.
    intros i x Hx%list_elem_of_lookup_2. fold rows. rewrite (touch_all _ rows x (verdict c x)).
    - rewrite (bool_decide_ext _ (unfinished x = true)).
      + destruct (unfinished x); by case_bool_decide.
      + rewrite list_elem_of_fmap. setoid_rewrite Hrows. split; [|eauto].
        intros (r & Hid & Hr & Hu). by rewrite <- (Hinj x r).
    - intros r [Hr _]%Hrows Heq. by rewrite (Hinj x r). }
  split_and!; [exact Hc| |].
  - unfold reconcile_commands. rewrite reconcile_loop_spec. simpl. by rewrite !filter_andb_filter.
  - rewrite Hc. set (settle := λ r, if unfinished r then r <| status := verdict c r |> else r).
    assert (∀ l, List.filter unfinished (settle <$> l) = []) as Hnone.
    2: { change (reconcile_loop (c <| commands := settle <$> commands c |>)
           (List.filter unfinished (settle <$> commands c)) = (c <| commands := settle <$> commands c |>, (0, 0))).
         by rewrite Hnone. }
    induction l as [|r l IH]; [done|]. rewrite fmap_cons. cbn [List.filter]. rewrite IH. unfold settle.
    destruct (unfinished r) eqn:Hu; [|by rewrite Hu]. unfold unfinished, verdict. simpl. by destruct (receipted c _ _).
Qed.

(** ** What a basis promises *)

Section basis_theorems.
Context {Process : Type} (clock : Process → N).

Lemma refuse_if_ok b why : refuse_if b why = Ok () ↔ b = false.
Proof. by destruct b. Qed.

Lemma check_validity_ok p d guards :
  check_validity clock p d guards = Ok () ↔ (∀ e, d = Some e → (clock p < e)%N) ∧ Forall (λ g : Process → bool, g p = true) guards.
Proof.
  assert (existsb (λ g : Process → bool, negb (g p)) guards = false ↔ Forall (λ g : Process → bool, g p = true) guards) as Hg.
  { induction guards as [|g guards IH]; simpl; [by split; [constructor|]|].
    rewrite orb_false_iff, negb_false_iff, Forall_cons, IH. done. }
  unfold check_validity. rewrite <- Hg.
  destruct d as [e|]; [case_bool_decide as He|]; destruct (existsb _ guards); split; try done.
  - intros [Hx _]. specialize (Hx e eq_refl). lia.
  - intros [Hx _]. specialize (Hx e eq_refl). lia.
  - by intros [_ ?].
  - intros _. split; [|done]. intros x [= <-]. lia.
  - by intros [_ ?].
Qed.

Lemma heads_current c (m : gmap string (option Z)) :
  existsb (λ x, bool_decide (head_of c x.1 ≠ x.2)) (map_to_list m) = false
  ↔ map_Forall (λ s h, head_of c s = h) m.
Proof.
  rewrite map_Forall_to_list. induction (map_to_list m) as [|[s h] l IH]; simpl; [by split; [constructor|]|].
  rewrite orb_false_iff, Forall_cons, IH, bool_decide_eq_false. simpl.
  split; intros [H1 ?]; (split; [|done]); [by apply dec_stable|tauto].
Qed.

(** A basis stands exactly when nothing it was read on has moved. *)
Lemma check_dispatch_basis_ok c path p b :
  check_dispatch_basis clock c path p b = Ok () ↔
  ((∀ e, deadline b = Some e → (clock p < e)%N) ∧ Forall (λ g : Process → bool, g p = true) (process_guards b))
  ∧ store_path b = path ∧ binding_in c = Ok (home_product b)
  ∧ map_Forall (λ s h, head_of c s = h) (heads b).
Proof.
  rewrite <- check_validity_ok, <- heads_current. unfold check_dispatch_basis.
  destruct (check_validity clock p _ _) as [[]|]; [|by split; [|intros [? _]]].
  destruct (String.eqb_spec (store_path b) path) as [->|]; simpl; [|by split; [|intros (_ & ? & _)]].
  destruct (binding_in c) as [bound|]; [|by split; [|intros (_ & _ & ? & _)]].
  unfold refuse_if at 1. case_bool_decide as Hb.
  - split; [done|]. intros (_ & _ & [= ->] & _). by destruct Hb.
  - subst bound. rewrite refuse_if_ok. tauto.
Qed.

Lemma heads_combined c (mine theirs : gmap string (option Z)) :
  disagree mine theirs = false →
  map_Forall (λ s h, head_of c s = h) (theirs ∪ mine)
  ↔ map_Forall (λ s h, head_of c s = h) mine ∧ map_Forall (λ s h, head_of c s = h) theirs.
Proof.
  intros Hd. assert (∀ s h h', theirs !! s = Some h → mine !! s = Some h' → h' = h) as Hagree.
  { intros s h h' Ht Hm. unfold disagree in Hd. destruct (decide (h' = h)) as [|Hne]; [done|].
    rewrite <- not_true_iff_false in Hd. destruct Hd. apply existsb_exists. exists (s, h). simpl. rewrite Hm.
    split; [by apply list_elem_of_In, elem_of_map_to_list|by apply bool_decide_eq_true]. }
  split.
  - intros Hall. split; intros s h Hs; apply Hall; apply lookup_union_Some_raw; [|by left].
    destruct (theirs !! s) as [h'|] eqn:Ht; [left; by rewrite (Hagree s h' h)|by right].
  - intros [Hm Ht] s h [Hs|[_ Hs]]%lookup_union_Some_raw; [by apply Ht|by apply Hm].
Qed.

Lemma with_deadline_ok c path p d (b : DispatchReadBasis Process) :
  check_dispatch_basis clock c path p (with_deadline b d) = Ok ()
  ↔ check_dispatch_basis clock c path p b = Ok () ∧ (clock p < d)%N.
Proof.
  rewrite !check_dispatch_basis_ok. simpl.
  assert ((∀ e, Some (match deadline b with Some x => N.min x d | None => d end) = Some e → (clock p < e)%N)
    ↔ (∀ e, deadline b = Some e → (clock p < e)%N) ∧ (clock p < d)%N) as ->; [|tauto].
  destruct (deadline b) as [x|]; split.
  - intros Hx. specialize (Hx _ eq_refl). split; [intros e [= <-]|]; lia.
  - intros [Hx ?] e [= <-]. specialize (Hx _ eq_refl). lia.
  - intros Hx. split; [done|by apply Hx].
  - by intros [_ ?] e [= <-].
Qed.

Lemma with_guard_ok c path p g (b : DispatchReadBasis Process) :
  check_dispatch_basis clock c path p (with_process_guard b g) = Ok ()
  ↔ check_dispatch_basis clock c path p b = Ok () ∧ g p = true.
Proof. rewrite !check_dispatch_basis_ok. simpl. rewrite Forall_app, Forall_singleton. tauto. Qed.

Lemma combine_ok c path p (b1 b2 b3 : DispatchReadBasis Process) :
  combine b1 b2 = Ok b3 → heads b1 ⊆ heads b3
  ∧ (check_dispatch_basis clock c path p b3 = Ok ()
     ↔ check_dispatch_basis clock c path p b1 = Ok () ∧ check_dispatch_basis clock c path p b2 = Ok ()).
Proof.
  unfold combine. destruct (String.eqb_spec (store_path b1) (store_path b2)) as [Hp|]; [|done].
  case_bool_decide as Hh; [done|]. simpl. destruct (disagree (heads b1) (heads b2)) eqn:Hd; [done|].
  intros [= <-]. set (b := mkBasis _ _ _ _ _).
  assert (heads match deadline b2 with Some d => with_deadline b d | None => b end = heads b2 ∪ heads b1) as Hheads
    by (by destruct (deadline b2)).
  assert (check_dispatch_basis clock c path p match deadline b2 with Some d => with_deadline b d | None => b end = Ok ()
    ↔ check_dispatch_basis clock c path p b = Ok () ∧ ∀ e, deadline b2 = Some e → (clock p < e)%N) as ->.
  { destruct (deadline b2) as [d|]; [rewrite with_deadline_ok|]; naive_solver. }
  rewrite !check_dispatch_basis_ok. subst b. simpl. rewrite Forall_app, heads_combined by done. split; [|naive_solver congruence].
  rewrite Hheads. apply map_subseteq_spec. intros s h Hs. apply lookup_union_Some_raw.
  destruct (heads b2 !! s) as [h'|] eqn:Ht; [left|by right]. f_equal.
  destruct (decide (h = h')) as [|Hne]; [done|]. rewrite <- not_true_iff_false in Hd. destruct Hd.
  apply existsb_exists. exists (s, h'). simpl. rewrite Hs.
  split; [by apply list_elem_of_In, elem_of_map_to_list|by apply bool_decide_eq_true].
Qed.

(** A scope whose head did not move has no new row. *)
Lemma head_fences c c' scope :
  db_ok (log_db c) → db_ok (log_db c') → events (log_db c) `prefix_of` events (log_db c') →
  head_of c' scope = head_of c scope → scope_rows (log_db c') scope = scope_rows (log_db c) scope.
Proof.
  intros Hok Hok' [new Hnew] Hhead. unfold head_of in Hhead. fold (scope_rows (log_db c') scope) in Hhead.
  fold (scope_rows (log_db c) scope) in Hhead.
  pose proof (max_position_dense _ (Hok scope)) as H1. pose proof (max_position_dense _ (Hok' scope)) as H2.
  rewrite Hhead in H2. assert (scope_rows (log_db c') scope
    = scope_rows (log_db c) scope ++ filter (λ r, row_scope r = scope) new) as Heq.
  { unfold scope_rows. by rewrite Hnew, filter_app. }
  rewrite Heq in H2 |- *. rewrite length_app in H2.
  destruct (filter (λ r, row_scope r = scope) new); [apply app_nil_r|]. simpl in H2. lia.
Qed.

(** An authorization read for dispatch stays fenced. When a basis read in one
    database is checked in a later one, alone or narrowed by a deadline, a guard or another
    basis, no row was appended meanwhile to any scope it was read on, the deadline is
    ahead and every guard holds; and the narrowings are exact, so that two bases combined
    stand exactly when both do. *)
Theorem basis_fences c path bound scopes {T} (read : Cdb → result failure T) v
    (b : DispatchReadBasis Process) :
  read_for_dispatch c path bound scopes read = Ok (v, b) →
  read c = Ok v
  ∧ (∀ c' p b', db_ok (log_db c) → db_ok (log_db c') → events (log_db c) `prefix_of` events (log_db c') →
       heads b ⊆ heads b' → check_dispatch_basis clock c' path p b' = Ok () →
       ∀ scope, scope ∈ scopes → scope_rows (log_db c') scope = scope_rows (log_db c) scope)
  ∧ (∀ c' p d g (b1 : DispatchReadBasis Process),
       (check_dispatch_basis clock c' path p (with_deadline b1 d) = Ok ()
          ↔ check_dispatch_basis clock c' path p b1 = Ok () ∧ (clock p < d)%N)
       ∧ (check_dispatch_basis clock c' path p (with_process_guard b1 g) = Ok ()
          ↔ check_dispatch_basis clock c' path p b1 = Ok () ∧ g p = true)
       ∧ ∀ b2 b3, combine b1 b2 = Ok b3 → heads b1 ⊆ heads b3
          ∧ (check_dispatch_basis clock c' path p b3 = Ok ()
             ↔ check_dispatch_basis clock c' path p b1 = Ok () ∧ check_dispatch_basis clock c' path p b2 = Ok ())).
Proof.
  unfold read_for_dispatch. intros Hread. destruct (_ || _); [done|]. destruct (read c) as [v'|]; [|done].
  injection Hread as <- <-. split_and!; [done| |].
  - intros c' p b' Hok Hok' Hpre Hsub (_ & _ & _ & Hheads)%check_dispatch_basis_ok scope Hin.
    apply head_fences; [done..|]. apply Hheads. eapply lookup_weaken; [|exact Hsub]. simpl.
    apply (elem_of_list_to_map_1' _ _ (head_of c scope)).
    + intros h (s & [= -> ->] & _)%list_elem_of_fmap. done.
    + apply list_elem_of_fmap. exists scope. split; [done|]. by rewrite elem_of_reverse.
  - intros c' p d g b1. split_and!; [apply with_deadline_ok|apply with_guard_ok|].
    intros b2 b3 Hc. by apply combine_ok.
Qed.
End basis_theorems.

(** ** One claim per key *)

Section claims.
Context {Process : Type} (clock : Process → N).

(** What anybody may do to the command table. *)
Inductive CommandOp :=
| OpReceive (id scope key snapshot : string)
| OpClaim (path id scope key snapshot : string) (basis : option (DispatchReadBasis Process))
    (excluded : list (string * string)) (p0 p1 : Process)
| OpFailure (id to : string)
| OpStatus (id to : string)
| OpReconcile.

Definition apply_op (c : Cdb) (op : CommandOp) : Cdb :=
  match op with
  | OpReceive id scope key snapshot => (receive_command c id scope key snapshot).1
  | OpClaim path id scope key snapshot basis excluded p0 p1 =>
      (claim_command_with_basis clock c path id scope key snapshot basis excluded p0 p1).1
  | OpFailure id to => (set_unreceipted_command_failure c id to).1
  | OpStatus id to => (set_command_status c id to).1
  | OpReconcile => (reconcile_commands c).1
  end.

(** No operation returns a row to [received]. *)
Definition not_reset (op : CommandOp) : Prop := ∀ id, op ≠ OpStatus id "received".

(** The rows move on from [received] and never back. *)
Record moves (c c' : Cdb) : Prop := {
  mv_ok : commands_ok c';
  mv_taken : ∀ r, r ∈ commands c → status r ≠ "received" →
               ∃ r', r' ∈ commands c' ∧ identity r' = identity r ∧ status r' ≠ "received";
}.

Lemma moves_refl c : commands_ok c → moves c c.
Proof. intros. split; [done|]. intros r ? ?. by exists r. Qed.

Lemma moves_trans c1 c2 c3 : moves c1 c2 → moves c2 c3 → moves c1 c3.
Proof.
  intros [_ H1] [? H2]. split; [done|]. intros r Hr Hs. destruct (H1 r Hr Hs) as (r2 & Hr2 & Hid & Hs2).
  destruct (H2 r2 Hr2 Hs2) as (r3 & ? & ? & ?). exists r3. split_and!; [done|congruence|done].
Qed.

Lemma insert_moves c row : commands_ok c → moves c (insert_or_ignore c row).1.
Proof.
  intros Hok. split; [by apply insert_or_ignore_kept|]. intros r Hr Hs. exists r. split_and!; [|done|done].
  unfold insert_or_ignore. destruct (conflicts _ _); simpl; [done|]. by apply elem_of_app; left.
Qed.

Lemma update_moves c chosen to : commands_ok c → to ≠ "received" → moves c (update_status c chosen to).1.
Proof.
  intros Hok Hto. split; [by apply update_status_kept|]. intros r Hr Hs.
  exists (if chosen r then r <| status := to |> else r). split_and!.
  - simpl. apply list_elem_of_fmap. by exists r.
  - by destruct (chosen r).
  - by destruct (chosen r).
Qed.

Lemma reconcile_moves c : commands_ok c → moves c (reconcile_commands c).1.
Proof.
  unfold reconcile_commands. generalize (List.filter unfinished (commands c)) as rows. intros rows.
  revert c. induction rows as [|r rows IH]; intros c Hok; [by apply moves_refl|].
  cbn [reconcile_loop]. cbv zeta. cbn [fst]. 
  apply (moves_trans _ (update_status c (has_id (command_id r)) (verdict c r)).1).
  - apply update_moves; [done|]. unfold verdict. by destruct (receipted c (cmd_scope r) (idempotency_key r)).
  - apply IH. by apply update_status_kept.
Qed.

Lemma claim_moves c path id scope key snapshot basis excluded p0 p1 :
  commands_ok c → moves c (claim_command_with_basis clock c path id scope key snapshot basis excluded p0 p1).1.
Proof.
  intros Hok. unfold claim_command_with_basis. destruct (check_basis_if _ _ _ _ _); [|by apply moves_refl].
  destruct (try_each _ _); [|by apply moves_refl]. cbv zeta.
  set (row := mkCommandRecord _ _ _ _ _). pose proof (insert_moves c row Hok) as Hm.
  destruct (command_by_key _ scope key) as [record|]; [|by apply moves_refl]. cbn [ok_or].
  destruct (_ && _).
  - destruct (check_basis_if _ _ _ p1 _); [|by apply moves_refl]. cbn [transaction fst].
    eapply moves_trans; [exact Hm|]. apply update_moves; [by destruct Hm|done].
  - destruct (check_basis_if _ _ _ p1 _); [done|by apply moves_refl].
Qed.

Lemma op_moves c op : commands_ok c → not_reset op → moves c (apply_op c op).
Proof.
  intros Hok Hr. destruct op; simpl.
  - by apply insert_moves.
  - by apply claim_moves.
  - unfold set_unreceipted_command_failure.
    destruct (String.eqb_spec to "rejected") as [->|]; [by apply update_moves|].
    destruct (String.eqb_spec to "expired") as [->|]; [by apply update_moves|by apply moves_refl].
  - unfold set_command_status. destruct (_ && _); [by apply moves_refl|]. apply update_moves; [done|].
    intros ->. by destruct (Hr id).
  - by apply reconcile_moves.
Qed.

Lemma ops_move c ops : commands_ok c → Forall not_reset ops → moves c (fold_left apply_op ops c).
Proof.
  intros Hok Hr. revert c Hok. induction Hr as [|op ops Hop _ IH]; intros c Hok; simpl; [by apply moves_refl|].
  pose proof (op_moves c op Hok Hop) as Hm. eapply moves_trans; [exact Hm|]. apply IH. by destruct Hm.
Qed.

(** What a claim that succeeded left behind. *)
Lemma claim_taken c path id scope key snapshot basis excluded p0 p1 c1 r :
  commands_ok c →
  claim_command_with_basis clock c path id scope key snapshot basis excluded p0 p1 = (c1, Ok (r, true)) →
  r ∈ commands c1 ∧ row_key r = (scope, key) ∧ status r ≠ "received" ∧ snapshot_json r = snapshot.
Proof.
  intros Hok. unfold claim_command_with_basis. destruct (check_basis_if _ _ _ _ _); [|done].
  destruct (try_each _ _); [|done]. cbv zeta. set (row := mkCommandRecord _ _ _ _ _).
  pose proof (insert_or_ignore_kept c row Hok) as (Hok' & _ & _). cbv zeta in Hok'.
  destruct (command_by_key _ scope key) as [record|] eqn:Hrec; [|done]. cbn [ok_or].
  apply command_by_key_Some in Hrec as [Hin Hkey]; [|done].
  destruct (_ && _) eqn:Hhit; [|by destruct (check_basis_if _ _ _ p1 _)].
  apply andb_true_iff in Hhit as [Hsnap%String.eqb_eq Hst%String.eqb_eq].
  destruct (check_basis_if _ _ _ p1 _); [|done]. cbn [transaction]. case_bool_decide; [|done].
  intros [= <- <-]. split_and!; [|done|done|done]. simpl. apply list_elem_of_fmap. exists record.
  split; [|done]. unfold has_id. by rewrite String.eqb_refl, Hst.
Qed.

(** A key that is taken is not claimed again, and nothing changes. *)
Lemma taken_unclaimed c path id scope key snapshot basis excluded p0 p1 c' r r' claimed :
  commands_ok c → r ∈ commands c → row_key r = (scope, key) → status r ≠ "received" →
  claim_command_with_basis clock c path id scope key snapshot basis excluded p0 p1 = (c', Ok (r', claimed)) →
  claimed = false ∧ r' = r ∧ c' = c.
Proof.
  intros Hok Hin Hkey Hst. unfold claim_command_with_basis. destruct (check_basis_if _ _ _ _ _); [|done].
  destruct (try_each _ _); [|done]. cbv zeta. set (row := mkCommandRecord _ _ _ _ _).
  assert (insert_or_ignore c row = (c, 0)) as ->.
  { unfold insert_or_ignore. destruct (conflicts row (commands c)) eqn:Hc; [done|].
    apply conflicts_false in Hc as [_ Hc]. destruct Hc. apply list_elem_of_fmap. by exists r. }
  cbn [fst]. rewrite (proj2 (command_by_key_Some c scope key r Hok) (conj Hin Hkey)). cbn [ok_or].
  rewrite (proj2 (String.eqb_neq (status r) "received") Hst), andb_false_r.
  destruct (check_basis_if _ _ _ p1 _); [|done]. cbn [transaction]. by intros [= <- <- <-].
Qed.

(** C17: A command is claimed for execution at most once. After a claim succeeded for a
    scope and key, whatever claims, failures, recoveries and status changes follow, short
    of one that resets a row to [received], no later claim of that key succeeds: it returns
    the original row, with the original snapshot, and changes nothing. *)
Theorem claimed_at_most_once c path id scope key snapshot basis excluded p0 p1 c1 r ops :
  commands_ok c →
  claim_command_with_basis clock c path id scope key snapshot basis excluded p0 p1 = (c1, Ok (r, true)) →
  Forall not_reset ops →
  let c2 := fold_left apply_op ops c1 in
  ∀ path' id' snapshot' basis' excluded' q0 q1 c3 r' claimed,
    claim_command_with_basis clock c2 path' id' scope key snapshot' basis' excluded' q0 q1 = (c3, Ok (r', claimed)) →
    claimed = false ∧ identity r' = identity r ∧ snapshot_json r' = snapshot ∧ c3 = c2.
Proof.
  intros Hok Hclaim Hops c2 path' id' snapshot' basis' excluded' q0 q1 c3 r' claimed Hagain.
  destruct (claim_taken _ _ _ _ _ _ _ _ _ _ _ _ Hok Hclaim) as (Hin & Hkey & Hst & Hsnap).
  assert (commands_ok c1) as Hok1.
  { pose proof (claim_moves c path id scope key snapshot basis excluded p0 p1 Hok) as [Hc _]. by rewrite Hclaim in Hc. }
  destruct (ops_move c1 ops Hok1 Hops) as [Hok2 Htaken]. destruct (Htaken r Hin Hst) as (r2 & Hin2 & Hid & Hst2).
  assert (row_key r2 = (scope, key)) as Hkey2 by (unfold row_key, identity in *; congruence).
  destruct (taken_unclaimed _ _ _ _ _ _ _ _ _ _ _ _ _ _ Hok2 Hin2 Hkey2 Hst2 Hagain) as (-> & -> & ->).
  split_and!; [done|done| |done]. unfold identity in Hid. congruence.
Qed.
End claims.
