(* ===== verification/Remember.v ===== *)
(** * Remembered folds

    [read_stamp] and [remember] of [crates/store/src/lib.rs]: a fold of one scope is
    answered from a connection's memory while nothing a read of the scope could answer
    differently has changed, and for at most [REMEMBERED_FOR].

    The stamp is taken first and the fold runs after it, so the two may see different
    moments of the store. The content codec is an argument; what its [epoch] promises is
    a hypothesis on the history of a store. *)

From S2P Require Import Prelude Ids Lifecycle Store StoreSystem Records Commands.

(** Five seconds, in nanoseconds. *)
Definition REMEMBERED_FOR : N := 5000000000.
Definition FOLDS_REMEMBERED : nat := 512.

Record ReadStamp := mkStamp { stamp_heads : list (option Z); codec_epoch : N }.

#[export] Instance ReadStamp_eq_dec : EqDecision ReadStamp.
Proof. solve_decision. Defined.

(** A codec with its [epoch]. *)
Record EpochCodec := mkEpochCodec { ec_codec : ContentCodec; ec_epoch : string → option N }.

(** What a read sees: the database, the codec, and whether no transaction is open. *)
Record World := mkWorld { w_db : Db; w_codec : option EpochCodec; w_autocommit : bool }.

Definition w_content (w : World) : option ContentCodec := ec_codec <$> w_codec w.

(** The wrapping sum of the epochs of the scopes. *)
Fixpoint epoch_sum (c : EpochCodec) (scopes : list string) (sum : N) : option N :=
  match scopes with
  | [] => Some sum
  | scope :: scopes => match ec_epoch c scope with
                       | Some e => epoch_sum c scopes (u64_add sum e)
                       | None => None
                       end
  end.

Definition scope_head (db : Db) (scope : string) : option Z :=
  max_position (filter (λ r, row_scope r = scope) (events db)).

Definition read_stamp (w : World) (scopes : list string) : option ReadStamp :=
  if negb (w_autocommit w) then None
  else
    match match w_codec w with Some c => epoch_sum c scopes 0%N | None => Some 0%N end with
    | Some epoch => Some (mkStamp (scope_head (w_db w) <$> scopes) epoch)
    | None => None
    end.

(** ** Memory *)

Section memory.
(** [dyn Any], and a type of values in it. *)
Context {Any T : Type} (into : T → Any) (downcast : Any → option T).

Record RememberedFold := mkRemembered { found_stamp : ReadStamp; found_at : N; found_value : Any }.

Local Notation Remembered := (gmap (string * string) RememberedFold).

Definition fresh (now : N) (found : RememberedFold) : Prop := (now - found_at found < REMEMBERED_FOR)%N.
#[global] Instance fresh_dec now found : Decision (fresh now found).
Proof. unfold fresh. apply _. Defined.

(** What the memory answers at [now], if it does. *)
Definition recall (m : Remembered) (stamp : ReadStamp) (now : N) (name scope : string) : option T :=
  match m !! (name, scope) with
  | Some found => if bool_decide (found_stamp found = stamp) && bool_decide (fresh now found)
                  then downcast (found_value found) else None
  | None => None
  end.

(** What it keeps after a fold: what is still fresh, unless it is full. *)
Definition retain (m : Remembered) (now : N) : Remembered :=
  let kept := filter (λ x, fresh now x.2) m in
  if bool_decide (FOLDS_REMEMBERED ≤ size kept) then ∅ else kept.

(** [Store::remember]: the stamp is read in [w0] and the fold runs in [w1]; [now0], [now1]
    and [now2] are the readings of the clock at the lookup, the clean-up and the insert. *)
Definition remember (m : Remembered) (w0 w1 : World) (now0 now1 now2 : N) (name scope : string)
    (fold : World → result failure T) : Remembered * result failure T :=
  match read_stamp w0 [scope] with
  | None => (m, fold w1)
  | Some stamp =>
      match recall m stamp now0 name scope with
      | Some value => (m, Ok value)
      | None =>
          match fold w1 with
          | Err e => (m, Err e)
          | Ok value => (<[(name, scope) := mkRemembered stamp now2 (into value)]> (retain m now1), Ok value)
          end
      end
  end.

(** ** The history of a store *)

(** Events are only appended, and the codec's epoch for a scope moves, and does not come
    back, whenever the codec may open a row of the scope differently. *)
Record history_ok (h : nat → World) : Prop := {
  hist_db : ∀ i, db_ok (w_db (h i));
  hist_grows : ∀ i j, i ≤ j → events (w_db (h i)) `prefix_of` events (w_db (h j));
  hist_codec : (∀ i, w_codec (h i) = None) ∨ (∀ i, is_Some (w_codec (h i)));
  hist_u64 : ∀ i c scope e, w_codec (h i) = Some c → ec_epoch c scope = Some e → (e < u64_modulus)%N;
  hist_epoch : ∀ i j k ci ck scope e, i ≤ j ≤ k → w_codec (h i) = Some ci → w_codec (h k) = Some ck →
    ec_epoch ci scope = Some e → ec_epoch ck scope = Some e →
    ∀ r, decode_row (w_content (h j)) scope r = decode_row (w_content (h k)) scope r;
}.

(** A fold that reads nothing but its scope. *)
Definition reads_only (scope : string) (fold : World → result failure T) : Prop :=
  ∀ w w', scope_rows (w_db w) scope = scope_rows (w_db w') scope →
    (∀ r, decode_row (w_content w) scope r = decode_row (w_content w') scope r) → fold w = fold w'.

Context (h : nat → World) (Hh : history_ok h).
Context (folds : string → string → World → result failure T).
Context (Hlocal : ∀ name scope, reads_only scope (folds name scope)).
Context (Hdown : ∀ t, downcast (into t) = Some t).

(** Every entry was folded at a moment after its stamp and not after [n]. *)
Definition entries_ok (n : nat) (m : Remembered) : Prop :=
  ∀ name scope found, m !! (name, scope) = Some found →
    ∃ i j v, i ≤ j ≤ n ∧ read_stamp (h i) [scope] = Some (found_stamp found)
      ∧ folds name scope (h j) = Ok v ∧ found_value found = into v.

Lemma rows_between i j k scope :
  i ≤ j ≤ k → scope_head (w_db (h i)) scope = scope_head (w_db (h k)) scope →
  scope_rows (w_db (h j)) scope = scope_rows (w_db (h k)) scope.
Proof.
  intros Hij Hhead. pose proof (hist_db h Hh) as Hdb.
  destruct (hist_grows h Hh i j ltac:(lia)) as [n1 E1]. destruct (hist_grows h Hh j k ltac:(lia)) as [n2 E2].
  pose proof (max_position_dense _ (Hdb i scope)) as H1. pose proof (max_position_dense _ (Hdb k scope)) as H2.
  unfold scope_head in Hhead. fold (scope_rows (w_db (h i)) scope) in Hhead. fold (scope_rows (w_db (h k)) scope) in Hhead.
  rewrite Hhead, H2 in H1. unfold scope_rows in H1 |- *. rewrite E2, E1, !filter_app, !length_app in H1. rewrite E2, filter_app.
  destruct (filter (λ r, row_scope r = scope) n2); [by rewrite app_nil_r|]. simpl in H1. lia.
Qed.

(** A single scope's stamp shows its head and its epoch. *)
Lemma stamp_one w scope s :
  read_stamp w [scope] = Some s →
  stamp_heads s = [scope_head (w_db w) scope]
  ∧ ∀ c, w_codec w = Some c → ∃ e, ec_epoch c scope = Some e ∧ codec_epoch s = u64_add 0 e.
Proof.
  unfold read_stamp. destruct (negb (w_autocommit w)); [done|]. destruct (w_codec w) as [c|]; simpl.
  - destruct (ec_epoch c scope) as [e|] eqn:He; [|done]. intros [= <-]. split; [done|]. intros c' [= <-]. by exists e.
  - intros [= <-]. by split.
Qed.

(** While the stamp is the same, every fold in between gives the same answer. *)
Lemma stamp_sound i j k name scope s :
  i ≤ j ≤ k → read_stamp (h i) [scope] = Some s → read_stamp (h k) [scope] = Some s →
  folds name scope (h j) = folds name scope (h k).
Proof.
  intros Hij [Hi Ei]%stamp_one [Hk Ek]%stamp_one. apply (Hlocal name scope).
  - eapply rows_between; [exact Hij|]. congruence.
  - intros r. destruct (hist_codec h Hh) as [Hnone|Hsome].
    + unfold w_content. by rewrite !Hnone.
    + destruct (Hsome i) as [ci Hci], (Hsome k) as [ck Hck].
      destruct (Ei ci Hci) as (e & He & Hse), (Ek ck Hck) as (e' & He' & Hse').
      assert (e = e') as <-.
      { pose proof (hist_u64 h Hh i ci scope e Hci He). pose proof (hist_u64 h Hh k ck scope e' Hck He').
        rewrite Hse in Hse'. by rewrite !u64_add_exact, !N.add_0_l in Hse' by lia. }
      by eapply (hist_epoch h Hh i j k).
Qed.

Lemma entries_later n n' m : n ≤ n' → entries_ok n m → entries_ok n' m.
Proof. intros Hn Hm name scope found Hf. destruct (Hm name scope found Hf) as (i & j & v & ? & ?). exists i, j, v. split; [lia|done]. Qed.

Lemma retain_sub m now : retain m now ⊆ m.
Proof. unfold retain. cbv zeta. case_bool_decide; [apply map_empty_subseteq|apply map_filter_subseteq]. Qed.

(** C21: Memory never changes an answer. Suppose every entry was folded in the past of a
    history in which events are only appended and the codec's epoch moves when its
    answers do. Then whatever [remember] returns is what folding afresh returns, at the
    moment the stamp was read or at the moment the fold ran; the entries stay such, at
    most [FOLDS_REMEMBERED] are kept, and an answer taken from memory is younger than
    [REMEMBERED_FOR]. *)
Theorem remember_faithful m n a b now0 now1 now2 name scope :
  n ≤ a ≤ b → entries_ok n m → size m ≤ FOLDS_REMEMBERED →
  let '(m', r) := remember m (h a) (h b) now0 now1 now2 name scope (folds name scope) in
  (r = folds name scope (h a) ∨ r = folds name scope (h b))
  ∧ entries_ok b m' ∧ size m' ≤ FOLDS_REMEMBERED
  ∧ (r ≠ folds name scope (h b) → ∃ found, m !! (name, scope) = Some found ∧ fresh now0 found).
Proof.
  intros Hab Hm Hsize. unfold remember.
  assert (entries_ok b m) as Hmb by (eapply entries_later; [|done]; lia).
  destruct (read_stamp (h a) [scope]) as [stamp|] eqn:Hs; [|split_and!; [by right|done|done|done]].
  destruct (recall m stamp now0 name scope) as [v|] eqn:Hr.
  - unfold recall in Hr. destruct (m !! (name, scope)) as [found|] eqn:Hf; [|done].
    destruct (bool_decide (found_stamp found = stamp)) eqn:Hst; [|done]. apply bool_decide_eq_true in Hst.
    destruct (bool_decide (fresh now0 found)) eqn:Hfresh; [|done]. apply bool_decide_eq_true in Hfresh. simpl in Hr.
    destruct (Hm name scope found Hf) as (i & j & v' & Hij & Hsi & Hfold & Hv). rewrite Hv, Hdown in Hr. injection Hr as <-.
    split_and!; [|done|done|by exists found]. left. rewrite <- Hfold. eapply stamp_sound; [|exact Hsi|by rewrite Hst]. lia.
  - destruct (folds name scope (h b)) as [v|e] eqn:Hfold; (split_and!; [by right| | |done]); [| |done|done].
    + intros name' scope' found Hf. apply lookup_insert_Some in Hf as [[[= <- <-] <-]|[_ Hf]].
      * exists a, b, v. simpl. split_and!; [lia..|done|done|done].
      * eapply Hmb. eapply lookup_weaken; [exact Hf|apply retain_sub].
    + rewrite map_size_insert. unfold retain. cbv zeta. case_bool_decide as Hfull.
      * rewrite map_size_empty. case_match; unfold FOLDS_REMEMBERED; simpl; lia.
      * case_match; simpl; lia.
Qed.
End memory.

Section witnesses.
Import Sample.

(** A record arrives at the third moment. *)
Definition moment (i : nat) : World :=
  mkWorld (if (i <? 3)%nat then db else serve db (AppendRecord host "s" "note" "late"))
    (Some (mkEpochCodec codec (λ _, Some 7%N))) true.

Lemma moments_ok : history_ok moment.
Proof.
  pose proof (served_ok (Some codec) anchor "build" host host_kinds db db_served) as Hsys.
  destruct (serve_ok (Some codec) anchor "build" host host_kinds db (AppendRecord host "s" "note" "late") Hsys) as [[Hok _] [Hpre _]];
    [intros []; discriminate|].
  split.
  - intros i. unfold moment. cbn [w_db]. destruct (i <? 3)%nat; [exact (proj1 Hsys)|exact Hok].
  - intros i j Hij. unfold moment. cbn [w_db]. destruct (Nat.ltb_spec i 3), (Nat.ltb_spec j 3); [reflexivity|exact Hpre|lia|reflexivity].
  - right. intros i. by eexists.
  - intros i c scope e [= <-] [= <-]. reflexivity.
  - intros. reflexivity.
Qed.

Definition notes (_ scope : string) (w : World) : result failure (list string) :=
  Ok (omap (decode_row (w_content w) scope) (filter (λ r, row_kind r = "note") (scope_rows (w_db w) scope))).

Lemma notes_local name scope : reads_only scope (notes name scope).
Proof.
  intros w w' Hrows Hdec. unfold notes. rewrite Hrows. f_equal. induction (filter _ _) as [|r rows IH]; [done|].
  cbn [omap list_omap]. rewrite Hdec. destruct (decode_row (w_content w') scope r); [f_equal|]; exact IH.
Qed.

(** A fold remembered at the first moment is answered at the second and folded again at
    the third. *)
Lemma remember_faithful_witness :
  let m1 := (remember id Some ∅ (moment 0) (moment 0) 0 0 0 "notes" "s" (notes "notes" "s")).1 in
  entries_ok (T := list string) id moment notes 0 m1
  ∧ (remember id Some m1 (moment 1) (moment 1) 9 9 9 "notes" "s" (notes "notes" "s")).2 = Ok ["first"; "last"]
  ∧ (remember id Some m1 (moment 3) (moment 3) 9 9 9 "notes" "s" (notes "notes" "s")).2 = Ok ["first"; "last"; "late"].
Proof.
  intros m1.
  pose proof (remember_faithful id Some moment moments_ok notes notes_local (λ t, eq_refl) ∅ 0 0 0 0 0 0 "notes" "s") as H0.
  assert (entries_ok (T := list string) id moment notes 0 m1) as Hm1.
  { unfold m1. destruct (remember id Some ∅ (moment 0) (moment 0) 0 0 0 "notes" "s" (notes "notes" "s")) as [m r].
    apply H0; [lia| |]; [intros name scope found Hf; discriminate Hf|unfold FOLDS_REMEMBERED; rewrite map_size_empty; lia]. }
  split; [exact Hm1|]. split; vm_compute; reflexivity.
Defined.
End witnesses.
