(* ===== verification/RecordAdmission.v ===== *)
(** * Admission of record facts

    [record_admission.rs], and [admit_record_facts] with its variants and readers in
    [lib.rs] of [crates/store/src]: a caller's exact command, the facts it appends (and
    the lifecycle events and the chained audit fact beside them) and its receipt commit
    together, once per (scope, key). *)

From S2P Require Import Prelude Ids Lifecycle Store Commands.

Record CommandRecordFact := mkFact { fact_scope : string; fact_kind : string; fact_payload : string }.

Record ChainedRecordFact := mkChained {
  chained_scope : string;
  chained_kind : string;
  chained_link : option string → string;
}.

Record MaterializedRecordAdmission := mkRecordAdmission {
  positions : list Z;
  record_replayed : bool;
  chained_payload : option string;
}.

Record RecordCommandClaim := mkClaim { claim_key : string; claim_snapshot : string }.

Record LifecycleBatch (L : Lifecycle) := mkBatch { batch_scope : string; batch_commands : list (lc_command L) }.
Arguments mkBatch {L}.
Arguments batch_scope {L}.
Arguments batch_commands {L}.

Section records.
Context (codec : option ContentCodec) (anchor : string → string) (reducer_build : string).

(** [pending_command_matches] *)
Definition pending_command_matches (c : Cdb) (id scope key snapshot : string) : bool :=
  existsb (λ r, has_id id r && same_key scope key r && String.eqb (snapshot_json r) snapshot
                && String.eqb (status r) "processing"
                && negb (receipted c (cmd_scope r) (idempotency_key r))) (commands c).

(** [validate_snapshot] *)
Definition validate_snapshot (scope key : string) (id snapshot : option string) : result failure string :=
  if bool_decide (id ≠ Some (command_name "record-command" scope key))
  then rejected "record receipt has no matching original command"
  else ok_or snapshot (Failed (AE_Rejected (mkRejection "record receipt has no matching original command"))).

(** [encode_facts] *)
Fixpoint encode_facts (facts : list CommandRecordFact) : result failure (list CommandRecordFact) :=
  match facts with
  | [] => Ok []
  | f :: facts =>
      let? payload := encode_payload codec (fact_scope f) (fact_kind f) (fact_payload f) in
      let? rest := encode_facts facts in
      Ok (mkFact (fact_scope f) (fact_kind f) payload :: rest)
  end.

(** [append_facts] *)
Fixpoint append_facts (db : Db) (stored : list CommandRecordFact) : result failure (Db * list Z) :=
  match stored with
  | [] => Ok (db, [])
  | f :: stored =>
      let position := next_position db (fact_scope f) in
      let? db := insert_event db (mkEventRow (fact_scope f) position (fact_kind f) (fact_payload f)) in
      let? rest := append_facts db stored in
      Ok (rest.1, position :: rest.2)
  end.

(** The chained fact: its link is resolved against the head the transaction sees. *)
Definition append_chained (db : Db) (f : ChainedRecordFact) : result failure (Db * Z * string) :=
  let payload := chained_link f (tx_chain_head codec db (chained_scope f) (chained_kind f)) in
  let? encoded := encode_payload codec (chained_scope f) (chained_kind f) payload in
  let position := next_position db (chained_scope f) in
  let? db := insert_event db (mkEventRow (chained_scope f) position (chained_kind f) encoded) in
  Ok (db, position, payload).

Section batch.
Context (L : Lifecycle) (json : Json (lc_event L)).

(** The events of one command, folded as they are written. *)
Fixpoint stage_events (db : Db) (scope : string) (position : Z) (s : lc_state L) (es : list (lc_event L))
    : result failure (Db * Z * lc_state L * list Z) :=
  match es with
  | [] => Ok (db, position, s, [])
  | e :: es =>
      let? plain := ok_or (to_json json e) (Failed AE_Json) in
      let? payload := encode_payload codec scope (KIND L) plain in
      let? db := insert_event db (mkEventRow scope position (KIND L) payload) in
      match lc_evolve L s e with
      | None => Err Unwound
      | Some s =>
          let? rest := stage_events db scope (position + 1) s es in
          Ok (rest.1, position :: rest.2)
      end
  end.

(** The commands of a batch, each decided against the state the earlier ones left. *)
Fixpoint stage_commands (db : Db) (scope : string) (position : Z) (s : lc_state L) (cmds : list (lc_command L))
    : result failure (Db * lc_state L * list Z) :=
  match cmds with
  | [] => Ok (db, s, [])
  | cmd :: cmds =>
      let? es := decide_in L s cmd in
      let? staged := stage_events db scope position s es in
      let '(db, position, s, ps) := staged in
      let? rest := stage_commands db scope position s cmds in
      Ok (rest.1, ps ++ rest.2)
  end.

(** [stage_lifecycle] *)
Definition stage_lifecycle (db : Db) (batch : LifecycleBatch L) : result failure (Db * list Z) :=
  let scope := batch_scope batch in
  let? s := fold codec anchor reducer_build L json db scope in
  let? staged := stage_commands db scope (next_position db scope) s (batch_commands batch) in
  let '(db, s, ps) := staged in
  let? db := checkpoint codec anchor reducer_build L db scope s in
  Ok (db, ps).
End batch.

(** ** The shared commit *)

(** What [commit_staged] writes once the command may proceed. *)
Definition stage_all (db : Db) (stage : Db → result failure (Db * list Z)) (stored : list CommandRecordFact)
    (chained : option ChainedRecordFact) : result failure (Db * list Z * option string) :=
  let? staged := stage db in
  let? appended := append_facts staged.1 stored in
  let ps := staged.2 ++ appended.2 in
  match chained with
  | None => Ok (appended.1, ps, None)
  | Some f =>
      let? linked := append_chained appended.1 f in
      let '(db, position, payload) := linked in
      Ok (db, ps ++ [position], Some payload)
  end.

Definition commit_staged (c : Cdb) (scope key snapshot : string) (stored : list CommandRecordFact)
    (chained : option ChainedRecordFact) (claimed : option string)
    (stage : Db → result failure (Db * list Z)) (final_check : result failure unit)
    : Cdb * result failure MaterializedRecordAdmission :=
  transaction c (
    let id := default (command_name "record-command" scope key) claimed in
    let c := match claimed with
             | None => (insert_or_ignore c (mkCommandRecord id scope key "received" snapshot)).1
             | Some _ => c
             end in
    let? record := ok_or (command_by_key c scope key) (Failed (AE_Db "Query returned no rows")) in
    try! refuse_if (negb (has_id id record)) "record receipt has no matching original command";
    try! refuse_if (negb (String.eqb (snapshot_json record) snapshot)) "idempotency key reused with different command";
    if receipted c scope key then
      let c := (update_status c (has_id (command_id record)) "applied").1 in
      try! final_check;
      Ok (c, mkRecordAdmission [] true None)
    else
      let expected := match claimed with Some _ => "processing" | None => "received" end in
      try! refuse_if (negb (String.eqb (status record) expected)) (not_claimable (status record));
      let c := (update_status c (λ r, has_id (command_id record) r && String.eqb (status r) "received")
                  "processing").1 in
      let? written := stage_all (log_db c) stage stored chained in
      let '(db, ps, payload) := written in
      let? db := insert_receipt db scope key (default 0%Z (head ps)) in
      let c := (update_status (c <| log_db := db |>) (has_id (command_id record)) "applied").1 in
      try! final_check;
      Ok (c, mkRecordAdmission ps false payload)).

Definition no_stage (db : Db) : result failure (Db * list Z) := Ok (db, []).

(** [record_admission::commit] *)
Definition commit (c : Cdb) (scope key snapshot : string) (stored : list CommandRecordFact)
    (chained : option ChainedRecordFact) (claimed : option string) (final_check : result failure unit) :=
  commit_staged c scope key snapshot stored chained claimed no_stage final_check.

(** [commit_lifecycle] *)
Definition commit_lifecycle (L : Lifecycle) (json : Json (lc_event L)) (c : Cdb) (id scope key snapshot : string)
    (batch : LifecycleBatch L) (stored : list CommandRecordFact) (final_check : result failure unit)
    : Cdb * result failure MaterializedRecordAdmission :=
  if blank (batch_scope batch) || match batch_commands batch with [] => true | _ => false end
     || existsb (λ f, String.eqb (fact_scope f) (batch_scope batch) && String.eqb (fact_kind f) (KIND L)) stored
  then (c, rejected "invalid claimed lifecycle batch")
  else commit_staged c scope key snapshot stored None (Some id) (λ db, stage_lifecycle L json db batch) final_check.

Section pair.
Context (L M : Lifecycle) (ljson : Json (lc_event L)) (mjson : Json (lc_event M)).

(** The staging closure of [commit_lifecycle_pair]. *)
Definition stage_pair (first : LifecycleBatch L) (second : LifecycleBatch M)
    (facts : Z → result failure (list CommandRecordFact)) (db : Db) : result failure (Db * list Z) :=
  let scope := batch_scope first in
  let? one := stage_lifecycle L ljson db first in
  let? two := stage_lifecycle M mjson one.1 second in
  let? prepared := facts (next_position two.1 scope) in
  try! refuse_if (existsb (λ f, negb (String.eqb (fact_scope f) scope)
                                || String.eqb (fact_kind f) (KIND L) || String.eqb (fact_kind f) (KIND M)) prepared)
         "lifecycle pair facts cross scope or inject typed events";
  let? stored := encode_facts prepared in
  let? appended := append_facts two.1 stored in
  Ok (appended.1, one.2 ++ two.2 ++ appended.2).

Definition commit_lifecycle_pair (c : Cdb) (id scope key snapshot : string)
    (first : LifecycleBatch L) (second : LifecycleBatch M)
    (facts : Z → result failure (list CommandRecordFact)) (final_check : result failure unit)
    : Cdb * result failure MaterializedRecordAdmission :=
  if blank (batch_scope first) || negb (String.eqb (batch_scope first) (batch_scope second))
     || match batch_commands first with [] => true | _ => false end
     || match batch_commands second with [] => true | _ => false end
     || String.eqb (KIND L) (KIND M)
  then (c, rejected "invalid claimed lifecycle pair")
  else commit_staged c scope key snapshot [] None (Some id) (stage_pair first second facts) final_check.
End pair.

(** ** Facts with their provenance *)

(** [INSERT INTO record_command_fact_refs], whose event coordinate is unique too. *)
Definition insert_fact_ref (c : Cdb) (scope key : string) (index : Z) (at_ : string * Z) : result failure Cdb :=
  if bool_decide (is_Some (record_command_fact_refs c !! (scope, key, index)))
     || existsb (λ x, bool_decide (x.2 = at_)) (map_to_list (record_command_fact_refs c))
  then fail (AE_Db "UNIQUE constraint failed: record_command_fact_refs")
  else Ok (c <| record_command_fact_refs := <[(scope, key, index) := at_]> (record_command_fact_refs c) |>).

Definition insert_fact_set (c : Cdb) (scope key : string) (count : Z) : result failure Cdb :=
  if bool_decide (is_Some (record_command_fact_sets c !! (scope, key)))
  then fail (AE_Db "UNIQUE constraint failed: record_command_fact_sets")
  else Ok (c <| record_command_fact_sets := <[(scope, key) := count]> (record_command_fact_sets c) |>).

(** One fact and the reference to it; [index] is the number of facts before it. *)
Definition append_referenced (c : Cdb) (scope key : string) (index : Z) (f : CommandRecordFact)
    : result failure (Cdb * Z) :=
  let position := next_position (log_db c) (fact_scope f) in
  let? db := insert_event (log_db c) (mkEventRow (fact_scope f) position (fact_kind f) (fact_payload f)) in
  let? c := insert_fact_ref (c <| log_db := db |>) scope key index (fact_scope f, position) in
  Ok (c, position).

Fixpoint append_all_referenced (c : Cdb) (scope key : string) (index : Z) (stored : list CommandRecordFact)
    : result failure (Cdb * list Z) :=
  match stored with
  | [] => Ok (c, [])
  | f :: stored =>
      let? one := append_referenced c scope key index f in
      let? rest := append_all_referenced one.1 scope key (index + 1) stored in
      Ok (rest.1, one.2 :: rest.2)
  end.

(** The chained fact and the reference to it, after the facts at [ps]. *)
Definition append_linked (c : Cdb) (scope key : string) (ps : list Z) (chained : option ChainedRecordFact)
    : result failure (Cdb * list Z * option string) :=
  match chained with
  | None => Ok (c, ps, None)
  | Some f =>
      let? l := append_chained (log_db c) f in
      let '(db, position, payload) := l in
      let? c := insert_fact_ref (c <| log_db := db |>) scope key (Z.of_nat (length ps)) (chained_scope f, position) in
      Ok (c, ps ++ [position], Some payload)
  end.

(** [serde_json::to_string(&("record-command-claim-v1", scope, key, snapshot))] *)
Context (claim_json : string * string * string * string → option string).

Definition claim_text (scope key : string) (claim : RecordCommandClaim) : result failure string :=
  ok_or (claim_json ("record-command-claim-v1", scope, key, claim_snapshot claim)) (Failed AE_Json).

(** The first loop over the claims: each is free on a first admission, and owned by this
    command with a receipt on a replay. *)
Definition check_claim (c : Cdb) (scope key : string) (replay : bool) (claim : RecordCommandClaim)
    : result failure unit :=
  let? expected := claim_text scope key claim in
  match command_by_key c scope (claim_key claim) with
  | Some r =>
      if negb (String.eqb (snapshot_json r) expected) || negb replay
      then rejected "additional command identity is already claimed"
      else refuse_if (negb (receipted c scope (claim_key claim))) "additional command claim has no receipt"
  | None => refuse_if replay "original receipt does not own additional command claim"
  end.

(** The second loop: each claim becomes an applied command with a receipt. *)
Fixpoint insert_claims (c : Cdb) (scope key : string) (applied_at : Z) (claims : list RecordCommandClaim)
    : result failure Cdb :=
  match claims with
  | [] => Ok c
  | claim :: claims =>
      let? text := claim_text scope key claim in
      let? c := insert_command c (mkCommandRecord (command_name "record-command" scope (claim_key claim)) scope
                                    (claim_key claim) "applied" text) in
      let? db := insert_receipt (log_db c) scope (claim_key claim) applied_at in
      insert_claims (c <| log_db := db |>) scope key applied_at claims
  end.

Definition invalid_claims (key : string) (claims : list RecordCommandClaim) : bool :=
  negb (length claims <=? 16)%nat
  || existsb (λ claim, String.eqb (claim_key claim) "" || String.eqb (claim_key claim) key) claims
  || negb (bool_decide (NoDup (claim_key <$> claims))).

(** [SELECT COALESCE(MAX(position), -1) FROM events WHERE scope_id = ?1] *)
Definition record_scope_head (c : Cdb) (scope : string) : Z := default (-1)%Z (head_of c scope).

(** A first admission: the facts, the references to them, the receipt and the claims. *)
Definition write_facts (c : Cdb) (scope key : string) (record : CommandRecord) (stored : list CommandRecordFact)
    (chained : option ChainedRecordFact) (claims : list RecordCommandClaim)
    : result failure (Cdb * MaterializedRecordAdmission) :=
  let c := (update_status c (λ r, has_id (command_id record) r && String.eqb (status r) "received") "processing").1 in
  let? appended := append_all_referenced c scope key 0 stored in
  let '(c, ps) := appended in
  let? linked := append_linked c scope key ps chained in
  let '(c, ps, payload) := linked in
  let applied_at := default 0%Z (head ps) in
  let? c := insert_fact_set c scope key (Z.of_nat (length ps)) in
  let? db := insert_receipt (log_db c) scope key applied_at in
  let c := (update_status (c <| log_db := db |>) (has_id (command_id record)) "applied").1 in
  let? c := insert_claims c scope key applied_at claims in
  Ok (c, mkRecordAdmission ps false payload).

Definition admit_record_facts_internal (c : Cdb) (scope key snapshot : string) (facts : list CommandRecordFact)
    (chained : option ChainedRecordFact) (claims : list RecordCommandClaim) (expected_head : option (string * Z))
    : Cdb * result failure MaterializedRecordAdmission :=
  if invalid_claims key claims then (c, rejected "invalid additional command claims") else
  match encode_facts facts with
  | Err e => (c, Err e)
  | Ok stored =>
      transaction c (
        let id := command_name "record-command" scope key in
        let c := (insert_or_ignore c (mkCommandRecord id scope key "received" snapshot)).1 in
        let? record := ok_or (command_by_key c scope key) (Failed (AE_Db "Query returned no rows")) in
        try! refuse_if (negb (String.eqb (snapshot_json record) snapshot)) "idempotency key reused with different command";
        let replay := receipted c scope key in
        try! try_each (check_claim c scope key replay) claims;
        if replay then
          Ok ((update_status c (has_id (command_id record)) "applied").1, mkRecordAdmission [] true None)
        else
          try! refuse_if (negb (String.eqb (status record) "received")) (not_claimable (status record));
          try! match expected_head with
               | None => Ok ()
               | Some (s, position) =>
                   refuse_if (bool_decide (record_scope_head c s ≠ position)) "scope head changed before record admission"
               end;
          write_facts c scope key record stored chained claims)
  end.

(** The public forms. *)
Definition admit_record_facts_with_claims (c : Cdb) (scope key snapshot : string) (facts : list CommandRecordFact)
    (chained : option ChainedRecordFact) (claims : list RecordCommandClaim) :=
  admit_record_facts_internal c scope key snapshot facts chained claims None.
Definition admit_record_facts_chained (c : Cdb) (scope key snapshot : string) (facts : list CommandRecordFact)
    (chained : option ChainedRecordFact) :=
  admit_record_facts_with_claims c scope key snapshot facts chained [].
Definition admit_record_facts (c : Cdb) (scope key snapshot : string) (facts : list CommandRecordFact) :=
  admit_record_facts_chained c scope key snapshot facts None.
Definition admit_record_facts_chained_at_scope_head (c : Cdb) (scope key snapshot : string)
    (facts : list CommandRecordFact) (chained : option ChainedRecordFact) (at_scope : string) (position : Z) :=
  admit_record_facts_internal c scope key snapshot facts chained [] (Some (at_scope, position)).
Definition admit_record_facts_at_scope_head (c : Cdb) (scope key snapshot : string) (facts : list CommandRecordFact)
    (at_scope : string) (position : Z) :=
  admit_record_facts_chained_at_scope_head c scope key snapshot facts None at_scope position.

(** ** Reading back *)

(** [committed_record_snapshot]: the receipt, left-joined with its command. *)
Definition committed_record_snapshot (c : Cdb) (scope key : string) : result failure (option string) :=
  if receipted c scope key then
    let original := command_by_key c scope key in
    let? s := validate_snapshot scope key (command_id <$> original) (snapshot_json <$> original) in
    Ok (Some s)
  else Ok None.

Record CommittedRecordSnapshot := mkCommittedSnapshot {
  committed_key : string;
  committed_json : string;
  first_fact_position : Z;
}.

(** The receipts of a scope in the order of their keys. *)
Definition receipts_of (c : Cdb) (scope : string) : list (string * Z) :=
  merge_sort key_le
    (omap (λ x : string * string * Z, if String.eqb x.1.1 scope then Some (x.1.2, x.2) else None)
       (map_to_list (command_receipts (log_db c)))).

Fixpoint validate_receipts (c : Cdb) (scope : string) (receipts : list (string * Z))
    : result failure (list CommittedRecordSnapshot) :=
  match receipts with
  | [] => Ok []
  | (key, at_) :: receipts =>
      let original := command_by_key c scope key in
      let? s := validate_snapshot scope key (command_id <$> original) (snapshot_json <$> original) in
      let? rest := validate_receipts c scope receipts in
      Ok (mkCommittedSnapshot key s at_ :: rest)
  end.

Definition committed_record_snapshots (c : Cdb) (scope : string) : result failure (list CommittedRecordSnapshot) :=
  validate_receipts c scope (receipts_of c scope).

(** The references of a command in the order of their index. *)
Definition index_le (x y : Z * (string * Z)) : Prop := (x.1 ≤ y.1)%Z.
#[global] Instance index_le_dec : RelDecision index_le.
Proof. intros x y. unfold index_le. apply _. Defined.

Definition fact_refs_of (c : Cdb) (scope key : string) : list (Z * (string * Z)) :=
  merge_sort index_le
    (omap (λ x, let '(s, k, i, at_) := x in
                if String.eqb s scope && String.eqb k key then Some (i, at_) else None)
       (map_to_list (record_command_fact_refs c))).

Definition no_provenance {T} : result failure T :=
  rejected "committed command fact provenance is missing or inconsistent".

(** The loop of [committed_record_facts]. *)
Fixpoint read_facts (c : Cdb) (count : Z) (refs : list (Z * (string * Z))) : result failure (list CommandRecordFact) :=
  match refs with
  | [] => Ok []
  | (index, (scope, position)) :: refs =>
      if bool_decide (index ≠ count) then no_provenance
      else
        match select_at (log_db c) scope position with
        | None => no_provenance
        | Some r =>
            match decode_row codec scope r with
            | None => fail (AE_Codec "committed command contains an unavailable fact")
            | Some payload =>
                let? rest := read_facts c (count + 1) refs in
                Ok (mkFact scope (row_kind r) payload :: rest)
            end
        end
  end.

Definition committed_record_facts (c : Cdb) (scope key : string) : result failure (option (list CommandRecordFact)) :=
  let? original := committed_record_snapshot c scope key in
  match original with
  | None => Ok None
  | Some _ =>
      match record_command_fact_sets c !! (scope, key) with
      | None => no_provenance
      | Some expected =>
          let? facts := read_facts c 0 (fact_refs_of c scope key) in
          if bool_decide (Z.of_nat (length facts) ≠ expected) then no_provenance else Ok (Some facts)
      end
  end.
End records.
