(* ===== verification/Archive.v ===== *)
(** * Command scope archives

    [command_scope_archive.rs] of [crates/store/src]: the complete event, command,
    receipt and fact plane of selected scopes, read in one snapshot, and its import with
    the original positions and receipts into another store.

    The [updated_at] column of a command row stands beside the plane of [Commands.v], by
    command id. Positions, counts and indexes are [i64] values. *)

From S2P Require Import Prelude Ids Lifecycle Store Scopes Commands RecordAdmission.

(** ** Rows in the order of a key *)

Class StrictOrder {K} (lt : K → K → bool) := {
  so_irrefl k : lt k k = false;
  so_trans k1 k2 k3 : lt k1 k2 = true → lt k2 k3 = true → lt k1 k3 = true;
  so_total k1 k2 : lt k1 k2 = false → lt k2 k1 = false → k1 = k2;
}.

(** The order of a (key, index) tuple. *)
Definition pair_ltb (a b : string * Z) : bool :=
  string_ltb a.1 b.1 || String.eqb a.1 b.1 && (a.2 <? b.2)%Z.

Section order.
Context {A K : Type} (key : A → K) (lt : K → K → bool).

Definition key_le (a b : A) : Prop := Is_true (negb (lt (key b) (key a))).
#[global] Instance key_le_dec : RelDecision key_le.
Proof. intros a b. unfold key_le. apply _. Defined.

(** [ORDER BY] *)
Definition order_by (rows : list A) : list A := merge_sort key_le rows.

(** [rows.windows(2).any(|pair| pair[0] >= pair[1])] *)
Fixpoint noncanonical (rows : list A) : bool :=
  match rows with
  | a :: (b :: _) as rest => negb (lt (key a) (key b)) || noncanonical rest
  | _ => false
  end.
End order.

(** ** The archive *)

Definition PROTOCOL : string := "gaugedesk.command-scope-archive.v2".
Definition LEGACY_PROTOCOL : string := "gaugedesk.command-scope-archive.v1".

Record Command := mkCommand {
  ac_id : string;
  ac_key : string;
  ac_status : string;
  ac_snapshot : string;
  ac_updated_at : string;
}.

#[export] Instance Command_eq_dec : EqDecision Command.
Proof. solve_decision. Defined.

Record ArchivedScope := mkScope {
  sc_id : string;
  sc_events : list (Z * string * string);
  sc_commands : list Command;
  sc_receipts : list (string * Z);
  sc_fact_sets : list (string * Z);
  sc_fact_refs : list (string * Z * (string * Z));
}.

#[export] Instance ArchivedScope_eq_dec : EqDecision ArchivedScope.
Proof. solve_decision. Defined.

Record CommandScopeArchive := mkArchive { protocol : string; scopes : list ArchivedScope }.

Definition archive_scope_ids (a : CommandScopeArchive) : list string := sc_id <$> scopes a.

Definition archive_events (a : CommandScopeArchive) : list (string * Z * string * string) :=
  concat ((λ s, (λ e : Z * string * string, (sc_id s, e.1.1, e.1.2, e.2)) <$> sc_events s) <$> scopes a).

(** ** Validation *)

Fixpoint invalid_events (position : option Z) (events : list (Z * string * string)) : bool :=
  match events with
  | [] => false
  | (next, kind, _) :: events =>
      (next <? 0)%Z || match position with Some old => (next <=? old)%Z | None => false end
      || String.eqb kind "" || invalid_events (Some next) events
  end.

Fixpoint invalid_commands (keys ids : gset string) (commands : list Command) : bool :=
  match commands with
  | [] => false
  | x :: commands =>
      String.eqb (ac_id x) "" || String.eqb (ac_key x) "" || bool_decide (ac_key x ∈ keys)
      || bool_decide (ac_id x ∈ ids) || negb (bool_decide (ac_status x ∈ statuses))
      || invalid_commands ({[ac_key x]} ∪ keys) ({[ac_id x]} ∪ ids) commands
  end.

Fixpoint invalid_receipts (seen : gset string) (receipts : list (string * Z)) : bool :=
  match receipts with
  | [] => false
  | (key, at_) :: receipts =>
      String.eqb key "" || (at_ <? 0)%Z || bool_decide (key ∈ seen) || invalid_receipts ({[key]} ∪ seen) receipts
  end.

Definition ref_coordinate (r : string * Z * (string * Z)) : string * Z := r.1.

Definition refs_of_set (s : ArchivedScope) (key : string) : list (string * Z * (string * Z)) :=
  List.filter (λ r, String.eqb r.1.1 key) (sc_fact_refs s).

Definition validate_fact_set (s : ArchivedScope) (x : string * Z) : result failure unit :=
  try! refuse_if ((x.2 <? 0)%Z || negb (bool_decide (x.1 ∈ (sc_receipts s).*1)))
    "command archive has an unreceipted fact set";
  let refs := refs_of_set s x.1 in
  refuse_if (negb (Z.of_nat (length refs) =? x.2)%Z
             || existsb (λ y, negb (y.2.1.2 =? Z.of_nat y.1)%Z) (imap (λ i r, (i, r)) refs))
    "command archive has incomplete fact coordinates".

Definition validate_scope (allowed : string → bool) (previous : option string) (s : ArchivedScope)
    : result failure unit :=
  try! refuse_if (blank (sc_id s) || negb (allowed (sc_id s))
                  || match previous with Some id => negb (string_ltb id (sc_id s)) | None => false end)
    "command archive has unselected or repeated scope";
  try! refuse_if (invalid_events None (sc_events s)) "command archive has invalid event coordinates";
  try! refuse_if (noncanonical ac_key string_ltb (sc_commands s) || noncanonical fst string_ltb (sc_receipts s))
    "command archive has noncanonical command order";
  try! refuse_if (invalid_commands ∅ ∅ (sc_commands s)) "command archive has invalid command state";
  try! refuse_if (invalid_receipts ∅ (sc_receipts s)) "command archive has invalid receipt";
  try! refuse_if (existsb (λ x, String.eqb (ac_status x) "applied"
                               && negb (bool_decide (ac_key x ∈ (sc_receipts s).*1))) (sc_commands s))
    "applied command is missing its original receipt";
  try! refuse_if (noncanonical fst string_ltb (sc_fact_sets s)
                  || noncanonical ref_coordinate pair_ltb (sc_fact_refs s))
    "command archive has noncanonical fact coordinates";
  try! try_each (validate_fact_set s) (sc_fact_sets s);
  refuse_if (existsb (λ r, negb (bool_decide (r.1.1 ∈ (sc_fact_sets s).*1))) (sc_fact_refs s))
    "command archive has an orphaned fact coordinate".

Fixpoint validate_scopes (allowed : string → bool) (previous : option string) (l : list ArchivedScope)
    : result failure unit :=
  match l with
  | [] => Ok ()
  | s :: l => try! validate_scope allowed previous s; validate_scopes allowed (Some (sc_id s)) l
  end.

(** A fact's event is in the archive, and is the event of one fact. *)
Fixpoint validate_links (events linked : gset (string * Z)) (refs : list (string * Z * (string * Z)))
    : result failure unit :=
  match refs with
  | [] => Ok ()
  | r :: refs =>
      try! refuse_if (negb (bool_decide (r.2 ∈ events)) || bool_decide (r.2 ∈ linked))
        "command archive has a missing or repeated fact event";
      validate_links events ({[r.2]} ∪ linked) refs
  end.

Definition validate (a : CommandScopeArchive) (allowed : string → bool) : result failure unit :=
  try! refuse_if (negb (String.eqb (protocol a) PROTOCOL) && negb (String.eqb (protocol a) LEGACY_PROTOCOL))
    "unsupported command scope archive";
  try! refuse_if (String.eqb (protocol a) LEGACY_PROTOCOL
                  && existsb (λ s, negb (bool_decide (sc_fact_sets s = [])) || negb (bool_decide (sc_fact_refs s = [])))
                       (scopes a))
    "legacy command archive carries newer fact coordinates";
  try! validate_scopes allowed None (scopes a);
  validate_links (list_to_set ((λ e, (e.1.1.1, e.1.1.2)) <$> archive_events a)) ∅
    (concat (sc_fact_refs <$> scopes a)).

(** ** The tables *)

Record Adb := mkAdb { plane : Cdb; updated_at : gmap string string }.

#[export] Instance Adb_eta : Eta Adb := mkEta (λ a, mkAdb (plane a) (updated_at a)).

(** The rows of a scope. *)
Definition events_in (a : Adb) (id : string) : list EventRow :=
  filter (λ r, row_scope r = id) (events (log_db (plane a))).

Definition commands_in (a : Adb) (id : string) : list Command :=
  (λ r, mkCommand (command_id r) (idempotency_key r) (status r) (snapshot_json r)
          (default "" (updated_at a !! command_id r)))
    <$> filter (λ r, cmd_scope r = id) (commands (plane a)).

Definition keyed {V} (m : gmap (string * string) V) (id : string) : list (string * V) :=
  omap (λ x, if String.eqb x.1.1 id then Some (x.1.2, x.2) else None) (map_to_list m).

Definition refs_in (a : Adb) (id : string) : list (string * Z * (string * Z)) :=
  omap (λ x, if String.eqb x.1.1.1 id then Some (x.1.1.2, x.1.2, x.2) else None)
    (map_to_list (record_command_fact_refs (plane a))).

Section archive.
Context (codec : option ContentCodec).

(** ** Export *)

Fixpoint decode_events (id : string) (rows : list EventRow) : result failure (list (Z * string * string)) :=
  match rows with
  | [] => Ok []
  | r :: rows =>
      let? payload := ok_or (decode_row codec id r)
        (Failed (AE_Codec "command scope has unavailable retained evidence")) in
      let? rest := decode_events id rows in
      Ok ((row_position r, row_kind r, payload) :: rest)
  end.

Definition read_scope (a : Adb) (id : string) : result failure ArchivedScope :=
  let? events := decode_events id (order_by row_position Z.ltb (events_in a id)) in
  Ok (mkScope id events
        (order_by ac_key string_ltb (commands_in a id))
        (order_by fst string_ltb (keyed (command_receipts (log_db (plane a))) id))
        (order_by fst string_ltb (keyed (record_command_fact_sets (plane a)) id))
        (order_by ref_coordinate pair_ltb (refs_in a id))).

(** [SELECT .. UNION SELECT .. ORDER BY scope_id] *)
Definition plane_scopes (a : Adb) : list string :=
  (row_scope <$> events (log_db (plane a))) ++ (cmd_scope <$> commands (plane a))
  ++ ((map_to_list (command_receipts (log_db (plane a)))).*1).*1
  ++ ((map_to_list (record_command_fact_sets (plane a))).*1).*1
  ++ (((map_to_list (record_command_fact_refs (plane a))).*1).*1).*1.

Fixpoint read_scopes (a : Adb) (ids : list string) : result failure (list ArchivedScope) :=
  match ids with
  | [] => Ok []
  | id :: ids => let? s := read_scope a id in let? rest := read_scopes a ids in Ok (s :: rest)
  end.

Definition export_command_scopes (a : Adb) (selected : string → bool) : result failure CommandScopeArchive :=
  let ids := List.filter selected (merge_sort string_le (remove_dups (plane_scopes a))) in
  let? scopes := read_scopes a ids in
  let archive := mkArchive PROTOCOL scopes in
  try! validate archive selected;
  Ok archive.

(** ** Import *)

Definition on_plane (a : Adb) (op : result failure Cdb) : result failure Adb :=
  let? c := op in Ok (a <| plane := c |>).

Definition on_log_of (a : Adb) (op : result failure Db) : result failure Adb :=
  let? db := op in Ok (a <| plane := (plane a) <| log_db := db |> |>).

Definition write_event (id : string) (a : Adb) (e : Z * string * string) : result failure Adb :=
  let? stored := encode_payload codec id e.1.2 e.2 in
  on_log_of a (insert_event (log_db (plane a)) (mkEventRow id e.1.1 e.1.2 stored)).

Definition write_command (id : string) (a : Adb) (x : Command) : result failure Adb :=
  let? c := insert_command (plane a) (mkCommandRecord (ac_id x) id (ac_key x) (ac_status x) (ac_snapshot x)) in
  Ok (mkAdb c (<[ac_id x := ac_updated_at x]> (updated_at a))).

Definition write_receipt (id : string) (a : Adb) (x : string * Z) : result failure Adb :=
  on_log_of a (insert_receipt (log_db (plane a)) id x.1 x.2).

Definition write_fact_set (id : string) (a : Adb) (x : string * Z) : result failure Adb :=
  on_plane a (insert_fact_set (plane a) id x.1 x.2).

Definition write_fact_ref (id : string) (a : Adb) (r : string * Z * (string * Z)) : result failure Adb :=
  on_plane a (insert_fact_ref (plane a) id r.1.1 r.1.2 r.2).

Definition write_scope (a : Adb) (s : ArchivedScope) : result failure Adb :=
  let? a := try_fold (write_event (sc_id s)) a (sc_events s) in
  let? a := try_fold (write_command (sc_id s)) a (sc_commands s) in
  let? a := try_fold (write_receipt (sc_id s)) a (sc_receipts s) in
  let? a := try_fold (write_fact_set (sc_id s)) a (sc_fact_sets s) in
  try_fold (write_fact_ref (sc_id s)) a (sc_fact_refs s).

Definition vacant (s : ArchivedScope) : bool :=
  bool_decide (s = mkScope (sc_id s) [] [] [] [] []).

Definition import_scope (a : Adb) (s : ArchivedScope) : result failure Adb :=
  let? existing := read_scope a (sc_id s) in
  if bool_decide (existing = s) then Ok a
  else
    try! refuse_if (negb (vacant existing)) "command scope import conflicts with existing authority";
    write_scope a s.

Definition import_into (a : Adb) (archive : CommandScopeArchive) (allowed : string → bool) : result failure Adb :=
  try! validate archive allowed;
  try_fold import_scope a (scopes archive).

Definition import_command_scopes (a : Adb) (archive : CommandScopeArchive) (allowed : string → bool)
    : Adb * result failure unit :=
  transaction a (let? a' := import_into a archive allowed in Ok (a', ())).

End archive.

(** ** Orders *)

#[export] Instance string_ltb_order : StrictOrder string_ltb.
Proof.
  split; [apply lt_irrefl|apply lt_trans|]. intros a b. unfold string_ltb.
  rewrite !negb_false_iff, !leb_spec. intros [?|Hba] [?|Hab]; [done..|].
  rewrite (String.compare_antisym a b), Hba in Hab. by simpl in Hab.
Qed.

#[export] Instance Z_ltb_order : StrictOrder Z.ltb.
Proof. split; intros; lia. Qed.

#[export] Instance pair_ltb_order : StrictOrder pair_ltb.
Proof.
  unfold pair_ltb. split.
  - intros [k i]. simpl. by rewrite so_irrefl, String.eqb_refl, Z.ltb_irrefl.
  - intros [k1 i1] [k2 i2] [k3 i3]. simpl. rewrite !orb_true_iff, !andb_true_iff, !String.eqb_eq.
    intros [H1|[-> H1]] [H2|[-> H2]]; [left; by eapply so_trans|by left|by left|right; split; [done|lia]].
  - intros [k1 i1] [k2 i2]. simpl. rewrite !orb_false_iff, !andb_false_iff.
    intros [H1 H1'] [H2 H2']. rewrite (so_total _ _ H1 H2), String.eqb_refl in *.
    f_equal. destruct H1' as [|H1'], H2' as [|H2']; try done. lia.
Qed.

Section order_lemmas.
Context {A K : Type} (key : A → K) (lt : K → K → bool) `{!StrictOrder lt}.

#[local] Instance key_le_trans : Transitive (key_le key lt).
Proof.
  intros a b c. unfold key_le. rewrite !Is_true_true, !negb_true_iff. intros Hab Hbc.
  destruct (lt (key c) (key a)) eqn:Hca; [|done].
  destruct (lt (key a) (key b)) eqn:Hab'.
  - by rewrite (so_trans _ _ _ Hca Hab') in Hbc.
  - rewrite (so_total _ _ Hab' Hab) in Hca. congruence.
Qed.

#[local] Instance key_le_total : Total (key_le key lt).
Proof.
  intros a b. unfold key_le. destruct (lt (key b) (key a)) eqn:H; [|by left]. right.
  destruct (lt (key a) (key b)) eqn:H'; [|done]. pose proof (so_trans _ _ _ H H') as Hbb. by rewrite so_irrefl in Hbb.
Qed.

Lemma order_by_perm l : order_by key lt l ≡ₚ l.
Proof. apply merge_sort_Permutation. Qed.

Lemma key_inj l a b : NoDup (key <$> l) → a ∈ l → b ∈ l → key a = key b → a = b.
Proof.
  induction l as [|x l IH]; [intros _ H; inversion H|]. rewrite fmap_cons, NoDup_cons, !elem_of_cons.
  intros [Hx Hn] [->|Ha] [->|Hb] Heq; [done| | |by apply IH]; destruct Hx.
  - rewrite Heq. by apply list_elem_of_fmap_2.
  - rewrite <-Heq. by apply list_elem_of_fmap_2.
Qed.

Lemma sorted_determined l l' :
  NoDup (key <$> l) → StronglySorted (key_le key lt) l → StronglySorted (key_le key lt) l' → l ≡ₚ l' → l = l'.
Proof.
  intros Hn Hs Hs' Hp. eapply (StronglySorted_unique_strong (key_le key lt)); [|done..].
  intros a b Ha Hb Hab Hba. apply (key_inj l); [done..|by rewrite Hp|].
  unfold key_le in *. rewrite Is_true_true, negb_true_iff in Hab, Hba. by apply so_total.
Qed.

Lemma order_by_unique l l' : NoDup (key <$> l) → l ≡ₚ l' → order_by key lt l = order_by key lt l'.
Proof.
  intros Hn Hp. apply sorted_determined; [|apply (StronglySorted_merge_sort (key_le key lt))..|].
  - by rewrite order_by_perm.
  - by rewrite !order_by_perm.
Qed.

Lemma canonical_sorted l :
  noncanonical key lt l = false → StronglySorted (λ a b, lt (key a) (key b) = true) l.
Proof.
  intros H. apply Sorted_StronglySorted; [intros a b c; apply so_trans|].
  induction l as [|a [|b l] IH]; [by repeat constructor..|]. cbn [noncanonical] in H.
  apply orb_false_iff in H as [H%negb_false_iff Hl]. constructor; [by apply IH|by constructor].
Qed.

Lemma canonical_nodup l : noncanonical key lt l = false → NoDup (key <$> l).
Proof.
  intros H%canonical_sorted. induction H as [|a l _ IH Ha]; [constructor|]. rewrite fmap_cons.
  constructor; [|done]. intros (b & Hb & Hin)%list_elem_of_fmap. rewrite Forall_forall in Ha.
  specialize (Ha _ Hin). rewrite Hb in Ha. by rewrite so_irrefl in Ha.
Qed.

(** Rows inserted in the order of their keys are read back as they are. *)
Lemma order_by_canonical l l' : noncanonical key lt l = false → l' ≡ₚ l → order_by key lt l' = l.
Proof.
  intros H Hp. pose proof (canonical_nodup _ H) as Hn. symmetry. apply sorted_determined; [done| |apply (StronglySorted_merge_sort (key_le key lt))|].
  - apply canonical_sorted in H. clear Hn Hp. induction H as [|a l _ IH Ha]; constructor; [done|].
    eapply Forall_impl; [exact Ha|]. intros b Hb. simpl in Hb. unfold key_le. rewrite Is_true_true, negb_true_iff.
    destruct (lt (key b) (key a)) eqn:Hba; [|done]. pose proof (so_trans _ _ _ Hb Hba) as Hbb. by rewrite so_irrefl in Hbb.
  - by rewrite order_by_perm.
Qed.

Lemma order_by_nil l : order_by key lt l = [] → l = [].
Proof. intros H. apply Permutation_nil_r. by rewrite <-H, order_by_perm. Qed.
End order_lemmas.

(** ** What a scope's tables hold *)

Record Rows := mkRows {
  w_events : list EventRow;
  w_commands : list Command;
  w_receipts : list (string * Z);
  w_sets : list (string * Z);
  w_refs : list (string * Z * (string * Z));
}.

Record holds (a : Adb) (id : string) (w : Rows) : Prop := {
  h_events : events_in a id = w_events w;
  h_commands : commands_in a id = w_commands w;
  h_receipts : keyed (command_receipts (log_db (plane a))) id ≡ₚ w_receipts w;
  h_sets : keyed (record_command_fact_sets (plane a)) id ≡ₚ w_sets w;
  h_refs : refs_in a id ≡ₚ w_refs w;
}.

Definition rows_in (a : Adb) (id : string) : Rows :=
  mkRows (events_in a id) (commands_in a id) (keyed (command_receipts (log_db (plane a))) id)
    (keyed (record_command_fact_sets (plane a)) id) (refs_in a id).

Definition plus (w w' : Rows) : Rows :=
  mkRows (w_events w ++ w_events w') (w_commands w ++ w_commands w') (w_receipts w ++ w_receipts w')
    (w_sets w ++ w_sets w') (w_refs w ++ w_refs w').

Definition at_scope (id x : string) (new w : Rows) : Rows := if String.eqb x id then plus w new else w.

Definition no_rows : Rows := mkRows [] [] [] [] [].

Lemma holds_rows_in a id : holds a id (rows_in a id).
Proof. by split. Qed.

Lemma plus_assoc w w' w'' : plus (plus w w') w'' = plus w (plus w' w'').
Proof. unfold plus. simpl. by rewrite <-!app_assoc. Qed.

Lemma at_scope_plus id x new new' w : at_scope id x new' (at_scope id x new w) = at_scope id x (plus new new') w.
Proof. unfold at_scope. destruct (String.eqb x id); [apply plus_assoc|done]. Qed.

Lemma at_scope_none id x w : at_scope id x no_rows w = w.
Proof. unfold at_scope, plus. destruct (String.eqb x id); [|done]. simpl. rewrite !app_nil_r. by destruct w. Qed.

Lemma omap_insert {K V B} `{Countable K} (f : K * V → option B) (m : gmap K V) k v :
  m !! k = None → omap f (map_to_list (<[k:=v]> m)) ≡ₚ omap f (map_to_list m) ++ option_list (f (k, v)).
Proof.
  intros Hm. rewrite map_to_list_insert by done. cbn [omap list_omap].
  destruct (f (k, v)); simpl; [|by rewrite app_nil_r]. by rewrite Permutation_app_comm.
Qed.

Lemma omap_keys_nodup {K V A C} `{Countable K} (f : K * V → option A) (key : A → C) (m : gmap K V) :
  (∀ x y b b', f x = Some b → f y = Some b' → key b = key b' → x.1 = y.1) →
  NoDup (key <$> omap f (map_to_list m)).
Proof.
  intros Hf. pose proof (NoDup_fst_map_to_list m) as Hn. revert Hn. generalize (map_to_list m). intros l Hn.
  induction l as [|x l IH]; [constructor|]. rewrite fmap_cons, NoDup_cons in Hn. destruct Hn as [Hx Hn].
  cbn [omap list_omap]. destruct (f x) as [b|] eqn:Hb; [|by apply IH]. rewrite fmap_cons. constructor; [|by apply IH].
  intros (b' & Heq & (y & Hy & Hb')%list_elem_of_omap)%list_elem_of_fmap. destruct Hx.
  rewrite (Hf _ _ _ _ Hb Hb' Heq). by apply list_elem_of_fmap_2.
Qed.

Lemma keyed_nodup {V} (m : gmap (string * string) V) id : NoDup (keyed m id).*1.
Proof.
  apply omap_keys_nodup. intros [[s k] v] [[s' k'] v'] b b'. simpl.
  destruct (String.eqb_spec s id) as [->|]; [|done]. destruct (String.eqb_spec s' id) as [->|]; [|done].
  intros [= <-] [= <-]. simpl. by intros ->.
Qed.

Lemma refs_nodup a id : NoDup (ref_coordinate <$> refs_in a id).
Proof.
  apply omap_keys_nodup. intros [[[s k] i] v] [[[s' k'] i'] v'] b b'. simpl.
  destruct (String.eqb_spec s id) as [->|]; [|done]. destruct (String.eqb_spec s' id) as [->|]; [|done].
  intros [= <-] [= <-]. simpl. by intros [= -> ->].
Qed.

Lemma keyed_insert {V} (m : gmap (string * string) V) id k v x :
  m !! (id, k) = None →
  keyed (<[(id, k) := v]> m) x ≡ₚ keyed m x ++ (if String.eqb x id then [(k, v)] else []).
Proof.
  intros Hm. unfold keyed. rewrite omap_insert by done. cbn [fst snd]. rewrite (String.eqb_sym x id).
  by destruct (String.eqb id x).
Qed.

(** ** Each insertion adds its row to its scope, and to no other *)

Definition grows_by (id : string) (a a' : Adb) (new : Rows) : Prop :=
  ∀ x w, holds a x w → holds a' x (at_scope id x new w).

Lemma grows_by_trans id a a1 a2 new new' :
  grows_by id a a1 new → grows_by id a1 a2 new' → grows_by id a a2 (plus new new').
Proof. intros H1 H2 x w Hw. rewrite <-at_scope_plus. by apply H2, H1. Qed.

Lemma grows_none id a : grows_by id a a no_rows.
Proof. intros x w Hw. by rewrite at_scope_none. Qed.

Ltac split_holds := let H := fresh in intros x w H; destruct w, H; simpl in *; subst;
  unfold at_scope, plus; simpl;
  match goal with |- context [String.eqb ?y ?i] => destruct (String.eqb_spec y i) as [->|] end;
  split; simpl; rewrite ?app_nil_r; try done.

(** A loop of insertions adds a row for each of its items. *)
Lemma loop_grows {B R} (id : string) (f : Adb → B → result failure Adb) (rel : B → R → Prop) (rows : list R → Rows) :
  rows [] = no_rows → (∀ r l, rows (r :: l) = plus (rows [r]) (rows l)) →
  (∀ a b a', f a b = Ok a' → ∃ r, rel b r ∧ grows_by id a a' (rows [r])) →
  ∀ l a a', try_fold f a l = Ok a' → ∃ rs, Forall2 rel l rs ∧ grows_by id a a' (rows rs).
Proof.
  intros H0 Hcons Hstep l. induction l as [|b l IH]; intros a a'; simpl.
  - intros [= <-]. exists []. rewrite H0. split; [constructor|apply grows_none].
  - destruct (f a b) as [a1|] eqn:Hf; [|done]. intros Hl. apply Hstep in Hf as (r & Hr & Hg).
    apply IH in Hl as (rs & Hrs & Hgs). exists (r :: rs). split; [by constructor|]. rewrite Hcons. by eapply grows_by_trans.
Qed.

Lemma Forall2_eq_inv {A} (l l' : list A) : Forall2 (=) l l' → l' = l.
Proof. induction 1; congruence. Qed.

Section steps.
Context (codec : option ContentCodec).

Definition event_row (id : string) (e : Z * string * string) (r : EventRow) : Prop :=
  ∃ stored, encode_payload codec id e.1.2 e.2 = Ok stored ∧ r = mkEventRow id e.1.1 e.1.2 stored.

Lemma write_event_grows id a e a' :
  write_event codec id a e = Ok a' →
  ∃ r, event_row id e r ∧ grows_by id a a' (mkRows [r] [] [] [] []).
Proof.
  unfold write_event. destruct (encode_payload _ _ _ _) as [stored|] eqn:He; [|done].
  unfold on_log_of, insert_event. destruct (select_at _ _ _); [done|]. intros [= <-].
  exists (mkEventRow id e.1.1 e.1.2 stored). split; [by exists stored|].
  split_holds; unfold events_in; simpl; rewrite filter_app, filter_cons, filter_nil; simpl.
  - by rewrite decide_True.
  - rewrite decide_False by congruence. by rewrite app_nil_r.
Qed.

Lemma write_command_grows id a e a' :
  write_command id a e = Ok a' → grows_by id a a' (mkRows [] [e] [] [] []).
Proof.
  unfold write_command, insert_command. destruct (conflicts _ _) eqn:Hc; [done|]. intros [= <-].
  assert (∀ r, r ∈ commands (plane a) → command_id r ≠ ac_id e) as Hnew.
  { intros r Hr Heq. unfold conflicts in Hc. apply not_true_iff_false in Hc. destruct Hc. apply existsb_exists.
    exists r. split; [by apply list_elem_of_In|]. unfold has_id. simpl. by rewrite Heq, String.eqb_refl. }
  split_holds; unfold commands_in; simpl; rewrite filter_app, filter_cons, filter_nil; simpl.
  - rewrite decide_True by done. rewrite fmap_app. f_equal.
    + apply list_fmap_ext. intros i r [_ Hr]%list_elem_of_lookup_2%list_elem_of_filter. by rewrite lookup_insert_ne by (by apply not_eq_sym, Hnew).
    + simpl. rewrite lookup_insert_eq. by destruct e.
  - rewrite decide_False by congruence. rewrite app_nil_r.
    apply list_fmap_ext. intros i r [_ Hr]%list_elem_of_lookup_2%list_elem_of_filter. by rewrite lookup_insert_ne by (by apply not_eq_sym, Hnew).
Qed.

Lemma write_receipt_grows id a e a' :
  write_receipt id a e = Ok a' → grows_by id a a' (mkRows [] [] [e] [] []).
Proof.
  unfold write_receipt, on_log_of, insert_receipt. destruct (_ !! _) eqn:Hm; [done|]. intros [= <-].
  split_holds; rewrite keyed_insert by done.
  - rewrite String.eqb_refl, h_receipts0. by destruct e.
  - rewrite (proj2 (String.eqb_neq _ _)) by done. by rewrite app_nil_r.
Qed.

Lemma write_fact_set_grows id a e a' :
  write_fact_set id a e = Ok a' → grows_by id a a' (mkRows [] [] [] [e] []).
Proof.
  unfold write_fact_set, on_plane, insert_fact_set. case_bool_decide as Hm; [done|]. intros [= <-].
  apply eq_None_not_Some in Hm. split_holds; rewrite keyed_insert by done.
  - rewrite String.eqb_refl, h_sets0. by destruct e.
  - rewrite (proj2 (String.eqb_neq _ _)) by done. by rewrite app_nil_r.
Qed.

Lemma write_fact_ref_grows id a e a' :
  write_fact_ref id a e = Ok a' → grows_by id a a' (mkRows [] [] [] [] [e]).
Proof.
  unfold write_fact_ref, on_plane, insert_fact_ref. destruct (bool_decide _) eqn:Hm; [done|]. simpl.
  destruct (existsb _ _); [done|]. intros [= <-].
  apply bool_decide_eq_false, eq_None_not_Some in Hm.
  split_holds; unfold refs_in; simpl; rewrite omap_insert by done; cbn [fst snd].
  - rewrite String.eqb_refl, <-h_refs0. by destruct e as [[]].
  - rewrite (proj2 (String.eqb_neq _ _)) by done. by rewrite app_nil_r.
Qed.

Lemma write_scope_grows a s a' :
  write_scope codec a s = Ok a' →
  ∃ rs, Forall2 (event_row (sc_id s)) (sc_events s) rs
        ∧ grows_by (sc_id s) a a' (mkRows rs (sc_commands s) (sc_receipts s) (sc_fact_sets s) (sc_fact_refs s)).
Proof.
  unfold write_scope. destruct (try_fold (write_event _ _) _ _) as [a1|] eqn:H1; [|done].
  destruct (try_fold (write_command _) _ _) as [a2|] eqn:H2; [|done].
  destruct (try_fold (write_receipt _) _ _) as [a3|] eqn:H3; [|done].
  destruct (try_fold (write_fact_set _) _ _) as [a4|] eqn:H4; [|done]. intros H5.
  eapply (loop_grows (sc_id s) _ (event_row (sc_id s)) (λ l, mkRows l [] [] [] [])) in H1 as (rs & Hrs & G1); [|done..|apply write_event_grows].
  eapply (loop_grows (sc_id s) _ eq (λ l, mkRows [] l [] [] [])) in H2 as (? & <-%Forall2_eq_inv & G2);
    [|done..|intros; eexists; split; [done|by apply write_command_grows]].
  eapply (loop_grows (sc_id s) _ eq (λ l, mkRows [] [] l [] [])) in H3 as (? & <-%Forall2_eq_inv & G3);
    [|done..|intros; eexists; split; [done|by apply write_receipt_grows]].
  eapply (loop_grows (sc_id s) _ eq (λ l, mkRows [] [] [] l [])) in H4 as (? & <-%Forall2_eq_inv & G4);
    [|done..|intros; eexists; split; [done|by apply write_fact_set_grows]].
  eapply (loop_grows (sc_id s) _ eq (λ l, mkRows [] [] [] [] l)) in H5 as (? & <-%Forall2_eq_inv & G5);
    [|done..|intros; eexists; split; [done|by apply write_fact_ref_grows]].
  exists rs. split; [done|].
  pose proof (grows_by_trans _ _ _ _ _ _ G1 (grows_by_trans _ _ _ _ _ _ G2 (grows_by_trans _ _ _ _ _ _ G3 (grows_by_trans _ _ _ _ _ _ G4 G5)))) as G.
  unfold plus in G. simpl in G. by rewrite ?app_nil_r in G.
Qed.
End steps.

(** ** What a valid archive is *)

Record canonical (s : ArchivedScope) : Prop := {
  c_events : invalid_events None (sc_events s) = false;
  c_commands : noncanonical ac_key string_ltb (sc_commands s) = false;
  c_receipts : noncanonical fst string_ltb (sc_receipts s) = false;
  c_ids : invalid_commands ∅ ∅ (sc_commands s) = false;
  c_sets : noncanonical fst string_ltb (sc_fact_sets s) = false;
  c_refs : noncanonical ref_coordinate pair_ltb (sc_fact_refs s) = false;
}.

Lemma try_ok {T} (m : result failure unit) (k : result failure T) t :
  (try! m; k) = Ok t → m = Ok () ∧ k = Ok t.
Proof. destruct m as [[]|]; [done|done]. Qed.

Lemma validate_scope_ok allowed previous s :
  validate_scope allowed previous s = Ok () →
  canonical s ∧ allowed (sc_id s) = true ∧ match previous with Some id => string_ltb id (sc_id s) = true | None => True end.
Proof.
  unfold validate_scope. intros H.
  apply try_ok in H as [H1%refuse_if_ok H]. apply try_ok in H as [H2%refuse_if_ok H].
  apply try_ok in H as [H3%refuse_if_ok H]. apply try_ok in H as [H4%refuse_if_ok H].
  apply try_ok in H as [_ H]. apply try_ok in H as [_ H]. apply try_ok in H as [H5%refuse_if_ok _].
  apply orb_false_iff in H3 as [? ?], H5 as [? ?]. apply orb_false_iff in H1 as [[_ Hal%negb_false_iff]%orb_false_iff Hp].
  split; [by split|]. split; [done|]. destruct previous; [by apply negb_false_iff in Hp|done].
Qed.

Lemma validate_scopes_ok allowed l : ∀ previous,
  validate_scopes allowed previous l = Ok () →
  Forall canonical l ∧ Forall (λ s, allowed (sc_id s) = true) l
  ∧ StronglySorted (λ x y, string_ltb x y = true) (option_list previous ++ (sc_id <$> l)).
Proof.
  induction l as [|s l IH]; intros previous; cbn [validate_scopes].
  - intros _. split_and!; [constructor..|]. destruct previous; repeat constructor.
  - intros [Hs Hl]%try_ok. apply validate_scope_ok in Hs as (? & ? & Hp). apply IH in Hl as (? & ? & Hss).
    split_and!; [by constructor..|]. destruct previous as [p|]; [|done]. cbn [option_list app] in *. rewrite fmap_cons.
    constructor; [done|]. inversion Hss as [|?? _ Hall]; subst. constructor; [done|].
    eapply Forall_impl; [exact Hall|]. intros x Hx. by eapply lt_trans.
Qed.

Lemma ascending_nodup (l : list string) : StronglySorted (λ x y, string_ltb x y = true) l → NoDup l.
Proof.
  induction 1 as [|x l _ IH Hx]; constructor; [|done]. intros Hin. rewrite Forall_forall in Hx.
  specialize (Hx _ Hin). by rewrite lt_irrefl in Hx.
Qed.

Lemma validate_ok archive allowed :
  validate archive allowed = Ok () →
  Forall canonical (scopes archive) ∧ Forall (λ s, allowed (sc_id s) = true) (scopes archive)
  ∧ NoDup (archive_scope_ids archive) ∧ StronglySorted string_le (archive_scope_ids archive).
Proof.
  unfold validate. intros H. apply try_ok in H as [_ H]. apply try_ok in H as [_ H]. apply try_ok in H as [H _].
  apply validate_scopes_ok in H as (? & ? & Hs). change (StronglySorted (λ x y, string_ltb x y = true) (archive_scope_ids archive)) in Hs.
  split_and!; [done..|by apply ascending_nodup|]. induction Hs as [|x l _ IH Hx]; constructor; [done|]. eapply Forall_impl; [exact Hx|].
  intros y Hy. unfold string_le. simpl in Hy. rewrite string_ltb_spec in Hy. apply Is_true_true, leb_spec. by right.
Qed.

Lemma events_canonical events : ∀ position,
  invalid_events position events = false →
  noncanonical (λ e : Z * string * string, e.1.1) Z.ltb events = false
  ∧ match position, events with Some old, (next, _, _) :: _ => (old < next)%Z | _, _ => True end.
Proof.
  induction events as [|[[n k] p] l IH]; intros position; [by destruct position|]. cbn [invalid_events].
  intros H. apply orb_false_iff in H as [[[_ Hp]%orb_false_iff _]%orb_false_iff Hl]. apply IH in Hl as [Hn Hl].
  split; [|destruct position; [lia|done]]. destruct l as [|[[n' k'] p'] l]; [done|].
  cbn [noncanonical]. apply orb_false_iff. split; [|done]. simpl. apply negb_false_iff. lia.
Qed.

(** ** Reading what was written *)

Section readback.
Context (codec : option ContentCodec).

Lemma read_holds a id w :
  holds a id w →
  read_scope codec a id =
    (let? events := decode_events codec id (order_by row_position Z.ltb (w_events w)) in
     Ok (mkScope id events (order_by ac_key string_ltb (w_commands w)) (order_by fst string_ltb (w_receipts w))
           (order_by fst string_ltb (w_sets w)) (order_by ref_coordinate pair_ltb (w_refs w)))).
Proof.
  intros [He Hc Hr Hs Hf]. unfold read_scope. rewrite He, Hc.
  rewrite (order_by_unique fst string_ltb _ _ (keyed_nodup _ _) Hr),
    (order_by_unique fst string_ltb _ _ (keyed_nodup _ _) Hs),
    (order_by_unique ref_coordinate pair_ltb _ _ (refs_nodup _ _) Hf). done.
Qed.

Lemma read_scope_id a id s : read_scope codec a id = Ok s → sc_id s = id.
Proof. unfold read_scope. destruct (decode_events _ _ _); [|done]. by intros [= <-]. Qed.

Lemma decode_events_nil id rows : decode_events codec id rows = Ok [] → rows = [].
Proof. destruct rows; [done|]. simpl. destruct (ok_or _ _); [|done]. by destruct (decode_events _ _ _). Qed.

Lemma read_vacant a id : read_scope codec a id = Ok (mkScope id [] [] [] [] []) ↔ holds a id no_rows.
Proof.
  split.
  - unfold read_scope. destruct (decode_events _ _ _) as [es|] eqn:Hd; [|done].
    intros H. injection H as -> Hc Hr Hs Hf. apply decode_events_nil, order_by_nil in Hd.
    apply order_by_nil in Hc, Hr, Hs, Hf. split; [done|done|by rewrite Hr|by rewrite Hs|by rewrite Hf].
  - intros H. by rewrite (read_holds _ _ _ H).
Qed.

Lemma rows_canonical id es rs :
  noncanonical (λ e : Z * string * string, e.1.1) Z.ltb es = false → Forall2 (event_row codec id) es rs →
  noncanonical row_position Z.ltb rs = false.
Proof.
  intros Hc H. induction H as [|e r es rs (stored & _ & ->) H IH]; [done|].
  destruct H as [|e' r' es rs (stored' & _ & ->) H]; [done|]. cbn [noncanonical] in *.
  apply orb_false_iff in Hc as [Hc Hl]. apply orb_false_iff. split; [done|]. by apply IH.
Qed.

Context `{!CodecLaws codec}.

Lemma decode_written id es rs : Forall2 (event_row codec id) es rs → decode_events codec id rs = Ok es.
Proof.
  induction 1 as [|[[n k] p] r es rs (stored & He & ->) _ IH]; [done|]. simpl. simpl in He.
  rewrite IH. unfold decode_row, encode_payload in *. simpl. destruct codec as [cc|] eqn:Hcodec.
  - destruct (cc_encode cc id k p) as [st|] eqn:Henc; [|done]. injection He as ->.
    by rewrite (codec_roundtrip _ _ _ _ _ eq_refl Henc).
  - injection He as ->. done.
Qed.

Lemma written_reads a a' s :
  canonical s → holds a (sc_id s) no_rows → write_scope codec a s = Ok a' → read_scope codec a' (sc_id s) = Ok s.
Proof.
  intros [He Hc Hr _ Hs Hf] Hw (rs & Hrs & G)%write_scope_grows.
  apply G in Hw. unfold at_scope in Hw. rewrite String.eqb_refl in Hw. rewrite (read_holds _ _ _ Hw). cbn [plus no_rows w_events w_commands w_receipts w_sets w_refs app].
  apply events_canonical in He as [He _].
  rewrite (order_by_canonical row_position Z.ltb rs) by (try done; by eapply rows_canonical).
  rewrite (decode_written _ _ _ Hrs), (order_by_canonical ac_key string_ltb (sc_commands s)),
    (order_by_canonical fst string_ltb (sc_receipts s)), (order_by_canonical fst string_ltb (sc_fact_sets s)),
    (order_by_canonical ref_coordinate pair_ltb (sc_fact_refs s)) by done. by destruct s.
Qed.

Lemma write_other a a' s x : write_scope codec a s = Ok a' → x ≠ sc_id s → read_scope codec a' x = read_scope codec a x.
Proof.
  intros (rs & _ & G)%write_scope_grows Hx. pose proof (G _ _ (holds_rows_in a x)) as Hw.
  unfold at_scope in Hw. rewrite (proj2 (String.eqb_neq _ _)) in Hw by done.
  by rewrite (read_holds _ _ _ Hw), (read_holds _ _ _ (holds_rows_in a x)).
Qed.

Lemma vacant_spec s : vacant s = true ↔ s = mkScope (sc_id s) [] [] [] [] [].
Proof. apply bool_decide_eq_true. Qed.

Lemma import_scope_spec a a' s :
  canonical s → import_scope codec a s = Ok a' →
  (read_scope codec a (sc_id s) = Ok s ∨ read_scope codec a (sc_id s) = Ok (mkScope (sc_id s) [] [] [] [] []))
  ∧ read_scope codec a' (sc_id s) = Ok s ∧ ∀ x, x ≠ sc_id s → read_scope codec a' x = read_scope codec a x.
Proof.
  unfold import_scope. intros Hc. destruct (read_scope codec a (sc_id s)) as [existing|] eqn:Hr; [|done].
  case_bool_decide as Heq; [intros [= <-]; subst; split_and!; [by left|done..]|].
  intros [Hv%refuse_if_ok Hw]%try_ok. apply negb_false_iff, vacant_spec in Hv.
  rewrite (read_scope_id _ _ _ Hr) in Hv. rewrite Hv in Hr. split; [right; by rewrite Hv|]. apply read_vacant in Hr.
  split; [by eapply written_reads|]. intros x Hx. by eapply write_other.
Qed.

Lemma import_all_spec l : ∀ a a',
  Forall canonical l → NoDup (sc_id <$> l) → try_fold (import_scope codec) a l = Ok a' →
  (∀ s, s ∈ l →
     (read_scope codec a (sc_id s) = Ok s ∨ read_scope codec a (sc_id s) = Ok (mkScope (sc_id s) [] [] [] [] []))
     ∧ read_scope codec a' (sc_id s) = Ok s)
  ∧ ∀ x, x ∉ sc_id <$> l → read_scope codec a' x = read_scope codec a x.
Proof.
  induction l as [|s l IH]; intros a a' Hc Hn; cbn [try_fold].
  - intros [= <-]. split; [by intros s Hs%elem_of_nil|done].
  - destruct (import_scope codec a s) as [a1|] eqn:Hs; [|done]. intros Hl. inversion Hc; subst.
    rewrite fmap_cons, NoDup_cons in Hn. destruct Hn as [Hx Hn].
    apply import_scope_spec in Hs as (Hwas & Hread & Hother); [|done]. apply IH in Hl as [Hin Hout]; [|done..].
    setoid_rewrite fmap_cons. setoid_rewrite elem_of_cons. split.
    + intros s' [->|Hs']; [split; [done|by rewrite Hout]|]. destruct (Hin _ Hs') as [Hwas' ?]. split; [|done].
      rewrite <-!Hother; [done|]. intros Heq. apply Hx. rewrite <-Heq. by apply list_elem_of_fmap_2.
    + intros x Hnot. rewrite Hout, Hother by naive_solver. done.
Qed.

Lemma reimport_all l a :
  (∀ s, s ∈ l → read_scope codec a (sc_id s) = Ok s) → try_fold (import_scope codec) a l = Ok a.
Proof.
  induction l as [|s l IH]; intros H; [done|]. cbn [try_fold]. unfold import_scope at 1.
  rewrite H by (by left). rewrite bool_decide_true by done. apply IH. intros s' Hs'. apply H. by right.
Qed.
End readback.

(** ** When there is room, the import succeeds *)

Lemma try_fold_total {E A B} (f : B → A → result E B) (P : B → list A → Prop) :
  (∀ b x l, P b (x :: l) → ∃ b', f b x = Ok b' ∧ P b' l) → ∀ l b, P b l → ∃ b', try_fold f b l = Ok b'.
Proof.
  intros Hf l. induction l as [|x l IH]; intros b HP; cbn [try_fold]; [by eexists|].
  destruct (Hf _ _ _ HP) as (b' & -> & HP'). by apply IH.
Qed.

Lemma try_fold_keeps {E A B C} (f : B → A → result E B) (g : B → C) :
  (∀ b x b', f b x = Ok b' → g b' = g b) → ∀ l b b', try_fold f b l = Ok b' → g b' = g b.
Proof.
  intros Hf l. induction l as [|x l IH]; intros b b'; cbn [try_fold]; [by intros [= <-]|].
  destruct (f b x) eqn:Hx; [|done]. intros Hl. by rewrite (IH _ _ Hl), (Hf _ _ _ Hx).
Qed.

Section room.
Context (codec : option ContentCodec).

Definition encodes (id : string) (e : Z * string * string) : Prop := ∃ stored, encode_payload codec id e.1.2 e.2 = Ok stored.

Lemma write_events_total id l a :
  (∀ e r, e ∈ l → r ∈ events_in a id → row_position r ≠ e.1.1) → NoDup (l.*1).*1 → Forall (encodes id) l →
  ∃ a', try_fold (write_event codec id) a l = Ok a'.
Proof.
  intros Hfree Hn Hen.
  apply (try_fold_total _ (λ a l, (∀ e r, e ∈ l → r ∈ events_in a id → row_position r ≠ e.1.1) ∧ NoDup (l.*1).*1 ∧ Forall (encodes id) l)); [|done].
  clear. intros a e l (Hfree & Hn & Hen). rewrite !fmap_cons, NoDup_cons in Hn. destruct Hn as [Hx Hn].
  inversion Hen as [|?? [stored He]]; subst. unfold write_event. rewrite He. unfold on_log_of, insert_event.
  destruct (select_at _ _ _) as [r|] eqn:Hr.
  { apply head_Some_elem_of, list_elem_of_filter in Hr as [[Hs Hp] Hin]. destruct (Hfree e r); [by left| |done]. by apply list_elem_of_filter. }
  eexists. split; [done|]. split_and!; [|done..]. clear Hr. intros e' r He' Hr. unfold events_in in Hr. simpl in Hr.
  rewrite filter_app, elem_of_app in Hr. destruct Hr as [Hr|Hr]; [apply Hfree; [by right|done]|].
  apply list_elem_of_filter in Hr as [_ ->%list_elem_of_singleton]. simpl. intros Heq. destruct Hx. rewrite Heq.
  by apply list_elem_of_fmap_2, list_elem_of_fmap_2.
Qed.

Lemma no_conflict row rows :
  (∀ r, r ∈ rows → command_id r ≠ command_id row ∧ row_key r ≠ row_key row) → conflicts row rows = false.
Proof.
  intros H. unfold conflicts. apply not_true_iff_false. intros (r & Hr%list_elem_of_In & Hor)%existsb_exists.
  destruct (H r Hr) as [Hid Hkey]. apply orb_true_iff in Hor as [Hid'%String.eqb_eq|Hkey'%same_key_spec]; [by apply Hid|by apply Hkey].
Qed.

Lemma write_commands_total id l a :
  (∀ x r, x ∈ l → r ∈ commands (plane a) → command_id r ≠ ac_id x ∧ row_key r ≠ (id, ac_key x)) →
  NoDup (ac_id <$> l) → NoDup (ac_key <$> l) → ∃ a', try_fold (write_command id) a l = Ok a'.
Proof.
  intros Hfree Hi Hk.
  apply (try_fold_total _ (λ a l, (∀ x r, x ∈ l → r ∈ commands (plane a) → command_id r ≠ ac_id x ∧ row_key r ≠ (id, ac_key x))
    ∧ NoDup (ac_id <$> l) ∧ NoDup (ac_key <$> l))); [|done].
  clear. intros a x l (Hfree & Hi & Hk). rewrite fmap_cons, NoDup_cons in Hi, Hk. destruct Hi as [Hxi Hi], Hk as [Hxk Hk].
  unfold write_command, insert_command. rewrite no_conflict by (intros r Hr; apply Hfree; [by left|done]).
  eexists. split; [done|]. split_and!; [|done..]. intros y r Hy Hr. simpl in Hr. apply elem_of_app in Hr as [Hr|Hr].
  { apply Hfree; [by right|done]. }
  apply list_elem_of_singleton in Hr as ->. simpl. split.
  - intros Heq. apply Hxi. rewrite Heq. by apply list_elem_of_fmap_2.
  - intros [= Heq]. apply Hxk. rewrite Heq. by apply list_elem_of_fmap_2.
Qed.

Lemma write_receipts_total id (l : list (string * Z)) a :
  (∀ x, x ∈ l → command_receipts (log_db (plane a)) !! (id, x.1) = None) → NoDup l.*1 →
  ∃ a', try_fold (write_receipt id) a l = Ok a'.
Proof.
  intros Hfree Hn. apply (try_fold_total _ (λ a l, (∀ x, x ∈ l → command_receipts (log_db (plane a)) !! (id, x.1) = None) ∧ NoDup l.*1)); [|done].
  clear. intros a x l (Hfree & Hn). rewrite fmap_cons, NoDup_cons in Hn. destruct Hn as [Hx Hn].
  unfold write_receipt, on_log_of, insert_receipt. rewrite Hfree by (by left).
  eexists. split; [done|]. split; [|done]. intros y Hy. simpl. rewrite lookup_insert_ne; [apply Hfree; by right|].
  intros [= Heq]. apply Hx. rewrite Heq. by apply list_elem_of_fmap_2.
Qed.

Lemma write_fact_sets_total id (l : list (string * Z)) a :
  (∀ x, x ∈ l → record_command_fact_sets (plane a) !! (id, x.1) = None) → NoDup l.*1 →
  ∃ a', try_fold (write_fact_set id) a l = Ok a'.
Proof.
  intros Hfree Hn. apply (try_fold_total _ (λ a l, (∀ x, x ∈ l → record_command_fact_sets (plane a) !! (id, x.1) = None) ∧ NoDup l.*1)); [|done].
  clear. intros a x l (Hfree & Hn). rewrite fmap_cons, NoDup_cons in Hn. destruct Hn as [Hx Hn].
  unfold write_fact_set, on_plane, insert_fact_set. rewrite Hfree by (by left). rewrite bool_decide_false by (by intros [? ?]).
  eexists. split; [done|]. split; [|done]. intros y Hy. simpl. rewrite lookup_insert_ne; [apply Hfree; by right|].
  intros [= Heq]. apply Hx. rewrite Heq. by apply list_elem_of_fmap_2.
Qed.

Lemma write_fact_refs_total id (l : list (string * Z * (string * Z))) a :
  (∀ x, x ∈ l → record_command_fact_refs (plane a) !! (id, x.1.1, x.1.2) = None
                ∧ ∀ y, record_command_fact_refs (plane a) !! y ≠ Some x.2) →
  NoDup (ref_coordinate <$> l) → NoDup l.*2 → ∃ a', try_fold (write_fact_ref id) a l = Ok a'.
Proof.
  intros Hfree Hn Hn2.
  apply (try_fold_total _ (λ a l, (∀ x, x ∈ l → record_command_fact_refs (plane a) !! (id, x.1.1, x.1.2) = None
    ∧ ∀ y, record_command_fact_refs (plane a) !! y ≠ Some x.2) ∧ NoDup (ref_coordinate <$> l) ∧ NoDup l.*2)); [|done].
  clear. intros a x l (Hfree & Hn & Hn2). rewrite fmap_cons, NoDup_cons in Hn, Hn2. destruct Hn as [Hx Hn], Hn2 as [Hx2 Hn2].
  destruct (Hfree x) as [Hkey Hat]; [by left|].
  unfold write_fact_ref, on_plane, insert_fact_ref. rewrite Hkey, bool_decide_false by (by intros [? ?]).
  destruct (existsb _ _) eqn:Hex.
  { apply existsb_exists in Hex as ([y v] & Hin%list_elem_of_In & Hv%bool_decide_eq_true). simpl in Hv. subst.
    by apply elem_of_map_to_list, Hat in Hin. }
  eexists. split; [done|]. split_and!; [|done..]. intros y Hy. simpl. split.
  - rewrite lookup_insert_ne; [by apply Hfree; right|]. intros [= Hk Hi]. apply Hx.
    replace (ref_coordinate x) with (ref_coordinate y); [by apply list_elem_of_fmap_2|].
    unfold ref_coordinate. destruct (x.1), (y.1). simpl in *. congruence.
  - intros z Hz. rewrite lookup_insert in Hz. case_decide; [|by eapply Hfree; [right|exact Hz]].
    injection Hz as Heq. apply Hx2. rewrite Heq. by apply list_elem_of_fmap_2.
Qed.

Lemma keyed_none {V} (m : gmap (string * string) V) id k : keyed m id ≡ₚ [] → m !! (id, k) = None.
Proof.
  intros H%Permutation_nil_r. apply eq_None_not_Some. intros [v Hv%elem_of_map_to_list].
  assert ((k, v) ∈ keyed m id) as Hin; [|rewrite H in Hin; by apply elem_of_nil in Hin].
  apply list_elem_of_omap. exists (id, k, v). split; [done|]. simpl. by rewrite String.eqb_refl.
Qed.

Lemma refs_none a id k i : refs_in a id ≡ₚ [] → record_command_fact_refs (plane a) !! (id, k, i) = None.
Proof.
  intros H%Permutation_nil_r. apply eq_None_not_Some. intros [v Hv%elem_of_map_to_list].
  assert ((k, i, v) ∈ refs_in a id) as Hin; [|rewrite H in Hin; by apply elem_of_nil in Hin].
  apply list_elem_of_omap. exists (id, k, i, v). split; [done|]. simpl. by rewrite String.eqb_refl.
Qed.

Lemma commands_none a id r : commands_in a id = [] → r ∈ commands (plane a) → cmd_scope r ≠ id.
Proof.
  intros H%fmap_nil_inv Hr Heq. assert (r ∈ filter (λ r, cmd_scope r = id) (commands (plane a))) as Hin by by apply list_elem_of_filter.
  rewrite H in Hin. by apply elem_of_nil in Hin.
Qed.

Lemma invalid_commands_ids l : ∀ keys ids,
  invalid_commands keys ids l = false → NoDup (ac_id <$> l) ∧ ∀ x, x ∈ l → ac_id x ∉ ids.
Proof.
  induction l as [|x l IH]; intros keys ids; cbn [invalid_commands]; [split; [constructor|by intros x Hx%elem_of_nil]|].
  intros H. apply orb_false_iff in H as [[[_ Hid%bool_decide_eq_false]%orb_false_iff _]%orb_false_iff H].
  apply IH in H as [Hn Hx]. split.
  - rewrite fmap_cons. constructor; [|done]. intros (y & Heq & Hy)%list_elem_of_fmap. specialize (Hx _ Hy). set_solver.
  - intros y [->|Hy]%elem_of_cons; [done|]. specialize (Hx _ Hy). set_solver.
Qed.

(** The store has none of the archive's scopes, none of its command ids, and no fact at
    one of its event coordinates; and the store's codec can hold its payloads. *)
Record room (a : Adb) (l : list ArchivedScope) : Prop := {
  rm_vacant : Forall (λ s, holds a (sc_id s) no_rows) l;
  rm_ids : NoDup (ac_id <$> concat (sc_commands <$> l));
  rm_ids_new x r : x ∈ concat (sc_commands <$> l) → r ∈ commands (plane a) → command_id r ≠ ac_id x;
  rm_refs : NoDup (concat (sc_fact_refs <$> l)).*2;
  rm_refs_new x y : x ∈ concat (sc_fact_refs <$> l) → record_command_fact_refs (plane a) !! y ≠ Some x.2;
  rm_encodes : Forall (λ s, Forall (encodes (sc_id s)) (sc_events s)) l;
}.

(** Each insertion touches one table. *)
Lemma write_event_keeps id a e a' :
  write_event codec id a e = Ok a' →
  (commands (plane a'), command_receipts (log_db (plane a')), record_command_fact_sets (plane a'), record_command_fact_refs (plane a'))
  = (commands (plane a), command_receipts (log_db (plane a)), record_command_fact_sets (plane a), record_command_fact_refs (plane a)).
Proof.
  unfold write_event. destruct (encode_payload _ _ _ _); [|done]. unfold on_log_of, insert_event.
  destruct (select_at _ _ _); [done|]. by intros [= <-].
Qed.

Lemma write_command_keeps id a e a' :
  write_command id a e = Ok a' →
  (log_db (plane a'), record_command_fact_sets (plane a'), record_command_fact_refs (plane a'))
  = (log_db (plane a), record_command_fact_sets (plane a), record_command_fact_refs (plane a)).
Proof. unfold write_command, insert_command. destruct (conflicts _ _); [done|]. by intros [= <-]. Qed.

Lemma write_commands_ids id l : ∀ a a',
  try_fold (write_command id) a l = Ok a' →
  command_id <$> commands (plane a') = (command_id <$> commands (plane a)) ++ (ac_id <$> l).
Proof.
  induction l as [|x l IH]; intros a a'; cbn [try_fold]; [intros [= <-]; by rewrite app_nil_r|].
  destruct (write_command id a x) as [a1|] eqn:Hx; [|done]. intros Hl. rewrite (IH _ _ Hl).
  revert Hx. unfold write_command, insert_command. destruct (conflicts _ _); [done|]. intros [= <-]. simpl.
  rewrite fmap_app, <-app_assoc. done.
Qed.

Lemma write_receipt_keeps id a e a' :
  write_receipt id a e = Ok a' →
  (commands (plane a'), record_command_fact_sets (plane a'), record_command_fact_refs (plane a'))
  = (commands (plane a), record_command_fact_sets (plane a), record_command_fact_refs (plane a)).
Proof. unfold write_receipt, on_log_of, insert_receipt. destruct (_ !! _); [done|]. by intros [= <-]. Qed.

Lemma write_fact_set_keeps id a e a' :
  write_fact_set id a e = Ok a' →
  (commands (plane a'), record_command_fact_refs (plane a')) = (commands (plane a), record_command_fact_refs (plane a)).
Proof. unfold write_fact_set, on_plane, insert_fact_set. case_bool_decide; [done|]. by intros [= <-]. Qed.

Lemma write_fact_ref_keeps id a e a' : write_fact_ref id a e = Ok a' → commands (plane a') = commands (plane a).
Proof. unfold write_fact_ref, on_plane, insert_fact_ref. destruct (_ || _); [done|]. by intros [= <-]. Qed.

Lemma write_fact_refs_at id l : ∀ a a' y v,
  try_fold (write_fact_ref id) a l = Ok a' → record_command_fact_refs (plane a') !! y = Some v →
  record_command_fact_refs (plane a) !! y = Some v ∨ v ∈ l.*2.
Proof.
  induction l as [|x l IH]; intros a a' y v; cbn [try_fold]; [intros [= <-]; by left|].
  destruct (write_fact_ref id a x) as [a1|] eqn:Hx; [|done]. intros Hl Hy. rewrite fmap_cons.
  destruct (IH _ _ _ _ Hl Hy) as [H|H]; [|right; by right].
  revert Hx. unfold write_fact_ref, on_plane, insert_fact_ref. destruct (_ || _); [done|]. intros [= <-]. simpl in H.
  rewrite lookup_insert in H. case_decide; [|by left]. injection H as ->. right. by left.
Qed.

Lemma write_scope_frame a s a' :
  write_scope codec a s = Ok a' →
  command_id <$> commands (plane a') = (command_id <$> commands (plane a)) ++ (ac_id <$> sc_commands s)
  ∧ ∀ y v, record_command_fact_refs (plane a') !! y = Some v →
      record_command_fact_refs (plane a) !! y = Some v ∨ v ∈ (sc_fact_refs s).*2.
Proof.
  unfold write_scope. destruct (try_fold (write_event _ _) _ _) as [a1|] eqn:H1; [|done].
  destruct (try_fold (write_command _) _ _) as [a2|] eqn:H2; [|done].
  destruct (try_fold (write_receipt _) _ _) as [a3|] eqn:H3; [|done].
  destruct (try_fold (write_fact_set _) _ _) as [a4|] eqn:H4; [|done]. intros H5.
  pose proof (write_commands_ids _ _ _ _ H2) as Hids. pose proof (λ y v, write_fact_refs_at _ _ _ _ y v H5) as Hrefs.
  pose proof (try_fold_keeps _ _ (write_event_keeps _) _ _ _ H1) as K1.
  pose proof (try_fold_keeps _ _ (write_command_keeps _) _ _ _ H2) as K2.
  pose proof (try_fold_keeps _ _ (write_receipt_keeps _) _ _ _ H3) as K3.
  pose proof (try_fold_keeps _ _ (write_fact_set_keeps _) _ _ _ H4) as K4.
  pose proof (try_fold_keeps _ _ (write_fact_ref_keeps _) _ _ _ H5) as K5.
  split; [congruence|]. intros y v Hy. apply Hrefs in Hy. replace (record_command_fact_refs (plane a)) with (record_command_fact_refs (plane a4)) by congruence. done.
Qed.

Lemma write_scope_total a s :
  canonical s → holds a (sc_id s) no_rows →
  (∀ x r, x ∈ sc_commands s → r ∈ commands (plane a) → command_id r ≠ ac_id x) →
  NoDup (sc_fact_refs s).*2 →
  (∀ x y, x ∈ sc_fact_refs s → record_command_fact_refs (plane a) !! y ≠ Some x.2) →
  Forall (encodes (sc_id s)) (sc_events s) → ∃ a', write_scope codec a s = Ok a'.
Proof.
  intros Hc [He Hcm Hr Hs Hf] Hids Hn Hat Hen. pose proof (proj1 (invalid_commands_ids _ _ _ (c_ids _ Hc))) as Hnid.
  destruct Hc as [Hce Hcc Hcr _ Hcs Hcf]. apply events_canonical in Hce as [Hce _].
  apply canonical_nodup in Hce, Hcc, Hcr, Hcs, Hcf; try apply _. unfold write_scope.
  destruct (write_events_total (sc_id s) (sc_events s) a) as [a1 H1]; [|by rewrite <-list_fmap_compose|done|].
  { intros e r _ Hin. rewrite He in Hin. by apply elem_of_nil in Hin. }
  rewrite H1. apply (try_fold_keeps _ _ (write_event_keeps _)) in H1. injection H1 as Kc1 Kr1 Ks1 Kf1.
  destruct (write_commands_total (sc_id s) (sc_commands s) a1) as [a2 H2]; [|done..|].
  { intros x r Hx Hin. rewrite Kc1 in Hin. split; [by apply Hids|]. unfold row_key. intros [= Heq _]. by eapply commands_none. }
  rewrite H2. apply (try_fold_keeps _ _ (write_command_keeps _)) in H2. injection H2 as Kl2 Ks2 Kf2.
  destruct (write_receipts_total (sc_id s) (sc_receipts s) a2) as [a3 H3]; [|done|].
  { intros x _. rewrite Kl2, Kr1. by apply keyed_none. }
  rewrite H3. apply (try_fold_keeps _ _ (write_receipt_keeps _)) in H3. injection H3 as Kc3 Ks3 Kf3.
  destruct (write_fact_sets_total (sc_id s) (sc_fact_sets s) a3) as [a4 H4]; [|done|].
  { intros x _. rewrite Ks3, Ks2, Ks1. by apply keyed_none. }
  rewrite H4. apply (try_fold_keeps _ _ (write_fact_set_keeps _)) in H4. injection H4 as Kc4 Kf4.
  apply write_fact_refs_total; [|done..]. intros x Hx. rewrite Kf4, Kf3, Kf2, Kf1.
  split; [by apply refs_none|]. intros y. by apply Hat.
Qed.

Lemma import_scope_total a s l :
  canonical s → NoDup (sc_id <$> s :: l) → room a (s :: l) → ∃ a', import_scope codec a s = Ok a' ∧ room a' l.
Proof.
  intros Hc Hn [Hv Hi Hin Hf Hfn He]. rewrite !fmap_cons in *. cbn [concat] in *.
  rewrite fmap_app in Hi. rewrite fmap_app in Hf. apply NoDup_app in Hi as (Hi1 & Hi2 & Hi3), Hf as (Hf1 & Hf2 & Hf3).
  apply Forall_cons in Hv as [Hvs Hvl], He as [Hes Hel]. apply NoDup_cons in Hn as [Hs Hn].
  unfold import_scope. pose proof (proj2 (read_vacant codec _ _) Hvs) as Hread. rewrite Hread.
  assert (room a l) as Hroom.
  { split; [done|done| |done| |done]; intros x y Hx; [apply Hin|apply Hfn]; apply elem_of_app; by right. }
  case_bool_decide; [by exists a|]. unfold vacant. rewrite bool_decide_true by done. cbn [negb refuse_if].
  destruct (write_scope_total a s Hc Hvs) as [a' Ha']; [|done| |done|exists a'; split; [done|]].
  { intros x r Hx. apply Hin, elem_of_app. by left. }
  { intros x y Hx. apply Hfn, elem_of_app. by left. }
  destruct (write_scope_frame _ _ _ Ha') as [Hids Hrefs]. destruct Hroom as [_ _ Hin' _ Hfn' _].
  split; [|done| |done| |done].
  - apply Forall_forall. intros s' Hs'. rewrite Forall_forall in Hvl. apply write_scope_grows in Ha' as (rs & _ & G).
    specialize (G _ _ (Hvl _ Hs')). unfold at_scope in G. rewrite (proj2 (String.eqb_neq _ _)) in G; [done|].
    intros Heq. apply Hs. rewrite <-Heq. by apply list_elem_of_fmap_2.
  - intros x r Hx Hr Heq. apply (list_elem_of_fmap_2 command_id) in Hr. rewrite Hids in Hr.
    apply elem_of_app in Hr as [(r' & Heq' & Hr')%list_elem_of_fmap|Hr]; [apply (Hin' x r'); congruence|].
    apply (Hi2 (command_id r)); [done|]. rewrite Heq. by apply list_elem_of_fmap_2.
  - intros x y Hx [Hy|Hy]%Hrefs; [by eapply Hfn'|]. apply (Hf2 _ Hy). by apply list_elem_of_fmap_2.
Qed.

Lemma import_all_total l a :
  Forall canonical l → NoDup (sc_id <$> l) → room a l → ∃ a', try_fold (import_scope codec) a l = Ok a'.
Proof.
  intros Hc Hn Hr. apply (try_fold_total _ (λ a l, Forall canonical l ∧ NoDup (sc_id <$> l) ∧ room a l)); [|done].
  clear. intros a s l (Hc & Hn & Hr). apply Forall_cons in Hc as [Hs Hc].
  destruct (import_scope_total _ _ _ Hs Hn Hr) as (a' & Ha' & Hroom). exists a'. split; [done|].
  split_and!; [done| |done]. rewrite fmap_cons in Hn. by apply NoDup_cons in Hn as [_ Hn].
Qed.
End room.

(** ** What an export holds *)

Lemma validate_links_nodup refs : ∀ events linked,
  validate_links events linked refs = Ok () → NoDup refs.*2 ∧ ∀ r, r ∈ refs → r.2 ∉ linked.
Proof.
  induction refs as [|r refs IH]; intros events linked; cbn [validate_links]; [split; [constructor|by intros r Hr%elem_of_nil]|].
  intros [[_ Hl%bool_decide_eq_false]%refuse_if_ok%orb_false_iff H]%try_ok. apply IH in H as [Hn Hr]. split.
  - rewrite fmap_cons. constructor; [|done]. intros (y & Heq & Hy)%list_elem_of_fmap. specialize (Hr _ Hy). set_solver.
  - intros y [->|Hy]%elem_of_cons; [done|]. specialize (Hr _ Hy). set_solver.
Qed.

Lemma validate_linked archive allowed :
  validate archive allowed = Ok () → NoDup (concat (sc_fact_refs <$> scopes archive)).*2.
Proof.
  unfold validate. intros H. apply try_ok in H as [_ H]. apply try_ok in H as [_ H]. apply try_ok in H as [_ H].
  by apply validate_links_nodup in H as [? _].
Qed.

Section export.
Context (codec : option ContentCodec).

Lemma keyed_empty {V} (m : gmap (string * string) V) id : keyed m id ≡ₚ [] ↔ id ∉ ((map_to_list m).*1).*1.
Proof.
  split.
  - intros H (kk & -> & ([[s k] v] & -> & Hin)%list_elem_of_fmap)%list_elem_of_fmap. cbn [fst] in H.
    apply (keyed_none _ _ k) in H. apply elem_of_map_to_list in Hin. congruence.
  - intros H. replace (keyed m id) with (@nil (string * V)); [done|]. symmetry. apply elem_of_nil_inv. intros [k v].
    intros ([[s k'] v'] & Hin & Heq)%list_elem_of_omap. simpl in Heq. destruct (String.eqb_spec s id) as [->|]; [|done].
    apply H. change id with (id, k').1. apply list_elem_of_fmap_2. change (id, k') with (id, k', v').1. by apply list_elem_of_fmap_2.
Qed.

Lemma refs_empty a id : refs_in a id ≡ₚ [] ↔ id ∉ (((map_to_list (record_command_fact_refs (plane a))).*1).*1).*1.
Proof.
  split.
  - intros H (kk & -> & (ki & -> & ([[[s k] i] v] & -> & Hin)%list_elem_of_fmap)%list_elem_of_fmap)%list_elem_of_fmap. cbn [fst] in H.
    apply (refs_none _ _ k i) in H. apply elem_of_map_to_list in Hin. congruence.
  - intros H. replace (refs_in a id) with (@nil (string * Z * (string * Z))); [done|]. symmetry. apply elem_of_nil_inv. intros [[k i] v].
    intros ([[[s k'] i'] v'] & Hin & Heq)%list_elem_of_omap. simpl in Heq. destruct (String.eqb_spec s id) as [->|]; [|done].
    apply H. rewrite <-!list_fmap_compose. change id with ((fst ∘ (fst ∘ fst)) (id, k', i', v')). by apply list_elem_of_fmap_2.
Qed.

(** A scope is listed exactly when some table has a row of it. *)
Lemma plane_scopes_spec a id : id ∉ plane_scopes a ↔ holds a id no_rows.
Proof.
  unfold plane_scopes. rewrite !not_elem_of_app, <-!keyed_empty, <-refs_empty.
  split.
  - intros (He & Hc & Hr & Hs & Hf). split; [| |done..]; simpl; [unfold events_in|unfold commands_in; rewrite (elem_of_nil_inv (filter _ _)); [done|]];
      [apply elem_of_nil_inv|]; intros r [<- Hr']%list_elem_of_filter; [apply He|apply Hc]; by apply list_elem_of_fmap_2.
  - intros [He Hc Hr Hs Hf]. simpl in *. split_and!; [| |done..].
    + intros (r & -> & Hin)%list_elem_of_fmap. assert (r ∈ events_in a (row_scope r)) as H by by apply list_elem_of_filter.
      rewrite He in H. by apply elem_of_nil in H.
    + intros (r & -> & Hin)%list_elem_of_fmap. by eapply commands_none.
Qed.

Lemma read_scopes_spec a ids ss :
  read_scopes codec a ids = Ok ss ↔ sc_id <$> ss = ids ∧ ∀ s, s ∈ ss → read_scope codec a (sc_id s) = Ok s.
Proof.
  revert ss. induction ids as [|id ids IH]; intros ss; cbn [read_scopes].
  - split; [intros [= <-]; split; [done|by intros s Hs%elem_of_nil]|]. intros [->%fmap_nil_inv _]. done.
  - destruct (read_scope codec a id) as [s|] eqn:Hs.
    + destruct (read_scopes codec a ids) as [rest|] eqn:Hrest.
      * split.
        { intros [= <-]. destruct (proj1 (IH _) eq_refl) as [<- Hall]. rewrite fmap_cons, (read_scope_id _ _ _ _ Hs).
          split; [done|]. intros s' [->|Hs']%elem_of_cons; [by rewrite (read_scope_id _ _ _ _ Hs)|by apply Hall]. }
        intros [Hids Hall]. destruct ss as [|s' ss]; [done|]. rewrite fmap_cons in Hids. injection Hids as <- Hids.
        rewrite Hall in Hs by (by left). injection Hs as ->. f_equal. f_equal.
        assert (Ok (E:=failure) rest = Ok ss) as [= ->]; [|done]. apply IH. split; [done|]. intros s' Hs'. apply Hall. by right.
      * split; [done|]. intros [Hids Hall]. destruct ss as [|s' ss]; [done|]. rewrite fmap_cons in Hids. injection Hids as <- Hids.
        assert (Err e = Ok ss) as H; [|done]. apply IH. split; [done|]. intros s'' Hs''. apply Hall. by right.
    + split; [done|]. intros [Hids Hall]. destruct ss as [|s' ss]; [done|]. rewrite fmap_cons in Hids. injection Hids as <- Hids.
      rewrite Hall in Hs by (by left). done.
Qed.

Definition listed (a : Adb) (selected : string → bool) : list string :=
  List.filter selected (merge_sort string_le (remove_dups (plane_scopes a))).

Lemma listed_spec a selected :
  StronglySorted string_le (listed a selected) ∧ NoDup (listed a selected)
  ∧ ∀ id, id ∈ listed a selected ↔ id ∈ plane_scopes a ∧ selected id = true.
Proof.
  unfold listed. assert (StronglySorted string_le (merge_sort string_le (remove_dups (plane_scopes a)))) as Hs
    by apply (StronglySorted_merge_sort string_le).
  assert (NoDup (merge_sort string_le (remove_dups (plane_scopes a)))) as Hn
    by (rewrite merge_sort_Permutation; apply NoDup_remove_dups).
  assert (∀ id, id ∈ merge_sort string_le (remove_dups (plane_scopes a)) ↔ id ∈ plane_scopes a) as He
    by (intros; by rewrite merge_sort_Permutation, elem_of_remove_dups).
  revert Hs Hn He. generalize (merge_sort string_le (remove_dups (plane_scopes a))). intros l Hs Hn He. split_and!.
  - clear -Hs. induction Hs as [|x l Hs IH Hx]; [constructor|]. simpl. destruct (selected x); [|done].
    constructor; [done|]. rewrite Forall_forall in Hx |- *. intros y [Hy _]%list_elem_of_In%filter_In. by apply Hx, list_elem_of_In.
  - apply NoDup_ListNoDup, List.NoDup_filter, NoDup_ListNoDup, Hn.
  - intros id. rewrite list_elem_of_In, filter_In, <-list_elem_of_In, He. done.
Qed.

Lemma export_ok a selected archive :
  export_command_scopes codec a selected = Ok archive ↔
  protocol archive = PROTOCOL ∧ archive_scope_ids archive = listed a selected
  ∧ (∀ s, s ∈ scopes archive → read_scope codec a (sc_id s) = Ok s) ∧ validate archive selected = Ok ().
Proof.
  unfold export_command_scopes. fold (listed a selected). split.
  - destruct (read_scopes codec a (listed a selected)) as [ss|] eqn:Hr; [|done]. cbv zeta. intros [Hv Ha]%try_ok.
    injection Ha as <-. apply read_scopes_spec in Hr as [? ?]. done.
  - destruct archive as [p ss]. simpl. intros (-> & Hids & Hall & Hv). rewrite (proj2 (read_scopes_spec a (listed a selected) ss)) by done.
    cbv zeta. by rewrite Hv.
Qed.

(** The commands of distinct scopes have distinct ids. *)
Lemma commands_of_scopes_nodup a ss :
  commands_ok (plane a) → NoDup (sc_id <$> ss) → (∀ s, s ∈ ss → read_scope codec a (sc_id s) = Ok s) →
  NoDup (ac_id <$> concat (sc_commands <$> ss)).
Proof.
  intros [Hids _] Hn Hread.
  assert (∀ s x, s ∈ ss → x ∈ sc_commands s → ∃ r, r ∈ commands (plane a) ∧ cmd_scope r = sc_id s ∧ command_id r = ac_id x) as Hrow.
  { intros s x Hs Hx. specialize (Hread _ Hs). unfold read_scope in Hread. destruct (decode_events _ _ _); [|done].
    injection Hread as Hread. rewrite <-Hread in Hx. simpl in Hx. rewrite order_by_perm in Hx.
    apply list_elem_of_fmap in Hx as (r & -> & [? ?]%list_elem_of_filter). by exists r. }
  assert (∀ s, s ∈ ss → NoDup (ac_id <$> sc_commands s)) as Hone.
  { intros s Hs. specialize (Hread _ Hs). unfold read_scope in Hread. destruct (decode_events _ _ _); [|done].
    injection Hread as Hread. rewrite <-Hread. simpl. rewrite order_by_perm. unfold commands_in. rewrite <-list_fmap_compose.
    change (NoDup (command_id <$> filter (λ r, cmd_scope r = sc_id s) (commands (plane a)))).
    eapply sublist_NoDup; [exact Hids|]. apply fmap_sublist. apply sublist_filter. }
  clear Hread. induction ss as [|s ss IH]; [constructor|]. rewrite !fmap_cons in *. cbn [concat]. rewrite fmap_app.
  apply NoDup_cons in Hn as [Hs Hn]. apply NoDup_app. split_and!.
  - apply Hone. by left.
  - intros id (x & -> & Hx)%list_elem_of_fmap (y & Heq & Hy)%list_elem_of_fmap.
    apply list_elem_of_In, in_concat in Hy as (l & Hl%list_elem_of_In & Hy%list_elem_of_In).
    apply list_elem_of_fmap in Hl as (s' & -> & Hs').
    destruct (Hrow s x) as (r & Hr & Hsc & Hid); [by left|done|]. destruct (Hrow s' y) as (r' & Hr' & Hsc' & Hid'); [by right|done|].
    assert (r = r') as <- by (eapply key_inj; [exact Hids|done..|congruence]).
    apply Hs. rewrite <-Hsc, Hsc'. by apply list_elem_of_fmap_2.
  - apply IH; [done|..]; intros; [eapply Hrow|apply Hone]; try done; by right.
Qed.
End export.

(** ** Relocation *)

(** C20: an import either changes nothing or makes every scope of the archive read back
    exactly as the archive has it, positions, receipts and fact references included; it
    finds each of those scopes either already so or empty, all of them selected by the
    caller; no other scope reads differently; and importing the archive again changes
    nothing. *)
Theorem import_exact codec `{!CodecLaws codec} a archive allowed a' outcome :
  import_command_scopes codec a archive allowed = (a', outcome) →
  match outcome with
  | Err _ => a' = a
  | Ok _ =>
      (∀ s, s ∈ scopes archive → allowed (sc_id s) = true
        ∧ (read_scope codec a (sc_id s) = Ok s ∨ read_scope codec a (sc_id s) = Ok (mkScope (sc_id s) [] [] [] [] []))
        ∧ read_scope codec a' (sc_id s) = Ok s)
      ∧ (∀ id, id ∉ archive_scope_ids archive → read_scope codec a' id = read_scope codec a id)
      ∧ import_command_scopes codec a' archive allowed = (a', Ok ())
  end.
Proof.
  unfold import_command_scopes, import_into. destruct (validate archive allowed) as [[]|] eqn:Hv; [|by intros [= <- <-]].
  destruct (try_fold _ a _) as [a1|] eqn:Hf; [|by intros [= <- <-]]. intros [= <- <-].
  apply validate_ok in Hv as (Hc & Hal & Hn & _). destruct (import_all_spec _ _ _ _ Hc Hn Hf) as [Hin Hout].
  split_and!; [|done|].
  - intros s Hs. rewrite Forall_forall in Hal. destruct (Hin _ Hs). by split; [apply Hal|].
  - rewrite reimport_all; [done|]. intros s Hs. by apply Hin.
Qed.

(** C19: what one store exports of the scopes a caller selects, another store, holding
    none of them and with a codec of its own, imports; it then exports the same archive,
    and its other scopes read as they did. *)
Theorem relocation_roundtrip codec codec' `{!CodecLaws codec'} src dst selected archive :
  commands_ok (plane src) →
  export_command_scopes codec src selected = Ok archive →
  (∀ id, selected id = true → id ∉ plane_scopes dst) →
  (∀ x r, x ∈ concat (sc_commands <$> scopes archive) → r ∈ commands (plane dst) → command_id r ≠ ac_id x) →
  (∀ x y, x ∈ concat (sc_fact_refs <$> scopes archive) → record_command_fact_refs (plane dst) !! y ≠ Some x.2) →
  Forall (λ s, Forall (encodes codec' (sc_id s)) (sc_events s)) (scopes archive) →
  ∃ dst', import_command_scopes codec' dst archive selected = (dst', Ok ())
    ∧ export_command_scopes codec' dst' selected = Ok archive
    ∧ ∀ id, selected id = false → read_scope codec' dst' id = read_scope codec' dst id.
Proof.
  intros Hok (Hp & Hids & Hread & Hv)%export_ok Hfree Hnew Hat Hen.
  destruct (validate_ok _ _ Hv) as (Hc & Hal & Hn & Hsorted). rewrite Forall_forall in Hal.
  assert (room codec' dst (scopes archive)) as Hroom.
  { split; [|by eapply commands_of_scopes_nodup|done|by eapply validate_linked|done..].
    apply Forall_forall. intros s Hs. by apply plane_scopes_spec, Hfree, Hal. }
  destruct (import_all_total _ _ _ Hc Hn Hroom) as [dst' Hf]. exists dst'.
  destruct (import_all_spec _ _ _ _ Hc Hn Hf) as [Hin Hout].
  assert (import_command_scopes codec' dst archive selected = (dst', Ok ())) as Himp.
  { unfold import_command_scopes, import_into. by rewrite Hv, Hf. }
  split_and!; [done| |].
  - apply export_ok. split_and!; [done| |intros s Hs; by apply Hin|done].
    destruct (listed_spec dst' selected) as (Hs' & Hn' & He'). apply ordered_unique; [done..|].
    intros id. rewrite He'. unfold archive_scope_ids. split.
    + intros (s & -> & Hs)%list_elem_of_fmap. split; [|by apply Hal]. destruct (Hin _ Hs) as [_ Hr].
      apply dec_stable. intros Hno%plane_scopes_spec. apply (read_vacant codec') in Hno. rewrite Hr in Hno. injection Hno as Hs0.
      assert (sc_id s ∈ listed src selected) as Hl by (rewrite <-Hids; by apply list_elem_of_fmap_2).
      apply listed_spec in Hl as [Hl _]. apply (plane_scopes_spec src (sc_id s)); [|done].
      apply (read_vacant codec). by rewrite (Hread _ Hs), <-Hs0.
    + intros [Hl Hsel]. apply dec_stable. intros Hno. apply (plane_scopes_spec dst' id); [|done].
      apply (read_vacant codec'). rewrite Hout by done. apply read_vacant, plane_scopes_spec. by apply Hfree.
  - intros id Hsel. apply Hout. intros (s & -> & Hs)%list_elem_of_fmap. rewrite Hal in Hsel by done. done.
Qed.

(** ** Examples *)

Module ArchiveSample.

(** A codec that marks what it stored. *)
Definition marked : ContentCodec :=
  mkContentCodec (λ _ _ plain, Ok (String.String (Ascii.ascii_of_nat 35) plain))
    (λ _ _ stored, match stored with String.String _ plain => Some plain | EmptyString => None end).

#[export] Instance marked_laws : CodecLaws (Some marked).
Proof. intros c scope kind plain stored [= <-]. simpl. by intros [= <-]. Qed.

(** A command applied in [run:a], whose one fact stands in [audit:a], and the same
    command's scope in another product. *)
Definition src : Adb :=
  mkAdb
    (mkCdb (mkDb [mkEventRow "run:a" 0 "run" "started"; mkEventRow "audit:a" 4 "audit" "fact"; mkEventRow "run:z" 0 "run" "other"]
              {[("run:a", "k1") := 0%Z]} ∅)
       [mkCommandRecord "c1" "run:a" "k1" "applied" "start"; mkCommandRecord "c0" "run:a" "k0" "received" "wait"]
       {[("run:a", "k1") := 1%Z]} {[("run:a", "k1", 0%Z) := ("audit:a", 4%Z)]} None)
    {["c1" := "2026-01-02 00:00:00"; "c0" := "2026-01-01 00:00:00"]}.

Definition dst : Adb :=
  mkAdb (mkCdb (mkDb [mkEventRow "run:z" 0 "run" "#mine"] ∅ ∅) [] ∅ ∅ None) ∅.

Definition selected (id : string) : bool := String.eqb id "run:a" || String.eqb id "audit:a".

Definition archive : CommandScopeArchive :=
  mkArchive PROTOCOL
    [mkScope "audit:a" [(4%Z, "audit", "fact")] [] [] [] [];
     mkScope "run:a" [(0%Z, "run", "started")]
       [mkCommand "c0" "k0" "received" "wait" "2026-01-01 00:00:00"; mkCommand "c1" "k1" "applied" "start" "2026-01-02 00:00:00"]
       [("k1", 0%Z)] [("k1", 1%Z)] [("k1", 0%Z, ("audit:a", 4%Z))]].

Example exported : export_command_scopes None src selected = Ok archive.
Proof. vm_compute. reflexivity. Qed.

(** A scope left behind leaves a fact without its event. *)
Example incomplete : export_command_scopes None src (String.eqb "run:a")
  = rejected "command archive has a missing or repeated fact event".
Proof. vm_compute. reflexivity. Qed.

Example conflict : import_command_scopes (Some marked)
    (dst <| plane ::= λ c, c <| log_db ::= λ db, db <| events := [mkEventRow "audit:a" 0 "audit" "#else"] |> |> |>) archive selected
  = (dst <| plane ::= λ c, c <| log_db ::= λ db, db <| events := [mkEventRow "audit:a" 0 "audit" "#else"] |> |> |>,
     rejected "command scope import conflicts with existing authority").
Proof. vm_compute. reflexivity. Qed.

Definition imported : Adb := (import_command_scopes (Some marked) dst archive selected).1.

Lemma import_exact_witness :
  import_command_scopes (Some marked) dst archive selected = (imported, Ok ())
  ∧ import_command_scopes (Some marked) imported archive selected = (imported, Ok ()).
Proof.
  assert (import_command_scopes (Some marked) dst archive selected = (imported, Ok ())) as H by (vm_compute; reflexivity).
  split; [exact H|]. exact (proj2 (proj2 (import_exact (Some marked) dst archive selected imported (Ok ()) H))).
Defined.

Lemma relocation_roundtrip_witness :
  ∃ dst', import_command_scopes (Some marked) dst archive selected = (dst', Ok ())
    ∧ export_command_scopes (Some marked) dst' selected = Ok archive
    ∧ ∀ id, selected id = false → read_scope (Some marked) dst' id = read_scope (Some marked) dst id.
Proof.
  apply (relocation_roundtrip None (Some marked) src dst selected archive).
  - split; apply (bool_decide_unpack _); vm_compute; reflexivity.
  - exact exported.
  - intros id Hsel Hin. unfold plane_scopes in Hin. simpl in Hin.
    apply list_elem_of_singleton in Hin as ->. vm_compute in Hsel. discriminate.
  - intros x r _ Hr. apply elem_of_nil in Hr as [].
  - intros x y _. simpl. rewrite lookup_empty. discriminate.
  - apply Forall_forall. intros s Hs. apply Forall_forall. intros e _. eexists. reflexivity.
Defined.

End ArchiveSample.
