(* ===== verification/Dispatch.v ===== *)
(** * Dispatch: admission with an outbox intent

    [command_dispatch.rs] of [crates/store/src]: the original command, its lifecycle
    events, one outbox intent for the runtime and the receipt commit together; a
    dispatcher reads the intent back from the receipt. And the handle of a held writer,
    whose checks latch: one refusal ends it. *)

From S2P Require Import Prelude Ids Lifecycle Store Commands RecordAdmission.

Definition DISPATCH_KIND : string := "runtime_command_dispatch_v1".

Record CommandDispatch := mkDispatch { runtime_ref : string; command_ref : string }.

Record DispatchIntent := mkIntent { intent_command_id : string; intent_dispatch : CommandDispatch }.

#[export] Instance CommandDispatch_eq_dec : EqDecision CommandDispatch.
Proof. solve_decision. Defined.
#[export] Instance DispatchIntent_eq_dec : EqDecision DispatchIntent.
Proof. solve_decision. Defined.

Record CommittedDispatch (Command : Type) := mkCommitted {
  committed_id : string;
  committed_command : Command;
  committed_to : CommandDispatch;
}.
Arguments mkCommitted {Command}.
Arguments committed_id {Command}.
Arguments committed_command {Command}.
Arguments committed_to {Command}.

Record DispatchSnapshot (Command : Type) := mkSnapshot {
  snap_kind : string;
  snap_command : Command;
  snap_dispatch : CommandDispatch;
}.
Arguments mkSnapshot {Command}.
Arguments snap_kind {Command}.
Arguments snap_command {Command}.
Arguments snap_dispatch {Command}.

Section dispatch.
Context (codec : option ContentCodec) (anchor : string → string) (reducer_build : string).
(** [serde_json] on an intent *)
Context (intent_json : Json DispatchIntent).
Context (L : Lifecycle) (json : Json (lc_event L)) (snapshot_json_of : Json (DispatchSnapshot (lc_command L))).

Record PreparedDispatch := mkPrepared {
  pd_scope : string;
  pd_key : string;
  pd_command : lc_command L;
  pd_snapshot : string;
  pd_id : string;
  pd_intent : DispatchIntent;
}.

(** [PreparedDispatch::new] *)
Definition prepare_dispatch (scope key : string) (cmd : lc_command L) (dispatch : CommandDispatch)
    : result failure PreparedDispatch :=
  if existsb blank [scope; key; runtime_ref dispatch; command_ref dispatch] || String.eqb (KIND L) DISPATCH_KIND
  then rejected "invalid product command dispatch identity"
  else
    let? snapshot := ok_or (to_json snapshot_json_of (mkSnapshot (KIND L) cmd dispatch)) (Failed AE_Json) in
    let id := command_name "command" scope key in
    Ok (mkPrepared scope key cmd snapshot id (mkIntent id dispatch)).

(** The intents of a scope with the command's id, counted; each must be the expected one. *)
Fixpoint count_intents (intent : DispatchIntent) (plains : list string) : result failure nat :=
  match plains with
  | [] => Ok 0
  | plain :: plains =>
      let? recorded := ok_or (from_json intent_json plain) (Failed AE_Json) in
      if String.eqb (intent_command_id recorded) (intent_command_id intent) then
        if bool_decide (recorded ≠ intent) then rejected "dispatch receipt does not match its committed intent"
        else let? n := count_intents intent plains in Ok (S n)
      else count_intents intent plains
  end.

Definition matching_intents (c : Cdb) (scope : string) (intent : DispatchIntent) : result failure nat :=
  let? plains := retained_kind_payloads codec (log_db c) scope DISPATCH_KIND in count_intents intent plains.

(** What [commit_dispatch] writes to the log of a first admission. *)
Definition write_dispatch (c : Cdb) (p : PreparedDispatch) (s : lc_state L) : result failure (Cdb * lc_state L) :=
  let scope := pd_scope p in
  let? es := decide_in L s (pd_command p) in
  let base := next_position (log_db c) scope in
  let? staged := append_events codec L json (log_db c) scope base s es in
  let? plain := ok_or (to_json intent_json (pd_intent p)) (Failed AE_Json) in
  let? payload := encode_payload codec scope DISPATCH_KIND plain in
  let? db := insert_event staged.1 (mkEventRow scope (base + Z.of_nat (length es)) DISPATCH_KIND payload) in
  let? db := insert_receipt db scope (pd_key p) base in
  let? db := checkpoint codec anchor reducer_build L db scope staged.2 in
  Ok (c <| log_db := db |>, staged.2).

(** [commit_dispatch] *)
Definition commit_dispatch (c : Cdb) (p : PreparedDispatch) (final_check : result failure unit)
    : Cdb * result failure (MaterializedAdmission (lc_state L)) :=
  transaction c (
    let '(scope, key) := (pd_scope p, pd_key p) in
    let '(c, inserted) := insert_or_ignore c (mkCommandRecord (pd_id p) scope key "received" (pd_snapshot p)) in
    let? original := ok_or (command_by_key c scope key) (Failed (AE_Db "Query returned no rows")) in
    try! refuse_if (negb (String.eqb (snapshot_json original) (pd_snapshot p)))
           "idempotency key reused with different command or dispatch";
    let replay := receipted c scope key in
    try! (if replay then
            let? n := matching_intents c scope (pd_intent p) in
            refuse_if (bool_decide (inserted ≠ 0) || bool_decide (n ≠ 1)) "dispatch receipt has no unique committed intent"
          else Ok ());
    try! refuse_if (negb replay && negb (String.eqb (status original) "received"))
           "existing command has no replayable dispatch admission";
    let? s := fold_retained codec anchor reducer_build L json c scope in
    let? written := if replay then Ok (c, s) else write_dispatch c p s in
    let c := (update_status written.1 (same_key scope key) "applied").1 in
    try! final_check;
    Ok (c, mkMaterialized written.2 replay)).

Section against.
Context {Process : Type} (clock : Process → N).

(** [admit_with_dispatch_inner] *)
Definition admit_with_dispatch_inner (c : Cdb) (path scope key : string) (cmd : lc_command L)
    (dispatch : CommandDispatch) (basis : option (DispatchReadBasis Process)) (p0 p1 : Process)
    : Cdb * result failure (MaterializedAdmission (lc_state L)) :=
  match prepare_dispatch scope key cmd dispatch with
  | Err e => (c, Err e)
  | Ok prepared =>
      match check_basis_if clock c path p0 basis with
      | Err e => (c, Err e)
      | Ok _ => commit_dispatch c prepared
                  match basis with
                  | Some b => check_validity clock p1 (deadline b) (process_guards b)
                  | None => Ok ()
                  end
      end
  end.

Definition admit_with_dispatch_against (c : Cdb) (path scope key : string) (cmd : lc_command L)
    (dispatch : CommandDispatch) (basis : DispatchReadBasis Process) (p0 p1 : Process) :=
  admit_with_dispatch_inner c path scope key cmd dispatch (Some basis) p0 p1.
End against.

(** [admit_with_dispatch] *)
Definition admit_with_dispatch (c : Cdb) (scope key : string) (cmd : lc_command L) (dispatch : CommandDispatch) :=
  admit_with_dispatch_inner (λ _ : unit, 0%N) c "" scope key cmd dispatch None () ().

(** [committed_dispatch] *)
Definition committed_dispatch (c : Cdb) (scope key : string)
    : result failure (option (CommittedDispatch (lc_command L))) :=
  if blank scope || blank key then rejected "invalid product command dispatch identity"
  else if negb (receipted c scope key) then Ok None
  else
    let? original := ok_or (command_by_key c scope key)
                       (Failed (AE_Rejected (mkRejection "dispatch receipt has no original command"))) in
    let? snapshot := ok_or (from_json snapshot_json_of (snapshot_json original)) (Failed AE_Json) in
    if negb (has_id (command_name "command" scope key) original) || negb (String.eqb (snap_kind snapshot) (KIND L))
       || blank (runtime_ref (snap_dispatch snapshot)) || blank (command_ref (snap_dispatch snapshot))
    then rejected "dispatch receipt does not match its original command"
    else
      let? n := matching_intents c scope (mkIntent (command_id original) (snap_dispatch snapshot)) in
      if bool_decide (n ≠ 1) then rejected "dispatch receipt has no unique committed intent"
      else Ok (Some (mkCommitted (command_id original) (snap_command snapshot) (snap_dispatch snapshot))).
End dispatch.
Arguments mkPrepared {L}.
Arguments pd_scope {L}.
Arguments pd_key {L}.
Arguments pd_command {L}.
Arguments pd_snapshot {L}.
Arguments pd_id {L}.
Arguments pd_intent {L}.

(** ** A held writer *)

Section handle.
Context {Process : Type} (clock : Process → N) (codec : option ContentCodec).

(** [DispatchRecordAdmission] without its transaction and codec. *)
Record DispatchRecordAdmission := mkHandle {
  handle_path : string;
  handle_deadline : option N;
  handle_guards : list (Process → bool);
  native_ended : bool;
}.

#[export] Instance DispatchRecordAdmission_eta : Eta DispatchRecordAdmission := mkEta (λ h,
  mkHandle (handle_path h) (handle_deadline h) (handle_guards h) (native_ended h)).

(** [check_latched_validity]: the verdict, and the handle after it. *)
Definition check_latched_validity (h : DispatchRecordAdmission) (p : Process)
    : result failure unit * DispatchRecordAdmission :=
  if native_ended h then (rejected "native dispatch authority ended", h)
  else
    let r := check_validity clock p (handle_deadline h) (handle_guards h) in
    (r, match r with Err _ => h <| native_ended := true |> | Ok _ => h end).

(** Native work: it may ask [check_current] between its effects. *)
Inductive Native (T : Type) :=
| Done (t : T)
| CheckCurrent (p : Process) (k : result failure unit → Native T).
#[global] Arguments Done {T}.
#[global] Arguments CheckCurrent {T}.

Fixpoint run_native {T} (h : DispatchRecordAdmission) (n : Native T) : T * DispatchRecordAdmission :=
  match n with
  | Done t => (t, h)
  | CheckCurrent p k => let '(r, h) := check_latched_validity h p in run_native h (k r)
  end.

(** [with_native_check] *)
Definition with_native_check {T} (h : DispatchRecordAdmission) (p0 : Process) (native : Native T) (p1 : Process)
    : result failure T * DispatchRecordAdmission :=
  match check_latched_validity h p0 with
  | (Err e, h) => (Err e, h)
  | (Ok _, h) =>
      let '(t, h) := run_native h native in
      match check_latched_validity h p1 with
      | (Err e, h) => (Err e, h)
      | (Ok _, h) => (Ok t, h)
      end
  end.

(** [with_retained_observation]: a refusal of [observe] ends the handle too. *)
Definition with_retained_observation {T} (h : DispatchRecordAdmission) (p0 : Process) (observe : result failure T)
    (p1 : Process) : result failure T * DispatchRecordAdmission :=
  let '(r, h) :=
    match check_latched_validity h p0 with
    | (Err e, h) => (Err e, h)
    | (Ok _, h) =>
        match observe with
        | Err e => (Err e, h)
        | Ok t =>
            match check_latched_validity h p1 with
            | (Err e, h) => (Err e, h)
            | (Ok _, h) => (Ok t, h)
            end
        end
    end in
  (r, match r with Err _ => h <| native_ended := true |> | Ok _ => h end).

(** The rows of a scope, every one opened. *)
Fixpoint open_rows (scope : string) (rows : list EventRow) : result failure (list (Z * string * string)) :=
  match rows with
  | [] => Ok []
  | r :: rows =>
      match decode_row codec scope r with
      | None => fail (AE_Codec "reader history contains an unavailable record")
      | Some plain =>
          let? rest := open_rows scope rows in Ok ((row_position r, row_kind r, plain) :: rest)
      end
  end.

(** [read_retained_events], [read_retained_records] *)
Definition read_retained_events (h : DispatchRecordAdmission) (c : Cdb) (p0 : Process) (scope : string) (p1 : Process) :=
  with_retained_observation h p0 (open_rows scope (select_scope (log_db c) scope)) p1.

Definition read_retained_records (h : DispatchRecordAdmission) (c : Cdb) (p0 : Process) (scope kind : string)
    (p1 : Process) : result failure (list (Z * string)) * DispatchRecordAdmission :=
  let '(r, h) := read_retained_events h c p0 scope p1 in
  (let? rows := r in
   Ok ((λ x : Z * string * string, (x.1.1, x.2)) <$> filter (λ x, x.1.2 = kind) rows), h).

(** [require_pending_claim] *)
Definition require_pending_claim (h : DispatchRecordAdmission) (c : Cdb) (p : Process) (id scope key snapshot : string)
    : result failure unit * DispatchRecordAdmission :=
  let '(checked, h) := check_latched_validity h p in
  let r := try! checked;
           refuse_if (negb (pending_command_matches c id scope key snapshot))
             "native work has no exact pending original command" in
  (r, match r with Err _ => h <| native_ended := true |> | Ok _ => h end).

(** ** Publication through a handle *)

(** [with_dispatch_record_admission] and [with_record_admission]: the handle is given to
    [publish] under the writer, on standing that was just checked. *)
Definition with_dispatch_record_admission {T} (c : Cdb) (path : string) (b : DispatchReadBasis Process) (p : Process)
    (publish : DispatchRecordAdmission → Cdb → Cdb * T) : Cdb * result failure T :=
  match check_dispatch_basis clock c path p b with
  | Err e => (c, Err e)
  | Ok _ => let '(c, t) := publish (mkHandle path (deadline b) (process_guards b) false) c in (c, Ok t)
  end.

Definition with_record_admission {T} (c : Cdb) (path : string)
    (publish : DispatchRecordAdmission → Cdb → Cdb * T) : Cdb * result failure T :=
  let '(c, t) := publish (mkHandle path None [] false) c in (c, Ok t).

(** A commit consumes the handle: it is checked when the commit begins and at its end. *)
Definition commit_with {T} (h : DispatchRecordAdmission) (c : Cdb) (p0 p1 : Process)
    (body : result failure unit → Cdb * result failure T) : Cdb * result failure T :=
  match check_latched_validity h p0 with
  | (Err e, _) => (c, Err e)
  | (Ok _, h) => body (check_latched_validity h p1).1
  end.

(** [DispatchRecordAdmission::commit], [commit_claimed] *)
Definition handle_commit (h : DispatchRecordAdmission) (c : Cdb) (p0 p1 : Process) (scope key snapshot : string)
    (facts : list CommandRecordFact) (claimed : option string) : Cdb * result failure MaterializedRecordAdmission :=
  match encode_facts codec facts with
  | Err e => (c, Err e)
  | Ok stored => commit_with h c p0 p1 (λ final, commit codec c scope key snapshot stored None claimed final)
  end.

Section typed.
Context (anchor : string → string) (reducer_build : string) (L : Lifecycle) (json : Json (lc_event L)).

(** [commit_claimed_lifecycle] *)
Definition handle_commit_lifecycle (h : DispatchRecordAdmission) (c : Cdb) (p0 p1 : Process)
    (id scope key snapshot : string) (batch : LifecycleBatch L) (facts : list CommandRecordFact)
    : Cdb * result failure MaterializedRecordAdmission :=
  match encode_facts codec facts with
  | Err e => (c, Err e)
  | Ok stored =>
      commit_with h c p0 p1
        (λ final, commit_lifecycle codec anchor reducer_build L json c id scope key snapshot batch stored final)
  end.

(** [commit_claimed_lifecycle_pair] *)
Definition handle_commit_lifecycle_pair (M : Lifecycle) (mjson : Json (lc_event M)) (h : DispatchRecordAdmission)
    (c : Cdb) (p0 p1 : Process) (id scope key snapshot : string) (first : LifecycleBatch L)
    (second : LifecycleBatch M) (facts : Z → result failure (list CommandRecordFact))
    : Cdb * result failure MaterializedRecordAdmission :=
  commit_with h c p0 p1
    (λ final, commit_lifecycle_pair codec anchor reducer_build L M json mjson c id scope key snapshot
                first second facts final).

(** [DispatchRecordAdmission::commit_dispatch] *)
Definition handle_commit_dispatch (intent_json : Json DispatchIntent)
    (snapshot_json_of : Json (DispatchSnapshot (lc_command L))) (h : DispatchRecordAdmission) (c : Cdb)
    (p0 p1 : Process) (scope key : string) (cmd : lc_command L) (dispatch : CommandDispatch)
    : Cdb * result failure (MaterializedAdmission (lc_state L)) :=
  match prepare_dispatch L snapshot_json_of scope key cmd dispatch with
  | Err e => (c, Err e)
  | Ok prepared =>
      commit_with h c p0 p1
        (λ final, commit_dispatch codec anchor reducer_build intent_json L json c prepared final)
  end.

(** [DispatchRecordAdmission::admit_with_dispatch_against]: the destination's standing,
    captured apart, is checked in the same transaction. *)
Definition handle_admit_with_dispatch_against (intent_json : Json DispatchIntent)
    (snapshot_json_of : Json (DispatchSnapshot (lc_command L))) (h : DispatchRecordAdmission) (c : Cdb)
    (p p0 p1 : Process) (scope key : string) (cmd : lc_command L) (dispatch : CommandDispatch)
    (basis : DispatchReadBasis Process) : Cdb * result failure (MaterializedAdmission (lc_state L)) :=
  match prepare_dispatch L snapshot_json_of scope key cmd dispatch with
  | Err e => (c, Err e)
  | Ok prepared =>
      match check_dispatch_basis clock c (handle_path h) p basis with
      | Err e => (c, Err e)
      | Ok _ =>
          commit_with h c p0 p1
            (λ final, commit_dispatch codec anchor reducer_build intent_json L json c prepared
                        (try! final; check_validity clock p1 (deadline basis) (process_guards basis)))
      end
  end.
End typed.

(** ** Native work under the writer *)

(** [with_dispatch_basis] and [with_checked_dispatch_basis]: the store is not written. *)
Definition with_dispatch_basis {T} (c : Cdb) (path : string) (b : DispatchReadBasis Process) (p : Process)
    (admit_runtime : T) : result failure T :=
  try! check_dispatch_basis clock c path p b; Ok admit_runtime.

Definition with_checked_dispatch_basis {T} (c : Cdb) (path : string) (b : DispatchReadBasis Process) (p0 : Process)
    (admit_runtime : Native T) (p1 : Process) : result failure T :=
  try! check_dispatch_basis clock c path p0 b;
  let '(t, h) := run_native (mkHandle path (deadline b) (process_guards b) false) admit_runtime in
  try! (check_latched_validity h p1).1;
  Ok t.
End handle.
Arguments DispatchRecordAdmission : clear implicits.

(** ** What a handle promises *)

Definition is_ok {E T} (r : result E T) : bool := match r with Ok _ => true | Err _ => false end.

Section latch.
Context {Process : Type} (clock : Process → N) (codec : option ContentCodec).

(** One use of a handle before it commits. *)
Inductive HandleUse :=
| CheckNow (p : Process)
| Work (p0 : Process) (native : Native (Process := Process) unit) (p1 : Process)
| Observe (p0 : Process) (scope kind : string) (p1 : Process)
| RequirePending (p : Process) (id scope key snapshot : string).

(** Its verdict, and the handle it leaves. *)
Definition use_handle (c : Cdb) (h : DispatchRecordAdmission Process) (u : HandleUse)
    : bool * DispatchRecordAdmission Process :=
  match u with
  | CheckNow p => let '(r, h) := check_latched_validity clock h p in (is_ok r, h)
  | Work p0 native p1 => let '(r, h) := with_native_check clock h p0 native p1 in (is_ok r, h)
  | Observe p0 scope kind p1 => let '(r, h) := read_retained_records clock codec h c p0 scope kind p1 in (is_ok r, h)
  | RequirePending p id scope key snapshot => let '(r, h) := require_pending_claim clock h c p id scope key snapshot in (is_ok r, h)
  end.

Fixpoint use_all (c : Cdb) (h : DispatchRecordAdmission Process) (us : list HandleUse)
    : list bool * DispatchRecordAdmission Process :=
  match us with
  | [] => ([], h)
  | u :: us => let '(ok, h) := use_handle c h u in let '(rest, h) := use_all c h us in (ok :: rest, h)
  end.

(** A check passes on a live handle that is still valid, which stays as it is. *)
Lemma latched_check h p :
  let '(r, h') := check_latched_validity clock h p in
  match r with
  | Ok _ => h' = h ∧ native_ended h = false ∧ check_validity clock p (handle_deadline h) (handle_guards h) = Ok ()
  | Err _ => native_ended h' = true
  end.
Proof.
  unfold check_latched_validity. destruct (native_ended h) eqn:He; [done|].
  by destruct (check_validity clock p _ _) as [[]|] eqn:Hv.
Qed.

Lemma run_native_keeps {T} (n : Native T) h :
  let '(_, h') := run_native clock h n in native_ended h' = false → h' = h.
Proof.
  revert h. induction n as [t|p k IH]; intros h; [done|]. simpl. pose proof (latched_check h p) as Hc.
  destruct (check_latched_validity clock h p) as [[[]|e] h1].
  - destruct Hc as [-> _]. apply IH.
  - specialize (IH (Err e) h1). destruct (run_native clock h1 (k (Err e))) as [t h2]. intros Hn.
    specialize (IH Hn). congruence.
Qed.

(** A use passes and leaves the handle, or fails and ends it. *)
Lemma use_latches c h u :
  let '(ok, h') := use_handle c h u in
  if ok then h' = h ∧ native_ended h = false else native_ended h' = true.
Proof.
  destruct u as [p|p0 n p1|p0 scope kind p1|p id scope key snapshot]; simpl.
  - pose proof (latched_check h p) as Hc. destruct (check_latched_validity clock h p) as [[[]|] h']; naive_solver.
  - unfold with_native_check. pose proof (latched_check h p0) as Hc.
    destruct (check_latched_validity clock h p0) as [[[]|] h1]; [|done]. destruct Hc as (-> & He & _).
    pose proof (run_native_keeps n h) as Hn. destruct (run_native clock h n) as [t h2].
    pose proof (latched_check h2 p1) as Hc. destruct (check_latched_validity clock h2 p1) as [[[]|] h3]; [|done].
    destruct Hc as (-> & He2 & _). by rewrite (Hn He2).
  - unfold read_retained_records, read_retained_events, with_retained_observation. pose proof (latched_check h p0) as Hc.
    destruct (check_latched_validity clock h p0) as [[[]|] h1]; [|done]. destruct Hc as (-> & He & _).
    destruct (open_rows codec scope _); [|done]. pose proof (latched_check h p1) as Hc.
    destruct (check_latched_validity clock h p1) as [[[]|] h3]; [|done]. by destruct Hc as (-> & _).
  - unfold require_pending_claim. pose proof (latched_check h p) as Hc.
    destruct (check_latched_validity clock h p) as [[[]|] h1]; [|done]. destruct Hc as (-> & He & _).
    by destruct (refuse_if _ _).
Qed.

(** A held writer latches. However it is used, its uses pass up to some point and are
    all refused from there on. If none was refused the handle is as it was given; if one
    was, every commit through it is refused and the database is unchanged. *)
Theorem handle_latches c us (h : DispatchRecordAdmission Process) :
  let '(verdicts, h') := use_all c h us in
  ∃ passed refused, verdicts = replicate passed true ++ replicate refused false
    ∧ (refused = 0 → h' = h)
    ∧ (refused ≠ 0 → ∀ (T : Type) c' p0 p1 (body : result failure unit → Cdb * result failure T),
         commit_with clock h' c' p0 p1 body = (c', rejected "native dispatch authority ended")).
Proof.
  assert (∀ us (h : DispatchRecordAdmission Process), native_ended h = true → let '(verdicts, h') := use_all c h us in
    verdicts = replicate (length us) false ∧ native_ended h' = true) as Hended.
  { clear. intros us. induction us as [|u us IH]; intros h He; [done|]. simpl. pose proof (use_latches c h u) as Hu.
    destruct (use_handle c h u) as [[] h1]; [destruct Hu; congruence|]. specialize (IH h1 Hu).
    destruct (use_all c h1 us) as [vs h2]. destruct IH as [-> ?]. done. }
  revert h. induction us as [|u us IH]; intros h; simpl.
  { by exists 0, 0. }
  pose proof (use_latches c h u) as Hu. destruct (use_handle c h u) as [[] h1].
  - destruct Hu as [-> He]. specialize (IH h). destruct (use_all c h us) as [vs h2].
    destruct IH as (passed & refused & -> & H1 & H2). by exists (S passed), refused.
  - specialize (Hended us h1 Hu). destruct (use_all c h1 us) as [vs h2]. destruct Hended as [-> He].
    exists 0, (S (length us)). split_and!; [done|done|]. intros _ T c' p0 p1 body.
    unfold commit_with, check_latched_validity. by rewrite He.
Qed.

(** A commit that goes through was valid when it began, and says what its end saw. *)
Lemma commit_with_checked {T} (h : DispatchRecordAdmission Process) c p0 p1
    (body : result failure unit → Cdb * result failure T) c' t :
  (∀ e, is_ok (body (Err e)).2 = false) → commit_with clock h c p0 p1 body = (c', Ok t) →
  native_ended h = false ∧ check_validity clock p0 (handle_deadline h) (handle_guards h) = Ok ()
  ∧ check_validity clock p1 (handle_deadline h) (handle_guards h) = Ok () ∧ body (Ok ()) = (c', Ok t).
Proof.
  intros Hb. unfold commit_with. pose proof (latched_check h p0) as Hc.
  destruct (check_latched_validity clock h p0) as [[[]|] h1]; [|done]. destruct Hc as (-> & He & H0).
  pose proof (latched_check h p1) as Hc. destruct (check_latched_validity clock h p1) as [[[]|e] h2].
  - destruct Hc as (_ & _ & H1). intros Hbody. by split_and!.
  - intros Hbody. simpl in Hbody. specialize (Hb e). by rewrite Hbody in Hb.
Qed.

Lemma staged_needs_check c scope key snapshot stored chained claimed stage e :
  is_ok (commit_staged codec c scope key snapshot stored chained claimed stage (Err e)).2 = false.
Proof.
  unfold commit_staged. cbv zeta. destruct (command_by_key _ scope key); [|done]. cbn [ok_or].
  destruct (refuse_if _ _); [|done]. destruct (refuse_if _ _); [|done]. destruct (receipted _ scope key); [done|].
  destruct (refuse_if _ _); [|done]. destruct (stage_all _ _ _ _ _) as [[[db ps] payload]|]; [|done].
  by destruct (insert_receipt db scope key _).
Qed.

Context (anchor : string → string) (reducer_build : string) (L : Lifecycle) (json : Json (lc_event L)).
Context (intent_json : Json DispatchIntent) (snapshot_json_of : Json (DispatchSnapshot (lc_command L))).

Lemma dispatch_needs_check c p e :
  is_ok (commit_dispatch codec anchor reducer_build intent_json L json c p (Err e)).2 = false.
Proof.
  unfold commit_dispatch. destruct (insert_or_ignore c _) as [c1 n]. destruct (command_by_key c1 _ _); [|done]. cbn [ok_or].
  destruct (refuse_if _ _); [|done]. cbv zeta. destruct (if receipted c1 _ _ then _ else _); [|done].
  destruct (refuse_if _ _); [|done]. destruct (fold_retained _ _ _ _ _ _ _); [|done].
  by destruct (if receipted c1 _ _ then _ else _).
Qed.

(** What a publication through a handle shows of the authority it was made on. *)
Definition held (h : DispatchRecordAdmission Process) (p0 p1 : Process) : Prop :=
  native_ended h = false
  ∧ ∀ p, p = p0 ∨ p = p1 →
      (∀ e, handle_deadline h = Some e → (clock p < e)%N) ∧ Forall (λ guard : Process → bool, guard p = true) (handle_guards h).

Lemma commit_held {T} (h : DispatchRecordAdmission Process) c p0 p1 (body : result failure unit → Cdb * result failure T) c' t :
  (∀ e, is_ok (body (Err e)).2 = false) → commit_with clock h c p0 p1 body = (c', Ok t) → held h p0 p1.
Proof.
  intros Hb Hc. destruct (commit_with_checked h c p0 p1 body c' t Hb Hc) as (He & H0 & H1 & _). split; [done|].
  by intros p [->| ->]; apply check_validity_ok.
Qed.

(** C18: Nothing is published on authority that ran out. When a commit of record facts, of
    a claimed lifecycle batch or pair, or of a dispatch goes through a held writer, no check of the writer
    had been refused, and both when the commit began and at its end the deadline was
    ahead and every process guard held. *)
Theorem publication_held (h : DispatchRecordAdmission Process) c p0 p1 c' :
  (∀ scope key snapshot facts claimed m,
     handle_commit clock codec h c p0 p1 scope key snapshot facts claimed = (c', Ok m) → held h p0 p1)
  ∧ (∀ id scope key snapshot batch facts m,
       handle_commit_lifecycle clock codec anchor reducer_build L json h c p0 p1 id scope key snapshot batch facts
       = (c', Ok m) → held h p0 p1)
  ∧ (∀ M mjson id scope key snapshot first second facts m,
       handle_commit_lifecycle_pair clock codec anchor reducer_build L json M mjson h c p0 p1 id scope key snapshot
         first second facts = (c', Ok m) → held h p0 p1)
  ∧ (∀ scope key cmd dispatch m,
       handle_commit_dispatch clock codec anchor reducer_build L json intent_json snapshot_json_of h c p0 p1 scope key
         cmd dispatch = (c', Ok m) → held h p0 p1)
  ∧ (∀ p scope key cmd dispatch basis m,
       handle_admit_with_dispatch_against clock codec anchor reducer_build L json intent_json snapshot_json_of h c p p0 p1
         scope key cmd dispatch basis = (c', Ok m) → held h p0 p1).
Proof.
  split_and!.
  - intros scope key snapshot facts claimed m. unfold handle_commit. destruct (encode_facts codec facts); [|done].
    apply commit_held. intros e. apply staged_needs_check.
  - intros id scope key snapshot batch facts m. unfold handle_commit_lifecycle. destruct (encode_facts codec facts); [|done].
    apply commit_held. intros e. unfold commit_lifecycle. destruct (_ || _); [done|]. apply staged_needs_check.
  - intros M mjson id scope key snapshot first second facts m. unfold handle_commit_lifecycle_pair.
    apply commit_held. intros e. unfold commit_lifecycle_pair. destruct (_ || _); [done|]. apply staged_needs_check.
  - intros scope key cmd dispatch m. unfold handle_commit_dispatch. destruct (prepare_dispatch _ _ _ _ _ _); [|done].
    apply commit_held. intros e. apply dispatch_needs_check.
  - intros p scope key cmd dispatch basis m. unfold handle_admit_with_dispatch_against.
    destruct (prepare_dispatch _ _ _ _ _ _); [|done]. destruct (check_dispatch_basis _ _ _ _ _); [|done].
    apply commit_held. intros e. apply dispatch_needs_check.
Qed.
End latch.
