(* ===== verification/RequestAdmission.v ===== *)
(** * Admission of requests

    [request_admission.rs] of [crates/store/src]: a stable caller request under an
    idempotency key, authorized on every call and materialized into a command once. A
    refusal of the domain is recorded under the key, with no event. In protected mode the
    snapshot is stored through the content codec and names its scope and key.
    [serde_json]'s values and texts are arguments. *)

From S2P Require Import Prelude Ids Lifecycle Store Commands RecordAdmission Dispatch.

Inductive RequestAdmissionStatus := RequestApplied | RequestRejected.

Section requests.
Context (codec : option ContentCodec) (anchor : string → string) (reducer_build : string).
(** [serde_json::Value] *)
Context (Value : Type) `{!EqDecision Value}.

Record RequestBinding := mkRequestBinding { rb_scope : string; rb_key : string }.

#[global] Instance RequestBinding_eq_dec : EqDecision RequestBinding.
Proof. solve_decision. Defined.

Record RequestSnapshot := mkRequestSnapshot {
  snapshot_v : N; (* u8 *)
  snapshot_kind : string;
  snapshot_request : Value;
  materialized : option Value;
  binding : option RequestBinding;
}.

Context (request_json : Json RequestSnapshot).
Context (L : Lifecycle) (json : Json (lc_event L)) (command_value : lc_command L → option Value).

Section request.
Context {I : Type} (request_value : I → option Value).

(** [request_admission_status] *)
Definition request_admission_status (c : Cdb) (scope key : string) (request : I)
    : result failure (option RequestAdmissionStatus) :=
  match command_by_key c scope key with
  | None => Ok None
  | Some r =>
      let? snapshot := ok_or (from_json request_json (snapshot_json r)) (Failed AE_Json) in
      if negb (N.eqb (snapshot_v snapshot) 1) || bool_decide (binding snapshot ≠ None)
      then fail (AE_UnsupportedSchema "command request snapshot")
      else if negb (String.eqb (snapshot_kind snapshot) (KIND L))
      then rejected "request recovery identity does not match"
      else
        let? value := ok_or (request_value request) (Failed AE_Json) in
        if bool_decide (snapshot_request snapshot ≠ value) then rejected "request recovery identity does not match"
        else if String.eqb (status r) "applied" && bool_decide (materialized snapshot ≠ None)
        then Ok (Some RequestApplied)
        else if String.eqb (status r) "rejected" then Ok (Some RequestRejected)
        else Ok None
  end.

(** A request found under its key: replayed if it was applied with a receipt. *)
Definition recorded_request (c : Cdb) (scope key : string) (protected : bool) (intent : Value)
    (s : lc_state L) (check : result failure unit) (previous : CommandRecord)
    : result failure (MaterializedAdmission (lc_state L)) :=
  let? plaintext :=
    if protected then
      match codec with
      | None => fail (AE_Codec "protected request snapshot unavailable")
      | Some cc => ok_or (cc_decode cc scope (KIND L) (snapshot_json previous))
                     (Failed (AE_Codec "protected request snapshot unavailable"))
      end
    else Ok (snapshot_json previous) in
  let? snapshot := ok_or (from_json request_json plaintext) (Failed AE_Json) in
  let expected := if protected then Some (mkRequestBinding scope key) else None in
  if negb (N.eqb (snapshot_v snapshot) (if protected then 2 else 1)) || bool_decide (binding snapshot ≠ expected)
  then fail (AE_UnsupportedSchema "command request snapshot")
  else if negb (String.eqb (snapshot_kind snapshot) (KIND L)) || bool_decide (snapshot_request snapshot ≠ intent)
  then rejected "idempotency key reused with different request"
  else if receipted c scope key && String.eqb (status previous) "applied" && bool_decide (materialized snapshot ≠ None)
  then try! check; Ok (mkMaterialized s true)
  else rejected "request already rejected or incomplete; submit with a new key".

(** The snapshot of a new request as it is stored. *)
Definition stored_snapshot (scope key : string) (protected : bool) (intent : Value) (command : option Value)
    : result failure string :=
  let? plain := ok_or (to_json request_json
                         (mkRequestSnapshot (if protected then 2 else 1) (KIND L) intent command
                            (if protected then Some (mkRequestBinding scope key) else None))) (Failed AE_Json) in
  if protected then
    let? encoded := encode_payload codec scope (KIND L) plain in
    if String.eqb encoded plain then fail (AE_Codec "protected request kind has no content protection")
    else Ok encoded
  else Ok plain.

(** A new request: its row, then the events and the receipt of what it materialized, or
    the refusal alone. *)
Definition new_request (c : Cdb) (scope key : string) (protected : bool) (intent : Value) (s : lc_state L)
    (materialize : lc_state L → result Rejection (lc_command L)) (check : result failure unit)
    : result failure (Cdb * result failure (MaterializedAdmission (lc_state L))) :=
  let prepared := materialize s in
  let? value := match prepared with
                | Ok cmd => let? v := ok_or (command_value cmd) (Failed AE_Json) in Ok (Some v)
                | Err _ => Ok None
                end in
  let decision := match prepared with Ok cmd => lc_decide L s cmd | Err r => Err r end in
  let? snapshot := stored_snapshot scope key protected intent value in
  let? c := insert_command c (mkCommandRecord (command_name "request-command" scope key) scope key
                                match decision with Ok _ => "applied" | Err _ => "rejected" end snapshot) in
  match decision with
  | Err r => try! check; Ok (c, fail (AE_Rejected r))
  | Ok es =>
      let base := next_position (log_db c) scope in
      let? staged := append_events codec L json (log_db c) scope base s es in
      let? db := insert_receipt staged.1 scope key base in
      let? db := checkpoint codec anchor reducer_build L db scope staged.2 in
      try! check;
      Ok (c <| log_db := db |>, Ok (mkMaterialized staged.2 false))
  end.

(** [commit_request]; the writer's check is made at the start and before each commit. *)
Definition commit_request (c : Cdb) (scope key : string) (protected : bool) (check0 check1 : result failure unit)
    (request : I) (authorize : lc_state L → result Rejection unit)
    (materialize : lc_state L → result Rejection (lc_command L))
    : Cdb * result failure (MaterializedAdmission (lc_state L)) :=
  let '(c, r) := transaction c (
    let? intent := ok_or (request_value request) (Failed AE_Json) in
    try! check0;
    try! (if protected && bool_decide (codec = None)
          then fail (AE_Codec "protected request requires a content codec") else Ok ());
    let? s := fold_retained codec anchor reducer_build L json c scope in
    try! match authorize s with Ok _ => Ok () | Err r => fail (AE_Rejected r) end;
    match command_by_key c scope key with
    | Some previous =>
        let? m := recorded_request c scope key protected intent s check1 previous in Ok (c, Ok m)
    | None =>
        try! refuse_if (receipted c scope key) "receipt has no exact request binding";
        new_request c scope key protected intent s materialize check1
    end) in
  (c, match r with Ok r => r | Err e => Err e end).

(** [admit_request] *)
Definition admit_request (c : Cdb) (scope key : string) (request : I)
    (authorize : lc_state L → result Rejection unit) (materialize : lc_state L → result Rejection (lc_command L)) :=
  commit_request c scope key false (Ok ()) (Ok ()) request authorize materialize.

(** [DispatchRecordAdmission::commit_protected_request]: the writer's check is that of the
    held handle. *)
Definition handle_commit_protected_request {Process : Type} (clock : Process → N) (h : DispatchRecordAdmission Process)
    (c : Cdb) (p0 p1 : Process) (scope key : string) (request : I)
    (authorize : lc_state L → result Rejection unit) (materialize : lc_state L → result Rejection (lc_command L)) :=
  commit_request c scope key true (check_latched_validity clock h p0).1 (check_latched_validity clock h p1).1
    request authorize materialize.
End request.
End requests.
