(* ===== verification/CommandSystem.v ===== *)
(** * The store with its command plane

    A store that hosts several lifecycles ([StoreSystem.v]) and serves, besides
    admissions and records, every operation of the command plane: claims, materialized
    commands, record facts, dispatches and requests ([Commands.v], [RecordAdmission.v],
    [Dispatch.v], [RequestAdmission.v]). The theorems are about every database such a
    service can reach. *)

From S2P Require Import Prelude Ids Lifecycle Store StoreSystem Commands RecordAdmission Dispatch RequestAdmission.

(** ** Steps of the log *)

Section log_steps.
Context (codec : option ContentCodec) (anchor : string → string) (reducer_build : string).
Context {I : Type} (host : I → Hosted).
Context `{!EqDecision I, !CodecLaws codec, !AnchorLaws anchor}.
Context (Hkinds : ∀ i j, KIND (lifecycle (host i)) = KIND (lifecycle (host j)) → i = j).

Notation system_ok := (system_ok codec reducer_build host).
Notation holds := (holds codec reducer_build host).

(** A later log: rows were appended, those of the outbox as [P] says. *)
Record log_step (P : EventRow → Prop) (db db' : Db) : Prop := {
  ls_ok : system_ok db';
  ls_rows : ∃ new, events db' = events db ++ new ∧ ∀ r, r ∈ new → row_kind r = DISPATCH_KIND → P r;
  ls_receipts : command_receipts db ⊆ command_receipts db';
}.

Lemma log_step_refl P db : system_ok db → log_step P db db.
Proof.
  intros. split; [done| |done]. exists []. split; [by rewrite app_nil_r|]. by intros r ?%elem_of_nil.
Qed.

Lemma log_step_trans P db1 db2 db3 : log_step P db1 db2 → log_step P db2 db3 → log_step P db1 db3.
Proof.
  intros [_ (n1 & He1 & H1) Hr1] [? (n2 & He2 & H2) Hr2]. split; [done| |by etrans]. exists (n1 ++ n2).
  split; [by rewrite He2, He1, app_assoc|]. intros r [?|?]%elem_of_app; auto.
Qed.

Lemma log_step_mono (P Q : EventRow → Prop) db db' : (∀ r, P r → Q r) → log_step P db db' → log_step Q db db'.
Proof. intros HPQ [? (new & He & HP) ?]. split; [done| |done]. exists new. eauto. Qed.

(** One encoded record at the next position of its scope. *)
Lemma record_step P db scope kind plain stored db' :
  system_ok db → record_kind host kind → encode_payload codec scope kind plain = Ok stored →
  (kind = DISPATCH_KIND → P (mkEventRow scope (next_position db scope) kind stored)) →
  insert_event db (mkEventRow scope (next_position db scope) kind stored) = Ok db' →
  log_step P db db' ∧ command_receipts db' = command_receipts db
  ∧ db' = pushed db (mkEventRow scope (next_position db scope) kind stored).
Proof.
  intros Hsys Hk He HP Hins. pose proof Hsys as [Hok _].
  destruct (insert_grows codec (record_kind host) db scope kind plain stored Hok Hk He) as (db1 & Hins1 & Hg & Hrec & _).
  assert (db1 = db') as -> by congruence. rewrite insert_event_next in Hins by done.
  assert (db' = pushed db (mkEventRow scope (next_position db scope) kind stored)) as Hdb by congruence.
  split_and!; [|done|done]. destruct (grows_system_ok codec reducer_build host db db' Hsys Hg) as [Hsys' [_ Hsub]].
  split; [done| |done]. exists [mkEventRow scope (next_position db scope) kind stored]. split; [by rewrite Hdb|].
  by intros r ->%list_elem_of_singleton.
Qed.

Lemma receipt_step P db scope key at_ db' :
  system_ok db → insert_receipt db scope key at_ = Ok db' →
  log_step P db db' ∧ events db' = events db ∧ scope_snapshots db' = scope_snapshots db
  ∧ command_receipts db !! (scope, key) = None ∧ command_receipts db' = <[(scope, key) := at_]> (command_receipts db).
Proof.
  intros Hsys Hins. pose proof Hsys as [Hok _]. unfold insert_receipt in Hins.
  destruct (command_receipts db !! (scope, key)) eqn:Hk; [done|]. injection Hins as <-. split_and!; try done.
  assert (grows codec (record_kind host) db (db <| command_receipts := <[(scope, key) := at_]> (command_receipts db) |>)) as Hg.
  { exists []. split_and!; [split; [by rewrite app_nil_r|by intros r ?%elem_of_nil|done]|by intros r ?%elem_of_nil|done|].
    simpl. by apply insert_subseteq. }
  destruct (grows_system_ok codec reducer_build host db _ Hsys Hg) as [Hsys' [_ Hsub]].
  split; [done| |done]. exists []. simpl. split; [by rewrite app_nil_r|]. by intros r ?%elem_of_nil.
Qed.

(** Records and receipts leave what the lifecycles hold. *)
Lemma record_holds db scope kind plain stored i s log :
  db_ok db → record_kind host kind → encode_payload codec scope kind plain = Ok stored →
  holds i db s log → holds i (pushed db (mkEventRow scope (next_position db scope) kind stored)) s log.
Proof.
  intros Hok Hk He Hh. destruct (insert_grows codec (record_kind host) db scope kind plain stored Hok Hk He)
    as (db1 & Hins & Hg & _). rewrite insert_event_next in Hins by done.
  assert (db1 = pushed db (mkEventRow scope (next_position db scope) kind stored)) as -> by congruence.
  eapply grows_represents; [exact Hg| |done]. auto.
Qed.

Lemma same_log_holds db db' i s log :
  events db' = events db → scope_snapshots db' = scope_snapshots db → holds i db s log → holds i db' s log.
Proof.
  intros He Hs [H1 H2 H3]. split; unfold kind_rows, scope_rows in *; rewrite He; [done|done|]. by rewrite Hs.
Qed.

(** The events of a decided command. *)
Lemma append_events_inv L (json : Json (lc_event L)) db scope position s es db' s' :
  append_events codec L json db scope position s es = Ok (db', s') →
  evolve_all L s es = Some s' ∧ ∀ e, e ∈ es → encodable codec L json scope e.
Proof.
  intros Happ. split.
  - revert db position s Happ. induction es as [|e es IH]; intros db position s Happ; simpl in *; [by simplify_eq|].
    destruct (to_json json e); [|done]. simpl in Happ. destruct (encode_payload _ _ _ _); [|done].
    destruct (insert_event _ _); [|done]. destruct (lc_evolve L s e); [|done]. by eapply IH.
  - intros e He. destruct (decide (encodable codec L json scope e)) as [|Hne]; [done|].
    destruct (append_events_err codec L json db scope s es e He Hne position) as [f Hf]. congruence.
Qed.

Lemma events_step P i db scope log s cmd es db' s' :
  KIND (lifecycle (host i)) ≠ DISPATCH_KIND →
  system_ok db → holds i db scope log → trace (lifecycle (host i)) log s →
  lc_decide (lifecycle (host i)) s cmd = Ok es →
  append_events codec (lifecycle (host i)) (h_json (host i)) db scope (next_position db scope) s es = Ok (db', s') →
  log_step P db db' ∧ holds i db' scope (log ++ es) ∧ trace (lifecycle (host i)) (log ++ es) s'
  ∧ command_receipts db' = command_receipts db
  ∧ next_position db' scope = (next_position db scope + Z.of_nat (length es))%Z.
Proof.
  intros Hnd Hsys Hh Ht Hd Happ. pose proof Hsys as [Hok Hall].
  destruct (append_events_inv _ _ _ _ _ _ _ _ _ Happ) as [Hev Henc].
  destruct (append_events_ok codec (lifecycle (host i)) (h_json (host i)) db scope s es s' Hok Hev Henc)
    as (db1 & new & Happ1 & Hext & Hnew & Hrows & Hrec & Hsn).
  assert (db1 = db') as -> by congruence.
  assert (filter (λ r, row_scope r = scope) new = new) as Hsc by (apply filter_keeps_all; naive_solver).
  assert (holds i db' scope (log ++ es)) as Hh'.
  { eapply represents_extend; [exact Hh|by apply (extends_rows codec)| | |].
    - intros r [<- Hr]%list_elem_of_filter. by eapply ext_open.
    - rewrite Hsc, filter_keeps_all; [done|]. naive_solver.
    - intros sc v _ k. by rewrite Hsn. }
  assert (admission codec reducer_build (lifecycle (host i)) (h_json (host i)) db db' scope log es) as Hadm.
  { split; [|done|by intros; rewrite Hsn]. exists new. split_and!; [done|by apply Forall2_length in Hrows|done]. }
  assert (apply (lifecycle (host i)) s cmd = Applied es s') as Ha by (unfold apply; by rewrite Hd, Hev).
  destruct (admission_system_ok codec reducer_build host Hkinds i db db' scope log s cmd es s' Hsys Ht Ha Hadm) as [Hsys' _].
  split_and!; [|done|by eapply trace_admit|done|].
  - split; [done| |by rewrite Hrec]. exists new. split; [by destruct Hext|].
    intros r Hr Hkind. destruct (Hnew r Hr) as [_ Hk]. congruence.
  - destruct Hsys' as [Hok' _]. rewrite !next_position_dense, (extends_rows codec db db' new scope Hext), Hsc, length_app by done.
    apply Forall2_length in Hrows. lia.
Qed.

Lemma checkpoint_step P i db scope log s db' :
  system_ok db → holds i db scope log → trace (lifecycle (host i)) log s →
  checkpoint codec anchor reducer_build (lifecycle (host i)) db scope s = Ok db' →
  log_step P db db' ∧ events db' = events db ∧ command_receipts db' = command_receipts db ∧ holds i db' scope log.
Proof.
  intros Hsys Hh Ht Hcp. pose proof Hsys as [Hok Hall].
  destruct (checkpoint_ok codec anchor reducer_build (lifecycle (host i)) (h_json (host i)) db scope log s Hok Hh
    (trace_replay _ _ _ Ht)) as (db1 & Hcp1 & He & Hrec & Hh' & Hkeys).
  assert (db1 = db') as -> by congruence.
  assert (db_ok db') as Hok' by (intros sc; unfold scope_rows; rewrite He; apply Hok).
  split_and!; [|done|done|done]. split; [| |by rewrite Hrec].
  - split; [done|]. intros j scope'. destruct (decide ((i, scope) = (j, scope'))) as [Heq|Hne].
    + injection Heq as <- <-. by exists log, s.
    + destruct (Hall j scope') as (log' & t & Ht' & Hj). exists log', t. split; [done|].
      eapply represents_frame; [exact Hj|split; [by rewrite He, app_nil_r|by intros r ?%elem_of_nil|done]|by intros r ?%elem_of_nil|].
      intros key Hkey. apply Hkeys. rewrite Hkey. intros [= -> Hk]. apply Hne. f_equal. by apply Hkinds.
  - exists []. split; [by rewrite He, app_nil_r|]. by intros r ?%elem_of_nil.
Qed.

(** ** Batches and facts *)

Context (Hdispatch : record_kind host DISPATCH_KIND).

Lemma stage_events_append L (json : Json (lc_event L)) db scope position s es db' position' s' ps :
  stage_events codec L json db scope position s es = Ok (db', position', s', ps) →
  append_events codec L json db scope position s es = Ok (db', s') ∧ position' = (position + Z.of_nat (length es))%Z.
Proof.
  revert db position s ps. induction es as [|e es IH]; intros db position s ps Hs; simpl in *.
  { simplify_eq. split; [done|lia]. }
  destruct (to_json json e); [|done]. simpl in *. destruct (encode_payload _ _ _ _); [|done].
  destruct (insert_event _ _) as [db1|]; [|done]. destruct (lc_evolve L s e) as [s1|]; [|done].
  destruct (stage_events _ _ _ _ _ _ _ _) as [[[[db2 p2] s2] ps2]|] eqn:Hrest; [|done].
  simplify_eq/=. destruct (IH _ _ _ _ Hrest) as [? ?]. split; [done|]. lia.
Qed.

Lemma stage_commands_step P i db scope log s cmds db' s' ps :
  system_ok db → holds i db scope log → trace (lifecycle (host i)) log s →
  stage_commands codec (lifecycle (host i)) (h_json (host i)) db scope (next_position db scope) s cmds = Ok (db', s', ps) →
  log_step P db db' ∧ command_receipts db' = command_receipts db
  ∧ ∃ log', holds i db' scope log' ∧ trace (lifecycle (host i)) log' s'.
Proof.
  revert db log s ps. induction cmds as [|cmd cmds IH]; intros db log s ps Hsys Hh Ht Hs; simpl in Hs.
  { simplify_eq. split_and!; [by apply log_step_refl|done|by exists log]. }
  unfold decide_in in Hs. destruct (lc_decide _ s cmd) as [es|] eqn:Hd; [|done].
  destruct (stage_events _ _ _ _ _ _ _ _) as [[[[db1 p1] s1] ps1]|] eqn:Hst; [|done].
  apply stage_events_append in Hst as [Happ ->].
  destruct (events_step P i db scope log s cmd es db1 s1 (λ H, Hdispatch i (eq_sym H)) Hsys Hh Ht Hd Happ)
    as (Hstep & Hh1 & Ht1 & Hrec & Hnext).
  destruct (stage_commands _ _ _ _ _ _ _ cmds) as [[[db2 s2] ps2]|] eqn:Hrest; [|done]. simplify_eq.
  rewrite <- Hnext in Hrest. destruct (IH db1 _ s1 _ (ls_ok _ _ _ Hstep) Hh1 Ht1 Hrest) as (Hstep2 & Hrec2 & Hlog).
  split_and!; [by eapply log_step_trans|congruence|done].
Qed.

Lemma stage_lifecycle_step P i db batch db' ps :
  system_ok db →
  stage_lifecycle codec anchor reducer_build (lifecycle (host i)) (h_json (host i)) db batch = Ok (db', ps) →
  log_step P db db' ∧ command_receipts db' = command_receipts db.
Proof.
  intros Hsys Hst. unfold stage_lifecycle in Hst. cbv zeta in Hst. pose proof Hsys as [Hok Hall].
  destruct (Hall i (batch_scope batch)) as (log & s & Ht & Hh).
  rewrite (fold_replays codec anchor reducer_build _ _ db (batch_scope batch) log s Hok Hh (trace_replay _ _ _ Ht)) in Hst.
  destruct (stage_commands _ _ _ _ _ _ _ _) as [[[db1 s1] ps1]|] eqn:Hc; [|done].
  destruct (stage_commands_step P i db _ log s _ db1 s1 ps1 Hsys Hh Ht Hc) as (Hstep & Hrec & log' & Hh' & Ht').
  destruct (checkpoint _ _ _ _ _ _ _) as [db2|] eqn:Hcp; [|done]. simplify_eq.
  destruct (checkpoint_step P i db1 _ log' s1 db' (ls_ok _ _ _ Hstep) Hh' Ht' Hcp) as (Hstep2 & _ & Hrec2 & _).
  split; [by eapply log_step_trans|congruence].
Qed.

(** Facts use kinds that are neither a lifecycle's nor the outbox's. *)
Definition fact_kind_ok (kind : string) : Prop := record_kind host kind ∧ kind ≠ DISPATCH_KIND.

Lemma append_facts_step P facts : ∀ db stored db' ps,
  Forall (λ f, fact_kind_ok (fact_kind f)) facts → system_ok db → encode_facts codec facts = Ok stored →
  append_facts db stored = Ok (db', ps) → log_step P db db' ∧ command_receipts db' = command_receipts db.
Proof.
  induction facts as [|f facts IH]; intros db stored db' ps Hk Hsys He Happ; simpl in He.
  { simplify_eq/=. split; [by apply log_step_refl|done]. }
  apply Forall_cons in Hk as [[Hk Hnd] Hks].
  destruct (encode_payload _ _ _ _) as [payload|] eqn:Hp; [|done].
  destruct (encode_facts codec facts) as [rest|]; [|done]. simplify_eq. simpl in Happ.
  destruct (insert_event _ _) as [db1|] eqn:Hins; [|done].
  destruct (append_facts db1 rest) as [[db2 ps2]|] eqn:Hrest; [|done]. simplify_eq.
  destruct (record_step P db (fact_scope f) (fact_kind f) _ payload db1 Hsys Hk Hp) as (Hstep & Hrec & _); [done|done|].
  destruct (IH db1 rest db' ps2 Hks (ls_ok _ _ _ Hstep) eq_refl Hrest) as [Hstep2 Hrec2].
  split; [by eapply log_step_trans|congruence].
Qed.

Lemma append_chained_step P db f db' position payload :
  fact_kind_ok (chained_kind f) → system_ok db → append_chained codec db f = Ok (db', position, payload) →
  log_step P db db' ∧ command_receipts db' = command_receipts db
  ∧ ∃ stored, encode_payload codec (chained_scope f) (chained_kind f) payload = Ok stored
      ∧ position = next_position db (chained_scope f)
      ∧ db' = pushed db (mkEventRow (chained_scope f) position (chained_kind f) stored).
Proof.
  intros [Hk Hnd] Hsys Happ. unfold append_chained in Happ. cbv zeta in Happ.
  destruct (encode_payload _ _ _ _) as [stored|] eqn:Hp; [|done]. destruct (insert_event _ _) as [db1|] eqn:Hins; [|done].
  simplify_eq. destruct (record_step P db _ _ _ _ db' Hsys Hk Hp) as (Hstep & Hrec & Hdb); [done|done|].
  split_and!; [done|done|]. by exists stored.
Qed.

(** ** Steps of the command plane *)

Context (intent_json : Json DispatchIntent) `{!JsonLaws intent_json}.

(** A row of the outbox: the intent of a command of its scope, whose key is as [P] says. *)
Definition dispatch_row (P : string * string → Prop) (r : EventRow) : Prop :=
  ∃ key intent plain, decode_row codec (row_scope r) r = Some plain ∧ from_json intent_json plain = Some intent
    ∧ intent_command_id intent = command_name "command" (row_scope r) key ∧ P (row_scope r, key).

(** A later database: nothing is lost, and what is new in the outbox and in the
    provenance of facts belongs to keys as [P] says. *)
Record advance_for (P : string * string → Prop) (c c' : Cdb) : Prop := {
  af_log : log_step (dispatch_row P) (log_db c) (log_db c');
  af_ok : commands_ok c';
  af_rows : rows_kept c c';
  af_sets : record_command_fact_sets c ⊆ record_command_fact_sets c';
  af_refs : record_command_fact_refs c ⊆ record_command_fact_refs c';
  af_new_refs : ∀ s k i, is_Some (record_command_fact_refs c' !! (s, k, i)) →
    is_Some (record_command_fact_refs c !! (s, k, i)) ∨ P (s, k);
}.

Lemma advance_for_refl P c : system_ok (log_db c) → commands_ok c → advance_for P c c.
Proof. intros. split; [by apply log_step_refl|done|done|done|done|by left]. Qed.

Lemma advance_for_trans P c1 c2 c3 : advance_for P c1 c2 → advance_for P c2 c3 → advance_for P c1 c3.
Proof.
  intros [H1 _ H3 H4 H5 H6] [G1 G2 G3 G4 G5 G6].
  split; [by eapply log_step_trans|done|by etrans|by etrans|by etrans|].
  intros s k i [?|?]%G6; auto.
Qed.

(** A step that touches the command rows alone, or the log alone. *)
Lemma commands_step P c c' :
  system_ok (log_db c) → commands_ok c' → rows_kept c c' → only_commands c c' → advance_for P c c'.
Proof.
  intros Hsys Hok Hkept Ho. assert (log_db c' = log_db c ∧ record_command_fact_sets c' = record_command_fact_sets c
    ∧ record_command_fact_refs c' = record_command_fact_refs c) as (Hl & Hs & Hr).
  { unfold only_commands in Ho. by destruct c, c'; simplify_eq/=. }
  split; rewrite ?Hl, ?Hs, ?Hr; [by apply log_step_refl|done|done|done|done|by left].
Qed.

Lemma log_only_step P c db' :
  commands_ok c → log_step (dispatch_row P) (log_db c) db' → advance_for P c (c <| log_db := db' |>).
Proof. intros Hok Hl. split; simpl; [done|by destruct Hok; split|by unfold rows_kept; simpl|done|done|by left]. Qed.

Lemma insert_or_ignore_step P c row :
  system_ok (log_db c) → commands_ok c → advance_for P c (insert_or_ignore c row).1.
Proof. intros Hsys Hok. destruct (insert_or_ignore_kept c row Hok) as (? & ? & ?). by apply commands_step. Qed.

Lemma update_status_step P c chosen to :
  system_ok (log_db c) → commands_ok c → advance_for P c (update_status c chosen to).1.
Proof. intros Hsys Hok. destruct (update_status_kept c chosen to Hok) as (? & ? & ?). by apply commands_step. Qed.

(** What every reached database satisfies. *)
Record inv (c : Cdb) : Prop := {
  inv_log : system_ok (log_db c);
  inv_commands : commands_ok c;
  inv_outbox : ∀ r, r ∈ events (log_db c) → row_kind r = DISPATCH_KIND →
    dispatch_row (λ k, is_Some (command_receipts (log_db c) !! k)) r;
  inv_refs : ∀ s k i, is_Some (record_command_fact_refs c !! (s, k, i)) →
    is_Some (command_receipts (log_db c) !! (s, k));
}.

(** A whole operation: what is new belongs to keys it gave a receipt to. *)
Definition advance (c c' : Cdb) : Prop := ∃ P, advance_for P c c'
  ∧ ∀ k, P k → command_receipts (log_db c) !! k = None ∧ is_Some (command_receipts (log_db c') !! k).

Lemma advance_quiet c c' : advance_for (λ _, False) c c' → advance c c'.
Proof. intros. by exists (λ _, False). Qed.

Lemma advance_refl c : inv c → advance c c.
Proof. intros []. by apply advance_quiet, advance_for_refl. Qed.

Lemma dispatch_row_mono (P Q : string * string → Prop) r :
  (∀ k, P k → Q k) → dispatch_row P r → dispatch_row Q r.
Proof. intros HPQ (key & intent & plain & ? & ? & ? & ?). exists key, intent, plain. auto. Qed.

Lemma advance_for_mono (P Q : string * string → Prop) c c' :
  (∀ k, P k → Q k) → advance_for P c c' → advance_for Q c c'.
Proof.
  intros HPQ [H1 H2 H3 H4 H5 H6]. split; [|done..|].
  - eapply log_step_mono; [|exact H1]. intros r. by apply dispatch_row_mono.
  - intros s k i [?|?]%H6; auto.
Qed.

Lemma advance_trans c1 c2 c3 : advance c1 c2 → advance c2 c3 → advance c1 c3.
Proof.
  intros (P & H1 & HP) (Q & H2 & HQ). exists (λ k, P k ∨ Q k). split.
  - eapply advance_for_trans; (eapply advance_for_mono; [|done]); naive_solver.
  - destruct H1 as [[_ _ Hs1] _ _ _ _ _]. destruct H2 as [[_ _ Hs2] _ _ _ _ _]. intros k [Hk|Hk].
    + destruct (HP k Hk) as [? [v ?]]. split; [done|]. exists v. by eapply lookup_weaken.
    + destruct (HQ k Hk) as [Hn ?]. split; [|done]. by eapply lookup_weaken_None.
Qed.

Lemma advance_inv c c' : inv c → advance c c' → inv c'.
Proof.
  intros [H1 H2 H3 H4] (P & [[Hok (new & He & Hnew) Hsub] ? _ _ _ Hrefs] & HP). split; [done|done| |].
  - intros r Hr Hk. rewrite He in Hr. apply elem_of_app in Hr as [Hr|Hr].
    + eapply dispatch_row_mono; [|by apply H3]. intros k [v Hv]. exists v. by eapply lookup_weaken.
    + eapply dispatch_row_mono; [|by apply Hnew]. intros k Hp. by apply HP.
  - intros s k i [Hi|Hi]%Hrefs; [|by apply HP]. destruct (H4 s k i Hi) as [v Hv]. exists v. by eapply lookup_weaken.
Qed.

Lemma transaction_advance {T} c (body : result failure (Cdb * T)) :
  inv c → (∀ c' t, body = Ok (c', t) → advance c c') → advance c (transaction c body).1.
Proof. intros Hi Hb. destruct body as [[c' t]|e]; simpl; [by eapply Hb|by apply advance_refl]. Qed.

(** ** Record facts *)

Definition chained_ok (chained : option ChainedRecordFact) : Prop :=
  ∀ f, chained = Some f → fact_kind_ok (chained_kind f).

(** A staging closure writes typed events and facts alone. *)
Definition stages (stage : Db → result failure (Db * list Z)) : Prop :=
  ∀ P db db' ps, system_ok db → stage db = Ok (db', ps) →
    log_step P db db' ∧ command_receipts db' = command_receipts db.

Lemma stage_all_step P db stage facts stored chained db' ps payload :
  stages stage → Forall (λ f, fact_kind_ok (fact_kind f)) facts → encode_facts codec facts = Ok stored →
  chained_ok chained → system_ok db → stage_all codec db stage stored chained = Ok (db', ps, payload) →
  log_step P db db' ∧ command_receipts db' = command_receipts db.
Proof.
  intros Hst Hk He Hc Hsys Hall. unfold stage_all in Hall.
  destruct (stage db) as [[db1 ps1]|] eqn:Hs; [|done]. destruct (Hst P db db1 ps1 Hsys Hs) as [Hs1 Hr1].
  cbn [fst] in Hall. destruct (append_facts db1 stored) as [[db2 ps2]|] eqn:Hf; [|done].
  destruct (append_facts_step P facts db1 stored db2 ps2 Hk (ls_ok _ _ _ Hs1) He Hf) as [Hs2 Hr2].
  destruct chained as [f|]; cbn [fst] in Hall.
  - destruct (append_chained codec db2 f) as [[[db3 position] pl]|] eqn:Hl; [|done]. simplify_eq.
    destruct (append_chained_step P db2 f db' position pl (Hc f eq_refl) (ls_ok _ _ _ Hs2) Hl) as (Hs3 & Hr3 & _).
    split; [by do 2 (eapply log_step_trans; [done|])|congruence].
  - simplify_eq. split; [by eapply log_step_trans|congruence].
Qed.

Lemma commit_staged_advance c scope key snapshot facts stored chained claimed stage final :
  inv c → stages stage → Forall (λ f, fact_kind_ok (fact_kind f)) facts → encode_facts codec facts = Ok stored →
  chained_ok chained →
  advance c (commit_staged codec c scope key snapshot stored chained claimed stage final).1.
Proof.
  intros Hinv Hst Hk He Hc. apply transaction_advance; [done|]. intros c' m Hbody. apply advance_quiet. cbv zeta in Hbody.
  set (c1 := match claimed with None => _ | Some _ => c end) in Hbody.
  assert (advance_for (λ _, False) c c1) as H1.
  { destruct Hinv. subst c1. destruct claimed; [by apply advance_for_refl|by apply insert_or_ignore_step]. }
  destruct (command_by_key c1 scope key) as [record|]; [|done]. cbn [ok_or] in Hbody.
  destruct (refuse_if _ _); [|done]. destruct (refuse_if _ _); [|done].
  pose proof (ls_ok _ _ _ (af_log _ _ _ H1)) as Hsys1. pose proof (af_ok _ _ _ H1) as Hok1.
  destruct (receipted c1 scope key).
  - destruct final; [|done]. apply ok_pair_inj in Hbody as [-> _].
    eapply advance_for_trans; [exact H1|by apply update_status_step].
  - destruct (refuse_if _ _); [|done].
    set (c2 := (update_status c1 _ "processing").1) in Hbody.
    assert (advance_for (λ _, False) c1 c2) as H2 by (by apply update_status_step).
    destruct (stage_all _ _ _ _ _) as [[[db ps] payload]|] eqn:Hall; [|done].
    destruct (stage_all_step (dispatch_row (λ _, False)) _ _ _ _ _ _ _ _ Hst Hk He Hc
      (ls_ok _ _ _ (af_log _ _ _ H2)) Hall) as [Hs3 _].
    destruct (insert_receipt db scope key _) as [db4|] eqn:Hr; [|done].
    destruct (receipt_step (dispatch_row (λ _, False)) db scope key _ db4 (ls_ok _ _ _ Hs3) Hr) as [Hs4 _].
    destruct final; [|done]. apply ok_pair_inj in Hbody as [-> _].
    pose proof (log_only_step _ c2 db4 (af_ok _ _ _ H2) (log_step_trans _ _ _ _ Hs3 Hs4)) as H3.
    eapply advance_for_trans; [exact H1|]. eapply advance_for_trans; [exact H2|].
    eapply advance_for_trans; [exact H3|].
    apply update_status_step; [by destruct Hs4|by destruct H3].
Qed.

Lemma no_stage_stages : stages no_stage.
Proof. intros P db db' ps Hsys [= <- <-]. split; [by apply log_step_refl|done]. Qed.

Lemma batch_stages i batch :
  stages (λ db, stage_lifecycle codec anchor reducer_build (lifecycle (host i)) (h_json (host i)) db batch).
Proof. intros P db db' ps Hsys Hst. by eapply stage_lifecycle_step. Qed.

Lemma pair_stages i j first second facts :
  (∀ n prepared, facts n = Ok prepared → Forall (λ f, fact_kind_ok (fact_kind f)) prepared) →
  stages (stage_pair codec anchor reducer_build (lifecycle (host i)) (lifecycle (host j)) (h_json (host i))
            (h_json (host j)) first second facts).
Proof.
  intros Hf P db db' ps Hsys Hst. unfold stage_pair in Hst. cbv zeta in Hst.
  destruct (stage_lifecycle _ _ _ _ _ db first) as [[db1 ps1]|] eqn:H1; [|done].
  destruct (stage_lifecycle_step P i db first db1 ps1 Hsys H1) as [Hs1 Hr1]. cbn [fst] in Hst.
  destruct (stage_lifecycle _ _ _ _ _ db1 second) as [[db2 ps2]|] eqn:H2; [|done].
  destruct (stage_lifecycle_step P j db1 second db2 ps2 (ls_ok _ _ _ Hs1) H2) as [Hs2 Hr2]. cbn [fst] in Hst.
  destruct (facts _) as [prepared|] eqn:Hp; [|done]. destruct (refuse_if _ _); [|done].
  destruct (encode_facts codec prepared) as [stored|] eqn:He; [|done].
  destruct (append_facts db2 stored) as [[db3 ps3]|] eqn:H3; [|done]. simplify_eq/=.
  destruct (append_facts_step P prepared db2 stored db' ps3 (Hf _ _ Hp) (ls_ok _ _ _ Hs2) He H3) as [Hs3 Hr3].
  split; [by do 2 (eapply log_step_trans; [done|])|congruence].
Qed.

(** ** Facts with their provenance *)

(** The event at a coordinate is the fact. *)
Definition fact_at (c : Cdb) (f : CommandRecordFact) (at_ : string * Z) : Prop :=
  at_.1 = fact_scope f ∧ ∃ r, select_at (log_db c) at_.1 at_.2 = Some r ∧ row_kind r = fact_kind f
    ∧ decode_row codec at_.1 r = Some (fact_payload f).

(** The references of a key, by index. *)
Definition refs_are (c : Cdb) (scope key : string) (ats : list (string * Z)) : Prop :=
  ∀ i at_, record_command_fact_refs c !! (scope, key, i) = Some at_
    ↔ (0 ≤ i)%Z ∧ ats !! Z.to_nat i = Some at_.

Lemma select_at_later db db' scope position r :
  db_ok db → db_ok db' → events db `prefix_of` events db' →
  select_at db scope position = Some r → select_at db' scope position = Some r.
Proof.
  intros Hok Hok' [new Hnew] [Hp Hr]%select_at_dense; [|done]. apply select_at_dense; [done|]. split; [done|].
  unfold scope_rows. rewrite Hnew, filter_app. by apply lookup_app_l_Some.
Qed.

Lemma fact_at_later P c c' f at_ : system_ok (log_db c) → advance_for P c c' → fact_at c f at_ → fact_at c' f at_.
Proof.
  intros [Hok _] [[[Hok' _] (new & He & _) _] _ _ _ _ _] (Hs & r & Hr & Hk & Hd). split; [done|]. exists r.
  split_and!; [|done|done]. eapply select_at_later; [exact Hok|exact Hok'| |exact Hr]. rewrite He. by apply prefix_app_r.
Qed.

(** A row just pushed is where it was put. *)
Lemma pushed_select db scope kind stored :
  db_ok db → let r := mkEventRow scope (next_position db scope) kind stored in
  select_at (pushed db r) scope (next_position db scope) = Some r.
Proof.
  intros Hok r. apply select_at_dense; [by apply pushed_ok|]. rewrite next_position_dense by done.
  split; [lia|]. rewrite scope_rows_pushed. simpl. rewrite bool_decide_eq_true_2 by done.
  rewrite lookup_app_r by lia. by rewrite Nat2Z.id, Nat.sub_diag.
Qed.

Lemma insert_fact_ref_spec c scope key index at_ c' :
  insert_fact_ref c scope key index at_ = Ok c' →
  record_command_fact_refs c !! (scope, key, index) = None
  ∧ c' = c <| record_command_fact_refs := <[(scope, key, index) := at_]> (record_command_fact_refs c) |>.
Proof.
  unfold insert_fact_ref. case_bool_decide as Hs; [done|]. simpl. destruct (existsb _ _); [done|].
  intros [= <-]. split; [|done]. by apply eq_None_not_Some.
Qed.

(** One reference more. *)
Lemma ref_step scope key index at_ c c' ats :
  system_ok (log_db c) → commands_ok c → refs_are c scope key ats → index = Z.of_nat (length ats) →
  insert_fact_ref c scope key index at_ = Ok c' →
  advance_for (eq (scope, key)) c c' ∧ refs_are c' scope key (ats ++ [at_])
  ∧ log_db c' = log_db c ∧ commands c' = commands c ∧ record_command_fact_sets c' = record_command_fact_sets c.
Proof.
  intros Hsys Hok Hrefs -> [Hnone ->]%insert_fact_ref_spec. split_and!; [|..|done|done|done].
  - split; simpl; [by apply log_step_refl|by destruct Hok; split|by unfold rows_kept|done|by apply insert_subseteq|].
    intros s k i [v Hv]. apply lookup_insert_Some in Hv as [[[= <- <- <-] _]|[_ Hv]]; [by right|by left].
  - intros i a. simpl. rewrite lookup_insert_Some. rewrite (Hrefs i a). split.
    + intros [[[= <-] <-]|[_ [? ?]]]; (split; [lia|]).
      * by rewrite Nat2Z.id, lookup_app_r, Nat.sub_diag.
      * by apply lookup_app_l_Some.
    + intros [Hi [Ha|[Hge Ha]]%lookup_app_Some].
      * right. split; [|done]. intros [= <-]. rewrite Nat2Z.id in Ha. apply lookup_lt_Some in Ha. lia.
      * left. apply list_lookup_singleton_Some in Ha as [Hz <-]. split; [|done]. repeat f_equal. lia.
Qed.

Lemma append_referenced_step scope key index f payload c c' position ats :
  fact_kind_ok (fact_kind f) → system_ok (log_db c) → commands_ok c → refs_are c scope key ats →
  index = Z.of_nat (length ats) → encode_payload codec (fact_scope f) (fact_kind f) (fact_payload f) = Ok payload →
  append_referenced c scope key index (mkFact (fact_scope f) (fact_kind f) payload) = Ok (c', position) →
  advance_for (eq (scope, key)) c c' ∧ refs_are c' scope key (ats ++ [(fact_scope f, position)])
  ∧ fact_at c' f (fact_scope f, position) ∧ command_receipts (log_db c') = command_receipts (log_db c)
  ∧ commands c' = commands c ∧ record_command_fact_sets c' = record_command_fact_sets c.
Proof.
  intros [Hk Hnd] Hsys Hok Hrefs Hi He Happ. unfold append_referenced in Happ. cbv zeta in Happ. cbn [fact_scope fact_kind fact_payload] in Happ.
  destruct (insert_event _ _) as [db1|] eqn:Hins; [|done].
  destruct (record_step (dispatch_row (eq (scope, key))) (log_db c) _ _ _ payload db1 Hsys Hk He (λ H, False_ind _ (Hnd H)) Hins)
    as (Hstep & Hrec & Hdb).
  destruct (insert_fact_ref _ _ _ _ _) as [c2|] eqn:Href; [|done]. apply ok_pair_inj in Happ as [-> ->].
  destruct (ref_step scope key index (fact_scope f, next_position (log_db c) (fact_scope f)) (c <| log_db := db1 |>) c2 ats)
    as (Hadv & Hrefs2 & Hl & Hc & Hs); try done.
  { by destruct Hstep. }
  { by destruct Hok; split. }
  split_and!; [|done| |by rewrite Hl|done|done].
  - eapply advance_for_trans; [by apply log_only_step|exact Hadv].
  - split; [done|]. exists (mkEventRow (fact_scope f) (next_position (log_db c) (fact_scope f)) (fact_kind f) payload).
    rewrite Hl. simpl. rewrite Hdb. destruct Hsys as [Hdbok _].
    split_and!; [by apply pushed_select|done|by apply encode_decode].
Qed.

Lemma append_all_referenced_step scope key facts : ∀ c index stored c' ps ats,
  Forall (λ f, fact_kind_ok (fact_kind f)) facts → encode_facts codec facts = Ok stored →
  system_ok (log_db c) → commands_ok c → refs_are c scope key ats → index = Z.of_nat (length ats) →
  append_all_referenced c scope key index stored = Ok (c', ps) →
  advance_for (eq (scope, key)) c c' ∧ command_receipts (log_db c') = command_receipts (log_db c)
  ∧ commands c' = commands c ∧ record_command_fact_sets c' = record_command_fact_sets c
  ∧ ∃ new, refs_are c' scope key (ats ++ new) ∧ Forall2 (fact_at c') facts new ∧ length ps = length facts.
Proof.
  induction facts as [|f facts IH]; intros c index stored c' ps ats Hk He Hsys Hok Hrefs Hi Happ; simpl in He.
  { simplify_eq/=. split_and!; [by apply advance_for_refl|done..|]. exists []. rewrite app_nil_r. by split_and!. }
  apply Forall_cons in Hk as [Hk Hks]. destruct (encode_payload _ _ _ _) as [payload|] eqn:Hp; [|done].
  destruct (encode_facts codec facts) as [rest|] eqn:Her; [|done]. simplify_eq. cbn [append_all_referenced] in Happ.
  destruct (append_referenced _ _ _ _ _) as [[c1 p1]|] eqn:H1; [|done]. cbn [fst snd] in Happ.
  destruct (append_referenced_step _ _ _ f payload c c1 p1 ats Hk Hsys Hok Hrefs eq_refl Hp H1)
    as (Hadv & Hrefs1 & Hat & Hr1 & Hc1 & Hs1).
  destruct (append_all_referenced c1 _ _ _ _) as [[c2 ps2]|] eqn:H2; [|done]. apply ok_pair_inj in Happ as [-> ->].
  destruct (IH c1 (Z.of_nat (length ats) + 1)%Z rest c2 ps2 _ Hks eq_refl (ls_ok _ _ _ (af_log _ _ _ Hadv)) (af_ok _ _ _ Hadv) Hrefs1) as
    (Hadv2 & Hr2 & Hc2 & Hs2 & new & Hrefs2 & Hats & Hlen); [rewrite length_app; simpl; lia|done|].
  split_and!; [by eapply advance_for_trans|simpl; congruence..|].
  exists ((fact_scope f, p1) :: new). rewrite <- app_assoc in Hrefs2. split_and!; [done| |simpl; by rewrite Hlen].
  constructor; [|done]. eapply fact_at_later; [by apply (ls_ok _ _ _ (af_log _ _ _ Hadv))|exact Hadv2|done].
Qed.

Context (claim_json : string * string * string * string → option string).

Lemma insert_claims_step P scope key at_ claims : ∀ c c',
  system_ok (log_db c) → commands_ok c → insert_claims claim_json c scope key at_ claims = Ok c' →
  advance_for P c c' ∧ record_command_fact_refs c' = record_command_fact_refs c
  ∧ record_command_fact_sets c' = record_command_fact_sets c ∧ events (log_db c') = events (log_db c).
Proof.
  induction claims as [|claim claims IH]; intros c c' Hsys Hok Hc; simpl in Hc.
  { simplify_eq. by split_and!; [apply advance_for_refl|..]. }
  destruct (claim_text _ _ _ _) as [text|]; [|done].
  destruct (insert_command _ _) as [c1|] eqn:Hins; [|done].
  destruct (insert_command_kept _ _ _ Hok Hins) as (Hok1 & Hkept & Ho).
  assert (log_db c1 = log_db c ∧ record_command_fact_refs c1 = record_command_fact_refs c
    ∧ record_command_fact_sets c1 = record_command_fact_sets c) as (Hl & Hr & Hs).
  { unfold only_commands in Ho. by destruct c, c1; simplify_eq/=. }
  destruct (insert_receipt _ _ _ _) as [db2|] eqn:Hrec; [|done].
  rewrite Hl in Hrec. destruct (receipt_step (dispatch_row P) (log_db c) _ _ _ db2 Hsys Hrec) as (Hstep & He & _).
  destruct (IH (c1 <| log_db := db2 |>) c') as (Hadv & Hr2 & Hs2 & He2); [by destruct Hstep|by destruct Hok1; split|done|].
  split_and!; [|simpl in *; congruence..].
  eapply advance_for_trans; [by apply commands_step|]. eapply advance_for_trans; [|exact Hadv].
  apply log_only_step; [done|]. by rewrite Hl.
Qed.

(** What is recorded of a command's facts: their references, and how many they are. *)
Definition provenance (c : Cdb) (scope key : string) (facts : list CommandRecordFact) : Prop :=
  (∃ ats, refs_are c scope key ats ∧ Forall2 (fact_at c) facts ats)
  ∧ record_command_fact_sets c !! (scope, key) = Some (Z.of_nat (length facts)).

(** The chained fact, with the payload its link gave. *)
Definition chained_fact (chained : option ChainedRecordFact) (payload : option string) : list CommandRecordFact :=
  match chained, payload with
  | Some f, Some p => [mkFact (chained_scope f) (chained_kind f) p]
  | _, _ => []
  end.

Lemma append_linked_step scope key chained c c' ps ps' payload ats :
  chained_ok chained → system_ok (log_db c) → commands_ok c → refs_are c scope key ats → length ps = length ats →
  append_linked codec c scope key ps chained = Ok (c', ps', payload) →
  advance_for (eq (scope, key)) c c' ∧ command_receipts (log_db c') = command_receipts (log_db c)
  ∧ commands c' = commands c ∧ record_command_fact_sets c' = record_command_fact_sets c
  ∧ length ps' = length ps + length (chained_fact chained payload)
  ∧ ∃ new, refs_are c' scope key (ats ++ new) ∧ Forall2 (fact_at c') (chained_fact chained payload) new.
Proof.
  intros Hk Hsys Hok Hrefs Hlen Happ. destruct chained as [f|]; simpl in Happ.
  2: { simplify_eq. split_and!; [by apply advance_for_refl|done|done|done|simpl; lia|]. exists []. by rewrite app_nil_r. }
  destruct (append_chained codec (log_db c) f) as [[[db position] pl]|] eqn:Hl; [|done].
  destruct (append_chained_step (dispatch_row (eq (scope, key))) _ _ _ _ _ (Hk f eq_refl) Hsys Hl)
    as (Hstep & Hrec & stored & Henc & Hpos & Hdb).
  destruct (insert_fact_ref _ _ _ _ _) as [c2|] eqn:Href; [|done].
  apply ok_pair_inj in Happ as [[= -> ->] ->].
  destruct (ref_step scope key (Z.of_nat (length ps)) (chained_scope f, position) (c <| log_db := db |>) c2 ats)
    as (Hadv & Hrefs2 & Hl2 & Hc2 & Hs2); [by destruct Hstep|by destruct Hok; split|done|lia|done|].
  split_and!; [|by rewrite Hl2|done|done|rewrite length_app; simpl; lia|].
  - eapply advance_for_trans; [by apply log_only_step|exact Hadv].
  - exists [(chained_scope f, position)]. split; [done|]. constructor; [|constructor]. split; [done|].
    exists (mkEventRow (chained_scope f) position (chained_kind f) stored).
    rewrite Hl2. simpl. rewrite Hdb. destruct Hsys as [Hdbok _].
    split_and!; [|done|by apply encode_decode]. rewrite Hpos. by apply pushed_select.
Qed.

(** The references of a key without a receipt: there are none. *)
Lemma no_refs c scope key :
  inv c → command_receipts (log_db c) !! (scope, key) = None → refs_are c scope key [].
Proof.
  intros [_ _ _ Hrefs] Hnone i at_. split; [|by intros [_ ?]]. intros Hi.
  destruct (Hrefs scope key i) as [v Hv]; [by eexists|]. congruence.
Qed.

Lemma receipted_spec c scope key : receipted c scope key = false ↔ command_receipts (log_db c) !! (scope, key) = None.
Proof. unfold receipted. rewrite bool_decide_eq_false. by rewrite eq_None_not_Some. Qed.

(** The row of a key after [insert_or_ignore]: the one that was there, or the new one. *)
Lemma inserted_row c row r :
  command_by_key (insert_or_ignore c row).1 (cmd_scope row) (idempotency_key row) = Some r →
  command_by_key c (cmd_scope row) (idempotency_key row) = None → r = row.
Proof.
  unfold insert_or_ignore. destruct (conflicts row (commands c)); simpl; [congruence|].
  unfold command_by_key. simpl. rewrite find_append. intros Hf Hnone. rewrite Hnone in Hf. simpl in Hf.
  rewrite (proj2 (same_key_spec _ _ row) eq_refl) in Hf. congruence.
Qed.

Lemma insert_fact_set_step P c scope key count c' :
  system_ok (log_db c) → commands_ok c → insert_fact_set c scope key count = Ok c' →
  advance_for P c c' ∧ record_command_fact_sets c' !! (scope, key) = Some count
  ∧ record_command_fact_refs c' = record_command_fact_refs c ∧ log_db c' = log_db c ∧ commands c' = commands c.
Proof.
  intros Hsys Hok. unfold insert_fact_set. case_bool_decide as Hs; [done|]. intros [= <-]. simpl.
  split_and!; [|by rewrite lookup_insert_eq|done..].
  split; simpl; [by apply log_step_refl|by destruct Hok; split|by unfold rows_kept| |done|by left].
  apply insert_subseteq. by apply eq_None_not_Some.
Qed.

Lemma refs_are_eq c c' scope key ats :
  record_command_fact_refs c' = record_command_fact_refs c → refs_are c scope key ats → refs_are c' scope key ats.
Proof. intros Heq Hr i a. by rewrite Heq. Qed.

(** What a first admission writes. *)
Lemma write_facts_spec c scope key record facts stored chained claims c' m :
  Forall (λ f, fact_kind_ok (fact_kind f)) facts → encode_facts codec facts = Ok stored → chained_ok chained →
  system_ok (log_db c) → commands_ok c → refs_are c scope key [] →
  write_facts codec claim_json c scope key record stored chained claims = Ok (c', m) →
  advance_for (eq (scope, key)) c c' ∧ is_Some (command_receipts (log_db c') !! (scope, key))
  ∧ command_receipts (log_db c) !! (scope, key) = None
  ∧ record_replayed m = false ∧ provenance c' scope key (facts ++ chained_fact chained (chained_payload m)).
Proof.
  intros Hk He Hc Hsys Hok Hrefs Hw. unfold write_facts in Hw. cbv zeta in Hw.
  set (c1 := (update_status c _ "processing").1) in Hw.
  assert (advance_for (eq (scope, key)) c c1) as H1 by (by apply update_status_step).
  destruct (append_all_referenced c1 scope key 0 stored) as [[c2 ps2]|] eqn:Happ; [|done].
  destruct (append_all_referenced_step scope key facts c1 0 stored c2 ps2 [] Hk He (ls_ok _ _ _ (af_log _ _ _ H1))
    (af_ok _ _ _ H1) Hrefs eq_refl Happ) as (H2 & Hr2 & _ & _ & ats & Hrefs2 & Hats & Hlen). simpl in Hrefs2.
  destruct (append_linked codec c2 scope key ps2 chained) as [[[c3 ps3] payload]|] eqn:Hl; [|done].
  destruct (append_linked_step scope key chained c2 c3 ps2 ps3 payload ats Hc (ls_ok _ _ _ (af_log _ _ _ H2))
    (af_ok _ _ _ H2) Hrefs2) as (H3 & Hr3 & _ & _ & Hlen3 & new & Hrefs3 & Hnew);
    [by rewrite Hlen; apply Forall2_length in Hats|done|].
  destruct (insert_fact_set c3 scope key _) as [c4|] eqn:Hset; [|done].
  destruct (insert_fact_set_step (eq (scope, key)) _ _ _ _ _ (ls_ok _ _ _ (af_log _ _ _ H3)) (af_ok _ _ _ H3) Hset)
    as (H4 & Hs4 & Hr4 & Hl4 & _).
  destruct (insert_receipt (log_db c4) scope key _) as [db5|] eqn:Hrec; [|done].
  destruct (receipt_step (dispatch_row (eq (scope, key))) _ _ _ _ _ (ls_ok _ _ _ (af_log _ _ _ H4)) Hrec)
    as (Hs5 & _ & _ & Hnone & Hr5).
  pose proof (log_only_step _ c4 db5 (af_ok _ _ _ H4) Hs5) as H5.
  set (c6 := (update_status (c4 <| log_db := db5 |>) _ "applied").1) in Hw.
  assert (advance_for (eq (scope, key)) (c4 <| log_db := db5 |>) c6) as H6
    by (apply update_status_step; [by destruct Hs5|by destruct H5]).
  destruct (insert_claims _ _ _ _ _ _) as [c7|] eqn:Hcl; [|done]. apply ok_pair_inj in Hw as [-> ->].
  destruct (insert_claims_step (eq (scope, key)) _ _ _ _ c6 c7 (ls_ok _ _ _ (af_log _ _ _ H6)) (af_ok _ _ _ H6) Hcl)
    as (H7 & Hr7 & Hs7 & _).
  pose proof (advance_for_trans _ _ _ _ H5 (advance_for_trans _ _ _ _ H6 H7)) as H57.
  pose proof (advance_for_trans _ _ _ _ H4 H57) as H47. pose proof (advance_for_trans _ _ _ _ H3 H47) as H37.
  split_and!; [|..|done|].
  - eapply advance_for_trans; [exact H1|]. by eapply advance_for_trans.
  - eexists. eapply lookup_weaken; [|exact (ls_receipts _ _ _ (af_log _ _ _ (advance_for_trans _ _ _ _ H6 H7)))].
    simpl. rewrite Hr5. apply lookup_insert_eq.
  - by rewrite <- Hnone, Hl4, Hr3, Hr2.
  - split; simpl.
    + exists (ats ++ new). split; [eapply refs_are_eq; [|exact Hrefs3]; by rewrite Hr7|].
      apply Forall2_app; [eapply Forall2_impl; [exact Hats|]|eapply Forall2_impl; [exact Hnew|]]; intros f a.
      * by apply (fact_at_later (eq (scope, key))); [apply (ls_ok _ _ _ (af_log _ _ _ H2))|].
      * by apply (fact_at_later (eq (scope, key))); [apply (ls_ok _ _ _ (af_log _ _ _ H3))|].
    + rewrite Hs7. simpl. rewrite Hs4, length_app. do 2 f_equal. lia.
Qed.

(** An operation that succeeded advanced the database by the keys it gave receipts to. *)
Lemma advance_by c c' scope key :
  command_receipts (log_db c) !! (scope, key) = None → is_Some (command_receipts (log_db c') !! (scope, key)) →
  advance_for (eq (scope, key)) c c' → advance c c'.
Proof. intros Hn Hs Ha. exists (eq (scope, key)). split; [done|]. by intros k <-. Qed.

Lemma only_commands_log c c' : only_commands c c' → log_db c' = log_db c.
Proof. unfold only_commands. intros Ho. by destruct c, c'; simplify_eq/=. Qed.

Lemma only_commands_trans c1 c2 c3 : only_commands c1 c2 → only_commands c2 c3 → only_commands c1 c3.
Proof. unfold only_commands. intros H1 H2. destruct c1, c2, c3; simplify_eq/=. done. Qed.

(** What an admission of record facts does when it succeeds. *)
Lemma facts_admitted c scope key snapshot facts chained claims expected c' m :
  inv c → Forall (λ f, fact_kind_ok (fact_kind f)) facts → chained_ok chained →
  admit_record_facts_internal codec claim_json c scope key snapshot facts chained claims expected = (c', Ok m) →
  advance c c' ∧ is_Some (command_receipts (log_db c') !! (scope, key))
  ∧ (∃ r, command_by_key c' scope key = Some r ∧ snapshot_json r = snapshot
       ∧ (command_by_key c scope key = None → command_id r = command_name "record-command" scope key))
  ∧ if record_replayed m then is_Some (command_receipts (log_db c) !! (scope, key)) ∧ only_commands c c'
    else command_receipts (log_db c) !! (scope, key) = None
      ∧ provenance c' scope key (facts ++ chained_fact chained (chained_payload m)).
Proof.
  intros Hinv Hk Hc Hop. unfold admit_record_facts_internal in Hop.
  destruct (invalid_claims key claims); [done|]. destruct (encode_facts codec facts) as [stored|] eqn:He; [|done].
  cbv zeta in Hop. set (row := mkCommandRecord _ scope key "received" snapshot) in Hop.
  pose proof Hinv as [Hsys Hok _ _]. set (c1 := (insert_or_ignore c row).1) in Hop.
  assert (∀ P, advance_for P c c1) as H1 by (intros; by apply insert_or_ignore_step).
  destruct (insert_or_ignore_kept c row Hok) as (Hok1 & _ & Ho1). fold c1 in Hok1, Ho1.
  pose proof (only_commands_log _ _ Ho1) as Hl1.
  destruct (command_by_key c1 scope key) as [record|] eqn:Hrow; [|done]. cbn [ok_or] in Hop.
  destruct (refuse_if _ _) as [[]|] eqn:Hsnap; [|done].
  apply refuse_if_ok, negb_false_iff, String.eqb_eq in Hsnap.
  assert (command_by_key c scope key = None → command_id record = command_name "record-command" scope key) as Hid.
  { intros Hnone. by rewrite (inserted_row c row record Hrow Hnone). }
  destruct (try_each _ _); [|done].
  assert (∀ c2, commands_ok c2 → rows_kept c1 c2 → ∃ r, command_by_key c2 scope key = Some r ∧ snapshot_json r = snapshot
    ∧ (command_by_key c scope key = None → command_id r = command_name "record-command" scope key)) as Hkeep.
  { intros c2 Hok2 Hkept. destruct (rows_kept_by_key c1 c2 scope key record Hok2 Hkept Hrow) as (r & Hr & Hidr).
    exists r. unfold identity in Hidr. split_and!; [done|congruence|]. intros Hnone. rewrite <- Hid by done. congruence. }
  destruct (receipted c1 scope key) eqn:Hrep; cbn [transaction] in Hop.
  - apply pair_equal_spec in Hop as [<- Hm]. injection Hm as <-. simpl.
    destruct (update_status_kept c1 (has_id (command_id record)) "applied" Hok1) as (Hok2 & Hkept2 & Ho2).
    assert (is_Some (command_receipts (log_db c) !! (scope, key))) as Hsome
      by (rewrite <- Hl1; unfold receipted in Hrep; by apply bool_decide_eq_true in Hrep).
    split_and!; [|by rewrite Hl1|by apply Hkeep|done|by eapply only_commands_trans].
    apply advance_quiet. eapply advance_for_trans; [apply H1|]. apply update_status_step; [|done]. by rewrite Hl1.
  - destruct (refuse_if _ _) as [[]|]; [|done].
    destruct (match expected with Some _ => _ | None => _ end) as [[]|]; [|done].
    destruct (write_facts _ _ _ _ _ _ _ _ _) as [[c3 m3]|] eqn:Hw; [|done].
    assert (c3 = c' ∧ m3 = m) as [-> ->] by (simpl in Hop; split; congruence).
    apply receipted_spec in Hrep. rewrite Hl1 in Hrep.
    destruct (write_facts_spec c1 scope key record facts stored chained claims c' m Hk He Hc) as (H3 & Hs3 & Hn3 & Hm3 & Hp3);
      [by rewrite Hl1|done| |done|].
    { eapply refs_are_eq; [|by apply no_refs]. unfold only_commands in Ho1. by destruct c, c1; simplify_eq/=. }
    rewrite Hm3. split_and!; [|done| |done|done].
    + eapply advance_by; [done|done|]. eapply advance_for_trans; [apply H1|done].
    + apply Hkeep; [by destruct H3|by destruct H3].
Qed.

(** ** Reading facts back *)

Definition numbered (ats : list (string * Z)) : list (Z * (string * Z)) := imap (λ i a, (Z.of_nat i, a)) ats.

Lemma numbered_sorted ats : StronglySorted index_le (numbered ats) ∧ NoDup (numbered ats).
Proof.
  unfold numbered. assert (∀ k, let l := imap (λ i (a : string * Z), (Z.of_nat (k + i), a)) ats in
    StronglySorted index_le l ∧ NoDup l) as Hk; [|by apply (Hk 0)].
  induction ats as [|a ats IH]; intros k l; [by split; constructor|]. subst l. rewrite imap_cons.
  assert (imap ((λ i b, (Z.of_nat (k + i), b)) ∘ S) ats = imap (λ i b, (Z.of_nat (S k + i), b)) ats) as ->.
  { apply imap_ext. intros i x _. simpl. do 2 f_equal. lia. }
  destruct (IH (S k)) as [Hs Hn]. split; constructor; try done.
  - apply Forall_forall. intros [z b] (i & y & [= -> ->] & _)%elem_of_lookup_imap. unfold index_le. simpl. lia.
  - intros (i & y & [= Heq] & _)%elem_of_lookup_imap. lia.
Qed.

Lemma fact_refs_of_spec c scope key ats : refs_are c scope key ats → fact_refs_of c scope key = numbered ats.
Proof.
  intros Hrefs. unfold fact_refs_of. set (pick := λ x : string * string * Z * (string * Z), _).
  set (l := omap pick _). destruct (numbered_sorted ats) as [Hsorted Hnd].
  assert (∀ x b, pick x = Some b ↔ x = (scope, key, b.1, b.2)) as Hpick.
  { intros [[[s k] i] a] [j b]. subst pick. simpl. split.
    - destruct (String.eqb_spec s scope) as [->|]; [|done]. destruct (String.eqb_spec k key) as [->|]; [|done].
      by intros [= -> ->].
    - intros [= -> -> -> ->]. by rewrite !String.eqb_refl. }
  assert (l ≡ₚ numbered ats) as Hperm.
  { apply NoDup_Permutation; [|done|].
    - apply NoDup_omap_inj; [|apply NoDup_map_to_list]. intros x y b Hx%Hpick Hy%Hpick. congruence.
    - intros [i a]. subst l. rewrite list_elem_of_omap. unfold numbered. rewrite elem_of_lookup_imap. split.
      + intros (x & Hx & ->%Hpick). apply elem_of_map_to_list in Hx. simpl in Hx. apply Hrefs in Hx as [Hi Ha].
        exists (Z.to_nat i), a. split; [f_equal; lia|done].
      + intros (j & b & [= -> ->] & Hj). exists (scope, key, Z.of_nat j, b). split; [|by apply Hpick].
        apply elem_of_map_to_list, Hrefs. by rewrite Nat2Z.id; split; [lia|]. }
  apply (StronglySorted_unique_strong index_le); [| |done|].
  - intros [i a] [j b] Hx Hy Hij Hji. rewrite merge_sort_Permutation, Hperm in Hx. unfold index_le in *. simpl in *.
    assert (i = j) as -> by lia. unfold numbered in *. rewrite elem_of_lookup_imap in Hx, Hy.
    destruct Hx as (n & x & [= -> ->] & Hn), Hy as (n' & y & [= Heq ->] & Hn'). assert (n = n') as -> by lia. congruence.
  - apply StronglySorted_merge_sort; intros x y; unfold index_le; [intros z|]; lia.
  - by rewrite merge_sort_Permutation.
Qed.

Lemma read_facts_numbered c facts ats k :
  Forall2 (fact_at c) facts ats →
  read_facts codec c (Z.of_nat k) (imap (λ i a, (Z.of_nat (k + i), a)) ats) = Ok facts.
Proof.
  intros Hf. revert k. induction Hf as [|f [s p] facts ats (Hs & r & Hr & Hkind & Hd) _ IH]; intros k; [done|].
  rewrite imap_cons. cbn [read_facts]. rewrite bool_decide_eq_false_2 by lia. simpl in *. rewrite Hr, Hd.
  replace (Z.of_nat k + 1)%Z with (Z.of_nat (S k)) by lia.
  rewrite (imap_ext _ (λ i a, (Z.of_nat (S k + i), a))); [rewrite IH; subst s; rewrite Hkind; by destruct f|].
  intros i x _. simpl. do 2 f_equal. lia.
Qed.

(** Facts with their provenance are read back as they were admitted. *)
Lemma provenance_reads c scope key facts r :
  provenance c scope key facts → is_Some (command_receipts (log_db c) !! (scope, key)) →
  command_by_key c scope key = Some r → command_id r = command_name "record-command" scope key →
  committed_record_facts codec c scope key = Ok (Some facts).
Proof.
  intros [(ats & Hrefs & Hats) Hset] Hsome Hrow Hid. unfold committed_record_facts, committed_record_snapshot, validate_snapshot.
  unfold receipted. rewrite bool_decide_eq_true_2 by done. rewrite Hrow. simpl. rewrite Hid.
  rewrite bool_decide_eq_false_2 by (intros Hne; by apply Hne). simpl. rewrite Hset.
  rewrite (fact_refs_of_spec c scope key ats Hrefs).
  pose proof (read_facts_numbered c facts ats 0 Hats) as Hread. simpl in Hread. change (Z.of_nat 0) with 0%Z in Hread. unfold numbered. rewrite Hread.
  by rewrite bool_decide_eq_false_2 by (intros Hne; by apply Hne).
Qed.

(** A receipted key keeps its provenance in every later database. *)
Lemma provenance_later c c' scope key facts :
  inv c → advance c c' → is_Some (command_receipts (log_db c) !! (scope, key)) →
  provenance c scope key facts → provenance c' scope key facts.
Proof.
  intros Hinv (P & Ha & HP) [v Hv] [(ats & Hrefs & Hats) Hset]. pose proof Ha as [_ _ _ Hsets Hsub Hnew]. split.
  - exists ats. split.
    + intros i a. rewrite <- (Hrefs i a). split; [|intros ?; by eapply lookup_weaken]. intros Hi.
      destruct (Hnew scope key i) as [[a' Ha']|Hp]; [by eexists| |].
      * rewrite (lookup_weaken _ _ _ _ Ha' Hsub) in Hi. congruence.
      * destruct (HP _ Hp) as [Hn _]. congruence.
    + eapply Forall2_impl; [exact Hats|]. intros f a. apply (fact_at_later P); [by destruct Hinv|done].
  - by eapply lookup_weaken.
Qed.

(** ** The outbox *)

Definition outbox (c : Cdb) (scope : string) : list EventRow :=
  filter (λ r, row_kind r = DISPATCH_KIND) (scope_rows (log_db c) scope).

Definition intent_of (scope : string) (r : EventRow) : option DispatchIntent :=
  decode_row codec scope r ≫= from_json intent_json.

Definition intents (c : Cdb) (scope : string) : list DispatchIntent := omap (intent_of scope) (outbox c scope).

(** There is one intent with the command's id, and it is this one. *)
Definition sole_intent (c : Cdb) (scope : string) (intent : DispatchIntent) : Prop :=
  filter (λ i, intent_command_id i = intent_command_id intent) (intents c scope) = [intent].

Lemma dispatch_row_intent P scope r :
  row_scope r = scope → dispatch_row P r →
  ∃ key intent, intent_of scope r = Some intent ∧ intent_command_id intent = command_name "command" scope key ∧ P (scope, key).
Proof.
  intros <- (key & intent & plain & Hd & Hp & Hid & HP). exists key, intent. unfold intent_of. by rewrite Hd.
Qed.

Lemma outbox_elem c scope r : r ∈ outbox c scope → r ∈ events (log_db c) ∧ row_scope r = scope ∧ row_kind r = DISPATCH_KIND.
Proof. intros [Hk [Hs Hr]%list_elem_of_filter]%list_elem_of_filter. done. Qed.

Lemma intents_keys c scope intent :
  inv c → intent ∈ intents c scope → ∃ key, intent_command_id intent = command_name "command" scope key
    ∧ is_Some (command_receipts (log_db c) !! (scope, key)).
Proof.
  intros [_ _ Hout _] (r & (Hr & Hs & Hk)%outbox_elem & Hi)%list_elem_of_omap.
  destruct (dispatch_row_intent _ scope r Hs (Hout r Hr Hk)) as (key & intent' & Hi' & Hid & Hrec).
  exists key. assert (intent' = intent) as -> by congruence. done.
Qed.

Lemma intents_later P c c' scope :
  advance_for P c c' → ∃ new, intents c' scope = intents c scope ++ new
    ∧ ∀ i, i ∈ new → ∃ key, intent_command_id i = command_name "command" scope key ∧ P (scope, key).
Proof.
  intros [[_ (new & He & Hnew) _] _ _ _ _ _].
  exists (omap (intent_of scope) (filter (λ r, row_kind r = DISPATCH_KIND) (filter (λ r, row_scope r = scope) new))). split.
  - unfold intents, outbox, scope_rows. rewrite He, !filter_app. apply omap_app.
  - intros i (r & [Hk [Hs Hr]%list_elem_of_filter]%list_elem_of_filter & Hi)%list_elem_of_omap.
    destruct (dispatch_row_intent P scope r Hs (Hnew r Hr Hk)) as (key & i' & Hi' & Hid & HP).
    exists key. assert (i' = i) as -> by congruence. done.
Qed.

Lemma intents_quiet c c' scope : advance_for (λ _, False) c c' → intents c' scope = intents c scope.
Proof.
  intros Ha. destruct (intents_later _ _ _ scope Ha) as ([|x new] & -> & Hnew); [apply app_nil_r|].
  destruct (Hnew x) as (? & _ & []). by left.
Qed.

Lemma intents_events c c' scope : events (log_db c') = events (log_db c) → intents c' scope = intents c scope.
Proof. intros He. unfold intents, outbox, scope_rows. by rewrite He. Qed.

Lemma intents_pushed c scope r intent :
  row_scope r = scope → row_kind r = DISPATCH_KIND → intent_of scope r = Some intent →
  intents (c <| log_db := pushed (log_db c) r |>) scope = intents c scope ++ [intent].
Proof.
  intros Hs Hk Hi. unfold intents, outbox, scope_rows. simpl.
  rewrite !filter_app, omap_app, filter_cons, filter_nil, decide_True, filter_cons, filter_nil, decide_True by done.
  simpl. by rewrite Hi.
Qed.

(** The first intent of a command without a receipt is the only one. *)
Lemma first_intent c c' scope key intent :
  inv c → intent_command_id intent = command_name "command" scope key →
  command_receipts (log_db c) !! (scope, key) = None →
  intents c' scope = intents c scope ++ [intent] → sole_intent c' scope intent.
Proof.
  intros Hinv Hid Hnone Hi. unfold sole_intent. rewrite Hi, filter_app, filter_keeps_none.
  - by rewrite filter_cons, filter_nil, decide_True.
  - intros i Hin Heq. destruct (intents_keys c scope i Hinv Hin) as (key' & Hid' & v & Hv).
    rewrite Hid, Hid' in Heq. apply command_name_inj in Heq as [_ ->]. congruence.
Qed.

(** The intent of a receipted command stays the only one. *)
Lemma sole_intent_later c c' scope key intent :
  advance c c' → intent_command_id intent = command_name "command" scope key →
  is_Some (command_receipts (log_db c) !! (scope, key)) → sole_intent c scope intent → sole_intent c' scope intent.
Proof.
  intros (P & Ha & HP) Hid [v Hv] Hsole. destruct (intents_later P c c' scope Ha) as (new & Hi & Hnew).
  unfold sole_intent in *. rewrite Hi, filter_app, Hsole, filter_keeps_none; [done|].
  intros i Hin Heq. destruct (Hnew i Hin) as (key' & Hid' & Hp). rewrite Hid, Hid' in Heq.
  apply command_name_inj in Heq as [_ ->]. destruct (HP _ Hp) as [Hn _]. congruence.
Qed.

(** The intents of a scope are read back whole. *)
Lemma retained_rows_open scope selected rows :
  (∀ r, r ∈ rows → is_Some (decode_row codec scope r)) →
  retained_rows codec scope selected rows
  = Ok (omap (decode_row codec scope) (filter (λ r, row_kind r = selected) rows)).
Proof.
  induction rows as [|r rows IH]; intros Hopen; [done|]. cbn [retained_rows].
  destruct (Hopen r) as [plain Hp]; [by left|]. rewrite Hp, IH by (intros x Hx; apply Hopen; by right).
  rewrite filter_cons. destruct (String.eqb_spec (row_kind r) selected); [rewrite decide_True by done|rewrite decide_False by done]; simpl; by rewrite ?Hp.
Qed.

Lemma count_intents_spec intent plains found :
  Forall2 (λ plain i, from_json intent_json plain = Some i) plains found →
  (∀ i, i ∈ found → intent_command_id i = intent_command_id intent → i = intent) →
  count_intents intent_json intent plains
  = Ok (length (filter (λ i, intent_command_id i = intent_command_id intent) found)).
Proof.
  induction 1 as [|plain i plains found Hp _ IH]; intros Heq; [done|]. cbn [count_intents]. rewrite Hp. cbn [ok_or].
  rewrite filter_cons. destruct (String.eqb_spec (intent_command_id i) (intent_command_id intent)) as [Hid|Hid].
  - rewrite decide_True by done. rewrite bool_decide_eq_false_2; [|intros Hne; apply Hne, Heq; [by left|done]].
    by rewrite IH by (intros x Hx; apply Heq; by right).
  - rewrite decide_False by done. apply IH. intros x Hx. apply Heq. by right.
Qed.

Lemma matching_sole (i : I) c scope intent :
  inv c → sole_intent c scope intent → matching_intents codec intent_json c scope intent = Ok 1.
Proof.
  intros Hinv Hsole. pose proof Hinv as [[Hok Hall] _ Hout _]. destruct (Hall i scope) as (log & s & _ & [Hopen _ _]).
  unfold matching_intents, retained_kind_payloads. rewrite select_scope_dense, (retained_rows_open _ _ _ Hopen) by done.
  fold (outbox c scope). rewrite (count_intents_spec _ _ (intents c scope)).
  - unfold sole_intent in Hsole. by rewrite Hsole.
  - unfold intents. assert (∀ r, r ∈ outbox c scope → is_Some (intent_of scope r)) as Hi.
    { intros r (Hr & Hs & Hk)%outbox_elem.
      destruct (dispatch_row_intent _ scope r Hs (Hout r Hr Hk)) as (key & intent' & Hi' & _). by eexists. }
    induction (outbox c scope) as [|r rows IH]; simpl; [constructor|].
    destruct (Hi r) as [x Hx]; [by left|]. pose proof Hx as Hx2. unfold intent_of in Hx2.
    destruct (decode_row codec scope r) as [plain|] eqn:Hd; [|done]. simpl in Hx2. rewrite Hx.
    constructor; [done|]. apply IH. intros r' Hr'. apply Hi. by right.
  - intros x Hx Hid. assert (x ∈ [intent]) as ->%list_elem_of_singleton; [|done].
    unfold sole_intent in Hsole. rewrite <- Hsole. by apply list_elem_of_filter.
Qed.

(** ** Dispatch *)

Notation fold_c i c scope := (fold_i codec anchor reducer_build host i (log_db c) scope).

(** A state read from a scope is one its history reaches. *)
Lemma folded i c scope s :
  system_ok (log_db c) → fold_c i c scope = Ok s →
  ∃ log, holds i (log_db c) scope log ∧ trace (lifecycle (host i)) log s.
Proof.
  intros [Hok Hall] Hs. destruct (Hall i scope) as (log & t & Ht & Hh). exists log. split; [done|].
  assert (fold_c i c scope = Ok t) by (by eapply holds_fold). by assert (t = s) as <- by congruence.
Qed.

Lemma decide_in_ok L s cmd es : decide_in L s cmd = Ok es → lc_decide L s cmd = Ok es.
Proof. unfold decide_in. by destruct (lc_decide L s cmd); [intros [= ->]|]. Qed.

(** What the first admission of a dispatch writes: the command's events, then its intent. *)
Lemma write_dispatch_spec i c (p : PreparedDispatch (lifecycle (host i))) s c' s' :
  inv c → fold_c i c (pd_scope p) = Ok s →
  intent_command_id (pd_intent p) = command_name "command" (pd_scope p) (pd_key p) →
  write_dispatch codec anchor reducer_build intent_json (lifecycle (host i)) (h_json (host i)) c p s = Ok (c', s') →
  advance_for (eq (pd_scope p, pd_key p)) c c' ∧ command_receipts (log_db c) !! (pd_scope p, pd_key p) = None
  ∧ is_Some (command_receipts (log_db c') !! (pd_scope p, pd_key p)) ∧ commands c' = commands c
  ∧ sole_intent c' (pd_scope p) (pd_intent p) ∧ fold_c i c' (pd_scope p) = Ok s'
  ∧ ∃ es, apply (lifecycle (host i)) s (pd_command p) = Applied es s'.
Proof.
  intros Hinv Hs Hid Hw. pose proof Hinv as [Hsys Hok _ _]. unfold write_dispatch in Hw. cbv zeta in Hw.
  set (scope := pd_scope p) in *. set (key := pd_key p) in *.
  destruct (folded i c scope s Hsys Hs) as (log & Hh & Ht).
  destruct (decide_in _ s _) as [es|] eqn:Hd; [|done]. apply decide_in_ok in Hd.
  destruct (append_events _ _ _ _ _ _ _ _) as [[db1 s1]|] eqn:Happ; [|done]. cbn [fst snd] in Hw.
  destruct (append_events_inv _ _ _ _ _ _ _ _ _ Happ) as [Hev _].
  destruct (events_step (dispatch_row (eq (scope, key))) i _ scope log s _ es db1 s1 (λ H, Hdispatch i (eq_sym H)) Hsys Hh Ht Hd Happ)
    as (Hs1 & Hh1 & Ht1 & Hr1 & Hnext).
  destruct (to_json intent_json (pd_intent p)) as [plain|] eqn:Hj; [|done]. cbn [ok_or] in Hw.
  destruct (encode_payload codec scope DISPATCH_KIND plain) as [payload|] eqn:He; [|done]. rewrite <- Hnext in Hw.
  set (r := mkEventRow scope (next_position db1 scope) DISPATCH_KIND payload) in Hw.
  destruct (insert_event db1 r) as [db2|] eqn:Hins; [|done].
  assert (intent_of scope r = Some (pd_intent p)) as Hint.
  { unfold intent_of. subst r. erewrite encode_decode by done. simpl. by apply json_roundtrip. }
  assert (dispatch_row (eq (scope, key)) r) as Hrow.
  { exists key, (pd_intent p), plain. split_and!; [by apply encode_decode|by apply json_roundtrip|done|done]. }
  destruct (record_step (dispatch_row (eq (scope, key))) db1 scope _ plain payload db2 (ls_ok _ _ _ Hs1) Hdispatch He (λ _, Hrow) Hins)
    as (Hs2 & Hr2 & Hdb2). fold r in Hdb2.
  assert (holds i db2 scope (log ++ es)) as Hh2.
  { rewrite Hdb2. destruct (ls_ok _ _ _ Hs1) as [Hok1 _]. by eapply record_holds. }
  destruct (insert_receipt db2 scope key _) as [db3|] eqn:Hrec; [|done].
  destruct (receipt_step (dispatch_row (eq (scope, key))) db2 scope key _ db3 (ls_ok _ _ _ Hs2) Hrec) as (Hs3 & He3 & Hsn3 & Hn3 & Hr3).
  pose proof (same_log_holds db2 db3 i scope _ He3 Hsn3 Hh2) as Hh3.
  destruct (checkpoint _ _ _ _ db3 scope s1) as [db4|] eqn:Hcp; [|done]. apply ok_pair_inj in Hw as [-> ->].
  destruct (checkpoint_step (dispatch_row (eq (scope, key))) i db3 scope _ s1 db4 (ls_ok _ _ _ Hs3) Hh3 Ht1 Hcp)
    as (Hs4 & He4 & Hr4 & Hh4).
  split_and!; [|..|done| | |].
  - apply log_only_step; [done|]. by do 3 (eapply log_step_trans; [eassumption|]).
  - by rewrite <- Hr1, <- Hr2.
  - simpl. rewrite Hr4, Hr3, lookup_insert_eq. by eexists.
  - eapply first_intent; [exact Hinv|done|by rewrite <- Hr1, <- Hr2|].
    rewrite (intents_events (c <| log_db := db2 |>)) by (simpl; congruence). rewrite Hdb2.
    pose proof (intents_pushed (c <| log_db := db1 |>) scope r _ eq_refl eq_refl Hint) as Hp. simpl in Hp |- *.
    rewrite Hp. f_equal. apply intents_quiet. apply log_only_step; [done|].
    by edestruct (events_step (dispatch_row (λ _, False)) i _ scope log s _ es db1 s1 (λ H, Hdispatch i (eq_sym H)) Hsys Hh Ht Hd Happ).
  - eapply holds_fold; [|exact Hh4|exact Ht1]. by destruct (ls_ok _ _ _ Hs4).
  - exists es. unfold apply. by rewrite Hd, Hev.
Qed.

Lemma prepared_spec L (of_snapshot : Json (DispatchSnapshot (lc_command L))) scope key cmd dispatch p :
  prepare_dispatch L of_snapshot scope key cmd dispatch = Ok p →
  pd_scope p = scope ∧ pd_key p = key ∧ pd_command p = cmd ∧ pd_id p = command_name "command" scope key
  ∧ pd_intent p = mkIntent (command_name "command" scope key) dispatch
  ∧ to_json of_snapshot (mkSnapshot (KIND L) cmd dispatch) = Some (pd_snapshot p)
  ∧ blank scope = false ∧ blank key = false ∧ blank (runtime_ref dispatch) = false ∧ blank (command_ref dispatch) = false.
Proof.
  unfold prepare_dispatch. destruct (existsb blank _) eqn:Hb; [done|]. simpl in Hb. rewrite !orb_false_iff in Hb.
  destruct Hb as (? & ? & ? & ? & _). simpl. destruct (String.eqb _ _); [done|].
  destruct (to_json of_snapshot _) as [snapshot|]; [|done]. simpl. intros [= <-]. by split_and!.
Qed.

(** What a dispatch does when it succeeds: a first one writes, a later one reads. *)
Lemma dispatched i c (p : PreparedDispatch (lifecycle (host i))) final c' m :
  inv c → intent_command_id (pd_intent p) = command_name "command" (pd_scope p) (pd_key p) →
  commit_dispatch codec anchor reducer_build intent_json (lifecycle (host i)) (h_json (host i)) c p final = (c', Ok m) →
  advance c c' ∧ final = Ok () ∧ is_Some (command_receipts (log_db c') !! (pd_scope p, pd_key p))
  ∧ fold_c i c' (pd_scope p) = Ok (state m)
  ∧ (∃ r, command_by_key c' (pd_scope p) (pd_key p) = Some r ∧ snapshot_json r = pd_snapshot p
       ∧ (command_by_key c (pd_scope p) (pd_key p) = None → command_id r = pd_id p)
       ∧ ∀ r0, command_by_key c (pd_scope p) (pd_key p) = Some r0 → command_id r = command_id r0)
  ∧ if replayed m then only_commands c c'
    else command_receipts (log_db c) !! (pd_scope p, pd_key p) = None ∧ sole_intent c' (pd_scope p) (pd_intent p)
      ∧ ∃ s es, fold_c i c (pd_scope p) = Ok s ∧ apply (lifecycle (host i)) s (pd_command p) = Applied es (state m).
Proof.
  intros Hinv Hid Hop. unfold commit_dispatch in Hop. cbv zeta in Hop.
  set (scope := pd_scope p) in *. set (key := pd_key p) in *. set (row := mkCommandRecord _ scope key "received" _) in Hop.
  pose proof Hinv as [Hsys Hok _ _].
  destruct (insert_or_ignore_kept c row Hok) as (Hok1 & Hkept1 & Ho1). cbv zeta in Hok1, Hkept1, Ho1.
  pose proof (λ P, insert_or_ignore_step P c row Hsys Hok) as H1. pose proof (inserted_row c row) as Hnew.
  destruct (insert_or_ignore c row) as [c1 n] eqn:Hins. cbn [fst] in *. pose proof (only_commands_log _ _ Ho1) as Hl1.
  assert (inv c1) as Hinv1 by (eapply advance_inv; [exact Hinv|by apply advance_quiet]).
  destruct (command_by_key c1 scope key) as [original|] eqn:Hrow; [|done]. cbn [ok_or] in Hop.
  destruct (refuse_if _ _) as [[]|] eqn:Hsnap; [|done]. apply refuse_if_ok, negb_false_iff, String.eqb_eq in Hsnap.
  assert (∀ c2, commands_ok c2 → rows_kept c1 c2 → ∃ r, command_by_key c2 scope key = Some r ∧ snapshot_json r = pd_snapshot p
    ∧ (command_by_key c scope key = None → command_id r = pd_id p)
    ∧ ∀ r0, command_by_key c scope key = Some r0 → command_id r = command_id r0) as Hkeep.
  { intros c2 Hok2 Hkept. destruct (rows_kept_by_key c1 c2 scope key original Hok2 Hkept Hrow) as (r & Hr & Hidr).
    exists r. unfold identity in Hidr. split_and!; [done|congruence| |].
    - intros Hnone. pose proof (Hnew original Hrow Hnone) as ->. subst row. simpl in Hidr. congruence.
    - intros r0 Hr0. destruct (rows_kept_by_key c c1 scope key r0 Hok1 Hkept1 Hr0) as (r' & Hr' & Hidr').
      unfold identity in Hidr'. congruence. }
  destruct (receipted c1 scope key) eqn:Hrep.
  - apply bool_decide_eq_true in Hrep. cbn [negb andb] in Hop. destruct (matching_intents _ _ _ _ _) as [k|]; [|done].
    destruct (refuse_if _ _) as [[]|]; [|done]. change (refuse_if false _) with (@Ok failure unit ()) in Hop. cbv iota in Hop.
    destruct (fold_retained _ _ _ _ _ _ _) as [s|] eqn:Hs; [|done]. destruct final as [[]|]; [|done].
    cbn [transaction fst snd] in Hop. apply pair_equal_spec in Hop as [<- Hm]. injection Hm as <-. cbn [state replayed].
    destruct (update_status_kept c1 (same_key scope key) "applied" Hok1) as (Hok2 & Hkept2 & Ho2).
    split_and!; [|done|done|done|by apply Hkeep|by eapply only_commands_trans].
    apply advance_quiet. eapply advance_for_trans; [apply H1|]. apply update_status_step; [by rewrite Hl1|done].
  - apply receipted_spec in Hrep. cbn [negb andb] in Hop. destruct (refuse_if _ _) as [[]|]; [|done].
    destruct (fold_retained _ _ _ _ _ _ _) as [s|] eqn:Hs; [|done].
    destruct (write_dispatch _ _ _ _ _ _ _ _ _) as [[c2 s2]|] eqn:Hw; [|done]. destruct final as [[]|]; [|done].
    cbn [transaction fst snd] in Hop. apply pair_equal_spec in Hop as [<- Hm]. injection Hm as <-. cbn [state replayed].
    destruct (write_dispatch_spec i c1 p s c2 s2 Hinv1 Hs Hid Hw) as (H2 & Hn & Hsome & Hc2 & Hsole & Hf & es & Ha).
    pose proof (af_ok _ _ _ H2) as Hok2.
    destruct (update_status_kept c2 (same_key scope key) "applied" Hok2) as (Hok3 & Hkept3 & Ho3).
    split_and!; [|done|done|done|apply Hkeep; [done|etrans; [apply H2|done]]|by rewrite <- Hl1|done|].
    + apply (advance_by _ _ scope key); [by rewrite <- Hl1|done|]. eapply advance_for_trans; [apply H1|].
      eapply advance_for_trans; [apply H2|]. apply update_status_step; [by destruct H2 as [[]]|done].
    + exists s, es. split; [|done]. by rewrite <- Hl1.
Qed.
Context (snapshot_of : ∀ i, Json (DispatchSnapshot (lc_command (lifecycle (host i))))).
Context `{!∀ i, JsonLaws (snapshot_of i)}.

Notation commit_d i c p final :=
  (commit_dispatch codec anchor reducer_build intent_json (lifecycle (host i)) (h_json (host i)) c p final).
Notation committed_d i c scope key :=
  (committed_dispatch codec intent_json (lifecycle (host i)) (snapshot_of i) c scope key).
Notation prepare_d i scope key cmd dispatch :=
  (prepare_dispatch (lifecycle (host i)) (snapshot_of i) scope key cmd dispatch).

(** What a database holds of a dispatched command: its receipt, its original row and its
    one intent. *)
Record holds_dispatch (c : Cdb) i (p : PreparedDispatch (lifecycle (host i))) : Prop := {
  hd_receipt : is_Some (command_receipts (log_db c) !! (pd_scope p, pd_key p));
  hd_intent : sole_intent c (pd_scope p) (pd_intent p);
  hd_row : ∃ r, command_by_key c (pd_scope p) (pd_key p) = Some r ∧ command_id r = pd_id p
             ∧ snapshot_json r = pd_snapshot p;
}.

Lemma holds_dispatch_later c c' i p :
  advance c c' → intent_command_id (pd_intent p) = command_name "command" (pd_scope p) (pd_key p) →
  holds_dispatch c i p → holds_dispatch c' i p.
Proof.
  intros Ha Hid [[v Hv] Hi (r & Hr & Hrid & Hs)]. pose proof Ha as (P & Hf & _). split.
  - exists v. eapply lookup_weaken; [exact Hv|apply (ls_receipts _ _ _ (af_log _ _ _ Hf))].
  - eapply sole_intent_later; [exact Ha|exact Hid|by eexists|done].
  - destruct (rows_kept_by_key c c' _ _ r (af_ok _ _ _ Hf) (af_rows _ _ _ Hf) Hr) as (r' & Hr' & Heq).
    exists r'. unfold identity in Heq. split_and!; [done|congruence..].
Qed.

(** The dispatcher reads the original command back. *)
Lemma dispatch_reads i c scope key cmd dispatch p :
  inv c → prepare_d i scope key cmd dispatch = Ok p → holds_dispatch c i p →
  committed_d i c scope key = Ok (Some (mkCommitted (command_name "command" scope key) cmd dispatch)).
Proof.
  intros Hinv (<- & <- & <- & Hid & Hint & Hsnap & B1 & B2 & B3 & B4)%prepared_spec [Hrec Hsole (r & Hr & Hrid & Hs)].
  unfold committed_dispatch. rewrite B1, B2. simpl. unfold receipted. rewrite bool_decide_eq_true_2 by done. simpl.
  rewrite Hr. simpl. rewrite Hs, (json_roundtrip _ _ Hsnap). simpl. rewrite (proj2 (has_id_spec _ r)) by congruence.
  rewrite String.eqb_refl, B3, B4. simpl.
  assert (mkIntent (command_id r) dispatch = pd_intent p) as -> by (rewrite Hint; congruence).
  rewrite (matching_sole i c (pd_scope p) (pd_intent p) Hinv Hsole). simpl. congruence.
Qed.

Lemma conflicts_key c row r :
  command_by_key c (cmd_scope row) (idempotency_key row) = Some r → insert_or_ignore c row = (c, 0).
Proof.
  intros [Hin Hs]%List.find_some. unfold insert_or_ignore. destruct (conflicts row (commands c)) eqn:Hc; [done|].
  apply conflicts_false in Hc as [_ []]. apply list_elem_of_fmap. exists r. split; [|by apply list_elem_of_In].
  apply same_key_spec in Hs. by rewrite Hs.
Qed.

(** The same dispatch again reads the state and appends nothing. *)
Lemma dispatch_replays i c (p : PreparedDispatch (lifecycle (host i))) final :
  inv c → holds_dispatch c i p →
  ∃ s, fold_c i c (pd_scope p) = Ok s
    ∧ commit_d i c p final
      = match final with
        | Ok _ => ((update_status c (same_key (pd_scope p) (pd_key p)) "applied").1, Ok (mkMaterialized s true))
        | Err e => (c, Err e)
        end.
Proof.
  intros Hinv [Hrec Hsole (r & Hr & Hrid & Hs)]. pose proof Hinv as [[Hok Hall] _ _ _].
  destruct (Hall i (pd_scope p)) as (log & s & Ht & Hh). exists s.
  assert (fold_c i c (pd_scope p) = Ok s) as Hf by (by eapply holds_fold). split; [done|].
  unfold commit_dispatch. rewrite (conflicts_key c (mkCommandRecord (pd_id p) _ _ "received" _) r) by done.
  rewrite Hr. cbn [ok_or]. rewrite Hs, String.eqb_refl. simpl.
  unfold receipted. rewrite bool_decide_eq_true_2 by done.
  rewrite (matching_sole i c (pd_scope p) (pd_intent p) Hinv Hsole). simpl. unfold fold_retained.
  unfold fold_i in Hf. rewrite Hf. simpl. by destruct final as [[]|].
Qed.

(** A key in use refuses another command or dispatch, and nothing changes. *)
Lemma dispatch_refuses i c (p : PreparedDispatch (lifecycle (host i))) r final :
  command_by_key c (pd_scope p) (pd_key p) = Some r → snapshot_json r ≠ pd_snapshot p →
  commit_d i c p final = (c, rejected "idempotency key reused with different command or dispatch").
Proof.
  intros Hr Hs. unfold commit_dispatch. rewrite (conflicts_key c (mkCommandRecord (pd_id p) _ _ "received" _) r) by done.
  rewrite Hr. cbn [ok_or]. by rewrite (proj2 (String.eqb_neq _ _) Hs).
Qed.

(** ** Requests *)

Context (Value : Type) `{!EqDecision Value}.
Context (request_json : Json (RequestSnapshot Value)) `{!JsonLaws request_json}.
Context (command_value : ∀ i, lc_command (lifecycle (host i)) → option Value).
Context {R : Type} (request_value : R → option Value).

Notation commit_r i c scope key protected check0 check1 request authorize materialize :=
  (commit_request codec anchor reducer_build Value request_json (lifecycle (host i)) (h_json (host i))
     (command_value i) request_value c scope key protected check0 check1 request authorize materialize).

(** The row of a request, by what was asked and what it materialized. *)
Definition request_row (c : Cdb) i (scope key : string) (protected : bool) (intent : Value) (cmd : option Value)
    (to : string) : Prop :=
  ∃ r, command_by_key c scope key = Some r ∧ status r = to
    ∧ stored_snapshot codec Value request_json (lifecycle (host i)) scope key protected intent cmd = Ok (snapshot_json r).


Lemma inserted_command c row c' :
  commands_ok c → insert_command c row = Ok c' →
  (∀ P, system_ok (log_db c) → advance_for P c c') ∧ commands_ok c' ∧ log_db c' = log_db c
  ∧ command_by_key c' (cmd_scope row) (idempotency_key row) = Some row.
Proof.
  intros Hok Hins. destruct (insert_command_kept c row c' Hok Hins) as (Hok' & Hkept & Ho).
  split_and!; [intros P Hsys; by apply commands_step|done|by apply only_commands_log|].
  apply command_by_key_Some; [done|]. split; [|done]. unfold insert_command in Hins.
  destruct (conflicts row (commands c)); [done|]. injection Hins as <-. apply elem_of_app. right. by left.
Qed.

(** What a new request does: its command's events and receipt, or its refusal alone. *)
Lemma new_request_spec i c scope key protected intent s materialize check c' res :
  inv c → fold_c i c scope = Ok s →
  new_request codec anchor reducer_build Value request_json (lifecycle (host i)) (h_json (host i)) (command_value i)
    c scope key protected intent s materialize check = Ok (c', res) →
  advance c c' ∧ check = Ok ()
  ∧ match res with
    | Ok m => ∃ cmd v es, materialize s = Ok cmd ∧ command_value i cmd = Some v ∧ replayed m = false
        ∧ apply (lifecycle (host i)) s cmd = Applied es (state m) ∧ fold_c i c' scope = Ok (state m)
        ∧ is_Some (command_receipts (log_db c') !! (scope, key))
        ∧ request_row c' i scope key protected intent (Some v) "applied"
    | Err e => ∃ r v, e = Failed (AE_Rejected r) ∧ log_db c' = log_db c
        ∧ request_row c' i scope key protected intent v "rejected"
        ∧ (materialize s = Err r ∨ ∃ cmd, materialize s = Ok cmd ∧ lc_decide (lifecycle (host i)) s cmd = Err r)
    end.
Proof.
  intros Hinv Hf Hn. pose proof Hinv as [Hsys Hok _ _]. unfold new_request in Hn. cbv zeta in Hn.
  set (decision := match materialize s with Ok _ => _ | Err r => Err r end) in Hn.
  destruct (match materialize s with Ok _ => _ | Err _ => Ok None end) as [v|] eqn:Hv; [|done].
  destruct (stored_snapshot _ _ _ _ _ _ _ _ _) as [snapshot|] eqn:Hsn; [|done].
  set (row := mkCommandRecord _ scope key _ snapshot) in Hn.
  destruct (insert_command c row) as [c1|] eqn:Hins; [|done].
  destruct (inserted_command c row c1 Hok Hins) as (H1 & Hok1 & Hl1 & Hrow). change (cmd_scope row) with scope in Hrow.
  change (idempotency_key row) with key in Hrow.
  assert (inv c1) as Hinv1 by (eapply advance_inv; [exact Hinv|by apply advance_quiet, H1]).
  destruct decision as [es|r] eqn:Hd; subst decision.
  - destruct (materialize s) as [cmd|] eqn:Hm; [|done]. destruct (command_value i cmd) as [w|] eqn:Hw; [|done].
    assert (v = Some w) as -> by (simpl in Hv; congruence).
    destruct (folded i c1 scope s) as (log & Hh & Ht); [by destruct Hinv1|by rewrite <- Hf; rewrite Hl1|].
    destruct (append_events _ _ _ _ _ _ _ _) as [[db2 s2]|] eqn:Happ; [|done]. cbn [fst snd] in Hn.
    destruct (append_events_inv _ _ _ _ _ _ _ _ _ Happ) as [Hev _].
    set (Q := dispatch_row (λ _ : string * string, False)).
    destruct (events_step Q i _ scope log s _ es db2 s2 (λ H, Hdispatch i (eq_sym H)) (inv_log _ Hinv1) Hh Ht Hd Happ)
      as (Hs2 & Hh2 & Ht2 & _).
    destruct (insert_receipt db2 scope key _) as [db3|] eqn:Hrec; [|done].
    destruct (receipt_step Q db2 scope key _ db3 (ls_ok _ _ _ Hs2) Hrec) as (Hs3 & He3 & Hsn3 & _ & Hr3).
    pose proof (same_log_holds db2 db3 i scope _ He3 Hsn3 Hh2) as Hh3.
    destruct (checkpoint _ _ _ _ db3 scope s2) as [db4|] eqn:Hcp; [|done].
    destruct (checkpoint_step Q i db3 scope _ s2 db4 (ls_ok _ _ _ Hs3) Hh3 Ht2 Hcp) as (Hs4 & _ & Hr4 & Hh4).
    destruct check as [[]|]; [|done]. apply ok_pair_inj in Hn as [-> ->]. split_and!; [|done|].
    + apply advance_quiet. eapply advance_for_trans; [by apply H1|]. apply log_only_step; [done|].
      by do 2 (eapply log_step_trans; [eassumption|]).
    + exists cmd, w, es. cbn [state replayed]. split_and!; [done|done|done|unfold apply; by rewrite Hd, Hev|..].
      * eapply holds_fold; [|exact Hh4|exact Ht2]. by destruct (ls_ok _ _ _ Hs4).
      * simpl. rewrite Hr4, Hr3, lookup_insert_eq. by eexists.
      * exists row. done.
  - destruct check as [[]|]; [|done]. apply ok_pair_inj in Hn as [-> ->]. split_and!; [by apply advance_quiet, H1|done|].
    exists r, v. split_and!; [done|done|by exists row|].
    destruct (materialize s) as [cmd|r']; [right; by exists cmd|left; congruence].
Qed.

Lemma request_outcome i c scope key protected check0 check1 request authorize materialize c' res :
  inv c → commit_r i c scope key protected check0 check1 request authorize materialize = (c', res) →
  c' = c ∧ (∀ m, res = Ok m → is_Some (command_by_key c scope key))
  ∨ ∃ intent s, request_value request = Some intent ∧ fold_c i c scope = Ok s ∧ authorize s = Ok ()
      ∧ command_by_key c scope key = None
      ∧ new_request codec anchor reducer_build Value request_json (lifecycle (host i)) (h_json (host i)) (command_value i)
          c scope key protected intent s materialize check1 = Ok (c', res).
Proof.
  intros Hinv Hop. unfold commit_request in Hop.
  destruct (request_value request) as [intent|] eqn:Hi; [|simpl in Hop; left; by simplify_eq]. cbn [ok_or] in Hop.
  destruct check0 as [[]|]; [|simpl in Hop; left; by simplify_eq].
  destruct (if protected && _ then _ else _); [|simpl in Hop; left; by simplify_eq].
  destruct (fold_retained _ _ _ _ _ _ _) as [s|] eqn:Hf; [|simpl in Hop; left; by simplify_eq].
  destruct (authorize s) as [[]|] eqn:Ha; [|simpl in Hop; left; by simplify_eq].
  destruct (command_by_key c scope key) as [r|] eqn:Hr.
  - left. unfold recorded_request in Hop.
    destruct (match protected with true => _ | false => _ end) as [plain|]; [|simpl in Hop; by simplify_eq].
    destruct (from_json request_json plain) as [sn|]; [|simpl in Hop; by simplify_eq]. cbn [ok_or] in Hop.
    destruct (_ || _); [simpl in Hop; by simplify_eq|]. destruct (_ || _); [simpl in Hop; by simplify_eq|].
    destruct (_ && _); [|simpl in Hop; by simplify_eq].
    destruct check1; simpl in Hop; simplify_eq; by (split; [done|]).
  - destruct (refuse_if _ _) as [[]|]; [|simpl in Hop; left; by simplify_eq].
    destruct (new_request _ _ _ _ _ _ _ _ _ _ _ _ _ _ _ _) as [[c2 r2]|] eqn:Hn; simpl in Hop; [|left; by simplify_eq].
    right. assert (c2 = c' ∧ r2 = res) as [-> ->] by (split; congruence). by exists intent, s.
Qed.

Lemma request_advance i c scope key protected check0 check1 request authorize materialize :
  inv c → advance c (commit_r i c scope key protected check0 check1 request authorize materialize).1.
Proof.
  intros Hinv. destruct (commit_r i c _ _ _ _ _ _ _ _) as [c' res] eqn:Hop.
  destruct (request_outcome _ _ _ _ _ _ _ _ _ _ _ _ Hinv Hop) as [[-> _]|(intent & s & _ & Hf & _ & _ & Hn)];
    [by apply advance_refl|]. by destruct (new_request_spec _ _ _ _ _ _ _ _ _ _ _ Hinv Hf Hn).
Qed.


(** ** Operations on the command rows alone *)

Lemma reconcile_loop_kept c rows :
  commands_ok c → let c' := (reconcile_loop c rows).1 in commands_ok c' ∧ rows_kept c c' ∧ only_commands c c'.
Proof.
  revert c. induction rows as [|r rows IH]; intros c Hok; cbv zeta; cbn [reconcile_loop fst].
  { split_and!; [done|done|]. unfold only_commands. by destruct c. }
  destruct (update_status_kept c (has_id (command_id r)) (verdict c r) Hok) as (Hok1 & Hk1 & Ho1).
  destruct (IH _ Hok1) as (Hok2 & Hk2 & Ho2). split_and!; [done|by etrans|by eapply only_commands_trans].
Qed.

Lemma op_kept {Process} (clock : Process → N) c (op : CommandOp) :
  commands_ok c → let c' := apply_op clock c op in commands_ok c' ∧ rows_kept c c' ∧ only_commands c c'.
Proof.
  intros Hok. assert (commands_ok c ∧ rows_kept c c ∧ only_commands c c) as Hrefl.
  { split_and!; [done|done|]. unfold only_commands. by destruct c. }
  destruct op; cbn [apply_op]; cbv zeta.
  - by apply insert_or_ignore_kept.
  - unfold claim_command_with_basis. destruct (check_basis_if _ _ _ _ _); [|done]. destruct (try_each _ _); [|done].
    cbv zeta. set (row := mkCommandRecord _ _ _ _ _). destruct (insert_or_ignore_kept c row Hok) as (Hok1 & Hk1 & Ho1).
    cbv zeta in *. destruct (command_by_key _ scope key) as [record|]; [|done]. cbn [ok_or].
    destruct (_ && _); (destruct (check_basis_if _ _ _ p1 _); [|done]); cbn [transaction fst]; [|done].
    destruct (update_status_kept (insert_or_ignore c row).1 (λ r, has_id (command_id record) r && String.eqb (status r) "received")
      "processing" Hok1) as (? & ? & ?).
    split_and!; [done|by etrans|by eapply only_commands_trans].
  - unfold set_unreceipted_command_failure. destruct (negb _); [done|]. by apply update_status_kept.
  - unfold set_command_status. destruct (_ && _); [done|]. by apply update_status_kept.
  - by apply reconcile_loop_kept.
Qed.

Lemma op_step {Process} (clock : Process → N) P c (op : CommandOp) :
  system_ok (log_db c) → commands_ok c → advance_for P c (apply_op clock c op).
Proof. intros Hsys Hok. destruct (op_kept clock c op Hok) as (? & ? & ?). by apply commands_step. Qed.

(** ** The log's own operations *)

Lemma grows_step P db db' :
  system_ok db → grows codec fact_kind_ok db db' → log_step P db db'.
Proof.
  intros Hsys (new & Hext & Hk & Hsn & Hrec).
  destruct (grows_system_ok codec reducer_build host db db' Hsys) as [Hsys' _].
  { exists new. split_and!; [done| |done|done]. intros r Hr. by destruct (Hk r Hr). }
  split; [done| |done]. exists new. split; [by destruct Hext|]. intros r Hr Hkd. by destruct (Hk r Hr).
Qed.

Lemma admits_step P i op db scope log s command receipts :
  system_ok db → trace (lifecycle (host i)) log s → command_receipts db ⊆ receipts →
  admits codec reducer_build (lifecycle (host i)) (h_json (host i)) op db scope log s command receipts →
  log_step P db op.1.
Proof.
  intros Hsys Ht Hsub Hop. unfold admits in Hop.
  assert (∀ f, op = (db, Err f) → log_step P db op.1) as Herr by (intros f ->; by apply log_step_refl).
  destruct (apply _ s command) as [r|es s'|] eqn:Ha; [by eauto| |done].
  destruct Hop as [Hgood Hbad]. destruct (decide (Forall (encodable codec _ (h_json (host i)) scope) es)) as [Henc|Henc].
  - rewrite Forall_forall in Henc. destruct (Hgood Henc) as (db' & -> & Hrec & Hadm). simpl.
    edestruct (admission_system_ok codec reducer_build host Hkinds i db db') as [Hsys' Hpre]; [done..|].
    destruct Hadm as [(new & Hext & _ & Hnew) _ _]. split; [done| |by rewrite Hrec]. exists new.
    split; [by destruct Hext|]. intros r Hr Hk. destruct (Hnew r Hr) as [_ Hk2].
    destruct (Hdispatch i). congruence.
  - apply not_Forall_Exists, Exists_exists in Henc; [|apply _]. destruct (Hbad Henc) as [f Hf]. eauto.
Qed.

Lemma keyed_step P i db scope key command :
  system_ok db → log_step P db (admit_with_key_i codec anchor reducer_build host i db scope key command).1.
Proof.
  intros Hsys. pose proof Hsys as [Hok Hall]. destruct (Hall i scope) as (log & s & Ht & Hh).
  pose proof (admit_with_key_spec codec anchor reducer_build _ (h_json (host i)) db scope key log s command Hok Hh Ht) as Hop.
  unfold admit_with_key_i. destruct (command_receipts db !! (scope, key)) eqn:Hkey.
  - rewrite Hop. by apply log_step_refl.
  - eapply admits_step; [done|exact Ht| |exact Hop]. by apply insert_subseteq.
Qed.

(** The kinds of the plain records a request appends. *)
Definition request_kinds (request : Request host) : list string :=
  match request with
  | Admit _ _ _ _ | AdmitWithKey _ _ _ _ _ => []
  | AppendRecord _ _ kind _ | AppendRecordWithKey _ _ _ kind _ | AppendChainedRecord _ _ kind _ => [kind]
  | AppendRecordsAtomically _ records => (λ x, x.1.2) <$> records
  | AppendLinkedRecord _ _ kind _ _ kind' _ => [kind; kind']
  end.

Lemma serve_step P db request :
  system_ok db → Forall fact_kind_ok (request_kinds request) →
  log_step P db (serve codec anchor reducer_build host db request).
Proof.
  intros Hsys Hk. pose proof Hsys as [Hok Hall]. destruct request; simpl in *; rewrite ?Forall_cons in Hk.
  - destruct (Hall i scope) as (log & s & Ht & Hh). eapply admits_step; [done|exact Ht|reflexivity|].
    apply (admit_spec codec anchor reducer_build _ (h_json (host i)) db scope log s command Hok Hh Ht).
  - by apply keyed_step.
  - apply grows_step; [done|]. apply append_record_grows; try apply _; [done|naive_solver].
  - apply grows_step; [done|]. apply append_record_with_key_grows; try apply _; [done|naive_solver].
  - apply grows_step; [done|]. apply append_records_atomically_grows; try apply _; [done|]. intros x Hx.
    rewrite Forall_fmap, Forall_forall in Hk. by apply (Hk x).
  - apply grows_step; [done|]. apply append_chained_record_grows; try apply _; [done|naive_solver].
  - apply grows_step; [done|]. apply append_linked_grows; try apply _; [done|naive_solver..].
Qed.

(** ** The service *)

Context (command_json : ∀ i, Json (string * lc_command (lifecycle (host i)))).
Context {Process : Type} (clock : Process → N).

Notation materialize_i i c scope key cmd :=
  (admit_materialized codec anchor reducer_build (lifecycle (host i)) (h_json (host i)) (command_json i) c scope key cmd).

Inductive CommandRequest :=
| OnLog (request : Request host)
| OnCommands (op : CommandOp (Process := Process))
| AdmitMaterialized i (scope key : string) (cmd : lc_command (lifecycle (host i)))
| AdmitRecordFacts (scope key snapshot : string) (facts : list CommandRecordFact) (chained : option ChainedRecordFact)
    (claims : list RecordCommandClaim) (expected : option (string * Z))
| CommitFacts (h : DispatchRecordAdmission Process) (p0 p1 : Process) (scope key snapshot : string)
    (facts : list CommandRecordFact) (claimed : option string)
| CommitLifecycle i (h : DispatchRecordAdmission Process) (p0 p1 : Process) (id scope key snapshot : string)
    (batch : LifecycleBatch (lifecycle (host i))) (facts : list CommandRecordFact)
| CommitLifecyclePair i j (h : DispatchRecordAdmission Process) (p0 p1 : Process) (id scope key snapshot : string)
    (first : LifecycleBatch (lifecycle (host i))) (second : LifecycleBatch (lifecycle (host j)))
    (facts : Z → result failure (list CommandRecordFact))
| AdmitWithDispatch i (path scope key : string) (cmd : lc_command (lifecycle (host i))) (dispatch : CommandDispatch)
    (basis : option (DispatchReadBasis Process)) (p0 p1 : Process)
| CommitDispatch i (h : DispatchRecordAdmission Process) (p0 p1 : Process) (scope key : string)
    (cmd : lc_command (lifecycle (host i))) (dispatch : CommandDispatch)
| CommitDispatchAgainst i (h : DispatchRecordAdmission Process) (p p0 p1 : Process) (scope key : string)
    (cmd : lc_command (lifecycle (host i))) (dispatch : CommandDispatch) (basis : DispatchReadBasis Process)
| CommitRequest i (scope key : string) (protected : bool) (check0 check1 : result failure unit) (request : R)
    (authorize : lc_state (lifecycle (host i)) → result Rejection unit)
    (materialize : lc_state (lifecycle (host i)) → result Rejection (lc_command (lifecycle (host i)))).

(** One request: the database it leaves. *)
Definition serve_command (c : Cdb) (request : CommandRequest) : Cdb :=
  match request with
  | OnLog request => c <| log_db := serve codec anchor reducer_build host (log_db c) request |>
  | OnCommands op => apply_op clock c op
  | AdmitMaterialized i scope key cmd => (materialize_i i c scope key cmd).1
  | AdmitRecordFacts scope key snapshot facts chained claims expected =>
      (admit_record_facts_internal codec claim_json c scope key snapshot facts chained claims expected).1
  | CommitFacts h p0 p1 scope key snapshot facts claimed =>
      (handle_commit clock codec h c p0 p1 scope key snapshot facts claimed).1
  | CommitLifecycle i h p0 p1 id scope key snapshot batch facts =>
      (handle_commit_lifecycle clock codec anchor reducer_build (lifecycle (host i)) (h_json (host i)) h c p0 p1
         id scope key snapshot batch facts).1
  | CommitLifecyclePair i j h p0 p1 id scope key snapshot first second facts =>
      (handle_commit_lifecycle_pair clock codec anchor reducer_build (lifecycle (host i)) (h_json (host i))
         (lifecycle (host j)) (h_json (host j)) h c p0 p1 id scope key snapshot first second facts).1
  | AdmitWithDispatch i path scope key cmd dispatch basis p0 p1 =>
      (admit_with_dispatch_inner codec anchor reducer_build intent_json (lifecycle (host i)) (h_json (host i))
         (snapshot_of i) clock c path scope key cmd dispatch basis p0 p1).1
  | CommitDispatch i h p0 p1 scope key cmd dispatch =>
      (handle_commit_dispatch clock codec anchor reducer_build (lifecycle (host i)) (h_json (host i)) intent_json
         (snapshot_of i) h c p0 p1 scope key cmd dispatch).1
  | CommitDispatchAgainst i h p p0 p1 scope key cmd dispatch basis =>
      (handle_admit_with_dispatch_against clock codec anchor reducer_build (lifecycle (host i)) (h_json (host i)) intent_json
         (snapshot_of i) h c p p0 p1 scope key cmd dispatch basis).1
  | CommitRequest i scope key protected check0 check1 request authorize materialize =>
      (commit_r i c scope key protected check0 check1 request authorize materialize).1
  end.

(** Plain facts use neither the kind of a lifecycle nor that of the outbox. *)
Definition command_kinded (request : CommandRequest) : Prop :=
  match request with
  | OnLog request => Forall fact_kind_ok (request_kinds request)
  | AdmitRecordFacts _ _ _ facts chained _ _ => Forall (λ f, fact_kind_ok (fact_kind f)) facts ∧ chained_ok chained
  | CommitFacts _ _ _ _ _ _ facts _ | CommitLifecycle _ _ _ _ _ _ _ _ _ facts =>
      Forall (λ f, fact_kind_ok (fact_kind f)) facts
  | CommitLifecyclePair _ _ _ _ _ _ _ _ _ _ _ facts =>
      ∀ n prepared, facts n = Ok prepared → Forall (λ f, fact_kind_ok (fact_kind f)) prepared
  | _ => True
  end.

Inductive reached : Cdb → Prop :=
| reached_empty : reached empty_cdb
| reached_request c request : reached c → command_kinded request → reached (serve_command c request).

Lemma status_step P c id to :
  system_ok (log_db c) → commands_ok c → advance_for P c (set_command_status c id to).1.
Proof. apply (op_step (λ _ : unit, 0%N) P c (OpStatus id to)). Qed.

Lemma materialized_advance i c scope key cmd : inv c → advance c (materialize_i i c scope key cmd).1.
Proof.
  intros Hinv. pose proof Hinv as [Hsys Hok _ _]. apply advance_quiet. unfold admit_materialized.
  destruct (to_json (command_json i) _) as [snapshot|]; [|by apply advance_for_refl]. cbv zeta.
  set (id := command_name "command" scope key).
  pose proof (op_step (λ _ : unit, 0%N) (λ _, False) c (OpClaim "" id scope key snapshot None [] () ()) Hsys Hok) as H1.
  cbn [apply_op] in H1. unfold claim_command. destruct (claim_command_with_basis _ _ _ _ _ _ _ _ _ _ _) as [c1 [[receipt claimed]|e]];
    cbn [fst] in *; [|done].
  pose proof (ls_ok _ _ _ (af_log _ _ _ H1)) as Hsys1. pose proof (af_ok _ _ _ H1) as Hok1.
  destruct (negb _); [done|]. destruct (receipted c1 scope key).
  { destruct (fold_retained _ _ _ _ _ _ _); [|done].
    pose proof (status_step (λ _, False) c1 id "applied" Hsys1 Hok1) as H2.
    destruct (set_command_status c1 id "applied") as [c2 []]; cbn [fst] in *; by eapply advance_for_trans. }
  destruct (negb claimed); [done|]. unfold on_log.
  pose proof (keyed_step (dispatch_row (λ _, False)) i (log_db c1) scope key cmd Hsys1) as H2. unfold admit_with_key_i in H2.
  destruct (admit_with_key _ _ _ _ _ _ _ _ _) as [db2 res]. cbn [fst snd] in *.
  apply log_only_step in H2; [|done]. pose proof (advance_for_trans _ _ _ _ H1 H2) as H12.
  assert (∀ to, advance_for (λ _, False) c (set_command_status (c1 <| log_db := db2 |>) id to).1) as H3.
  { intros to. eapply advance_for_trans; [exact H12|]. apply status_step; [by destruct H2 as [[]]|by destruct H2]. }
  pose proof (H3 "applied") as Ha. pose proof (H3 "rejected") as Hr. pose proof (H3 "expired") as He.
  destruct res as [s|[[]|]]; done.
Qed.

Lemma dispatch_advance i c scope key cmd dispatch p final :
  inv c → prepare_d i scope key cmd dispatch = Ok p → advance c (commit_d i c p final).1.
Proof.
  intros Hinv (<- & <- & _ & _ & Hint & _)%prepared_spec. destruct (commit_d i c p final) as [c' [m|e]] eqn:Hop.
  - by destruct (dispatched i c p final c' m Hinv ltac:(by rewrite Hint) Hop).
  - unfold commit_dispatch, transaction in Hop. destruct (let '(_, _) := _ in _) as [[]|]; [done|].
    simplify_eq. by apply advance_refl.
Qed.

Lemma facts_advance c scope key snapshot facts chained claims expected :
  inv c → Forall (λ f, fact_kind_ok (fact_kind f)) facts → chained_ok chained →
  advance c (admit_record_facts_internal codec claim_json c scope key snapshot facts chained claims expected).1.
Proof.
  intros Hinv Hk Hc. destruct (admit_record_facts_internal _ _ _ _ _ _ _ _ _ _) as [c' [m|e]] eqn:Hop.
  - by destruct (facts_admitted _ _ _ _ _ _ _ _ _ _ Hinv Hk Hc Hop).
  - unfold admit_record_facts_internal, transaction in Hop. destruct (invalid_claims key claims); [simplify_eq; by apply advance_refl|].
    destruct (encode_facts codec facts); [|simplify_eq; by apply advance_refl].
    match type of Hop with match ?b with _ => _ end = _ => destruct b as [[]|]; [done|] end.
    simplify_eq. by apply advance_refl.
Qed.

Lemma commit_with_advance {T} (h : DispatchRecordAdmission Process) c p0 p1 (body : result failure unit → Cdb * result failure T) :
  inv c → (∀ final, advance c (body final).1) → advance c (commit_with clock h c p0 p1 body).1.
Proof.
  intros Hinv Hb. unfold commit_with. destruct (check_latched_validity clock h p0) as [[]]; [apply Hb|by apply advance_refl].
Qed.

Lemma command_served c request : inv c → command_kinded request → advance c (serve_command c request).
Proof.
  intros Hinv Hk. pose proof Hinv as [Hsys Hok _ _]. destruct request; simpl in Hk |- *.
  - apply advance_quiet, log_only_step; [done|]. by apply serve_step.
  - by apply advance_quiet, op_step.
  - by apply materialized_advance.
  - destruct Hk. by apply facts_advance.
  - unfold handle_commit. destruct (encode_facts codec facts) as [stored|] eqn:He; [|by apply advance_refl].
    apply commit_with_advance; [done|]. intros final. by eapply commit_staged_advance; [|apply no_stage_stages|..].
  - unfold handle_commit_lifecycle. destruct (encode_facts codec facts) as [stored|] eqn:He; [|by apply advance_refl].
    apply commit_with_advance; [done|]. intros final. unfold commit_lifecycle. destruct (_ || _); [by apply advance_refl|].
    by eapply commit_staged_advance; [|apply batch_stages|..].
  - unfold handle_commit_lifecycle_pair. apply commit_with_advance; [done|]. intros final. unfold commit_lifecycle_pair.
    destruct (_ || _); [by apply advance_refl|].
    by apply (commit_staged_advance _ _ _ _ [] []); [|apply pair_stages| | |].
  - unfold admit_with_dispatch_inner. destruct (prepare_dispatch _ _ _ _ _ _) as [p|] eqn:Hp; [|by apply advance_refl].
    destruct (check_basis_if _ _ _ _ _); [|by apply advance_refl]. by eapply dispatch_advance.
  - unfold handle_commit_dispatch. destruct (prepare_dispatch _ _ _ _ _ _) as [p|] eqn:Hp; [|by apply advance_refl].
    apply commit_with_advance; [done|]. intros final. by eapply dispatch_advance.
  - unfold handle_admit_with_dispatch_against. destruct (prepare_dispatch _ _ _ _ _ _) as [q|] eqn:Hp; [|by apply advance_refl].
    destruct (check_dispatch_basis _ _ _ _ _); [|by apply advance_refl].
    apply commit_with_advance; [done|]. intros final. by eapply dispatch_advance.
  - by apply request_advance.
Qed.

Lemma empty_inv : inv empty_cdb.
Proof. split; [apply empty_system_ok|split; constructor|by intros r ?%elem_of_nil|]. by intros s k i [v Hv]. Qed.

Lemma reached_inv c : reached c → inv c.
Proof. induction 1; [apply empty_inv|]. eapply advance_inv; [done|]. by apply command_served. Qed.

Lemma served_later c requests :
  inv c → Forall command_kinded requests → advance c (fold_left serve_command requests c).
Proof.
  intros Hinv Hk. revert c Hinv. induction Hk as [|request requests Hr _ IH]; intros c Hinv; simpl; [by apply advance_refl|].
  pose proof (command_served c request Hinv Hr) as Ha. eapply advance_trans; [exact Ha|]. apply IH. by eapply advance_inv.
Qed.

Lemma reached_later c requests : reached c → Forall command_kinded requests → reached (fold_left serve_command requests c).
Proof. intros Hc Hk. revert c Hc. induction Hk; intros c Hc; simpl; [done|]. auto using reached. Qed.

(** ** Properties *)

(** C16: The command plane loses nothing. In every database the service reaches, each
    scope holds a history of each lifecycle that its fold returns, and command ids and
    command keys are unique; and whatever is served next, the log keeps its rows in place,
    receipts and the provenance of facts stay, and every command keeps its id, its key and
    its original snapshot. *)
Theorem command_plane_keeps c requests :
  reached c → Forall command_kinded requests →
  let c' := fold_left serve_command requests c in
  (∀ i scope, ∃ log s, trace (lifecycle (host i)) log s ∧ holds i (log_db c') scope log ∧ fold_c i c' scope = Ok s)
  ∧ commands_ok c'
  ∧ events (log_db c) `prefix_of` events (log_db c') ∧ command_receipts (log_db c) ⊆ command_receipts (log_db c')
  ∧ record_command_fact_refs c ⊆ record_command_fact_refs c'
  ∧ record_command_fact_sets c ⊆ record_command_fact_sets c'
  ∧ ∀ scope key r, command_by_key c scope key = Some r → ∃ r', command_by_key c' scope key = Some r' ∧ identity r' = identity r.
Proof.
  intros Hc Hk c'. pose proof (reached_inv c Hc) as Hinv. pose proof (served_later c requests Hinv Hk) as Ha. fold c' in Ha.
  destruct (advance_inv c c' Hinv Ha) as [[Hdb Hall] Hok _ _].
  destruct Ha as (P & [[_ (new & He & _) Hr] _ Hrows Hsets Hrefs _] & _). split_and!; try done.
  - intros i scope. destruct (Hall i scope) as (log & s & Ht & Hh). exists log, s. split_and!; [done|done|by eapply holds_fold].
  - rewrite He. by apply prefix_app_r.
  - intros scope key r Hr2. by apply (rows_kept_by_key c c').
Qed.

(** C12: A dispatch happens exactly once. When an admission with dispatch succeeds under a
    key that holds no foreign command, the lifecycle moved once as it decides, or the
    dispatch had been committed before and only its status was written. In every later
    database the dispatcher reads back the original command and its target, a retry
    returns the current state and leaves the log as it is, and the same key with another
    command or target is refused and changes nothing. *)
Theorem dispatch_exactly_once i c scope key cmd dispatch c1 m p :
  reached c → prepare_d i scope key cmd dispatch = Ok p → command_by_key c scope key = None →
  commit_d i c p (Ok ()) = (c1, Ok m) →
  replayed m = false ∧ fold_c i c1 scope = Ok (state m)
  ∧ (∃ s es, fold_c i c scope = Ok s ∧ apply (lifecycle (host i)) s cmd = Applied es (state m))
  ∧ ∀ requests, Forall command_kinded requests →
    let c2 := fold_left serve_command requests c1 in
    committed_d i c2 scope key = Ok (Some (mkCommitted (command_name "command" scope key) cmd dispatch))
    ∧ (∃ s c3, fold_c i c2 scope = Ok s ∧ commit_d i c2 p (Ok ()) = (c3, Ok (mkMaterialized s true)) ∧ only_commands c2 c3)
    ∧ ∀ j cmd' dispatch' p' final, prepare_d j scope key cmd' dispatch' = Ok p' → pd_snapshot p' ≠ pd_snapshot p →
        commit_d j c2 p' final = (c2, rejected "idempotency key reused with different command or dispatch").
Proof.
  intros Hc Hp Hnone Hop. pose proof (reached_inv c Hc) as Hinv.
  pose proof (prepared_spec _ _ _ _ _ _ _ Hp) as (Hps & Hpk & Hpc & Hpid & Hint & _).
  assert (intent_command_id (pd_intent p) = command_name "command" (pd_scope p) (pd_key p)) as Hid by (by rewrite Hint, Hps, Hpk).
  destruct (dispatched i c p (Ok ()) c1 m Hinv Hid Hop) as (Ha & _ & Hsome & Hf & (r & Hr & Hsn & Hrid & _) & Hm).
  rewrite Hps, Hpk in *.
  assert (replayed m = false) as Hfirst.
  { destruct (replayed m) eqn:Hrep; [|done]. exfalso. clear Ha Hf Hm.
    unfold commit_dispatch in Hop. rewrite Hps, Hpk in Hop.
    assert (∀ n, snd (insert_or_ignore c (mkCommandRecord (pd_id p) scope key "received" (pd_snapshot p))) = n → n ≠ 0) as Hn.
    { intros n <- Hz. unfold insert_or_ignore in *. destruct (conflicts _ _) eqn:Hcf; [|done].
      simpl in Hop. by rewrite Hnone in Hop. }
    destruct (insert_or_ignore c _) as [c0 n]. specialize (Hn n eq_refl).
    destruct (command_by_key c0 scope key) as [original|]; [|done]. cbn [ok_or] in Hop.
    destruct (refuse_if _ _) as [[]|]; [|done]. destruct (receipted c0 scope key).
    - destruct (matching_intents _ _ _ _ _); [|done]. by rewrite bool_decide_eq_true_2 in Hop.
    - destruct (refuse_if _ _) as [[]|]; [|done]. destruct (fold_retained _ _ _ _ _ _ _); [|done].
      destruct (write_dispatch _ _ _ _ _ _ _ _ _); [|done]. simpl in Hop. by simplify_eq. }
  rewrite Hfirst in Hm. destruct Hm as (_ & Hsole & s & es & Hfs & Happ).
  split_and!; [done|done|exists s, es; by rewrite <- Hpc|].
  intros requests Hk c2. pose proof (advance_inv _ _ Hinv Ha) as Hinv1. pose proof (served_later c1 requests Hinv1 Hk) as Ha2.
  fold c2 in Ha2. pose proof (advance_inv _ _ Hinv1 Ha2) as Hinv2.
  assert (holds_dispatch c1 i p) as Hh1.
  { split; rewrite ?Hps, ?Hpk; [done|done|]. exists r. auto. }
  pose proof (holds_dispatch_later c1 c2 i p Ha2 ltac:(by rewrite Hps, Hpk) Hh1) as Hh2. split_and!.
  - by eapply dispatch_reads.
  - destruct (dispatch_replays i c2 p (Ok ()) Hinv2 Hh2) as (s2 & Hs2 & Hrep). rewrite Hps in Hs2.
    by exists s2, (update_status c2 (same_key (pd_scope p) (pd_key p)) "applied").1.
  - intros j cmd' dispatch' p' final (Hps' & Hpk' & _)%prepared_spec Hne.
    destruct (hd_row _ _ _ Hh2) as (r2 & Hr2 & _ & Hsn2). eapply dispatch_refuses; [|by rewrite Hsn2].
    by rewrite Hps', Hpk', <- Hps, <- Hpk.
Qed.

(** C13: Record facts are admitted once and read back whole. When an admission succeeds
    under a key without a row and a receipt, the facts, and the chained one as its link made it, are
    what every later database returns for the key, in order; the same command replays
    without touching the log, and a failed admission changes nothing at all. *)
Theorem record_facts_roundtrip c scope key snapshot facts chained claims expected :
  reached c → Forall (λ f, fact_kind_ok (fact_kind f)) facts → chained_ok chained →
  command_by_key c scope key = None → command_receipts (log_db c) !! (scope, key) = None →
  let op := admit_record_facts_internal codec claim_json c scope key snapshot facts chained claims expected in
  match op.2 with
  | Err _ => op.1 = c
  | Ok m =>
      record_replayed m = false ∧ ∀ requests, Forall command_kinded requests →
      let c2 := fold_left serve_command requests op.1 in
      committed_record_facts codec c2 scope key = Ok (Some (facts ++ chained_fact chained (chained_payload m)))
      ∧ committed_record_snapshot c2 scope key = Ok (Some snapshot)
      ∧ ∀ snapshot' facts' chained' claims' expected' c3 m',
          admit_record_facts_internal codec claim_json c2 scope key snapshot' facts' chained' claims' expected' = (c3, Ok m') →
          snapshot' = snapshot ∧ record_replayed m' = true ∧ only_commands c2 c3
  end.
Proof.
  intros Hc Hk Hch Hnone Hfree op. pose proof (reached_inv c Hc) as Hinv. subst op.
  destruct (admit_record_facts_internal codec claim_json c scope key snapshot facts chained claims expected) as [c1 [m|e]] eqn:Hop;
    cbn [fst snd].
  2: { unfold admit_record_facts_internal, transaction in Hop. destruct (invalid_claims key claims); [by simplify_eq|].
       destruct (encode_facts codec facts); [|by simplify_eq].
       match type of Hop with match ?b with _ => _ end = _ => destruct b as [[]|]; [done|] end. by simplify_eq. }
  destruct (facts_admitted _ _ _ _ _ _ _ _ _ _ Hinv Hk Hch Hop) as (Ha & Hsome & (r & Hr & Hsn & Hid) & Hm).
  destruct (record_replayed m); [destruct Hm as [[v Hv] _]; congruence|]. destruct Hm as [_ Hprov].
  split; [done|]. intros requests Hreq. set (c2 := fold_left serve_command requests c1).
  pose proof (advance_inv _ _ Hinv Ha) as Hinv1. pose proof (served_later c1 requests Hinv1 Hreq) as Ha2. fold c2 in Ha2.
  pose proof (advance_inv _ _ Hinv1 Ha2) as Hinv2. pose proof (provenance_later _ _ _ _ _ Hinv1 Ha2 Hsome Hprov) as Hprov2.
  destruct Ha2 as (P & [[_ _ Hsub] Hok2 Hrows _ _ _] & _).
  destruct (rows_kept_by_key c1 c2 scope key r Hok2 Hrows Hr) as (r2 & Hr2 & Heq). unfold identity in Heq.
  assert (is_Some (command_receipts (log_db c2) !! (scope, key))) as Hsome2.
  { destruct Hsome as [v Hv]. exists v. by eapply lookup_weaken. }
  specialize (Hid Hnone). assert (command_id r2 = command_name "record-command" scope key) as Hid2 by congruence.
  assert (snapshot_json r2 = snapshot) as Hsn2 by congruence. split_and!.
  - by eapply provenance_reads.
  - unfold committed_record_snapshot, receipted. rewrite bool_decide_eq_true_2 by done. rewrite Hr2. simpl.
    unfold validate_snapshot. rewrite Hid2, bool_decide_eq_false_2 by (intros Hne; by apply Hne). simpl. by rewrite Hsn2.
  - intros snapshot' facts' chained' claims' expected' c3 m' Hagain. unfold admit_record_facts_internal in Hagain.
    destruct (invalid_claims key claims'); [done|]. destruct (encode_facts codec facts'); [|done]. cbv zeta in Hagain.
    rewrite (conflicts_key c2 (mkCommandRecord _ scope key "received" snapshot') r2) in Hagain by done. cbn [fst] in Hagain.
    rewrite Hr2 in Hagain. cbn [ok_or] in Hagain. destruct (refuse_if _ _) as [[]|] eqn:Hs; [|done].
    apply refuse_if_ok, negb_false_iff, String.eqb_eq in Hs. destruct (try_each _ _); [|done].
    unfold receipted in Hagain. rewrite bool_decide_eq_true_2 in Hagain by done. cbn [transaction] in Hagain.
    apply pair_equal_spec in Hagain as [<- Hm']. injection Hm' as <-. split_and!; [congruence|done|done].
Qed.


Notation claim_c c id scope key snapshot := (claim_command (λ _ : unit, 0%N) c id scope key snapshot ()).

Lemma claim_kept c id scope key snapshot :
  commands_ok c → let c' := (claim_c c id scope key snapshot).1 in commands_ok c' ∧ rows_kept c c' ∧ only_commands c c'.
Proof. apply (op_kept (λ _ : unit, 0%N) c (OpClaim "" id scope key snapshot None [] () ())). Qed.

(** The row a claim returns is the one of its key. *)
Lemma claim_row c id scope key snapshot c1 r claimed :
  commands_ok c → claim_c c id scope key snapshot = (c1, Ok (r, claimed)) →
  ∃ r', command_by_key c1 scope key = Some r' ∧ identity r' = identity r.
Proof.
  intros Hok Hop. unfold claim_command, claim_command_with_basis in Hop. cbn [check_basis_if try_each] in Hop. cbv zeta in Hop.
  set (row := mkCommandRecord _ _ _ _ _) in Hop. destruct (insert_or_ignore_kept c row Hok) as (Hok1 & _ & _). cbv zeta in Hok1.
  destruct (command_by_key _ scope key) as [record|] eqn:Hr; [|done]. cbn [ok_or] in Hop.
  destruct (_ && _); cbn [transaction] in Hop; apply pair_equal_spec in Hop as [<- Hres]; injection Hres as <- <-; [|by exists record].
  destruct (update_status_kept (insert_or_ignore c row).1 (λ r, has_id (command_id record) r && String.eqb (status r) "received")
      "processing" Hok1) as (Hok2 & Hk2 & _).
  destruct (rows_kept_by_key _ _ scope key record Hok2 Hk2 Hr) as (r' & Hr' & Heq). exists r'. split; [done|].
  rewrite Heq. by case_bool_decide.
Qed.

(** A claim under a key that has a row succeeds or not, and returns that row. *)
Lemma claim_existing c id scope key snapshot r :
  command_by_key c scope key = Some r →
  ∃ c1 r1 claimed, claim_c c id scope key snapshot = (c1, Ok (r1, claimed)) ∧ identity r1 = identity r.
Proof.
  intros Hr. unfold claim_command, claim_command_with_basis. cbn [check_basis_if try_each]. cbv zeta.
  rewrite (conflicts_key c (mkCommandRecord id scope key "received" snapshot) r) by done. cbn [fst]. rewrite Hr. cbn [ok_or].
  destruct (_ && _); cbn [transaction]; eexists _, _, _; (split; [done|]); [by case_bool_decide|done].
Qed.

(** What a materialized admission leaves when it succeeds. *)
Lemma materialized_done i c scope key cmd c1 m :
  inv c → materialize_i i c scope key cmd = (c1, Ok m) →
  ∃ snapshot r, to_json (command_json i) (KIND (lifecycle (host i)), cmd) = Some snapshot
    ∧ command_by_key c1 scope key = Some r ∧ snapshot_json r = snapshot
    ∧ is_Some (command_receipts (log_db c1) !! (scope, key)) ∧ fold_c i c1 scope = Ok (state m)
    ∧ if replayed m then log_db c1 = log_db c
      else command_receipts (log_db c) !! (scope, key) = None
        ∧ ∃ s es, fold_c i c scope = Ok s ∧ apply (lifecycle (host i)) s cmd = Applied es (state m).
Proof.
  intros Hinv Hop. pose proof Hinv as [Hsys Hok _ _]. unfold admit_materialized in Hop.
  destruct (to_json (command_json i) _) as [snapshot|] eqn:Hj; [|done]. cbv zeta in Hop.
  set (id := command_name "command" scope key) in Hop. exists snapshot.
  destruct (claim_c c id scope key snapshot) as [c2 [[r claimed]|]] eqn:Hcl; [|done].
  destruct (claim_row _ _ _ _ _ _ _ _ Hok Hcl) as (r2 & Hr2 & Hid2).
  destruct (claim_kept c id scope key snapshot Hok) as (Hok2 & Hk2 & Ho2). rewrite Hcl in Hok2, Hk2, Ho2. cbn [fst] in *.
  pose proof (only_commands_log _ _ Ho2) as Hl2.
  destruct (String.eqb_spec (snapshot_json r) snapshot) as [Hsn|]; [|done]. cbn [negb] in Hop.
  assert (∀ c3 id, commands_ok c3 → commands c3 = commands c2 → ∃ r3,
    command_by_key (set_command_status c3 id "applied").1 scope key = Some r3 ∧ snapshot_json r3 = snapshot) as Hset.
  { intros c3 id3 Hok3 Hc3. destruct (op_kept (λ _ : unit, 0%N) c3 (OpStatus id3 "applied") Hok3) as (Hok4 & Hk4 & _).
    cbn [apply_op] in *. destruct (rows_kept_by_key c3 _ scope key r2 Hok4 Hk4) as (r3 & Hr3 & Hid3).
    - unfold command_by_key. by rewrite Hc3.
    - exists r3. split; [done|]. unfold identity in *. congruence. }
  assert (∀ c3 id, log_db (set_command_status c3 id "applied").1 = log_db c3) as Hlog by done.
  destruct (receipted c2 scope key) eqn:Hrep.
  - destruct (fold_retained _ _ _ _ _ _ _) as [s|] eqn:Hf; [|done].
    destruct (Hset c2 id Hok2 eq_refl) as (r3 & Hr3 & Hsn3). specialize (Hlog c2 id).
    destruct (set_command_status c2 id "applied") as [c3 []]; [|done]. apply pair_equal_spec in Hop as [<- Hm]. injection Hm as <-.
    cbn [fst state replayed] in *. exists r3. split_and!; [done|done|done|..]; rewrite ?Hlog; [|done|done].
    unfold receipted in Hrep. by apply bool_decide_eq_true in Hrep.
  - destruct (negb claimed); [done|]. unfold on_log in Hop. apply receipted_spec in Hrep. rewrite Hl2 in Hop, Hrep.
    destruct (admit_with_key_ok codec anchor reducer_build host Hkinds i (log_db c) scope key cmd Hsys) as (Hsys3 & _ & Hrec3).
    pose proof Hsys as [Hdb Hall]. destruct (Hall i scope) as (log & s & Ht & Hh).
    pose proof (admit_with_key_spec codec anchor reducer_build _ (h_json (host i)) (log_db c) scope key log s cmd Hdb Hh Ht) as Hspec.
    rewrite Hrep in Hspec. unfold admit_with_key_i in *.
    destruct (admit_with_key _ _ _ _ _ _ _ _ _) as [db3 [s3|[[]|]]] eqn:Had; cbn [fst snd] in *; try done.
    destruct (Hset (c2 <| log_db := db3 |>) id) as (r3 & Hr3 & Hsn3); [by destruct Hok2; split|done|].
    specialize (Hlog (c2 <| log_db := db3 |>) id).
    destruct (set_command_status _ id "applied") as [c3 []]; [|done]. apply pair_equal_spec in Hop as [<- Hm]. injection Hm as <-.
    cbn [fst state replayed] in *. exists r3. rewrite Hlog. split_and!; [done|done|done|by eapply Hrec3| |done|].
    all: unfold admits in Hspec; destruct (apply _ s cmd) as [|es s'|] eqn:Happ; [done| |done]; destruct Hspec as [Hgood Hbad].
    all: destruct (decide (Forall (encodable codec _ (h_json (host i)) scope) es)) as [Henc|Henc];
      [|apply not_Forall_Exists, Exists_exists in Henc; [|apply _]; by destruct (Hbad Henc)].
    all: rewrite Forall_forall in Henc; destruct (Hgood Henc) as (db' & [= -> ->] & _ & [_ Hlog3 _]).
    + eapply holds_fold; [by destruct Hsys3|exact Hlog3|by eapply trace_admit].
    + exists s, es. split; [by eapply holds_fold|done].
Qed.

(** A materialized admission gives a receipt to no other key. *)
Lemma materialized_receipts i c scope key cmd k :
  inv c → k ≠ (scope, key) →
  command_receipts (log_db (materialize_i i c scope key cmd).1) !! k = command_receipts (log_db c) !! k.
Proof.
  intros Hinv Hk. pose proof Hinv as [[Hdb Hall] Hok _ _]. unfold admit_materialized.
  destruct (to_json (command_json i) _) as [snapshot|]; [|done]. cbv zeta. set (id := command_name "command" scope key).
  destruct (claim_kept c id scope key snapshot Hok) as (_ & _ & Ho).
  destruct (claim_c c id scope key snapshot) as [c1 [[receipt claimed]|e]]; cbn [fst] in *;
    pose proof (only_commands_log _ _ Ho) as Hl; [|by rewrite Hl].
  assert (∀ c3 id, log_db (set_command_status c3 id "applied").1 = log_db c3) as Hlog by done.
  destruct (negb _); [by cbn; rewrite Hl|]. destruct (receipted c1 scope key).
  { destruct (fold_retained _ _ _ _ _ _ _); [|by cbn; rewrite Hl]. specialize (Hlog c1 id).
    destruct (set_command_status c1 id "applied") as [c2 []]; cbn [fst] in *; by rewrite Hlog, Hl. }
  destruct (negb claimed); [by cbn; rewrite Hl|]. unfold on_log. rewrite Hl.
  destruct (Hall i scope) as (log & s & Ht & Hh).
  pose proof (admit_with_key_spec codec anchor reducer_build _ (h_json (host i)) (log_db c) scope key log s cmd Hdb Hh Ht) as Hspec.
  assert (command_receipts (admit_with_key codec anchor reducer_build _ (h_json (host i)) (log_db c) scope key cmd).1 !! k
          = command_receipts (log_db c) !! k) as Hsame.
  { destruct (command_receipts (log_db c) !! (scope, key)); [by rewrite Hspec|]. unfold admits in Hspec.
    destruct (apply _ s cmd) as [|es s'|]; [by rewrite Hspec| |done]. destruct Hspec as [Hgood Hbad].
    destruct (decide (Forall (encodable codec _ (h_json (host i)) scope) es)) as [Henc|Henc].
    - rewrite Forall_forall in Henc. destruct (Hgood Henc) as (db' & -> & Hr & _). cbn. rewrite Hr. by rewrite lookup_insert_ne.
    - apply not_Forall_Exists, Exists_exists in Henc; [|apply _]. by destruct (Hbad Henc) as [f ->]. }
  destruct (admit_with_key _ _ _ _ _ _ _ _ _) as [db3 res]. cbn [fst snd] in *.
  assert (log_db (set_command_status (c1 <| log_db := db3 |>) id "applied").1 = db3) as H1 by done.
  assert (log_db (set_command_status (c1 <| log_db := db3 |>) id "rejected").1 = db3) as H2 by done.
  assert (log_db (set_command_status (c1 <| log_db := db3 |>) id "expired").1 = db3) as H3 by done.
  destruct res as [s3|[[]|]]; try done; cbn [fst].
Qed.

(** Once its key has a receipt a materialized admission leaves the log alone. *)
Lemma materialized_again i c scope key cmd :
  inv c → is_Some (command_receipts (log_db c) !! (scope, key)) → log_db (materialize_i i c scope key cmd).1 = log_db c.
Proof.
  intros Hinv Hk. pose proof Hinv as [_ Hok _ _]. unfold admit_materialized.
  destruct (to_json (command_json i) _) as [snapshot|]; [|done]. cbv zeta. set (id := command_name "command" scope key).
  destruct (claim_kept c id scope key snapshot Hok) as (_ & _ & Ho).
  destruct (claim_c c id scope key snapshot) as [c1 [[receipt claimed]|e]]; cbn [fst] in *;
    pose proof (only_commands_log _ _ Ho) as Hl; [|by rewrite Hl].
  destruct (negb _); [by cbn; rewrite Hl|]. unfold receipted at 1. rewrite Hl, bool_decide_eq_true_2 by done.
  destruct (fold_retained _ _ _ _ _ _ _); [|by cbn; rewrite Hl].
  assert (log_db (set_command_status c1 id "applied").1 = log_db c1) as Hlog by done.
  destruct (set_command_status c1 id "applied") as [c2 []]; cbn [fst] in *; by rewrite Hlog, Hl.
Qed.

(** A materialized command runs once. When it succeeds, the lifecycle moved once as
    it decides, or it had been admitted before and the log stayed as it was. In every
    later database the same command returns the current state and leaves the log as it
    is, and another command under its key is refused and leaves it too. *)
Theorem materialized_once i c scope key cmd c1 m :
  reached c → materialize_i i c scope key cmd = (c1, Ok m) →
  fold_c i c1 scope = Ok (state m)
  ∧ (if replayed m then log_db c1 = log_db c
     else command_receipts (log_db c) !! (scope, key) = None
       ∧ ∃ s es, fold_c i c scope = Ok s ∧ apply (lifecycle (host i)) s cmd = Applied es (state m))
  ∧ ∀ requests, Forall command_kinded requests →
    let c2 := fold_left serve_command requests c1 in
    (∃ s c3, fold_c i c2 scope = Ok s ∧ materialize_i i c2 scope key cmd = (c3, Ok (mkMaterialized s true)) ∧ only_commands c2 c3)
    ∧ ∀ j other snapshot, to_json (command_json j) (KIND (lifecycle (host j)), other) = Some snapshot →
        to_json (command_json i) (KIND (lifecycle (host i)), cmd) ≠ Some snapshot →
        ∃ c3, materialize_i j c2 scope key other = (c3, rejected "idempotency key reused with different command") ∧ only_commands c2 c3.
Proof.
  intros Hc Hop. pose proof (reached_inv c Hc) as Hinv.
  destruct (materialized_done i c scope key cmd c1 m Hinv Hop) as (snapshot & r & Hj & Hr & Hsn & [v Hv] & Hf & Hm).
  split_and!; [done|done|]. intros requests Hk c2. pose proof (materialized_advance i c scope key cmd Hinv) as Ha.
  rewrite Hop in Ha. pose proof (advance_inv _ _ Hinv Ha) as Hinv1. cbn [fst] in Hinv1.
  pose proof (served_later c1 requests Hinv1 Hk) as Ha2. fold c2 in Ha2. pose proof (advance_inv _ _ Hinv1 Ha2) as Hinv2.
  destruct Ha2 as (P & [[_ _ Hsub] Hok2 Hrows _ _ _] & _).
  destruct (rows_kept_by_key c1 c2 scope key r Hok2 Hrows Hr) as (r2 & Hr2 & Hid2).
  destruct Hinv2 as [[Hdb Hall] _ _ _]. destruct (Hall i scope) as (log & s & Ht & Hh).
  assert (fold_c i c2 scope = Ok s) as Hfs by (by eapply holds_fold).
  assert (∀ snapshot', let id := command_name "command" scope key in ∃ c3 r3 claimed,
    claim_c c2 id scope key snapshot' = (c3, Ok (r3, claimed)) ∧ snapshot_json r3 = snapshot ∧ only_commands c2 c3) as Hclaim.
  { intros snapshot'. cbv zeta. destruct (claim_existing c2 (command_name "command" scope key) scope key snapshot' r2 Hr2)
      as (c3 & r3 & claimed & Hcl & Hid3). exists c3, r3, claimed. unfold identity in *. split_and!; [done|congruence|].
    pose proof (claim_kept c2 (command_name "command" scope key) scope key snapshot' Hok2) as (_ & _ & Ho). by rewrite Hcl in Ho. }
  split.
  - destruct (Hclaim snapshot) as (c3 & r3 & claimed & Hcl & Hs3 & Ho3). pose proof (only_commands_log _ _ Ho3) as Hl3.
    exists s, (set_command_status c3 (command_name "command" scope key) "applied").1. split; [done|].
    unfold admit_materialized. rewrite Hj. rewrite Hcl, Hs3, String.eqb_refl. cbn [negb].
    unfold receipted. rewrite Hl3, bool_decide_eq_true_2 by (exists v; by eapply lookup_weaken).
    unfold fold_retained. rewrite Hl3. unfold fold_i in Hfs. rewrite Hfs.
    split; [done|]. eapply only_commands_trans; [exact Ho3|done].
  - intros j other snapshot' Hj' Hne. destruct (Hclaim snapshot') as (c3 & r3 & claimed & Hcl & Hs3 & Ho3). exists c3.
    split; [|done]. unfold admit_materialized. rewrite Hj', Hcl, Hs3. cbv zeta.
    rewrite (proj2 (String.eqb_neq snapshot snapshot')) by congruence. done.
Qed.
End log_steps.
