(* ===== verification/CommandSample.v ===== *)
(** * A sample command plane

    The two host-action lifecycles of [StoreSystem.v] behind a whole command plane, with a
    concrete text for every value that is stored as JSON. It shows that the hypotheses of
    the command plane's theorems hold together. *)

From Stdlib Require Import Ascii.
From S2P Require Import Prelude Ids Lifecycle Store StoreSystem Commands RecordAdmission Dispatch RequestAdmission CommandSystem.

Module CommandSample.
Import Sample.

(** A text for every value of a countable type: its code in binary. *)
Fixpoint bits (p : positive) : string :=
  match p with
  | xH => ""
  | xO p => String "0"%char (bits p)
  | xI p => String "1"%char (bits p)
  end.

Fixpoint unbits (s : string) : option positive :=
  match s with
  | EmptyString => Some xH
  | String a s => match unbits s with
                  | Some p => if Ascii.eqb a "0"%char then Some (xO p) else if Ascii.eqb a "1"%char then Some (xI p) else None
                  | None => None
                  end
  end.

Lemma unbits_bits p : unbits (bits p) = Some p.
Proof. induction p as [p IH|p IH|]; simpl; [by rewrite IH..|done]. Qed.

Definition coded {A} `{Countable A} : Json A := mkJson (λ a, Some (bits (encode a))) (λ s, unbits s ≫= decode).

#[export] Instance coded_laws {A} `{Countable A} : JsonLaws (coded (A := A)).
Proof. intros a p [= <-]. simpl. rewrite unbits_bits. simpl. apply decode_encode. Defined.

#[export] Instance CommandDispatch_countable : Countable CommandDispatch.
Proof. apply (inj_countable' (λ d, (runtime_ref d, command_ref d)) (λ x, mkDispatch x.1 x.2)). by intros []. Defined.
#[export] Instance DispatchIntent_countable : Countable DispatchIntent.
Proof. apply (inj_countable' (λ i, (intent_command_id i, intent_dispatch i)) (λ x, mkIntent x.1 x.2)). by intros []. Defined.
#[export] Instance DispatchSnapshot_eq_dec : EqDecision (DispatchSnapshot string).
Proof. solve_decision. Defined.
#[export] Instance DispatchSnapshot_countable : Countable (DispatchSnapshot string).
Proof.
  apply (inj_countable' (λ d, (snap_kind d, snap_command d, snap_dispatch d)) (λ x, mkSnapshot x.1.1 x.1.2 x.2)). by intros [].
Defined.
#[export] Instance RequestBinding_countable : Countable RequestBinding.
Proof. apply (inj_countable' (λ d, (rb_scope d, rb_key d)) (λ x, mkRequestBinding x.1 x.2)). by intros []. Defined.
#[export] Instance RequestSnapshot_eq_dec : EqDecision (RequestSnapshot string).
Proof. solve_decision. Defined.
#[export] Instance RequestSnapshot_countable : Countable (RequestSnapshot string).
Proof.
  apply (inj_countable'
    (λ d : RequestSnapshot string, (snapshot_v string d, snapshot_kind string d, snapshot_request string d, materialized string d, binding string d))
    (λ x, mkRequestSnapshot string x.1.1.1.1 x.1.1.1.2 x.1.1.2 x.1.2 x.2)). by intros [].
Defined.

Definition snapshot_of (b : bool) : Json (DispatchSnapshot (lc_command (lifecycle (host b)))) :=
  match b with true => coded | false => coded end.

#[export] Instance snapshot_laws b : JsonLaws (snapshot_of b).
Proof. destruct b; apply (coded_laws (A := DispatchSnapshot string)). Defined.

Definition command_json (b : bool) : Json (string * lc_command (lifecycle (host b))) :=
  match b with true => coded | false => coded end.

Definition command_value (b : bool) : lc_command (lifecycle (host b)) → option string :=
  match b with true => Some | false => Some end.

Definition claim_json (x : string * string * string * string) : option string := to_json coded x.

Lemma outbox_kind : record_kind host DISPATCH_KIND.
Proof. intros []; discriminate. Qed.

(** The clock of the process is the process. *)
Definition clock (now : N) : N := now.

Definition serve_command :=
  serve_command (Some codec) anchor "build" host coded claim_json snapshot_of string coded command_value
    (Some (A := string)) command_json clock.
Definition reached :=
  reached (Some codec) anchor "build" host coded claim_json snapshot_of string coded command_value
    (Some (A := string)) command_json clock.

Notation Served := (CommandRequest (R := string) (Process := N) host).

Definition fact : CommandRecordFact := mkFact "s" "note" "recorded".
Definition to : CommandDispatch := mkDispatch "runtime" "ref".

(** Plain records, a claim, a dispatch and a request. *)
Definition requests : list Served :=
  [OnLog host (AppendRecord host "s" "note" "first");
   OnCommands host (OpReceive "id" "s" "other" "snapshot");
   AdmitWithDispatch host true "" "s" "d" "go" to None 0%N 0%N;
   AdmitRecordFacts host "s" "f" "snapshot" [fact] None [] None;
   CommitRequest host false "s" "r" true (Ok ()) (Ok ()) "please" (λ _, Ok ()) (λ _, Ok "run")].

Lemma note_ok : fact_kind_ok host "note".
Proof. split; [intros []; discriminate|discriminate]. Qed.

Lemma plane_kinded : Forall (command_kinded host) requests.
Proof.
  apply Forall_cons. split; [by repeat constructor; try (intros []; discriminate)|].
  do 2 (apply Forall_cons; split; [done|]). apply Forall_cons. split; [|by repeat constructor].
  split; [|by intros f]. apply Forall_singleton, note_ok.
Qed.

Definition c : Cdb := fold_left serve_command requests empty_cdb.

Lemma c_reached : reached c.
Proof. apply reached_later; [constructor|apply plane_kinded]. Qed.

(** Every request went through. *)
Example c_size : (length (events (log_db c)), status <$> commands c) = (5, ["received"; "applied"; "applied"; "applied"]).
Proof. vm_compute. reflexivity. Qed.
End CommandSample.

Section witnesses.
Import Sample CommandSample.

Lemma command_plane_keeps_witness :
  reached c ∧ commands_ok (fold_left serve_command requests c)
  ∧ events (log_db c) `prefix_of` events (log_db (fold_left serve_command requests c)).
Proof.
  split; [exact c_reached|].
  destruct (command_plane_keeps (Some codec) anchor "build" host host_kinds outbox_kind coded claim_json snapshot_of
    string coded command_value (Some (A := string)) command_json clock c requests c_reached plane_kinded)
    as (_ & H1 & H2 & _).
  split; [exact H1|exact H2].
Defined.

(** A dispatch under a fresh key. *)
Definition prepared : PreparedDispatch (lifecycle (host true)) :=
  mkPrepared (L := lifecycle (host true)) "t" "k" "go"
    (bits (encode (mkSnapshot "checkpointed_action" "go" to : DispatchSnapshot string))) "command:1:tk" (mkIntent "command:1:tk" to).

Lemma dispatch_exactly_once_witness :
  ∃ c1 m, commit_dispatch (Some codec) anchor "build" coded (lifecycle (host true)) (h_json (host true)) c prepared (Ok ()) = (c1, Ok m)
    ∧ replayed m = false
    ∧ committed_dispatch (Some codec) coded (lifecycle (host true)) (snapshot_of true) (fold_left serve_command requests c1) "t" "k"
      = Ok (Some (mkCommitted "command:1:tk" "go" to)).
Proof.
  destruct (commit_dispatch (Some codec) anchor "build" coded (lifecycle (host true)) (h_json (host true)) c prepared (Ok ()))
    as [c1 o] eqn:Hop.
  assert (o = Ok (mkMaterialized (mkHostActionAdmission (Some "go")) false)) as ->.
  { transitivity ((c1, o).2); [reflexivity|]. rewrite <- Hop. vm_compute. reflexivity. }
  exists c1, (mkMaterialized (mkHostActionAdmission (Some "go")) false). split; [reflexivity|].
  destruct (dispatch_exactly_once (Some codec) anchor "build" host host_kinds outbox_kind coded claim_json snapshot_of
    string coded command_value (Some (A := string)) command_json clock true c "t" "k" "go" to c1
    (mkMaterialized (mkHostActionAdmission (Some "go")) false) prepared c_reached) as (H1 & _ & _ & H2).
  { vm_compute. reflexivity. }
  { vm_compute. reflexivity. }
  { exact Hop. }
  split; [exact H1|]. exact (proj1 (H2 requests plane_kinded)).
Defined.

Lemma record_facts_roundtrip_witness :
  ∃ c1 m, admit_record_facts_internal (Some codec) claim_json c "t" "k" "exact" [mkFact "t" "note" "x"]
      (Some (mkChained "t" "note" (λ prior, default "none" prior))) [] None = (c1, Ok m)
    ∧ committed_record_facts (Some codec) (fold_left serve_command requests c1) "t" "k"
      = Ok (Some [mkFact "t" "note" "x"; mkFact "t" "note" "x"]).
Proof.
  pose proof (record_facts_roundtrip (Some codec) anchor "build" host host_kinds outbox_kind coded claim_json snapshot_of
    string coded command_value (Some (A := string)) command_json clock c "t" "k" "exact" [mkFact "t" "note" "x"]
    (Some (mkChained "t" "note" (λ prior, default "none" prior))) [] None c_reached) as H.
  destruct (admit_record_facts_internal (Some codec) claim_json c "t" "k" "exact" _ _ _ _) as [c1 o] eqn:Hop.
  assert (o = Ok (mkRecordAdmission [0%Z; 1%Z] false (Some "x"))) as ->.
  { transitivity ((c1, o).2); [reflexivity|]. rewrite <- Hop. vm_compute. reflexivity. }
  exists c1, (mkRecordAdmission [0%Z; 1%Z] false (Some "x")). split; [reflexivity|].
  cbn [fst snd] in H. destruct H as (_ & H).
  - repeat constructor; [intros []; discriminate|discriminate].
  - intros f [= <-]. apply note_ok.
  - vm_compute. reflexivity.
  - vm_compute. reflexivity.
  - exact (proj1 (H requests plane_kinded)).
Defined.


Lemma materialized_once_witness :
  ∃ c1 m, admit_materialized (Some codec) anchor "build" (lifecycle (host true)) (h_json (host true)) (command_json true)
      c "t" "k" "go" = (c1, Ok m) ∧ replayed m = false
    ∧ ∃ s c3, admit_materialized (Some codec) anchor "build" (lifecycle (host true)) (h_json (host true)) (command_json true)
        (fold_left serve_command requests c1) "t" "k" "go" = (c3, Ok (mkMaterialized s true)).
Proof.
  destruct (admit_materialized (Some codec) anchor "build" (lifecycle (host true)) (h_json (host true)) (command_json true)
      c "t" "k" "go") as [c1 o] eqn:Hop.
  assert (o = Ok (mkMaterialized (mkHostActionAdmission (Some "go")) false)) as ->.
  { transitivity ((c1, o).2); [reflexivity|]. rewrite <- Hop. vm_compute. reflexivity. }
  exists c1, (mkMaterialized (mkHostActionAdmission (Some "go")) false). split; [reflexivity|]. split; [reflexivity|].
  destruct (materialized_once (Some codec) anchor "build" host host_kinds outbox_kind coded claim_json snapshot_of
    string coded command_value (Some (A := string)) command_json clock true c "t" "k" "go" c1
    (mkMaterialized (mkHostActionAdmission (Some "go")) false) c_reached Hop) as (_ & _ & H).
  destruct (H requests plane_kinded) as ((s & c3 & _ & Hs & _) & _). exists s, c3. exact Hs.
Defined.

(** A claim left in flight, and one whose receipt committed. *)
Definition interrupted : Cdb := fold_left (apply_op clock)
  [OpClaim "" "a" "s" "d2" "x" None [] 0%N 0%N; OpStatus "command:1:sd" "processing"] c.

Lemma interrupted_ok : commands_ok interrupted.
Proof.
  unfold interrupted. do 2 apply (op_kept clock). exact (inv_commands _ _ _ _ _ (reached_inv _ _ _ _ host_kinds outbox_kind _ _ _ _ _ _ _ _ _ _ c_reached)).
Qed.

Lemma reconcile_exact_witness :
  commands_ok interrupted ∧ (reconcile_commands interrupted).2 = (1, 2)
  ∧ reconcile_commands (reconcile_commands interrupted).1 = ((reconcile_commands interrupted).1, (0, 0)).
Proof.
  split; [exact interrupted_ok|]. destruct (reconcile_exact interrupted interrupted_ok) as (_ & H1 & H2).
  split; [|exact H2]. rewrite H1. vm_compute. reflexivity.
Defined.

Lemma basis_fences_witness :
  ∃ b, read_for_dispatch c "store" None ["s"] (λ _, Ok ()) = Ok ((), b)
    ∧ check_dispatch_basis clock c "store" 1%N (with_deadline b 5%N) = Ok ()
    ∧ ∀ p, check_dispatch_basis clock c "store" p (with_deadline b 5%N) = Ok () → (clock p < 5)%N.
Proof.
  destruct (read_for_dispatch c "store" None ["s"] (λ _, Ok ())) as [[[] b]|] eqn:Hb; [|discriminate Hb].
  exists b. split; [reflexivity|].
  destruct (basis_fences clock c "store" None ["s"] (λ _, Ok ()) () b Hb) as (_ & _ & H). split.
  - injection Hb as <-. vm_compute. reflexivity.
  - intros p Hp. exact (proj2 (proj1 (proj1 (H c p 5%N (λ _, true) b)) Hp)).
Defined.

Lemma claimed_at_most_once_witness :
  ∃ c1 r, claim_command_with_basis clock c "" "id" "s" "other" "snapshot" None [] 0%N 0%N = (c1, Ok (r, true))
    ∧ ∀ c3 r' claimed, claim_command_with_basis clock (reconcile_commands c1).1 "" "id" "s" "other" "snapshot" None [] 0%N 0%N
        = (c3, Ok (r', claimed)) → claimed = false.
Proof.
  destruct (claim_command_with_basis clock c "" "id" "s" "other" "snapshot" None [] 0%N 0%N) as [c1 o] eqn:Hop.
  assert (o = Ok (mkCommandRecord "id" "s" "other" "processing" "snapshot", true)) as ->.
  { transitivity ((c1, o).2); [reflexivity|]. rewrite <- Hop. vm_compute. reflexivity. }
  eexists c1, _. split; [reflexivity|]. intros c3 r' claimed Hagain.
  refine (proj1 (claimed_at_most_once clock c "" "id" "s" "other" "snapshot" None [] 0%N 0%N c1 _ [OpReconcile] _ Hop _
    "" "id" "snapshot" None [] 0%N 0%N c3 r' claimed Hagain)).
  - exact (inv_commands _ _ _ _ _ (reached_inv _ _ _ _ host_kinds outbox_kind _ _ _ _ _ _ _ _ _ _ c_reached)).
  - repeat constructor. intros id. discriminate.
Defined.
End witnesses.
