(* ===== verification/Staging.v ===== *)
(** * Staged writes

    What the batches, the facts and the shared commit of [record_admission.rs] leave, in the
    terms the modules that mark their rows need ([Pairs.v], [Prefixes.v]): which rows were
    written, in which order, and which events they hold. *)

From S2P Require Import Prelude Ids Lifecycle Store StoreSystem Commands RecordAdmission Dispatch CommandSystem.

(** ** What a batch does *)

Section batched.
Context (L : Lifecycle).

(** Commands one after another, each decided on the state the earlier ones left. *)
Inductive batched : lc_state L → list (lc_command L) → list (lc_event L) → lc_state L → Prop :=
| batched_nil s : batched s [] [] s
| batched_cons s cmd cmds es s1 es' s2 :
    lc_decide L s cmd = Ok es → evolve_all L s es = Some s1 → batched s1 cmds es' s2 → batched s (cmd :: cmds) (es ++ es') s2.
End batched.

Lemma insert_event_rows db r db' :
  insert_event db r = Ok db' → events db' = events db ++ [r] ∧ scope_snapshots db' = scope_snapshots db.
Proof. unfold insert_event. destruct (select_at _ _ _); [done|]. by intros [= <-]. Qed.

(** A row of a gap-free log is found at its coordinates. *)
Lemma row_selected db r : db_ok db → r ∈ events db → select_at db (row_scope r) (row_position r) = Some r.
Proof.
  intros Hok Hr. assert (r ∈ scope_rows db (row_scope r)) as [k Hk]%list_elem_of_lookup by (by apply list_elem_of_filter).
  apply select_at_dense; [done|]. pose proof (Hok _ k r Hk) as ->. split; [lia|]. by rewrite Nat2Z.id.
Qed.

(** Rows appended to one scope are numbered on from its last. *)
Lemma positions_follow db db' scope new :
  db_ok db → db_ok db' → events db' = events db ++ new → Forall (λ r, row_scope r = scope) new →
  row_position <$> new = seqZ (next_position db scope) (Z.of_nat (length new)).
Proof.
  intros Hok Hok' He Hs. pose proof (Hok' scope) as Hd. unfold scope_rows in Hd. rewrite He, filter_app in Hd.
  rewrite (filter_keeps_all _ new) in Hd by (by apply Forall_forall). rewrite next_position_dense by done.
  apply list_eq. intros k. rewrite list_lookup_fmap. destruct (new !! k) as [r|] eqn:Hk.
  - cbn. symmetry. apply lookup_seqZ. rewrite (Hd (length (scope_rows db scope) + k) r).
    + apply lookup_lt_Some in Hk. lia.
    + rewrite lookup_app_r by (unfold scope_rows; lia). rewrite <- Hk. f_equal. unfold scope_rows. lia.
  - cbn. symmetry. apply lookup_seqZ_ge. apply lookup_ge_None in Hk. lia.
Qed.

Section staged_rows.
Context (codec : option ContentCodec) `{!CodecLaws codec}.
Context (L : Lifecycle) (json : Json (lc_event L)) `{!JsonLaws json}.

(** The row of an event. *)
Definition event_row (scope : string) (e : lc_event L) (r : EventRow) : Prop :=
  row_scope r = scope ∧ row_kind r = KIND L ∧ ∃ plain, decode_row codec scope r = Some plain ∧ from_json json plain = Some e.

Lemma stage_events_rows scope es : ∀ db position s db' position' s' ps,
  stage_events codec L json db scope position s es = Ok (db', position', s', ps) →
  evolve_all L s es = Some s' ∧ scope_snapshots db' = scope_snapshots db
  ∧ ∃ new, events db' = events db ++ new ∧ ps = row_position <$> new ∧ Forall2 (event_row scope) es new.
Proof.
  induction es as [|e es IH]; intros db position s db' position' s' ps Hs; simpl in Hs.
  { simplify_eq. split_and!; [done|done|]. exists []. by rewrite app_nil_r. }
  destruct (to_json json e) as [plain|] eqn:Hj; [|done]. simpl in Hs. destruct (encode_payload _ _ _ _) as [payload|] eqn:He; [|done].
  destruct (insert_event _ _) as [db1|] eqn:Hi; [|done]. apply insert_event_rows in Hi as [Hi Hsn]. destruct (lc_evolve L s e) as [s1|] eqn:Hev; [|done].
  destruct (stage_events _ _ _ _ _ _ _ _) as [[[[db2 p2] s2] ps2]|] eqn:Hrest; [|done]. simplify_eq/=.
  destruct (IH _ _ _ _ _ _ _ Hrest) as (Hall & Hsn2 & new & Hn & -> & Hnew). rewrite Hev. split_and!; [done|congruence|].
  exists (mkEventRow scope position (KIND L) payload :: new).
  split_and!; [by rewrite Hn, Hi, <- app_assoc|done|]. constructor; [|done]. split_and!; [done..|].
  exists plain. split; [by apply encode_decode|by apply json_roundtrip].
Qed.

Lemma stage_commands_rows scope cmds : ∀ db position s db' s' ps,
  stage_commands codec L json db scope position s cmds = Ok (db', s', ps) →
  scope_snapshots db' = scope_snapshots db
  ∧ ∃ es new, batched L s cmds es s' ∧ events db' = events db ++ new ∧ ps = row_position <$> new ∧ Forall2 (event_row scope) es new.
Proof.
  induction cmds as [|cmd cmds IH]; intros db position s db' s' ps Hs; simpl in Hs.
  { simplify_eq. split; [done|]. exists [], []. rewrite app_nil_r. split_and!; [constructor|done..]. }
  destruct (decide_in L s cmd) as [es|] eqn:Hd; [|done]. apply decide_in_ok in Hd.
  destruct (stage_events _ _ _ _ _ _ _ _) as [[[[db1 p1] s1] ps1]|] eqn:H1; [|done].
  destruct (stage_commands _ _ _ _ _ _ _ cmds) as [[[db2 s2] ps2]|] eqn:H2; [|done]. simplify_eq/=.
  destruct (stage_events_rows _ _ _ _ _ _ _ _ _ H1) as (Hall & Hs1 & new1 & He1 & -> & Hn1).
  destruct (IH _ _ _ _ _ _ H2) as (Hs2 & es2 & new2 & Hb & He2 & -> & Hn2). split; [congruence|].
  exists (es ++ es2), (new1 ++ new2). rewrite fmap_app. split_and!; [by econstructor|by rewrite He2, He1, app_assoc|done|by apply Forall2_app].
Qed.
End staged_rows.

Section steps.
Context (codec : option ContentCodec) (anchor : string → string) (reducer_build : string).
Context {I : Type} (host : I → Hosted).
Context `{!EqDecision I, !CodecLaws codec, !AnchorLaws anchor}.
Context (Hkinds : ∀ i j, KIND (lifecycle (host i)) = KIND (lifecycle (host j)) → i = j).
Context (Hdispatch : record_kind host DISPATCH_KIND).

Notation system_ok := (system_ok codec reducer_build host).
Notation holds := (holds codec reducer_build host).
Notation folds i db scope := (fold_i codec anchor reducer_build host i db scope).

(** A staged batch: the fold moves as the commands decide, and the positions are those of
    the rows it added, which hold the events decided. *)
Lemma stage_lifecycle_batched i db batch db' ps :
  system_ok db → stage_lifecycle codec anchor reducer_build (lifecycle (host i)) (h_json (host i)) db batch = Ok (db', ps) →
  system_ok db' ∧ command_receipts db' = command_receipts db
  ∧ (∀ j s log, (i, batch_scope batch) ≠ (j, s) → holds j db s log → holds j db' s log)
  ∧ ∃ s es s' log new, folds i db (batch_scope batch) = Ok s ∧ batched (lifecycle (host i)) s (batch_commands batch) es s'
      ∧ holds i db' (batch_scope batch) log ∧ trace (lifecycle (host i)) log s'
      ∧ events db' = events db ++ new ∧ ps = row_position <$> new
      ∧ Forall2 (event_row codec (lifecycle (host i)) (h_json (host i)) (batch_scope batch)) es new.
Proof.
  intros Hsys Hst. destruct (stage_lifecycle_step codec anchor reducer_build host Hkinds Hdispatch (λ _, True) i db batch db' ps Hsys Hst) as [[Hsys' _ _] Hrc].
  split; [done|]. split; [done|].
  unfold stage_lifecycle in Hst. cbv zeta in Hst. pose proof Hsys as [Hok Hall].
  destruct (Hall i (batch_scope batch)) as (log & s & Ht & Hh).
  pose proof (fold_replays codec anchor reducer_build _ _ db (batch_scope batch) log s Hok Hh (trace_replay _ _ _ Ht)) as Hf. rewrite Hf in Hst.
  destruct (stage_commands _ _ _ _ _ _ _ _) as [[[db1 s1] ps1]|] eqn:Hc; [|done].
  destruct (stage_commands_step codec reducer_build host Hkinds Hdispatch (λ _, True) i db _ log s _ db1 s1 ps1 Hsys Hh Ht Hc) as ([Hsys1 _ _] & _ & log1 & Hh1 & Ht1).
  destruct (stage_commands_rows codec _ _ _ _ _ _ _ _ _ _ Hc) as (Hsn & es & new & Hb & He & -> & Hnew).
  destruct (checkpoint _ _ _ _ _ _ _) as [db2|] eqn:Hcp; [|done]. simplify_eq.
  destruct (checkpoint_ok codec anchor reducer_build _ (h_json (host i)) db1 (batch_scope batch) log1 s1 (proj1 Hsys1) Hh1 (trace_replay _ _ _ Ht1))
    as (db2 & Hcp2 & He2 & _ & Hh2 & Hkeys).
  assert (db2 = db') as -> by congruence.
  split; [|exists s, es, s1, log1, new; rewrite He2; by split_and!].
  intros j sc logj Hne Hj. assert (extends codec db db' new) as Hext.
  { split; [by rewrite He2| |by destruct Hsys']. intros r [k Hk]%list_elem_of_lookup. destruct (Forall2_lookup_r _ _ _ _ _ Hnew Hk) as (e & _ & Hs & _ & plain & Hd & _).
    rewrite Hs. by exists plain. }
  eapply represents_frame; [exact Hj|exact Hext| |].
  - intros r [k Hk]%list_elem_of_lookup Hs. destruct (Forall2_lookup_r _ _ _ _ _ Hnew Hk) as (e & _ & Hs' & Hk' & _). rewrite Hk'.
    intros Heq%Hkinds. apply Hne. congruence.
  - intros key Hkey. rewrite Hkeys, Hsn; [done|]. rewrite Hkey. intros [= Hs Hkk]. apply Hne. f_equal; [|done]. by symmetry; apply Hkinds.
Qed.

(** Appended facts: the rows of their scopes and kinds, opened to them. *)
Definition fact_row (f : CommandRecordFact) (r : EventRow) : Prop :=
  row_scope r = fact_scope f ∧ row_kind r = fact_kind f ∧ decode_row codec (fact_scope f) r = Some (fact_payload f).

Lemma append_facts_rows facts : ∀ db stored db' ps,
  Forall (λ f, record_kind host (fact_kind f)) facts → system_ok db → encode_facts codec facts = Ok stored →
  append_facts db stored = Ok (db', ps) →
  system_ok db' ∧ command_receipts db' = command_receipts db
  ∧ (∃ new, events db' = events db ++ new ∧ ps = row_position <$> new ∧ Forall2 fact_row facts new)
  ∧ ∀ i s log, holds i db s log → holds i db' s log.
Proof.
  induction facts as [|f facts IH]; intros db stored db' ps Hk Hsys He Happ; simpl in He.
  { simplify_eq/=. split_and!; [done|done| |done]. exists []. by rewrite app_nil_r. }
  apply Forall_cons in Hk as [Hk Hks]. destruct (encode_payload _ _ _ _) as [payload|] eqn:Hp; [|done].
  destruct (encode_facts codec facts) as [rest|]; [|done]. simplify_eq. simpl in Happ.
  destruct (insert_event _ _) as [db1|] eqn:Hins; [|done]. destruct (append_facts db1 rest) as [[db2 ps2]|] eqn:Hrest; [|done]. simplify_eq.
  destruct (record_step codec reducer_build host (λ _, True) db (fact_scope f) (fact_kind f) _ payload db1 Hsys Hk Hp (λ _, Logic.I) Hins) as ([Hsys1 _ _] & Hr1 & Hdb).
  destruct (IH db1 rest db' ps2 Hks Hsys1 eq_refl Hrest) as (Hsys2 & Hr2 & (new & He2 & -> & Hnew) & Hkeep). pose proof Hsys as [Hok _].
  split_and!; [done|congruence| |].
  - exists (mkEventRow (fact_scope f) (next_position db (fact_scope f)) (fact_kind f) payload :: new). split_and!; [|done|].
    + by rewrite He2, (proj1 (insert_event_rows _ _ _ Hins)), <- app_assoc.
    + constructor; [|done]. split_and!; [done..|]. by apply encode_decode.
  - intros i s log Hh. apply Hkeep. rewrite Hdb. by eapply record_holds.
Qed.
End steps.

(** ** One commit *)

(** A commit of the staged writes of a command under its own name, or of a claimed one. *)
Lemma staged_commit codec c scope key snapshot claimed stage final c' m :
  let id := default (command_name "record-command" scope key) claimed in
  commands_ok c → commit_staged codec c scope key snapshot [] None claimed stage final = (c', Ok m) →
  final = Ok () ∧ commands_ok c'
  ∧ (∃ r, command_by_key c' scope key = Some r ∧ command_id r = id ∧ snapshot_json r = snapshot ∧ status r = "applied")
  ∧ (∀ r, r ∈ commands c → command_id r ≠ id → r ∈ commands c')
  ∧ if record_replayed m then receipted c scope key = true ∧ log_db c' = log_db c
    else receipted c scope key = false ∧ ∃ db, stage (log_db c) = Ok (db, positions m)
         ∧ insert_receipt db scope key (default 0%Z (head (positions m))) = Ok (log_db c').
Proof.
  intros id Hok Hop. unfold commit_staged in Hop. cbv zeta in Hop. fold id in Hop.
  set (c1 := match claimed with None => _ | Some _ => c end) in Hop.
  assert (commands_ok c1 ∧ log_db c1 = log_db c ∧ ∀ r, r ∈ commands c → r ∈ commands c1) as (Hok1 & Hl1 & Hin1).
  { subst c1. destruct claimed; [done|]. destruct (insert_or_ignore_kept c (mkCommandRecord id scope key "received" snapshot) Hok) as (Hok1 & _ & Ho1).
    split_and!; [done|by apply only_commands_log|]. intros r Hr. unfold insert_or_ignore. destruct (conflicts _ _); [done|]. cbn. apply elem_of_app. by left. }
  assert (receipted c1 scope key = receipted c scope key) as Hrc by (unfold receipted; by rewrite Hl1).
  destruct (command_by_key c1 scope key) as [record|] eqn:Hrow; [|done]. cbn [ok_or] in Hop.
  destruct (refuse_if _ _) as [[]|] eqn:Hid in Hop; [|done]. apply refuse_if_ok, negb_false_iff, String.eqb_eq in Hid.
  destruct (refuse_if _ _) as [[]|] eqn:Hsnap in Hop; [|done]. apply refuse_if_ok, negb_false_iff, String.eqb_eq in Hsnap.
  assert (∀ c2 chosen to, commands_ok c2 → rows_kept c1 c2 → (∀ r, r ∈ commands c1 → command_id r ≠ command_id record → r ∈ commands c2) →
    (∀ r, chosen r = true → command_id r = command_id record) →
    let c3 := (update_status c2 chosen to).1 in
    commands_ok c3 ∧ rows_kept c1 c3 ∧ (∀ r, r ∈ commands c1 → command_id r ≠ command_id record → r ∈ commands c3) ∧ log_db c3 = log_db c2) as Hupd.
  { intros c2 chosen to Hok2 Hk2 Hin2 Hch. cbv zeta. destruct (update_status_kept c2 chosen to Hok2) as (Hok3 & Hk3 & _).
    split_and!; [done|by etrans| |done]. intros r Hr Hne. unfold update_status. cbn. apply list_elem_of_fmap. exists r. split; [|by apply Hin2].
    destruct (chosen r) eqn:Hc; [|done]. by apply Hch in Hc. }
  assert (∀ c2, let c3 := (update_status c2 (has_id (command_id record)) "applied").1 in commands_ok c3 → rows_kept c1 c3 →
    ∃ r, command_by_key c3 scope key = Some r ∧ command_id r = id ∧ snapshot_json r = snapshot ∧ status r = "applied") as Hfind.
  { intros c2 c3 Hok3 Hk3. destruct (rows_kept_by_key c1 c3 scope key record Hok3 Hk3 Hrow) as (r & Hr & Hidr). exists r.
    unfold identity in Hidr. injection Hidr as Hi1 _ _ Hi2. split_and!; [done|congruence|congruence|].
    apply List.find_some in Hr as [Hin%list_elem_of_In _]. subst c3. cbn in Hin. apply list_elem_of_fmap in Hin as (r0 & Hr0 & _). unfold has_id in Hr0.
    destruct (String.eqb_spec (command_id r0) (command_id record)); [by rewrite Hr0|]. rewrite Hr0 in Hi1. done. }
  rewrite Hrc in Hop. destruct (receipted c scope key) eqn:Hrep.
  - destruct final as [[]|]; [|done]. cbn [transaction] in Hop. injection Hop as <- <-. cbn [record_replayed].
    destruct (Hupd c1 (has_id (command_id record)) "applied") as (H1 & H2 & H3 & H4); [done|done|done|intros r; apply String.eqb_eq|].
    split_and!; [done|done|by apply Hfind| |done|exact (eq_trans H4 Hl1)]. intros r Hr Hne. apply H3; [by apply Hin1|by rewrite Hid].
  - destruct (refuse_if _ _) as [[]|] in Hop; [|done].
    destruct (Hupd c1 (λ r, has_id (command_id record) r && String.eqb (status r) "received") "processing") as (H1 & H2 & H3 & H4);
      [done|done|done|intros r [? _]%andb_true_iff; by apply String.eqb_eq|].
    set (c2 := (update_status c1 _ "processing").1) in *. unfold stage_all in Hop. rewrite H4, Hl1 in Hop.
    destruct (stage (log_db c)) as [[db ps]|] eqn:Hst; [|done]. cbn [append_facts fst snd] in Hop. rewrite app_nil_r in Hop.
    destruct (insert_receipt db scope key _) as [db4|] eqn:Hr; [|done]. destruct final as [[]|]; [|done]. cbn [transaction] in Hop. injection Hop as <- <-.
    cbn [record_replayed positions].
    destruct (Hupd (c2 <| log_db := db4 |>) (has_id (command_id record)) "applied") as (G1 & G2 & G3 & G4); [by destruct H1; split|done|done|intros r; apply String.eqb_eq|].
    split_and!; [done|done|by apply (Hfind (c2 <| log_db := db4 |>) G1 G2)| |done|]. { intros r Hin Hne. apply G3; [by apply Hin1|by rewrite Hid]. }
    exists db. split; [done|]. rewrite Hr. f_equal.
Qed.

