(* ===== verification/Pairs.v ===== *)
(** * Recorded pairs

    [record_admission_pair.rs] of [crates/store/src]: a claimed command publishes the events
    of two lifecycles of one scope with facts, and a marker that names every row; a binding
    in a table of its own says where the marker is. Readers verify the pair from these. *)

From Stdlib Require Import Ascii.
From S2P Require Import Prelude Ids Lifecycle Store StoreSystem Commands RecordAdmission Records Texts Dispatch SignedText CommandSystem CommandSample Staging.

Definition PAIR_KIND : string := "command_pair_result_v1".
Definition PAIR_REVISION : string := "claimed-lifecycle-pair-result/v1".

Record PairRow := mkPairRow {
  pw_position : Z;
  pw_class : string;
  pw_kind : string;
  pw_digest : string;
}.

Record PairMarker := mkPairMarker {
  pm_revision : string;
  pm_command : string;
  pm_command_scope : string;
  pm_key : string;
  pm_snapshot_digest : string;
  pm_result_scope : string;
  pm_first_kind : string;
  pm_second_kind : string;
  pm_intent_digest : string;
  pm_rows : list PairRow;
}.

(** The columns of [command_pair_results] besides its key. *)
Record PairBinding := mkPairBinding {
  pb_command_scope : string;
  pb_command_key : string;
  pb_result_scope : string;
  pb_marker_position : Z;
  pb_marker_sha256 : string;
}.
#[export] Instance PairBinding_eq_dec : EqDecision PairBinding.
Proof. solve_decision. Defined.
Notation PairResults := (gmap string PairBinding).

Record RecordedLifecyclePair (L M : Lifecycle) := mkRecordedPair {
  first_events : list (lc_event L);
  second_events : list (lc_event M);
  pair_facts : list CommandRecordFact;
  pair_positions : list Z;
  intent_digest : string;
}.
Arguments mkRecordedPair {L M}.
Arguments first_events {L M}.
Arguments second_events {L M}.
Arguments pair_facts {L M}.
Arguments pair_positions {L M}.
Arguments intent_digest {L M}.

Definition no_pair {T} : result failure T := rejected "recorded pair has no exact retained committed origin".

(** [INSERT INTO command_pair_results], with its constraints. *)
Definition insert_pair (pairs : PairResults) (command : string) (b : PairBinding) : result failure PairResults :=
  if bool_decide (is_Some (pairs !! command))
     || existsb (λ x : string * PairBinding, String.eqb (pb_command_scope x.2) (pb_command_scope b)
                  && String.eqb (pb_command_key x.2) (pb_command_key b)) (map_to_list pairs)
  then fail (AE_Db "UNIQUE constraint failed: command_pair_results")
  else if bool_decide (pb_marker_position b < 0)%Z || negb (Nat.eqb (String.length (pb_marker_sha256 b)) 64)
  then fail (AE_Db "CHECK constraint failed: command_pair_results")
  else Ok (<[command := b]> pairs).

Definition lower_hex_char (c : ascii) : bool :=
  let n := N_of_ascii c in bool_decide (48 ≤ n ≤ 57)%N || bool_decide (97 ≤ n ≤ 102)%N.
Fixpoint lower_hex (s : string) : bool :=
  match s with EmptyString => true | String c s => lower_hex_char c && lower_hex s end.
Definition lower_digest (s : string) : bool := Nat.eqb (String.length s) 64 && lower_hex s.

(** The markers of a scope, in order. *)
Definition pair_markers (c : Cdb) (scope : string) : list EventRow :=
  filter (λ r, row_kind r = PAIR_KIND) (select_scope (log_db c) scope).

Section pair.
Context `{ST : SignedTexts} (codec : option ContentCodec) (anchor : string → string) (reducer_build : string).
Context (marker_json : Json PairMarker).

Definition pair_digest (body : string) : string := sha256_hex (bytes_of body).

(** A marker that opens and parses. *)
Definition read_marker (scope : string) (r : EventRow) : result failure (PairMarker * string) :=
  match decode_row codec scope r with
  | None => no_pair
  | Some body => let? marker := ok_or (from_json marker_json body) (Failed AE_Json) in Ok (marker, body)
  end.

(** The markers of a command. *)
Fixpoint select_markers (scope command : string) (rows : list EventRow) : result failure (list (Z * PairMarker * string)) :=
  match rows with
  | [] => Ok []
  | r :: rows =>
      let? m := read_marker scope r in
      let? rest := select_markers scope command rows in
      Ok (if String.eqb (pm_command m.1) command then (row_position r, m.1, m.2) :: rest else rest)
  end.

(** The check of a first commit: every marker is readable, and none is the command's. *)
Fixpoint no_marker (scope command : string) (rows : list EventRow) : result failure unit :=
  match rows with
  | [] => Ok ()
  | r :: rows =>
      let? m := read_marker scope r in
      if String.eqb (pm_command m.1) command then no_pair else no_marker scope command rows
  end.

Section two.
Context (L M : Lifecycle) (ljson : Json (lc_event L)) (mjson : Json (lc_event M)).
(** [serde_json::to_vec] of the two intents *)
Context (pair_json : string * string * string * list (lc_command L) * string * list (lc_command M) → option string).

Definition pair_intent (first : LifecycleBatch L) (second : LifecycleBatch M) : result failure string :=
  let? text := ok_or (pair_json (PAIR_REVISION, batch_scope first, KIND L, batch_commands first, KIND M, batch_commands second)) (Failed AE_Json) in
  Ok (pair_digest text).

(** The loop over a marker's rows; [stage] says which classes may still come. *)
Fixpoint read_pair (db : Db) (scope : string) (marker_position : Z) (rows : list PairRow) (last : option Z) (stage : nat)
    : result failure (list (lc_event L) * list (lc_event M) * list CommandRecordFact * list Z) :=
  match rows with
  | [] => Ok ([], [], [], [])
  | row :: rows =>
      let p := pw_position row in
      if bool_decide (p < 0)%Z || bool_decide (marker_position ≤ p)%Z || match last with Some l => bool_decide (p ≠ l + 1)%Z | None => false end
      then no_pair
      else
        match select_at db scope p with
        | None => no_pair
        | Some r =>
            if negb (String.eqb (row_kind r) (pw_kind row)) then no_pair
            else
              match decode_row codec scope r with
              | None => no_pair
              | Some body =>
                  if negb (String.eqb (pair_digest body) (pw_digest row)) then no_pair
                  else if String.eqb (pw_class row) "first" && Nat.eqb stage 0 && String.eqb (row_kind r) (KIND L) then
                    let? e := ok_or (from_json ljson body) (Failed AE_Json) in
                    let? rest := read_pair db scope marker_position rows (Some p) stage in
                    let '(first, second, facts, ps) := rest in Ok (e :: first, second, facts, p :: ps)
                  else if String.eqb (pw_class row) "second" && Nat.leb stage 1 && String.eqb (row_kind r) (KIND M) then
                    let? e := ok_or (from_json mjson body) (Failed AE_Json) in
                    let? rest := read_pair db scope marker_position rows (Some p) 1 in
                    let '(first, second, facts, ps) := rest in Ok (first, e :: second, facts, p :: ps)
                  else if String.eqb (pw_class row) "fact" && Nat.leb 1 stage && negb (String.eqb (row_kind r) (KIND L))
                          && negb (String.eqb (row_kind r) (KIND M)) && negb (String.eqb (row_kind r) PAIR_KIND) then
                    let? rest := read_pair db scope marker_position rows (Some p) 2 in
                    let '(first, second, facts, ps) := rest in Ok (first, second, mkFact scope (row_kind r) body :: facts, p :: ps)
                  else no_pair
              end
        end
  end.

Definition marker_matches (command_scope key snapshot scope : string) (applied_at : Z) (m : PairMarker) : bool :=
  String.eqb (pm_revision m) PAIR_REVISION && String.eqb (pm_command_scope m) command_scope && String.eqb (pm_key m) key
  && String.eqb (pm_snapshot_digest m) (pair_digest snapshot) && String.eqb (pm_result_scope m) scope
  && String.eqb (pm_first_kind m) (KIND L) && String.eqb (pm_second_kind m) (KIND M) && lower_digest (pm_intent_digest m)
  && match pm_rows m with r :: _ => bool_decide (pw_position r = applied_at) | [] => false end.

(** [verify] *)
Definition verify_pair (c : Cdb) (pairs : PairResults) (command command_scope key snapshot scope : string)
    : result failure (RecordedLifecyclePair L M) :=
  if existsb blank [command; command_scope; key; scope] || String.eqb (KIND L) (KIND M) then no_pair
  else
    match command_by_key c command_scope key, command_receipts (log_db c) !! (command_scope, key) with
    | Some r, Some applied_at =>
        if negb (has_id command r) || negb (String.eqb (snapshot_json r) snapshot)
           || negb (String.eqb (status r) "applied" || String.eqb (status r) "processing") then no_pair
        else
          let? selected := select_markers scope command (pair_markers c scope) in
          match selected with
          | [(marker_position, marker, body)] =>
              if negb (marker_matches command_scope key snapshot scope applied_at marker) then no_pair
              else if negb (bool_decide (pairs !! command = Some (mkPairBinding command_scope key scope marker_position (pair_digest body))))
              then no_pair
              else
                let? read := read_pair (log_db c) scope marker_position (pm_rows marker) None 0 in
                let '(first, second, facts, ps) := read in
                match first, second, last ps with
                | _ :: _, _ :: _, Some p =>
                    if bool_decide (p + 1 = marker_position)%Z then Ok (mkRecordedPair first second facts ps (pm_intent_digest marker)) else no_pair
                | _, _, _ => no_pair
                end
          | _ => no_pair
          end
    | _, _ => no_pair
    end.

(** The staged rows of one class. *)
Fixpoint class_rows (db : Db) (scope class : string) (ps : list Z) : result failure (list PairRow) :=
  match ps with
  | [] => Ok []
  | p :: ps =>
      match select_at db scope p with
      | None => fail (AE_Db "Query returned no rows")
      | Some r =>
          match decode_row codec scope r with
          | None => no_pair
          | Some body => let? rest := class_rows db scope class ps in Ok (mkPairRow p class (row_kind r) (pair_digest body) :: rest)
          end
      end
  end.

Definition fact_pair_row (p : Z) (f : CommandRecordFact) : PairRow := mkPairRow p "fact" (fact_kind f) (pair_digest (fact_payload f)).

(** The staging closure of [commit], with the binding it inserts. *)
Definition stage_recorded (command command_scope key snapshot meaning : string) (first : LifecycleBatch L) (second : LifecycleBatch M)
    (facts : Z → result failure (list CommandRecordFact)) (db : Db) : result failure (Db * list Z * PairBinding) :=
  let scope := batch_scope first in
  let? one := stage_lifecycle codec anchor reducer_build L ljson db first in
  let? two := stage_lifecycle codec anchor reducer_build M mjson one.1 second in
  if match one.2, two.2 with _ :: _, _ :: _ => false | _, _ => true end then no_pair
  else
    let? prepared := facts (next_position two.1 scope) in
    if existsb (λ f, negb (String.eqb (fact_scope f) scope) || String.eqb (fact_kind f) (KIND L) || String.eqb (fact_kind f) (KIND M)
                     || String.eqb (fact_kind f) PAIR_KIND) prepared then no_pair
    else
      let? stored := encode_facts codec prepared in
      let? appended := append_facts two.1 stored in
      let? rows1 := class_rows appended.1 scope "first" one.2 in
      let? rows2 := class_rows appended.1 scope "second" two.2 in
      let? body := ok_or (to_json marker_json
        (mkPairMarker PAIR_REVISION command command_scope key (pair_digest snapshot) scope (KIND L) (KIND M) meaning
           (rows1 ++ rows2 ++ zip_with fact_pair_row appended.2 prepared))) (Failed AE_Json) in
      let? marker := encode_facts codec [mkFact scope PAIR_KIND body] in
      let? marked := append_facts appended.1 marker in
      Ok (marked.1, one.2 ++ two.2 ++ appended.2,
          mkPairBinding command_scope key scope (default 0%Z (head marked.2)) (pair_digest body)).

(** [commit] *)
Definition commit_pair (c : Cdb) (pairs : PairResults) (command command_scope key snapshot : string)
    (first : LifecycleBatch L) (second : LifecycleBatch M) (facts : Z → result failure (list CommandRecordFact))
    (final_check : result failure unit) : Cdb * PairResults * result failure MaterializedRecordAdmission :=
  let scope := batch_scope first in
  let checked :=
    if blank scope || negb (String.eqb scope (batch_scope second))
       || match batch_commands first with [] => true | _ => false end || match batch_commands second with [] => true | _ => false end
       || String.eqb (KIND L) (KIND M)
    then no_pair
    else
      let? meaning := pair_intent first second in
      if receipted c command_scope key then
        let? original := verify_pair c pairs command command_scope key snapshot scope in
        if negb (String.eqb (intent_digest original) meaning) then no_pair else Ok meaning
      else let? _ := no_marker scope command (pair_markers c scope) in Ok meaning in
  match checked with
  | Err e => (c, pairs, Err e)
  | Ok meaning =>
      let staged := stage_recorded command command_scope key snapshot meaning first second facts in
      let r := commit_staged codec c command_scope key snapshot [] None (Some command)
                 (λ db, let? w := staged db in let? _ := insert_pair pairs command w.2 in Ok w.1) final_check in
      match r.2, staged (log_db c) with
      | Ok m, Ok w => (r.1, if record_replayed m then pairs else <[command := w.2]> pairs, r.2)
      | _, _ => (r.1, pairs, r.2)
      end
  end.

(** [require_recorded_claimed_lifecycle_pair] and [commit_recorded_claimed_lifecycle_pair] *)
Section handle.
Context {Process : Type} (clock : Process → N).

Definition require_pair (h : DispatchRecordAdmission Process) (c : Cdb) (pairs : PairResults) (p0 p1 : Process)
    (command command_scope key snapshot scope : string) : result failure (RecordedLifecyclePair L M) * DispatchRecordAdmission Process :=
  with_retained_observation clock h p0 (verify_pair c pairs command command_scope key snapshot scope) p1.

Definition handle_commit_pair (h : DispatchRecordAdmission Process) (c : Cdb) (pairs : PairResults) (p0 p1 : Process)
    (command command_scope key snapshot : string) (first : LifecycleBatch L) (second : LifecycleBatch M)
    (facts : Z → result failure (list CommandRecordFact)) : Cdb * PairResults * result failure MaterializedRecordAdmission :=
  match check_latched_validity clock h p0 with
  | (Err e, _) => (c, pairs, Err e)
  | (Ok _, h) => commit_pair c pairs command command_scope key snapshot first second facts (check_latched_validity clock h p1).1
  end.
End handle.
End two.
End pair.

(** ** Reading back what was staged *)

Section reading.
Context `{ST : SignedTexts} (codec : option ContentCodec).

(** A marker's row for a row of the log. *)
Definition names_row (scope class : string) (w : PairRow) (r : EventRow) : Prop :=
  row_scope r = scope ∧ pw_position w = row_position r ∧ pw_class w = class ∧ pw_kind w = row_kind r
  ∧ ∃ body, decode_row codec scope r = Some body ∧ pw_digest w = pair_digest body.

Lemma class_rows_named db scope class new : ∀ ws,
  db_ok db → Forall (λ r, row_scope r = scope) new → new ⊆ events db →
  class_rows codec db scope class (row_position <$> new) = Ok ws → Forall2 (names_row scope class) ws new.
Proof.
  induction new as [|r new IH]; intros ws Hok Hs Hin Hw; cbn [fmap list_fmap class_rows] in Hw; [by injection Hw as <-|].
  apply Forall_cons in Hs as [Hr Hs]. rewrite <- Hr in Hw at 1. rewrite row_selected in Hw by (done || apply Hin; left).
  destruct (decode_row codec scope r) as [body|] eqn:Hd; [|done]. destruct (class_rows _ _ _ _ _) as [rest|] eqn:Hrest; [|done]. injection Hw as <-.
  constructor; [by split_and!; [..|exists body]|]. apply IH; [done|done| |done]. intros x Hx. apply Hin. by right.
Qed.

Lemma fact_rows_named scope prepared rows :
  Forall2 (fact_row codec) prepared rows → Forall (λ f, fact_scope f = scope) prepared →
  Forall2 (names_row scope "fact") (zip_with fact_pair_row (row_position <$> rows) prepared) rows.
Proof.
  induction 1 as [|f r prepared rows (Hs & Hk & Hd) _ IH]; intros Hf; [done|]. apply Forall_cons in Hf as [Hf Hfs]. cbn.
  constructor; [|by apply IH]. rewrite Hf in *. split_and!; try done. by exists (fact_payload f).
Qed.

Section two.
Context (L M : Lifecycle) (ljson : Json (lc_event L)) (mjson : Json (lc_event M)).
Context (HLM : KIND L ≠ KIND M) (HL : KIND L ≠ PAIR_KIND) (HM : KIND M ≠ PAIR_KIND).
Notation read := (read_pair codec L M ljson mjson).

(** Where the loop is after a run of rows that starts at [base]. *)
Definition after (last : option Z) (base : Z) (n : nat) : option Z := match n with 0 => last | S n => Some (base + Z.of_nat n)%Z end.
Definition at_base (last : option Z) (base : Z) : Prop := ∀ l, last = Some l → base = (l + 1)%Z.

Lemma at_base_after last base n : at_base last base → at_base (after last base n) (base + Z.of_nat n)%Z.
Proof. intros Hb l. destruct n; cbn; [rewrite Z.add_0_r; apply Hb|]. intros [= <-]. lia. Qed.

(** One row passes the checks that every class shares. *)
Lemma row_passes db scope mp class w r last base :
  db_ok db → r ∈ events db → names_row scope class w r → row_position r = base → at_base last base → (0 ≤ base < mp)%Z →
  (bool_decide (pw_position w < 0)%Z || bool_decide (mp ≤ pw_position w)%Z
     || match last with Some l => bool_decide (pw_position w ≠ l + 1)%Z | None => false end) = false
  ∧ select_at db scope (pw_position w) = Some r ∧ String.eqb (row_kind r) (pw_kind w) = true
  ∧ ∃ body, decode_row codec scope r = Some body ∧ String.eqb (pair_digest body) (pw_digest w) = true ∧ pw_class w = class.
Proof.
  intros Hok Hin (Hs & Hp & Hc & Hk & body & Hd & Hb) <- Hbase Hr. rewrite Hp. split_and!.
  - rewrite !bool_decide_eq_false_2 by lia. destruct last as [l|]; [|done]. rewrite bool_decide_eq_false_2; [done|]. intros Hne. by apply Hne, Hbase.
  - rewrite <- Hs. by apply row_selected.
  - rewrite Hk. by apply String.eqb_refl.
  - exists body. rewrite Hb, String.eqb_refl. by split_and!.
Qed.

Notation numbered_from base rows := (row_position <$> rows = seqZ base (Z.of_nat (length rows))).

Lemma numbered_cons base r rows : numbered_from base (r :: rows) → row_position r = base ∧ numbered_from (base + 1)%Z rows.
Proof. cbn [fmap list_fmap length]. rewrite seqZ_cons by lia. intros [= Hr Hrest]. split; [done|]. rewrite Hrest. f_equal; lia. Qed.

Lemma after_succ base n : after (Some base) (base + 1) n = after None base (S n).
Proof. destruct n; cbn; f_equal; lia. Qed.

Lemma read_firsts db scope mp rows : ∀ es ws last base rest f s fa ps,
  db_ok db → rows ⊆ events db → Forall2 (event_row codec L ljson scope) es rows → Forall2 (names_row scope "first") ws rows →
  numbered_from base rows → at_base last base → (0 ≤ base)%Z → (base + Z.of_nat (length rows) ≤ mp)%Z →
  read db scope mp rest (after last base (length rows)) 0 = Ok (f, s, fa, ps) →
  read db scope mp (ws ++ rest) last 0 = Ok (es ++ f, s, fa, (row_position <$> rows) ++ ps).
Proof.
  induction rows as [|r rows IH]; intros es ws last base rest f s fa ps Hok Hin He Hw Hn Hb H0 Hmp Hrest.
  { apply Forall2_nil_inv_r in He as ->. by apply Forall2_nil_inv_r in Hw as ->. }
  apply Forall2_cons_inv_r in He as (e & es' & (Hs & Hk & plain & Hd & Hj) & He & ->). apply Forall2_cons_inv_r in Hw as (w & ws' & Hw1 & Hw & ->).
  apply numbered_cons in Hn as [Hp Hn]. cbn [length] in *.
  destruct (row_passes db scope mp _ w r last base Hok (Hin _ (list_elem_of_here _ _)) Hw1 Hp Hb) as (H1 & H2 & H3 & body & H4 & H5 & H6); [lia|].
  assert (body = plain) as -> by congruence. cbn [app read_pair]. rewrite H1, H2, H3, H4, H5, H6, Hk, !String.eqb_refl. cbn [negb andb Nat.eqb]. rewrite Hj. cbn [ok_or].
  assert (pw_position w = base) as Hpw by (by destruct Hw1 as (_ & -> & _)). rewrite Hpw.
  rewrite (IH es' ws' (Some base) (base + 1)%Z rest f s fa ps); try done; [by rewrite <- Hp|..].
  - intros x Hx. apply Hin. by right.
  - intros l [= <-]. done.
  - lia.
  - lia.
  - rewrite after_succ. exact Hrest.
Qed.

Lemma read_seconds db scope mp rows : ∀ es ws last st base rest f s fa ps,
  db_ok db → rows ⊆ events db → Forall2 (event_row codec M mjson scope) es rows → Forall2 (names_row scope "second") ws rows →
  numbered_from base rows → at_base last base → (0 ≤ base)%Z → (base + Z.of_nat (length rows) ≤ mp)%Z → st ≤ 1 →
  read db scope mp rest (after last base (length rows)) (match rows with [] => st | _ => 1 end) = Ok (f, s, fa, ps) →
  read db scope mp (ws ++ rest) last st = Ok (f, es ++ s, fa, (row_position <$> rows) ++ ps).
Proof.
  induction rows as [|r rows IH]; intros es ws last st base rest f s fa ps Hok Hin He Hw Hn Hb H0 Hmp Hst Hrest.
  { apply Forall2_nil_inv_r in He as ->. by apply Forall2_nil_inv_r in Hw as ->. }
  apply Forall2_cons_inv_r in He as (e & es' & (Hs & Hk & plain & Hd & Hj) & He & ->). apply Forall2_cons_inv_r in Hw as (w & ws' & Hw1 & Hw & ->).
  apply numbered_cons in Hn as [Hp Hn]. cbn [length] in *.
  destruct (row_passes db scope mp _ w r last base Hok (Hin _ (list_elem_of_here _ _)) Hw1 Hp Hb) as (H1 & H2 & H3 & body & H4 & H5 & H6); [lia|].
  assert (body = plain) as -> by congruence. cbn [app read_pair]. rewrite H1, H2, H3, H4, H5, H6, Hk, !String.eqb_refl, (proj2 (Nat.leb_le st 1) Hst).
  change (String.eqb "second" "first") with false. cbn [negb andb]. rewrite Hj. cbn [ok_or].
  assert (pw_position w = base) as Hpw by (by destruct Hw1 as (_ & -> & _)). rewrite Hpw.
  rewrite (IH es' ws' (Some base) 1 (base + 1)%Z rest f s fa ps); try done; [by rewrite <- Hp|..].
  - intros x Hx. apply Hin. by right.
  - intros l [= <-]. done.
  - lia.
  - lia.
  - rewrite after_succ. by destruct rows.
Qed.

Lemma read_fact_rows db scope mp rows : ∀ fs ws last st base,
  db_ok db → rows ⊆ events db → Forall2 (fact_row codec) fs rows → Forall2 (names_row scope "fact") ws rows →
  Forall (λ f, fact_scope f = scope ∧ fact_kind f ≠ KIND L ∧ fact_kind f ≠ KIND M ∧ fact_kind f ≠ PAIR_KIND) fs →
  numbered_from base rows → at_base last base → (0 ≤ base)%Z → (base + Z.of_nat (length rows) ≤ mp)%Z → 1 ≤ st →
  read db scope mp ws last st = Ok ([], [], fs, row_position <$> rows).
Proof.
  induction rows as [|r rows IH]; intros fs ws last st base Hok Hin He Hw Hf Hn Hb H0 Hmp Hst.
  { apply Forall2_nil_inv_r in He as ->. by apply Forall2_nil_inv_r in Hw as ->. }
  apply Forall2_cons_inv_r in He as (x & fs' & (Hs & Hk & Hd) & He & ->). apply Forall2_cons_inv_r in Hw as (w & ws' & Hw1 & Hw & ->).
  apply Forall_cons in Hf as [(Hf1 & Hf2 & Hf3 & Hf4) Hf]. apply numbered_cons in Hn as [Hp Hn]. cbn [length] in *.
  destruct (row_passes db scope mp _ w r last base Hok (Hin _ (list_elem_of_here _ _)) Hw1 Hp Hb) as (H1 & H2 & H3 & body & H4 & H5 & H6); [lia|].
  rewrite Hf1 in Hd. assert (body = fact_payload x) as -> by congruence. cbn [read_pair]. rewrite H1, H2, H3, H4, H5, H6, Hk.
  rewrite (proj2 (Nat.leb_le 1 st) Hst), !(proj2 (String.eqb_neq (fact_kind x) _)) by done.
  change (String.eqb "fact" "first") with false. change (String.eqb "fact" "second") with false. cbn [negb andb].
  assert (pw_position w = base) as Hpw by (by destruct Hw1 as (_ & -> & _)). rewrite Hpw.
  rewrite (IH fs' ws' (Some base) 2 (base + 1)%Z); try done.
  - cbn [fmap list_fmap]. rewrite Hp, <- Hf1. by destruct x.
  - intros y Hy. apply Hin. by right.
  - intros l [= <-]. done.
  - lia.
  - lia.
  - lia.
Qed.

(** A whole marker. *)
Lemma read_whole db scope base rows1 rows2 rowsf es1 es2 fs ws1 ws2 wsf :
  db_ok db → rows1 ++ rows2 ++ rowsf ⊆ events db →
  Forall2 (event_row codec L ljson scope) es1 rows1 → Forall2 (event_row codec M mjson scope) es2 rows2 → Forall2 (fact_row codec) fs rowsf →
  Forall2 (names_row scope "first") ws1 rows1 → Forall2 (names_row scope "second") ws2 rows2 → Forall2 (names_row scope "fact") wsf rowsf →
  Forall (λ f, fact_scope f = scope ∧ fact_kind f ≠ KIND L ∧ fact_kind f ≠ KIND M ∧ fact_kind f ≠ PAIR_KIND) fs →
  numbered_from base (rows1 ++ rows2 ++ rowsf) → (0 ≤ base)%Z → rows2 ≠ [] →
  read db scope (base + Z.of_nat (length (rows1 ++ rows2 ++ rowsf)))%Z (ws1 ++ ws2 ++ wsf) None 0
  = Ok (es1, es2, fs, row_position <$> rows1 ++ rows2 ++ rowsf).
Proof.
  intros Hok Hin H1 H2 Hf W1 W2 Wf Hfs Hn H0 Hne. set (mp := (base + _)%Z).
  rewrite !fmap_app, !length_app, !Nat2Z.inj_add in Hn. rewrite !seqZ_app in Hn by lia.
  apply app_inj_1 in Hn as [N1 Hn]; [|by rewrite length_fmap, length_seqZ, Nat2Z.id].
  apply app_inj_1 in Hn as [N2 Nf]; [|by rewrite length_fmap, length_seqZ, Nat2Z.id].
  assert (mp = base + Z.of_nat (length rows1) + Z.of_nat (length rows2) + Z.of_nat (length rowsf))%Z as Hmp by (subst mp; rewrite !length_app; lia).
  pose proof (at_base_after None base (length rows1) ltac:(done)) as B1.
  pose proof (at_base_after _ _ (length rows2) B1) as B2.
  erewrite (read_firsts db scope mp rows1 es1 ws1 None base (ws2 ++ wsf) [] (es2 ++ []) fs ((row_position <$> rows2) ++ (row_position <$> rowsf))); try done.
  - by rewrite !app_nil_r, !fmap_app.
  - intros x Hx. apply Hin, elem_of_app. by left.
  - lia.
  - eapply (read_seconds db scope mp rows2 es2 ws2 _ 0 (base + Z.of_nat (length rows1))%Z wsf [] [] fs); try done; try lia.
    + intros x Hx. apply Hin, elem_of_app. right. apply elem_of_app. by left.
    + destruct rows2 as [|r2 rows2]; [done|].
      apply (read_fact_rows db scope mp rowsf fs wsf _ 1 (base + Z.of_nat (length rows1) + Z.of_nat (length (r2 :: rows2)))%Z); try done; try lia.
      intros x Hx. apply Hin, elem_of_app. right. apply elem_of_app. by right.
Qed.
End two.
End reading.

(** ** A recorded pair *)

Section steps.
Context `{ST : SignedTexts} (codec : option ContentCodec) (anchor : string → string) (reducer_build : string).
Context {I : Type} (host : I → Hosted).
Context `{!EqDecision I, !CodecLaws codec, !AnchorLaws anchor}.
Context (Hkinds : ∀ i j, KIND (lifecycle (host i)) = KIND (lifecycle (host j)) → i = j).
Context (Hdispatch : record_kind host DISPATCH_KIND) (Hpair : record_kind host PAIR_KIND).
(** The [hex] crate writes lower case, and a SHA-256 digest has 32 bytes. *)
Context (Hlower : ∀ bs, lower_digest (sha256_hex bs) = true).
Context (intent_json : Json DispatchIntent) `{!JsonLaws intent_json}.
Context (marker_json : Json PairMarker) `{!JsonLaws marker_json}.

Notation system_ok := (system_ok codec reducer_build host).
Notation holds := (holds codec reducer_build host).
Notation folds i db scope := (fold_i codec anchor reducer_build host i db scope).
Notation fact_kind_ok := (fact_kind_ok host).
Notation inv := (inv codec reducer_build host intent_json).
Notation advance := (advance codec reducer_build host intent_json).
Notation advance_for := (advance_for codec reducer_build host intent_json).

(** Markers that were searched without finding the command's are passed by. *)
Lemma no_marker_selects scope command rows : no_marker codec marker_json scope command rows = Ok () →
  ∀ rest, select_markers codec marker_json scope command (rows ++ rest) = select_markers codec marker_json scope command rest.
Proof.
  induction rows as [|r rows IH]; intros Hn rest; [done|]. cbn [app select_markers no_marker] in *.
  destruct (read_marker _ _ _ _) as [m|]; [|done]. destruct (String.eqb _ _); [done|]. rewrite IH by done.
  by destruct (select_markers _ _ _ _ rest).
Qed.

Lemma select_before scope command rows more : no_marker codec marker_json scope command more = Ok () →
  select_markers codec marker_json scope command (rows ++ more) = select_markers codec marker_json scope command rows.
Proof.
  intros Hn. induction rows as [|r rows IH]; cbn [app select_markers].
  - pose proof (no_marker_selects scope command more Hn []) as Hnil. by rewrite app_nil_r in Hnil.
  - destruct (read_marker _ _ _ _); [|done]. by rewrite IH.
Qed.

Lemma read_pair_later L M ljson mjson db db' scope mp rows : db_ok db → db_ok db' → events db `prefix_of` events db' →
  ∀ last st x, read_pair codec L M ljson mjson db scope mp rows last st = Ok x → read_pair codec L M ljson mjson db' scope mp rows last st = Ok x.
Proof.
  intros Hok Hok' Hpre. induction rows as [|w rows IH]; intros last st x; cbn [read_pair]; [done|].
  destruct (_ || _); [done|]. destruct (select_at db _ _) as [r|] eqn:Hr; [|done]. rewrite (select_at_later db db' _ _ r Hok Hok' Hpre Hr).
  destruct (negb _); [done|]. destruct (decode_row _ _ _); [|done]. destruct (negb _); [done|].
  repeat (destruct (_ && _); [try (destruct (ok_or _ _); [|done]);
    destruct (read_pair _ _ _ _ _ _ _ _ rows _ _) as [y|] eqn:Hy; [|done]; by rewrite (IH _ _ _ Hy)|]). done.
Qed.

Section held.
Context (i j : I).
Notation L := (lifecycle (host i)).
Notation M := (lifecycle (host j)).
Context (pair_json : string * string * string * list (lc_command L) * string * list (lc_command M) → option string).
Notation intent first second := (pair_intent L M pair_json first second).
Notation verify c pairs command cscope key snapshot scope :=
  (verify_pair codec marker_json L M (h_json (host i)) (h_json (host j)) c pairs command cscope key snapshot scope).
Notation commit c pairs command cscope key snapshot first second facts final :=
  (commit_pair codec anchor reducer_build marker_json L M (h_json (host i)) (h_json (host j)) pair_json
     c pairs command cscope key snapshot first second facts final).
Notation stage command cscope key snapshot meaning first second facts :=
  (stage_recorded codec anchor reducer_build marker_json L M (h_json (host i)) (h_json (host j))
     command cscope key snapshot meaning first second facts).

(** What staging a pair writes: the rows of the first batch, of the second, of the facts,
    and the marker that names them. *)
Record pair_staged (db db' : Db) (scope : string) (first : LifecycleBatch L) (second : LifecycleBatch M)
    (facts : Z → result failure (list CommandRecordFact)) (es : list (lc_event L)) (et : list (lc_event M))
    (fs : list CommandRecordFact) (rows1 rows2 rowsf : list EventRow) (marker : EventRow) : Prop := {
  ps_first : ∃ s s' log, folds i db scope = Ok s ∧ batched L s (batch_commands first) es s' ∧ holds i db' scope log ∧ trace L log s';
  ps_second : ∃ t t' log, folds j db scope = Ok t ∧ batched M t (batch_commands second) et t' ∧ holds j db' scope log ∧ trace M log t';
  ps_facts : facts (next_position db scope + Z.of_nat (length (rows1 ++ rows2)))%Z = Ok fs;
  ps_clear : Forall (λ f, fact_scope f = scope ∧ fact_kind f ≠ KIND L ∧ fact_kind f ≠ KIND M ∧ fact_kind f ≠ PAIR_KIND) fs;
  ps_events : events db' = events db ++ rows1 ++ rows2 ++ rowsf ++ [marker];
  ps_rows1 : Forall2 (event_row codec L (h_json (host i)) scope) es rows1;
  ps_rows2 : Forall2 (event_row codec M (h_json (host j)) scope) et rows2;
  ps_rowsf : Forall2 (fact_row codec) fs rowsf;
  ps_some : rows1 ≠ [] ∧ rows2 ≠ [];
  ps_marker : row_scope marker = scope ∧ row_kind marker = PAIR_KIND;
}.

Lemma next_after db db' scope new :
  db_ok db → db_ok db' → events db' = events db ++ new → Forall (λ r, row_scope r = scope) new →
  next_position db' scope = (next_position db scope + Z.of_nat (length new))%Z.
Proof.
  intros Hok Hok' He Hs. rewrite !next_position_dense by done. unfold scope_rows. rewrite He, filter_app, length_app.
  rewrite (filter_keeps_all _ new) by (by apply Forall_forall). lia.
Qed.

Lemma staged_pair db command cscope key snapshot meaning scope first second facts db' ps b :
  system_ok db → i ≠ j → batch_scope first = scope → batch_scope second = scope → (∀ n fs, facts n = Ok fs → Forall (λ f, fact_kind_ok (fact_kind f)) fs) →
  stage command cscope key snapshot meaning first second facts db = Ok (db', ps, b) →
  system_ok db' ∧ command_receipts db' = command_receipts db
  ∧ ∃ es et fs rows1 rows2 rowsf marker body ws1 ws2 wsf,
      pair_staged db db' scope first second facts es et fs rows1 rows2 rowsf marker
      ∧ ps = row_position <$> rows1 ++ rows2 ++ rowsf
      ∧ decode_row codec scope marker = Some body
      ∧ from_json marker_json body = Some (mkPairMarker PAIR_REVISION command cscope key (pair_digest snapshot) scope (KIND L) (KIND M) meaning (ws1 ++ ws2 ++ wsf))
      ∧ Forall2 (names_row codec scope "first") ws1 rows1 ∧ Forall2 (names_row codec scope "second") ws2 rows2 ∧ Forall2 (names_row codec scope "fact") wsf rowsf
      ∧ b = mkPairBinding cscope key scope (row_position marker) (pair_digest body).
Proof.
  intros Hsys Hij Hsa Hsc Hfacts Hst. unfold stage_recorded in Hst. rewrite Hsa in Hst.
  destruct (stage_lifecycle _ _ _ _ _ db first) as [[db1 ps1]|] eqn:H1; [|done]. cbn [fst snd] in Hst.
  destruct (stage_lifecycle_batched codec anchor reducer_build host Hkinds Hdispatch i db first db1 ps1 Hsys H1)
    as (Hsys1 & Hrc1 & Hfr1 & s & es & s' & log & rows1 & Hf1 & Hb1 & Hh1 & Ht1 & He1 & -> & Hr1).
  destruct (stage_lifecycle _ _ _ _ _ db1 second) as [[db2 ps2]|] eqn:H2; [|done]. cbn [fst snd] in Hst.
  destruct (stage_lifecycle_batched codec anchor reducer_build host Hkinds Hdispatch j db1 second db2 ps2 Hsys1 H2)
    as (Hsys2 & Hrc2 & Hfr2 & t & et & t' & logt & rows2 & Hf2 & Hb2 & Hh2 & Ht2 & He2 & -> & Hr2).
  rewrite Hsa in *. rewrite Hsc in *.
  destruct (match row_position <$> rows1 with [] => true | _ => _ end) eqn:Hsome; [done|].
  assert (rows1 ≠ [] ∧ rows2 ≠ []) as Hne by (by destruct rows1, rows2).
  destruct (facts _) as [fs|] eqn:Hfs; [|done]. destruct (existsb _ fs) eqn:Hclear; [done|].
  destruct (encode_facts codec fs) as [stored|] eqn:Hst0; [|done]. destruct (append_facts db2 stored) as [[db3 ps3]|] eqn:H3; [|done]. cbn [fst snd] in Hst.
  destruct (append_facts_rows codec reducer_build host fs db2 stored db3 ps3) as (Hsys3 & Hrc3 & (rowsf & He3 & -> & Hrf) & Hkeep3); [|done..|].
  { eapply Forall_impl; [exact (Hfacts _ _ Hfs)|by intros f []]. }
  destruct (class_rows _ db3 _ "first" _) as [ws1|] eqn:Hw1; [|done]. destruct (class_rows _ db3 _ "second" _) as [ws2|] eqn:Hw2; [|done].
  destruct (to_json marker_json _) as [body|] eqn:Hj; [|done]. cbn [ok_or] in Hst.
  destruct (encode_facts codec [_]) as [mstored|] eqn:Hm0; [|done]. destruct (append_facts db3 mstored) as [[db4 ps4]|] eqn:H4; [|done]. injection Hst as <- <- <-.
  destruct (append_facts_rows codec reducer_build host [mkFact scope PAIR_KIND body] db3 mstored db4 ps4) as (Hsys4 & Hrc4 & (new & He4 & -> & Hnew) & Hkeep4); [by repeat constructor|done..|].
  apply Forall2_cons_inv_l in Hnew as (mk & rest & (Hs4 & Hk4 & Hd4) & Hrest & ->). apply Forall2_nil_inv_l in Hrest as ->. cbn [fact_scope fact_kind fact_payload] in *.
  assert (Forall (λ r, row_scope r = scope) rows1) as Hsc1 by (eapply Forall2_Forall_r; [exact Hr1|]; apply Forall_true; by intros ?? []).
  assert (Forall (λ r, row_scope r = scope) rows2) as Hsc2 by (eapply Forall2_Forall_r; [exact Hr2|]; apply Forall_true; by intros ?? []).
  assert (rows1 ⊆ events db3 ∧ rows2 ⊆ events db3) as [Hin1 Hin2] by (rewrite He3, He2, He1; set_solver).
  split_and!; [done|congruence|]. exists es, et, fs, rows1, rows2, rowsf, mk, body, ws1, ws2, (zip_with fact_pair_row (row_position <$> rowsf) fs).
  assert (next_position db2 scope = next_position db scope + Z.of_nat (length (rows1 ++ rows2)))%Z as Hnext.
  { apply next_after; [by destruct Hsys|by destruct Hsys2|by rewrite He2, He1, <- app_assoc|by apply Forall_app]. }
  assert (Forall (λ f, fact_scope f = scope ∧ fact_kind f ≠ KIND L ∧ fact_kind f ≠ KIND M ∧ fact_kind f ≠ PAIR_KIND) fs) as Hfc.
  { apply Forall_forall. intros f Hf. apply not_true_iff_false in Hclear. rewrite existsb_exists in Hclear.
    split_and!; [apply dec_stable| | |]; intros Heq; apply Hclear; exists f; (split; [by apply list_elem_of_In|]);
      [by rewrite (proj2 (String.eqb_neq _ _) Heq)|rewrite Heq, String.eqb_refl; by rewrite ?orb_true_r..]. }
  split_and!; [split|by rewrite !fmap_app|done|by rewrite (json_roundtrip _ _ Hj)|by eapply class_rows_named; try done; destruct Hsys3..|by apply fact_rows_named; [|eapply Forall_impl; [exact Hfc|by intros f []]]|done].
  - exists s, s', log. split_and!; [done|done| |done]. apply Hkeep4, Hkeep3, Hfr2; [congruence|done].
  - destruct Hsys as [Hok Hall]. destruct (Hall j scope) as (logj & sj & Htj & Hhj). exists t, t', logt. split_and!; [|done|by apply Hkeep4, Hkeep3|done].
    rewrite <- Hf2. rewrite (holds_fold codec anchor reducer_build host j db scope logj sj) by done. symmetry.
    eapply holds_fold; [by destruct Hsys1|apply Hfr1; [congruence|exact Hhj]|done].
  - by rewrite <- Hnext.
  - done.
  - by rewrite He4, He3, He2, He1, <- !app_assoc.
  - done.
  - done.
  - done.
  - done.
  - done.
Qed.

(** What makes a pair verify. *)
Record recorded (c : Cdb) (pairs : PairResults) (command cscope key snapshot scope : string) (p : RecordedLifecyclePair L M) : Prop := {
  rc_row : ∃ r, command_by_key c cscope key = Some r ∧ has_id command r = true ∧ snapshot_json r = snapshot;
  rc_pair : ∃ applied_at mp marker body,
    command_receipts (log_db c) !! (cscope, key) = Some applied_at
    ∧ select_markers codec marker_json scope command (pair_markers c scope) = Ok [(mp, marker, body)]
    ∧ marker_matches L M cscope key snapshot scope applied_at marker = true
    ∧ pairs !! command = Some (mkPairBinding cscope key scope mp (pair_digest body))
    ∧ read_pair codec L M (h_json (host i)) (h_json (host j)) (log_db c) scope mp (pm_rows marker) None 0
      = Ok (first_events p, second_events p, pair_facts p, pair_positions p)
    ∧ first_events p ≠ [] ∧ second_events p ≠ [] ∧ last (pair_positions p) = Some (mp - 1)%Z
    ∧ pm_intent_digest marker = intent_digest p;
}.

(** The command of a key is applied, or was taken up again. *)
Definition settled (c : Cdb) (cscope key : string) : Prop :=
  ∃ r, command_by_key c cscope key = Some r ∧ (status r = "applied" ∨ status r = "processing").

Lemma recorded_verified c pairs command cscope key snapshot scope p :
  recorded c pairs command cscope key snapshot scope p → settled c cscope key →
  existsb blank [command; cscope; key; scope] = false → KIND L ≠ KIND M →
  verify c pairs command cscope key snapshot scope = Ok p.
Proof.
  intros [(r & Hr & Hid & Hsn) (at_ & mp & marker & body & Hrc & Hsel & Hm & Hb & Hread & Hf & Hs & Hl & Hi)] (r' & Hr' & Hst) Hn Hk.
  assert (r' = r) as -> by congruence. unfold verify_pair. rewrite Hn, (proj2 (String.eqb_neq _ _) Hk), Hr, Hrc, Hid, Hsn, String.eqb_refl. cbn [negb orb].
  assert (negb (String.eqb (status r) "applied" || String.eqb (status r) "processing") = false) as -> by (by destruct Hst as [-> | ->]).
  rewrite Hsel, Hm, bool_decide_eq_true_2 by done. cbn [negb]. rewrite Hread. destruct p as [f s fa ps d]. cbn in *.
  destruct f; [done|]. destruct s; [done|]. rewrite Hl, bool_decide_eq_true_2 by lia. by rewrite Hi.
Qed.

(** A pair is only ever found in the scope its binding names. *)
Lemma verified_bound c pairs command cscope key snapshot scope p b :
  verify c pairs command cscope key snapshot scope = Ok p → pairs !! command = Some b → pb_result_scope b = scope.
Proof.
  unfold verify_pair. intros Hv Hb. destruct (_ || _); [done|]. destruct (command_by_key _ _ _); [|done]. destruct (command_receipts _ !! _); [|done].
  destruct (_ || _); [done|]. destruct (select_markers _ _ _ _ _) as [[|[[mp m] body] []]|]; [done| |done..].
  destruct (negb _); [done|]. case_bool_decide as Hbind; [|done]. rewrite Hb in Hbind. by injection Hbind as ->.
Qed.

Lemma recorded_later P c c' pairs pairs' command cscope key snapshot scope p more :
  db_ok (log_db c) → advance_for P c c' → pair_markers c' scope = pair_markers c scope ++ more →
  no_marker codec marker_json scope command more = Ok () → pairs' !! command = pairs !! command →
  recorded c pairs command cscope key snapshot scope p → recorded c' pairs' command cscope key snapshot scope p.
Proof.
  intros Hok [[[Hok' _] (new & He & _) Hsub] Hcok Hkept _ _ _] Hmk Hmore Hp [(r & Hr & Hid & Hsn) (at_ & mp & marker & body & Hrc & Hsel & Hm & Hb & Hread & Hf & Hs & Hl & Hi)].
  split.
  - destruct (rows_kept_by_key c c' cscope key r Hcok Hkept Hr) as (r' & Hr' & Heq). exists r'. unfold identity in Heq. injection Heq as Hid' _ _ Hsn'.
    unfold has_id in *. rewrite Hid', Hsn'. by split_and!.
  - exists at_, mp, marker, body. rewrite Hmk, Hp, select_before by done. split_and!; [by eapply lookup_weaken|done..| |done|done|done|done].
    eapply (read_pair_later _ _ _ _ (log_db c)); [done|done|rewrite He; by apply prefix_app_r|done].
Qed.

Lemma pair_markers_grow c c' scope new :
  db_ok (log_db c) → db_ok (log_db c') → events (log_db c') = events (log_db c) ++ new →
  pair_markers c' scope = pair_markers c scope ++ filter (λ r, row_kind r = PAIR_KIND) (filter (λ r, row_scope r = scope) new).
Proof. intros Hok Hok' He. unfold pair_markers. rewrite !select_scope_dense by done. unfold scope_rows. by rewrite He, !filter_app. Qed.

(** What was staged is recorded. *)
Lemma staged_recorded c c1 pairs command cscope key snapshot meaning scope first second facts es et fs rows1 rows2 rowsf marker body ws1 ws2 wsf bs :
  db_ok (log_db c) → db_ok (log_db c1) → no_marker codec marker_json scope command (pair_markers c scope) = Ok () →
  pair_staged (log_db c) (log_db c1) scope first second facts es et fs rows1 rows2 rowsf marker →
  meaning = pair_digest bs →
  decode_row codec scope marker = Some body →
  from_json marker_json body = Some (mkPairMarker PAIR_REVISION command cscope key (pair_digest snapshot) scope (KIND L) (KIND M) meaning (ws1 ++ ws2 ++ wsf)) →
  Forall2 (names_row codec scope "first") ws1 rows1 → Forall2 (names_row codec scope "second") ws2 rows2 → Forall2 (names_row codec scope "fact") wsf rowsf →
  (∃ r, command_by_key c1 cscope key = Some r ∧ has_id command r = true ∧ snapshot_json r = snapshot) →
  command_receipts (log_db c1) !! (cscope, key) = head (row_position <$> rows1 ++ rows2 ++ rowsf) →
  pairs !! command = Some (mkPairBinding cscope key scope (row_position marker) (pair_digest body)) →
  recorded c1 pairs command cscope key snapshot scope (mkRecordedPair es et fs (row_position <$> rows1 ++ rows2 ++ rowsf) meaning).
Proof.
  intros Hok Hok1 Hno [_ _ Hfacts Hclear He Hr1 Hr2 Hrf [Hne1 Hne2] [Hms Hmk]] -> Hd Hj W1 W2 Wf Hrow Hrc Hb. split; [done|].
  set (R := rows1 ++ rows2 ++ rowsf) in *. assert (events (log_db c1) = events (log_db c) ++ R ++ [marker]) as He' by (subst R; by rewrite He, <- !app_assoc).
  assert (Forall (λ r, row_scope r = scope ∧ row_kind r ≠ PAIR_KIND) R) as HR.
  { subst R. rewrite !Forall_app. split_and!.
    - eapply Forall2_Forall_r; [exact Hr1|]. apply Forall_true. intros e r (Hs & -> & _). split; [done|]. intros Heq. by apply (Hpair i).
    - eapply Forall2_Forall_r; [exact Hr2|]. apply Forall_true. intros e r (Hs & -> & _). split; [done|]. intros Heq. by apply (Hpair j).
    - apply Forall_forall. intros r [k Hk]%list_elem_of_lookup. destruct (Forall2_lookup_r _ _ _ _ _ Hrf Hk) as (f & Hf & Hs & Hkd & _).
      destruct (proj1 (Forall_lookup _ _) Hclear k f Hf) as (H1 & _ & _ & H2). split; [by rewrite Hs|by rewrite Hkd]. }
  assert (Forall (λ r, row_scope r = scope) (R ++ [marker])) as Hsc.
  { apply Forall_app. split; [by eapply Forall_impl; [exact HR|intros r []]|by constructor]. }
  pose proof (positions_follow _ _ scope _ Hok Hok1 He' Hsc) as Hpos. rewrite fmap_app, length_app, Nat2Z.inj_add, seqZ_app in Hpos by lia.
  set (base := next_position (log_db c) scope) in *. assert (0 ≤ base)%Z as Hbase by (subst base; rewrite next_position_dense by done; lia).
  apply app_inj_1 in Hpos as [Hpos Hmp]; [|by rewrite length_fmap, length_seqZ, Nat2Z.id]. injection Hmp as Hmp. rewrite Z.add_0_l in Hmp.
  destruct rows1 as [|r1 rows1']; [done|]. apply Forall2_cons_inv_r in W1 as (w1 & ws1' & Hw1 & W1' & ->).
  exists (row_position r1), (row_position marker). eexists _, body. split; [exact Hrc|]. split_and!.
  - rewrite (pair_markers_grow c c1 scope (R ++ [marker]) Hok Hok1 He'), no_marker_selects by done.
    rewrite (filter_keeps_all _ (R ++ [marker])) by (by apply Forall_forall). rewrite filter_app, filter_keeps_none, filter_cons_True, filter_nil by
      (done || (intros r Hr; by apply (proj1 (Forall_forall _ _) HR) in Hr as [_ ?])).
    cbn [app select_markers]. unfold read_marker. rewrite Hd, Hj. cbn [ok_or pm_command fst snd]. by rewrite String.eqb_refl.
  - unfold marker_matches. cbn [pm_revision pm_command_scope pm_key pm_snapshot_digest pm_result_scope pm_first_kind pm_second_kind pm_intent_digest pm_rows app].
    rewrite !String.eqb_refl, (Hlower (bytes_of bs) : lower_digest (pair_digest bs) = true). cbn [andb]. apply bool_decide_eq_true. by destruct Hw1 as (_ & -> & _).
  - done.
  - cbn [pm_rows first_events second_events pair_facts pair_positions]. rewrite Hmp.
    eapply (read_whole codec L M _ _ (log_db c1) scope base (r1 :: rows1') rows2 rowsf es et fs (w1 :: ws1') ws2 wsf); try done; [|by constructor].
    change (R ⊆ events (log_db c1)). rewrite He'. set_solver.
  - cbn [first_events]. intros ->. by apply Forall2_nil_inv_l in Hr1.
  - cbn [second_events]. intros ->. by apply Forall2_nil_inv_l in Hr2.
  - cbn [pair_positions]. rewrite Hpos, Hmp, last_lookup, length_seqZ, Nat2Z.id. apply lookup_seqZ. subst R. cbn [length app]. lia.
  - done.
Qed.

Definition pair_stage (pairs : PairResults) command cscope key snapshot meaning first second facts (db : Db) : result failure (Db * list Z) :=
  let? w := stage command cscope key snapshot meaning first second facts db in let? _ := insert_pair pairs command w.2 in Ok w.1.

Lemma recorded_stages pairs command cscope key snapshot meaning first second facts :
  (∀ n fs, facts n = Ok fs → Forall (λ f, fact_kind_ok (fact_kind f)) fs) →
  stages codec reducer_build host (pair_stage pairs command cscope key snapshot meaning first second facts).
Proof.
  intros Hfacts P db db' ps Hsys Hst. unfold pair_stage in Hst. destruct (stage _ _ _ _ _ _ _ _ db) as [[[db1 ps1] b]|] eqn:Hw; [|done]. cbn [fst snd] in Hst.
  destruct (insert_pair _ _ _); [|done]. injection Hst as <- <-. unfold stage_recorded in Hw.
  destruct (stage_lifecycle _ _ _ _ _ db first) as [[d1 p1]|] eqn:H1; [|done]. cbn [fst snd] in Hw.
  destruct (stage_lifecycle_step codec anchor reducer_build host Hkinds Hdispatch P i db first d1 p1 Hsys H1) as [S1 R1].
  destruct (stage_lifecycle _ _ _ _ _ d1 second) as [[d2 p2]|] eqn:H2; [|done]. cbn [fst snd] in Hw.
  destruct (stage_lifecycle_step codec anchor reducer_build host Hkinds Hdispatch P j d1 second d2 p2 (ls_ok _ _ _ _ _ _ S1) H2) as [S2 R2].
  destruct (match p1 with [] => true | _ => _ end); [done|]. destruct (facts _) as [fs|] eqn:Hf; [|done]. destruct (existsb _ fs); [done|].
  destruct (encode_facts codec fs) as [stored|] eqn:He; [|done]. destruct (append_facts d2 stored) as [[d3 p3]|] eqn:H3; [|done]. cbn [fst snd] in Hw.
  destruct (append_facts_step codec reducer_build host P fs d2 stored d3 p3 (Hfacts _ _ Hf) (ls_ok _ _ _ _ _ _ S2) He H3) as [S3 R3].
  destruct (class_rows _ d3 _ "first" _); [|done]. destruct (class_rows _ d3 _ "second" _); [|done]. destruct (to_json _ _) as [body|]; [|done]. cbn [ok_or] in Hw.
  destruct (encode_facts codec [_]) as [ms|] eqn:Hm; [|done]. destruct (append_facts d3 ms) as [[d4 p4]|] eqn:H4; [|done]. injection Hw as <- <- <-.
  destruct (append_facts_step codec reducer_build host P [mkFact (batch_scope first) PAIR_KIND body] d3 ms d4 p4) as [S4 R4];
    [repeat constructor; [exact Hpair|done]|by destruct S3|done|done|].
  split; [by do 3 (eapply log_step_trans; [done|])|congruence].
Qed.

(** A first commit, taken apart. *)
Lemma commit_first c pairs command cscope key snapshot first second facts final c1 pairs1 m :
  commands_ok c → commit c pairs command cscope key snapshot first second facts final = (c1, pairs1, Ok m) → record_replayed m = false →
  ∃ meaning b, intent first second = Ok meaning ∧ batch_scope second = batch_scope first ∧ blank (batch_scope first) = false ∧ KIND L ≠ KIND M
    ∧ receipted c cscope key = false ∧ no_marker codec marker_json (batch_scope first) command (pair_markers c (batch_scope first)) = Ok ()
    ∧ commit_staged codec c cscope key snapshot [] None (Some command) (pair_stage pairs command cscope key snapshot meaning first second facts) final = (c1, Ok m)
    ∧ (∃ db, stage command cscope key snapshot meaning first second facts (log_db c) = Ok (db, positions m, b))
    ∧ pairs1 = <[command := b]> pairs.
Proof.
  intros Hcok Hop Hrep. unfold commit_pair in Hop.
  destruct (if blank _ || _ || _ || _ || _ then _ else _) as [meaning|] eqn:Hck; [|done].
  destruct (blank (batch_scope first)) eqn:Hbl; [done|]. destruct (String.eqb_spec (batch_scope first) (batch_scope second)) as [Hsc|]; [|done].
  destruct (batch_commands first); [done|]. destruct (batch_commands second); [done|]. destruct (String.eqb_spec (KIND L) (KIND M)); [done|].
  cbn [negb orb] in Hck. destruct (intent first second) as [meaning'|] eqn:Hm; [|done].
  fold (pair_stage pairs command cscope key snapshot meaning first second facts) in Hop.
  destruct (commit_staged _ _ _ _ _ _ _ _ _ _) as [c' [m'|e]] eqn:Hc; cbn [fst snd] in Hop; [|done].
  assert (m' = m) as -> by (destruct (stage _ _ _ _ _ _ _ _ (log_db c)); congruence).
  destruct (staged_commit _ _ _ _ _ _ _ _ _ _ Hcok Hc) as (_ & _ & _ & _ & Hcase). rewrite Hrep in Hcase. destruct Hcase as (Hrc & db & Hst & _).
  rewrite Hrc in Hck. destruct (no_marker _ _ _ _ _) as [[]|] eqn:Hno; [|done]. injection Hck as ->.
  unfold pair_stage in Hst. destruct (stage _ _ _ _ _ _ _ _ (log_db c)) as [[[db' ps] b]|] eqn:Hw; [|done]. cbn [fst snd] in Hst, Hop.
  destruct (insert_pair _ _ _); [|done]. injection Hst as -> ->. rewrite Hrep in Hop. injection Hop as -> <-.
  exists meaning, b. split_and!; try done. by exists db.
Qed.

(** A commit of a key that has a receipt. *)
Lemma commit_again c pairs command cscope key snapshot first second facts final p meaning :
  recorded c pairs command cscope key snapshot (batch_scope first) p → settled c cscope key →
  existsb blank [command; cscope; key; batch_scope first] = false → KIND L ≠ KIND M →
  batch_scope second = batch_scope first → batch_commands first ≠ [] → batch_commands second ≠ [] →
  intent first second = Ok meaning → intent_digest p = meaning → final = Ok () →
  match commit c pairs command cscope key snapshot first second facts final with
  | (c', pairs', Ok m) => m = mkRecordAdmission [] true None ∧ pairs' = pairs ∧ log_db c' = log_db c
  | (c', pairs', Err e) => False
  end.
Proof.
  intros Hrec Hset Hn Hk Hsc H1 H2 Hm Hi ->. pose proof (recorded_verified _ _ _ _ _ _ _ _ Hrec Hset Hn Hk) as Hv.
  destruct Hrec as [(r & Hr & Hid & Hsn) (at_ & _ & _ & _ & Hrc & _)].
  assert (receipted c cscope key = true) as Hrcd by (unfold receipted; rewrite Hrc; by apply bool_decide_eq_true_2).
  assert (∀ st, ∃ c', commit_staged codec c cscope key snapshot [] None (Some command) st (Ok ()) = (c', Ok (mkRecordAdmission [] true None)) ∧ log_db c' = log_db c) as Hst.
  { intros st. unfold commit_staged. cbv zeta. rewrite Hr. cbn [ok_or].
    change (default (command_name "record-command" cscope key) (Some command)) with command. rewrite Hid, Hsn, String.eqb_refl. cbn [negb refuse_if]. rewrite Hrcd. by eexists. }
  unfold commit_pair. rewrite Hm, Hrcd, Hv, Hi, Hsc, !String.eqb_refl, (proj2 (String.eqb_neq _ _) Hk).
  assert (blank (batch_scope first) = false) as -> by (cbn in Hn; destruct (blank (batch_scope first)); [by rewrite !orb_true_r in Hn|done]).
  destruct (batch_commands first) eqn:E1; [done|]. destruct (batch_commands second) eqn:E2; [done|]. cbn [negb orb].
  destruct (Hst (λ db, let? w := stage command cscope key snapshot meaning first second facts db in let? _ := insert_pair pairs command w.2 in Ok w.1)) as (c' & Hc & Hl).
  rewrite Hc. cbn [fst snd]. by destruct (stage _ _ _ _ _ _ _ _ (log_db c)).
Qed.

(** A recorded pair reads back. A first commit of a pair moves both lifecycles of the
    scope as their batches decide, command after command, and writes the rows of the first
    one's events, of the second one's, of the facts that were prepared for the position
    after them, and one marker, and nothing else. As long as nobody else wrote a marker of
    this command, in every later database in which the command is applied or was taken up
    again, the pair verifies, to exactly those events, facts and positions; committing it
    again answers that it is done and leaves the log and the bindings; and committing
    anything of another meaning under its name is refused and changes nothing. *)
Theorem recorded_pair_roundtrip c pairs command cscope key snapshot first second facts final c1 pairs1 m :
  inv c → (∀ n fs, facts n = Ok fs → Forall (λ f, fact_kind_ok (fact_kind f)) fs) → existsb blank [command; cscope; key] = false →
  commit c pairs command cscope key snapshot first second facts final = (c1, pairs1, Ok m) → record_replayed m = false →
  let scope := batch_scope first in
  advance c c1 ∧ settled c1 cscope key
  ∧ ∃ meaning s es s' t et t' fs rows1 rows2 rowsf marker,
      intent first second = Ok meaning
      ∧ (folds i (log_db c) scope = Ok s ∧ batched L s (batch_commands first) es s' ∧ folds i (log_db c1) scope = Ok s')
      ∧ (folds j (log_db c) scope = Ok t ∧ batched M t (batch_commands second) et t' ∧ folds j (log_db c1) scope = Ok t')
      ∧ facts (next_position (log_db c) scope + Z.of_nat (length (rows1 ++ rows2)))%Z = Ok fs
      ∧ events (log_db c1) = events (log_db c) ++ rows1 ++ rows2 ++ rowsf ++ [marker]
      ∧ Forall2 (event_row codec L (h_json (host i)) scope) es rows1 ∧ Forall2 (event_row codec M (h_json (host j)) scope) et rows2
      ∧ Forall2 (fact_row codec) fs rowsf ∧ row_scope marker = scope ∧ row_kind marker = PAIR_KIND
      ∧ positions m = row_position <$> rows1 ++ rows2 ++ rowsf
      ∧ ∀ c2 pairs2 more, advance c1 c2 → pair_markers c2 scope = pair_markers c1 scope ++ more →
          no_marker codec marker_json scope command more = Ok () → pairs2 !! command = pairs1 !! command → settled c2 cscope key →
          verify c2 pairs2 command cscope key snapshot scope = Ok (mkRecordedPair es et fs (positions m) meaning)
          ∧ (∀ facts', match commit c2 pairs2 command cscope key snapshot first second facts' (Ok ()) with
             | (c3, pairs3, Ok m') => m' = mkRecordAdmission [] true None ∧ pairs3 = pairs2 ∧ log_db c3 = log_db c2
             | (_, _, Err _) => False
             end)
          ∧ ∀ first' second' facts' final', intent first' second' ≠ Ok meaning →
              ∃ e, commit c2 pairs2 command cscope key snapshot first' second' facts' final' = (c2, pairs2, Err e).
Proof.
  intros Hinv Hfacts Hnames Hop Hrep scope. pose proof Hinv as [Hsys Hcok _ _].
  destruct (commit_first _ _ _ _ _ _ _ _ _ _ _ _ _ Hcok Hop Hrep) as (meaning & b & Hm & Hsc & Hbl & Hk & Hrc & Hno & Hc & (db & Hst) & ->).
  assert (i ≠ j) as Hij by (intros Heq; apply Hk; by rewrite Heq).
  assert (∃ text, meaning = pair_digest text) as [text Htext].
  { unfold pair_intent in Hm. destruct (pair_json _) as [text|]; [|done]. exists text. by injection Hm as <-. }
  assert (advance c c1) as Hadv.
  { pose proof (commit_staged_advance codec reducer_build host intent_json c cscope key snapshot [] [] None (Some command)
      (pair_stage pairs command cscope key snapshot meaning first second facts) final Hinv) as Hgo. rewrite Hc in Hgo. apply Hgo; [by apply recorded_stages|done..]. }
  pose proof (advance_inv codec reducer_build host intent_json _ _ Hinv Hadv) as Hinv1. pose proof Hinv1 as [Hsys1 Hcok1 _ _].
  destruct (staged_commit _ _ _ _ _ _ _ _ _ _ Hcok Hc) as (_ & _ & (row & Hrow & Hid & Hsn & Hap) & _ & Hcase). rewrite Hrep in Hcase. destruct Hcase as (_ & db' & Hst' & Hins).
  unfold pair_stage in Hst'. rewrite Hst in Hst'. cbn [fst snd] in Hst'. destruct (insert_pair _ _ _); [|done]. injection Hst' as <-.
  destruct (staged_pair _ _ _ _ _ _ scope _ _ _ _ _ _ Hsys Hij eq_refl Hsc Hfacts Hst) as (Hsysd & Hrcd & es & et & fs & rows1 & rows2 & rowsf & marker & body & ws1 & ws2 & wsf & Hps & Hpos & Hd & Hj & W1 & W2 & Wf & ->).
  destruct (receipt_step codec reducer_build host (λ _, True) db cscope key _ _ Hsysd Hins) as (_ & Hev & Hsnap & _ & Hrcs).
  assert (pair_staged (log_db c) (log_db c1) scope first second facts es et fs rows1 rows2 rowsf marker) as Hps1.
  { destruct Hps as [(s & s' & log & Hf1 & Hb1 & Hh1 & Ht1) (u & u' & logu & Hf2 & Hb2 & Hh2 & Ht2)].
    split; try done; [| |by rewrite Hev].
    - exists s, s', log. split_and!; try done. by apply (same_log_holds codec reducer_build host db).
    - exists u, u', logu. split_and!; try done. by apply (same_log_holds codec reducer_build host db). }
  assert (settled c1 cscope key) as Hset by (exists row; auto).
  assert (recorded c1 (<[command := mkPairBinding cscope key scope (row_position marker) (pair_digest body)]> pairs) command cscope key snapshot scope
    (mkRecordedPair es et fs (row_position <$> rows1 ++ rows2 ++ rowsf) meaning)) as Hrec.
  { eapply staged_recorded; try done; [by destruct Hsys|by destruct Hsys1| | |by rewrite lookup_insert_eq].
    - exists row. unfold has_id. by rewrite Hid, String.eqb_refl.
    - rewrite Hrcs, lookup_insert_eq, Hpos. destruct Hps as [_ _ _ _ _ _ _ _ [Hne _] _]. by destruct rows1. }
  pose proof Hps1 as [(s & s' & log & Hf1 & Hb1 & Hh1 & Ht1) (u & u' & logu & Hf2 & Hb2 & Hh2 & Ht2) Hfs _ He Hr1 Hr2 Hrf _ [Hms Hmk]].
  split; [done|]. split; [done|]. exists meaning, s, es, s', u, et, u', fs, rows1, rows2, rowsf, marker.
  split_and!; try done; [eapply holds_fold; [by destruct Hsys1|done..]|eapply holds_fold; [by destruct Hsys1|done..]|].
  intros c2 pairs2 more (P & Hfor & _) Hmks Hmore Hpb Hset2.
  pose proof (recorded_later P c1 c2 _ pairs2 _ _ _ _ _ _ more (proj1 Hsys1) Hfor Hmks Hmore Hpb Hrec) as Hrec2.
  assert (existsb blank [command; cscope; key; scope] = false) as Hn.
  { cbn [existsb] in *. rewrite !orb_false_iff in *. subst scope. by destruct_and!. }
  pose proof (recorded_verified _ _ _ _ _ _ _ _ Hrec2 Hset2 Hn Hk) as Hv. rewrite Hpos. split; [done|]. split.
  - intros facts'. assert (batch_commands first ≠ [] ∧ batch_commands second ≠ []) as [N1 N2].
    { unfold commit_pair in Hop. destruct (batch_commands first); [|destruct (batch_commands second); [|done]]; by rewrite ?orb_true_r in Hop. }
    by eapply (commit_again _ _ _ _ _ _ _ _ facts').
  - intros first' second' facts' final' Hne. unfold commit_pair. destruct (_ || _); [by eexists (Failed _)|].
    destruct (intent first' second') as [meaning'|e]; [|by exists e].
    assert (receipted c2 cscope key = true) as -> by (destruct Hrec2 as [_ (? & _ & _ & _ & Hat & _)]; unfold receipted; rewrite Hat; by apply bool_decide_eq_true_2).
    destruct (verify c2 pairs2 command cscope key snapshot (batch_scope first')) as [p'|e] eqn:Hv'; [|by exists e].
    rewrite lookup_insert_eq in Hpb. pose proof (verified_bound _ _ _ _ _ _ _ _ _ Hv' Hpb) as Heq. cbn in Heq. rewrite <- Heq, Hv in Hv'. injection Hv' as <-.
    cbn [intent_digest]. rewrite (proj2 (String.eqb_neq meaning meaning')) by congruence. by eexists (Failed _).
Qed.
End held.
End steps.

(** ** A sample pair *)

Module PairSample.
Import StoreSystem.Sample CommandSample.

(** Lower-case hexadecimal text, and a digest of 32 bytes. *)
Definition lower_digit (n : N) : ascii := ascii_of_N (if bool_decide (n < 10)%N then 48 + n else 87 + n)%N.
Fixpoint write_lower (bs : list N) : string :=
  match bs with [] => "" | b :: bs => String (lower_digit (b / 16)) (String (lower_digit (b mod 16)) (write_lower bs)) end.
#[export] Existing Instance SampleTexts.sample_p256.
#[export] Instance lower_texts : SignedTexts := {|
  hex_encode := write_lower;
  sha256 bytes := replicate 32 (N.of_nat (length bytes) mod 256)%N;
|}.

Lemma lower_laws bs : lower_digest (sha256_hex bs) = true.
Proof.
  unfold sha256_hex. cbn [hex_encode sha256 lower_texts].
  assert (N.of_nat (length bs) mod 256 < 256)%N as Hlt by (apply N.mod_lt; lia). revert Hlt. generalize (N.of_nat (length bs) mod 256)%N. intros n Hn.
  assert (forallb (λ n, lower_digest (write_lower (replicate 32 (N.of_nat n)))) (seq 0 256) = true) as Hall by (vm_compute; reflexivity).
  rewrite forallb_forall in Hall. rewrite <- (N2Nat.id n). apply Hall, in_seq. lia.
Qed.

#[export] Instance PairRow_eq_dec : EqDecision PairRow.
Proof. solve_decision. Defined.
#[export] Instance PairMarker_eq_dec : EqDecision PairMarker.
Proof. solve_decision. Defined.

Definition claimed : list Served := [OnCommands host (OpClaim "" "id" "s" "other" "snapshot" None [] 0%N 0%N)].
Definition pending : Cdb := fold_left serve_command claimed c.
Lemma pair_pending_inv : inv (Some codec) "build" host coded pending.
Proof.
  assert (reached pending) as Hr by (apply reached_later; [exact c_reached|by repeat constructor]).
  exact (reached_inv _ _ _ _ host_kinds outbox_kind _ _ _ _ _ _ _ _ _ _ Hr).
Qed.

Definition one : LifecycleBatch (lifecycle (host true)) := mkBatch (L := lifecycle (host true)) "t" ["go"].
Definition two : LifecycleBatch (lifecycle (host false)) := mkBatch (L := lifecycle (host false)) "t" ["stop"].
Definition facts (n : Z) : result failure (list CommandRecordFact) := Ok [mkFact "t" "note" (if bool_decide (n = 2%Z) then "x" else "y")].
Definition pair_json (x : string * string * string * list string * string * list string) : option string :=
  let '(revision, scope, k1, c1, k2, c2) := x in Some (String.concat "," ([revision; scope; k1] ++ c1 ++ [k2] ++ c2)).

(** The marker of that pair. *)
Definition marker : PairMarker :=
  mkPairMarker PAIR_REVISION "id" "s" "other" (pair_digest "snapshot") "t" "checkpointed_action" "host_action_admission_v1"
    (match pair_intent (lifecycle (host true)) (lifecycle (host false)) pair_json one two with Ok m => m | Err _ => "" end)
    [mkPairRow 0 "first" "checkpointed_action" (pair_digest "go"); mkPairRow 1 "second" "host_action_admission_v1" (pair_digest "stop");
     mkPairRow 2 "fact" "note" (pair_digest "x")].
Definition marker_json : Json PairMarker := table_json [("marker", marker)].
#[export] Instance marker_laws : JsonLaws marker_json.
Proof. apply table_json_laws. apply NoDup_singleton. Defined.

Notation commit_sample c pairs first :=
  (commit_pair (Some codec) anchor "build" marker_json (lifecycle (host true)) (lifecycle (host false)) (h_json (host true)) (h_json (host false)) pair_json
     c pairs "id" "s" "other" "snapshot" first two facts (Ok ())).

Lemma recorded_pair_roundtrip_witness :
  ∃ c1 pairs1 m, commit_sample pending ∅ one = (c1, pairs1, Ok m) ∧ positions m = [0%Z; 1%Z; 2%Z]
    ∧ (∃ p, verify_pair (Some codec) marker_json (lifecycle (host true)) (lifecycle (host false)) (h_json (host true)) (h_json (host false))
        c1 pairs1 "id" "s" "other" "snapshot" "t" = Ok p ∧ pair_positions p = positions m ∧ pair_facts p = [mkFact "t" "note" "x"])
    ∧ ∃ e, commit_sample c1 pairs1 (mkBatch (L := lifecycle (host true)) "t" ["stop"]) = (c1, pairs1, Err e).
Proof.
  destruct (commit_sample pending ∅ one) as [[c1 pairs1] o] eqn:Hop.
  assert (o = Ok (mkRecordAdmission [0%Z; 1%Z; 2%Z] false None)) as ->.
  { transitivity ((c1, pairs1, o).2); [reflexivity|]. rewrite <- Hop. vm_compute. reflexivity. }
  exists c1, pairs1, (mkRecordAdmission [0%Z; 1%Z; 2%Z] false None). split; [reflexivity|]. split; [reflexivity|].
  destruct (recorded_pair_roundtrip (Some codec) anchor "build" host host_kinds outbox_kind
    (λ b, ltac:(by destruct b)) lower_laws coded marker_json true false pair_json pending ∅ "id" "s" "other" "snapshot" one two facts (Ok ())
    c1 pairs1 (mkRecordAdmission [0%Z; 1%Z; 2%Z] false None) pair_pending_inv)
    as (Hadv & Hset & meaning & s & es & s' & t & et & t' & fs & rows1 & rows2 & rowsf & mk & Hm & _ & _ & Hfs & _ & H1 & H2 & H3 & _ & _ & Hps & Hlater).
  - intros n fs [= <-]. repeat constructor; [intros []; discriminate|discriminate].
  - reflexivity.
  - exact Hop.
  - reflexivity.
  - pose proof (advance_refl (Some codec) "build" host coded c1 (advance_inv _ _ _ _ _ _ pair_pending_inv Hadv)) as Hself.
    destruct (Hlater c1 pairs1 [] Hself (eq_sym (app_nil_r _)) eq_refl eq_refl Hset) as (Hv & _ & Hother). split.
    + eexists. split; [exact Hv|]. split; [reflexivity|].
      assert (verify_pair (Some codec) marker_json (lifecycle (host true)) (lifecycle (host false)) (h_json (host true)) (h_json (host false))
        c1 pairs1 "id" "s" "other" "snapshot" "t" = Ok (mkRecordedPair es et fs [0%Z; 1%Z; 2%Z] meaning)) as Hv2 by exact Hv.
      assert (c1 = (commit_sample pending ∅ one).1.1) as -> by (by rewrite Hop).
      assert (pairs1 = (commit_sample pending ∅ one).1.2) as -> by (by rewrite Hop).
      vm_compute in Hv2. by injection Hv2.
    + apply (Hother (mkBatch (L := lifecycle (host true)) "t" ["stop"]) two facts (Ok ())). rewrite <- Hm. vm_compute. discriminate.
Defined.
End PairSample.
