(* ===== verification/Prefixes.v ===== *)
(** * Phases of a pending command

    [record_admission_prefix.rs] of [crates/store/src]: while a command is pending, a named
    phase of it commits lifecycle events and facts once, with a marker that says which rows
    it wrote and a receipt of its own; a replay answers where they are, after reading them
    back. The parent stays pending. Served by a handle of [command_dispatch.rs]. *)

From S2P Require Import Prelude Ids Lifecycle Store StoreSystem Commands RecordAdmission Records Texts Dispatch SignedText CommandSystem Staging CommandSample Pairs.

Definition PREFIX_KIND : string := "command_prefix_result_v1".
Definition PREFIX_KEY : string := "prefix".
Definition PREFIX_V1 : string := "claimed-lifecycle-prefix/v1".
Definition PREFIX_V2 : string := "claimed-lifecycle-prefix/v2".

Record PrefixEvent := mkPrefixEvent {
  pe_scope : string;
  pe_position : Z;
  pe_kind : string;
  pe_sha256 : string;
  pe_encoded : bool;
}.

Record PrefixResult := mkPrefixResult {
  pr_revision : string;
  pr_meaning_sha256 : string;
  pr_events : list PrefixEvent;
}.

Record MaterializedCommandPrefix := mkPrefix { prefix_positions : list Z; prefix_replayed : bool }.

(** The tuple whose JSON is the meaning of a phase. *)
Definition Meaning (Command : Type) : Type :=
  string * string * string * string * string * string * string * string * list Command * list (string * string * string).

Definition no_phase {T} : result failure T :=
  rejected "command prefix has no exact retained pending parent or original phase".

Definition prefix_scope (id phase : string) : string := command_name "command-prefix" id phase.

(** The markers of a phase, in order. *)
Definition markers (c : Cdb) (scope : string) : list EventRow :=
  filter (λ r, row_kind r = PREFIX_KIND) (select_scope (log_db c) scope).

(** [recorded] *)
Definition recorded (c : Cdb) (id phase : string) : result failure bool :=
  if blank id || blank phase then no_phase
  else
    let scope := prefix_scope id phase in
    match length (markers c scope), receipted c scope PREFIX_KEY with
    | 0, false => Ok false
    | 1, true => Ok true
    | _, _ => no_phase
    end.

Section prefix.
Context `{ST : SignedTexts} (codec : option ContentCodec) (anchor : string → string) (reducer_build : string).
Context (result_json : Json PrefixResult).

Definition prefix_digest (body : string) : string := sha256_hex (bytes_of body).

Section phase.
Context (L : Lifecycle) (json : Json (lc_event L)) (meaning_json : Meaning (lc_command L) → option string).

Definition phase_meaning (id scope key snapshot phase : string) (batch : LifecycleBatch L) (facts : list CommandRecordFact)
    : result failure string :=
  let? text := ok_or (meaning_json (PREFIX_V1, id, scope, key, snapshot, phase, batch_scope batch, KIND L, batch_commands batch,
                        (λ f, (fact_scope f, fact_kind f, fact_payload f)) <$> facts)) (Failed AE_Json) in
  Ok (prefix_digest text).

(** The rows a marker names are still what it says. *)
Fixpoint read_phase (c : Cdb) (events : list PrefixEvent) : result failure (list Z) :=
  match events with
  | [] => Ok []
  | e :: events =>
      match select_at (log_db c) (pe_scope e) (pe_position e) with
      | None => no_phase
      | Some r =>
          match decode_row codec (pe_scope e) r with
          | None => no_phase
          | Some body =>
              if negb (String.eqb (row_kind r) (pe_kind e)) || negb (String.eqb (prefix_digest body) (pe_sha256 e)) then no_phase
              else let? ps := read_phase c events in Ok (pe_position e :: ps)
          end
      end
  end.

Definition typed_event_ok (batch : LifecycleBatch L) (revision : string) (e : PrefixEvent) : bool :=
  String.eqb (pe_scope e) (batch_scope batch) && String.eqb (pe_kind e) (KIND L)
  && Bool.eqb (pe_encoded e) (String.eqb revision PREFIX_V2).

Definition fact_event_ok (x : PrefixEvent * CommandRecordFact) : bool :=
  String.eqb (pe_scope x.1) (fact_scope x.2) && String.eqb (pe_kind x.1) (fact_kind x.2)
  && String.eqb (pe_sha256 x.1) (prefix_digest (fact_payload x.2)) && pe_encoded x.1.

Definition no_commands (batch : LifecycleBatch L) : bool := match batch_commands batch with [] => true | _ => false end.

Definition recover_phase (c : Cdb) (scope meaning : string) (batch : LifecycleBatch L) (facts : list CommandRecordFact)
    (marker : EventRow) : result failure (list Z) :=
  match decode_row codec scope marker with
  | None => no_phase
  | Some body =>
      let? result := ok_or (from_json result_json body) (Failed AE_Json) in
      let events := pr_events result in
      if negb (String.eqb (pr_revision result) PREFIX_V1 || String.eqb (pr_revision result) PREFIX_V2)
         || negb (String.eqb (pr_meaning_sha256 result) meaning) || Nat.ltb (length events) (length facts)
      then no_phase
      else
        let typed := length events - length facts in
        if no_commands batch && negb (Nat.eqb typed 0) then no_phase
        else if negb (forallb (typed_event_ok batch (pr_revision result)) (take typed events)) then no_phase
        else if negb (forallb fact_event_ok (zip (drop typed events) facts)) then no_phase
        else read_phase c events
  end.

Definition invalid_phase (scope phase : string) (batch : LifecycleBatch L) (facts : list CommandRecordFact) : bool :=
  blank phase || blank (batch_scope batch) || String.eqb (batch_scope batch) scope
  || (no_commands batch && match facts with [] => true | _ => false end)
  || existsb (λ f, String.eqb (fact_scope f) scope
                   || (String.eqb (fact_scope f) (batch_scope batch) && String.eqb (fact_kind f) (KIND L))) facts.

(** The command of the phase is there exactly with its receipt. *)
Definition phase_command_ok (c : Cdb) (scope meaning : string) : bool :=
  match receipted c scope PREFIX_KEY, command_by_key c scope PREFIX_KEY with
  | true, Some r => has_id (command_name "record-command" scope PREFIX_KEY) r && String.eqb (snapshot_json r) meaning
  | false, None => true
  | _, _ => false
  end.

(** [inspect_phase] *)
Definition inspect_phase (c : Cdb) (id cscope key snapshot phase : string) (batch : LifecycleBatch L)
    (facts : list CommandRecordFact) : result failure (string * string * option (list Z)) :=
  let scope := prefix_scope id phase in
  if invalid_phase scope phase batch facts then no_phase
  else
    let? meaning := phase_meaning id cscope key snapshot phase batch facts in
    if negb (Nat.eqb (length (markers c scope)) (if receipted c scope PREFIX_KEY then 1 else 0)) then no_phase
    else if negb (phase_command_ok c scope meaning) then no_phase
    else
      match markers c scope with
      | [] => Ok (scope, meaning, None)
      | marker :: _ => let? ps := recover_phase c scope meaning batch facts marker in Ok (scope, meaning, Some ps)
      end.

(** [inspect_pending] *)
Definition inspect_pending (c : Cdb) (id cscope key snapshot phase : string) (batch : LifecycleBatch L)
    (facts : list CommandRecordFact) : result failure (string * string * option (list Z)) :=
  if negb (pending_command_matches c id cscope key snapshot) then no_phase
  else inspect_phase c id cscope key snapshot phase batch facts.

(** [verify] *)
Definition verify_prefix (c : Cdb) (id cscope key snapshot phase : string) (batch : LifecycleBatch L)
    (facts : list CommandRecordFact) : result failure (list Z) :=
  let? inspected := inspect_pending c id cscope key snapshot phase batch facts in
  match inspected.2 with Some ps => Ok ps | None => no_phase end.

(** The events of the staged batch, as the marker names them. *)
Fixpoint typed_events (db : Db) (target : string) (ps : list Z) : result failure (list PrefixEvent) :=
  match ps with
  | [] => Ok []
  | p :: ps =>
      match select_at db target p with
      | None => fail (AE_Db "Query returned no rows")
      | Some r =>
          match decode_row codec target (mkEventRow target p (KIND L) (row_payload r)) with
          | None => no_phase
          | Some body =>
              let? rest := typed_events db target ps in
              Ok (mkPrefixEvent target p (KIND L) (prefix_digest body) true :: rest)
          end
      end
  end.

Definition fact_event (p : Z) (f : CommandRecordFact) : PrefixEvent :=
  mkPrefixEvent (fact_scope f) p (fact_kind f) (prefix_digest (fact_payload f)) true.

(** The staging closure of [commit]. *)
Definition stage_prefix (scope meaning : string) (batch : LifecycleBatch L) (facts stored : list CommandRecordFact) (db : Db)
    : result failure (Db * list Z) :=
  let? staged := stage_lifecycle codec anchor reducer_build L json db batch in
  let? typed := typed_events staged.1 (batch_scope batch) staged.2 in
  let? appended := append_facts staged.1 stored in
  let events := typed ++ zip_with fact_event appended.2 facts in
  let? text := ok_or (to_json result_json (mkPrefixResult PREFIX_V2 meaning events)) (Failed AE_Json) in
  let? marker := encode_facts codec [mkFact scope PREFIX_KIND text] in
  let? marked := append_facts appended.1 marker in
  Ok (marked.1, staged.2 ++ appended.2).

(** [commit] *)
Definition commit_prefix (c : Cdb) (id cscope key snapshot phase : string) (batch : LifecycleBatch L)
    (facts : list CommandRecordFact) (final_check : result failure unit) : Cdb * result failure MaterializedCommandPrefix :=
  match inspect_pending c id cscope key snapshot phase batch facts with
  | Err e => (c, Err e)
  | Ok (scope, meaning, recovered) =>
      match encode_facts codec facts with
      | Err e => (c, Err e)
      | Ok stored =>
          match commit_staged codec c scope PREFIX_KEY meaning [] None None (stage_prefix scope meaning batch facts stored) final_check with
          | (c, Err e) => (c, Err e)
          | (c, Ok m) =>
              if negb (Bool.eqb (record_replayed m) (bool_decide (is_Some recovered))) then (c, no_phase)
              else (c, Ok (mkPrefix (default (positions m) recovered) (record_replayed m)))
          end
      end
  end.

(** Consecutive positions rise. *)
Fixpoint ascending (ps : list Z) : bool :=
  match ps with
  | p :: (q :: _) as rest => bool_decide (p < q)%Z && ascending rest
  | _ => true
  end.

(** [verify_recorded]: the phase of a command whose pair was recorded. *)
Definition verify_recorded (F M : Lifecycle) (fjson : Json (lc_event F)) (mjson : Json (lc_event M)) (marker_json : Json PairMarker)
    (c : Cdb) (pairs : PairResults) (id cscope key snapshot phase : string) (batch : LifecycleBatch L) (facts : list CommandRecordFact)
    : result failure (list Z) :=
  let? original := verify_pair codec marker_json F M fjson mjson c pairs id cscope key snapshot (batch_scope batch) in
  match head (pair_positions original) with
  | None => no_phase
  | Some first_result =>
      if existsb (λ f, negb (String.eqb (fact_scope f) (batch_scope batch))) facts then no_phase
      else
        let? inspected := inspect_phase c id cscope key snapshot phase batch facts in
        match inspected.2 with
        | None => no_phase
        | Some ps =>
            if match ps with [] => true | _ => false end || existsb (λ p, bool_decide (p < 0)%Z || bool_decide (first_result ≤ p)%Z) ps
               || negb (ascending ps)
            then no_phase
            else Ok ps
        end
  end.

(** ** Through a held writer *)

Section handle.
Context {Process : Type} (clock : Process → N).

(** [commit_claimed_lifecycle_prefix] *)
Definition handle_commit_prefix (h : DispatchRecordAdmission Process) (c : Cdb) (p0 p1 : Process)
    (id cscope key snapshot phase : string) (batch : LifecycleBatch L) (facts : list CommandRecordFact)
    : Cdb * result failure MaterializedCommandPrefix :=
  commit_with clock h c p0 p1 (λ final, commit_prefix c id cscope key snapshot phase batch facts final).

(** [require_claimed_lifecycle_prefix] *)
Definition require_prefix (h : DispatchRecordAdmission Process) (c : Cdb) (p0 p1 : Process)
    (id cscope key snapshot phase : string) (batch : LifecycleBatch L) (facts : list CommandRecordFact)
    : result failure (list Z) * DispatchRecordAdmission Process :=
  with_retained_observation clock h p0 (verify_prefix c id cscope key snapshot phase batch facts) p1.

(** [require_recorded_lifecycle_prefix] *)
Definition require_recorded_prefix (F M : Lifecycle) (fjson : Json (lc_event F)) (mjson : Json (lc_event M)) (marker_json : Json PairMarker)
    (h : DispatchRecordAdmission Process) (c : Cdb) (pairs : PairResults) (p0 p1 : Process)
    (id cscope key snapshot phase : string) (batch : LifecycleBatch L) (facts : list CommandRecordFact)
    : result failure (list Z) * DispatchRecordAdmission Process :=
  with_retained_observation clock h p0 (verify_recorded F M fjson mjson marker_json c pairs id cscope key snapshot phase batch facts) p1.
End handle.

Lemma ascending_sorted ps : ascending ps = true → StronglySorted Z.lt ps.
Proof.
  intros Ha. apply Sorted_StronglySorted; [intros x y z; lia|]. induction ps as [|p ps IH]; [constructor|].
  destruct ps as [|q ps]; [by repeat constructor|]. cbn [ascending] in Ha. apply andb_true_iff in Ha as [Hp%bool_decide_eq_true Ha].
  constructor; [by apply IH|by constructor].
Qed.

(** The phase came before the result. A phase that verifies under a recorded pair is the
    phase that inspection finds, its rows are in the pair's scope before the pair's first
    row, in rising order, and all its facts are of that scope. *)
Theorem recorded_phase_precedes F M fjson mjson marker_json c pairs id cscope key snapshot phase batch facts ps :
  verify_recorded F M fjson mjson marker_json c pairs id cscope key snapshot phase batch facts = Ok ps →
  ∃ original first_result meaning,
    verify_pair codec marker_json F M fjson mjson c pairs id cscope key snapshot (batch_scope batch) = Ok original
    ∧ inspect_phase c id cscope key snapshot phase batch facts = Ok (prefix_scope id phase, meaning, Some ps)
    ∧ head (pair_positions original) = Some first_result
    ∧ ps ≠ [] ∧ StronglySorted Z.lt ps ∧ (∀ p, p ∈ ps → (0 ≤ p < first_result)%Z)
    ∧ ∀ f, f ∈ facts → fact_scope f = batch_scope batch.
Proof.
  unfold verify_recorded. destruct (verify_pair _ _ _ _ _ _ _ _ _ _ _ _ _) as [original|] eqn:Hv; [|done].
  destruct (head (pair_positions original)) as [first_result|] eqn:Hh; [|done]. destruct (existsb _ facts) eqn:Hf; [done|].
  destruct (inspect_phase _ _ _ _ _ _ _ _) as [[[scope meaning] [qs|]]|] eqn:Hi; [|done..]. cbn [snd].
  destruct (_ || _) eqn:Hg; [done|]. intros [= ->]. rewrite !orb_false_iff in Hg. destruct Hg as [[Hn Hr] Ha%negb_false_iff].
  assert (scope = prefix_scope id phase) as ->.
  { unfold inspect_phase in Hi. cbv zeta in Hi. destruct (invalid_phase _ _ _ _); [done|]. destruct (phase_meaning _ _ _ _ _ _ _); [|done].
    destruct (negb _); [done|]. destruct (negb _); [done|]. destruct (markers _ _); [congruence|]. destruct (recover_phase _ _ _ _ _ _); [|done]. congruence. }
  exists original, first_result, meaning. split_and!; [done|done|done|by destruct ps|by apply ascending_sorted| |].
  - intros p Hp. apply not_true_iff_false in Hr. rewrite existsb_exists in Hr.
    destruct (bool_decide (p < 0)%Z) eqn:E1; [exfalso; apply Hr; exists p; rewrite E1; split; [by apply list_elem_of_In|done]|].
    destruct (bool_decide (first_result ≤ p)%Z) eqn:E2; [exfalso; apply Hr; exists p; rewrite E2, orb_true_r; split; [by apply list_elem_of_In|done]|].
    apply bool_decide_eq_false in E1, E2. lia.
  - intros f Hin. apply dec_stable. intros Hne. apply not_true_iff_false in Hf. apply Hf. apply existsb_exists. exists f.
    split; [by apply list_elem_of_In|]. by rewrite (proj2 (String.eqb_neq _ _) Hne).
Qed.
End phase.
End prefix.

Definition typed_row (L : Lifecycle) (scope : string) (r : EventRow) : Prop := row_scope r = scope ∧ row_kind r = KIND L.

Lemma event_rows_typed codec L json scope es rows :
  Forall2 (event_row codec L json scope) es rows → Forall (typed_row L scope) rows.
Proof. induction 1 as [|e r es rows (? & ? & _) _ IH]; [done|]. by constructor. Qed.

Section steps.
Context `{ST : SignedTexts} (codec : option ContentCodec) (anchor : string → string) (reducer_build : string).
Context {I : Type} (host : I → Hosted).
Context `{!EqDecision I, !CodecLaws codec, !AnchorLaws anchor}.
Context (Hkinds : ∀ i j, KIND (lifecycle (host i)) = KIND (lifecycle (host j)) → i = j).
Context (Hdispatch : record_kind host DISPATCH_KIND).
Context (intent_json : Json DispatchIntent) `{!JsonLaws intent_json}.

Notation system_ok := (system_ok codec reducer_build host).
Notation holds := (holds codec reducer_build host).
Notation folds i db scope := (fold_i codec anchor reducer_build host i db scope).
Notation fact_kind_ok := (fact_kind_ok host).
Notation inv := (inv codec reducer_build host intent_json).
Notation advance := (advance codec reducer_build host intent_json).
Notation advance_for := (advance_for codec reducer_build host intent_json).

(** ** What a marker says *)

Definition names (e : PrefixEvent) (r : EventRow) : Prop :=
  pe_scope e = row_scope r ∧ pe_position e = row_position r ∧ pe_kind e = row_kind r ∧ pe_encoded e = true
  ∧ ∃ body, decode_row codec (row_scope r) r = Some body ∧ pe_sha256 e = prefix_digest body.

Lemma read_named c es rows :
  db_ok (log_db c) → Forall2 names es rows → rows ⊆ events (log_db c) → read_phase codec c es = Ok (row_position <$> rows).
Proof.
  intros Hok Hn. induction Hn as [|e r es rows (Hs & Hp & Hk & _ & body & Hd & Hb) _ IH]; intros Hin; [done|]. cbn [read_phase fmap list_fmap].
  rewrite Hs, Hp, (row_selected _ r Hok), Hd by (apply Hin; left). rewrite Hk, Hb, !String.eqb_refl. cbn [negb orb].
  rewrite IH by (intros x Hx; apply Hin; by right). reflexivity.
Qed.

Lemma typed_named L batch db new : ∀ es,
  db_ok db → Forall (typed_row L (batch_scope batch)) new → new ⊆ events db →
  typed_events codec L db (batch_scope batch) (row_position <$> new) = Ok es →
  Forall2 names es new ∧ forallb (typed_event_ok L batch PREFIX_V2) es = true.
Proof.
  induction new as [|r new IH]; intros es Hok Ht Hin Hes; cbn [fmap list_fmap typed_events] in Hes; [by injection Hes as <-|].
  apply Forall_cons in Ht as [[Hs Hk] Ht]. rewrite <- Hs in Hes at 1. rewrite row_selected in Hes by (done || apply Hin; left).
  assert (mkEventRow (batch_scope batch) (row_position r) (KIND L) (row_payload r) = r) as Hr by (rewrite <-Hs, <-Hk; by destruct r).
  rewrite Hr in Hes. destruct (decode_row _ _ r) as [body|] eqn:Hd; [|done]. destruct (typed_events _ _ _ _ _) as [rest|] eqn:Hrest; [|done].
  injection Hes as <-. destruct (IH rest Hok Ht) as [Hn Hf]; [intros x Hx; apply Hin; by right|done|]. split.
  - constructor; [|done]. split_and!; try done. exists body. by rewrite Hs.
  - cbn [forallb]. rewrite Hf. unfold typed_event_ok. cbn. by rewrite !String.eqb_refl.
Qed.

Lemma facts_named facts new :
  Forall2 (fact_row codec) facts new →
  Forall2 names (zip_with fact_event (row_position <$> new) facts) new
  ∧ length (zip_with fact_event (row_position <$> new) facts) = length facts
  ∧ forallb fact_event_ok (zip (zip_with fact_event (row_position <$> new) facts) facts) = true.
Proof.
  induction 1 as [|f r facts new (Hs & Hk & Hd) _ (IHn & IHl & IHf)]; [done|]. cbn [fmap list_fmap zip_with length zip forallb]. split_and!.
  - constructor; [|done]. split_and!; try done. exists (fact_payload f). by rewrite Hs.
  - by rewrite IHl.
  - rewrite IHf. unfold fact_event_ok. cbn. by rewrite !String.eqb_refl.
Qed.

(** ** A phase that is held *)

Context (result_json : Json PrefixResult) `{!JsonLaws result_json}.

Section held.
Context (i : I) (meaning_json : Meaning (lc_command (lifecycle (host i))) → option string).
Notation L := (lifecycle (host i)).
Notation inspect c id cscope key snapshot phase batch facts :=
  (inspect_phase codec result_json L meaning_json c id cscope key snapshot phase batch facts).
Notation commit c id cscope key snapshot phase batch facts final :=
  (commit_prefix codec anchor reducer_build result_json L (h_json (host i)) meaning_json c id cscope key snapshot phase batch facts final).

Record held (c : Cdb) (scope meaning : string) (batch : LifecycleBatch L) (facts : list CommandRecordFact) (ps : list Z) : Prop := {
  hd_receipt : receipted c scope PREFIX_KEY = true;
  hd_command : phase_command_ok c scope meaning = true;
  hd_marker : ∃ marker, markers c scope = [marker] ∧ recover_phase codec result_json L c scope meaning batch facts marker = Ok ps;
}.

Lemma held_inspected c id cscope key snapshot phase batch facts meaning ps :
  invalid_phase L (prefix_scope id phase) phase batch facts = false →
  phase_meaning L meaning_json id cscope key snapshot phase batch facts = Ok meaning →
  held c (prefix_scope id phase) meaning batch facts ps →
  inspect c id cscope key snapshot phase batch facts = Ok (prefix_scope id phase, meaning, Some ps).
Proof.
  intros Hv Hm [Hr Hc (marker & Hmk & Hps)]. unfold inspect_phase. cbv zeta. rewrite Hv, Hm, Hr, Hmk, Hc, Hps. reflexivity.
Qed.

Lemma inspected c id cscope key snapshot phase batch facts x :
  inspect c id cscope key snapshot phase batch facts = Ok x →
  invalid_phase L (prefix_scope id phase) phase batch facts = false
  ∧ x.1.1 = prefix_scope id phase ∧ phase_meaning L meaning_json id cscope key snapshot phase batch facts = Ok x.1.2
  ∧ match x.2 with
    | Some ps => held c (prefix_scope id phase) x.1.2 batch facts ps
    | None => receipted c (prefix_scope id phase) PREFIX_KEY = false ∧ command_by_key c (prefix_scope id phase) PREFIX_KEY = None
        ∧ markers c (prefix_scope id phase) = []
    end.
Proof.
  unfold inspect_phase. cbv zeta. destruct (invalid_phase _ _ _ _ _) eqn:Hv; [done|]. destruct (phase_meaning _ _ _ _ _ _ _ _ _) as [meaning|] eqn:Hm; [|done].
  destruct (Nat.eqb_spec (length (markers c (prefix_scope id phase))) (if receipted c (prefix_scope id phase) PREFIX_KEY then 1 else 0)) as [Hl|]; [|done].
  cbn [negb]. destruct (phase_command_ok c _ meaning) eqn:Hc; [|done]. cbn [negb].
  destruct (markers c (prefix_scope id phase)) as [|marker rest] eqn:Hmk.
  - intros [= <-]. cbn [fst snd]. split_and!; try done.
    + destruct (receipted c _ _); [done|done].
    + unfold phase_command_ok in Hc. destruct (receipted c _ _); [done|]. by destruct (command_by_key c _ _).
  - destruct (recover_phase _ _ _ _ _ _ _ _ _) as [ps|] eqn:Hps; [|done]. intros [= <-]. cbn [fst snd]. split_and!; try done.
    destruct (receipted c _ _) eqn:Hr; [|done]. split; [done|done|]. exists marker. split; [|done]. rewrite Hmk. f_equal. apply nil_length_inv. cbn in Hl. lia.
Qed.

Lemma read_later P c c' es ps :
  db_ok (log_db c) → advance_for P c c' → read_phase codec c es = Ok ps → read_phase codec c' es = Ok ps.
Proof.
  intros Hok [[[Hok' _] (new & He & _) _] _ _ _ _ _]. revert ps. induction es as [|e es IH]; intros ps; cbn [read_phase]; [done|].
  destruct (select_at (log_db c) _ _) as [r|] eqn:Hr; [|done].
  rewrite (select_at_later (log_db c) (log_db c') _ _ r Hok Hok') by (done || (rewrite He; by apply prefix_app_r)).
  destruct (decode_row _ _ _); [|done]. destruct (_ || _); [done|]. destruct (read_phase codec c es) as [qs|]; [|done].
  by rewrite (IH qs eq_refl).
Qed.

Lemma held_later P c c' scope meaning batch facts ps :
  system_ok (log_db c) → advance_for P c c' → markers c' scope = markers c scope →
  held c scope meaning batch facts ps → held c' scope meaning batch facts ps.
Proof.
  intros [Hok _] Hadv Hmk [Hr Hc (marker & Hm & Hps)]. pose proof Hadv as [[_ _ Hsub] Hcok Hkept _ _ _].
  assert (receipted c' scope PREFIX_KEY = true) as Hr'.
  { unfold receipted in *. apply bool_decide_eq_true in Hr as [v Hv]. apply bool_decide_eq_true. exists v. by eapply lookup_weaken. }
  split; [done| |].
  - unfold phase_command_ok in *. rewrite Hr in Hc. rewrite Hr'. destruct (command_by_key c scope PREFIX_KEY) as [r|] eqn:Hrow; [|done].
    destruct (rows_kept_by_key c c' scope PREFIX_KEY r Hcok Hkept Hrow) as (r' & -> & Hid). unfold identity in Hid. injection Hid as Hid _ _ Hsn.
    unfold has_id in *. by rewrite Hid, Hsn.
  - exists marker. rewrite Hmk. split; [done|]. revert Hps. unfold recover_phase. destruct (decode_row _ _ _); [|done].
    destruct (ok_or _ _) as [result|]; [|done]. cbv zeta. destruct (_ || _); [done|]. destruct (_ && _); [done|]. destruct (negb _); [done|].
    destruct (negb _); [done|]. by apply (read_later P).
Qed.

Context (Hprefix : record_kind host PREFIX_KIND).

Lemma prefix_kind_ok : fact_kind_ok PREFIX_KIND.
Proof. split; [exact Hprefix|discriminate]. Qed.

(** The rows of one phase: its events, its facts and its marker. *)
Record phase_written (db db' : Db) (scope meaning : string) (batch : LifecycleBatch L) (facts : list CommandRecordFact) (ps : list Z) : Prop := {
  pw_ok : system_ok db';
  pw_receipts : command_receipts db' = command_receipts db;
  pw_rows : ∃ s es s' log typed rows marker evs,
    folds i db (batch_scope batch) = Ok s ∧ batched L s (batch_commands batch) es s'
    ∧ holds i db' (batch_scope batch) log ∧ trace L log s'
    ∧ events db' = events db ++ typed ++ rows ++ [marker]
    ∧ Forall2 (event_row codec L (h_json (host i)) (batch_scope batch)) es typed ∧ Forall2 (fact_row codec) facts rows
    ∧ ps = row_position <$> typed ++ rows
    ∧ (no_commands L batch = true → typed = [])
    ∧ row_scope marker = scope ∧ row_kind marker = PREFIX_KIND
    ∧ Forall2 names (evs ++ zip_with fact_event (row_position <$> rows) facts) (typed ++ rows)
    ∧ length evs = length typed ∧ forallb (typed_event_ok L batch PREFIX_V2) evs = true
    ∧ ∃ text, decode_row codec scope marker = Some text
        ∧ from_json result_json text = Some (mkPrefixResult PREFIX_V2 meaning (evs ++ zip_with fact_event (row_position <$> rows) facts));
}.

Lemma prefix_staged db scope meaning batch facts stored db' ps :
  system_ok db → Forall (λ f, fact_kind_ok (fact_kind f)) facts → encode_facts codec facts = Ok stored →
  stage_prefix codec anchor reducer_build result_json L (h_json (host i)) scope meaning batch facts stored db = Ok (db', ps) →
  phase_written db db' scope meaning batch facts ps.
Proof.
  intros Hsys Hk He Hst. unfold stage_prefix in Hst. assert (Forall (λ f, record_kind host (fact_kind f)) facts) as Hk' by (eapply Forall_impl; [exact Hk|by intros f []]).
  destruct (stage_lifecycle _ _ _ _ _ db batch) as [[db1 ps1]|] eqn:H1; [|done]. cbn [fst snd] in Hst.
  destruct (stage_lifecycle_batched codec anchor reducer_build host Hkinds Hdispatch i db batch db1 ps1 Hsys H1)
    as (Hsys1 & Hrc1 & _ & s & es & s' & log & typed & Hf & Hb & Hh & Ht & He1 & -> & Htyped).
  destruct (typed_events _ _ _ _ _) as [evs|] eqn:Hev; [|done].
  destruct (typed_named L batch db1 typed evs (proj1 Hsys1) (event_rows_typed _ _ _ _ _ _ Htyped)) as [Hn1 Hf1]; [|done|]. { intros r Hr. rewrite He1. apply elem_of_app. by right. }
  destruct (append_facts db1 stored) as [[db2 ps2]|] eqn:H2; [|done]. cbn [fst snd] in Hst.
  destruct (append_facts_rows codec reducer_build host facts db1 stored db2 ps2 Hk' Hsys1 He H2) as (Hsys2 & Hrc2 & (rows & He2 & -> & Hrows) & Hkeep2).
  destruct (to_json result_json _) as [text|] eqn:Htext; [|done]. cbn [ok_or] in Hst.
  destruct (encode_facts codec [_]) as [marker|] eqn:Hmk; [|done]. destruct (append_facts db2 marker) as [[db3 ps3]|] eqn:H3; [|done].
  injection Hst as <- <-. destruct (append_facts_rows codec reducer_build host [mkFact scope PREFIX_KIND text] db2 marker db3 ps3) as (Hsys3 & Hrc3 & (new & He3 & _ & Hnew) & Hkeep3);
    [by repeat constructor|done..|].
  apply Forall2_cons_inv_l in Hnew as (mk & rest & (Hs3 & Hk3 & Hd3) & Hrest & ->). apply Forall2_nil_inv_l in Hrest as ->. cbn [fact_scope fact_kind fact_payload] in *.
  destruct (facts_named facts rows Hrows) as (Hn2 & Hl2 & Hf2). split; [done|congruence|].
  exists s, es, s', log, typed, rows, mk, evs. cbn [fst]. split_and!; try done.
  - by apply Hkeep3, Hkeep2.
  - by rewrite He3, He2, He1, <- !app_assoc.
  - by rewrite fmap_app.
  - intros Hnc. unfold no_commands in Hnc. destruct (batch_commands batch); [|done]. inversion Hb; subst. by apply Forall2_nil_inv_l in Htyped.
  - by apply Forall2_app.
  - by apply Forall2_length in Hn1.
  - exists text. split; [done|]. by apply json_roundtrip.
Qed.

Lemma markers_events c scope :
  db_ok (log_db c) → markers c scope = filter (λ r, row_kind r = PREFIX_KIND) (filter (λ r, row_scope r = scope) (events (log_db c))).
Proof. intros Hok. unfold markers. by rewrite select_scope_dense. Qed.

Lemma valid_phase scope phase batch facts :
  invalid_phase L scope phase batch facts = false →
  batch_scope batch ≠ scope ∧ ∀ f, f ∈ facts → fact_scope f ≠ scope.
Proof.
  unfold invalid_phase. rewrite !orb_false_iff. intros [[[_ Hb] _] Hf]. split; [by apply String.eqb_neq|].
  intros f Hin Heq. apply (Is_true_false_2 _ Hf). apply existb_True, Exists_exists. exists f. split; [done|]. by rewrite Heq, String.eqb_refl.
Qed.

(** What was written is held. *)
Lemma written_held c c1 scope phase meaning batch facts ps :
  db_ok (log_db c) → markers c scope = [] → invalid_phase L scope phase batch facts = false →
  receipted c1 scope PREFIX_KEY = true → phase_command_ok c1 scope meaning = true → db_ok (log_db c1) →
  (∃ db', phase_written (log_db c) db' scope meaning batch facts ps ∧ events (log_db c1) = events db') →
  held c1 scope meaning batch facts ps.
Proof.
  intros Hok Hmk Hv Hr Hc Hok1 (db' & [_ _ (s0 & es0 & s1 & log & typed & rows & marker & es & _ & _ & _ & _ & He & Htyped%event_rows_typed & Hrows & -> & Hnc & Hms & Hkm & Hn & Hl & Hf & text & Hd & Hj)] & Hev).
  split; [done|done|]. exists marker. apply valid_phase in Hv as [Hb Hfs]. rewrite He in Hev. split.
  - rewrite markers_events in Hmk |- * by done. rewrite Hev, !filter_app, Hmk.
    assert (filter (λ r, row_scope r = scope) typed = []) as ->.
    { apply filter_keeps_none. intros r Hin Hs. apply (proj1 (Forall_forall _ _) Htyped) in Hin as [Hts _]. congruence. }
    assert (filter (λ r, row_scope r = scope) rows = []) as ->.
    { apply filter_keeps_none. intros r [k Hk]%list_elem_of_lookup Hs. destruct (Forall2_lookup_r _ _ _ _ _ Hrows Hk) as (f & Hfk & Hfr & _).
      apply (Hfs f); [by eapply list_elem_of_lookup_2|congruence]. }
    rewrite filter_cons_True, filter_nil by done. cbn [app]. by rewrite filter_cons_True, filter_nil.
  - unfold recover_phase. rewrite Hd, Hj. cbn [ok_or]. cbv zeta. cbn [pr_revision pr_meaning_sha256 pr_events]. rewrite !String.eqb_refl, orb_true_r. cbn [negb orb].
    pose proof (facts_named facts rows Hrows) as (_ & Hlf & Hff). rewrite length_app, Hlf.
    rewrite (proj2 (Nat.ltb_ge _ _)) by lia. replace (length es + length facts - length facts) with (length es) by lia.
    rewrite take_app_length, drop_app_length, Hf, Hff. cbn [negb].
    assert (no_commands L batch && negb (length es =? 0)%nat = false) as ->.
    { destruct (no_commands L batch); [|done]. by rewrite Hl, (Hnc eq_refl). }
    eapply read_named; [done|exact Hn|]. intros r Hin. rewrite Hev. rewrite (app_assoc typed). apply elem_of_app. right. apply elem_of_app. by left.
Qed.

(** ** The property *)

Lemma longer_name id phase : id ≠ command_name "record-command" (prefix_scope id phase) PREFIX_KEY.
Proof.
  intros Heq. apply (f_equal String.length) in Heq. unfold prefix_scope, command_name in Heq.
  repeat rewrite string_length_append in Heq. cbn [String.length] in Heq. lia.
Qed.

Lemma prefix_stages scope meaning batch facts stored :
  Forall (λ f, fact_kind_ok (fact_kind f)) facts → encode_facts codec facts = Ok stored →
  stages codec reducer_build host (stage_prefix codec anchor reducer_build result_json L (h_json (host i)) scope meaning batch facts stored).
Proof.
  intros Hk He P db db' ps Hsys Hst. unfold stage_prefix in Hst.
  destruct (stage_lifecycle _ _ _ _ _ db batch) as [[db1 ps1]|] eqn:H1; [|done]. cbn [fst snd] in Hst.
  destruct (stage_lifecycle_step codec anchor reducer_build host Hkinds Hdispatch P i db batch db1 ps1 Hsys H1) as [S1 R1].
  destruct (typed_events _ _ _ _ _); [|done]. destruct (append_facts db1 stored) as [[db2 ps2]|] eqn:H2; [|done]. cbn [fst snd] in Hst.
  destruct (append_facts_step codec reducer_build host P facts db1 stored db2 ps2 Hk (ls_ok _ _ _ _ _ _ S1) He H2) as [S2 R2].
  destruct (to_json _ _) as [text|]; [|done]. cbn [ok_or] in Hst. destruct (encode_facts codec [_]) as [marker|] eqn:Hm; [|done].
  destruct (append_facts db2 marker) as [[db3 ps3]|] eqn:H3; [|done]. injection Hst as <- _. cbn [fst].
  destruct (append_facts_step codec reducer_build host P [mkFact scope PREFIX_KIND text] db2 marker db3 ps3) as [S3 R3];
    [repeat constructor; apply prefix_kind_ok|by destruct S2|done|done|].
  split; [by do 2 (eapply log_step_trans; [done|])|congruence].
Qed.

(** A phase that was committed is only answered. *)
Lemma staged_replay c scope snapshot stage final :
  receipted c scope PREFIX_KEY = true → phase_command_ok c scope snapshot = true →
  match commit_staged codec c scope PREFIX_KEY snapshot [] None None stage final with
  | (c', Ok m) => m = mkRecordAdmission [] true None ∧ log_db c' = log_db c ∧ final = Ok ()
  | (c', Err e) => c' = c ∧ final = Err e
  end.
Proof.
  intros Hr Hc. unfold phase_command_ok in Hc. rewrite Hr in Hc. destruct (command_by_key c scope PREFIX_KEY) as [r|] eqn:Hrow; [|done].
  apply andb_true_iff in Hc as [Hid Hsn%String.eqb_eq]. unfold commit_staged. cbv zeta. cbn [default].
  assert (∀ row, row_key row = (scope, PREFIX_KEY) → (insert_or_ignore c row).1 = c) as Hins.
  { intros row [= Hs Hk]. unfold insert_or_ignore. assert (conflicts row (commands c) = true) as ->; [|done].
    apply existsb_exists. apply List.find_some in Hrow as [Hin Hkey]. exists r. split; [done|]. rewrite Hs, Hk, Hkey. apply orb_true_r. }
  rewrite Hins by done. rewrite Hrow. cbn [ok_or]. rewrite Hid, Hsn, String.eqb_refl. cbn [negb refuse_if]. rewrite Hr.
  by destruct final as [[]|e].
Qed.

Lemma commit_cases c id cscope key snapshot phase batch facts final c1 m :
  inv c → Forall (λ f, fact_kind_ok (fact_kind f)) facts →
  commit c id cscope key snapshot phase batch facts final = (c1, Ok m) →
  ∃ meaning, let scope := prefix_scope id phase in
  pending_command_matches c id cscope key snapshot = true
  ∧ invalid_phase L scope phase batch facts = false
  ∧ phase_meaning L meaning_json id cscope key snapshot phase batch facts = Ok meaning
  ∧ (∃ stored, encode_facts codec facts = Ok stored)
  ∧ advance c c1 ∧ held c1 scope meaning batch facts (prefix_positions m)
  ∧ pending_command_matches c1 id cscope key snapshot = true
  ∧ if prefix_replayed m then log_db c1 = log_db c
    else receipted c scope PREFIX_KEY = false ∧ ∃ db', phase_written (log_db c) db' scope meaning batch facts (prefix_positions m)
      ∧ events (log_db c1) = events db' ∧ scope_snapshots (log_db c1) = scope_snapshots db'.
Proof.
  intros Hinv Hk Hop. pose proof Hinv as [Hsys Hcok _ _]. unfold commit_prefix, inspect_pending in Hop.
  destruct (pending_command_matches c id cscope key snapshot) eqn:Hpend; [|done]. cbn [negb] in Hop.
  destruct (inspect_phase _ _ _ _ _ _ _ _ _ _ _ _) as [[[sc meaning] recovered]|] eqn:Hi; [|done].
  apply inspected in Hi as (Hv & Hsc & Hm & Hrec). cbn [fst snd] in *. subst sc. set (scope := prefix_scope id phase) in *.
  destruct (encode_facts codec facts) as [stored|] eqn:He; [|done].
  destruct (commit_staged _ _ _ _ _ _ _ _ _ _) as [c' [r|]] eqn:Hc; [|done].
  assert (advance c c') as Hadv.
  { replace c' with (commit_staged codec c scope PREFIX_KEY meaning [] None None (stage_prefix codec anchor reducer_build result_json L (h_json (host i)) scope meaning batch facts stored) final).1 by (by rewrite Hc). by eapply (commit_staged_advance codec reducer_build host intent_json c scope PREFIX_KEY meaning [] []); [|by apply prefix_stages|..]. }
  destruct (staged_commit _ _ _ _ _ _ _ _ _ _ Hcok Hc) as (_ & Hcok' & (row & Hrow & Hid & Hsn & _) & Hrows & Hcase).
  destruct (negb (Bool.eqb _ _)) eqn:Hb; [done|]. injection Hop as <- <-. cbn [prefix_positions prefix_replayed].
  apply negb_false_iff, eqb_prop in Hb. exists meaning. cbv zeta.
  assert (receipted c' scope PREFIX_KEY = true → phase_command_ok c' scope meaning = true) as Hpc.
  { intros Hr. unfold phase_command_ok. rewrite Hr, Hrow. unfold has_id. by rewrite Hid, Hsn, !String.eqb_refl. }
  assert ((∀ r0, r0 ∈ commands c → receipted c (cmd_scope r0) (idempotency_key r0) = false → command_id r0 = id →
            receipted c' (cmd_scope r0) (idempotency_key r0) = false) → pending_command_matches c' id cscope key snapshot = true) as Hp.
  { intros Hrc. unfold pending_command_matches in *. apply existsb_exists in Hpend as (r0 & Hin & Hr0). apply existsb_exists. exists r0.
    apply andb_true_iff in Hr0 as [Hr0 Hr1%negb_true_iff]. pose proof Hr0 as Hr2. rewrite !andb_true_iff in Hr2. destruct Hr2 as [[[Hid0%String.eqb_eq _] _] _].
    split.
    - apply list_elem_of_In, Hrows; [by apply list_elem_of_In|]. rewrite Hid0. apply longer_name.
    - rewrite Hr0. cbn [andb]. apply negb_true_iff, Hrc; [by apply list_elem_of_In|done|done]. }
  destruct recovered as [ps|]; cbn [default]; rewrite Hb in *.
  - rewrite bool_decide_eq_true_2 in * by done. destruct Hcase as [Hrc Hlog]. pose proof Hadv as (P & Hfor & _).
    split_and!; try done; [by exists stored| |].
    + eapply (held_later P c); [done|done|by unfold markers; rewrite Hlog|done].
    + apply Hp. intros r0 _ Hr0 _. unfold receipted in *. by rewrite Hlog.
  - rewrite bool_decide_eq_false_2 in * by (by intros []). destruct Hcase as (Hrc & db & Hst & Hins). destruct Hrec as (_ & Hnone & Hmk).
    pose proof (prefix_staged _ _ _ _ _ _ _ _ Hsys Hk He Hst) as Hw.
    destruct (receipt_step codec reducer_build host (λ _, True) db scope PREFIX_KEY _ _ (pw_ok _ _ _ _ _ _ _ Hw) Hins) as (Hls & Hev & Hsnap & _ & Hrcs).
    assert (receipted c' scope PREFIX_KEY = true) as Hr'.
    { unfold receipted. rewrite Hrcs. apply bool_decide_eq_true. rewrite lookup_insert_eq. by eexists. }
    split_and!; try done; [by exists stored| | |by exists db].
    + eapply (written_held c); [by destruct Hsys|done|exact Hv|done|by apply Hpc|by destruct Hls as [[]]|by exists db].
    + apply Hp. intros r0 Hin Hr0 Hid0. unfold receipted in *. rewrite Hrcs, lookup_insert_ne; [by rewrite (pw_receipts _ _ _ _ _ _ _ Hw)|].
      intros [= Hs0 Hk0]. pose proof (List.find_none _ _ Hnone r0 (proj1 (list_elem_of_In _ _) Hin)) as Hfn.
      by rewrite (proj2 (same_key_spec _ _ _)) in Hfn by (unfold row_key; congruence).
Qed.

Notation verify c id cscope key snapshot phase batch facts :=
  (verify_prefix codec result_json L meaning_json c id cscope key snapshot phase batch facts).

(** A phase of a pending command happens once. When a commit of it succeeds, the command
    was pending with exactly this snapshot and still is. A first one moves the lifecycle as
    the batch decides, command after command, and writes the rows of its events, then the
    facts, then one marker, and nothing else; it answers the positions of the events and the
    facts. A replay writes nothing to the log. In every later database in which nobody else
    wrote a marker there, while the command is pending, the phase verifies with those
    positions, and committing it again answers them and leaves the log; and a commit under
    the phase's name that means anything else is refused and changes nothing. *)
Theorem phase_committed_once c id cscope key snapshot phase batch facts final c1 m :
  inv c → Forall (λ f, fact_kind_ok (fact_kind f)) facts →
  commit c id cscope key snapshot phase batch facts final = (c1, Ok m) →
  pending_command_matches c id cscope key snapshot = true ∧ pending_command_matches c1 id cscope key snapshot = true ∧ advance c c1
  ∧ (if prefix_replayed m then log_db c1 = log_db c
     else ∃ s es s' typed rows marker,
       folds i (log_db c) (batch_scope batch) = Ok s ∧ batched L s (batch_commands batch) es s' ∧ folds i (log_db c1) (batch_scope batch) = Ok s'
       ∧ events (log_db c1) = events (log_db c) ++ typed ++ rows ++ [marker]
       ∧ Forall2 (event_row codec L (h_json (host i)) (batch_scope batch)) es typed ∧ Forall2 (fact_row codec) facts rows
       ∧ row_scope marker = prefix_scope id phase ∧ row_kind marker = PREFIX_KIND
       ∧ prefix_positions m = row_position <$> typed ++ rows)
  ∧ ∀ c2, advance c1 c2 → markers c2 (prefix_scope id phase) = markers c1 (prefix_scope id phase) →
      (pending_command_matches c2 id cscope key snapshot = true →
         verify c2 id cscope key snapshot phase batch facts = Ok (prefix_positions m)
         ∧ match commit c2 id cscope key snapshot phase batch facts final with
           | (c3, Ok m') => m' = mkPrefix (prefix_positions m) true ∧ log_db c3 = log_db c2
           | (c3, Err _) => False
           end)
      ∧ ∀ j other_json cscope' key' snapshot' batch' facts' final' meaning,
          phase_meaning L meaning_json id cscope key snapshot phase batch facts = Ok meaning →
          phase_meaning (lifecycle (host j)) other_json id cscope' key' snapshot' phase batch' facts' ≠ Ok meaning →
          ∃ e, commit_prefix codec anchor reducer_build result_json (lifecycle (host j)) (h_json (host j)) other_json
                 c2 id cscope' key' snapshot' phase batch' facts' final' = (c2, Err e).
Proof.
  intros Hinv Hk Hop. destruct (commit_cases _ _ _ _ _ _ _ _ _ _ _ Hinv Hk Hop) as (meaning & Hpend & Hv & Hm & [stored He] & Hadv & Hheld & Hpend1 & Hcase).
  assert (final = Ok ()) as ->.
  { unfold commit_prefix in Hop. destruct (inspect_pending _ _ _ _ _ _ _ _ _ _ _ _) as [[[sc mn] rec]|]; [|done]. rewrite He in Hop.
    destruct (commit_staged _ _ _ _ _ _ _ _ _ _) as [c' [r|]] eqn:Hc; [|done]. by destruct (staged_commit _ _ _ _ _ _ _ _ _ _ (inv_commands _ _ _ _ _ Hinv) Hc). }
  split_and!; [done|done|done| |].
  - destruct (prefix_replayed m); [done|].
    destruct Hcase as (_ & db' & [Hok' _ (s & es & s' & log & typed & rows & marker & evs & Hf & Hb & Hh & Ht & He' & Htr & Hfr & Hps & _ & Hms & Hmk & _)] & Hev & Hsn).
    exists s, es, s', typed, rows, marker. rewrite Hev. split_and!; try done.
    pose proof (advance_inv codec reducer_build host intent_json _ _ Hinv Hadv) as [[Hok1 _] _ _ _].
    eapply holds_fold; [done|by eapply (same_log_holds codec reducer_build host db')|done].
  - intros c2 Hadv2 Hmk. pose proof (advance_inv codec reducer_build host intent_json _ _ Hinv Hadv) as Hinv1. pose proof Hadv2 as (P & Hfor & _).
    pose proof (held_later P c1 c2 _ _ _ _ _ (inv_log _ _ _ _ _ Hinv1) Hfor Hmk Hheld) as Hheld2. split.
    + intros Hpend2. pose proof (held_inspected _ _ _ _ _ _ _ _ _ _ Hv Hm Hheld2) as Hi. split.
      { unfold verify_prefix, inspect_pending. by rewrite Hpend2, Hi. }
      unfold commit_prefix, inspect_pending. rewrite Hpend2, Hi, He. cbn [negb].
      pose proof (staged_replay c2 (prefix_scope id phase) meaning
        (stage_prefix codec anchor reducer_build result_json L (h_json (host i)) (prefix_scope id phase) meaning batch facts stored) (Ok ())
        (hd_receipt _ _ _ _ _ _ Hheld2) (hd_command _ _ _ _ _ _ Hheld2)) as Hrep.
      destruct (commit_staged _ _ _ _ _ _ _ _ _ _) as [c' [r|e]]; [|by destruct Hrep]. by destruct Hrep as (-> & Hlog & _).
    + intros j oj cscope' key' snapshot' batch' facts' final' meaning0 Hm0 Hne. rewrite Hm in Hm0. injection Hm0 as <-.
      assert (∃ e, inspect_pending codec result_json (lifecycle (host j)) oj c2 id cscope' key' snapshot' phase batch' facts' = Err e) as [e Hi];
        [|exists e; unfold commit_prefix; by rewrite Hi].
      unfold inspect_pending, inspect_phase. destruct (negb (pending_command_matches _ _ _ _ _)); [by eexists (Failed _)|]. cbv zeta. destruct (invalid_phase (lifecycle (host j)) _ phase batch' facts'); [by eexists (Failed _)|].
      destruct (phase_meaning (lifecycle (host j)) _ _ _ _ _ _ _ _) as [meaning'|e]; [|by exists e]. destruct (negb (Nat.eqb _ _)); [by eexists (Failed _)|].
      destruct Hheld2 as [Hr Hc _]. unfold phase_command_ok in *. rewrite Hr in *. destruct (command_by_key c2 _ _) as [r|]; [|done].
      apply andb_true_iff in Hc as [-> Hsn%String.eqb_eq]. rewrite Hsn, (proj2 (String.eqb_neq meaning meaning')) by congruence. by eexists (Failed _).
Qed.
End held.
End steps.

(** ** A phase of a sample command *)

Module PrefixSample.
Import StoreSystem.Sample CommandSample.
#[export] Existing Instances SampleTexts.sample_p256 SampleTexts.sample_texts.

#[export] Instance PrefixEvent_eq_dec : EqDecision PrefixEvent.
Proof. solve_decision. Defined.
#[export] Instance PrefixResult_eq_dec : EqDecision PrefixResult.
Proof. solve_decision. Defined.
Definition meaning_json (x : Meaning string) : option string :=
  let '(revision, id, scope, key, snapshot, phase, target, kind, cmds, facts) := x in
  Some (String.concat "," ([revision; id; scope; key; snapshot; phase; target; kind] ++ cmds
    ++ ((λ f : string * string * string, f.1.1 +:+ "," +:+ f.1.2 +:+ "," +:+ f.2) <$> facts))).

(** The command is claimed, and starts with a phase of one event and one fact. *)
Definition claimed : list Served := [OnCommands host (OpClaim "" "id" "s" "other" "snapshot" None [] 0%N 0%N)].
Definition pending : Cdb := fold_left serve_command claimed c.

Lemma pending_inv : inv (Some codec) "build" host coded pending.
Proof.
  assert (reached pending) as H by (apply reached_later; [exact c_reached|by repeat constructor]).
  exact (reached_inv _ _ _ _ host_kinds outbox_kind _ _ _ _ _ _ _ _ _ _ H).
Qed.

Definition batch : LifecycleBatch (lifecycle (host true)) := mkBatch (L := lifecycle (host true)) "t" ["go"].
Definition facts : list CommandRecordFact := [mkFact "t" "note" "x"].
(** What the marker of that phase says. *)
Definition started : PrefixResult := mkPrefixResult PREFIX_V2
  (match phase_meaning (lifecycle (host true)) meaning_json "id" "s" "other" "snapshot" "start" batch facts with Ok m => m | Err _ => "" end)
  [mkPrefixEvent "t" 0 "checkpointed_action" (prefix_digest "go") true; fact_event 1 (mkFact "t" "note" "x")].
Definition result_json : Json PrefixResult := table_json [("started", started)].
#[export] Instance result_laws : JsonLaws result_json.
Proof. apply table_json_laws. apply NoDup_singleton. Defined.

Notation commit_start c facts :=
  (commit_prefix (Some codec) anchor "build" result_json (lifecycle (host true)) (h_json (host true)) meaning_json
    c "id" "s" "other" "snapshot" "start" batch facts (Ok ())).

Lemma phase_committed_once_witness :
  ∃ c1 m, commit_start pending facts = (c1, Ok m) ∧ prefix_replayed m = false ∧ prefix_positions m = [0%Z; 1%Z]
    ∧ verify_prefix (Some codec) result_json (lifecycle (host true)) meaning_json c1 "id" "s" "other" "snapshot" "start" batch facts
      = Ok (prefix_positions m)
    ∧ ∃ e, commit_start c1 [mkFact "t" "note" "other text"] = (c1, Err e).
Proof.
  destruct (commit_start pending facts) as [c1 o] eqn:Hop.
  assert (o = Ok (mkPrefix [0%Z; 1%Z] false)) as ->.
  { transitivity ((c1, o).2); [reflexivity|]. rewrite <- Hop. vm_compute. reflexivity. }
  exists c1, (mkPrefix [0%Z; 1%Z] false). split; [reflexivity|]. split; [reflexivity|]. split; [reflexivity|].
  destruct (phase_committed_once (Some codec) anchor "build" host host_kinds outbox_kind coded result_json true meaning_json
    (λ b, ltac:(by destruct b)) pending "id" "s" "other" "snapshot" "start" batch facts (Ok ()) c1 (mkPrefix [0%Z; 1%Z] false)
    pending_inv) as (_ & Hp & Hadv & _ & Hlater).
  - repeat constructor; [intros []; discriminate|discriminate].
  - exact Hop.
  - pose proof (advance_refl (Some codec) "build" host coded c1 (advance_inv _ _ _ _ _ _ pending_inv Hadv)) as Hself.
    destruct (Hlater c1 Hself eq_refl) as [Hv Hother]. split; [exact (proj1 (Hv Hp))|].
    eapply (Hother true meaning_json "s" "other" "snapshot" batch [mkFact "t" "note" "other text"]).
    + vm_compute. reflexivity.
    + vm_compute. discriminate.
Defined.
End PrefixSample.
