(* ===== verification/Frames.v ===== *)
(** * What one append and one admission leave

    For a database whose scopes hold the logs of the hosted lifecycles: a record changes the
    records of its kind in its scope and no fold; an admission changes one fold, and records
    of its own kind only. *)

From S2P Require Import Prelude Ids Lifecycle Store StoreSystem Records.

Section frames.
Context (codec : option ContentCodec) (anchor : string → string) (reducer_build : string).
Context {I : Type} `{!EqDecision I} (host : I → Hosted).
Context (host_kinds : ∀ i j, KIND (lifecycle (host i)) = KIND (lifecycle (host j)) → i = j).
Context `{!CodecLaws codec, !AnchorLaws anchor}.

Notation system_ok := (system_ok codec reducer_build host).
Notation folds i db scope := (fold_i codec anchor reducer_build host i db scope).
Notation records := (records codec).

(** A step that writes [payload] as the next record of its kind and nothing else. *)
Record appended (scope kind payload : string) (db db' : Db) : Prop := {
  ap_ok : system_ok db';
  ap_folds : ∀ i sc, folds i db' sc = folds i db sc;
  ap_records : ∀ sc k, records db' sc k = records db sc k ++ if bool_decide (scope = sc ∧ kind = k) then [payload] else [];
}.

Lemma append_done scope kind payload db db' p :
  record_kind host kind → system_ok db → append_record codec db scope kind payload = (db', Ok p) → appended scope kind payload db db'.
Proof.
  intros Hk [Hok Hall] Happ. pose proof (append_record_grows codec (λ k, k = kind) db scope kind payload Hok eq_refl) as Hg. rewrite Happ in Hg. cbn [fst] in Hg.
  assert (∀ i sc log, holds codec reducer_build host i db sc log → holds codec reducer_build host i db' sc log) as Hkeep.
  { intros i sc log. apply (grows_represents codec (λ k, k = kind)); [done|]. intros k ->. apply Hk. }
  assert (db_ok db') as Hok1 by (by destruct Hg as (? & [] & _)). split.
  - split; [done|]. intros i sc. destruct (Hall i sc) as (log & s & Ht & Hh). exists log, s. split; [done|by apply Hkeep].
  - intros i sc. destruct (Hall i sc) as (log & s & Ht & Hh).
    rewrite (holds_fold codec anchor reducer_build host i db sc log s) by done. eapply holds_fold; [done|by apply Hkeep|done].
  - intros sc k. by destruct (append_record_records codec _ _ _ _ _ _ sc k Hok Happ) as [_ ->].
Qed.

(** An admission to one scope leaves records and every other fold. *)
Record admitted_to (i : I) (scope : string) (db db' : Db) : Prop := {
  at_ok : system_ok db';
  at_folds : ∀ j sc, (i, scope) ≠ (j, sc) → folds j db' sc = folds j db sc;
  at_records : ∀ sc k, k ≠ KIND (lifecycle (host i)) → records db' sc k = records db sc k;
}.

Lemma admitted_to_refl i scope db : system_ok db → admitted_to i scope db db.
Proof. by split. Qed.

Lemma admitted_to_trans i scope db1 db2 db3 : admitted_to i scope db1 db2 → admitted_to i scope db2 db3 → admitted_to i scope db1 db3.
Proof. intros [H1 H2 H3] [H4 H5 H6]. split; [done|intros; by rewrite H5, H2|intros; by rewrite H6, H3]. Qed.

Lemma admit_done i scope command db db' s' :
  system_ok db → admit_i codec anchor reducer_build host i db scope command = (db', Ok s') →
  admitted_to i scope db db' ∧ folds i db' scope = Ok s'
  ∧ ∃ s es, folds i db scope = Ok s ∧ apply (lifecycle (host i)) s command = Applied es s'.
Proof.
  intros Hsys Hop. destruct (admit_ok codec anchor reducer_build host host_kinds db i scope command db' s' Hsys Hop)
    as (Hsys' & Hs & Hf & Hframe & new & Hext & Hnew).
  split_and!; [|done|done]. split; [done|done|]. intros sc k Hk. destruct Hsys as [Hok _].
  rewrite (records_extends codec db db' new sc k Hok Hext). assert (filter (λ r, row_scope r = sc ∧ row_kind r = k) new = []) as ->; [|by rewrite app_nil_r].
  clear -Hnew Hk. induction new as [|r new IH]; [done|]. rewrite filter_cons_False; [apply IH; set_solver|].
  intros [_ Heq]. apply Hk. rewrite <-Heq. by apply (Hnew r (list_elem_of_here _ _)).
Qed.

(** An admitted command whose events encode is committed. *)
Lemma admit_can i scope command db s es s' :
  system_ok db → folds i db scope = Ok s → apply (lifecycle (host i)) s command = Applied es s' →
  (∀ e, e ∈ es → encodable codec (lifecycle (host i)) (h_json (host i)) scope e) →
  ∃ db', admit_i codec anchor reducer_build host i db scope command = (db', Ok s').
Proof.
  intros [Hok Hall] Hf Ha Henc. destruct (Hall i scope) as (log & t & Ht & Hh).
  rewrite (holds_fold codec anchor reducer_build host i db scope log t) in Hf by done. injection Hf as ->.
  pose proof (admit_spec codec anchor reducer_build _ (h_json (host i)) db scope log s command Hok Hh Ht) as Hspec.
  unfold admits in Hspec. rewrite Ha in Hspec. destruct (proj1 Hspec Henc) as (db' & Hop & _). by exists db'.
Qed.

(** A refused command leaves the database. *)
Lemma admit_refused i scope command db s r :
  system_ok db → folds i db scope = Ok s → apply (lifecycle (host i)) s command = Refused r →
  admit_i codec anchor reducer_build host i db scope command = (db, Err (Failed (AE_Rejected r))).
Proof.
  intros [Hok Hall] Hf Ha. destruct (Hall i scope) as (log & t & Ht & Hh).
  rewrite (holds_fold codec anchor reducer_build host i db scope log t) in Hf by done. injection Hf as ->.
  pose proof (admit_spec codec anchor reducer_build _ (h_json (host i)) db scope log s command Hok Hh Ht) as Hspec.
  unfold admits in Hspec. by rewrite Ha in Hspec.
Qed.

(** A record that encodes is appended. *)
Lemma append_can scope kind payload stored db :
  db_ok db → encode_payload codec scope kind payload = Ok stored → ∃ db' p, append_record codec db scope kind payload = (db', Ok p).
Proof. intros Hok He. unfold append_record. rewrite He, insert_event_next by done. by do 2 eexists. Qed.
End frames.

Arguments ap_ok {codec anchor reducer_build I host scope kind payload db db'} _.
Arguments ap_folds {codec anchor reducer_build I host scope kind payload db db'} _.
Arguments ap_records {codec anchor reducer_build I host scope kind payload db db'} _.
Arguments at_ok {codec anchor reducer_build I host i scope db db'} _.
Arguments at_folds {codec anchor reducer_build I host i scope db db'} _.
Arguments at_records {codec anchor reducer_build I host i scope db db'} _.
