(* ===== verification/ResourceStore.v ===== *)
(** * Resources of an engagement

    [crates/app/src/resource_store.rs] over the store: the records of resources, folded
    latest-wins by id, the bindings of imported files, the access and erasure lifecycles of
    a resource in scopes of their own, the reads of an engagement and the outputs derived
    from them; with the records of [crates/core/src/resource.rs] and
    [canonical_relative_path] of [crates/workspace/src/lib.rs]. Publication through a held
    writer, exports to disk and the routes are left out. *)

From Stdlib Require Import Ascii.
From S2P Require Import Prelude Ids Lifecycle AccessControl Egress Store StoreSystem Records Texts Frames.
From S2P Require ResourceAccess Erasure.

#[local] Existing Instances ResourceAccess.AccessPhase_eq_dec Erasure.ErasurePhase_eq_dec Erasure.ErasureEvent_eq_dec.

(** ** The record of a resource *)

Inductive ContentLocator := L_Workspace (path commit : string) | L_Content (handle : string).

Definition attributes_default : ResourceAttributes := mkResourceAttributes classification_default None ∅.

Record ResourceRecord := mkResourceRecord {
  rr_resource : Resource;
  rr_stakeholders : gset AuthorityId;
  rr_locator : ContentLocator;
  rr_tombstoned : bool;
  rr_attributes : ResourceAttributes;
}.
#[export] Instance ResourceRecord_eta : Eta ResourceRecord := mkEta (λ r,
  mkResourceRecord (rr_resource r) (rr_stakeholders r) (rr_locator r) (rr_tombstoned r) (rr_attributes r)).

Definition record_new (res : Resource) (locator : ContentLocator) (owner_of : ResourceId → AuthorityId) : ResourceRecord :=
  mkResourceRecord res (stakeholders res owner_of) locator false attributes_default.

Definition with_attributes (r : ResourceRecord) (attributes : ResourceAttributes) : ResourceRecord :=
  r <| rr_attributes := attributes |>.

Definition rr_id (r : ResourceRecord) : string := as_str (resource_id (rr_resource r)).

(** ** Handles and scopes *)

Definition RESOURCE_KIND : string := "resource".
Definition CONTEXT_IMPORT_KIND : string := "context-import".
Definition READ_KIND : string := "read".

Definition context_id (path : string) : ResourceId := mkId ("ctx-" +:+ trim_dashes_end (trim_dashes_start (slug path))).

Definition access_scope (engagement : string) (id : ResourceId) : string := engagement +:+ "::access::" +:+ as_str id.
Definition erasure_scope (engagement : string) (id : ResourceId) : string := engagement +:+ "::erasure::" +:+ as_str id.
Definition export_scope (engagement : string) (id : ResourceId) : string := engagement +:+ "-export-" +:+ as_str id.
Definition review_scope (engagement : string) (id : ResourceId) : string := engagement +:+ "-review-" +:+ as_str id.
Definition output_id (engagement : string) : ResourceId := mkId ("out-" +:+ engagement).

(** ** Imported files *)

Record ContextImport := mkContextImport {
  ci_resource_id : string;
  revision : N; (* u64 *)
  complete : bool;
  files : gmap string string;
}.
#[export] Instance ContextImport_eta : Eta ContextImport := mkEta (λ c,
  mkContextImport (ci_resource_id c) (revision c) (complete c) (files c)).

(** [Path::components] of a relative Unix path: empty and ["."] components are dropped. *)
Definition canonical_relative_path (relative : string) : result string string :=
  if has_prefix "/" relative then Err ("path " +:+ relative +:+ " escapes the worktree")
  else
    let parts := filter (λ p, p ≠ "" ∧ p ≠ ".") (split_on "/" relative) in
    if bool_decide (".." ∈ parts) then Err ("path " +:+ relative +:+ " escapes the worktree")
    else if bool_decide (parts = []) then Err ("path " +:+ relative +:+ " names no file in the worktree")
    else Ok (join "/" parts).

Definition canonical_import_files (fs : gmap string string) : result failure (gmap string string) :=
  try_fold (λ canonical x,
    match canonical_relative_path x.1 with
    | Err error => fail (AE_Codec ("context import path: " +:+ error))
    | Ok key =>
        if bool_decide (is_Some (canonical !! key))
        then fail (AE_Codec ("context import names " +:+ x.1 +:+ " twice under different spellings"))
        else Ok (<[key := x.2]> canonical)
    end) ∅ (btree_iter fs).

Section resources.
Context (record_json : Json ResourceRecord) (import_json : Json ContextImport).
Context (access_json : Json ResourceAccess.AccessEvent) (erasure_json : Json Erasure.ErasureEvent).
Context (codec : option ContentCodec) (anchor : string → string) (reducer_build : string).

(** [store.fold::<L>(..)?] and [store.admit::<L>(..)?] *)
Definition fold_access (db : Db) (scope : string) : result failure ResourceAccess.AccessState :=
  fold codec anchor reducer_build ResourceAccess.access_lifecycle access_json db scope.
Definition admit_access (scope : string) (command : ResourceAccess.AccessCommand) : Prog ResourceAccess.AccessState :=
  λ db, store_admit codec anchor reducer_build ResourceAccess.access_lifecycle access_json db scope command.
Definition fold_erasure (db : Db) (scope : string) : result failure Erasure.ErasureState :=
  fold codec anchor reducer_build Erasure.erasure_lifecycle erasure_json db scope.
Definition admit_erasure (scope : string) (command : Erasure.ErasureCommand) : Prog Erasure.ErasureState :=
  λ db, store_admit codec anchor reducer_build Erasure.erasure_lifecycle erasure_json db scope command.

Definition append (scope kind payload : string) : Prog unit :=
  do _ <- (λ db, append_record codec db scope kind payload); ret ().

(** *** Bindings of imported files *)

Definition context_imports (db : Db) (chat_id : string) : result failure (gmap string ContextImport) :=
  fold_rows import_json (λ m i, <[ci_resource_id i := i]> m) ∅ (records codec db chat_id CONTEXT_IMPORT_KIND).

Definition current_context_import (db : Db) (chat_id resource_id : string) : result failure (option ContextImport) :=
  fold_rows import_json (λ current i, if String.eqb (ci_resource_id i) resource_id then Some i else current) None
    (records codec db chat_id CONTEXT_IMPORT_KIND).

Definition begin_context_import (chat_id resource_id : string) : Prog unit :=
  do previous <- reads (λ db, current_context_import db chat_id resource_id);
  do payload <- serialized import_json
    (mkContextImport resource_id (match previous with None => 1 | Some p => u64_saturating_add (revision p) 1 end) false ∅);
  append chat_id CONTEXT_IMPORT_KIND payload.

Definition bind_context_import (chat_id : string) (id : ResourceId) (fs : gmap string string) : Prog unit :=
  do fs <- reads (λ _, canonical_import_files fs);
  do current <- reads (λ db, current_context_import db chat_id (as_str id));
  match current with
  | None => ret ()
  | Some current =>
      if complete current then ret ()
      else
        do payload <- serialized import_json (current <| complete := true |> <| files := fs |>);
        append chat_id CONTEXT_IMPORT_KIND payload
  end.

(** *** Records of resources *)

Definition put (scope : string) (record : ResourceRecord) : Prog unit :=
  do payload <- serialized record_json record;
  append scope RESOURCE_KIND payload.

Definition latest (db : Db) (scope : string) : result failure (gmap string ResourceRecord) :=
  fold_rows record_json (λ m r, <[rr_id r := r]> m) ∅ (records codec db scope RESOURCE_KIND).

Definition list_resources (db : Db) (scope : string) : result failure (list ResourceRecord) :=
  let? m := latest db scope in Ok (btree_values m).

Definition get (db : Db) (scope : string) (id : ResourceId) : result failure (option ResourceRecord) :=
  let? l := list_resources db scope in
  Ok (List.find (λ r, bool_decide (resource_id (rr_resource r) = id)) l).

Definition new_context_record (owner path commit : string) (attributes : ResourceAttributes) : ResourceRecord :=
  with_attributes
    (record_new (resource_input (context_id path) context_kind (mkId owner)) (L_Workspace path commit) (λ _, mkId owner))
    attributes.

(** The grant of a mint: [owner] both requires and approves the access. *)
Definition self_grant (scope owner : string) : Prog unit :=
  do s <- reads (λ db, fold_access db scope);
  if bool_decide (ResourceAccess.phase s = ResourceAccess.P_Init) then
    do _ <- admit_access scope (ResourceAccess.C_RequestAccess {[mkId owner]});
    do _ <- admit_access scope (ResourceAccess.C_Approve (mkId owner));
    ret ()
  else ret ().

Definition mint_context_with (engagement owner path commit : string) (attributes : ResourceAttributes) : Prog ResourceRecord :=
  let rec := new_context_record owner path commit attributes in
  let id := resource_id (rr_resource rec) in
  do _ <- begin_context_import engagement (as_str id);
  do _ <- put engagement rec;
  do _ <- self_grant (access_scope engagement id) owner;
  ret rec.

Definition mint_context (engagement owner path commit : string) : Prog ResourceRecord :=
  mint_context_with engagement owner path commit attributes_default.

(** *** Access *)

Definition access_phase (db : Db) (engagement : string) (id : ResourceId) : result failure ResourceAccess.AccessPhase :=
  let? s := fold_access db (access_scope engagement id) in Ok (ResourceAccess.phase s).

(** [admit], then the folded phase. *)
Definition drive_access (engagement : string) (id : ResourceId) (command : ResourceAccess.AccessCommand)
    : Prog ResourceAccess.AccessPhase :=
  do _ <- admit_access (access_scope engagement id) command;
  do s <- reads (λ db, fold_access db (access_scope engagement id));
  ret (ResourceAccess.phase s).
Definition request_access (engagement : string) (id : ResourceId) (required : gset AuthorityId) :=
  drive_access engagement id (ResourceAccess.C_RequestAccess required).
Definition approve_access (engagement : string) (id : ResourceId) (approver : AuthorityId) :=
  drive_access engagement id (ResourceAccess.C_Approve approver).
Definition revoke_access (engagement : string) (id : ResourceId) := drive_access engagement id ResourceAccess.C_Revoke.

Definition is_resolvable (db : Db) (engagement : string) (id : ResourceId) : result failure bool :=
  let? found := get db engagement id in
  match found with
  | Some rec =>
      if rr_tombstoned rec then Ok false
      else let? p := access_phase db engagement id in Ok (bool_decide (p = ResourceAccess.P_Granted))
  | None => Ok false
  end.

Definition abac_permits (db : Db) (engagement : string) (id : ResourceId) (actor : AuthorityAttributes) (action : Action)
    (ceiling_attested : bool) (policy : Policy) (floor_baseline : bool) : result failure bool :=
  let? found := get db engagement id in
  match found with
  | None => Ok false
  | Some rec => Ok (permitted_with_policy floor_baseline policy (mkDecision actor (rr_attributes rec) action ceiling_attested))
  end.

(** The loop of [granted_context]. *)
Fixpoint granted_of (db : Db) (engagement : string) (l : list ResourceRecord) : result failure (list ResourceId) :=
  match l with
  | [] => Ok []
  | r :: l =>
      let id := resource_id (rr_resource r) in
      let? granted :=
        if bool_decide (kind_name (resource_kind (rr_resource r)) = kind_name context_kind) && negb (rr_tombstoned r)
        then let? p := access_phase db engagement id in Ok (bool_decide (p = ResourceAccess.P_Granted))
        else Ok false in
      let? rest := granted_of db engagement l in
      Ok (if granted : bool then id :: rest else rest)
  end.

Definition granted_context (db : Db) (engagement : string) : result failure (list ResourceId) :=
  let? l := list_resources db engagement in granted_of db engagement l.

(** *** Reads *)

(** One handle of the signature. *)
Definition handle_reads (granted : list ResourceId) (handle : string) : gset string :=
  if String.eqb handle "project" then list_to_set (as_str <$> granted)
  else if String.eqb handle "command" || String.eqb handle "human" || String.eqb handle "turn_images" then ∅
  else if has_prefix "resource:" handle then
    let id := trim_start_matches "resource:" handle in
    if bool_decide (mkId id ∈ granted) then {[id]} else ∅
  else list_to_set (as_str <$> granted).

Record OutputFieldFlow := mkFlow { field : string; read_handles : list string }.

Definition certified_output_reads (db : Db) (engagement : string) (signature : list OutputFieldFlow)
    : result failure (list ResourceId) :=
  let? granted := granted_context db engagement in
  Ok (mkId <$> btree_set_iter (foldl (λ reads handle, reads ∪ handle_reads granted handle) ∅ (signature ≫= read_handles))).

Fixpoint record_reads (engagement : string) (ids : list ResourceId) : Prog unit :=
  match ids with
  | [] => ret ()
  | id :: ids => do _ <- append engagement READ_KIND (as_str id); record_reads engagement ids
  end.

Definition engagement_reads (db : Db) (engagement : string) : EngagementReads :=
  foldl engagement_read engagement_new (records codec db engagement READ_KIND).

(** The owners of the listed records, by id. *)
Definition owners_of (l : list ResourceRecord) : gmap string AuthorityId :=
  foldl (λ m r, <[rr_id r := Egress.owner (rr_resource r)]> m) ∅ l.

Definition external_read_stakeholders (db : Db) (engagement me : string) : result failure (list string) :=
  let? l := list_resources db engagement in
  let taint := engagement_taint (engagement_reads db engagement)
                 (λ item, match owners_of l !! item with Some a => as_str a | None => "<unresolved>" end) in
  Ok (List.filter (λ a, negb (String.eqb a me)) (btree_set_iter taint)).

Definition mint_output (engagement me commit : string) : Prog ResourceRecord :=
  do rec <- reads (λ db,
    let? l := list_resources db engagement in
    let r := engagement_reads db engagement in
    let taint := engagement_taint r (λ item, match owners_of l !! item with Some a => as_str a | None => "" end) in
    Ok (mkResourceRecord
          (resource_derived (output_id engagement) (mkId me) (set_map mkId (engagement_items r)))
          (set_map mkId taint) (L_Workspace "" commit) false attributes_default));
  do _ <- put engagement rec;
  ret rec.

(** *** Tombstones *)

Definition tombstone (engagement : string) (id : ResourceId) : Prog bool :=
  do found <- reads (λ db, get db engagement id);
  match found with
  | None => ret false
  | Some rec =>
      let scope := erasure_scope engagement id in
      do s <- reads (λ db, fold_erasure db scope);
      do _ <- (if bool_decide (Erasure.phase s ≠ Erasure.P_Tombstoned) then
                 do _ <- admit_erasure scope Erasure.C_RequestErasure;
                 do _ <- admit_erasure scope (Erasure.C_Approve Erasure.OWNER);
                 do _ <- admit_erasure scope Erasure.C_Tombstone;
                 ret ()
               else ret ());
      do _ <- put engagement (rec <| rr_tombstoned := true |>);
      ret true
  end.
End resources.

(** ** What the records say *)

(** Every record is filed under its own id. *)
Definition filed (m : gmap string ResourceRecord) : Prop := ∀ id r, m !! id = Some r → rr_id r = id.

Section views.
Context (record_json : Json ResourceRecord) (codec : option ContentCodec).

Lemma resources_filed db scope m : latest record_json codec db scope = Ok m → filed m.
Proof.
  unfold latest. intros (rs & _ & ->)%fold_rows_ok. assert (filed ∅) as H0 by (intros id r ?%lookup_empty_Some; done).
  revert H0. generalize (∅ : gmap string ResourceRecord) as m. induction rs as [|r rs IH]; intros m Hm; [done|]. cbn [foldl].
  apply IH. intros id r' [[<- <-]|[_ Hr]]%lookup_insert_Some; [done|by apply Hm].
Qed.

Lemma find_filed (m : gmap string ResourceRecord) (id : ResourceId) :
  filed m → List.find (λ r, bool_decide (resource_id (rr_resource r) = id)) (btree_values m) = m !! as_str id.
Proof.
  intros Hf. destruct (List.find _ _) as [r|] eqn:Hr.
  - apply List.find_some in Hr as [Hin%list_elem_of_In%elem_of_btree_values Heq%bool_decide_eq_true]. destruct Hin as [k Hk].
    pose proof (Hf _ _ Hk) as Hid. unfold rr_id in Hid. by rewrite Heq in Hid; subst k.
  - destruct (m !! as_str id) as [r|] eqn:Hm; [|done]. exfalso.
    assert (r ∈ btree_values m) as Hin by (apply elem_of_btree_values; eauto). apply list_elem_of_In in Hin.
    pose proof (List.find_none _ _ Hr r Hin) as Hne. cbn in Hne. apply bool_decide_eq_false in Hne.
    apply Hne. pose proof (Hf _ _ Hm) as Hid. unfold rr_id in Hid. destruct id, (resource_id (rr_resource r)). cbn in *. by subst.
Qed.

Lemma get_latest db scope m id : latest record_json codec db scope = Ok m → get record_json codec db scope id = Ok (m !! as_str id).
Proof.
  intros Hm. unfold get, list_resources. rewrite Hm. f_equal. apply find_filed. by eapply resources_filed.
Qed.

Lemma owners_spec m id : filed m → owners_of (btree_values m) !! id = (λ r, Egress.owner (rr_resource r)) <$> m !! id.
Proof.
  intros Hf. unfold owners_of.
  assert (∀ (l : list ResourceRecord) (m0 : gmap string AuthorityId),
            foldl (λ m r, <[rr_id r := Egress.owner (rr_resource r)]> m) m0 l
            = list_to_map (reverse ((λ r, (rr_id r, Egress.owner (rr_resource r))) <$> l)) ∪ m0) as Hfold.
  { intros l. induction l as [|r l IH]; intros m0; cbn [foldl fmap list_fmap]; [by rewrite reverse_nil, list_to_map_nil, (left_id_L ∅ (∪))|].
    rewrite IH, reverse_cons, list_to_map_app, <-(assoc_L (∪)). f_equal. rewrite list_to_map_cons, list_to_map_nil, insert_empty. apply insert_union_singleton_l. }
  rewrite Hfold, (right_id_L ∅ (∪)).
  assert ((λ r, (rr_id r, Egress.owner (rr_resource r))) <$> btree_values m
          = (λ x, (x.1, Egress.owner (rr_resource x.2))) <$> btree_iter m) as ->.
  { unfold btree_values. rewrite <-list_fmap_compose. apply list_fmap_ext. intros i [k r] Hx. cbn. f_equal.
    apply Hf. apply elem_of_btree_iter. by eapply list_elem_of_lookup_2. }
  assert (NoDup ((λ x : string * ResourceRecord, (x.1, Egress.owner (rr_resource x.2))) <$> btree_iter m).*1) as Hnd.
  { rewrite <-list_fmap_compose. change (NoDup (btree_iter m).*1). rewrite btree_iter_perm. apply NoDup_fst_map_to_list. }
  destruct (m !! id) as [r|] eqn:Hm; cbn [fmap option_fmap option_map].
  - apply elem_of_list_to_map_1.
    + by rewrite fmap_reverse, reverse_Permutation.
    + rewrite elem_of_reverse, list_elem_of_fmap. exists (id, r). split; [done|]. by apply elem_of_btree_iter.
  - apply not_elem_of_list_to_map_1. rewrite fmap_reverse, elem_of_reverse, <-list_fmap_compose, list_elem_of_fmap.
    intros ([k r] & -> & Hin%elem_of_btree_iter). cbn in *. congruence.
Qed.

Lemma engagement_reads_spec db e id : id ∈ engagement_items (engagement_reads codec db e) ↔ id ∈ records codec db e READ_KIND.
Proof.
  unfold engagement_reads, engagement_items, engagement_new. generalize (records codec db e READ_KIND) as l.
  assert (∀ l r, id ∈ Egress.reads (foldl engagement_read r l) ↔ id ∈ l ∨ id ∈ Egress.reads r) as H.
  { induction l as [|x l IH]; intros r; cbn [foldl]; [set_solver|]. rewrite IH, elem_of_cons. unfold engagement_read. cbn [Egress.reads]. set_solver. }
  intros l. rewrite H. cbn. set_solver.
Qed.
End views.

Inductive ResourceHost := H_Access | H_Erasure.
#[export] Instance ResourceHost_eq_dec : EqDecision ResourceHost.
Proof. solve_decision. Defined.

Section promises.
Context (record_json : Json ResourceRecord) (import_json : Json ContextImport).
Context (access_json : Json ResourceAccess.AccessEvent) (erasure_json : Json Erasure.ErasureEvent).
Context (codec : option ContentCodec) (anchor : string → string) (reducer_build : string).
Context `{!CodecLaws codec, !AnchorLaws anchor, !JsonLaws record_json, !JsonLaws import_json,
          !JsonLaws access_json, !JsonLaws erasure_json}.

#[local] Instance access_snapshots : SnapshotLaws ResourceAccess.access_lifecycle.
Proof. intros sc s p. discriminate. Qed.
#[local] Instance erasure_snapshots : SnapshotLaws Erasure.erasure_lifecycle.
Proof. intros sc s p. discriminate. Qed.

(** The lifecycles of a resource; the rows of others are rows of other kinds. *)
Definition resource_host (h : ResourceHost) : Hosted :=
  match h with
  | H_Access => mkHosted ResourceAccess.access_lifecycle access_json ResourceAccess.access_safe _ _
  | H_Erasure => mkHosted Erasure.erasure_lifecycle erasure_json Erasure.erasure_safe _ _
  end.

Lemma resource_kinds i j : KIND (lifecycle (resource_host i)) = KIND (lifecycle (resource_host j)) → i = j.
Proof. by destruct i, j. Qed.

Notation system_ok := (system_ok codec reducer_build resource_host).
Notation folds i db scope := (fold_i codec anchor reducer_build resource_host i db scope).
Notation records := (records codec).
Notation latest := (latest record_json codec).
Notation get := (get record_json codec).
Notation access_phase := (access_phase access_json codec anchor reducer_build).
Notation is_resolvable := (is_resolvable record_json access_json codec anchor reducer_build).

Notation appended := (appended codec anchor reducer_build resource_host).
Notation admitted_to := (admitted_to codec anchor reducer_build resource_host).

Lemma row_appended scope kind payload db db' :
  record_kind resource_host kind → system_ok db → append codec scope kind payload db = (db', Ok ()) → appended scope kind payload db db'.
Proof.
  intros Hk Hsys Hop. unfold append, bind in Hop. destruct (append_record codec db scope kind payload) as [db1 [p|]] eqn:Happ; [|done].
  injection Hop as <-. by eapply Frames.append_done.
Qed.

Lemma resource_admitted i scope command db db' s' :
  system_ok db → admit_i codec anchor reducer_build resource_host i db scope command = (db', Ok s') →
  admitted_to i scope db db' ∧ folds i db' scope = Ok s'
  ∧ ∃ s es, folds i db scope = Ok s ∧ apply (lifecycle (resource_host i)) s command = Applied es s'.
Proof. apply (Frames.admit_done codec anchor reducer_build resource_host resource_kinds). Qed.

Lemma other_kinds k : k ∈ [RESOURCE_KIND; CONTEXT_IMPORT_KIND; READ_KIND] → record_kind resource_host k.
Proof. intros Hk []; repeat (apply elem_of_cons in Hk as [->|Hk]; [discriminate|]); by apply elem_of_nil in Hk. Qed.

Lemma put_done scope r db db' :
  system_ok db → put record_json codec scope r db = (db', Ok ()) →
  ∃ payload, to_json record_json r = Some payload ∧ appended scope RESOURCE_KIND payload db db'.
Proof.
  intros Hsys Hop. unfold put, bind in Hop. destruct (serialized record_json r db) as [db0 [payload|]] eqn:Hs; [|done].
  apply serialized_ok in Hs as [-> Hp]. exists payload. split; [done|]. apply row_appended; [apply other_kinds; by left|done|done].
Qed.

(** A put record is the latest of its id. *)
Lemma put_latest_one scope r payload db db' m :
  to_json record_json r = Some payload → appended scope RESOURCE_KIND payload db db' → latest db scope = Ok m →
  latest db' scope = Ok (<[rr_id r := r]> m).
Proof.
  intros Hp Ha Hm. unfold ResourceStore.latest in *. rewrite (ap_records Ha), bool_decide_eq_true_2 by done.
  rewrite (fold_rows_snoc record_json _ _ _ payload r) by (by apply json_roundtrip). by rewrite Hm.
Qed.

Lemma begin_import_done e id db db' :
  system_ok db → begin_context_import import_json codec e id db = (db', Ok ()) →
  ∃ i payload, to_json import_json i = Some payload ∧ ci_resource_id i = id ∧ complete i = false ∧ files i = ∅
    ∧ appended e CONTEXT_IMPORT_KIND payload db db'.
Proof.
  intros Hsys Hop. unfold begin_context_import, bind, Records.reads in Hop.
  destruct (current_context_import import_json codec db e id) as [previous|]; [|done].
  set (i := mkContextImport _ _ _ _) in Hop. destruct (serialized import_json i db) as [db0 [payload|]] eqn:Hs; [|done].
  apply serialized_ok in Hs as [-> Hp]. exists i, payload. split_and!; try done. apply row_appended; [apply other_kinds; right; by left|done|done].
Qed.

(** After a mint's grant the access is granted if it was new or granted before. *)
Definition after_grant (s : ResourceAccess.AccessState) : bool :=
  bool_decide (ResourceAccess.phase s = ResourceAccess.P_Init ∨ ResourceAccess.phase s = ResourceAccess.P_Granted).

Lemma self_grant_done scope me db db' :
  system_ok db → self_grant access_json codec anchor reducer_build scope me db = (db', Ok ()) →
  admitted_to H_Access scope db db'
  ∧ ∃ s s', folds H_Access db scope = Ok s ∧ folds H_Access db' scope = Ok s'
      ∧ bool_decide (ResourceAccess.phase s' = ResourceAccess.P_Granted) = after_grant s.
Proof.
  intros Hsys Hop. unfold self_grant, bind, Records.reads in Hop.
  change (fold_access access_json codec anchor reducer_build db scope) with (folds H_Access db scope) in Hop.
  destruct (folds H_Access db scope) as [s|] eqn:Hs; [|done]. case_bool_decide as Hp.
  - unfold admit_access in Hop. destruct (store_admit _ _ _ _ _ db _ _) as [db1 [s1|]] eqn:H1; [|done].
    destruct (resource_admitted H_Access _ _ _ _ _ Hsys H1) as (Ha1 & Hf1 & s0 & es & Hs0 & Happ). assert (s0 = s) as -> by (cbn in *; congruence).
    destruct (store_admit _ _ _ _ _ db1 _ _) as [db2 [s2|]] eqn:H2; [|done]. injection Hop as <-.
    destruct (resource_admitted H_Access _ _ _ _ _ (at_ok Ha1) H2) as (Ha2 & Hf2 & s1' & es2 & Hs1 & Happ2).
    assert (s1' = s1) as -> by (cbn in *; congruence). split; [by eapply admitted_to_trans|]. exists s, s2. split_and!; [done|done|].
    apply apply_admitted in Happ as [Hd He]. cbn [resource_host lifecycle ResourceAccess.access_lifecycle lc_decide] in Hd.
    cbn in Hd. rewrite Hp in Hd. injection Hd as <-. cbn in He. injection He as <-.
    apply apply_admitted in Happ2 as [Hd He]. cbn in Hd.
    rewrite !bool_decide_eq_true_2, bool_decide_eq_false_2 in Hd by set_solver. cbn in Hd.
    rewrite bool_decide_eq_true_2 in Hd by set_solver. injection Hd as <-. cbn in He. injection He as <-. cbn.
    unfold after_grant. by rewrite !bool_decide_eq_true_2 by auto.
  - injection Hop as <-. split; [by apply admitted_to_refl|]. exists s, s. split_and!; [done|done|].
    unfold after_grant. apply bool_decide_ext. tauto.
Qed.

Lemma access_scope_inj e id id' : access_scope e id = access_scope e id' → id = id'.
Proof.
  unfold access_scope. intros Heq. apply (inj (String.append _)), (inj (String.append _)) in Heq. destruct id, id'. cbn in *. by subst.
Qed.

Lemma resolvable_from db e id m :
  latest db e = Ok m →
  is_resolvable db e id = match m !! as_str id with
                          | Some r => if rr_tombstoned r then Ok false
                                      else let? p := access_phase db e id in Ok (bool_decide (p = ResourceAccess.P_Granted))
                          | None => Ok false
                          end.
Proof. intros Hm. unfold ResourceStore.is_resolvable. rewrite (get_latest record_json codec db e m id Hm). by destruct (m !! as_str id). Qed.

(** Opening a folder grants it to its owner, and revives no older claim. After a mint the
    folder's record is the current one, the binding of its files starts over, empty, and the
    resource can be resolved exactly when its access was new or granted: a revoked, denied
    or pending access stays so. Every other resource of the engagement is as it was. *)
Theorem context_minted db e me path commit attributes db' rec m :
  system_ok db → latest db e = Ok m →
  mint_context_with record_json import_json access_json codec anchor reducer_build e me path commit attributes db = (db', Ok rec) →
  let id := context_id path in
  rec = new_context_record me path commit attributes ∧ latest db' e = Ok (<[as_str id := rec]> m)
  ∧ (∀ imports, context_imports import_json codec db' e = Ok imports →
       ∃ i, imports !! as_str id = Some i ∧ complete i = false ∧ files i = ∅)
  ∧ (∃ s, folds H_Access db (access_scope e id) = Ok s ∧ is_resolvable db' e id = Ok (after_grant s))
  ∧ ∀ id', id' ≠ id → get db' e id' = get db e id' ∧ access_phase db' e id' = access_phase db e id'.
Proof.
  intros Hsys Hm Hop id. unfold mint_context_with, bind in Hop. set (r := new_context_record me path commit attributes) in *.
  change (resource_id (rr_resource r)) with id in Hop.
  destruct (begin_context_import _ _ _ _ db) as [db1 [[]|]] eqn:H1; [|done].
  destruct (begin_import_done _ _ _ _ Hsys H1) as (i & pi & Hpi & Hid & Hc & Hfiles & Ha1).
  destruct (put _ _ _ _ db1) as [db2 [[]|]] eqn:H2; [|done].
  destruct (put_done _ _ _ _ (ap_ok Ha1) H2) as (pr & Hpr & Ha2).
  destruct (self_grant _ _ _ _ _ _ db2) as [db3 [[]|]] eqn:H3; [|done]. injection Hop as <- <-.
  destruct (self_grant_done _ _ _ _ (ap_ok Ha2) H3) as (Ha3 & s & s' & Hs & Hs' & Hg).
  assert (∀ k, k ∈ [RESOURCE_KIND; CONTEXT_IMPORT_KIND; READ_KIND] → ∀ sc, records db3 sc k = records db2 sc k) as Hrec3.
  { intros k Hk sc. apply (at_records Ha3). intros ->. by apply (other_kinds _ Hk H_Access). }
  assert (latest db1 e = Ok m) as Hm1.
  { unfold ResourceStore.latest in *. rewrite (ap_records Ha1), bool_decide_eq_false_2 by (by intros [_ ?]). by rewrite app_nil_r. }
  assert (latest db3 e = Ok (<[as_str id := r]> m)) as Hm3.
  { unfold ResourceStore.latest at 1. rewrite Hrec3 by (by left). exact (put_latest_one _ _ _ _ _ _ Hpr Ha2 Hm1). }
  split_and!; [done|done| | |].
  - intros imports Hi. unfold context_imports in Hi. rewrite Hrec3 in Hi by (right; by left).
    rewrite (ap_records Ha2), bool_decide_eq_false_2, app_nil_r in Hi by (by intros [_ ?]).
    rewrite (ap_records Ha1), bool_decide_eq_true_2 in Hi by done.
    rewrite (fold_rows_snoc import_json _ _ _ pi i) in Hi by (by apply json_roundtrip).
    destruct (fold_rows _ _ _ _) as [m0|]; [|done]. injection Hi as <-. exists i. rewrite Hid, lookup_insert_eq. done.
  - exists s. assert (folds H_Access db (access_scope e id) = Ok s) as Hs0 by (by rewrite <-(ap_folds Ha1), <-(ap_folds Ha2)).
    split; [done|]. rewrite (resolvable_from db3 e id _ Hm3), lookup_insert_eq. change (rr_tombstoned r) with false. cbn iota.
    unfold ResourceStore.access_phase. change (fold_access access_json codec anchor reducer_build db3 (access_scope e id)) with (folds H_Access db3 (access_scope e id)).
    rewrite Hs'. by rewrite <-Hg.
  - intros id' Hne. rewrite (get_latest _ _ _ _ _ id' Hm3), (get_latest _ _ _ _ _ id' Hm). split.
    + rewrite lookup_insert_ne; [done|]. intros Heq. apply Hne. destruct id', id. cbn in *. by subst.
    + unfold ResourceStore.access_phase, fold_access. change (fold _ _ _ _ _ db3 (access_scope e id')) with (folds H_Access db3 (access_scope e id')).
      change (fold _ _ _ _ _ db (access_scope e id')) with (folds H_Access db (access_scope e id')).
      rewrite (at_folds Ha3), (ap_folds Ha2), (ap_folds Ha1); [done|].
      intros [= Heq]. apply Hne. symmetry. by apply (access_scope_inj e).
Qed.

(** *** Stakes *)

Notation external := (external_read_stakeholders record_json codec).

(** Whose stake a read carries, by the current records. *)
Definition stake (m : gmap string ResourceRecord) (id : string) : string :=
  match m !! id with Some r => as_str (Egress.owner (rr_resource r)) | None => "<unresolved>" end.

Lemma external_spec db e me m :
  latest db e = Ok m →
  ∃ l, external db e me = Ok l ∧ ∀ a, a ∈ l ↔ a ≠ me ∧ ∃ id, id ∈ records db e READ_KIND ∧ a = stake m id.
Proof.
  intros Hm. unfold external_read_stakeholders, list_resources. rewrite Hm. eexists. split; [done|]. intros a.
  rewrite list_elem_of_In, filter_In, <-list_elem_of_In, elem_of_btree_set_iter, negb_true_iff, String.eqb_neq.
  unfold engagement_taint. rewrite elem_of_list_to_set, list_elem_of_fmap. split.
  - intros [(id & Ha & Hid) Hne]. split; [done|]. exists id. rewrite elem_of_elements in Hid. split; [by apply engagement_reads_spec|].
    rewrite Ha, owners_spec by (by eapply resources_filed). unfold stake. by destruct (m !! id).
  - intros [Hne (id & Hid & Ha)]. split; [|done]. exists id. rewrite elem_of_elements. split; [|by apply engagement_reads_spec].
    rewrite Ha, owners_spec by (by eapply resources_filed). unfold stake. by destruct (m !! id).
Qed.

(** What later records leave of a read: the read itself. *)
Lemma record_reads_done e ids : ∀ db db',
  system_ok db → record_reads codec e ids db = (db', Ok ()) →
  system_ok db' ∧ (∀ i sc, folds i db' sc = folds i db sc) ∧ records db' e READ_KIND = records db e READ_KIND ++ (as_str <$> ids)
  ∧ ∀ sc k, (sc, k) ≠ (e, READ_KIND) → records db' sc k = records db sc k.
Proof.
  induction ids as [|id ids IH]; intros db db' Hsys; cbn [record_reads].
  - intros [= <-]. split_and!; [done|done|by rewrite app_nil_r|done].
  - unfold bind at 1. destruct (append codec e READ_KIND (as_str id) db) as [db1 [[]|]] eqn:H1; [|done].
    apply row_appended in H1 as [Hok Hf Hr]; [|by apply other_kinds; do 2 right; left|done]. intros Hop.
    destruct (IH db1 db' Hok Hop) as (Hok' & Hf' & Hr' & Ho'). split_and!; [done|by intros; rewrite Hf', Hf| |].
    + by rewrite Hr', Hr, bool_decide_eq_true_2, <-app_assoc.
    + intros sc k Hne. rewrite Ho', Hr by done. rewrite bool_decide_eq_false_2; [by rewrite app_nil_r|]. by intros [<- <-].
Qed.

(** C34: Taint is never laundered. The external stakeholders of an engagement are exactly the
    current owners, other than its own, of everything its turns have ever read, with a mark
    for what has no record; so there are none exactly when every read resource is known to
    be its own. A read stays: once recorded it counts in every later database, whatever was
    revoked or tombstoned since. A tombstoned record keeps its owner, so the mark is not
    put on it, though the doc of [external_read_stakeholders] lists tombstoned records
    with the unknown ones (see [ResourceSample.tombstoned_read_keeps_owner]). *)
Theorem stakes_of_reads db e me m :
  latest db e = Ok m →
  ∃ l, external db e me = Ok l
  ∧ (∀ a, a ∈ l ↔ a ≠ me ∧ ∃ id, id ∈ records db e READ_KIND ∧ a = stake m id)
  ∧ (l = [] ↔ ∀ id, id ∈ records db e READ_KIND → stake m id = me)
  ∧ ∀ ids db' db2 m2 more, system_ok db → record_reads codec e ids db = (db', Ok ()) →
      records db2 e READ_KIND = records db' e READ_KIND ++ more → latest db2 e = Ok m2 →
      ∃ l2, external db2 e me = Ok l2 ∧ ∀ id, id ∈ ids → stake m2 (as_str id) ≠ me → stake m2 (as_str id) ∈ l2.
Proof.
  intros Hm. destruct (external_spec db e me m Hm) as (l & Hl & Hspec). exists l. split_and!; [done|done| |].
  - split.
    + intros -> id Hid. destruct (String.eq_dec (stake m id) me) as [|Hne]; [done|]. exfalso.
      assert (stake m id ∈ ([] : list string)) as Hin; [|by apply elem_of_nil in Hin]. apply Hspec. split; [done|by exists id].
    + intros Hall. destruct l as [|a l]; [done|]. destruct (proj1 (Hspec a) (list_elem_of_here _ _)) as (Hne & id & Hid & ->).
      by destruct Hne; apply Hall.
  - intros ids db' db2 m2 more Hsys Hop Hmore Hm2. destruct (record_reads_done e ids db db' Hsys Hop) as (_ & _ & Hr & _).
    destruct (external_spec db2 e me m2 Hm2) as (l2 & Hl2 & Hspec2). exists l2. split; [done|]. intros id Hid Hne.
    apply Hspec2. split; [done|]. exists (as_str id). split; [|done]. rewrite Hmore, Hr. apply elem_of_app. left. apply elem_of_app. right.
    by apply list_elem_of_fmap_2.
Qed.

(** *** Certified reads *)

Lemma granted_of_spec db e l out :
  granted_of access_json codec anchor reducer_build db e l = Ok out →
  ∀ id, id ∈ out ↔ ∃ r, r ∈ l ∧ resource_id (rr_resource r) = id ∧ kind_name (resource_kind (rr_resource r)) = "context"
                    ∧ rr_tombstoned r = false ∧ access_phase db e id = Ok ResourceAccess.P_Granted.
Proof.
  revert out. induction l as [|r l IH]; intros out; cbn [granted_of].
  - intros [= <-] id. rewrite elem_of_nil. split; [done|]. by intros (? & ?%elem_of_nil & _).
  - destruct (if _ && _ then _ else Ok false) as [granted|] eqn:Hg; [|done].
    destruct (granted_of _ _ _ _ db e l) as [rest|]; [|done]. intros [= <-] id. specialize (IH rest eq_refl id).
    assert (granted = true ↔ kind_name (resource_kind (rr_resource r)) = "context" ∧ rr_tombstoned r = false
              ∧ access_phase db e (resource_id (rr_resource r)) = Ok ResourceAccess.P_Granted) as Hgr.
    { destruct (_ && _) eqn:Hc in Hg.
      - apply andb_true_iff in Hc as [Hk%bool_decide_eq_true Ht%negb_true_iff].
        destruct (access_phase db e (resource_id (rr_resource r))) as [p|]; [|done]. injection Hg as <-. rewrite bool_decide_eq_true. split; [by intros ->|by intros (_ & _ & [= ->])].
      - injection Hg as <-. split; [done|]. intros (Hk & Ht & _). apply andb_false_iff in Hc as [Hc%bool_decide_eq_false|Hc%negb_false_iff]; [done|congruence]. }
    assert (id ∈ (if granted then resource_id (rr_resource r) :: rest else rest) ↔ (granted = true ∧ id = resource_id (rr_resource r)) ∨ id ∈ rest) as ->.
    { destruct granted; [rewrite elem_of_cons; naive_solver|naive_solver]. }
    rewrite IH, Hgr. split.
    + intros [[(Hk & Ht & Hp) ->]|(r' & Hin & Hrest)]; [exists r; split_and!; [by left|done..]|exists r'; split; [by right|done]].
    + intros (r' & [->|Hin]%elem_of_cons & Hid & Hk & Ht & Hp); [left; subst id; done|right; by exists r'].
Qed.

(** What a turn may read now. *)
Definition readable (db : Db) (e : string) (m : gmap string ResourceRecord) (id : ResourceId) : Prop :=
  ∃ r, m !! as_str id = Some r ∧ kind_name (resource_kind (rr_resource r)) = "context" ∧ rr_tombstoned r = false
    ∧ access_phase db e id = Ok ResourceAccess.P_Granted.

Lemma granted_context_spec db e m out :
  latest db e = Ok m → granted_context record_json access_json codec anchor reducer_build db e = Ok out →
  ∀ id, id ∈ out ↔ readable db e m id.
Proof.
  intros Hm Hop id. unfold granted_context, list_resources in Hop. rewrite Hm in Hop.
  rewrite (granted_of_spec _ _ _ _ Hop). unfold readable. pose proof (resources_filed _ _ _ _ _ Hm) as Hf. split.
  - intros (r & (k & Hk)%elem_of_btree_values & <- & Hrest). exists r. split; [|done]. by rewrite <-(Hf _ _ Hk) in Hk.
  - intros (r & Hr & Hrest). exists r. split_and!; [apply elem_of_btree_values; by eexists| |apply Hrest..].
    pose proof (Hf _ _ Hr) as Hid. unfold rr_id in Hid. destruct id, (resource_id (rr_resource r)). cbn in *. by subst.
Qed.

(** A handle that stands for everything readable, and one that stands for one resource. *)
Definition runtime_input (handle : string) : Prop := handle ∈ ["command"; "human"; "turn_images"].
Definition covers_all (handle : string) : Prop :=
  ¬ runtime_input handle ∧ (handle = "project" ∨ has_prefix "resource:" handle = false).
Definition names_resource (handle id : string) : Prop :=
  has_prefix "resource:" handle = true ∧ trim_start_matches "resource:" handle = id.

Lemma handle_reads_spec granted handle id :
  id ∈ handle_reads granted handle ↔ mkId id ∈ granted ∧ (covers_all handle ∨ names_resource handle id).
Proof.
  assert (id ∈ (list_to_set (as_str <$> granted) : gset string) ↔ mkId id ∈ granted) as Hall.
  { rewrite elem_of_list_to_set, list_elem_of_fmap. split; [intros ([x] & -> & Hin); done|intros Hin; by exists (mkId id)]. }
  unfold handle_reads, covers_all, names_resource, runtime_input. destruct (String.eqb_spec handle "project") as [->|Hp].
  { rewrite Hall. split; [intros ?; split; [done|]; left; split; [|by left]|by intros [? _]].
    intros Hin. repeat (apply elem_of_cons in Hin as [Hin|Hin]; [discriminate|]). by apply elem_of_nil in Hin. }
  destruct (String.eqb handle "command" || String.eqb handle "human" || String.eqb handle "turn_images") eqn:Hr.
  { assert (handle ∈ ["command"; "human"; "turn_images"]) as Hin.
    { apply orb_true_iff in Hr as [[Hr|Hr]%orb_true_iff|Hr]; apply String.eqb_eq in Hr as ->; set_solver. }
    rewrite elem_of_empty. split; [done|]. intros [_ [[Hn _]|[Hpre _]]]; [done|].
    repeat (apply elem_of_cons in Hin as [->|Hin]; [discriminate Hpre|]). by apply elem_of_nil in Hin. }
  assert (handle ∉ ["command"; "human"; "turn_images"]) as Hn.
  { apply orb_false_iff in Hr as [[H1%String.eqb_neq H2%String.eqb_neq]%orb_false_iff H3%String.eqb_neq]. set_solver. }
  destruct (has_prefix "resource:" handle) eqn:Hpre.
  - set (x := trim_start_matches _ _). case_bool_decide as Hin.
    + rewrite elem_of_singleton. split; [intros ->; split; [done|]; right; by split|].
      intros [_ [[_ [?|?]]|[_ <-]]]; [congruence|done|done].
    + rewrite elem_of_empty. split; [done|]. intros [Hi [[_ [?|?]]|[_ <-]]]; [congruence|done|done].
  - rewrite Hall. split; [intros ?; split; [done|]; left; split; [done|by right]|by intros [? _]].
Qed.

(** A runtime's certificate cannot under-report. The reads taken from a certified output
    are, each once, exactly the resources that are readable now (context, granted, not
    tombstoned) and that a handle of the certificate names, or all of them when a handle
    stands for the project or is of a kind not known here. *)
Theorem certified_reads_exact db e signature m out :
  latest db e = Ok m →
  certified_output_reads record_json access_json codec anchor reducer_build db e signature = Ok out →
  NoDup out ∧ ∀ id, id ∈ out ↔
    readable db e m id ∧ ∃ handle, handle ∈ signature ≫= read_handles ∧ (covers_all handle ∨ names_resource handle (as_str id)).
Proof.
  intros Hm. unfold certified_output_reads. destruct (granted_context _ _ _ _ _ db e) as [granted|] eqn:Hg; [|done].
  intros [= <-]. split; [apply NoDup_fmap; [by intros ?? [=]|apply NoDup_btree_set_iter]|]. intros id.
  rewrite <-(granted_context_spec db e m granted Hm Hg).
  assert (∀ handles X x, x ∈ foldl (λ reads handle, reads ∪ handle_reads granted handle) X handles
            ↔ x ∈ X ∨ ∃ handle, handle ∈ handles ∧ x ∈ handle_reads granted handle) as Hfold.
  { induction handles as [|h handles IH]; intros X x; cbn [foldl]; [set_solver|]. rewrite IH, elem_of_union. set_solver. }
  rewrite list_elem_of_fmap. split.
  - intros (x & -> & Hx%elem_of_btree_set_iter). apply Hfold in Hx as [?|(h & Hh & Hx)]; [set_solver|].
    apply handle_reads_spec in Hx as [Hx Hc]. split; [done|by exists h].
  - intros [Hin (h & Hh & Hc)]. exists (as_str id). split; [by destruct id|]. apply elem_of_btree_set_iter, Hfold. right. exists h.
    split; [done|]. apply handle_reads_spec. by destruct id.
Qed.

(** *** Tombstones *)

Lemma external_ext db db' e me m m' :
  latest db e = Ok m → latest db' e = Ok m' → records db' e READ_KIND = records db e READ_KIND →
  (∀ id, stake m' id = stake m id) → external db' e me = external db e me.
Proof.
  intros Hm Hm' Hr Hst. unfold external_read_stakeholders, list_resources. rewrite Hm, Hm'. unfold engagement_reads. rewrite Hr.
  do 3 f_equal. unfold engagement_taint. f_equal. apply list_fmap_ext. intros i id _.
  rewrite !owners_spec by (by eapply resources_filed). specialize (Hst id). unfold stake in Hst. by destruct (m !! id), (m' !! id).
Qed.

(** The erasure that [tombstone] drives, from the start or already at its end. *)
Lemma erasure_driven scope s db db' :
  system_ok db → folds H_Erasure db scope = Ok s →
  (if bool_decide (Erasure.phase s ≠ Erasure.P_Tombstoned) then
     do _ <- admit_erasure erasure_json codec anchor reducer_build scope Erasure.C_RequestErasure;
     do _ <- admit_erasure erasure_json codec anchor reducer_build scope (Erasure.C_Approve Erasure.OWNER);
     do _ <- admit_erasure erasure_json codec anchor reducer_build scope Erasure.C_Tombstone;
     ret ()
   else ret ()) db = (db', Ok ()) →
  admitted_to H_Erasure scope db db' ∧ ∃ s', folds H_Erasure db' scope = Ok s' ∧ Erasure.phase s' = Erasure.P_Tombstoned.
Proof.
  intros Hsys Hs. case_bool_decide as Hp.
  2: { intros [= <-]. split; [by apply admitted_to_refl|]. exists s. split; [done|].
       destruct (base.decide (Erasure.phase s = Erasure.P_Tombstoned)); [done|]. by destruct Hp. }
  unfold bind, admit_erasure. destruct (store_admit _ _ _ _ _ db _ _) as [db1 [s1|]] eqn:H1; [|done].
  destruct (resource_admitted H_Erasure _ _ _ _ _ Hsys H1) as (Ha1 & Hf1 & _).
  destruct (store_admit _ _ _ _ _ db1 _ _) as [db2 [s2|]] eqn:H2; [|done].
  destruct (resource_admitted H_Erasure _ _ _ _ _ (at_ok Ha1) H2) as (Ha2 & Hf2 & _).
  destruct (store_admit _ _ _ _ _ db2 _ _) as [db3 [s3|]] eqn:H3; [|done]. intros [= <-].
  destruct (resource_admitted H_Erasure _ _ _ _ _ (at_ok Ha2) H3) as (Ha3 & Hf3 & s0 & es & _ & Happ).
  split; [eapply admitted_to_trans; [exact Ha1|by eapply admitted_to_trans]|]. exists s3. split; [done|].
  apply apply_admitted in Happ as [Hd He]. cbn in Hd. destruct (Erasure.approved s0); [|done]. injection Hd as <-. by injection He as <-.
Qed.

(** C31: A tombstone withholds the payload and nothing else. Tombstoning a resource that
    exists drives its erasure to the end and marks its current record, which from then on
    cannot be resolved; every other resource, every access and the taint of every read stay
    as they were. Without a record nothing happens. That the taint stays means that a read
    of the tombstoned resource goes on naming its owner: it does not become unresolved, as
    the doc of [external_read_stakeholders] has it. *)
Theorem tombstone_withholds db e id db' b m :
  system_ok db → latest db e = Ok m →
  tombstone record_json erasure_json codec anchor reducer_build e id db = (db', Ok b) →
  match m !! as_str id with
  | None => b = false ∧ db' = db
  | Some r =>
      b = true ∧ latest db' e = Ok (<[as_str id := r <| rr_tombstoned := true |>]> m) ∧ is_resolvable db' e id = Ok false
      ∧ (∃ s, folds H_Erasure db' (erasure_scope e id) = Ok s ∧ Erasure.phase s = Erasure.P_Tombstoned)
      ∧ (∀ me, external db' e me = external db e me)
      ∧ (∀ sc, folds H_Access db' sc = folds H_Access db sc) ∧ ∀ id', id' ≠ id → get db' e id' = get db e id'
  end.
Proof.
  intros Hsys Hm Hop. unfold tombstone, bind, Records.reads in Hop. rewrite (get_latest _ _ _ _ _ id Hm) in Hop.
  destruct (m !! as_str id) as [r|] eqn:Hr; [|by injection Hop as <- <-].
  change (fold_erasure erasure_json codec anchor reducer_build db (erasure_scope e id)) with (folds H_Erasure db (erasure_scope e id)) in Hop.
  destruct (folds H_Erasure db (erasure_scope e id)) as [s|] eqn:Hs; [|done].
  match type of Hop with (match ?p db with _ => _ end) = _ => destruct (p db) as [db1 [[]|]] eqn:H1; [|done] end.
  destruct (erasure_driven _ s db db1 Hsys Hs H1) as (Ha1 & s' & Hs' & Hp').
  destruct (put _ _ _ _ db1) as [db2 [[]|]] eqn:H2; [|done]. injection Hop as <- <-.
  destruct (put_done _ _ _ _ (at_ok Ha1) H2) as (payload & Hpay & Ha2). set (r' := r <| rr_tombstoned := true |>) in *.
  assert (∀ k, k ∈ [RESOURCE_KIND; CONTEXT_IMPORT_KIND; READ_KIND] → ∀ sc, records db1 sc k = records db sc k) as Hrec.
  { intros k Hk sc. apply (at_records Ha1). intros ->. by apply (other_kinds _ Hk H_Erasure). }
  assert (latest db1 e = Ok m) as Hm1 by (unfold ResourceStore.latest; rewrite Hrec by (by left); done).
  pose proof (put_latest_one _ _ _ _ _ _ Hpay Ha2 Hm1) as Hm2.
  assert (rr_id r' = as_str id) as Hid by (exact (resources_filed _ _ _ _ _ Hm _ _ Hr)). rewrite Hid in Hm2.
  split_and!; [done|done| | | | |].
  - rewrite (resolvable_from db2 e id _ Hm2), lookup_insert_eq. done.
  - exists s'. by rewrite (ap_folds Ha2).
  - intros me. apply (external_ext db db2 e me m _ Hm Hm2).
    + rewrite (ap_records Ha2), bool_decide_eq_false_2, app_nil_r by (by intros [_ ?]). apply Hrec. do 2 right. by left.
    + intros id'. unfold stake. destruct (base.decide (id' = as_str id)) as [->|]; [by rewrite lookup_insert_eq, Hr|by rewrite lookup_insert_ne].
  - intros sc. by rewrite (ap_folds Ha2), (at_folds Ha1).
  - intros id' Hne. rewrite (get_latest _ _ _ _ _ id' Hm2), (get_latest _ _ _ _ _ id' Hm), lookup_insert_ne; [done|].
    intros Heq. apply Hne. destruct id', id. cbn in *. by subst.
Qed.

(** An erasure that was only requested, was approved and not carried out, or was denied is
    never completed by [tombstone]: its first command is refused. *)
Lemma interrupted_tombstone db e id m r s :
  system_ok db → latest db e = Ok m → m !! as_str id = Some r → folds H_Erasure db (erasure_scope e id) = Ok s →
  Erasure.phase s ∉ [Erasure.P_Init; Erasure.P_Tombstoned] →
  tombstone record_json erasure_json codec anchor reducer_build e id db
  = (db, Err (Failed (AE_Rejected (mkRejection "requestErasure: not in init")))).
Proof.
  intros [Hok Hall] Hm Hr Hs Hp. unfold tombstone, bind, Records.reads. rewrite (get_latest _ _ _ _ _ id Hm), Hr.
  change (fold_erasure erasure_json codec anchor reducer_build db (erasure_scope e id)) with (folds H_Erasure db (erasure_scope e id)).
  rewrite Hs, bool_decide_eq_true_2 by set_solver. unfold admit_erasure.
  destruct (Hall H_Erasure (erasure_scope e id)) as (log & t & Ht & Hh).
  assert (t = s) as -> by (pose proof (holds_fold codec anchor reducer_build resource_host _ _ _ _ _ Hok Hh Ht); cbn in *; congruence).
  pose proof (admit_spec codec anchor reducer_build (lifecycle (resource_host H_Erasure)) (h_json (resource_host H_Erasure)) db (erasure_scope e id) log s Erasure.C_RequestErasure Hok Hh Ht) as Hspec.
  unfold admits, apply in Hspec. cbn [resource_host lifecycle h_json lc_decide Erasure.erasure_lifecycle Erasure.decide] in Hspec.
  destruct (Erasure.phase s) eqn:Hph; try (by rewrite Hspec); exfalso; apply Hp; set_solver.
Qed.
End promises.

(** ** The properties at concrete inputs *)

Module ResourceSample.
#[local] Instance kind_eq_dec : EqDecision ResourceKind.
Proof. solve_decision. Defined.
#[local] Instance resource_eq_dec : EqDecision Resource.
Proof. solve_decision. Defined.
#[local] Instance locator_eq_dec : EqDecision ContentLocator.
Proof. solve_decision. Defined.
#[local] Instance attributes_eq_dec : EqDecision ResourceAttributes.
Proof. solve_decision. Defined.
#[local] Instance record_eq_dec : EqDecision ResourceRecord.
Proof. solve_decision. Defined.
#[local] Instance import_eq_dec : EqDecision ContextImport.
Proof. solve_decision. Defined.
#[local] Instance access_event_eq_dec : EqDecision ResourceAccess.AccessEvent.
Proof. solve_decision. Defined.

Definition rec : ResourceRecord := new_context_record "me" "docs" "c1" attributes_default.
Definition id : ResourceId := context_id "docs".
Definition gone : ResourceRecord := rec <| rr_tombstoned := true |>.

Definition record_json : Json ResourceRecord := table_json [("rec", rec); ("gone", gone)].
Definition import_json : Json ContextImport := table_json [("import", mkContextImport "ctx-docs" 1 false ∅)].
Definition access_json : Json ResourceAccess.AccessEvent := table_json
  [("requested", ResourceAccess.E_AccessRequested {[mkId "me"]}); ("approved", ResourceAccess.E_Approved (mkId "me"));
   ("granted", ResourceAccess.E_Granted)].
Definition erasure_json : Json Erasure.ErasureEvent := table_json
  [("requested", Erasure.E_ErasureRequested); ("approved", Erasure.E_Approved Erasure.OWNER); ("tombstoned", Erasure.E_Tombstoned)].
#[export] Instance record_laws : JsonLaws record_json.
Proof. apply table_json_laws. vm_compute. repeat constructor; set_solver. Defined.
#[export] Instance import_laws : JsonLaws import_json.
Proof. apply table_json_laws. vm_compute. repeat constructor; set_solver. Defined.
#[export] Instance access_laws : JsonLaws access_json.
Proof. apply table_json_laws. vm_compute. repeat constructor; set_solver. Defined.
#[export] Instance erasure_laws : JsonLaws erasure_json.
Proof. apply table_json_laws. vm_compute. repeat constructor; set_solver. Defined.
Definition anchor (raw : string) : string := StoreSystem.Sample.anchor raw.
#[export] Instance anchor_laws : AnchorLaws anchor.
Proof. intros raw. reflexivity. Qed.
#[export] Instance plain_laws : CodecLaws None.
Proof. intros c scope kind plain stored. discriminate. Qed.

Notation mint := (mint_context record_json import_json access_json None anchor "build" "chat" "me" "docs" "c1").
Notation erase db := (tombstone record_json erasure_json None anchor "build" "chat" id db).

Lemma no_rows_ok : StoreSystem.system_ok None "build" (resource_host access_json erasure_json) empty_db.
Proof. apply (empty_system_ok None "build" (resource_host access_json erasure_json)). Qed.

Lemma context_minted_witness :
  ∃ db, mint empty_db = (db, Ok rec)
    ∧ is_resolvable record_json access_json None anchor "build" db "chat" id = Ok true.
Proof.
  destruct (mint empty_db) as [db r] eqn:Hop. assert (r = Ok rec) as Hr.
  { assert ((mint empty_db).2 = Ok rec) as H by (vm_compute; reflexivity). rewrite Hop in H. exact H. }
  subst r. exists db. split; [reflexivity|].
  destruct (context_minted record_json import_json access_json erasure_json None anchor "build" empty_db "chat" "me" "docs" "c1"
    attributes_default db rec ∅ no_rows_ok eq_refl Hop) as (_ & _ & _ & (s & Hs & Hres) & _).
  etransitivity; [exact Hres|]. f_equal.
  assert (fold_i None anchor "build" (resource_host access_json erasure_json) H_Access empty_db (access_scope "chat" (context_id "docs")) = Ok ResourceAccess.access_default)
    as Hd by (vm_compute; reflexivity).
  rewrite Hd in Hs. injection Hs as <-. vm_compute. reflexivity.
Defined.

Definition minted : Db := (mint empty_db).1.
Definition flow : list OutputFieldFlow := [mkFlow "answer" ["command"; "resource:ctx-docs"]].

Lemma certified_reads_exact_witness :
  certified_output_reads record_json access_json None anchor "build" minted "chat" flow = Ok [id]
  ∧ readable access_json None anchor "build" minted "chat" {["ctx-docs" := rec]} id.
Proof.
  assert (certified_output_reads record_json access_json None anchor "build" minted "chat" flow = Ok [id]) as H by (vm_compute; reflexivity).
  split; [exact H|].
  assert (ResourceStore.latest record_json None minted "chat" = Ok {["ctx-docs" := rec]}) as Hm by (vm_compute; reflexivity).
  apply (proj2 (certified_reads_exact record_json import_json access_json erasure_json None anchor "build" minted "chat" flow _ _ Hm H) id). left.
Defined.

Definition opened : Db := (record_reads None "chat" [mkId "other"] empty_db).1.

Lemma stakes_of_reads_witness :
  ∃ l, external_read_stakeholders record_json None opened "chat" "me" = Ok l ∧ "<unresolved>" ∈ l.
Proof.
  destruct (stakes_of_reads record_json access_json erasure_json None anchor "build" empty_db "chat" "me" ∅ eq_refl) as (l & _ & _ & _ & Hlater).
  assert (record_reads None "chat" [mkId "other"] empty_db = (opened, Ok ())) as H by (vm_compute; reflexivity).
  destruct (Hlater [mkId "other"] opened opened ∅ [] no_rows_ok H) as (l2 & Hl2 & Hin);
    [symmetry; apply app_nil_r|vm_compute; reflexivity|].
  exists l2. split; [exact Hl2|]. apply (Hin (mkId "other")); [left|vm_compute; discriminate].
Defined.

Definition stored : Db := (put record_json None "chat" rec empty_db).1.

Lemma tombstone_withholds_witness :
  ∃ db, erase stored = (db, Ok true) ∧ is_resolvable record_json access_json None anchor "build" db "chat" id = Ok false.
Proof.
  assert (StoreSystem.system_ok None "build" (resource_host access_json erasure_json) stored) as Hok.
  { destruct (put record_json None "chat" rec empty_db) as [db r] eqn:Hop.
    assert (r = Ok ()) as -> by (assert ((put record_json None "chat" rec empty_db).2 = Ok ()) as H by (vm_compute; reflexivity); rewrite Hop in H; exact H).
    destruct (put_done record_json access_json erasure_json None anchor "build" _ _ _ _ no_rows_ok Hop) as (p & _ & Ha).
    unfold stored. rewrite Hop. exact (ap_ok Ha). }
  destruct (erase stored) as [db r] eqn:Hop. assert (r = Ok true) as Hr.
  { assert ((erase stored).2 = Ok true) as H by (vm_compute; reflexivity). rewrite Hop in H. exact H. }
  subst r. exists db. split; [reflexivity|].
  assert (ResourceStore.latest record_json None stored "chat" = Ok {["ctx-docs" := rec]}) as Hm by (vm_compute; reflexivity).
  pose proof (tombstone_withholds record_json access_json erasure_json None anchor "build" stored "chat" id db true _ Hok Hm Hop) as H.
  assert (({["ctx-docs" := rec]} : gmap string ResourceRecord) !! as_str id = Some rec) as Hl by (vm_compute; reflexivity).
  rewrite Hl in H. exact (proj1 (proj2 (proj2 H))).
Defined.

(** A resource that was read, to an engagement of another owner, before and after its tombstone. *)
Definition read_of_rec : Db := (record_reads None "chat" [id] stored).1.

Example tombstoned_read_keeps_owner :
  (erase read_of_rec).2 = Ok true
  ∧ external_read_stakeholders record_json None read_of_rec "chat" "you" = Ok ["me"]
  ∧ external_read_stakeholders record_json None (erase read_of_rec).1 "chat" "you" = Ok ["me"].
Proof. split_and!; vm_compute; reflexivity. Qed.

(** Two folders with one handle. *)
Example context_ids_collide : context_id "notes/a b" = context_id "notes/a-b".
Proof. vm_compute. reflexivity. Qed.
End ResourceSample.
