(* ===== verification/Advancement.v ===== *)
(** * Automatic advancement of a settled turn

    [crates/app/src/advancement.rs]: the operator's rules, what a turn changed and read, and
    the decision to advance; [GuaranteeOutcome] of [crates/harness/src/lib.rs]; the headers
    of [render_diff] and the name of a workstream's line of [crates/workspace/src/lib.rs];
    and [Workbench::auto_advance_turn] of [crates/app/src/engine.rs], which applies the
    decision to the store and the workspace. [serde_json]'s values and texts, the bodies of
    a unified diff, and the operations of a chat's workspace are arguments; a chat's project
    and its move, and the account's settings, are what the caller finds for them. *)

From S2P Require Import Prelude Ids Lifecycle AccessControl Egress Store StoreSystem Records Texts Frames ResourceStore.
From S2P Require Merge.

#[local] Existing Instances Merge.MergePhase_eq_dec Merge.MergeEvent_eq_dec.

(** ** JSON *)

(** The [serde_json] reads of a parsed document. *)
Class JsonValue (V : Type) := {
  json_from_str : string → option V;
  json_get : V → string → option V;
  json_array : V → option (list V);
  json_str : V → option string;
}.

(** ** What a turn changed and read *)

Definition ADVANCEMENT_RULES_SETTING : string := "advancement.rules".
Definition OPERATOR_WRITES_GUARANTEE : string := "writes_within:operator-auto-keep".
Definition GATE_PROGRAM_PATH : string := "gates/inbound.whip".
Definition GATE_ENVELOPE_PATH : string := "gates/inbound.envelope".

Definition is_config_path (path : string) : bool :=
  let name := default path (after_last "/" path) in
  eq_ignore_ascii_case name ".agent-config.json" || eq_ignore_ascii_case name "agent-config.json".

Definition is_gate_path (path : string) : bool :=
  let normalized := trim_start_matches "./" path in
  String.eqb normalized GATE_PROGRAM_PATH || String.eqb normalized GATE_ENVELOPE_PATH.

Record TurnFacts := mkTurnFacts { changed_paths : list string; read_stakeholders : list string }.

Definition violates_safety (facts : TurnFacts) : option string :=
  match List.find is_config_path (changed_paths facts) with
  | Some config => Some ("the turn touched the policy config `" +:+ config +:+ "`")
  | None =>
      match List.find is_gate_path (changed_paths facts) with
      | Some gate => Some ("the turn edited the project's gate `" +:+ gate +:+ "`")
      | None =>
          if bool_decide (read_stakeholders facts ≠ [])
          then Some ("the turn read content with external stake: " +:+ join ", " (read_stakeholders facts))
          else None
      end
  end.

(** The path a line of the diff names. *)
Definition header_path (line : string) : option string :=
  rest ← strip_prefix "diff --git a/" line;
  after ← after_last " b/" rest;
  let path := trim after in
  if String.eqb path "" then None else Some path.

Definition note_path (paths : list string) (path : string) : list string :=
  if bool_decide (path ∈ paths) then paths else paths ++ [path].

Definition changed_paths_of (diff : string) : list string :=
  foldl (λ paths line, match header_path line with Some path => note_path paths path | None => paths end) [] (lines diff).

Definition diff_names_no_files (diff : string) : bool :=
  negb (existsb (has_prefix "diff --git ") (lines diff)).

(** [DiffEntry]: the path, and the library's rendering of the change. *)
Record DiffEntry := mkDiffEntry { entry_path : string; to_unified : string }.

Definition render_diff (entries : list DiffEntry) : string :=
  foldr (λ e out, "diff --git a/" +:+ entry_path e +:+ " b/" +:+ entry_path e +:+ String newline (to_unified e +:+ out)) "" entries.

(** ** The rules *)

Record WritesWithin := mkWritesWithin { scopes : list string }.

Definition scope_matches (pattern path : string) : bool :=
  match strip_suffix "/**" pattern with
  | Some prefix => has_prefix (prefix +:+ "/") path
  | None =>
      match strip_prefix "*" pattern with
      | Some suffix => has_suffix suffix path
      | None => String.eqb pattern path
      end
  end.

Definition covers_the_gate (scope : string) : bool :=
  existsb (scope_matches scope) [GATE_PROGRAM_PATH; GATE_ENVELOPE_PATH].

Record AdvancementRules := mkRules { rules : list WritesWithin }.

Section values.
Context {V : Type} `{!JsonValue V}.

(** One entry of the document: a rule if it is of the known kind and names a usable path. *)
Definition usable_paths (paths : list V) : list string :=
  List.filter (λ p, negb (String.eqb p "") && negb (String.eqb p "**")) (trim <$> omap json_str paths).

Definition writes_within (entry : V) : option WritesWithin :=
  if bool_decide ((json_get entry "advance" ≫= json_str) = Some "writes-within") then
    paths ← json_get entry "paths" ≫= json_array;
    match usable_paths paths with [] => None | l => Some (mkWritesWithin l) end
  else None.

Definition parse (raw : option string) : AdvancementRules :=
  let entries : option (list V) := raw ← raw; doc ← json_from_str raw; rules ← json_get doc "rules"; json_array rules in
  match entries with
  | Some entries => mkRules (omap writes_within entries)
  | None => mkRules []
  end.
End values.

Definition is_empty (r : AdvancementRules) : bool := bool_decide (length (rules r) = 0).

Definition declared_scopes (r : AdvancementRules) : list string :=
  match head (rules r) with
  | Some rule => List.filter (λ scope, negb (covers_the_gate scope)) (scopes rule)
  | None => []
  end.

Definition covers (paths : list string) (rule : WritesWithin) : bool :=
  forallb (λ path, existsb (λ scope, scope_matches scope path) (scopes rule)) paths.

Definition decide (r : AdvancementRules) (facts : TurnFacts) : option string :=
  if bool_decide (changed_paths facts = []) then None
  else match violates_safety facts with
       | Some _ => None
       | None =>
           rule ← List.find (covers (changed_paths facts)) (rules r);
           Some ("rule writes-within(" +:+ join ", " (scopes rule) +:+ ") covered "
                 +:+ join ", " (changed_paths facts) +:+ "; no config touched, no external reads")
       end.

(** ** What the runtime certified *)

Record GuaranteeOutcome := mkOutcome { go_name : string; go_outcome : string; go_detail : string }.

Section report.
Context {V : Type} `{!JsonValue V}.

Definition guarantee (entry : V) : option GuaranteeOutcome :=
  name ← json_get entry "name" ≫= json_str;
  outcome ← json_get entry "outcome" ≫= json_str;
  Some (mkOutcome name outcome (default "" (json_get entry "detail" ≫= json_str))).

Definition from_report (report : V) : list GuaranteeOutcome :=
  match json_get report "dynamic" ≫= json_array with
  | Some entries => omap guarantee entries
  | None => []
  end.
End report.

Inductive GuaranteeVerdict := AdvanceHeld (citation : string) | HoldViolated (reason : string) | Unwitnessed.

Definition decide_from_guarantees (r : AdvancementRules) (outcomes : list GuaranteeOutcome) : GuaranteeVerdict :=
  if is_empty r then Unwitnessed
  else match List.find (λ o, String.eqb (go_name o) OPERATOR_WRITES_GUARANTEE) outcomes with
       | None => Unwitnessed
       | Some ours =>
           if String.eqb (go_outcome ours) "held"
           then AdvanceHeld ("runtime-certified " +:+ go_name ours +:+ ": " +:+ go_detail ours)
           else if String.eqb (go_outcome ours) "violated"
           then HoldViolated ("runtime-certified violation of " +:+ go_name ours +:+ ": " +:+ go_detail ours)
           else Unwitnessed
       end.

(** ** The settled turn *)

Definition workstream_id_of (target : string) : option string :=
  rest ← strip_prefix "workstream/" target; strip_suffix "/main" rest.

Inductive MergeOutcome := MO_Clean | MO_Conflict.

(** The operations of a chat's workspace the turn uses; an error is [None]. *)
Class ChatWorkspace (W : Type) := {
  target : W → string;
  diff_against_main : W → option string;
  merge_into_main : W → W * option MergeOutcome;
}.

Section turn.
Context {V : Type} `{!JsonValue V} {W : Type} `{!ChatWorkspace W}.
Context (record_json : Json ResourceRecord) (merge_json : Json Merge.MergeEvent).
(** [ServerEvent::to_json] of an admission, and the text of the audit record. *)
Context (admitted_text : string → string → string) (audit_text : string → string).
Context (codec : option ContentCodec) (anchor : string → string) (reducer_build : string).

Definition fold_merge (db : Db) (id : string) : result failure Merge.MergeState :=
  fold codec anchor reducer_build Merge.merge_lifecycle merge_json db id.
Definition admit_merge (db : Db) (id : string) (command : Merge.MergeCommand) : Db * result failure Merge.MergeState :=
  store_admit codec anchor reducer_build Merge.merge_lifecycle merge_json db id command.

Definition TRANSCRIPT_KIND : string := "transcript".
Definition AUDIT_KIND : string := "audit".

(** [let _ = append_transcript(..)] *)
Definition record_transcript (db : Db) (scope event : string) : Db :=
  (append_record codec db scope TRANSCRIPT_KIND event).1.

Definition owner_of (id : string) : string := as_str (determine_scope_authority id).

Definition rules_of (settings : option (gmap string string)) : AdvancementRules :=
  parse (V := V) (settings ≫= (.!! ADVANCEMENT_RULES_SETTING)).

Definition facts_of (db : Db) (id diff : string) : TurnFacts :=
  mkTurnFacts (changed_paths_of diff)
    (match external_read_stakeholders record_json codec db id (owner_of id) with
     | Ok l => l
     | Err _ => ["<unresolved>"]
     end).

(** The citation to advance on, and whether it is the no-op rule's. *)
Definition citation (settings : option (gmap string string)) (outcomes : list GuaranteeOutcome) (db : Db) (id diff : string)
    : option (string * bool) :=
  if diff_names_no_files diff then Some ("the turn changed no files (no-op rule, ADR 0082)", true)
  else
    let r := rules_of settings in
    let facts := facts_of db id diff in
    if is_empty r then None
    else match violates_safety facts with
         | Some _ => None
         | None =>
             match decide_from_guarantees r outcomes with
             | AdvanceHeld c => Some (c +:+ " (ADR 0082)", false)
             | HoldViolated _ => None
             | Unwitnessed => c ← decide r facts; Some (c +:+ " (ADR 0082)", false)
             end
         end.

(** The chat: whether its project is moving, whether its project's workspace is known, and
    its own workspace if it is open. *)
Record Chat := mkChat { project_moving : bool; indexed : bool; workspace : option W }.

Definition is_member (chat : Chat) (w : W) : bool :=
  indexed chat && bool_decide (is_Some (workstream_id_of (target w))).

(** What the turn leaves: the store, the workspace, and the event sent to listeners. *)
Definition auto_advance_turn (chat : Chat) (settings : option (gmap string string)) (outcomes : list GuaranteeOutcome)
    (id : string) (db : Db) : Db * option W * option string :=
  if project_moving chat then (db, workspace chat, None)
  else match workspace chat with
  | None => (db, None, None)
  | Some w =>
      if is_member chat w then (db, Some w, None)
      else if match fold_merge db id with Ok m => negb (bool_decide (Merge.phase m = Merge.P_Clean)) | Err _ => true end
      then (db, Some w, None)
      else match diff_against_main w with
      | None => (db, Some w, None)
      | Some diff =>
          match citation settings outcomes db id diff with
          | None => (db, Some w, None)
          | Some (cite, noop) =>
              match admit_merge db id Merge.C_PolicyAdmit with
              | (db, Err _) => (db, Some w, None)
              | (db, Ok _) =>
                  match merge_into_main w with
                  | (w, Some MO_Clean) =>
                      let db := (admit_merge db id Merge.C_AdvanceStandingRef).1 in
                      let db := (append_record codec db id AUDIT_KIND (audit_text cite)).1 in
                      if noop : bool then (db, Some w, None)
                      else
                        let advanced := admitted_text "merge" "merged to main automatically" in
                        (record_transcript db id advanced, Some w, Some advanced)
                  | (w, _) => (db, Some w, None)
                  end
              end
          end
      end
  end.
End turn.

(** ** The paths of a diff *)

(** A path that the header of a diff names unambiguously. *)
Record plain_path (p : string) : Prop := {
  pp_name : p ≠ "";
  pp_line : contains_char newline p = false;
  pp_blank : trim p = p;
  pp_end : strip_suffix (String carriage_return "") p = None;
  pp_mark : after_last " b/" p = None;
}.

(** The body of an entry is whole lines, none of them a header. *)
Record plain_entry (e : DiffEntry) : Prop := {
  pe_path : plain_path (entry_path e);
  pe_lines : to_unified e = "" ∨ ∃ s, to_unified e = s +:+ String newline "";
  pe_body : ∀ line, line ∈ lines (to_unified e) → header_path line = None;
}.

Definition header (p : string) : string := "diff --git a/" +:+ p +:+ " b/" +:+ p.

Lemma header_path_header p : plain_path p → header_path (header p) = Some p.
Proof.
  intros [Hn _ Ht _ Hm]. unfold header_path, header. rewrite strip_prefix_append. cbn [mbind option_bind].
  rewrite (after_last_append _ p (" b/" +:+ p) p).
  - cbn [mbind option_bind]. rewrite Ht. by destruct (String.eqb_spec p "").
  - rewrite !append_cons, append_nil. cbn [after_last strip_prefix]. by rewrite Hm.
Qed.

Lemma strip_suffix_char c a p : p ≠ "" → strip_suffix (String c "") p = None → strip_suffix (String c "") (a +:+ p) = None.
Proof.
  intros Hp Hs. induction a as [|d a IH]; [done|]. rewrite append_cons. cbn [strip_suffix].
  destruct (String.eqb_spec (String d (a +:+ p)) (String c "")) as [[= _ Heq]|_]; [|by rewrite IH].
  apply (f_equal String.length) in Heq. rewrite string_length_append in Heq. destruct p; [done|]. cbn in Heq. lia.
Qed.

Lemma lines_header p : plain_path p → lines (header p +:+ String newline "") = [header p].
Proof.
  intros [Hn Hl _ He _]. apply lines_line.
  - unfold header. rewrite !contains_char_append, Hl. done.
  - unfold header. apply strip_suffix_char; [by destruct p|]. apply strip_suffix_char; [done|]. by apply strip_suffix_char.
Qed.

Lemma lines_render e es : plain_entry e → lines (render_diff (e :: es)) = header (entry_path e) :: lines (to_unified e) ++ lines (render_diff es).
Proof.
  intros [Hp Hu _]. cbn [render_diff foldr]. fold (render_diff es).
  assert ("diff --git a/" +:+ entry_path e +:+ " b/" +:+ entry_path e +:+ String newline (to_unified e +:+ render_diff es)
          = header (entry_path e) +:+ String newline (to_unified e +:+ render_diff es)) as -> by (unfold header; by rewrite !append_assoc).
  rewrite lines_append, lines_header by done. cbn. f_equal. destruct Hu as [->|[s ->]]; [done|].
  by rewrite append_assoc, append_cons, append_nil, lines_append.
Qed.

Lemma header_path_names line p : header_path line = Some p → has_prefix "diff --git " line = true.
Proof.
  unfold header_path. destruct (strip_prefix "diff --git a/" line) as [rest|] eqn:Hr; [|done]. intros _.
  apply strip_prefix_Some in Hr as ->. apply has_prefix_spec. by exists ("a/" +:+ rest).
Qed.

Definition note_line (paths : list string) (line : string) : list string :=
  match header_path line with Some path => note_path paths path | None => paths end.

Lemma note_lines_none ls paths : (∀ line, line ∈ ls → header_path line = None) → foldl note_line paths ls = paths.
Proof.
  revert paths. induction ls as [|l ls IH]; intros paths H; [done|]. cbn [foldl]. unfold note_line at 2. rewrite H by left.
  apply IH. intros line Hl. apply H. by right.
Qed.

Lemma elem_of_note_path paths p x : x ∈ note_path paths p ↔ x ∈ paths ∨ x = p.
Proof. unfold note_path. case_bool_decide; set_solver. Qed.

Lemma NoDup_note_path paths p : NoDup paths → NoDup (note_path paths p).
Proof. unfold note_path. case_bool_decide; [done|]. intros Hd. apply NoDup_app. split_and!; [done|set_solver|apply NoDup_singleton]. Qed.

Lemma changed_paths_render es : Forall plain_entry es → changed_paths_of (render_diff es) = foldl note_path [] (entry_path <$> es).
Proof.
  unfold changed_paths_of. change (λ paths line, match header_path line with Some path => note_path paths path | None => paths end) with note_line.
  generalize (@nil string). induction es as [|e es IH]; intros paths Hes; [done|]. inversion Hes as [|? ? He Hrest]; subst.
  rewrite lines_render by done. cbn [foldl fmap list_fmap]. rewrite foldl_app, (note_lines_none (lines (to_unified e))) by apply He.
  unfold note_line at 2. rewrite header_path_header by apply He. by apply IH.
Qed.

Lemma foldl_note_spec ps paths : NoDup paths → NoDup (foldl note_path paths ps) ∧ ∀ x, x ∈ foldl note_path paths ps ↔ x ∈ paths ∨ x ∈ ps.
Proof.
  revert paths. induction ps as [|p ps IH]; intros paths Hd; cbn [foldl]; [set_solver|].
  destruct (IH (note_path paths p) (NoDup_note_path _ _ Hd)) as [Hd' Hx]. split; [done|]. intros x. rewrite Hx, elem_of_note_path. set_solver.
Qed.

Lemma names_no_files_render es : Forall plain_entry es → diff_names_no_files (render_diff es) = bool_decide (es = []).
Proof.
  intros Hes. destruct es as [|e es]; [done|]. inversion Hes as [|? ? He Hrest]; subst. unfold diff_names_no_files. rewrite lines_render by done.
  cbn [existsb]. rewrite (header_path_names _ (entry_path e)) by (by apply header_path_header, He). done.
Qed.

(** What a rendered diff changed is read back exactly: the paths of its entries, each
    once; and it names no file exactly when it has no entry. *)
Theorem changed_paths_exact es :
  Forall plain_entry es →
  NoDup (changed_paths_of (render_diff es)) ∧ (∀ p, p ∈ changed_paths_of (render_diff es) ↔ p ∈ entry_path <$> es)
  ∧ diff_names_no_files (render_diff es) = bool_decide (es = []).
Proof.
  intros Hes. rewrite changed_paths_render by done. destruct (foldl_note_spec (entry_path <$> es) [] (NoDup_nil_2 )) as [Hd Hx].
  split_and!; [done| |by apply names_no_files_render]. intros p. rewrite Hx. set_solver.
Qed.

(** ** The decision *)

Lemma find_none {A} (P : A → bool) l : List.find P l = None → ∀ x, x ∈ l → P x = false.
Proof. intros Hf x Hx. eapply List.find_none; [done|]. by apply list_elem_of_In. Qed.

Lemma safe_facts facts :
  violates_safety facts = None →
  (∀ p, p ∈ changed_paths facts → is_config_path p = false ∧ is_gate_path p = false) ∧ read_stakeholders facts = [].
Proof.
  unfold violates_safety. destruct (List.find is_config_path _) eqn:Hc; [done|]. destruct (List.find is_gate_path _) eqn:Hg; [done|].
  case_bool_decide as Hr; [done|]. intros _. split; [|by destruct (read_stakeholders facts); [|destruct Hr]]. intros p Hp. split; [by eapply find_none in Hc|by eapply find_none in Hg].
Qed.

Definition covered (rule : WritesWithin) (p : string) : Prop := ∃ scope, scope ∈ scopes rule ∧ scope_matches scope p = true.

Lemma covers_spec paths rule : covers paths rule = true ↔ ∀ p, p ∈ paths → covered rule p.
Proof.
  unfold covers, covered. rewrite forallb_forall. split; intros H p Hp.
  - apply list_elem_of_In, H, existsb_exists in Hp as (scope & Hs & Hm). exists scope. by rewrite list_elem_of_In.
  - apply list_elem_of_In, H in Hp as (scope & Hs & Hm). apply existsb_exists. exists scope. by rewrite <-list_elem_of_In.
Qed.

Lemma decide_Some r facts c :
  decide r facts = Some c → changed_paths facts ≠ [] ∧ violates_safety facts = None ∧ ∃ rule, rule ∈ rules r ∧ ∀ p, p ∈ changed_paths facts → covered rule p.
Proof.
  unfold decide. case_bool_decide as Hn; [done|]. destruct (violates_safety facts); [done|].
  destruct (List.find _ _) as [rule|] eqn:Hf; [|done]. intros _. apply List.find_some in Hf as [Hin Hc].
  split_and!; [done|done|]. exists rule. rewrite list_elem_of_In. split; [done|]. by apply covers_spec.
Qed.

(** The runtime's word on the operator's guarantee. *)
Definition certified (outcomes : list GuaranteeOutcome) : option string :=
  go_outcome <$> List.find (λ o, String.eqb (go_name o) OPERATOR_WRITES_GUARANTEE) outcomes.

Lemma guarantees_spec r outcomes :
  match decide_from_guarantees r outcomes with
  | AdvanceHeld _ => rules r ≠ [] ∧ certified outcomes = Some "held"
  | HoldViolated _ => certified outcomes = Some "violated"
  | Unwitnessed => rules r = [] ∨ certified outcomes ≠ Some "violated"
  end.
Proof.
  unfold decide_from_guarantees, is_empty, certified. case_bool_decide as He; [left; by apply nil_length_inv|].
  destruct (List.find _ _) as [o|]; [|by right]. cbn.
  destruct (String.eqb_spec (go_outcome o) "held") as [->|]; [split; [by intros Hr; rewrite Hr in He|done]|].
  destruct (String.eqb_spec (go_outcome o) "violated") as [->|]; [done|]. right. congruence.
Qed.

Section guards.
Context {V : Type} `{!JsonValue V} {W : Type} `{!ChatWorkspace W}.
Context (record_json : Json ResourceRecord) (merge_json : Json Merge.MergeEvent).
Context (admitted_text : string → string → string) (audit_text : string → string).
Context (codec : option ContentCodec) (anchor : string → string) (reducer_build : string).

Notation turn := (auto_advance_turn (V := V) record_json merge_json admitted_text audit_text codec anchor reducer_build).
Notation fold_merge := (fold_merge merge_json codec anchor reducer_build).
Notation admit_merge := (admit_merge merge_json codec anchor reducer_build).
Notation rules_of := (rules_of (V := V)).
Notation citation := (citation (V := V) record_json codec).

(** What lets a turn that names files advance. *)
Record cleared (settings : option (gmap string string)) (outcomes : list GuaranteeOutcome) (db : Db) (id diff : string) : Prop := {
  cl_rules : rules (rules_of settings) ≠ [];
  cl_paths : ∀ p, p ∈ changed_paths_of diff → is_config_path p = false ∧ is_gate_path p = false;
  cl_reads : ∃ m, latest record_json codec db id = Ok m ∧ ∀ r, r ∈ records codec db id READ_KIND → stake m r = owner_of id;
  cl_certified : certified outcomes ≠ Some "violated";
  cl_writes : certified outcomes = Some "held"
    ∨ changed_paths_of diff ≠ [] ∧ ∃ rule, rule ∈ rules (rules_of settings) ∧ ∀ p, p ∈ changed_paths_of diff → covered rule p;
}.

Lemma no_stakes db id diff :
  read_stakeholders (facts_of record_json codec db id diff) = [] →
  ∃ m, latest record_json codec db id = Ok m ∧ ∀ r, r ∈ records codec db id READ_KIND → stake m r = owner_of id.
Proof.
  unfold facts_of. cbn [read_stakeholders]. destruct (latest record_json codec db id) as [m|e] eqn:Hm.
  - intros He. exists m. split; [done|]. intros r Hr. destruct (external_spec record_json codec db id (owner_of id) m Hm) as (l & Hl & Hspec).
    rewrite Hl in He. subst l. destruct (String.eq_dec (stake m r) (owner_of id)) as [|Hne]; [done|]. exfalso. apply (not_elem_of_nil (stake m r)), Hspec. split; [done|by exists r].
  - unfold external_read_stakeholders, list_resources. by rewrite Hm.
Qed.

Lemma citation_cleared settings outcomes db id diff c noop :
  citation settings outcomes db id diff = Some (c, noop) →
  if noop then diff_names_no_files diff = true else diff_names_no_files diff = false ∧ cleared settings outcomes db id diff.
Proof.
  unfold Advancement.citation. destruct (diff_names_no_files diff); [by intros [= <- <-]|].
  destruct (is_empty (rules_of settings)) eqn:He; [done|].
  assert (rules (rules_of settings) ≠ []) as Hr by (intros Hr; unfold is_empty in He; by rewrite Hr in He).
  destruct (violates_safety _) eqn:Hv; [done|]. pose proof (guarantees_spec (rules_of settings) outcomes) as Hg.
  apply safe_facts in Hv as [Hp Hs]. pose proof (no_stakes _ _ _ Hs) as Hreads.
  destruct (decide_from_guarantees _ _) as [c'|c'|]; [| done |].
  - intros [= <- <-]. destruct Hg as [_ Hg]. split; [done|]. split; [done|done|done|by rewrite Hg|by left].
  - destruct (decide _ _) as [c'|] eqn:Hd; [|done]. intros [= <- <-]. split; [done|]. destruct Hg as [Hg|Hg]; [done|].
    apply decide_Some in Hd as (Hn & _ & Hd). by split; [done..|right].
Qed.

(** C37: A turn moves the main line by itself only when all guards hold: the project is not
    moving, the chat is on no workstream, its merge is clean, and either the diff names no
    file, or the operator has rules, no changed path is policy configuration or the gate,
    everything the engagement ever read is known to be its own, no certificate reports a
    violation, and a certificate held or one rule covers every changed path. For a rendered
    diff the changed paths are those of its entries. *)
Theorem auto_advance_guarded chat settings outcomes id db db' w w' sent :
  workspace chat = Some w → turn chat settings outcomes id db = (db', Some w', sent) → w' ≠ w →
  project_moving chat = false ∧ is_member chat w = false
  ∧ (∃ s, fold_merge db id = Ok s ∧ Merge.phase s = Merge.P_Clean)
  ∧ ∃ diff, diff_against_main w = Some diff
  ∧ (diff_names_no_files diff = true ∨ cleared settings outcomes db id diff)
  ∧ ∀ es, Forall plain_entry es → diff = render_diff es →
      (diff_names_no_files diff = true ↔ es = []) ∧ ∀ p, p ∈ changed_paths_of diff ↔ p ∈ entry_path <$> es.
Proof.
  intros Hw Hop Hne. unfold auto_advance_turn in Hop. destruct (project_moving chat); [congruence|]. rewrite Hw in Hop.
  destruct (is_member chat w); [congruence|]. destruct (fold_merge db id) as [s|] eqn:Hs; [|congruence].
  case_bool_decide as Hp; [|cbn in Hop; congruence]. cbn [negb] in Hop. destruct (diff_against_main w) as [diff|]; [|congruence].
  split_and!; [done|done|by exists s|]. exists diff. split; [done|]. split.
  - destruct (citation settings outcomes db id diff) as [[c noop]|] eqn:Hc; [|congruence].
    apply citation_cleared in Hc. destruct noop; [by left|right; apply Hc].
  - intros es Hes ->. rewrite changed_paths_render, names_no_files_render by done. rewrite bool_decide_eq_true. split; [done|].
    intros p. destruct (foldl_note_spec (entry_path <$> es) [] (NoDup_nil_2)) as [_ ->]. set_solver.
Qed.

(** *** What an advance leaves *)

Context `{!CodecLaws codec, !AnchorLaws anchor, !JsonLaws merge_json}.

#[local] Instance merge_snapshots : SnapshotLaws Merge.merge_lifecycle.
Proof. intros sc s p. discriminate. Qed.

Definition merge_host (_ : unit) : Hosted := mkHosted Merge.merge_lifecycle merge_json Merge.merge_safe _ _.

Lemma merge_kinds i j : KIND (lifecycle (merge_host i)) = KIND (lifecycle (merge_host j)) → i = j.
Proof. by destruct i, j. Qed.

Notation system_ok := (system_ok codec reducer_build merge_host).
Notation records := (records codec).
Notation admitted_to := (admitted_to codec anchor reducer_build merge_host).
Notation event := (admitted_text "merge" "merged to main automatically").

Lemma merge_admits db id s command es s' :
  system_ok db → fold_merge db id = Ok s → apply Merge.merge_lifecycle s command = Applied es s' →
  (∀ e, e ∈ es → encodable codec Merge.merge_lifecycle merge_json id e) →
  ∃ db', admit_merge db id command = (db', Ok s') ∧ admitted_to () id db db' ∧ fold_merge db' id = Ok s'.
Proof.
  intros Hsys Hs Ha Henc. destruct (admit_can codec anchor reducer_build merge_host () id command db s es s' Hsys Hs Ha Henc) as [db' Hop].
  destruct (Frames.admit_done codec anchor reducer_build merge_host merge_kinds () id command db db' s' Hsys Hop) as (Hto & Hf & _). by exists db'.
Qed.

Lemma merge_inv_of db id s : system_ok db → fold_merge db id = Ok s → Merge.merge_inv s.
Proof.
  intros [Hok Hall] Hs. destruct (Hall () id) as (log & t & Ht & Hh).
  pose proof (holds_fold codec anchor reducer_build merge_host () db id log t Hok Hh Ht) as Hf.
  assert (t = s) as -> by (change (fold_i _ _ _ _ _ _ _) with (fold_merge db id) in Hf; congruence). exact (trace_inv _ log s Ht).
Qed.

(** A turn that the guards let through, whose writes encode. *)
Record advancing (chat : Chat) (settings : option (gmap string string)) (outcomes : list GuaranteeOutcome) (db : Db)
    (id : string) (w : W) (s : Merge.MergeState) (c : string) (noop : bool) : Prop := {
  ad_still : project_moving chat = false;
  ad_open : workspace chat = Some w;
  ad_own : is_member chat w = false;
  ad_merge : fold_merge db id = Ok s;
  ad_clean : Merge.phase s = Merge.P_Clean ∧ Merge.workspace_outcome s = Merge.W_Success;
  ad_cited : ∃ diff, diff_against_main w = Some diff ∧ citation settings outcomes db id diff = Some (c, noop);
  ad_events : ∀ e, e ∈ [Merge.E_PolicyAdmitted; Merge.E_StandingRefAdvanced] → encodable codec Merge.merge_lifecycle merge_json id e;
  ad_audit : ∃ stored, encode_payload codec id AUDIT_KIND (audit_text c) = Ok stored;
  ad_transcript : ∃ stored, encode_payload codec id TRANSCRIPT_KIND event = Ok stored;
}.

Definition policy_admitted (s : Merge.MergeState) : Merge.MergeState := Merge.evolve s Merge.E_PolicyAdmitted.

Lemma policy_admits s :
  Merge.phase s = Merge.P_Clean → Merge.workspace_outcome s = Merge.W_Success →
  apply Merge.merge_lifecycle s Merge.C_PolicyAdmit = Applied [Merge.E_PolicyAdmitted] (policy_admitted s).
Proof. destruct s. cbn. intros -> ->. reflexivity. Qed.

Lemma standing_advances s :
  Merge.phase s = Merge.P_Clean → Merge.workspace_outcome s = Merge.W_Success → Merge.merge_inv s →
  apply Merge.merge_lifecycle (policy_admitted s) Merge.C_AdvanceStandingRef
  = Applied [Merge.E_StandingRefAdvanced] (Merge.evolve (policy_admitted s) Merge.E_StandingRefAdvanced).
Proof. intros Hp Ho [_ _ _ Hc Ha _ _]. destruct s. cbn in *. subst. reflexivity. Qed.

Lemma other_kind k : k ∈ [AUDIT_KIND; TRANSCRIPT_KIND] → record_kind merge_host k.
Proof. intros Hk []; repeat (apply elem_of_cons in Hk as [->|Hk]; [discriminate|]); by apply elem_of_nil in Hk. Qed.

Lemma append_noted db id k payload stored :
  k ∈ [AUDIT_KIND; TRANSCRIPT_KIND] → system_ok db → encode_payload codec id k payload = Ok stored →
  Frames.appended codec anchor reducer_build merge_host id k payload db (append_record codec db id k payload).1.
Proof.
  intros Hk Hsys He. destruct (append_can codec id k payload stored db (proj1 Hsys) He) as (db' & p & Happ).
  rewrite Happ. exact (Frames.append_done codec anchor reducer_build merge_host id k payload db db' p (other_kind k Hk) Hsys Happ).
Qed.

Lemma records_noted {id k payload db db'} :
  Frames.appended codec anchor reducer_build merge_host id k payload db db' → records db' id k = records db id k ++ [payload].
Proof. intros Ha. by rewrite (ap_records Ha), bool_decide_eq_true_2. Qed.

(** C40: A turn that may advance does, once, and says why. When the workspace merges cleanly
    the chat's merge is advanced, the audit record of the chat gains the citation, the
    transcript and the listeners get a plain message unless nothing visible moved, and
    other chats' merges are as they were. The citation is in the audit record only: the
    docs of the function and of advancement.rs, which promise it in the transcript of
    every such turn, disagree with the comment in the function's body. When the workspace does not, nothing is recorded, but the
    candidate stays clean with its policy admitted. *)
Theorem auto_advance_settles chat settings outcomes db id w s c noop :
  system_ok db → advancing chat settings outcomes db id w s c noop →
  let clean := match (merge_into_main w).2 with Some MO_Clean => true | _ => false end in
  let told := clean && negb noop in
  ∃ db' s', turn chat settings outcomes id db = (db', Some (merge_into_main w).1, if told then Some event else None)
  ∧ fold_merge db' id = Ok s' ∧ Merge.phase s' = (if clean then Merge.P_Advanced else Merge.P_Clean)
  ∧ Merge.policy_outcome s' = Merge.O_Admitted ∧ Merge.standing_advanced s' = clean
  ∧ records db' id AUDIT_KIND = records db id AUDIT_KIND ++ (if clean then [audit_text c] else [])
  ∧ records db' id TRANSCRIPT_KIND = records db id TRANSCRIPT_KIND ++ (if told then [event] else [])
  ∧ ∀ id', id' ≠ id → fold_merge db' id' = fold_merge db id'.
Proof.
  intros Hsys [Hmv Hw Hm Hs [Hp Ho] (diff & Hd & Hc) Henc (sa & Hsa) (st & Hst)] clean told.
  pose proof (merge_inv_of _ _ _ Hsys Hs) as Hinv. unfold auto_advance_turn. rewrite Hmv, Hw, Hm, Hs, Hp, Hd, Hc, bool_decide_eq_true_2 by done. cbn [negb].
  pose proof (policy_admits s Hp Ho) as Ha1.
  destruct (merge_admits db id s _ _ _ Hsys Hs Ha1) as (db1 & H1 & Hto1 & Hs1); [intros e He; apply Henc; set_solver|].
  rewrite H1. assert (Merge.standing_advanced s = false) as Hadv by (rewrite (Merge.inv_advanced s Hinv), Hp; done).
  assert (∀ k, k ∈ [AUDIT_KIND; TRANSCRIPT_KIND] → records db1 id k = records db id k) as Hr1.
  { intros k Hk. apply (at_records Hto1). apply (other_kind k Hk ()). }
  assert (∀ id', id' ≠ id → fold_merge db1 id' = fold_merge db id') as Hf1 by (intros id' Hne; apply (at_folds Hto1 ()); congruence).
  destruct (merge_into_main w) as [w' o]. cbn [fst snd] in *. subst clean told.
  assert (Hheld : ∃ db' s', (db1, Some w', @None string) = (db', Some w', None) ∧ fold_merge db' id = Ok s' ∧ Merge.phase s' = Merge.P_Clean
    ∧ Merge.policy_outcome s' = Merge.O_Admitted ∧ Merge.standing_advanced s' = false
    ∧ records db' id AUDIT_KIND = records db id AUDIT_KIND ++ [] ∧ records db' id TRANSCRIPT_KIND = records db id TRANSCRIPT_KIND ++ []
    ∧ ∀ id', id' ≠ id → fold_merge db' id' = fold_merge db id').
  { exists db1, (policy_admitted s). rewrite !app_nil_r. split_and!; try done; apply Hr1; set_solver. }
  destruct o as [[]|]; [|exact Hheld|exact Hheld]. clear Hheld.
  pose proof (standing_advances s Hp Ho Hinv) as Ha2.
  destruct (merge_admits db1 id _ _ _ _ (at_ok Hto1) Hs1 Ha2) as (db2 & H2 & Hto2 & Hs2); [intros e He; apply Henc; set_solver|].
  rewrite H2. cbn [fst].
  pose proof (append_noted db2 id AUDIT_KIND _ _ ltac:(by left) (at_ok Hto2) Hsa) as Ha3. set (db3 := (append_record _ db2 _ _ _).1) in *.
  pose proof (append_noted db3 id TRANSCRIPT_KIND _ _ ltac:(by right; left) (ap_ok Ha3) Hst) as Ha4. unfold record_transcript. set (db4 := (append_record _ db3 _ _ _).1) in *.
  assert (∀ k, k ∈ [AUDIT_KIND; TRANSCRIPT_KIND] → records db2 id k = records db id k) as Hr2.
  { intros k Hk. rewrite <-Hr1 by done. apply (at_records Hto2). apply (other_kind k Hk ()). }
  assert (∀ id', id' ≠ id → fold_merge db2 id' = fold_merge db id') as Hf2 by (intros id' Hne; rewrite <-Hf1 by done; apply (at_folds Hto2 ()); congruence).
  exists (if noop then db3 else db4), (Merge.evolve (policy_admitted s) Merge.E_StandingRefAdvanced).
  assert (∀ sc, fold_merge db3 sc = fold_merge db2 sc) as Hf3 by (intros sc; apply (ap_folds Ha3 ())).
  assert (∀ sc, fold_merge db4 sc = fold_merge db3 sc) as Hf4 by (intros sc; apply (ap_folds Ha4 ())).
  split_and!; [by destruct noop| | | | | | |].
  - destruct noop; by rewrite ?Hf4, Hf3.
  - done.
  - done.
  - done.
  - transitivity (records db3 id AUDIT_KIND); [|by rewrite (records_noted Ha3), Hr2 by (by left)].
    destruct noop; [done|]. by rewrite (ap_records Ha4), bool_decide_eq_false_2, app_nil_r by (by intros [_ ?]).
  - assert (records db3 id TRANSCRIPT_KIND = records db id TRANSCRIPT_KIND) as Hr3.
    { rewrite (ap_records Ha3), bool_decide_eq_false_2, app_nil_r by (by intros [_ ?]). apply Hr2. by right; left. }
    destruct noop; cbn; [by rewrite Hr3, app_nil_r|by rewrite (records_noted Ha4), Hr3].
  - intros id' Hne. destruct noop; rewrite ?Hf4, Hf3; by apply Hf2.
Qed.
End guards.

(** ** The properties at concrete inputs *)

Module AdvanceSample.
Inductive value := VText (s : string) | VList (l : list value) | VObject (fields : list (string * value)).

Definition doc : value :=
  VObject [("rules", VList [VObject [("advance", VText "writes-within"); ("paths", VList [VText "docs/**"; VText "**"])]])].
Definition starred : value :=
  VObject [("rules", VList [VObject [("advance", VText "writes-within"); ("paths", VList [VText "*"])]])].

#[export] Instance sample_values : JsonValue value := {|
  json_from_str raw := if String.eqb raw "docs" then Some doc else if String.eqb raw "star" then Some starred else None;
  json_get v k := match v with VObject fields => snd <$> List.find (λ x, String.eqb x.1 k) fields | _ => None end;
  json_array v := match v with VList l => Some l | _ => None end;
  json_str v := match v with VText s => Some s | _ => None end;
|}.

(** A chat's workspace: its line, what it changed, and how often main moved. *)
Record Line := mkLine { line_name : string; changes : list DiffEntry; moves : nat }.
#[export] Instance sample_workspace : ChatWorkspace Line := {|
  target w := line_name w;
  diff_against_main w := Some (render_diff (changes w));
  merge_into_main w := (mkLine (line_name w) [] (S (moves w)), Some MO_Clean);
|}.

Definition merge_json : Json Merge.MergeEvent := table_json
  [("started", Merge.E_MergeStarted); ("cleaned", Merge.E_WorkspaceCleaned); ("admitted", Merge.E_PolicyAdmitted);
   ("advanced", Merge.E_StandingRefAdvanced)].
#[export] Instance merge_laws : JsonLaws merge_json.
Proof. apply table_json_laws. vm_compute. repeat constructor; set_solver. Defined.

Definition record_json : Json ResourceRecord := ResourceSample.record_json.
Definition anchor : string → string := ResourceSample.anchor.
Definition admitted_text (kind text : string) : string := kind +:+ ": " +:+ text.
Definition audit_text (citation : string) : string := "auto_advance: " +:+ citation.

#[export] Instance anchor_laws : AnchorLaws anchor.
Proof. intros raw. reflexivity. Qed.
#[export] Instance plain_laws : CodecLaws None.
Proof. intros c scope kind plain stored. discriminate. Qed.

Definition started : Db := (admit_merge merge_json None anchor "build" empty_db "chat" Merge.C_StartMerge).1.
Definition clean : Db := (admit_merge merge_json None anchor "build" started "chat" Merge.C_WorkspaceClean).1.
Definition entry : DiffEntry := mkDiffEntry "docs/a.md" ("+text" +:+ String newline "").
Definition w : Line := mkLine "main" [entry] 0.
Definition chat : Chat := mkChat false true (Some w).
Definition settings : option (gmap string string) := Some {[ADVANCEMENT_RULES_SETTING := "docs"]}.

Notation turn := (auto_advance_turn (V := value) record_json merge_json admitted_text audit_text None anchor "build").

Lemma entry_plain : plain_entry entry.
Proof.
  split; [split; vm_compute; (discriminate || reflexivity)|right; by exists "+text"|].
  intros line Hl. assert (lines (to_unified entry) = ["+text"]) as Heq by (vm_compute; reflexivity). rewrite Heq in Hl.
  apply list_elem_of_singleton in Hl as ->. vm_compute. reflexivity.
Qed.

Lemma changed_paths_exact_witness : "docs/a.md" ∈ changed_paths_of (render_diff [entry]).
Proof. destruct (changed_paths_exact [entry] (List.Forall_cons _ _ _ entry_plain (List.Forall_nil _))) as (_ & H & _). apply H. left. Defined.

Lemma auto_advance_guarded_witness :
  ∃ db' w' sent, turn chat settings [] "chat" clean = (db', Some w', sent) ∧ w' ≠ w ∧ is_member chat w = false.
Proof.
  destruct (turn chat settings [] "chat" clean) as [[db' ow] sent] eqn:Hop.
  assert (ow = Some (mkLine "main" [] 1)) as ->.
  { assert ((turn chat settings [] "chat" clean).1.2 = Some (mkLine "main" [] 1)) as H by (vm_compute; reflexivity). rewrite Hop in H. exact H. }
  assert (mkLine "main" [] 1 ≠ w) as Hne by (intros H; discriminate H).
  exists db', (mkLine "main" [] 1), sent. split; [reflexivity|]. split; [exact Hne|].
  exact (proj1 (proj2 (auto_advance_guarded record_json merge_json admitted_text audit_text None anchor "build"
    chat settings [] "chat" clean db' w _ sent eq_refl Hop Hne))).
Defined.

Definition clean_state : Merge.MergeState :=
  Merge.mkMergeState Merge.P_Clean Merge.W_Success Merge.O_Unknown false false Merge.T_MergePending false false 0 ∅ false.

Lemma clean_ok : StoreSystem.system_ok None "build" (merge_host merge_json) clean.
Proof.
  assert (StoreSystem.system_ok None "build" (merge_host merge_json) started) as Hs.
  { destruct (admit_merge merge_json None anchor "build" empty_db "chat" Merge.C_StartMerge) as [db [s|]] eqn:Hop; [|vm_compute in Hop; discriminate].
    destruct (Frames.admit_done None anchor "build" (merge_host merge_json) (merge_kinds merge_json) () "chat" Merge.C_StartMerge empty_db db s
      (empty_system_ok None "build" (merge_host merge_json)) Hop) as [Ha _]. unfold started. rewrite Hop. exact (at_ok Ha). }
  destruct (admit_merge merge_json None anchor "build" started "chat" Merge.C_WorkspaceClean) as [db [s|]] eqn:Hop; [|vm_compute in Hop; discriminate].
  destruct (Frames.admit_done None anchor "build" (merge_host merge_json) (merge_kinds merge_json) () "chat" Merge.C_WorkspaceClean started db s Hs Hop) as [Ha _].
  unfold clean. rewrite Hop. exact (at_ok Ha).
Qed.

Definition cited : string := "rule writes-within(docs/**) covered docs/a.md; no config touched, no external reads (ADR 0082)".

Lemma auto_advance_settles_witness :
  ∃ db', turn chat settings [] "chat" clean = (db', Some (mkLine "main" [] 1), Some "merge: merged to main automatically")
    ∧ records None db' "chat" AUDIT_KIND = records None clean "chat" AUDIT_KIND ++ [audit_text cited].
Proof.
  assert (advancing (V := value) record_json merge_json admitted_text audit_text None anchor "build" chat settings [] clean "chat" w clean_state cited false) as Had.
  { split; [reflexivity|reflexivity|reflexivity|vm_compute; reflexivity|split; reflexivity| | |by eexists|by eexists].
    - exists (render_diff [entry]). split; [reflexivity|vm_compute; reflexivity].
    - intros e He. apply elem_of_cons in He as [->|He]; [by do 2 eexists|]. apply list_elem_of_singleton in He as ->. by do 2 eexists. }
  destruct (auto_advance_settles record_json merge_json admitted_text audit_text None anchor "build" chat settings [] clean "chat" w clean_state cited false
    clean_ok Had) as (db' & s' & Hop & _ & _ & _ & _ & Haudit & _).
  exists db'. split; [exact Hop|exact Haudit].
Defined.

(** A lone star covers every path. *)
Example star_covers_all : forallb (covers ["src/main.rs"; "a/b c"]) (rules (parse (V := value) (Some "star"))) = true
  ∧ rules (parse (V := value) (Some "star")) = [mkWritesWithin ["*"]].
Proof. split; vm_compute; reflexivity. Qed.

(** A folder whose name ends in [" b"] hides where its files are; a name with a line feed
    hides the file. *)
Example hidden_paths :
  changed_paths_of (render_diff [mkDiffEntry "secret b/docs/x.md" ""]) = ["docs/x.md"]
  ∧ changed_paths_of (render_diff [mkDiffEntry ("x" +:+ String newline "/.agent-config.json") ""]) = [].
Proof. split; vm_compute; reflexivity. Qed.
End AdvanceSample.
