(* ===== verification/Quarantine.v ===== *)
(** * Quarantine and the gate

    [crates/app/src/quarantine.rs] and [crates/app/src/gate.rs]: inbound material held
    outside every agent's files, its record folded latest-wins by id, the payloads in a
    store of their own, the verdict of the gate, and the check that no agent's root reaches
    the payloads; with [fitted_file_name] of [key_store.rs] and the arrival of one drained
    artifact of [agent_release.rs]. The shipped gate programs are texts, and compiling and
    checking a program are the language's: arguments of [admit]. A directory can be created
    and a file written whenever the code asks for it. *)

From Stdlib Require Import Ascii.
From stdpp Require Import pretty.
From S2P Require Import Prelude Ids Recovery Federation Lifecycle Store StoreSystem Records SignedText Texts.

(** ** Items *)

Definition QUARANTINE_KIND : string := "quarantined-item".
Definition quarantine_scope (project_id : string) : string := "quarantine::" +:+ project_id.
Definition item_id_of (source_id : string) (revision : N) : string := source_id +:+ ":" +:+ pretty revision.

Inductive ItemStatus := Pending | Approved (workspace_path : string) | Rejected.
#[export] Instance ItemStatus_eq_dec : EqDecision ItemStatus.
Proof. solve_decision. Defined.

Record QuarantinedItem := mkItem {
  item_id : string;
  source : string;
  deployment_binding_id : option string;
  deployment_id : option string;
  public_session_id : option string;
  source_id : string;
  release_id : string;
  revision : N;
  schema_ref : string;
  byte_len : N;
  produced_at_unix_ms : N;
  arrived_at_unix_ms : N;
  status : ItemStatus;
}.
#[export] Instance QuarantinedItem_eq_dec : EqDecision QuarantinedItem.
Proof. solve_decision. Defined.

Definition with_status (i : QuarantinedItem) (s : ItemStatus) : QuarantinedItem :=
  mkItem (item_id i) (source i) (deployment_binding_id i) (deployment_id i) (public_session_id i) (source_id i) (release_id i)
    (revision i) (schema_ref i) (byte_len i) (produced_at_unix_ms i) (arrived_at_unix_ms i) s.

(** The order of the index: oldest first, then by id. *)
Definition item_le (a b : QuarantinedItem) : Prop :=
  (produced_at_unix_ms a < produced_at_unix_ms b)%N
  ∨ produced_at_unix_ms a = produced_at_unix_ms b ∧ Is_true (String.leb (item_id a) (item_id b)).
#[export] Instance item_le_dec : RelDecision item_le.
Proof. intros a b. unfold item_le. apply _. Defined.

Section index.
Context (item_json : Json QuarantinedItem) (codec : option ContentCodec).

Definition latest (db : Db) (project_id : string) : result failure (gmap string QuarantinedItem) :=
  fold_rows item_json (λ m i, <[item_id i := i]> m) ∅ (records codec db (quarantine_scope project_id) QUARANTINE_KIND).

Definition list_items (db : Db) (project_id : string) : result failure (list QuarantinedItem) :=
  let? m := latest db project_id in Ok (merge_sort item_le (btree_values m)).

Definition get (db : Db) (project_id id : string) : result failure (option QuarantinedItem) :=
  let? l := list_items db project_id in Ok (List.find (λ i, String.eqb (item_id i) id) l).

Definition pending (db : Db) (project_id : string) : result failure (list QuarantinedItem) :=
  let? l := list_items db project_id in Ok (List.filter (λ i, bool_decide (status i = Pending)) l).

Definition pending_count (db : Db) (project_id : string) : result failure nat :=
  let? l := pending db project_id in Ok (length l).

Definition file_item (project_id : string) (i : QuarantinedItem) : Prog unit :=
  do payload <- serialized item_json i;
  do _ <- (λ db, append_record codec db (quarantine_scope project_id) QUARANTINE_KIND payload);
  ret ().

Definition record (project_id : string) (i : QuarantinedItem) : Prog bool :=
  do found <- reads (λ db, get db project_id (item_id i));
  match found with
  | Some _ => ret false
  | None => do _ <- file_item project_id i; ret true
  end.

Definition settle (project_id id : string) (s : ItemStatus) : Prog unit :=
  do found <- reads (λ db, get db project_id id);
  match found with
  | None => ret ()
  | Some existing => file_item project_id (with_status existing s)
  end.
End index.

(** ** Payloads *)

Inductive IoError := NotFound (text : string) | IoOther (text : string) | IoStore (f : failure).

Definition id_char (c : ascii) : bool := alphanumeric c || Ascii.eqb c "-" || Ascii.eqb c "_".

Fixpoint all_chars (p : ascii → bool) (s : string) : bool :=
  match s with EmptyString => true | String c s => p c && all_chars p s end.

Definition valid_project_id (id : string) : bool :=
  negb (String.eqb id "") && bool_decide (String.length id ≤ 128) && all_chars id_char id.

(** The files under the store's directory, by project and name. *)
Notation Payloads := (gmap (string * string) (list N)).

(** The files of the projects' folders. *)
Notation Worktrees := (gmap (string * string) (list N)).

Section payloads.
Context `{ST : SignedTexts}.

Definition MAX_FILE_NAME_BYTES : nat := 255.
Definition HASHED_FILE_NAME_PREFIX : string := "sha256-".

Definition fitted_file_name (id : list N) (suffix : string) : string :=
  let plain := hex_encode id +:+ suffix in
  if bool_decide (String.length plain ≤ MAX_FILE_NAME_BYTES) then plain
  else HASHED_FILE_NAME_PREFIX +:+ hex_encode (sha256 id) +:+ suffix.

Definition item_path (project_id id : string) : result IoError (string * string) :=
  if valid_project_id project_id then Ok (project_id, fitted_file_name (bytes_of id) ".item")
  else Err (IoOther "project id is invalid").

Definition put (payloads : Payloads) (project_id id : string) (payload : list N) : Payloads * result IoError unit :=
  match item_path project_id id with
  | Err e => (payloads, Err e)
  | Ok path => (<[path := payload]> payloads, Ok ())
  end.

Definition read (payloads : Payloads) (project_id id : string) : result IoError (list N) :=
  let? path := item_path project_id id in ok_or (payloads !! path) (NotFound "no such file").

Definition exists_payload (payloads : Payloads) (project_id id : string) : bool :=
  match item_path project_id id with Ok path => bool_decide (is_Some (payloads !! path)) | Err _ => false end.

Definition discard (payloads : Payloads) (project_id id : string) : Payloads * result IoError unit :=
  match item_path project_id id with
  | Err e => (payloads, Err e)
  | Ok path => (delete path payloads, Ok ())
  end.

(** ** The verdict of the gate *)

Inductive Verdict := Keep | Flag.

Definition APPROVED_DIR : string := "inbound".
Definition approved_path (id : string) : string :=
  APPROVED_DIR +:+ "/" +:+ trim_dashes_end (trim_dashes_start (slug id)) +:+ ".json".

Section gate.
Context (item_json : Json QuarantinedItem) (codec : option ContentCodec).

Definition store_error {A} (r : Db * result failure A) : Db * result IoError A :=
  (r.1, match r.2 with Ok x => Ok x | Err f => Err (IoStore f) end).

Definition apply_verdict (payloads : Payloads) (project_id id : string) (verdict : Verdict) (db : Db) (wt : Worktrees)
    : Db * Worktrees * result IoError (option string) :=
  match get item_json codec db project_id id with
  | Err f => (db, wt, Err (IoStore f))
  | Ok None => (db, wt, Err (NotFound "no such quarantined item"))
  | Ok (Some i) =>
      match status i with
      | Approved path => (db, wt, Ok (Some path))
      | Rejected => (db, wt, Ok None)
      | Pending =>
          match verdict with
          | Flag =>
              match store_error (settle item_json codec project_id id Rejected db) with
              | (db, Ok _) => (db, wt, Ok None)
              | (db, Err e) => (db, wt, Err e)
              end
          | Keep =>
              match read payloads project_id id with
              | Err e => (db, wt, Err e)
              | Ok payload =>
                  let relative := approved_path id in
                  let wt := <[(project_id, relative) := payload]> wt in
                  match store_error (settle item_json codec project_id id (Approved relative) db) with
                  | (db, Ok _) => (db, wt, Ok (Some relative))
                  | (db, Err e) => (db, wt, Err e)
                  end
              end
          end
      end
  end.

(** *** Arrival: custody before disposition *)

Definition arrive (project_id : string) (i : QuarantinedItem) (plaintext : list N) (db : Db) (payloads : Payloads)
    : Db * Payloads * result IoError bool :=
  match put payloads project_id (item_id i) plaintext with
  | (payloads, Err e) => (db, payloads, Err e)
  | (payloads, Ok _) => let r := store_error (record item_json codec project_id i db) in (r.1, payloads, r.2)
  end.
End gate.
End payloads.

(** *** Admission of a gate program *)

Inductive GateRefusal := Malformed (messages : list string) | BadEnvelope (text : string) | InformationFlow (messages : list string).

Section admission.
Context {Envelope IR : Type} (verify_text : string → result string Envelope) (compile : string → option IR * list string)
  (check_with_envelope : IR → Envelope → list string).

Definition admit_gate (program envelope : string) : result GateRefusal unit :=
  match verify_text envelope with
  | Err text => Err (BadEnvelope text)
  | Ok verified =>
      match compile program with
      | (None, diagnostics) => Err (Malformed diagnostics)
      | (Some ir, _) =>
          match check_with_envelope ir verified with
          | [] => Ok ()
          | messages => Err (InformationFlow messages)
          end
      end
  end.
End admission.

(** ** Roots *)

(** [Path::components] and the components of a normalized path. *)
Inductive Component := RootDir | CurDir | ParentDir | Normal (name : string).
#[export] Instance Component_eq_dec : EqDecision Component.
Proof. solve_decision. Defined.

Definition part (first : bool) (p : string) : option Component :=
  if String.eqb p "" then None
  else if String.eqb p "." then (if first then Some CurDir else None)
  else if String.eqb p ".." then Some ParentDir
  else Some (Normal p).

Definition components (path : string) : list Component :=
  match split_on "/" path with
  | [] => []
  | first :: rest =>
      if has_prefix "/" path then RootDir :: omap (part false) rest
      else omap (part true) [first] ++ omap (part false) rest
  end.

(** [out.pop()], [out.push(..)]: the last component comes last. *)
Definition pop (out : list Component) : list Component :=
  match reverse out with Normal _ :: rest => reverse rest | _ => out end.

Definition normalize_step (out : list Component) (c : Component) : list Component :=
  match c with ParentDir => pop out | CurDir => out | other => out ++ [other] end.

Definition normalize (path : string) : list Component := foldl normalize_step [] (components path).

Definition reaches (quarantine root : list Component) : bool :=
  bool_decide (quarantine `prefix_of` root) || bool_decide (root `prefix_of` quarantine).

Definition isolation_violations (quarantine_root : string) (file_store_roots : list string) : list string :=
  List.filter (λ root, reaches (normalize quarantine_root) (normalize root)) file_store_roots.

(** ** The index *)

Definition filed (m : gmap string QuarantinedItem) : Prop := ∀ id i, m !! id = Some i → item_id i = id.

Section index_facts.
Context (item_json : Json QuarantinedItem) (codec : option ContentCodec) `{!CodecLaws codec, !JsonLaws item_json}.

Notation latest := (latest item_json codec).
Notation get := (get item_json codec).

Lemma items_filed db p m : latest db p = Ok m → filed m.
Proof.
  unfold Quarantine.latest. intros (rows & _ & ->)%fold_rows_ok. assert (filed ∅) as H0 by (intros id i ?%lookup_empty_Some; done).
  revert H0. generalize (∅ : gmap string QuarantinedItem) as m. induction rows as [|i rows IH]; intros m Hm; [done|]. cbn [foldl].
  apply IH. intros id i' [[<- <-]|[_ Hi]]%lookup_insert_Some; [done|by apply Hm].
Qed.

Lemma get_item db p m id : latest db p = Ok m → get db p id = Ok (m !! id).
Proof.
  intros Hm. pose proof (items_filed _ _ _ Hm) as Hf. unfold Quarantine.get, list_items. rewrite Hm. f_equal.
  assert (∀ i, i ∈ merge_sort item_le (btree_values m) ↔ ∃ k, m !! k = Some i) as Hin.
  { intros i. by rewrite merge_sort_Permutation, elem_of_btree_values. }
  destruct (List.find _ _) as [i|] eqn:Hi.
  - apply List.find_some in Hi as [[k Hk]%list_elem_of_In%Hin Heq%String.eqb_eq]. by rewrite <-Heq, (Hf _ _ Hk).
  - destruct (m !! id) as [i|] eqn:Hl; [|done]. pose proof (List.find_none _ _ Hi i) as Hne. cbn in Hne.
    rewrite (Hf _ _ Hl), String.eqb_refl in Hne. discriminate Hne. apply list_elem_of_In, Hin. by exists id.
Qed.

Lemma file_item_spec p i db m :
  db_ok db → latest db p = Ok m →
  match file_item item_json codec p i db with
  | (db', Ok _) => db_ok db' ∧ latest db' p = Ok (<[item_id i := i]> m) ∧ ∀ p', p' ≠ p → latest db' p' = latest db p'
  | (db', Err _) => db' = db
  end.
Proof.
  intros Hok Hm. unfold file_item, bind. destruct (serialized item_json i db) as [db0 [payload|]] eqn:Hs.
  2: { unfold serialized in Hs. destruct (to_json item_json i); [done|]. by injection Hs as <-. }
  apply serialized_ok in Hs as [-> Hp]. destruct (append_record codec db _ _ payload) as [db1 [pos|e]] eqn:Happ; [|by eapply append_record_err].
  cbn. pose proof (append_record_records codec _ _ _ _ _ _ (quarantine_scope p) QUARANTINE_KIND Hok Happ) as [Hext Hr].
  split_and!; [apply Hext| |].
  - unfold Quarantine.latest in *. rewrite Hr, bool_decide_eq_true_2 by done.
    rewrite (fold_rows_snoc item_json _ _ _ payload i) by (by apply json_roundtrip). by rewrite Hm.
  - intros p' Hne. unfold Quarantine.latest. destruct (append_record_records codec _ _ _ _ _ _ (quarantine_scope p') QUARANTINE_KIND Hok Happ) as [_ ->].
    rewrite bool_decide_eq_false_2, app_nil_r; [done|]. intros [Heq _]. apply Hne. symmetry. by apply (inj (String.append "quarantine::")).
Qed.

(** What settling and recording do to the items of every project. *)
Definition items_ok (db : Db) : Prop := db_ok db ∧ ∀ p, ∃ m, latest db p = Ok m.

Lemma file_item_ok p i db : items_ok db → items_ok (file_item item_json codec p i db).1.
Proof.
  intros [Hok Hall]. destruct (Hall p) as [m Hm]. pose proof (file_item_spec p i db m Hok Hm) as Hs.
  destruct (file_item item_json codec p i db) as [db' [[]|]]; cbn [fst]; [|by subst]. destruct Hs as (Hok' & Hp & Ho). split; [done|].
  intros p'. destruct (String.eq_dec p' p) as [->|Hne]; [by eexists|]. rewrite Ho by done. apply Hall.
Qed.

Lemma settle_spec p id s db m :
  items_ok db → latest db p = Ok m →
  match settle item_json codec p id s db with
  | (db', Ok _) => items_ok db' ∧ (∀ p', p' ≠ p → latest db' p' = latest db p')
      ∧ latest db' p = Ok (match m !! id with Some i => <[id := with_status i s]> m | None => m end)
  | (db', Err _) => db' = db
  end.
Proof.
  intros Hok Hm. unfold settle, bind, Records.reads. rewrite (get_item _ _ _ id Hm). destruct (m !! id) as [i|] eqn:Hi; [|done].
  pose proof (file_item_spec p (with_status i s) db m (proj1 Hok) Hm) as Hs. pose proof (file_item_ok p (with_status i s) db Hok) as Hok'.
  destruct (file_item item_json codec p (with_status i s) db) as [db' [[]|]]; [|done]. destruct Hs as (_ & Hp & Ho).
  split_and!; [done|done|]. rewrite Hp. cbn [with_status item_id]. by rewrite (items_filed _ _ _ Hm _ _ Hi).
Qed.

Lemma record_spec p i db m :
  items_ok db → latest db p = Ok m →
  match record item_json codec p i db with
  | (db', Ok b) => items_ok db' ∧ (∀ p', p' ≠ p → latest db' p' = latest db p') ∧ b = bool_decide (m !! item_id i = None)
      ∧ latest db' p = Ok (match m !! item_id i with Some _ => m | None => <[item_id i := i]> m end)
  | (db', Err _) => db' = db
  end.
Proof.
  intros Hok Hm. unfold record, bind, Records.reads. rewrite (get_item _ _ _ _ Hm). destruct (m !! item_id i) as [i'|] eqn:Hi; [done|].
  pose proof (file_item_spec p i db m (proj1 Hok) Hm) as Hs. pose proof (file_item_ok p i db Hok) as Hok'.
  destruct (file_item item_json codec p i db) as [db' [[]|]]; [|done]. by destruct Hs as (_ & Hp & Ho).
Qed.
End index_facts.

(** ** Payloads apart *)

Section payload_facts.
Context `{SignedTextLaws}.

Lemma suffix_inj (suffix a b : string) : a +:+ suffix = b +:+ suffix → a = b.
Proof. intros Heq. pose proof (strip_suffix_append suffix a) as Ha. rewrite Heq, strip_suffix_append in Ha. congruence. Qed.

Lemma hex_no_s bs : Forall is_octet bs → contains_char "s" (hex_encode bs) = false.
Proof. intros Hb. eapply hex_decode_digits; [by apply hex_roundtrip|done]. Qed.

Lemma plain_not_hashed a b : Forall is_octet a → hex_encode a +:+ ".item" ≠ HASHED_FILE_NAME_PREFIX +:+ b.
Proof.
  intros Ha Heq. pose proof (hex_no_s a Ha) as Hs. destruct (hex_encode a) as [|c r]; [discriminate Heq|].
  rewrite append_cons in Heq. unfold HASHED_FILE_NAME_PREFIX in Heq. rewrite append_cons in Heq. injection Heq as -> _. discriminate Hs.
Qed.

Lemma fitted_file_name_inj a b :
  fitted_file_name (bytes_of a) ".item" = fitted_file_name (bytes_of b) ".item" → a = b ∨ sha256 (bytes_of a) = sha256 (bytes_of b).
Proof.
  unfold fitted_file_name. repeat case_bool_decide; intros Heq.
  - left. apply suffix_inj, hex_encode_inj in Heq; [by apply (inj bytes_of)|apply bytes_of_octets..].
  - by apply plain_not_hashed in Heq; [|apply bytes_of_octets].
  - symmetry in Heq. by apply plain_not_hashed in Heq; [|apply bytes_of_octets].
  - right. apply (inj (String.append HASHED_FILE_NAME_PREFIX)), suffix_inj, hex_encode_inj in Heq; [done|apply sha256_octets..].
Qed.

(** Custody keeps payloads apart: what was put for an item is what is read back for it, and
    putting it changes what no other item of any project reads, up to a collision of SHA-256
    on names too long to spell; a project whose name is no directory name gets nothing. *)
Theorem payloads_apart (payloads payloads' : Payloads) p id bytes :
  put payloads p id bytes = (payloads', Ok ()) →
  valid_project_id p = true ∧ read payloads' p id = Ok bytes
  ∧ ∀ p' id', (p', id') ≠ (p, id) → id' = id ∨ sha256 (bytes_of id') ≠ sha256 (bytes_of id) → read payloads' p' id' = read payloads p' id'.
Proof.
  unfold put, read, item_path. destruct (valid_project_id p) eqn:Hv; [|done]. intros [= <-]. split_and!; [done|cbn beta iota; by rewrite lookup_insert_eq|].
  intros p' id' Hne Hc. destruct (valid_project_id p'); [|done]. cbn beta iota. rewrite lookup_insert_ne; [done|].
  intros [= -> Heq]. apply fitted_file_name_inj in Heq as [->|Heq]; [done|]. by destruct Hc as [->|].
Qed.
End payload_facts.

(** ** The gate is the only door *)

Section door.
Context `{ST : SignedTexts}.
Context (item_json : Json QuarantinedItem) (codec : option ContentCodec) `{!CodecLaws codec, !JsonLaws item_json}.

Notation latest := (latest item_json codec).
Notation items_ok := (items_ok item_json codec).

(** A verdict does exactly what it says. Without a record it is an error; a second verdict
    answers what the first said and moves nothing; a flag rejects and moves nothing; a keep
    writes the payload held at that moment at the item's path, and nothing else. When the
    record of a verdict cannot be written the item stays pending, though a keep has moved its
    bytes: the two are not one operation. *)
Lemma verdict_outcome payloads p id verdict db wt m db' wt' r :
  items_ok db → latest db p = Ok m → apply_verdict item_json codec payloads p id verdict db wt = (db', wt', r) →
  match m !! id with
  | None => db' = db ∧ wt' = wt ∧ r = Err (NotFound "no such quarantined item")
  | Some i =>
      match status i with
      | Approved path => db' = db ∧ wt' = wt ∧ r = Ok (Some path)
      | Rejected => db' = db ∧ wt' = wt ∧ r = Ok None
      | Pending =>
          let outcome := match verdict with Keep => Approved (approved_path id) | Flag => Rejected end in
          let landed := match verdict with Keep => Some (approved_path id) | Flag => None end in
          wt' = (match verdict, read payloads p id with
                 | Keep, Ok bytes => <[(p, approved_path id) := bytes]> wt
                 | _, _ => wt
                 end)
          ∧ (r = Ok landed ∧ (verdict = Keep → ∃ bytes, read payloads p id = Ok bytes)
             ∧ latest db' p = Ok (<[id := with_status i outcome]> m) ∧ (∀ p', p' ≠ p → latest db' p' = latest db p')
             ∨ (∃ e, r = Err e) ∧ db' = db)
      end
  end ∧ items_ok db'.
Proof.
  intros Hok Hm Hop. unfold apply_verdict in Hop. rewrite (get_item item_json codec _ _ _ id Hm) in Hop.
  destruct (m !! id) as [i|] eqn:Hi; [|by injection Hop as <- <- <-].
  destruct (status i) eqn:Hs; [|by injection Hop as <- <- <-|by injection Hop as <- <- <-].
  pose proof (λ s, settle_spec item_json codec p id s db m Hok Hm) as Hset. rewrite Hi in Hset. unfold store_error in Hop. destruct verdict.
  - destruct (read payloads p id) as [bytes|e] eqn:Hb.
    + specialize (Hset (Approved (approved_path id))). destruct (settle _ _ _ _ _ db) as [db1 [[]|f]]; cbn [fst snd] in Hop; injection Hop as <- <- <-.
      * destruct Hset as (Hok' & Ho & Hl). split; [|done]. split; [done|]. left. split_and!; [done|by exists bytes|done|done].
      * subst db1. split; [|done]. split; [done|]. right. split; [by eexists|done].
    + injection Hop as <- <- <-. split; [|done]. split; [done|]. right. split; [by eexists|done].
  - specialize (Hset Rejected). destruct (settle _ _ _ _ _ db) as [db1 [[]|f]]; cbn [fst snd] in Hop; injection Hop as <- <- <-.
    + destruct Hset as (Hok' & Ho & Hl). split; [|done]. split; [done|]. left. by split_and!.
    + subst db1. split; [|done]. split; [done|]. right. split; [by eexists|done].
Qed.
End door.

(** ** Histories of a project's quarantine *)

Section world.
Context `{ST : SignedTexts}.
Context (item_json : Json QuarantinedItem) (codec : option ContentCodec) `{!CodecLaws codec, !JsonLaws item_json}.

Notation latest := (latest item_json codec).
Notation items_ok := (items_ok item_json codec).

Record World := mkWorld { w_db : Db; w_payloads : Payloads; w_files : Worktrees }.

Inductive Op :=
| Arrive (project_id : string) (i : QuarantinedItem) (plaintext : list N)
| Rule (project_id id : string) (verdict : Verdict)
| Discard (project_id id : string).

Definition step (w : World) (op : Op) : World :=
  match op with
  | Arrive p i plaintext => let '(db, payloads, _) := arrive item_json codec p i plaintext (w_db w) (w_payloads w) in mkWorld db payloads (w_files w)
  | Rule p id v => let '(db, files, _) := apply_verdict item_json codec (w_payloads w) p id v (w_db w) (w_files w) in mkWorld db (w_payloads w) files
  | Discard p id => mkWorld (w_db w) (discard (w_payloads w) p id).1 (w_files w)
  end.

Definition run (ops : list Op) (w : World) : World := foldl step w ops.

Definition item_of (w : World) (p id : string) : option QuarantinedItem :=
  match latest (w_db w) p with Ok m => m !! id | Err _ => None end.

(** One operation keeps the index readable and every ruling, and writes a file only for a
    kept pending item. *)
Lemma step_spec w op :
  items_ok (w_db w) →
  items_ok (w_db (step w op))
  ∧ (∀ p id i, item_of w p id = Some i → status i ≠ Pending → item_of (step w op) p id = Some i)
  ∧ ∀ key, w_files (step w op) !! key ≠ w_files w !! key →
      ∃ p id i bytes, op = Rule p id Keep ∧ item_of w p id = Some i ∧ status i = Pending ∧ read (w_payloads w) p id = Ok bytes
        ∧ key = (p, approved_path id) ∧ w_files (step w op) !! key = Some bytes.
Proof.
  intros Hok. destruct op as [p i plaintext|p id v|p id]; [| |by split_and!].
  - cbn [step]. unfold arrive. destruct (put _ _ _ _) as [pl [[]|]]; [|by split_and!].
    destruct (proj2 Hok p) as [m Hm]. pose proof (record_spec item_json codec p i (w_db w) m Hok Hm) as Hr. unfold store_error.
    destruct (record _ _ p i (w_db w)) as [db [b|f]]; cbn [fst snd w_db w_files]; [|subst db; by split_and!].
    destruct Hr as (Hok' & Ho & _ & Hp). split_and!; [done| |done]. intros p' id' i' Hi' Hs. unfold item_of in *. cbn [w_db].
    destruct (String.eq_dec p' p) as [->|Hne]; [|by rewrite Ho]. rewrite Hp. rewrite Hm in Hi'.
    destruct (m !! item_id i) eqn:Hl; [done|]. rewrite lookup_insert_ne; [done|congruence].
  - cbn [step]. destruct (apply_verdict item_json codec (w_payloads w) p id v (w_db w) (w_files w)) as [[db files] r] eqn:Hop.
    destruct (proj2 Hok p) as [m Hm]. destruct (verdict_outcome item_json codec _ _ _ _ _ _ _ _ _ _ Hok Hm Hop) as [Hcase Hok'].
    cbn [w_db w_files]. split; [done|]. unfold item_of. cbn [w_db].
    destruct (m !! id) as [i|] eqn:Hi; [|destruct Hcase as (-> & -> & _); by split].
    destruct (status i) eqn:Hs; [|destruct Hcase as (-> & -> & _); by split..]. destruct Hcase as [-> Hset]. split.
    + intros p' id' i' Hi' Hs'. destruct Hset as [(_ & _ & Hl & Ho)|[_ ->]]; [|done].
      destruct (String.eq_dec p' p) as [->|Hne]; [|by rewrite Ho]. rewrite Hl, Hm in *. rewrite lookup_insert_ne; [done|congruence].
    + intros key Hne. destruct v; [|done]. destruct (read (w_payloads w) p id) as [bytes|] eqn:Hb; [|done].
      destruct (base.decide (key = (p, approved_path id))) as [->|Hk]; [|by rewrite lookup_insert_ne in Hne].
      exists p, id, i, bytes. rewrite Hm, lookup_insert_eq. by split_and!.
Qed.

Lemma run_ok ops w : items_ok (w_db w) → items_ok (w_db (run ops w)).
Proof. revert w. induction ops as [|op ops IH]; intros w Hok; [done|]. apply IH. by apply step_spec. Qed.

(** C15: The gate is the only door, and it opens once. In every history of arrivals, verdicts and
    discards, what the gate ruled stands, so an item it rejected never becomes a file and one
    it approved is not written again; and every file that differs at the end holds the bytes
    that were held for a pending item at the moment a verdict kept it, at that item's path. *)
Theorem gate_only_door ops w :
  items_ok (w_db w) →
  (∀ p id i, item_of w p id = Some i → status i ≠ Pending → item_of (run ops w) p id = Some i)
  ∧ ∀ key, w_files (run ops w) !! key ≠ w_files w !! key →
      ∃ before after p id i bytes, ops = before ++ Rule p id Keep :: after
        ∧ item_of (run before w) p id = Some i ∧ status i = Pending ∧ read (w_payloads (run before w)) p id = Ok bytes
        ∧ key = (p, approved_path id) ∧ w_files (run ops w) !! key = Some bytes.
Proof.
  intros Hok. induction ops as [|op ops IH] using rev_ind; [split; [done|by intros key []]|]. destruct IH as [Hstand Hdoor].
  unfold run. rewrite foldl_app. cbn [foldl]. fold (run ops w). destruct (step_spec (run ops w) op (run_ok ops w Hok)) as (_ & Hs & Hf). split.
  - intros p id i Hi Hne. apply Hs; [|done]. by apply Hstand.
  - intros key Hne. destruct (base.decide (w_files (step (run ops w) op) !! key = w_files (run ops w) !! key)) as [Heq|Hch].
    + rewrite Heq in Hne. destruct (Hdoor key Hne) as (before & after & p & id & i & bytes & Hops & Hrest). rewrite Heq.
      exists before, (after ++ [op]), p, id, i, bytes. split; [|done]. by rewrite Hops, <-app_assoc.
    + destruct (Hf key Hch) as (p & id & i & bytes & -> & Hrest). exists ops, [], p, id, i, bytes. by split.
Qed.
End world.

(** ** Isolation *)

Lemma normalize_append root rel :
  root ≠ "" → (∀ c, c ∈ omap (part false) (split_on "/" rel) → c ≠ ParentDir) →
  normalize (root +:+ "/" +:+ rel) = normalize root ++ omap (part false) (split_on "/" rel).
Proof.
  intros Hroot Hrel. assert (components (root +:+ "/" +:+ rel) = components root ++ omap (part false) (split_on "/" rel)) as Hc.
  { unfold components. change ("/" +:+ rel) with (String "/" rel). rewrite split_on_append. pose proof (split_on_nonempty "/" root) as Hn.
    destruct (split_on "/" root) as [|first rest]; [done|]. cbn [app].
    assert (has_prefix "/" (root +:+ String "/" rel) = has_prefix "/" root) as ->.
    { unfold has_prefix. destruct root as [|c root]; [done|]. rewrite append_cons. cbn [strip_prefix]. by destruct (Ascii.eqb "/" c). }
    rewrite omap_app. destruct (has_prefix "/" root); [done|]. by rewrite app_assoc. }
  unfold normalize. rewrite Hc, foldl_app. generalize (foldl normalize_step [] (components root)) as out.
  assert (∀ c, c ∈ omap (part false) (split_on "/" rel) → c ≠ CurDir) as Hcur.
  { intros c (p & _ & Hp)%list_elem_of_omap ->. unfold part in Hp. by repeat case_match. }
  revert Hrel Hcur. generalize (omap (part false) (split_on "/" rel)) as cs. induction cs as [|c cs IH]; intros Hp Hcur out; cbn [foldl]; [by rewrite app_nil_r|].
  rewrite IH by (intros; (apply Hp || apply Hcur); by right). pose proof (Hp c (list_elem_of_here _ _)). pose proof (Hcur c (list_elem_of_here _ _)).
  destruct c; cbn [normalize_step]; try done; by rewrite <-app_assoc.
Qed.

(** The boundary is a path boundary. When the check reports no violation, no path that an
    agent can name below one of its roots without climbing is the quarantine's directory or
    lies in it. *)
Theorem isolation_holds quarantine roots :
  isolation_violations quarantine roots = [] →
  ∀ root rel, root ∈ roots → root ≠ "" → (∀ c, c ∈ omap (part false) (split_on "/" rel) → c ≠ ParentDir) →
  ¬ normalize quarantine `prefix_of` normalize (root +:+ "/" +:+ rel).
Proof.
  intros Hv root rel Hin Hroot Hrel Hpre. assert (reaches (normalize quarantine) (normalize root) = true) as Hr.
  { rewrite normalize_append in Hpre by done. unfold reaches. apply orb_true_iff. rewrite !bool_decide_eq_true.
    eapply prefix_weak_total; [exact Hpre|by eexists]. }
  assert (root ∈ isolation_violations quarantine roots) as Hbad by (apply list_elem_of_In, filter_In; split; [by apply list_elem_of_In|done]).
  rewrite Hv in Hbad. by apply elem_of_nil in Hbad.
Qed.

(** ** The properties at concrete inputs *)

Module QuarantineSample.
#[export] Existing Instances SampleTexts.sample_p256 SampleTexts.sample_texts SampleTexts.sample_text_laws.

Definition new_item (id : string) : QuarantinedItem :=
  mkItem id "collection:d" None None None "s" "r" 1 "survey/v1" 1 100 105 Pending.
Definition first : QuarantinedItem := new_item "s:1:2".
Definition second : QuarantinedItem := new_item "s-1:2".
Definition kept (i : QuarantinedItem) : QuarantinedItem := with_status i (Approved "inbound/s-1-2.json").
Definition item_json : Json QuarantinedItem := table_json
  [("first", first); ("second", second); ("first kept", kept first); ("second kept", kept second)].
#[export] Instance item_laws : JsonLaws item_json.
Proof. apply table_json_laws. vm_compute. repeat constructor; set_solver. Defined.
#[export] Instance plain_laws : CodecLaws None.
Proof. intros c scope kind plain stored. discriminate. Qed.

Definition start : World := mkWorld empty_db ∅ ∅.
Notation run := (run item_json None).
Definition path : string * string := ("p", "inbound/s-1-2.json").

Lemma world_start_ok : items_ok item_json None (w_db start).
Proof. split; [exact empty_db_ok|]. intros p. by exists ∅. Qed.

Definition kept_once : list Op := [Arrive "p" first [1%N]; Arrive "p" second [2%N]; Rule "p" "s:1:2" Keep].

Lemma gate_only_door_witness :
  ∃ before after p id i, kept_once = before ++ Rule p id Keep :: after ∧ item_of item_json None (run before start) p id = Some i ∧ status i = Pending.
Proof.
  destruct (proj2 (gate_only_door item_json None kept_once start world_start_ok) path) as (before & after & p & id & i & _ & Hops & Hi & Hs & _).
  { assert (w_files (run kept_once start) !! path = Some [1%N]) as H by (vm_compute; reflexivity). rewrite H. vm_compute. discriminate. }
  exists before, after, p, id, i. split; [exact Hops|]. split; [exact Hi|exact Hs].
Defined.

Lemma payloads_apart_witness :
  put ∅ "p" "a" [1%N] = (<[("p", "61.item") := [1%N]]> ∅, Ok ()) ∧ read (<[("p", "61.item") := [1%N]]> ∅) "p" "a" = Ok [1%N].
Proof.
  assert (put ∅ "p" "a" [1%N] = (<[("p", "61.item") := [1%N]]> ∅, Ok ())) as H by (vm_compute; reflexivity).
  split; [exact H|]. exact (proj1 (proj2 (payloads_apart _ _ _ _ _ H))).
Defined.

Lemma isolation_holds_witness :
  ¬ normalize "/home/state/quarantine" `prefix_of` normalize ("/home/state/x/../targets" +:+ "/" +:+ "p/repo").
Proof.
  apply (isolation_holds "/home/state/quarantine" ["/home/state/x/../targets"]).
  - vm_compute. reflexivity.
  - left.
  - discriminate.
  - assert (omap (part false) (split_on "/" "p/repo") = [Normal "p"; Normal "repo"]) as H by (vm_compute; reflexivity). rewrite H.
    intros c Hc ->. apply elem_of_cons in Hc as [Hc|Hc]; [discriminate Hc|]. apply list_elem_of_singleton in Hc. discriminate Hc.
Defined.

(** Two kept items share a path: the second replaces what the first was approved for, and
    the index still says the first is there. *)
Example approval_overwritten :
  let w := run (kept_once ++ [Rule "p" "s-1:2" Keep]) start in
  item_of item_json None w "p" "s:1:2" = Some (kept first) ∧ item_of item_json None w "p" "s-1:2" = Some (kept second)
  ∧ w_files w !! path = Some [2%N].
Proof. vm_compute. repeat split. Qed.

(** A second arrival of a pending item is not recorded, but its bytes replace those that
    were there to be reviewed. *)
Example payload_swapped :
  let w := run [Arrive "p" first [1%N]; Arrive "p" first [9%N]; Rule "p" "s:1:2" Keep] start in
  item_of item_json None w "p" "s:1:2" = Some (kept first) ∧ w_files w !! path = Some [9%N].
Proof. vm_compute. repeat split. Qed.
End QuarantineSample.
