(* ===== verification/AuditTimeline.v ===== *)
(** * The audit timeline

    [crates/app/src/audit.rs] over the store: governance actions as a hash chain of
    records whose link is resolved inside the appending transaction, signed checkpoints
    of its head, verification, the exporters an entry is streamed to, and the CSV of the
    timeline. [serde_json] is an argument; entries and checkpoints are texts and numbers,
    which always serialize. *)

From Stdlib Require Import Ascii.
From stdpp Require Import pretty.
From S2P Require Import Prelude Ids Federation Lifecycle Store Records SignedText.

Record AuditEntry := mkEntry { actor : string; action : string; target : string; prev : string }.

#[export] Instance AuditEntry_eq_dec : EqDecision AuditEntry.
Proof. solve_decision. Defined.

Record Checkpoint := mkCheckpoint { count : nat; cp_head : string; cp_authority : string; cp_sig : Signature }.

#[export] Instance SignatureError_eq_dec : EqDecision SignatureError.
Proof. solve_decision. Defined.

(** [serde_json] of the two. *)
Class AuditJson := {
  entry_to_json : AuditEntry → string;
  entry_from_json : string → option AuditEntry;
  checkpoint_to_json : Checkpoint → string;
  checkpoint_from_json : string → option Checkpoint;
}.

Class AuditJsonLaws (J : AuditJson) : Prop := {
  entry_roundtrip e : entry_from_json (entry_to_json e) = Some e;
  checkpoint_roundtrip c : checkpoint_from_json (checkpoint_to_json c) = Some c;
}.

(** ** Scopes *)

Definition ORG_SCOPE : string := "org".
Definition AUDIT_SCOPE : string := "audit".
Definition AUDIT_CHECKPOINT_SCOPE : string := "audit_checkpoint".

Definition scope_for (store_scope : string) : string :=
  if String.eqb store_scope ORG_SCOPE then AUDIT_SCOPE else AUDIT_SCOPE +:+ "::" +:+ store_scope.
Definition checkpoint_scope_for (store_scope : string) : string :=
  if String.eqb store_scope ORG_SCOPE then AUDIT_CHECKPOINT_SCOPE
  else AUDIT_CHECKPOINT_SCOPE +:+ "::" +:+ store_scope.

Definition ENTRY : string := "entry".
Definition CHECKPOINT : string := "checkpoint".

(** ** The chain *)

Definition GENESIS : string := "".

(** [{}:{}] of a length and a text *)
Definition prefixed (s : string) : string := pretty (N.of_nat (String.length s)) +:+ ":" +:+ s.

Definition canon (e : AuditEntry) : string :=
  prefixed (prev e) +:+ "|" +:+ prefixed (actor e) +:+ "|" +:+ prefixed (action e) +:+ "|" +:+ prefixed (target e).

Section audit.
Context `{SignedTexts} `{!Signing} `{AuditJson} (codec : option ContentCodec).

Definition entry_hash (e : AuditEntry) : string := sha256_hex (bytes_of (canon e)).

Definition head_of (entries : list AuditEntry) : string :=
  match last entries with Some e => entry_hash e | None => GENESIS end.

Definition list_in (db : Db) (store_scope : string) : list AuditEntry :=
  omap entry_from_json (records codec db (scope_for store_scope) ENTRY).

Definition head_hash_in (db : Db) (store_scope : string) : string := head_of (list_in db store_scope).

Definition link (who what whom : string) (previous : option string) : string :=
  let prev := match previous ≫= entry_from_json with Some e => entry_hash e | None => GENESIS end in
  entry_to_json (mkEntry who what whom prev).

(** ** Checkpoints *)

Definition checkpoint_msg (count : nat) (head : string) : list N :=
  bytes_of (pretty (N.of_nat count) +:+ ":" +:+ head).

(** A failed append is ignored. *)
Definition sign_checkpoint_in (db : Db) (store_scope : string) (key : P256SigningKey) (authority : string) : Db :=
  let entries := list_in db store_scope in
  let count := length entries in
  let head := head_of entries in
  let cp := mkCheckpoint count head authority (sign key (checkpoint_msg count head)) in
  (append_record codec db (checkpoint_scope_for store_scope) CHECKPOINT (checkpoint_to_json cp)).1.

Definition latest_checkpoint_in (db : Db) (store_scope : string) : option Checkpoint :=
  last (omap checkpoint_from_json (records codec db (checkpoint_scope_for store_scope) CHECKPOINT)).

(** ** Verification *)

Record AuditIntegrity := mkIntegrity {
  ok : bool;
  entries : nat;
  head : string;
  broken_at : option nat;
  anchored : bool;
}.

(** The index of the first broken link, and the running head. *)
Fixpoint walk (i : nat) (running : string) (l : list AuditEntry) : option nat * string :=
  match l with
  | [] => (None, running)
  | e :: l => if String.eqb (prev e) running then walk (S i) (entry_hash e) l else (Some i, running)
  end.

Definition anchor_holds (expected : option PublicKey) (l : list AuditEntry) (cp : Checkpoint) : bool :=
  match expected with
  | Some pk => bool_decide (verify_signature (checkpoint_msg (count cp) (cp_head cp)) (cp_sig cp) pk = Ok true)
  | None => false
  end
  && bool_decide (count cp ≤ length l) && String.eqb (head_of (take (count cp) l)) (cp_head cp).

Definition verify_in (db : Db) (store_scope : string) (expected : option PublicKey) : AuditIntegrity :=
  let l := list_in db store_scope in
  let '(broken, running) := walk 0 GENESIS l in
  let cp := latest_checkpoint_in db store_scope in
  let ok := bool_decide (broken = None) && match cp with Some cp => anchor_holds expected l cp | None => true end in
  mkIntegrity ok (length l) (if ok then running else "") broken (bool_decide (is_Some cp)).

(** ** Recording *)

(** [trait AuditSink] *)
Class AuditSink (S : Type) := emit : S → AuditEntry → S.

Record Bench (S : Type) := mkBench {
  store : Db;
  audit_signer : option P256SigningKey;
  authority : string;
  audit_sink : option S;
}.
Arguments mkBench {S}.
Arguments store {S}.
Arguments audit_signer {S}.
Arguments authority {S}.
Arguments audit_sink {S}.

Definition finish_committed_in {S} `{!AuditSink S} (b : Bench S) (store_scope : string) (e : AuditEntry) : Bench S :=
  let db := match audit_signer b with
            | Some key => sign_checkpoint_in (store b) store_scope key (authority b)
            | None => store b
            end in
  mkBench db (audit_signer b) (authority b) ((λ s, emit s e) <$> audit_sink b).

Definition record_required_in {S} `{!AuditSink S} (b : Bench S) (store_scope who what whom : string)
    : Bench S * result failure unit :=
  match append_chained_record codec (store b) (scope_for store_scope) ENTRY (link who what whom) with
  | (db, Err e) => (mkBench db (audit_signer b) (authority b) (audit_sink b), Err e)
  | (db, Ok (_, payload)) =>
      let b := mkBench db (audit_signer b) (authority b) (audit_sink b) in
      match entry_from_json payload with
      | Some e => (finish_committed_in b store_scope e, Ok ())
      | None => (b, fail AE_Json)
      end
  end.

Definition record_in {S} `{!AuditSink S} (b : Bench S) (store_scope who what whom : string) : Bench S :=
  (record_required_in b store_scope who what whom).1.

End audit.
Arguments mkBench {_ _ S}.
Arguments store {_ _ S}.
Arguments audit_signer {_ _ S}.
Arguments authority {_ _ S}.
Arguments audit_sink {_ _ S}.

(** ** Exporters *)

(** The structured log, and the in-memory sink. *)
Record LogAuditSink := mkLogSink { logged : list AuditEntry }.
#[export] Instance log_emit : AuditSink LogAuditSink := λ s e, mkLogSink (logged s ++ [e]).

Record BufferAuditSink := mkBufferSink { buffered : list AuditEntry }.
#[export] Instance buffer_emit : AuditSink BufferAuditSink := λ s e, mkBufferSink (buffered s ++ [e]).

Definition DEFAULT_AUDIT_EXPORT_BUFFER : nat := 1024.

Section http.
(** [trait HttpPost]: the collector is a state; a post gives its answer, a status or a
    transport error. *)
Context {Collector : Type} (post : Collector → string → list (string * string) → string → Collector * result string N).
Context `{AuditJson}.

(** [pending] is under its mutex, the counters are atomics of 64 bits. *)
Record HttpAuditSink := mkHttpSink {
  url : string;
  headers : list (string * string);
  pending : list AuditEntry;
  max_buffer : nat;
  failures : N;
  dropped : N;
  collector : Collector;
  accepted : list AuditEntry;
}.

#[export] Instance HttpAuditSink_eta : Eta HttpAuditSink := mkEta (λ s,
  mkHttpSink (url s) (headers s) (pending s) (max_buffer s) (failures s) (dropped s) (collector s) (accepted s)).

Definition http_new (c : Collector) (u : string) : HttpAuditSink :=
  mkHttpSink u [] [] DEFAULT_AUDIT_EXPORT_BUFFER 0 0 c [].
Definition with_header (s : HttpAuditSink) (name value : string) : HttpAuditSink :=
  s <| headers := headers s ++ [(name, value)] |>.
Definition with_max_buffer (s : HttpAuditSink) (n : nat) : HttpAuditSink := s <| max_buffer := Nat.max n 1 |>.

(** [200..300] *)
Definition success (answer : result string N) : bool :=
  match answer with Ok status => bool_decide (200 ≤ status < 300)%N | Err _ => false end.

(** [accepted] is what the collector was sent and answered with success. *)
Definition try_export (s : HttpAuditSink) (e : AuditEntry) : HttpAuditSink * bool :=
  let '(c, answer) := post (collector s) (url s) (headers s) (entry_to_json e) in
  let s := s <| collector := c |> in
  if success answer then (s <| accepted := accepted s ++ [e] |>, true)
  else (s <| failures := u64_add (failures s) 1 |>, false).

(** One thread at a time: the front that is sent is the front that is removed. *)
Fixpoint flush_from (s : HttpAuditSink) (backlog : list AuditEntry) : HttpAuditSink :=
  match backlog with
  | [] => s <| pending := [] |>
  | front :: rest =>
      let '(s, sent) := try_export s front in
      if sent then flush_from s rest else s <| pending := front :: rest |>
  end.

Definition flush (s : HttpAuditSink) : HttpAuditSink := flush_from s (pending s).

Definition buffer (s : HttpAuditSink) (e : AuditEntry) : HttpAuditSink :=
  let s := if max_buffer s <=? length (pending s)
           then s <| pending := tail (pending s) |> <| dropped := u64_add (dropped s) 1 |>
           else s in
  s <| pending := pending s ++ [e] |>.

Definition http_emit (s : HttpAuditSink) (e : AuditEntry) : HttpAuditSink :=
  let s := flush s in
  let '(s, sent) := try_export s e in
  if sent then s else buffer s e.

#[export] Instance http_sink : AuditSink HttpAuditSink := http_emit.
End http.

(** ** CSV *)

Definition quote : ascii := "034"%char.

(** [s.replace] of a quote by two *)
Fixpoint double_quotes (s : string) : string :=
  match s with
  | EmptyString => EmptyString
  | String c s => if Ascii.eqb c quote then String quote (String quote (double_quotes s)) else String c (double_quotes s)
  end.

Definition csv_field (s : string) : string := String quote (double_quotes s +:+ String quote "").

Definition csv_row (e : AuditEntry) : string :=
  csv_field (actor e) +:+ "," +:+ csv_field (action e) +:+ "," +:+ csv_field (target e) +:+ String lf "".

Definition to_csv (l : list AuditEntry) : string :=
  "actor,action,target" +:+ String lf "" +:+ String.concat "" (csv_row <$> l).

(** ** Facts of the encoding *)

Lemma prefixed_inj s s' rest rest' : prefixed s +:+ rest = prefixed s' +:+ rest' → s = s' ∧ rest = rest'.
Proof.
  unfold prefixed. intros Heq. rewrite !append_assoc in Heq. simpl in Heq.
  apply append_sep_inj in Heq as [Hl Heq]; [|apply pretty_without; intros k; unfold pretty_N_char; by repeat case_match..].
  apply append_length_inj in Heq; [done|]. by apply (inj pretty), (inj N.of_nat) in Hl.
Qed.

(** No two entries have one text. *)
#[export] Instance canon_inj : Inj (=) (=) canon.
Proof.
  intros [a b c d] [a' b' c' d'] Heq. unfold canon in Heq. simpl in Heq.
  apply prefixed_inj in Heq as [-> Heq]. injection Heq as Heq. apply prefixed_inj in Heq as [-> Heq].
  injection Heq as Heq. apply prefixed_inj in Heq as [-> Heq]. injection Heq as Heq.
  rewrite append_nil in Heq. assert (prefixed c +:+ "" = prefixed c' +:+ "") as [-> _]%prefixed_inj by (by rewrite Heq). done.
Qed.

Lemma scope_for_inj a b : scope_for a = scope_for b → a = b.
Proof.
  unfold scope_for. destruct (String.eqb_spec a ORG_SCOPE) as [->|], (String.eqb_spec b ORG_SCOPE) as [->|]; intros Heq;
    [done|done|done|by injection Heq].
Qed.

Lemma checkpoint_scope_for_inj a b : checkpoint_scope_for a = checkpoint_scope_for b → a = b.
Proof.
  unfold checkpoint_scope_for. destruct (String.eqb_spec a ORG_SCOPE) as [->|], (String.eqb_spec b ORG_SCOPE) as [->|]; intros Heq;
    [done|done|done|by injection Heq].
Qed.

(** ** Chains *)

Section chains.
Context `{SignedTextLaws} `{!AnchorLaws (λ raw, sha256_hex (bytes_of raw))}.

(** Each entry holds the hash of the one before it. *)
Fixpoint linked (running : string) (l : list AuditEntry) : Prop :=
  match l with
  | [] => True
  | e :: l => prev e = running ∧ linked (entry_hash e) l
  end.

(** SHA-256 gives these two entries one digest, though their texts differ. *)
Definition collision (e e' : AuditEntry) : Prop := collides (bytes_of (canon e)) (bytes_of (canon e')).

(** Two chains meet in a collision: the entries after some place are the same in both,
    and the two entries at it collide. *)
Definition forked (l l' : list AuditEntry) : Prop :=
  ∃ before e before' e' after,
    l = before ++ e :: after ∧ l' = before' ++ e' :: after ∧ collision e e'.

Lemma forked_snoc l l' e : forked l l' → forked (l ++ [e]) (l' ++ [e]).
Proof.
  intros (b & x & b' & x' & a & -> & -> & Hc). exists b, x, b', x', (a ++ [e]).
  by rewrite <-!app_assoc.
Qed.

Definition end_of (running : string) (l : list AuditEntry) : string :=
  match last l with Some e => entry_hash e | None => running end.

Lemma end_of_cons running e l : end_of running (e :: l) = end_of (entry_hash e) l.
Proof. unfold end_of. rewrite last_cons. by destruct (last l). Qed.

Lemma walk_linked l : ∀ i running, linked running l → walk i running l = (None, end_of running l).
Proof.
  induction l as [|e l IH]; intros i running; [done|]. intros [Hp Hl]. cbn [walk]. rewrite Hp, String.eqb_refl, IH by done.
  by rewrite end_of_cons.
Qed.

Lemma walk_none l : ∀ i running h, walk i running l = (None, h) → linked running l.
Proof.
  induction l as [|e l IH]; intros i running h; [done|]. cbn [walk].
  destruct (String.eqb_spec (prev e) running); [|done]. intros Hl. split; [done|by eapply IH].
Qed.

Lemma linked_app running l l' : linked running (l ++ l') ↔ linked running l ∧ linked (end_of running l) l'.
Proof.
  revert running. induction l as [|e l IH]; intros running; [simpl; tauto|]. rewrite end_of_cons. cbn [linked app].
  rewrite IH. tauto.
Qed.

Lemma linked_index running l :
  linked running l ↔ ∀ k e, l !! k = Some e → prev e = end_of running (take k l).
Proof.
  revert running. induction l as [|x l IH]; intros running; [by split|]. cbn [linked]. rewrite IH. split.
  - intros [Hp Hl] [|k] e He; [by injection He as <-|]. cbn [take]. rewrite end_of_cons. by apply Hl.
  - intros Hall. split; [by apply (Hall 0)|]. intros k e He. rewrite <-(end_of_cons running). by apply (Hall (S k)).
Qed.

Lemma hash_inj e e' : entry_hash e = entry_hash e' → e = e' ∨ collision e e'.
Proof.
  intros [Heq|]%sha256_hex_collision; [left|by right].
  by apply (inj canon), (inj bytes_of).
Qed.

Lemma hash_not_genesis e : entry_hash e ≠ GENESIS.
Proof.
  intros Heq. pose proof (anchor_length (anchor := λ raw, sha256_hex (bytes_of raw)) (canon e)) as Hl.
  change (String.length (entry_hash e) = 64) in Hl. by rewrite Heq in Hl.
Qed.

(** A head determines the whole chain. *)
Lemma chain_determined l : ∀ l', linked GENESIS l → linked GENESIS l' → head_of l = head_of l' → l = l' ∨ forked l l'.
Proof.
  induction l as [|e l IH] using rev_ind; intros l' Hl Hl' Heq.
  - destruct l' as [|e' l' _] using rev_ind; [by left|]. unfold head_of in Heq. rewrite last_snoc in Heq.
    symmetry in Heq. by apply hash_not_genesis in Heq.
  - destruct l' as [|e' l' _] using rev_ind; unfold head_of in Heq; rewrite ?last_snoc in Heq; [by apply hash_not_genesis in Heq|].
    destruct (hash_inj _ _ Heq) as [->|]; [|right; by exists l, e, l', e', []].
    apply linked_app in Hl as [Hl [Hp _]], Hl' as [Hl' [Hp' _]].
    destruct (IH l' Hl Hl') as [->|]; [|by left|right; by apply forked_snoc].
    change (end_of GENESIS l = end_of GENESIS l'). congruence.
Qed.

Context `{AuditJson} `{!Signing} (codec : option ContentCodec).

(** What a timeline that verifies is: every entry holds the hash of the one before it, and
    the latest checkpoint, if any, is signed under the trusted key, is no longer than the
    timeline and names the hash of the entry at its count. *)
Definition intact (key : option PublicKey) (l : list AuditEntry) (latest : option Checkpoint) : Prop :=
  (∀ k e, l !! k = Some e → prev e = head_of (take k l))
  ∧ ∀ cp, latest = Some cp →
      (∃ pk, key = Some pk ∧ verify_signature (checkpoint_msg (count cp) (cp_head cp)) (cp_sig cp) pk = Ok true)
      ∧ count cp ≤ length l ∧ head_of (take (count cp) l) = cp_head cp.

Lemma anchor_holds_ok key l cp :
  anchor_holds key l cp = true ↔
    (∃ pk, key = Some pk ∧ verify_signature (checkpoint_msg (count cp) (cp_head cp)) (cp_sig cp) pk = Ok true)
    ∧ count cp ≤ length l ∧ head_of (take (count cp) l) = cp_head cp.
Proof.
  unfold anchor_holds. rewrite !andb_true_iff, bool_decide_eq_true, String.eqb_eq.
  destruct key as [pk|]; [rewrite bool_decide_eq_true|]; naive_solver.
Qed.

Lemma walk_ok l : (walk 0 GENESIS l).1 = None ↔ linked GENESIS l.
Proof.
  split; [|by intros ->%(walk_linked l 0)]. destruct (walk 0 GENESIS l) as [broken h] eqn:Hw. cbn. intros ->. by eapply walk_none.
Qed.

Lemma verified_iff db s key :
  ok (verify_in codec db s key) = true ↔ intact key (list_in codec db s) (latest_checkpoint_in codec db s).
Proof.
  unfold intact. change (∀ k e, list_in codec db s !! k = Some e → prev e = head_of (take k (list_in codec db s)))
    with (∀ k e, list_in codec db s !! k = Some e → prev e = end_of GENESIS (take k (list_in codec db s))).
  rewrite <-linked_index, <-walk_ok. unfold verify_in.
  destruct (walk 0 GENESIS (list_in codec db s)) as [broken running]. cbn. rewrite andb_true_iff, bool_decide_eq_true.
  destruct (latest_checkpoint_in codec db s) as [cp|]; [rewrite anchor_holds_ok|]; naive_solver.
Qed.

Lemma verified_linked db s key :
  ok (verify_in codec db s key) = true →
  linked GENESIS (list_in codec db s) ∧ head (verify_in codec db s key) = head_of (list_in codec db s).
Proof.
  intros Hok. assert (linked GENESIS (list_in codec db s)) as Hl.
  { apply linked_index. by apply verified_iff in Hok as [? _]. }
  split; [done|]. revert Hok. unfold verify_in. rewrite (walk_linked _ 0 _ Hl). cbn. by intros ->.
Qed.

(** C30: History cannot be rewritten under a head. A timeline verifies exactly when every
    entry holds the hash of the one before it, and the latest checkpoint, if there is
    one, is signed under the key the verifier trusts, counts no more entries than there
    are, and names the hash of the entry at its count. Two timelines that verify with the
    same head are then the same, entry by entry; and two that verify against one
    checkpoint agree on all the entries it counts. The exception is a collision that the
    two timelines themselves exhibit: two different entries, one of each, that SHA-256
    does not tell apart, with the same entries after them. *)
Theorem audit_tamper_evident db db' s s' key key' :
  let l := list_in codec db s in
  let l' := list_in codec db' s' in
  (ok (verify_in codec db s key) = true ↔ intact key l (latest_checkpoint_in codec db s))
  ∧ (ok (verify_in codec db s key) = true → ok (verify_in codec db' s' key') = true →
       (head (verify_in codec db s key) = head (verify_in codec db' s' key') → l = l' ∨ forked l l')
       ∧ ∀ cp, latest_checkpoint_in codec db s = Some cp → latest_checkpoint_in codec db' s' = Some cp →
           count cp ≤ length l ∧ count cp ≤ length l'
           ∧ (take (count cp) l = take (count cp) l' ∨ forked (take (count cp) l) (take (count cp) l')))
  ∧ ∀ cp, ok (verify_in codec db s key) = true → latest_checkpoint_in codec db s = Some cp →
      ∀ chain, linked GENESIS chain → length chain = count cp → head_of chain = cp_head cp →
        chain `prefix_of` l ∨ forked chain (take (count cp) l).
Proof.
  intros l l'. subst l l'. assert (∀ l k, linked GENESIS l → linked GENESIS (take k l)) as Htake.
  { intros m k Hm. rewrite <-(take_drop k m) in Hm. by apply linked_app in Hm as [? _]. }
  split_and!; [apply verified_iff| |].
  - intros Hok Hok'. pose proof (verified_linked _ _ _ Hok) as [Hl Hh]. pose proof (verified_linked _ _ _ Hok') as [Hl' Hh'].
    rewrite Hh, Hh'. split; [by apply chain_determined|]. intros cp Hc Hc'.
    apply verified_iff in Hok as [_ Hi], Hok' as [_ Hi']. destruct (Hi _ Hc) as (_ & Hn & He), (Hi' _ Hc') as (_ & Hn' & He').
    split_and!; [done..|]. apply chain_determined; [by apply Htake..|]. by rewrite He, He'.
  - intros cp Hok Hc chain Hch _ Hhd. pose proof (verified_linked _ _ _ Hok) as [Hl _].
    apply verified_iff in Hok as [_ Hi]. destruct (Hi _ Hc) as (_ & _ & He).
    destruct (chain_determined chain (take (count cp) (list_in codec db s)) Hch) as [->|]; [by apply Htake|congruence| |by right].
    left. apply prefix_take.
Qed.

(** An entry that was changed in place is found. When the entry before it and the ones
    after it are as they were and there is one after it, the walk stops at the changed
    entry or at the next, or SHA-256 gives the two versions one digest. *)
Theorem edit_found before e e' next after :
  linked GENESIS (before ++ e :: next :: after) → e' ≠ e →
  (walk 0 GENESIS (before ++ e' :: next :: after)).1 = Some (length before)
  ∨ (walk 0 GENESIS (before ++ e' :: next :: after)).1 = Some (S (length before))
  ∨ collision e e'.
Proof.
  intros Hl Hne. apply linked_app in Hl as [Hb Hl]. destruct Hl as (_ & Hn & _).
  assert (∀ i running tail, linked running before →
    walk i running (before ++ tail) = walk (i + length before) (end_of running before) tail) as Hwalk.
  { clear. induction before as [|b l IH]; intros i running tail; [by rewrite Nat.add_0_r|]. intros [Hp Hl]. cbn [walk app length].
    rewrite Hp, String.eqb_refl, IH, end_of_cons by done. f_equal. lia. }
  rewrite Hwalk by done. cbn [walk]. rewrite Nat.add_0_l. destruct (String.eqb _ _); [|by left].
  destruct (String.eqb_spec (prev next) (entry_hash e')) as [Heq|]; [|right; by left].
  rewrite Hn in Heq. destruct (hash_inj _ _ Heq) as [->|]; [done|]. by do 2 right.
Qed.
End chains.

(** ** What the service keeps *)

Section timeline.
Context `{ST : SignedTexts} `{!SignedTextLaws ST} `{!AnchorLaws (λ raw, sha256_hex (bytes_of raw))}.
Context `{signing : !Signing} `{!SigningLaws ST signing} `{J : AuditJson} `{!AuditJsonLaws J}.
Context (codec : option ContentCodec) `{!CodecLaws codec}.
Context {S : Type} `{!AuditSink S}.

Definition all_open (db : Db) : Prop := ∀ r, r ∈ events db → is_Some (decode_row codec (row_scope r) r).

Lemma extends_open db db' new : extends codec db db' new → all_open db → all_open db'.
Proof. intros [He Ho _] Hall r. rewrite He, elem_of_app. intros [Hr|Hr]; [by apply Hall|by apply Ho]. Qed.

Lemma chain_head_last db scope kind :
  all_open db → tx_chain_head codec db scope kind = last (records codec db scope kind).
Proof.
  intros Ho. unfold tx_chain_head, records, decode_kind, kind_payloads.
  assert (∀ r, r ∈ order_by_position (filter (λ r, row_scope r = scope ∧ row_kind r = kind) (events db)) →
    is_Some (decode_row codec scope r)) as Hall.
  { intros r Hr. unfold order_by_position in Hr. rewrite merge_sort_Permutation in Hr.
    apply list_elem_of_filter in Hr as [[<- _] Hr]. by apply Ho. }
  revert Hall. generalize (order_by_position (filter (λ r, row_scope r = scope ∧ row_kind r = kind) (events db))).
  intros rows. induction rows as [|r rows _] using rev_ind; intros Hall; [done|].
  rewrite last_snoc, fmap_app, omap_app. destruct (Hall r) as [p Hp]; [apply elem_of_app; right; by left|].
  cbn. rewrite Hp. cbn. by rewrite last_snoc.
Qed.

(** What a committed record adds. *)
Lemma chained_committed db scope kind f db' out :
  db_ok db → append_chained_record codec db scope kind f = (db', out) →
  match out with
  | Err _ => db' = db
  | Ok (_, payload) =>
      payload = f (tx_chain_head codec db scope kind) ∧ grows codec (eq kind) db db'
      ∧ ∀ s k, records codec db' s k = records codec db s k ++ if bool_decide (scope = s ∧ kind = k) then [payload] else []
  end.
Proof.
  intros Hok. unfold append_chained_record, transaction. cbv zeta.
  destruct (encode_payload codec scope kind _) as [stored|] eqn:He; [|by intros [= <- <-]].
  destruct (insert_grows codec (eq kind) db scope kind _ stored Hok eq_refl He) as (db1 & Hins & Hg & _ & Hrows).
  rewrite Hins. intros [= <- <-]. split_and!; [done|done|]. intros s k.
  pose proof Hg as (new & Hext & _). rewrite insert_event_next in Hins by done. injection Hins as <-.
  assert (extends codec db (pushed db (mkEventRow scope (next_position db scope) kind stored))
            [mkEventRow scope (next_position db scope) kind stored]) as Hext1.
  { split; [done| |by destruct Hext]. intros r ->%list_elem_of_singleton. simpl. by erewrite encode_decode. }
  rewrite (records_extends _ _ _ _ _ _ Hok Hext1), filter_cons, filter_nil. simpl.
  case_decide as Hk; [rewrite bool_decide_eq_true_2 by done|by rewrite bool_decide_eq_false_2].
  destruct Hk as [-> ->]. simpl. by erewrite encode_decode.
Qed.

(** Other operations write other kinds. *)
Definition elsewhere (kind : string) : Prop := kind ≠ ENTRY ∧ kind ≠ CHECKPOINT.

Lemma grows_records (K : string → Prop) db db' s k : db_ok db → grows codec K db db' → ¬ K k → records codec db' s k = records codec db s k.
Proof.
  intros Hok (new & Hext & HK & _) Hk. rewrite (records_extends _ _ _ _ _ _ Hok Hext).
  rewrite (filter_keeps_none _ new); [by rewrite app_nil_r|]. intros r Hr [_ Heq]. apply Hk. rewrite <-Heq. by apply HK.
Qed.

(** The committed actions of a bench, in the order they were recorded, whatever else was
    written between. *)
Inductive timeline (b0 : Bench S) : Bench S → list (string * (string * string * string)) → Prop :=
| t_start : timeline b0 b0 []
| t_recorded b log s who what whom b' :
    timeline b0 b log → record_required_in codec b s who what whom = (b', Ok ()) →
    timeline b0 b' (log ++ [(s, (who, what, whom))])
| t_refused b log s who what whom b' e :
    timeline b0 b log → record_required_in codec b s who what whom = (b', Err e) → timeline b0 b' log
| t_other b log db' :
    timeline b0 b log → grows codec elsewhere (store b) db' →
    timeline b0 (mkBench db' (audit_signer b) (authority b) (audit_sink b)) log.

(** The same, with what was committed. *)
Record kept (b0 b : Bench S) (log : list (string * AuditEntry)) : Prop := {
  k_ok : db_ok (store b);
  k_open : all_open (store b);
  k_records s : records codec (store b) (scope_for s) ENTRY = entry_to_json <$> (filter (λ x, x.1 = s) log).*2;
  k_linked s : linked GENESIS (filter (λ x, x.1 = s) log).*2;
  k_checkpoints s cp : latest_checkpoint_in codec (store b) s = Some cp →
    ∃ key, audit_signer b0 = Some key ∧ anchor_holds (Some (public_key key)) (filter (λ x, x.1 = s) log).*2 cp = true;
  k_signer : audit_signer b = audit_signer b0;
}.

Lemma kept_list b0 b log s : kept b0 b log → list_in codec (store b) s = (filter (λ x, x.1 = s) log).*2.
Proof.
  intros Hk. unfold list_in. rewrite (k_records _ _ _ Hk). generalize ((filter (λ x : string * AuditEntry, x.1 = s) log).*2).
  intros l. induction l as [|e l IH]; [done|]. cbn. rewrite entry_roundtrip. by f_equal.
Qed.

Lemma anchor_extends key l l' cp : anchor_holds key l cp = true → anchor_holds key (l ++ l') cp = true.
Proof.
  unfold anchor_holds. rewrite !andb_true_iff, !bool_decide_eq_true, length_app. intros [[Hs Hc] Hh].
  split_and!; [done|lia|]. rewrite take_app_le by lia. done.
Qed.

Lemma kept_grows b0 b log db' :
  kept b0 b log → grows codec elsewhere (store b) db' →
  kept b0 (mkBench db' (audit_signer b) (authority b) (audit_sink b)) log.
Proof.
  intros [Hok Ho Hr Hl Hc Hs] Hg. pose proof Hg as (new & Hext & _).
  assert (∀ s k, k = ENTRY ∨ k = CHECKPOINT → records codec db' s k = records codec (store b) s k) as Hsame.
  { intros s k Hor. eapply grows_records; [done..|]. unfold elsewhere. naive_solver. }
  split; cbn; [by destruct Hext|by eapply extends_open| |done| |done].
  - intros s. rewrite Hsame by (by left). apply Hr.
  - intros s cp. unfold latest_checkpoint_in. rewrite Hsame by (by right). apply Hc.
Qed.

Lemma checkpoint_scope_ne s s' : checkpoint_scope_for s ≠ scope_for s'.
Proof. unfold checkpoint_scope_for, scope_for. destruct (String.eqb _ _), (String.eqb _ _); intros Heq; by injection Heq. Qed.

Lemma kept_checkpoint b0 b log s key :
  kept b0 b log → audit_signer b0 = Some key →
  ∀ sink, kept b0 (mkBench (sign_checkpoint_in codec (store b) s key (authority b)) (audit_signer b) (authority b) sink) log.
Proof.
  intros Hk Hkey sink. pose proof (kept_list _ _ _ s Hk) as Hlist. unfold sign_checkpoint_in. rewrite Hlist.
  set (l := (filter (λ x : string * AuditEntry, x.1 = s) log).*2) in *.
  set (cp := mkCheckpoint (length l) (head_of l) (authority b) (sign key (checkpoint_msg (length l) (head_of l)))).
  destruct (append_record codec (store b) (checkpoint_scope_for s) CHECKPOINT (checkpoint_to_json cp)) as [db' [pos|e]] eqn:Happ;
    [|apply append_record_err in Happ as ->; destruct Hk; by split].
  destruct Hk as [Hok Ho Hr Hl Hc Hs].
  destruct (append_record_records codec (store b) (checkpoint_scope_for s) CHECKPOINT (checkpoint_to_json cp) db' pos "" "" Hok Happ) as [Hext _].
  pose proof (λ s' k', proj2 (append_record_records codec (store b) (checkpoint_scope_for s) CHECKPOINT (checkpoint_to_json cp) db' pos s' k' Hok Happ)) as Hrec.
  split; cbn; [by destruct Hext|by eapply extends_open| |done| |done].
  - intros s'. rewrite Hrec, bool_decide_eq_false_2 by (by intros [_ ?]). rewrite app_nil_r. apply Hr.
  - intros s' cp'. unfold latest_checkpoint_in. rewrite Hrec. case_bool_decide as Hsame; [|rewrite app_nil_r; apply Hc].
    destruct Hsame as [->%checkpoint_scope_for_inj _]. rewrite omap_app. cbn. rewrite checkpoint_roundtrip. cbn.
    rewrite last_snoc. intros [= <-]. exists key. split; [done|]. unfold anchor_holds. subst cp. cbn.
    rewrite sign_verifies. fold l. rewrite !bool_decide_eq_true_2 by done. rewrite take_ge by done. by rewrite String.eqb_refl.
Qed.

Lemma kept_recorded b0 b log s who what whom b' :
  kept b0 b log → record_required_in codec b s who what whom = (b', Ok ()) →
  ∃ e, (actor e, action e, target e) = (who, what, whom) ∧ kept b0 b' (log ++ [(s, e)])
    ∧ audit_sink b' = (λ sink, emit sink e) <$> audit_sink b.
Proof.
  intros Hk. unfold record_required_in.
  destruct (append_chained_record codec (store b) (scope_for s) ENTRY (link who what whom)) as [db' [[pos payload]|e]] eqn:Happ; [|done].
  pose proof Hk as [Hok Ho Hr Hl Hc Hs]. apply chained_committed in Happ as (Hp & Hg & Hrec); [|done].
  rewrite chain_head_last, Hr in Hp by done. set (l := (filter (λ x : string * AuditEntry, x.1 = s) log).*2) in *.
  set (e := mkEntry who what whom (head_of l)).
  assert (payload = entry_to_json e) as ->.
  { rewrite Hp. unfold link. f_equal. subst e. f_equal. rewrite fmap_last. unfold head_of.
    destruct (last l); cbn; [by rewrite entry_roundtrip|done]. }
  rewrite entry_roundtrip. intros [= <-]. exists e. split; [done|]. split; [|done].
  assert (∀ s', (filter (λ x : string * AuditEntry, x.1 = s') (log ++ [(s, e)])).*2
    = (filter (λ x, x.1 = s') log).*2 ++ if bool_decide (s = s') then [e] else []) as Hf.
  { intros s'. rewrite filter_app, fmap_app, filter_cons, filter_nil. cbn. case_decide; [by rewrite bool_decide_eq_true_2|by rewrite bool_decide_eq_false_2]. }
  assert (∀ sink, kept b0 (mkBench db' (audit_signer b) (authority b) sink) (log ++ [(s, e)])) as Hnew.
  { intros sink. destruct Hg as (new & Hext & HK & ?). split; cbn; [by destruct Hext|by eapply extends_open| | | |done].
    - intros s'. rewrite Hrec, Hf, fmap_app, Hr. f_equal. case_bool_decide as Hs1; [destruct Hs1 as [->%scope_for_inj _]; by rewrite bool_decide_eq_true_2|].
      rewrite bool_decide_eq_false_2; [done|]. intros ->. by apply Hs1.
    - intros s'. rewrite Hf. apply linked_app. split; [done|]. case_bool_decide; [subst s'|done]. split; [done|done].
    - intros s' cp. unfold latest_checkpoint_in. rewrite Hrec, bool_decide_eq_false_2 by (intros [_ ?]; done). rewrite app_nil_r.
      intros Hcp. destruct (Hc s' cp Hcp) as (key & ? & ?). exists key. split; [done|]. rewrite Hf. by apply anchor_extends. }
  unfold finish_committed_in. cbn. destruct (audit_signer b) as [key|] eqn:Hkey; [|apply Hnew].
  pose proof (kept_checkpoint b0 (mkBench db' (Some key) (authority b) (audit_sink b)) (log ++ [(s, e)]) s key) as Hcp.
  apply Hcp; [apply Hnew|congruence].
Qed.

Lemma kept_refused b0 b log s who what whom b' e :
  kept b0 b log → record_required_in codec b s who what whom = (b', Err e) → b' = b.
Proof.
  intros Hk. unfold record_required_in.
  destruct (append_chained_record codec (store b) (scope_for s) ENTRY (link who what whom)) as [db' [[pos payload]|e']] eqn:Happ;
    apply chained_committed in Happ; try apply Hk.
  - destruct Happ as (-> & _). unfold link. by rewrite entry_roundtrip.
  - intros [= <- _]. subst. by destruct b.
Qed.

(** C29: The timeline is complete, ordered, intact and streamed. Starting from an empty
    store, whatever is written of other kinds in between, each tenant's timeline is the
    actions recorded for it, in order and once; it verifies, under the signer's key when
    there is one, with its whole length and head and no broken link; and every committed
    entry was given to the exporter once, in order. An action that was not committed
    changed nothing. *)
Theorem audit_timeline b0 b log :
  events (store b0) = [] → timeline b0 b log →
  ∃ es : list (string * AuditEntry),
    (λ x, (x.1, (actor x.2, action x.2, target x.2))) <$> es = log
    ∧ audit_sink b = (λ sink, foldl emit sink es.*2) <$> audit_sink b0
    ∧ ∀ s, let l := (filter (λ x, x.1 = s) es).*2 in
        list_in codec (store b) s = l
        ∧ verify_in codec (store b) s (public_key <$> audit_signer b0)
          = mkIntegrity true (length l) (head_of l) None (bool_decide (is_Some (latest_checkpoint_in codec (store b) s))).
Proof.
  intros Hempty Ht.
  assert (∃ es, (λ x, (x.1, (actor x.2, action x.2, target x.2))) <$> es = log ∧ kept b0 b es
    ∧ audit_sink b = (λ sink, foldl emit sink es.*2) <$> audit_sink b0) as (es & Hes & Hk & Hsink).
  { induction Ht as [|b log s who what whom b' Ht IH Hop|b log s who what whom b' e Ht IH Hop|b log db' Ht IH Hg].
    - exists []. split_and!; [done| |by destruct (audit_sink b0)]. split; cbn; [| | |done| |done].
      + intros s i r. unfold scope_rows. by rewrite Hempty.
      + intros r. rewrite Hempty. by intros ?%elem_of_nil.
      + intros s. unfold records, kind_payloads. by rewrite Hempty.
      + intros s cp. unfold latest_checkpoint_in, records, kind_payloads. by rewrite Hempty.
    - destruct IH as (es & <- & Hk & Hsink). pose proof (kept_recorded _ _ _ _ _ _ _ _ Hk Hop) as (e & He & Hk' & Hsk).
      exists (es ++ [(s, e)]). split_and!; [by rewrite fmap_app; cbn; rewrite He|done|].
      rewrite Hsk, Hsink, fmap_app, <-option_fmap_compose. apply option_fmap_ext. intros sink. unfold compose. by rewrite foldl_app.
    - destruct IH as (es & ? & Hk & ?). apply (kept_refused _ _ _ _ _ _ _ _ _ Hk) in Hop as ->. by exists es.
    - destruct IH as (es & ? & Hk & ?). exists es. split_and!; [done|by apply kept_grows|done]. }
  exists es. split_and!; [done|done|]. intros s l. pose proof (kept_list _ _ _ s Hk) as Hlist. fold l in Hlist. split; [done|].
  unfold verify_in. rewrite Hlist, walk_linked by apply Hk. cbv zeta.
  assert (match latest_checkpoint_in codec (store b) s with Some cp => anchor_holds (public_key <$> audit_signer b0) l cp | None => true end = true) as ->.
  { destruct (latest_checkpoint_in codec (store b) s) as [cp|] eqn:Hcp; [|done].
    destruct (k_checkpoints _ _ _ Hk s cp Hcp) as (key & -> & Ha). done. }
  by rewrite bool_decide_eq_true_2.
Qed.
End timeline.

(** ** Exports are accounted for *)

Section export.
Context {Collector : Type} (post : Collector → string → list (string * string) → string → Collector * result string N).
Context `{AuditJson}.

Inductive SinkOp := Emit (e : AuditEntry) | Flush.

Definition sink_step (s : HttpAuditSink) (op : SinkOp) : HttpAuditSink :=
  match op with Emit e => http_emit post s e | Flush => flush post s end.

Definition emitted (ops : list SinkOp) : list AuditEntry :=
  omap (λ op, match op with Emit e => Some e | Flush => None end) ops.

Lemma flush_from_spec backlog : ∀ s : HttpAuditSink (Collector := Collector), ∃ sent rest,
  backlog = sent ++ rest ∧ accepted (flush_from post s backlog) = accepted s ++ sent
  ∧ pending (flush_from post s backlog) = rest
  ∧ dropped (flush_from post s backlog) = dropped s ∧ max_buffer (flush_from post s backlog) = max_buffer s.
Proof.
  induction backlog as [|e backlog IH]; intros s; cbn [flush_from].
  - exists [], []. split_and!; try done. by rewrite app_nil_r.
  - unfold try_export. destruct (post _ _ _ _) as [c answer]. destruct (success answer).
    + match goal with |- context [flush_from post ?s1 backlog] => destruct (IH s1) as (sent & rest & -> & Ha & Hp & Hd & Hm) end.
      exists (e :: sent), rest. split_and!; [done| |done..]. rewrite Ha. cbn. by rewrite <-app_assoc.
    + exists [], (e :: backlog). split_and!; try done. cbn. by rewrite app_nil_r.
Qed.

Record accounted (s : HttpAuditSink (Collector := Collector)) (given lost : list AuditEntry) : Prop := {
  ac_all : given ≡ₚ accepted s ++ pending s ++ lost;
  ac_dropped : dropped s = (N.of_nat (length lost) mod u64_modulus)%N;
  ac_bound : length (pending s) ≤ max_buffer s;
  ac_order : pending s `sublist_of` given;
  ac_positive : 0 < max_buffer s;
}.

Lemma flush_accounted s given lost : accounted s given lost → accounted (flush post s) given lost.
Proof.
  intros [Ha Hd Hb Ho Hp]. unfold flush. destruct (flush_from_spec (pending s) s) as (sent & rest & Heq & Hacc & Hpe & Hdr & Hmx).
  rewrite Heq in *. split; rewrite ?Hacc, ?Hpe, ?Hdr, ?Hmx; [|done| | |done].
  - rewrite Ha. by rewrite <-!app_assoc.
  - rewrite length_app in Hb. lia.
  - etrans; [|exact Ho]. by apply sublist_inserts_l.
Qed.

Lemma emit_accounted s given lost e : accounted s given lost → ∃ lost', accounted (http_emit post s e) (given ++ [e]) lost'.
Proof.
  intros Hs%flush_accounted. unfold http_emit. destruct Hs as [Ha Hd Hb Ho Hp]. revert Ha Hd Hb Ho Hp. generalize (flush post s). clear s.
  intros s Ha Hd Hb Ho Hp. unfold try_export. destruct (post _ _ _ _) as [c answer]. destruct (success answer).
  - exists lost. split; cbn; [|done|done|by apply sublist_inserts_r|done]. rewrite Ha. by solve_Permutation.
  - unfold buffer. cbn. destruct (Nat.leb_spec (max_buffer s) (length (pending s))) as [Hfull|Hroom].
    + destruct (pending s) as [|oldest rest] eqn:Hpe; [simpl in Hfull; lia|]. exists (lost ++ [oldest]). split; cbn.
      * rewrite Ha. by solve_Permutation.
      * rewrite Hd, length_app, Nat2N.inj_add. cbn [length]. unfold u64_add. change (N.of_nat 1) with 1%N.
        rewrite N.Div0.add_mod_idemp_l. done.
      * rewrite length_app. cbn in *. lia.
      * apply sublist_app; [|done]. etrans; [|exact Ho]. by apply sublist_cons.
      * done.
    + exists lost. split; cbn; [|done|rewrite length_app; cbn; lia|by apply sublist_app|done]. rewrite Ha. by solve_Permutation.
Qed.

(** The exporter loses nothing unseen. After any emissions and flushes, one at a time
    and whatever the collector answered, every emitted entry was accepted, is pending or
    was dropped, each exactly once; the pending ones are in their order and within the
    bound; and the counter of dropped entries is their number, modulo its 64 bits. *)
Theorem export_accounts c u n ops :
  let s := fold_left sink_step ops (with_max_buffer (http_new c u) n) in
  ∃ lost, emitted ops ≡ₚ accepted s ++ pending s ++ lost
    ∧ dropped s = (N.of_nat (length lost) mod u64_modulus)%N
    ∧ length (pending s) ≤ Nat.max n 1 ∧ pending s `sublist_of` emitted ops.
Proof.
  intros s. assert (∃ lost, accounted s (emitted ops) lost ∧ max_buffer s = Nat.max n 1) as (lost & [] & <-); [|by exists lost].
  subst s. induction ops as [|op ops IH] using rev_ind.
  - exists []. split; [|done]. split; cbn; [done|done|lia|done|lia].
  - destruct IH as (lost & Hacc & Hm). rewrite fold_left_app. cbn [fold_left]. unfold emitted. rewrite omap_app. fold (emitted ops).
    revert Hacc Hm. generalize (fold_left sink_step ops (with_max_buffer (http_new c u) n)). intros s Hacc Hm.
    destruct (flush_from_spec (pending s) s) as (? & ? & _ & _ & _ & _ & Hmx). destruct op as [e|]; cbn.
    + destruct (emit_accounted s _ _ e Hacc) as [lost' H']. exists lost'. split; [done|]. rewrite <-Hm, <-Hmx.
      unfold http_emit. fold (flush post s). unfold try_export. destruct (post _ _ _ _) as [c' answer].
      destruct (success answer); [done|]. unfold buffer. by destruct (_ <=? _).
    + rewrite app_nil_r. exists lost. split; [by apply flush_accounted|]. by rewrite <-Hm, <-Hmx.
Qed.
End export.

(** ** Two flushes at once

    [flush] takes [&self]: the mutex is free while the front is posted. The steps of
    threads that flush one shared backlog. *)

Inductive FlushThread := Idle | Reading (front : AuditEntry) | Accepted.

Record Backlog := mkBacklog { waiting : list AuditEntry; delivered : list AuditEntry; threads : list FlushThread }.

Inductive flush_step : Backlog → Backlog → Prop :=
| fs_front i front rest delivered threads :
    threads !! i = Some Idle →
    flush_step (mkBacklog (front :: rest) delivered threads) (mkBacklog (front :: rest) delivered (<[i := Reading front]> threads))
| fs_sent i front waiting delivered threads :
    threads !! i = Some (Reading front) →
    flush_step (mkBacklog waiting delivered threads) (mkBacklog waiting (delivered ++ [front]) (<[i := Accepted]> threads))
| fs_failed i front waiting delivered threads :
    threads !! i = Some (Reading front) →
    flush_step (mkBacklog waiting delivered threads) (mkBacklog waiting delivered (<[i := Idle]> threads))
| fs_pop i waiting delivered threads :
    threads !! i = Some Accepted →
    flush_step (mkBacklog waiting delivered threads) (mkBacklog (tail waiting) delivered (<[i := Idle]> threads)).

(** Both threads post the front, and both remove one: the second entry is gone, neither
    delivered nor counted as dropped. *)
Example concurrent_flush_loses e1 e2 :
  rtc flush_step (mkBacklog [e1; e2] [] [Idle; Idle]) (mkBacklog [] [e1; e1] [Idle; Idle]).
Proof.
  eapply rtc_l; [by apply (fs_front 0)|]. eapply rtc_l; [by apply (fs_front 1)|].
  eapply rtc_l; [by eapply (fs_sent 0)|]. eapply rtc_l; [by eapply (fs_sent 1)|].
  eapply rtc_l; [by apply (fs_pop 0)|]. eapply rtc_l; [by apply (fs_pop 1)|]. apply rtc_refl.
Qed.

(** ** The CSV reads back *)

(** A reader of quoted fields: the value, and what follows the closing quote. *)
Fixpoint read_quoted (s : string) : option (string * string) :=
  match s with
  | EmptyString => None
  | String c s =>
      if Ascii.eqb c quote then
        match s with
        | String c' s' =>
            if Ascii.eqb c' quote then (λ r, (String quote r.1, r.2)) <$> read_quoted s' else Some ("", s)
        | EmptyString => Some ("", s)
        end
      else (λ r, (String c r.1, r.2)) <$> read_quoted s
  end.

Definition expect (c : ascii) (s : string) : option string :=
  match s with String c' s => if Ascii.eqb c' c then Some s else None | EmptyString => None end.

Definition read_field (terminator : ascii) (s : string) : option (string * string) :=
  s ← expect quote s; r ← read_quoted s; rest ← expect terminator r.2; Some (r.1, rest).

Fixpoint read_rows (fuel : nat) (s : string) : option (list (string * string * string)) :=
  match fuel, s with
  | _, EmptyString => Some []
  | O, _ => None
  | S fuel, _ =>
      a ← read_field ","%char s; b ← read_field ","%char a.2; c ← read_field lf b.2;
      rows ← read_rows fuel c.2; Some ((a.1, b.1, c.1) :: rows)
  end.

Lemma read_quoted_field s rest :
  (∀ r, rest ≠ String quote r) → read_quoted (double_quotes s +:+ String quote rest) = Some (s, rest).
Proof.
  intros Hr. induction s as [|c s IH].
  - simpl. destruct rest as [|c' rest]; [done|]. destruct (Ascii.eqb_spec c' quote) as [->|]; [by destruct (Hr rest)|done].
  - cbn [double_quotes]. destruct (Ascii.eqb_spec c quote) as [->|Hc]; rewrite !append_cons; cbn [read_quoted].
    + rewrite Ascii.eqb_refl. by rewrite IH.
    + rewrite (proj2 (Ascii.eqb_neq c quote)) by done. by rewrite IH.
Qed.

Lemma read_field_spec s terminator rest :
  terminator ≠ quote → read_field terminator (csv_field s +:+ String terminator rest) = Some (s, rest).
Proof.
  intros Ht. unfold read_field, csv_field. rewrite append_cons, append_assoc. cbn [expect]. rewrite Ascii.eqb_refl. cbn [mbind option_bind].
  rewrite append_cons, append_nil, read_quoted_field by (intros r [= ->]; done). cbn. by rewrite Ascii.eqb_refl.
Qed.

Definition CSV_HEADER : string := "actor,action,target" +:+ String lf "".

(** The CSV reads back. After its header the text is rows of three quoted fields, and
    reading them gives the actor, the action and the target of every entry, in order,
    whatever quotes, commas or line feeds they hold. *)
Theorem csv_roundtrip l fuel :
  length l ≤ fuel →
  ∃ text, to_csv l = CSV_HEADER +:+ text
    ∧ read_rows fuel text = Some ((λ e, (actor e, action e, target e)) <$> l).
Proof.
  intros Hf. exists (String.concat "" (csv_row <$> l)). split; [unfold to_csv, CSV_HEADER; by rewrite append_assoc|].
  revert fuel Hf. induction l as [|e l IH]; intros fuel Hf; [by destruct fuel|].
  destruct fuel as [|fuel]; cbn in Hf; [lia|].
  assert (String.concat "" (csv_row <$> e :: l) = csv_row e +:+ String.concat "" (csv_row <$> l)) as ->.
  { rewrite fmap_cons. destruct l as [|e' l]; [|done]. cbn. generalize (csv_row e). clear. intros s. induction s as [|c s IHs]; [done|]. rewrite append_cons. by rewrite <-IHs. }
  unfold csv_row at 1. rewrite !append_assoc. simpl ("," +:+ _).
  set (rest := String.concat "" (csv_row <$> l)).
  change (read_rows (S fuel) (csv_field (actor e) +:+ String "," (csv_field (action e) +:+ String "," (csv_field (target e) +:+ String lf rest)))
    = Some ((λ e, (actor e, action e, target e)) <$> e :: l)).
  assert (∀ s, read_rows (S fuel) (csv_field (actor e) +:+ s) = (a ← read_field ","%char (csv_field (actor e) +:+ s); b ← read_field ","%char a.2; c ← read_field lf b.2;
      rows ← read_rows fuel c.2; Some ((a.1, b.1, c.1) :: rows))) as -> by done.
  rewrite read_field_spec by done. cbn [mbind option_bind fst snd]. rewrite read_field_spec by done. cbn [mbind option_bind fst snd].
  rewrite read_field_spec by done. cbn [mbind option_bind fst snd]. subst rest. rewrite IH by lia. done.
Qed.

(** ** Examples *)

Module AuditSample.
Import SampleTexts.

#[export] Instance sample_anchor : AnchorLaws (λ raw, sha256_hex (bytes_of raw)).
Proof. intros raw. unfold sha256_hex. simpl. reflexivity. Qed.

Definition entry_fields (e : AuditEntry) : string * string * string * string := (actor e, action e, target e, prev e).
Definition fields_entry (x : string * string * string * string) : AuditEntry := mkEntry x.1.1.1 x.1.1.2 x.1.2 x.2.
Definition checkpoint_fields (c : Checkpoint) : nat * string * string * list N :=
  (count c, cp_head c, cp_authority c, sig_bytes (cp_sig c)).
Definition fields_checkpoint (x : nat * string * string * list N) : Checkpoint :=
  mkCheckpoint x.1.1.1 x.1.1.2 x.1.2 (mkSignature x.2).

#[export] Instance sample_json : AuditJson := {|
  entry_to_json e := write_bits (countable.encode (entry_fields e));
  entry_from_json s := fields_entry <$> countable.decode (read_bits s);
  checkpoint_to_json c := write_bits (countable.encode (checkpoint_fields c));
  checkpoint_from_json s := fields_checkpoint <$> countable.decode (read_bits s);
|}.

#[export] Instance sample_json_laws : AuditJsonLaws sample_json.
Proof.
  split.
  - intros []. simpl. by rewrite bits_roundtrip, countable.decode_encode.
  - intros [? ? ? []]. simpl. by rewrite bits_roundtrip, countable.decode_encode.
Qed.

#[export] Instance plain_laws : CodecLaws None.
Proof. intros c scope kind plain stored. discriminate. Qed.

Definition bench0 : Bench BufferAuditSink := mkBench empty_db (Some true) "gov" (Some (mkBufferSink [])).
Definition bench1 : Bench BufferAuditSink := record_in None bench0 ORG_SCOPE "alice" "member.role" "m1".
Definition bench2 : Bench BufferAuditSink := record_in None bench1 "acme" "bob" "sso.configure" "idp".
Definition bench3 : Bench BufferAuditSink := record_in None bench2 ORG_SCOPE "carol" "member.deactivate" "m1".

Lemma sample_recorded (b : Bench BufferAuditSink) log s who what whom :
  timeline None bench0 b log → (record_required_in None b s who what whom).2 = Ok () →
  timeline None bench0 (record_in None b s who what whom) (log ++ [(s, (who, what, whom))]).
Proof.
  intros Ht Hok. eapply t_recorded; [exact Ht|]. unfold record_in.
  destruct (record_required_in None b s who what whom). simpl in *. by subst.
Qed.

Lemma sample_timeline :
  timeline None bench0 bench3
    ((([] ++ [(ORG_SCOPE, ("alice", "member.role", "m1"))]) ++ [("acme", ("bob", "sso.configure", "idp"))])
     ++ [(ORG_SCOPE, ("carol", "member.deactivate", "m1"))]).
Proof.
  apply sample_recorded; [apply sample_recorded; [apply sample_recorded; [apply t_start|]|]|]; vm_compute; reflexivity.
Qed.

Lemma audit_timeline_witness :
  ∃ es : list (string * AuditEntry),
    (λ x, (x.1, (actor x.2, action x.2, target x.2))) <$> es
      = [(ORG_SCOPE, ("alice", "member.role", "m1")); ("acme", ("bob", "sso.configure", "idp"));
         (ORG_SCOPE, ("carol", "member.deactivate", "m1"))]
    ∧ audit_sink bench3 = Some (mkBufferSink es.*2).
Proof.
  destruct (audit_timeline None bench0 bench3 _ eq_refl sample_timeline) as (es & Hes & Hsink & _).
  exists es. split; [exact Hes|]. rewrite Hsink. cbn. f_equal.
  assert (∀ (l : list AuditEntry) l0, foldl emit (mkBufferSink l0) l = mkBufferSink (l0 ++ l)) as H.
  { intros l. induction l as [|e l IH]; intros l0; [cbn; by rewrite app_nil_r|].
    change (foldl emit (mkBufferSink (l0 ++ [e])) l = mkBufferSink (l0 ++ e :: l)). rewrite IH. by rewrite <-app_assoc. }
  apply H.
Defined.

Example sample_verified :
  verify_in None (store bench3) ORG_SCOPE (Some (public_key true))
  = mkIntegrity true 2 (head_hash_in None (store bench3) ORG_SCOPE) None true.
Proof. vm_compute. reflexivity. Qed.

Definition key_of (k : P256SigningKey) : PublicKey := public_key k.

(** The checkpoint of two entries, the timeline it pins, and one that does not verify under it. *)
Lemma audit_tamper_evident_witness :
  (∃ cp, latest_checkpoint_in None (store bench3) ORG_SCOPE = Some cp ∧ count cp = 2)
  ∧ intact (Some (key_of true)) (list_in None (store bench3) ORG_SCOPE) (latest_checkpoint_in None (store bench3) ORG_SCOPE)
  ∧ ¬ intact None (list_in None (store bench3) ORG_SCOPE) (latest_checkpoint_in None (store bench3) ORG_SCOPE).
Proof.
  split_and!; [eexists; by vm_compute| |].
  - apply (proj1 (audit_tamper_evident None (store bench3) (store bench3) ORG_SCOPE ORG_SCOPE (Some (key_of true)) None)).
    vm_compute. reflexivity.
  - intros Hi. apply (proj1 (audit_tamper_evident None (store bench3) (store bench3) ORG_SCOPE ORG_SCOPE None None)) in Hi.
    vm_compute in Hi. discriminate.
Defined.

(** Cutting the log and its checkpoints back to one moment leaves a timeline that
    verifies: a checkpoint pins what is before it, not that there is nothing later. *)
Example rolled_back_verifies : ok (verify_in None (store bench2) ORG_SCOPE (Some (public_key true))) = true.
Proof. vm_compute. reflexivity. Qed.

Definition first : AuditEntry := mkEntry "alice" "member.role" "m1" GENESIS.
Definition second : AuditEntry := mkEntry "carol" "member.deactivate" "m1" (entry_hash first).

Lemma edit_found_witness :
  (walk 0 GENESIS [mkEntry "mallory" "member.role" "m1" GENESIS; second]).1 = Some 0
  ∨ (walk 0 GENESIS [mkEntry "mallory" "member.role" "m1" GENESIS; second]).1 = Some 1
  ∨ collision first (mkEntry "mallory" "member.role" "m1" GENESIS).
Proof.
  apply (edit_found [] first (mkEntry "mallory" "member.role" "m1" GENESIS) second []).
  - vm_compute. repeat split.
  - discriminate.
Defined.

Lemma csv_roundtrip_witness :
  ∃ text, to_csv [mkEntry "a" "x,y" (String quote "q") ""] = CSV_HEADER +:+ text
    ∧ read_rows 1 text = Some [("a", "x,y", String quote "q")].
Proof. apply (csv_roundtrip [mkEntry "a" "x,y" (String quote "q") ""] 1). cbn. lia. Defined.

(** A collector that refuses once: the entry waits, and the next one finds it first. *)
Definition flaky (n : nat) (_ : string) (_ : list (string * string)) (_ : string) : nat * result string N :=
  match n with O => (O, Ok 200%N) | S n => (n, Ok 503%N) end.

Example retried :
  let s := fold_left (sink_step flaky) [Emit first; Emit second] (with_max_buffer (http_new 1 "https://siem") 8) in
  (accepted s, pending s, failures s, dropped s) = ([first; second], [], 1%N, 0%N).
Proof. vm_compute. reflexivity. Qed.

End AuditSample.
