(* ===== verification/Organization.v ===== *)
(** * The organization directory

    [crates/app/src/org.rs] over the records of the store: an organization's profile,
    members, invitations, grants, group mappings, single sign-on, security and billing
    records, each folded latest-wins by kind and id from the organization's scope, and the
    questions asked of the projection. The [SoftwarePolicy] of [client_admission.rs] and the
    plan of [managed_inference.rs] are data here. [serde_json] is an argument, one decoder per
    kind; [rebuild_in] is remembered by the store ([Remember.v]), which returns what the
    fold returns. The readiness of enforcement, which reads account authentication, is left
    out. *)

From Stdlib Require Import Ascii.
From S2P Require Import Prelude Ids Federation AccessControl BoundaryLifecycle Lifecycle Store Records Texts SignedText.

Definition ORG_SCOPE : string := "org".
Definition ORG_ID : string := "org".
Definition FIXED_ROLES : list string := ["owner"; "admin"; "auditor"; "member"; "viewer"; "billing"].
Definition PRIVILEGED_ROLES : list string := ["owner"; "admin"].

Definition is_valid_role (role : string) : bool := bool_decide (role ∈ FIXED_ROLES).
Definition is_privileged_role (role : string) : bool := bool_decide (role ∈ PRIVILEGED_ROLES).

(** ** Records *)

Inductive RecordOp := Upsert | Tombstone.
Inductive MembershipStatus := Invited | Active | Deprovisioned.
Inductive OrganizationInvitationStatus := Pending | Accepted | Declined | Cancelled.
Inductive SsoProtocol := Oidc | Saml.
Inductive SsoAdmissionMode := InvitedOnly | VerifiedDomainJit | Scim.
Inductive ProjectSharing := Members | Anyone.
Inductive ManagedPlanStatus := MP_Active | MP_Suspended | MP_Lapsed.
Inductive ScimSyncOperation := SS_Provision | SS_Update | SS_Deprovision.
Inductive ScimSyncStatus := SS_Succeeded | SS_Failed.
Inductive ScimSyncError := SE_InvalidUserName | SE_UnsupportedChange | SE_UnknownUser | SE_SeatCapacity | SE_Storage.

#[export] Instance RecordOp_eq_dec : EqDecision RecordOp.
Proof. solve_decision. Defined.
#[export] Instance MembershipStatus_eq_dec : EqDecision MembershipStatus.
Proof. solve_decision. Defined.
#[export] Instance OrganizationInvitationStatus_eq_dec : EqDecision OrganizationInvitationStatus.
Proof. solve_decision. Defined.
#[export] Instance SsoProtocol_eq_dec : EqDecision SsoProtocol.
Proof. solve_decision. Defined.

Record OrgRecord := mkOrgRecord {
  or_id : string;
  or_op : RecordOp;
  display_name : string;
  verified_domains : list string;
  pending_domains : list string;
  default_region : option string;
}.

Record MembershipRecord := mkMembership {
  mb_id : string;
  mb_op : RecordOp;
  mb_org_id : string;
  mb_authority : string;
  mb_email : string;
  mb_role : string;
  mb_status : MembershipStatus;
  managed_by_scim : bool;
  mb_team : option string;
}.

#[export] Instance MembershipRecord_eta : Eta MembershipRecord := mkEta (λ m,
  mkMembership (mb_id m) (mb_op m) (mb_org_id m) (mb_authority m) (mb_email m) (mb_role m) (mb_status m)
    (managed_by_scim m) (mb_team m)).

Record OrganizationInvitationRecord := mkInvitation {
  iv_id : string;
  iv_op : RecordOp;
  iv_org_id : string;
  iv_email : string;
  iv_role : string;
  iv_team : option string;
  proof_sha256 : string;
  iv_status : OrganizationInvitationStatus;
  issued_at_ms : N;
  expires_at_ms : N;
  responded_by : option string;
  responded_at_ms : option N;
}.

Record SsoCredentialRecord := mkCredential {
  cr_id : string;
  cr_op : RecordOp;
  connection_id : string;
  cr_protocol : SsoProtocol;
  cr_revision : string;
  sealed_secret : string;
}.

Record SsoAdmissionRecord := mkAdmission { ad_id : string; ad_op : RecordOp; mode : SsoAdmissionMode }.

Record SsoClaimMapping := mkClaimMapping {
  subject_claim : option string;
  email_claim : option string;
  roles_claim : option string;
  region_claim : option string;
  tenant_claim : option string;
}.

Record SsoConnectionRecord := mkConnection {
  co_id : string;
  co_op : RecordOp;
  revision : string;
  credential_revision : option string;
  protocol : SsoProtocol;
  issuer : string;
  audiences : list string;
  metadata : string;
  saml_sp_entity_id : string;
  saml_acs_url : string;
  enforce_sso : bool;
  claim_mapping : SsoClaimMapping;
}.

#[export] Instance SsoConnectionRecord_eta : Eta SsoConnectionRecord := mkEta (λ c,
  mkConnection (co_id c) (co_op c) (revision c) (credential_revision c) (protocol c) (issuer c) (audiences c)
    (metadata c) (saml_sp_entity_id c) (saml_acs_url c) (enforce_sso c) (claim_mapping c)).

Record SsoBrowserTestRecord := mkBrowserTest {
  bt_id : string;
  bt_connection_id : string;
  bt_connection_revision : string;
  bt_protocol : SsoProtocol;
  bt_subject : string;
  mapped_roles : list string;
  mapped_region : option string;
  mapped_tenant : option string;
  initiated_by : string;
  tested_at_ms : N;
}.

Record PolicyRecord := mkPolicyRecord { po_id : string; po_op : RecordOp; po_policy : Policy }.
Record PlacementPolicyRecord := mkPlacementRecord { pl_id : string; pl_op : RecordOp; pl_policy : PlacementPolicy }.

(** [SoftwarePolicy] *)
Record SoftwarePolicy := mkSoftwarePolicy {
  minimum_version : string;
  minimum_protocol : N;
  allowed_channels : list string;
  grace_until_unix_ms : option N;
}.
Record SoftwarePolicyRecord := mkSoftwareRecord { so_id : string; so_op : RecordOp; so_policy : SoftwarePolicy }.

Record ScimTokenRecord := mkScimToken { st_id : string; st_op : RecordOp; token_sha256 : string }.
Record ScimSyncRecord := mkScimSync {
  operation : ScimSyncOperation;
  subject : option string;
  sy_status : ScimSyncStatus;
  sy_error : option ScimSyncError;
  observed_at_ms : N;
}.

Record SecurityPolicyRecord := mkSecurity {
  se_id : string;
  se_op : RecordOp;
  require_mfa : bool;
  session_lifetime_secs : N;
  idle_timeout_secs : N;
  residency_region : option string;
  se_audit_retention_min_days : N;
  se_allow_auto_upgrade : bool;
}.

Record OrganizationSessionRevocationRecord := mkRevocation { rv_id : string; rv_op : RecordOp }.
Record ArchetypeApprovalPolicyRecord := mkApproval { aa_id : string; aa_op : RecordOp; require_approval : bool }.
Record ProjectSharingPolicyRecord := mkSharing { ps_id : string; ps_op : RecordOp; sharing : ProjectSharing }.

Record ManagedInferencePlan := mkPlan { mp_plan : string; mp_status : ManagedPlanStatus; included_tokens : N }.
Record BillingRecord := mkBilling {
  bi_id : string;
  bi_op : RecordOp;
  bi_plan : string;
  seats : N;
  managed_inference : option ManagedInferencePlan;
}.
Record BillingContactRecord := mkContact { bc_id : string; bc_op : RecordOp; bc_name : string; bc_email : string }.

Record GroupMappingRecord := mkGroupMapping {
  gm_id : string;
  gm_op : RecordOp;
  group : string;
  gm_role : string;
  gm_team : option string;
}.

Record MemberGrantRecord := mkGrant { gr_id : string; gr_op : RecordOp; gr_authority : string; gr_project_id : string }.

Definition make_id (authority project_id : string) : string := authority +:+ ":" +:+ project_id.

(** ** The projection *)

Class OrgJson := {
  org_json : Json OrgRecord;
  membership_json : Json MembershipRecord;
  invitation_json : Json OrganizationInvitationRecord;
  policy_json : Json PolicyRecord;
  placement_json : Json PlacementPolicyRecord;
  software_json : Json SoftwarePolicyRecord;
  sso_json : Json SsoConnectionRecord;
  credential_json : Json SsoCredentialRecord;
  admission_json : Json SsoAdmissionRecord;
  browser_test_json : Json SsoBrowserTestRecord;
  scim_token_json : Json ScimTokenRecord;
  scim_sync_json : Json ScimSyncRecord;
  security_json : Json SecurityPolicyRecord;
  billing_json : Json BillingRecord;
  contact_json : Json BillingContactRecord;
  approval_json : Json ArchetypeApprovalPolicyRecord;
  sharing_json : Json ProjectSharingPolicyRecord;
  revocation_json : Json OrganizationSessionRevocationRecord;
  grant_json : Json MemberGrantRecord;
  group_mapping_json : Json GroupMappingRecord;
}.

Record Org := mkOrg {
  scope : string;
  org : option OrgRecord;
  members : gmap string MembershipRecord;
  invitations : gmap string OrganizationInvitationRecord;
  grants : gmap string MemberGrantRecord;
  group_mappings : gmap string GroupMappingRecord;
  policy : option Policy;
  placement_policy : option PlacementPolicy;
  software_policy : option SoftwarePolicy;
  sso : option SsoConnectionRecord;
  sso_credential : option SsoCredentialRecord;
  sso_admission : option SsoAdmissionRecord;
  sso_browser_tests : list SsoBrowserTestRecord;
  scim_token_sha256 : option string;
  scim_sync : list ScimSyncRecord;
  security : option SecurityPolicyRecord;
  billing : option BillingRecord;
  billing_contact : option BillingContactRecord;
  archetype_approval : option ArchetypeApprovalPolicyRecord;
  project_sharing : option ProjectSharingPolicyRecord;
  session_revocations : gmap string OrganizationSessionRevocationRecord;
}.

#[export] Instance Org_eta : Eta Org := mkEta (λ o,
  mkOrg (scope o) (org o) (members o) (invitations o) (grants o) (group_mappings o) (policy o) (placement_policy o)
    (software_policy o) (sso o) (sso_credential o) (sso_admission o) (sso_browser_tests o) (scim_token_sha256 o)
    (scim_sync o) (security o) (billing o) (billing_contact o) (archetype_approval o) (project_sharing o)
    (session_revocations o)).

Definition tenant_scope (tenant : string) : string :=
  if String.eqb tenant "" || String.eqb tenant ORG_ID then ORG_SCOPE else ORG_SCOPE +:+ "::" +:+ tenant.

(** [match r.op { Tombstone => .. , Upsert => .. }], for a singleton and for records by id. *)
Definition singleton {R A} (op : R → RecordOp) (f : R → A) (_ : option A) (r : R) : option A :=
  match op r with Tombstone => None | Upsert => Some (f r) end.
Definition by_id {R} (op : R → RecordOp) (id : R → string) (m : gmap string R) (r : R) : gmap string R :=
  match op r with Tombstone => delete (id r) m | Upsert => <[id r := r]> m end.
Definition collected {R} (l : list R) (r : R) : list R := l ++ [r].

Section rebuild.
Context `{OrgJson} (codec : option ContentCodec).

Definition fold_in (db : Db) (s : string) : result failure Org :=
  let? org := fold_rows org_json (singleton or_op id) None (records codec db s "org") in
  let? members := fold_rows membership_json (by_id mb_op mb_id) ∅ (records codec db s "membership") in
  let? invitations := fold_rows invitation_json (by_id iv_op iv_id) ∅ (records codec db s "organization_invitation") in
  let? policy := fold_rows policy_json (singleton po_op po_policy) None (records codec db s "policy") in
  let? placement := fold_rows placement_json (singleton pl_op pl_policy) None (records codec db s "placement_policy") in
  let? software := fold_rows software_json (singleton so_op so_policy) None (records codec db s "software_policy") in
  let? sso := fold_rows sso_json (singleton co_op id) None (records codec db s "sso") in
  let? credential := fold_rows credential_json (singleton cr_op id) None (records codec db s "sso_credential") in
  let? admission := fold_rows admission_json (singleton ad_op id) None (records codec db s "sso_admission") in
  let? tests := fold_rows browser_test_json collected [] (records codec db s "sso_browser_test") in
  let? token := fold_rows scim_token_json (singleton st_op token_sha256) None (records codec db s "scim_token") in
  let? sync := fold_rows scim_sync_json collected [] (records codec db s "scim_sync") in
  let? security := fold_rows security_json (singleton se_op id) None (records codec db s "security") in
  let? billing := fold_rows billing_json (singleton bi_op id) None (records codec db s "billing") in
  let? contact := fold_rows contact_json (singleton bc_op id) None (records codec db s "billing_contact") in
  let? approval := fold_rows approval_json (singleton aa_op id) None (records codec db s "archetype_approval") in
  let? sharing := fold_rows sharing_json (singleton ps_op id) None (records codec db s "project_sharing") in
  let? revocations := fold_rows revocation_json (by_id rv_op rv_id) ∅
    (records codec db s "organization_session_revocation") in
  let? grants := fold_rows grant_json (by_id gr_op gr_id) ∅ (records codec db s "member_grant") in
  let? groups := fold_rows group_mapping_json (by_id gm_op gm_id) ∅ (records codec db s "group_mapping") in
  Ok (mkOrg s org members invitations grants groups policy placement software sso credential admission tests token
        sync security billing contact approval sharing revocations).

Definition rebuild_in (db : Db) (s : string) : result failure Org := fold_in db s.
Definition rebuild (db : Db) : result failure Org := rebuild_in db ORG_SCOPE.

(** ** Single sign-on *)

(** [serde_json::to_string(&canonical).expect(..)] *)
Definition computed_revision `{SignedTexts} (c : SsoConnectionRecord) : option string :=
  (λ text, sha256_hex (bytes_of text)) <$> to_json sso_json (c <| revision := "" |> <| enforce_sso := false |>).

Definition seal_revision `{SignedTexts} (c : SsoConnectionRecord) : option SsoConnectionRecord :=
  r ← computed_revision c; Some (c <| revision := r |>).

Definition current_revision `{SignedTexts} (c : SsoConnectionRecord) : option string :=
  computed ← computed_revision c; Some (if String.eqb (revision c) computed then revision c else computed).

Definition protocol_name (p : SsoProtocol) : string := match p with Oidc => "oidc" | Saml => "saml" end.

Definition credential_binding (c : SsoConnectionRecord) : option string :=
  r ← credential_revision c; Some ("sso:" +:+ co_id c +:+ ":" +:+ protocol_name (protocol c) +:+ ":" +:+ r).

Definition current_sso_credential (o : Org) : option SsoCredentialRecord :=
  connection ← sso o; r ← credential_revision connection; credential ← sso_credential o;
  if bool_decide (cr_op credential = Upsert) && String.eqb (connection_id credential) (co_id connection)
     && bool_decide (cr_protocol credential = protocol connection) && String.eqb (cr_revision credential) r
     && negb (String.eqb (sealed_secret credential) "")
  then Some credential else None.

(** A panic of [expect] is [None] outside. *)
Definition current_sso_browser_test `{SignedTexts} (o : Org) : option (option SsoBrowserTestRecord) :=
  match sso o with
  | None => Some None
  | Some connection =>
      r ← current_revision connection;
      Some (List.find (λ t, String.eqb (bt_connection_id t) (co_id connection)
                            && String.eqb (bt_connection_revision t) r
                            && bool_decide (bt_protocol t = protocol connection)) (reverse (sso_browser_tests o)))
  end.

End rebuild.

Definition enterprise_connection_key (o : Org) (connection : string) : string :=
  (if String.eqb (scope o) "" then ORG_SCOPE else scope o) +:+ ":" +:+ connection.

Definition sso_enforced (o : Org) : bool := match sso o with Some c => enforce_sso c | None => false end.

Definition enterprise_session_method_matches (o : Org) (method : string) : bool :=
  match sso o with
  | None => false
  | Some c =>
      let family := match protocol c with Oidc => "enterprise-oidc" | Saml => "enterprise-saml" end in
      String.eqb method (family +:+ ":" +:+ enterprise_connection_key o (co_id c))
  end.

(** ** Members *)

Definition find_member (o : Org) (p : MembershipRecord → bool) : option MembershipRecord :=
  List.find p (btree_values (members o)).

Definition is_active (m : MembershipRecord) : bool := bool_decide (mb_status m = Active).

Definition member_by_authority (o : Org) (authority : string) : option MembershipRecord :=
  find_member o (λ m, String.eqb (mb_authority m) authority).

Definition role_of (o : Org) (authority : string) : option Role :=
  mb_role <$> find_member o (λ m, String.eqb (mb_authority m) authority && is_active m).

Definition with_directory_role (o : Org) (a : AuthorityAttributes) (authority : string) : AuthorityAttributes :=
  if bool_decide (roles a = ∅) then
    match role_of o authority with Some r => mkAuthorityAttributes (clearance a) (affiliation a) ({[r]} ∪ roles a) (actor_region a) | None => a end
  else a.

Definition granted_project_ids (o : Org) (authority : string) : gset string :=
  list_to_set (gr_project_id <$> List.filter (λ g, String.eqb (gr_authority g) authority) (btree_values (grants o))).

Definition can_access_project (o : Org) (authority project_id : string) : bool :=
  match role_of o authority with
  | None => false
  | Some role =>
      String.eqb role AccessControl.owner || String.eqb role AccessControl.admin
      || existsb (λ g, String.eqb (gr_authority g) authority && String.eqb (gr_project_id g) project_id) (btree_values (grants o))
  end.

Definition team_of (o : Org) (authority : string) : option string := member_by_authority o authority ≫= mb_team.

Definition active_count_with_role (o : Org) (role : string) : nat :=
  length (List.filter (λ m, is_active m && String.eqb (mb_role m) role) (btree_values (members o))).

Definition role_for_groups (o : Org) (groups : list string) : option (string * option string) :=
  match head (omap (λ g, group_mappings o !! g) groups) with
  | Some m => if is_privileged_role (gm_role m) then None else Some (gm_role m, gm_team m)
  | None => None
  end.

(** ** Policies, sessions and seats *)

Definition effective_placement_policy (o : Org) : PlacementPolicy := default open_policy (placement_policy o).
Definition effective_require_archetype_approval (o : Org) : bool :=
  match archetype_approval o with Some r => require_approval r | None => false end.
Definition effective_project_sharing (o : Org) : ProjectSharing :=
  match project_sharing o with Some r => sharing r | None => Members end.
Definition org_policy (o : Org) : Policy := default enterprise_example (policy o).

Definition session_bounds_ms (o : Org) : N * N :=
  match security o with
  | Some s => (u64_saturating_mul (session_lifetime_secs s) 1000, u64_saturating_mul (idle_timeout_secs s) 1000)
  | None => (0, 0)%N
  end.

Definition organization_session_revoked (o : Org) (session_id : string) : bool :=
  bool_decide (is_Some (session_revocations o !! session_id)).

Definition DEFAULT_AUDIT_RETENTION_MIN_DAYS : N := 365.
Definition audit_retention_min_days (o : Org) : N :=
  match security o with
  | Some s => if (0 <? se_audit_retention_min_days s)%N then se_audit_retention_min_days s else DEFAULT_AUDIT_RETENTION_MIN_DAYS
  | None => DEFAULT_AUDIT_RETENTION_MIN_DAYS
  end.
Definition allow_auto_upgrade (o : Org) : bool := match security o with Some s => se_allow_auto_upgrade s | None => false end.

Definition seats_used (o : Org) : nat := length (List.filter is_active (btree_values (members o))).

Definition seat_available_for (o : Org) (member_id : string) : bool :=
  match members o !! member_id with
  | Some m => if is_active m then true
              else match billing o with None => true | Some b => (N.of_nat (seats_used o) <? seats b)%N end
  | None => match billing o with None => true | Some b => (N.of_nat (seats_used o) <? seats b)%N end
  end.

Definition scim_token_valid `{SignedTexts} (o : Org) (token : string) : bool :=
  match scim_token_sha256 o with Some stored => String.eqb (sha256_hex (bytes_of token)) stored | None => false end.

Definition accepts_proof `{SignedTexts} (i : OrganizationInvitationRecord) (proof : string) (now_ms : N) : bool :=
  bool_decide (iv_status i = Pending) && (now_ms <? expires_at_ms i)%N && negb (blank proof)
  && String.eqb (proof_sha256 i) (sha256_hex (bytes_of (trim proof))).

(** ** Domains *)


(** [s.rsplit_once('@')], the part after *)
Fixpoint after_last (sep : ascii) (s : string) : option string :=
  match s with
  | EmptyString => None
  | String c s =>
      match after_last sep s with
      | Some rest => Some rest
      | None => if Ascii.eqb c sep then Some s else None
      end
  end.

Definition domain_is_verified (o : Org) (email : string) : bool :=
  match after_last "@" email with
  | None => false
  | Some domain =>
      if String.eqb domain "" then false
      else match org o with
           | Some r => existsb (λ d, eq_ignore_ascii_case d domain) (verified_domains r)
           | None => false
           end
  end.

(** The last record of an id decides: it is there when that record is an upsert. *)
Definition last_of {R} (op : R → RecordOp) (id : R → string) (rs : list R) (key : string) : option R :=
  match last (filter (λ r, id r = key) rs) with
  | Some r => match op r with Upsert => Some r | Tombstone => None end
  | None => None
  end.

Lemma by_id_lookup {R} (op : R → RecordOp) (id : R → string) rs key :
  foldl (by_id op id) ∅ rs !! key = last_of op id rs key.
Proof.
  unfold last_of. induction rs as [|r rs IH] using rev_ind; [done|].
  rewrite foldl_snoc, filter_app, filter_cons, filter_nil. unfold by_id at 1. case_decide as Hk.
  - rewrite last_snoc. destruct (op r); [by rewrite Hk, lookup_insert_eq|by rewrite Hk, lookup_delete_eq].
  - rewrite app_nil_r, <-IH. destruct (op r); [by rewrite lookup_insert_ne|by rewrite lookup_delete_ne].
Qed.

Lemma find_member_some o p m : find_member o p = Some m → (∃ k, members o !! k = Some m) ∧ p m = true.
Proof.
  unfold find_member. intros [Hin Hp]%find_some. split; [|done]. by apply elem_of_btree_values, list_elem_of_In.
Qed.

Lemma find_member_none o p : find_member o p = None ↔ ∀ k m, members o !! k = Some m → p m = false.
Proof.
  unfold find_member. split.
  - intros Hnone k m Hm. eapply find_none; [exact Hnone|]. apply list_elem_of_In, elem_of_btree_values. by exists k.
  - intros Hall. destruct (List.find p (btree_values (members o))) as [m|] eqn:Hf; [|done].
    apply find_some in Hf as [Hin Hp]. apply list_elem_of_In, elem_of_btree_values in Hin as [k Hk]. by rewrite (Hall k m Hk) in Hp.
Qed.

(** Standing is an active membership. *)
Lemma role_of_none o a :
  role_of o a = None ↔ ∀ k m, members o !! k = Some m → mb_authority m = a → mb_status m ≠ Active.
Proof.
  unfold role_of. rewrite fmap_None, find_member_none. split.
  - intros H k m Hm <-. specialize (H k m Hm). rewrite String.eqb_refl in H. by apply bool_decide_eq_false in H.
  - intros H k m Hm. destruct (String.eqb_spec (mb_authority m) a); [|done]. apply bool_decide_eq_false. by eapply H.
Qed.

Lemma can_access_iff o a p :
  can_access_project o a p = true ↔
  ∃ r, role_of o a = Some r ∧
    (r = AccessControl.owner ∨ r = AccessControl.admin
     ∨ ∃ k g, grants o !! k = Some g ∧ gr_authority g = a ∧ gr_project_id g = p).
Proof.
  unfold can_access_project. destruct (role_of o a) as [r|]; [|naive_solver].
  rewrite !orb_true_iff, !String.eqb_eq, existsb_exists. split.
  - intros [[?|?]|(g & Hg & Hag)]; exists r; (split; [done|]); [by left|right; by left|right; right]. apply list_elem_of_In, elem_of_btree_values in Hg as [k Hk]. exists k, g.
    apply andb_true_iff in Hag as [?%String.eqb_eq ?%String.eqb_eq]. done.
  - intros (r' & [= <-] & [?|[?|(k & g & Hg & <- & <-)]]); [by left; left|by left; right|]. right. exists g.
    rewrite !String.eqb_refl. split; [|done]. apply list_elem_of_In, elem_of_btree_values. by exists k.
Qed.

(** The kinds the directory is folded from. *)
Definition ORG_KINDS : list string :=
  ["org"; "membership"; "organization_invitation"; "policy"; "placement_policy"; "software_policy"; "sso"; "sso_credential";
   "sso_admission"; "sso_browser_test"; "scim_token"; "scim_sync"; "security"; "billing"; "billing_contact"; "archetype_approval";
   "project_sharing"; "organization_session_revocation"; "member_grant"; "group_mapping"].

Ltac listed := unfold ORG_KINDS; repeat first [apply list_elem_of_here|apply list_elem_of_further].

(** ** Properties *)

Section directory.
Context `{J : OrgJson} (codec : option ContentCodec).

(** The directory is its log, latest record wins. When an organization's directory
    rebuilds, each member, grant and group mapping that is in it is the last record of its
    id among the records of its kind, an upsert, and every such record is in it; what was
    tombstoned last is not. *)
Theorem latest_record_wins db s o :
  rebuild_in codec db s = Ok o →
  (∃ rs, Forall2 (λ row r, from_json membership_json row = Some r) (records codec db s "membership") rs
     ∧ ∀ key, members o !! key = last_of mb_op mb_id rs key)
  ∧ (∃ rs, Forall2 (λ row r, from_json grant_json row = Some r) (records codec db s "member_grant") rs
     ∧ ∀ key, grants o !! key = last_of gr_op gr_id rs key)
  ∧ (∃ rs, Forall2 (λ row r, from_json group_mapping_json row = Some r) (records codec db s "group_mapping") rs
     ∧ ∀ key, group_mappings o !! key = last_of gm_op gm_id rs key).
Proof.
  unfold rebuild_in, fold_in. intros Hr.
  repeat match type of Hr with
         | (match ?m with Ok _ => _ | Err _ => _ end) = _ => destruct m eqn:?; [|done]
         end.
  injection Hr as <-. cbn [members grants group_mappings].
  split_and!; match goal with
    | E : fold_rows ?j _ ∅ (records codec db s ?k) = Ok ?m |- context [records codec db s ?k] =>
        apply fold_rows_ok in E as (rs & Hrs & ->); exists rs; split; [exact Hrs|intros; apply by_id_lookup]
    end.
Qed.

Lemma rebuilt_members db s o :
  rebuild_in codec db s = Ok o → fold_rows membership_json (by_id mb_op mb_id) ∅ (records codec db s "membership") = Ok (members o).
Proof.
  unfold rebuild_in, fold_in. intros Hr.
  repeat match type of Hr with
         | (match ?m with Ok _ => _ | Err _ => _ end) = _ => destruct m eqn:?; [|done]
         end.
  by injection Hr as <-.
Qed.

(** A directory reads its own scope and kinds only. *)
Lemma rebuild_ext db db' s : (∀ k, k ∈ ORG_KINDS → records codec db' s k = records codec db s k) → rebuild_in codec db' s = rebuild_in codec db s.
Proof.
  intros Hk. unfold rebuild_in, fold_in.
  rewrite !Hk by listed. reflexivity.
Qed.

(** Records of members change the members alone. *)
Lemma rebuild_members db db' s o rows ms :
  rebuild_in codec db s = Ok o →
  (∀ k, k ∈ ORG_KINDS → k ≠ "membership" → records codec db' s k = records codec db s k) →
  records codec db' s "membership" = records codec db s "membership" ++ rows →
  fold_rows membership_json (by_id mb_op mb_id) (members o) rows = Ok ms →
  rebuild_in codec db' s = Ok (o <| members := ms |>).
Proof.
  intros Ho Hk Hm Hrows. revert Ho Hrows. unfold rebuild_in, fold_in. rewrite Hm, fold_rows_app.
  rewrite !Hk by (discriminate || listed). intros Ho.
  repeat match type of Ho with
         | (match ?m with Ok _ => _ | Err _ => _ end) = _ => destruct m eqn:?; [|done]
         end.
  injection Ho as <-. cbn [members]. intros ->. reflexivity.
Qed.

(** Records of the profile and of members change these two alone. *)
Lemma rebuild_directory db db' s o orows mrows og ms :
  rebuild_in codec db s = Ok o →
  (∀ k, k ∈ ORG_KINDS → k ≠ "membership" → k ≠ "org" → records codec db' s k = records codec db s k) →
  records codec db' s "org" = records codec db s "org" ++ orows → fold_rows org_json (singleton or_op id) (org o) orows = Ok og →
  records codec db' s "membership" = records codec db s "membership" ++ mrows →
  fold_rows membership_json (by_id mb_op mb_id) (members o) mrows = Ok ms →
  rebuild_in codec db' s = Ok (o <| org := og |> <| members := ms |>).
Proof.
  intros Ho Hk Horg Hog Hm Hms. revert Ho Hog Hms. unfold rebuild_in, fold_in. rewrite Hm, Horg, !fold_rows_app.
  rewrite !Hk by (discriminate || listed). intros Ho.
  repeat match type of Ho with
         | (match ?m with Ok _ => _ | Err _ => _ end) = _ => destruct m eqn:?; [|done]
         end.
  injection Ho as <-. cbn [members org]. intros -> ->. reflexivity.
Qed.

(** Members are upserts filed under their ids. *)
Lemma members_filed db s o k m : rebuild_in codec db s = Ok o → members o !! k = Some m → mb_id m = k ∧ mb_op m = Upsert.
Proof.
  intros Ho Hk. apply rebuilt_members in Ho. apply fold_rows_ok in Ho as (rs & _ & Hm). rewrite Hm, by_id_lookup in Hk. unfold last_of in Hk.
  destruct (last (filter _ rs)) as [r|] eqn:Hl; [|done]. apply last_Some_elem_of, list_elem_of_filter in Hl as [Hid _].
  destruct (mb_op r) eqn:Hop; [|done]. by injection Hk as <-.
Qed.

Context `{!CodecLaws codec} `{!JsonLaws membership_json}.

(** Whoever else writes, a membership record changes its organization's members alone. *)
Lemma membership_appended db s o m row db' p :
  db_ok db → rebuild_in codec db s = Ok o → to_json membership_json m = Some row →
  append_record codec db s "membership" row = (db', Ok p) →
  rebuild_in codec db' s
  = Ok (o <| members ::= λ ms, by_id mb_op mb_id ms m |>)
  ∧ ∀ s', s' ≠ s → rebuild_in codec db' s' = rebuild_in codec db s'.
Proof.
  intros Hok Ho Hrow Happ.
  pose proof (λ s' k, proj2 (append_record_records codec db s "membership" row db' p s' k Hok Happ)) as Hrec.
  assert (∀ s' k, s' ≠ s ∨ k ≠ "membership" → records codec db' s' k = records codec db s' k) as Hother.
  { intros s' k Hne. rewrite Hrec, bool_decide_eq_false_2, app_nil_r; [done|]. intros [-> <-]. naive_solver. }
  split.
  - revert Ho. unfold rebuild_in, fold_in. rewrite (Hrec s "membership"), bool_decide_eq_true_2 by done.
    rewrite !(Hother s) by (by right). rewrite (fold_rows_snoc _ _ _ _ _ m) by (by apply json_roundtrip). intros Ho.
    repeat match type of Ho with
           | (match ?m with Ok _ => _ | Err _ => _ end) = _ => destruct m eqn:?; [|done]
           end.
    injection Ho as <-. reflexivity.
  - intros s' Hs'. unfold rebuild_in, fold_in. by rewrite !(Hother s') by (by left).
Qed.

(** Offboarding takes standing away at once. After a membership record that does not
    make its member active, an authority none of whose other memberships is active has no
    role, reaches no project and gets no role joined; other organizations' directories are
    as they were. *)
Theorem offboarded db s o m row db' p :
  db_ok db → rebuild_in codec db s = Ok o → to_json membership_json m = Some row →
  append_record codec db s "membership" row = (db', Ok p) →
  (mb_op m = Tombstone ∨ mb_status m ≠ Active) →
  (∀ k m', members o !! k = Some m' → k ≠ mb_id m → mb_authority m' = mb_authority m → mb_status m' ≠ Active) →
  ∃ o', rebuild_in codec db' s = Ok o'
    ∧ role_of o' (mb_authority m) = None
    ∧ (∀ project, can_access_project o' (mb_authority m) project = false)
    ∧ (∀ a, with_directory_role o' a (mb_authority m) = a)
    ∧ (∀ k, k ≠ mb_id m → members o' !! k = members o !! k)
    ∧ ∀ s', s' ≠ s → rebuild_in codec db' s' = rebuild_in codec db s'.
Proof.
  intros Hok Ho Hrow Happ Hin Hothers. destruct (membership_appended _ _ _ _ _ _ _ Hok Ho Hrow Happ) as [Hr Hs].
  eexists. split; [exact Hr|]. set (o' := o <| members ::= _ |>).
  assert (∀ k, k ≠ mb_id m → members o' !! k = members o !! k) as Hkeep.
  { intros k Hk. subst o'. cbn. unfold by_id. destruct (mb_op m); [by rewrite lookup_insert_ne|by rewrite lookup_delete_ne]. }
  assert (role_of o' (mb_authority m) = None) as Hrole.
  { apply role_of_none. intros k m' Hm' Ha. destruct (base.decide (k = mb_id m)) as [->|Hk].
    - subst o'. cbn in Hm'. unfold by_id in Hm'. destruct (mb_op m) eqn:Hop; [|by rewrite lookup_delete_eq in Hm'].
      rewrite lookup_insert_eq in Hm'. injection Hm' as <-. naive_solver.
    - rewrite Hkeep in Hm' by done. by eapply Hothers. }
  split_and!; [done| | |done|done].
  - intros project. unfold can_access_project. by rewrite Hrole.
  - intros a. unfold with_directory_role. rewrite Hrole. by destruct (bool_decide _).
Qed.
End directory.

(** A group never confers a privileged role, whatever mappings are recorded, and it
    confers only a role and team some group of the user is mapped to. *)
Theorem groups_never_privilege o groups role team :
  role_for_groups o groups = Some (role, team) →
  role ∉ PRIVILEGED_ROLES ∧ ∃ g m, g ∈ groups ∧ group_mappings o !! g = Some m ∧ gm_role m = role ∧ gm_team m = team.
Proof.
  unfold role_for_groups. destruct (head _) as [m|] eqn:Hh; [|done].
  destruct (is_privileged_role (gm_role m)) eqn:Hp; [done|]. intros [= <- <-].
  apply bool_decide_eq_false in Hp. split; [done|].
  apply head_Some_elem_of, list_elem_of_omap in Hh as (g & Hg & Hm). by exists g, m.
Qed.

Definition count_active (m : gmap string MembershipRecord) : nat := length (List.filter is_active (btree_values m)).

Lemma count_perm (l l' : list MembershipRecord) : l ≡ₚ l' → length (List.filter is_active l) = length (List.filter is_active l').
Proof. induction 1; cbn; repeat case_match; cbn; congruence. Qed.

Lemma count_delete m k :
  count_active m = count_active (delete k m)
    + match m !! k with Some old => if is_active old then 1 else 0 | None => 0 end.
Proof.
  unfold count_active. destruct (m !! k) as [old|] eqn:Hk.
  - rewrite (count_perm _ _ (btree_values_delete m k old Hk)). cbn. destruct (is_active old); cbn; lia.
  - rewrite delete_id by done. lia.
Qed.

Lemma count_insert m k v : count_active (<[k := v]> m) = count_active (delete k m) + if is_active v then 1 else 0.
Proof. rewrite (count_delete (<[k := v]> m) k), delete_insert_eq, lookup_insert_eq. done. Qed.

(** Seats are never overdrawn by an activation. Of any records written for members, each
    one that makes a member active only when a seat was available for it, the active
    members are at most the purchased seats, or as many as there were. *)
Theorem seats_bounded o b ms :
  billing o = Some b →
  let write o m := o <| members ::= λ ms, by_id mb_op mb_id ms m |> in
  let admitted o m := if bool_decide (mb_op m = Upsert) && is_active m && negb (seat_available_for o (mb_id m))
                      then o else write o m in
  (N.of_nat (seats_used (foldl admitted o ms)) ≤ N.max (N.of_nat (seats_used o)) (seats b))%N.
Proof.
  intros Hb write admitted.
  assert (∀ ms o, billing o = Some b → (N.of_nat (seats_used (foldl admitted o ms)) ≤ N.max (N.of_nat (seats_used o)) (seats b))%N) as Hall;
    [|by apply Hall].
  clear o Hb. induction ms0 as [|m ms0 IH]; intros o Hb; cbn [foldl]; [lia|].
  assert (billing (admitted o m) = Some b) as Hb' by (unfold admitted; by destruct (_ && _)).
  specialize (IH _ Hb'). enough (N.of_nat (seats_used (admitted o m)) ≤ N.max (N.of_nat (seats_used o)) (seats b))%N by lia.
  clear IH Hb'. unfold admitted. destruct (bool_decide (mb_op m = Upsert) && is_active m) eqn:Hact; cbn [andb].
  - apply andb_true_iff in Hact as [Hop%bool_decide_eq_true Hact]. unfold seat_available_for. rewrite Hb.
    assert (seats_used (write o m) = count_active (delete (mb_id m) (members o)) + 1) as Hw.
    { unfold seats_used, write. cbn. unfold by_id. rewrite Hop. fold (count_active (<[mb_id m := m]> (members o))).
      by rewrite count_insert, Hact. }
    pose proof (count_delete (members o) (mb_id m)) as Hd. change (count_active (members o)) with (seats_used o) in Hd.
    destruct (members o !! mb_id m) as [old|]; [destruct (is_active old)|];
      [cbn [negb]; rewrite Hw; lia|..]; destruct (N.ltb_spec (N.of_nat (seats_used o)) (seats b)); cbn [negb]; lia.
  - assert (seats_used (write o m) ≤ seats_used o) as Hle; [|lia].
    pose proof (count_delete (members o) (mb_id m)) as Hd. change (count_active (members o)) with (seats_used o) in Hd.
    unfold seats_used at 1, write. cbn. unfold by_id. destruct (mb_op m).
    + rewrite bool_decide_true in Hact by done. cbn in Hact. fold (count_active (<[mb_id m := m]> (members o))).
      rewrite count_insert, Hact. lia.
    + fold (count_active (delete (mb_id m) (members o))). lia.
Qed.

(** ** Examples *)

Module OrganizationSample.

Definition no_json {R} : Json R := mkJson (λ _, None) (λ _, None).

Definition status_code (s : MembershipStatus) : nat := match s with Invited => 0 | Active => 1 | Deprovisioned => 2 end.
Definition code_status (n : nat) : MembershipStatus := match n with 0 => Invited | 1 => Active | _ => Deprovisioned end.
Definition op_code (o : RecordOp) : bool := match o with Upsert => true | Tombstone => false end.
Definition code_op (b : bool) : RecordOp := if b then Upsert else Tombstone.

Definition sample_membership : Json MembershipRecord := mkJson
  (λ m, Some (write_bits (countable.encode
     (mb_id m, op_code (mb_op m), mb_org_id m, mb_authority m, mb_email m, mb_role m, status_code (mb_status m),
      managed_by_scim m, mb_team m))))
  (λ s, (λ x : string * bool * string * string * string * string * nat * bool * option string,
           let '(i, op, og, a, e, r, st, sc, t) := x in mkMembership i (code_op op) og a e r (code_status st) sc t)
          <$> countable.decode (read_bits s)).

#[export] Instance sample_membership_laws : JsonLaws sample_membership.
Proof.
  intros [i op og a e r st sc t] p. cbn [sample_membership to_json from_json]. intros [= <-].
  rewrite bits_roundtrip, countable.decode_encode. by destruct op, st.
Qed.

#[export] Instance sample_json : OrgJson := {|
  org_json := no_json; membership_json := sample_membership; invitation_json := no_json; policy_json := no_json;
  placement_json := no_json; software_json := no_json; sso_json := no_json; credential_json := no_json;
  admission_json := no_json; browser_test_json := no_json; scim_token_json := no_json; scim_sync_json := no_json;
  security_json := no_json; billing_json := no_json; contact_json := no_json; approval_json := no_json;
  sharing_json := no_json; revocation_json := no_json; grant_json := no_json; group_mapping_json := no_json;
|}.

#[export] Instance plain_laws : CodecLaws None.
Proof. intros c scope kind plain stored. discriminate. Qed.

Definition ann (s : MembershipStatus) : MembershipRecord :=
  mkMembership "m1" Upsert "org" "authority-ann" "ann@x" "admin" s false None.
Definition row (m : MembershipRecord) : string := default "" (to_json membership_json m).

Definition db1 : Db := (append_record None empty_db ORG_SCOPE "membership" (row (ann Active))).1.

Lemma db1_ok : db_ok db1.
Proof.
  pose proof empty_db_ok as H.
  by destruct (append_record_grows None (λ _, True) empty_db ORG_SCOPE "membership" (row (ann Active)) H I) as (new & [] & _).
Qed.

Definition org1 : Org := mkOrg ORG_SCOPE None {["m1" := ann Active]} ∅ ∅ ∅ None None None None None None [] None []
  None None None None None ∅.

Lemma rebuilt : rebuild_in None db1 ORG_SCOPE = Ok org1.
Proof. vm_compute. reflexivity. Qed.

Lemma latest_record_wins_witness :
  rebuild_in None db1 ORG_SCOPE = Ok org1
  ∧ ∃ rs, Forall2 (λ row r, from_json membership_json row = Some r) (records None db1 ORG_SCOPE "membership") rs
      ∧ ∀ key, members org1 !! key = last_of mb_op mb_id rs key.
Proof. split; [exact rebuilt|]. exact (proj1 (latest_record_wins None db1 ORG_SCOPE org1 rebuilt)). Defined.

Definition db2 : Db := (append_record None db1 ORG_SCOPE "membership" (row (ann Deprovisioned))).1.

Lemma offboarded_witness :
  role_of org1 "authority-ann" = Some "admin"
  ∧ ∃ o', rebuild_in None db2 ORG_SCOPE = Ok o' ∧ role_of o' "authority-ann" = None
      ∧ ∀ project, can_access_project o' "authority-ann" project = false.
Proof.
  split; [vm_compute; reflexivity|].
  destruct (offboarded None db1 ORG_SCOPE org1 (ann Deprovisioned) (row (ann Deprovisioned)) db2 1%Z) as (o' & Ho & Hr & Ha & _).
  - exact db1_ok.
  - exact rebuilt.
  - reflexivity.
  - vm_compute. reflexivity.
  - right. discriminate.
  - intros k m' Hm Hk _. cbn in Hm. apply lookup_singleton_Some in Hm as [<- _]. contradiction.
  - exists o'. split; [exact Ho|]. split; [exact Hr|exact Ha].
Defined.

Definition grouped : Org := org1 <| group_mappings :=
  {["staff" := mkGroupMapping "staff" Upsert "staff" "billing" None;
    "bosses" := mkGroupMapping "bosses" Upsert "bosses" "owner" None]} |>.

Lemma groups_never_privilege_witness :
  role_for_groups grouped ["staff"] = Some ("billing", None) ∧ "billing" ∉ PRIVILEGED_ROLES.
Proof.
  assert (role_for_groups grouped ["staff"] = Some ("billing", None)) as H by (vm_compute; reflexivity).
  split; [exact H|]. exact (proj1 (groups_never_privilege grouped ["staff"] "billing" None H)).
Defined.

(** A mapping into a privileged role is not passed over: it hides those of the groups
    after it. *)
Example privileged_mapping_masks : role_for_groups grouped ["bosses"; "staff"] = None.
Proof. vm_compute. reflexivity. Qed.

Definition seated : Org := org1 <| billing := Some (mkBilling "b" Upsert "team" 1 None) |>.
Definition bob : MembershipRecord := mkMembership "m2" Upsert "org" "authority-bob" "bob@x" "member" Active false None.

Lemma seats_bounded_witness :
  billing seated = Some (mkBilling "b" Upsert "team" 1 None)
  ∧ (N.of_nat (seats_used (foldl (λ o m, if bool_decide (mb_op m = Upsert) && is_active m && negb (seat_available_for o (mb_id m))
        then o else o <| members ::= λ ms, by_id mb_op mb_id ms m |>) seated [bob; ann Deprovisioned; bob])) ≤ 1)%N.
Proof.
  split; [reflexivity|].
  exact (seats_bounded seated (mkBilling "b" Upsert "team" 1 None) [bob; ann Deprovisioned; bob] eq_refl).
Defined.

End OrganizationSample.
