(* ===== verification/MembershipFence.v ===== *)
(** * The member-standing fence

    [crates/app/src/membership_fence.rs]: a command that changes who is a member of a hosted
    organization is committed only with one receipt of the remote standing authority for each
    person whose standing it changes. The transitions of a command's facts, the receipts that
    are retained with it, and their check against the exact command. The remote authority is
    asked elsewhere; [serde_json] and SHA-256 are arguments. *)

From S2P Require Import Prelude Ids Federation Lifecycle Store Commands RecordAdmission Records Texts SignedText Organization.

Definition COMMITTED_DENIAL_KIND : string := "gaugevault-committed-member-denial-v1".
Definition COMMITTED_ACTIVATION_KIND : string := "gaugevault-committed-member-activation-v1".

Record CommittedDenial := mkDenial {
  dn_command_scope : string;
  dn_key : string;
  dn_snapshot_digest : string;
  dn_operation : string;
  dn_owner_scope : ScopeId;
  dn_member : string;
}.

#[export] Instance CommittedDenial_eq_dec : EqDecision CommittedDenial.
Proof. solve_decision. Defined.

(** The observation is opaque. *)
Record CommittedActivation (V : Type) := mkActivation {
  ac_command_scope : string;
  ac_key : string;
  ac_snapshot_digest : string;
  ac_owner_scope : ScopeId;
  ac_member : string;
  ac_observed : V;
}.
Arguments mkActivation {V}.
Arguments ac_command_scope {V}.
Arguments ac_key {V}.
Arguments ac_snapshot_digest {V}.
Arguments ac_owner_scope {V}.
Arguments ac_member {V}.

Inductive MembershipTransition := Deny (owner_scope : ScopeId) (member : string) | Activate (owner_scope : ScopeId) (member : string).

Definition transition_member (t : MembershipTransition) : string := match t with Deny _ m | Activate _ m => m end.

Section fence.
Context `{J : OrgJson} `{ST : SignedTexts} {V : Type}.
Context (denial_json : Json CommittedDenial) (activation_json : Json (CommittedActivation V)).
Context (codec : option ContentCodec).

(** ** Facts that change standing *)

Definition changes_member_standing (facts : list CommandRecordFact) : bool :=
  existsb (λ fact,
    String.eqb (fact_kind fact) "membership"
    || (String.eqb (fact_kind fact) "org"
        && match from_json org_json (fact_payload fact) with
           | Some record => bool_decide (or_op record = Tombstone)
           | None => true
           end)) facts.

Definition invalid_owner {T} : result failure T := rejected "member-standing fence requires an exact named tenant scope".

Definition validate_named_owner (owner : ScopeId) : result failure unit :=
  match strip_prefix (ORG_SCOPE +:+ "::") (as_str owner) with
  | Some tenant =>
      if negb (String.eqb tenant "") && String.eqb (trim tenant) tenant then
        if String.eqb (tenant_scope tenant) (as_str owner) then Ok () else invalid_owner
      else invalid_owner
  | None => invalid_owner
  end.

(** The person a record names; an invitation may name none yet. *)
Definition named_member (missing uncanonical : string) (record : MembershipRecord) : result failure (option string) :=
  let member := trim (mb_authority record) in
  if String.eqb member "" then
    if bool_decide (mb_op record = Upsert) && bool_decide (mb_status record = Invited) then Ok None else rejected missing
  else if negb (String.eqb member (mb_authority record)) then rejected uncanonical
  else Ok (Some member).

Definition historical_step (named : gset string) (payload : string) : result failure (gset string) :=
  let? record := ok_or (from_json membership_json payload) (Failed AE_Json) in
  let? member := named_member "member-standing history has a record without an authority"
                   "member-standing history has an uncanonical authority" record in
  Ok (match member with Some m => {[m]} ∪ named | None => named end).

Definition historical_named_members (db : Db) (owner : ScopeId) : result failure (gset string) :=
  let? _ := validate_named_owner owner in
  let? rows := retained_records codec db (as_str owner) "membership" in
  try_fold historical_step ∅ rows.

Definition stand (by_member : gmap string bool) (member : string) (active : bool) : result failure (gmap string bool) :=
  match by_member !! member with
  | Some prior => if Bool.eqb prior active then Ok (<[member := active]> by_member)
                  else rejected "membership command gives one person conflicting standing"
  | None => Ok (<[member := active]> by_member)
  end.

Definition stands (record : MembershipRecord) : bool := bool_decide (mb_op record = Upsert) && bool_decide (mb_status record = Active).

Definition fact_step (db : Db) (owner : ScopeId) (st : gmap string bool * bool) (fact : CommandRecordFact)
    : result failure (gmap string bool * bool) :=
  if negb (String.eqb (fact_kind fact) "membership" || String.eqb (fact_kind fact) "org") then Ok st
  else if negb (String.eqb (fact_scope fact) (as_str owner)) then invalid_owner
  else if String.eqb (fact_kind fact) "membership" then
    let? record := ok_or (from_json membership_json (fact_payload fact)) (Failed AE_Json) in
    let? member := named_member "membership fact has no person authority" "membership fact has an uncanonical person authority" record in
    match member with
    | None => Ok st
    | Some member => let? m := stand st.1 member (stands record) in Ok (m, st.2)
    end
  else
    let? record := ok_or (from_json org_json (fact_payload fact)) (Failed AE_Json) in
    if bool_decide (or_op record = Tombstone) then
      let? named := historical_named_members db owner in
      let? m := try_fold (λ m member, stand m member false) st.1 (btree_set_iter named) in
      Ok (m, true)
    else Ok st.

Definition transition_of (owner : ScopeId) (x : string * bool) : MembershipTransition :=
  if x.2 then Activate owner x.1 else Deny owner x.1.

Definition membership_transitions (db : Db) (owner : ScopeId) (facts : list CommandRecordFact) : result failure (list MembershipTransition) :=
  let? _ := validate_named_owner owner in
  let? st := try_fold (fact_step db owner) (∅, false) facts in
  if (st.2 : bool) && existsb snd (btree_iter st.1) then rejected "organization closure cannot activate a member"
  else Ok (transition_of owner <$> btree_iter st.1).

(** ** Receipts *)

Definition digest (value : string) : string := sha256_hex (bytes_of value).

Definition denial_operation (command_scope key snapshot : string) : string :=
  digest (command_scope +:+ String newline (key +:+ String newline snapshot)).

Definition committed_denial (command_scope key snapshot : string) (owner : ScopeId) (member : string) : CommittedDenial :=
  mkDenial command_scope key (digest snapshot) (denial_operation command_scope key snapshot) owner member.

(** A panic of [expect] is [None]. *)
Definition committed_denial_fact (command_scope key snapshot : string) (owner : ScopeId) (member : string) : option CommandRecordFact :=
  mkFact command_scope COMMITTED_DENIAL_KIND <$> to_json denial_json (committed_denial command_scope key snapshot owner member).

Definition committed_activation_fact (command_scope key snapshot : string) (owner : ScopeId) (member : string) (observed : V)
    : option CommandRecordFact :=
  mkFact command_scope COMMITTED_ACTIVATION_KIND
    <$> to_json activation_json (mkActivation command_scope key (digest snapshot) owner member observed).

Definition invalid_receipts {T} : result failure T := rejected "member-standing receipts do not match the exact command".

Definition receipt_member (owner : ScopeId) (command_scope key snapshot : string) (fact : CommandRecordFact) : result failure string :=
  if String.eqb (fact_kind fact) COMMITTED_DENIAL_KIND then
    match from_json denial_json (fact_payload fact) with
    | Some r =>
        if String.eqb (dn_command_scope r) command_scope && String.eqb (dn_key r) key && String.eqb (dn_snapshot_digest r) (digest snapshot)
           && String.eqb (dn_operation r) (denial_operation command_scope key snapshot) && bool_decide (dn_owner_scope r = owner)
        then Ok (dn_member r) else invalid_receipts
    | None => invalid_receipts
    end
  else if String.eqb (fact_kind fact) COMMITTED_ACTIVATION_KIND then
    match from_json activation_json (fact_payload fact) with
    | Some r =>
        if String.eqb (ac_command_scope r) command_scope && String.eqb (ac_key r) key && String.eqb (ac_snapshot_digest r) (digest snapshot)
           && bool_decide (ac_owner_scope r = owner)
        then Ok (ac_member r) else invalid_receipts
    | None => invalid_receipts
    end
  else invalid_receipts.

Definition receipt_kind (t : MembershipTransition) : string :=
  match t with Deny _ _ => COMMITTED_DENIAL_KIND | Activate _ _ => COMMITTED_ACTIVATION_KIND end.

(** One receipt takes its member off the list. *)
Definition receipt_step (owner : ScopeId) (command_scope key snapshot : string) (expected : gmap string string)
    (fact : CommandRecordFact) : result failure (gmap string string) :=
  if negb (String.eqb (fact_scope fact) command_scope) then invalid_receipts
  else
    let? member := receipt_member owner command_scope key snapshot fact in
    if bool_decide (expected !! member = Some (fact_kind fact)) then Ok (delete member expected) else invalid_receipts.

Definition expected_receipts (ts : list MembershipTransition) : gmap string string :=
  foldl (λ m t, <[transition_member t := receipt_kind t]> m) ∅ ts.

Definition validate_staged_receipts (db : Db) (owner : ScopeId) (command_scope key snapshot : string)
    (domain_facts receipts : list CommandRecordFact) : result failure unit :=
  let? transitions := membership_transitions db owner domain_facts in
  if negb (Nat.eqb (length transitions) (length receipts)) then invalid_receipts
  else
    let? rest := try_fold (receipt_step owner command_scope key snapshot) (expected_receipts transitions) receipts in
    if bool_decide (rest = ∅) then Ok () else invalid_receipts.
End fence.

(** ** The transitions of a command *)

Section facts.
Context `{J : OrgJson} `{ST : SignedTexts} {V : Type}.
Context (denial_json : Json CommittedDenial) (activation_json : Json (CommittedActivation V)).
Context (codec : option ContentCodec).

(** One standing recorded does not change another. *)
Lemma stand_keeps m a b m' : stand m a b = Ok m' → m' !! a = Some b ∧ ∀ x y, m !! x = Some y → m' !! x = Some y.
Proof.
  unfold stand. destruct (m !! a) as [prior|] eqn:Ha; [destruct (Bool.eqb prior b) eqn:Hb; [|done]|]; intros [= <-]; (split; [by rewrite lookup_insert_eq|]);
    intros x y Hx; (destruct (String.eq_dec x a) as [->|]; [|by rewrite lookup_insert_ne]); [|congruence].
  apply Bool.eqb_prop in Hb. rewrite lookup_insert_eq. congruence.
Qed.

Lemma stand_all_keeps l : ∀ m m',
  try_fold (λ m member, stand m member false) m l = Ok m' →
  (∀ a, a ∈ l → m' !! a = Some false) ∧ ∀ x y, m !! x = Some y → m' !! x = Some y.
Proof.
  induction l as [|a l IH]; intros m m'; cbn [try_fold]; [intros [= <-]; split; [by intros a ?%elem_of_nil|done]|].
  destruct (stand m a false) as [m1|] eqn:H1; [|done]. intros Hop. destruct (IH _ _ Hop) as [Hl Hk]. destruct (stand_keeps _ _ _ _ H1) as [Ha Hk1].
  split; [|by auto]. intros x [->|Hx]%elem_of_cons; auto.
Qed.

(** What a fact says of a person stays said. *)
Lemma fact_step_keeps db owner st fact st' :
  fact_step codec db owner st fact = Ok st' →
  (∀ x y, st.1 !! x = Some y → st'.1 !! x = Some y) ∧ (st.2 = true → st'.2 = true)
  ∧ (fact_kind fact = "membership" → ∃ r, from_json membership_json (fact_payload fact) = Some r
       ∧ (trim (mb_authority r) ≠ "" → st'.1 !! mb_authority r = Some (stands r)))
  ∧ (fact_kind fact = "org" → ∀ r, from_json org_json (fact_payload fact) = Some r → or_op r = Tombstone →
       st'.2 = true ∧ ∃ named, historical_named_members codec db owner = Ok named ∧ ∀ a, a ∈ named → st'.1 !! a = Some false).
Proof.
  unfold fact_step. destruct (String.eqb_spec (fact_kind fact) "membership") as [Hm|Hm]; cbn [orb negb].
  - destruct (negb _); [done|]. destruct (from_json membership_json (fact_payload fact)) as [r|]; [|done]. cbn [ok_or].
    unfold named_member. destruct (String.eqb_spec (trim (mb_authority r)) "") as [Ht|Ht].
    + destruct (bool_decide (mb_op r = Upsert) && _); [|done]. intros [= <-]. split_and!; [done|done| |by rewrite Hm]. intros _. by exists r.
    + destruct (String.eqb_spec (trim (mb_authority r)) (mb_authority r)) as [Hc|]; [|done]. cbn [negb]. rewrite Hc.
      destruct (stand st.1 (mb_authority r) (stands r)) as [m|] eqn:Hs; [|done]. intros [= <-]. apply stand_keeps in Hs as [Ha Hk].
      split_and!; [done|done| |by rewrite Hm]. intros _. by exists r.
  - destruct (String.eqb_spec (fact_kind fact) "org") as [Ho|Ho]; cbn [negb]; [|by intros [= <-]; split_and!].
    destruct (negb _); [done|]. destruct (from_json org_json (fact_payload fact)) as [r|]; [|done]. cbn [ok_or]. case_bool_decide as Hop.
    + destruct (historical_named_members codec db owner) as [named|]; [|done]. destruct (try_fold _ _ _) as [m|] eqn:Hf; [|done]. intros [= <-].
      apply stand_all_keeps in Hf as [Hl Hk]. split_and!; [done|done|done|]. intros _ r' [= <-] _. split; [done|]. exists named. split; [done|].
      intros a Ha. apply Hl. by apply elem_of_btree_set_iter.
    + intros [= <-]. split_and!; [done|done|done|]. intros _ r' [= <-]. done.
Qed.

(** What the facts say together. *)
Lemma facts_keep db owner facts : ∀ st st',
  try_fold (fact_step codec db owner) st facts = Ok st' →
  (∀ x y, st.1 !! x = Some y → st'.1 !! x = Some y) ∧ (st.2 = true → st'.2 = true)
  ∧ (∀ fact, fact ∈ facts → fact_kind fact = "membership" → ∃ r, from_json membership_json (fact_payload fact) = Some r
       ∧ (trim (mb_authority r) ≠ "" → st'.1 !! mb_authority r = Some (stands r)))
  ∧ (∀ fact r, fact ∈ facts → fact_kind fact = "org" → from_json org_json (fact_payload fact) = Some r → or_op r = Tombstone →
       st'.2 = true ∧ ∃ named, historical_named_members codec db owner = Ok named ∧ ∀ a, a ∈ named → st'.1 !! a = Some false).
Proof.
  induction facts as [|fact facts IH]; intros st st'; cbn [try_fold].
  { intros [= <-]. split_and!; [done|done|by intros f ?%elem_of_nil|by intros f r ?%elem_of_nil]. }
  destruct (fact_step codec db owner st fact) as [st1|] eqn:H1; [|done]. intros Hop.
  destruct (fact_step_keeps _ _ _ _ _ H1) as (Hk1 & Hc1 & Hm1 & Ho1). destruct (IH _ _ Hop) as (Hk & Hc & Hm & Ho). split_and!; [by auto|by auto| |].
  - intros f [->|Hf]%elem_of_cons Hkind; [|by apply Hm]. destruct (Hm1 Hkind) as (r & Hr & Hs). exists r. split; [done|]. intros Ht. by apply Hk, Hs.
  - intros f r [->|Hf]%elem_of_cons Hkind Hr Hop'; [|by eapply Ho]. destruct (Ho1 Hkind r Hr Hop') as (Hcl & named & Hn & Hs).
    split; [by apply Hc|]. exists named. split; [done|]. intros a Ha. by apply Hk, Hs.
Qed.

Lemma transitions_inv db owner facts ts :
  membership_transitions codec db owner facts = Ok ts →
  ∃ m closing, try_fold (fact_step codec db owner) (∅, false) facts = Ok (m, closing) ∧ ts = transition_of owner <$> btree_iter m
  ∧ (closing = true → ∀ a, m !! a ≠ Some true).
Proof.
  unfold membership_transitions. destruct (validate_named_owner owner); [|done]. destruct (try_fold _ _ _) as [[m closing]|]; [|done]. cbn [fst snd].
  destruct (closing && existsb snd (btree_iter m)) eqn:Hc; [done|]. intros [= <-]. exists m, closing. split_and!; [done|done|].
  intros -> a Ha. cbn in Hc. assert (existsb snd (btree_iter m) = true) as Ht; [|congruence].
  apply existsb_exists. exists (a, true). split; [|done]. apply list_elem_of_In. by apply elem_of_btree_iter.
Qed.

Lemma transition_listed owner (m : gmap string bool) a b : m !! a = Some b → transition_of owner (a, b) ∈ transition_of owner <$> btree_iter m.
Proof. intros Ha. apply list_elem_of_fmap_2. by apply elem_of_btree_iter. Qed.

(** ** Receipts of the exact command *)

(** [fact] is a receipt of this command for the transition. *)
Definition receipt_for (owner : ScopeId) (command_scope key snapshot : string) (x : string * string) (fact : CommandRecordFact) : Prop :=
  fact_scope fact = command_scope ∧ fact_kind fact = x.2
  ∧ (fact_kind fact = COMMITTED_DENIAL_KIND
       ∧ from_json denial_json (fact_payload fact) = Some (committed_denial command_scope key snapshot owner x.1)
     ∨ fact_kind fact = COMMITTED_ACTIVATION_KIND
       ∧ ∃ observed, from_json activation_json (fact_payload fact) = Some (mkActivation command_scope key (digest snapshot) owner x.1 observed)).

Lemma receipt_member_spec owner command_scope key snapshot fact member :
  receipt_member denial_json activation_json owner command_scope key snapshot fact = Ok member →
  fact_scope fact = command_scope → receipt_for owner command_scope key snapshot (member, fact_kind fact) fact.
Proof.
  unfold receipt_member, receipt_for. intros Hop Hs. split_and!; [done|done|]. cbn [fst snd].
  destruct (String.eqb_spec (fact_kind fact) COMMITTED_DENIAL_KIND) as [Hd|_]; [left|destruct (String.eqb_spec (fact_kind fact) COMMITTED_ACTIVATION_KIND) as [Ha|]; [right|done]].
  - destruct (from_json denial_json (fact_payload fact)) as [[c k d o ow m]|]; [|done]. cbn in Hop.
    destruct (_ && _) eqn:Hc in Hop; [|done]. injection Hop as <-. rewrite !andb_true_iff, !String.eqb_eq, bool_decide_eq_true in Hc.
    destruct Hc as ((((-> & ->) & ->) & ->) & ->). done.
  - destruct (from_json activation_json (fact_payload fact)) as [[c k d ow m obs]|]; [|done]. cbn in Hop.
    destruct (_ && _) eqn:Hc in Hop; [|done]. injection Hop as <-. rewrite !andb_true_iff, !String.eqb_eq, bool_decide_eq_true in Hc.
    destruct Hc as (((-> & ->) & ->) & ->). split; [done|by exists obs].
Qed.

Lemma receipts_used owner command_scope key snapshot receipts : ∀ e rest,
  try_fold (receipt_step denial_json activation_json owner command_scope key snapshot) e receipts = Ok rest →
  ∃ used, Forall2 (receipt_for owner command_scope key snapshot) used receipts ∧ map_to_list e ≡ₚ used ++ map_to_list rest.
Proof.
  induction receipts as [|fact receipts IH]; intros e rest; cbn [try_fold]; [intros [= <-]; by exists []|].
  unfold receipt_step at 1. destruct (String.eqb_spec (fact_scope fact) command_scope) as [Hs|]; [|done]. cbn [negb].
  destruct (receipt_member _ _ _ _ _ _ fact) as [member|] eqn:Hm; [|done]. case_bool_decide as He; [|done]. intros Hop.
  destruct (IH _ _ Hop) as (used & Hu & Hp). exists ((member, fact_kind fact) :: used). split.
  - constructor; [by apply receipt_member_spec|done].
  - cbn. rewrite <-Hp. symmetry. by apply map_to_list_delete.
Qed.

Definition transition_key (t : MembershipTransition) : string * string := (transition_member t, receipt_kind t).

Lemma expected_listed (owner : ScopeId) (l : list (string * bool)) :
  NoDup l.*1 → map_to_list (expected_receipts (transition_of owner <$> l)) ≡ₚ transition_key <$> (transition_of owner <$> l).
Proof.
  unfold expected_receipts. intros Hd. induction l as [|x l IH] using rev_ind; [done|].
  rewrite fmap_app in Hd. apply NoDup_app in Hd as (Hd & Hx & _). rewrite (fmap_app (transition_of owner)), foldl_app. cbn [fmap list_fmap foldl].
  assert (∀ a, a ∉ l.*1 → foldl (λ (m : gmap string string) t, <[transition_member t := receipt_kind t]> m) ∅ (transition_of owner <$> l) !! a = None) as Hnone.
  { intros a Ha. destruct (_ !! a) as [k|] eqn:Hk; [|done]. apply elem_of_map_to_list in Hk. rewrite (IH Hd) in Hk.
    apply list_elem_of_fmap in Hk as (t & Ht & Hin). apply list_elem_of_fmap in Hin as ([b [|]] & -> & Hin); injection Ht as -> _;
      destruct Ha; by apply (list_elem_of_fmap_2 fst) in Hin. }
  assert (transition_member (transition_of owner x) = x.1) as Hm by (by destruct x as [? []]).
  rewrite map_to_list_insert, (IH Hd) by (rewrite Hm; apply Hnone; intros Hin; apply (Hx _ Hin), list_elem_of_singleton; done).
  rewrite fmap_app. cbn [fmap list_fmap]. by rewrite Permutation_app_comm.
Qed.

(** A command that changes standing carries its receipts, no more and no fewer. When the
    check passes, the command's transitions and its receipts pair off: each receipt was
    retained in the command's scope for exactly one of them, binds the command's scope, key
    and snapshot and the owner, and says denial or activation as the transition does. *)
Theorem standing_receipts_exact db owner command_scope key snapshot facts receipts :
  validate_staged_receipts denial_json activation_json codec db owner command_scope key snapshot facts receipts = Ok () →
  ∃ ts, membership_transitions codec db owner facts = Ok ts
  ∧ NoDup (transition_member <$> ts)
  ∧ ∃ ts', ts' ≡ₚ ts ∧ Forall2 (λ t fact, receipt_for owner command_scope key snapshot (transition_key t) fact) ts' receipts.
Proof.
  unfold validate_staged_receipts. destruct (membership_transitions codec db owner facts) as [ts|] eqn:Hts; [|done].
  destruct (negb _); [done|]. destruct (try_fold _ _ receipts) as [rest|] eqn:Hf; [|done]. case_bool_decide as Hr; [|done]. subst rest. intros _.
  destruct (transitions_inv _ _ _ _ Hts) as (m & closing & _ & -> & _). exists (transition_of owner <$> btree_iter m). split; [done|].
  assert (NoDup (btree_iter m).*1) as Hd by (rewrite btree_iter_perm; apply NoDup_fst_map_to_list).
  assert (transition_member <$> (transition_of owner <$> btree_iter m) = (btree_iter m).*1) as Hfst.
  { rewrite <-list_fmap_compose. apply list_fmap_ext. by intros ? [? []]. }
  split; [by rewrite Hfst|]. destruct (receipts_used _ _ _ _ _ _ _ Hf) as (used & Hu & Hp). rewrite map_to_list_empty, app_nil_r, expected_listed in Hp by done.
  symmetry in Hp. apply Permutation_map_inv in Hp as (ts' & -> & Hp). exists ts'. split; [by symmetry|]. by rewrite Forall2_fmap_l in Hu.
Qed.

(** ** The directory after the facts *)

(** Who is a member under an id before and after is one person. *)
Definition same_person (ms : gmap string MembershipRecord) (facts : list CommandRecordFact) : Prop :=
  ∀ f r, f ∈ facts → fact_kind f = "membership" → from_json membership_json (fact_payload f) = Some r →
    ∀ r0, ms !! mb_id r = Some r0 → mb_authority r0 = mb_authority r.

Definition membership_rows (facts : list CommandRecordFact) : list string := fact_payload <$> filter (λ f, fact_kind f = "membership") facts.

Lemma by_id_after rs : ∀ (ms : gmap string MembershipRecord) k,
  foldl (by_id mb_op mb_id) ms rs !! k = ms !! k
  ∨ ∃ r, r ∈ rs ∧ mb_id r = k ∧ foldl (by_id mb_op mb_id) ms rs !! k = match mb_op r with Upsert => Some r | Tombstone => None end.
Proof.
  induction rs as [|r rs IH] using rev_ind; intros ms k; [by left|]. rewrite foldl_app. cbn [foldl].
  destruct (String.eq_dec (mb_id r) k) as [<-|Hne].
  - right. exists r. split_and!; [set_solver|done|]. unfold by_id at 1. destruct (mb_op r); [by rewrite lookup_insert_eq|by rewrite lookup_delete_eq].
  - assert (by_id mb_op mb_id (foldl (by_id mb_op mb_id) ms rs) r !! k = foldl (by_id mb_op mb_id) ms rs !! k) as ->.
    { unfold by_id at 1. destruct (mb_op r); [by rewrite lookup_insert_ne|by rewrite lookup_delete_ne]. }
    destruct (IH ms k) as [?|(r' & Hr' & Hid & Heq)]; [by left|right]. exists r'. split_and!; [set_solver|done|done].
Qed.

Lemma standing_iff o a : role_of o a ≠ None ↔ ∃ k r, members o !! k = Some r ∧ mb_authority r = a ∧ mb_status r = Active.
Proof.
  split.
  - intros Hn. destruct (role_of o a) eqn:Hr; [|done]. unfold role_of in Hr. destruct (find_member o _) as [r'|] eqn:Hf; [|done].
    apply find_member_some in Hf as [[k Hk] Hp]. apply andb_true_iff in Hp as [Ha%String.eqb_eq Hact%bool_decide_eq_true]. by exists k, r'.
  - intros (k & r & Hk & Ha & Hs) Hnone. rewrite role_of_none in Hnone. by eapply Hnone.
Qed.

(** The members of the directory are upserts. *)
Lemma member_row db owner o k r :
  rebuild_in codec db owner = Ok o → members o !! k = Some r →
  ∃ row, row ∈ records codec db owner "membership" ∧ from_json membership_json row = Some r.
Proof.
  intros Ho Hk. apply rebuilt_members in Ho. apply fold_rows_ok in Ho as (rs & Hrs & Hm). rewrite Hm, by_id_lookup in Hk. unfold last_of in Hk.
  destruct (last (filter _ rs)) as [r'|] eqn:Hl; [|done]. assert (r' = r) as -> by (destruct (mb_op r'); congruence).
  apply last_Some_elem_of, list_elem_of_filter in Hl as [_ Hin]. apply list_elem_of_lookup in Hin as [i Hi].
  destruct (Forall2_lookup_r _ _ _ _ _ Hrs Hi) as (row & Hrow & Hj). exists row. split; [by eapply list_elem_of_lookup_2|done].
Qed.

Lemma historical_named db owner named r row :
  historical_named_members codec db owner = Ok named → row ∈ records codec db (as_str owner) "membership" →
  from_json membership_json row = Some r → trim (mb_authority r) ≠ "" → mb_authority r ∈ named.
Proof.
  unfold historical_named_members. destruct (validate_named_owner owner); [|done]. destruct (retained_records _ _ _ _) as [rows|] eqn:Hret; [|done].
  rewrite (retained_is_all _ _ _ _ _ Hret). clear Hret. intros Hop Hrow Hr Ht.
  assert (∀ rows s s', try_fold historical_step s rows = Ok s' → (∀ x, x ∈ s → x ∈ s') ∧ (row ∈ rows → mb_authority r ∈ s')) as Hrows; [|by eapply Hrows].
  clear Hop Hrow. induction rows0 as [|row' rows0 IH]; intros s s'; cbn [try_fold]; [intros [= <-]; split; [done|by intros ?%elem_of_nil]|].
  destruct (historical_step s row') as [s1|] eqn:H1; [|done]. intros Hop. destruct (IH _ _ Hop) as [Hk Hin].
  unfold historical_step in H1. destruct (from_json membership_json row') as [r'|] eqn:Hr'; [|done]. cbn [ok_or] in H1.
  destruct (named_member _ _ r') as [[member|]|] eqn:Hn; [| |done]; injection H1 as <-.
  - split; [intros x Hx; apply Hk; set_solver|]. intros [->|Hx]%elem_of_cons; [|by apply Hin]. apply Hk.
    assert (r' = r) as -> by congruence. unfold named_member in Hn. rewrite (proj2 (String.eqb_neq _ _) Ht) in Hn.
    destruct (String.eqb_spec (trim (mb_authority r)) (mb_authority r)) as [Hc|]; [|done]. injection Hn as <-. rewrite Hc. set_solver.
  - split; [done|]. intros [->|Hx]%elem_of_cons; [|by apply Hin]. assert (r' = r) as -> by congruence. exfalso. unfold named_member in Hn.
    rewrite (proj2 (String.eqb_neq _ _) Ht) in Hn. by destruct (negb _).
Qed.

(** C36: No standing changes without its transition. When the facts of a command were
    classified and written, and no record gives a member's id to another person, whoever
    gained an active membership was listed as activated and whoever lost theirs as denied;
    when the organization is closed, everyone who had standing is denied. *)
Theorem standing_fenced db db' owner facts ts o o' :
  membership_transitions codec db owner facts = Ok ts →
  rebuild_in codec db (as_str owner) = Ok o → rebuild_in codec db' (as_str owner) = Ok o' →
  records codec db' (as_str owner) "membership" = records codec db (as_str owner) "membership" ++ membership_rows facts →
  same_person (members o) facts →
  ∀ a, trim a ≠ "" →
    (role_of o a = None → role_of o' a ≠ None → Activate owner a ∈ ts)
    ∧ (role_of o a ≠ None → role_of o' a = None → Deny owner a ∈ ts)
    ∧ (role_of o a ≠ None → (∃ f r, f ∈ facts ∧ fact_kind f = "org" ∧ from_json org_json (fact_payload f) = Some r ∧ or_op r = Tombstone) →
       Deny owner a ∈ ts).
Proof.
  intros Hts Ho Ho' Hrec Hsame a Ht. destruct (transitions_inv _ _ _ _ Hts) as (m & closing & Hf & -> & _).
  destruct (facts_keep _ _ _ _ _ Hf) as (_ & _ & Hmem & Horg). cbn [fst snd] in *.
  pose proof (rebuilt_members codec db' (as_str owner) o' Ho') as Hm'. rewrite Hrec, fold_rows_app, (rebuilt_members codec db (as_str owner) o Ho) in Hm'.
  apply fold_rows_ok in Hm' as (rs & Hrs & Hms).
  assert (∀ r, r ∈ rs → (∃ f, f ∈ facts ∧ fact_kind f = "membership" ∧ from_json membership_json (fact_payload f) = Some r)
    ∧ (trim (mb_authority r) ≠ "" → m !! mb_authority r = Some (stands r))) as Hfact.
  { intros r [i Hi]%list_elem_of_lookup. destruct (Forall2_lookup_r _ _ _ _ _ Hrs Hi) as (row & Hrow%list_elem_of_lookup_2 & Hj).
    apply list_elem_of_fmap in Hrow as (f & -> & [Hk Hin]%list_elem_of_filter). destruct (Hmem f Hin Hk) as (r' & Hr' & Hs).
    assert (r' = r) as -> by congruence. split; [by exists f|done]. }
  assert (∀ k, members o' !! k = members o !! k ∨ ∃ r, r ∈ rs ∧ mb_id r = k ∧ members o' !! k = match mb_op r with Upsert => Some r | Tombstone => None end) as Hkey
    by (intros k; rewrite Hms; apply by_id_after).
  split_and!.
  - intros Hno Hyes. apply standing_iff in Hyes as (k & r & Hk & <- & Hact). destruct (Hkey k) as [Heq|(r' & Hin & _ & Heq)].
    + exfalso. apply (proj2 (standing_iff o (mb_authority r))); [|done]. exists k, r. by rewrite <-Heq.
    + rewrite Heq in Hk. destruct (mb_op r') eqn:Hop; [|done]. injection Hk as ->. apply (transition_listed owner m (mb_authority r) true).
      destruct (Hfact r Hin) as [_ Hs]. rewrite Hs by done. f_equal. unfold stands. by rewrite Hop, Hact.
  - intros Hyes Hno. apply standing_iff in Hyes as (k & r & Hk & <- & Hact). destruct (Hkey k) as [Heq|(r' & Hin & Hid & Heq)].
    + exfalso. apply (proj2 (standing_iff o' (mb_authority r))); [|done]. exists k, r. by rewrite Heq.
    + apply (transition_listed owner m (mb_authority r) false). destruct (Hfact r' Hin) as [(f & Hfin & Hkind & Hj) Hs].
      assert (mb_authority r = mb_authority r') as Ha by (eapply Hsame; [done..|by rewrite Hid]). rewrite Ha in *. rewrite Hs by done. f_equal.
      unfold stands. destruct (mb_op r') eqn:Hop; [|done]. rewrite bool_decide_eq_true_2 by done. cbn [andb]. case_bool_decide as Hst; [|done]. exfalso.
      apply (proj2 (standing_iff o' (mb_authority r'))); [|done]. exists k, r'. by rewrite Heq.
  - intros Hyes (f & r & Hin & Hkind & Hj & Hop). destruct (Horg f r Hin Hkind Hj Hop) as (_ & named & Hn & Hall).
    apply standing_iff in Hyes as (k & r0 & Hk & <- & _). apply (transition_listed owner m (mb_authority r0) false), Hall.
    destruct (member_row _ _ _ _ _ Ho Hk) as (row & Hrow & Hr0). by eapply historical_named.
Qed.
End facts.

(** ** The properties at concrete inputs *)

Module FenceSample.
#[export] Existing Instances SampleTexts.sample_p256 SampleTexts.sample_texts OrganizationSample.sample_json.

Definition owner : ScopeId := mkId "org::acme".
Definition person (id authority : string) (s : MembershipStatus) : MembershipRecord :=
  mkMembership id Upsert "acme" authority "" "admin" s false None.
Definition row (m : MembershipRecord) : string := default "" (to_json membership_json m).
Definition write (db : Db) (m : MembershipRecord) : Db := (append_record None db (as_str owner) "membership" (row m)).1.

Definition before : Db := write empty_db (person "m1" "ann" Active).
Definition offboard : list CommandRecordFact := [mkFact (as_str owner) "membership" (row (person "m1" "ann" Deprovisioned))].
Definition after : Db := write before (person "m1" "ann" Deprovisioned).

Definition org_of (db : Db) : Org :=
  match rebuild_in None db (as_str owner) with
  | Ok o => o
  | Err _ => mkOrg "" None ∅ ∅ ∅ ∅ None None None None None None [] None [] None None None None None ∅
  end.

Definition denial_json : Json CommittedDenial := table_json [("denied", committed_denial "cmd" "k" "snap" owner "ann")].
Definition activation_json : Json (CommittedActivation unit) := mkJson (λ _, None) (λ _, None).

Lemma standing_receipts_exact_witness :
  ∃ ts', ts' ≡ₚ [Deny owner "ann"]
    ∧ Forall2 (λ t fact, receipt_for denial_json activation_json owner "cmd" "k" "snap" (transition_key t) fact) ts'
        [mkFact "cmd" COMMITTED_DENIAL_KIND "denied"].
Proof.
  assert (validate_staged_receipts denial_json activation_json None before owner "cmd" "k" "snap" offboard
    [mkFact "cmd" COMMITTED_DENIAL_KIND "denied"] = Ok ()) as H by (vm_compute; reflexivity).
  destruct (standing_receipts_exact denial_json activation_json None before owner "cmd" "k" "snap" offboard _ H) as (ts & Hts & _ & ts' & Hp & Hf).
  assert (membership_transitions None before owner offboard = Ok [Deny owner "ann"]) as Hc by (vm_compute; reflexivity).
  rewrite Hc in Hts. injection Hts as <-. exists ts'. split; [exact Hp|exact Hf].
Defined.

Lemma standing_fenced_witness : role_of (org_of before) "ann" = Some "admin" ∧ role_of (org_of after) "ann" = None ∧ Deny owner "ann" ∈ [Deny owner "ann"].
Proof.
  assert (role_of (org_of before) "ann" = Some "admin") as H1 by (vm_compute; reflexivity).
  assert (role_of (org_of after) "ann" = None) as H2 by (vm_compute; reflexivity). split; [exact H1|]. split; [exact H2|].
  refine (proj1 (proj2 (standing_fenced None before after owner offboard [Deny owner "ann"] (org_of before) (org_of after) _ _ _ _ _ "ann" _)) _ H2).
  - vm_compute. reflexivity.
  - vm_compute. reflexivity.
  - vm_compute. reflexivity.
  - vm_compute. reflexivity.
  - intros f r Hf _ Hr r0 Hr0. apply list_elem_of_singleton in Hf as ->.
    assert (from_json membership_json (fact_payload (mkFact (as_str owner) "membership" (row (person "m1" "ann" Deprovisioned)))) = Some (person "m1" "ann" Deprovisioned)) as H by (vm_compute; reflexivity).
    rewrite H in Hr. injection Hr as <-. assert (members (org_of before) !! "m1" = Some (person "m1" "ann" Active)) as Hb by (vm_compute; reflexivity).
    cbn [mb_id person] in Hr0. rewrite Hb in Hr0. injection Hr0 as <-. reflexivity.
  - vm_compute. discriminate.
  - rewrite H1. discriminate.
Defined.

(** A record that gives a member's id to another person ends the first one's standing, and
    only the second one's change is listed. *)
Definition reassign : MembershipRecord := person "m1" "bob" Active.
Example unlisted_loss :
  membership_transitions None before owner [mkFact (as_str owner) "membership" (row reassign)] = Ok [Activate owner "bob"]
  ∧ role_of (org_of before) "ann" = Some "admin" ∧ role_of (org_of (write before reassign)) "ann" = None.
Proof. vm_compute. repeat split. Qed.
End FenceSample.
