(* ===== verification/Tenancy.v ===== *)
(** * Persons and tenants

    [crates/app/src/tenancy.rs] over the directories of [Organization.v]: the tenants a person
    belongs to, invitations and their pointers, the personal tenant and new organizations,
    the claims of retried creations and the deletion of an organization; with
    [crates/app/src/facility.rs] and [account_scope] of [account.rs]. [serde_json] is an
    argument, as is the configuration of a facility; a new organization's random bytes are
    given. The choice of a project's host, which is an admitted request of the store, has its
    lifecycle here. *)

From S2P Require Import Prelude Ids Federation Lifecycle Store Commands RecordAdmission Records Texts SignedText Organization.

(** ** Accounts and facilities *)

Definition ACCOUNT_SCOPE : string := "account".
Definition account_scope (person : string) : string :=
  if String.eqb person "" then ACCOUNT_SCOPE else ACCOUNT_SCOPE +:+ "::" +:+ person.

Definition FACILITY_KIND : string := "facility".
Inductive FacilityKind := LibrarySync | CloudBackup | HostedHomeNode | RegisteredHost.
Inductive FacilityOwner := FO_Tenant | FO_Person.
Inductive FacilityStatus := FS_Provisioning | FS_Active | FS_Suspended | FS_Retention | FS_Deleted | FS_Revoked.
#[export] Instance FacilityKind_eq_dec : EqDecision FacilityKind.
Proof. solve_decision. Defined.
#[export] Instance FacilityOwner_eq_dec : EqDecision FacilityOwner.
Proof. solve_decision. Defined.
#[export] Instance FacilityStatus_eq_dec : EqDecision FacilityStatus.
Proof. solve_decision. Defined.

Record FacilityRecord (Config : Type) := mkFacility {
  fa_id : string;
  fa_op : RecordOp;
  fa_kind : FacilityKind;
  fa_owner : FacilityOwner;
  fa_status : FacilityStatus;
  fa_display_name : string;
  fa_config : Config;
}.
Arguments fa_id {Config}.
Arguments fa_op {Config}.
Arguments fa_kind {Config}.
Arguments fa_owner {Config}.
Arguments fa_status {Config}.

Section facility.
Context {Config : Type} (facility_json : Json (FacilityRecord Config)) (codec : option ContentCodec).

Definition facility_usable (f : FacilityRecord Config) : bool := bool_decide (fa_status f = FS_Active).
Definition is_tenant_billable (f : FacilityRecord Config) : bool := bool_decide (fa_owner f = FO_Tenant).

Definition facilities_in (db : Db) (s : string) : result failure (gmap string (FacilityRecord Config)) :=
  fold_rows facility_json (by_id fa_op fa_id) ∅ (records codec db s FACILITY_KIND).
Definition facilities_account (db : Db) := facilities_in db ACCOUNT_SCOPE.
Definition facilities_tenant (db : Db) (tenant : string) := facilities_in db (tenant_scope tenant).

Definition active_facilities (m : gmap string (FacilityRecord Config)) : list (FacilityRecord Config) :=
  List.filter facility_usable (btree_values m).
Definition has_active (m : gmap string (FacilityRecord Config)) (kind : FacilityKind) : bool :=
  existsb (λ f, bool_decide (fa_kind f = kind) && facility_usable f) (btree_values m).
Definition is_usable (m : gmap string (FacilityRecord Config)) (id : string) : bool :=
  match m !! id with Some f => facility_usable f | None => false end.
End facility.

(** ** Records of a person *)

Definition TENANT_REF_KIND : string := "tenant_ref".
Definition TENANT_INVITATION_KIND : string := "tenant_invitation".
Definition TENANT_CLAIM_KIND : string := "tenant_claim".
Definition ORGANIZATION_PROJECT_KIND : string := "organization_project".

Record TenantInvitationPointer := mkPointer { pt_id : string; pt_op : RecordOp }.
Record TenantRef := mkTenantRef { tr_id : string; tr_op : RecordOp; tr_display_name : string; tr_role : string; personal : bool }.
Record PendingTenantInvitation := mkPending { pi_tenant_id : string; pi_display_name : string; pi_role : string }.
Record TenantClaimRecord := mkClaim { cl_id : string; cl_op : RecordOp; cl_tenant_id : string }.
Record OrganizationProjectIntent := mkIntent {
  in_id : string;
  project_id : string;
  founding_owner : string;
  in_display_name : string;
  home_id : option string;
}.
#[export] Instance TenantInvitationPointer_eq_dec : EqDecision TenantInvitationPointer.
Proof. solve_decision. Defined.
#[export] Instance TenantRef_eq_dec : EqDecision TenantRef.
Proof. solve_decision. Defined.
#[export] Instance OrganizationProjectIntent_eq_dec : EqDecision OrganizationProjectIntent.
Proof. solve_decision. Defined.

Class TenancyJson := {
  ref_json : Json TenantRef;
  pointer_json : Json TenantInvitationPointer;
  claim_json : Json TenantClaimRecord;
  intent_json : Json OrganizationProjectIntent;
}.

Definition personal_tenant_id (root : string) : string := "personal:" +:+ root.

(** ** The placement of an organization's project *)

Definition placement_decide (state : option OrganizationProjectIntent) (command : OrganizationProjectIntent)
    : result Rejection (list OrganizationProjectIntent) :=
  match state with
  | None => reject "organization project was not reserved"
  | Some existing =>
      if negb (String.eqb (project_id existing) (project_id command)) || negb (String.eqb (founding_owner existing) (founding_owner command))
         || match home_id existing with Some home => bool_decide (home_id command ≠ Some home) | None => false end
      then reject "organization project is already bound"
      else Ok (if bool_decide (existing ≠ command) then [command] else [])
  end.

Definition placement_evolve (_ : option OrganizationProjectIntent) (event : OrganizationProjectIntent) : option OrganizationProjectIntent :=
  Some event.

Definition placement_lifecycle : Lifecycle := {|
  lc_state := option OrganizationProjectIntent;
  lc_command := OrganizationProjectIntent;
  lc_event := OrganizationProjectIntent;
  lc_default := None;
  KIND := ORGANIZATION_PROJECT_KIND;
  lc_decide := placement_decide;
  lc_evolve := λ s e, Some (placement_evolve s e);
  lc_snapshot_codec := None;
|}.

Section tenancy.
Context `{J : OrgJson} `{TJ : TenancyJson}.
Context {Config : Type} (facility_json : Json (FacilityRecord Config)) (codec : option ContentCodec).

Definition append_one (s kind payload : string) : Prog unit := do _ <- (λ db, append_record codec db s kind payload); ret ().
Definition append_all (rs : list (string * string * string)) : Prog unit := do _ <- (λ db, append_records_atomically codec db rs); ret ().

Definition organization_project_intent (db : Db) (tenant_id : string) : result failure (option OrganizationProjectIntent) :=
  fold_rows intent_json (λ _ i, Some i) None (records codec db (tenant_scope tenant_id) ORGANIZATION_PROJECT_KIND).

(** *** The switcher *)

Definition tenancy_in (db : Db) (s : string) : result failure (gmap string TenantRef) :=
  fold_rows ref_json (by_id tr_op tr_id) ∅ (records codec db s TENANT_REF_KIND).
Definition tenancy (db : Db) : result failure (gmap string TenantRef) := tenancy_in db ACCOUNT_SCOPE.
Definition tenancy_list (t : gmap string TenantRef) : list TenantRef := btree_values t.
Definition personal_tenant (t : gmap string TenantRef) : option TenantRef := List.find personal (btree_values t).

(** *** Invitations *)

(** The account and the pointer a membership write must carry. *)
Definition tenant_invitation_pointer_for (s : string) (record : MembershipRecord) : option (string * TenantInvitationPointer) :=
  if negb (bool_decide (mb_op record = Upsert)) || negb (bool_decide (mb_status record = Invited)) then None
  else
    let authority := trim (mb_authority record) in
    if String.eqb authority "" || negb (String.eqb authority (mb_authority record)) then None
    else
      tenant_id ← strip_prefix "org::" s;
      if String.eqb tenant_id "" || negb (String.eqb (tenant_scope tenant_id) s) then None
      else Some (account_scope authority, mkPointer tenant_id Upsert).

Definition append_membership_in (s : string) (record : MembershipRecord) : Prog unit :=
  do membership <- serialized membership_json record;
  match tenant_invitation_pointer_for s record with
  | Some (account, pointer) =>
      match to_json pointer_json pointer with
      | None => λ db, (db, Err Unwound)
      | Some p => append_all [(s, "membership", membership); (account, TENANT_INVITATION_KIND, p)]
      end
  | None => append_one s "membership" membership
  end.

Fixpoint confirmed (db : Db) (authority : string) (pointed : list (string * RecordOp)) : result failure (list PendingTenantInvitation) :=
  match pointed with
  | [] => Ok []
  | (tenant_id, op) :: pointed =>
      if negb (bool_decide (op = Upsert)) || String.eqb tenant_id "" then confirmed db authority pointed
      else
        let s := tenant_scope tenant_id in
        if negb (bool_decide (strip_prefix "org::" s = Some tenant_id)) then confirmed db authority pointed
        else
          let? o := rebuild_in codec db s in
          let role := match member_by_authority o authority with
                      | Some m => if bool_decide (mb_status m = Invited) then Some (mb_role m) else None
                      | None => None
                      end in
          match org o, role with
          | Some og, Some role =>
              let? rest := confirmed db authority pointed in Ok (mkPending tenant_id (display_name og) role :: rest)
          | _, _ => confirmed db authority pointed
          end
  end.

Definition pointers_in (db : Db) (account : string) : result failure (gmap string RecordOp) :=
  fold_rows pointer_json (λ m p, <[pt_id p := pt_op p]> m) ∅ (records codec db account TENANT_INVITATION_KIND).

Definition pending_tenant_invitations_in (db : Db) (authority : string) : result failure (list PendingTenantInvitation) :=
  let? pointed := pointers_in db (account_scope authority) in confirmed db authority (btree_iter pointed).

Definition pointing (db : Db) (account tenant_id : string) : result failure bool :=
  fold_rows pointer_json (λ pointing p, if String.eqb (pt_id p) tenant_id then bool_decide (pt_op p = Upsert) else pointing) false
    (records codec db account TENANT_INVITATION_KIND).

(** A record to write, if it is to be written. *)
Definition record_if {R} (b : bool) (s kind : string) (json : Json R) (r : R) : Prog (list (string * string * string)) :=
  if b then do p <- serialized json r; ret [(s, kind, p)] else ret [].

Definition accept_tenant_invitation_in (authority tenant_id : string) : Prog (option TenantRef) :=
  let s := tenant_scope tenant_id in
  if String.eqb s ORG_SCOPE then ret None
  else
    do o <- reads (λ db, rebuild_in codec db s);
    match member_by_authority o authority, org o with
    | Some member, Some og =>
        if bool_decide (mb_status member = Deprovisioned) then ret None
        else
          let tenant := mkTenantRef tenant_id Upsert (display_name og) (mb_role member) false in
          let account := account_scope authority in
          do t <- reads (λ db, tenancy_in db account);
          let indexed := match t !! tenant_id with
                         | Some e => String.eqb (tr_display_name e) (tr_display_name tenant) && String.eqb (tr_role e) (tr_role tenant) && negb (personal e)
                         | None => false
                         end in
          do r1 <- record_if (bool_decide (mb_status member = Invited)) s "membership" membership_json (member <| mb_status := Active |>);
          do r2 <- record_if (negb indexed) account TENANT_REF_KIND ref_json tenant;
          do p <- reads (λ db, pointing db account tenant_id);
          do r3 <- record_if p account TENANT_INVITATION_KIND pointer_json (mkPointer tenant_id Tombstone);
          do _ <- (match r1 ++ r2 ++ r3 with [] => ret () | rs => append_all rs end);
          ret (Some tenant)
    | _, _ => ret None
    end.

(** *** Provisioning *)

Definition named_org (op : RecordOp) (display : string) : OrgRecord := mkOrgRecord ORG_ID op display [] [] None.
Definition sole_owner (root tenant_id : string) : MembershipRecord :=
  mkMembership root Upsert tenant_id root "" "owner" Active false None.

Definition provision_personal_tenant (root display : string) : Prog string :=
  let tid := personal_tenant_id root in
  let s := tenant_scope tid in
  let account := account_scope root in
  do o <- reads (λ db, rebuild_in codec db s);
  do t <- reads (λ db, tenancy_in db account);
  let org_exists := bool_decide (is_Some (org o)) in
  let indexed := bool_decide (is_Some (t !! tid)) in
  if org_exists && indexed then ret tid
  else
    do _ <- (if org_exists then ret () else
               do p <- serialized org_json (named_org Upsert display);
               do _ <- append_one s "org" p;
               do m <- serialized membership_json (sole_owner root tid);
               append_one s "membership" m);
    do _ <- (if indexed then ret () else
               do p <- serialized ref_json (mkTenantRef tid Upsert display "owner" true);
               append_one account TENANT_REF_KIND p);
    ret tid.

Definition organization_claimed_by (db : Db) (account key : string) : result failure (option TenantRef) :=
  let? claims := fold_rows claim_json (by_id cl_op cl_id) ∅ (records codec db account TENANT_CLAIM_KIND) in
  match claims !! key with
  | None => Ok None
  | Some claim => let? t := tenancy_in db account in Ok (t !! cl_tenant_id claim)
  end.

(** [random] is [hex::encode] of sixteen random bytes. *)
Definition provision_organization (random root account display : string) (claim : option string) : Prog TenantRef :=
  let id := "organization:" +:+ random in
  let s := tenant_scope id in
  let name := trim display in
  let tenant := mkTenantRef id Upsert name "owner" false in
  do org <- serialized org_json (named_org Upsert name);
  do owner <- serialized membership_json (sole_owner root id);
  do ref <- serialized ref_json tenant;
  do claimed <- (match claim with
                 | Some key => do p <- serialized claim_json (mkClaim key Upsert id); ret [(account, TENANT_CLAIM_KIND, p)]
                 | None => ret []
                 end);
  do intent <- serialized intent_json (mkIntent "shared" ("proj-org-" +:+ trim_start_matches "organization:" id) root name None);
  do _ <- append_all ([(s, "org", org); (s, "membership", owner); (s, ORGANIZATION_PROJECT_KIND, intent); (account, TENANT_REF_KIND, ref)] ++ claimed);
  ret tenant.

(** *** Deletion *)

Inductive DeleteOrganizationRefusal :=
| NoSuchOrganization | IsPersonal | NotAnOwner | OtherMembersRemain (n : nat) | FacilitiesRemain (n : nat).

Record DeleteOrganizationPlan := mkDeletePlan { dp_tenant : TenantRef; dp_facts : list CommandRecordFact }.

Definition other_active (o : Org) (authority : string) : nat :=
  length (List.filter (λ m, bool_decide (mb_status m = Active) && negb (String.eqb (mb_authority m) authority)) (btree_values (members o))).

Definition plan_delete_organization_in (db : Db) (authority account tenant_id : string)
    : result failure (result DeleteOrganizationRefusal DeleteOrganizationPlan) :=
  let? t := tenancy_in db account in
  match t !! tenant_id with
  | None => Ok (Err NoSuchOrganization)
  | Some tenant =>
      let s := tenant_scope tenant_id in
      if personal tenant then Ok (Err IsPersonal)
      else if String.eqb s ORG_SCOPE then Ok (Err NoSuchOrganization)
      else
        let? o := rebuild_in codec db s in
        match member_by_authority o authority with
        | None => Ok (Err NoSuchOrganization)
        | Some member =>
            if negb (bool_decide (mb_status member = Active)) || negb (String.eqb (mb_role member) "owner") then Ok (Err NotAnOwner)
            else if Nat.ltb 0 (other_active o authority) then Ok (Err (OtherMembersRemain (other_active o authority)))
            else
              let? f := facilities_in facility_json codec db s in
              if Nat.ltb 0 (length (active_facilities f)) then Ok (Err (FacilitiesRemain (length (active_facilities f))))
              else
                let? directory := ok_or (to_json org_json (named_org Tombstone "")) (Failed AE_Json) in
                let? retired := ok_or (to_json membership_json (member <| mb_status := Deprovisioned |>)) (Failed AE_Json) in
                let? dropped := ok_or (to_json ref_json (mkTenantRef tenant_id Tombstone (tr_display_name tenant) (tr_role tenant) (personal tenant))) (Failed AE_Json) in
                Ok (Ok (mkDeletePlan tenant
                  [mkFact s "org" directory; mkFact s "membership" retired; mkFact account TENANT_REF_KIND dropped]))
        end
  end.

Definition delete_organization_in (authority account tenant_id : string) : Prog (result DeleteOrganizationRefusal TenantRef) :=
  do plan <- reads (λ db, plan_delete_organization_in db authority account tenant_id);
  match plan with
  | Err refusal => ret (Err refusal)
  | Ok plan =>
      do _ <- append_all ((λ f, (fact_scope f, fact_kind f, fact_payload f)) <$> dp_facts plan);
      ret (Ok (dp_tenant plan))
  end.
End tenancy.

(** ** Frames *)

Lemma scopes_apart person tenant : account_scope person ≠ tenant_scope tenant.
Proof. unfold account_scope, tenant_scope. destruct (String.eqb person ""), (String.eqb tenant "" || _); discriminate. Qed.

Section facts.
Context `{J : OrgJson} `{TJ : TenancyJson} (codec : option ContentCodec).
Context `{!CodecLaws codec, !JsonLaws membership_json, !JsonLaws org_json, !JsonLaws ref_json, !JsonLaws pointer_json}.

Lemma tenancy_ext db db' s : records codec db' s TENANT_REF_KIND = records codec db s TENANT_REF_KIND → tenancy_in codec db' s = tenancy_in codec db s.
Proof. intros Hr. unfold tenancy_in. by rewrite Hr. Qed.

(** The switcher's entries are upserts filed under their ids. *)
Lemma tenancy_filed db s t id r : tenancy_in codec db s = Ok t → t !! id = Some r → tr_id r = id ∧ tr_op r = Upsert.
Proof.
  intros Ht Hr. apply fold_rows_ok in Ht as (rs & _ & ->). rewrite by_id_lookup in Hr. unfold last_of in Hr.
  destruct (last (filter _ rs)) as [r'|] eqn:Hl; [|done]. apply last_Some_elem_of, list_elem_of_filter in Hl as [Hid _].
  destruct (tr_op r') eqn:Hop; [|done]. by injection Hr as <-.
Qed.

Lemma append_all_spec rs db db' :
  db_ok db → append_all codec rs db = (db', Ok ()) →
  db_ok db' ∧ ∀ s k, records codec db' s k = records codec db s k ++ (snd <$> filter (λ x : string * string * string, x.1.1 = s ∧ x.1.2 = k) rs).
Proof.
  intros Hok Hop. unfold append_all, bind in Hop. destruct (append_records_atomically codec db rs) as [db1 [ps|]] eqn:Ha; [|done].
  injection Hop as <-. split; [by eapply (append_all_records codec rs db db1 ps "" "")|]. intros s k. by eapply append_all_records.
Qed.

(** *** Accepting *)

Definition activated (k : string) (m : MembershipRecord) : MembershipRecord := if String.eqb (mb_id m) k then m <| mb_status := Active |> else m.

Lemma activate_fmap (ms : gmap string MembershipRecord) k m :
  (∀ k' m', ms !! k' = Some m' → mb_id m' = k') → ms !! k = Some m → <[k := m <| mb_status := Active |>]> ms = activated k <$> ms.
Proof.
  intros Hf Hk. apply map_eq. intros k'. rewrite lookup_fmap. destruct (String.eq_dec k' k) as [->|Hne].
  - rewrite lookup_insert_eq, Hk. change (activated k <$> Some m) with (Some (activated k m)). unfold activated. by rewrite (Hf _ _ Hk), String.eqb_refl.
  - rewrite lookup_insert_ne by done. destruct (ms !! k') as [m'|] eqn:Hm'; [|done]. change (activated k <$> Some m') with (Some (activated k m')). unfold activated. rewrite (Hf _ _ Hm').
    by destruct (String.eqb_spec k' k).
Qed.

Lemma member_after_activation o k a :
  member_by_authority (o <| members := activated k <$> members o |>) a = activated k <$> member_by_authority o a.
Proof.
  unfold member_by_authority, find_member. cbn [members]. change (members (o <| members := ?x |>)) with x. rewrite btree_values_fmap, find_fmap. f_equal.
  assert (∀ l, List.find (λ m, String.eqb (mb_authority (activated k m)) a) l = List.find (λ m, String.eqb (mb_authority m) a) l) as H; [|apply H].
  induction l as [|m l IH]; cbn; [done|]. unfold activated at 1. destruct (String.eqb (mb_id m) k); cbn; by rewrite IH.
Qed.

(** What a list of records adds to one kind of one scope. *)
Definition rows_at (s k : string) (rs : list (string * string * string)) : list string :=
  snd <$> filter (λ x : string * string * string, x.1.1 = s ∧ x.1.2 = k) rs.

Lemma rows_at_app s k rs rs' : rows_at s k (rs ++ rs') = rows_at s k rs ++ rows_at s k rs'.
Proof. unfold rows_at. by rewrite filter_app, fmap_app. Qed.

Lemma rows_at_one s k s' k' p : rows_at s k [(s', k', p)] = if bool_decide (s' = s ∧ k' = k) then [p] else [].
Proof. unfold rows_at. rewrite filter_cons, filter_nil. cbn [fst snd]. case_decide; [by rewrite bool_decide_eq_true_2|by rewrite bool_decide_eq_false_2]. Qed.

(** The records [record_if] gives, at a scope and kind. *)
Lemma record_if_ok {R} b s k (json : Json R) (r : R) db db' rs :
  record_if b s k json r db = (db', Ok rs) →
  db' = db ∧ (b = false → rs = [])
  ∧ (b = true → ∃ p, to_json json r = Some p ∧ rows_at s k rs = [p])
  ∧ ∀ s' k', (s', k') ≠ (s, k) → rows_at s' k' rs = [].
Proof.
  unfold record_if, bind. destruct b.
  - destruct (serialized json r db) as [db1 [p|]] eqn:Hs; [|done]. apply serialized_ok in Hs as [-> Hp]. intros [= <- <-]. split_and!; [done|done| |].
    + intros _. exists p. by rewrite rows_at_one, bool_decide_eq_true_2.
    + intros s' k' Hne. rewrite rows_at_one, bool_decide_eq_false_2; [done|]. intros [-> ->]. done.
  - intros [= <- <-]. by split_and!.
Qed.

Lemma write_rows rs db db' :
  db_ok db → (match rs with [] => ret () | x :: l => append_all codec (x :: l) end) db = (db', Ok ()) →
  db_ok db' ∧ (rs = [] → db' = db) ∧ ∀ s k, records codec db' s k = records codec db s k ++ rows_at s k rs.
Proof.
  intros Hok Hop. destruct rs as [|x rs]; [injection Hop as <-; split_and!; [done|done|]; intros; by rewrite app_nil_r|].
  destruct (append_all_spec _ _ _ Hok Hop) as [Hok' Hr]. by split_and!.
Qed.

Lemma active_id (m : MembershipRecord) : mb_status m = Active → m <| mb_status := Active |> = m.
Proof. destruct m. cbn. by intros ->. Qed.

(** Different scopes, or different kinds. *)
Ltac apart :=
  let E := fresh in intros E;
  (discriminate E || (injection E; intros; subst; congruence) || (injection E as E; unfold TENANT_REF_KIND, TENANT_INVITATION_KIND in *; congruence)).

(** C33: An invitation is accepted by its person, whole, and once. The answer is a tenant exactly
    when the directory has the organization and a membership of the person that is not
    deprovisioned. Then that membership is active with the role it had, the person's switcher
    has the tenant, no pointer is left, every other directory and switcher is as it was, and
    accepting again writes nothing. Otherwise nothing is written. *)
Theorem invitation_accepted db a tid o t db' r :
  db_ok db → rebuild_in codec db (tenant_scope tid) = Ok o → tenancy_in codec db (account_scope a) = Ok t →
  accept_tenant_invitation_in codec a tid db = (db', Ok r) →
  match r with
  | None => db' = db ∧ (tenant_scope tid = ORG_SCOPE ∨ org o = None ∨ ∀ m, member_by_authority o a = Some m → mb_status m = Deprovisioned)
  | Some ref => ∃ m og, member_by_authority o a = Some m ∧ org o = Some og ∧ mb_status m ≠ Deprovisioned
      ∧ ref = mkTenantRef tid Upsert (display_name og) (mb_role m) false
      ∧ rebuild_in codec db' (tenant_scope tid) = Ok (o <| members := <[mb_id m := m <| mb_status := Active |>]> (members o) |>)
      ∧ tenancy_in codec db' (account_scope a) = Ok (<[tid := ref]> t)
      ∧ pointing codec db' (account_scope a) tid = Ok false
      ∧ (∀ s, s ≠ tenant_scope tid → rebuild_in codec db' s = rebuild_in codec db s)
      ∧ (∀ s, s ≠ account_scope a → tenancy_in codec db' s = tenancy_in codec db s)
      ∧ accept_tenant_invitation_in codec a tid db' = (db', Ok (Some ref))
  end.
Proof.
  intros Hok Ho Ht Hop. pose proof (scopes_apart a tid) as Hap. unfold accept_tenant_invitation_in, bind, Records.reads in Hop. cbv zeta in Hop.
  destruct (String.eqb_spec (tenant_scope tid) ORG_SCOPE) as [Hs|Hs]; [injection Hop as <- <-; auto|].
  rewrite Ho in Hop.
  destruct (member_by_authority o a) as [m|] eqn:Hm; [|injection Hop as <- <-; split; [done|]; by right; right].
  destruct (org o) as [og|] eqn:Hog; [|injection Hop as <- <-; auto].
  destruct (bool_decide_reflect (mb_status m = Deprovisioned)) as [Hd|Hd].
  { injection Hop as <- <-. split; [done|]. right. right. by intros m' [= <-]. }
  rewrite Ht in Hop. set (ref := mkTenantRef tid Upsert (display_name og) (mb_role m) false) in *.
  set (indexed := match t !! tid with Some e => _ | None => false end) in Hop. set (S := tenant_scope tid) in *. set (A := account_scope a) in *.
  destruct (record_if (bool_decide (mb_status m = Invited)) _ _ _ _ db) as [db1 [r1|]] eqn:H1; [|done].
  destruct (record_if_ok _ _ _ _ _ _ _ _ H1) as (-> & Hn1 & Hy1 & Ho1). clear H1.
  destruct (record_if (negb indexed) _ _ _ _ db) as [db2 [r2|]] eqn:H2; [|done].
  destruct (record_if_ok _ _ _ _ _ _ _ _ H2) as (-> & Hn2 & Hy2 & Ho2). clear H2.
  destruct (pointing codec db A tid) as [p|] eqn:Hp; [|done].
  destruct (record_if p _ _ _ _ db) as [db3 [r3|]] eqn:H3; [|done].
  destruct (record_if_ok _ _ _ _ _ _ _ _ H3) as (-> & Hn3 & Hy3 & Ho3). clear H3.
  destruct ((match r1 ++ r2 ++ r3 with [] => ret () | _ :: _ => _ end) db) as [db4 [[]|]] eqn:Hw; [|done]. injection Hop as <- <-.
  destruct (write_rows _ _ _ Hok Hw) as (Hok' & Hsame & Hrec). clear Hw.
  assert (∀ s k, records codec db4 s k = records codec db s k ++ rows_at s k r1 ++ rows_at s k r2 ++ rows_at s k r3) as Hr by (intros; by rewrite Hrec, !rows_at_app).
  pose proof Hm as [[k Hk] _]%find_member_some. destruct (members_filed codec db S o k m Ho Hk) as [<- Hupsert].
  set (m' := m <| mb_status := Active |>).
  assert (rebuild_in codec db4 S = Ok (o <| members := <[mb_id m := m']> (members o) |>)) as Ho'.
  { eapply (rebuild_members codec db db4 S o (rows_at S "membership" r1)); [done| | |].
    - intros k' Hin Hne. rewrite Hr, Ho1, Ho2, Ho3, !app_nil_r by apart. done.
    - rewrite Hr, Ho2, Ho3, !app_nil_r by apart. done.
    - destruct (bool_decide_reflect (mb_status m = Invited)) as [Hi|Hi].
      + destruct (Hy1 eq_refl) as (q & Hq & ->). rewrite (fold_rows_snoc membership_json _ _ [] q m') by (by apply json_roundtrip). cbn. unfold by_id. cbn. by rewrite Hupsert.
      + rewrite (Hn1 eq_refl). assert (mb_status m = Active) as Hact by (by destruct (mb_status m)).
        assert (m' = m) as Hmm by (by apply active_id). rewrite Hmm, insert_id by done. reflexivity. }
  assert (tenancy_in codec db4 A = Ok (<[tid := ref]> t)) as Ht'.
  { unfold tenancy_in in *. rewrite Hr, Ho1, Ho3, app_nil_r by apart. cbn [app]. rewrite fold_rows_app, Ht. destruct indexed eqn:Hi.
    - rewrite (Hn2 eq_refl). cbn. rewrite insert_id; [done|]. subst indexed. destruct (t !! tid) as [e|] eqn:He; [|done].
      apply andb_true_iff in Hi as [[Hi1%String.eqb_eq Hi2%String.eqb_eq]%andb_true_iff Hi3%negb_true_iff].
      destruct (tenancy_filed db A t tid e) as [Hid Hop]; [by unfold tenancy_in|done|]. destruct e. cbn in *. by subst.
    - destruct (Hy2 eq_refl) as (q & Hq & ->). by rewrite (fold_rows_snoc ref_json _ _ [] q ref) by (by apply json_roundtrip). }
  assert (pointing codec db4 A tid = Ok false) as Hp'.
  { unfold pointing in *. rewrite Hr, Ho1, Ho2 by apart. cbn [app]. rewrite fold_rows_app, Hp. destruct p; [|by rewrite (Hn3 eq_refl)].
    destruct (Hy3 eq_refl) as (q & Hq & ->). rewrite (fold_rows_snoc pointer_json _ _ [] q (mkPointer tid Tombstone)) by (by apply json_roundtrip). cbn.
    by rewrite String.eqb_refl. }
  exists m, og. split_and!; try done.
  - intros s Hne. apply rebuild_ext. intros k Hin. rewrite Hr, Ho1 by apart.
    assert (k ≠ TENANT_REF_KIND ∧ k ≠ TENANT_INVITATION_KIND) as [Hk2 Hk3].
    { split; intros ->; unfold ORG_KINDS in Hin; by repeat (apply elem_of_cons in Hin as [Hin|Hin]; [discriminate Hin|]); apply elem_of_nil in Hin. }
    rewrite Ho2, Ho3 by apart. by rewrite !app_nil_r.
  - intros s Hne. apply tenancy_ext. rewrite Hr, Ho1, Ho2, Ho3 by apart. by rewrite !app_nil_r.
  - unfold accept_tenant_invitation_in, bind, Records.reads. cbv zeta. fold S. rewrite (proj2 (String.eqb_neq _ _) Hs). cbn beta. rewrite Ho'.
    rewrite (activate_fmap _ _ m) by (done || (intros k' m1 Hk1; by eapply (members_filed codec db S))).
    rewrite member_after_activation, Hm. cbn [org]. change (org (o <| members := ?x |>)) with (org o). rewrite Hog.
    change (activated (mb_id m) <$> Some m) with (Some (activated (mb_id m) m)). cbn iota beta.
    assert (activated (mb_id m) m = m') as -> by (unfold activated; by rewrite String.eqb_refl).
    rewrite (bool_decide_eq_false_2 (mb_status m' = Deprovisioned)), (bool_decide_eq_false_2 (mb_status m' = Invited)) by done.
    cbv beta iota. fold A. rewrite Ht'. cbv beta iota. rewrite lookup_insert_eq. unfold record_if. cbn [tr_display_name tr_role personal ref]. rewrite !String.eqb_refl. cbn [andb negb ret].
    rewrite Hp'. reflexivity.
Qed.

(** *** Provisioning the personal tenant *)

Lemma append_one_spec s k p db db' :
  db_ok db → append_one codec s k p db = (db', Ok ()) → db_ok db' ∧ ∀ s' k', records codec db' s' k' = records codec db s' k' ++ rows_at s' k' [(s, k, p)].
Proof.
  intros Hok Hop. unfold append_one, bind in Hop. destruct (append_record codec db s k p) as [db1 [q|]] eqn:Ha; [|done]. injection Hop as <-.
  split; [by apply (proj1 (append_record_records codec _ _ _ _ _ _ s k Hok Ha))|]. intros s' k'. rewrite rows_at_one.
  by destruct (append_record_records codec _ _ _ _ _ _ s' k' Hok Ha) as [_ ->].
Qed.

(** The two records of a fresh directory: its profile, and its owner. *)
Lemma fresh_directory db db' S o display root id p q :
  rebuild_in codec db S = Ok o →
  to_json org_json (named_org Upsert display) = Some p → to_json membership_json (sole_owner root id) = Some q →
  (∀ k, k ∈ ORG_KINDS → records codec db' S k = records codec db S k ++ rows_at S k [(S, "org", p); (S, "membership", q)]) →
  rebuild_in codec db' S = Ok (o <| org := Some (named_org Upsert display) |> <| members := <[root := sole_owner root id]> (members o) |>).
Proof.
  intros Ho Hp Hq Hr. pose proof (λ k Hin, eq_trans (Hr k Hin) (f_equal _ (rows_at_app S k [(S, "org", p)] [(S, "membership", q)]))) as Hk. clear Hr.
  setoid_rewrite rows_at_one in Hk. eapply (rebuild_directory codec db db' S o [p] [q]); [done| | | | |].
  - intros k Hin Hm Hg. rewrite Hk, !bool_decide_eq_false_2, app_nil_r by (done || by intros [_ ?]). done.
  - rewrite Hk by listed. rewrite bool_decide_eq_true_2, bool_decide_eq_false_2 by (done || by intros [_ ?]). done.
  - rewrite (fold_rows_snoc org_json _ _ [] p _ (json_roundtrip _ _ Hp)). reflexivity.
  - rewrite Hk by listed. rewrite bool_decide_eq_false_2, bool_decide_eq_true_2 by (done || by intros [_ ?]). done.
  - rewrite (fold_rows_snoc membership_json _ _ [] q _ (json_roundtrip _ _ Hq)). reflexivity.
Qed.

(** Provisioning is idempotent. It answers the person's own tenant, which afterwards has a
    directory and an entry in the person's switcher; a directory that was not there has the
    person as its active owner, one that was is as it was; and provisioning again, under any
    name, writes nothing. *)
Theorem personal_provisioned db root display o t db' tid :
  db_ok db → rebuild_in codec db (tenant_scope (personal_tenant_id root)) = Ok o → tenancy_in codec db (account_scope root) = Ok t →
  provision_personal_tenant codec root display db = (db', Ok tid) →
  tid = personal_tenant_id root
  ∧ ∃ o', rebuild_in codec db' (tenant_scope tid) = Ok o' ∧ is_Some (org o')
    ∧ (org o = None → members o' = <[root := sole_owner root tid]> (members o))
    ∧ (is_Some (org o) → o' = o)
    ∧ (∃ r, tenancy_in codec db' (account_scope root) = Ok (<[tid := r]> t))
    ∧ ∀ name, provision_personal_tenant codec root name db' = (db', Ok tid).
Proof.
  intros Hok Ho Ht Hop. unfold provision_personal_tenant, bind, Records.reads in Hop. cbv zeta in Hop. rewrite Ho, Ht in Hop.
  set (id := personal_tenant_id root) in *. set (S := tenant_scope id) in *. set (A := account_scope root) in *.
  assert (A ≠ S) as Hap by apply scopes_apart.
  assert (tid = id ∧ ∃ o' r, rebuild_in codec db' S = Ok o' ∧ is_Some (org o') ∧ (org o = None → members o' = <[root := sole_owner root id]> (members o))
    ∧ (is_Some (org o) → o' = o) ∧ tenancy_in codec db' A = Ok (<[id := r]> t)) as (-> & o' & r & Ho' & Hsome & Hnew & Hold & Ht').
  { destruct (bool_decide_reflect (is_Some (org o))) as [Horg|Horg], (bool_decide_reflect (is_Some (t !! id))) as [Hin|Hin]; cbn [andb] in Hop.
    - injection Hop as <- <-. split; [done|]. destruct Hin as [r Hr]. exists o, r. split_and!; [done|done| |done|by rewrite insert_id]. intros Hn. rewrite Hn in Horg. by destruct Horg.
    - cbn [ret] in Hop. destruct (serialized ref_json _ db) as [db0 [p|]] eqn:Hs; [|done]. apply serialized_ok in Hs as [-> Hp].
      destruct (append_one codec A TENANT_REF_KIND p db) as [db1 [[]|]] eqn:Ha; [|done]. injection Hop as <- <-. apply append_one_spec in Ha as [_ Hr]; [|done].
      split; [done|]. eexists o, _. split_and!; [|done| |done|].
      + rewrite <-Ho. apply rebuild_ext. intros k _. rewrite Hr, rows_at_one, bool_decide_eq_false_2, app_nil_r by (by intros [? _]). done.
      + intros Hn. rewrite Hn in Horg. by destruct Horg.
      + unfold tenancy_in in *. rewrite Hr, rows_at_one, bool_decide_eq_true_2 by done.
        erewrite (fold_rows_snoc ref_json) by (by apply json_roundtrip). rewrite Ht. reflexivity.
    - destruct (serialized org_json _ db) as [db0 [p|]] eqn:Hs; [|done]. apply serialized_ok in Hs as [-> Hp].
      destruct (append_one codec S "org" p db) as [db1 [[]|]] eqn:Ha; [|done]. apply append_one_spec in Ha as [Hok1 Hr1]; [|done].
      destruct (serialized membership_json _ db1) as [db0 [q|]] eqn:Hs; [|done]. apply serialized_ok in Hs as [-> Hq].
      destruct (append_one codec S "membership" q db1) as [db2 [[]|]] eqn:Ha; [|done]. apply append_one_spec in Ha as [Hok2 Hr2]; [|done].
      cbn [ret] in Hop. injection Hop as <- <-. split; [done|]. destruct Hin as [r Hr]. eexists (o <| org := Some (named_org Upsert display) |> <| members := <[root := sole_owner root id]> (members o) |>), r.
      split_and!; [|by eexists|done|done|].
      + eapply (fresh_directory db db2); [done..|]. intros k _. by rewrite Hr2, Hr1, <-app_assoc, <-rows_at_app.
      + rewrite insert_id by done. rewrite <-Ht. apply tenancy_ext. rewrite Hr2, Hr1, !rows_at_one, !bool_decide_eq_false_2, !app_nil_r by (by intros [? _]). done.
    - destruct (serialized org_json _ db) as [db0 [p|]] eqn:Hs; [|done]. apply serialized_ok in Hs as [-> Hp].
      destruct (append_one codec S "org" p db) as [db1 [[]|]] eqn:Ha; [|done]. apply append_one_spec in Ha as [Hok1 Hr1]; [|done].
      destruct (serialized membership_json _ db1) as [db0 [q|]] eqn:Hs; [|done]. apply serialized_ok in Hs as [-> Hq].
      destruct (append_one codec S "membership" q db1) as [db2 [[]|]] eqn:Ha; [|done]. apply append_one_spec in Ha as [Hok2 Hr2]; [|done].
      destruct (serialized ref_json _ db2) as [db0 [e|]] eqn:Hs; [|done]. apply serialized_ok in Hs as [-> He].
      destruct (append_one codec A TENANT_REF_KIND e db2) as [db3 [[]|]] eqn:Ha; [|done]. injection Hop as <- <-. apply append_one_spec in Ha as [_ Hr3]; [|done].
      split; [done|]. eexists (o <| org := Some (named_org Upsert display) |> <| members := <[root := sole_owner root id]> (members o) |>), _. split_and!; [|by eexists|done|done|].
      + eapply (fresh_directory db db3); [done..|]. intros k _.
        rewrite Hr3, Hr2, Hr1, (rows_at_one _ _ A), bool_decide_eq_false_2, app_nil_r by (by intros [? _]). by rewrite <-app_assoc, <-rows_at_app.
      + unfold tenancy_in in *. rewrite Hr3, (rows_at_one _ _ A), bool_decide_eq_true_2 by done.
        erewrite (fold_rows_snoc ref_json) by (by apply json_roundtrip).
        rewrite Hr2, Hr1, !rows_at_one, !bool_decide_eq_false_2, !app_nil_r, Ht by (by intros [? _]). reflexivity. }
  split; [done|]. exists o'. split_and!; [done..|by exists r|]. intros name.
  unfold provision_personal_tenant, bind, Records.reads. cbv zeta. fold id S A. rewrite Ho', Ht', lookup_insert_eq.
  rewrite !bool_decide_eq_true_2 by done. reflexivity.
Qed.

(** *** Deleting an organization *)

Context {Config : Type} (facility_json : Json (FacilityRecord Config)).

(** What a plan to delete says of the directory and the switcher it was made from. *)
Lemma deletion_planned db authority account tid o t plan :
  rebuild_in codec db (tenant_scope tid) = Ok o → tenancy_in codec db account = Ok t →
  plan_delete_organization_in facility_json codec db authority account tid = Ok (Ok plan) →
  ∃ m f pd pm pr, let S := tenant_scope tid in
    t !! tid = Some (dp_tenant plan) ∧ personal (dp_tenant plan) = false ∧ S ≠ ORG_SCOPE
    ∧ member_by_authority o authority = Some m ∧ mb_status m = Active ∧ mb_role m = "owner"
    ∧ other_active o authority = 0
    ∧ facilities_in facility_json codec db S = Ok f ∧ active_facilities f = []
    ∧ to_json org_json (named_org Tombstone "") = Some pd
    ∧ to_json membership_json (m <| mb_status := Deprovisioned |>) = Some pm
    ∧ to_json ref_json (mkTenantRef tid Tombstone (tr_display_name (dp_tenant plan)) (tr_role (dp_tenant plan)) false) = Some pr
    ∧ dp_facts plan = [mkFact S "org" pd; mkFact S "membership" pm; mkFact account TENANT_REF_KIND pr].
Proof.
  intros Ho Ht. unfold plan_delete_organization_in. rewrite Ht. destruct (t !! tid) as [tenant|] eqn:Htn; [|done]. cbv zeta.
  destruct (personal tenant) eqn:Hp; [done|]. destruct (String.eqb_spec (tenant_scope tid) ORG_SCOPE) as [|Hs]; [done|]. rewrite Ho.
  destruct (member_by_authority o authority) as [m|]; [|done].
  destruct (bool_decide_reflect (mb_status m = Active)) as [Ha|]; [|done]. destruct (String.eqb_spec (mb_role m) "owner") as [Hr|]; [|done]. cbn [negb orb].
  destruct (Nat.ltb_spec 0 (other_active o authority)); [done|].
  destruct (facilities_in _ codec db _) as [f|]; [|done]. destruct (Nat.ltb_spec 0 (length (active_facilities f))); [done|].
  destruct (to_json org_json _) as [pd|] eqn:Hpd; [|done]. destruct (to_json membership_json _) as [pm|] eqn:Hpm; [|done].
  destruct (to_json ref_json _) as [pr|] eqn:Hpr; [|done]. intros [= <-]. exists m, f, pd, pm, pr. cbn. split_and!; try done; [lia|].
  apply nil_length_inv. lia.
Qed.

Lemma nobody_else o authority k m :
  other_active o authority = 0 → members o !! k = Some m → mb_status m = Active → mb_authority m = authority.
Proof.
  unfold other_active. intros Hz%length_zero_iff_nil Hk Ha. destruct (String.eqb_spec (mb_authority m) authority) as [|Hne]; [done|]. exfalso.
  assert (In m []) as []. rewrite <-Hz. apply filter_In. split; [apply list_elem_of_In, elem_of_btree_values; by exists k|].
  rewrite bool_decide_eq_true_2 by done. by rewrite (proj2 (String.eqb_neq _ _) Hne).
Qed.

(** C39: An organization is deleted by its last member, an active owner, when nothing that bills
    to it is active, and a refusal writes nothing. Afterwards the directory has no
    organization; the owner's membership is deprovisioned and no active membership is anyone
    else's; the switcher is without the tenant and otherwise as it was; every other directory
    and switcher is as it was; nobody can accept an invitation into it any more; and deleting
    it again is refused as there being no such organization. *)
Theorem organization_deleted db authority person tid o t db' r :
  db_ok db → rebuild_in codec db (tenant_scope tid) = Ok o → tenancy_in codec db (account_scope person) = Ok t →
  delete_organization_in facility_json codec authority (account_scope person) tid db = (db', Ok r) →
  match r with
  | Err _ => db' = db
  | Ok tenant => t !! tid = Some tenant ∧ personal tenant = false
      ∧ (∃ f, facilities_in facility_json codec db (tenant_scope tid) = Ok f ∧ active_facilities f = [])
      ∧ (∃ m o', member_by_authority o authority = Some m ∧ mb_status m = Active ∧ mb_role m = "owner"
         ∧ rebuild_in codec db' (tenant_scope tid) = Ok o' ∧ org o' = None
         ∧ members o' = <[mb_id m := m <| mb_status := Deprovisioned |>]> (members o)
         ∧ (∀ k m', members o' !! k = Some m' → mb_status m' = Active → mb_authority m' = authority))
      ∧ tenancy_in codec db' (account_scope person) = Ok (delete tid t)
      ∧ (∀ s, s ≠ tenant_scope tid → rebuild_in codec db' s = rebuild_in codec db s)
      ∧ (∀ s, s ≠ account_scope person → tenancy_in codec db' s = tenancy_in codec db s)
      ∧ (∀ a, accept_tenant_invitation_in codec a tid db' = (db', Ok None))
      ∧ delete_organization_in facility_json codec authority (account_scope person) tid db' = (db', Ok (Err NoSuchOrganization))
  end.
Proof.
  intros Hok Ho Ht. unfold delete_organization_in at 1, bind, Records.reads. set (S := tenant_scope tid). set (A := account_scope person).
  assert (A ≠ S) as Hap by apply scopes_apart.
  destruct (plan_delete_organization_in _ _ _ _ _ _) as [[plan|e]|] eqn:Hplan; [|by intros [= <- <-]|done].
  destruct (deletion_planned _ _ _ _ _ _ _ Ho Ht Hplan) as (m & f & pd & pm & pr & Hin & Hp & Hs & Hm & Ha & Hrole & Hz & Hf & Hnf & Hpd & Hpm & Hpr & ->).
  cbn [fmap list_fmap fact_scope fact_kind fact_payload]. destruct (append_all _ _ _) as [db1 [[]|]] eqn:Hw; [|done]. intros [= <- <-].
  destruct (append_all_spec _ _ _ Hok Hw) as [_ Hr].
  assert (∀ s k, records codec db1 s k = records codec db s k ++ rows_at s k [(S, "org", pd)] ++ rows_at s k [(S, "membership", pm)] ++ rows_at s k [(A, TENANT_REF_KIND, pr)]) as Hrec.
  { intros s k. by rewrite Hr, <-!rows_at_app. }
  clear Hr Hw. setoid_rewrite rows_at_one in Hrec.
  pose proof Hm as [[k Hk] _]%find_member_some. destruct (members_filed codec db S o k m Ho Hk) as [<- Hup].
  set (o' := o <| org := None |> <| members := <[mb_id m := m <| mb_status := Deprovisioned |>]> (members o) |>).
  assert (rebuild_in codec db1 S = Ok o') as Ho'.
  { eapply (rebuild_directory codec db db1 S o [pd] [pm]); [done| | | | |].
    - intros k Hin' Hk1 Hk2. rewrite Hrec, !bool_decide_eq_false_2 by (congruence || by intros [??]). by rewrite !app_nil_r.
    - rewrite Hrec, bool_decide_eq_true_2, !bool_decide_eq_false_2 by (done || by intros [??]). done.
    - by rewrite (fold_rows_snoc org_json _ _ [] pd _ (json_roundtrip _ _ Hpd)).
    - rewrite Hrec, bool_decide_eq_false_2, bool_decide_eq_true_2, bool_decide_eq_false_2 by (done || by intros [??]). done.
    - rewrite (fold_rows_snoc membership_json _ _ [] pm _ (json_roundtrip _ _ Hpm)). cbn. unfold by_id. cbn. by rewrite Hup. }
  assert (tenancy_in codec db1 A = Ok (delete tid t)) as Ht'.
  { unfold tenancy_in in *. fold A in Ht. rewrite Hrec, (bool_decide_eq_true_2 (A = A ∧ _)), !bool_decide_eq_false_2 by (done || intros [? ?]; congruence). cbn [app].
    rewrite (fold_rows_snoc ref_json _ _ _ pr _ (json_roundtrip _ _ Hpr)), Ht. reflexivity. }
  split_and!; [done|done|by exists f| |done| | | |].
  - exists m, o'. split_and!; try done. intros k m' Hk' Ha'. change (<[mb_id m := m <| mb_status := Deprovisioned |>]> (members o) !! k = Some m') in Hk'.
    apply lookup_insert_Some in Hk' as [[<- <-]|[_ Hk']]; [done|by eapply nobody_else].
  - intros s Hne. apply rebuild_ext. intros k Hin'. rewrite Hrec.
    assert (k ≠ TENANT_REF_KIND) as Hk'.
    { intros ->. unfold ORG_KINDS in Hin'. by repeat (apply elem_of_cons in Hin' as [Hin'|Hin']; [discriminate Hin'|]); apply elem_of_nil in Hin'. }
    rewrite !bool_decide_eq_false_2, !app_nil_r by (intros [? ?]; congruence). done.
  - intros s Hne. apply tenancy_ext. rewrite Hrec, !bool_decide_eq_false_2, !app_nil_r by (intros [? ?]; (discriminate || congruence)). done.
  - intros a. unfold accept_tenant_invitation_in, bind, Records.reads. cbv zeta. fold S in Hs |- *. rewrite (proj2 (String.eqb_neq _ _) Hs). cbn beta. rewrite Ho'.
    by destruct (member_by_authority o' a).
  - unfold delete_organization_in, bind, Records.reads, plan_delete_organization_in. rewrite Ht'. by rewrite lookup_delete_eq.
Qed.
End facts.

(** ** On a small store *)

Module TenancySample.
Import OrganizationSample.

Definition sample_org : Json OrgRecord := tuple_json
  (λ r, (or_id r, op_code (or_op r), display_name r, verified_domains r, pending_domains r, default_region r))
  (λ x : string * bool * string * list string * list string * option string,
     let '(i, op, d, v, p, g) := x in mkOrgRecord i (code_op op) d v p g).
#[export] Instance sample_org_laws : JsonLaws sample_org.
Proof. apply tuple_json_laws. by intros [? [] ????]. Qed.

Definition sample_ref : Json TenantRef := tuple_json
  (λ r, (tr_id r, op_code (tr_op r), tr_display_name r, tr_role r, personal r))
  (λ x : string * bool * string * string * bool, let '(i, op, d, r, p) := x in mkTenantRef i (code_op op) d r p).
#[export] Instance sample_ref_laws : JsonLaws sample_ref.
Proof. apply tuple_json_laws. by intros [? [] ???]. Qed.

Definition sample_pointer : Json TenantInvitationPointer := tuple_json
  (λ r, (pt_id r, op_code (pt_op r))) (λ x : string * bool, mkPointer x.1 (code_op x.2)).
#[export] Instance sample_pointer_laws : JsonLaws sample_pointer.
Proof. apply tuple_json_laws. by intros [? []]. Qed.

Definition sample_claim : Json TenantClaimRecord := tuple_json
  (λ r, (cl_id r, op_code (cl_op r), cl_tenant_id r)) (λ x : string * bool * string, mkClaim x.1.1 (code_op x.1.2) x.2).
Definition sample_intent : Json OrganizationProjectIntent := tuple_json
  (λ r, (in_id r, project_id r, founding_owner r, in_display_name r, home_id r))
  (λ x : string * string * string * string * option string, let '(i, p, f, d, h) := x in mkIntent i p f d h).

#[export] Instance tenancy_json : TenancyJson :=
  {| ref_json := sample_ref; pointer_json := sample_pointer; claim_json := sample_claim; intent_json := sample_intent |}.
#[export] Instance directory_json : OrgJson := {|
  org_json := sample_org; membership_json := sample_membership; invitation_json := no_json; policy_json := no_json;
  placement_json := no_json; software_json := no_json; sso_json := no_json; credential_json := no_json;
  admission_json := no_json; browser_test_json := no_json; scim_token_json := no_json; scim_sync_json := no_json;
  security_json := no_json; billing_json := no_json; contact_json := no_json; approval_json := no_json;
  sharing_json := no_json; revocation_json := no_json; grant_json := no_json; group_mapping_json := no_json;
|}.
Definition facility_json : Json (FacilityRecord unit) := no_json.

Definition acme : string := "organization:ab".
Definition bob (s : MembershipStatus) : MembershipRecord := mkMembership "bob" Upsert acme "bob" "" "member" s false None.

Definition founded : Db := (provision_organization None "ab" "ann" (account_scope "ann") " Acme " (Some "k1") empty_db).1.
Definition invited : Db := (append_membership_in None (tenant_scope acme) (bob Invited) founded).1.
Definition accepted : Db := (accept_tenant_invitation_in None "bob" acme invited).1.
Definition left : Db := (append_membership_in None (tenant_scope acme) (bob Deprovisioned) accepted).1.

Definition at_ok {A} (r : result failure A) (d : A) : A := match r with Ok a => a | Err _ => d end.
Definition no_org : Org := mkOrg "" None ∅ ∅ ∅ ∅ None None None None None None [] None [] None None None None None ∅.
Definition org_of (db : Db) (tid : string) : Org := at_ok (rebuild_in None db (tenant_scope tid)) no_org.
Definition list_of (db : Db) (a : string) : gmap string TenantRef := at_ok (tenancy_in None db (account_scope a)) ∅.

(** An organization's course: its founder, an invitation, its acceptance, and, once the
    other member has left, its deletion. The founding claim finds it again. *)
Example course :
  organization_claimed_by None founded (account_scope "ann") "k1" = Ok (Some (mkTenantRef acme Upsert "Acme" "owner" false))
  ∧ pending_tenant_invitations_in None invited "bob" = Ok [mkPending acme "Acme" "member"]
  ∧ pending_tenant_invitations_in None accepted "bob" = Ok []
  ∧ tenancy_list (list_of accepted "bob") = [mkTenantRef acme Upsert "Acme" "member" false]
  ∧ plan_delete_organization_in facility_json None accepted "ann" (account_scope "ann") acme = Ok (Err (OtherMembersRemain 1))
  ∧ plan_delete_organization_in facility_json None accepted "bob" (account_scope "bob") acme = Ok (Err NotAnOwner)
  ∧ (delete_organization_in facility_json None "ann" (account_scope "ann") acme left).2
      = Ok (Ok (mkTenantRef acme Upsert "Acme" "owner" false)).
Proof. vm_compute. repeat split. Qed.

(** A write that stops after the directory's profile is not completed by provisioning again:
    the directory has nobody in it, and the switcher says the person owns it. *)
Definition stopped : Db :=
  (append_record None empty_db (tenant_scope (personal_tenant_id "ann")) "org" (default "" (to_json org_json (named_org Upsert "Ann")))).1.
Definition resumed : Db := (provision_personal_tenant None "ann" "Ann" stopped).1.
Example owner_not_healed :
  (provision_personal_tenant None "ann" "Ann" stopped).2 = Ok (personal_tenant_id "ann")
  ∧ role_of (org_of resumed (personal_tenant_id "ann")) "ann" = None
  ∧ tenancy_list (list_of resumed "ann") = [mkTenantRef (personal_tenant_id "ann") Upsert "Ann" "owner" true].
Proof. vm_compute. repeat split. Qed.

Lemma stored_ok rs db db' : db_ok db → append_all None rs db = (db', Ok ()) → db_ok db'.
Proof. intros Hok Hop. exact (proj1 (append_all_spec None rs db db' Hok Hop)). Qed.

Definition entry {R} (s kind : string) (json : Json R) (r : R) : string * string * string := (s, kind, default "" (to_json json r)).
Definition membership (s : MembershipStatus) := entry (tenant_scope acme) "membership" membership_json (bob s).
Definition founding : list (string * string * string) :=
  [entry (tenant_scope acme) "org" org_json (named_org Upsert "Acme");
   entry (tenant_scope acme) "membership" membership_json (sole_owner "ann" acme);
   entry (tenant_scope acme) ORGANIZATION_PROJECT_KIND intent_json (mkIntent "shared" "proj-org-ab" "ann" "Acme" None);
   entry (account_scope "ann") TENANT_REF_KIND ref_json (mkTenantRef acme Upsert "Acme" "owner" false);
   entry (account_scope "ann") TENANT_CLAIM_KIND claim_json (mkClaim "k1" Upsert acme)].
Definition invitation : list (string * string * string) :=
  [membership Invited; entry (account_scope "bob") TENANT_INVITATION_KIND pointer_json (mkPointer acme Upsert)].
Definition acceptance : list (string * string * string) :=
  [membership Active; entry (account_scope "bob") TENANT_REF_KIND ref_json (mkTenantRef acme Upsert "Acme" "member" false);
   entry (account_scope "bob") TENANT_INVITATION_KIND pointer_json (mkPointer acme Tombstone)].
Definition leaving : list (string * string * string) := [membership Deprovisioned].

Lemma invited_ok : db_ok invited.
Proof. apply (stored_ok (founding ++ invitation) empty_db); [exact empty_db_ok|]. vm_compute. reflexivity. Qed.
Lemma left_ok : db_ok left.
Proof. apply (stored_ok (founding ++ invitation ++ acceptance ++ leaving) empty_db); [exact empty_db_ok|]. vm_compute. reflexivity. Qed.

Definition at_acme : TenantRef := mkTenantRef acme Upsert "Acme" "member" false.
Lemma invitation_accepted_witness :
  tenancy_in None accepted (account_scope "bob") = Ok (<[acme := at_acme]> (list_of invited "bob"))
  ∧ accept_tenant_invitation_in None "bob" acme accepted = (accepted, Ok (Some at_acme)).
Proof.
  destruct (invitation_accepted None invited "bob" acme (org_of invited acme) (list_of invited "bob") accepted (Some at_acme))
    as (m & og & _ & _ & _ & _ & _ & Ht & _ & _ & _ & Hagain).
  - exact invited_ok.
  - vm_compute. reflexivity.
  - vm_compute. reflexivity.
  - vm_compute. reflexivity.
  - split; [exact Ht|exact Hagain].
Defined.

Lemma personal_provisioned_witness :
  ∃ db o', provision_personal_tenant None "ann" "Ann" empty_db = (db, Ok (personal_tenant_id "ann"))
  ∧ rebuild_in None db (tenant_scope (personal_tenant_id "ann")) = Ok o'
  ∧ provision_personal_tenant None "ann" "Other" db = (db, Ok (personal_tenant_id "ann")).
Proof.
  destruct (personal_provisioned None empty_db "ann" "Ann" (org_of empty_db (personal_tenant_id "ann")) ∅
    (provision_personal_tenant None "ann" "Ann" empty_db).1 (personal_tenant_id "ann")) as (_ & o' & Ho & _ & _ & _ & _ & Hagain).
  - exact empty_db_ok.
  - vm_compute. reflexivity.
  - vm_compute. reflexivity.
  - vm_compute. reflexivity.
  - exists (provision_personal_tenant None "ann" "Ann" empty_db).1, o'.
    split; [vm_compute; reflexivity|]. split; [exact Ho|exact (Hagain "Other")].
Defined.

Lemma organization_deleted_witness :
  ∃ db, delete_organization_in facility_json None "ann" (account_scope "ann") acme left = (db, Ok (Ok (mkTenantRef acme Upsert "Acme" "owner" false)))
  ∧ tenancy_in None db (account_scope "ann") = Ok (delete acme (list_of left "ann"))
  ∧ ∀ a, accept_tenant_invitation_in None a acme db = (db, Ok None).
Proof.
  pose (gone := (delete_organization_in facility_json None "ann" (account_scope "ann") acme left).1).
  assert (delete_organization_in facility_json None "ann" (account_scope "ann") acme left = (gone, Ok (Ok (mkTenantRef acme Upsert "Acme" "owner" false)))) as Hop
    by (vm_compute; reflexivity).
  destruct (organization_deleted None facility_json left "ann" "ann" acme (org_of left acme) (list_of left "ann") gone
    (Ok (mkTenantRef acme Upsert "Acme" "owner" false)) left_ok)
    as (_ & _ & _ & _ & Ht & _ & _ & Ha & _).
  - vm_compute. reflexivity.
  - vm_compute. reflexivity.
  - exact Hop.
  - exists gone. split; [exact Hop|]. split; [exact Ht|exact Ha].
Defined.

End TenancySample.
