(* ===== verification/ManagedInference.v ===== *)
(** * Managed inference: plans, usage and the credit ledger

    [crates/app/src/managed_inference.rs]: the credit ledger of a paying account (the
    lifecycle [ManagedAllowanceLedger]), the plan that funds a turn with its funding
    reference, and the projections of usage and of reservations. A projection reads the
    records of one scope ([Records.v]); [serde_json] on each record is an argument.
    [ModelUsage] is of [crates/harness/src/lib.rs]. *)

From Stdlib Require Import Ascii.
From stdpp Require Import pretty.
From S2P Require Import Prelude Ids Recovery Federation Lifecycle Store Records Texts Scopes SignedText Organization.

(** ** Records *)

Definition MANAGED_PLAN_KIND : string := "managed_inference_plan".
Definition MANAGED_USAGE_KIND : string := "managed_inference_usage".
Definition MANAGED_RESERVATION_KIND : string := "managed_inference_reservation".
Definition MANAGED_SETTLEMENT_KIND : string := "managed_inference_settlement".
Definition MANAGED_FUNDING_PREFIX : string := "gaugedesk:managed-plan:v1:".

Definition admits_future_run (p : ManagedInferencePlan) : bool :=
  negb (blank (mp_plan p)) && match mp_status p with MP_Active => true | _ => false end.

Record ManagedPlanRecord := mkPlanRecord { pr_id : string; pr_op : RecordOp; subscription : ManagedInferencePlan }.

Record ModelUsage := mkModelUsage {
  mu_usage_ref : string;
  mu_provider : string;
  mu_model : string;
  mu_input_tokens : N; (* u64 *)
  mu_output_tokens : N;
}.

Record ManagedUsageRecord := mkUsageRecord {
  us_id : string;
  us_engagement_id : string;
  us_usage_ref : string;
  us_provider : string;
  us_model : string;
  us_input_tokens : N; (* u64 *)
  us_output_tokens : N;
  us_funding_ref : option string;
  us_observed_at : option N;
}.

Record ManagedReservationRecord := mkReservationRecord {
  re_id : string;
  re_engagement_id : string;
  re_funding_ref : string;
  maximum_tokens : N; (* u64 *)
  admitted_at : option N;
  valid_from : option N;
  valid_until : option N;
  maximum_nanos_usd : N;
}.
#[export] Instance ManagedReservationRecord_eq_dec : EqDecision ManagedReservationRecord.
Proof. solve_decision. Defined.

Inductive ManagedSettlementRecord :=
| SR_Settled (id reservation_id usage_ref : string)
| SR_Released (id reservation_id why : string).

(** ** The credit ledger *)

Record ManagedAllowanceReserve := mkReserve {
  reservation : ManagedReservationRecord;
  observed_tokens : N;
  reserve_included_tokens : N;
}.
Record ManagedAllowanceSettle := mkSettle {
  st_reservation_id : string;
  st_usage_ref : string;
  actual_tokens : N;
  actual_nanos_usd : option N;
}.
Record ManagedCreditGrant := mkCreditGrant {
  grant_id : string;
  nanos_usd : N;
  grant_reason : string;
  granted_at : N;
}.
Record ManagedAllowanceRelease := mkRelease { rl_reservation_id : string; release_ref : string }.

Definition STARTER_CREDIT_GRANT_ID : string := "starter".
Definition STARTER_CREDIT_NANOS_USD : N := 5000000000.

Inductive ManagedAllowanceCommand :=
| MC_Reserve (command : ManagedAllowanceReserve)
| MC_Settle (command : ManagedAllowanceSettle)
| MC_Release (command : ManagedAllowanceRelease)
| MC_Grant (grant : ManagedCreditGrant).

Inductive ManagedAllowanceEvent :=
| ME_ObservedFloor (period : string) (tokens : N)
| ME_Reserved (record : ManagedReservationRecord)
| ME_Settled (reservation_id usage_ref : string) (actual_tokens drawn_nanos_usd : N)
| ME_Released (reservation_id release_ref : string)
| ME_Granted (grant : ManagedCreditGrant).

Inductive ManagedAllowanceStatus := MA_Open | MA_Settled | MA_Released.
#[export] Instance ManagedAllowanceStatus_eq_dec : EqDecision ManagedAllowanceStatus.
Proof. solve_decision. Defined.

Record ManagedAllowanceReservation := mkHeld { held_record : ManagedReservationRecord; held_status : ManagedAllowanceStatus }.
#[export] Instance ManagedAllowanceReservation_eta : Eta ManagedAllowanceReservation := mkEta (λ h,
  mkHeld (held_record h) (held_status h)).

Record ManagedAllowanceState := mkAllowance {
  accounted_tokens : gmap string N;
  reservations : gmap string ManagedAllowanceReservation;
  credit_grants : gmap string ManagedCreditGrant;
  drawn_nanos_usd : N;
}.
#[export] Instance ManagedAllowanceState_eta : Eta ManagedAllowanceState := mkEta (λ s,
  mkAllowance (accounted_tokens s) (reservations s) (credit_grants s) (drawn_nanos_usd s)).

Definition allowance_default : ManagedAllowanceState := mkAllowance ∅ ∅ ∅ 0.

(** [.fold(0_u64, |total, x| total.saturating_add(f(x)))] *)
Definition saturating_sum {A} (f : A → N) (l : list A) : N := foldl (λ total x, u64_saturating_add total (f x)) 0%N l.

Definition is_open (h : ManagedAllowanceReservation) : bool := bool_decide (held_status h = MA_Open).

Definition granted_nanos_usd (s : ManagedAllowanceState) : N := saturating_sum nanos_usd (btree_values (credit_grants s)).

Definition held_nanos_usd (s : ManagedAllowanceState) : N :=
  saturating_sum (λ h, maximum_nanos_usd (held_record h)) (List.filter is_open (btree_values (reservations s))).

(** [saturating_sub] is subtraction on [N]. *)
Definition available_nanos_usd (s : ManagedAllowanceState) : N :=
  (granted_nanos_usd s - drawn_nanos_usd s - held_nanos_usd s)%N.

Definition allowance_period (r : ManagedReservationRecord) : option string :=
  from ← valid_from r; until ← valid_until r;
  Some (re_funding_ref r +:+ ":" +:+ pretty from +:+ ":" +:+ pretty until).

Definition accounted (s : ManagedAllowanceState) (period : string) : N := default 0%N (accounted_tokens s !! period).

Definition allowance_decide (state : ManagedAllowanceState) (command : ManagedAllowanceCommand)
    : result Rejection (list ManagedAllowanceEvent) :=
  match command with
  | MC_Reserve command =>
      let reservation := reservation command in
      match allowance_period reservation with
      | None => reject "managed allowance reservation lacks an exact period"
      | Some period =>
          if blank (re_id reservation) || blank (re_engagement_id reservation) || (maximum_tokens reservation =? 0)%N
             || bool_decide (admitted_at reservation = None)
             || bool_decide (is_Some (reservations state !! re_id reservation))
          then reject "managed allowance reservation is invalid or already exists"
          else
            let observed := N.max (accounted state period) (observed_tokens command) in
            if (available_nanos_usd state <? maximum_nanos_usd reservation)%N
            then reject "managed inference credits exhausted"
            else Ok ((if (accounted state period <? observed)%N then [ME_ObservedFloor period observed] else [])
                       ++ [ME_Reserved reservation])
      end
  | MC_Settle command =>
      match reservations state !! st_reservation_id command with
      | None => reject "managed allowance reservation does not exist"
      | Some held =>
          if negb (is_open held) || blank (st_usage_ref command)
          then reject "managed allowance reservation is not settleable"
          else Ok [ME_Settled (st_reservation_id command) (st_usage_ref command) (actual_tokens command)
                     (default (maximum_nanos_usd (held_record held)) (actual_nanos_usd command))]
      end
  | MC_Release command =>
      match reservations state !! rl_reservation_id command with
      | None => reject "managed allowance reservation does not exist"
      | Some held =>
          if negb (is_open held) || blank (release_ref command)
          then reject "managed allowance reservation is not releasable"
          else Ok [ME_Released (rl_reservation_id command) (release_ref command)]
      end
  | MC_Grant grant =>
      if blank (grant_id grant) || (nanos_usd grant =? 0)%N || blank (grant_reason grant)
      then reject "managed credit grant is invalid"
      else if bool_decide (is_Some (credit_grants state !! grant_id grant))
      then reject "managed credit grant already exists"
      else Ok [ME_Granted grant]
  end.

(** [if let Some(held) = reservations.get_mut(id) { held.status = .. }] *)
Definition set_status (status : ManagedAllowanceStatus) (id : string) (s : ManagedAllowanceState) : ManagedAllowanceState :=
  s <| reservations ::= alter (λ h, h <| held_status := status |>) id |>.

Definition allowance_evolve (s : ManagedAllowanceState) (event : ManagedAllowanceEvent) : ManagedAllowanceState :=
  match event with
  | ME_ObservedFloor period tokens => s <| accounted_tokens ::= <[period := tokens]> |>
  | ME_Reserved record => s <| reservations ::= <[re_id record := mkHeld record MA_Open]> |>
  | ME_Settled id _ actual drawn =>
      let next := s <| drawn_nanos_usd ::= λ total, u64_saturating_add total drawn |> in
      match reservations next !! id with
      | None => next
      | Some held =>
          let next := set_status MA_Settled id next in
          match allowance_period (held_record held) with
          | None => next
          | Some period => next <| accounted_tokens ::= <[period := u64_saturating_add (accounted next period) actual]> |>
          end
      end
  | ME_Released id _ => set_status MA_Released id s
  | ME_Granted grant => s <| credit_grants ::= <[grant_id grant := grant]> |>
  end.

Definition ledger : Lifecycle := {|
  lc_state := ManagedAllowanceState;
  lc_command := ManagedAllowanceCommand;
  lc_event := ManagedAllowanceEvent;
  lc_default := allowance_default;
  KIND := "managed_inference_allowance";
  lc_decide := allowance_decide;
  lc_evolve s e := Some (allowance_evolve s e);
  lc_snapshot_codec := None;
|}.

#[export] Instance ledger_safe : LifecycleSafe ledger.
Proof.
  refine {| lc_inv := λ _, True |}; [done|].
  by apply (total_lifecycle_safe ledger allowance_evolve (λ _, True)).
Defined.

(** ** What the ledger conserves *)

Fixpoint sum_by {A} (f : A → N) (l : list A) : N :=
  match l with [] => 0 | a :: l => f a + sum_by f l end%N.

Lemma sum_by_app {A} (f : A → N) l l' : sum_by f (l ++ l') = (sum_by f l + sum_by f l')%N.
Proof. induction l as [|a l IH]; cbn; [done|]. rewrite IH. lia. Qed.

Lemma sum_by_perm {A} (f : A → N) l l' : l ≡ₚ l' → sum_by f l = sum_by f l'.
Proof. induction 1; cbn; lia. Qed.

Lemma sum_by_ext {A} (f g : A → N) l : (∀ a, a ∈ l → f a = g a) → sum_by f l = sum_by g l.
Proof.
  induction l as [|a l IH]; intros H; cbn; [done|]. rewrite (H a) by (by left). rewrite IH; [done|]. intros b Hb. apply H. by right.
Qed.

Lemma saturating_sum_spec {A} (f : A → N) l : saturating_sum f l = N.min (sum_by f l) u64_max.
Proof.
  unfold saturating_sum. assert (∀ t, (t ≤ u64_max)%N → foldl (λ total x, u64_saturating_add total (f x)) t l = N.min (t + sum_by f l) u64_max) as H.
  { induction l as [|a l IH]; intros t Ht; cbn [foldl sum_by]; [lia|]. unfold u64_saturating_add in *. rewrite IH; lia. }
  rewrite H by (unfold u64_max; lia). done.
Qed.

Lemma sum_by_filter {A} (f : A → N) (p : A → bool) l : sum_by f (List.filter p l) = sum_by (λ a, if p a then f a else 0%N) l.
Proof. induction l as [|a l IH]; cbn; [done|]. destruct (p a); cbn; by rewrite IH. Qed.

(** The credits of a history of the ledger, added up without bound. *)
Definition granted_in (log : list ManagedAllowanceEvent) : N :=
  sum_by (λ e, match e with ME_Granted g => nanos_usd g | _ => 0%N end) log.
Definition drawn_in (log : list ManagedAllowanceEvent) : N :=
  sum_by (λ e, match e with ME_Settled _ _ _ drawn => drawn | _ => 0%N end) log.
Definition hold (h : ManagedAllowanceReservation) : N := if is_open h then maximum_nanos_usd (held_record h) else 0%N.
Definition held_in (s : ManagedAllowanceState) : N := sum_by hold (btree_values (reservations s)).

(** What one settlement drew beyond what its reservation held. *)
Definition overrun (s : ManagedAllowanceState) (e : ManagedAllowanceEvent) : N :=
  match e with
  | ME_Settled id _ _ drawn => drawn - from_option (λ h, maximum_nanos_usd (held_record h)) 0 (reservations s !! id)
  | _ => 0
  end%N.

Definition reserved_id (e : ManagedAllowanceEvent) : option string := match e with ME_Reserved r => Some (re_id r) | _ => None end.
Definition closed_id (e : ManagedAllowanceEvent) : option string :=
  match e with ME_Settled id _ _ _ | ME_Released id _ => Some id | _ => None end.
Definition granted_id (e : ManagedAllowanceEvent) : option string := match e with ME_Granted g => Some (grant_id g) | _ => None end.

Record ledger_ok (log : list ManagedAllowanceEvent) (s : ManagedAllowanceState) : Prop := {
  lo_drawn : drawn_nanos_usd s = N.min (drawn_in log) u64_max;
  lo_granted : sum_by nanos_usd (btree_values (credit_grants s)) = granted_in log;
  lo_grants : ∀ id, is_Some (credit_grants s !! id) ↔ id ∈ omap granted_id log;
  lo_reserved : ∀ id, is_Some (reservations s !! id) ↔ id ∈ omap reserved_id log;
  lo_closed : ∀ id, id ∈ omap closed_id log ↔ ∃ h, reservations s !! id = Some h ∧ is_open h = false;
  lo_once : NoDup (omap reserved_id log) ∧ NoDup (omap closed_id log) ∧ NoDup (omap granted_id log);
  lo_spent : (drawn_in log + held_in s ≤ granted_in log + sum_by (overrun s) log)%N;
}.

Lemma values_insert_new {V} (m : gmap string V) k v (f : V → N) :
  m !! k = None → sum_by f (btree_values (<[k := v]> m)) = (f v + sum_by f (btree_values m))%N.
Proof. intros Hk. by rewrite (sum_by_perm _ _ _ (btree_values_insert m k v Hk)). Qed.

Lemma values_insert_old {V} (m : gmap string V) k v v' (f : V → N) :
  m !! k = Some v → (sum_by f (btree_values (<[k := v']> m)) + f v = f v' + sum_by f (btree_values m))%N.
Proof.
  intros Hk. rewrite <-insert_delete_eq, values_insert_new by apply lookup_delete_eq.
  rewrite (sum_by_perm f _ _ (btree_values_delete m k v Hk)). cbn [sum_by]. lia.
Qed.

(** Reservations keep their records, so past overruns stay what they were. *)
Lemma overrun_kept log s s' :
  (∀ id, id ∈ omap closed_id log → from_option (λ h, maximum_nanos_usd (held_record h)) 0%N (reservations s' !! id)
                                   = from_option (λ h, maximum_nanos_usd (held_record h)) 0%N (reservations s !! id)) →
  sum_by (overrun s') log = sum_by (overrun s) log.
Proof.
  intros Hk. apply sum_by_ext. intros e He. destruct e as [| |id u a d| |]; try done. cbn. rewrite Hk; [done|].
  apply list_elem_of_omap. by exists (ME_Settled id u a d).
Qed.

Lemma closed_reserved log s id : ledger_ok log s → id ∈ omap closed_id log → is_Some (reservations s !! id).
Proof. intros Hok (h & Hh & _)%(lo_closed _ _ Hok). by exists h. Qed.

Lemma ledger_quiet log s period n :
  ledger_ok log s → ledger_ok (log ++ [ME_ObservedFloor period n]) (s <| accounted_tokens ::= <[period := n]> |>).
Proof.
  intros []. split; cbn [drawn_nanos_usd credit_grants reservations set]; unfold drawn_in, granted_in in *;
    rewrite ?omap_app, ?app_nil_r, ?sum_by_app; cbn; rewrite ?app_nil_r, ?N.add_0_r; done.
Qed.

Lemma held_spec s : held_nanos_usd s = N.min (held_in s) u64_max.
Proof. unfold held_nanos_usd. by rewrite saturating_sum_spec, sum_by_filter. Qed.

Ltac log_sums := unfold drawn_in, granted_in, held_in in *; rewrite ?omap_app, ?sum_by_app; cbn.

Ltac log_ids := rewrite ?omap_app; cbn [omap list_omap reserved_id closed_id granted_id]; rewrite ?app_nil_r.

Lemma ledger_reserved log s r :
  ledger_ok log s → reservations s !! re_id r = None → (maximum_nanos_usd r ≤ available_nanos_usd s)%N →
  ledger_ok (log ++ [ME_Reserved r]) (s <| reservations ::= <[re_id r := mkHeld r MA_Open]> |>).
Proof.
  intros Hok Hnew Hav. pose proof Hok as [Hd Hg Hgs Hr Hc (H1 & H2 & H3) Hs].
  assert (re_id r ∉ omap reserved_id log) as Hnr by (rewrite <-Hr, Hnew; by intros [? ?]).
  assert (drawn_in log + held_in s + maximum_nanos_usd r ≤ granted_in log + sum_by (overrun s) log)%N as Hroom.
  { unfold available_nanos_usd in Hav. rewrite held_spec, Hd in Hav. unfold granted_nanos_usd in Hav.
    rewrite saturating_sum_spec, Hg in Hav. lia. }
  split; cbn [drawn_nanos_usd credit_grants reservations set].
  - log_sums. by rewrite !N.add_0_r.
  - log_sums. by rewrite !N.add_0_r.
  - intros id. log_ids. apply Hgs.
  - intros id. log_ids. rewrite elem_of_app, <-Hr, list_elem_of_singleton. destruct (base.decide (re_id r = id)) as [<-|Hne].
    + rewrite lookup_insert_eq. split; [by right|by eexists].
    + rewrite lookup_insert_ne by done. split; [by left|]. by intros [?| ->].
  - intros id. log_ids. rewrite Hc. destruct (base.decide (re_id r = id)) as [<-|Hne].
    + rewrite lookup_insert_eq, Hnew. split; intros (h & Heq & Ho); [done|]. by injection Heq as <-.
    + by rewrite lookup_insert_ne.
  - log_ids. split_and!; [|done|done]. apply NoDup_app. split_and!; [done| |by apply NoDup_singleton].
    intros id Hid ->%list_elem_of_singleton. done.
  - log_sums. rewrite (overrun_kept log s).
    + rewrite values_insert_new by done. change (hold (mkHeld r MA_Open)) with (maximum_nanos_usd r). log_sums. lia.
    + intros id (h & Hh & _)%Hc. cbn. rewrite lookup_insert_ne; [done|]. intros <-. by rewrite Hnew in Hh.
Qed.

(** A reservation that was open is closed: settled or released. *)
Lemma ledger_closed log s s' id e h status :
  ledger_ok log s → reservations s !! id = Some h → is_open h = true → status ≠ MA_Open →
  closed_id e = Some id → reserved_id e = None → granted_id e = None →
  reservations s' = <[id := h <| held_status := status |>]> (reservations s) → credit_grants s' = credit_grants s →
  drawn_nanos_usd s' = u64_saturating_add (drawn_nanos_usd s) (drawn_in [e]) → granted_in [e] = 0%N →
  (drawn_in [e] ≤ hold h + overrun s' e)%N →
  ledger_ok (log ++ [e]) s'.
Proof.
  intros Hok Hh Hopen Hst Hce Hre Hge Hr' Hg' Hd' Hz Hdr. pose proof Hok as [Hd Hg Hgs Hr Hc (H1 & H2 & H3) Hs].
  assert (id ∉ omap closed_id log) as Hnc.
  { rewrite Hc. intros (h' & Heq & Ho). congruence. }
  assert (is_open (h <| held_status := status |>) = false) as Hclosed by (apply bool_decide_eq_false; cbn; done).
  split.
  - rewrite Hd', Hd. unfold drawn_in in *. rewrite sum_by_app. unfold u64_saturating_add. lia.
  - rewrite Hg', Hg. unfold granted_in in *. rewrite sum_by_app. lia.
  - intros id'. rewrite Hg', omap_app. cbn. rewrite Hge, app_nil_r. apply Hgs.
  - intros id'. rewrite Hr', omap_app. cbn. rewrite Hre, app_nil_r, <-Hr. destruct (base.decide (id = id')) as [<-|Hne].
    + rewrite lookup_insert_eq, Hh. split; by eexists.
    + by rewrite lookup_insert_ne.
  - intros id'. rewrite omap_app. cbn. rewrite Hce, elem_of_app, list_elem_of_singleton, Hr', Hc. destruct (base.decide (id = id')) as [<-|Hne].
    + rewrite lookup_insert_eq. split; [eauto|by right].
    + rewrite lookup_insert_ne by done. split; [by intros [?| ->]|by left].
  - rewrite !omap_app. cbn. rewrite Hre, Hge, Hce, !app_nil_r. split_and!; [done| |done].
    apply NoDup_app. split_and!; [done| |by apply NoDup_singleton]. intros id' Hid ->%list_elem_of_singleton. done.
  - assert (sum_by (overrun s') log = sum_by (overrun s) log) as Hov.
    { apply overrun_kept. intros id' Hid. rewrite Hr'. destruct (base.decide (id = id')) as [<-|Hne]; [done|]. by rewrite lookup_insert_ne. }
    unfold drawn_in, granted_in, held_in in *. rewrite !sum_by_app, Hov, Hr'. pose proof (values_insert_old (reservations s) id h
      (h <| held_status := status |>) hold Hh) as Hv. assert (hold (h <| held_status := status |>) = 0%N) as Hz0 by (unfold hold; by rewrite Hclosed).
    rewrite Hz0 in Hv. cbn [sum_by] in *. lia.
Qed.

Lemma ledger_granted log s g :
  ledger_ok log s → credit_grants s !! grant_id g = None →
  ledger_ok (log ++ [ME_Granted g]) (s <| credit_grants ::= <[grant_id g := g]> |>).
Proof.
  intros Hok Hnew. pose proof Hok as [Hd Hg Hgs Hr Hc (H1 & H2 & H3) Hs].
  assert (grant_id g ∉ omap granted_id log) as Hng by (rewrite <-Hgs, Hnew; by intros [? ?]).
  split; cbn [drawn_nanos_usd credit_grants reservations set].
  - log_sums. by rewrite !N.add_0_r.
  - rewrite values_insert_new by done. log_sums. lia.
  - intros id. log_ids. rewrite elem_of_app, <-Hgs, list_elem_of_singleton. destruct (base.decide (grant_id g = id)) as [<-|Hne].
    + rewrite lookup_insert_eq. split; [by right|by eexists].
    + rewrite lookup_insert_ne by done. split; [by left|]. by intros [?| ->].
  - intros id. log_ids. apply Hr.
  - intros id. log_ids. apply Hc.
  - log_ids. split_and!; [done|done|]. apply NoDup_app. split_and!; [done| |by apply NoDup_singleton].
    intros id Hid ->%list_elem_of_singleton. done.
  - log_sums. rewrite (overrun_kept log s) by done. lia.
Qed.

Lemma allowance_step log s c es s' :
  ledger_ok log s → apply ledger s c = Applied es s' → ledger_ok (log ++ es) s'.
Proof.
  intros Hok [Hd He]%apply_admitted. cbn [ledger lc_decide lc_event] in Hd.
  destruct c as [c|c|c|g]; cbn [allowance_decide] in Hd; repeat case_match; try done.
  all: injection Hd as <-; cbn in He; injection He as <-.
  all: repeat match goal with Hb : _ || _ = false |- _ => apply orb_false_iff in Hb as [??] end.
  - match goal with Hn : bool_decide (is_Some _) = false |- _ => apply bool_decide_eq_false, eq_None_not_Some in Hn end.
    assert (∀ a b, log ++ [a; b] = (log ++ [a]) ++ [b]) as Hcat by (intros; by rewrite <-app_assoc). rewrite Hcat.
    match goal with |- ledger_ok ((_ ++ [ME_ObservedFloor ?p ?n]) ++ _) _ =>
      refine (ledger_reserved (log ++ [ME_ObservedFloor p n]) (s <| accounted_tokens ::= <[p := n]> |>) (reservation c) _ _ _) end; [by apply ledger_quiet|done|]. by apply N.ltb_ge.
  - match goal with Hn : bool_decide (is_Some _) = false |- _ => apply bool_decide_eq_false, eq_None_not_Some in Hn end.
    apply (ledger_reserved log s (reservation c)); [done|done|]. by apply N.ltb_ge.
  - match goal with Hh : reservations s !! _ = Some ?h, Ho : negb _ = false |- _ => rename Hh into Hheld; apply negb_false_iff in Ho end.
    eapply (ledger_closed log s _ _ _ _ MA_Settled Hok Hheld); try done; cbn; rewrite ?Hheld; cbn; repeat case_match; cbn;
      rewrite ?N.add_0_r; try done.
    all: try (apply map_eq; intros id'; destruct (base.decide (st_reservation_id c = id')) as [<-|?];
      [by rewrite lookup_alter_eq, Hheld, lookup_insert_eq|by rewrite lookup_alter_ne, lookup_insert_ne]).
    all: rewrite lookup_alter_eq, Hheld; cbn; unfold hold; match goal with Ho : is_open _ = true |- _ => rewrite Ho end; lia.
  - match goal with Hh : reservations s !! _ = Some ?h, Ho : negb _ = false |- _ => rename Hh into Hheld; apply negb_false_iff in Ho end.
    eapply (ledger_closed log s _ _ _ _ MA_Released Hok Hheld); try done; cbn; unfold u64_saturating_add.
    + apply map_eq. intros id'. destruct (base.decide (rl_reservation_id c = id')) as [<-|?];
        [by rewrite lookup_alter_eq, Hheld, lookup_insert_eq|by rewrite lookup_alter_ne, lookup_insert_ne].
    + rewrite (lo_drawn _ _ Hok). unfold drawn_in. lia.
    + lia.
  - match goal with Hn : bool_decide (is_Some _) = false |- _ => apply bool_decide_eq_false, eq_None_not_Some in Hn end.
    by apply ledger_granted.
Qed.

Lemma ledger_trace log s : trace ledger log s → ledger_ok log s.
Proof.
  induction 1 as [|log s c es s' _ IH Ha]; [|by eapply allowance_step].
  split; cbn; try done; try (intros id; rewrite elem_of_nil; split; [by intros [? ?]|done]).
  - intros id. rewrite elem_of_nil. split; [done|]. by intros (h & ? & _).
  - split_and!; constructor.
Qed.

(** C32: Credits are conserved. In every history of a paying account's ledger, what was
    drawn and what is held never exceed what was granted and what settlements drew beyond
    their own holds; the totals the state reports are these sums, capped at 64 bits; a
    credit is granted once under an id, a reservation is made once under an id and closed
    at most once, settled or released. *)
Theorem credits_conserved log s :
  trace ledger log s →
  (drawn_in log + held_in s ≤ granted_in log + sum_by (overrun s) log)%N
  ∧ drawn_nanos_usd s = N.min (drawn_in log) u64_max ∧ granted_nanos_usd s = N.min (granted_in log) u64_max
  ∧ held_nanos_usd s = N.min (held_in s) u64_max
  ∧ NoDup (omap granted_id log) ∧ NoDup (omap reserved_id log) ∧ NoDup (omap closed_id log)
  ∧ ∀ id, id ∈ omap closed_id log → id ∈ omap reserved_id log.
Proof.
  intros Hok%ledger_trace. pose proof Hok as [Hd Hg _ Hr Hc (H1 & H2 & H3) Hs]. split_and!; try done.
  - unfold granted_nanos_usd. by rewrite saturating_sum_spec, Hg.
  - apply held_spec.
  - intros id. rewrite <-Hr. by apply closed_reserved.
Qed.

(** ** Texts *)

#[export] Instance is_char_dec c : Decision (is_char c).
Proof. unfold is_char. apply _. Defined.

(** [String::from_utf8(bytes).ok()] *)
Definition from_utf8 (bytes : list N) : option string :=
  let s := string_of_bytes bytes in
  if bool_decide (Forall is_char (chars s)) && String.eqb (of_chars (chars s)) s then Some s else None.

(** ** The plan that funds a turn *)

Record ManagedReservationSummary := mkReservationSummary {
  sum_reserved : N; (* u64 *)
  sum_settled : N;
  sum_released : N;
  sum_outstanding : N;
  sum_outstanding_tokens : N;
}.
#[export] Instance ManagedReservationSummary_eta : Eta ManagedReservationSummary := mkEta (λ s,
  mkReservationSummary (sum_reserved s) (sum_settled s) (sum_released s) (sum_outstanding s) (sum_outstanding_tokens s)).

Class InferenceJson := {
  plan_json : Json ManagedPlanRecord;
  usage_json : Json ManagedUsageRecord;
  reservation_json : Json ManagedReservationRecord;
  settlement_json : Json ManagedSettlementRecord;
}.

Section projections.
Context `{SignedTexts} `{OrgJson} `{InferenceJson} (codec : option ContentCodec).

Definition funding_ref_for (scope plan : string) : string :=
  MANAGED_FUNDING_PREFIX +:+ encode scope +:+ ":" +:+ encode plan.

Definition funding_ref (scope : string) (plan : ManagedInferencePlan) : string := funding_ref_for scope (mp_plan plan).

(** [hex::decode(s).ok().and_then(String::from_utf8(..).ok()).filter(non-empty)] *)
Definition decoded_text (s : string) : option string :=
  bytes ← Federation.hex_decode s; text ← from_utf8 bytes; if String.eqb text "" then None else Some text.

Definition fold_plan_rows (rows : list string) : result failure (option ManagedInferencePlan) :=
  fold_rows plan_json (singleton pr_op subscription) None rows.

Definition fold_plan (db : Db) (scope : string) : result failure (option ManagedInferencePlan) :=
  fold_plan_rows (records codec db scope MANAGED_PLAN_KIND).

Definition resolve_funding_ref (db : Db) (reference : string) : result failure (option (ManagedInferencePlan * string)) :=
  match strip_prefix MANAGED_FUNDING_PREFIX reference ≫= split_once ":"%char with
  | None => Ok None
  | Some (scope_hex, plan_hex) =>
      match decoded_text scope_hex, decoded_text plan_hex with
      | Some scope, Some plan_name =>
          let? found := fold_plan db scope in
          match found with
          | None => Ok None
          | Some plan =>
              if negb (String.eqb (mp_plan plan) plan_name) || negb (String.eqb (funding_ref scope plan) reference)
              then Ok None else Ok (Some (plan, scope))
          end
      | _, _ => Ok None
      end
  end.

Definition resolve_plan (db : Db) (account_scope tenant_scope : string)
    : result failure (option (ManagedInferencePlan * string)) :=
  let? org := rebuild_in codec db tenant_scope in
  match billing org ≫= managed_inference with
  | Some plan => Ok (Some (plan, tenant_scope))
  | None =>
      let? tenant := fold_plan db tenant_scope in
      match tenant with
      | Some plan => Ok (Some (plan, tenant_scope))
      | None => let? account := fold_plan db account_scope in Ok ((λ plan, (plan, account_scope)) <$> account)
      end
  end.

(** ** Usage *)

Definition from_runtime (engagement_id : string) (usage : ModelUsage) : ManagedUsageRecord :=
  mkUsageRecord (mu_usage_ref usage) engagement_id (mu_usage_ref usage) (mu_provider usage) (mu_model usage)
    (mu_input_tokens usage) (mu_output_tokens usage) None None.

Definition from_funded_runtime (engagement_id : string) (usage : ModelUsage) (funding : string) (observed_at : N)
    : ManagedUsageRecord :=
  mkUsageRecord (mu_usage_ref usage) engagement_id (mu_usage_ref usage) (mu_provider usage) (mu_model usage)
    (mu_input_tokens usage) (mu_output_tokens usage) (Some funding) (Some observed_at).

Record ManagedUsageSummary := mkUsageSummary {
  runs : N; (* u64 *)
  input_tokens : N;
  output_tokens : N;
  total_tokens : N;
  summary_included_tokens : N;
  overage_tokens : N;
  unattributed_runs : N;
  unattributed_tokens : N;
}.

(** [map.insert(record.id.clone(), record)] *)
Definition keyed {R} (id : R → string) (m : gmap string R) (r : R) : gmap string R := <[id r := r]> m.

Definition observations (db : Db) (scope : string) : result failure (gmap string ManagedUsageRecord) :=
  fold_rows usage_json (keyed us_id) ∅ (records codec db scope MANAGED_USAGE_KIND).

Definition summarize (l : list ManagedUsageRecord) (included unattributed_runs unattributed_tokens : N) : ManagedUsageSummary :=
  let input := saturating_sum us_input_tokens l in
  let output := saturating_sum us_output_tokens l in
  let total := u64_saturating_add input output in
  mkUsageSummary (N.of_nat (length l)) input output total included (total - included) unattributed_runs unattributed_tokens.

Definition fold_usage (db : Db) (scope : string) (included : N) : result failure ManagedUsageSummary :=
  let? found := observations db scope in Ok (summarize (btree_values found) included 0 0).

Definition charged_to (reference : string) (from until : N) (o : ManagedUsageRecord) : bool :=
  match us_funding_ref o, us_observed_at o with
  | Some r, Some at_ => String.eqb r reference && (from <=? at_)%N && (at_ <? until)%N
  | _, _ => false
  end.
Definition unattributed (o : ManagedUsageRecord) : bool :=
  match us_funding_ref o, us_observed_at o with Some _, Some _ => false | _, _ => true end.

Definition fold_usage_for_funding_period (db : Db) (scope reference : string) (from until included : N)
    : result failure ManagedUsageSummary :=
  let? found := observations db scope in
  let unknown := List.filter unattributed (btree_values found) in
  Ok (summarize (List.filter (charged_to reference from until) (btree_values found)) included
        (saturating_sum (λ _, 1%N) unknown)
        (foldl (λ total o, u64_saturating_add (u64_saturating_add total (us_input_tokens o)) (us_output_tokens o)) 0%N unknown)).

Definition append_usage_record (engagement_scope billing_scope : string) (r : ManagedUsageRecord) : Prog unit :=
  do payload <- serialized usage_json r;
  if String.eqb billing_scope engagement_scope then
    do _ <- (λ db, append_record codec db engagement_scope MANAGED_USAGE_KIND payload); ret ()
  else
    do _ <- (λ db, append_records_atomically codec db
               [(engagement_scope, MANAGED_USAGE_KIND, payload); (billing_scope, MANAGED_USAGE_KIND, payload)]); ret ().

Definition append_usage (engagement_scope billing_scope : string) (usage : ModelUsage) : Prog unit :=
  append_usage_record engagement_scope billing_scope (from_runtime engagement_scope usage).

Definition append_funded_usage (engagement_scope billing_scope : string) (usage : ModelUsage) (funding : string)
    (observed_at : N) : Prog unit :=
  append_usage_record engagement_scope billing_scope (from_funded_runtime engagement_scope usage funding observed_at).

(** ** Reservations *)

Definition keyed_append (scope key kind payload : string) : Prog (Z * bool) :=
  λ db, append_record_with_key codec db scope key kind payload.

(** Written under the billing scope, and under the engagement's when that is another. *)
Definition append_in_both (engagement_scope billing_scope key kind payload : string) : Prog unit :=
  do _ <- keyed_append billing_scope key kind payload;
  if String.eqb billing_scope engagement_scope then ret ()
  else do _ <- keyed_append engagement_scope key kind payload; ret ().

Definition reserve_turn (engagement_scope billing_scope reference reservation_id : string) : Prog unit :=
  do payload <- serialized reservation_json
    (mkReservationRecord reservation_id engagement_scope reference 0 None None None 0);
  append_in_both engagement_scope billing_scope ("managed-reserve:" +:+ reservation_id) MANAGED_RESERVATION_KIND payload.

(** The first row of the id, reading up to it. *)
Fixpoint first_reservation (id : string) (rows : list string) : result failure (option ManagedReservationRecord) :=
  match rows with
  | [] => Ok None
  | row :: rows =>
      let? existing := ok_or (from_json reservation_json row) (Failed AE_Json) in
      if String.eqb (re_id existing) id then Ok (Some existing) else first_reservation id rows
  end.

Definition reserve_bounded_turn (billing_scope : string) (record : ManagedReservationRecord) : Prog bool :=
  do existing <- reads (λ db, first_reservation (re_id record) (records codec db billing_scope MANAGED_RESERVATION_KIND));
  match existing with
  | Some existing => ret (bool_decide (existing = record))
  | None =>
      do payload <- serialized reservation_json record;
      do x <- keyed_append billing_scope ("managed-reserve:" +:+ re_id record) MANAGED_RESERVATION_KIND payload;
      ret x.2
  end.

Definition settlement_record (reservation_id : string) (usage_ref : option string) (release_reason : string)
    : ManagedSettlementRecord :=
  match usage_ref with
  | Some usage_ref => SR_Settled ("settled:" +:+ reservation_id) reservation_id usage_ref
  | None => SR_Released ("released:" +:+ reservation_id) reservation_id release_reason
  end.

Definition settle_reservation (engagement_scope billing_scope reservation_id : string) (usage_ref : option string)
    (release_reason : string) : Prog unit :=
  do payload <- serialized settlement_json (settlement_record reservation_id usage_ref release_reason);
  append_in_both engagement_scope billing_scope ("managed-settle:" +:+ reservation_id) MANAGED_SETTLEMENT_KIND payload.

Definition settled_reservation (r : ManagedSettlementRecord) : string :=
  match r with SR_Settled _ reservation_id _ | SR_Released _ reservation_id _ => reservation_id end.

Definition reserved_records (db : Db) (scope : string) : result failure (gmap string ManagedReservationRecord) :=
  fold_rows reservation_json (keyed re_id) ∅ (records codec db scope MANAGED_RESERVATION_KIND).
Definition terminal_records (db : Db) (scope : string) : result failure (gmap string ManagedSettlementRecord) :=
  fold_rows settlement_json (keyed settled_reservation) ∅ (records codec db scope MANAGED_SETTLEMENT_KIND).

Definition count_reservation (terminal : gmap string ManagedSettlementRecord) (summary : ManagedReservationSummary)
    (x : string * ManagedReservationRecord) : ManagedReservationSummary :=
  match terminal !! x.1 with
  | Some (SR_Settled _ _ _) => summary <| sum_settled ::= λ n, u64_add n 1 |>
  | Some (SR_Released _ _ _) => summary <| sum_released ::= λ n, u64_add n 1 |>
  | None => (summary <| sum_outstanding ::= λ n, u64_add n 1 |>)
              <| sum_outstanding_tokens ::= λ n, u64_saturating_add n (maximum_tokens x.2) |>
  end.

Definition fold_reservations (db : Db) (scope : string) : result failure ManagedReservationSummary :=
  let? reserved := reserved_records db scope in
  let? terminal := terminal_records db scope in
  Ok (foldl (count_reservation terminal) (mkReservationSummary (N.of_nat (size reserved)) 0 0 0 0) (btree_iter reserved)).

Definition holds_in_period (terminal : gmap string ManagedSettlementRecord) (reference : string) (from until : N)
    (r : ManagedReservationRecord) : bool :=
  bool_decide (terminal !! re_id r = None) && String.eqb (re_funding_ref r) reference
  && match admitted_at r with Some at_ => (from <=? at_)%N && (at_ <? until)%N | None => false end
  && bool_decide (valid_from r = Some from) && bool_decide (valid_until r = Some until).

Definition fold_reserved_tokens_for_funding_period (db : Db) (scope reference : string) (from until : N) : result failure N :=
  let? reserved := reserved_records db scope in
  let? terminal := terminal_records db scope in
  Ok (saturating_sum maximum_tokens (List.filter (holds_in_period terminal reference from until) (btree_values reserved))).
End projections.

(** ** What the projections promise *)

Section promises.
Context `{ST : SignedTexts} `{J : InferenceJson} (codec : option ContentCodec) `{!CodecLaws codec}.
Context `{!JsonLaws usage_json, !JsonLaws reservation_json, !JsonLaws settlement_json}.

Lemma usage_appended engagement billing r db db' :
  db_ok db → append_usage_record codec engagement billing r db = (db', Ok ()) →
  db_ok db' ∧ ∃ payload, to_json usage_json r = Some payload
    ∧ records codec db' billing MANAGED_USAGE_KIND = records codec db billing MANAGED_USAGE_KIND ++ [payload].
Proof.
  intros Hok Hop. unfold append_usage_record, bind in Hop. destruct (serialized usage_json r db) as [db0 [payload|]] eqn:Hser; [|done].
  apply serialized_ok in Hser as [-> Hser]. destruct (String.eqb_spec billing engagement) as [->|Hne].
  - destruct (append_record _ _ _ _ _) as [db1 [p|]] eqn:Happ; [|done]. injection Hop as <-.
    destruct (append_record_records _ _ _ _ _ _ _ engagement MANAGED_USAGE_KIND Hok Happ) as [Hext Hrec]. split; [by destruct Hext|].
    exists payload. by rewrite Hrec, bool_decide_eq_true_2.
  - destruct (append_records_atomically _ _ _) as [db1 [p|]] eqn:Happ; [|done]. injection Hop as <-.
    destruct (append_all_records _ _ _ _ _ billing MANAGED_USAGE_KIND Hok Happ) as [Hok1 Hrec]. split; [done|].
    exists payload. split; [done|]. rewrite Hrec. f_equal. rewrite filter_cons_False by (cbn; naive_solver).
    rewrite filter_cons_True by done. done.
Qed.

(** Observations of other ids, and of this id the same, leave what is held under it. *)
Lemma observed_kept more m m' id r :
  fold_rows usage_json (keyed us_id) m more = Ok m' → m !! id = Some r →
  Forall (λ row, ∃ r', from_json usage_json row = Some r' ∧ (us_id r' = id → r' = r)) more → m' !! id = Some r.
Proof.
  revert m. induction more as [|row more IH]; intros m; [by intros [= <-]|]. intros Hf Hm Hall.
  apply Forall_cons in Hall as [(r' & Hr' & Hsame) Hall]. unfold fold_rows in *. cbn [try_fold] in Hf. rewrite Hr' in Hf. cbn in Hf.
  eapply IH; [exact Hf| |done]. unfold keyed. destruct (base.decide (us_id r' = id)) as [<-|Hne].
  - rewrite lookup_insert_eq. f_equal. by apply Hsame.
  - by rewrite lookup_insert_ne.
Qed.

(** Usage is billed once. After an observation was recorded, whatever observations of
    other uses came in between, recording it again changes no total: neither all usage of
    the scope nor the usage of any funding source and period; the observation is counted
    as it was recorded. *)
Theorem usage_billed_once db db1 db2 db3 engagement billing usage funding observed_at more :
  let r := from_funded_runtime engagement usage funding observed_at in
  db_ok db → append_funded_usage codec engagement billing usage funding observed_at db = (db1, Ok ()) →
  db_ok db2 → records codec db2 billing MANAGED_USAGE_KIND = records codec db1 billing MANAGED_USAGE_KIND ++ more →
  Forall (λ row, ∃ r', from_json usage_json row = Some r' ∧ (us_id r' = us_id r → r' = r)) more →
  append_funded_usage codec engagement billing usage funding observed_at db2 = (db3, Ok ()) →
  (∀ included, fold_usage codec db3 billing included = fold_usage codec db2 billing included)
  ∧ (∀ source from until included, fold_usage_for_funding_period codec db3 billing source from until included
      = fold_usage_for_funding_period codec db2 billing source from until included)
  ∧ ∀ m, observations codec db3 billing = Ok m → m !! us_id r = Some r.
Proof.
  intros r Hok H1 Hok2 Hmore Hall H3. apply usage_appended in H1 as (Hok1 & p & Hp & Hrec1); [|done].
  apply usage_appended in H3 as (_ & p' & Hp' & Hrec3); [|done]. fold r in Hp, Hp'. assert (p' = p) as -> by congruence.
  assert (observations codec db3 billing = observations codec db2 billing
          ∧ ∀ m, observations codec db2 billing = Ok m → m !! us_id r = Some r) as [Heq Hheld].
  { unfold observations. rewrite Hrec3, fold_rows_app. destruct (fold_rows _ _ _ (records codec db2 billing _)) as [m|e] eqn:Hm; [|done].
    assert (m !! us_id r = Some r) as Hheld.
    { rewrite Hmore, fold_rows_app in Hm. destruct (fold_rows _ _ _ (records codec db1 billing _)) as [m1|] eqn:Hm1; [|done].
      eapply observed_kept; [exact Hm| |done]. rewrite Hrec1, fold_rows_app in Hm1. destruct (fold_rows _ _ _ (records codec db billing _)) as [m0|]; [|done].
      unfold fold_rows in Hm1. cbn [try_fold] in Hm1. rewrite (json_roundtrip _ _ Hp) in Hm1. injection Hm1 as <-. apply lookup_insert_eq. }
    split; [|by intros m' [= <-]]. unfold fold_rows. cbn [try_fold]. rewrite (json_roundtrip _ _ Hp). cbn. f_equal. by apply insert_id. }
  unfold fold_usage, fold_usage_for_funding_period. rewrite Heq. by split_and!.
Qed.

Lemma first_reservation_app id rows more r :
  first_reservation id rows = Ok (Some r) → first_reservation id (rows ++ more) = Ok (Some r).
Proof.
  induction rows as [|row rows IH]; [done|]. cbn [first_reservation app]. destruct (ok_or _ _) as [x|]; [|done].
  by destruct (String.eqb _ _).
Qed.

Lemma first_reservation_none id rows row r :
  first_reservation id rows = Ok None → from_json reservation_json row = Some r → re_id r = id →
  first_reservation id (rows ++ [row]) = Ok (Some r).
Proof.
  intros Hn Hr Hid. induction rows as [|row' rows IH]; cbn [first_reservation app] in *.
  - rewrite Hr. cbn. by rewrite (proj2 (String.eqb_eq _ _) Hid).
  - destruct (ok_or _ _) as [x|]; [|done]. destruct (String.eqb _ _); [done|]. by apply IH.
Qed.

(** A bounded reservation is made once. After it was admitted under a billing scope, in
    every later log of that scope the same reservation is accepted without a trace and
    another under its id is refused, without a trace too. *)
Theorem bounded_reservation_once db billing r db1 db2 more r' :
  db_ok db → reserve_bounded_turn codec billing r db = (db1, Ok true) →
  records codec db2 billing MANAGED_RESERVATION_KIND = records codec db1 billing MANAGED_RESERVATION_KIND ++ more →
  re_id r' = re_id r →
  reserve_bounded_turn codec billing r' db2 = (db2, Ok (bool_decide (r = r'))).
Proof.
  intros Hok Hop Hmore Hid. assert (first_reservation (re_id r) (records codec db1 billing MANAGED_RESERVATION_KIND) = Ok (Some r)) as Hf.
  { unfold reserve_bounded_turn, bind, reads in Hop.
    destruct (first_reservation (re_id r) (records codec db billing _)) as [[x|]|] eqn:Hfirst; [| |done].
    - injection Hop as <- Hx. apply bool_decide_eq_true in Hx as ->. done.
    - destruct (serialized reservation_json r db) as [db0 [payload|]] eqn:Hser; [|done]. apply serialized_ok in Hser as [-> Hp].
      unfold keyed_append in Hop. destruct (append_record_with_key _ _ _ _ _ _) as [db' [[p fresh]|]] eqn:Happ; [|done].
      injection Hop as -> Hfresh. cbn in Hfresh. subst fresh.
      destruct (keyed_records _ _ _ _ _ _ _ _ _ billing MANAGED_RESERVATION_KIND Hok Happ) as (_ & _ & _ & _ & _ & ->).
      cbn [andb]. rewrite bool_decide_eq_true_2 by done. apply first_reservation_none; [done|by apply json_roundtrip|done]. }
  unfold reserve_bounded_turn, bind, reads. rewrite Hmore, Hid, (first_reservation_app _ _ _ _ Hf). done.
Qed.

Lemma keyed_again db scope key kind payload p :
  command_receipts db !! (scope, key) = Some p → (append_record_with_key codec db scope key kind payload).1 = db.
Proof. intros Hk. unfold append_record_with_key, transaction. destruct (encode_payload _ _ _ _); [|done]. by rewrite Hk. Qed.

Lemma in_both_again db engagement billing key kind payload :
  is_Some (command_receipts db !! (billing, key)) → is_Some (command_receipts db !! (engagement, key)) →
  (append_in_both codec engagement billing key kind payload db).1 = db.
Proof.
  intros [p Hp] [q Hq]. unfold append_in_both, bind, keyed_append, ret.
  pose proof (keyed_again db billing key kind payload p Hp) as Hb. pose proof (keyed_again db engagement key kind payload q Hq) as He.
  destruct (append_record_with_key codec db billing key kind payload) as [db1 [x|]]; cbn [fst] in *; subst; [|done].
  destruct (String.eqb billing engagement); [done|].
  by destruct (append_record_with_key codec db engagement key kind payload) as [db2 [y|]].
Qed.

Lemma in_both_done db engagement billing key kind payload db1 :
  db_ok db → append_in_both codec engagement billing key kind payload db = (db1, Ok ()) →
  is_Some (command_receipts db1 !! (billing, key)) ∧ is_Some (command_receipts db1 !! (engagement, key))
  ∧ (command_receipts db !! (billing, key) = None →
     records codec db1 billing kind = records codec db billing kind ++ [payload]).
Proof.
  intros Hok Hop. unfold append_in_both, bind, keyed_append, ret in Hop.
  destruct (append_record_with_key codec db billing key kind payload) as [db' [[p fresh]|]] eqn:H1; [|done].
  destruct (keyed_records _ _ _ _ _ _ _ _ _ billing kind Hok H1) as (Hk1 & _ & Hold & _ & Hok1 & Hr1).
  assert (command_receipts db !! (billing, key) = None → records codec db' billing kind = records codec db billing kind ++ [payload]) as Hfresh.
  { intros Hn. destruct fresh; [|destruct (Hold eq_refl) as [_ [x Hx]]; congruence].
    rewrite Hr1. cbn [andb]. by rewrite bool_decide_eq_true_2. }
  destruct (String.eqb_spec billing engagement) as [->|Hne]; [by injection Hop as <-|].
  destruct (append_record_with_key codec db' engagement key kind payload) as [db2 [[q fresh2]|]] eqn:H2; [|done]. injection Hop as <-.
  destruct (keyed_records _ _ _ _ _ _ _ _ _ billing kind Hok1 H2) as (Hk2 & Hsub & _ & _ & _ & Hr2). split_and!; [|done|].
  - destruct Hk1 as [x Hx]. exists x. by eapply lookup_weaken.
  - intros Hn. rewrite Hr2, (bool_decide_eq_false_2 (engagement = billing ∧ kind = kind)) by naive_solver.
    by rewrite andb_false_r, app_nil_r, Hfresh.
Qed.

(** A turn's outcome is recorded once. After a reservation was settled or released,
    no later settlement or release of it writes anything, whatever it says, while its
    receipts stand; and the outcome that came first is the one the billing scope reads. *)
Theorem outcome_recorded_once db engagement billing id outcome why db1 :
  db_ok db → settle_reservation codec engagement billing id outcome why db = (db1, Ok ()) →
  (∀ db2 outcome' why', command_receipts db1 ⊆ command_receipts db2 →
     (settle_reservation codec engagement billing id outcome' why' db2).1 = db2)
  ∧ (command_receipts db !! (billing, "managed-settle:" +:+ id) = None →
     ∀ m, terminal_records codec db1 billing = Ok m → m !! id = Some (settlement_record id outcome why)).
Proof.
  intros Hok Hop. unfold settle_reservation, bind in Hop.
  destruct (serialized settlement_json _ db) as [db0 [payload|]] eqn:Hser; [|done]. apply serialized_ok in Hser as [-> Hp].
  destruct (in_both_done _ _ _ _ _ _ _ Hok Hop) as ([p Hb] & [q He] & Hrec). split.
  - intros db2 outcome' why' Hsub. unfold settle_reservation, bind, serialized.
    destruct (to_json settlement_json (settlement_record id outcome' why')) as [payload'|]; [|done]. cbn.
    apply in_both_again; [exists p|exists q]; by eapply lookup_weaken.
  - intros Hn m Hm. unfold terminal_records in Hm. rewrite Hrec, fold_rows_app in Hm by done.
    destruct (fold_rows _ _ _ (records codec db billing _)) as [m0|]; [|done]. unfold fold_rows in Hm. cbn [try_fold] in Hm.
    rewrite (json_roundtrip _ _ Hp) in Hm. injection Hm as <-. unfold keyed. destruct outcome; apply lookup_insert_eq.
Qed.
End promises.

(** ** The properties at concrete inputs *)

Module InferenceSample.

Definition sample_usage : Json ManagedUsageRecord := tuple_json
  (λ r, (us_id r, us_engagement_id r, us_usage_ref r, us_provider r, us_model r, us_input_tokens r, us_output_tokens r,
         us_funding_ref r, us_observed_at r))
  (λ '(a, b, c, d, e, f, g, h, i), mkUsageRecord a b c d e f g h i).
Definition sample_reservation : Json ManagedReservationRecord := tuple_json
  (λ r, (re_id r, re_engagement_id r, re_funding_ref r, maximum_tokens r, admitted_at r, valid_from r, valid_until r, maximum_nanos_usd r))
  (λ '(a, b, c, d, e, f, g, h), mkReservationRecord a b c d e f g h).
Definition sample_settlement : Json ManagedSettlementRecord := tuple_json
  (λ r, match r with SR_Settled a b c => (true, a, b, c) | SR_Released a b c => (false, a, b, c) end)
  (λ '(x, a, b, c), if x : bool then SR_Settled a b c else SR_Released a b c).

#[export] Instance sample_usage_laws : JsonLaws sample_usage.
Proof. apply tuple_json_laws. by intros []. Qed.
#[export] Instance sample_reservation_laws : JsonLaws sample_reservation.
Proof. apply tuple_json_laws. by intros []. Qed.
#[export] Instance sample_settlement_laws : JsonLaws sample_settlement.
Proof. apply tuple_json_laws. by intros []. Qed.

#[export] Instance sample_json : InferenceJson := {|
  plan_json := mkJson (λ _, None) (λ _, None);
  usage_json := sample_usage; reservation_json := sample_reservation; settlement_json := sample_settlement;
|}.

#[export] Instance plain_laws : CodecLaws None.
Proof. intros c scope kind plain stored. discriminate. Qed.

(** A starter credit, a reservation of three dollars that drew four, and one of a dollar
    that is held. *)
Definition starter : ManagedCreditGrant := mkCreditGrant STARTER_CREDIT_GRANT_ID STARTER_CREDIT_NANOS_USD "starter" 1.
Definition turn (id : string) (nanos : N) : ManagedReservationRecord :=
  mkReservationRecord id "chat" "plan" 100 (Some 150%N) (Some 100%N) (Some 200%N) nanos.
Definition commands : list ManagedAllowanceCommand :=
  [MC_Grant starter; MC_Reserve (mkReserve (turn "a" 3000000000) 7 0); MC_Settle (mkSettle "a" "u1" 40 (Some 4000000000%N));
   MC_Reserve (mkReserve (turn "b" 1000000000) 7 0)].

Definition run_all : option (list ManagedAllowanceEvent * ManagedAllowanceState) :=
  foldl (λ x c, '(log, s) ← x; match apply ledger s c with Applied es s' => Some (log ++ es, s') | _ => None end)
    (Some ([], allowance_default)) commands.

Lemma run_all_trace cs log s log' s' :
  trace ledger log s →
  foldl (λ x c, '(log, s) ← x; match apply ledger s c with Applied es s' => Some (log ++ es, s') | _ => None end)
    (Some (log, s)) cs = Some (log', s') → trace ledger log' s'.
Proof.
  revert log s. induction cs as [|c cs IH]; intros log s Ht; cbn [foldl].
  - by intros [= <- <-].
  - change ('(l, t) ← Some (log, s); match apply ledger t c with Applied es s0 => Some (l ++ es, s0) | _ => None end)
      with (match apply ledger s c with Applied es s0 => Some (log ++ es, s0) | _ => None end).
    destruct (apply ledger s c) as [|es s0|] eqn:Ha.
    + intros Hn. exfalso. revert Hn. clear. induction cs as [|c' cs IH]; [done|]. exact IH.
    + apply IH. by eapply trace_admit.
    + intros Hn. exfalso. revert Hn. clear. induction cs as [|c' cs IH]; [done|]. exact IH.
Qed.

Definition final : list ManagedAllowanceEvent * ManagedAllowanceState := default ([], allowance_default) run_all.

Lemma credits_conserved_witness :
  trace ledger final.1 final.2 ∧ (drawn_in final.1 + held_in final.2 ≤ granted_in final.1 + sum_by (overrun final.2) final.1)%N
  ∧ granted_in final.1 = 5000000000%N ∧ drawn_in final.1 = 4000000000%N ∧ held_in final.2 = 1000000000%N
  ∧ sum_by (overrun final.2) final.1 = 1000000000%N.
Proof.
  assert (trace ledger final.1 final.2) as Ht.
  { apply (run_all_trace commands [] allowance_default); [constructor|]. vm_compute. reflexivity. }
  split; [exact Ht|]. split; [exact (proj1 (credits_conserved final.1 final.2 Ht))|]. vm_compute. repeat split; reflexivity.
Defined.

Definition usage : ModelUsage := mkModelUsage "u1" "provider" "model" 7 5.
Definition billed (db : Db) : Db * result failure unit := append_funded_usage None "chat" "account" usage "plan" 150 db.

Lemma usage_billed_once_witness :
  ∃ db1 db3, billed empty_db = (db1, Ok ()) ∧ billed db1 = (db3, Ok ())
  ∧ fold_usage None db3 "account" 10 = fold_usage None db1 "account" 10
  ∧ fold_usage None db1 "account" 10 = Ok (mkUsageSummary 1 7 5 12 10 2 0 0).
Proof.
  eexists _, _. split; [vm_compute; reflexivity|]. split; [vm_compute; reflexivity|]. split; [|vm_compute; reflexivity].
  refine (proj1 (usage_billed_once None empty_db _ _ _ "chat" "account" usage "plan" 150 [] empty_db_ok _ _ _ _ _) 10%N);
    [vm_compute; reflexivity| |vm_compute; reflexivity|constructor|vm_compute; reflexivity].
  refine (proj1 (usage_appended None "chat" "account" (from_funded_runtime "chat" usage "plan" 150) empty_db _ empty_db_ok _)).
  vm_compute. reflexivity.
Defined.

Lemma bounded_reservation_once_witness :
  ∃ db1, reserve_bounded_turn None "account" (turn "a" 3) empty_db = (db1, Ok true)
  ∧ reserve_bounded_turn None "account" (turn "a" 4) db1 = (db1, Ok false).
Proof.
  eexists. split; [vm_compute; reflexivity|].
  refine (bounded_reservation_once None empty_db "account" (turn "a" 3) _ _ [] (turn "a" 4) empty_db_ok _ _ _);
    vm_compute; reflexivity.
Defined.

Lemma outcome_recorded_once_witness :
  ∃ db1, settle_reservation None "chat" "account" "a" (Some "u1") "" empty_db = (db1, Ok ())
  ∧ (settle_reservation None "chat" "account" "a" None "failed" db1).1 = db1.
Proof.
  eexists. split; [vm_compute; reflexivity|].
  refine (proj1 (outcome_recorded_once None empty_db "chat" "account" "a" (Some "u1") "" _ empty_db_ok _) _ None "failed" _);
    [vm_compute; reflexivity|reflexivity].
Defined.
End InferenceSample.
