(* ===== verification/ManagedFunding.v ===== *)
(** * Verified funding of managed inference

    [crates/app/src/managed_funding.rs]: which evidence of future spend counts now
    ([decide]), the reference that names a source and no other, the resolution of an
    organization's plan before a person's, and of a reference. The evidence is records of
    the plan's kind ([ManagedInference.v]) with their provenance. *)

From Stdlib Require Import Ascii.
From S2P Require Import Prelude Ids Recovery Federation Lifecycle Store Records Texts Scopes SignedText Organization ManagedInference.

Definition FUNDING_REFERENCE_PREFIX : string := "gaugedesk:managed-plan:v2:".

Definition is_managed_funding_ref (reference : string) : bool :=
  starts_with MANAGED_FUNDING_PREFIX reference || starts_with FUNDING_REFERENCE_PREFIX reference.

Inductive FundingEnvironment := FE_Test | FE_Live.
#[export] Instance FundingEnvironment_eq_dec : EqDecision FundingEnvironment.
Proof. solve_decision. Defined.

Definition label (e : FundingEnvironment) : string := match e with FE_Test => "test" | FE_Live => "live" end.

Record FundingEvidence := mkEvidence {
  fe_v : N; (* u8 *)
  fe_issuer : AuthorityId;
  fe_scope : ScopeId;
  source_id : string;
  fe_environment : FundingEnvironment;
  verified_at : N; (* u64 *)
  fe_valid_from : N;
  fe_valid_until : N;
}.

Record FundingRecord := mkFundingRecord { fr_record : ManagedPlanRecord; provenance : option FundingEvidence }.

Record FundingContext := mkFundingContext { cx_issuer : AuthorityId; cx_environment : FundingEnvironment; now : N }.

Record FundingAuthority := mkFundingAuthority { fa_issuer : AuthorityId; fa_environment : FundingEnvironment }.

Definition context (a : FundingAuthority) (at_ : N) : FundingContext := mkFundingContext (fa_issuer a) (fa_environment a) at_.

Inductive FundingDenial :=
| InvalidContext | NotConfigured | Unverified | WrongContext | InvalidEvidence | Revoked | FD_Suspended | FD_Lapsed
| NotYetValid | FD_Expired | InvalidReference | SourceChanged.

Record ManagedFundingGrant := mkFundingGrant { plan : ManagedInferencePlan; evidence : FundingEvidence }.

(** One record of the stream, in order: what is selected after it. *)
Definition select (cx : FundingContext) (selected : result FundingDenial FundingRecord) (r : FundingRecord)
    : result FundingDenial FundingRecord :=
  match provenance r with
  | None => Err Unverified
  | Some p =>
      if negb (fe_v p =? 1)%N || blank (as_str (fe_issuer p)) then Err Unverified
      else if bool_decide (fe_issuer p = cx_issuer cx) && bool_decide (fe_environment p = cx_environment cx) then Ok r
      else selected
  end.

Definition funding_decide (scope : ScopeId) (records : list FundingRecord) (cx : FundingContext)
    : result FundingDenial ManagedFundingGrant :=
  if (now cx =? 0)%N || blank (as_str (cx_issuer cx)) || blank (as_str scope) then Err InvalidContext
  else
    let? record := foldl (select cx) (Err match records with [] => NotConfigured | _ => WrongContext end) records in
    let? e := ok_or (provenance record) Unverified in
    if negb (bool_decide (fe_scope e = scope)) || blank (source_id e) then Err InvalidEvidence
    else if match pr_op (fr_record record) with Tombstone => true | Upsert => false end then Err Revoked
    else if blank (pr_id (fr_record record)) || blank (mp_plan (subscription (fr_record record)))
            || (verified_at e =? 0)%N || (now cx <? verified_at e)%N || (fe_valid_from e =? 0)%N
            || (fe_valid_until e <=? fe_valid_from e)%N
    then Err InvalidEvidence
    else
      match mp_status (subscription (fr_record record)) with
      | MP_Suspended => Err FD_Suspended
      | MP_Lapsed => Err FD_Lapsed
      | MP_Active =>
          if (now cx <? fe_valid_from e)%N then Err NotYetValid
          else if (fe_valid_until e <=? now cx)%N then Err FD_Expired
          else Ok (mkFundingGrant (subscription (fr_record record)) e)
      end.

Section funding.
Context `{SignedTexts} `{OrgJson} (funding_json : Json FundingRecord) (codec : option ContentCodec).

Definition reference (g : ManagedFundingGrant) : string :=
  FUNDING_REFERENCE_PREFIX +:+ encode (as_str (fe_scope (evidence g))) +:+ ":" +:+ encode (mp_plan (plan g)) +:+ ":"
    +:+ encode (as_str (fe_issuer (evidence g))) +:+ ":" +:+ label (fe_environment (evidence g)) +:+ ":"
    +:+ encode (source_id (evidence g)).

Definition reference_scope (reference : string) : option ScopeId :=
  encoded ← strip_prefix FUNDING_REFERENCE_PREFIX reference;
  match split_on ":"%char encoded with
  | [scope; _; _; _; _] =>
      bytes ← Federation.hex_decode scope; text ← from_utf8 bytes;
      match parse text with Ok id => Some id | Err _ => None end
  | _ => None
  end.

Definition read_records (db : Db) (scope : ScopeId) : result failure (list FundingRecord) :=
  fold_rows funding_json collected [] (records codec db (as_str scope) MANAGED_PLAN_KIND).

Definition resolve_plan (db : Db) (account_scope tenant_scope : ScopeId) (cx : FundingContext)
    : result failure (result FundingDenial ManagedFundingGrant) :=
  let? rs := read_records db tenant_scope in
  match rs with
  | _ :: _ => Ok (funding_decide tenant_scope rs cx)
  | [] =>
      let? org := rebuild_in codec db (as_str tenant_scope) in
      match billing org ≫= managed_inference with
      | Some _ => Ok (Err Unverified)
      | None => let? rs := read_records db account_scope in Ok (funding_decide account_scope rs cx)
      end
  end.

Definition resolve_reference (db : Db) (named : string) (cx : FundingContext)
    : result failure (result FundingDenial ManagedFundingGrant) :=
  match reference_scope named with
  | None => Ok (Err InvalidReference)
  | Some scope =>
      let? rs := read_records db scope in
      Ok (let? g := funding_decide scope rs cx in if String.eqb (reference g) named then Ok g else Err SourceChanged)
  end.
End funding.

(** ** What a grant says *)

(** Evidence of this service and environment, and evidence known to be of another. *)
Definition speaks_for (cx : FundingContext) (e : FundingEvidence) : Prop :=
  fe_v e = 1%N ∧ fe_issuer e = cx_issuer cx ∧ fe_environment e = cx_environment cx.
Definition of_another (cx : FundingContext) (r : FundingRecord) : Prop :=
  ∃ e, provenance r = Some e ∧ fe_v e = 1%N ∧ blank (as_str (fe_issuer e)) = false
    ∧ ¬ (fe_issuer e = cx_issuer cx ∧ fe_environment e = cx_environment cx).

(** Evidence that funds [scope] now. *)
Record funds (cx : FundingContext) (scope : ScopeId) (r : FundingRecord) (e : FundingEvidence) : Prop := {
  fs_scope : fe_scope e = scope;
  fs_source : blank (source_id e) = false;
  fs_op : pr_op (fr_record r) = Upsert;
  fs_id : blank (pr_id (fr_record r)) = false;
  fs_plan : blank (mp_plan (subscription (fr_record r))) = false;
  fs_active : mp_status (subscription (fr_record r)) = MP_Active;
  fs_verified : (0 < verified_at e ≤ now cx)%N;
  fs_valid : (0 < fe_valid_from e ≤ now cx)%N ∧ (now cx < fe_valid_until e)%N;
}.

Lemma select_other cx selected r : of_another cx r → select cx selected r = selected.
Proof.
  intros (e & Hp & Hv & Hb & Hne). unfold select. rewrite Hp, Hv, Hb. cbn.
  destruct (bool_decide (fe_issuer e = _)) eqn:H1; [|done]. destruct (bool_decide (fe_environment e = _)) eqn:H2; [|done].
  apply bool_decide_eq_true in H1, H2. by destruct Hne.
Qed.

Lemma select_cases cx selected r out :
  select cx selected r = Ok out →
  (out = r ∧ blank (as_str (cx_issuer cx)) = false ∧ ∃ e, provenance r = Some e ∧ speaks_for cx e)
  ∨ (selected = Ok out ∧ of_another cx r).
Proof.
  unfold select. destruct (provenance r) as [e|] eqn:Hp; [|done]. destruct (negb _ || _) eqn:Hb; [done|].
  apply orb_false_iff in Hb as [Hv%negb_false_iff%N.eqb_eq Hb]. destruct (bool_decide _ && bool_decide _) eqn:Hm.
  - apply andb_true_iff in Hm as [Hi%bool_decide_eq_true He%bool_decide_eq_true]. intros [= <-]. left. split_and!; [done|congruence|].
    by exists e.
  - intros ->. right. split; [done|]. exists e. split_and!; [done..|]. intros [Hi He].
    by rewrite !bool_decide_eq_true_2 in Hm.
Qed.

Lemma selected_iff cx e0 rs r :
  blank (as_str (cx_issuer cx)) = false →
  foldl (select cx) (Err e0) rs = Ok r
  ↔ ∃ before after e, rs = before ++ r :: after ∧ provenance r = Some e ∧ speaks_for cx e ∧ Forall (of_another cx) after.
Proof.
  intros Hb. split.
  - induction rs as [|x rs IH] using rev_ind; [done|]. rewrite foldl_app. cbn [foldl]. intros [(-> & _ & e & He & Hs)|[Hsel Ho]]%select_cases.
    + exists rs, [], e. split_and!; [done..|constructor].
    + destruct (IH Hsel) as (before & after & e & -> & He & Hs & Ha). exists before, (after ++ [x]), e.
      split_and!; [by rewrite <-app_assoc|done|done|]. by apply Forall_app_2, Forall_singleton.
  - intros (before & after & e & -> & He & (Hv & Hi & Hn) & Ha). rewrite foldl_app. cbn [foldl].
    assert (select cx (foldl (select cx) (Err e0) before) r = Ok r) as ->.
    { unfold select. rewrite He, Hv, Hi, Hn, Hb. cbn. by rewrite !bool_decide_eq_true_2. }
    induction Ha as [|x after Hx Ha IH]; [done|]. cbn [foldl]. by rewrite select_other.
Qed.

(** C35: A turn is funded exactly by current evidence. A grant is given exactly when the
    last record of the scope that is not known to be of another service or environment is
    evidence of this one, not revoked, about this scope and a named source, verified
    already, of an active plan and valid at this moment; and the grant is that plan with
    that evidence. *)
Theorem funding_granted_iff scope rs cx g :
  funding_decide scope rs cx = Ok g ↔
  (0 < now cx)%N ∧ blank (as_str (cx_issuer cx)) = false ∧ blank (as_str scope) = false
  ∧ ∃ before r after e, rs = before ++ r :: after ∧ provenance r = Some e ∧ speaks_for cx e
      ∧ Forall (of_another cx) after ∧ funds cx scope r e ∧ g = mkFundingGrant (subscription (fr_record r)) e.
Proof.
  unfold funding_decide. split.
  - destruct ((now cx =? 0)%N || _ || _) eqn:Hc; [done|]. apply orb_false_iff in Hc as [[Hn%N.eqb_neq Hi]%orb_false_iff Hs].
    destruct (foldl _ _ rs) as [r|] eqn:Hf; [|done]. apply selected_iff in Hf as (before & after & e & -> & He & Hsp & Ha); [|done].
    rewrite He. cbn [ok_or]. repeat case_match; try done. intros [= <-]. split_and!; [lia|done|done|].
    repeat match goal with Hb : _ || _ = false |- _ => apply orb_false_iff in Hb as [? ?] end.
    exists before, r, after, e. split_and!; [done..| |done].
    repeat match goal with
           | Hb : negb _ = false |- _ => apply negb_false_iff, bool_decide_eq_true in Hb
           | Hb : (_ =? _)%N = false |- _ => apply N.eqb_neq in Hb
           | Hb : (_ <? _)%N = false |- _ => apply N.ltb_ge in Hb
           | Hb : (_ <=? _)%N = false |- _ => apply N.leb_gt in Hb
           end.
    split; [done..|lia|lia].
  - intros (Hn & Hi & Hs & before & r & after & e & -> & He & Hsp & Ha & [H1 H2 H3 H4 H5 H6 H7 H8] & ->).
    rewrite Hi, Hs, (proj2 (N.eqb_neq _ _)) by lia. cbn [orb].
    rewrite (proj2 (selected_iff cx _ _ r Hi)) by eauto 10. rewrite He. cbn [ok_or].
    rewrite (bool_decide_eq_true_2 _ H1), H2, H3, H4, H5, H6. cbn [negb orb].
    rewrite !(proj2 (N.eqb_neq _ _)), (proj2 (N.ltb_ge _ (verified_at e))), (proj2 (N.leb_gt _ (fe_valid_from e))) by lia. cbn [orb].
    by rewrite (proj2 (N.ltb_ge _ (fe_valid_from e))), (proj2 (N.leb_gt _ (now cx))) by lia.
Qed.

(** ** References *)

Section references.
Context `{SignedTextLaws} `{J : OrgJson} (funding_json : Json FundingRecord) (codec : option ContentCodec).

Definition same_source (g g' : ManagedFundingGrant) : Prop :=
  fe_scope (evidence g) = fe_scope (evidence g') ∧ mp_plan (plan g) = mp_plan (plan g')
  ∧ fe_issuer (evidence g) = fe_issuer (evidence g') ∧ fe_environment (evidence g) = fe_environment (evidence g')
  ∧ source_id (evidence g) = source_id (evidence g').

Lemma encode_no_colon s : contains_char ":"%char (encode s) = false.
Proof. eapply hex_decode_digits; [apply hex_roundtrip, bytes_of_octets|done]. Qed.

Lemma label_no_colon e : contains_char ":"%char (label e) = false.
Proof. by destruct e. Qed.

#[local] Hint Resolve encode_no_colon label_no_colon : core.

Lemma references_name g g' : reference g = reference g' ↔ same_source g g'.
Proof.
  unfold same_source. destruct g as [[p st inc] [v [i] [sc] src env vat vf vu]], g' as [[p' st' inc'] [v' [i'] [sc'] src' env' vat' vf' vu']].
  unfold reference. cbn. split; [|by intros ([= ->] & -> & [= ->] & -> & ->)].
  intros Heq. assert (∀ p s t, p +:+ s = p +:+ t → s = t) as Hinj.
  { clear. intros p s t Heq. pose proof (strip_prefix_append p s) as Hs. rewrite Heq, strip_prefix_append in Hs. congruence. }
  apply Hinj in Heq. apply append_sep_inj in Heq as [->%(inj encode) Heq]; [|done..].
  apply append_sep_inj in Heq as [->%(inj encode) Heq]; [|done..]. apply append_sep_inj in Heq as [->%(inj encode) Heq]; [|done..].
  apply append_sep_inj in Heq as [Hl ->%(inj encode)]; [|done..]. split_and!; try done. by destruct env, env'.
Qed.

Lemma string_of_bytes_of s : string_of_bytes (bytes_of s) = s.
Proof. induction s as [|c s IH]; cbn; [done|]. by rewrite ascii_N_embedding, IH. Qed.

Lemma from_utf8_str s : is_str s → from_utf8 (bytes_of s) = Some s.
Proof.
  intros (cs & Hcs & ->). unfold from_utf8. rewrite string_of_bytes_of, chars_of_chars, String.eqb_refl by done.
  by rewrite bool_decide_eq_true_2.
Qed.

Lemma reference_scope_spec g :
  is_str (as_str (fe_scope (evidence g))) → blank (as_str (fe_scope (evidence g))) = false →
  reference_scope (reference g) = Some (fe_scope (evidence g)).
Proof.
  intros Hs Hb. unfold reference_scope, reference. rewrite strip_prefix_append. cbn [mbind option_bind].
  rewrite !split_on_segment by done.
  assert (∀ s, contains_char ":"%char s = false → split_on ":"%char s = [s]) as Hlast.
  { clear. induction s as [|c s IH]; [done|]. cbn [contains_char split_on]. intros [Hc Hs]%orb_false_iff. by rewrite Hc, IH. }
  rewrite Hlast by done. unfold encode at 1. rewrite hex_roundtrip by apply bytes_of_octets. cbn [mbind option_bind].
  rewrite from_utf8_str by done. cbn [mbind option_bind]. unfold parse. unfold blank in Hb. rewrite Hb. by destruct (fe_scope (evidence g)).
Qed.

(** A funding reference authorizes nothing by itself. The reference of a grant resolves
    at a later moment exactly when the current evidence of its scope grants then, and
    grants the same source: the scope, the plan, the issuer, the environment and the
    source that the reference names; what it resolves to is the current grant. References
    are equal exactly for the same source. *)
Theorem reference_rechecked db g cx g' :
  is_str (as_str (fe_scope (evidence g))) → blank (as_str (fe_scope (evidence g))) = false →
  (resolve_reference funding_json codec db (reference g) cx = Ok (Ok g') ↔
   ∃ rs, read_records funding_json codec db (fe_scope (evidence g)) = Ok rs
     ∧ funding_decide (fe_scope (evidence g)) rs cx = Ok g' ∧ same_source g' g)
  ∧ (∀ h, reference h = reference g ↔ same_source h g).
Proof.
  intros Hs Hb. split; [|intros h; apply references_name]. unfold resolve_reference. rewrite reference_scope_spec by done.
  destruct (read_records funding_json codec db _) as [rs|e] eqn:Hr; [|split; [done|by intros (? & ? & _)]].
  destruct (funding_decide _ rs cx) as [g2|d] eqn:Hd.
  - destruct (String.eqb_spec (reference g2) (reference g)) as [Heq|Hne].
    + apply references_name in Heq. split; [intros [= <-]; by exists rs|]. intros (rs' & [= <-] & Hd' & _). congruence.
    + split; [done|]. intros (rs' & [= <-] & Hd' & Hsame). exfalso. apply Hne, references_name. congruence.
  - split; [done|]. intros (rs' & [= <-] & Hd' & _). congruence.
Qed.

(** An organization's funding is never the person's. Once an organization has a record
    of funding, or its billing selects a plan, what resolves does not depend on the
    person's account; and a grant of its records is of its scope. *)
Theorem organization_first db tenant cx rs :
  read_records funding_json codec db tenant = Ok rs →
  (rs ≠ [] ∨ ∃ o, rebuild_in codec db (as_str tenant) = Ok o ∧ is_Some (billing o ≫= managed_inference)) →
  ∃ r, (∀ account, resolve_plan funding_json codec db account tenant cx = Ok r)
    ∧ ∀ g, r = Ok g → fe_scope (evidence g) = tenant ∧ funding_decide tenant rs cx = Ok g.
Proof.
  intros Hr Hcase. destruct rs as [|x rs].
  - destruct Hcase as [|(o & Ho & [p Hp])]; [done|]. exists (Err Unverified). split; [|done].
    intros account. unfold resolve_plan. by rewrite Hr, Ho, Hp.
  - exists (funding_decide tenant (x :: rs) cx). split; [intros account; unfold resolve_plan; by rewrite Hr|].
    intros g Hg. split; [|done]. unfold funding_decide in Hg. repeat case_match; try done. injection Hg as <-. cbn.
    repeat match goal with Hx : _ || _ = false |- _ => apply orb_false_iff in Hx as [? ?] end.
    match goal with Hx : negb (bool_decide (fe_scope _ = tenant)) = false |- _ => by apply negb_false_iff, bool_decide_eq_true in Hx end.
Qed.
End references.

(** ** The properties at concrete inputs *)

Module FundingSample.
Import SampleTexts OrganizationSample.

Definition hub : FundingAuthority := mkFundingAuthority (mkId "hub") FE_Live.
Definition ev (scope : string) (until : N) : FundingEvidence :=
  mkEvidence 1 (mkId "hub") (mkId scope) "sub-1" FE_Live 90 100 until.
Definition paid (scope : string) (until : N) : FundingRecord := mkFundingRecord
  (mkPlanRecord "p" Upsert (mkPlan "pro" MP_Active 1000)) (Some (ev scope until)).
(** Evidence of the test environment does not displace it. *)
Definition other : FundingRecord := mkFundingRecord
  (mkPlanRecord "p" Tombstone (mkPlan "pro" MP_Lapsed 0)) (Some (mkEvidence 1 (mkId "hub") (mkId "acme") "t" FE_Test 90 100 200)).

Definition funding_json : Json FundingRecord := tuple_json
  (λ r, let p := fr_record r in let s := subscription p in
     (pr_id p, op_code (pr_op p), mp_plan s, match mp_status s with MP_Active => 0 | MP_Suspended => 1 | MP_Lapsed => 2 end,
      included_tokens s,
      (λ e, (fe_v e, as_str (fe_issuer e), as_str (fe_scope e), source_id e, bool_decide (fe_environment e = FE_Live),
             verified_at e, fe_valid_from e, fe_valid_until e)) <$> provenance r))
  (λ '(i, op, pl, st, inc, e), mkFundingRecord
     (mkPlanRecord i (code_op op) (mkPlan pl (match st with 0 => MP_Active | 1 => MP_Suspended | _ => MP_Lapsed end) inc))
     ((λ '(v, iss, sc, src, env, vat, vf, vu), mkEvidence v (mkId iss) (mkId sc) src (if env : bool then FE_Live else FE_Test) vat vf vu) <$> e)).

Definition stored (r : FundingRecord) : string := default "" (to_json funding_json r).
Definition funded (db : Db) (scope : string) (r : FundingRecord) : Db :=
  (append_record None db scope MANAGED_PLAN_KIND (stored r)).1.

Definition db1 : Db := funded (funded empty_db "acme" (paid "acme" 200)) "acme" other.
Definition grant : ManagedFundingGrant := mkFundingGrant (mkPlan "pro" MP_Active 1000) (ev "acme" 200).

Lemma funding_granted_iff_witness :
  ∃ before r after e, [paid "acme" 200; other] = before ++ r :: after ∧ provenance r = Some e
    ∧ speaks_for (context hub 150) e ∧ Forall (of_another (context hub 150)) after ∧ funds (context hub 150) (mkId "acme") r e.
Proof.
  assert (funding_decide (mkId "acme") [paid "acme" 200; other] (context hub 150) = Ok grant) as H by (vm_compute; reflexivity).
  apply (proj1 (funding_granted_iff _ _ _ _)) in H. destruct H as (_ & _ & _ & before & r & after & e & H1 & H2 & H3 & H4 & H5 & _).
  exists before, r, after, e. split; [exact H1|]. split; [exact H2|]. split; [exact H3|]. split; [exact H4|exact H5].
Defined.

Lemma acme_str : is_str "acme".
Proof. exists [97; 99; 109; 101]%N. split; [|vm_compute; reflexivity]. repeat constructor; left; reflexivity. Qed.

(** After a renewal the same reference resolves to the renewed evidence. *)
Definition db2 : Db := funded db1 "acme" (paid "acme" 300).

Lemma reference_rechecked_witness :
  resolve_reference funding_json None db2 (reference grant) (context hub 250)
  = Ok (Ok (mkFundingGrant (mkPlan "pro" MP_Active 1000) (ev "acme" 300)))
  ∧ resolve_reference funding_json None db1 (reference grant) (context hub 250) = Ok (Err FD_Expired).
Proof.
  split; [|vm_compute; reflexivity].
  apply (proj1 (reference_rechecked funding_json None db2 grant (context hub 250) _ acme_str eq_refl)).
  exists [paid "acme" 200; other; paid "acme" 300]. split; [vm_compute; reflexivity|]. split; [vm_compute; reflexivity|].
  repeat split; reflexivity.
Defined.

Lemma organization_first_witness :
  ∃ r, (∀ account, resolve_plan funding_json None db1 account (mkId "acme") (context hub 250) = Ok r) ∧ r = Err FD_Expired.
Proof.
  assert (read_records funding_json None db1 (mkId "acme") = Ok [paid "acme" 200; other]) as Hr by (vm_compute; reflexivity).
  assert ([paid "acme" 200; other] ≠ []) as Hne by discriminate.
  destruct (organization_first funding_json None db1 (mkId "acme") (context hub 250) [paid "acme" 200; other] Hr
    (or_introl Hne)) as (r & Ha & _).
  exists r. split; [exact Ha|]. specialize (Ha (mkId "me")).
  assert (resolve_plan funding_json None db1 (mkId "me") (mkId "acme") (context hub 250) = Ok (Err FD_Expired)) as Hc by (vm_compute; reflexivity).
  rewrite Hc in Ha. by injection Ha as <-.
Defined.
End FundingSample.
