(* ===== verification/ManagedEntitlement.v ===== *)
(** * Signed entitlements to managed inference

    [crates/app/src/managed_entitlement.rs]: the claims the Hub signs for a publisher's
    key, their canonical text, signing and verification. P-256, [hex] and [serde_json] are
    arguments; reading the signing key from the environment is left out. *)

From Stdlib Require Import Ascii.
From stdpp Require Import pretty.
From S2P Require Import Prelude Ids Recovery Federation Store Texts Scopes Records SignedText Organization ManagedInference ManagedFunding.

Definition ENTITLEMENT_DOMAIN : string := "gw-managed-entitlement.v2".
Definition ENTITLEMENT_TTL_SECS : N := 86400.
Definition ENTITLEMENT_VERSION : N := 2.
Definition PUBLIC_KEY_HEX_LEN : nat := 130.
Definition SIGNATURE_LEN : nat := 64.

Record EntitlementClaims := mkClaims {
  cl_v : N; (* u8 *)
  cl_funding_ref : string;
  authority : string;
  max_spend_cents : N; (* u64 *)
  max_session_spend_cents : N;
  max_turn_spend_cents : N;
  iat : N;
  exp : N;
}.

Record Entitlement := mkEntitlement { claims : EntitlementClaims; sig : string }.

Inductive EntitlementError :=
| InvalidAuthority | InvalidFundingReference | UnsupportedVersion | EE_Malformed | InvalidVerifyingKey | BadSignature
| EE_Expired | Serialization.

Section entitlement.
Context `{SignedTexts} {signing : Signing} (entitlement_json : Json Entitlement).

Definition valid_authority (a : string) : bool :=
  if negb (String.length a =? PUBLIC_KEY_HEX_LEN) then false
  else if negb (String.eqb a (to_ascii_lowercase a)) then false
  else
    match Federation.hex_decode a with
    | None => false
    | Some bytes =>
        if negb (bool_decide (head bytes = Some 4%N)) then false
        else match from_sec1_bytes bytes with Some _ => true | None => false end
    end.

Definition canonical_preimage (c : EntitlementClaims) : list N :=
  joined [ENTITLEMENT_DOMAIN; encode (cl_funding_ref c); authority c; pretty (max_spend_cents c);
          pretty (max_session_spend_cents c); pretty (max_turn_spend_cents c); pretty (iat c); pretty (exp c)].

Definition build_claims (funding_ref authority : string) (iat : N) : EntitlementClaims :=
  mkClaims ENTITLEMENT_VERSION funding_ref authority 0 0 0 iat (u64_saturating_add iat ENTITLEMENT_TTL_SECS).

Definition entitlement_sign (key : P256SigningKey) (c : EntitlementClaims) : result EntitlementError string :=
  if negb (cl_v c =? ENTITLEMENT_VERSION)%N then Err UnsupportedVersion
  else if negb (starts_with FUNDING_REFERENCE_PREFIX (cl_funding_ref c)) then Err InvalidFundingReference
  else if negb (valid_authority (authority c)) then Err InvalidAuthority
  else ok_or (to_json entitlement_json (mkEntitlement c (hex_encode (p256_sign key (canonical_preimage c))))) Serialization.

Definition entitlement_verify (public_key_hex text : string) (now : N) : result EntitlementError EntitlementClaims :=
  let? e := ok_or (from_json entitlement_json text) EE_Malformed in
  if negb (cl_v (claims e) =? ENTITLEMENT_VERSION)%N then Err UnsupportedVersion
  else
    let? key_bytes := ok_or (Federation.hex_decode public_key_hex) InvalidVerifyingKey in
    let? verifying := ok_or (from_sec1_bytes key_bytes) InvalidVerifyingKey in
    let? sig_bytes := ok_or (Federation.hex_decode (sig e)) BadSignature in
    if negb (length sig_bytes =? SIGNATURE_LEN) then Err BadSignature
    else
      let? signature := ok_or (sig_from_slice sig_bytes) BadSignature in
      if negb (p256_verify verifying (canonical_preimage (claims e)) signature) then Err BadSignature
      else if (exp (claims e) <=? now)%N then Err EE_Expired
      else Ok (claims e).

Definition public_key_hex (key : P256SigningKey) : string := hex_encode (verifying_sec1 key).
End entitlement.

(** ** The canonical text *)

Lemma split_on_inj sep s t : split_on sep s = split_on sep t → s = t.
Proof.
  revert t. induction s as [|c s IH]; intros [|d t]; cbn [split_on]; [done|..].
  - destruct (Ascii.eqb d sep); [by intros [= ?%eq_sym%split_on_nonempty]|]. by destruct (split_on sep t).
  - destruct (Ascii.eqb c sep); [by intros [= ?%split_on_nonempty]|]. by destruct (split_on sep s).
  - destruct (Ascii.eqb_spec c sep) as [->|], (Ascii.eqb_spec d sep) as [->|].
    + intros [= Heq]. f_equal. by apply IH.
    + by destruct (split_on sep t).
    + by destruct (split_on sep s).
    + pose proof (split_on_nonempty sep s). pose proof (split_on_nonempty sep t).
      destruct (split_on sep s) as [|a l] eqn:Hs, (split_on sep t) as [|b l'] eqn:Ht; try done.
      intros [= -> -> ->]. f_equal. apply IH. by rewrite Ht.
Qed.

Section laws.
Context `{SignedTextLaws} {signing : Signing} `{!SigningLaws H0 signing} (entitlement_json : Json Entitlement).

(** Only the authority may hold line feeds, and it stands between parts that do not. *)
Lemma preimage_inj c c' :
  cl_v c = cl_v c' → canonical_preimage c = canonical_preimage c' → c = c'.
Proof.
  destruct c as [v r a m1 m2 m3 i e], c' as [v' r' a' n1 n2 n3 i' e']. cbn [cl_v]. intros <-.
  unfold canonical_preimage, joined. intros Heq%(inj bytes_of). cbn [cl_funding_ref authority max_spend_cents max_session_spend_cents
    max_turn_spend_cents iat exp] in Heq. rewrite !concat_cons_cons in Heq.
  apply append_sep_inj in Heq as [_ Heq]; [|done..]. apply append_sep_inj in Heq as [->%(inj encode) Heq]; [|apply encode_line..].
  apply (f_equal (split_on lf)) in Heq. rewrite !split_on_append in Heq. cbn [String.concat] in Heq.
  rewrite !(split_on_line lf (pretty _)) in Heq by apply pretty_line.
  apply app_inj_2 in Heq as [Ha Hrest]; [|done]. apply split_on_inj in Ha as ->.
  injection Hrest. intros. repeat match goal with E : pretty _ = pretty _ |- _ => apply (inj pretty) in E; subst end. done.
Qed.

(** What the Hub signs, the edge accepts, until it expires. Signing succeeds only for
    the current version, a verified-funding reference and a publisher's key; the text
    verifies under the Hub's key to exactly the claims signed before their expiry, and is
    refused as expired from then on. *)
Theorem entitlement_roundtrip `{!JsonLaws entitlement_json} key c text now :
  entitlement_sign entitlement_json key c = Ok text →
  cl_v c = ENTITLEMENT_VERSION ∧ starts_with FUNDING_REFERENCE_PREFIX (cl_funding_ref c) = true ∧ valid_authority (authority c) = true
  ∧ entitlement_verify entitlement_json (public_key_hex key) text now
    = if (exp c <=? now)%N then Err EE_Expired else Ok c.
Proof.
  unfold entitlement_sign. destruct (N.eqb_spec (cl_v c) ENTITLEMENT_VERSION) as [Hv|]; [|done].
  destruct (starts_with _ _) eqn:Hr; [|done]. destruct (valid_authority (authority c)) eqn:Ha; [|done]. cbn [negb].
  destruct (to_json entitlement_json _) as [t|] eqn:Hj; [|done]. intros [= <-]. split_and!; [done..|].
  destruct (signs key (canonical_preimage c)) as (verifying & parsed & Hk & Hl & Hp & Hver).
  unfold entitlement_verify, public_key_hex. rewrite (json_roundtrip _ _ Hj). cbn [ok_or claims sig].
  rewrite Hv, N.eqb_refl. cbn [negb]. rewrite hex_roundtrip by apply sec1_octets. cbn [ok_or]. rewrite Hk. cbn [ok_or].
  rewrite hex_roundtrip by apply sign_octets. cbn [ok_or]. rewrite Hl, Nat.eqb_refl, Hp. cbn [negb ok_or]. by rewrite Hver.
Qed.

(** An accepted entitlement is the Hub's. Verification accepts only claims of the
    current version, before their expiry, whose canonical text the signature verifies
    under the given key; and the canonical text of claims of a version determines all of
    them: no claim can be exchanged under a signature, whatever its free text holds. *)
Theorem entitlement_binding pk text now c :
  entitlement_verify entitlement_json pk text now = Ok c →
  cl_v c = ENTITLEMENT_VERSION ∧ (now < exp c)%N
  ∧ (∃ key verifying bytes sig, Federation.hex_decode pk = Some key ∧ from_sec1_bytes key = Some verifying
      ∧ length bytes = SIGNATURE_LEN ∧ sig_from_slice bytes = Some sig ∧ p256_verify verifying (canonical_preimage c) sig = true)
  ∧ ∀ c', cl_v c' = ENTITLEMENT_VERSION → canonical_preimage c' = canonical_preimage c → c' = c.
Proof.
  unfold entitlement_verify. destruct (from_json entitlement_json text) as [e|]; [|done]. cbn [ok_or].
  destruct (N.eqb_spec (cl_v (claims e)) ENTITLEMENT_VERSION) as [Hv|]; [|done]. cbn [negb].
  destruct (Federation.hex_decode pk) as [key|] eqn:Hk; [|done]. cbn [ok_or].
  destruct (from_sec1_bytes key) as [verifying|] eqn:Hkey; [|done]. cbn [ok_or].
  destruct (Federation.hex_decode (sig e)) as [bytes|]; [|done]. cbn [ok_or].
  destruct (Nat.eqb_spec (length bytes) SIGNATURE_LEN) as [Hl|]; [|done]. cbn [negb].
  destruct (sig_from_slice bytes) as [signature|] eqn:Hs; [|done]. cbn [ok_or].
  destruct (p256_verify _ _ _) eqn:Hver; [|done]. cbn [negb].
  destruct (N.leb_spec (exp (claims e)) now) as [|Hexp]; [done|]. intros [= <-]. split_and!; [done|done|by exists key, verifying, bytes, signature|].
  intros c' Hc' Heq. apply preimage_inj; [congruence|done].
Qed.
End laws.

Module EntitlementSample.
Import SampleTexts.

(** A publisher's key: 0x04 and 64 bytes. *)
Definition publisher : string := to_ascii_lowercase (hex_encode (4%N :: replicate 64 1%N)).
Definition claim : EntitlementClaims := build_claims (FUNDING_REFERENCE_PREFIX +:+ "61:62:63:live:64") publisher 1000.
#[local] Instance EntitlementClaims_eq_dec : EqDecision EntitlementClaims.
Proof. solve_decision. Defined.
#[local] Instance Entitlement_eq_dec : EqDecision Entitlement.
Proof. solve_decision. Defined.
Definition sample_json : Json Entitlement :=
  table_json [("entitlement", mkEntitlement claim (hex_encode (p256_sign (Signing:=sample_signing) true (canonical_preimage claim))))].
#[export] Instance sample_json_laws : JsonLaws sample_json.
Proof. apply table_json_laws. apply NoDup_singleton. Qed.

Definition key : P256SigningKey (Signing:=sample_signing) := true.
Definition token : string := match entitlement_sign sample_json key claim with Ok t => t | Err _ => "" end.

Lemma entitlement_roundtrip_witness :
  entitlement_sign sample_json key claim = Ok token
  ∧ entitlement_verify sample_json (public_key_hex key) token 2000 = Ok claim
  ∧ entitlement_verify sample_json (public_key_hex key) token 90000 = Err EE_Expired.
Proof.
  assert (entitlement_sign sample_json key claim = Ok token) as H by (vm_compute; reflexivity).
  split; [exact H|]. split.
  - destruct (entitlement_roundtrip sample_json key claim token 2000 H) as (_ & _ & _ & Hv). exact Hv.
  - destruct (entitlement_roundtrip sample_json key claim token 90000 H) as (_ & _ & _ & Hv). exact Hv.
Defined.

Lemma entitlement_binding_witness :
  entitlement_verify sample_json (public_key_hex key) token 2000 = Ok claim
  ∧ ∀ c', cl_v c' = ENTITLEMENT_VERSION → canonical_preimage c' = canonical_preimage claim → c' = claim.
Proof.
  assert (entitlement_verify sample_json (public_key_hex key) token 2000 = Ok claim) as H by (vm_compute; reflexivity).
  split; [exact H|]. exact (proj2 (proj2 (proj2 (entitlement_binding sample_json (public_key_hex key) token 2000 claim H)))).
Defined.
End EntitlementSample.
