(* ===== verification/WorkChatFunding.v ===== *)
(** * Credit funding of managed work-chat turns

    [crates/app/src/work_chat_funding.rs] over the credit ledger ([ManagedInference.v]),
    verified funding ([ManagedFunding.v]) and the materialized commands of the store
    ([Commands.v]): a turn is admitted against verified funding and a priced model, every
    call of it is held before it is sent, and the calls are settled from the turn's usage.
    The margin of [crates/app/src/deployment_pricing.rs] is here too. [format!("{error:?}")]
    of an error keeps the error; the clock and the length of a serialized request are
    arguments. *)

From stdpp Require Import pretty.
From S2P Require Import Prelude Ids Recovery Federation Lifecycle Store StoreSystem Records Scopes Pricing SignedText Commands.
From S2P Require Import CommandSystem ModelData Organization ManagedInference ManagedFunding.

(** ** Margins *)

Definition MARGIN_BASIS_POINTS : N := 2000.

Record TokenRates := mkTokenRates {
  input_nanos_usd_per_token : N; (* u64 *)
  cached_input_nanos_usd_per_token : N;
  output_nanos_usd_per_token : N;
}.

Definition DEFAULT_UPSTREAM : TokenRates := mkTokenRates 2500 250 10000.

(** [deployment_pricing::with_margin], at [u64]. *)
Definition card_margin (cost_nanos : N) : N :=
  div_ceil ((cost_nanos * (10000 + MARGIN_BASIS_POINTS)) mod u64_modulus) 10000.

Definition billed_rates (upstream : TokenRates) : TokenRates :=
  mkTokenRates (card_margin (input_nanos_usd_per_token upstream)) (card_margin (cached_input_nanos_usd_per_token upstream))
    (card_margin (output_nanos_usd_per_token upstream)).

(** [u64::try_from(n).unwrap_or(u64::MAX)] *)
Definition to_u64 (n : N) : N := if (n <? u64_modulus)%N then n else u64_max.

Definition with_margin (cost_nanos_usd : N) : N :=
  to_u64 (div_ceil ((cost_nanos_usd * (10000 + MARGIN_BASIS_POINTS)) mod u128_modulus) 10000).

Definition u128_max : N := u128_modulus - 1.

Definition upstream_nanos_usd (terms : list (N * N)) : N :=
  to_u64 (div_ceil (foldl (λ total x, N.min (total + (x.1 * x.2) mod u128_modulus) u128_max) 0 terms) 1000)%N.

Definition dearest_input_rate (rates : ModelRates) : N :=
  N.max (N.max (rate_input_uncached rates) (rate_input_cache_read rates)) (rate_input_cache_write rates).

Record CallHold := mkCallHold { hold_maximum_tokens : N; hold_maximum_nanos_usd : N }.

Definition call_hold (rates : ModelRates) (input_tokens output_limit : N) : CallHold :=
  mkCallHold (u64_saturating_add input_tokens output_limit)
    (with_margin (upstream_nanos_usd [(input_tokens, dearest_input_rate rates); (output_limit, rate_output rates)])).

Definition estimated_cost (rates : ModelRates) (input_tokens output_tokens : N) : N :=
  with_margin (upstream_nanos_usd [(input_tokens, rate_input_uncached rates); (output_tokens, rate_output rates)]).

(** Parts in call order; [remaining -= part] never underflows. *)
Fixpoint allocate (holds : list N) (remaining : N) : list N :=
  match holds with
  | [] => []
  | [_] => [remaining]
  | h :: holds => N.min h remaining :: allocate holds (remaining - N.min h remaining)
  end.

(** ** What the prices promise *)

Definition is_u64 (n : N) : Prop := (n < u64_modulus)%N.

Lemma div_ceil_mono a b c : (a ≤ b)%N → (div_ceil a c ≤ div_ceil b c)%N.
Proof. intros. unfold div_ceil. apply N.Div0.div_le_mono. lia. Qed.

(** The least number the ceiling allows. *)
Lemma div_ceil_least a b k : (0 < b)%N → (a ≤ b * k)%N → (div_ceil a b ≤ k)%N.
Proof. intros Hb Ha. pose proof (div_ceil_spec a b Hb). nia. Qed.

Lemma to_u64_mono a b : (a ≤ b)%N → (to_u64 a ≤ to_u64 b)%N.
Proof. unfold to_u64, u64_modulus, u64_max. intros. destruct (N.ltb_spec a (2 ^ 64)), (N.ltb_spec b (2 ^ 64)); lia. Qed.

Lemma to_u64_min n : to_u64 n = N.min n u64_max.
Proof. unfold to_u64, u64_modulus, u64_max. destruct (N.ltb_spec n (2 ^ 64)); lia. Qed.

Lemma to_u64_is n : is_u64 (to_u64 n).
Proof. rewrite to_u64_min. unfold is_u64, u64_modulus, u64_max. lia. Qed.

Lemma margin_spec c : is_u64 c → with_margin c = to_u64 (div_ceil (c * 12000) 10000).
Proof.
  intros Hc. unfold with_margin, MARGIN_BASIS_POINTS. rewrite N.mod_small; [done|].
  unfold is_u64, u64_modulus, u128_modulus in *. lia.
Qed.

Lemma upstream_spec a b c d :
  is_u64 a → is_u64 b → is_u64 c → is_u64 d →
  upstream_nanos_usd [(a, b); (c, d)] = to_u64 (div_ceil (N.min (a * b + c * d) u128_max) 1000).
Proof.
  intros Ha Hb Hc Hd. assert (∀ x y, is_u64 x → is_u64 y → (x * y < u128_modulus)%N) as Hm.
  { unfold is_u64, u64_modulus, u128_modulus. intros. nia. }
  unfold upstream_nanos_usd. cbn [foldl fst snd]. rewrite !N.mod_small by auto. do 2 f_equal. unfold u128_max. lia.
Qed.

(** Saturating and rounding up, the price of a sum is at most the sum of the prices. *)
Lemma capped_subadditive c a b : (0 < c)%N → (div_ceil (a + b) c ≤ div_ceil a c + div_ceil b c)%N.
Proof. intros Hc. apply div_ceil_least; [done|]. pose proof (div_ceil_spec a c Hc). pose proof (div_ceil_spec b c Hc). lia. Qed.

Definition price_of (rates : N * N) (tokens : N * N) : N :=
  with_margin (upstream_nanos_usd [(tokens.1, rates.1); (tokens.2, rates.2)]).

Lemma margin_mono a b : is_u64 a → is_u64 b → (a ≤ b)%N → (with_margin a ≤ with_margin b)%N.
Proof. intros. rewrite !margin_spec by done. apply to_u64_mono, div_ceil_mono. lia. Qed.

Lemma margin_add a b : is_u64 a → is_u64 b → is_u64 (to_u64 (a + b)) → (with_margin (to_u64 (a + b)) ≤ with_margin a + with_margin b)%N.
Proof.
  intros Ha Hb Hab. rewrite !margin_spec by done. rewrite !to_u64_min.
  pose proof (capped_subadditive 10000 (a * 12000) (b * 12000) ltac:(lia)).
  assert (div_ceil (N.min (a + b) u64_max * 12000) 10000 ≤ div_ceil (a * 12000 + b * 12000) 10000)%N by (apply div_ceil_mono; lia). lia.
Qed.

(** The price of a raw amount, in thousandths of a nano per token. *)
Definition price_raw (n : N) : N := with_margin (to_u64 (div_ceil (N.min n u128_max) 1000)).

Lemma price_raw_mono a b : (a ≤ b)%N → (price_raw a ≤ price_raw b)%N.
Proof. intros. apply margin_mono; [apply to_u64_is..|]. apply to_u64_mono, div_ceil_mono. lia. Qed.

Lemma price_raw_add a b : (price_raw (a + b) ≤ price_raw a + price_raw b)%N.
Proof.
  unfold price_raw. set (x := to_u64 (div_ceil (N.min a u128_max) 1000)). set (y := to_u64 (div_ceil (N.min b u128_max) 1000)).
  etrans; [|apply (margin_add x y); apply to_u64_is]. apply margin_mono; [apply to_u64_is..|]. subst x y. rewrite !to_u64_min.
  pose proof (capped_subadditive 1000 (N.min a u128_max) (N.min b u128_max) ltac:(lia)).
  assert (div_ceil (N.min (a + b) u128_max) 1000 ≤ div_ceil (N.min a u128_max + N.min b u128_max) 1000)%N by (apply div_ceil_mono; lia). lia.
Qed.

Lemma price_raw_sum {A} (f : A → N) l : (price_raw (sum_by f l) ≤ sum_by (λ a, price_raw (f a)) l)%N.
Proof. induction l as [|a l IH]; cbn; [vm_compute; discriminate|]. pose proof (price_raw_add (f a) (sum_by f l)). lia. Qed.

Definition rates_u64 (r : ModelRates) : Prop :=
  is_u64 (rate_input_uncached r) ∧ is_u64 (rate_input_cache_read r) ∧ is_u64 (rate_input_cache_write r) ∧ is_u64 (rate_output r).

Lemma dearest_u64 r : rates_u64 r → is_u64 (dearest_input_rate r).
Proof. intros (? & ? & ? & _). unfold dearest_input_rate, is_u64 in *. lia. Qed.

Lemma sum_by_mul {A} (f : A → N) k l : (sum_by f l * k)%N = sum_by (λ a, f a * k)%N l.
Proof. induction l as [|a l IH]; cbn; [done|]. lia. Qed.

Lemma sum_by_add {A} (f g : A → N) l : (sum_by f l + sum_by g l)%N = sum_by (λ a, f a + g a)%N l.
Proof. induction l as [|a l IH]; cbn; [done|]. lia. Qed.

(** What calls hold covers what the card says they cost. When a turn's calls were held
    for their input bounds and output limits, and the usage reported for the turn is
    within the sums of those, the card's estimate of the turn is at most the sum of the
    holds: whatever is rounded or capped, and whichever input rate was the dearest. *)
Theorem estimate_within_holds rates (calls : list (N * N)) input output :
  rates_u64 rates → Forall (λ c, is_u64 c.1 ∧ is_u64 c.2) calls → is_u64 input → is_u64 output →
  (input ≤ sum_by fst calls)%N → (output ≤ sum_by snd calls)%N →
  (estimated_cost rates input output ≤ sum_by (λ c, hold_maximum_nanos_usd (call_hold rates c.1 c.2)) calls)%N.
Proof.
  intros Hr Hc Hi Ho Hin Hout. pose proof (dearest_u64 _ Hr) as Hd. destruct Hr as (H1 & H2 & H3 & H4).
  unfold estimated_cost. rewrite upstream_spec by done. fold (price_raw (input * rate_input_uncached rates + output * rate_output rates)).
  etrans; [apply (price_raw_mono _ (sum_by (λ c : N * N, c.1 * dearest_input_rate rates + c.2 * rate_output rates)%N calls))|].
  - rewrite <-sum_by_add, <-!sum_by_mul. unfold dearest_input_rate.
    apply N.add_le_mono; apply N.mul_le_mono; try done; lia.
  - etrans; [apply price_raw_sum|]. apply N.eq_le_incl, sum_by_ext. intros c Hin'. rewrite Forall_forall in Hc. destruct (Hc c Hin') as [Hc1 Hc2].
    cbn. by rewrite upstream_spec.
Qed.

(** A turn's cost is split exactly. Over the holds of the calls the parts add up to the
    total; every part but the last is within its hold; and when the total is within the
    sum of the holds the last one is too. *)
Theorem allocation_exact holds total :
  holds ≠ [] →
  length (allocate holds total) = length holds ∧ sum_by id (allocate holds total) = total
  ∧ Forall2 N.le (removelast (allocate holds total)) (removelast holds)
  ∧ ((total ≤ sum_by id holds)%N → Forall2 N.le (allocate holds total) holds).
Proof.
  revert total. induction holds as [|h [|h' holds] IH]; intros total Hne; [done| |].
  - cbn. split_and!; [done|lia|constructor|]. intros Ht. repeat constructor. lia.
  - destruct (IH (total - N.min h total)%N ltac:(done)) as (Hl & Hs & Hf & Hall).
    change (allocate (h :: h' :: holds) total) with (N.min h total :: allocate (h' :: holds) (total - N.min h total)).
    assert (∀ (x : N) (l : list N), l ≠ [] → removelast (x :: l) = x :: removelast l) as Hrem by (intros x [|]; done).
    assert (allocate (h' :: holds) (total - N.min h total) ≠ []) as Hne' by (intros Hz; by rewrite Hz in Hl).
    split_and!.
    + cbn [length]. by rewrite Hl.
    + cbn [sum_by]. rewrite Hs. unfold id. lia.
    + rewrite !Hrem by done. constructor; [lia|done].
    + intros Ht. constructor; [lia|]. apply Hall. cbn [sum_by] in *. unfold id in *. lia.
Qed.

(** The two crates of margins agree while the card's does not overflow. *)
Lemma card_margin_agrees c : (c * 12000 < u64_modulus)%N → card_margin c = with_margin c.
Proof.
  intros Hc. rewrite margin_spec by (unfold is_u64; lia). unfold card_margin, MARGIN_BASIS_POINTS.
  rewrite N.mod_small by lia. unfold to_u64. rewrite (proj2 (N.ltb_lt _ _)); [done|].
  change (10000 + 2000)%N with 12000%N. pose proof (div_ceil_spec (c * 12000) 10000 ltac:(lia)). unfold u64_modulus in *. nia.
Qed.

Example billed_defaults : billed_rates DEFAULT_UPSTREAM = mkTokenRates 3000 300 12000.
Proof. vm_compute. reflexivity. Qed.

(** ** The identity of a call *)

Section identity.
Context `{SignedTexts}.

Definition id_part (part : string) : list N := len_bytes (bytes_of part) ++ bytes_of part.

Definition call_reservation_id (engagement_scope : string) (user_entry_id : Z) (command_id : string) (ordinal : N) : string :=
  "work-chat-call:" +:+ sha256_hex (id_part engagement_scope ++ id_part (pretty user_entry_id) ++ id_part command_id ++ id_part (pretty ordinal)).
End identity.

(** A call's id names the call. Two calls with one reservation id are the same call of
    the same command of the same turn of the same chat, or SHA-256 collides on the two. *)
Theorem call_named `{SignedTextLaws} chat turn command n chat' turn' command' n' :
  Forall (λ s, (N.of_nat (String.length s) < u64_modulus)%N) [chat; pretty turn; command; pretty n; chat'; pretty turn'; command'; pretty n'] →
  call_reservation_id chat turn command n = call_reservation_id chat' turn' command' n' →
  (chat = chat' ∧ turn = turn' ∧ command = command' ∧ n = n')
  ∨ collides (id_part chat ++ id_part (pretty turn) ++ id_part command ++ id_part (pretty n))
      (id_part chat' ++ id_part (pretty turn') ++ id_part command' ++ id_part (pretty n')).
Proof.
  assert (∀ s, length (bytes_of s) = String.length s) as Hlen by (induction s as [|c s IHs]; cbn; [done|by rewrite IHs]).
  intros Hall Heq. unfold call_reservation_id in Heq. apply (inj (String.append _)) in Heq.
  apply sha256_hex_collision in Heq as [Heq|Hcol]; [|by right]. left.
  rewrite !Forall_cons in Hall. destruct Hall as (L1 & L2 & L3 & L4 & L5 & L6 & L7 & L8 & _).
  unfold id_part in Heq. rewrite <-!app_assoc in Heq.
  apply len_bytes_inj in Heq as [E1%(inj bytes_of) Heq]; [|by rewrite Hlen..].
  apply len_bytes_inj in Heq as [E2%(inj bytes_of) Heq]; [|by rewrite Hlen..].
  apply len_bytes_inj in Heq as [E3%(inj bytes_of) Heq]; [|by rewrite Hlen..].
  apply (f_equal (λ l, l ++ [])) in Heq. rewrite <-!app_assoc in Heq.
  apply len_bytes_inj in Heq as [E4%(inj bytes_of) _]; [|by rewrite Hlen..].
  split_and!; [done|by apply (inj pretty) in E2|done|by apply (inj pretty) in E4].
Qed.

(** ** Admission, holds and settlement *)

Definition WORK_CHAT_CALL_COST_KIND : string := "managed_inference_call_cost".

Inductive WorkChatRefusal := WR_Funding (denial : FundingDenial) | Unpriced (model : string).

Definition refusal_code (r : WorkChatRefusal) : string :=
  match r with
  | WR_Funding (FD_Suspended | FD_Lapsed) => "managed_plan_suspended"
  | WR_Funding _ => "managed_plan_required"
  | Unpriced _ => "managed_model_unpriced"
  end.

Record WorkChatFunding := mkWorkChatFunding {
  account_scope : string;
  tenant_scope : string;
  billing_scope : string;
  wf_funding_ref : string;
  wf_model : string;
  rates : ModelRates;
  rate_card_version : string;
}.

Record HeldCall := mkHeldCall { hc_reservation_id : string; hc_hold : CallHold }.

Inductive CallRefusal := CR_Funding (denial : FundingDenial) | CR_SourceChanged | CreditsExhausted | AlreadyAdmitted.

Inductive CostBasis := Measured | Estimated.

Record CallCostRecord := mkCallCost {
  cc_reservation_id : string;
  cc_usage_ref : string;
  cc_drawn_nanos_usd : N;
  cc_cost_basis : CostBasis;
  cc_rate_card_version : string;
  cc_margin_basis_points : N;
}.

Record SettledTurn := mkSettledTurn { settled_drawn : N; settled_basis : CostBasis }.

(** A [String] error: a message of its own, [format!("{error:?}")] of the store's, or the
    reason of a refusal. *)
Inductive CallError := Said (message : string) | InStore (error : failure) | Refused (refusal : CallRefusal).

Section work_chat.
Context `{SignedTexts} `{OrgJson} `{J : InferenceJson} (funding_json : Json FundingRecord) (cost_json : Json CallCostRecord).
Context (ledger_json : Json ManagedAllowanceEvent) (command_json : Json (string * ManagedAllowanceCommand)).
Context (codec : option ContentCodec) (anchor : string → string) (reducer_build : string).

Notation fold_ledger db scope := (fold codec anchor reducer_build ledger ledger_json db scope).
Notation admit_ledger c scope key command :=
  (admit_materialized codec anchor reducer_build ledger ledger_json command_json c scope key command).

Definition admit_turn (db : Db) (authority : FundingAuthority) (at_ : N) (account tenant model : string) (card : RateCard)
    : result failure (result WorkChatRefusal WorkChatFunding) :=
  let? resolved := resolve_plan funding_json codec db (mkId account) (mkId tenant) (context authority at_) in
  Ok match resolved with
     | Err denial => Err (WR_Funding denial)
     | Ok grant =>
         match Pricing.models card !! model with
         | Some r =>
             if String.eqb (code (card_currency card)) "USD" then
               Ok (mkWorkChatFunding account tenant (as_str (fe_scope (evidence grant))) (reference grant) model r (card_version card))
             else Err (Unpriced model)
         | None => Err (Unpriced model)
         end
     end.

(** A program on the log of a store with commands. *)
Definition lift {T} (p : Prog T) (c : Cdb) : Cdb * result failure T := on_log c (p (log_db c)).

Definition call_record (funding : WorkChatFunding) (engagement_scope reservation_id : string) (hold : CallHold)
    (grant : ManagedFundingGrant) (at_ : N) : ManagedReservationRecord :=
  mkReservationRecord reservation_id engagement_scope (wf_funding_ref funding) (hold_maximum_tokens hold) (Some at_)
    (Some (fe_valid_from (evidence grant))) (Some (fe_valid_until (evidence grant))) (hold_maximum_nanos_usd hold).

(** The projections of an admitted reservation. *)
Definition project_call (billing engagement_scope : string) (record : ManagedReservationRecord) : Prog unit :=
  do _ <- reserve_bounded_turn codec billing record;
  if String.eqb engagement_scope billing then ret ()
  else
    do payload <- serialized reservation_json record;
    do _ <- keyed_append codec engagement_scope ("managed-reserve:" +:+ re_id record) MANAGED_RESERVATION_KIND payload;
    ret ().

Definition reserve_call (c : Cdb) (authority : FundingAuthority) (funding : WorkChatFunding)
    (engagement_scope reservation_id : string) (hold : CallHold) (at_ : N) : Cdb * result failure (result CallRefusal unit) :=
  match resolve_plan funding_json codec (log_db c) (mkId (account_scope funding)) (mkId (tenant_scope funding)) (context authority at_) with
  | Err e => (c, Err e)
  | Ok (Err denial) => (c, Ok (Err (CR_Funding denial)))
  | Ok (Ok grant) =>
      let billing := billing_scope funding in
      if negb (String.eqb (as_str (fe_scope (evidence grant))) billing) || negb (String.eqb (reference grant) (wf_funding_ref funding))
      then (c, Ok (Err CR_SourceChanged))
      else
        match fold_ledger (log_db c) billing with
        | Err e => (c, Err e)
        | Ok allowance =>
            if bool_decide (is_Some (reservations allowance !! reservation_id)) then (c, Ok (Err AlreadyAdmitted))
            else
              match fold_usage_for_funding_period codec (log_db c) billing (wf_funding_ref funding) (fe_valid_from (evidence grant))
                      (fe_valid_until (evidence grant)) (included_tokens (plan grant)) with
              | Err e => (c, Err e)
              | Ok used =>
                  let record := call_record funding engagement_scope reservation_id hold grant at_ in
                  match admit_ledger c billing ("managed-allowance-reserve:" +:+ reservation_id)
                          (MC_Reserve (mkReserve record (total_tokens used) (included_tokens (plan grant)))) with
                  | (c, Ok m) =>
                      if replayed m then (c, Ok (Err AlreadyAdmitted))
                      else
                        match lift (project_call billing engagement_scope record) c with
                        | (c, Ok _) => (c, Ok (Ok ()))
                        | (c, Err e) => (c, Err e)
                        end
                  | (c, Err (Failed (AE_Rejected r))) =>
                      if String.eqb (reason r) "managed inference credits exhausted" then (c, Ok (Err CreditsExhausted))
                      else (c, Err (Failed (AE_Rejected r)))
                  | (c, Err e) => (c, Err e)
                  end
              end
        end
  end.

Definition call_usage_ref (usage : ModelUsage) (call : HeldCall) : string := mu_usage_ref usage +:+ "#" +:+ hc_reservation_id call.

(** One call of the loop of [settle_calls]. *)
Definition settle_call (funding : WorkChatFunding) (engagement_scope : string) (usage : ModelUsage) (basis : CostBasis)
    (c : Cdb) (call : HeldCall) (drawn actual : N) : Cdb * result failure unit :=
  let billing := billing_scope funding in
  match admit_ledger c billing ("managed-allowance-settle:" +:+ hc_reservation_id call)
          (MC_Settle (mkSettle (hc_reservation_id call) (call_usage_ref usage call) actual (Some drawn))) with
  | (c, Err e) => (c, Err e)
  | (c, Ok _) =>
      lift (do payload <- serialized cost_json (mkCallCost (hc_reservation_id call) (call_usage_ref usage call) drawn basis
                                                 (rate_card_version funding) MARGIN_BASIS_POINTS);
            do _ <- keyed_append codec billing ("managed-call-cost:" +:+ hc_reservation_id call) WORK_CHAT_CALL_COST_KIND payload;
            settle_reservation codec engagement_scope billing (hc_reservation_id call) (Some (call_usage_ref usage call)) "") c
  end.

(** [for ((call, drawn), actual_tokens) in calls.zip(costs).zip(tokens)] *)
Fixpoint settle_loop (funding : WorkChatFunding) (engagement_scope : string) (usage : ModelUsage) (basis : CostBasis)
    (c : Cdb) (calls : list HeldCall) (costs tokens : list N) : Cdb * result failure unit :=
  match calls, costs, tokens with
  | call :: calls, cost :: costs, actual :: tokens =>
      match settle_call funding engagement_scope usage basis c call cost actual with
      | (c, Ok _) => settle_loop funding engagement_scope usage basis c calls costs tokens
      | (c, Err e) => (c, Err e)
      end
  | _, _, _ => (c, Ok ())
  end.

Definition turn_cost (funding : WorkChatFunding) (usage : ModelUsage) (measured : option N) : N * CostBasis :=
  match measured with
  | Some measured => (with_margin measured, Measured)
  | None => (estimated_cost (rates funding) (mu_input_tokens usage) (mu_output_tokens usage), Estimated)
  end.

Definition settle_calls (c : Cdb) (funding : WorkChatFunding) (engagement_scope : string) (calls : list HeldCall)
    (usage : ModelUsage) (measured : option N) (observed_at : N) : Cdb * result CallError SettledTurn :=
  if bool_decide (calls = []) then (c, Err (Said "managed usage arrived for a turn that held no call"))
  else if blank (mu_usage_ref usage) then (c, Err (Said "managed usage has no evidence reference"))
  else if negb (String.eqb (mu_model usage) (wf_model funding)) then (c, Err (Said "managed usage does not match the admitted model"))
  else
    let '(total, basis) := turn_cost funding usage measured in
    let costs := allocate ((λ call, hold_maximum_nanos_usd (hc_hold call)) <$> calls) total in
    let tokens := allocate ((λ call, hold_maximum_tokens (hc_hold call)) <$> calls)
                    (u64_saturating_add (mu_input_tokens usage) (mu_output_tokens usage)) in
    match lift (append_funded_usage codec engagement_scope (billing_scope funding) usage (wf_funding_ref funding) observed_at) c with
    | (c, Err e) => (c, Err (InStore e))
    | (c, Ok _) =>
        match settle_loop funding engagement_scope usage basis c calls costs tokens with
        | (c, Err e) => (c, Err (InStore e))
        | (c, Ok _) => (c, Ok (mkSettledTurn total basis))
        end
    end.

(** ** The meter of one turn *)

Record WorkChatMeter := mkMeter {
  meter_authority : FundingAuthority;
  meter_funding : WorkChatFunding;
  meter_turn : option (string * Z);
  meter_held : list HeldCall;
}.

Definition meter_new (authority : FundingAuthority) (funding : WorkChatFunding) : WorkChatMeter := mkMeter authority funding None [].

Definition begin_turn (m : WorkChatMeter) (engagement_scope : string) (user_entry_id : Z) : WorkChatMeter :=
  mkMeter (meter_authority m) (meter_funding m) (Some (engagement_scope, user_entry_id)) [].

Record ManagedModelCall := mkModelCall {
  command_id : string;
  ordinal : N; (* u64 *)
  output_limit : N;
  (** The length of the serialized body, when it serializes. *)
  body_length : option N;
}.

(** [self.ledger.with_store(..)] runs under the store's lock: one step on the database. *)
Definition meter_settle (m : WorkChatMeter) (c : Cdb) (now_secs : result CallError N) (usage : ModelUsage) (measured : option N)
    : Cdb * result CallError SettledTurn :=
  match meter_turn m with
  | None => (c, Err (Said "managed turn was never begun"))
  | Some (engagement, _) =>
      match now_secs with
      | Err e => (c, Err e)
      | Ok observed_at => settle_calls c (meter_funding m) engagement (meter_held m) usage measured observed_at
      end
  end.

Definition admit_call (m : WorkChatMeter) (c : Cdb) (now_secs : result CallError N) (call : ManagedModelCall)
    : WorkChatMeter * Cdb * result CallError unit :=
  match meter_turn m with
  | None => (m, c, Err (Said "managed model call arrived before its turn"))
  | Some (engagement, user_entry_id) =>
      if blank (command_id call) || (ordinal call =? 0)%N || (output_limit call =? 0)%N
      then (m, c, Err (Said "managed model call has no stable identity or output bound"))
      else
        match body_length call with
        | None => (m, c, Err (Said "managed model request cannot be measured"))
        | Some input_tokens =>
            let hold := call_hold (rates (meter_funding m)) input_tokens (output_limit call) in
            let id := call_reservation_id engagement user_entry_id (command_id call) (ordinal call) in
            match now_secs with
            | Err e => (m, c, Err e)
            | Ok at_ =>
                match reserve_call c (meter_authority m) (meter_funding m) engagement id hold at_ with
                | (c, Err e) => (m, c, Err (InStore e))
                | (c, Ok (Err refusal)) => (m, c, Err (Refused refusal))
                | (c, Ok (Ok _)) =>
                    (mkMeter (meter_authority m) (meter_funding m) (meter_turn m) (meter_held m ++ [mkHeldCall id hold]), c, Ok ())
                end
            end
        end
  end.
End work_chat.

(** ** What the ledger of a store promises to a turn *)

Section promises.
Context `{ST : SignedTexts} `{O : OrgJson} `{J : InferenceJson} (funding_json : Json FundingRecord) (cost_json : Json CallCostRecord).
Context (ledger_json : Json ManagedAllowanceEvent) `{Hledger : !JsonLaws ledger_json}.
Context (command_json : Json (string * ManagedAllowanceCommand)).
Context (codec : option ContentCodec) (anchor : string → string) (reducer_build : string).
Context `{!CodecLaws codec, !AnchorLaws anchor} (intent_json : Json Dispatch.DispatchIntent).

Notation fold_ledger db scope := (fold codec anchor reducer_build ledger ledger_json db scope).
Notation admit_ledger c scope key command :=
  (admit_materialized codec anchor reducer_build ledger ledger_json command_json c scope key command).

#[local] Instance ledger_snapshots : SnapshotLaws ledger.
Proof. intros sc s p. discriminate. Qed.

(** The store, as far as the ledger goes: the rows of other lifecycles are rows of other
    kinds. *)
Definition funding_host (_ : unit) : Hosted := mkHosted ledger ledger_json ledger_safe Hledger ledger_snapshots.

Notation inv := (inv codec reducer_build funding_host intent_json).
Notation advance := (advance codec reducer_build funding_host intent_json).

Lemma one_kind (i j : unit) :
  KIND (lifecycle (funding_host i)) = KIND (lifecycle (funding_host j)) → i = j.
Proof. by destruct i, j. Qed.

Lemma ledger_outbox : record_kind funding_host Dispatch.DISPATCH_KIND.
Proof. intros []; discriminate. Qed.

(** Records of other kinds leave the ledger as it is. *)
Definition writes {T} (p : Prog T) : Prop := ∀ db, db_ok db → grows codec (fact_kind_ok funding_host) db (p db).1.

Lemma grows_ok K db db' : grows codec K db db' → db_ok db'.
Proof. by intros (new & [] & _). Qed.

Lemma bind_writes {S T} (p : Prog S) (k : S → Prog T) : writes p → (∀ x, writes (k x)) → writes (bind p k).
Proof.
  intros Hp Hk db Hok. unfold bind. pose proof (Hp db Hok) as Hg. destruct (p db) as [db' [x|e]]; cbn in *; [|done].
  eapply grows_trans; [exact Hg|]. apply Hk. by eapply grows_ok.
Qed.

Lemma quiet_writes {T} (p : Prog T) : (∀ db, (p db).1 = db) → writes p.
Proof. intros Hp db Hok. rewrite Hp. by apply grows_refl. Qed.

Lemma serialized_writes {E} (json : Json E) e : writes (serialized json e).
Proof. apply quiet_writes. intros db. unfold serialized. by destruct (to_json json e). Qed.

Definition own_kinds : list string :=
  [MANAGED_USAGE_KIND; MANAGED_RESERVATION_KIND; MANAGED_SETTLEMENT_KIND; WORK_CHAT_CALL_COST_KIND].

Lemma own_kind_ok kind : kind ∈ own_kinds → fact_kind_ok funding_host kind.
Proof.
  intros Hk. split; [intros []|]; repeat (apply elem_of_cons in Hk as [->|Hk]; [discriminate|]); by apply elem_of_nil in Hk.
Qed.

Lemma keyed_writes scope key kind payload : kind ∈ own_kinds → writes (keyed_append codec scope key kind payload).
Proof. intros Hk db Hok. apply append_record_with_key_grows; [apply _|done|]. by apply own_kind_ok. Qed.

Lemma in_both_writes engagement billing key kind payload :
  kind ∈ own_kinds → writes (append_in_both codec engagement billing key kind payload).
Proof.
  intros Hk. apply bind_writes; [by apply keyed_writes|]. intros _. destruct (String.eqb billing engagement); [by apply quiet_writes|].
  apply bind_writes; [by apply keyed_writes|]. intros _. by apply quiet_writes.
Qed.

Lemma settle_reservation_writes engagement billing id usage_ref why : writes (settle_reservation codec engagement billing id usage_ref why).
Proof. apply bind_writes; [apply serialized_writes|]. intros p. apply in_both_writes. do 2 right. by left. Qed.

Lemma bounded_writes billing r : writes (reserve_bounded_turn codec billing r).
Proof.
  apply bind_writes; [by apply quiet_writes|]. intros [x|]; [by apply quiet_writes|]. apply bind_writes; [apply serialized_writes|].
  intros p. apply bind_writes; [apply keyed_writes; right; by left|]. intros x. by apply quiet_writes.
Qed.

Lemma project_writes billing engagement r : writes (project_call codec billing engagement r).
Proof.
  apply bind_writes; [apply bounded_writes|]. intros _. destruct (String.eqb engagement billing); [by apply quiet_writes|].
  apply bind_writes; [apply serialized_writes|]. intros p. apply bind_writes; [apply keyed_writes; right; by left|].
  intros _. by apply quiet_writes.
Qed.

Lemma usage_writes engagement billing r : writes (append_usage_record codec engagement billing r).
Proof.
  apply bind_writes; [apply serialized_writes|]. intros p. assert (fact_kind_ok funding_host MANAGED_USAGE_KIND) as Hk by (apply own_kind_ok; by left).
  destruct (String.eqb billing engagement).
  - apply bind_writes; [|intros _; by apply quiet_writes]. intros db Hok. by apply append_record_grows.
  - apply bind_writes; [|intros _; by apply quiet_writes]. intros db Hok. apply append_records_atomically_grows; [apply _|done|].
    by intros x [->|[->|?%elem_of_nil]%elem_of_cons]%elem_of_cons.
Qed.

(** A step that keeps every ledger. *)
Definition keeps (c c' : Cdb) : Prop :=
  advance c c' ∧ inv c' ∧ ∀ scope, fold_ledger (log_db c') scope = fold_ledger (log_db c) scope.

Lemma ledger_of c scope : inv c → ∃ log s, trace ledger log s ∧ fold_ledger (log_db c) scope = Ok s.
Proof.
  intros [[Hok Hall] _ _ _]. destruct (Hall () scope) as (log & s & Ht & Hh). exists log, s. split; [done|].
  exact (holds_fold codec anchor reducer_build funding_host () _ _ _ _ Hok Hh Ht).
Qed.

Lemma lift_keeps {T} (p : Prog T) c : writes p → inv c → keeps c (lift p c).1.
Proof.
  intros Hp Hinv. pose proof Hinv as [[Hok Hall] Hcok _ _]. pose proof (Hp _ Hok) as Hg.
  change (lift p c).1 with (c <| log_db := (p (log_db c)).1 |>).
  assert (advance c (c <| log_db := (p (log_db c)).1 |>)) as Ha.
  { apply advance_quiet, log_only_step; [done|]. apply grows_step; [by split|done]. }
  split_and!; [done|by eapply advance_inv|]. intros scope. cbn [log_db set].
  destruct (Hall () scope) as (log & s & Ht & Hh).
  rewrite (holds_fold codec anchor reducer_build funding_host () _ _ _ _ Hok Hh Ht : fold_ledger (log_db c) scope = Ok s).
  refine (holds_fold codec anchor reducer_build funding_host () _ _ log s (grows_ok _ _ _ Hg) _ Ht).
  eapply grows_represents; [exact Hg| |exact Hh]. intros kind [Hk _]. apply (Hk ()).
Qed.

Lemma allowance_admitted c scope key command c1 m :
  inv c → admit_ledger c scope key command = (c1, Ok m) →
  advance c c1 ∧ inv c1 ∧ is_Some (command_receipts (log_db c1) !! (scope, key)) ∧ fold_ledger (log_db c1) scope = Ok (state m)
  ∧ (∀ k, k ≠ (scope, key) → command_receipts (log_db c1) !! k = command_receipts (log_db c) !! k)
  ∧ if replayed m then log_db c1 = log_db c
    else command_receipts (log_db c) !! (scope, key) = None
      ∧ ∃ s es, fold_ledger (log_db c) scope = Ok s ∧ apply ledger s command = Applied es (state m).
Proof.
  intros Hinv Hop.
  pose proof (materialized_advance codec anchor reducer_build funding_host one_kind ledger_outbox intent_json (λ _, command_json) () c scope key command Hinv) as Ha.
  pose proof (λ k, materialized_receipts codec anchor reducer_build funding_host intent_json (λ _, command_json) () c scope key command k Hinv) as Hr.
  pose proof (materialized_done codec anchor reducer_build funding_host one_kind intent_json (λ _, command_json) () c scope key command c1 m Hinv Hop)
    as (snapshot & r & _ & _ & _ & Hrec & Hf & Hm).
  cbn [funding_host lifecycle h_json] in *. rewrite Hop in Ha, Hr. cbn [fst] in *.
  split_and!; [done|by eapply advance_inv|done|done|done|done].
Qed.

Lemma ledger_inv c scope key command : inv c → inv (admit_ledger c scope key command).1.
Proof.
  intros Hinv. eapply advance_inv; [exact Hinv|].
  exact (materialized_advance codec anchor reducer_build funding_host one_kind ledger_outbox intent_json (λ _, command_json) () c scope key command Hinv).
Qed.

Lemma receipts_later c c' k : advance c c' → is_Some (command_receipts (log_db c) !! k) → is_Some (command_receipts (log_db c') !! k).
Proof. intros (P & [[_ _ Hsub] _ _ _ _ _] & _) [v Hv]. exists v. by eapply lookup_weaken. Qed.

(** *** Holds *)

Lemma reserved_once s command s' es :
  apply ledger s (MC_Reserve command) = Applied es s' →
  reservations s !! re_id (reservation command) = None
  ∧ (maximum_nanos_usd (reservation command) ≤ available_nanos_usd s)%N
  ∧ reservations s' = <[re_id (reservation command) := mkHeld (reservation command) MA_Open]> (reservations s)
  ∧ credit_grants s' = credit_grants s ∧ drawn_nanos_usd s' = drawn_nanos_usd s.
Proof.
  intros [Hd He]%apply_admitted. cbn [ledger lc_decide allowance_decide] in Hd. destruct (allowance_period _) as [period|]; [|done].
  destruct (_ || _) eqn:Hbad; [done|]. apply orb_false_iff in Hbad as [_ Hnew]. apply bool_decide_eq_false, eq_None_not_Some in Hnew.
  destruct (_ <? _)%N eqn:Hav; [done|]. apply N.ltb_ge in Hav. injection Hd as <-.
  destruct (accounted s period <? _)%N; cbn in He; injection He as <-; by split_and!.
Qed.

(** A hold takes exactly its amount from what is available. *)
Lemma hold_taken s s' r :
  reservations s !! re_id r = None → (maximum_nanos_usd r ≤ available_nanos_usd s)%N →
  reservations s' = <[re_id r := mkHeld r MA_Open]> (reservations s) → credit_grants s' = credit_grants s →
  drawn_nanos_usd s' = drawn_nanos_usd s → available_nanos_usd s' = (available_nanos_usd s - maximum_nanos_usd r)%N.
Proof.
  intros Hn Ha Hr Hg Hd. unfold available_nanos_usd in *. rewrite !held_spec in *. unfold granted_nanos_usd in *.
  rewrite Hg, Hd. rewrite saturating_sum_spec in *. unfold held_in in *. rewrite Hr, values_insert_new by done.
  change (hold (mkHeld r MA_Open)) with (maximum_nanos_usd r). lia.
Qed.

Notation reserve_in c authority funding engagement id hold at_ :=
  (reserve_call funding_json ledger_json command_json codec anchor reducer_build c authority funding engagement id hold at_).

Lemma reserve_call_inv c authority funding engagement id hold at_ :
  (reserve_in c authority funding engagement id hold at_).2 = Ok (Ok ()) →
  ∃ grant observed included c1 m,
    resolve_plan funding_json codec (log_db c) (mkId (account_scope funding)) (mkId (tenant_scope funding)) (context authority at_) = Ok (Ok grant)
    ∧ as_str (fe_scope (evidence grant)) = billing_scope funding ∧ reference grant = wf_funding_ref funding
    ∧ admit_ledger c (billing_scope funding) ("managed-allowance-reserve:" +:+ id)
        (MC_Reserve (mkReserve (call_record funding engagement id hold grant at_) observed included)) = (c1, Ok m)
    ∧ replayed m = false
    ∧ (reserve_in c authority funding engagement id hold at_).1
      = (lift (project_call codec (billing_scope funding) engagement (call_record funding engagement id hold grant at_)) c1).1.
Proof.
  unfold reserve_call. destruct (resolve_plan _ _ _ _ _ _) as [[grant|d]|e]; [|done..].
  destruct (negb _ || _) eqn:Hsame; [done|]. apply orb_false_iff in Hsame as [H1%negb_false_iff%String.eqb_eq H2%negb_false_iff%String.eqb_eq].
  destruct (fold_ledger (log_db c) (billing_scope funding)) as [s|]; [|done]. destruct (bool_decide (is_Some _)); [done|].
  destruct (fold_usage_for_funding_period _ _ _ _ _ _ _) as [used|]; [|done]. cbv zeta.
  destruct (admit_ledger c _ _ _) as [c1 [m|[[]|]]] eqn:Hadm; try done; [|by destruct (String.eqb _ _)].
  destruct (replayed m) eqn:Hrep; [done|]. intros Hop. exists grant, (total_tokens used), (included_tokens (plan grant)), c1, m.
  split_and!; try done. by destruct (lift _ c1) as [c2 [[]|]].
Qed.

(** C38: A call is held once, on verified funding and within the credit. A call that is
    admitted was resolved against funding that grants at that moment, for the very scope
    and source the turn was admitted under; its reservation did not exist, its hold is at
    most what was available and takes exactly that from it, and it is open afterwards. And
    in every later database no call is admitted again under its id from the same
    account, whatever funding, chat, hold or time it comes with. *)
Theorem call_admitted_once c authority funding engagement id hold at_ c' :
  inv c → reserve_in c authority funding engagement id hold at_ = (c', Ok (Ok ())) →
  (∃ grant, resolve_plan funding_json codec (log_db c) (mkId (account_scope funding)) (mkId (tenant_scope funding)) (context authority at_) = Ok (Ok grant)
     ∧ as_str (fe_scope (evidence grant)) = billing_scope funding ∧ reference grant = wf_funding_ref funding)
  ∧ (∃ s s', fold_ledger (log_db c) (billing_scope funding) = Ok s ∧ fold_ledger (log_db c') (billing_scope funding) = Ok s'
      ∧ reservations s !! id = None ∧ (hold_maximum_nanos_usd hold ≤ available_nanos_usd s)%N
      ∧ available_nanos_usd s' = (available_nanos_usd s - hold_maximum_nanos_usd hold)%N
      ∧ ∃ h, reservations s' !! id = Some h ∧ is_open h = true ∧ maximum_nanos_usd (held_record h) = hold_maximum_nanos_usd hold)
  ∧ advance c c' ∧ ∀ c2 authority' funding' engagement' hold' at', advance c' c2 → billing_scope funding' = billing_scope funding →
      (reserve_in c2 authority' funding' engagement' id hold' at').2 ≠ Ok (Ok ()).
Proof.
  intros Hinv Hop. destruct (reserve_call_inv c authority funding engagement id hold at_) as
    (grant & observed & included & c1 & m & Hres & H1 & H2 & Hadm & Hrep & Hc'); [by rewrite Hop|].
  rewrite Hop in Hc'. cbn [fst] in Hc'. set (record := call_record funding engagement id hold grant at_) in *.
  destruct (allowance_admitted _ _ _ _ _ _ Hinv Hadm) as (Ha1 & Hinv1 & Hrec1 & Hf1 & _ & Hm).
  rewrite Hrep in Hm. destruct Hm as (_ & s & es & Hs & Happ).
  destruct (reserved_once _ _ _ _ Happ) as (Hnew & Hav & Hres' & Hg' & Hd').
  destruct (lift_keeps (project_call codec (billing_scope funding) engagement record) c1 (project_writes _ _ _) Hinv1) as (Ha2 & Hinv2 & Hf2).
  rewrite <-Hc' in Ha2, Hinv2, Hf2. assert (advance c c') as Ha by (by eapply advance_trans).
  split_and!; [by exists grant| |done|].
  - exists s, (state m). rewrite Hf2. split_and!; [done|done|exact Hnew|exact Hav|exact (hold_taken s _ record Hnew Hav Hres' Hg' Hd')|].
    exists (mkHeld record MA_Open). rewrite Hres'. split_and!; [apply lookup_insert_eq|done|done].
  - intros c3 authority' funding' engagement' hold' at' Ha3 Hbill Hop3. assert (inv c3) as Hinv3 by (by eapply advance_inv).
    destruct (reserve_call_inv _ _ _ _ _ _ _ Hop3) as (grant' & o' & i' & c4 & m' & _ & _ & _ & Hadm3 & Hrep' & _).
    destruct (allowance_admitted _ _ _ _ _ _ Hinv3 Hadm3) as (_ & _ & _ & _ & _ & Hm').
    rewrite Hrep', Hbill in Hm'. destruct Hm' as (Hnone & _).
    destruct (receipts_later _ _ _ Ha3 (receipts_later _ _ _ Ha2 Hrec1)) as [v Hv]. congruence.
Qed.

(** *** Settlements *)

Definition settle_key (id : string) : string := "managed-allowance-settle:" +:+ id.

(** The receipt of a settlement is that of the ledger's command alone. *)
Definition spares {T} (p : Prog T) : Prop :=
  ∀ db scope id, command_receipts (p db).1 !! (scope, settle_key id) = command_receipts db !! (scope, settle_key id).

Lemma quiet_spares {T} (p : Prog T) : (∀ db, command_receipts (p db).1 = command_receipts db) → spares p.
Proof. intros Hp db scope id. by rewrite Hp. Qed.

Lemma bind_spares {S T} (p : Prog S) (k : S → Prog T) : spares p → (∀ x, spares (k x)) → spares (bind p k).
Proof.
  intros Hp Hk db scope id. unfold bind. specialize (Hp db scope id). destruct (p db) as [db' [x|e]]; cbn in *; [|done]. by rewrite Hk.
Qed.

Lemma serialized_spares {E} (json : Json E) e : spares (serialized json e).
Proof. apply quiet_spares. intros db. unfold serialized. by destruct (to_json json e). Qed.

Lemma keyed_spares scope key kind payload : (∀ id, key ≠ settle_key id) → spares (keyed_append codec scope key kind payload).
Proof.
  intros Hk db scope' id. unfold keyed_append, append_record_with_key, transaction.
  destruct (encode_payload _ _ _ _); [|done]. destruct (command_receipts db !! (scope, key)); [done|].
  unfold insert_event, insert_receipt. destruct (select_at _ _ _); [done|]. cbn. destruct (command_receipts db !! (scope, key)); [done|].
  cbn. apply lookup_insert_ne. intros [= _ Heq]. by eapply Hk.
Qed.

Lemma in_both_spares engagement billing key kind payload :
  (∀ id, key ≠ settle_key id) → spares (append_in_both codec engagement billing key kind payload).
Proof.
  intros Hk. apply bind_spares; [by apply keyed_spares|]. intros _. destruct (String.eqb billing engagement); [by apply quiet_spares|].
  apply bind_spares; [by apply keyed_spares|]. intros _. by apply quiet_spares.
Qed.

Lemma insert_all_spares stored : ∀ db db' ps, insert_all db stored = Ok (db', ps) → command_receipts db' = command_receipts db.
Proof.
  induction stored as [|[[scope kind] payload] stored IH]; intros db db' ps; cbn [insert_all]; [by intros [= <- _]|].
  unfold insert_event. destruct (select_at _ _ _); [done|]. destruct (insert_all _ stored) as [[db1 ps1]|] eqn:Hi; [|done].
  intros [= <- _]. by apply IH in Hi.
Qed.

Lemma usage_spares engagement billing r : spares (append_usage_record codec engagement billing r).
Proof.
  apply bind_spares; [apply serialized_spares|]. intros p.
  destruct (String.eqb billing engagement); (apply bind_spares; [|intros _; by apply quiet_spares]); apply quiet_spares; intros db.
  - unfold append_record, transaction. destruct (encode_payload _ _ _ _); [|done]. unfold insert_event. by destruct (select_at _ _ _).
  - unfold append_records_atomically, transaction. destruct (encode_all _ _) as [stored|]; [|done].
    destruct (insert_all db stored) as [[db' ps]|] eqn:Hi; [|done]. by apply insert_all_spares in Hi.
Qed.

Notation settle_one funding engagement usage basis c call drawn actual :=
  (settle_call cost_json ledger_json command_json codec anchor reducer_build funding engagement usage basis c call drawn actual).
Notation settle_many funding engagement usage basis c calls costs tokens :=
  (settle_loop cost_json ledger_json command_json codec anchor reducer_build funding engagement usage basis c calls costs tokens).

(** The projections of one settled call. *)
Definition projections (funding : WorkChatFunding) (engagement : string) (usage : ModelUsage) (basis : CostBasis)
    (call : HeldCall) (drawn : N) : Prog unit :=
  do payload <- serialized cost_json (mkCallCost (hc_reservation_id call) (call_usage_ref usage call) drawn basis
                                        (rate_card_version funding) MARGIN_BASIS_POINTS);
  do _ <- keyed_append codec (billing_scope funding) ("managed-call-cost:" +:+ hc_reservation_id call) WORK_CHAT_CALL_COST_KIND payload;
  settle_reservation codec engagement (billing_scope funding) (hc_reservation_id call) (Some (call_usage_ref usage call)) "".

Lemma projections_keep funding engagement usage basis call drawn :
  writes (projections funding engagement usage basis call drawn) ∧ spares (projections funding engagement usage basis call drawn).
Proof.
  split.
  - apply bind_writes; [apply serialized_writes|]. intros p. apply bind_writes; [apply keyed_writes; do 3 right; by left|].
    intros _. apply settle_reservation_writes.
  - apply bind_spares; [apply serialized_spares|]. intros p. apply bind_spares; [by apply keyed_spares|].
    intros _. apply bind_spares; [apply serialized_spares|]. intros q. by apply in_both_spares.
Qed.

(** A state in which one more reservation was settled. *)
Definition settled_in (id : string) (drawn : N) (s s' : ManagedAllowanceState) : Prop :=
  (∃ h, reservations s !! id = Some h ∧ is_open h = true
     ∧ reservations s' = <[id := h <| held_status := MA_Settled |>]> (reservations s))
  ∧ credit_grants s' = credit_grants s ∧ drawn_nanos_usd s' = u64_saturating_add (drawn_nanos_usd s) drawn.

Lemma settled_applied s id reference actual drawn s' es :
  apply ledger s (MC_Settle (mkSettle id reference actual (Some drawn))) = Applied es s' → settled_in id drawn s s'.
Proof.
  intros [Hd He]%apply_admitted. cbn [ledger lc_decide allowance_decide st_reservation_id] in Hd.
  destruct (reservations s !! id) as [h|] eqn:Hh; [|done]. destruct (_ || _) eqn:Hbad; [done|].
  apply orb_false_iff in Hbad as [Ho%negb_false_iff _]. injection Hd as <-. cbn [st_reservation_id actual_nanos_usd default] in He.
  cbn -[set_status] in He. rewrite Hh in He.
  assert (alter (λ h, h <| held_status := MA_Settled |>) id (reservations s) = <[id := h <| held_status := MA_Settled |>]> (reservations s)) as Ha.
  { apply map_eq. intros k. destruct (base.decide (k = id)) as [->|]; [by rewrite lookup_alter_eq, lookup_insert_eq, Hh|].
    by rewrite lookup_alter_ne, lookup_insert_ne. }
  destruct (allowance_period _); injection He as <-; (split_and!; [exists h; split_and!; [done|exact Ho|exact Ha]|done|done]).
Qed.

(** What settling one call does, the first time and every time after. *)
Lemma settle_call_done funding engagement usage basis c call drawn actual s :
  inv c → fold_ledger (log_db c) (billing_scope funding) = Ok s →
  command_receipts (log_db c) !! (billing_scope funding, settle_key (hc_reservation_id call)) = None →
  (settle_one funding engagement usage basis c call drawn actual).2 = Ok () →
  let c' := (settle_one funding engagement usage basis c call drawn actual).1 in
  advance c c' ∧ inv c' ∧ is_Some (command_receipts (log_db c') !! (billing_scope funding, settle_key (hc_reservation_id call)))
  ∧ (∀ id, id ≠ hc_reservation_id call → command_receipts (log_db c') !! (billing_scope funding, settle_key id)
                                        = command_receipts (log_db c) !! (billing_scope funding, settle_key id))
  ∧ ∃ s', fold_ledger (log_db c') (billing_scope funding) = Ok s' ∧ settled_in (hc_reservation_id call) drawn s s'.
Proof.
  intros Hinv Hs Hnone. unfold settle_call. fold (settle_key (hc_reservation_id call)).
  destruct (admit_ledger c _ _ _) as [c1 [m|e]] eqn:Hadm; [|done].
  destruct (allowance_admitted _ _ _ _ _ _ Hinv Hadm) as (Ha1 & Hinv1 & Hrec & Hf & Hsame & Hm).
  fold (projections funding engagement usage basis call drawn).
  destruct (projections_keep funding engagement usage basis call drawn) as [Hw Hk].
  destruct (lift_keeps _ c1 Hw Hinv1) as (Ha2 & Hinv2 & Hf2). intros _. cbv zeta.
  assert (∀ id, command_receipts (log_db (lift (projections funding engagement usage basis call drawn) c1).1) !! (billing_scope funding, settle_key id)
    = command_receipts (log_db c1) !! (billing_scope funding, settle_key id)) as Hk2 by (intros id; apply Hk).
  split_and!; [by eapply advance_trans|done|by rewrite Hk2| |].
  - intros id Hne. rewrite Hk2. apply Hsame. intros [= Heq]. by apply Hne.
  - destruct (replayed m); [rewrite Hm in Hrec; destruct Hrec as [v Hv]; congruence|].
    destruct Hm as (_ & s0 & es & Hs0 & Happ). assert (s0 = s) as -> by congruence. exists (state m). rewrite Hf2.
    split; [done|by eapply settled_applied].
Qed.

Lemma settle_call_again funding engagement usage basis c call drawn actual :
  inv c → is_Some (command_receipts (log_db c) !! (billing_scope funding, settle_key (hc_reservation_id call))) →
  keeps c (settle_one funding engagement usage basis c call drawn actual).1.
Proof.
  intros Hinv Hk. unfold settle_call. fold (settle_key (hc_reservation_id call)).
  set (cmd := MC_Settle _). pose proof (materialized_again codec anchor reducer_build funding_host intent_json (λ _, command_json) ()
    c (billing_scope funding) (settle_key (hc_reservation_id call)) cmd Hinv Hk) as Hl.
  pose proof (materialized_advance codec anchor reducer_build funding_host one_kind ledger_outbox intent_json (λ _, command_json) ()
    c (billing_scope funding) (settle_key (hc_reservation_id call)) cmd Hinv) as Ha.
  cbn [funding_host lifecycle h_json] in Hl, Ha. destruct (admit_ledger c _ _ cmd) as [c1 [m|e]]; cbn [fst] in *.
  - fold (projections funding engagement usage basis call drawn).
    assert (inv c1) as Hinv1 by (by eapply advance_inv).
    destruct (lift_keeps _ c1 (proj1 (projections_keep funding engagement usage basis call drawn)) Hinv1) as (Ha2 & Hinv2 & Hf2).
    split_and!; [by eapply advance_trans|done|]. intros scope. by rewrite Hf2, Hl.
  - split_and!; [done|by eapply advance_inv|]. intros scope. by rewrite Hl.
Qed.

(** A state in which the reservations [ids] were settled for [costs]. *)
Record settled_all (ids : list string) (costs : list N) (s s' : ManagedAllowanceState) : Prop := {
  sa_grants : credit_grants s' = credit_grants s;
  sa_drawn : drawn_nanos_usd s' = foldl u64_saturating_add (drawn_nanos_usd s) costs;
  sa_closed : ∀ id, id ∈ ids → ∃ h, reservations s !! id = Some h ∧ is_open h = true
                ∧ reservations s' !! id = Some (h <| held_status := MA_Settled |>);
  sa_others : ∀ id, id ∉ ids → reservations s' !! id = reservations s !! id;
}.

Lemma settled_cons id drawn ids costs s s1 s' :
  id ∉ ids → settled_in id drawn s s1 → settled_all ids costs s1 s' → settled_all (id :: ids) (drawn :: costs) s s'.
Proof.
  intros Hid ((h & Hh & Ho & Hr) & Hg & Hd) [Hg' Hd' Hc Hot]. split.
  - congruence.
  - cbn [foldl]. by rewrite Hd', Hd.
  - intros id' [->|Hin]%elem_of_cons.
    + exists h. split_and!; [done|done|]. by rewrite Hot, Hr, lookup_insert_eq.
    + destruct (Hc id' Hin) as (h' & Hh' & Ho' & Hs'). exists h'. rewrite Hr in Hh'.
      rewrite lookup_insert_ne in Hh' by (intros ->; done). done.
  - intros id' Hn. apply not_elem_of_cons in Hn as [Hne Hn]. rewrite Hot by done. rewrite Hr. by apply lookup_insert_ne.
Qed.

Notation unsettled c billing calls :=
  (∀ call, call ∈ calls → command_receipts (log_db c) !! (billing, settle_key (hc_reservation_id call)) = None).

Lemma settle_loop_done funding engagement usage basis calls : ∀ c costs tokens s,
  length costs = length calls → length tokens = length calls → NoDup (hc_reservation_id <$> calls) →
  inv c → fold_ledger (log_db c) (billing_scope funding) = Ok s → unsettled c (billing_scope funding) calls →
  (settle_many funding engagement usage basis c calls costs tokens).2 = Ok () →
  let c' := (settle_many funding engagement usage basis c calls costs tokens).1 in
  advance c c' ∧ inv c'
  ∧ (∀ call, call ∈ calls → is_Some (command_receipts (log_db c') !! (billing_scope funding, settle_key (hc_reservation_id call))))
  ∧ ∃ s', fold_ledger (log_db c') (billing_scope funding) = Ok s' ∧ settled_all (hc_reservation_id <$> calls) costs s s'.
Proof.
  induction calls as [|call calls IH]; intros c [|cost costs] [|actual tokens] s; try done.
  - intros _ _ _ Hinv Hs _ _. split_and!; [by apply advance_refl|done|by intros ? ?%elem_of_nil|]. exists s. split; [done|].
    split; try done. by intros ? ?%elem_of_nil.
  - intros [= Hlc] [= Hlt] [Hid Hnd]%NoDup_cons Hinv Hs Hnone. cbn [settle_loop fmap list_fmap].
    pose proof (settle_call_done funding engagement usage basis c call cost actual s Hinv Hs (Hnone call (list_elem_of_here _ _))) as Hone.
    destruct (settle_call _ _ _ _ _ _ _ _ _ _ c call cost actual) as [c1 [[]|e]]; [|done]. cbn [fst snd] in Hone.
    destruct (Hone eq_refl) as (Ha1 & Hinv1 & Hrec & Hsame & s1 & Hs1 & Hset). intros Hrest.
    destruct (IH c1 costs tokens s1 Hlc Hlt Hnd Hinv1 Hs1) as (Ha2 & Hinv2 & Hrec2 & s' & Hs' & Hall); [|done|].
    { intros call' Hin. rewrite Hsame; [by apply Hnone; right|]. intros Heq. apply Hid. rewrite <-Heq. by apply list_elem_of_fmap_2. }
    split_and!; [by eapply advance_trans|done| |by exists s'; split; [done|eapply settled_cons]].
    intros call' [->|Hin]%elem_of_cons; [by eapply receipts_later|by apply Hrec2].
Qed.

Lemma settle_loop_again funding engagement usage basis calls : ∀ c costs tokens,
  inv c → (∀ call, call ∈ calls → is_Some (command_receipts (log_db c) !! (billing_scope funding, settle_key (hc_reservation_id call)))) →
  keeps c (settle_many funding engagement usage basis c calls costs tokens).1.
Proof.
  induction calls as [|call calls IH]; intros c [|cost costs] [|actual tokens] Hinv Hk; try (by split_and!; [apply advance_refl|..]).
  cbn [settle_loop].
  destruct (settle_call_again funding engagement usage basis c call cost actual Hinv (Hk call (list_elem_of_here _ _))) as (Ha1 & Hinv1 & Hf1).
  destruct (settle_call _ _ _ _ _ _ _ _ _ _ c call cost actual) as [c1 [[]|e]]; cbn [fst] in *; [|by split_and!].
  destruct (IH c1 costs tokens Hinv1) as (Ha2 & Hinv2 & Hf2).
  { intros call' Hin. eapply receipts_later; [exact Ha1|]. apply Hk. by right. }
  split_and!; [by eapply advance_trans|done|]. intros scope. by rewrite Hf2.
Qed.

Lemma saturating_total costs : ∀ t, (t ≤ u64_max)%N → foldl u64_saturating_add t costs = N.min (t + sum_by id costs) u64_max.
Proof.
  induction costs as [|x costs IH]; intros t Ht; cbn [foldl sum_by]; [lia|].
  unfold u64_saturating_add in *. unfold id in *. rewrite IH; lia.
Qed.

Notation settle_turn c funding engagement calls usage measured observed_at :=
  (settle_calls cost_json ledger_json command_json codec anchor reducer_build c funding engagement calls usage measured observed_at).

Lemma split_exactly (f : HeldCall → N) calls t :
  calls ≠ [] → length (allocate (f <$> calls) t) = length calls ∧ sum_by id (allocate (f <$> calls) t) = t.
Proof. intros Hne. destruct (allocation_exact (f <$> calls) t) as (Hl & Ht & _); [by destruct calls|]. by rewrite Hl, length_fmap. Qed.

Lemma calls_held c funding engagement calls usage measured observed_at c' turn :
  settle_turn c funding engagement calls usage measured observed_at = (c', Ok turn) → calls ≠ [].
Proof. intros Hop ->. done. Qed.

Lemma usage_kept funding engagement usage observed_at c :
  inv c → let c1 := (lift (append_funded_usage codec engagement (billing_scope funding) usage (wf_funding_ref funding) observed_at) c).1 in
  keeps c c1 ∧ ∀ id, command_receipts (log_db c1) !! (billing_scope funding, settle_key id)
                     = command_receipts (log_db c) !! (billing_scope funding, settle_key id).
Proof. intros Hinv. split; [apply lift_keeps; [apply usage_writes|done]|]. intros id. apply usage_spares. Qed.

Lemma settle_calls_done funding engagement calls usage measured observed_at c s c' turn :
  inv c → fold_ledger (log_db c) (billing_scope funding) = Ok s →
  NoDup (hc_reservation_id <$> calls) → unsettled c (billing_scope funding) calls →
  settle_turn c funding engagement calls usage measured observed_at = (c', Ok turn) →
  settled_drawn turn = (turn_cost funding usage measured).1 ∧ advance c c' ∧ inv c'
  ∧ (∀ call, call ∈ calls → is_Some (command_receipts (log_db c') !! (billing_scope funding, settle_key (hc_reservation_id call))))
  ∧ ∃ s', fold_ledger (log_db c') (billing_scope funding) = Ok s'
      ∧ settled_all (hc_reservation_id <$> calls)
          (allocate ((λ call, hold_maximum_nanos_usd (hc_hold call)) <$> calls) (turn_cost funding usage measured).1) s s'.
Proof.
  intros Hinv Hs Hnd Hnone Hop. pose proof (calls_held _ _ _ _ _ _ _ _ _ Hop) as Hne. revert Hop. unfold settle_calls.
  destruct (bool_decide (calls = [])); [done|]. destruct (blank _); [done|]. destruct (negb _); [done|].
  destruct (turn_cost funding usage measured) as [total basis].
  destruct (usage_kept funding engagement usage observed_at c Hinv) as [(Ha1 & Hinv1 & Hf1) Hk1].
  destruct (lift _ c) as [c1 [[]|e]]; [|done]. cbn [fst] in *.
  set (costs := allocate _ total). set (tokens := allocate _ (u64_saturating_add _ _)).
  pose proof (settle_loop_done funding engagement usage basis calls c1 costs tokens s) as Hdone.
  destruct (settle_loop _ _ _ _ _ _ _ _ _ _ c1 calls costs tokens) as [c2 [[]|e]]; [|done]. cbn [fst snd] in Hdone. intros [= <- <-].
  destruct Hdone as (Ha2 & Hinv2 & Hrec & Hs2); try done; try (by apply split_exactly); [by rewrite Hf1| |].
  - intros call Hin. rewrite Hk1. by apply Hnone.
  - split_and!; [done|by eapply advance_trans|done|done|done].
Qed.

Lemma settle_calls_again funding engagement calls usage measured observed_at c :
  inv c → (∀ call, call ∈ calls → is_Some (command_receipts (log_db c) !! (billing_scope funding, settle_key (hc_reservation_id call)))) →
  ∀ scope, fold_ledger (log_db (settle_turn c funding engagement calls usage measured observed_at).1) scope = fold_ledger (log_db c) scope.
Proof.
  intros Hinv Hk scope. unfold settle_calls.
  destruct (bool_decide (calls = [])); [done|]. destruct (blank _); [done|]. destruct (negb _); [done|].
  destruct (turn_cost funding usage measured) as [total basis].
  destruct (usage_kept funding engagement usage observed_at c Hinv) as [(Ha1 & Hinv1 & Hf1) Hk1].
  destruct (lift _ c) as [c1 [[]|e]]; cbn [fst] in *; [|by apply Hf1].
  set (costs := allocate _ total). set (tokens := allocate _ (u64_saturating_add _ _)).
  destruct (settle_loop_again funding engagement usage basis calls c1 costs tokens Hinv1) as (_ & _ & Hf2).
  { intros call Hin. rewrite Hk1. by apply Hk. }
  destruct (settle_loop _ _ _ _ _ _ _ _ _ _ c1 calls costs tokens) as [c2 [[]|e]]; cbn [fst] in *; by rewrite Hf2, Hf1.
Qed.

(** A turn is charged its cost, once. Settling a turn whose calls were not settled
    before draws from the account's ledger exactly the turn's cost, measured or estimated
    (at the ledger's 64 bits); each of the calls was held and is settled, and every other
    reservation and every credit is as it was. And in every later database another
    settlement of these calls, with whatever usage, cost and time, changes no ledger. *)
Theorem turn_settled_exactly c funding engagement calls usage measured observed_at s c' turn :
  inv c → fold_ledger (log_db c) (billing_scope funding) = Ok s →
  NoDup (hc_reservation_id <$> calls) → unsettled c (billing_scope funding) calls →
  settle_turn c funding engagement calls usage measured observed_at = (c', Ok turn) →
  settled_drawn turn = (turn_cost funding usage measured).1
  ∧ (∃ s', fold_ledger (log_db c') (billing_scope funding) = Ok s'
      ∧ drawn_nanos_usd s' = N.min (drawn_nanos_usd s + settled_drawn turn) u64_max ∧ credit_grants s' = credit_grants s
      ∧ (∀ call, call ∈ calls → ∃ h, reservations s !! hc_reservation_id call = Some h ∧ is_open h = true
           ∧ reservations s' !! hc_reservation_id call = Some (h <| held_status := MA_Settled |>))
      ∧ ∀ id, id ∉ hc_reservation_id <$> calls → reservations s' !! id = reservations s !! id)
  ∧ advance c c' ∧ ∀ c2 engagement' usage' measured' at', advance c' c2 →
      ∀ scope, fold_ledger (log_db (settle_turn c2 funding engagement' calls usage' measured' at').1) scope = fold_ledger (log_db c2) scope.
Proof.
  intros Hinv Hs Hnd Hnone Hop. destruct (settle_calls_done funding engagement calls usage measured observed_at c s c' turn)
    as (Ht & Ha & Hinv' & Hrec & s' & Hs' & [Hg Hd Hc Ho]); try done.
  split_and!; [done| |done|].
  - exists s'. split_and!; [done| |done| |done].
    + rewrite Hd, saturating_total, Ht; [by rewrite (proj2 (split_exactly _ _ _ (calls_held _ _ _ _ _ _ _ _ _ Hop)))|].
      destruct (ledger_of c (billing_scope funding) Hinv) as (log & s0 & Htr & Hf). assert (s0 = s) as -> by congruence.
      destruct (ledger_trace _ _ Htr) as [-> _ _ _ _ _ _]. lia.
    + intros call Hin. apply Hc. by apply list_elem_of_fmap_2.
  - intros c2 engagement' usage' measured' at' Ha2 scope. assert (inv c2) as Hinv2 by (by eapply advance_inv).
    apply settle_calls_again; [done|]. intros call Hin. eapply receipts_later; [exact Ha2|by apply Hrec].
Qed.
End promises.

(** ** The properties at concrete inputs *)

Module WorkChatSample.
Import SampleTexts OrganizationSample InferenceSample FundingSample.

Definition card_rates : ModelRates := mkRates 3000000 300000 3750000 15000000 "list" "2026-01".

Lemma estimate_within_holds_witness :
  (estimated_cost card_rates 1500 300 ≤ sum_by (λ c, hold_maximum_nanos_usd (call_hold card_rates c.1 c.2)) [(1000, 200); (700, 100)])%N.
Proof.
  apply (estimate_within_holds card_rates [(1000, 200); (700, 100)]%N 1500 300);
    [unfold rates_u64, is_u64; vm_compute; repeat split|repeat constructor|reflexivity|reflexivity|vm_compute; discriminate|vm_compute; discriminate].
Defined.

Lemma allocation_exact_witness :
  allocate [100; 50; 70]%N 170 = [100; 50; 20]%N ∧ Forall2 N.le (allocate [100; 50; 70]%N 170) [100; 50; 70]%N.
Proof.
  split; [reflexivity|]. refine (proj2 (proj2 (proj2 (allocation_exact [100; 50; 70]%N 170 _))) _); [discriminate|vm_compute; discriminate].
Defined.

Lemma call_named_witness : ("chat-1" = "chat-1" ∧ 7%Z = 7%Z ∧ "cmd" = "cmd" ∧ 1%N = 1%N)
  ∨ let call := id_part "chat-1" ++ id_part (pretty 7%Z) ++ id_part "cmd" ++ id_part (pretty 1%N) in collides call call.
Proof.
  apply (call_named "chat-1" 7 "cmd" 1 "chat-1" 7 "cmd" 1); [|reflexivity]. repeat constructor; vm_compute; reflexivity.
Defined.

#[local] Instance grant_eq_dec : EqDecision ManagedCreditGrant.
Proof. solve_decision. Defined.
#[local] Instance reserve_eq_dec : EqDecision ManagedAllowanceReserve.
Proof. solve_decision. Defined.
#[local] Instance settle_eq_dec : EqDecision ManagedAllowanceSettle.
Proof. solve_decision. Defined.
#[local] Instance release_eq_dec : EqDecision ManagedAllowanceRelease.
Proof. solve_decision. Defined.
#[local] Instance command_eq_dec : EqDecision ManagedAllowanceCommand.
Proof. solve_decision. Defined.
#[local] Instance event_eq_dec : EqDecision ManagedAllowanceEvent.
Proof. solve_decision. Defined.

(** One call of a chat of "acme", whose plan is live from 100 to 200. *)
Definition funding : WorkChatFunding :=
  mkWorkChatFunding "me" "acme" "acme" (reference grant) "model" card_rates "card-1".
Definition hold : CallHold := call_hold card_rates 1000 200.
Definition held : ManagedReservationRecord := call_record funding "chat-1" "call-1" hold grant 150.
Definition grant_command : ManagedAllowanceCommand := MC_Grant starter.
Definition reserve_command : ManagedAllowanceCommand := MC_Reserve (mkReserve held 0 1000).

(** What the call used, and the gateway's cost of it. *)
Definition call_usage : ModelUsage := mkModelUsage "u1" "provider" "model" 900 150.
Definition measured : option N := Some 1000000%N.
Definition settle_command : ManagedAllowanceCommand := MC_Settle (mkSettle "call-1" "u1#call-1" 1050 (Some 1200000%N)).

Definition ledger_json : Json ManagedAllowanceEvent := table_json
  [("granted", ME_Granted starter); ("reserved", ME_Reserved held); ("settled", ME_Settled "call-1" "u1#call-1" 1050 1200000)].
#[export] Instance ledger_json_laws : JsonLaws ledger_json.
Proof. apply table_json_laws. vm_compute. repeat constructor; set_solver. Defined.
Definition command_json : Json (string * ManagedAllowanceCommand) :=
  table_json [("grant", (KIND ledger, grant_command)); ("reserve", (KIND ledger, reserve_command));
    ("settle", (KIND ledger, settle_command))].
#[local] Instance basis_eq_dec : EqDecision CostBasis.
Proof. solve_decision. Defined.
#[local] Instance cost_eq_dec : EqDecision CallCostRecord.
Proof. solve_decision. Defined.
Definition cost_json : Json CallCostRecord := table_json
  [("cost", mkCallCost "call-1" "u1#call-1" 1200000 Measured "card-1" MARGIN_BASIS_POINTS)].
Definition intent_json : Json Dispatch.DispatchIntent := mkJson (λ _, None) (λ _, None).

Definition anchor (raw : string) : string := sha256_hex (bytes_of raw).

Notation admit_ledger c scope key command :=
  (admit_materialized None anchor "build" ledger ledger_json command_json c scope key command).

(** A store with the starter credit of "acme" and the evidence of its plan. *)
Definition credited : Cdb := (admit_ledger empty_cdb "acme" "starter" grant_command).1.
Definition paid_plan (c : Cdb) : Cdb := (on_log c (append_record None (log_db c) "acme" MANAGED_PLAN_KIND (stored (paid "acme" 200)))).1.
Definition ready : Cdb := paid_plan credited.

Notation reserve c := (reserve_call FundingSample.funding_json ledger_json command_json None anchor "build" c hub funding "chat-1" "call-1" hold 150).

#[local] Instance anchored : AnchorLaws anchor.
Proof. intros raw. unfold anchor, sha256_hex. simpl. reflexivity. Qed.

Lemma ready_inv : inv None "build" (funding_host ledger_json) intent_json ready.
Proof.
  unfold ready, paid_plan. apply (lift_keeps ledger_json None anchor "build" intent_json
    (λ db, append_record None db "acme" MANAGED_PLAN_KIND (stored (paid "acme" 200)))).
  - intros db Hok. apply append_record_grows; [apply _|done|]. by split; [intros []|].
  - apply (ledger_inv ledger_json command_json None anchor "build" intent_json), empty_inv.
Qed.

Lemma call_admitted_once_witness :
  (reserve ready).2 = Ok (Ok ())
  ∧ ∀ c2, advance None "build" (funding_host ledger_json) intent_json (reserve ready).1 c2 →
      (reserve_call FundingSample.funding_json ledger_json command_json None anchor "build" c2 hub funding "chat-2" "call-1" hold 160).2
      ≠ Ok (Ok ()).
Proof.
  assert ((reserve ready).2 = Ok (Ok ())) as Hdone by (vm_compute; reflexivity).
  split; [exact Hdone|]. intros c2 Ha.
  refine (proj2 (proj2 (proj2 (call_admitted_once FundingSample.funding_json ledger_json command_json None anchor "build" intent_json
    ready hub funding "chat-1" "call-1" hold 150 (reserve ready).1 ready_inv _))) c2 hub funding "chat-2" hold 160%N Ha eq_refl).
  rewrite <-Hdone. destruct (reserve ready); reflexivity.
Defined.

Definition calls : list HeldCall := [mkHeldCall "call-1" hold].
Definition admitted : Cdb := (reserve ready).1.
Notation settle c := (settle_calls cost_json ledger_json command_json None anchor "build" c funding "chat-1" calls call_usage measured 160).

Lemma admitted_inv : inv None "build" (funding_host ledger_json) intent_json admitted.
Proof.
  unfold admitted. destruct (reserve_call_inv FundingSample.funding_json ledger_json command_json None anchor "build"
    ready hub funding "chat-1" "call-1" hold 150) as (g & observed & included & c1 & m & _ & _ & _ & Hadm & _ & Heq).
  - vm_compute. reflexivity.
  - pose proof (ledger_inv ledger_json command_json None anchor "build" intent_json ready (billing_scope funding)
      ("managed-allowance-reserve:" +:+ "call-1") (MC_Reserve (mkReserve (call_record funding "chat-1" "call-1" hold g 150) observed included))
      ready_inv) as H.
    rewrite Hadm in H. rewrite Heq. apply (lift_keeps ledger_json None anchor "build" intent_json _ c1 (project_writes ledger_json None _ _ _) H).
Qed.

Lemma turn_settled_exactly_witness :
  (settle admitted).2 = Ok (mkSettledTurn 1200000 Measured)
  ∧ (∃ s, fold None anchor "build" ledger ledger_json (log_db (settle admitted).1) "acme" = Ok s ∧ drawn_nanos_usd s = 1200000%N)
  ∧ ∀ c2, advance None "build" (funding_host ledger_json) intent_json (settle admitted).1 c2 →
      ∀ scope, fold None anchor "build" ledger ledger_json (log_db (settle c2).1) scope = fold None anchor "build" ledger ledger_json (log_db c2) scope.
Proof.
  assert ((settle admitted).2 = Ok (mkSettledTurn 1200000 Measured)) as Hdone by (vm_compute; reflexivity).
  assert (∃ s, fold None anchor "build" ledger ledger_json (log_db admitted) "acme" = Ok s ∧ drawn_nanos_usd s = 0%N) as (s & Hs & Hd).
  { eexists. split; [vm_compute; reflexivity|reflexivity]. }
  destruct (turn_settled_exactly cost_json ledger_json command_json None anchor "build" intent_json admitted funding "chat-1" calls
    call_usage measured 160 s (settle admitted).1 (mkSettledTurn 1200000 Measured) admitted_inv Hs) as (_ & (s' & Hs' & Hd' & _) & _ & Hagain).
  - repeat constructor. intros Hin. inversion Hin.
  - intros call Hin. apply list_elem_of_singleton in Hin as ->. vm_compute. reflexivity.
  - rewrite <-Hdone. destruct (settle admitted). reflexivity.
  - split; [exact Hdone|]. split; [|intros c2 Ha; exact (Hagain c2 "chat-1" call_usage measured 160%N Ha)].
    exists s'. split; [exact Hs'|]. rewrite Hd', Hd. reflexivity.
Defined.
End WorkChatSample.
